(* ===== verification/_CoqProject ===== *)
-Q . S2P
Prelude.v
Text.v
Order.v
Floats.v
Domain.v
Samples.v
Packet.v
PacketFacts.v
Framing.v
Transport.v
Discovery.v
Framed.v
Serial.v
Ble.v
BleFacts.v
BleProps.v
Tracker.v
Command.v
CommandFacts.v
CoreProps.v
Client.v
ClientFacts.v
ClientTransport.v
ClientProps.v
ClientTermination.v
ClientRequests.v
Managed.v
ManagedApi.v
ManagedFacts.v
ManagedProps.v
Roundtrip.v
Remote.v
RemoteFacts.v
RemoteProps.v
Hooks.v
HookRuntime.v
HookProps.v
Store.v
History.v
HistoryFacts.v
HistoryProps.v
Paths.v
MqttConfig.v
MqttSchema.v
MqttCommand.v
MqttRunner.v
MqttFacts.v
MqttProps.v
MqttSamples.v
Config.v
ConfigProps.v
CliOutput.v
CliArgs.v
Suggest.v
Resolve.v
Chat.v
Batch.v
Session.v
CliConfig.v
ProfileProps.v
Workflow.v
Send.v
Commands.v
CommandProps.v
Watch.v
Doctor.v
Consent.v
ChatSession.v
ChatProps.v
RemoteCli.v
HooksCli.v
MqttCli.v
MqttCliProps.v
Dispatch.v
Unattended.v
VirtualCompanion.v
VirtualBounds.v
VirtualProps.v
CliTransport.v
CliSamples.v
