(* ===== verification/Prelude.v ===== *)
(** * Meshquill: a verification library

    Meshquill talks to MeshCore radio companions.  Its core crate
    (crates/meshquill-core) parses and builds the companion protocol, runs the
    client state machine over a transport and, behind a queue, a managed client
    for many callers; crates/meshquill-transport provides the transports;
    crates/meshquill-store keeps the configuration and the message history;
    crates/meshquill-mqtt is a gateway to a broker; crates/meshquill-hooks runs
    the user's scripts; the command line (crates/meshquill-cli) and the Python
    bindings sit on top.  This library models the core from the bytes of a stream
    up to the managed client, the transports, the store, the MQTT gateway, the
    hooks, the command line and the virtual companion of the tests
    (crates/meshquill-test-support), and proves them correct.

    ** The parts and how they interact

    A companion sends packets of at most 176 bytes, over serial and TCP inside
    an outer frame (marker, 16-bit length, payload).  The framed reader
    (framed.rs) buffers the bytes of a stream and hands complete frames to the
    transport; the client (client.rs) reads packets from a transport, parses
    them (protocol.rs), answers the operation that waits for them or publishes
    them as events, tracks ACK codes in two bounded tables, and keeps one inbox
    synchronization outstanding at most.  Commands go the other way: a builder
    (protocol.rs) validates its arguments and encodes a packet, which the client
    hands to the transport.  The managed client (managed.rs) gives a client to
    one actor task; callers queue commands and can cancel them.  The gateway
    (mqtt) publishes core events to a broker and passes commands from it through
    a gate.  The store keeps the configuration and, per profile, a bounded file
    of messages; both are replaced atomically under a lock, and the paths of the
    histories are derived from the place of the configuration.  The hook runtime
    runs a Python interpreter per event, within limits of time, size and
    number, and lets a script allow, change or reject an outbound message.

    A command of the command line selects a profile from the configuration,
    makes a managed client over the transport of the profile, opens a session
    (connect, announce the connection to the hooks), does its work, and takes the
    session back (reset what it selected, shut down, withdraw the announcement)
    before it prints its result.  workflow.rs records messages and notifies the
    hooks; runtime.rs has the commands and their dispatch, remote_cli.rs,
    hooks_cli.rs and mqtt_cli.rs those of remote administration, of the hooks and
    of the bridge to a broker; batch_cli.rs runs commands of its own through the
    dispatch.  A profile without a radio talks to the virtual companion, which
    answers the commands of the protocol from a bounded state.

    ** Files

    - [Prelude]: machine integers, the [outcome] monad (a value, an error or a
      panic) with its postcondition logic [post], byte-string operations of the
      Rust standard library, hint databases, shared list lemmas.
    - [Text], [Floats]: [str::from_utf8]; trimming and number
      parsing of strings; characters, with their cases and classes (the class
      [UnicodeTables] beyond ASCII); IEEE 754 binary64 and binary32.
    - [Order]: the stable sorts of the standard library.
    - [Domain]: core/src/domain.rs and error.rs.  The third-party functions
      (hex, SHA-256) are the class [Crates], what is assumed of them is
      [CratesLaws]; [Samples] has an instance.
    - [Packet], [PacketFacts]: the inbound half of core/src/protocol.rs
      ([PacketCode], [Packet::parse] and its parsers, [code], [into_event]).
    - [Command], [CommandFacts]: the outbound half ([CommandCode], [Command] and
      every builder with its validation).
    - [CoreProps], [Roundtrip]: properties of the two halves, alone and
      together.
    - [Framing]: core/src/framing.rs.  [Framed]: transport/src/framed.rs and
      tcp.rs, the operating system's socket being data (what each read, write,
      connect and shutdown does).
    - [Transport]: core/src/transport.rs.  The trait is the class [Transport];
      [ObservedTransport] adds the packets the peer was handed and the laws the
      client relies on, [FiniteTransport] a bound on the packets to come,
      [CleanTransport] a state of the wire that is kept by every call, and
      [PromptTransport] that calls complete; the default [reconnect] of the trait
      is a function of its operations.  The scripted transport, TCP and the
      virtual companion are instances, and the theorems about the client hold for
      any instance.
    - [Discovery]: transport/src/discovery.rs.  [Serial]: transport/src/serial.rs,
      which [serial_simulates_tcp] relates to TCP.  [Ble], [BleFacts],
      [BleProps]: transport/src/ble.rs over the class
      [BleProvider] of the Bluetooth library ([BleRuntime], [LawfulProvider],
      [FiniteProvider] are what is assumed of it where it matters), every call
      of which can fail, pass its deadline or be dropped.
    - [Tracker]: the ACK tables of core/src/client.rs (a hash map and an order
      queue), which the source writes out twice.
    - [Client]: core/src/client.rs, all of [impl Client].  [ClientFacts] has a
      Hoare logic for its operations and the invariant, [ClientTransport] what
      the operations do to the transport; [ClientProps], [ClientTermination] and
      [ClientRequests] have the properties.
    - [Managed], [ManagedFacts], [ManagedProps]: core/src/managed.rs.  The actor,
      its queue and its callers are the step relation [managed_step]; the record
      [Ledger] remembers what became of each request.  [ManagedApi] has the
      methods of [ManagedClient], each of which queues one request.
    - [Remote], [RemoteFacts], [RemoteProps]: core/src/remote.rs, the requests
      and the parsers of replies of remote administration.
    - [Hooks], [HookRuntime], [HookProps]: hooks/src/lib.rs, first the events,
      settings, validation and bounded encoding, then the subprocess and the
      requests.  What the operating system does during a request is the record
      [os_run]; what the runtime does to it is a list of [effect]s; concurrent
      requests are the step relation [hook_step].  [serde_json] is the class
      [HookJson].
    - [Store]: the file operations of store/src/lib.rs and the
      crash logic [spec] about them.
    - [History], [HistoryFacts], [HistoryProps]: its message history, lemmas with a
      triple for each operation, and the properties.
      [serde_json] is the class [HistoryCodec] with [HistoryCodecLaws].
    - [Paths]: [std::path] and the derivation of the directories and history
      paths.  [Config]: the settings, their validation, profile selection,
      overrides, the redacted view and the configuration file.  [ConfigProps]
      has the properties of both.  [toml] is the class [ConfigToml] with
      [ConfigTomlLaws].
    - [MqttConfig], [MqttSchema], [MqttCommand], [MqttRunner]: the files of the
      same names of mqtt/src, topics.rs and backoff.rs being in [MqttConfig].
      [MqttFacts] and [MqttProps] have the lemmas and the properties,
      [MqttSamples] the witnesses.  [serde_json] is the class [MqttJson] with
      [MqttJsonLaws]; the TLS files are a parameter of the validation.
    - [CliOutput]: error.rs, output.rs and input.rs of cli/src; the JSON of a
      report is the class [CliJson].  [CliArgs]: args.rs.  [Suggest], [Resolve],
      [Chat]: suggestions, contacts, addresses and chat lines of
      runtime.rs.  [Batch]: the scripts, filters and operations of
      batch_cli.rs, clap and the dispatch being parameters.
    - [Session]: the monad [cli] of the commands over the class [Companion] (the
      managed client, the interrupt, the clock and the host, one call at a time),
      and the specification of a session: [protocol] says which calls,
      notifications and outputs may follow which, [follows] that a computation
      keeps to it, with the rules that compose it.
    - [CliConfig], [ProfileProps]: config.rs, profiles.rs and the configuration
      commands.  [Workflow]: workflow.rs.  [Send]: send and
      inbox.  [Commands], [CommandProps]: the other commands of runtime.rs that
      use one session.  [Watch]: reconnect.rs and watch.
      [Doctor]: devices and doctor.  [Consent]: what the commands that ask first
      do not do unless they were confirmed.
    - [ChatSession], [ChatProps]: the interactive session of runtime.rs over the
      class [ChatWorld] (what its [select!] finds ready), with a protocol of its
      own that remembers the deliveries.
    - [RemoteCli]: remote_cli.rs, the credential store of the
      platform being the class [Vault].  [HooksCli]: hooks_cli.rs.  [MqttCli],
      [MqttCliProps]: mqtt_cli.rs over the class [Broker], the gateway as the
      bridge sees it.
    - [Dispatch]: the dispatch of a parsed command line in
      runtime.rs, the drivers of batch_cli.rs, which call it, completions and
      manual pages; what every command line keeps to.  What clap generates is in
      the record [Surroundings].  [Unattended]: what no command line does without
      consent.
    - [VirtualCompanion]: test-support/src/lib.rs, the virtual companion with its
      handlers and faults.  [VirtualBounds] has its bounds and when a command
      cannot make it panic, [VirtualProps] the client of [Client] talking to it.
    - [CliTransport]: transport.rs, and the instance of [Companion] by the client
      of [Client] over such a transport, so that whole commands can be run;
      [CliSamples] runs some, as witnesses and examples, over a scripted
      transport and over the virtual companion.

    ** How code becomes definitions

    [Type::Variant] is [Type_Variant], the field [f] of a struct [S] is [S_f];
    a function keeps its name, with the type in front where two share it and
    [client_] in front of a client method that shares the name of a builder.
    A w-bit integer is a [Z] with its range as a predicate, and wrap-around or
    overflow written out; a byte string is a list of [u8]; a Rust string is the
    list of its UTF-8 bytes.  An index out of range, a bad slice and an overflow
    of unchecked arithmetic are [Panic], a result of its own, so a theorem that
    excludes it is a theorem about the source.  Maps are stdpp's [gmap].

    A client operation has type [io T A]: a function of the client that returns
    a result ([Ret], [Throw], [Crash] for a panic, [Stuck] for exhausted fuel,
    [Cancelled] when the future is dropped) and the client afterwards.  A call of
    the transport is [Ready], [Pending] (until the deadline, so the operation
    times out) or [Dropped] (the future that awaits it is dropped there, the
    effects so far remaining).  Events are the list of everything given to the
    event channel.

    A file operation has type [fs A]: before every call that can fail the state
    says whether it passes, fails or the process is killed, so a theorem about
    every state is one about every failure.  The environment variables and the
    clock are arguments.  The loops of the gateway run in
    [gw A]: at each suspension point a [fate] says what the environment does, and
    a log records what the gateway does to the outside.  A command has type
    [cli W A] over a world [W]; concurrent calls that do not depend on each other
    are made one after the other.

    ** Fuel

    The loops that read packets take fuel, one unit per packet.
    [ClientTermination.operations_terminate] shows that more fuel than packets to come
    is enough, so [Stuck] is never the result of a finite exchange (the class
    [Transport.FiniteTransport]: the source has no bound on the packets it skips);
    [ManagedProps.managed_requests_answered] uses it to end every turn of the
    actor.  [Framing.decode_frames] uses the length of its input, of which every
    turn removes at least three bytes; [Prelude.chunks] and [History.read_lines]
    use the length of the list, of which every turn removes an element.
    [Send.inbox_loop], [Watch.watch_loop], [Commands.collect_node_discovery],
    [ChatSession.chat_loop] and [MqttCli.bridge_loop], and the loops inside them,
    go on as long as the companion, the user or the broker has more to say; they
    take a bound on their turns, and the theorems about them hold for every bound:
    what they did up to it kept to the protocol, and nothing is claimed of an
    exhausted bound.  [Dispatch.dispatch] takes the depth of nested batches;
    [Dispatch.one_level_enough] shows that every depth above zero gives the
    same, a batch not holding another.

    ** What is proved

    - Parsing: no input panics, and accepted packets are well formed; the codes
      are in bijection with the bytes; remote replies likewise.
    - Building: every builder rejects or fits the 176 bytes; what the setters
      write is what the parsers read back.
    - Streams: reassembly delivers exactly the payloads of a stream whatever the
      chunking and cancellation; a TCP peer never sees a torn frame followed by
      another one.
    - The client: an invariant over all reachable states; no panics; every
      command is written at most once; commands are refused while an inbox
      response is outstanding; a request returns its first answer and publishes
      what comes before it, in order; ACKs are neither lost nor leaked; every
      operation terminates; a signature covers the data in order.
    - The ACK tables refine a bounded list.
    - The managed client refines a client with a single caller: requests are
      served in order and at most once by the method they ask for, cancelled ones
      never; every request is answered once the device stops sending; an
      interruption closes the session, so the wire stays clean.
    - The history: the newest entries are kept, files are read back as written,
      and loading, inserting and moving keep the history through every failure
      and kill, as long as the file system answers whether a file exists.
    - The configuration: a save is atomic and is loaded again as itself; a repair
      keeps the previous document; overrides do not depend on the order of the
      environment; the selected profile is the one asked for; the effective view
      shows nothing of a secret but that there is one; history files stay in
      their directory and are not shared.
    - The hooks: at most the configured number of subprocesses run that were not
      killed, a request that has ended has left none, and one that was dropped has
      left none that was not killed; only the configured
      interpreter is started, with the configured environment; an exchange does
      not depend on the order its streams end in; a message is sent only as the
      policy and the script allow.
    - The gateway: an accepted command is not accepted again within the bounds of
      the cache; it publishes, subscribes and hands on only what its
      configuration allows; reconnects follow the configured delays; published
      events can be read back; a validated configuration can be built.
    - The other transports: serial behaves as TCP does over the same bytes;
      Bluetooth leaves no scan behind, no link that it has not asked to be given
      back, and replays no packet;
      enumeration and discovery report each device once, at its best.
    - The command line: whatever the command, its links are given back; send,
      inbox, watch, chat, the bridge and the commands of one session keep to the
      protocol of a session on every path; a message seen twice counts once; a
      typed text is given to the device at most once; the bridge transmits only
      on a command of the broker; no command line, batches included, removes,
      erases or reboots without consent; a node is administered only with a
      session, and a remote command outside the read-only list needs to be marked
      and confirmed; reconnects are bounded; renaming a profile keeps its messages;
      profile commands keep the document valid; a batch file runs as a whole or
      not at all, after a lexer that is exactly a grammar; what the output writer
      shows a person is escaped; contacts are never guessed; doctor changes nothing
      uninvited.
    - The virtual companion: it stays within its capacities and, given contacts
      whose routes fit, answers or refuses every command; what a client sets, the next query reads back.

    Several theorems record behaviour the source does not intend, among them
    [Framing.decode_noise_exact], [ClientProps.refused_sync_blocks_commands],
    [Roundtrip.coordinate_readback], [HistoryProps.unanswered_query_forgets], the
    condition of [ConfigProps.saved_config_loads], [CliOutput.broken_pipe_status],
    [Batch.doctor_repair_may_be_nested], [CommandProps.discovery_filter_bits],
    [ProfileProps.unsynced_rename_strands_history],
    [ChatProps.numeric_name_is_channel], [VirtualBounds.unrouted_row_panics],
    [CliSamples.failed_selection_is_left] and [CliSamples.question_not_escaped].

    ** What is not modelled

    Debug redaction, serde derives and zeroization; durations other than their
    validation and the gateway's delays (time is which reads are pending); the
    capacity of the event channel; the construction of the broker session and of
    its TLS material, which is that of the MQTT library's options; the argument
    parser and the texts clap generates, the installation of signal handlers and
    of the tracing subscriber, and main.rs, which build the process; the Python
    bindings, which convert between Python objects and the domain types and
    forward to the managed client: their meaning is that of the interpreter. *)

From stdpp Require Export base decidable list gmap strings pretty.
From Stdlib Require Export ZArith Lia ZifyBool.

(** ** Scopes, hint databases *)

Declare Scope mq_scope.
Delimit Scope mq_scope with mq.
Create Rewrite HintDb mq_len.
Create HintDb mq_wf.

(** ** Machine integers

    A Rust unsigned [w]-bit integer is a [Z] in [0, 2^w); a signed one is a
    [Z] in [-2^(w-1), 2^(w-1)).  Byte strings are lists of [u8]. *)

Abbreviation u8 := Z (only parsing).
Abbreviation u16 := Z (only parsing).
Abbreviation u32 := Z (only parsing).
Abbreviation u64 := Z (only parsing).
Abbreviation i8 := Z (only parsing).
Abbreviation i16 := Z (only parsing).
Abbreviation i32 := Z (only parsing).
Abbreviation usize := nat (only parsing).
Abbreviation bytes := (list Z) (only parsing).
(** A Rust [String] or [&str] is the list of its UTF-8 bytes. *)
Abbreviation rstring := (list Z) (only parsing).

Definition is_uint (w : Z) (z : Z) : Prop := (0 ≤ z < 2 ^ w)%Z.
Definition is_sint (w : Z) (z : Z) : Prop := (- 2 ^ (w - 1) ≤ z < 2 ^ (w - 1))%Z.
Definition is_u8 (z : Z) : Prop := (0 ≤ z < 256)%Z.
Definition is_bytes (l : bytes) : Prop := Forall is_u8 l.

#[global] Instance is_u8_dec z : Decision (is_u8 z).
Proof. unfold is_u8. apply _. Defined.
#[global] Instance is_bytes_dec l : Decision (is_bytes l).
Proof. unfold is_bytes. apply _. Defined.
#[global] Instance is_uint_dec w z : Decision (is_uint w z).
Proof. unfold is_uint. apply _. Defined.
#[global] Instance is_sint_dec w z : Decision (is_sint w z).
Proof. unfold is_sint. apply _. Defined.

(** Two's complement reinterpretation at width [w]. *)
Definition to_signed (w : Z) (z : Z) : Z := if (z <? 2 ^ (w - 1))%Z then z else (z - 2 ^ w)%Z.
Definition to_unsigned (w : Z) (z : Z) : Z := (z mod 2 ^ w)%Z.

(** [usize] arithmetic with the 64-bit limit written out. *)
Definition usize_fits (z : Z) : bool := (z <? 2 ^ 64)%Z.
Definition usize_checked_add (a b : usize) : option usize :=
  if usize_fits (Z.of_nat a + Z.of_nat b) then Some (a + b) else None.
Definition usize_checked_mul (a b : usize) : option usize :=
  if usize_fits (Z.of_nat a * Z.of_nat b) then Some (a * b) else None.
Definition usize_saturating_add (a b : usize) : usize :=
  if usize_fits (Z.of_nat a + Z.of_nat b) then a + b else Z.to_nat (2 ^ 64 - 1).
Definition usize_saturating_mul (a b : usize) : usize :=
  if usize_fits (Z.of_nat a * Z.of_nat b) then a * b else Z.to_nat (2 ^ 64 - 1).

(** ** Results

    [Result<A, E>] with a third outcome for a panic (an index out of range, an
    arithmetic overflow): what a caller of the Rust function can observe. *)

Inductive outcome (E A : Type) : Type :=
| Ok (a : A)
| Err (e : E)
| Panic.
Arguments Ok {E A} a.
Arguments Err {E A} e.
Arguments Panic {E A}.

#[global] Instance outcome_ret {E} : MRet (outcome E) := fun A a => Ok a.
#[global] Instance outcome_bind {E} : MBind (outcome E) := fun A B f m =>
  match m with
  | Ok a => f a
  | Err e => Err e
  | Panic => Panic
  end.
#[global] Instance outcome_fmap {E} : FMap (outcome E) := fun A B f m =>
  match m with
  | Ok a => Ok (f a)
  | Err e => Err e
  | Panic => Panic
  end.

Definition map_err {E F A} (f : E → F) (m : outcome E A) : outcome F A :=
  match m with
  | Ok a => Ok a
  | Err e => Err (f e)
  | Panic => Panic
  end.

Definition ok_or {E A} (o : option A) (e : E) : outcome E A :=
  match o with
  | Some a => Ok a
  | None => Err e
  end.

Definition is_Ok {E A} (m : outcome E A) : bool :=
  match m with Ok _ => true | _ => false end.
Definition is_Err {E A} (m : outcome E A) : bool :=
  match m with Err _ => true | _ => false end.

(** [ensure b e]: an early [return Err(e)] unless the condition holds. *)
Definition ensure {E} (b : bool) (e : E) : outcome E () :=
  if b then Ok () else Err e.

(** [for x in l { ... }] over a loop-carried state with early returns. *)
Fixpoint try_fold {E A S} (f : S → A → outcome E S) (s : S) (l : list A) : outcome E S :=
  match l with
  | [] => Ok s
  | x :: l => s ← f s x; try_fold f s l
  end.

(** Postcondition of an outcome: no panic, [Q] of a value, [F] of an error. *)
Definition post {E A} (m : outcome E A) (Q : A → Prop) (F : E → Prop) : Prop :=
  match m with
  | Ok a => Q a
  | Err e => F e
  | Panic => False
  end.

(** An arithmetic result at an unsigned width: overflow panics. *)
Definition arith {E} (w : Z) (z : Z) : outcome E Z :=
  if (0 <=? z)%Z && (z <? 2 ^ w)%Z then Ok z else Panic.

(** ** Slices *)

(** [raw[i]]: panics out of range. *)
Definition idx {E} (raw : bytes) (i : usize) : outcome E u8 :=
  match raw !! i with
  | Some b => Ok b
  | None => Panic
  end.

(** [raw[i..j]]: panics unless [i <= j <= len]. *)
Definition slice {E} (raw : bytes) (i j : usize) : outcome E bytes :=
  if bool_decide (i ≤ j ∧ j ≤ length raw) then Ok (take (j - i) (drop i raw)) else Panic.

(** [raw[i..]]. *)
Definition slice_from {E} (raw : bytes) (i : usize) : outcome E bytes :=
  slice raw i (length raw).

(** [raw.get(i..j)]. *)
Definition get_range (raw : bytes) (i j : usize) : option bytes :=
  if bool_decide (i ≤ j ∧ j ≤ length raw) then Some (take (j - i) (drop i raw)) else None.

(** [raw.iter().position(p)]. *)
Fixpoint position (p : Z → bool) (l : bytes) : option usize :=
  match l with
  | [] => None
  | b :: l => if p b then Some 0 else S <$> position p l
  end.

(** [raw.chunks_exact(n)]: the complete chunks of [n] elements; a tail
    shorter than [n] is left out.  The fuel is the length of the slice. *)
Fixpoint chunks_exact_fuel {A} (fuel n : nat) (l : list A) : list (list A) :=
  match fuel with
  | 0 => []
  | S fuel =>
      if bool_decide (0 < n ∧ n ≤ length l)
      then take n l :: chunks_exact_fuel fuel n (drop n l) else []
  end.
Definition chunks_exact {A} (n : nat) (l : list A) : list (list A) :=
  chunks_exact_fuel (length l) n l.

(** [raw.chunks(n)]: as [chunks_exact], with a shorter last chunk kept. *)
Fixpoint chunks_fuel {A} (fuel n : nat) (l : list A) : list (list A) :=
  match fuel with
  | 0 => []
  | S fuel =>
      match l with
      | [] => []
      | _ => take n l :: chunks_fuel fuel n (drop n l)
      end
  end.
Definition chunks {A} (n : nat) (l : list A) : list (list A) :=
  chunks_fuel (length l) n l.

(** [text.split(sep)] for an ASCII separator: pieces between separators,
    always at least one piece. *)
Fixpoint split_on (sep : Z) (l : rstring) : list rstring :=
  match l with
  | [] => [[]]
  | b :: l =>
      if (b =? sep)%Z then [] :: split_on sep l
      else match split_on sep l with
           | [] => [[b]]
           | p :: ps => (b :: p) :: ps
           end
  end.

(** [text.split_once(sep)]. *)
Fixpoint split_once (sep : Z) (l : rstring) : option (rstring * rstring) :=
  match l with
  | [] => None
  | b :: l =>
      if (b =? sep)%Z then Some ([], l)
      else '(k, v) ← split_once sep l; Some (b :: k, v)
  end.

(** [vec.resize(n, 0)]. *)
Definition resize0 (n : usize) (l : bytes) : bytes :=
  take n l ++ replicate (n - length l) 0%Z.

(** [buf[i..j].copy_from_slice(src)]: panics on a bad range or when the lengths
    differ. *)
Definition copy_from_slice {E} (buf : bytes) (i j : usize) (src : bytes) : outcome E bytes :=
  if bool_decide (i ≤ j ∧ j ≤ length buf ∧ length src = j - i)
  then Ok (take i buf ++ src ++ drop j buf) else Panic.

(** The bytes of a string literal. *)
Definition str_bytes (s : string) : bytes :=
  (λ b : Byte.byte, Z.of_N (Byte.to_N b)) <$> String.list_byte_of_string s.

(** ** Little-endian encoding *)

Fixpoint to_le_bytes (n : nat) (z : Z) : bytes :=
  match n with
  | 0 => []
  | S n => (z mod 256)%Z :: to_le_bytes n (z / 256)%Z
  end.

Fixpoint from_le_bytes (l : bytes) : Z :=
  match l with
  | [] => 0%Z
  | b :: l => (b + 256 * from_le_bytes l)%Z
  end.

Definition from_be_bytes (l : bytes) : Z := from_le_bytes (rev l).

Definition u16_to_le_bytes (z : u16) : bytes := to_le_bytes 2 z.
Definition u32_to_le_bytes (z : u32) : bytes := to_le_bytes 4 z.
Definition u64_to_le_bytes (z : u64) : bytes := to_le_bytes 8 z.
Definition i32_to_le_bytes (z : i32) : bytes := to_le_bytes 4 (to_unsigned 32 z).
Definition i16_from_le_bytes (l : bytes) : i16 := to_signed 16 (from_le_bytes l).
Definition i32_from_le_bytes (l : bytes) : i32 := to_signed 32 (from_le_bytes l).
Definition i8_from_bytes (b : u8) : i8 := to_signed 8 b.
Definition i16_from_be_bytes (l : bytes) : i16 := to_signed 16 (from_be_bytes l).
Definition i32_from_be_bytes (l : bytes) : i32 := to_signed 32 (from_be_bytes l).

(** [u8::cast_unsigned] of an [i8]. *)
Definition i8_cast_unsigned (z : i8) : u8 := to_unsigned 8 z.

(** ** Rules for postconditions *)

Section post_rules.
  Context {E A B : Type}.
  Implicit Types (m : outcome E A) (F : E → Prop).

Lemma post_bind m (f : A → outcome E B) Q F :
    post m (λ a, post (f a) Q F) F → post (m ≫= f) Q F.
Proof. destruct m; simpl; auto. Qed.

Lemma post_mono m (Q Q' : A → Prop) F F' :
    post m Q F → (∀ a, Q a → Q' a) → (∀ e, F e → F' e) → post m Q' F'.
Proof. destruct m; simpl; auto. Qed.

Lemma post_weaken m (Q Q' : A → Prop) F : post m Q F → (∀ a, Q a → Q' a) → post m Q' F.
Proof. intros. eapply post_mono; eauto. Qed.

Lemma post_ret (a : A) (Q : A → Prop) F : Q a → post (mret a : outcome E A) Q F.
Proof. done. Qed.

Lemma post_Ok m Q F a : post m Q F → m = Ok a → Q a.
Proof. by intros H ->. Qed.

Lemma post_no_panic m Q F : post m Q F → m ≠ Panic.
Proof. by intros H ->. Qed.

Lemma post_map_err {E'} (m : outcome E' A) (f : E' → E) Q F :
    post m Q (λ e, F (f e)) → post (map_err f m) Q F.
Proof. destruct m; simpl; auto. Qed.

Lemma post_ok_or (o : option A) (e : E) (Q : A → Prop) F :
    (∀ a, o = Some a → Q a) → (o = None → F e) → post (ok_or o e) Q F.
Proof. destruct o; simpl; auto. Qed.

Lemma post_ensure (b : bool) (e : E) (Q : () → Prop) F :
    (b = true → Q ()) → (b = false → F e) → post (ensure b e) Q F.
Proof. destruct b; simpl; auto. Qed.

Lemma post_if (b : bool) m1 m2 Q F :
    (b = true → post m1 Q F) → (b = false → post m2 Q F) → post (if b then m1 else m2) Q F.
Proof. destruct b; auto. Qed.

Lemma post_idx raw i (Q : Z → Prop) F :
    is_bytes raw → i < length raw → (∀ b, raw !! i = Some b → is_u8 b → Q b) →
    post (idx raw i : outcome E u8) Q F.
Proof.
    intros Hb Hi HQ. unfold idx. destruct (lookup_lt_is_Some_2 raw i Hi) as [b Hr].
    rewrite Hr. simpl. eapply HQ; [done|]. eapply Forall_lookup_1; eauto.
Qed.

Lemma post_slice raw i j (Q : bytes → Prop) F :
    is_bytes raw → i ≤ j → j ≤ length raw →
    (∀ s, is_bytes s → length s = j - i → Q s) →
    post (slice raw i j : outcome E bytes) Q F.
Proof.
    intros Hb Hij Hj HQ. unfold slice. rewrite bool_decide_true by lia. simpl.
    apply HQ.
    - unfold is_bytes in *. by apply Forall_take, Forall_drop.
    - rewrite length_take, length_drop. lia.
Qed.

Lemma post_slice_from raw i (Q : bytes → Prop) F :
    is_bytes raw → i ≤ length raw →
    (∀ s, is_bytes s → length s = length raw - i → Q s) →
    post (slice_from raw i : outcome E bytes) Q F.
Proof. intros. unfold slice_from. apply post_slice; auto. Qed.
End post_rules.

Lemma post_try_fold {E A S} (f : S → A → outcome E S) (I : S → Prop) (F : E → Prop) l s :
    I s → (∀ s a, a ∈ l → I s → post (f s a) I F) → post (try_fold f s l) I F.
Proof.
    revert s. induction l as [|a l IH]; intros s Hs Hf; simpl; [done|].
    apply post_bind. eapply post_mono; [apply Hf; [set_solver|done]| |done].
    intros s' Hs'. apply IH; [done|]. set_solver.
Qed.

Lemma get_range_Some raw i j s :
  get_range raw i j = Some s →
  i ≤ j ∧ j ≤ length raw ∧ s = take (j - i) (drop i raw) ∧ length s = j - i.
Proof.
  unfold get_range. case_bool_decide; intros ?; simplify_eq.
  repeat split; try lia. rewrite length_take, length_drop. lia.
Qed.

Lemma get_range_bytes raw i j s : is_bytes raw → get_range raw i j = Some s → is_bytes s.
Proof.
  intros Hb (?&?&->&?)%get_range_Some. by apply Forall_take, Forall_drop.
Qed.

Lemma slice_ok {E} raw i j :
  i ≤ j → j ≤ length raw → slice (E:=E) raw i j = Ok (take (j - i) (drop i raw)).
Proof. intros. unfold slice. by rewrite bool_decide_true. Qed.

(** ** Segments of a concatenation

    A wire layout is a right-nested concatenation of fields; these lemmas walk
    an index or a slice over it, the lengths being found by [mq_len]. *)

Lemma idx_app_r {E} (a b : bytes) i :
  length a ≤ i → idx (E:=E) (a ++ b) i = idx b (i - length a).
Proof. intros. unfold idx. by rewrite lookup_app_r. Qed.

Lemma idx_cons_r {E} x (b : bytes) i : idx (E:=E) (x :: b) (S i) = idx b i.
Proof. done. Qed.

Lemma idx_app_l {E} (a b : bytes) i :
  i < length a → idx (E:=E) (a ++ b) i = idx a i.
Proof. intros. unfold idx. by rewrite lookup_app_l. Qed.

Lemma slice_app_r {E} (a b : bytes) i j :
  length a ≤ i → slice (E:=E) (a ++ b) i j =
    (if bool_decide (i ≤ j) then slice b (i - length a) (j - length a) else Panic).
Proof.
  intros. unfold slice. rewrite length_app.
  repeat case_bool_decide; try done; try lia.
  f_equal. rewrite drop_app_ge by lia. f_equal. lia.
Qed.

Lemma slice_skip {E} (a b : bytes) i j :
  length a ≤ i → i ≤ j → slice (E:=E) (a ++ b) i j = slice b (i - length a) (j - length a).
Proof. intros. rewrite slice_app_r by done. by rewrite bool_decide_true. Qed.

Lemma slice_skip_cons {E} x (b : bytes) i j :
  slice (E:=E) (x :: b) (S i) (S j) = slice b i j.
Proof. unfold slice. simpl. repeat case_bool_decide; try done; lia. Qed.

Lemma slice_head {E} (a b : bytes) j :
  length a = j → slice (E:=E) (a ++ b) 0 j = Ok a.
Proof.
  intros <-. unfold slice. rewrite bool_decide_true by (rewrite length_app; lia).
  by rewrite Nat.sub_0_r, drop_0, take_app_length.
Qed.

Lemma slice_all {E} (a : bytes) j : length a = j → slice (E:=E) a 0 j = Ok a.
Proof. intros. rewrite <- (app_nil_r a) at 1. by apply slice_head. Qed.

(** ** Little-endian round trips *)

Lemma length_to_le_bytes n z : length (to_le_bytes n z) = n.
Proof. revert z. induction n; simpl; intros; auto. Qed.

Lemma is_bytes_to_le n z : is_bytes (to_le_bytes n z).
Proof.
  revert z. induction n; intros; constructor; [|apply IHn].
  unfold is_u8. apply Z.mod_pos_bound. lia.
Qed.

Lemma from_to_le_bytes n z :
  (0 ≤ z < 2 ^ (8 * Z.of_nat n))%Z → from_le_bytes (to_le_bytes n z) = z.
Proof.
  revert z. induction n as [|n IH]; intros z Hz; simpl from_le_bytes; [simpl in Hz; lia|].
  rewrite IH.
  - pose proof (Z.div_mod z 256). lia.
  - replace (8 * Z.of_nat (S n))%Z with (8 + 8 * Z.of_nat n)%Z in Hz by lia.
    rewrite Z.pow_add_r in Hz by lia. change (2 ^ 8)%Z with 256%Z in Hz.
    split; [apply Z.div_pos; lia|]. apply Z.div_lt_upper_bound; lia.
Qed.

Lemma from_le_bytes_range l :
  is_bytes l → (0 ≤ from_le_bytes l < 2 ^ (8 * Z.of_nat (length l)))%Z.
Proof.
  induction 1 as [|b l Hb Hl IH]; [simpl; lia|].
  simpl length. replace (8 * Z.of_nat (S (length l)))%Z with (8 + 8 * Z.of_nat (length l))%Z by lia.
  rewrite Z.pow_add_r by lia. change (2 ^ 8)%Z with 256%Z. unfold is_u8 in Hb. simpl. lia.
Qed.

Lemma to_from_le_bytes l : is_bytes l → to_le_bytes (length l) (from_le_bytes l) = l.
Proof.
  induction 1 as [|b l Hb Hl IH]; [done|]. unfold is_u8 in Hb. simpl.
  assert ((b + 256 * from_le_bytes l) / 256 = from_le_bytes l)%Z as ->.
  { rewrite Z.mul_comm, Z.div_add by lia. rewrite Z.div_small by lia. lia. }
  rewrite IH. f_equal. rewrite Z.mul_comm, Z_mod_plus_full. by apply Z.mod_small.
Qed.

Lemma to_signed_range w z : (0 < w)%Z → is_uint w z → is_sint w (to_signed w z).
Proof.
  unfold is_uint, is_sint, to_signed. intros Hw Hz.
  assert (2 ^ w = 2 * 2 ^ (w - 1))%Z as Hp
    by (rewrite <- Z.pow_succ_r by lia; f_equal; lia).
  case_match eqn:Hc; rewrite ?Z.ltb_lt, ?Z.ltb_ge in Hc; lia.
Qed.

Lemma to_signed_unsigned w z : (0 < w)%Z → is_sint w z → to_signed w (to_unsigned w z) = z.
Proof.
  unfold is_sint, to_signed, to_unsigned. intros Hw Hz.
  assert (2 ^ w = 2 * 2 ^ (w - 1))%Z as Hp
    by (rewrite <- Z.pow_succ_r by lia; f_equal; lia).
  assert (0 < 2 ^ (w - 1))%Z by (apply Z.pow_pos_nonneg; lia).
  destruct (decide (0 ≤ z)%Z).
  - rewrite Z.mod_small by lia. case_match eqn:Hc; [done|]. rewrite Z.ltb_ge in Hc. lia.
  - assert (z mod 2 ^ w = z + 2 ^ w)%Z as ->.
    { symmetry. apply Z.mod_unique_pos with (q := (-1)%Z); lia. }
    case_match eqn:Hc; rewrite ?Z.ltb_lt, ?Z.ltb_ge in Hc; lia.
Qed.

Lemma to_unsigned_range w z : (0 ≤ w)%Z → is_uint w (to_unsigned w z).
Proof.
  intros. unfold is_uint, to_unsigned. apply Z.mod_pos_bound, Z.pow_pos_nonneg; lia.
Qed.

Lemma i32_le_roundtrip z : is_sint 32 z → i32_from_le_bytes (i32_to_le_bytes z) = z.
Proof.
  intros. unfold i32_from_le_bytes, i32_to_le_bytes. rewrite from_to_le_bytes.
  - by apply to_signed_unsigned.
  - apply (to_unsigned_range 32). lia.
Qed.

Lemma i8_from_bytes_range b : is_u8 b → is_sint 8 (i8_from_bytes b).
Proof. intros. apply to_signed_range; [lia|]. done. Qed.

Lemma length_resize0 n l : length (resize0 n l) = n.
Proof. unfold resize0. rewrite length_app, length_take, length_replicate. lia. Qed.

Lemma resize0_pad n l : length l ≤ n → resize0 n l = l ++ replicate (n - length l) 0%Z.
Proof. intros. unfold resize0. by rewrite take_ge. Qed.

Lemma is_bytes_app a b : is_bytes (a ++ b) ↔ is_bytes a ∧ is_bytes b.
Proof. apply Forall_app. Qed.

Lemma is_bytes_nil : is_bytes [].
Proof. constructor. Qed.

Lemma is_bytes_cons b l : is_u8 b → is_bytes l → is_bytes (b :: l).
Proof. by constructor. Qed.

Lemma is_bytes_app_2 a b : is_bytes a → is_bytes b → is_bytes (a ++ b).
Proof. intros. by apply is_bytes_app. Qed.

Lemma is_bytes_replicate0 n : is_bytes (replicate n 0%Z).
Proof. apply Forall_replicate. unfold is_u8. lia. Qed.

Lemma is_bytes_resize0 n l : is_bytes l → is_bytes (resize0 n l).
Proof.
  intros. unfold resize0. apply is_bytes_app. split; [by apply Forall_take|].
  apply is_bytes_replicate0.
Qed.

(** ** First match, chunks, splits *)

Lemma position_None p l : position p l = None ↔ Forall (λ b, p b = false) l.
Proof.
  induction l as [|b l IH]; simpl; [done|]. destruct (p b) eqn:Hp.
  - split; [done|]. inversion 1; congruence.
  - rewrite fmap_None, IH. split; [by constructor|by inversion 1].
Qed.

Lemma position_Some p l i :
  position p l = Some i →
  Forall (λ b, p b = false) (take i l) ∧ ∃ b, l !! i = Some b ∧ p b = true.
Proof.
  revert i. induction l as [|b l IH]; simpl; intros i Hi; [done|].
  destruct (p b) eqn:Hp; simplify_eq; [by eauto|].
  apply fmap_Some in Hi as (k&Hk&->). destruct (IH _ Hk) as [? (b'&?&?)].
  split; [by constructor|]. eauto.
Qed.

Lemma position_app_skip p a l :
  Forall (λ b, p b = false) a → position p (a ++ l) = Nat.add (length a) <$> position p l.
Proof.
  induction 1 as [|b a Hb Ha IH]; simpl; [by destruct (position p l)|].
  rewrite Hb, IH. by destruct (position p l).
Qed.

Lemma position_lt p l i : position p l = Some i → i < length l.
Proof. intros (_&b&Hb&_)%position_Some. by apply lookup_lt_Some in Hb. Qed.

Lemma split_on_no_sep sep l : Forall (λ b, b ≠ sep) l → split_on sep l = [l].
Proof.
  induction 1 as [|b l Hb Hl IH]; simpl; [done|]. rewrite IH.
  by rewrite (proj2 (Z.eqb_neq _ _) Hb).
Qed.

Lemma split_once_first sep k v :
  Forall (λ b, b ≠ sep) k → split_once sep (k ++ sep :: v) = Some (k, v).
Proof.
  induction 1 as [|b k Hb Hk IH]; simpl; [by rewrite Z.eqb_refl|].
  by rewrite (proj2 (Z.eqb_neq _ _) Hb), IH.
Qed.

Lemma split_once_spec sep l k v :
  split_once sep l = Some (k, v) → l = k ++ sep :: v ∧ Forall (λ b, b ≠ sep) k.
Proof.
  revert k. induction l as [|b l IH]; simpl; intros k H; [done|].
  destruct (Z.eqb_spec b sep); simplify_eq/=; [done|].
  destruct (split_once sep l) as [[k' v']|] eqn:Hs; simplify_eq/=.
  destruct (IH _ eq_refl) as [-> ?]. split; [done|]. by constructor.
Qed.

Lemma split_on_bytes sep l p : is_bytes l → p ∈ split_on sep l → is_bytes p.
Proof.
  intros Hl. revert p. induction Hl as [|b l Hb Hl IH]; simpl; intros p Hp.
  { apply list_elem_of_singleton in Hp as ->. constructor. }
  destruct (b =? sep)%Z.
  { apply elem_of_cons in Hp as [->|Hp]; [constructor|auto]. }
  destruct (split_on sep l) as [|q qs].
  { apply list_elem_of_singleton in Hp as ->. by apply Forall_singleton. }
  apply elem_of_cons in Hp as [->|Hp].
  - constructor; [done|]. apply IH. set_solver.
  - apply IH. set_solver.
Qed.

Section chunks_facts.
  Context {A : Type}.
  Implicit Types l : list A.

Lemma chunks_fuel_concat fuel n l :
    0 < n → length l ≤ fuel → concat (chunks_fuel fuel n l) = l.
Proof.
    intros Hn. revert l. induction fuel as [|fuel IH]; intros l Hl; simpl.
    { destruct l; simpl in Hl; [done|lia]. }
    destruct l as [|x l']; [done|]. rewrite <- (take_drop n (x :: l')) at 3.
    cbn [concat]. f_equal. apply IH. rewrite length_drop. simpl in *. lia.
Qed.

Lemma chunks_fuel_bound fuel n l c :
    0 < n → c ∈ chunks_fuel fuel n l → 0 < length c ≤ n.
Proof.
    intros Hn. revert l. induction fuel as [|fuel IH]; intros l Hc; simpl in Hc.
    { by apply not_elem_of_nil in Hc. }
    destruct l as [|x l']; [by apply not_elem_of_nil in Hc|].
    apply elem_of_cons in Hc as [->|Hc]; [|eauto].
    rewrite length_take. simpl. lia.
Qed.

Lemma chunks_concat n l : 0 < n → concat (chunks n l) = l.
Proof. intros. by apply chunks_fuel_concat. Qed.

Lemma chunks_bound n l c : 0 < n → c ∈ chunks n l → 0 < length c ≤ n.
Proof. apply chunks_fuel_bound. Qed.

Lemma chunks_exact_fuel_elem fuel n l c :
    c ∈ chunks_exact_fuel fuel n l → length c = n ∧ (∀ x, x ∈ c → x ∈ l).
Proof.
    revert l. induction fuel as [|fuel IH]; intros l Hc; simpl in Hc.
    { by apply not_elem_of_nil in Hc. }
    case_bool_decide; [|by apply not_elem_of_nil in Hc].
    apply elem_of_cons in Hc as [->|Hc].
    - rewrite length_take. split; [lia|].
      intros x. rewrite <- (take_drop n l) at 2. set_solver.
    - apply IH in Hc as [? Hin]. split; [done|]. intros x ?%Hin.
      rewrite <- (take_drop n l). set_solver.
Qed.

Lemma chunks_exact_elem n l c : c ∈ chunks_exact n l → length c = n ∧ (∀ x, x ∈ c → x ∈ l).
Proof. apply chunks_exact_fuel_elem. Qed.

Lemma chunks_exact_count n l : length (chunks_exact n l) * n ≤ length l.
Proof.
    unfold chunks_exact. generalize (length l) at 1 as fuel. intros fuel. revert l.
    induction fuel as [|fuel IH]; intros l; simpl; [lia|].
    case_bool_decide; simpl; [|lia]. specialize (IH (drop n l)). rewrite length_drop in IH. lia.
Qed.

Lemma chunks_exact_fuel_concat fuel n (ls : list (list A)) :
    0 < n → Forall (λ c, length c = n) ls → length (concat ls) ≤ fuel →
    chunks_exact_fuel fuel n (concat ls) = ls.
Proof.
    intros Hn Hls. revert fuel. induction Hls as [|c ls Hc Hls IH]; intros fuel Hf; simpl in *.
    { destruct fuel; simpl; [done|]. by rewrite bool_decide_false by (simpl; lia). }
    rewrite length_app in Hf. destruct fuel as [|fuel]; simpl; [lia|].
    rewrite bool_decide_true by (rewrite length_app; lia).
    rewrite take_app_length' by done. rewrite drop_app_length' by done.
    f_equal. apply IH. lia.
Qed.

Lemma chunks_exact_concat n (ls : list (list A)) :
    0 < n → Forall (λ c, length c = n) ls → chunks_exact n (concat ls) = ls.
Proof. intros. by apply chunks_exact_fuel_concat. Qed.
End chunks_facts.

(** ** Tactics *)

#[export] Hint Resolve is_bytes_nil is_bytes_cons is_bytes_app_2 is_bytes_to_le is_bytes_replicate0 is_bytes_resize0 : mq_wf.
#[export] Hint Rewrite length_to_le_bytes length_resize0 @length_app @length_replicate
  @length_take @length_drop : mq_len.

(** One step of the symbolic execution of a parser under [post]; errors are
    unconstrained, panics must be excluded. *)
Ltac post_step :=
  lazymatch goal with
  | |- post (mbind _ _) _ _ => apply post_bind
  | |- post (idx _ _) _ _ =>
      apply post_idx; [solve [auto with mq_wf] | lia |
        let b := fresh "b" in let Hb := fresh "Hb" in intros b _ Hb]
  | |- post (slice _ _ _) _ _ =>
      apply post_slice; [solve [auto with mq_wf] | lia | lia |
        let s := fresh "s" in let Hs := fresh "Hs" in let Hl := fresh "Hl" in intros s Hs Hl]
  | |- post (slice_from _ _) _ _ =>
      apply post_slice_from; [solve [auto with mq_wf] | lia |
        let s := fresh "s" in let Hs := fresh "Hs" in let Hl := fresh "Hl" in intros s Hs Hl]
  | |- post (ensure _ _) _ _ =>
      apply post_ensure; [let H := fresh "Hen" in intros H | intros _; exact I]
  | |- post (map_err _ _) _ _ => apply post_map_err
  | |- post (ok_or _ _) _ _ =>
      apply post_ok_or; [let a := fresh "a" in let H := fresh "Ha" in intros a H | intros _; exact I]
  | |- post (if _ then _ else _) _ _ =>
      apply post_if; let H := fresh "Hc" in intros H
  | |- post (Err _) _ _ => exact I
  | |- post (mret _) _ _ => apply post_ret
  end.
Ltac post_steps := repeat post_step.
