(* ===== verification/Text.v ===== *)
(** * Strings

    What the program uses of [str], [String] and [char]: UTF-8 validation, the
    characters of a string with their classes, trimming and the parsing of numbers,
    and the encoding and escapes of characters. *)

From S2P Require Import Prelude.

(** * UTF-8 validation

    The Rust standard library's [String::from_utf8] / [str::from_utf8]: the
    byte string is accepted exactly when it is a sequence of well-formed UTF-8
    sequences (Unicode table 3-7), with no overlong form and no surrogate. *)

Local Open Scope Z_scope.

Definition in_range (lo hi b : Z) : bool := (lo <=? b) && (b <=? hi).
Definition is_cont (b : Z) : bool := in_range 0x80 0xbf b.

(** Whether [b1] may follow the lead byte [b0] of a three-byte sequence. *)
Definition second_of_three (b0 b1 : Z) : bool :=
  if b0 =? 0xe0 then in_range 0xa0 0xbf b1
  else if b0 =? 0xed then in_range 0x80 0x9f b1
  else is_cont b1.

(** Whether [b1] may follow the lead byte [b0] of a four-byte sequence. *)
Definition second_of_four (b0 b1 : Z) : bool :=
  if b0 =? 0xf0 then in_range 0x90 0xbf b1
  else if b0 =? 0xf4 then in_range 0x80 0x8f b1
  else is_cont b1.

Fixpoint utf8_valid (l : bytes) : bool :=
  match l with
  | [] => true
  | b0 :: l1 =>
      if in_range 0 0x7f b0 then utf8_valid l1
      else match l1 with
      | [] => false
      | b1 :: l2 =>
          if in_range 0xc2 0xdf b0 then is_cont b1 && utf8_valid l2
          else match l2 with
          | [] => false
          | b2 :: l3 =>
              if in_range 0xe0 0xef b0
              then second_of_three b0 b1 && is_cont b2 && utf8_valid l3
              else match l3 with
              | [] => false
              | b3 :: l4 =>
                  in_range 0xf0 0xf4 b0 && second_of_four b0 b1 &&
                  is_cont b2 && is_cont b3 && utf8_valid l4
              end
          end
      end
  end.

(** [String::from_utf8]. *)
Definition from_utf8 (l : bytes) : option rstring :=
  if utf8_valid l then Some l else None.

(** A Rust string value: its bytes are valid UTF-8. *)
Definition is_rstring (s : rstring) : Prop := is_bytes s ∧ utf8_valid s = true.

#[global] Instance is_rstring_dec s : Decision (is_rstring s).
Proof. unfold is_rstring. apply _. Defined.

Lemma from_utf8_Some l s : from_utf8 l = Some s → s = l ∧ utf8_valid l = true.
Proof. unfold from_utf8. case_match; naive_solver. Qed.

Lemma from_utf8_rstring s : is_rstring s → from_utf8 s = Some s.
Proof. unfold from_utf8. by intros [_ ->]. Qed.

Lemma from_utf8_is_rstring l s : is_bytes l → from_utf8 l = Some s → is_rstring s.
Proof. intros Hl [-> ?]%from_utf8_Some. done. Qed.

(** One unfolding of the validator. *)
Lemma utf8_valid_cons b0 l1 :
  utf8_valid (b0 :: l1) =
      if in_range 0 0x7f b0 then utf8_valid l1
      else match l1 with
      | [] => false
      | b1 :: l2 =>
          if in_range 0xc2 0xdf b0 then is_cont b1 && utf8_valid l2
          else match l2 with
          | [] => false
          | b2 :: l3 =>
              if in_range 0xe0 0xef b0
              then second_of_three b0 b1 && is_cont b2 && utf8_valid l3
              else match l3 with
              | [] => false
              | b3 :: l4 =>
                  in_range 0xf0 0xf4 b0 && second_of_four b0 b1 &&
                  is_cont b2 && is_cont b3 && utf8_valid l4
              end
          end
      end.
Proof. reflexivity. Qed.

Lemma utf8_valid_app a b : utf8_valid a = true → utf8_valid (a ++ b) = utf8_valid b.
Proof.
  induction a as [a IH] using (induction_ltof1 _ (@length Z)). unfold ltof in IH.
  destruct a as [|b0 l1]; [done|]. cbn [app]. rewrite !utf8_valid_cons.
  destruct (in_range 0 _ b0); [intros; apply IH; [simpl; lia|done]|].
  destruct l1 as [|b1 l2]; [done|]. cbn [app].
  destruct (in_range 0xc2 _ b0).
  { destruct (is_cont b1); [|done]. intros; apply IH; [simpl; lia|done]. }
  destruct l2 as [|b2 l3]; [done|]. cbn [app].
  destruct (in_range 0xe0 _ b0).
  { destruct (second_of_three b0 b1), (is_cont b2); try done.
    intros; apply IH; [simpl; lia|done]. }
  destruct l3 as [|b3 l4]; [done|]. cbn [app].
  destruct (in_range 0xf0 _ b0), (second_of_four b0 b1), (is_cont b2), (is_cont b3); try done.
  intros; apply IH; [simpl; lia|done].
Qed.

Lemma utf8_valid_ascii l : Forall (λ b, 0 <= b <= 0x7f) l → utf8_valid l = true.
Proof.
  induction 1 as [|b l Hb Hl IH]; [done|]. simpl.
  unfold in_range. by rewrite (proj2 (Z.leb_le 0 b)), (proj2 (Z.leb_le b 127)) by lia.
Qed.

Lemma is_rstring_app a b : is_rstring a → is_rstring b → is_rstring (a ++ b).
Proof.
  intros [Ha Hva] [Hb Hvb]. split; [by apply is_bytes_app|].
  by rewrite utf8_valid_app.
Qed.

Lemma ascii_not_cont b : 0 <= b <= 0x7f → is_cont b = false.
Proof. unfold is_cont, in_range. lia. Qed.
Lemma ascii_not_second b0 b : 0 <= b <= 0x7f →
  second_of_three b0 b = false ∧ second_of_four b0 b = false.
Proof.
  unfold second_of_three, second_of_four, is_cont, in_range.
  split; repeat case_match; lia.
Qed.

(** Cutting a valid string at an ASCII byte leaves two valid strings. *)
Lemma utf8_valid_cut a sep b :
  0 <= sep <= 0x7f → utf8_valid (a ++ sep :: b) = true →
  utf8_valid a = true ∧ utf8_valid b = true.
Proof.
  intros Hsep. pose proof (ascii_not_cont _ Hsep) as Hc.
  induction a as [a IH] using (induction_ltof1 _ (@length Z)). unfold ltof in IH.
  destruct a as [|b0 l1]; cbn [app]; rewrite !utf8_valid_cons.
  { replace (in_range 0 0x7f sep) with true by (unfold in_range; lia). done. }
  destruct (in_range 0 _ b0); [intros; apply IH; [simpl; lia|done]|].
  destruct l1 as [|b1 l2]; cbn [app].
  { rewrite Hc. destruct (ascii_not_second b0 sep Hsep) as [-> ->]. simpl.
    repeat case_match; try done; rewrite ?andb_false_r in *; done. }
  destruct (in_range 0xc2 _ b0).
  { destruct (is_cont b1); [|done]. intros; apply IH; [simpl; lia|done]. }
  destruct l2 as [|b2 l3]; cbn [app].
  { rewrite Hc. rewrite !andb_false_r. simpl. repeat case_match; done. }
  destruct (in_range 0xe0 _ b0).
  { destruct (second_of_three b0 b1), (is_cont b2); try done.
    intros; apply IH; [simpl; lia|done]. }
  destruct l3 as [|b3 l4]; cbn [app].
  { rewrite Hc. rewrite !andb_false_r. done. }
  destruct (in_range 0xf0 _ b0), (second_of_four b0 b1), (is_cont b2), (is_cont b3); try done.
  intros; apply IH; [simpl; lia|done].
Qed.

Lemma is_rstring_cut a sep b :
  0 <= sep <= 0x7f → is_rstring (a ++ sep :: b) → is_rstring a ∧ is_rstring b.
Proof.
  intros Hs [Hb Hv]. apply is_bytes_app in Hb as [Ha Hb].
  apply utf8_valid_cut in Hv as [? ?]; [|done]. by inversion Hb.
Qed.

Lemma is_rstring_split sep l p :
  0 <= sep <= 0x7f → is_rstring l → p ∈ split_on sep l → is_rstring p.
Proof.
  intros Hsep. remember (length l) as n eqn:Hn. revert l Hn p.
  induction (lt_wf n) as [n _ IH]. intros l -> p Hl Hp.
  destruct (split_once sep l) as [[k v]|] eqn:Ho.
  - apply split_once_spec in Ho as [-> Hk].
    destruct (is_rstring_cut k sep v Hsep Hl) as [Hk' Hv'].
    assert (split_on sep (k ++ sep :: v) = k :: split_on sep v) as Hsp.
    { clear -Hk. induction Hk as [|b k Hb Hk IHk]; simpl; [by rewrite Z.eqb_refl|].
      rewrite IHk. by rewrite (proj2 (Z.eqb_neq _ _) Hb). }
    rewrite Hsp in Hp. apply elem_of_cons in Hp as [->|Hp]; [done|].
    eapply IH; [|reflexivity|done|done]. rewrite length_app. simpl. lia.
  - assert (Forall (λ b, b ≠ sep) l) as Hns.
    { clear -Ho. induction l as [|b l IHl]; [constructor|]. simpl in Ho.
      destruct (Z.eqb_spec b sep); [done|]. constructor; [done|].
      apply IHl. by destruct (split_once sep l) as [[]|]. }
    rewrite split_on_no_sep in Hp by done. by apply list_elem_of_singleton in Hp as ->.
Qed.

Example utf8_accepts : utf8_valid [0x6e; 0xc3; 0xb8; 0xe2; 0x82; 0xac; 0xf0; 0x9f; 0x93; 0xa1] = true.
Proof. reflexivity. Qed.
Example utf8_rejects_overlong : utf8_valid [0xc0; 0x80] = false ∧ utf8_valid [0xe0; 0x80; 0x80] = false.
Proof. done. Qed.
Example utf8_rejects_surrogate : utf8_valid [0xed; 0xa0; 0x80] = false.
Proof. reflexivity. Qed.

Local Close Scope Z_scope.

(** * Characters of strings

    What the validators of the store and of the MQTT gateway use of [str] and
    [char]: the scalar values of a string, white space and control characters,
    [trim], [parse] for unsigned integers, and ASCII classes. *)

(** ** Scalar values *)

Definition cont_bits (b : Z) : Z := Z.land b 0x3f.

(** [str::chars], of valid UTF-8. *)
Fixpoint chars (s : rstring) : list Z :=
  match s with
  | [] => []
  | b0 :: s1 =>
      if (b0 <? 0x80)%Z then b0 :: chars s1 else
      match s1 with
      | [] => []
      | b1 :: s2 =>
          if (b0 <? 0xe0)%Z then (Z.land b0 0x1f * 64 + cont_bits b1)%Z :: chars s2 else
          match s2 with
          | [] => []
          | b2 :: s3 =>
              if (b0 <? 0xf0)%Z then
                ((Z.land b0 0x0f * 64 + cont_bits b1) * 64 + cont_bits b2)%Z :: chars s3 else
              match s3 with
              | [] => []
              | b3 :: s4 =>
                  (((Z.land b0 0x07 * 64 + cont_bits b1) * 64 + cont_bits b2) * 64 + cont_bits b3)%Z
                  :: chars s4
              end
          end
      end
  end.

(** [char::is_control]: the general category Cc. *)
Definition is_control (c : Z) : bool := in_range 0 0x1f c || in_range 0x7f 0x9f c.

(** [char::is_whitespace]: the property White_Space. *)
Definition is_whitespace (c : Z) : bool :=
  in_range 0x09 0x0d c || (c =? 0x20)%Z || (c =? 0x85)%Z || (c =? 0xa0)%Z || (c =? 0x1680)%Z
  || in_range 0x2000 0x200a c || (c =? 0x2028)%Z || (c =? 0x2029)%Z || (c =? 0x202f)%Z
  || (c =? 0x205f)%Z || (c =? 0x3000)%Z.

Definition any_control (s : rstring) : bool := existsb is_control (chars s).
Definition any_whitespace (s : rstring) : bool := existsb is_whitespace (chars s).

(** ** Trimming *)

Fixpoint trim_start (cs : list Z) : list Z :=
  match cs with
  | c :: cs' => if is_whitespace c then trim_start cs' else cs
  | [] => []
  end.
(** The characters of [s.trim()]. *)
Definition trim (s : rstring) : list Z := rev (trim_start (rev (trim_start (chars s)))).

(** [s.trim().is_empty()] and [s.trim() == s]. *)
Definition trim_is_empty (s : rstring) : bool := bool_decide (trim s = []).
Definition is_trimmed (s : rstring) : bool := bool_decide (trim s = chars s).

(** ** Searching *)

(** [s.contains(needle)], over the bytes. *)
Fixpoint contains (needle s : bytes) : bool :=
  bool_decide (take (length needle) s = needle) ||
  match s with [] => false | _ :: s => contains needle s end.

Definition starts_with (prefix s : bytes) : bool := bool_decide (take (length prefix) s = prefix).
Definition ends_with (suffix s : bytes) : bool := starts_with (rev suffix) (rev s).

(** ** ASCII *)

Definition is_ascii_digit (b : Z) : bool := in_range 0x30 0x39 b.
Definition is_ascii_alphabetic (b : Z) : bool := in_range 0x41 0x5a b || in_range 0x61 0x7a b.
Definition is_ascii_alphanumeric (b : Z) : bool := is_ascii_alphabetic b || is_ascii_digit b.
Definition to_ascii_lowercase (s : bytes) : bytes :=
  (λ b, if in_range 0x41 0x5a b then (b + 32)%Z else b) <$> s.

(** [str::parse] for an unsigned integer of [w] bits: an optional plus sign, then
    digits; a value out of range is an error. *)
Fixpoint parse_digits (w acc : Z) (s : bytes) : option Z :=
  match s with
  | [] => Some acc
  | b :: s =>
      if is_ascii_digit b then
        let acc := (acc * 10 + (b - 0x30))%Z in
        if (acc <? 2 ^ w)%Z then parse_digits w acc s else None
      else None
  end.
Definition parse_unsigned (w : Z) (s : bytes) : option Z :=
  match s with
  | [] => None
  | 0x2b%Z :: s => if bool_decide (s = []) then None else parse_digits w 0 s
  | _ => parse_digits w 0 s
  end.

(** ** Facts *)

Lemma trim_start_suffix cs : ∃ ws, cs = ws ++ trim_start cs ∧ Forall (λ c, is_whitespace c = true) ws.
Proof.
  induction cs as [|c cs (ws & Hcs & Hws)]; simpl; [by exists []|].
  destruct (is_whitespace c) eqn:Hc.
  - exists (c :: ws). split; [simpl; by f_equal|by constructor].
  - exists []. by split.
Qed.

Lemma chars_cons_ascii b s : (0 <= b < 0x80)%Z → chars (b :: s) = b :: chars s.
Proof. intros Hb. simpl. by rewrite (proj2 (Z.ltb_lt _ _)) by lia. Qed.

Lemma chars_app_ascii_l a s : Forall (λ b, 0 <= b < 0x80)%Z a → chars (a ++ s) = a ++ chars s.
Proof.
  induction 1 as [|b a Hb _ IH]; [done|]. simpl app. rewrite chars_cons_ascii by done. by rewrite IH.
Qed.

Lemma parse_digits_range w acc s z : (0 <= acc < 2 ^ w)%Z → parse_digits w acc s = Some z → is_uint w z.
Proof.
  revert acc. induction s as [|b s IH]; simpl; intros acc Hacc; [by intros [= <-]|].
  destruct (is_ascii_digit b) eqn:Hb; [|done]. unfold is_ascii_digit, in_range in Hb.
  destruct (Z.ltb_spec (acc * 10 + (b - 48)) (2 ^ w)) as [Hlt|]; [|done]. apply IH. lia.
Qed.

Lemma parse_unsigned_range w s z : (0 <= w)%Z → parse_unsigned w s = Some z → is_uint w z.
Proof.
  intros Hw. assert (0 <= 0 < 2 ^ w)%Z as H0 by lia. unfold parse_unsigned.
  repeat case_match; try done; by apply parse_digits_range.
Qed.

(** * Characters and their encoding

    The command line works on characters where the libraries work on bytes:
    [char::encode_utf8] and [String::push] as the inverse of [str::chars],
    [char::escape_default], [str::split_whitespace], [str::lines], and the escapes
    that keep text from the network off the terminal.  Lower-casing beyond ASCII
    is the Unicode table of the standard library, the class [UnicodeTables]. *)

(** ** [char::encode_utf8] *)

(** A Unicode scalar value, which is what a [char] holds. *)
Definition is_scalar (c : Z) : Prop := (0 <= c < 0xd800 ∨ 0xe000 <= c <= 0x10ffff)%Z.
#[global] Instance is_scalar_dec c : Decision (is_scalar c).
Proof. unfold is_scalar. apply _. Defined.

Definition encode_utf8 (c : Z) : bytes :=
  (if c <? 0x80 then [c]
   else if c <? 0x800 then [0xc0 + c / 0x40; 0x80 + c mod 0x40]
   else if c <? 0x10000 then [0xe0 + c / 0x1000; 0x80 + c / 0x40 mod 0x40; 0x80 + c mod 0x40]
   else [0xf0 + c / 0x40000; 0x80 + c / 0x1000 mod 0x40; 0x80 + c / 0x40 mod 0x40; 0x80 + c mod 0x40])%Z.

(** A [String] built by pushing characters. *)
Definition of_chars (cs : list Z) : rstring := cs ≫= encode_utf8.

(** [s.trim()] as a string. *)
Definition trimmed (s : rstring) : rstring := of_chars (trim s).

(** ** [char::escape_default] *)

Definition lower_hex_digit (n : Z) : Z := (if n <? 10 then 0x30 + n else 0x61 + (n - 10))%Z.

(** The hexadecimal digits of a character, without leading zeros. *)
Fixpoint hex_digits (fuel : nat) (c : Z) : list Z :=
  match fuel with
  | 0 => []
  | S fuel => (if c <? 16 then [] else hex_digits fuel (c / 16))%Z ++ [lower_hex_digit (c mod 16)]
  end.

Definition escape_default (c : Z) : list Z :=
  (if c =? 0x09 then [0x5c; 0x74]
   else if c =? 0x0d then [0x5c; 0x72]
   else if c =? 0x0a then [0x5c; 0x6e]
   else if (c =? 0x27) || (c =? 0x22) || (c =? 0x5c) then [0x5c; c]
   else if in_range 0x20 0x7e c then [c]
   else [0x5c; 0x75; 0x7b] ++ hex_digits 6 c ++ [0x7d])%Z.

(** ** Splitting *)

(** [str::split_whitespace], on characters. *)
Fixpoint split_whitespace_from (word : list Z) (cs : list Z) : list (list Z) :=
  match cs with
  | [] => if bool_decide (word = []) then [] else [word]
  | c :: cs =>
      if is_whitespace c then
        (if bool_decide (word = []) then [] else [word]) ++ split_whitespace_from [] cs
      else split_whitespace_from (word ++ [c]) cs
  end.
Definition split_whitespace (cs : list Z) : list (list Z) := split_whitespace_from [] cs.

(** [str::split_inclusive('\n')]. *)
Fixpoint split_inclusive (s : bytes) : list bytes :=
  match s with
  | [] => []
  | b :: s =>
      if (b =? 0x0a)%Z then [b] :: split_inclusive s
      else match split_inclusive s with
           | [] => [[b]]
           | line :: rest => (b :: line) :: rest
           end
  end.

(** [line.strip_suffix('\n')], then of [strip_suffix('\r')]. *)
Definition strip_line_ending (line : bytes) : bytes :=
  if bool_decide (last line = Some 0x0a%Z) then
    let line := removelast line in
    if bool_decide (last line = Some 0x0d%Z) then removelast line else line
  else line.

Definition lines (s : bytes) : list bytes := strip_line_ending <$> split_inclusive s.

(** ** Lower case *)

(** [str::to_lowercase], which maps by the Unicode tables. *)
Class UnicodeTables := to_lowercase : rstring → rstring.

(** What the documentation promises: ASCII text is mapped letter by letter, and
    the result is a string. *)
Class UnicodeTablesLaws `{UnicodeTables} : Prop := {
  to_lowercase_ascii s : Forall (λ b, 0 <= b < 0x80)%Z s → to_lowercase s = to_ascii_lowercase s;
  to_lowercase_rstring s : is_rstring s → is_rstring (to_lowercase s)
}.

(** ** Facts *)

Lemma of_chars_cons c cs : of_chars (c :: cs) = encode_utf8 c ++ of_chars cs.
Proof. done. Qed.
Lemma of_chars_app a b : of_chars (a ++ b) = of_chars a ++ of_chars b.
Proof. unfold of_chars. by rewrite bind_app. Qed.

Lemma land_ones_mod b m k : (0 <= k)%Z → m = Z.ones k → Z.land b m = (b mod 2 ^ k)%Z.
Proof. intros ? ->. by rewrite Z.land_ones. Qed.

Ltac to_mods :=
  unfold cont_bits in *;
  rewrite ?(land_ones_mod _ 0x3f 6), ?(land_ones_mod _ 0x1f 5), ?(land_ones_mod _ 0x0f 4),
    ?(land_ones_mod _ 0x07 3) by done;
  change (2 ^ 6)%Z with 64%Z; change (2 ^ 5)%Z with 32%Z; change (2 ^ 4)%Z with 16%Z;
  change (2 ^ 3)%Z with 8%Z.

(** Decoding gives back the character that was pushed. *)
Lemma chars_encode c s : is_scalar c → chars (encode_utf8 c ++ s) = c :: chars s.
Proof.
  intros Hc. unfold is_scalar in Hc. unfold encode_utf8.
  repeat case_match; simpl;
    repeat match goal with
    | |- context [(?a <? ?b)%Z] => destruct (Z.ltb_spec a b); try (Z.to_euclidean_division_equations; lia)
    end; f_equal; to_mods; Z.to_euclidean_division_equations; lia.
Qed.

Lemma chars_of_chars cs s : Forall is_scalar cs → chars (of_chars cs ++ s) = cs ++ chars s.
Proof.
  induction 1 as [|c cs Hc _ IH]; [done|].
  rewrite of_chars_cons, <- app_assoc, chars_encode by done. by rewrite IH.
Qed.
Lemma chars_of_chars_nil cs : Forall is_scalar cs → chars (of_chars cs) = cs.
Proof. intros H. rewrite <- (app_nil_r (of_chars cs)), chars_of_chars by done. apply app_nil_r. Qed.

Ltac utf8_bounds :=
  unfold second_of_three, second_of_four, is_cont, in_range in *;
  repeat match goal with
  | H : context [(?a =? ?b)%Z] |- _ => destruct (Z.eqb_spec a b)
  end.

(** A valid string starts with the encoding of a character. *)
Lemma utf8_valid_inv s : utf8_valid s = true → s ≠ [] →
  ∃ c s', is_scalar c ∧ s = encode_utf8 c ++ s' ∧ utf8_valid s' = true.
Proof.
  destruct s as [|b0 s1]; [done|]. intros Hv _. rewrite utf8_valid_cons in Hv.
  assert (∀ c pre s', is_scalar c → encode_utf8 c = pre → utf8_valid s' = true →
          ∃ c' s'', is_scalar c' ∧ pre ++ s' = encode_utf8 c' ++ s'' ∧ utf8_valid s'' = true) as Hgo.
  { intros c pre s' ? <- ?. by exists c, s'. }
  destruct (in_range 0 0x7f b0) eqn:H0.
  { eapply (Hgo b0 [b0]); [unfold is_scalar, in_range in *; lia| |done].
    unfold encode_utf8, in_range in *. by destruct (Z.ltb_spec b0 0x80); [|lia]. }
  destruct s1 as [|b1 s2]; [done|]. destruct (in_range 0xc2 0xdf b0) eqn:H1.
  { apply andb_prop in Hv as [Hb1 Hv].
    eapply (Hgo ((b0 - 0xc0) * 64 + (b1 - 0x80))%Z [b0; b1]); [| |done];
      unfold is_scalar, encode_utf8 in *; utf8_bounds; [lia|].
    repeat match goal with |- context [(?a <? ?b)%Z] => destruct (Z.ltb_spec a b); try lia end.
    repeat f_equal; Z.to_euclidean_division_equations; lia. }
  destruct s2 as [|b2 s3]; [done|]. destruct (in_range 0xe0 0xef b0) eqn:H2.
  { apply andb_prop in Hv as [[Hb1 Hb2]%andb_prop Hv].
    eapply (Hgo (((b0 - 0xe0) * 64 + (b1 - 0x80)) * 64 + (b2 - 0x80))%Z [b0; b1; b2]); [| |done];
      unfold is_scalar, encode_utf8 in *; utf8_bounds; try lia;
      repeat match goal with |- context [(?a <? ?b)%Z] => destruct (Z.ltb_spec a b); try lia end;
      repeat f_equal; Z.to_euclidean_division_equations; lia. }
  destruct s3 as [|b3 s4]; [done|].
  apply andb_prop in Hv as [[[[Hb0 Hb1]%andb_prop Hb2]%andb_prop Hb3]%andb_prop Hv].
  eapply (Hgo ((((b0 - 0xf0) * 64 + (b1 - 0x80)) * 64 + (b2 - 0x80)) * 64 + (b3 - 0x80))%Z
            [b0; b1; b2; b3]); [| |done];
    unfold is_scalar, encode_utf8 in *; utf8_bounds; try lia;
    repeat match goal with |- context [(?a <? ?b)%Z] => destruct (Z.ltb_spec a b); try lia end;
    repeat f_equal; Z.to_euclidean_division_equations; lia.
Qed.

(** What the lead byte asks of the bytes behind it. *)
Lemma utf8_valid_two b0 b1 : (0xc2 <= b0 <= 0xdf)%Z → (0x80 <= b1 <= 0xbf)%Z → utf8_valid [b0; b1] = true.
Proof. intros. simpl. utf8_bounds. repeat case_match; lia. Qed.
Lemma utf8_valid_three b0 b1 b2 :
  (0xe0 <= b0 <= 0xef)%Z → (0x80 <= b1 <= 0xbf)%Z → (0x80 <= b2 <= 0xbf)%Z →
  (b0 = 0xe0 → 0xa0 <= b1)%Z → (b0 = 0xed → b1 <= 0x9f)%Z → utf8_valid [b0; b1; b2] = true.
Proof. intros. simpl. utf8_bounds. repeat case_match; lia. Qed.
Lemma utf8_valid_four b0 b1 b2 b3 :
  (0xf0 <= b0 <= 0xf4)%Z → (0x80 <= b1 <= 0xbf)%Z → (0x80 <= b2 <= 0xbf)%Z → (0x80 <= b3 <= 0xbf)%Z →
  (b0 = 0xf0 → 0x90 <= b1)%Z → (b0 = 0xf4 → b1 <= 0x8f)%Z → utf8_valid [b0; b1; b2; b3] = true.
Proof. intros. simpl. utf8_bounds. repeat case_match; lia. Qed.

Lemma encode_utf8_valid c : is_scalar c → is_rstring (encode_utf8 c).
Proof.
  intros Hc. unfold is_scalar in Hc. unfold encode_utf8. split.
  - repeat case_match; repeat constructor; Z.to_euclidean_division_equations; lia.
  - destruct (Z.ltb_spec c 0x80); [apply utf8_valid_ascii; repeat constructor; lia|].
    destruct (Z.ltb_spec c 0x800);
      [apply utf8_valid_two; Z.to_euclidean_division_equations; lia|].
    destruct (Z.ltb_spec c 0x10000);
      [apply utf8_valid_three|apply utf8_valid_four]; Z.to_euclidean_division_equations; lia.
Qed.

Lemma encode_utf8_length c : 0 < length (encode_utf8 c).
Proof. unfold encode_utf8. repeat case_match; simpl; lia. Qed.

Lemma of_chars_rstring cs : Forall is_scalar cs → is_rstring (of_chars cs).
Proof.
  induction 1 as [|c cs Hc _ IH]; [by split; [constructor|]|].
  rewrite of_chars_cons. by apply is_rstring_app; [apply encode_utf8_valid|].
Qed.

(** The strings are the encodings of the sequences of characters. *)
Lemma rstring_chars s : utf8_valid s = true → Forall is_scalar (chars s) ∧ of_chars (chars s) = s.
Proof.
  induction s as [s IH] using (induction_ltof1 _ (@length Z)). unfold ltof in IH. intros Hv.
  destruct (decide (s = [])) as [->|Hs]; [done|].
  destruct (utf8_valid_inv s Hv Hs) as (c & s' & Hc & -> & Hv').
  rewrite chars_encode by done. destruct (IH s') as [Hf Ho]; [|done|].
  { rewrite length_app. pose proof (encode_utf8_length c). lia. }
  split; [by constructor|]. by rewrite of_chars_cons, Ho.
Qed.
Lemma chars_scalar s : is_rstring s → Forall is_scalar (chars s).
Proof. intros [_ H]. by apply rstring_chars. Qed.
Lemma of_chars_chars s : is_rstring s → of_chars (chars s) = s.
Proof. intros [_ H]. by apply rstring_chars. Qed.
