(* ===== verification/Order.v ===== *)
(** * The order of strings and stable sorting

    What the sources use of [Ord] for strings, and of [sort_by], which keeps the
    order of equal elements. *)

From stdpp Require Import sorting.
From S2P Require Import Prelude.

(** The order of strings. *)
Fixpoint bytes_leb (a b : bytes) : bool :=
  match a, b with
  | [], _ => true
  | _ :: _, [] => false
  | x :: a, y :: b => (x <? y)%Z || ((x =? y)%Z && bytes_leb a b)
  end.
Lemma bytes_leb_total a b : bytes_leb a b = true ∨ bytes_leb b a = true.
Proof.
  revert b. induction a as [|x a IH]; intros [|y b]; simpl; auto. specialize (IH b).
  destruct (Z.ltb_spec x y), (Z.ltb_spec y x), (Z.eqb_spec x y), (Z.eqb_spec y x); simpl; auto; lia.
Qed.
Lemma bytes_leb_trans a b c : bytes_leb a b = true → bytes_leb b c = true → bytes_leb a c = true.
Proof.
  revert b c. induction a as [|x a IH]; intros [|y b] [|z c]; simpl; try done. specialize (IH b c).
  destruct (Z.ltb_spec x y), (Z.ltb_spec y z), (Z.ltb_spec x z), (Z.eqb_spec x y), (Z.eqb_spec y z),
    (Z.eqb_spec x z); simpl; intros; auto; try lia; done.
Qed.

(** ** [sort_by] *)

Section sort_by.
  Context {A : Type} (le : A → A → bool).

Fixpoint insert_by (x : A) (l : list A) : list A :=
  match l with
  | [] => [x]
  | y :: l => if le y x then y :: insert_by x l else x :: y :: l
  end.
Definition sort_by (l : list A) : list A := fold_left (λ acc x, insert_by x acc) l [].

Lemma insert_by_perm x l : insert_by x l ≡ₚ x :: l.
Proof.
  induction l as [|y l IH]; simpl; [done|]. destruct (le y x); [|done]. rewrite IH. constructor.
Qed.

Lemma sort_by_acc l acc : fold_left (λ acc x, insert_by x acc) l acc ≡ₚ acc ++ l.
Proof.
  revert acc. induction l as [|x l IH]; intros acc; simpl; [by rewrite app_nil_r|].
  rewrite IH, insert_by_perm. simpl. apply Permutation_middle.
Qed.
Lemma sort_by_perm l : sort_by l ≡ₚ l.
Proof. apply (sort_by_acc l []). Qed.

Context (le_total : ∀ x y, le x y = true ∨ le y x = true).
Context (le_trans : ∀ x y z, le x y = true → le y z = true → le x z = true).

Lemma insert_by_sorted x l : StronglySorted le l → StronglySorted le (insert_by x l).
Proof using le_total le_trans.
  induction 1 as [|y l Hl IH Hy]; simpl; [repeat constructor|]. destruct (le y x) eqn:Hyx.
  - constructor; [done|]. apply Forall_forall. intros z. rewrite insert_by_perm, elem_of_cons.
    intros [->|Hz]; [by rewrite Hyx|]. by eapply Forall_forall in Hy.
  - destruct (le_total x y) as [Hxy|]; [|congruence]. constructor; [by constructor|].
    constructor; [by rewrite Hxy|]. eapply Forall_impl; [exact Hy|]. intros z Hz.
    apply Is_true_true in Hz. apply Is_true_true. by eapply le_trans.
Qed.

Lemma sort_by_sorted l : StronglySorted le (sort_by l).
Proof using le_total le_trans.
  unfold sort_by. assert (StronglySorted le []) as H by constructor. revert H. generalize (@nil A).
  induction l as [|x l IH]; intros acc Hacc; simpl; [done|]. by apply IH, insert_by_sorted.
Qed.

(** Elements that compare equal keep their order. *)
Lemma insert_by_filter (P : A → Prop) `{∀ x, Decision (P x)} x l :
  (∀ a b, P a → P b → le a b = true) → StronglySorted le l →
  filter P (insert_by x l) = filter P l ++ filter P [x].
Proof using le_trans.
  intros HP. induction 1 as [|y l Hl IH Hy]; [done|]. cbn [insert_by]. destruct (le y x) eqn:Hyx.
  - rewrite !(filter_cons P y), IH. by destruct (decide (P y)).
  - assert (¬ P x ∨ filter P (y :: l) = []) as [Hx|Hn].
    { destruct (decide (P x)) as [Hx|]; [right|by left].
      apply elem_of_nil_inv. intros z. rewrite list_elem_of_filter. intros [Pz Hz].
      apply elem_of_cons in Hz as [->|Hz].
      { rewrite (HP _ _ Pz Hx) in Hyx. done. }
      eapply Forall_forall in Hy; [|done]. apply Is_true_true in Hy.
      rewrite (le_trans y z x) in Hyx; auto. done. }
    + rewrite (filter_cons_False P x) by done. by rewrite (filter_cons_False P x []), app_nil_r by done.
    + rewrite (filter_cons P x (y :: l)), Hn. by rewrite (filter_cons P x []).
Qed.

Lemma sort_by_stable (P : A → Prop) `{∀ x, Decision (P x)} l :
  (∀ a b, P a → P b → le a b = true) → filter P (sort_by l) = filter P l.
Proof using le_total le_trans.
  intros HP. unfold sort_by. change (filter P l) with (filter P [] ++ filter P l).
  assert (StronglySorted le []) as Hs by constructor. revert Hs. generalize (@nil A).
  induction l as [|x l IH]; intros acc Hacc; simpl; [by rewrite app_nil_r|].
  rewrite IH by (by apply insert_by_sorted). rewrite insert_by_filter by done.
  rewrite <- app_assoc, <- filter_app. done.
Qed.
End sort_by.
