(* ===== verification/Floats.v ===== *)
(** * IEEE 754 floats

    Rust's [f64] and [f32] as the Standard Library's [spec_float]: every
    operation is the correctly rounded IEEE operation at the format's precision
    (53 bits, exponent bound 1024; 24 bits, exponent bound 128), computable in
    the kernel.  Only what the protocol code uses is defined: conversion from
    integers, division, multiplication, comparison, the saturating cast
    [as i32] and [is_finite]. *)

From S2P Require Import Prelude.
From Stdlib Require Export SpecFloat.

Local Open Scope Z_scope.

Abbreviation f64 := spec_float (only parsing).
Abbreviation f32 := spec_float (only parsing).

Definition f64_of_Z (z : Z) : f64 := binary_normalize 53 1024 z 0 false.
Definition f64_div (x y : f64) : f64 := SFdiv 53 1024 x y.
Definition f64_mul (x y : f64) : f64 := SFmul 53 1024 x y.
Definition f64_lt (x y : f64) : bool := SFltb x y.

Definition f32_of_Z (z : Z) : f32 := binary_normalize 24 128 z 0 false.
Definition f32_div (x y : f32) : f32 := SFdiv 24 128 x y.

Definition is_finite (x : spec_float) : bool :=
  match x with
  | S754_zero _ | S754_finite _ _ _ => true
  | S754_infinity _ | S754_nan => false
  end.

(** Truncation of a finite float towards zero. *)
Definition sf_trunc (x : spec_float) : Z :=
  match x with
  | S754_finite s m e =>
      let a := if 0 <=? e then Zpos m * 2 ^ e else Zpos m / 2 ^ (- e) in
      if s then - a else a
  | _ => 0
  end.

Definition clamp (lo hi z : Z) : Z := Z.max lo (Z.min hi z).

(** [x as i32]: truncation, saturating at the bounds of [i32]; NaN gives 0. *)
Definition f64_as_i32 (x : f64) : i32 :=
  match x with
  | S754_nan => 0
  | S754_infinity s => if s then - 2 ^ 31 else 2 ^ 31 - 1
  | _ => clamp (- 2 ^ 31) (2 ^ 31 - 1) (sf_trunc x)
  end.

Lemma f64_as_i32_range x : is_sint 32 (f64_as_i32 x).
Proof.
  unfold is_sint, f64_as_i32, clamp. change (2 ^ (32 - 1)) with 2147483648.
  change (2 ^ 31) with 2147483648. destruct x as [|[]| |]; lia.
Qed.

#[global] Instance spec_float_eq_dec : EqDecision spec_float.
Proof. solve_decision. Defined.

(** [sf_quarters x] is [4 * x] when that is an integer: the exact meaning of
    a quarter-decibel reading. *)
Definition sf_quarters (x : spec_float) : option Z :=
  match x with
  | S754_zero _ => Some 0
  | S754_finite s m e =>
      let q := Zpos m * 2 ^ Z.max 0 (e + 2) in
      let d := 2 ^ Z.max 0 (- (e + 2)) in
      if q mod d =? 0 then Some (if s then - (q / d) else q / d) else None
  | _ => None
  end.

Fixpoint Z_range (n : nat) (lo : Z) : list Z :=
  match n with
  | O => []
  | S n => lo :: Z_range n (lo + 1)
  end.

Lemma elem_of_Z_range n lo z : lo <= z < lo + Z.of_nat n → z ∈ Z_range n lo.
Proof.
  revert lo. induction n as [|n IH]; intros lo Hz; [lia|]. cbn [Z_range].
  destruct (decide (z = lo)) as [->|]; [left|]. right. apply IH. lia.
Qed.

(** Dividing any signed byte by four is exact in [f32]. *)
Lemma f32_quarter_exact z : is_sint 8 z →
  sf_quarters (f32_div (f32_of_Z z) (f32_of_Z 4)) = Some z.
Proof.
  intros Hz.
  assert (forallb (λ z, bool_decide (sf_quarters (f32_div (f32_of_Z z) (f32_of_Z 4)) = Some z))
            (Z_range 256 (-128)) = true) as Hall by (vm_compute; reflexivity).
  rewrite forallb_forall in Hall.
  specialize (Hall z). rewrite <- list_elem_of_In in Hall.
  eapply bool_decide_eq_true, Hall, elem_of_Z_range. unfold is_sint in Hz.
  change (2 ^ (8 - 1)) with 128 in Hz. lia.
Qed.

(** Same in [f64], for the signed bytes of the remote link quality. *)
Lemma f64_quarter_exact z : is_sint 8 z →
  sf_quarters (f64_div (f64_of_Z z) (f64_of_Z 4)) = Some z.
Proof.
  intros Hz.
  assert (forallb (λ z, bool_decide (sf_quarters (f64_div (f64_of_Z z) (f64_of_Z 4)) = Some z))
            (Z_range 256 (-128)) = true) as Hall by (vm_compute; reflexivity).
  rewrite forallb_forall in Hall.
  specialize (Hall z). rewrite <- list_elem_of_In in Hall.
  eapply bool_decide_eq_true, Hall, elem_of_Z_range. unfold is_sint in Hz.
  change (2 ^ (8 - 1)) with 128 in Hz. lia.
Qed.
