(* ===== verification/Domain.v ===== *)
(** * Domain model and errors (crates/meshquill-core/src/domain.rs, error.rs)

    The public protocol objects, with the source's constructors and fields
    ([Type::Variant] is [Type_Variant], the field [f] of a struct [S] is
    [S_f]), the validating constructors, the message fingerprint, the node
    discovery decoder and, for each type, the well-formedness predicate that
    states what the Rust types guarantee (integer widths, array lengths, UTF-8
    strings).

    The crates [hex] and [sha2] are not part of the repository: they are the
    parameters of the class [Crates], with their documented behaviour in
    [CratesLaws]. *)

From S2P Require Import Prelude Text Floats.

(** ** Third-party functions *)

Class Crates := {
  hex_encode : bytes → rstring;
  hex_decode : rstring → option bytes;
  sha256 : bytes → bytes
}.

Class CratesLaws (C : Crates) : Prop := {
  hex_encode_rstring l : is_bytes l → is_rstring (hex_encode l);
  hex_encode_length l : is_bytes l → length (hex_encode l) = 2 * length l;
  hex_encode_lower l : is_bytes l →
    Forall (λ b, 0x30 <= b <= 0x39 ∨ 0x61 <= b <= 0x66)%Z (hex_encode l);
  hex_decode_encode l : is_bytes l → hex_decode (hex_encode l) = Some l;
  hex_decode_bytes s l : hex_decode s = Some l → is_bytes l;
  sha256_bytes l : is_bytes (sha256 l);
  sha256_length l : length (sha256 l) = 32
}.

(** ** Durations

    A [Duration] is a number of nanoseconds.  The bound of every operation's
    timeout is declared in client.rs and used by the transports too. *)

Definition NANOS_PER_SEC : Z := 1000000000.
Definition MAX_OPERATION_TIMEOUT : Z := 24 * 60 * 60 * NANOS_PER_SEC.

(** ** Errors (error.rs) *)

(** [PacketDisplay::Raw]. *)
Inductive PacketDisplay := PacketDisplay_Raw (code : u8).

Inductive ParseError :=
| ParseError_UnknownPacketCode (code : u8)
| ParseError_InvalidPacketLength (code : PacketDisplay) (minimum actual : usize)
| ParseError_OversizedPacketPayload (actual maximum : usize)
| ParseError_InvalidUtf8Payload (context : string)
| ParseError_Malformed (reason : string).

(** The [std::io::ErrorKind]s the code names; every other kind is [Other]. *)
Inductive IoErrorKind :=
| ConnectionAborted | ConnectionReset | BrokenPipe | NotConnected | UnexpectedEof
| InvalidData | TimedOut | AlreadyExists | WouldBlock | NotFound | InvalidInput | Unsupported | OtherKind.

(** [io::Error]: its kind and its message. *)
Record IoError := mkIoError { IoError_kind : IoErrorKind; IoError_message : string }.

Inductive TransportError :=
| TransportError_Io (error : IoError)
| TransportError_NotConnected
| TransportError_ReconnectFailed (message : string)
| TransportError_ReconnectUnsupported
| TransportError_Timeout
| TransportError_Backpressure (queue : string) (capacity : usize)
| TransportError_PayloadTooLarge (maximum actual : usize)
| TransportError_Closed.

Inductive CoreError :=
| CoreError_Transport (e : TransportError)
| CoreError_Parse (e : ParseError)
| CoreError_Timeout
| CoreError_ProtocolInvariant (reason : string)
| CoreError_DeviceRejected (operation : string) (code : option u8)
| CoreError_FeatureDisabled (feature : string)
| CoreError_AuthenticationFailed
| CoreError_InvalidArgument (field message : string)
| CoreError_InvalidUtf8 (field : string)
| CoreError_Disconnected
| CoreError_ActorStopped.

#[global] Instance PacketDisplay_eq_dec : EqDecision PacketDisplay.
Proof. solve_decision. Defined.
#[global] Instance ParseError_eq_dec : EqDecision ParseError.
Proof. solve_decision. Defined.
#[global] Instance IoErrorKind_eq_dec : EqDecision IoErrorKind.
Proof. solve_decision. Defined.
#[global] Instance IoError_eq_dec : EqDecision IoError.
Proof. solve_decision. Defined.
#[global] Instance TransportError_eq_dec : EqDecision TransportError.
Proof. solve_decision. Defined.
#[global] Instance CoreError_eq_dec : EqDecision CoreError.
Proof. solve_decision. Defined.

(** ** [Display] of the errors *)

(** [{:#04x}] of a byte. *)
Definition hex_nibble (n : Z) : string :=
  default "" (["0";"1";"2";"3";"4";"5";"6";"7";"8";"9";"a";"b";"c";"d";"e";"f"]%string !! Z.to_nat n).
Definition pretty_hex2 (b : u8) : string :=
  "0x" +:+ hex_nibble (b / 16) +:+ hex_nibble (b mod 16).

(** [Uuid]: its 128 bits; [Debug] and [Display] are the hyphenated form. *)
Abbreviation Uuid := Z (only parsing).
Definition debug_uuid (u : Uuid) : string :=
  let digit n := hex_nibble (Z.shiftr u (4 * (31 - Z.of_nat n)) mod 16) in
  let digits from count := String.concat "" (digit <$> seq from count) in
  digits 0 8 +:+ "-" +:+ digits 8 4 +:+ "-" +:+ digits 12 4 +:+ "-" +:+ digits 16 4 +:+ "-" +:+ digits 20 12.

(** [{:?}] of an [Option<u8>] and of a [PacketDisplay]. *)
Definition debug_option (o : option Z) : string :=
  match o with Some b => "Some(" +:+ pretty b +:+ ")" | None => "None" end.
Definition debug_PacketDisplay (d : PacketDisplay) : string :=
  match d with PacketDisplay_Raw code => "Raw(" +:+ pretty code +:+ ")" end.

Definition display_ParseError (e : ParseError) : string :=
  match e with
  | ParseError_UnknownPacketCode code => "unknown packet code " +:+ pretty_hex2 code
  | ParseError_InvalidPacketLength code minimum actual =>
      "invalid packet length for " +:+ debug_PacketDisplay code +:+ ": expected at least "
        +:+ pretty minimum +:+ ", got " +:+ pretty actual
  | ParseError_OversizedPacketPayload actual maximum =>
      "oversized packet payload: " +:+ pretty actual +:+ " > " +:+ pretty maximum
  | ParseError_InvalidUtf8Payload context => "invalid UTF-8 payload for " +:+ context
  | ParseError_Malformed reason => "malformed packet: " +:+ reason
  end.

Definition display_TransportError (e : TransportError) : string :=
  match e with
  | TransportError_Io error => "transport i/o failure: " +:+ IoError_message error
  | TransportError_NotConnected => "not connected"
  | TransportError_ReconnectFailed message => "reconnect failed: " +:+ message
  | TransportError_ReconnectUnsupported => "reconnect not supported"
  | TransportError_Timeout => "transport timeout"
  | TransportError_Backpressure queue capacity =>
      "transport queue '" +:+ queue +:+ "' is full (capacity " +:+ pretty capacity +:+ ")"
  | TransportError_PayloadTooLarge maximum actual =>
      "transport payload is too large: " +:+ pretty actual +:+ " bytes (maximum "
        +:+ pretty maximum +:+ ")"
  | TransportError_Closed => "closed"
  end.

Definition display_CoreError (e : CoreError) : string :=
  match e with
  | CoreError_Transport e => "transport error: " +:+ display_TransportError e
  | CoreError_Parse e => "parse error: " +:+ display_ParseError e
  | CoreError_Timeout => "operation timed out"
  | CoreError_ProtocolInvariant reason => "protocol invariant violation: " +:+ reason
  | CoreError_DeviceRejected operation code =>
      "device rejected " +:+ operation +:+ " (code " +:+ debug_option code +:+ ")"
  | CoreError_FeatureDisabled feature => "device feature is disabled: " +:+ feature
  | CoreError_AuthenticationFailed => "remote authentication failed"
  | CoreError_InvalidArgument field message =>
      "invalid argument " +:+ field +:+ ": " +:+ message
  | CoreError_InvalidUtf8 field => "invalid utf8 payload in " +:+ field
  | CoreError_Disconnected => "transport disconnected"
  | CoreError_ActorStopped => "managed client actor stopped"
  end.

(** ** Keys, paths, scopes *)

Record PublicKey := mkPublicKey { PublicKey_0 : bytes }.
Record PrivateKeyMaterial := mkPrivateKeyMaterial { PrivateKeyMaterial_0 : bytes }.
Record Path := mkPath { Path_bytes : bytes }.
Record Signature := mkSignature { Signature_bytes : bytes }.

Definition PublicKey_try_from_bytes (bytes : bytes) : outcome CoreError PublicKey :=
  if length bytes =? 32 then Ok (mkPublicKey bytes)
  else Err (CoreError_ProtocolInvariant "public key must be exactly 32 bytes").

Definition PrivateKeyMaterial_try_from_bytes (bytes : bytes) : outcome CoreError PrivateKeyMaterial :=
  if length bytes =? 64 then Ok (mkPrivateKeyMaterial bytes)
  else Err (CoreError_ProtocolInvariant "private key must be exactly 64 bytes").

(** [Path::MAX_BYTES]. *)
Definition Path_MAX_BYTES : usize := 128.

Definition Path_try_from_bytes (bytes : bytes) : outcome CoreError Path :=
  if Path_MAX_BYTES <? length bytes
  then Err (CoreError_ProtocolInvariant "path exceeds maximum bytes")
  else Ok (mkPath bytes).

Definition Signature_try_from_bytes (bytes : bytes) : outcome CoreError Signature :=
  if negb (length bytes =? 64)
  then Err (CoreError_ProtocolInvariant "signature must be exactly 64 bytes")
  else Ok (mkSignature bytes).

Section hex_keys.
  Context `{Crates}.

Definition PublicKey_from_hex (hex : rstring) : outcome CoreError PublicKey :=
  bytes ← ok_or (hex_decode hex) (CoreError_ProtocolInvariant "invalid public key hex");
  PublicKey_try_from_bytes bytes.

Definition PublicKey_to_hex (key : PublicKey) : rstring := hex_encode (PublicKey_0 key).

Definition Path_to_hex (path : Path) : rstring := hex_encode (Path_bytes path).
End hex_keys.

Record Scope := mkScope { Scope_name : option rstring; Scope_key : bytes }.
Definition Scope_new (name : option rstring) (key : bytes) : Scope := mkScope name key.

Inductive FloodScope :=
| FloodScope_Default
| FloodScope_Unscoped
| FloodScope_Key (key : bytes).

Inductive DefaultFloodScope :=
| DefaultFloodScope_Unconfigured
| DefaultFloodScope_Configured (scope : Scope).

(** ** Device records *)

Record BatteryInfo := mkBatteryInfo {
  BatteryInfo_level : u16;
  BatteryInfo_used_kb : option u32;
  BatteryInfo_total_kb : option u32
}.

Record RadioParams := mkRadioParams {
  RadioParams_frequency_khz : u32;
  RadioParams_bandwidth_hz : u32;
  RadioParams_spreading_factor : u8;
  RadioParams_coding_rate : u8;
  RadioParams_repeat : option bool
}.

Record TuningParams := mkTuningParams {
  TuningParams_rx_delay : u32;
  TuningParams_airtime_factor : u32
}.

Record CustomVariable := mkCustomVariable {
  CustomVariable_key : rstring;
  CustomVariable_value : rstring
}.

Record CustomVariables := mkCustomVariables {
  CustomVariables_raw : bytes;
  CustomVariables_entries : list CustomVariable
}.

Inductive ContactRoute :=
| ContactRoute_Flood
| ContactRoute_Path (hash_mode hop_count : u8).

#[global] Instance ContactRoute_eq_dec : EqDecision ContactRoute.
Proof. solve_decision. Defined.

Record AdvertPath := mkAdvertPath {
  AdvertPath_received_at : u32;
  AdvertPath_route : ContactRoute;
  AdvertPath_path : Path
}.

Inductive StatsType := StatsType_Core | StatsType_Radio | StatsType_Packets.

Inductive DeviceStats :=
| DeviceStats_Core (battery_mv : u16) (uptime_seconds : u32) (errors : u16) (queue_length : u8)
| DeviceStats_Radio (noise_floor : i16) (last_rssi : i8) (last_snr : f32)
    (tx_airtime_seconds rx_airtime_seconds : u32)
| DeviceStats_Packets (recv sent flood_recv flood_sent direct_recv direct_sent : u32)
    (recv_errors : option u32).

Record LoginSession := mkLoginSession {
  LoginSession_permissions : u8;
  LoginSession_pubkey_prefix : bytes;
  LoginSession_server_timestamp : option u32;
  LoginSession_acl_permissions : option u8;
  LoginSession_firmware_version_level : option u8
}.

Definition LoginSession_is_admin (s : LoginSession) : bool :=
  (Z.land (LoginSession_permissions s) 1 =? 1)%Z.

Record RemoteStatus := mkRemoteStatus {
  RemoteStatus_pubkey_prefix : bytes;
  RemoteStatus_battery_mv : u16;
  RemoteStatus_tx_queue_length : u16;
  RemoteStatus_noise_floor : i16;
  RemoteStatus_last_rssi : i16;
  RemoteStatus_packets_received : u32;
  RemoteStatus_packets_sent : u32;
  RemoteStatus_tx_airtime_seconds : u32;
  RemoteStatus_uptime_seconds : u32;
  RemoteStatus_sent_flood : u32;
  RemoteStatus_sent_direct : u32;
  RemoteStatus_received_flood : u32;
  RemoteStatus_received_direct : u32;
  RemoteStatus_error_events : u16;
  RemoteStatus_last_snr : f32;
  RemoteStatus_direct_duplicates : u16;
  RemoteStatus_flood_duplicates : u16;
  RemoteStatus_rx_airtime_seconds : u32;
  RemoteStatus_receive_errors : option u32
}.

Record TelemetryResponse := mkTelemetryResponse {
  TelemetryResponse_pubkey_prefix : bytes;
  TelemetryResponse_payload : bytes
}.

Record BinaryResponse := mkBinaryResponse {
  BinaryResponse_tag : bytes;
  BinaryResponse_payload : bytes
}.

Record ControlData := mkControlData {
  ControlData_snr_qdb : i8;
  ControlData_rssi : i8;
  ControlData_path_len : u8;
  ControlData_payload : bytes
}.

Record NodeDiscoveryResponse := mkNodeDiscoveryResponse {
  NodeDiscoveryResponse_node_type : u8;
  NodeDiscoveryResponse_inbound_snr_qdb : i8;
  NodeDiscoveryResponse_tag : u32;
  NodeDiscoveryResponse_public_key : bytes
}.

Record PathDiscovery := mkPathDiscovery {
  PathDiscovery_pubkey_prefix : bytes;
  PathDiscovery_outbound_route : ContactRoute;
  PathDiscovery_outbound_path : Path;
  PathDiscovery_inbound_route : ContactRoute;
  PathDiscovery_inbound_path : Path
}.

Record AutoAddConfig := mkAutoAddConfig {
  AutoAddConfig_config : u8;
  AutoAddConfig_max_hops : option u8
}.

Record FrequencyRange := mkFrequencyRange {
  FrequencyRange_lower_khz : u32;
  FrequencyRange_upper_khz : u32
}.

Record ContactUri := mkContactUri { ContactUri_uri : rstring; ContactUri_card : bytes }.

Inductive ContactType :=
| ContactType_Chat
| ContactType_Repeater
| ContactType_Room
| ContactType_Sensor
| ContactType_Unknown (raw : u8).

Definition ContactType_from_u8 (raw : u8) : ContactType :=
  match raw with
  | 0 => ContactType_Chat
  | 1 => ContactType_Repeater
  | 2 => ContactType_Room
  | 3 => ContactType_Sensor
  | other => ContactType_Unknown other
  end%Z.

Record Contact := mkContact {
  Contact_public_key : PublicKey;
  Contact_contact_type : ContactType;
  Contact_flags : u8;
  Contact_route : ContactRoute;
  Contact_out_path : Path;
  Contact_adv_name : rstring;
  Contact_last_advert : u32;
  Contact_adv_lat : f64;
  Contact_adv_lon : f64;
  Contact_lastmod : u32
}.

Record ContactSnapshot := mkContactSnapshot {
  ContactSnapshot_contacts : list Contact;
  ContactSnapshot_lastmod : u32
}.

Record SelfInfo := mkSelfInfo {
  SelfInfo_advertising_type : u8;
  SelfInfo_tx_power : u8;
  SelfInfo_max_tx_power : u8;
  SelfInfo_public_key : PublicKey;
  SelfInfo_adv_lat : f64;
  SelfInfo_adv_lon : f64;
  SelfInfo_multi_acks : u8;
  SelfInfo_advert_loc_policy : u8;
  SelfInfo_telemetry_mode_env : u8;
  SelfInfo_telemetry_mode_loc : u8;
  SelfInfo_telemetry_mode_base : u8;
  SelfInfo_manual_add_contacts : bool;
  SelfInfo_radio_frequency_mhz : f64;
  SelfInfo_radio_bandwidth_khz : f64;
  SelfInfo_radio_spreading_factor : u8;
  SelfInfo_radio_coding_rate : u8;
  SelfInfo_name : rstring
}.

Record DeviceInfo := mkDeviceInfo {
  DeviceInfo_protocol_version : u8;
  DeviceInfo_max_contacts : option u16;
  DeviceInfo_max_channels : option u8;
  DeviceInfo_ble_pin : option u32;
  DeviceInfo_firmware_build : option rstring;
  DeviceInfo_model : option rstring;
  DeviceInfo_firmware_version : option rstring;
  DeviceInfo_repeat_enabled : option bool;
  DeviceInfo_path_hash_mode : option u8
}.

(** ** Messages *)

Inductive MessageStatus :=
| MessageStatus_Received
| MessageStatus_Queued
| MessageStatus_Sent (suggested_timeout_ms : option u32)
| MessageStatus_Acked
| MessageStatus_Failed (reason : rstring).

Inductive MessageSource :=
| MessageSource_Direct (pubkey_prefix : rstring)
| MessageSource_Channel (channel_idx : u8).

Inductive MessageRoute :=
| MessageRoute_Direct
| MessageRoute_Path (hash_mode hop_count : u8).

Record Message := mkMessage {
  Message_observation_id : option u64;
  Message_source : MessageSource;
  Message_route : MessageRoute;
  Message_txt_type : u8;
  Message_sender_timestamp : u32;
  Message_signature : option bytes;
  Message_text : rstring;
  Message_snr : option f32;
  Message_status : MessageStatus
}.

Section fingerprint.
  Context `{Crates}.

(** The bytes hashed by [Message::delivery_fingerprint], in update order. *)
Definition fingerprint_input (m : Message) : bytes :=
  str_bytes "meshquill-message-delivery-v1" ++ [0%Z] ++
  match Message_source m with
  | MessageSource_Direct prefix =>
      [0%Z] ++ u64_to_le_bytes (Z.min (Z.of_nat (length prefix)) (2 ^ 64 - 1)) ++ prefix
  | MessageSource_Channel channel_idx => [1%Z; channel_idx]
  end ++
  [Message_txt_type m] ++ u32_to_le_bytes (Message_sender_timestamp m) ++
  match Message_signature m with
  | Some signature => [1%Z] ++ signature
  | None => [0%Z]
  end ++ Message_text m.

Definition Message_delivery_fingerprint (m : Message) : bytes := sha256 (fingerprint_input m).
End fingerprint.

Record Ack := mkAck { Ack_code : bytes; Ack_trip_time_ms : option u32 }.

(** [ChannelInfo] with its zeroizing secret. *)
Record ChannelInfo := mkChannelInfo {
  ChannelInfo_idx : u8;
  ChannelInfo_name : rstring;
  ChannelInfo_secret_hash : option u8;
  ChannelInfo_secret : option bytes
}.

Section channel_info.
  Context `{Crates}.

Definition ChannelInfo_with_secret (idx : u8) (name : rstring) (secret : option bytes) : ChannelInfo :=
  mkChannelInfo idx name ((λ value, default 0%Z (head (sha256 value))) <$> secret) secret.
End channel_info.

Record CommandTracking := mkCommandTracking {
  CommandTracking_ack_code : bytes;
  CommandTracking_timeout_ms : u32
}.

(** ** Events *)

Inductive Event :=
| Event_Connected
| Event_Disconnected
| Event_Contacts (contacts : list Contact) (lastmod : u32)
| Event_SelfInfo (info : SelfInfo)
| Event_DeviceInfo (info : DeviceInfo)
| Event_Message (message : Message)
| Event_ChannelInfo (idx : u8) (name : rstring) (secret_hash : option u8)
| Event_Ack (ack : Ack)
| Event_MessageSent (destination_type : u8) (ack_code : bytes) (suggested_timeout_ms : u32)
| Event_CurrentTime (timestamp : u32)
| Event_Battery (level : u16) (used_kb total_kb : option u32)
| Event_ContactUri (uri : ContactUri)
| Event_TuningParams (params : TuningParams)
| Event_CustomVariables (vars : CustomVariables)
| Event_AdvertPath (path : AdvertPath)
| Event_DeviceStats (stats : DeviceStats)
| Event_AutoAddConfig (config : AutoAddConfig)
| Event_AllowedRepeatFrequencies (ranges : list FrequencyRange)
| Event_DefaultFloodScope (scope : DefaultFloodScope)
| Event_LoginSucceeded (session : LoginSession)
| Event_LoginFailed (pubkey_prefix : bytes)
| Event_RemoteStatus (status : RemoteStatus)
| Event_Telemetry (response : TelemetryResponse)
| Event_BinaryResponse (response : BinaryResponse)
| Event_ControlData (data : ControlData)
| Event_PathDiscovery (path : PathDiscovery)
| Event_Signature (signature : Signature)
| Event_InboxEmpty
| Event_MessagesWaiting
| Event_ProtocolError (reason : rstring)
| Event_UnknownPacket (code : u8) (payload : bytes).

(** ** Node discovery *)

(** [ControlData::node_discovery_response]. *)
Definition node_discovery_response (d : ControlData)
    : outcome ParseError (option NodeDiscoveryResponse) :=
  let payload := ControlData_payload d in
  let PREFIX_RESPONSE_BYTES := 1 + 1 + 4 + 8 in
  let FULL_RESPONSE_BYTES := 1 + 1 + 4 + 32 in
  match payload !! 0 with
  | None => Err (ParseError_InvalidPacketLength (PacketDisplay_Raw 0x8e) 1 0)
  | Some control_type =>
      if negb (Z.land control_type 0xf0 =? 0x90)%Z then Ok None
      else if length payload <? PREFIX_RESPONSE_BYTES then
        Err (ParseError_InvalidPacketLength (PacketDisplay_Raw 0x8e)
               PREFIX_RESPONSE_BYTES (length payload))
      else if negb ((length payload =? PREFIX_RESPONSE_BYTES)
                    || (length payload =? FULL_RESPONSE_BYTES)) then
        Err (ParseError_Malformed
               "node-discovery response public key must be exactly 8 or 32 bytes")
      else
        b2 ← idx payload 2; b3 ← idx payload 3; b4 ← idx payload 4; b5 ← idx payload 5;
        let tag := from_le_bytes [b2; b3; b4; b5] in
        if (tag =? 0)%Z then
          Err (ParseError_Malformed "node-discovery response tag must be non-zero")
        else
          b1 ← idx payload 1;
          public_key ← slice_from payload 6;
          Ok (Some (mkNodeDiscoveryResponse (Z.land control_type 0x0f) (i8_from_bytes b1)
                      tag public_key))
  end.

(** ** Well-formed values: what the Rust types guarantee *)

Definition is_arr (n : nat) (l : bytes) : Prop := is_bytes l ∧ length l = n.
Definition opt_wf {A} (P : A → Prop) (o : option A) : Prop := ∀ a, o = Some a → P a.

Definition wf_PublicKey (k : PublicKey) : Prop := is_arr 32 (PublicKey_0 k).
Definition wf_Path (p : Path) : Prop :=
  is_bytes (Path_bytes p) ∧ length (Path_bytes p) ≤ Path_MAX_BYTES.

(** A route descriptor accounts exactly for the bytes of its path. *)
Definition route_covers (route : ContactRoute) (path : Path) : Prop :=
  match route with
  | ContactRoute_Flood => Path_bytes path = []
  | ContactRoute_Path hash_mode hop_count =>
      is_uint 2 hash_mode ∧ is_uint 6 hop_count ∧
      Z.of_nat (length (Path_bytes path)) = (hop_count * (hash_mode + 1))%Z
  end.

Definition no_nul (s : bytes) : Prop := Forall (λ b, b ≠ 0%Z) s.

(** A decoded name: text up to the first NUL of an [n]-byte field. *)
Definition wf_name (n : nat) (s : rstring) : Prop := is_rstring s ∧ no_nul s ∧ length s ≤ n.

Definition wf_ContactType (t : ContactType) : Prop :=
  match t with ContactType_Unknown raw => is_u8 raw ∧ (3 < raw)%Z | _ => True end.

Definition wf_Contact (c : Contact) : Prop :=
  wf_PublicKey (Contact_public_key c) ∧ wf_ContactType (Contact_contact_type c) ∧
  is_u8 (Contact_flags c) ∧ route_covers (Contact_route c) (Contact_out_path c) ∧
  is_bytes (Path_bytes (Contact_out_path c)) ∧
  length (Path_bytes (Contact_out_path c)) ≤ 64 ∧ wf_name 32 (Contact_adv_name c) ∧
  is_uint 32 (Contact_last_advert c) ∧ is_uint 32 (Contact_lastmod c).

Definition wf_SelfInfo (i : SelfInfo) : Prop :=
  is_u8 (SelfInfo_advertising_type i) ∧ is_u8 (SelfInfo_tx_power i) ∧
  is_u8 (SelfInfo_max_tx_power i) ∧ wf_PublicKey (SelfInfo_public_key i) ∧
  is_u8 (SelfInfo_multi_acks i) ∧ is_u8 (SelfInfo_advert_loc_policy i) ∧
  is_uint 2 (SelfInfo_telemetry_mode_env i) ∧ is_uint 2 (SelfInfo_telemetry_mode_loc i) ∧
  is_uint 2 (SelfInfo_telemetry_mode_base i) ∧ is_u8 (SelfInfo_radio_spreading_factor i) ∧
  is_u8 (SelfInfo_radio_coding_rate i) ∧ is_rstring (SelfInfo_name i) ∧ no_nul (SelfInfo_name i).

(** Which optional fields a protocol version carries. *)
Definition wf_DeviceInfo (i : DeviceInfo) : Prop :=
  let v := DeviceInfo_protocol_version i in
  is_u8 v ∧
  ((3 ≤ v)%Z ↔ is_Some (DeviceInfo_max_contacts i)) ∧
  ((3 ≤ v)%Z ↔ is_Some (DeviceInfo_max_channels i)) ∧
  ((3 ≤ v)%Z ↔ is_Some (DeviceInfo_ble_pin i)) ∧
  ((3 ≤ v)%Z ↔ is_Some (DeviceInfo_firmware_build i)) ∧
  ((3 ≤ v)%Z ↔ is_Some (DeviceInfo_model i)) ∧
  ((3 ≤ v)%Z ↔ is_Some (DeviceInfo_firmware_version i)) ∧
  ((9 ≤ v)%Z ↔ is_Some (DeviceInfo_repeat_enabled i)) ∧
  ((10 ≤ v)%Z ↔ is_Some (DeviceInfo_path_hash_mode i)) ∧
  opt_wf (is_uint 16) (DeviceInfo_max_contacts i) ∧ opt_wf is_u8 (DeviceInfo_max_channels i) ∧
  opt_wf (is_uint 32) (DeviceInfo_ble_pin i) ∧ opt_wf (wf_name 12) (DeviceInfo_firmware_build i) ∧
  opt_wf (wf_name 40) (DeviceInfo_model i) ∧ opt_wf (wf_name 20) (DeviceInfo_firmware_version i) ∧
  opt_wf is_u8 (DeviceInfo_path_hash_mode i).

Definition wf_MessageRoute (r : MessageRoute) : Prop :=
  match r with
  | MessageRoute_Direct => True
  | MessageRoute_Path hash_mode hop_count => is_uint 2 hash_mode ∧ is_uint 6 hop_count
  end.

Definition wf_Message (m : Message) : Prop :=
  match Message_source m with
  | MessageSource_Direct prefix => is_rstring prefix
  | MessageSource_Channel channel_idx => is_u8 channel_idx
  end ∧ wf_MessageRoute (Message_route m) ∧ is_u8 (Message_txt_type m) ∧
  is_uint 32 (Message_sender_timestamp m) ∧ opt_wf (is_arr 4) (Message_signature m) ∧
  is_rstring (Message_text m).

Definition wf_CustomVariable (v : CustomVariable) : Prop :=
  is_rstring (CustomVariable_key v) ∧ is_rstring (CustomVariable_value v) ∧
  CustomVariable_key v ≠ [] ∧ CustomVariable_value v ≠ [] ∧
  Forall (λ b, b ≠ 0 ∧ b ≠ 58 ∧ b ≠ 44)%Z (CustomVariable_key v) ∧
  Forall (λ b, b ≠ 0 ∧ b ≠ 58 ∧ b ≠ 44)%Z (CustomVariable_value v).

Definition wf_RemoteStatus (s : RemoteStatus) : Prop :=
  is_arr 6 (RemoteStatus_pubkey_prefix s) ∧ is_uint 16 (RemoteStatus_battery_mv s) ∧
  is_uint 16 (RemoteStatus_tx_queue_length s) ∧ is_sint 16 (RemoteStatus_noise_floor s) ∧
  is_sint 16 (RemoteStatus_last_rssi s) ∧ is_uint 32 (RemoteStatus_packets_received s) ∧
  is_uint 32 (RemoteStatus_packets_sent s) ∧ is_uint 32 (RemoteStatus_tx_airtime_seconds s) ∧
  is_uint 32 (RemoteStatus_uptime_seconds s) ∧ is_uint 32 (RemoteStatus_sent_flood s) ∧
  is_uint 32 (RemoteStatus_sent_direct s) ∧ is_uint 32 (RemoteStatus_received_flood s) ∧
  is_uint 32 (RemoteStatus_received_direct s) ∧ is_uint 16 (RemoteStatus_error_events s) ∧
  is_uint 16 (RemoteStatus_direct_duplicates s) ∧ is_uint 16 (RemoteStatus_flood_duplicates s) ∧
  is_uint 32 (RemoteStatus_rx_airtime_seconds s) ∧
  opt_wf (is_uint 32) (RemoteStatus_receive_errors s).

Definition wf_NodeDiscoveryResponse (r : NodeDiscoveryResponse) : Prop :=
  is_uint 4 (NodeDiscoveryResponse_node_type r) ∧
  is_sint 8 (NodeDiscoveryResponse_inbound_snr_qdb r) ∧
  (0 < NodeDiscoveryResponse_tag r < 2 ^ 32)%Z ∧
  is_bytes (NodeDiscoveryResponse_public_key r) ∧
  (length (NodeDiscoveryResponse_public_key r) = 8 ∨
   length (NodeDiscoveryResponse_public_key r) = 32).
