(* ===== verification/Samples.v ===== *)
(** * A concrete instance of the third-party functions

    Lower-case hexadecimal as the [hex] crate documents it, and a stand-in
    digest of the right length: with it the laws of [CratesLaws] hold, so the
    theorems that assume them apply to concrete inputs. *)

From S2P Require Import Prelude Text Domain.

Local Open Scope Z_scope.

Definition hex_digit (n : Z) : Z := if n <? 10 then 48 + n else 87 + n.
Definition hex_value (c : Z) : option Z :=
  if (48 <=? c) && (c <=? 57) then Some (c - 48)
  else if (97 <=? c) && (c <=? 102) then Some (c - 87)
  else if (65 <=? c) && (c <=? 70) then Some (c - 55)
  else None.

Fixpoint sample_hex_encode (l : bytes) : rstring :=
  match l with
  | [] => []
  | b :: l => hex_digit (b / 16) :: hex_digit (b mod 16) :: sample_hex_encode l
  end.

Fixpoint sample_hex_decode (s : rstring) : option bytes :=
  match s with
  | [] => Some []
  | [_] => None
  | a :: b :: s =>
      hi ← hex_value a; lo ← hex_value b; l ← sample_hex_decode s; Some ((16 * hi + lo) :: l)
  end.

Definition sample_digest (l : bytes) : bytes :=
  replicate 32 (Z.of_nat (length l) mod 256).

#[global] Instance sample_crates : Crates := {
  hex_encode := sample_hex_encode;
  hex_decode := sample_hex_decode;
  sha256 := sample_digest
}.

Lemma hex_digit_range n : 0 <= n < 16 → 48 <= hex_digit n <= 102.
Proof. unfold hex_digit. case_match eqn:H; lia. Qed.

Lemma hex_value_digit n : 0 <= n < 16 → hex_value (hex_digit n) = Some n.
Proof.
  intros. unfold hex_digit, hex_value.
  destruct (n <? 10) eqn:Hn; repeat (case_match; try (f_equal; lia); try lia).
Qed.

Lemma hex_value_range c v : hex_value c = Some v → 0 <= v < 16.
Proof. unfold hex_value. repeat case_match; intros; simplify_eq; lia. Qed.

Lemma nibbles b : is_u8 b → 0 <= b / 16 < 16 ∧ 0 <= b mod 16 < 16 ∧ 16 * (b / 16) + b mod 16 = b.
Proof.
  unfold is_u8. intros. pose proof (Z.div_mod b 16). pose proof (Z.mod_pos_bound b 16).
  assert (b / 16 < 16) by (apply Z.div_lt_upper_bound; lia).
  assert (0 <= b / 16) by (apply Z.div_pos; lia). lia.
Qed.

Lemma sample_hex_ascii l : is_bytes l → Forall (λ b, 0 <= b <= 0x7f) (sample_hex_encode l).
Proof.
  induction 1 as [|b l Hb Hl IH]; simpl; [constructor|].
  destruct (nibbles b Hb) as (H1&H2&_).
  pose proof (hex_digit_range _ H1). pose proof (hex_digit_range _ H2).
  repeat (constructor; [lia|]). done.
Qed.

Lemma sample_hex_decode_bytes n s l :
  (length s <= n)%nat → sample_hex_decode s = Some l → is_bytes l.
Proof.
  revert s l. induction n as [|n IH]; intros [|a [|b s]] l Hn H; simpl in *; simplify_eq;
    try constructor; try lia.
  destruct (hex_value a) as [hi|] eqn:Ha; simplify_eq/=.
  destruct (hex_value b) as [lo|] eqn:Hb; simplify_eq/=.
  destruct (sample_hex_decode s) as [l'|] eqn:Hl; simplify_eq/=.
  apply hex_value_range in Ha, Hb. constructor; [unfold is_u8; lia|].
  apply (IH s); [lia|done].
Qed.

#[global] Instance sample_laws : CratesLaws sample_crates.
Proof.
  split; simpl.
  - intros l Hl%sample_hex_ascii. split; [|by apply utf8_valid_ascii].
    eapply Forall_impl; [exact Hl|]. unfold is_u8. simpl. lia.
  - induction 1 as [|b l Hb Hl IH]; simpl; lia.
  - induction 1 as [|b l Hb Hl IH]; simpl; [constructor|]. destruct (nibbles b Hb) as (?&?&_).
    repeat (constructor; [unfold hex_digit; case_match eqn:Hd; lia|]). done.
  - induction 1 as [|b l Hb Hl IH]; simpl; [done|]. destruct (nibbles b Hb) as (?&?&?).
    rewrite !hex_value_digit by lia. simpl. rewrite IH. simpl. do 2 f_equal. lia.
  - intros s l. by apply (sample_hex_decode_bytes (length s)).
  - intros l. apply Forall_replicate. apply Z.mod_pos_bound. lia.
  - done.
Qed.
