(* ===== verification/Packet.v ===== *)
(** * Companion packets (crates/meshquill-core/src/protocol.rs, inbound half)

    [PacketCode], the parsed [Packet], [Packet::parse] with its parser per
    packet family, [Packet::into_event] and [Packet::code].  A parser is a
    function from the raw frame to an [outcome ParseError]: an index out of
    range or an arithmetic overflow is [Panic], so that the absence of panics is
    a theorem about these definitions. *)

From S2P Require Import Prelude Text Floats Domain.

(** [MAX_INNER_PAYLOAD]. *)
Definition MAX_INNER_PAYLOAD : usize := 176.

(** ** Packet codes *)

Inductive PacketCode :=
| PacketCode_Ok
| PacketCode_Error
| PacketCode_ContactStart
| PacketCode_Contact
| PacketCode_ContactEnd
| PacketCode_SelfInfo
| PacketCode_MsgSent
| PacketCode_ContactMsgRecv
| PacketCode_ChannelMsgRecv
| PacketCode_CurrentTime
| PacketCode_NoMoreMsgs
| PacketCode_ContactUri
| PacketCode_Battery
| PacketCode_DeviceInfo
| PacketCode_PrivateKey
| PacketCode_Disabled
| PacketCode_ContactMsgRecvV3
| PacketCode_ChannelMsgRecvV3
| PacketCode_ChannelInfo
| PacketCode_SignStart
| PacketCode_Signature
| PacketCode_CustomVars
| PacketCode_AdvertPath
| PacketCode_TuningParams
| PacketCode_Stats
| PacketCode_AutoaddConfig
| PacketCode_AllowedRepeatFreq
| PacketCode_ChannelDataRecv
| PacketCode_DefaultFloodScope
| PacketCode_Advertisement
| PacketCode_PathUpdate
| PacketCode_Ack
| PacketCode_MessagesWaiting
| PacketCode_RawData
| PacketCode_LoginSuccess
| PacketCode_LoginFailed
| PacketCode_StatusResponse
| PacketCode_LogData
| PacketCode_TraceData
| PacketCode_NewAdvert
| PacketCode_TelemetryResponse
| PacketCode_BinaryResponse
| PacketCode_PathDiscoveryResponse
| PacketCode_ControlData
| PacketCode_ContactDeleted
| PacketCode_ContactsFull
| PacketCode_Unknown (code : u8).

#[global] Instance PacketCode_eq_dec : EqDecision PacketCode.
Proof. solve_decision. Defined.

Definition PacketCode_to_u8 (c : PacketCode) : u8 :=
  match c with
  | PacketCode_Ok => 0x00
  | PacketCode_Error => 0x01
  | PacketCode_ContactStart => 0x02
  | PacketCode_Contact => 0x03
  | PacketCode_ContactEnd => 0x04
  | PacketCode_SelfInfo => 0x05
  | PacketCode_MsgSent => 0x06
  | PacketCode_ContactMsgRecv => 0x07
  | PacketCode_ChannelMsgRecv => 0x08
  | PacketCode_CurrentTime => 0x09
  | PacketCode_NoMoreMsgs => 0x0a
  | PacketCode_ContactUri => 0x0b
  | PacketCode_Battery => 0x0c
  | PacketCode_DeviceInfo => 0x0d
  | PacketCode_PrivateKey => 0x0e
  | PacketCode_Disabled => 0x0f
  | PacketCode_ContactMsgRecvV3 => 0x10
  | PacketCode_ChannelMsgRecvV3 => 0x11
  | PacketCode_ChannelInfo => 0x12
  | PacketCode_SignStart => 0x13
  | PacketCode_Signature => 0x14
  | PacketCode_CustomVars => 0x15
  | PacketCode_AdvertPath => 0x16
  | PacketCode_TuningParams => 0x17
  | PacketCode_Stats => 0x18
  | PacketCode_AutoaddConfig => 0x19
  | PacketCode_AllowedRepeatFreq => 0x1a
  | PacketCode_ChannelDataRecv => 0x1b
  | PacketCode_DefaultFloodScope => 0x1c
  | PacketCode_Advertisement => 0x80
  | PacketCode_PathUpdate => 0x81
  | PacketCode_Ack => 0x82
  | PacketCode_MessagesWaiting => 0x83
  | PacketCode_RawData => 0x84
  | PacketCode_LoginSuccess => 0x85
  | PacketCode_LoginFailed => 0x86
  | PacketCode_StatusResponse => 0x87
  | PacketCode_LogData => 0x88
  | PacketCode_TraceData => 0x89
  | PacketCode_NewAdvert => 0x8a
  | PacketCode_TelemetryResponse => 0x8b
  | PacketCode_BinaryResponse => 0x8c
  | PacketCode_PathDiscoveryResponse => 0x8d
  | PacketCode_ControlData => 0x8e
  | PacketCode_ContactDeleted => 0x8f
  | PacketCode_ContactsFull => 0x90
  | PacketCode_Unknown code => code
  end%Z.

Definition PacketCode_from_u8 (code : u8) : PacketCode :=
  match code with
  | 0x00 => PacketCode_Ok
  | 0x01 => PacketCode_Error
  | 0x02 => PacketCode_ContactStart
  | 0x03 => PacketCode_Contact
  | 0x04 => PacketCode_ContactEnd
  | 0x05 => PacketCode_SelfInfo
  | 0x06 => PacketCode_MsgSent
  | 0x07 => PacketCode_ContactMsgRecv
  | 0x08 => PacketCode_ChannelMsgRecv
  | 0x09 => PacketCode_CurrentTime
  | 0x0a => PacketCode_NoMoreMsgs
  | 0x0b => PacketCode_ContactUri
  | 0x0c => PacketCode_Battery
  | 0x0d => PacketCode_DeviceInfo
  | 0x0e => PacketCode_PrivateKey
  | 0x0f => PacketCode_Disabled
  | 0x10 => PacketCode_ContactMsgRecvV3
  | 0x11 => PacketCode_ChannelMsgRecvV3
  | 0x12 => PacketCode_ChannelInfo
  | 0x13 => PacketCode_SignStart
  | 0x14 => PacketCode_Signature
  | 0x15 => PacketCode_CustomVars
  | 0x16 => PacketCode_AdvertPath
  | 0x17 => PacketCode_TuningParams
  | 0x18 => PacketCode_Stats
  | 0x19 => PacketCode_AutoaddConfig
  | 0x1a => PacketCode_AllowedRepeatFreq
  | 0x1b => PacketCode_ChannelDataRecv
  | 0x1c => PacketCode_DefaultFloodScope
  | 0x80 => PacketCode_Advertisement
  | 0x81 => PacketCode_PathUpdate
  | 0x82 => PacketCode_Ack
  | 0x83 => PacketCode_MessagesWaiting
  | 0x84 => PacketCode_RawData
  | 0x85 => PacketCode_LoginSuccess
  | 0x86 => PacketCode_LoginFailed
  | 0x87 => PacketCode_StatusResponse
  | 0x88 => PacketCode_LogData
  | 0x89 => PacketCode_TraceData
  | 0x8a => PacketCode_NewAdvert
  | 0x8b => PacketCode_TelemetryResponse
  | 0x8c => PacketCode_BinaryResponse
  | 0x8d => PacketCode_PathDiscoveryResponse
  | 0x8e => PacketCode_ControlData
  | 0x8f => PacketCode_ContactDeleted
  | 0x90 => PacketCode_ContactsFull
  | other => PacketCode_Unknown other
  end%Z.

(** ** Packets *)

Inductive Packet :=
| Packet_Ok (value : option u32)
| Packet_Error (code : option u8)
| Packet_ContactStart (count : u32)
| Packet_Contact (contact : Contact)
| Packet_ContactEnd (lastmod : u32)
| Packet_SelfInfo (info : SelfInfo)
| Packet_MsgSent (destination_type : u8) (expected_ack : bytes) (suggested_timeout_ms : u32)
| Packet_ContactMsg (message : Message)
| Packet_ChannelMsg (message : Message)
| Packet_CurrentTime (timestamp : u32)
| Packet_NoMoreMsgs
| Packet_ContactUri (uri : ContactUri)
| Packet_Battery (info : BatteryInfo)
| Packet_DeviceInfo (info : DeviceInfo)
| Packet_PrivateKey (key : PrivateKeyMaterial)
| Packet_Disabled
| Packet_SignStart (max_data_bytes : u32)
| Packet_Signature (signature : Signature)
| Packet_ChannelInfo (info : ChannelInfo)
| Packet_TuningParams (params : TuningParams)
| Packet_CustomVariables (vars : CustomVariables)
| Packet_AdvertPath (path : AdvertPath)
| Packet_DeviceStats (stats : DeviceStats)
| Packet_AutoAddConfig (config : AutoAddConfig)
| Packet_AllowedRepeatFrequencies (ranges : list FrequencyRange)
| Packet_DefaultFloodScope (scope : DefaultFloodScope)
| Packet_Ack (ack : Ack)
| Packet_MessagesWaiting
| Packet_LoginSuccess (session : LoginSession)
| Packet_LoginFailed (pubkey_prefix : bytes)
| Packet_RemoteStatus (status : RemoteStatus)
| Packet_TelemetryResponse (response : TelemetryResponse)
| Packet_BinaryResponse (response : BinaryResponse)
| Packet_ControlData (data : ControlData)
| Packet_PathDiscovery (path : PathDiscovery)
| Packet_Unknown (code : u8) (payload : bytes).

(** [Packet::into_event]. *)
Definition Packet_into_event (p : Packet) : option Event :=
  match p with
  | Packet_Ok _ | Packet_Error _ | Packet_ContactStart _ | Packet_PrivateKey _
  | Packet_Disabled | Packet_SignStart _ => None
  | Packet_Contact contact => Some (Event_Contacts [contact] 0)
  | Packet_ContactEnd lastmod => Some (Event_Contacts [] lastmod)
  | Packet_SelfInfo info => Some (Event_SelfInfo info)
  | Packet_MsgSent destination_type expected_ack suggested_timeout_ms =>
      Some (Event_MessageSent destination_type expected_ack suggested_timeout_ms)
  | Packet_ContactMsg message | Packet_ChannelMsg message => Some (Event_Message message)
  | Packet_CurrentTime timestamp => Some (Event_CurrentTime timestamp)
  | Packet_ContactUri uri => Some (Event_ContactUri uri)
  | Packet_Battery info =>
      Some (Event_Battery (BatteryInfo_level info) (BatteryInfo_used_kb info)
              (BatteryInfo_total_kb info))
  | Packet_DeviceInfo info => Some (Event_DeviceInfo info)
  | Packet_ChannelInfo info =>
      Some (Event_ChannelInfo (ChannelInfo_idx info) (ChannelInfo_name info)
              (ChannelInfo_secret_hash info))
  | Packet_TuningParams params => Some (Event_TuningParams params)
  | Packet_CustomVariables vars => Some (Event_CustomVariables vars)
  | Packet_AdvertPath path => Some (Event_AdvertPath path)
  | Packet_DeviceStats stats => Some (Event_DeviceStats stats)
  | Packet_AutoAddConfig config => Some (Event_AutoAddConfig config)
  | Packet_AllowedRepeatFrequencies ranges => Some (Event_AllowedRepeatFrequencies ranges)
  | Packet_DefaultFloodScope scope => Some (Event_DefaultFloodScope scope)
  | Packet_LoginSuccess session => Some (Event_LoginSucceeded session)
  | Packet_LoginFailed pubkey_prefix => Some (Event_LoginFailed pubkey_prefix)
  | Packet_RemoteStatus status => Some (Event_RemoteStatus status)
  | Packet_TelemetryResponse response => Some (Event_Telemetry response)
  | Packet_BinaryResponse response => Some (Event_BinaryResponse response)
  | Packet_ControlData data => Some (Event_ControlData data)
  | Packet_PathDiscovery path => Some (Event_PathDiscovery path)
  | Packet_Signature signature => Some (Event_Signature signature)
  | Packet_Ack ack => Some (Event_Ack ack)
  | Packet_NoMoreMsgs => Some Event_InboxEmpty
  | Packet_MessagesWaiting => Some Event_MessagesWaiting
  | Packet_Unknown code payload => Some (Event_UnknownPacket code payload)
  end.

(** [Packet::code]. *)
Definition Packet_code (p : Packet) : PacketCode :=
  match p with
  | Packet_Ok _ => PacketCode_Ok
  | Packet_Error _ => PacketCode_Error
  | Packet_ContactStart _ => PacketCode_ContactStart
  | Packet_Contact _ => PacketCode_Contact
  | Packet_ContactEnd _ => PacketCode_ContactEnd
  | Packet_SelfInfo _ => PacketCode_SelfInfo
  | Packet_MsgSent _ _ _ => PacketCode_MsgSent
  | Packet_ContactMsg _ => PacketCode_ContactMsgRecv
  | Packet_ChannelMsg _ => PacketCode_ChannelMsgRecv
  | Packet_CurrentTime _ => PacketCode_CurrentTime
  | Packet_NoMoreMsgs => PacketCode_NoMoreMsgs
  | Packet_ContactUri _ => PacketCode_ContactUri
  | Packet_Battery _ => PacketCode_Battery
  | Packet_DeviceInfo _ => PacketCode_DeviceInfo
  | Packet_PrivateKey _ => PacketCode_PrivateKey
  | Packet_Disabled => PacketCode_Disabled
  | Packet_SignStart _ => PacketCode_SignStart
  | Packet_Signature _ => PacketCode_Signature
  | Packet_ChannelInfo _ => PacketCode_ChannelInfo
  | Packet_TuningParams _ => PacketCode_TuningParams
  | Packet_CustomVariables _ => PacketCode_CustomVars
  | Packet_AdvertPath _ => PacketCode_AdvertPath
  | Packet_DeviceStats _ => PacketCode_Stats
  | Packet_AutoAddConfig _ => PacketCode_AutoaddConfig
  | Packet_AllowedRepeatFrequencies _ => PacketCode_AllowedRepeatFreq
  | Packet_DefaultFloodScope _ => PacketCode_DefaultFloodScope
  | Packet_Ack _ => PacketCode_Ack
  | Packet_MessagesWaiting => PacketCode_MessagesWaiting
  | Packet_LoginSuccess _ => PacketCode_LoginSuccess
  | Packet_LoginFailed _ => PacketCode_LoginFailed
  | Packet_RemoteStatus _ => PacketCode_StatusResponse
  | Packet_TelemetryResponse _ => PacketCode_TelemetryResponse
  | Packet_BinaryResponse _ => PacketCode_BinaryResponse
  | Packet_ControlData _ => PacketCode_ControlData
  | Packet_PathDiscovery _ => PacketCode_PathDiscoveryResponse
  | Packet_Unknown code _ => PacketCode_from_u8 code
  end.

(** ** Field readers *)

Abbreviation parser := (outcome ParseError) (only parsing).

Definition malformed {A} (reason : string) : outcome ParseError A :=
  Err (ParseError_Malformed reason).

Definition require_len (raw : bytes) (minimum : usize) (code : PacketCode) : parser () :=
  if length raw <? minimum
  then Err (ParseError_InvalidPacketLength (PacketDisplay_Raw (PacketCode_to_u8 code))
              minimum (length raw))
  else Ok ().

Definition require_exact_len (raw : bytes) (expected : usize) (code : PacketCode) : parser () :=
  _ ← require_len raw expected code;
  ensure (length raw =? expected)
    (ParseError_Malformed "packet contains unexpected trailing bytes").

Definition read_u32 (raw : bytes) (offset : usize) : parser u32 :=
  b0 ← idx raw offset; b1 ← idx raw (offset + 1);
  b2 ← idx raw (offset + 2); b3 ← idx raw (offset + 3);
  Ok (from_le_bytes [b0; b1; b2; b3]).

Definition read_u16 (raw : bytes) (offset : usize) : parser u16 :=
  b0 ← idx raw offset; b1 ← idx raw (offset + 1); Ok (from_le_bytes [b0; b1]).

Definition read_i16 (raw : bytes) (offset : usize) : parser i16 :=
  b0 ← idx raw offset; b1 ← idx raw (offset + 1); Ok (i16_from_le_bytes [b0; b1]).

(** [u32::from_le_bytes] of four bytes of the frame, divided by 1000 as [f64]. *)
Definition read_thousandths (raw : bytes) (offset : usize) : parser f64 :=
  z ← read_u32 raw offset; Ok (f64_div (f64_of_Z z) (f64_of_Z 1000)).

Definition decode_padded_string (raw : bytes) (context : string) : parser rstring :=
  let end_ := default (length raw) (position (λ b, (b =? 0)%Z) raw) in
  text ← slice raw 0 end_;
  ok_or (from_utf8 text) (ParseError_InvalidUtf8Payload context).

Definition decode_text (raw : bytes) (context : string) : parser rstring :=
  ok_or (from_utf8 raw) (ParseError_InvalidUtf8Payload context).

Definition parse_scaled_i32 (raw : bytes) : f64 :=
  f64_div (f64_of_Z (i32_from_le_bytes raw)) (f64_of_Z 1000000).

(** [parse_scaled_i32] of the four bytes at an offset. *)
Definition read_scaled_i32 (raw : bytes) (offset : usize) : parser f64 :=
  b0 ← idx raw offset; b1 ← idx raw (offset + 1);
  b2 ← idx raw (offset + 2); b3 ← idx raw (offset + 3);
  Ok (parse_scaled_i32 [b0; b1; b2; b3]).

(** [f32::from(i8::from_le_bytes([b])) / 4.0]. *)
Definition snr_of_byte (b : u8) : f32 := f32_div (f32_of_Z (i8_from_bytes b)) (f32_of_Z 4).

Definition message_route (route_byte : u8) : MessageRoute :=
  if (route_byte =? 255)%Z then MessageRoute_Direct
  else MessageRoute_Path (Z.shiftr route_byte 6) (Z.land route_byte 0x3f).

(** ** Parsers without strings to format *)

Definition parse_ok (raw : bytes) : parser Packet :=
  match raw with
  | [_] => Ok (Packet_Ok None)
  | [_; one; two; three; four] =>
      Ok (Packet_Ok (Some (from_le_bytes [one; two; three; four])))
  | _ => malformed "OK packet must contain either no value or one complete u32 value"
  end.

Definition parse_error (raw : bytes) : Packet := Packet_Error (raw !! 1).

Definition parse_private_key (raw : bytes) : parser Packet :=
  _ ← require_exact_len raw 65 PacketCode_PrivateKey;
  tail ← slice_from raw 1;
  private_key ← map_err (λ _, ParseError_Malformed "invalid private-key payload")
                  (PrivateKeyMaterial_try_from_bytes tail);
  Ok (Packet_PrivateKey private_key).

Definition parse_disabled (raw : bytes) : parser Packet :=
  _ ← require_exact_len raw 1 PacketCode_Disabled;
  Ok Packet_Disabled.

Definition parse_sign_start (raw : bytes) : parser Packet :=
  _ ← require_exact_len raw 6 PacketCode_SignStart;
  reserved ← idx raw 1;
  if negb (reserved =? 0)%Z then malformed "sign-start reserved byte must be zero"
  else max_data_bytes ← read_u32 raw 2; Ok (Packet_SignStart max_data_bytes).

Definition parse_signature (raw : bytes) : parser Packet :=
  _ ← require_exact_len raw 65 PacketCode_Signature;
  tail ← slice_from raw 1;
  signature ← map_err (λ _, ParseError_Malformed "invalid signature payload")
                (Signature_try_from_bytes tail);
  Ok (Packet_Signature signature).

(** [(cond).then(|| read_u32(raw, offset))]. *)
Definition then_read_u32 (cond : bool) (raw : bytes) (offset : usize) : parser (option u32) :=
  if cond then z ← read_u32 raw offset; Ok (Some z) else Ok None.

Definition parse_login_success (raw : bytes) : parser Packet :=
  let n := length raw in
  if negb ((n =? 8) || (n =? 12) || (n =? 13) || (n =? 14)) then
    _ ← require_len raw 8 PacketCode_LoginSuccess;
    malformed "login-success packet has a partial or unexpected extension"
  else
    pubkey_prefix ← slice raw 2 8;
    permissions ← idx raw 1;
    server_timestamp ← then_read_u32 (12 <=? n) raw 8;
    Ok (Packet_LoginSuccess
          (mkLoginSession permissions pubkey_prefix server_timestamp (raw !! 12) (raw !! 13))).

Definition parse_login_failed (raw : bytes) : parser Packet :=
  _ ← require_exact_len raw 8 PacketCode_LoginFailed;
  reserved ← idx raw 1;
  if negb (reserved =? 0)%Z then malformed "login-failed reserved byte must be zero"
  else pubkey_prefix ← slice raw 2 8; Ok (Packet_LoginFailed pubkey_prefix).

Definition parse_remote_status (raw : bytes) : parser Packet :=
  let n := length raw in
  if negb ((n =? 60) || (n =? 64)) then
    _ ← require_len raw 60 PacketCode_StatusResponse;
    malformed "status response must contain the legacy or current complete layout"
  else
    reserved ← idx raw 1;
    if negb (reserved =? 0)%Z then malformed "status-response reserved byte must be zero"
    else
      pubkey_prefix ← slice raw 2 8;
      let offset := 8 in
      battery_mv ← read_u16 raw offset;
      tx_queue_length ← read_u16 raw (offset + 2);
      noise_floor ← read_i16 raw (offset + 4);
      last_rssi ← read_i16 raw (offset + 6);
      packets_received ← read_u32 raw (offset + 8);
      packets_sent ← read_u32 raw (offset + 12);
      tx_airtime_seconds ← read_u32 raw (offset + 16);
      uptime_seconds ← read_u32 raw (offset + 20);
      sent_flood ← read_u32 raw (offset + 24);
      sent_direct ← read_u32 raw (offset + 28);
      received_flood ← read_u32 raw (offset + 32);
      received_direct ← read_u32 raw (offset + 36);
      error_events ← read_u16 raw (offset + 40);
      snr ← read_i16 raw (offset + 42);
      direct_duplicates ← read_u16 raw (offset + 44);
      flood_duplicates ← read_u16 raw (offset + 46);
      rx_airtime_seconds ← read_u32 raw (offset + 48);
      receive_errors ← then_read_u32 (n =? 64) raw (offset + 52);
      Ok (Packet_RemoteStatus
            (mkRemoteStatus pubkey_prefix battery_mv tx_queue_length noise_floor last_rssi
               packets_received packets_sent tx_airtime_seconds uptime_seconds sent_flood
               sent_direct received_flood received_direct error_events
               (f32_div (f32_of_Z snr) (f32_of_Z 4)) direct_duplicates flood_duplicates
               rx_airtime_seconds receive_errors)).

Definition parse_telemetry_response (raw : bytes) : parser Packet :=
  _ ← require_len raw 8 PacketCode_TelemetryResponse;
  reserved ← idx raw 1;
  if negb (reserved =? 0)%Z then malformed "telemetry-response reserved byte must be zero"
  else
    pubkey_prefix ← slice raw 2 8;
    payload ← slice_from raw 8;
    Ok (Packet_TelemetryResponse (mkTelemetryResponse pubkey_prefix payload)).

Definition parse_binary_response (raw : bytes) : parser Packet :=
  _ ← require_len raw 6 PacketCode_BinaryResponse;
  reserved ← idx raw 1;
  if negb (reserved =? 0)%Z then malformed "binary-response reserved byte must be zero"
  else
    tag ← slice raw 2 6;
    payload ← slice_from raw 6;
    Ok (Packet_BinaryResponse (mkBinaryResponse tag payload)).

Definition parse_control_data (raw : bytes) : parser Packet :=
  _ ← require_len raw 5 PacketCode_ControlData;
  snr ← idx raw 1; rssi ← idx raw 2; path_len ← idx raw 3;
  payload ← slice_from raw 4;
  Ok (Packet_ControlData (mkControlData (i8_from_bytes snr) (i8_from_bytes rssi) path_len payload)).

(** [parse_discovered_path]: the updated cursor is returned beside the route. *)
Definition parse_discovered_path (raw : bytes) (cursor : usize)
    : parser (ContactRoute * Path * usize) :=
  descriptor ← ok_or (raw !! cursor)
    (ParseError_Malformed "path-discovery response is missing a route descriptor");
  let cursor := usize_saturating_add cursor 1 in
  '(route, byte_len) ←
    (if (descriptor =? 255)%Z then Ok (ContactRoute_Flood, 0)
     else
       let hash_mode := Z.shiftr descriptor 6 in
       let hop_count := Z.land descriptor 0x3f in
       len ← ok_or (usize_checked_mul (Z.to_nat hop_count) (Z.to_nat hash_mode + 1))
               (ParseError_Malformed "path-discovery path length overflowed");
       Ok (ContactRoute_Path hash_mode hop_count, len));
  end_ ← ok_or (usize_checked_add cursor byte_len)
          (ParseError_Malformed "path-discovery cursor overflowed");
  bytes ← ok_or (get_range raw cursor end_)
          (ParseError_Malformed "path-discovery response contains a truncated path");
  path ← map_err (λ _, ParseError_Malformed "path-discovery response exceeds supported path bytes")
          (Path_try_from_bytes bytes);
  Ok (route, path, end_).

Definition parse_path_discovery (raw : bytes) : parser Packet :=
  _ ← require_len raw 10 PacketCode_PathDiscoveryResponse;
  reserved ← idx raw 1;
  if negb (reserved =? 0)%Z then malformed "path-discovery reserved byte must be zero"
  else
    pubkey_prefix ← slice raw 2 8;
    '(outbound_route, outbound_path, cursor) ← parse_discovered_path raw 8;
    '(inbound_route, inbound_path, cursor) ← parse_discovered_path raw cursor;
    if negb (cursor =? length raw)
    then malformed "path-discovery response contains trailing bytes"
    else Ok (Packet_PathDiscovery
               (mkPathDiscovery pubkey_prefix outbound_route outbound_path inbound_route
                  inbound_path)).

Definition parse_contact_start (raw : bytes) : parser Packet :=
  _ ← require_len raw 5 PacketCode_ContactStart;
  count ← read_u32 raw 1;
  Ok (Packet_ContactStart count).

Definition parse_contact (raw : bytes) : parser Packet :=
  let CONTACT_PACKET_LEN := 148 in
  let FIXED_PATH_LEN := 64 in
  _ ← require_len raw CONTACT_PACKET_LEN PacketCode_Contact;
  key ← slice raw 1 33;
  public_key ← map_err (λ _, ParseError_Malformed "invalid contact public key")
                 (PublicKey_try_from_bytes key);
  type_byte ← idx raw 33;
  flags ← idx raw 34;
  route_byte ← idx raw 35;
  '(route, used_path_bytes) ←
    (if (route_byte =? 255)%Z then Ok (ContactRoute_Flood, 0)
     else
       let hash_mode := Z.shiftr route_byte 6 in
       let hop_count := Z.land route_byte 0x3f in
       let used := Z.to_nat hop_count * (Z.to_nat hash_mode + 1) in
       if FIXED_PATH_LEN <? used
       then malformed "contact path descriptor exceeds fixed path field"
       else Ok (ContactRoute_Path hash_mode hop_count, used));
  path ← slice raw 36 (36 + used_path_bytes);
  out_path ← map_err (λ _, ParseError_Malformed "invalid contact path") (Path_try_from_bytes path);
  let cursor := 36 + FIXED_PATH_LEN in
  name_field ← slice raw cursor (cursor + 32);
  adv_name ← decode_padded_string name_field "Contact.adv_name";
  let cursor := cursor + 32 in
  last_advert ← read_u32 raw cursor;
  let cursor := cursor + 4 in
  adv_lat ← read_scaled_i32 raw cursor;
  adv_lon ← read_scaled_i32 raw (cursor + 4);
  lastmod ← read_u32 raw (cursor + 8);
  Ok (Packet_Contact
        (mkContact public_key (ContactType_from_u8 type_byte) flags route out_path adv_name
           last_advert adv_lat adv_lon lastmod)).

Definition parse_contact_end (raw : bytes) : parser Packet :=
  _ ← require_len raw 5 PacketCode_ContactEnd;
  lastmod ← read_u32 raw 1;
  Ok (Packet_ContactEnd lastmod).

Definition parse_self_info (raw : bytes) : parser Packet :=
  _ ← require_len raw 58 PacketCode_SelfInfo;
  key ← slice raw 4 36;
  public_key ← map_err (λ _, ParseError_Malformed "invalid self-info public key")
                 (PublicKey_try_from_bytes key);
  modes ← idx raw 46;
  advertising_type ← idx raw 1;
  tx_power ← idx raw 2;
  max_tx_power ← idx raw 3;
  adv_lat ← read_scaled_i32 raw 36;
  adv_lon ← read_scaled_i32 raw 40;
  multi_acks ← idx raw 44;
  advert_loc_policy ← idx raw 45;
  manual ← idx raw 47;
  radio_frequency_mhz ← read_thousandths raw 48;
  radio_bandwidth_khz ← read_thousandths raw 52;
  radio_spreading_factor ← idx raw 56;
  radio_coding_rate ← idx raw 57;
  name_field ← slice_from raw 58;
  name ← decode_padded_string name_field "SelfInfo.name";
  Ok (Packet_SelfInfo
        (mkSelfInfo advertising_type tx_power max_tx_power public_key adv_lat adv_lon multi_acks
           advert_loc_policy (Z.land (Z.shiftr modes 4) 3) (Z.land (Z.shiftr modes 2) 3)
           (Z.land modes 3) (negb (manual =? 0)%Z) radio_frequency_mhz radio_bandwidth_khz
           radio_spreading_factor radio_coding_rate name)).

(** The fields present from protocol version 3 on. *)
Definition device_info_v3 (raw : bytes)
    : parser (u16 * u8 * u32 * rstring * rstring * rstring) :=
  _ ← require_len raw 80 PacketCode_DeviceInfo;
  b2 ← idx raw 2;
  max_contacts ← arith 16 (b2 * 2);
  max_channels ← idx raw 3;
  ble_pin ← read_u32 raw 4;
  build_field ← slice raw 8 20;
  firmware_build ← decode_padded_string build_field "DeviceInfo.firmware_build";
  model_field ← slice raw 20 60;
  model ← decode_padded_string model_field "DeviceInfo.model";
  version_field ← slice raw 60 80;
  firmware_version ← decode_padded_string version_field "DeviceInfo.version";
  Ok (max_contacts, max_channels, ble_pin, firmware_build, model, firmware_version).

Definition parse_device_info (raw : bytes) : parser Packet :=
  _ ← require_len raw 2 PacketCode_DeviceInfo;
  protocol_version ← idx raw 1;
  v3 ← (if (3 <=? protocol_version)%Z then r ← device_info_v3 raw; Ok (Some r) else Ok None);
  repeat_enabled ←
    (if (9 <=? protocol_version)%Z then
       _ ← require_len raw 81 PacketCode_DeviceInfo;
       b ← idx raw 80; Ok (Some (negb (b =? 0)%Z))
     else Ok None);
  path_hash_mode ←
    (if (10 <=? protocol_version)%Z then
       _ ← require_len raw 82 PacketCode_DeviceInfo;
       b ← idx raw 81; Ok (Some b)
     else Ok None);
  Ok (Packet_DeviceInfo
        match v3 with
        | Some (max_contacts, max_channels, ble_pin, firmware_build, model, firmware_version) =>
            mkDeviceInfo protocol_version (Some max_contacts) (Some max_channels) (Some ble_pin)
              (Some firmware_build) (Some model) (Some firmware_version) repeat_enabled
              path_hash_mode
        | None =>
            mkDeviceInfo protocol_version None None None None None None repeat_enabled
              path_hash_mode
        end).

Definition parse_msg_sent (raw : bytes) : parser Packet :=
  _ ← require_len raw 10 PacketCode_MsgSent;
  expected_ack ← slice raw 2 6;
  destination_type ← idx raw 1;
  suggested_timeout_ms ← read_u32 raw 6;
  Ok (Packet_MsgSent destination_type expected_ack suggested_timeout_ms).

Definition parse_channel_msg (raw : bytes) (is_v3 : bool) : parser Packet :=
  let code := if is_v3 then PacketCode_ChannelMsgRecvV3 else PacketCode_ChannelMsgRecv in
  _ ← require_len raw (if is_v3 then 11 else 8) code;
  let cursor := 1 in
  '(snr, cursor) ←
    (if is_v3 then b ← idx raw cursor; Ok (Some (snr_of_byte b), cursor + 3)
     else Ok (None, cursor));
  channel_idx ← idx raw cursor;
  let cursor := cursor + 1 in
  route_byte ← idx raw cursor;
  txt_type ← idx raw (cursor + 1);
  sender_timestamp ← read_u32 raw (cursor + 2);
  rest ← slice_from raw (cursor + 6);
  text ← decode_text rest (if is_v3 then "ChannelMsg.text_v3" else "ChannelMsg.text");
  Ok (Packet_ChannelMsg
        (mkMessage None (MessageSource_Channel channel_idx) (message_route route_byte) txt_type
           sender_timestamp None text snr MessageStatus_Received)).

Definition parse_current_time (raw : bytes) : parser Packet :=
  _ ← require_exact_len raw 5 PacketCode_CurrentTime;
  t ← read_u32 raw 1;
  Ok (Packet_CurrentTime t).

Definition parse_battery (raw : bytes) : parser Packet :=
  _ ← require_len raw 3 PacketCode_Battery;
  level ← read_u16 raw 1;
  '(used_kb, total_kb) ←
    (if length raw =? 3 then Ok (None, None)
     else if length raw =? 11 then
       used ← read_u32 raw 3; total ← read_u32 raw 7; Ok (Some used, Some total)
     else if length raw <? 11 then
       Err (ParseError_InvalidPacketLength (PacketDisplay_Raw (PacketCode_to_u8 PacketCode_Battery))
              11 (length raw))
     else malformed "battery packet contains unexpected trailing bytes");
  Ok (Packet_Battery (mkBatteryInfo level used_kb total_kb)).

Definition parse_tuning_params (raw : bytes) : parser Packet :=
  _ ← require_exact_len raw 9 PacketCode_TuningParams;
  rx_delay ← read_u32 raw 1;
  airtime_factor ← read_u32 raw 5;
  Ok (Packet_TuningParams (mkTuningParams rx_delay airtime_factor)).

(** [text.contains(c)] for an ASCII character. *)
Definition contains_byte (c : Z) (s : bytes) : bool := existsb (Z.eqb c) s.

(** One iteration of the loop over the comma-separated pairs. *)
Definition custom_var_entry (entries : list CustomVariable) (pair : rstring)
    : parser (list CustomVariable) :=
  match split_once 58 pair with
  | None => malformed "custom-variable entry is missing its separator"
  | Some (key, value) =>
      if bool_decide (key = []) || bool_decide (value = []) || contains_byte 58 value
         || contains_byte 0 key || contains_byte 0 value
      then malformed "custom-variable entry is not one strict non-empty key:value pair"
      else if existsb (λ e, bool_decide (CustomVariable_key e = key)) entries
      then malformed "custom-variable payload contains a duplicate key"
      else Ok (entries ++ [mkCustomVariable key value])
  end.

Definition parse_custom_vars (raw : bytes) : parser Packet :=
  let MAX_CUSTOM_VARS_BYTES := 140 in
  if MAX_CUSTOM_VARS_BYTES <? length raw - 1
  then malformed "custom-variable payload exceeds firmware response bound"
  else
    body ← slice_from raw 1;
    text ← ok_or (from_utf8 body) (ParseError_InvalidUtf8Payload "CustomVariables");
    entries ←
      (if bool_decide (text = []) then Ok []
       else try_fold custom_var_entry [] (split_on 44 text));
    Ok (Packet_CustomVariables (mkCustomVariables body entries)).

Definition parse_advert_path (raw : bytes) : parser Packet :=
  _ ← require_len raw 6 PacketCode_AdvertPath;
  descriptor ← idx raw 5;
  let '(route, used_path_bytes) :=
    if (descriptor =? 255)%Z then (ContactRoute_Flood, 0)
    else
      let hash_mode := Z.shiftr descriptor 6 in
      let hop_count := Z.land descriptor 0x3f in
      (ContactRoute_Path hash_mode hop_count, Z.to_nat hop_count * (Z.to_nat hash_mode + 1)) in
  _ ← require_exact_len raw (6 + used_path_bytes) PacketCode_AdvertPath;
  bytes ← slice_from raw 6;
  path ← map_err (λ _, ParseError_Malformed "advert path exceeds supported path bytes")
           (Path_try_from_bytes bytes);
  received_at ← read_u32 raw 1;
  Ok (Packet_AdvertPath (mkAdvertPath received_at route path)).

Definition parse_stats (raw : bytes) : parser Packet :=
  _ ← require_len raw 2 PacketCode_Stats;
  subtype ← idx raw 1;
  stats ←
    (match subtype with
     | 0%Z =>
         _ ← require_exact_len raw 11 PacketCode_Stats;
         battery_mv ← read_u16 raw 2;
         uptime_seconds ← read_u32 raw 4;
         errors ← read_u16 raw 8;
         queue_length ← idx raw 10;
         Ok (DeviceStats_Core battery_mv uptime_seconds errors queue_length)
     | 1%Z =>
         _ ← require_exact_len raw 14 PacketCode_Stats;
         noise_floor ← read_i16 raw 2;
         last_rssi ← idx raw 4;
         snr ← idx raw 5;
         tx_airtime_seconds ← read_u32 raw 6;
         rx_airtime_seconds ← read_u32 raw 10;
         Ok (DeviceStats_Radio noise_floor (i8_from_bytes last_rssi) (snr_of_byte snr)
               tx_airtime_seconds rx_airtime_seconds)
     | 2%Z =>
         let n := length raw in
         if negb ((n =? 26) || (n =? 30)) then
           _ ← require_len raw 26 PacketCode_Stats;
           malformed "packet statistics must use the 26- or 30-byte layout"
         else
           recv ← read_u32 raw 2;
           sent ← read_u32 raw 6;
           flood_sent ← read_u32 raw 10;
           direct_sent ← read_u32 raw 14;
           flood_recv ← read_u32 raw 18;
           direct_recv ← read_u32 raw 22;
           recv_errors ← then_read_u32 (n =? 30) raw 26;
           Ok (DeviceStats_Packets recv sent flood_recv flood_sent direct_recv direct_sent
                 recv_errors)
     | _ => malformed "unknown statistics subtype"
     end);
  Ok (Packet_DeviceStats stats).

Definition parse_auto_add_config (raw : bytes) : parser Packet :=
  let n := length raw in
  if negb ((n =? 2) || (n =? 3)) then
    _ ← require_len raw 2 PacketCode_AutoaddConfig;
    malformed "auto-add config must use the 2- or 3-byte layout"
  else
    let max_hops := raw !! 2 in
    if match max_hops with Some value => (64 <? value)%Z | None => false end
    then malformed "auto-add max hops exceeds firmware bound"
    else config ← idx raw 1; Ok (Packet_AutoAddConfig (mkAutoAddConfig config max_hops)).

(** One iteration of the loop over the 8-byte ranges. *)
Definition frequency_range_entry (ranges : list FrequencyRange) (chunk : bytes)
    : parser (list FrequencyRange) :=
  lower_khz ← read_u32 chunk 0;
  upper_khz ← read_u32 chunk 4;
  if ((lower_khz =? 0) || (upper_khz =? 0) || (upper_khz <? lower_khz))%Z
  then malformed "repeat-frequency range is invalid"
  else Ok (ranges ++ [mkFrequencyRange lower_khz upper_khz]).

Definition parse_allowed_repeat_frequencies (raw : bytes) : parser Packet :=
  len ← arith 64 (Z.of_nat (length raw) - 1);
  if negb (len mod 8 =? 0)%Z
  then malformed "repeat-frequency payload contains a truncated range"
  else
    body ← slice_from raw 1;
    ranges ← try_fold frequency_range_entry [] (chunks_exact 8 body);
    Ok (Packet_AllowedRepeatFrequencies ranges).

Definition parse_default_flood_scope (raw : bytes) : parser Packet :=
  if length raw =? 1 then Ok (Packet_DefaultFloodScope DefaultFloodScope_Unconfigured)
  else
    _ ← require_exact_len raw 48 PacketCode_DefaultFloodScope;
    field ← slice raw 1 32;
    match position (λ b, (b =? 0)%Z) field with
    | None => malformed "default flood scope name is not NUL terminated"
    | Some name_end =>
        if name_end =? 0 then malformed "configured default flood scope has an empty name"
        else
          name_bytes ← slice raw 1 (name_end + 1);
          name ← ok_or (from_utf8 name_bytes)
                   (ParseError_InvalidUtf8Payload "DefaultFloodScope.name");
          key ← slice raw 32 48;
          Ok (Packet_DefaultFloodScope
                (DefaultFloodScope_Configured (Scope_new (Some name) key)))
    end.

Definition parse_ack (raw : bytes) : parser Packet :=
  _ ← require_len raw 5 PacketCode_Ack;
  if (6 <=? length raw) && (length raw <? 9)
  then malformed "ACK packet contains a truncated trip-time field"
  else
    code ← slice raw 1 5;
    trip_time_ms ← then_read_u32 (9 <=? length raw) raw 5;
    Ok (Packet_Ack (mkAck code trip_time_ms)).

(** ** Parsers that use the [hex] and [sha2] crates, and the dispatcher *)

Section parse.
  Context `{Crates}.

Definition parse_contact_msg (raw : bytes) (is_v3 : bool) : parser Packet :=
  let code := if is_v3 then PacketCode_ContactMsgRecvV3 else PacketCode_ContactMsgRecv in
  _ ← require_len raw (if is_v3 then 16 else 13) code;
  let cursor := 1 in
  '(snr, cursor) ←
    (if is_v3 then b ← idx raw cursor; Ok (Some (snr_of_byte b), cursor + 3)
     else Ok (None, cursor));
  let prefix_start := cursor in
  route_byte ← idx raw (prefix_start + 6);
  prefix ← slice raw prefix_start (prefix_start + 6);
  let pubkey_prefix := hex_encode prefix in
  let cursor := prefix_start + 7 in
  txt_type ← idx raw cursor;
  sender_timestamp ← read_u32 raw (cursor + 1);
  let cursor := cursor + 5 in
  '(signature, cursor) ←
    (if (txt_type =? 2)%Z then
       _ ← require_len raw (cursor + 4) code;
       bytes ← slice raw cursor (cursor + 4);
       Ok (Some bytes, cursor + 4)
     else Ok (None, cursor));
  rest ← slice_from raw cursor;
  text ← decode_text rest (if is_v3 then "ContactMsg.text_v3" else "ContactMsg.text");
  Ok (Packet_ContactMsg
        (mkMessage None (MessageSource_Direct pubkey_prefix) (message_route route_byte) txt_type
           sender_timestamp signature text snr MessageStatus_Received)).

Definition parse_contact_uri (raw : bytes) : parser Packet :=
  _ ← require_len raw 2 PacketCode_ContactUri;
  card ← slice_from raw 1;
  Ok (Packet_ContactUri (mkContactUri (str_bytes "meshcore://" ++ hex_encode card) card)).

Definition parse_channel_info (raw : bytes) : parser Packet :=
  _ ← require_len raw 50 PacketCode_ChannelInfo;
  idx_byte ← idx raw 1;
  name_field ← slice raw 2 34;
  name ← decode_padded_string name_field "ChannelInfo.name";
  secret ← slice raw 34 50;
  Ok (Packet_ChannelInfo (ChannelInfo_with_secret idx_byte name (Some secret))).

(** [Packet::parse]. *)
Definition Packet_parse (raw : bytes) : parser Packet :=
  match raw with
  | [] => malformed "empty packet"
  | code_byte :: payload =>
      if MAX_INNER_PAYLOAD <? length raw
      then Err (ParseError_OversizedPacketPayload (length raw) MAX_INNER_PAYLOAD)
      else
        match PacketCode_from_u8 code_byte with
        | PacketCode_Ok => parse_ok raw
        | PacketCode_Error => Ok (parse_error raw)
        | PacketCode_ContactStart => parse_contact_start raw
        | PacketCode_Contact => parse_contact raw
        | PacketCode_ContactEnd => parse_contact_end raw
        | PacketCode_SelfInfo => parse_self_info raw
        | PacketCode_MsgSent => parse_msg_sent raw
        | PacketCode_ContactMsgRecv => parse_contact_msg raw false
        | PacketCode_ContactMsgRecvV3 => parse_contact_msg raw true
        | PacketCode_ChannelMsgRecv => parse_channel_msg raw false
        | PacketCode_ChannelMsgRecvV3 => parse_channel_msg raw true
        | PacketCode_CurrentTime => parse_current_time raw
        | PacketCode_NoMoreMsgs => Ok Packet_NoMoreMsgs
        | PacketCode_ContactUri => parse_contact_uri raw
        | PacketCode_Battery => parse_battery raw
        | PacketCode_DeviceInfo => parse_device_info raw
        | PacketCode_PrivateKey => parse_private_key raw
        | PacketCode_Disabled => parse_disabled raw
        | PacketCode_ChannelInfo => parse_channel_info raw
        | PacketCode_SignStart => parse_sign_start raw
        | PacketCode_Signature => parse_signature raw
        | PacketCode_CustomVars => parse_custom_vars raw
        | PacketCode_AdvertPath => parse_advert_path raw
        | PacketCode_TuningParams => parse_tuning_params raw
        | PacketCode_Stats => parse_stats raw
        | PacketCode_AutoaddConfig => parse_auto_add_config raw
        | PacketCode_AllowedRepeatFreq => parse_allowed_repeat_frequencies raw
        | PacketCode_DefaultFloodScope => parse_default_flood_scope raw
        | PacketCode_Ack => parse_ack raw
        | PacketCode_MessagesWaiting => Ok Packet_MessagesWaiting
        | PacketCode_LoginSuccess => parse_login_success raw
        | PacketCode_LoginFailed => parse_login_failed raw
        | PacketCode_StatusResponse => parse_remote_status raw
        | PacketCode_TelemetryResponse => parse_telemetry_response raw
        | PacketCode_BinaryResponse => parse_binary_response raw
        | PacketCode_PathDiscoveryResponse => parse_path_discovery raw
        | PacketCode_ControlData => parse_control_data raw
        | PacketCode_Advertisement | PacketCode_PathUpdate | PacketCode_RawData
        | PacketCode_LogData | PacketCode_TraceData | PacketCode_NewAdvert
        | PacketCode_ContactDeleted | PacketCode_ContactsFull | PacketCode_ChannelDataRecv =>
            Ok (Packet_Unknown code_byte payload)
        | PacketCode_Unknown code => Ok (Packet_Unknown code payload)
        end
  end.
End parse.
