(* ===== verification/PacketFacts.v ===== *)
(** * Facts about packet parsing

    For every parser: it never panics, and what it accepts is well formed (the
    widths, lengths and UTF-8 guarantees of the Rust types, route descriptors
    that account for their path bytes, version-dependent fields present exactly
    from their version on).  Then the packet-code bijection, the agreement of
    [Packet::code] with the wire byte, and what is kept from the event stream. *)

From S2P Require Import Prelude Text Floats Domain Packet.

(** ** Well-formed packets *)

Definition wf_DeviceStats (s : DeviceStats) : Prop :=
  match s with
  | DeviceStats_Core battery_mv uptime errors queue =>
      is_uint 16 battery_mv ∧ is_uint 32 uptime ∧ is_uint 16 errors ∧ is_u8 queue
  | DeviceStats_Radio noise rssi snr tx rx =>
      is_sint 16 noise ∧ is_sint 8 rssi ∧ is_uint 32 tx ∧ is_uint 32 rx ∧
      ∃ q, is_sint 8 q ∧ sf_quarters snr = Some q
  | DeviceStats_Packets recv sent flood_recv flood_sent direct_recv direct_sent errs =>
      is_uint 32 recv ∧ is_uint 32 sent ∧ is_uint 32 flood_recv ∧ is_uint 32 flood_sent ∧
      is_uint 32 direct_recv ∧ is_uint 32 direct_sent ∧ opt_wf (is_uint 32) errs
  end.

Definition wf_snr (snr : option f32) : Prop :=
  opt_wf (λ f, ∃ q, is_sint 8 q ∧ sf_quarters f = Some q) snr.

Definition wf_Packet (p : Packet) : Prop :=
  match p with
  | Packet_Ok value => opt_wf (is_uint 32) value
  | Packet_Error code => opt_wf is_u8 code
  | Packet_ContactStart count => is_uint 32 count
  | Packet_Contact contact => wf_Contact contact
  | Packet_ContactEnd lastmod => is_uint 32 lastmod
  | Packet_SelfInfo info => wf_SelfInfo info
  | Packet_MsgSent t ack timeout => is_u8 t ∧ is_arr 4 ack ∧ is_uint 32 timeout
  | Packet_ContactMsg m =>
      wf_Message m ∧ wf_snr (Message_snr m) ∧
      (is_Some (Message_signature m) ↔ Message_txt_type m = 2%Z)
  | Packet_ChannelMsg m => wf_Message m ∧ wf_snr (Message_snr m) ∧ Message_signature m = None
  | Packet_CurrentTime t => is_uint 32 t
  | Packet_NoMoreMsgs | Packet_Disabled | Packet_MessagesWaiting => True
  | Packet_ContactUri uri => is_rstring (ContactUri_uri uri) ∧ is_bytes (ContactUri_card uri)
  | Packet_Battery info =>
      is_uint 16 (BatteryInfo_level info) ∧ opt_wf (is_uint 32) (BatteryInfo_used_kb info) ∧
      opt_wf (is_uint 32) (BatteryInfo_total_kb info) ∧
      (is_Some (BatteryInfo_used_kb info) ↔ is_Some (BatteryInfo_total_kb info))
  | Packet_DeviceInfo info => wf_DeviceInfo info
  | Packet_PrivateKey key => is_arr 64 (PrivateKeyMaterial_0 key)
  | Packet_SignStart n => is_uint 32 n
  | Packet_Signature s => is_arr 64 (Signature_bytes s)
  | Packet_ChannelInfo info =>
      is_u8 (ChannelInfo_idx info) ∧ wf_name 32 (ChannelInfo_name info) ∧
      opt_wf is_u8 (ChannelInfo_secret_hash info) ∧
      ∃ secret, ChannelInfo_secret info = Some secret ∧ is_arr 16 secret
  | Packet_TuningParams t =>
      is_uint 32 (TuningParams_rx_delay t) ∧ is_uint 32 (TuningParams_airtime_factor t)
  | Packet_CustomVariables v =>
      is_rstring (CustomVariables_raw v) ∧ length (CustomVariables_raw v) ≤ 140 ∧
      Forall wf_CustomVariable (CustomVariables_entries v) ∧
      NoDup (CustomVariable_key <$> CustomVariables_entries v)
  | Packet_AdvertPath a =>
      is_uint 32 (AdvertPath_received_at a) ∧ wf_Path (AdvertPath_path a) ∧
      route_covers (AdvertPath_route a) (AdvertPath_path a)
  | Packet_DeviceStats s => wf_DeviceStats s
  | Packet_AutoAddConfig c =>
      is_u8 (AutoAddConfig_config c) ∧ opt_wf (λ h, 0 ≤ h ≤ 64)%Z (AutoAddConfig_max_hops c)
  | Packet_AllowedRepeatFrequencies ranges =>
      Forall (λ r, 0 < FrequencyRange_lower_khz r ≤ FrequencyRange_upper_khz r ∧
                   FrequencyRange_upper_khz r < 2 ^ 32)%Z ranges ∧ length ranges ≤ 21
  | Packet_DefaultFloodScope DefaultFloodScope_Unconfigured => True
  | Packet_DefaultFloodScope (DefaultFloodScope_Configured s) =>
      is_arr 16 (Scope_key s) ∧ ∃ name, Scope_name s = Some name ∧ wf_name 30 name ∧ name ≠ []
  | Packet_Ack a => is_arr 4 (Ack_code a) ∧ opt_wf (is_uint 32) (Ack_trip_time_ms a)
  | Packet_LoginSuccess s =>
      is_u8 (LoginSession_permissions s) ∧ is_arr 6 (LoginSession_pubkey_prefix s) ∧
      opt_wf (is_uint 32) (LoginSession_server_timestamp s) ∧
      opt_wf is_u8 (LoginSession_acl_permissions s) ∧
      opt_wf is_u8 (LoginSession_firmware_version_level s)
  | Packet_LoginFailed prefix => is_arr 6 prefix
  | Packet_RemoteStatus s => wf_RemoteStatus s
  | Packet_TelemetryResponse r =>
      is_arr 6 (TelemetryResponse_pubkey_prefix r) ∧ is_bytes (TelemetryResponse_payload r)
  | Packet_BinaryResponse r =>
      is_arr 4 (BinaryResponse_tag r) ∧ is_bytes (BinaryResponse_payload r)
  | Packet_ControlData d =>
      is_sint 8 (ControlData_snr_qdb d) ∧ is_sint 8 (ControlData_rssi d) ∧
      is_u8 (ControlData_path_len d) ∧ is_bytes (ControlData_payload d) ∧
      ControlData_payload d ≠ []
  | Packet_PathDiscovery d =>
      is_arr 6 (PathDiscovery_pubkey_prefix d) ∧
      wf_Path (PathDiscovery_outbound_path d) ∧ wf_Path (PathDiscovery_inbound_path d) ∧
      route_covers (PathDiscovery_outbound_route d) (PathDiscovery_outbound_path d) ∧
      route_covers (PathDiscovery_inbound_route d) (PathDiscovery_inbound_path d)
  | Packet_Unknown code payload => is_u8 code ∧ is_bytes payload
  end.

(** ** Readers *)

Abbreviation any_error := (λ _ : ParseError, True).

Lemma opt_wf_None {A} (P : A → Prop) : opt_wf P None.
Proof. by intros ?. Qed.
Lemma opt_wf_Some {A} (P : A → Prop) a : P a → opt_wf P (Some a).
Proof. intros H ? [= <-]. done. Qed.
Lemma opt_wf_lookup raw i : is_bytes raw → opt_wf is_u8 (raw !! i).
Proof. intros Hr b Hb. by eapply Forall_lookup_1. Qed.
#[export] Hint Resolve opt_wf_None opt_wf_Some opt_wf_lookup : mq_wf.
#[export] Hint Extern 1 (is_arr _ _) => split; [assumption|lia] : mq_wf.

Lemma require_len_post raw n code (Q : () → Prop) :
  (n ≤ length raw → Q ()) → post (require_len raw n code) Q any_error.
Proof. intros HQ. unfold require_len. destruct (Nat.ltb_spec (length raw) n); simpl; auto. Qed.

Lemma require_exact_len_post raw n code (Q : () → Prop) :
  (length raw = n → Q ()) → post (require_exact_len raw n code) Q any_error.
Proof.
  intros HQ. unfold require_exact_len. apply post_bind, require_len_post. intros Hn.
  post_step. apply HQ. lia.
Qed.

Lemma from_le_bytes_uint l n :
  is_bytes l → length l = n → is_uint (8 * Z.of_nat n) (from_le_bytes l).
Proof. intros Hl <-. by apply from_le_bytes_range. Qed.

Lemma read_u32_post raw i (Q : Z → Prop) :
  is_bytes raw → i + 3 < length raw → (∀ z, is_uint 32 z → Q z) →
  post (read_u32 raw i) Q any_error.
Proof.
  intros Hr Hi HQ. unfold read_u32. post_steps. apply HQ.
  apply (from_le_bytes_uint _ 4); [auto 10 with mq_wf|done].
Qed.

Lemma read_u16_post raw i (Q : Z → Prop) :
  is_bytes raw → i + 1 < length raw → (∀ z, is_uint 16 z → Q z) →
  post (read_u16 raw i) Q any_error.
Proof.
  intros Hr Hi HQ. unfold read_u16. post_steps. apply HQ.
  apply (from_le_bytes_uint _ 2); [auto 10 with mq_wf|done].
Qed.

Lemma read_i16_post raw i (Q : Z → Prop) :
  is_bytes raw → i + 1 < length raw → (∀ z, is_sint 16 z → Q z) →
  post (read_i16 raw i) Q any_error.
Proof.
  intros Hr Hi HQ. unfold read_i16. post_steps. apply HQ. apply to_signed_range; [lia|].
  apply (from_le_bytes_uint _ 2); [auto 10 with mq_wf|done].
Qed.

Lemma read_scaled_post raw i (Q : f64 → Prop) :
  is_bytes raw → i + 3 < length raw → (∀ f, Q f) → post (read_scaled_i32 raw i) Q any_error.
Proof. intros Hr Hi HQ. unfold read_scaled_i32. post_steps. apply HQ. Qed.

Lemma read_thousandths_post raw i (Q : f64 → Prop) :
  is_bytes raw → i + 3 < length raw → (∀ f, Q f) → post (read_thousandths raw i) Q any_error.
Proof.
  intros Hr Hi HQ. unfold read_thousandths. post_step.
  apply read_u32_post; [done|done|]. intros z _. apply HQ.
Qed.

Lemma then_read_u32_post c raw i (Q : option Z → Prop) :
  is_bytes raw → (c = true → i + 3 < length raw) →
  (∀ o, opt_wf (is_uint 32) o → Q o) → post (then_read_u32 c raw i) Q any_error.
Proof.
  intros Hr Hi HQ. unfold then_read_u32. destruct c; [|apply HQ; auto with mq_wf].
  post_step. apply read_u32_post; [done|auto|]. intros z Hz. apply HQ. auto with mq_wf.
Qed.

Lemma decode_padded_string_post raw ctx (Q : rstring → Prop) :
  is_bytes raw → (∀ s, wf_name (length raw) s → Q s) →
  post (decode_padded_string raw ctx) Q any_error.
Proof.
  intros Hr HQ. unfold decode_padded_string.
  destruct (position _ raw) as [i|] eqn:Hp; simpl.
  - pose proof (position_lt _ _ _ Hp) as Hi. apply position_Some in Hp as [Hn _].
    unfold slice. rewrite bool_decide_true by lia. rewrite Nat.sub_0_r, drop_0. simpl.
    post_step. apply from_utf8_is_rstring in Ha as Hs; [|by apply Forall_take].
    apply from_utf8_Some in Ha as [-> _]. apply HQ. split_and!; [done| |].
    + eapply Forall_impl; [done|]. simpl. intros. lia.
    + rewrite length_take. lia.
  - apply position_None in Hp.
    rewrite slice_all by done. simpl. post_step.
    apply from_utf8_is_rstring in Ha as Hs; [|done].
    apply from_utf8_Some in Ha as [-> _]. apply HQ. split_and!; [done| |done].
    eapply Forall_impl; [done|]. simpl. intros. lia.
Qed.

Lemma decode_text_post raw ctx (Q : rstring → Prop) :
  is_bytes raw → (∀ s, is_rstring s → Q s) → post (decode_text raw ctx) Q any_error.
Proof. intros Hr HQ. unfold decode_text. post_step. eauto using from_utf8_is_rstring. Qed.

(** The packet steps: the generic ones and the readers above. *)
Ltac pkt_step :=
  lazymatch goal with
  | |- post (require_len _ _ _) _ _ =>
      apply require_len_post; let H := fresh "Hlen" in intros H
  | |- post (require_exact_len _ _ _) _ _ =>
      apply require_exact_len_post; let H := fresh "Hlen" in intros H
  | |- post (read_u32 _ _) _ _ => apply read_u32_post; [solve [auto] | lia | intros ? ?]
  | |- post (read_u16 _ _) _ _ => apply read_u16_post; [solve [auto] | lia | intros ? ?]
  | |- post (read_i16 _ _) _ _ => apply read_i16_post; [solve [auto] | lia | intros ? ?]
  | |- post (read_scaled_i32 _ _) _ _ => apply read_scaled_post; [solve [auto] | lia | intros ?]
  | |- post (read_thousandths _ _) _ _ =>
      apply read_thousandths_post; [solve [auto] | lia | intros ?]
  | |- post (then_read_u32 _ _ _) _ _ =>
      apply then_read_u32_post; [solve [auto] | lia | intros ? ?]
  | |- post (decode_padded_string _ _) _ _ =>
      apply decode_padded_string_post; [solve [auto] | intros ? ?]
  | |- post (decode_text _ _) _ _ => apply decode_text_post; [solve [auto] | intros ? ?]
  | |- post (malformed _) _ _ => exact I
  | |- post (Ok _) _ _ => cbn [post]
  | |- _ => post_step
  end.
Ltac pkt_steps := repeat pkt_step.

(** ** Route descriptors *)

Lemma descriptor_fields d : is_u8 d →
  is_uint 2 (Z.shiftr d 6) ∧ is_uint 6 (Z.land d 0x3f).
Proof.
  unfold is_u8, is_uint. intros Hd. rewrite Z.shiftr_div_pow2 by lia.
  change 63%Z with (Z.ones 6). rewrite Z.land_ones by lia.
  change (2 ^ 6)%Z with 64%Z. change (2 ^ 2)%Z with 4%Z.
  pose proof (Z.mod_pos_bound d 64). split; [|lia].
  split; [apply Z.div_pos; lia|]. apply Z.div_lt_upper_bound; lia.
Qed.

Lemma descriptor_used d : is_u8 d →
  Z.of_nat (Z.to_nat (Z.land d 0x3f) * (Z.to_nat (Z.shiftr d 6) + 1)) =
    (Z.land d 0x3f * (Z.shiftr d 6 + 1))%Z.
Proof. intros [? ?]%descriptor_fields. unfold is_uint in *. lia. Qed.

Lemma descriptor_used_bound d : is_u8 d →
  Z.to_nat (Z.land d 0x3f) * (Z.to_nat (Z.shiftr d 6) + 1) ≤ 252.
Proof.
  intros [H1 H2]%descriptor_fields. unfold is_uint in *.
  change (2 ^ 2)%Z with 4%Z in *. change (2 ^ 6)%Z with 64%Z in *. nia.
Qed.

Lemma message_route_wf b : is_u8 b → wf_MessageRoute (message_route b).
Proof. intros Hb. unfold message_route. case_match; [done|]. by apply descriptor_fields. Qed.

Lemma route_covers_path d p :
  is_u8 d → length (Path_bytes p) = Z.to_nat (Z.land d 0x3f) * (Z.to_nat (Z.shiftr d 6) + 1) →
  route_covers (ContactRoute_Path (Z.shiftr d 6) (Z.land d 0x3f)) p.
Proof.
  intros Hd Hp. destruct (descriptor_fields d Hd). simpl. split_and!; [done|done|].
  rewrite Hp. by apply descriptor_used.
Qed.

Lemma Path_try_from_bytes_Ok l p : Path_try_from_bytes l = Ok p → p = mkPath l ∧ length l ≤ 128.
Proof.
  unfold Path_try_from_bytes, Path_MAX_BYTES. destruct (Nat.ltb_spec 128 (length l)); [done|].
  intros [= <-]. auto.
Qed.

Lemma Path_try_from_bytes_post l (Q : Path → Prop) F :
  (length l ≤ 128 → Q (mkPath l)) → (∀ e, F e) → post (Path_try_from_bytes l) Q F.
Proof.
  intros HQ HF. unfold Path_try_from_bytes, Path_MAX_BYTES.
  destruct (Nat.ltb_spec 128 (length l)); simpl; auto.
Qed.

Lemma snr_of_byte_wf b : is_u8 b → ∃ q, is_sint 8 q ∧ sf_quarters (snr_of_byte b) = Some q.
Proof.
  intros Hb%i8_from_bytes_range. exists (i8_from_bytes b). split; [done|].
  by apply f32_quarter_exact.
Qed.

(** ** The fixed-layout parsers *)

Section simple_parsers.
  Variable raw : bytes.
  Hypothesis Hraw : is_bytes raw.

Lemma parse_ok_post : post (parse_ok raw) wf_Packet any_error.
Proof using Hraw.
  unfold parse_ok. repeat (case_match; subst; try exact I).
  - simpl. auto with mq_wf.
  - apply opt_wf_Some. apply (from_le_bytes_uint _ 4); [|done].
    by inversion Hraw.
Qed.

Lemma parse_error_wf : wf_Packet (parse_error raw).
Proof using Hraw. simpl. auto with mq_wf. Qed.

Lemma parse_private_key_post : post (parse_private_key raw) wf_Packet any_error.
Proof using Hraw.
  unfold parse_private_key. pkt_steps. unfold PrivateKeyMaterial_try_from_bytes.
  case_match; simpl; [|done]. split; [done|]. lia.
Qed.

Lemma parse_disabled_post : post (parse_disabled raw) wf_Packet any_error.
Proof using Hraw. unfold parse_disabled. by pkt_steps. Qed.

Lemma parse_sign_start_post : post (parse_sign_start raw) wf_Packet any_error.
Proof using Hraw. unfold parse_sign_start. by pkt_steps. Qed.

Lemma parse_signature_post : post (parse_signature raw) wf_Packet any_error.
Proof using Hraw.
  unfold parse_signature. pkt_steps. unfold Signature_try_from_bytes.
  case_match; simpl; [done|]. split; [done|]. lia.
Qed.

Lemma parse_login_success_post : post (parse_login_success raw) wf_Packet any_error.
Proof using Hraw.
  unfold parse_login_success. pkt_steps. simpl. split_and!; auto with mq_wf.
Qed.

Lemma parse_login_failed_post : post (parse_login_failed raw) wf_Packet any_error.
Proof using Hraw. unfold parse_login_failed. pkt_steps. simpl. auto with mq_wf. Qed.

Lemma parse_remote_status_post : post (parse_remote_status raw) wf_Packet any_error.
Proof using Hraw.
  unfold parse_remote_status. pkt_steps. simpl. unfold wf_RemoteStatus; simpl.
  split_and!; auto with mq_wf.
Qed.

Lemma parse_telemetry_response_post : post (parse_telemetry_response raw) wf_Packet any_error.
Proof using Hraw.
  unfold parse_telemetry_response. pkt_steps. simpl. auto with mq_wf.
Qed.

Lemma parse_binary_response_post : post (parse_binary_response raw) wf_Packet any_error.
Proof using Hraw.
  unfold parse_binary_response. pkt_steps. simpl. auto with mq_wf.
Qed.

Lemma parse_control_data_post : post (parse_control_data raw) wf_Packet any_error.
Proof using Hraw.
  unfold parse_control_data. pkt_steps. simpl. split_and!; auto using i8_from_bytes_range.
  intros ->. simpl in *. lia.
Qed.

Lemma parse_contact_start_post : post (parse_contact_start raw) wf_Packet any_error.
Proof using Hraw. unfold parse_contact_start. by pkt_steps. Qed.

Lemma parse_contact_end_post : post (parse_contact_end raw) wf_Packet any_error.
Proof using Hraw. unfold parse_contact_end. by pkt_steps. Qed.

Lemma parse_msg_sent_post : post (parse_msg_sent raw) wf_Packet any_error.
Proof using Hraw. unfold parse_msg_sent. pkt_steps. simpl. auto with mq_wf. Qed.

Lemma parse_current_time_post : post (parse_current_time raw) wf_Packet any_error.
Proof using Hraw. unfold parse_current_time. by pkt_steps. Qed.

Lemma parse_tuning_params_post : post (parse_tuning_params raw) wf_Packet any_error.
Proof using Hraw. unfold parse_tuning_params. by pkt_steps. Qed.

Lemma parse_battery_post : post (parse_battery raw) wf_Packet any_error.
Proof using Hraw.
  unfold parse_battery. pkt_steps; simpl; split_and!; auto with mq_wf; done.
Qed.

Lemma parse_ack_post : post (parse_ack raw) wf_Packet any_error.
Proof using Hraw.
  unfold parse_ack. pkt_steps. simpl. auto with mq_wf.
Qed.

Lemma parse_auto_add_config_post : post (parse_auto_add_config raw) wf_Packet any_error.
Proof using Hraw.
  unfold parse_auto_add_config. pkt_steps. simpl. split; [done|].
  intros h Hh. rewrite Hh in *. pose proof (opt_wf_lookup raw 2 Hraw h Hh) as Hu.
  unfold is_u8 in Hu. lia.
Qed.

Lemma parse_stats_post : post (parse_stats raw) wf_Packet any_error.
Proof using Hraw.
  unfold parse_stats. pkt_steps. destruct b as [|[p|[p|p|]|]|p]; cbv iota; pkt_steps;
    simpl; split_and!; auto using i8_from_bytes_range, snr_of_byte_wf with mq_wf.
Qed.
End simple_parsers.

(** ** Parsers with routes, names and lists *)

Lemma usize_fits_small a b : a ≤ 2 ^ 16 → b ≤ 2 ^ 16 →
  usize_fits (Z.of_nat a + Z.of_nat b) = true ∧ usize_fits (Z.of_nat a * Z.of_nat b) = true.
Proof.
  intros Ha Hb. unfold usize_fits. apply Nat2Z.inj_le in Ha, Hb.
  rewrite Nat2Z.inj_pow in Ha, Hb. change (Z.of_nat 2 ^ Z.of_nat 16)%Z with 65536%Z in *.
  split; apply Z.ltb_lt; nia.
Qed.

Section structured_parsers.
  Variable raw : bytes.
  Hypothesis Hraw : is_bytes raw.

Lemma parse_discovered_path_post cursor (Q : ContactRoute * Path * usize → Prop) :
  (∀ route path end_, wf_Path path → route_covers route path → end_ ≤ length raw →
     Q (route, path, end_)) →
  post (parse_discovered_path raw cursor) Q any_error.
Proof using Hraw.
  intros HQ. unfold parse_discovered_path. do 2 pkt_step.
  pose proof (opt_wf_lookup _ _ Hraw _ Ha) as Hd.
  pkt_step. eapply (post_weaken _ (λ '(route, n),
    ∀ p, length (Path_bytes p) = n → route_covers route p)).
  { pkt_step; [simpl; intros p Hp; by apply nil_length_inv|].
    do 2 pkt_step. unfold usize_checked_mul in Ha0. case_match; simplify_eq/=.
    intros p Hp. by apply route_covers_path. }
  intros [route n] Hroute. simpl. pkt_steps. apply Path_try_from_bytes_post; [|done].
  intros Hl. simpl. apply get_range_bytes in Ha1 as Hb; [|done].
  apply get_range_Some in Ha1 as (?&?&?&?).
  unfold usize_checked_add in Ha0. case_match; simplify_eq.
  apply HQ; [done|apply Hroute; simpl; lia|done].
Qed.

Lemma parse_path_discovery_post : post (parse_path_discovery raw) wf_Packet any_error.
Proof using Hraw.
  unfold parse_path_discovery. pkt_steps.
  apply parse_discovered_path_post. intros route path c Hp Hr Hcl. pkt_steps.
  apply parse_discovered_path_post. intros route' path' c' Hp' Hr' Hcl'. pkt_steps.
  simpl. split_and!; auto with mq_wf.
Qed.

Lemma PublicKey_post s (Q : PublicKey → Prop) F :
  is_bytes s → length s = 32 → (∀ k, wf_PublicKey k → Q k) → post (PublicKey_try_from_bytes s) Q F.
Proof.
  intros Hs Hl HQ. unfold PublicKey_try_from_bytes. rewrite Hl. simpl. by apply HQ.
Qed.

Lemma ContactType_from_u8_wf b : is_u8 b → wf_ContactType (ContactType_from_u8 b).
Proof.
  unfold ContactType_from_u8, is_u8. intros Hb.
  destruct b as [|[[p|p|]|[p|p|]|]|p]; simpl; unfold is_u8; lia.
Qed.

Lemma parse_contact_post : post (parse_contact raw) wf_Packet any_error.
Proof using Hraw.
  unfold parse_contact. do 6 pkt_step. apply PublicKey_post; [done|lia|]. intros key Hkey.
  do 7 pkt_step. eapply (post_weaken _ (λ '(route, n),
    n ≤ 64 ∧ ∀ p, length (Path_bytes p) = n → route_covers route p)).
  { pkt_steps; simpl; (split; [lia|]).
    - intros p Hp. by apply nil_length_inv.
    - intros p Hp. by apply route_covers_path. }
  intros [route n] [Hn Hroute]. do 4 pkt_step. apply Path_try_from_bytes_post; [|done].
  intros Hl1. pkt_steps. simpl. unfold wf_Contact; simpl.
  split_and!; auto using ContactType_from_u8_wf; [apply Hroute; simpl; lia|lia|].
  replace 32 with (length s1) by lia. done.
Qed.

Lemma land3_uint z : is_uint 2 (Z.land z 3).
Proof.
  unfold is_uint. change 3%Z with (Z.ones 2). rewrite Z.land_ones by lia.
  by apply Z.mod_pos_bound.
Qed.

Lemma parse_self_info_post : post (parse_self_info raw) wf_Packet any_error.
Proof using Hraw.
  unfold parse_self_info. do 6 pkt_step. apply PublicKey_post; [done|lia|]. intros key Hkey.
  pkt_steps. simpl. unfold wf_SelfInfo; simpl.
  match goal with H : wf_name _ _ |- _ => destruct H as (?&?&?) end.
  split_and!; auto using land3_uint.
Qed.

Lemma device_info_v3_post (Q : u16 * u8 * u32 * rstring * rstring * rstring → Prop) :
  (∀ c ch pin build model version, is_uint 16 c → is_u8 ch → is_uint 32 pin →
     wf_name 12 build → wf_name 40 model → wf_name 20 version →
     Q (c, ch, pin, build, model, version)) →
  post (device_info_v3 raw) Q any_error.
Proof using Hraw.
  intros HQ. unfold device_info_v3. do 5 pkt_step.
  unfold arith. unfold is_u8 in Hb.
  replace ((0 <=? b * 2)%Z && (b * 2 <? 2 ^ 16)%Z) with true
    by (change (2 ^ 16)%Z with 65536%Z; lia).
  cbn [post]. pkt_steps. apply HQ; try done.
  - unfold is_uint. change (2 ^ 16)%Z with 65536%Z. lia.
  - replace 12 with (length s) by lia. done.
  - replace 40 with (length s1) by lia. done.
  - replace 20 with (length s3) by lia. done.
Qed.
End structured_parsers.

Section listed_parsers.
  Variable raw : bytes.
  Hypothesis Hraw : is_bytes raw.

(** An optional version-dependent field: present exactly when [c] holds. *)
Lemma post_versioned {A} (c : bool) (m : outcome ParseError (option A)) (P : A → Prop)
    (Q : option A → Prop) :
  post m (λ o, ∃ a, o = Some a ∧ P a) any_error →
  (∀ o, (c = true ↔ is_Some o) → opt_wf P o → Q o) →
  post (if c then m else Ok None) Q any_error.
Proof.
  intros Hm HQ. destruct c; simpl.
  - eapply post_weaken; [exact Hm|]. intros o (a&->&Ha). apply HQ; [done|auto with mq_wf].
  - apply HQ; [|auto with mq_wf]. split; [done|]. by intros [? ?].
Qed.

Lemma parse_device_info_post : post (parse_device_info raw) wf_Packet any_error.
Proof using Hraw.
  unfold parse_device_info. do 5 pkt_step.
  apply (post_versioned _ _ (λ '(c, ch, pin, build, model, version),
    is_uint 16 c ∧ is_u8 ch ∧ is_uint 32 pin ∧ wf_name 12 build ∧ wf_name 40 model ∧
    wf_name 20 version)).
  { pkt_step. apply device_info_v3_post; [done|]. intros. cbn [post].
    eexists. split; [reflexivity|]. cbn. auto 10. }
  intros v3 Hv3 Hwf3. pkt_step.
  apply (post_versioned _ _ (λ _ : bool, True)); [pkt_steps; eauto|].
  intros rep Hrep _. pkt_step.
  apply (post_versioned _ _ is_u8); [pkt_steps; eauto|].
  intros phm Hphm Hwfp. cbn [post wf_Packet]. rewrite !Z.leb_le in *.
  destruct v3 as [[[[[[c ch] pin] build] model] version]|].
  - destruct (Hwf3 _ eq_refl) as (?&?&?&?&?&?). unfold wf_DeviceInfo; simpl.
    assert ((3 ≤ b)%Z) by (apply Hv3; eauto).
    split_and!; auto with mq_wf; done.
  - assert (¬ (3 ≤ b)%Z) by (intros [? ?]%Hv3; done). unfold wf_DeviceInfo; simpl.
    split_and!; auto with mq_wf; try done;
      (split; [done|]); by intros [? ?].
Qed.

Lemma parse_channel_msg_post v3 : post (parse_channel_msg raw v3) wf_Packet any_error.
Proof using Hraw.
  unfold parse_channel_msg. do 3 pkt_step.
  eapply (post_weaken _ (λ '(snr, c), wf_snr snr ∧ c = if v3 then 4 else 1)).
  { destruct v3; pkt_steps; (split; [|done]); [|by intros ?].
    intros ? [= <-]. by apply snr_of_byte_wf. }
  intros [snr c] [Hsnr ->]. destruct v3; pkt_steps; simpl; unfold wf_Message; simpl;
    split_and!; auto using message_route_wf with mq_wf.
Qed.

Lemma has_byte c s : contains_byte c s = false → Forall (λ b, b ≠ c) s.
Proof.
  unfold contains_byte. intros Hs. apply Forall_forall. intros b Hb ->.
  apply not_true_iff_false in Hs. apply Hs, existsb_exists. exists c.
  split; [by apply list_elem_of_In|apply Z.eqb_refl].
Qed.

Lemma custom_var_entry_post entries pair :
  is_rstring pair → Forall (λ b, b ≠ 44%Z) pair →
  Forall wf_CustomVariable entries ∧ NoDup (CustomVariable_key <$> entries) →
  post (custom_var_entry entries pair)
    (λ es, Forall wf_CustomVariable es ∧ NoDup (CustomVariable_key <$> es)) any_error.
Proof.
  intros Hpair Hcomma [Hwf Hnd]. unfold custom_var_entry.
  destruct (split_once 58 pair) as [[key value]|] eqn:Hs; [|exact I].
  apply split_once_spec in Hs as [-> Hk].
  destruct (is_rstring_cut key 58 value ltac:(lia) Hpair) as [Hrk Hrv].
  apply Forall_app in Hcomma as [Hck Hcv]. inversion Hcv as [|? ? _ Hcv']; subst.
  pkt_step; [exact I|]. rewrite !orb_false_iff in Hc.
  destruct Hc as ((((Hk0&Hv0)&Hvc)&Hkn)&Hvn).
  apply bool_decide_eq_false in Hk0, Hv0. apply has_byte in Hvc, Hkn, Hvn.
  pkt_step; [exact I|]. pkt_step. split.
  - apply Forall_app; split; [done|]. apply Forall_singleton.
    split_and!; try done; rewrite !Forall_and; auto.
  - rewrite fmap_app. simpl. apply NoDup_app. split_and!; [done| |apply NoDup_singleton].
    intros k Hin ->%list_elem_of_singleton. apply list_elem_of_fmap in Hin as (e&->&He).
    apply not_true_iff_false in Hc. apply Hc, existsb_exists. exists e.
    rewrite <- list_elem_of_In. split; [done|]. by apply bool_decide_eq_true.
Qed.

Lemma split_on_no_sep_pieces sep l p : p ∈ split_on sep l → Forall (λ b, b ≠ sep) p.
Proof.
  revert p. induction l as [|b l IH]; simpl; intros p Hp.
  { apply list_elem_of_singleton in Hp as ->. constructor. }
  destruct (Z.eqb_spec b sep).
  { apply elem_of_cons in Hp as [->|Hp]; [constructor|auto]. }
  destruct (split_on sep l) as [|q qs].
  { apply list_elem_of_singleton in Hp as ->. by apply Forall_singleton. }
  apply elem_of_cons in Hp as [->|Hp]; [|apply IH; set_solver].
  constructor; [done|]. apply IH. set_solver.
Qed.

Lemma parse_custom_vars_post : 0 < length raw → post (parse_custom_vars raw) wf_Packet any_error.
Proof using Hraw.
  intros Hne. unfold parse_custom_vars. pkt_step; [exact I|]. do 4 pkt_step.
  apply from_utf8_is_rstring in Ha as Hr; [|done]. apply from_utf8_Some in Ha as [-> _].
  apply post_bind. eapply (post_weaken _ (λ es,
    Forall wf_CustomVariable es ∧ NoDup (CustomVariable_key <$> es))).
  { pkt_step; [split; constructor|]. apply post_try_fold; [split; constructor|].
    intros es pair Hp Hes. apply custom_var_entry_post; [|by eapply split_on_no_sep_pieces|done].
    by eapply (is_rstring_split 44); [lia| |]. }
  intros es [? ?]. cbn [post wf_Packet CustomVariables_raw CustomVariables_entries].
  split_and!; try done. lia.
Qed.

Lemma parse_advert_path_post : post (parse_advert_path raw) wf_Packet any_error.
Proof using Hraw.
  unfold parse_advert_path. do 4 pkt_step.
  destruct (Z.eqb_spec b 255).
  - pkt_steps. apply Path_try_from_bytes_post; [|done]. intros Hp. pkt_steps.
    simpl. split_and!; [done|done|]. apply nil_length_inv. lia.
  - pkt_steps. apply Path_try_from_bytes_post; [|done]. intros Hp. pkt_steps.
    cbn [wf_Packet]. split_and!; [done|done|]. apply route_covers_path; [done|]. cbn. lia.
Qed.

Definition wf_FrequencyRange (r : FrequencyRange) : Prop :=
  (0 < FrequencyRange_lower_khz r ≤ FrequencyRange_upper_khz r ∧
   FrequencyRange_upper_khz r < 2 ^ 32)%Z.

Lemma frequency_ranges_post chunks ranges :
  Forall (λ c, is_bytes c ∧ length c = 8) chunks → Forall wf_FrequencyRange ranges →
  post (try_fold frequency_range_entry ranges chunks)
    (λ rs, Forall wf_FrequencyRange rs ∧ length rs = length ranges + length chunks) any_error.
Proof.
  intros Hc. revert ranges. induction Hc as [|c chunks [Hb Hl] Hc IH]; intros ranges Hr.
  { simpl. auto. }
  cbn [try_fold]. pkt_step. unfold frequency_range_entry. pkt_steps.
  eapply post_weaken.
  - apply IH. apply Forall_app; split; [done|]. apply Forall_singleton.
    unfold wf_FrequencyRange, is_uint in *. simpl. lia.
  - intros rs [? Hrs]. split; [done|]. rewrite Hrs, length_app. simpl. lia.
Qed.

Lemma parse_allowed_post : 0 < length raw → length raw ≤ 176 →
  post (parse_allowed_repeat_frequencies raw) wf_Packet any_error.
Proof using Hraw.
  intros H0 H1. unfold parse_allowed_repeat_frequencies. pkt_step.
  unfold arith. change (2 ^ 64)%Z with 18446744073709551616%Z.
  replace ((0 <=? Z.of_nat (length raw) - 1)%Z && _) with true by lia. cbn [post].
  pkt_step; [exact I|]. do 3 pkt_step.
  eapply post_weaken; [apply frequency_ranges_post; [|constructor]|].
  - apply Forall_forall. intros c Hin. apply chunks_exact_elem in Hin as [Hl' Hsub].
    split; [|done]. apply Forall_forall. intros x ?%Hsub. by eapply Forall_forall in Hs.
  - intros rs [Hwf Hlen]. cbn [post wf_Packet]. split; [done|].
    pose proof (chunks_exact_count 8 s). simpl in *. lia.
Qed.

Lemma parse_default_flood_scope_post :
  0 < length raw → post (parse_default_flood_scope raw) wf_Packet any_error.
Proof using Hraw.
  intros H0. unfold parse_default_flood_scope. pkt_step; [exact I|]. do 2 pkt_step.
  rewrite (slice_ok raw 1 32) by lia. cbn [mbind outcome_bind].
  destruct (position _ _) as [n|] eqn:Hp; [|exact I]. pkt_step; [exact I|].
  pose proof (position_lt _ _ _ Hp) as Hn. apply position_Some in Hp as [Hz _].
  rewrite length_take, length_drop in Hn. rewrite take_take in Hz.
  rewrite (slice_ok raw 1 (n + 1)) by lia. cbn [mbind outcome_bind].
  replace (n + 1 - 1) with n by lia. replace (n `min` (32 - 1)) with n in Hz by lia.
  pkt_steps. apply from_utf8_is_rstring in Ha as Hr; [|by apply Forall_take, Forall_drop].
  apply from_utf8_Some in Ha as [-> _]. cbn [wf_Packet Scope_new Scope_key Scope_name].
  split; [auto with mq_wf|]. eexists. split_and!; [done| |].
  - split_and!; [done| |rewrite length_take; lia].
    eapply Forall_impl; [exact Hz|]. simpl. intros. lia.
  - intros Heq%(f_equal length). rewrite length_take, length_drop in Heq. simpl in Heq. lia.
Qed.
End listed_parsers.

(** ** Parsers over the third-party functions, and the dispatcher *)

Section parse_facts.
  Context `{Crates} `{!CratesLaws H}.
  Implicit Types raw : bytes.

Lemma parse_contact_msg_post raw v3 :
  is_bytes raw → post (parse_contact_msg raw v3) wf_Packet any_error.
Proof.
  intros Hraw. unfold parse_contact_msg. do 3 pkt_step.
  eapply (post_weaken _ (λ '(snr, c), wf_snr snr ∧ c = if v3 then 4 else 1)).
  { destruct v3; pkt_steps; (split; [|done]); [|by intros ?].
    intros ? [= <-]. by apply snr_of_byte_wf. }
  intros [snr c] [Hsnr ->].
  destruct v3; do 9 pkt_step;
    (eapply (post_weaken _ (λ '(sig, c), opt_wf (is_arr 4) sig ∧ (is_Some sig ↔ b0 = 2%Z) ∧
       c ≤ length raw));
     [ pkt_steps; cbn; split_and!; auto with mq_wf; try lia; split; try done; try lia;
       by intros [? ?]
     | intros [sig c] (Hsig&Hsome&Hc); pkt_steps; cbn [wf_Packet];
       split_and!; auto; unfold wf_Message; simpl;
       split_and!; auto using message_route_wf, hex_encode_rstring ]).
Qed.

Lemma parse_contact_uri_post raw : is_bytes raw → post (parse_contact_uri raw) wf_Packet any_error.
Proof.
  intros Hraw. unfold parse_contact_uri. pkt_steps. cbn [wf_Packet ContactUri_uri ContactUri_card].
  split; [|done]. apply is_rstring_app; [by apply (bool_decide_unpack _); vm_compute|].
  by apply hex_encode_rstring.
Qed.

Lemma parse_channel_info_post raw : is_bytes raw → post (parse_channel_info raw) wf_Packet any_error.
Proof.
  intros Hraw. unfold parse_channel_info. pkt_steps. unfold ChannelInfo_with_secret.
  cbn [wf_Packet ChannelInfo_idx ChannelInfo_name ChannelInfo_secret_hash ChannelInfo_secret fmap
       option_fmap option_map]. split_and!; [done| | |eauto with mq_wf].
  - by replace 32 with (length s) by lia.
  - apply opt_wf_Some. pose proof (sha256_bytes s1) as Hh.
    destruct (sha256 s1); simpl; [unfold is_u8; lia|]. by inversion Hh.
Qed.

(** Every accepted packet is well formed, and no input makes the parser panic. *)
Lemma Packet_parse_post raw : is_bytes raw → post (Packet_parse raw) wf_Packet any_error.
Proof.
  intros Hraw. unfold Packet_parse. destruct raw as [|code payload]; [exact I|].
  destruct (Nat.ltb_spec MAX_INNER_PAYLOAD (length (code :: payload))) as [|Hlen]; [exact I|].
  unfold MAX_INNER_PAYLOAD in Hlen.
  assert (0 < length (code :: payload)) by (simpl; lia).
  assert (is_u8 code ∧ is_bytes payload) as [Hcode Hpay] by by inversion Hraw.
  assert (∀ c, PacketCode_from_u8 code = PacketCode_Unknown c → c = code) as Hunk.
  { intros c. unfold PacketCode_from_u8. repeat case_match; by intros [= <-]. }
  destruct (PacketCode_from_u8 code) eqn:Hpc;
    auto using parse_ok_post, parse_error_wf, parse_contact_start_post, parse_contact_post,
      parse_contact_end_post, parse_self_info_post, parse_msg_sent_post, parse_contact_msg_post,
      parse_channel_msg_post, parse_current_time_post, parse_contact_uri_post,
      parse_battery_post, parse_device_info_post, parse_private_key_post, parse_disabled_post,
      parse_channel_info_post, parse_sign_start_post, parse_signature_post,
      parse_custom_vars_post, parse_advert_path_post, parse_tuning_params_post,
      parse_stats_post, parse_auto_add_config_post, parse_allowed_post,
      parse_default_flood_scope_post, parse_ack_post, parse_login_success_post,
      parse_login_failed_post, parse_remote_status_post, parse_telemetry_response_post,
      parse_binary_response_post, parse_path_discovery_post, parse_control_data_post;
    try exact I; try (by split).
  all: cbn [post]; try by apply parse_error_wf.
  by rewrite (Hunk _ eq_refl).
Qed.
End parse_facts.

(** ** The parsed packet and the code on the wire *)

(** Partial correctness, for facts that do not depend on the bytes. *)
Definition okp {A} (m : outcome ParseError A) (Q : A → Prop) : Prop := ∀ a, m = Ok a → Q a.

Lemma okp_bind {A B} (m : outcome ParseError A) (f : A → outcome ParseError B) Q :
  (∀ a, okp (f a) Q) → okp (m ≫= f) Q.
Proof. intros Hf b Hb. destruct m; simplify_eq/=. by eapply Hf. Qed.

Lemma okp_Ok {A} (a : A) (Q : A → Prop) : Q a → okp (Ok a) Q.
Proof. by intros ? ? [= <-]. Qed.

Lemma okp_Err {A} e (Q : A → Prop) : okp (Err e) Q.
Proof. by intros ?. Qed.

Ltac okp_step :=
  lazymatch goal with
  | |- okp (mbind _ _) _ => apply okp_bind; intros ?
  | |- okp (Ok _) _ => apply okp_Ok
  | |- okp (Err _) _ => apply okp_Err
  | |- okp (malformed _) _ => apply okp_Err
  | |- okp (match ?x with _ => _ end) _ => destruct x
  end.

(** The code [Packet::code] reports for a wire byte: the version-3 message
    layouts are reported under the legacy codes. *)
Definition reported_code (b : u8) : u8 :=
  if (b =? 0x10)%Z then 0x07%Z else if (b =? 0x11)%Z then 0x08%Z else b.

Lemma PacketCode_to_from_u8 b : PacketCode_to_u8 (PacketCode_from_u8 b) = b.
Proof. unfold PacketCode_from_u8. repeat case_match; reflexivity. Qed.

Section code_facts.
  Context `{Crates}.

Lemma parse_reported_code b l :
  okp (Packet_parse (b :: l)) (λ p, PacketCode_to_u8 (Packet_code p) = reported_code b).
Proof.
  unfold Packet_parse. destruct (_ <? _); [apply okp_Err|].
  assert (∀ c, PacketCode_from_u8 b = c → PacketCode_to_u8 c = b) as Hb
    by (intros ? <-; apply PacketCode_to_from_u8).
  destruct (PacketCode_from_u8 b) eqn:Hc; specialize (Hb _ eq_refl); simpl in Hb; subst b;
    unfold parse_ok, parse_contact_start, parse_contact, parse_contact_end, parse_self_info,
      parse_msg_sent, parse_contact_msg, parse_channel_msg, parse_current_time,
      parse_contact_uri, parse_battery, parse_device_info, parse_private_key, parse_disabled,
      parse_channel_info, parse_sign_start, parse_signature, parse_custom_vars,
      parse_advert_path, parse_tuning_params, parse_stats, parse_auto_add_config,
      parse_allowed_repeat_frequencies, parse_default_flood_scope, parse_ack,
      parse_login_success, parse_login_failed, parse_remote_status, parse_telemetry_response,
      parse_binary_response, parse_path_discovery, parse_control_data;
    try (repeat okp_step; reflexivity).
  apply okp_Ok. unfold reported_code. cbn [Packet_code]. rewrite PacketCode_to_from_u8.
  destruct (Z.eqb_spec code 16); [by subst|]. destruct (Z.eqb_spec code 17); [by subst|done].
Qed.
End code_facts.
