(* ===== verification/Framing.v ===== *)
(** * Outer framing (crates/meshquill-core/src/framing.rs)

    The serial/TCP envelope: a marker byte, a little-endian 16-bit length, the
    payload.  The decoder is a function of the buffered bytes that returns its
    result and the bytes it leaves in the buffer. *)

From S2P Require Import Prelude Domain.

Definition MAX_OUTER_PAYLOAD : usize := 300.
Definition APP_FRAME_PREFIX : u8 := 0x3c%Z.
Definition DEVICE_FRAME_PREFIX : u8 := 0x3e%Z.
Definition LENGTH_SIZE : usize := 2.

Record OutboundFrame := mkOutboundFrame { OutboundFrame_payload : bytes }.
Record InboundFrame := mkInboundFrame { InboundFrame_payload : bytes }.

Definition OversizedOuter (actual : usize) : CoreError :=
  CoreError_Parse (ParseError_OversizedPacketPayload actual MAX_OUTER_PAYLOAD).

(** [OutboundFrame::new]. *)
Definition OutboundFrame_new (payload : bytes) : outcome CoreError OutboundFrame :=
  if MAX_OUTER_PAYLOAD <? length payload then Err (OversizedOuter (length payload))
  else Ok (mkOutboundFrame payload).

(** [OuterEncoder::encode]: the bytes appended to [dst]. *)
Definition OuterEncoder_encode (item : OutboundFrame) (dst : bytes) : outcome CoreError bytes :=
  let payload := OutboundFrame_payload item in
  if (2 ^ 16 <=? Z.of_nat (length payload))%Z then Err (OversizedOuter (length payload))
  else if MAX_OUTER_PAYLOAD <? length payload then Err (OversizedOuter (length payload))
  else Ok (dst ++ [APP_FRAME_PREFIX] ++ u16_to_le_bytes (Z.of_nat (length payload)) ++ payload).

(** [OuterDecoder::find_device_prefix]. *)
Definition find_device_prefix (src : bytes) : option usize :=
  position (λ value, (value =? DEVICE_FRAME_PREFIX)%Z) src.

(** [OuterDecoder::decode], from the length check on: [src] has been advanced. *)
Definition decode_frame (src : bytes) : outcome CoreError (option InboundFrame) * bytes :=
  if length src <? 1 + LENGTH_SIZE then (Ok None, src)
  else
    match src !! 1, src !! 2 with
    | Some b1, Some b2 =>
        let declared_len := Z.to_nat (from_le_bytes [b1; b2]) in
        if MAX_OUTER_PAYLOAD <? declared_len then
          let total := 1 + LENGTH_SIZE + declared_len in
          let src := if total <=? length src then drop total src else drop (length src) src in
          (Err (OversizedOuter declared_len), src)
        else
          let frame_total := 1 + LENGTH_SIZE + declared_len in
          if length src <? frame_total then (Ok None, src)
          else
            match slice src 3 frame_total with
            | Ok payload => (Ok (Some (mkInboundFrame payload)), drop frame_total src)
            | Err e => (Err e, src)
            | Panic => (Panic, src)
            end
    | _, _ => (Panic, src)
    end.

(** [OuterDecoder::decode]. *)
Definition OuterDecoder_decode (src : bytes) : outcome CoreError (option InboundFrame) * bytes :=
  match src with
  | [] => (Ok None, src)
  | first :: _ =>
      let prefix_pos :=
        if (first =? DEVICE_FRAME_PREFIX)%Z then 0
        else default (length src) (find_device_prefix src) in
      let src :=
        if (0 <? prefix_pos) && (prefix_pos <? length src) then drop prefix_pos src else src in
      if length src <=? prefix_pos then (Ok None, drop (length src) src)
      else decode_frame src
  end.

(** [encode_payload]. *)
Definition encode_payload (payload : bytes) : outcome CoreError bytes :=
  frame ← OutboundFrame_new payload;
  OuterEncoder_encode frame [].

(** The loop of [decode_frames]; the fuel bounds the number of frames. *)
Fixpoint decode_frames_loop (fuel : nat) (src : bytes) (out : list InboundFrame)
    : outcome CoreError (list InboundFrame) :=
  match fuel with
  | 0 => Ok out
  | S fuel =>
      match src with
      | [] => Ok out
      | _ =>
          match OuterDecoder_decode src with
          | (Ok (Some frame), src) => decode_frames_loop fuel src (out ++ [frame])
          | (Ok None, _) => Ok out
          | (Err e, _) => Err e
          | (Panic, _) => Panic
          end
      end
  end.

(** [decode_frames]: every decoded frame consumes at least three bytes, so the
    length of the input is fuel enough ([decode_frames_fuel]). *)
Definition decode_frames (raw : bytes) : outcome CoreError (list InboundFrame) :=
  decode_frames_loop (length raw) raw [].

(** ** The envelope of a device frame *)

Definition device_frame (payload : bytes) : bytes :=
  [DEVICE_FRAME_PREFIX] ++ u16_to_le_bytes (Z.of_nat (length payload)) ++ payload.

(** Bytes that cannot start a frame. *)
Definition noise (l : bytes) : Prop := Forall (λ b, b ≠ DEVICE_FRAME_PREFIX) l.

Lemma length_device_frame p : length (device_frame p) = 3 + length p.
Proof. unfold device_frame, u16_to_le_bytes. autorewrite with mq_len. simpl. lia. Qed.

(** What the decoder does on a buffer that starts with the marker, by the
    declared length. *)
Lemma decode_frame_short src : length src < 3 → decode_frame src = (Ok None, src).
Proof.
  intros. unfold decode_frame, LENGTH_SIZE.
  by destruct (Nat.ltb_spec (length src) (1 + 2)); [|lia].
Qed.

Lemma declared_length n :
  n ≤ MAX_OUTER_PAYLOAD → Z.to_nat (from_le_bytes (u16_to_le_bytes (Z.of_nat n))) = n.
Proof.
  unfold MAX_OUTER_PAYLOAD, u16_to_le_bytes. intros.
  rewrite from_to_le_bytes by (change (2 ^ (8 * Z.of_nat 2))%Z with 65536%Z; lia). lia.
Qed.

(** A strict prefix of a frame leaves the buffer as it is. *)
Lemma decode_frame_partial p q r :
  length p ≤ MAX_OUTER_PAYLOAD → q ++ r = device_frame p → r ≠ [] →
  decode_frame q = (Ok None, q).
Proof.
  intros Hp Hq Hr. destruct (decide (length q < 3)) as [|Hl]; [by apply decode_frame_short|].
  assert (length q < 3 + length p) as Hlt.
  { apply (f_equal length) in Hq. rewrite length_app, length_device_frame in Hq.
    destruct r; [done|]. simpl in Hq. lia. }
  pose proof (declared_length (length p) Hp) as Hd.
  unfold device_frame, u16_to_le_bytes in Hq. cbn in Hq.
  destruct q as [|x0 [|x1 [|x2 q]]]; simpl in Hl; [lia..|]. injection Hq as -> -> -> Hq.
  unfold decode_frame, LENGTH_SIZE. simpl length in *. cbn [lookup list_lookup].
  destruct (Nat.ltb_spec (S (S (S (length q)))) (1 + 2)); [lia|].
  unfold u16_to_le_bytes in Hd. cbn [to_le_bytes] in Hd. rewrite Hd.
  unfold MAX_OUTER_PAYLOAD in *. destruct (Nat.ltb_spec 300 (length p)); [lia|].
  by destruct (Nat.ltb_spec (S (S (S (length q)))) (1 + 2 + length p)); [|lia].
Qed.

(** A complete frame is delivered and consumed exactly. *)
Lemma decode_frame_complete p rest :
  length p ≤ MAX_OUTER_PAYLOAD →
  decode_frame (device_frame p ++ rest) = (Ok (Some (mkInboundFrame p)), rest).
Proof.
  intros Hp. pose proof (declared_length (length p) Hp) as Hd.
  unfold decode_frame, LENGTH_SIZE. rewrite length_app, length_device_frame.
  destruct (Nat.ltb_spec (3 + length p + length rest) (1 + 2)); [lia|].
  unfold device_frame at 1 2, u16_to_le_bytes at 1 2.
  cbn [to_le_bytes app lookup list_lookup].
  unfold u16_to_le_bytes in Hd. cbn [to_le_bytes] in Hd. rewrite Hd.
  unfold MAX_OUTER_PAYLOAD in *. destruct (Nat.ltb_spec 300 (length p)); [lia|].
  change (1 + 2 + length p) with (3 + length p).
  destruct (Nat.ltb_spec (3 + length p + length rest) (3 + length p)); [lia|].
  rewrite slice_ok by (rewrite ?length_app, ?length_device_frame; lia).
  assert (device_frame p ++ rest = ([DEVICE_FRAME_PREFIX] ++ u16_to_le_bytes (Z.of_nat (length p)))
           ++ p ++ rest) as -> by (unfold device_frame; by rewrite <- !app_assoc).
  rewrite drop_app_length' by done.
  replace (3 + length p - 3) with (length p) by lia. rewrite take_app_length.
  rewrite !app_assoc, drop_app_length'; [done|].
  rewrite !length_app. unfold u16_to_le_bytes. rewrite length_to_le_bytes. simpl. lia.
Qed.

(** ** The decoder *)

Lemma decode_marker src : src !! 0 = Some DEVICE_FRAME_PREFIX → OuterDecoder_decode src = decode_frame src.
Proof. destruct src as [|b src]; [done|]. by intros [= ->]. Qed.

Lemma decode_device_frame p rest :
  length p ≤ MAX_OUTER_PAYLOAD →
  OuterDecoder_decode (device_frame p ++ rest) = (Ok (Some (mkInboundFrame p)), rest).
Proof. intros. rewrite decode_marker by done. by apply decode_frame_complete. Qed.

(** The stale-position test: after skipping [k > 0] bytes of noise the decoder
    compares [k] with what is left, and drops everything when [k] is not
    smaller. *)
Lemma decode_after_noise ns rest :
  noise ns → ns ≠ [] → rest !! 0 = Some DEVICE_FRAME_PREFIX →
  OuterDecoder_decode (ns ++ rest)
  = if length rest <=? length ns then (Ok None, []) else decode_frame rest.
Proof.
  intros Hn Hne Hr. destruct rest as [|d rest]; [done|]. injection Hr as ->.
  assert (find_device_prefix (ns ++ DEVICE_FRAME_PREFIX :: rest) = Some (length ns)) as Hf.
  { unfold find_device_prefix. rewrite position_app_skip.
    - simpl. f_equal. lia.
    - eapply Forall_impl; [exact Hn|]. simpl. intros. lia. }
  unfold OuterDecoder_decode.
  destruct (ns ++ DEVICE_FRAME_PREFIX :: rest) as [|b l] eqn:El; [by destruct ns|].
  assert (b ≠ DEVICE_FRAME_PREFIX) as Hb.
  { destruct ns; [done|]. injection El as -> _. by inversion Hn. }
  rewrite (proj2 (Z.eqb_neq _ _) Hb), Hf. cbn [default from_option id]. unfold id. rewrite <- El, length_app.
  destruct (Nat.ltb_spec 0 (length ns)); [|destruct ns; simpl in *; [done|lia]].
  destruct (Nat.ltb_spec (length ns) (length ns + length (DEVICE_FRAME_PREFIX :: rest)));
    [|simpl in *; lia].
  cbn [andb]. rewrite drop_app_length.
  by destruct (_ <=? _); [rewrite drop_all|].
Qed.

Lemma slice_length {E} src i j s : slice (E:=E) src i j = Ok s → length s = j - i ∧ j ≤ length src.
Proof.
  unfold slice. case_bool_decide; [|done]. intros [= <-]. rewrite length_take, length_drop. lia.
Qed.

(** No panic, and what one call consumes. *)
Definition decode_ok (src : bytes) (r : outcome CoreError (option InboundFrame) * bytes) : Prop :=
  (∃ k, r.2 = drop k src) ∧
  match r.1 with
  | Ok (Some frame) =>
      length (InboundFrame_payload frame) ≤ MAX_OUTER_PAYLOAD ∧
      length r.2 + 3 + length (InboundFrame_payload frame) ≤ length src
  | Ok None => True
  | Err e => ∃ n, MAX_OUTER_PAYLOAD < n ∧ e = OversizedOuter n
  | Panic => False
  end.

Lemma decode_frame_ok src : decode_ok src (decode_frame src).
Proof.
  unfold decode_frame, decode_ok, LENGTH_SIZE.
  destruct (Nat.ltb_spec (length src) (1 + 2)) as [|Hl]; [split; [by exists 0|done]|].
  destruct (lookup_lt_is_Some_2 src 1) as [b1 ->]; [lia|].
  destruct (lookup_lt_is_Some_2 src 2) as [b2 ->]; [lia|].
  set (n := Z.to_nat _). destruct (Nat.ltb_spec MAX_OUTER_PAYLOAD n).
  { destruct (_ <=? _); simpl; eauto. }
  destruct (Nat.ltb_spec (length src) (1 + 2 + n)); [split; [by exists 0|done]|].
  rewrite slice_ok by lia. simpl. split; [by eexists|].
  rewrite length_take, !length_drop. lia.
Qed.

Lemma decode_decode_ok src : decode_ok src (OuterDecoder_decode src).
Proof.
  unfold OuterDecoder_decode. destruct src as [|b src]; [split; [by exists 0|done]|].
  cbv zeta. set (src' := if (_ <? _) && (_ <? _) then drop _ _ else _).
  assert (∃ k, src' = drop k (b :: src)) as [k Hk].
  { unfold src'. case_match; [by eexists|by exists 0]. }
  case_match.
  { split; [|done]. simpl. rewrite Hk, drop_drop. by eexists. }
  destruct (decode_frame_ok src') as [[j Hj] Hr]. split; [rewrite Hj, Hk, drop_drop; by eexists|].
  repeat case_match; try done. destruct Hr as [? Hr]. split; [done|].
  assert (length src' ≤ length (b :: src)) by (rewrite Hk, length_drop; lia). lia.
Qed.

Lemma decode_frames_fuel fuel src out :
  length src ≤ fuel → decode_frames_loop fuel src out = decode_frames_loop (length src) src out.
Proof.
  revert src out. induction fuel as [fuel IH] using lt_wf_ind. intros src out Hf.
  destruct src as [|b src]; [by destruct fuel|]. destruct fuel as [|fuel]; [simpl in Hf; lia|].
  pose proof (decode_decode_ok (b :: src)) as [_ Hd]. cbn [decode_frames_loop length].
  destruct (OuterDecoder_decode (b :: src)) as [[[frame|]| |] rest]; try done.
  simpl in Hd, Hf. rewrite (IH fuel) by lia.
  destruct (decide (fuel = length src)) as [->|]; [by rewrite (IH (length src)) by lia|].
  by rewrite (IH (length src)) by lia.
Qed.

Lemma decode_frames_step p rest out fuel :
  length p ≤ MAX_OUTER_PAYLOAD →
  decode_frames_loop (S fuel) (device_frame p ++ rest) out
  = decode_frames_loop fuel rest (out ++ [mkInboundFrame p]).
Proof. intros. cbn [decode_frames_loop]. by rewrite decode_device_frame. Qed.

Lemma decode_frames_app ps tail out fuel :
  Forall (λ p, length p ≤ MAX_OUTER_PAYLOAD) ps → length (concat (device_frame <$> ps) ++ tail) ≤ fuel →
  decode_frames_loop fuel (concat (device_frame <$> ps) ++ tail) out
  = decode_frames_loop (length tail) tail (out ++ (mkInboundFrame <$> ps)).
Proof.
  intros Hps. revert out fuel. induction Hps as [|p ps Hp Hps IH]; intros out fuel Hf.
  { cbn. rewrite app_nil_r. by apply decode_frames_fuel. }
  cbn [fmap list_fmap concat]. cbn [fmap list_fmap concat] in Hf.
  rewrite <- app_assoc in *. rewrite length_app, length_device_frame in Hf.
  destruct fuel as [|fuel]; [lia|]. rewrite decode_frames_step by done.
  rewrite IH by lia. by rewrite <- app_assoc.
Qed.

(** ** Properties *)

(** [encode_payload] accepts exactly the payloads of at most 300 bytes and
    wraps them in the application marker and their length; a decoder that is
    handed the same length and payload bytes behind the device marker returns
    the payload and leaves what follows. *)
Theorem encode_payload_spec p rest :
  match encode_payload p with
  | Ok raw =>
      length p ≤ 300 ∧ raw !! 0 = Some APP_FRAME_PREFIX ∧
      OuterDecoder_decode (DEVICE_FRAME_PREFIX :: drop 1 raw ++ rest)
      = (Ok (Some (mkInboundFrame p)), rest)
  | Err e => 300 < length p ∧ e = OversizedOuter (length p)
  | Panic => False
  end.
Proof.
  unfold encode_payload, OutboundFrame_new.
  destruct (Nat.ltb_spec MAX_OUTER_PAYLOAD (length p)) as [Hl|Hl]; cbn [mbind outcome_bind]; [done|].
  unfold OuterEncoder_encode. cbn [OutboundFrame_payload]. unfold MAX_OUTER_PAYLOAD in *.
  destruct (Z.leb_spec (2 ^ 16) (Z.of_nat (length p))); [lia|].
  destruct (Nat.ltb_spec 300 (length p)); [lia|]. split_and!; [done|done|].
  apply (decode_device_frame p rest). done.
Qed.

(** any concatenation of device frames decodes to its payloads in order,
    and a trailing incomplete frame is left out without an error. *)
Theorem decode_frames_roundtrip ps p q r :
  Forall (λ p, length p ≤ 300) ps → length p ≤ 300 → q ++ r = device_frame p → r ≠ [] →
  decode_frames (concat (device_frame <$> ps) ++ q) = Ok (mkInboundFrame <$> ps).
Proof.
  intros Hps Hp Hq Hr. unfold decode_frames. rewrite decode_frames_app by done. cbn [app].
  destruct q as [|b q]; [done|]. cbn [length decode_frames_loop].
  rewrite decode_marker by (by injection Hq as -> _).
  by rewrite (decode_frame_partial p _ r).
Qed.

(** the decoder skips noise in front of a frame only while the noise is
    shorter than the bytes after it; otherwise it compares a stale position,
    discards the complete frame as well and reports that there is none. *)
Theorem decode_noise_exact ns p rest :
  noise ns → ns ≠ [] → length p ≤ 300 →
  OuterDecoder_decode (ns ++ device_frame p ++ rest)
  = if 3 + length p + length rest <=? length ns then (Ok None, [])
    else (Ok (Some (mkInboundFrame p)), rest).
Proof.
  intros Hn Hne Hp. rewrite decode_after_noise by done.
  rewrite length_app, length_device_frame. case_match; [done|]. by apply decode_frame_complete.
Qed.

(** the decoder never panics; it only removes a prefix of the buffer, a
    delivered frame has at most 300 bytes and removes at least its envelope and
    payload, and the only error is a declared length above 300. *)
Theorem decoder_safe src : decode_ok src (OuterDecoder_decode src).
Proof. apply decode_decode_ok. Qed.

Lemma decode_frames_roundtrip_witness :
  decode_frames (concat (device_frame <$> [[1; 2]; [3]]%Z) ++ [62; 2; 0; 7]%Z)
  = Ok (mkInboundFrame <$> [[1; 2]; [3]]%Z).
Proof.
  apply (decode_frames_roundtrip [[1; 2]; [3]]%Z [7; 8]%Z [62; 2; 0; 7]%Z [8]%Z).
  - repeat constructor; simpl; lia.
  - simpl. lia.
  - reflexivity.
  - discriminate.
Defined.

Lemma decode_noise_exact_witness :
  OuterDecoder_decode ([1; 2; 3; 4]%Z ++ device_frame [9%Z] ++ []) = (Ok None, []).
Proof.
  apply (decode_noise_exact [1; 2; 3; 4]%Z [9%Z] []).
  - repeat constructor; discriminate.
  - discriminate.
  - simpl. lia.
Defined.
