(* ===== verification/Transport.v ===== *)
(** * The transport interface (crates/meshquill-core/src/transport.rs)

    The [Transport] trait as a class: an operation takes the transport and
    returns its result and the transport afterwards.  A call is polled: it is
    [Ready] with a result; or it is [Pending] until the deadline of whoever
    awaits it, for good when there is none; or the task awaiting it is cancelled
    and its future [Dropped], after which no code of that task runs.

    [ObservedTransport] adds the packets the peer has been handed, and the laws
    the client relies on: a successful write hands over exactly its payload, a
    failed one nothing complete, and nothing else writes. *)

From S2P Require Import Prelude Domain.

(** ** Polled results *)

Inductive polled (A : Type) : Type :=
| Ready (a : A)
| Pending
| Dropped.
Arguments Ready {A} a.
Arguments Pending {A}.
Arguments Dropped {A}.

Inductive TransportKind :=
| TransportKind_Scripted | TransportKind_Serial | TransportKind_Ble | TransportKind_Tcp
| TransportKind_Unknown.

Inductive ReadyRead :=
| ReadyRead_Pending
| ReadyRead_Closed
| ReadyRead_Packet (packet : bytes).

Abbreviation tresult A := (outcome TransportError A) (only parsing).

(** ** The trait *)

Class Transport (T : Type) := {
  transport_kind : T → TransportKind;
  transport_connect : T → polled (tresult ()) * T;
  transport_disconnect : T → polled (tresult ()) * T;
  transport_write : T → bytes → polled (tresult ()) * T;
  transport_read : T → polled (tresult (option bytes)) * T;
  transport_try_read : T → tresult ReadyRead * T;
  (* of [ReconnectableTransport] *)
  transport_reconnect : T → polled (tresult ()) * T
}.

(** The default [try_read]: one poll of [read], which is not awaited. *)
Definition default_try_read {T} (read : T → polled (tresult (option bytes)) * T) (t : T)
    : tresult ReadyRead * T :=
  match read t with
  | (Pending, t) | (Dropped, t) => (Ok ReadyRead_Pending, t)
  | (Ready (Ok (Some packet)), t) => (Ok (ReadyRead_Packet packet), t)
  | (Ready (Ok None), t) => (Ok ReadyRead_Closed, t)
  | (Ready (Err error), t) => (Err error, t)
  | (Ready Panic, t) => (Panic, t)
  end.

(** The default [ReconnectableTransport::reconnect]. *)
Definition default_reconnect {T} (disconnect connect : T → polled (tresult ()) * T) (t : T) :
    polled (tresult ()) * T :=
  match disconnect t with
  | (Ready (Ok _), t) => connect t
  | (r, t) => (r, t)
  end.

(** What closing and opening keep, the default reconnect keeps. *)
Lemma default_reconnect_keeps {T} (P : polled (tresult ()) → Prop) (I : T → Prop)
    (disconnect connect : T → polled (tresult ()) * T) t :
  (I t → I (disconnect t).2 ∧ P (disconnect t).1) → (∀ t, I t → I (connect t).2 ∧ P (connect t).1) → I t →
  I (default_reconnect disconnect connect t).2 ∧ P (default_reconnect disconnect connect t).1.
Proof.
  intros Hd Hc Ht. destruct (Hd Ht) as [Ht' Hp]. unfold default_reconnect.
  destruct (disconnect t) as [[[]| |] t']; simpl in *; auto.
Qed.

Class ObservedTransport (T : Type) `{Transport T} := {
  transport_sent : T → list bytes;
  connect_sent t : transport_sent (transport_connect t).2 = transport_sent t;
  disconnect_sent t : transport_sent (transport_disconnect t).2 = transport_sent t;
  reconnect_sent t : transport_sent (transport_reconnect t).2 = transport_sent t;
  read_sent t : transport_sent (transport_read t).2 = transport_sent t;
  try_read_sent t : transport_sent (transport_try_read t).2 = transport_sent t;
  write_sent t p :
    transport_sent (transport_write t p).2 =
      match (transport_write t p).1 with
      | Ready (Ok _) => transport_sent t ++ [p]
      | _ => transport_sent t
      end;
  (* What the type system guarantees: the transport holds bytes, so its packets are bytes. *)
  transport_wf : T → Prop;
  connect_wf t : transport_wf t → transport_wf (transport_connect t).2 ∧ (transport_connect t).1 ≠ Ready Panic;
  disconnect_wf t : transport_wf t → transport_wf (transport_disconnect t).2 ∧ (transport_disconnect t).1 ≠ Ready Panic;
  reconnect_wf t : transport_wf t → transport_wf (transport_reconnect t).2 ∧ (transport_reconnect t).1 ≠ Ready Panic;
  write_wf t p : transport_wf t → transport_wf (transport_write t p).2 ∧ (transport_write t p).1 ≠ Ready Panic;
  read_wf t : transport_wf t → transport_wf (transport_read t).2 ∧
    match (transport_read t).1 with
    | Ready (Ok (Some p)) => is_bytes p
    | Ready Panic => False
    | _ => True
    end;
  try_read_wf t : transport_wf t → transport_wf (transport_try_read t).2 ∧
    match (transport_try_read t).1 with
    | Ok (ReadyRead_Packet p) => is_bytes p
    | Panic => False
    | _ => True
    end
}.

(** A transport that delivers finitely many packets, over all the connections it will
    make.  The state of a transport holds what its device is going to send, answers to
    commands included, so that a write brings no packet about that was not counted
    before.  It is what termination rests on: the wait for an answer has a timeout for
    each packet and none for the whole, so that a device that never stops sending
    keeps it going. *)
Class FiniteTransport (T : Type) `{Transport T} := {
  transport_left : T → nat;
  read_left t :
    match transport_read t with
    | (Ready (Ok (Some _)), t') => transport_left t' < transport_left t
    | (_, t') => transport_left t' ≤ transport_left t
    end;
  write_left t p : transport_left (transport_write t p).2 ≤ transport_left t;
  try_read_left t : transport_left (transport_try_read t).2 ≤ transport_left t;
  connect_left t : transport_left (transport_connect t).2 ≤ transport_left t;
  disconnect_left t : transport_left (transport_disconnect t).2 ≤ transport_left t;
  reconnect_left t : transport_left (transport_reconnect t).2 ≤ transport_left t
}.

(** A transport whose calls complete, except that a read can wait for its
    deadline. *)
Class PromptTransport (T : Type) `{Transport T} := {
  connect_prompt t : ∃ r, (transport_connect t).1 = Ready r;
  disconnect_prompt t : ∃ r, (transport_disconnect t).1 = Ready r;
  reconnect_prompt t : ∃ r, (transport_reconnect t).1 = Ready r;
  write_prompt t p : ∃ r, (transport_write t p).1 = Ready r;
  read_prompt t : (transport_read t).1 ≠ Dropped
}.

(** What a transport promises about its peer: [transport_clean] is the state in
    which the next packet can be sent, and [transport_torn] the state a write that
    never came to an end may leave, which only a disconnect repairs. *)
Class CleanTransport (T : Type) `{Transport T} := {
  transport_torn : T → Prop;
  transport_clean : T → Prop;
  clean_torn t : transport_clean t → transport_torn t;
  connect_clean t : transport_clean t → transport_clean (transport_connect t).2;
  disconnect_clean t : transport_torn t → transport_clean (transport_disconnect t).2;
  reconnect_clean t : transport_torn t → transport_clean (transport_reconnect t).2;
  read_clean t : transport_clean t → transport_clean (transport_read t).2;
  try_read_clean t : transport_clean t → transport_clean (transport_try_read t).2;
  write_clean t p : transport_clean t →
    match transport_write t p with
    | (Ready _, t') => transport_clean t'
    | (_, t') => transport_torn t'
    end
}.

(** ** The scripted transport *)

Record ScriptedTransport := mkScripted {
  Scripted_kind : TransportKind;
  Scripted_connected : bool;
  Scripted_incoming : list bytes;
  Scripted_outgoing : list bytes
}.

Definition ScriptedTransport_new : ScriptedTransport :=
  mkScripted TransportKind_Scripted false [] [].
Definition with_inbound_frames (frames : list bytes) : ScriptedTransport :=
  mkScripted TransportKind_Scripted true frames [].
Definition enqueue_inbound (t : ScriptedTransport) (payload : bytes) : ScriptedTransport :=
  mkScripted (Scripted_kind t) (Scripted_connected t) (Scripted_incoming t ++ [payload])
    (Scripted_outgoing t).
Definition pop_outbound (t : ScriptedTransport) : option bytes * ScriptedTransport :=
  (head (Scripted_outgoing t),
   mkScripted (Scripted_kind t) (Scripted_connected t) (Scripted_incoming t)
     (tail (Scripted_outgoing t))).
Definition drain_outbound (t : ScriptedTransport) : list bytes * ScriptedTransport :=
  (Scripted_outgoing t,
   mkScripted (Scripted_kind t) (Scripted_connected t) (Scripted_incoming t) []).

Definition Scripted_connect (t : ScriptedTransport) : polled (tresult ()) * ScriptedTransport :=
  (Ready (Ok ()), mkScripted (Scripted_kind t) true (Scripted_incoming t) (Scripted_outgoing t)).
Definition Scripted_disconnect (t : ScriptedTransport)
    : polled (tresult ()) * ScriptedTransport :=
  (Ready (Ok ()), mkScripted (Scripted_kind t) false (Scripted_incoming t) (Scripted_outgoing t)).
Definition Scripted_write (t : ScriptedTransport) (payload : bytes)
    : polled (tresult ()) * ScriptedTransport :=
  if negb (Scripted_connected t) then (Ready (Err TransportError_NotConnected), t)
  else (Ready (Ok ()), mkScripted (Scripted_kind t) (Scripted_connected t) (Scripted_incoming t)
                 (Scripted_outgoing t ++ [payload])).
Definition Scripted_read (t : ScriptedTransport)
    : polled (tresult (option bytes)) * ScriptedTransport :=
  if negb (Scripted_connected t) then (Ready (Err TransportError_NotConnected), t)
  else (Ready (Ok (head (Scripted_incoming t))),
        mkScripted (Scripted_kind t) (Scripted_connected t) (tail (Scripted_incoming t))
          (Scripted_outgoing t)).
Definition Scripted_try_read (t : ScriptedTransport) : tresult ReadyRead * ScriptedTransport :=
  if negb (Scripted_connected t) then (Err TransportError_NotConnected, t)
  else (Ok ReadyRead_Pending, t).

#[global] Instance Scripted_transport : Transport ScriptedTransport := {
  transport_kind := Scripted_kind;
  transport_connect := Scripted_connect;
  transport_disconnect := Scripted_disconnect;
  transport_write := Scripted_write;
  transport_read := Scripted_read;
  transport_try_read := Scripted_try_read;
  transport_reconnect := default_reconnect Scripted_disconnect Scripted_connect
}.

#[global] Program Instance Scripted_observed : ObservedTransport ScriptedTransport := {
  transport_sent := Scripted_outgoing;
  transport_wf t := Forall is_bytes (Scripted_incoming t)
}.
Next Obligation. done. Qed.
Next Obligation. done. Qed.
Next Obligation. done. Qed.
Next Obligation. intros t. simpl. unfold Scripted_read. by destruct (Scripted_connected t). Qed.
Next Obligation. intros t. simpl. unfold Scripted_try_read. by destruct (Scripted_connected t). Qed.
Next Obligation. intros t p. simpl. unfold Scripted_write. by destruct (Scripted_connected t). Qed.
Next Obligation. done. Qed.
Next Obligation. done. Qed.
Next Obligation. done. Qed.
Next Obligation. intros t p ?. simpl. unfold Scripted_write. by destruct (Scripted_connected t). Qed.
Next Obligation.
  intros t Ht. simpl. unfold Scripted_read. destruct (Scripted_connected t); [|done]. cbn.
  destruct Ht as [|p ps]; [done|]. by split.
Qed.
Next Obligation. intros t ?. simpl. unfold Scripted_try_read. by destruct (Scripted_connected t). Qed.

#[global] Program Instance Scripted_finite : FiniteTransport ScriptedTransport := {
  transport_left t := length (Scripted_incoming t)
}.
Next Obligation.
  intros t. simpl. unfold Scripted_read. destruct (Scripted_connected t); [|cbn; lia]. cbn.
  destruct (Scripted_incoming t); cbn; lia.
Qed.
Next Obligation.
  intros t p. simpl. unfold Scripted_write. destruct (Scripted_connected t); cbn; lia.
Qed.
Next Obligation.
  intros t. simpl. unfold Scripted_try_read. destruct (Scripted_connected t); cbn; lia.
Qed.
Next Obligation. done. Qed.
Next Obligation. done. Qed.
Next Obligation. done. Qed.

#[global] Program Instance Scripted_prompt : PromptTransport ScriptedTransport.
Next Obligation. intros t. by eexists. Qed.
Next Obligation. intros t. by eexists. Qed.
Next Obligation. intros t. by eexists. Qed.
Next Obligation. intros t p. simpl. unfold Scripted_write. destruct (Scripted_connected t); by eexists. Qed.
Next Obligation. intros t. simpl. unfold Scripted_read. by destruct (Scripted_connected t). Qed.
