(* ===== verification/Discovery.v ===== *)
(** * Targets and discovery records
    (crates/meshquill-transport/src/discovery.rs)

    The targets a transport is built from, the records discovery reports, and
    the validation both share. *)

From Stdlib Require Import Ascii.
From S2P Require Import Prelude Text Order Domain Transport.

(** ** [Debug] of a [Duration]

    The largest unit that gives a number of at least one, with the fraction
    behind the point and its trailing zeros left out. *)

Fixpoint fraction_digits (n : nat) (divisor part : Z) : string :=
  match n with
  | 0 => ""
  | S n =>
      if (part =? 0)%Z then ""
      else pretty (part / divisor)%Z +:+ fraction_digits n (divisor / 10) (part mod divisor)
  end.
Definition fmt_decimal (whole part divisor : Z) (unit : string) : string :=
  pretty whole +:+ (if (part =? 0)%Z then "" else "." +:+ fraction_digits 9 divisor part) +:+ unit.
Definition debug_Duration (d : Z) : string :=
  let secs := (d / NANOS_PER_SEC)%Z in
  let nanos := (d mod NANOS_PER_SEC)%Z in
  if (0 <? secs)%Z then fmt_decimal secs nanos 100000000 "s"
  else if (1000000 <=? nanos)%Z then fmt_decimal (nanos / 1000000) (nanos mod 1000000) 100000 "ms"
  else if (1000 <=? nanos)%Z then fmt_decimal (nanos / 1000) (nanos mod 1000) 100 "µs"
  else fmt_decimal nanos 0 1 "ns".

Example debug_durations :
  debug_Duration <$> [5000000000; 1500000000; 25000000; 1050; 7; 0]%Z
  = ["5s"; "1.5s"; "25ms"; "1.05µs"; "7ns"; "0ns"]%string.
Proof. reflexivity. Qed.

(** ** Errors *)

Inductive TargetError := TargetError_Invalid (field message : string).

Inductive DiscoveryError :=
| DiscoveryError_Cancelled
| DiscoveryError_NoBleAdapter
| DiscoveryError_BlePoweredOff
| DiscoveryError_Ble (operation source : string)
| DiscoveryError_BleTimeout (operation : string) (timeout : Z)
| DiscoveryError_SerialEnumeration (source : string)
| DiscoveryError_InvalidTarget (error : TargetError)
| DiscoveryError_Worker (message : string).

Definition display_TargetError (error : TargetError) : string :=
  match error with
  | TargetError_Invalid field message => "invalid transport target field '" +:+ field +:+ "': " +:+ message
  end.

Definition display_DiscoveryError (error : DiscoveryError) : string :=
  match error with
  | DiscoveryError_Cancelled => "BLE discovery was cancelled; retry the scan when ready"
  | DiscoveryError_NoBleAdapter =>
      "no Bluetooth Low Energy adapter is available; enable Bluetooth and check that the OS exposes an adapter"
  | DiscoveryError_BlePoweredOff =>
      "all Bluetooth adapters are powered off; enable Bluetooth and retry discovery"
  | DiscoveryError_Ble operation source =>
      "BLE " +:+ operation +:+ " failed: " +:+ source
        +:+ "; check Bluetooth permissions, adapter state, and whether another application owns the device"
  | DiscoveryError_BleTimeout operation timeout =>
      "BLE " +:+ operation +:+ " timed out after " +:+ debug_Duration timeout
        +:+ "; check adapter responsiveness and retry discovery"
  | DiscoveryError_SerialEnumeration source =>
      "serial port enumeration failed: " +:+ source +:+ "; check device presence and OS device permissions"
  | DiscoveryError_InvalidTarget error => display_TargetError error
  | DiscoveryError_Worker message =>
      "serial enumeration worker failed: " +:+ message +:+ "; retry the operation"
  end.

(** ** Validation *)

Definition validate_nonempty (field value : string) : outcome TargetError () :=
  if trim_is_empty (str_bytes value) then Err (TargetError_Invalid field "must not be blank")
  else Ok ().

Definition validate_nonzero (field : string) (value : Z) : outcome TargetError () :=
  if (value =? 0)%Z
  then Err (TargetError_Invalid field ("must be non-zero (got " +:+ pretty value +:+ ")"))
  else Ok ().

Definition validate_timeout (field : string) (value : Z) : outcome TargetError () :=
  if (value =? 0)%Z || (MAX_OPERATION_TIMEOUT <? value)%Z
  then Err (TargetError_Invalid field "must be greater than zero and at most 24 hours")
  else Ok ().

(** ** Targets *)

Inductive TransportTarget :=
| Target_Ble (selector : string)
| Target_Serial (port : string) (baud : u32)
| Target_Tcp (host : string) (port : u16).

Definition Target_kind (self : TransportTarget) : TransportKind :=
  match self with
  | Target_Ble _ => TransportKind_Ble
  | Target_Serial _ _ => TransportKind_Serial
  | Target_Tcp _ _ => TransportKind_Tcp
  end.

Definition Target_validate (self : TransportTarget) : outcome TargetError () :=
  match self with
  | Target_Ble selector => validate_nonempty "selector" selector
  | Target_Serial port baud => _ ← validate_nonempty "port" port; validate_nonzero "baud" baud
  | Target_Tcp host port => _ ← validate_nonempty "host" host; validate_nonzero "port" port
  end.

(** ** Records *)

#[global] Instance TransportKind_eq_dec : EqDecision TransportKind.
Proof. solve_decision. Defined.

Record DiscoveredDevice := mkDiscovered {
  Discovered_id : string;
  Discovered_display_name : string;
  Discovered_transport : TransportKind;
  Discovered_target : TransportTarget;
  Discovered_address : option string;
  Discovered_port : option u16;
  Discovered_rssi : option i16;
  Discovered_notes : list string
}.

Definition Discovered_validate (self : DiscoveredDevice) : outcome TargetError () :=
  _ ← Target_validate (Discovered_target self);
  if negb (bool_decide (Discovered_transport self = Target_kind (Discovered_target self)))
  then Err (TargetError_Invalid "transport" "record kind does not match its target")
  else Ok ().

(** [str::contains] and the tests of the ends, for a single character. *)
Definition string_contains (c : Ascii.ascii) (s : string) : bool :=
  existsb (Ascii.eqb c) (String.list_ascii_of_string s).

Definition format_tcp_endpoint (host : string) (port : u16) : string :=
  let cs := String.list_ascii_of_string host in
  if string_contains ":" host
     && negb (bool_decide (head cs = Some "["%char) && bool_decide (last cs = Some "]"%char))
  then "[" +:+ host +:+ "]:" +:+ pretty port
  else host +:+ ":" +:+ pretty port.

Definition manual_tcp_device (host : string) (port : u16) : outcome TargetError DiscoveredDevice :=
  let target := Target_Tcp host port in
  _ ← Target_validate target;
  let endpoint := format_tcp_endpoint host port in
  Ok (mkDiscovered ("tcp:" +:+ endpoint) endpoint TransportKind_Tcp target (Some host) (Some port) None
        ["Manually configured TCP endpoint; reachability is checked on connect."%string]).

(** The order of the results, by identifier. *)
Definition id_leb (left right : DiscoveredDevice) : bool :=
  bytes_leb (str_bytes (Discovered_id left)) (str_bytes (Discovered_id right)).

(** The lowercase names the records are serialized with. *)
Definition serialize_kind (kind : TransportKind) : string :=
  match kind with
  | TransportKind_Ble => "ble"
  | TransportKind_Serial => "serial"
  | TransportKind_Tcp => "tcp"
  | TransportKind_Scripted => "scripted"
  | TransportKind_Unknown => "unknown"
  end.
Definition deserialize_kind (value : string) : option TransportKind :=
  if String.eqb value "ble" then Some TransportKind_Ble
  else if String.eqb value "serial" then Some TransportKind_Serial
  else if String.eqb value "tcp" then Some TransportKind_Tcp
  else if String.eqb value "scripted" then Some TransportKind_Scripted
  else if String.eqb value "unknown" then Some TransportKind_Unknown
  else None.

(** ** Facts *)

Lemma serialize_kind_inverse kind : deserialize_kind (serialize_kind kind) = Some kind.
Proof. by destruct kind. Qed.

Lemma validate_timeout_ok field value :
  validate_timeout field value = Ok () ↔ value ≠ 0%Z ∧ (value ≤ MAX_OPERATION_TIMEOUT)%Z.
Proof.
  unfold validate_timeout. destruct (Z.eqb_spec value 0); simpl; [naive_solver|].
  destruct (Z.ltb_spec MAX_OPERATION_TIMEOUT value); naive_solver lia.
Qed.

(** What a usable target is: no blank name and no zero number. *)
Definition usable (target : TransportTarget) : Prop :=
  match target with
  | Target_Ble name => trim_is_empty (str_bytes name) = false
  | Target_Serial name number | Target_Tcp name number =>
      trim_is_empty (str_bytes name) = false ∧ number ≠ 0%Z
  end.

Lemma target_validate_ok target : Target_validate target = Ok () ↔ usable target.
Proof.
  destruct target as [name|name number|name number]; simpl; unfold validate_nonempty, validate_nonzero;
    destruct (trim_is_empty _); simpl; try naive_solver;
    destruct (Z.eqb_spec number 0); naive_solver.
Qed.

Lemma target_validate_no_panic target : Target_validate target ≠ Panic.
Proof.
  destruct target as [name|name number|name number]; simpl; unfold validate_nonempty, validate_nonzero;
    destruct (trim_is_empty _); simpl; try done; by destruct (number =? 0)%Z.
Qed.

Lemma id_leb_total x y : id_leb x y = true ∨ id_leb y x = true.
Proof. apply bytes_leb_total. Qed.
Lemma id_leb_trans x y z : id_leb x y = true → id_leb y z = true → id_leb x z = true.
Proof. apply bytes_leb_trans. Qed.

(** A manual record can be used as it is. *)
Lemma manual_tcp_device_valid host port device :
  manual_tcp_device host port = Ok device →
  Discovered_validate device = Ok () ∧ Discovered_target device = Target_Tcp host port.
Proof.
  unfold manual_tcp_device. destruct (Target_validate (Target_Tcp host port)) as [[]| |] eqn:Hv; [|done..].
  cbn [mbind outcome_bind]. intros [= <-]. split; [|done]. unfold Discovered_validate. cbn [Discovered_target].
  by rewrite Hv.
Qed.
