(* ===== verification/Framed.v ===== *)
(** * Framed byte streams and the TCP transport
    (crates/meshquill-transport/src/framed.rs and tcp.rs)

    [FramedReadState] reassembles packets from the chunks a stream delivers; a
    bounded write invalidates the stream after any failure.  The operating
    system's stream is data: the list of what its reads return and the fate of
    its writes, with the bytes that reached the peer. *)

From S2P Require Import Prelude Domain Packet Framing Transport Discovery.

(** ** The stream *)

(** What one [AsyncRead::read] does: deliver a chunk (the empty chunk is the end
    of the stream), fail, stay pending until the deadline, or be dropped with the
    task that awaits it. *)
Inductive read_event :=
| ReadBytes (chunk : bytes)
| ReadFailed (error : IoError)
| ReadPending
| ReadDropped.

(** What one [write_all] followed by [flush] does: complete, fail after [sent]
    bytes, stall after [sent] bytes until the timeout, or be dropped after [sent]
    bytes with the task that awaits it. *)
Inductive write_fate :=
| WriteDone
| WriteFailed (sent : nat) (error : IoError)
| WriteStalled (sent : nat)
| WriteDropped (sent : nat).

Record Stream := mkStream {
  Stream_incoming : list read_event;
  Stream_fates : list write_fate;
  Stream_written : bytes
}.

(** ** Reading *)

Record FramedReadState := mkFramedReadState { FramedReadState_buffered : bytes }.

Definition FramedReadState_new : FramedReadState := mkFramedReadState [].
(** [FramedReadState::reset]. *)
Definition FramedReadState_reset (_ : FramedReadState) : FramedReadState := mkFramedReadState [].

Definition discard_preceding_noise (buffered : bytes) : bytes :=
  if bool_decide (head buffered = Some DEVICE_FRAME_PREFIX) then buffered
  else match position (λ b, (b =? DEVICE_FRAME_PREFIX)%Z) buffered with
       | Some prefix => drop prefix buffered
       | None => []
       end.

Definition core_codec_error (error : CoreError) : TransportError :=
  match error with
  | CoreError_Transport error => error
  | other => TransportError_Io (mkIoError InvalidData
               ("outer frame codec failed: " +:+ display_CoreError other))
  end.

Definition unexpected_eof (pending : usize) : TransportError :=
  TransportError_Io (mkIoError UnexpectedEof
    ("peer closed with " +:+ pretty pending +:+ " byte(s) of an incomplete outer frame")).

(** [FramedReadState::read_from]: one turn of the loop per read event. *)
Fixpoint read_from (buffered : bytes) (events : list read_event)
    : polled (tresult (option bytes)) * FramedReadState * list read_event :=
  let buffered := discard_preceding_noise buffered in
  match OuterDecoder_decode buffered with
  | (Ok (Some frame), buffered) =>
      (Ready (Ok (Some (InboundFrame_payload frame))), mkFramedReadState buffered, events)
  | (Err e, buffered) => (Ready (Err (core_codec_error e)), mkFramedReadState buffered, events)
  | (Panic, buffered) => (Ready Panic, mkFramedReadState buffered, events)
  | (Ok None, buffered) =>
      match events with
      | [] => (Pending, mkFramedReadState buffered, [])
      | ReadPending :: events => (Pending, mkFramedReadState buffered, events)
      | ReadDropped :: events => (Dropped, mkFramedReadState buffered, events)
      | ReadFailed e :: events =>
          (Ready (Err (TransportError_Io e)), mkFramedReadState buffered, events)
      | ReadBytes [] :: events =>
          if bool_decide (buffered = []) then (Ready (Ok None), mkFramedReadState buffered, events)
          else (Ready (Err (unexpected_eof (length buffered))), mkFramedReadState [], events)
      | ReadBytes chunk :: events => read_from (buffered ++ chunk) events
      end
  end.

(** ** Writing *)

Definition validate_payload (payload : bytes) : tresult () :=
  if MAX_INNER_PAYLOAD <? length payload
  then Err (TransportError_PayloadTooLarge MAX_INNER_PAYLOAD (length payload))
  else Ok ().

(** [write_framed]: the stream afterwards, whatever the result. *)
Definition write_framed (writer : Stream) (payload : bytes) : polled (tresult ()) * Stream :=
  match validate_payload payload with
  | Ok _ =>
      match encode_payload payload with
      | Ok encoded =>
          let put n := mkStream (Stream_incoming writer) (tail (Stream_fates writer))
                         (Stream_written writer ++ take n encoded) in
          match default WriteDone (head (Stream_fates writer)) with
          | WriteDone => (Ready (Ok ()), put (length encoded))
          | WriteFailed sent e => (Ready (Err (TransportError_Io e)), put sent)
          | WriteStalled sent => (Pending, put sent)
          | WriteDropped sent => (Dropped, put sent)
          end
      | Err e => (Ready (Err (core_codec_error e)), writer)
      | Panic => (Ready Panic, writer)
      end
  | Err e => (Ready (Err e), writer)
  | Panic => (Ready Panic, writer)
  end.

(** [write_framed_bounded]: [open] is whether the stream is still held
    ([writer.is_some()]); [writer.take()] clears it, which a dropped write never
    gets to. *)
Definition write_framed_bounded (timeout : string) (open : bool) (writer : Stream)
    (read_state : FramedReadState) (payload : bytes)
    : polled (tresult ()) * bool * Stream * FramedReadState :=
  let finish (result : tresult ()) writer :=
    if is_Err result then (Ready result, false, writer, FramedReadState_reset read_state)
    else (Ready result, open, writer, read_state) in
  if negb open then (Ready (Err TransportError_NotConnected), open, writer, read_state)
  else
    match write_framed writer payload with
    | (Ready result, writer) => finish result writer
    | (Pending, writer) =>
        finish (Err (TransportError_Io (mkIoError TimedOut
                       ("framed write timed out after " +:+ timeout)))) writer
    | (Dropped, writer) => (Dropped, open, writer, read_state)
    end.

Definition is_terminal_read_error (error : TransportError) : bool :=
  match error with
  | TransportError_NotConnected | TransportError_Closed => true
  | TransportError_Io error =>
      match IoError_kind error with
      | ConnectionAborted | ConnectionReset | BrokenPipe | NotConnected | UnexpectedEof => true
      | _ => false
      end
  | _ => false
  end.

Definition invalidate_on_terminal_read_error (open : bool) (read_state : FramedReadState)
    (error : TransportError) : bool * FramedReadState :=
  if is_terminal_read_error error then (false, FramedReadState_reset read_state)
  else (open, read_state).

(** ** The TCP transport *)

(** The provider's [connect] with [set_nodelay], and its [shutdown].  A shutdown
    can also still be pending when a deadline of the caller runs out. *)
Inductive connect_fate :=
| ConnectDone (stream : Stream)
| ConnectTimeout
| ConnectFailed (error : IoError)
| NodelayFailed (error : IoError)
| ConnectDropped.
Inductive shutdown_fate :=
| ShutdownDone | ShutdownTimeout | ShutdownFailed (error : IoError)
| ShutdownPending | ShutdownDropped.

Record TcpTransport := mkTcp {
  Tcp_host : string;
  Tcp_port : u16;
  Tcp_timeout : Z;                  (* [connect_timeout] *)
  Tcp_open : bool;                  (* [stream.is_some()] *)
  Tcp_stream : Stream;              (* the stream last held *)
  Tcp_read_state : FramedReadState;
  Tcp_connects : list connect_fate; (* what the provider will do *)
  Tcp_shutdowns : list shutdown_fate;
  Tcp_sent : list bytes             (* the payloads of completed writes *)
}.

Definition tcp_with (t : TcpTransport) (open : bool) (stream : Stream) (rs : FramedReadState)
    (connects : list connect_fate) (shutdowns : list shutdown_fate) (sent : list bytes)
    : TcpTransport :=
  mkTcp (Tcp_host t) (Tcp_port t) (Tcp_timeout t) open stream rs connects shutdowns sent.

(** [TcpTransport::new]; what the operating system will do with the connections
    is given with the arguments. *)
Definition TcpTransport_new (host : string) (port : u16) (connect_timeout : Z)
    (connects : list connect_fate) (shutdowns : list shutdown_fate)
    : outcome TargetError TcpTransport :=
  _ ← Target_validate (Target_Tcp host port);
  _ ← validate_timeout "connect_timeout" connect_timeout;
  Ok (mkTcp host port connect_timeout false (mkStream [] [] []) FramedReadState_new
        connects shutdowns []).
Definition Tcp_target (t : TcpTransport) : TransportTarget := Target_Tcp (Tcp_host t) (Tcp_port t).

Definition Tcp_endpoint (t : TcpTransport) : string := format_tcp_endpoint (Tcp_host t) (Tcp_port t).

Definition timeout_error (operation endpoint timeout : string) : TransportError :=
  TransportError_Io (mkIoError TimedOut
    (operation +:+ " for " +:+ endpoint +:+ " timed out after " +:+ timeout)).
Definition contextual_io (error : IoError) (operation endpoint : string) : IoError :=
  mkIoError (IoError_kind error)
    (operation +:+ " " +:+ endpoint +:+ " failed: " +:+ IoError_message error).
Definition contextual_transport (error : TransportError) (operation endpoint : string)
    : TransportError :=
  match error with
  | TransportError_Io error => TransportError_Io (contextual_io error operation endpoint)
  | other => other
  end.

Definition Tcp_connect (t : TcpTransport) : polled (tresult ()) * TcpTransport :=
  if Tcp_open t then
    (Ready (Err (TransportError_Io (mkIoError AlreadyExists
       ("TCP transport to " +:+ Tcp_endpoint t
          +:+ " is already connected; disconnect before connecting again")))), t)
  else
    let closed := tcp_with t false (Tcp_stream t) (FramedReadState_reset (Tcp_read_state t))
                    (tail (Tcp_connects t)) (Tcp_shutdowns t) (Tcp_sent t) in
    match default ConnectTimeout (head (Tcp_connects t)) with
    | ConnectDone stream =>
        (Ready (Ok ()), tcp_with closed true stream (Tcp_read_state closed) (Tcp_connects closed)
                          (Tcp_shutdowns closed) (Tcp_sent closed))
    | ConnectTimeout =>
        (Ready (Err (timeout_error "TCP connect" (Tcp_endpoint t) (debug_Duration (Tcp_timeout t)))), closed)
    | ConnectFailed e =>
        (Ready (Err (TransportError_Io (contextual_io e "TCP connect" (Tcp_endpoint t)))), closed)
    | NodelayFailed e =>
        (Ready (Err (TransportError_Io
                       (contextual_io e "configure TCP_NODELAY for" (Tcp_endpoint t)))), closed)
    | ConnectDropped => (Dropped, closed)
    end.

Definition Tcp_disconnect (t : TcpTransport) : polled (tresult ()) * TcpTransport :=
  let rs := FramedReadState_reset (Tcp_read_state t) in
  if negb (Tcp_open t) then
    (Ready (Ok ()),
     tcp_with t false (Tcp_stream t) rs (Tcp_connects t) (Tcp_shutdowns t) (Tcp_sent t))
  else
    let closed := tcp_with t false (Tcp_stream t) rs (Tcp_connects t) (tail (Tcp_shutdowns t))
                    (Tcp_sent t) in
    match default ShutdownDone (head (Tcp_shutdowns t)) with
    | ShutdownDone => (Ready (Ok ()), closed)
    | ShutdownTimeout =>
        (Ready (Err (timeout_error "TCP shutdown" (Tcp_endpoint t) (debug_Duration (Tcp_timeout t)))), closed)
    | ShutdownFailed e =>
        (Ready (Err (TransportError_Io (contextual_io e "TCP shutdown for" (Tcp_endpoint t)))),
         closed)
    | ShutdownPending => (Pending, closed)
    | ShutdownDropped => (Dropped, closed)
    end.

Definition Tcp_write (t : TcpTransport) (payload : bytes)
    : polled (tresult ()) * TcpTransport :=
  match validate_payload payload with
  | Ok _ =>
      let '(result, open, stream, rs) :=
        write_framed_bounded (debug_Duration (Tcp_timeout t)) (Tcp_open t) (Tcp_stream t)
          (Tcp_read_state t) payload in
      let after sent := tcp_with t open stream rs (Tcp_connects t) (Tcp_shutdowns t) sent in
      match result with
      | Ready result =>
          (Ready (map_err (λ e, contextual_transport e "TCP write to" (Tcp_endpoint t)) result),
           after (if is_Ok result then Tcp_sent t ++ [payload] else Tcp_sent t))
      | Pending => (Pending, after (Tcp_sent t))
      | Dropped => (Dropped, after (Tcp_sent t))
      end
  | r => (Ready r, t)
  end.

Definition Tcp_read (t : TcpTransport) : polled (tresult (option bytes)) * TcpTransport :=
  let '(result, rs, stream) :=
    if Tcp_open t then
      let '(result, rs, events) :=
        read_from (FramedReadState_buffered (Tcp_read_state t)) (Stream_incoming (Tcp_stream t)) in
      (result, rs,
       mkStream events (Stream_fates (Tcp_stream t)) (Stream_written (Tcp_stream t)))
    else (Ready (Err TransportError_NotConnected), Tcp_read_state t, Tcp_stream t) in
  let after open rs :=
    tcp_with t open stream rs (Tcp_connects t) (Tcp_shutdowns t) (Tcp_sent t) in
  match result with
  | Pending => (Pending, after (Tcp_open t) rs)
  | Dropped => (Dropped, after (Tcp_open t) rs)
  | Ready (Ok None) => (Ready (Ok None), after false (FramedReadState_reset rs))
  | Ready (Ok packet) => (Ready (Ok packet), after (Tcp_open t) rs)
  | Ready (Err error) =>
      let '(open, rs) := invalidate_on_terminal_read_error (Tcp_open t) rs error in
      (Ready (Err (contextual_transport error "TCP read from" (Tcp_endpoint t))), after open rs)
  | Ready Panic => (Ready Panic, after (Tcp_open t) rs)
  end.

#[global] Instance Tcp_transport : Transport TcpTransport := {
  transport_kind := λ _, TransportKind_Tcp;
  transport_connect := Tcp_connect;
  transport_disconnect := Tcp_disconnect;
  transport_write := Tcp_write;
  transport_read := Tcp_read;
  transport_try_read := default_try_read Tcp_read;
  transport_reconnect := default_reconnect Tcp_disconnect Tcp_connect
}.

(** ** Reassembly *)

(** The bytes a list of reads delivers, when none of them ends or breaks the
    stream. *)
Fixpoint event_bytes (events : list read_event) : bytes :=
  match events with
  | [] => []
  | ReadBytes chunk :: events => chunk ++ event_bytes events
  | _ :: events => event_bytes events
  end.

Definition live (e : read_event) : Prop :=
  match e with
  | ReadBytes chunk => chunk ≠ []
  | ReadFailed _ => False
  | ReadPending | ReadDropped => True
  end.

Lemma discard_noise_prefix ns rest :
  noise ns → discard_preceding_noise (ns ++ rest) = discard_preceding_noise rest.
Proof.
  intros Hn. destruct ns as [|b ns]; [done|].
  assert (position (λ b, (b =? DEVICE_FRAME_PREFIX)%Z) ((b :: ns) ++ rest)
          = Nat.add (length (b :: ns)) <$> position (λ b, (b =? DEVICE_FRAME_PREFIX)%Z) rest) as Hp.
  { apply position_app_skip. eapply Forall_impl; [exact Hn|]. simpl. intros; lia. }
  unfold discard_preceding_noise at 1. rewrite Hp. rewrite bool_decide_false.
  2:{ inversion Hn. simpl. congruence. }
  unfold discard_preceding_noise. case_bool_decide as Hh.
  - destruct rest as [|r rest]; [done|]. injection Hh as ->.
    change (position _ (DEVICE_FRAME_PREFIX :: rest)) with (Some 0). cbn [fmap option_fmap option_map].
    by rewrite Nat.add_0_r, drop_app_length.
  - destruct (position _ rest) as [k|]; [|done]. cbn [fmap option_fmap option_map].
    by rewrite drop_app_add.
Qed.

Lemma discard_noise ns : noise ns → discard_preceding_noise ns = [].
Proof. intros. rewrite <- (app_nil_r ns), discard_noise_prefix by done. done. Qed.

Lemma discard_marker l : discard_preceding_noise (DEVICE_FRAME_PREFIX :: l) = DEVICE_FRAME_PREFIX :: l.
Proof. done. Qed.

(** How a buffer can sit in a stream [noise ++ frame ++ more]. *)
Lemma buffer_cases (b c ns fr more : bytes) :
  b ++ c = ns ++ fr ++ more →
  (∃ ns', ns = b ++ ns' ∧ c = ns' ++ fr ++ more) ∨
  (∃ q r, b = ns ++ q ∧ q ++ r = fr ∧ c = r ++ more ∧ q ≠ [] ∧ r ≠ []) ∨
  (∃ rest, b = ns ++ fr ++ rest ∧ more = rest ++ c).
Proof.
  intros Heq. apply app_eq_inv in Heq as [(q&->&Heq)|(ns'&->&->)]; [|by left; eauto].
  apply app_eq_inv in Heq as [(r&->&->)|(rest&->&->)]; [|by right; right; eauto].
  destruct q as [|x q]; [left; exists []; split; [by rewrite !app_nil_r|done]|].
  destruct r as [|y r].
  - right; right. exists []. rewrite !app_nil_r. by split.
  - right; left. by exists (x :: q), (y :: r).
Qed.

(** One read on a stream whose next content is a frame. *)
Definition read_outcome (p more : bytes) (events : list read_event)
    (r : polled (tresult (option bytes)) * FramedReadState * list read_event) : Prop :=
  let '(res, st, rest) := r in
  Forall live rest ∧
  match res with
  | Ready (Ok (Some packet)) =>
      packet = p ∧ FramedReadState_buffered st ++ event_bytes rest = more ∧
      length rest ≤ length events
  | Pending | Dropped =>
      length rest < length events ∧ rest ≠ [] ∧ ∃ ns, noise ns ∧
      FramedReadState_buffered st ++ event_bytes rest = ns ++ device_frame p ++ more
  | _ => False
  end.

Lemma read_outcome_cons p more e events r :
  read_outcome p more events r → read_outcome p more (e :: events) r.
Proof.
  destruct r as [[[[[]| |]| |] st] rest]; cbn; intros [? ?]; destruct_and?; split_and!; auto; lia.
Qed.

Lemma read_from_frame events b ns p more :
  Forall live events → noise ns → length p ≤ MAX_OUTER_PAYLOAD →
  b ++ event_bytes events = ns ++ device_frame p ++ more →
  read_outcome p more events (read_from b events).
Proof.
  intros Hl. revert b ns. induction Hl as [|e events He Hl IH]; intros b ns Hn Hp Heq;
    apply buffer_cases in Heq as [(ns'&Hns&Hc)|[(q&r&->&Hqr&Hc&Hq&Hr)|(rest&->&->)]].
  - exfalso. cbn in Hc. by destruct ns'.
  - exfalso. cbn in Hc. by destruct r.
  - cbn [read_from]. rewrite discard_noise_prefix by done. cbn [app device_frame].
    rewrite discard_marker. change (DEVICE_FRAME_PREFIX :: _) with (device_frame p ++ rest).
    rewrite decode_device_frame by done. cbn. split_and!; [constructor|done|done|lia].
  - rewrite Hns in Hn. apply Forall_app in Hn as [Hb Hn']. cbn [read_from].
    rewrite discard_noise by done. cbn [OuterDecoder_decode].
    destruct e as [[|x chunk]|e| |]; try done.
    1: apply read_outcome_cons, (IH (x :: chunk) ns'); done.
    all: split; [done|]; cbn; split; [lia|]; split; [|by exists ns'].
    all: intros ->; cbn in Hc; by destruct ns'.
  - cbn [read_from]. rewrite discard_noise_prefix by done.
    destruct q as [|x q]; [done|]. assert (x = DEVICE_FRAME_PREFIX) as -> by (by injection Hqr).
    rewrite discard_marker, decode_marker by done.
    rewrite (decode_frame_partial p _ r) by done.
    destruct e as [[|y chunk]|e| |]; try done.
    1: apply read_outcome_cons, (IH _ []); [constructor|done|]; rewrite <- app_assoc;
      cbn [event_bytes] in Hc; rewrite Hc; by rewrite app_assoc, Hqr.
    all: split; [done|]; cbn [FramedReadState_buffered length]; split; [lia|]; cbn [event_bytes] in Hc.
    all: split; [intros ->; cbn in Hc; by destruct r|]; exists [].
    all: split; [constructor|]; rewrite Hc; by rewrite app_assoc, Hqr.
  - cbn [read_from]. rewrite discard_noise_prefix by done. cbn [app device_frame].
    rewrite discard_marker. change (DEVICE_FRAME_PREFIX :: _) with (device_frame p ++ rest).
    rewrite decode_device_frame by done. cbn [InboundFrame_payload]. split; [by constructor|].
    split_and!; done.
Qed.

(** Nothing but noise is left: the read stays pending. *)
Lemma read_from_noise events b :
  Forall live events → noise (b ++ event_bytes events) →
  let '(res, st, rest) := read_from b events in
  (res = Pending ∨ res = Dropped) ∧ Forall live rest ∧ noise (FramedReadState_buffered st ++ event_bytes rest) ∧
  length rest ≤ length events - 1.
Proof.
  intros Hl. revert b. induction Hl as [|e events He Hl IH]; intros b Hn; cbn [read_from];
    apply Forall_app in Hn as [Hb Hn]; rewrite discard_noise by done; cbn [OuterDecoder_decode].
  { split_and!; [by left|constructor|constructor|cbn; lia]. }
  destruct e as [[|x chunk]|e| |]; try done.
  - specialize (IH (x :: chunk) Hn). cbn [app]. destruct (read_from _ events) as [[res st] rest].
    destruct IH as (?&?&?&?); split_and!; try done. cbn. lia.
  - split_and!; [by left|done|done|cbn; lia].
  - split_and!; [by right|done|done|cbn; lia].
Qed.

(** Reads repeated while something can still arrive; packets collected in order. *)
Fixpoint read_all (fuel : nat) (st : FramedReadState) (events : list read_event) : list bytes :=
  match fuel with
  | 0 => []
  | S fuel =>
      match read_from (FramedReadState_buffered st) events with
      | (Ready (Ok (Some packet)), st, events) => packet :: read_all fuel st events
      | (Pending, st, (_ :: _) as events) | (Dropped, st, (_ :: _) as events) =>
          read_all fuel st events
      | _ => []
      end
  end.

Definition stream_of (segments : list (bytes * bytes)) : bytes :=
  concat ((λ s, s.1 ++ device_frame s.2) <$> segments).

Lemma read_all_noise fuel st events :
  Forall live events → noise (FramedReadState_buffered st ++ event_bytes events) →
  read_all fuel st events = [].
Proof.
  revert st events. induction fuel as [|fuel IH]; intros st events Hl Hn; [done|].
  cbn [read_all]. pose proof (read_from_noise events _ Hl Hn) as H.
  destruct (read_from _ events) as [[res st'] rest]. destruct H as ([Hp|Hp]&?&?&?);
    rewrite Hp; (destruct rest; [done|by apply IH]).
Qed.

Lemma read_all_frames segments fuel st events tl :
  Forall live events → Forall (λ s, noise s.1 ∧ length s.2 ≤ MAX_OUTER_PAYLOAD) segments → noise tl →
  length events + length segments ≤ fuel →
  FramedReadState_buffered st ++ event_bytes events = stream_of segments ++ tl →
  read_all fuel st events = segments.*2.
Proof.
  revert segments st events. induction fuel as [|fuel IH]; intros segments st events Hl Hs Ht Hf Heq.
  { destruct segments; [done|cbn in Hf; lia]. }
  destruct Hs as [|[ns p] segments [Hn Hp] Hs].
  { apply read_all_noise; [done|]. by rewrite Heq. }
  cbn in Hn, Hp. unfold stream_of in Heq. cbn [fmap list_fmap concat fst snd] in Heq.
  rewrite <- !app_assoc in Heq.
  pose proof (read_from_frame events _ ns p _ Hl Hn Hp Heq) as Hr. cbn [read_all].
  destruct (read_from _ events) as [[res st'] rest]. destruct Hr as [Hlr Hr].
  destruct res as [[[packet|]| |]| |]; try done.
  1: destruct Hr as (->&Heq'&Hle); cbn; f_equal; apply (IH segments); try done; cbn in Hf; lia.
  all: destruct Hr as (Hlt&Hne&ns'&Hn'&Heq'); destruct rest as [|e rest]; [done|].
  all: apply (IH ((ns', p) :: segments)); try done; [by constructor|cbn in *; lia|].
  all: rewrite Heq'; unfold stream_of; cbn [fmap list_fmap concat fst snd]; by rewrite <- !app_assoc.
Qed.

Lemma read_from_no_panic b events : (read_from b events).1.1 ≠ Ready Panic.
Proof.
  revert b. induction events as [|e events IH]; intros b; cbn [read_from];
    pose proof (decode_decode_ok (discard_preceding_noise b)) as [_ Hd];
    destruct (OuterDecoder_decode _) as [[[frame|]| |] rest]; cbn in Hd; try done.
  destruct e as [[|x chunk]|e| |]; try done. by case_bool_decide.
Qed.

(** ** The stream of a TCP connection *)

Definition app_frame (payload : bytes) : bytes :=
  [APP_FRAME_PREFIX] ++ u16_to_le_bytes (Z.of_nat (length payload)) ++ payload.

Lemma encode_payload_app p : length p ≤ 300 → encode_payload p = Ok (app_frame p).
Proof.
  intros Hl. unfold encode_payload, OutboundFrame_new, MAX_OUTER_PAYLOAD.
  destruct (Nat.ltb_spec 300 (length p)); [lia|]. cbn [mbind outcome_bind].
  unfold OuterEncoder_encode. cbn [OutboundFrame_payload]. unfold MAX_OUTER_PAYLOAD.
  destruct (Z.leb_spec (2 ^ 16) (Z.of_nat (length p))); [lia|].
  by destruct (Nat.ltb_spec 300 (length p)); [lia|].
Qed.

Lemma validate_payload_Ok p u : validate_payload p = Ok u → length p ≤ 176.
Proof.
  unfold validate_payload, MAX_INNER_PAYLOAD. by destruct (Nat.ltb_spec 176 (length p)); [|intros; lia].
Qed.

(** What a bounded write does to the stream it holds. *)
Lemma write_framed_bounded_spec timeout w rs p :
  length p ≤ 176 →
  let '(res, open, w', rs') := write_framed_bounded timeout true w rs p in
  match res with
  | Ready (Ok _) => open = true ∧ Stream_written w' = Stream_written w ++ app_frame p ∧ rs' = rs
  | Ready (Err _) =>
      open = false ∧ rs' = FramedReadState_new ∧
      ∃ n, Stream_written w' = Stream_written w ++ take n (app_frame p)
  | Dropped =>
      open = true ∧ rs' = rs ∧ ∃ n, Stream_written w' = Stream_written w ++ take n (app_frame p)
  | Ready Panic | Pending => False
  end.
Proof.
  intros Hl. unfold write_framed_bounded, write_framed, validate_payload, MAX_INNER_PAYLOAD.
  cbn [negb]. destruct (Nat.ltb_spec 176 (length p)); [lia|].
  rewrite encode_payload_app by lia.
  destruct (default WriteDone (head (Stream_fates w))); cbn; eauto.
  rewrite take_ge by done. eauto.
Qed.

(** The bytes of the last connection: complete frames of the last packets that
    were sent and at most one incomplete frame behind them. *)
Definition tcp_wire_tail (t : TcpTransport) (last : bytes) : Prop :=
  Forall (λ f, match f with ConnectDone s => Stream_written s = [] | _ => True end)
    (Tcp_connects t) ∧
  ∃ older ps,
    Tcp_sent t = older ++ ps ∧ Forall (λ p, length p ≤ 176) ps ∧
    Stream_written (Tcp_stream t) = concat (app_frame <$> ps) ++ last ∧
    (∃ p, length p ≤ 176 ∧ last `prefix_of` app_frame p).

(** A dropped write leaves the stream held and the last frame incomplete; every
    other operation leaves an incomplete frame only on a stream that is no longer
    held. *)
Definition tcp_wire_torn (t : TcpTransport) : Prop := ∃ last, tcp_wire_tail t last.
Definition tcp_wire_ok (t : TcpTransport) : Prop :=
  ∃ last, tcp_wire_tail t last ∧ (Tcp_open t = true → last = []).

Inductive tcp_op :=
| TcpConnect | TcpDisconnect | TcpWrite (payload : bytes) | TcpRead | TcpTryRead.

(** One operation, with the disconnect that has to follow a write that did not
    come to an end. *)
Definition tcp_run (t : TcpTransport) (op : tcp_op) : TcpTransport :=
  match op with
  | TcpConnect => (transport_connect t).2
  | TcpDisconnect => (transport_disconnect t).2
  | TcpWrite payload =>
      match transport_write t payload with
      | (Ready _, t) => t
      | (_, t) => (transport_disconnect t).2
      end
  | TcpRead => (transport_read t).2
  | TcpTryRead => (transport_try_read t).2
  end.

Lemma tcp_wire_weaken t : tcp_wire_ok t → tcp_wire_torn t.
Proof. intros (last&?&_). by exists last. Qed.

(** A transport that has written nothing. *)
Lemma tcp_wire_fresh t :
  Forall (λ f, match f with ConnectDone s => Stream_written s = [] | _ => True end)
    (Tcp_connects t) →
  Stream_written (Tcp_stream t) = [] → tcp_wire_ok t.
Proof.
  intros Hc Hw. exists []. split; [|done]. split; [done|]. exists (Tcp_sent t), [].
  rewrite app_nil_r. split_and!; [done|constructor|done|].
  exists []. split; [cbn; lia|apply prefix_nil].
Qed.

Lemma tcp_tail_with t last open stream rs connects shutdowns :
  tcp_wire_tail t last → connects `suffix_of` Tcp_connects t →
  Stream_written stream = Stream_written (Tcp_stream t) →
  tcp_wire_tail (tcp_with t open stream rs connects shutdowns (Tcp_sent t)) last.
Proof.
  intros [Hc (older&ps&?&?&Hw&?)] [k Hk] Hs. split.
  - cbn. rewrite Hk in Hc. by apply Forall_app in Hc as [_ ?].
  - exists older, ps. cbn. rewrite Hs. split_and!; auto.
Qed.

Lemma tcp_wire_close t stream rs connects shutdowns :
  tcp_wire_ok t → connects `suffix_of` Tcp_connects t →
  Stream_written stream = Stream_written (Tcp_stream t) →
  ∀ open, (open = true → Tcp_open t = true) →
  tcp_wire_ok (tcp_with t open stream rs connects shutdowns (Tcp_sent t)).
Proof.
  intros (last&Ht&Ho) ? ? open Hopen. exists last. split; [by apply tcp_tail_with|]. cbn. auto.
Qed.

Lemma tcp_connect_wire t : tcp_wire_ok t → tcp_wire_ok (Tcp_connect t).2.
Proof.
  intros Hw. unfold Tcp_connect. destruct (Tcp_open t) eqn:Ho; [done|].
  assert (tail (Tcp_connects t) `suffix_of` Tcp_connects t) as Hsuf.
  { destruct (Tcp_connects t) as [|c cs]; [done|]. by exists [c]. }
  destruct (default ConnectTimeout (head (Tcp_connects t))) eqn:Hf; cbn [snd].
  2,3,4,5: by apply tcp_wire_close.
  destruct Hw as (tl&[Hc (older&ps&Hsent&Hps&_)]&_).
  destruct (Tcp_connects t) as [|c cs] eqn:Hcs; [done|]. cbn in Hf. subst c.
  apply Forall_cons in Hc as [Hfresh Hc]. exists []. split; [|done]. split; [done|]. cbn in *.
  exists (Tcp_sent t), []. cbn. rewrite app_nil_r. split_and!; [done|constructor|done|].
  exists []. split; [cbn; lia|]. apply prefix_nil.
Qed.

Lemma tcp_disconnect_wire t : tcp_wire_torn t → tcp_wire_ok (Tcp_disconnect t).2.
Proof.
  intros [last Hw]. exists last. split; [|unfold Tcp_disconnect; by repeat case_match].
  unfold Tcp_disconnect.
  destruct (negb (Tcp_open t)); [|destruct (default ShutdownDone (head (Tcp_shutdowns t)))]; cbn [snd];
    by apply (tcp_tail_with t _ _ _ _ (Tcp_connects t)).
Qed.

Lemma tcp_read_wire t : tcp_wire_ok t → tcp_wire_ok (Tcp_read t).2.
Proof.
  intros Hw. unfold Tcp_read. destruct (Tcp_open t) eqn:Ho.
  - destruct (read_from _ _) as [[res rs] events].
    destruct res as [[[packet|]|e|]| |]; cbn [snd]; unfold invalidate_on_terminal_read_error;
      try case_match; apply (tcp_wire_close t _ _ (Tcp_connects t)); done.
  - cbn. apply (tcp_wire_close t _ _ (Tcp_connects t)); done.
Qed.

Lemma tcp_try_read_wire t : tcp_wire_ok t → tcp_wire_ok (default_try_read Tcp_read t).2.
Proof.
  intros Hw%tcp_read_wire. unfold default_try_read.
  by destruct (Tcp_read t) as [[[[]| |]| |] t'].
Qed.

Lemma tcp_write_wire t p :
  tcp_wire_ok t →
  match Tcp_write t p with (Ready _, t') => tcp_wire_ok t' | (_, t') => tcp_wire_torn t' end.
Proof.
  intros Hw. unfold Tcp_write. destruct (validate_payload p) as [u| |] eqn:Hv; [|done|done].
  apply validate_payload_Ok in Hv. destruct (Tcp_open t) eqn:Ho.
  2:{ cbn. apply (tcp_wire_close t _ _ (Tcp_connects t)); done. }
  pose proof (write_framed_bounded_spec (debug_Duration (Tcp_timeout t)) (Tcp_stream t) (Tcp_read_state t) p Hv) as Hs.
  destruct (write_framed_bounded _ _ _ _ _) as [[[res open] w] rs].
  destruct Hw as (tl&[Hc (older&ps&Hsent&Hps&Hwr&_)]&Htl). specialize (Htl Ho). subst tl.
  rewrite app_nil_r in Hwr.
  assert (∀ n, Stream_written w = Stream_written (Tcp_stream t) ++ take n (app_frame p) →
    tcp_wire_tail (tcp_with t open w rs (Tcp_connects t) (Tcp_shutdowns t) (Tcp_sent t))
      (take n (app_frame p))) as Htorn.
  { intros n Hw. split; [done|]. exists older, ps. cbn. rewrite Hw, Hwr. split_and!; try done.
    exists p. split; [done|]. apply prefix_take. }
  destruct res as [[[]|e|]| |]; [| |done|done|]; cbn.
  - destruct Hs as (->&Hw&_). exists []. split; [|done]. split; [done|].
    exists older, (ps ++ [p]). cbn. rewrite Hsent, Hw, Hwr.
    split_and!; [by rewrite app_assoc|by apply Forall_app; split; [|constructor]| |].
    + by rewrite fmap_app, concat_app, app_nil_r; cbn; rewrite app_nil_r.
    + exists []. split; [cbn; lia|]. apply prefix_nil.
  - destruct Hs as (->&_&n&Hw). eexists. split; [by apply Htorn|done].
  - destruct Hs as (->&_&n&Hw). eexists. by apply Htorn.
Qed.

Lemma tcp_run_wire t op : tcp_wire_ok t → tcp_wire_ok (tcp_run t op).
Proof.
  intros Hw. destruct op; cbn; auto using tcp_connect_wire, tcp_disconnect_wire, tcp_wire_weaken,
    tcp_read_wire, tcp_try_read_wire.
  pose proof (tcp_write_wire t payload Hw) as Hs.
  destruct (Tcp_write t payload) as [[] t']; auto using tcp_disconnect_wire.
Qed.

(** ** The TCP transport keeps the promises of the interface *)

Lemma tcp_read_sent t : Tcp_sent (Tcp_read t).2 = Tcp_sent t.
Proof.
  unfold Tcp_read. destruct (Tcp_open t); [|done].
  destruct (read_from _ _) as [[[[[]| |]| |] ?] ?]; cbn; try done.
  by destruct (invalidate_on_terminal_read_error _ _ _).
Qed.

Lemma tcp_write_result t p :
  (Tcp_write t p).1 ≠ Ready Panic ∧
  Tcp_sent (Tcp_write t p).2 =
    match (Tcp_write t p).1 with Ready (Ok _) => Tcp_sent t ++ [p] | _ => Tcp_sent t end.
Proof.
  unfold Tcp_write. destruct (validate_payload p) as [u| |] eqn:Hv; [|done|].
  2:{ unfold validate_payload in Hv. by case_match. }
  destruct (Tcp_open t) eqn:Ho; [|done].
  pose proof (write_framed_bounded_spec (debug_Duration (Tcp_timeout t)) (Tcp_stream t) (Tcp_read_state t) p
    (validate_payload_Ok _ _ Hv)) as Hs.
  by destruct (write_framed_bounded _ _ _ _ _) as [[[[[[]|e|]| |] open] w] rs].
Qed.

(** Everything the stream delivers is bytes. *)
Definition bytes_event (e : read_event) : Prop :=
  match e with ReadBytes chunk => is_bytes chunk | _ => True end.
Definition tcp_bytes (t : TcpTransport) : Prop :=
  is_bytes (FramedReadState_buffered (Tcp_read_state t)) ∧
  Forall bytes_event (Stream_incoming (Tcp_stream t)) ∧
  Forall (λ f, match f with ConnectDone s => Forall bytes_event (Stream_incoming s) | _ => True end)
    (Tcp_connects t).

Lemma discard_bytes b : is_bytes b → is_bytes (discard_preceding_noise b).
Proof.
  intros. unfold discard_preceding_noise. repeat case_match; [done|by apply Forall_drop|constructor].
Qed.

Lemma slice_bytes {E} src i j s : is_bytes src → slice (E:=E) src i j = Ok s → is_bytes s.
Proof.
  intros Hs. unfold slice. case_bool_decide; [|done]. intros [= <-]. by apply Forall_take, Forall_drop.
Qed.

Lemma decode_bytes b :
  is_bytes b → is_bytes (OuterDecoder_decode b).2 ∧
  ∀ f, (OuterDecoder_decode b).1 = Ok (Some f) → is_bytes (InboundFrame_payload f).
Proof.
  intros Hb. split.
  { destruct (decode_decode_ok b) as [[k ->] _]. by apply Forall_drop. }
  intros f. unfold OuterDecoder_decode. destruct b as [|x b]; [done|]. cbv zeta.
  set (src := if (_ <? _) && (_ <? _) then drop _ _ else _).
  assert (is_bytes src) as Hs by (unfold src; case_match; [by apply Forall_drop|done]).
  case_match; [done|]. unfold decode_frame. repeat case_match; try done; intros [= <-].
  all: cbn; by eapply slice_bytes.
Qed.

Lemma read_from_bytes b events :
  is_bytes b → Forall bytes_event events →
  let '(r, st, rest) := read_from b events in
  is_bytes (FramedReadState_buffered st) ∧ Forall bytes_event rest ∧
  match r with Ready (Ok (Some p)) => is_bytes p | _ => True end.
Proof.
  intros Hb He. revert b Hb. induction He as [|e events He Hes IH]; intros b Hb; cbn [read_from];
    destruct (decode_bytes _ (discard_bytes _ Hb)) as [Hd Hf];
    destruct (OuterDecoder_decode _) as [[[frame|]| |] rest]; cbn in *;
    try (split_and!; [done|by constructor|done || by apply Hf]).
  destruct e as [[|x chunk]|e| |]; [case_bool_decide| | | |]; try (split_and!; [done || constructor|done|done]).
  apply IH. by apply is_bytes_app.
Qed.

Ltac tcp_split := unfold tcp_bytes in *; cbn in *; split_and!; try done; try constructor.

Lemma tcp_read_bytes t :
  tcp_bytes t → tcp_bytes (Tcp_read t).2 ∧
  match (Tcp_read t).1 with Ready (Ok (Some p)) => is_bytes p | Ready Panic => False | _ => True end.
Proof.
  intros (Hb&Hi&Hc). unfold Tcp_read. destruct (Tcp_open t); [|by tcp_split].
  pose proof (read_from_bytes _ _ Hb Hi) as Hr.
  pose proof (read_from_no_panic (FramedReadState_buffered (Tcp_read_state t))
    (Stream_incoming (Tcp_stream t))) as Hp.
  destruct (read_from _ _) as [[r st] rest]. destruct Hr as (?&?&?).
  destruct r as [[[p|]|e|]| |]; [tcp_split|tcp_split| |done|tcp_split..].
  unfold invalidate_on_terminal_read_error. destruct (is_terminal_read_error e); tcp_split.
Qed.

Lemma tcp_connect_sent t : Tcp_sent (Tcp_connect t).2 = Tcp_sent t.
Proof. unfold Tcp_connect. destruct (Tcp_open t); [done|]. by destruct (default ConnectTimeout (head (Tcp_connects t))). Qed.
Lemma tcp_disconnect_sent t : Tcp_sent (Tcp_disconnect t).2 = Tcp_sent t.
Proof.
  unfold Tcp_disconnect. destruct (Tcp_open t); [|done]. cbn.
  by destruct (default ShutdownDone (head (Tcp_shutdowns t))).
Qed.
Lemma tcp_connect_bytes t : tcp_bytes t → tcp_bytes (Tcp_connect t).2 ∧ (Tcp_connect t).1 ≠ Ready Panic.
Proof.
  intros (Hb&Hi&Hc). unfold Tcp_connect. destruct (Tcp_open t); [done|].
  destruct (Tcp_connects t) as [|f fs]; cbn; [tcp_split|].
  apply Forall_cons in Hc as [Hf Hfs]. destruct f; tcp_split.
Qed.
Lemma tcp_disconnect_bytes t : tcp_bytes t → tcp_bytes (Tcp_disconnect t).2 ∧ (Tcp_disconnect t).1 ≠ Ready Panic.
Proof.
  intros (Hb&Hi&Hc). unfold Tcp_disconnect. destruct (Tcp_open t); cbn; [|tcp_split].
  destruct (default ShutdownDone (head (Tcp_shutdowns t))); tcp_split.
Qed.

#[global] Program Instance Tcp_observed : ObservedTransport TcpTransport := {
  transport_sent := Tcp_sent;
  transport_wf := tcp_bytes
}.
Next Obligation. apply tcp_connect_sent. Qed.
Next Obligation. apply tcp_disconnect_sent. Qed.
Next Obligation.
  intros t. apply (default_reconnect_keeps (λ _, True) (λ t', Tcp_sent t' = Tcp_sent t)); [|intros t' <-|done];
    by rewrite ?tcp_disconnect_sent, ?tcp_connect_sent.
Qed.
Next Obligation. intros t. apply tcp_read_sent. Qed.
Next Obligation.
  intros t. cbn. pose proof (tcp_read_sent t). unfold default_try_read.
  by destruct (Tcp_read t) as [[[[]| |]| |] t'].
Qed.
Next Obligation. intros t p. apply tcp_write_result. Qed.
Next Obligation. apply tcp_connect_bytes. Qed.
Next Obligation. apply tcp_disconnect_bytes. Qed.
Next Obligation.
  intros t. apply (default_reconnect_keeps (λ r, r ≠ Ready Panic)); [apply tcp_disconnect_bytes|apply tcp_connect_bytes].
Qed.
Next Obligation.
  intros t p (Hb&Hi&Hc). split; [|apply tcp_write_result]. cbn. unfold Tcp_write.
  destruct (validate_payload p); [|done|done]. unfold write_framed_bounded.
  destruct (Tcp_open t); [|done]. cbn [negb].
  assert (∀ w q, Stream_incoming (write_framed w q).2 = Stream_incoming w) as Hw.
  { intros w q. unfold write_framed. by repeat case_match. }
  specialize (Hw (Tcp_stream t) p). destruct (write_framed _ _) as [[[]| |] w]; cbn in *;
    repeat case_match; unfold tcp_bytes; cbn; rewrite ?Hw; tcp_split.
Qed.
Next Obligation. intros t. apply tcp_read_bytes. Qed.
Next Obligation.
  intros t [? ?]%tcp_read_bytes. cbn. unfold default_try_read.
  by destruct (Tcp_read t) as [[[[]| |]| |] t'].
Qed.

(** The bytes still to be read bound the packets still to come. *)
Lemma decode_left b :
  length (OuterDecoder_decode b).2 ≤ length b ∧
  ∀ f, (OuterDecoder_decode b).1 = Ok (Some f) → length (OuterDecoder_decode b).2 < length b.
Proof.
  destruct (decode_decode_ok b) as [[k Hk] Hr]. split; [rewrite Hk, length_drop; lia|].
  intros f Hf. rewrite Hf in Hr. lia.
Qed.

Lemma discard_left b : length (discard_preceding_noise b) ≤ length b.
Proof. unfold discard_preceding_noise. repeat case_match; rewrite ?length_drop; cbn; lia. Qed.

Lemma read_from_left b events :
  let '(r, st, rest) := read_from b events in
  let left := length (FramedReadState_buffered st) + length (event_bytes rest) in
  let before := length b + length (event_bytes events) in
  match r with Ready (Ok (Some _)) => left < before | _ => left ≤ before end.
Proof.
  revert b. induction events as [|e events IH]; intros b; cbn [read_from];
    pose proof (discard_left b); destruct (decode_left (discard_preceding_noise b)) as [Hd Hs];
    destruct (OuterDecoder_decode _) as [[[frame|]| |] rest]; cbn in Hd, Hs;
    try specialize (Hs _ eq_refl); cbn [FramedReadState_buffered event_bytes length]; try lia.
  destruct e as [[|x chunk]|e| |]; [case_bool_decide| | | |];
    cbn [FramedReadState_buffered event_bytes length app]; try lia.
  specialize (IH (rest ++ x :: chunk)). destruct (read_from _ events) as [[r st] rest'].
  rewrite length_app in IH. rewrite length_app. cbn [length] in *.
  destruct r as [[[]| |]| |]; cbn zeta in *; lia.
Qed.

(** The bytes of the streams still to be connected. *)
Definition connects_left (connects : list connect_fate) : nat :=
  sum_list_with (λ fate,
    match fate with
    | ConnectDone stream => length (event_bytes (Stream_incoming stream))
    | _ => 0
    end) connects.
#[local] Arguments connects_left : simpl never.

Definition tcp_left (t : TcpTransport) : nat :=
  length (FramedReadState_buffered (Tcp_read_state t))
  + length (event_bytes (Stream_incoming (Tcp_stream t)))
  + connects_left (Tcp_connects t).

Lemma tcp_read_left t :
  match Tcp_read t with
  | (Ready (Ok (Some _)), t') => tcp_left t' < tcp_left t
  | (_, t') => tcp_left t' ≤ tcp_left t
  end.
Proof.
  unfold Tcp_read, tcp_left. destruct (Tcp_open t); [|cbn; lia].
  pose proof (read_from_left (FramedReadState_buffered (Tcp_read_state t))
    (Stream_incoming (Tcp_stream t))) as Hl.
  destruct (read_from _ _) as [[r st] rest]. cbn zeta in Hl.
  destruct r as [[[p|]|e|]| |]; cbn; try lia.
  unfold invalidate_on_terminal_read_error. destruct (is_terminal_read_error e); cbn; lia.
Qed.

Lemma tcp_connect_left t : tcp_left (Tcp_connect t).2 ≤ tcp_left t.
Proof.
  unfold Tcp_connect, tcp_left. destruct (Tcp_open t); [done|].
  destruct (Tcp_connects t) as [|[s| |e|e|] fates]; unfold connects_left; cbn; lia.
Qed.
Lemma tcp_disconnect_left t : tcp_left (Tcp_disconnect t).2 ≤ tcp_left t.
Proof.
  unfold Tcp_disconnect, tcp_left. destruct (Tcp_open t); cbn; [|lia].
  destruct (Tcp_shutdowns t) as [|[] fates]; cbn; lia.
Qed.

#[global] Program Instance Tcp_finite : FiniteTransport TcpTransport := {
  transport_left := tcp_left
}.
Next Obligation. apply tcp_read_left. Qed.
Next Obligation.
  intros t p. cbn. unfold Tcp_write, tcp_left. destruct (validate_payload p); [|done|done].
  unfold write_framed_bounded. destruct (Tcp_open t); [|done]. cbn [negb].
  assert (Stream_incoming (write_framed (Tcp_stream t) p).2 = Stream_incoming (Tcp_stream t)) as Hw.
  { unfold write_framed. by repeat case_match. }
  destruct (write_framed _ _) as [[[u|e|]| |] w]; cbn in Hw; cbn [negb is_Err snd transport_left
    tcp_with Tcp_read_state Tcp_stream Tcp_connects]; rewrite Hw; cbn; lia.
Qed.
Next Obligation.
  intros t. pose proof (tcp_read_left t) as Hl. cbn. unfold default_try_read.
  destruct (Tcp_read t) as [[[[p|]|e|]| |] t']; cbn in *; lia.
Qed.
Next Obligation. apply tcp_connect_left. Qed.
Next Obligation. apply tcp_disconnect_left. Qed.
Next Obligation.
  intros t. apply (default_reconnect_keeps (λ _, True) (λ t', tcp_left t' ≤ tcp_left t)); [|intros t' Ht'|done].
  - intros _. pose proof (tcp_disconnect_left t). by split.
  - pose proof (tcp_connect_left t'). split; [lia|done].
Qed.

#[global] Program Instance Tcp_clean : CleanTransport TcpTransport := {
  transport_torn := tcp_wire_torn;
  transport_clean := tcp_wire_ok
}.
Next Obligation. apply tcp_wire_weaken. Qed.
Next Obligation. apply tcp_connect_wire. Qed.
Next Obligation. apply tcp_disconnect_wire. Qed.
Next Obligation.
  intros t Ht%tcp_disconnect_wire. unfold transport_reconnect, Tcp_transport, default_reconnect.
  destruct (Tcp_disconnect t) as [[[]| |] t']; [by apply tcp_connect_wire|done..].
Qed.
Next Obligation. apply tcp_read_wire. Qed.
Next Obligation. apply tcp_try_read_wire. Qed.
Next Obligation. intros t p Ht. by apply (tcp_write_wire t p). Qed.

(** ** Properties *)

(** C10: however the bytes of a stream are cut into reads, and wherever a read
    is dropped while it is pending, the packets delivered are exactly the
    payloads of the frames on the stream, in order, with any noise between the
    frames skipped. *)
Theorem framed_stream_delivery segments events tl :
  Forall live events →
  Forall (λ s, noise s.1 ∧ length s.2 ≤ 300) segments → noise tl →
  event_bytes events = stream_of segments ++ tl →
  read_all (length events + length segments) FramedReadState_new events = segments.*2.
Proof. intros. by apply (read_all_frames segments _ _ _ tl). Qed.

(** at the end of the stream a reader that holds only noise reports a clean
    close; one that holds the beginning of a frame reports how many bytes were
    lost and starts over empty. *)
Theorem framed_stream_end ns p q r events :
  noise ns → length p ≤ 300 → q ++ r = device_frame p → r ≠ [] →
  read_from (ns ++ q) (ReadBytes [] :: events)
  = if bool_decide (q = []) then (Ready (Ok None), FramedReadState_new, events)
    else (Ready (Err (unexpected_eof (length q))), FramedReadState_new, events).
Proof.
  intros Hn Hp Hqr Hr. cbn [read_from]. rewrite discard_noise_prefix by done.
  destruct q as [|x q]; [done|]. assert (x = DEVICE_FRAME_PREFIX) as -> by (by injection Hqr).
  rewrite discard_marker, decode_marker by done.
  by rewrite (decode_frame_partial p _ r) by done.
Qed.

(** after any sequence of operations, in which a write that is cancelled
    is followed by a disconnect, the peer of a TCP connection has received
    complete application frames of the last packets sent, in order; only after
    the transport has let go of the stream can one incomplete frame follow them,
    so no later packet is ever appended to a torn one. *)
Theorem tcp_wire_invariant t ops :
  tcp_wire_ok t → tcp_wire_ok (fold_left tcp_run ops t).
Proof.
  revert t. induction ops as [|op ops IH]; intros t Hw; [done|].
  cbn. by apply IH, tcp_run_wire.
Qed.

Lemma framed_stream_delivery_witness :
  read_all 5 FramedReadState_new
    [ReadBytes [153; 62; 2]%Z; ReadDropped; ReadBytes [0; 1; 2; 62; 1; 0; 3]%Z]
  = [[1; 2]%Z; [3]%Z].
Proof.
  apply (framed_stream_delivery [([153]%Z, [1; 2]%Z); ([], [3]%Z)]
           [ReadBytes [153; 62; 2]%Z; ReadDropped; ReadBytes [0; 1; 2; 62; 1; 0; 3]%Z] []).
  - repeat constructor; discriminate.
  - repeat constructor; cbn; try lia; discriminate.
  - constructor.
  - reflexivity.
Defined.

Lemma framed_stream_end_witness :
  read_from ([7]%Z ++ [62; 2]%Z) [ReadBytes []]
  = (Ready (Err (unexpected_eof 2)), FramedReadState_new, []).
Proof.
  apply (framed_stream_end [7]%Z [1; 2]%Z [62; 2]%Z [0; 1; 2]%Z []).
  - repeat constructor; discriminate.
  - cbn. lia.
  - reflexivity.
  - discriminate.
Defined.

Definition sample_tcp : TcpTransport :=
  mkTcp "node" 5000 (5 * NANOS_PER_SEC) false (mkStream [] [] []) FramedReadState_new
    [ConnectDone (mkStream [] [WriteDone; WriteDropped 2] [])] [] [].

Lemma tcp_wire_invariant_witness :
  tcp_wire_ok (fold_left tcp_run [TcpConnect; TcpWrite [1]%Z; TcpWrite [2]%Z; TcpWrite [3]%Z] sample_tcp).
Proof.
  apply (tcp_wire_invariant sample_tcp).
  apply tcp_wire_fresh; [repeat constructor|reflexivity].
Defined.
