(* ===== verification/Serial.v ===== *)
(** * The serial transport (crates/meshquill-transport/src/serial.rs)

    [SerialTransport] frames packets over a serial line the way the TCP transport
    does over a socket; its definitions are written out as the source has them,
    and [serial_simulates_tcp] shows that the two differ in nothing but the text
    of their errors, which gives the laws of the interface.  The second half is
    the enumeration of ports. *)

From Stdlib Require Import Sorted.
From S2P Require Import Prelude Text Order Domain Packet Framing Transport Discovery Framed.

Definition DEFAULT_SERIAL_BAUD : u32 := 115200.

(** ** What the provider reports *)

Inductive SerialErrorKind :=
| Serial_NoDevice | Serial_InvalidInput | Serial_Unknown | Serial_Io (kind : IoErrorKind).
Record SerialError := mkSerialError {
  SerialError_kind : SerialErrorKind;
  SerialError_description : string
}.

(** What opening the port in the blocking worker does. *)
Inductive open_fate :=
| OpenDone (stream : Stream)
| OpenFailed (error : SerialError)
| OpenWorkerFailed (message : string)
| OpenTimeout
| OpenDropped.

(** ** Errors *)

Definition provider_error_kind (error : SerialError) : IoErrorKind :=
  match SerialError_kind error with
  | Serial_NoDevice => NotFound
  | Serial_InvalidInput => InvalidInput
  | Serial_Io kind => kind
  | Serial_Unknown => OtherKind
  end.
Definition serial_provider_error (error : SerialError) (operation port : string) : IoError :=
  mkIoError (provider_error_kind error)
    ("serial " +:+ operation +:+ " for '" +:+ port +:+ "' failed: " +:+ SerialError_description error
       +:+ "; check the device path, permissions, and whether another process holds the port").

Definition serial_timeout (operation port : string) (timeout : Z) : TransportError :=
  TransportError_Io (mkIoError TimedOut
    ("serial " +:+ operation +:+ " for '" +:+ port +:+ "' timed out after " +:+ debug_Duration timeout)).

Definition serial_contextual_io (error : IoError) (operation port : string) : IoError :=
  mkIoError (IoError_kind error)
    ("serial " +:+ operation +:+ " '" +:+ port +:+ "' failed: " +:+ IoError_message error).
Definition serial_contextual_transport (error : TransportError) (operation port : string) : TransportError :=
  match error with
  | TransportError_Io error => TransportError_Io (serial_contextual_io error operation port)
  | other => other
  end.

(** ** The transport *)

Record SerialTransport := mkSerial {
  Serial_port : string;
  Serial_baud : u32;
  Serial_connect_timeout : Z;
  Serial_open : bool;                (* [stream.is_some()] *)
  Serial_stream : Stream;            (* the stream last held *)
  Serial_read_state : FramedReadState;
  Serial_opens : list open_fate;     (* what the provider will do *)
  Serial_shutdowns : list shutdown_fate;
  Serial_sent : list bytes           (* the payloads of completed writes *)
}.

Definition serial_with (t : SerialTransport) (open : bool) (stream : Stream) (rs : FramedReadState)
    (opens : list open_fate) (shutdowns : list shutdown_fate) (sent : list bytes) : SerialTransport :=
  mkSerial (Serial_port t) (Serial_baud t) (Serial_connect_timeout t) open stream rs opens shutdowns sent.

Definition SerialTransport_new (port : string) (baud : u32) (connect_timeout : Z)
    (opens : list open_fate) (shutdowns : list shutdown_fate) : outcome TargetError SerialTransport :=
  _ ← Target_validate (Target_Serial port baud);
  _ ← validate_timeout "connect_timeout" connect_timeout;
  Ok (mkSerial port baud connect_timeout false (mkStream [] [] []) FramedReadState_new opens shutdowns []).

Definition Serial_target (t : SerialTransport) : TransportTarget :=
  Target_Serial (Serial_port t) (Serial_baud t).

Definition Serial_connect (t : SerialTransport) : polled (tresult ()) * SerialTransport :=
  if Serial_open t then
    (Ready (Err (TransportError_Io (mkIoError AlreadyExists
       ("serial port '" +:+ Serial_port t
          +:+ "' is already connected; disconnect before connecting again")))), t)
  else
    let closed := serial_with t false (Serial_stream t) (FramedReadState_reset (Serial_read_state t))
                    (tail (Serial_opens t)) (Serial_shutdowns t) (Serial_sent t) in
    match default OpenTimeout (head (Serial_opens t)) with
    | OpenDone stream =>
        (Ready (Ok ()), serial_with closed true stream (Serial_read_state closed) (Serial_opens closed)
                          (Serial_shutdowns closed) (Serial_sent closed))
    | OpenFailed e =>
        (Ready (Err (TransportError_Io (serial_provider_error e "open" (Serial_port t)))), closed)
    | OpenWorkerFailed message =>
        (Ready (Err (TransportError_Io (mkIoError OtherKind
           ("serial open worker for '" +:+ Serial_port t +:+ "' failed: " +:+ message)))), closed)
    | OpenTimeout =>
        (Ready (Err (serial_timeout "open" (Serial_port t) (Serial_connect_timeout t))), closed)
    | OpenDropped => (Dropped, closed)
    end.

Definition Serial_disconnect (t : SerialTransport) : polled (tresult ()) * SerialTransport :=
  let rs := FramedReadState_reset (Serial_read_state t) in
  if negb (Serial_open t) then
    (Ready (Ok ()),
     serial_with t false (Serial_stream t) rs (Serial_opens t) (Serial_shutdowns t) (Serial_sent t))
  else
    let closed := serial_with t false (Serial_stream t) rs (Serial_opens t) (tail (Serial_shutdowns t))
                    (Serial_sent t) in
    match default ShutdownDone (head (Serial_shutdowns t)) with
    | ShutdownDone => (Ready (Ok ()), closed)
    | ShutdownTimeout =>
        (Ready (Err (serial_timeout "close" (Serial_port t) (Serial_connect_timeout t))), closed)
    | ShutdownFailed e =>
        (Ready (Err (TransportError_Io (serial_contextual_io e "close" (Serial_port t)))), closed)
    | ShutdownPending => (Pending, closed)
    | ShutdownDropped => (Dropped, closed)
    end.

Definition Serial_write (t : SerialTransport) (payload : bytes) : polled (tresult ()) * SerialTransport :=
  match validate_payload payload with
  | Ok _ =>
      let '(result, open, stream, rs) :=
        write_framed_bounded (debug_Duration (Serial_connect_timeout t)) (Serial_open t)
          (Serial_stream t) (Serial_read_state t) payload in
      let after sent := serial_with t open stream rs (Serial_opens t) (Serial_shutdowns t) sent in
      match result with
      | Ready result =>
          (Ready (map_err (λ e, serial_contextual_transport e "write to" (Serial_port t)) result),
           after (if is_Ok result then Serial_sent t ++ [payload] else Serial_sent t))
      | Pending => (Pending, after (Serial_sent t))
      | Dropped => (Dropped, after (Serial_sent t))
      end
  | r => (Ready r, t)
  end.

Definition Serial_read (t : SerialTransport) : polled (tresult (option bytes)) * SerialTransport :=
  let '(result, rs, stream) :=
    if Serial_open t then
      let '(result, rs, events) :=
        read_from (FramedReadState_buffered (Serial_read_state t)) (Stream_incoming (Serial_stream t)) in
      (result, rs, mkStream events (Stream_fates (Serial_stream t)) (Stream_written (Serial_stream t)))
    else (Ready (Err TransportError_NotConnected), Serial_read_state t, Serial_stream t) in
  let after open rs :=
    serial_with t open stream rs (Serial_opens t) (Serial_shutdowns t) (Serial_sent t) in
  match result with
  | Pending => (Pending, after (Serial_open t) rs)
  | Dropped => (Dropped, after (Serial_open t) rs)
  | Ready (Ok None) => (Ready (Ok None), after false (FramedReadState_reset rs))
  | Ready (Ok packet) => (Ready (Ok packet), after (Serial_open t) rs)
  | Ready (Err error) =>
      let '(open, rs) := invalidate_on_terminal_read_error (Serial_open t) rs error in
      (Ready (Err (serial_contextual_transport error "read from" (Serial_port t))), after open rs)
  | Ready Panic => (Ready Panic, after (Serial_open t) rs)
  end.

#[global] Instance Serial_transport : Transport SerialTransport := {
  transport_kind := λ _, TransportKind_Serial;
  transport_connect := Serial_connect;
  transport_disconnect := Serial_disconnect;
  transport_write := Serial_write;
  transport_read := Serial_read;
  transport_try_read := default_try_read Serial_read;
  transport_reconnect := default_reconnect Serial_disconnect Serial_connect
}.

(** ** The transport simulates TCP *)

(** The same line, seen as a socket. *)
Definition socket_fate (fate : open_fate) : connect_fate :=
  match fate with
  | OpenDone stream => ConnectDone stream
  | OpenFailed e => ConnectFailed (mkIoError (provider_error_kind e) (SerialError_description e))
  | OpenWorkerFailed message => ConnectFailed (mkIoError OtherKind message)
  | OpenTimeout => ConnectTimeout
  | OpenDropped => ConnectDropped
  end.
Definition as_tcp (t : SerialTransport) : TcpTransport :=
  mkTcp (Serial_port t) 0 (Serial_connect_timeout t) (Serial_open t) (Serial_stream t)
    (Serial_read_state t) (socket_fate <$> Serial_opens t) (Serial_shutdowns t) (Serial_sent t).

(** An error without its text. *)
Definition untold (e : TransportError) : TransportError :=
  match e with
  | TransportError_Io error => TransportError_Io (mkIoError (IoError_kind error) "")
  | e => e
  end.
Definition told_alike {A} (r s : polled (tresult A)) : Prop :=
  match r, s with
  | Ready r, Ready s => map_err untold r = map_err untold s
  | Pending, Pending | Dropped, Dropped => True
  | _, _ => False
  end.
(** A serial call and a TCP call with the same effect and results of the same
    kind. *)
Definition alike {A} (s : polled (tresult A) * SerialTransport) (t : polled (tresult A) * TcpTransport) : Prop :=
  told_alike s.1 t.1 ∧ as_tcp s.2 = t.2.

Lemma untold_contexts e op port op' endpoint :
  untold (serial_contextual_transport e op port) = untold (contextual_transport e op' endpoint).
Proof. by destruct e. Qed.

Lemma serial_connect_alike t : alike (Serial_connect t) (Tcp_connect (as_tcp t)).
Proof.
  unfold Serial_connect, Tcp_connect. simpl. destruct (Serial_open t); [done|].
  destruct (Serial_opens t) as [|[s|e|m| |] fates]; done.
Qed.

Lemma serial_disconnect_alike t : alike (Serial_disconnect t) (Tcp_disconnect (as_tcp t)).
Proof.
  unfold Serial_disconnect, Tcp_disconnect. simpl. destruct (Serial_open t); [|done]. simpl.
  destruct (Serial_shutdowns t) as [|[] fates]; done.
Qed.

Lemma serial_write_alike t p : alike (Serial_write t p) (Tcp_write (as_tcp t) p).
Proof.
  unfold Serial_write, Tcp_write. destruct (validate_payload p); [|done..].
  simpl. destruct (write_framed_bounded _ _ _ _ _) as [[[res open] stream] rs].
  destruct res as [[u|e|]| |]; (split; [|done]); simpl; try done. f_equal. apply untold_contexts.
Qed.

Lemma serial_read_alike t : alike (Serial_read t) (Tcp_read (as_tcp t)).
Proof.
  unfold Serial_read, Tcp_read. simpl. destruct (Serial_open t); [|done].
  destruct (read_from _ _) as [[res rs] events].
  destruct res as [[[p|]|e|]| |]; try done. simpl.
  destruct (invalidate_on_terminal_read_error _ _ _) as [open rs']. split; [|done].
  simpl. f_equal. apply untold_contexts.
Qed.

Lemma serial_try_read_alike t :
  let s := default_try_read Serial_read t in let u := default_try_read Tcp_read (as_tcp t) in
  map_err untold s.1 = map_err untold u.1 ∧ as_tcp s.2 = u.2.
Proof.
  destruct (serial_read_alike t) as [Hr Ht]. unfold default_try_read.
  destruct (Serial_read t) as [[[[p|]|e|]| |] s], (Tcp_read (as_tcp t)) as [[[[q|]|f|]| |] u];
    simpl in *; try done; (split; [congruence|done]).
Qed.

Lemma serial_reconnect_alike t : alike (default_reconnect Serial_disconnect Serial_connect t)
  (default_reconnect Tcp_disconnect Tcp_connect (as_tcp t)).
Proof.
  destruct (serial_disconnect_alike t) as [Hr Ht]. unfold default_reconnect.
  destruct (Serial_disconnect t) as [r t1], (Tcp_disconnect (as_tcp t)) as [s u1]. simpl in Hr, Ht. subst u1.
  destruct r as [[]| |], s as [[]| |]; simpl in Hr; try done. apply serial_connect_alike.
Qed.

Inductive line_op :=
| LineConnect | LineDisconnect | LineReconnect | LineWrite (payload : bytes) | LineRead | LineTryRead.

(** What a caller learns from a call, texts aside. *)
Inductive answer :=
| Answer_Unit (r : polled (tresult ()))
| Answer_Packet (r : polled (tresult (option bytes)))
| Answer_Ready (r : tresult ReadyRead).
Definition answers_alike (a b : answer) : Prop :=
  match a, b with
  | Answer_Unit r, Answer_Unit s => told_alike r s
  | Answer_Packet r, Answer_Packet s => told_alike r s
  | Answer_Ready r, Answer_Ready s => map_err untold r = map_err untold s
  | _, _ => False
  end.
Definition line_call `{Transport T} (op : line_op) (t : T) : answer * T :=
  match op with
  | LineConnect => let '(r, t) := transport_connect t in (Answer_Unit r, t)
  | LineDisconnect => let '(r, t) := transport_disconnect t in (Answer_Unit r, t)
  | LineReconnect => let '(r, t) := transport_reconnect t in (Answer_Unit r, t)
  | LineWrite payload => let '(r, t) := transport_write t payload in (Answer_Unit r, t)
  | LineRead => let '(r, t) := transport_read t in (Answer_Packet r, t)
  | LineTryRead => let '(r, t) := transport_try_read t in (Answer_Ready r, t)
  end.
Fixpoint line_calls `{Transport T} (ops : list line_op) (t : T) : list answer * T :=
  match ops with
  | [] => ([], t)
  | op :: ops =>
      let '(a, t) := line_call op t in
      let '(answers, t) := line_calls ops t in (a :: answers, t)
  end.

Lemma line_call_alike op t :
  answers_alike (line_call op t).1 (line_call op (as_tcp t)).1 ∧
  as_tcp (line_call op t).2 = (line_call op (as_tcp t)).2.
Proof.
  destruct op as [| | |p| |]; simpl.
  - destruct (serial_connect_alike t). by destruct (Serial_connect t), (Tcp_connect (as_tcp t)).
  - destruct (serial_disconnect_alike t). by destruct (Serial_disconnect t), (Tcp_disconnect (as_tcp t)).
  - destruct (serial_reconnect_alike t).
    by destruct (default_reconnect Serial_disconnect Serial_connect t), (default_reconnect Tcp_disconnect Tcp_connect (as_tcp t)).
  - destruct (serial_write_alike t p). by destruct (Serial_write t p), (Tcp_write (as_tcp t) p).
  - destruct (serial_read_alike t). by destruct (Serial_read t), (Tcp_read (as_tcp t)).
  - destruct (serial_try_read_alike t).
    by destruct (default_try_read Serial_read t), (default_try_read Tcp_read (as_tcp t)).
Qed.

(** C29: whatever is asked of a serial transport, it answers and leaves its
    line as a TCP transport over the same bytes would; only the texts of errors
    differ. *)
Theorem serial_simulates_tcp ops t :
  Forall2 answers_alike (line_calls ops t).1 (line_calls ops (as_tcp t)).1 ∧
  as_tcp (line_calls ops t).2 = (line_calls ops (as_tcp t)).2.
Proof.
  revert t. induction ops as [|op ops IH]; intros t; simpl; [by split|].
  destruct (line_call_alike op t) as [Ha Ht].
  destruct (line_call op t) as [a t1], (line_call op (as_tcp t)) as [b u1]. simpl in Ha, Ht. subst u1.
  specialize (IH t1). destruct (line_calls ops t1), (line_calls ops (as_tcp t1)). simpl in *.
  destruct IH. by split; [constructor|].
Qed.

(** ** The laws of the interface *)

Opaque as_tcp.
Ltac via_tcp Ht law :=
  simpl in *; rewrite Ht; let H := fresh in pose proof law as H; simpl in H; exact H.

Lemma serial_ready_panic {A} (r s : polled (tresult A)) : told_alike r s → r = Ready Panic → s = Ready Panic.
Proof. intros H ->. by destruct s as [[]| |]; simpl in H. Qed.

#[global] Program Instance Serial_observed : ObservedTransport SerialTransport := {
  transport_sent t := transport_sent (as_tcp t);
  transport_wf t := transport_wf (as_tcp t)
}.
Next Obligation. intros t. destruct (serial_connect_alike t) as [_ Ht]. via_tcp Ht (connect_sent (as_tcp t)). Qed.
Next Obligation. intros t. destruct (serial_disconnect_alike t) as [_ Ht]. via_tcp Ht (disconnect_sent (as_tcp t)). Qed.
Next Obligation. intros t. destruct (serial_reconnect_alike t) as [_ Ht]. via_tcp Ht (reconnect_sent (as_tcp t)). Qed.
Next Obligation. intros t. destruct (serial_read_alike t) as [_ Ht]. via_tcp Ht (read_sent (as_tcp t)). Qed.
Next Obligation. intros t. destruct (serial_try_read_alike t) as [_ Ht]. via_tcp Ht (try_read_sent (as_tcp t)). Qed.
Next Obligation.
  intros t p. destruct (serial_write_alike t p) as [Hr Ht]. simpl in *. rewrite Ht.
  pose proof (write_sent (as_tcp t) p) as Hw. simpl in Hw. rewrite Hw.
  destruct (Serial_write t p).1 as [[]| |], (Tcp_write (as_tcp t) p).1 as [[]| |]; done.
Qed.
Next Obligation.
  intros t Hw. destruct (serial_connect_alike t) as [Hr Ht], (connect_wf (as_tcp t) Hw) as [Hc Hp]. simpl in *.
  rewrite Ht. eauto using serial_ready_panic.
Qed.
Next Obligation.
  intros t Hw. destruct (serial_disconnect_alike t) as [Hr Ht], (disconnect_wf (as_tcp t) Hw) as [Hc Hp].
  simpl in *. rewrite Ht. eauto using serial_ready_panic.
Qed.
Next Obligation.
  intros t Hw. destruct (serial_reconnect_alike t) as [Hr Ht], (reconnect_wf (as_tcp t) Hw) as [Hc Hp].
  simpl in *. rewrite Ht. eauto using serial_ready_panic.
Qed.
Next Obligation.
  intros t p Hw. destruct (serial_write_alike t p) as [Hr Ht], (write_wf (as_tcp t) p Hw) as [Hc Hp]. simpl in *.
  rewrite Ht. eauto using serial_ready_panic.
Qed.
Next Obligation.
  intros t Hw. destruct (serial_read_alike t) as [Hr Ht], (read_wf (as_tcp t) Hw) as [Hc Hp]. simpl in *.
  rewrite Ht. split; [done|].
  destruct (Serial_read t).1 as [[[p|]| |]| |], (Tcp_read (as_tcp t)).1 as [[[q|]| |]| |]; simpl in Hr; try done.
  by injection Hr as ->.
Qed.
Next Obligation.
  intros t Hw. destruct (serial_try_read_alike t) as [Hr Ht], (try_read_wf (as_tcp t) Hw) as [Hc Hp]. simpl in *.
  rewrite Ht. split; [done|].
  destruct (default_try_read Serial_read t).1 as [[| |p]| |], (default_try_read Tcp_read (as_tcp t)).1 as [[| |q]| |];
    simpl in Hr; try done.
  by injection Hr as ->.
Qed.
#[global] Program Instance Serial_finite : FiniteTransport SerialTransport := {
  transport_left t := transport_left (as_tcp t)
}.
Next Obligation.
  intros t. destruct (serial_read_alike t) as [Hr Ht]. pose proof (read_left (as_tcp t)) as Hl. simpl in *.
  destruct (Serial_read t) as [r s], (Tcp_read (as_tcp t)) as [q u]. simpl in Hr, Ht. subst u.
  destruct r as [[[]| |]| |], q as [[[]| |]| |]; simpl in Hr; try done; exact Hl.
Qed.
Next Obligation. intros t p. destruct (serial_write_alike t p) as [_ Ht]. via_tcp Ht (write_left (as_tcp t) p). Qed.
Next Obligation. intros t. destruct (serial_try_read_alike t) as [_ Ht]. via_tcp Ht (try_read_left (as_tcp t)). Qed.
Next Obligation. intros t. destruct (serial_connect_alike t) as [_ Ht]. via_tcp Ht (connect_left (as_tcp t)). Qed.
Next Obligation. intros t. destruct (serial_disconnect_alike t) as [_ Ht]. via_tcp Ht (disconnect_left (as_tcp t)). Qed.
Next Obligation. intros t. destruct (serial_reconnect_alike t) as [_ Ht]. via_tcp Ht (reconnect_left (as_tcp t)). Qed.

#[global] Program Instance Serial_clean : CleanTransport SerialTransport := {
  transport_torn t := transport_torn (as_tcp t);
  transport_clean t := transport_clean (as_tcp t)
}.
Next Obligation. intros t. apply (clean_torn (as_tcp t)). Qed.
Next Obligation. intros t. destruct (serial_connect_alike t) as [_ Ht]. via_tcp Ht (connect_clean (as_tcp t)). Qed.
Next Obligation. intros t. destruct (serial_disconnect_alike t) as [_ Ht]. via_tcp Ht (disconnect_clean (as_tcp t)). Qed.
Next Obligation. intros t. destruct (serial_reconnect_alike t) as [_ Ht]. via_tcp Ht (reconnect_clean (as_tcp t)). Qed.
Next Obligation. intros t. destruct (serial_read_alike t) as [_ Ht]. via_tcp Ht (read_clean (as_tcp t)). Qed.
Next Obligation. intros t. destruct (serial_try_read_alike t) as [_ Ht]. via_tcp Ht (try_read_clean (as_tcp t)). Qed.
Next Obligation.
  intros t p Hc. destruct (serial_write_alike t p) as [Hr Ht]. pose proof (write_clean (as_tcp t) p Hc) as Hw.
  simpl in *. destruct (Serial_write t p) as [r s], (Tcp_write (as_tcp t) p) as [q u]. simpl in Hr, Ht. subst u.
  by destruct r, q.
Qed.
Transparent as_tcp.

(** ** Enumeration *)

Record UsbPortInfo := mkUsb {
  Usb_vid : u16;
  Usb_pid : u16;
  Usb_serial_number : option string;
  Usb_manufacturer : option string;
  Usb_product : option string
}.
Inductive SerialPortType :=
| Port_Usb (usb : UsbPortInfo) | Port_Pci | Port_Bluetooth | Port_Unknown.
Record SerialPortInfo := mkPort { Port_name : string; Port_type : SerialPortType }.

(** [{:04x}]. *)
Definition hex4 (z : u16) : string :=
  hex_nibble (z / 4096 mod 16) +:+ hex_nibble (z / 256 mod 16) +:+ hex_nibble (z / 16 mod 16)
  +:+ hex_nibble (z mod 16).

Definition default_baud_note : string := "Default baud: " +:+ pretty DEFAULT_SERIAL_BAUD +:+ ".".

Definition usb_metadata (port_name : string) (usb : UsbPortInfo) : string * string * list string :=
  let notes :=
    [("USB VID:PID " +:+ hex4 (Usb_vid usb) +:+ ":" +:+ hex4 (Usb_pid usb) +:+ ".")%string;
     default_baud_note]
    ++ option_list ((λ m, "Manufacturer: " +:+ m +:+ ".") <$> Usb_manufacturer usb)
    ++ option_list ((λ s, "USB serial number: " +:+ s +:+ ".") <$> Usb_serial_number usb) in
  let display_name :=
    match Usb_product usb with
    | None => port_name
    | Some product => product +:+ " (" +:+ port_name +:+ ")"
    end in
  let id :=
    match Usb_serial_number usb with
    | None => "serial:" +:+ port_name
    | Some serial => "serial:usb:" +:+ hex4 (Usb_vid usb) +:+ ":" +:+ hex4 (Usb_pid usb) +:+ ":" +:+ serial
    end in
  (id, display_name, notes).

Definition port_metadata (port_name : string) (type : SerialPortType) : string * string * list string :=
  let plain note := (("serial:" +:+ port_name)%string, port_name, [note; default_baud_note]) in
  match type with
  | Port_Usb usb => usb_metadata port_name usb
  | Port_Bluetooth => plain "Bluetooth-backed serial port reported by the operating system."%string
  | Port_Pci => plain "Built-in PCI serial port reported by the operating system."%string
  | Port_Unknown =>
      plain "Serial port type was not identified; verify this is the MeshCore device before connecting."%string
  end.

Definition serial_record (info : SerialPortInfo) : outcome TargetError DiscoveredDevice :=
  let target := Target_Serial (Port_name info) DEFAULT_SERIAL_BAUD in
  _ ← Target_validate target;
  let '(id, display_name, notes) := port_metadata (Port_name info) (Port_type info) in
  Ok (mkDiscovered id display_name TransportKind_Serial target (Some (Port_name info)) None None notes).

(** [collect::<Result<Vec<_>, _>>]: the first error ends the traversal. *)
Fixpoint collect_records (ports : list SerialPortInfo) : outcome TargetError (list DiscoveredDevice) :=
  match ports with
  | [] => Ok []
  | port :: ports =>
      record ← serial_record port;
      records ← collect_records ports;
      Ok (record :: records)
  end.

Definition serial_records (ports : list SerialPortInfo) : outcome DiscoveryError (list DiscoveredDevice) :=
  records ← map_err DiscoveryError_InvalidTarget (collect_records ports);
  Ok (sort_by id_leb records).

(** [discover_serial]: what [available_ports] returned is given. *)
Definition discover_serial (available : sum (list SerialPortInfo) string)
    : outcome DiscoveryError (list DiscoveredDevice) :=
  match available with
  | inl ports => serial_records ports
  | inr source => Err (DiscoveryError_SerialEnumeration source)
  end.

(** [discover_serial_async]: the blocking worker can fail to be joined. *)
Definition discover_serial_async (joined : sum (sum (list SerialPortInfo) string) string)
    : outcome DiscoveryError (list DiscoveredDevice) :=
  match joined with
  | inl available => discover_serial available
  | inr message => Err (DiscoveryError_Worker message)
  end.

(** ** What enumeration reports *)

Definition port_named (port : SerialPortInfo) : Prop := trim_is_empty (str_bytes (Port_name port)) = false.

Lemma serial_record_spec port :
  match serial_record port with
  | Ok record =>
      port_named port ∧ Discovered_validate record = Ok () ∧
      Discovered_target record = Target_Serial (Port_name port) DEFAULT_SERIAL_BAUD
  | Err _ => ¬ port_named port
  | Panic => False
  end.
Proof.
  unfold serial_record. set (target := Target_Serial (Port_name port) DEFAULT_SERIAL_BAUD).
  pose proof (target_validate_ok target) as Hu. pose proof (target_validate_no_panic target) as Hp.
  destruct (Target_validate target) as [[]|e|] eqn:Hv; [| |done]; cbn [mbind outcome_bind].
  - destruct (port_metadata _ _) as [[id name] notes]. destruct (proj1 Hu eq_refl) as [Hn _].
    split_and!; [done| |done]. unfold Discovered_validate. cbn [Discovered_target]. by rewrite Hv.
  - intros Hn. destruct Hu as [_ Hu]. assert (usable target) as Ht by by split. by specialize (Hu Ht).
Qed.

Lemma collect_records_spec ports :
  match collect_records ports with
  | Ok records => Forall2 (λ port record, serial_record port = Ok record) ports records
  | Err _ => Exists (λ port, ¬ port_named port) ports
  | Panic => False
  end.
Proof.
  induction ports as [|port ports IH]; simpl; [constructor|].
  pose proof (serial_record_spec port) as Hr.
  destruct (serial_record port) as [record|e|] eqn:Hp; [|by constructor|done]. cbn [mbind outcome_bind].
  destruct (collect_records ports) as [records|e|]; [by constructor|by apply Exists_cons_tl|done].
Qed.

(** The record of a port that has one. *)
Definition record_of (port : SerialPortInfo) : option DiscoveredDevice :=
  match serial_record port with Ok record => Some record | _ => None end.

(** every port the system lists gives one record that names it and that
    can be used as it is; the records are sorted by identifier, and ports that
    share one (the same USB identity) stay in the system's order; a port with a
    blank name fails the enumeration. *)
Theorem serial_enumeration ports :
  match serial_records ports with
  | Ok records =>
      Forall port_named ports ∧
      StronglySorted id_leb records ∧
      Discovered_target <$> records ≡ₚ (λ port, Target_Serial (Port_name port) DEFAULT_SERIAL_BAUD) <$> ports ∧
      Forall (λ record, Discovered_validate record = Ok ()) records ∧
      ∀ id, filter (λ r, Discovered_id r = id) records =
            filter (λ r, Discovered_id r = id) (omap record_of ports)
  | Err _ => Exists (λ port, ¬ port_named port) ports
  | Panic => False
  end.
Proof.
  unfold serial_records. pose proof (collect_records_spec ports) as Hc.
  destruct (collect_records ports) as [records|e|]; [|done|done]. cbn [map_err mbind outcome_bind].
  assert (Forall2 (λ port record, port_named port ∧ Discovered_validate record = Ok () ∧
    Discovered_target record = Target_Serial (Port_name port) DEFAULT_SERIAL_BAUD) ports records) as Hs.
  { eapply Forall2_impl; [exact Hc|]. intros port record Hr. pose proof (serial_record_spec port) as H.
    by rewrite Hr in H. }
  split_and!.
  - eapply Forall2_Forall_l; [exact Hs|]. apply Forall_true. naive_solver.
  - apply sort_by_sorted; [apply id_leb_total|apply id_leb_trans].
  - rewrite sort_by_perm. apply reflexive_eq. clear Hc. induction Hs as [|port record ? ? (_&_&Ht) _ IH]; [done|].
    cbn [fmap list_fmap]. by rewrite Ht, IH.
  - rewrite sort_by_perm. eapply Forall2_Forall_r; [exact Hs|]. apply Forall_true. naive_solver.
  - intros id. rewrite sort_by_stable; [|apply id_leb_total|apply id_leb_trans|].
    + f_equal. clear Hs. induction Hc as [|port record ? ? Hr _ IH]; [done|].
      cbn [omap list_omap]. unfold record_of at 1. by rewrite Hr, <- IH.
    + intros a b <- Hb. unfold id_leb. rewrite Hb. by destruct (id_leb_total a a).
Qed.

Lemma serial_enumeration_sample :
  match discover_serial (inl [mkPort "/dev/ttyS0" Port_Pci;
          mkPort "/dev/ttyACM0" (Port_Usb (mkUsb 0x239a 0x8029 (Some "A1"%string) None (Some "Node"%string)))]) with
  | Ok records => Discovered_id <$> records = ["serial:/dev/ttyS0"; "serial:usb:239a:8029:A1"]%string
  | _ => False
  end.
Proof. vm_compute. reflexivity. Qed.
