(* ===== verification/Ble.v ===== *)
(** * The BLE transport and BLE discovery
    (crates/meshquill-transport/src/ble.rs)

    The Bluetooth library is a parameter: [ble_call] lists the calls the source
    makes of it, and the class [BleProvider] says what each of them does to a
    world of which nothing else is known.  A call is done, fails, is still
    pending at its deadline, or is never finished because the future that awaits
    it is dropped.  The log of the world has every call made with its fate, and the
    scans that were handed to a background task to be stopped. *)

From S2P Require Import Prelude Text Order Domain Packet Framing Transport Discovery Framed.

(** ** The library *)

Abbreviation Adapter := nat (only parsing).
Definition NORDIC_UART_SERVICE : Uuid := 0x6e400001b5a3f393e0a9e50e24dcca9e.
Definition NORDIC_UART_WRITE_CHARACTERISTIC : Uuid := 0x6e400002b5a3f393e0a9e50e24dcca9e.
Definition NORDIC_UART_NOTIFY_CHARACTERISTIC : Uuid := 0x6e400003b5a3f393e0a9e50e24dcca9e.

(** What [id().to_string()] and [address().to_string()] give. *)
Record Peripheral := mkPeripheral { Peripheral_id : string; Peripheral_address : string }.
Record Characteristic := mkCharacteristic {
  Characteristic_uuid : Uuid;
  Characteristic_service_uuid : Uuid;
  Characteristic_properties : Z
}.
(** [CharPropFlags]. *)
Definition WRITE_WITHOUT_RESPONSE : Z := 0x04.
Definition WRITE : Z := 0x08.
Definition NOTIFY : Z := 0x10.
Definition INDICATE : Z := 0x20.
Definition flags_contain (flags other : Z) : bool := (Z.land flags other =? other)%Z.
Definition flags_intersect (flags other : Z) : bool := negb (Z.land flags other =? 0)%Z.

Inductive WriteType := WriteType_WithResponse | WriteType_WithoutResponse.
Inductive CentralState := CentralState_PoweredOn | CentralState_PoweredOff | CentralState_Unknown.
Inductive CentralEvent := DeviceDisconnected (id : string) | OtherCentralEvent.
Record ValueNotification := mkNotification { Notification_uuid : Uuid; Notification_value : bytes }.
Record PeripheralProperties := mkProperties {
  Properties_address : string;
  Properties_local_name : option string;
  Properties_advertisement_name : option string;
  Properties_rssi : option i16;
  Properties_services : list Uuid;
  Properties_service_data : list Uuid
}.

#[global] Instance Peripheral_eq_dec : EqDecision Peripheral.
Proof. solve_decision. Defined.
#[global] Instance CentralState_eq_dec : EqDecision CentralState.
Proof. solve_decision. Defined.

(** What a turn of the [select!] over the notification stream and the event
    stream of the adapter gives; [None] is the end of the stream. *)
Inductive BleReadEvent :=
| Read_Notification (notification : option ValueNotification)
| Read_Adapter (event : option CentralEvent).
(** The two streams, in the order in which the turns take from them. *)
Inductive ble_poll := Poll_Event (event : BleReadEvent) | Poll_Pending | Poll_Dropped.

Inductive ble_call : Type → Type :=
| Call_manager : ble_call ()
| Call_adapters : ble_call (list Adapter)
| Call_adapter_state (a : Adapter) : ble_call CentralState
| Call_adapter_info (a : Adapter) : ble_call string
| Call_start_scan (a : Adapter) (services : list Uuid) : ble_call ()
| Call_stop_scan (a : Adapter) : ble_call ()
| Call_peripherals (a : Adapter) : ble_call (list Peripheral)
| Call_properties (p : Peripheral) : ble_call (option PeripheralProperties)
| Call_is_connected (p : Peripheral) : ble_call bool
| Call_connect (p : Peripheral) : ble_call ()
| Call_disconnect (p : Peripheral) : ble_call ()
| Call_discover_services (p : Peripheral) : ble_call ()
| Call_notifications (p : Peripheral) : ble_call (list ble_poll)
| Call_events (a : Adapter) : ble_call ()
| Call_subscribe (p : Peripheral) (c : Characteristic) : ble_call ()
| Call_unsubscribe (p : Peripheral) (c : Characteristic) : ble_call ()
| Call_write (p : Peripheral) (c : Characteristic) (packet : bytes) (type : WriteType) : ble_call ()
| Call_sleep : ble_call ().

(** A call that is [Cut] is dropped with the future that awaits it, because a
    deadline of the caller passed or because its task ended. *)
Inductive ble_fate (R : Type) :=
| Provider_Done (value : R)
| Provider_Failed (error : string)
| Provider_Late
| Provider_Cut (deadline : bool).
Arguments Provider_Done {R} value.
Arguments Provider_Failed {R} error.
Arguments Provider_Late {R}.
Arguments Provider_Cut {R} deadline.

(** The cancellation token, seen from a call it races with. *)
Inductive token_state := Token_Live | Token_CancelledBefore | Token_CancelledDuring.

Class BleProvider (W : Type) := {
  provider_run : ∀ R, ble_call R → W → ble_fate R * W;
  (* [services], [characteristics] and [mtu], which do not wait *)
  provider_services : Peripheral → W → list Uuid;
  provider_characteristics : Peripheral → W → list Characteristic;
  provider_mtu : Peripheral → W → u16;
  provider_token : ∀ R, ble_call R → W → token_state;
  (* the turns of the search before its deadline *)
  provider_turns : W → nat;
  (* whether [Handle::try_current] finds a runtime *)
  provider_handle : W → bool
}.
Arguments provider_run {W _ R}.
Arguments provider_token {W _ R}.

Inductive ble_effect :=
| Effect_Call {R : Type} (c : ble_call R) (fate : ble_fate R)
| Effect_ScheduledStop (a : Adapter).

Record ble_world (W : Type) := mkWorld { World_provider : W; World_log : list ble_effect }.
Arguments mkWorld {W}.
Arguments World_provider {W}.
Arguments World_log {W}.

(** ** Calls

    A state of any kind with the world in it: the transport, or the world alone. *)

Definition act (S E A : Type) : Type := S → polled (outcome E A) * S.
#[global] Instance act_ret {S E} : MRet (act S E) := λ A a s, (Ready (Ok a), s).
#[global] Instance act_bind {S E} : MBind (act S E) := λ A B f m s,
  match m s with
  | (Ready (Ok a), s) => f a s
  | (Ready (Err e), s) => (Ready (Err e), s)
  | (Ready Panic, s) => (Ready Panic, s)
  | (Pending, s) => (Pending, s)
  | (Dropped, s) => (Dropped, s)
  end.
Definition fail {S E A} (e : E) : act S E A := λ s, (Ready (Err e), s).
Definition pure {S E A} (m : outcome E A) : act S E A := λ s, (Ready m, s).
(** The result of a call as a value, to be looked at or dropped. *)
Definition attempt {S E F A} (m : act S E A) : act S F (outcome E A) := λ s,
  match m s with
  | (Ready r, s) => (Ready (Ok r), s)
  | (Pending, s) => (Pending, s)
  | (Dropped, s) => (Dropped, s)
  end.

Definition ble_timeout (operation selector : string) : TransportError :=
  TransportError_Io (mkIoError TimedOut
    ("BLE " +:+ operation +:+ " for '" +:+ selector +:+ "' timed out")).
Definition ble_io (error operation selector : string) : TransportError :=
  TransportError_Io (mkIoError OtherKind
    ("BLE " +:+ operation +:+ " for '" +:+ selector +:+ "' failed: " +:+ error
       +:+ "; check Bluetooth permissions, radio state, range, and whether another application owns the device")).

Section Ble.
Context {W : Type} `{BleProvider W}.
Abbreviation on_world := (act (ble_world W)) (only parsing).

(** One call, as it is logged and carried out. *)
Definition run_call {R} (c : ble_call R) (w : ble_world W) : ble_fate R * ble_world W :=
  let '(fate, provider) := provider_run c (World_provider w) in
  (fate, mkWorld provider (World_log w ++ [Effect_Call c fate])).

Definition finish_call {E R} (late : E) (failed : string → E) (r : ble_fate R * ble_world W)
    : polled (outcome E R) * ble_world W :=
  match r with
  | (Provider_Done value, w) => (Ready (Ok value), w)
  | (Provider_Failed error, w) => (Ready (Err (failed error)), w)
  | (Provider_Late, w) => (Ready (Err late), w)
  | (Provider_Cut true, w) => (Pending, w)
  | (Provider_Cut false, w) => (Dropped, w)
  end.

Definition with_ble_deadline {R} (c : ble_call R) (operation selector : string)
    : on_world TransportError R := λ w,
  finish_call (ble_timeout operation selector) (λ e, ble_io e operation selector) (run_call c w).
Definition with_ble_timeout {R} (c : ble_call R) (operation selector : string)
    : on_world TransportError R := with_ble_deadline c operation selector.

(** The token is polled first: when it was cancelled already the call is not made. *)
Definition with_discovery_deadline {R} (timeout : Z) (c : ble_call R) (operation : string)
    : on_world DiscoveryError R := λ w,
  match provider_token c (World_provider w) with
  | Token_CancelledBefore => (Ready (Err DiscoveryError_Cancelled), w)
  | Token_CancelledDuring => (Ready (Err DiscoveryError_Cancelled), (run_call c w).2)
  | Token_Live =>
      finish_call (DiscoveryError_BleTimeout operation timeout) (DiscoveryError_Ble operation) (run_call c w)
  end.

(** A call without a deadline of its own: [inr] is a failure, the error a passed
    deadline of what it is part of. *)
Definition bare_call {R} (c : ble_call R) : on_world () (sum R string) := λ w,
  match run_call c w with
  | (Provider_Done value, w) => (Ready (Ok (inl value)), w)
  | (Provider_Failed error, w) => (Ready (Ok (inr error)), w)
  | (Provider_Late, w) => (Ready (Err ()), w)
  | (Provider_Cut true, w) => (Pending, w)
  | (Provider_Cut false, w) => (Dropped, w)
  end.

(** [time::sleep]. *)
Definition pause {E} : on_world E () :=
  _ ← attempt (bare_call Call_sleep); mret ().

(** ** Active scans *)

Inductive ScanStopError := ScanStop_Provider (error : string) | ScanStop_TimedOut.

Definition discovery_scan_stop_error (error : ScanStopError) (timeout : Z) : DiscoveryError :=
  match error with
  | ScanStop_Provider source => DiscoveryError_Ble "scan stop" source
  | ScanStop_TimedOut => DiscoveryError_BleTimeout "scan stop" timeout
  end.
Definition transport_scan_stop_error (error : ScanStopError) (selector : string) : TransportError :=
  match error with
  | ScanStop_Provider error => ble_io error "scan stop" selector
  | ScanStop_TimedOut => ble_timeout "scan stop" selector
  end.

Record ActiveScans := mkScans { Scans_adapters : list Adapter; Scans_stopped : bool }.
Definition ActiveScans_new : ActiveScans := mkScans [] false.
Definition Scans_register (self : ActiveScans) (adapter : Adapter) : ActiveScans :=
  mkScans (Scans_adapters self ++ [adapter]) (Scans_stopped self).

Definition schedule_best_effort_scan_stop (adapters : list Adapter) (w : ble_world W) : ble_world W :=
  if negb (provider_handle (World_provider w)) then w
  else mkWorld (World_provider w) (World_log w ++ (Effect_ScheduledStop <$> adapters)).

(** [Drop for ActiveScans]. *)
Definition Scans_drop (self : ActiveScans) (w : ble_world W) : ble_world W :=
  if Scans_stopped self then w else schedule_best_effort_scan_stop (Scans_adapters self) w.

(** [join_all] of the stops: all of them are started. *)
Fixpoint stop_all (adapters : list Adapter) (w : ble_world W) : list (ble_fate ()) * ble_world W :=
  match adapters with
  | [] => ([], w)
  | adapter :: adapters =>
      let '(fate, w) := run_call (Call_stop_scan adapter) w in
      let '(fates, w) := stop_all adapters w in
      (fate :: fates, w)
  end.
Definition first_cut (fates : list (ble_fate ())) : option bool :=
  head (omap (λ f, match f with Provider_Cut deadline => Some deadline | _ => None end) fates).
Definition first_failure (fates : list (ble_fate ())) : option string :=
  head (omap (λ f, match f with Provider_Failed error => Some error | _ => None end) fates).
Definition any_late (fates : list (ble_fate ())) : bool :=
  existsb (λ f, match f with Provider_Late => true | _ => false end) fates.

(** [ActiveScans::stop]; the guard is consumed: when the stop is dropped half way
    it still owns its adapters and schedules them. *)
Definition Scans_stop (self : ActiveScans) : on_world ScanStopError () := λ w,
  if bool_decide (Scans_adapters self = []) then (Ready (Ok ()), w) else
  let '(fates, w) := stop_all (Scans_adapters self) w in
  match first_cut fates with
  | Some deadline => (if deadline : bool then Pending else Dropped, Scans_drop self w)
  | None =>
      let result :=
        if any_late fates then Err ScanStop_TimedOut
        else match first_failure fates with
             | Some error => Err (ScanStop_Provider error)
             | None => Ok ()
             end in
      (Ready result,
       if is_Err result then schedule_best_effort_scan_stop (Scans_adapters self) w else w)
  end.

(** Run with the guard in scope: dropping the future drops the guard. *)
Definition holding {E A} (scans : ActiveScans) (m : on_world E A) : on_world E A := λ w,
  match m w with
  | (Ready r, w) => (Ready r, w)
  | (cut, w) => (cut, Scans_drop scans w)
  end.

(** Scans are registered before they are started; when one cannot be started all
    are stopped and the error is returned. *)
Fixpoint start_scans {E} (start : Adapter → on_world E ()) (adapters : list Adapter) (scans : ActiveScans)
    : on_world E ActiveScans :=
  match adapters with
  | [] => mret scans
  | adapter :: adapters =>
      let scans := Scans_register scans adapter in
      started ← holding scans (attempt (start adapter));
      match started with
      | Ok _ => start_scans start adapters scans
      | Err error => _ ← attempt (Scans_stop scans); fail error
      | Panic => pure Panic
      end
  end.

(** ** Discovery *)

Definition validate_scan_timeout (timeout : Z) : outcome DiscoveryError () :=
  map_err DiscoveryError_InvalidTarget (validate_timeout "scan_timeout" timeout).

Definition ble_record (peripheral_id address display_name : string) (rssi : option i16)
    (adapter_name : string) : DiscoveredDevice :=
  mkDiscovered ("ble:" +:+ peripheral_id) display_name TransportKind_Ble (Target_Ble peripheral_id)
    (Some address) None rssi
    ["Advertises the MeshCore Nordic UART service.";
     "Discovered via Bluetooth adapter: " +:+ adapter_name +:+ "."]%string.

Definition advertises_uart (properties : PeripheralProperties) : bool :=
  bool_decide (NORDIC_UART_SERVICE ∈ Properties_services properties)
  || bool_decide (NORDIC_UART_SERVICE ∈ Properties_service_data properties).

(** [Option<i16>]: [None] is the least. *)
Definition rssi_gtb (a b : option i16) : bool :=
  match a, b with
  | Some a, Some b => (b <? a)%Z
  | Some _, None => true
  | None, _ => false
  end.

Definition peripheral_record (peripheral : Peripheral) (properties : PeripheralProperties)
    (adapter_name : string) : DiscoveredDevice :=
  let address := Properties_address properties in
  let name :=
    match Properties_local_name properties, Properties_advertisement_name properties with
    | Some name, _ | None, Some name => name
    | None, None => "MeshCore BLE (" +:+ address +:+ ")"
    end in
  ble_record (Peripheral_id peripheral) address name (Properties_rssi properties) adapter_name.

(** [entry(id).and_modify(..).or_insert(record)]. *)
Definition file_record (record : DiscoveredDevice) (records : gmap string DiscoveredDevice)
    : gmap string DiscoveredDevice :=
  match records !! Discovered_id record with
  | Some current =>
      if rssi_gtb (Discovered_rssi record) (Discovered_rssi current)
      then <[Discovered_id record := record]> records else records
  | None => <[Discovered_id record := record]> records
  end.

Fixpoint collect_peripherals (timeout : Z) (adapter_name : string) (peripherals : list Peripheral)
    (records : gmap string DiscoveredDevice) : on_world DiscoveryError (gmap string DiscoveredDevice) :=
  match peripherals with
  | [] => mret records
  | peripheral :: peripherals =>
      properties ← with_discovery_deadline timeout (Call_properties peripheral) "peripheral property read";
      collect_peripherals timeout adapter_name peripherals
        match properties with
        | Some properties =>
            if advertises_uart properties
            then file_record (peripheral_record peripheral properties adapter_name) records else records
        | None => records
        end
  end.

Fixpoint collect_adapters (timeout : Z) (adapters : list Adapter) (records : gmap string DiscoveredDevice)
    : on_world DiscoveryError (gmap string DiscoveredDevice) :=
  match adapters with
  | [] => mret records
  | adapter :: adapters =>
      adapter_name ← with_discovery_deadline timeout (Call_adapter_info adapter) "adapter information query";
      peripherals ← with_discovery_deadline timeout (Call_peripherals adapter) "scan result enumeration";
      records ← collect_peripherals timeout adapter_name peripherals records;
      collect_adapters timeout adapters records
  end.

(** [into_values]: in the order of the identifiers. *)
Definition collect_discovered_devices (adapters : list Adapter) (timeout : Z)
    : on_world DiscoveryError (list DiscoveredDevice) :=
  records ← collect_adapters timeout adapters ∅;
  mret (sort_by id_leb (map_to_list records).*2).

(** The adapters that are powered, and how many are not. *)
Fixpoint usable_adapters (timeout : Z) (adapters : list Adapter)
    : on_world DiscoveryError (list Adapter * nat) :=
  match adapters with
  | [] => mret ([], 0)
  | adapter :: adapters =>
      state ← with_discovery_deadline timeout (Call_adapter_state adapter) "adapter state query";
      rest ← usable_adapters timeout adapters;
      mret (if bool_decide (state = CentralState_PoweredOff) then (rest.1, S rest.2)
            else (adapter :: rest.1, rest.2))
  end.

(** The observation window, which the token can end. *)
Definition observe : on_world DiscoveryError () := λ w,
  match provider_token Call_sleep (World_provider w) with
  | Token_CancelledBefore => (Ready (Err DiscoveryError_Cancelled), w)
  | Token_CancelledDuring => (Ready (Err DiscoveryError_Cancelled), (run_call Call_sleep w).2)
  | Token_Live => pause w
  end.

Definition discover_ble_with_cancellation (timeout : Z) : on_world DiscoveryError (list DiscoveredDevice) :=
  _ ← pure (validate_scan_timeout timeout);
  _ ← with_discovery_deadline timeout Call_manager "manager initialization";
  adapters ← with_discovery_deadline timeout Call_adapters "adapter enumeration";
  if bool_decide (adapters = []) then fail DiscoveryError_NoBleAdapter else
  usable ← usable_adapters timeout adapters;
  if bool_decide (usable.1 = []) && (0 <? usable.2) then fail DiscoveryError_BlePoweredOff else
  scans ← start_scans (λ a, with_discovery_deadline timeout (Call_start_scan a [NORDIC_UART_SERVICE])
                              "scan start") usable.1 ActiveScans_new;
  observed ← holding scans (attempt observe);
  match observed with
  | Ok _ =>
      stopped ← attempt (Scans_stop scans);
      _ ← pure (map_err (λ error, discovery_scan_stop_error error timeout) stopped);
      collect_discovered_devices usable.1 timeout
  | Err error => _ ← attempt (Scans_stop scans); fail error
  | Panic => pure Panic
  end.

(** ** Finding the peripheral *)

(** [str::strip_prefix] with the identifier's qualifier. *)
Definition strip_ble (selector : string) : string :=
  if String.prefix "ble:" selector then String.substring 4 (String.length selector - 4) selector else selector.

Definition eq_ignore_ascii_case (a b : string) : bool :=
  bool_decide (to_ascii_lowercase (str_bytes a) = to_ascii_lowercase (str_bytes b)).

Definition peripheral_matches (selector : string) (peripheral : Peripheral) : bool :=
  eq_ignore_ascii_case (Peripheral_id peripheral) selector
  || eq_ignore_ascii_case (Peripheral_address peripheral) selector.

Fixpoint find_cached (adapters : list Adapter) (selector requested_selector : string)
    : on_world TransportError (option (Adapter * Peripheral)) :=
  match adapters with
  | [] => mret None
  | adapter :: adapters =>
      peripherals ← with_ble_deadline (Call_peripherals adapter) "peripheral enumeration" requested_selector;
      match find (peripheral_matches selector) peripherals with
      | Some peripheral => mret (Some (adapter, peripheral))
      | None => find_cached adapters selector requested_selector
      end
  end.

(** The loop of the search: a turn, then a pause, until the deadline. *)
Fixpoint search (turns : nat) (adapters : list Adapter) (selector requested_selector : string)
    : on_world TransportError (option (Adapter * Peripheral)) :=
  match turns with
  | 0 => mret None
  | S turns =>
      found ← find_cached adapters selector requested_selector;
      match found with
      | Some found => mret (Some found)
      | None => _ ← pause; search turns adapters selector requested_selector
      end
  end.
Definition search_until_deadline (adapters : list Adapter) (selector requested_selector : string)
    : on_world TransportError (option (Adapter * Peripheral)) := λ w,
  search (provider_turns (World_provider w)) adapters selector requested_selector w.

Definition not_found (message : string) : TransportError := TransportError_Io (mkIoError NotFound message).
Definition unsupported (message : string) : TransportError := TransportError_Io (mkIoError Unsupported message).

Definition find_peripheral (requested_selector : string) : on_world TransportError (Adapter * Peripheral) :=
  let selector := strip_ble requested_selector in
  _ ← with_ble_timeout Call_manager "manager initialization" requested_selector;
  adapters ← with_ble_timeout Call_adapters "adapter enumeration" requested_selector;
  if bool_decide (adapters = [])
  then fail (not_found "no Bluetooth adapter is available; enable Bluetooth and retry") else
  cached ← find_cached adapters selector requested_selector;
  match cached with
  | Some found => mret found
  | None =>
      scans ← start_scans (λ a, with_ble_deadline (Call_start_scan a [NORDIC_UART_SERVICE]) "scan start"
                                  requested_selector) adapters ActiveScans_new;
      found_result ← holding scans (attempt (search_until_deadline adapters selector requested_selector));
      stopped ← attempt (Scans_stop scans);
      match found_result with
      | Ok found =>
          _ ← pure (map_err (λ error, transport_scan_stop_error error requested_selector) stopped);
          pure (ok_or found (not_found ("BLE target '" +:+ requested_selector
            +:+ "' was not found before the scan timeout; ensure it is powered on, nearby, and not in firmware update mode")))
      | Err error => fail error
      | Panic => pure Panic
      end
  end.

(** ** Connections *)

Record BleConnection := mkConnection {
  Connection_peripheral_id : string;
  Connection_peripheral : Peripheral;
  Connection_write_characteristic : Characteristic;
  Connection_notify_characteristic : Characteristic;
  Connection_write_type : WriteType;
  Connection_max_write_payload : nat;
  Connection_incoming : list ble_poll;  (* [notifications] and [events] *)
  Connection_events : bool              (* [events.is_some()] *)
}.
Record UartCharacteristics := mkUart {
  Uart_write : Characteristic;
  Uart_notify : Characteristic;
  Uart_write_type : WriteType
}.

Definition preferred_write_type (properties : Z) : option WriteType :=
  if flags_contain properties WRITE then Some WriteType_WithResponse
  else if flags_contain properties WRITE_WITHOUT_RESPONSE then Some WriteType_WithoutResponse
  else None.

Definition negotiated_payload_limit (mtu : u16) (write_type : WriteType) : usize :=
  match write_type with
  | WriteType_WithResponse => MAX_INNER_PAYLOAD
  | WriteType_WithoutResponse => Nat.min (Z.to_nat (Z.max 0 (mtu - 3))) MAX_INNER_PAYLOAD
  end.

Definition validate_negotiated_payload (payload : bytes) (max_write_payload : usize) : tresult () :=
  if max_write_payload <? length payload
  then Err (TransportError_PayloadTooLarge max_write_payload (length payload)) else Ok ().

Definition missing_characteristic (role : string) (uuid : Uuid) (selector : string) : TransportError :=
  unsupported ("BLE target '" +:+ selector +:+ "' is missing Nordic UART " +:+ role
    +:+ " characteristic " +:+ debug_uuid uuid).

Definition find_characteristic (uuid : Uuid) (cs : list Characteristic) : option Characteristic :=
  find (λ c, (Characteristic_service_uuid c =? NORDIC_UART_SERVICE)%Z
             && (Characteristic_uuid c =? uuid)%Z) cs.

Definition resolve_uart_characteristics (services : list Uuid) (characteristics : list Characteristic)
    (selector : string) : tresult UartCharacteristics :=
  _ ← ensure (existsb (Z.eqb NORDIC_UART_SERVICE) services)
        (unsupported ("BLE target '" +:+ selector +:+ "' does not expose Nordic UART service "
           +:+ debug_uuid NORDIC_UART_SERVICE));
  write ← ok_or (find_characteristic NORDIC_UART_WRITE_CHARACTERISTIC characteristics)
            (missing_characteristic "write" NORDIC_UART_WRITE_CHARACTERISTIC selector);
  notify ← ok_or (find_characteristic NORDIC_UART_NOTIFY_CHARACTERISTIC characteristics)
             (missing_characteristic "notification" NORDIC_UART_NOTIFY_CHARACTERISTIC selector);
  write_type ← ok_or (preferred_write_type (Characteristic_properties write))
                 (unsupported ("BLE Nordic UART write characteristic on '" +:+ selector
                    +:+ "' supports neither write-without-response nor write-with-response"));
  _ ← ensure (flags_intersect (Characteristic_properties notify) (Z.lor NOTIFY INDICATE))
        (unsupported ("BLE Nordic UART notification characteristic on '" +:+ selector
           +:+ "' supports neither notify nor indicate"));
  Ok (mkUart write notify write_type).

Definition uart_of (peripheral : Peripheral) (selector : string) : on_world TransportError UartCharacteristics := λ w,
  (Ready (resolve_uart_characteristics (provider_services peripheral (World_provider w))
            (provider_characteristics peripheral (World_provider w)) selector), w).
Definition mtu_of (peripheral : Peripheral) : on_world TransportError u16 := λ w,
  (Ready (Ok (provider_mtu peripheral (World_provider w))), w).

Definition establish_connection (adapter : Adapter) (peripheral : Peripheral) (selector : string)
    : on_world TransportError BleConnection :=
  already_connected ← with_ble_timeout (Call_is_connected peripheral) "connection-state query" selector;
  _ ← (if already_connected : bool then mret ()
       else with_ble_timeout (Call_connect peripheral) "connect" selector);
  connected ← with_ble_timeout (Call_is_connected peripheral) "post-connect state query" selector;
  if negb connected then
    fail (TransportError_Io (mkIoError NotConnected
      ("BLE provider returned from connect for '" +:+ selector +:+ "' without an active connection")))
  else
  _ ← with_ble_timeout (Call_discover_services peripheral) "GATT service discovery" selector;
  uart ← uart_of peripheral selector;
  incoming ← with_ble_timeout (Call_notifications peripheral) "notification stream creation" selector;
  _ ← with_ble_timeout (Call_events adapter) "adapter event stream creation" selector;
  _ ← with_ble_timeout (Call_subscribe peripheral (Uart_notify uart))
        "Nordic UART notification subscription" selector;
  mtu ← mtu_of peripheral;
  mret (mkConnection (Peripheral_id peripheral) peripheral (Uart_write uart) (Uart_notify uart)
          (Uart_write_type uart) (negotiated_payload_limit mtu (Uart_write_type uart)) incoming true).

(** [close_connection_provider]: both steps are taken whatever the first gives,
    and the first error is reported.  The error of the outer result is the
    deadline of the whole cleanup. *)
Definition note_error (first_error : option TransportError) (r : sum () string) (operation selector : string)
    : option TransportError :=
  match first_error, r with
  | None, inr error => Some (ble_io error operation selector)
  | first_error, _ => first_error
  end.
Definition close_connection_provider (connection : BleConnection) (selector : string)
    : on_world () (tresult ()) :=
  let peripheral := Connection_peripheral connection in
  state ← bare_call (Call_is_connected peripheral);
  match state with
  | inl false => mret (Ok ())
  | _ =>
      let first_error :=
        match state with
        | inr error => Some (ble_io error "connection-state query" selector)
        | inl _ => None
        end in
      unsubscribed ← bare_call (Call_unsubscribe peripheral (Connection_notify_characteristic connection));
      let first_error := note_error first_error unsubscribed "Nordic UART notification unsubscribe" selector in
      disconnected ← bare_call (Call_disconnect peripheral);
      let first_error := note_error first_error disconnected "disconnect" selector in
      mret match first_error with Some error => Err error | None => Ok () end
  end.

Definition with_ble_cleanup_timeout (cleanup : on_world () (tresult ())) (selector : string)
    : on_world TransportError () :=
  result ← attempt cleanup;
  pure match result with
       | Ok result => result
       | Err _ => Err (ble_timeout "disconnect cleanup" selector)
       | Panic => Panic
       end.
Definition close_connection (connection : BleConnection) (selector : string) : on_world TransportError () :=
  with_ble_cleanup_timeout (close_connection_provider connection selector) selector.

Definition best_effort_disconnect {E} (peripheral : Peripheral) : on_world E () :=
  _ ← attempt (bare_call (Call_disconnect peripheral)); mret ().

(** ** The transport *)

Record BleTransport := mkBle {
  Ble_selector : string;
  Ble_connect_timeout : Z;
  Ble_connection : option BleConnection;
  Ble_world : ble_world W;
  Ble_sent : list bytes              (* the packets of completed writes *)
}.
Abbreviation on_ble := (act BleTransport TransportError) (only parsing).

Definition BleTransport_new (selector : string) (connect_timeout : Z) (world : ble_world W)
    : outcome TargetError BleTransport :=
  _ ← validate_nonempty "selector" selector;
  _ ← validate_timeout "connect_timeout" connect_timeout;
  Ok (mkBle selector connect_timeout None world []).
Definition Ble_target (t : BleTransport) : TransportTarget := Target_Ble (Ble_selector t).

Definition ble_with (t : BleTransport) (connection : option BleConnection) (world : ble_world W) : BleTransport :=
  mkBle (Ble_selector t) (Ble_connect_timeout t) connection world (Ble_sent t).
Definition in_world {A} (m : string → on_world TransportError A) : on_ble A := λ t,
  let '(r, w) := m (Ble_selector t) (Ble_world t) in (r, ble_with t (Ble_connection t) w).
Definition hold (connection : option BleConnection) : on_ble () := λ t,
  (Ready (Ok ()), ble_with t connection (Ble_world t)).
(** [self.connection.take()]. *)
Definition take_connection : on_ble (option BleConnection) := λ t,
  (Ready (Ok (Ble_connection t)), ble_with t None (Ble_world t)).
Definition as_ref : on_ble (option BleConnection) := λ t, (Ready (Ok (Ble_connection t)), t).
Definition selector_of : on_ble string := λ t, (Ready (Ok (Ble_selector t)), t).

Definition ble_connect : on_ble () :=
  connection ← take_connection;
  _ ← match connection with
      | None => mret ()
      | Some connection =>
          still_connected ← attempt (in_world (with_ble_timeout
            (Call_is_connected (Connection_peripheral connection)) "connection-state query"));
          match still_connected with
          | Ok true =>
              _ ← hold (Some connection);
              selector ← selector_of;
              fail (TransportError_Io (mkIoError AlreadyExists ("BLE target '" +:+ selector
                +:+ "' is already connected; disconnect before connecting again")))
          | Ok false => mret ()
          | Err error => _ ← attempt (in_world (close_connection connection)); fail error
          | Panic => pure Panic
          end
      end;
  found ← in_world find_peripheral;
  established ← attempt (in_world (establish_connection found.1 found.2));
  match established with
  | Ok connection => hold (Some connection)
  | Err error => _ ← in_world (λ _, best_effort_disconnect found.2); fail error
  | Panic => pure Panic
  end.

Definition ble_disconnect : on_ble () :=
  connection ← take_connection;
  match connection with
  | None => mret ()
  | Some connection => in_world (close_connection connection)
  end.

(** [reconnect]: an error of the cleanup is dropped. *)
Definition ble_reconnect : on_ble () :=
  connection ← take_connection;
  _ ← match connection with
      | None => mret ()
      | Some connection => _ ← attempt (F:=TransportError) (in_world (close_connection connection)); mret ()
      end;
  ble_connect.

Definition record_sent (payload : bytes) : on_ble () := λ t,
  (Ready (Ok ()), mkBle (Ble_selector t) (Ble_connect_timeout t) (Ble_connection t) (Ble_world t)
                    (Ble_sent t ++ [payload])).

(** [provider_write_once]: one call with the whole packet. *)
Definition provider_write_once (payload : bytes) (connection : BleConnection) : ble_call () :=
  Call_write (Connection_peripheral connection) (Connection_write_characteristic connection) payload
    (Connection_write_type connection).

Definition ble_write (payload : bytes) : on_ble () :=
  _ ← pure (validate_payload payload);
  held ← as_ref;
  connection ← pure (ok_or held TransportError_NotConnected);
  _ ← pure (validate_negotiated_payload payload (Connection_max_write_payload connection));
  let peripheral := Connection_peripheral connection in
  let abandon (error : TransportError) : on_ble () :=
    _ ← hold None;
    _ ← in_world (λ _, best_effort_disconnect peripheral);
    fail error in
  connected ← attempt (in_world (with_ble_timeout (Call_is_connected peripheral)
                         "pre-write connection-state query"));
  match connected with
  | Ok false => _ ← hold None; fail TransportError_NotConnected
  | Ok true =>
      result ← attempt (in_world (with_ble_timeout (provider_write_once payload connection)
                          "Nordic UART write (packet not retried)"));
      match result with
      | Ok _ => record_sent payload
      | Err error => abandon error
      | Panic => pure Panic
      end
  | Err error => abandon error
  | Panic => pure Panic
  end.

(** The loop of [read], over what the two streams give; [None] is a connection
    that was let go.  The event stream is not polled once it has ended. *)
Fixpoint read_events (peripheral_id : string) (events : bool) (incoming : list ble_poll)
    : polled (tresult (option bytes)) * option (bool * list ble_poll) :=
  match incoming with
  | [] => (Pending, Some (events, []))
  | Poll_Pending :: incoming => (Pending, Some (events, incoming))
  | Poll_Dropped :: incoming => (Dropped, Some (events, incoming))
  | Poll_Event (Read_Notification (Some notification)) :: incoming =>
      if negb (Notification_uuid notification =? NORDIC_UART_NOTIFY_CHARACTERISTIC)%Z
      then read_events peripheral_id events incoming
      else (Ready (_ ← validate_payload (Notification_value notification);
                   Ok (Some (Notification_value notification))), Some (events, incoming))
  | Poll_Event (Read_Notification None) :: _ => (Ready (Ok None), None)
  | Poll_Event (Read_Adapter event) :: incoming =>
      if negb events then read_events peripheral_id events incoming else
      match event with
      | Some (DeviceDisconnected id) =>
          if String.eqb id peripheral_id then (Ready (Ok None), None)
          else read_events peripheral_id events incoming
      | Some OtherCentralEvent => read_events peripheral_id events incoming
      | None => read_events peripheral_id false incoming
      end
  end.

Definition ble_read (t : BleTransport) : polled (tresult (option bytes)) * BleTransport :=
  match Ble_connection t with
  | None => (Ready (Err TransportError_NotConnected), t)
  | Some c =>
      let '(r, remaining) := read_events (Connection_peripheral_id c) (Connection_events c) (Connection_incoming c) in
      let connection := (λ '(events, incoming),
        mkConnection (Connection_peripheral_id c) (Connection_peripheral c)
          (Connection_write_characteristic c) (Connection_notify_characteristic c)
          (Connection_write_type c) (Connection_max_write_payload c) incoming events) <$> remaining in
      (r, ble_with t connection (Ble_world t))
  end.

#[global] Instance Ble_transport : Transport BleTransport := {
  transport_kind := λ _, TransportKind_Ble;
  transport_connect := ble_connect;
  transport_disconnect := ble_disconnect;
  transport_write := λ t payload, ble_write payload t;
  transport_read := ble_read;
  transport_try_read := default_try_read ble_read;
  transport_reconnect := ble_reconnect
}.
End Ble.
Arguments BleTransport W : clear implicits.
Arguments Ble_transport W {_}.
