(* ===== verification/BleFacts.v ===== *)
(** * A logic for the BLE transport

    [runs P m Q X]: from a state with [P], [m] does not panic, leaves [Q] when it
    returns a value, and [X] when it fails or is dropped.  The triples are proved
    once for any invariant of the world that calls keep, indexed by the adapters
    that may be scanning, and then used for the laws of the interface and for the
    scans. *)

From S2P Require Import Prelude Text Order Domain Packet Framing Transport Discovery Framed Ble.

(** ** Triples *)

Section runs.
Context {S : Type}.
Implicit Types P X : S → Prop.

Definition runs {E A} P (m : act S E A) (Q : A → S → Prop) X : Prop :=
  ∀ s, P s →
  match m s with
  | (Ready (Ok a), s') => Q a s'
  | (Ready Panic, _) => False
  | (_, s') => X s'
  end.

Lemma runs_ret {E A} P (a : A) X : runs P (mret a : act S E A) (λ b s, b = a ∧ P s) X.
Proof. by intros s Hs. Qed.

Lemma runs_value {E A} P (a : A) (Q : A → S → Prop) X :
  (∀ s, P s → Q a s) → runs P (mret a : act S E A) Q X.
Proof. intros HQ s Hs. by apply HQ. Qed.

Lemma runs_conseq {E A} P P' (m : act S E A) Q Q' X X' :
  runs P m Q X → (∀ s, P' s → P s) → (∀ a s, Q a s → Q' a s) → (∀ s, X s → X' s) → runs P' m Q' X'.
Proof. intros Hm HP HQ HX s Hs%HP%Hm. destruct (m s) as [[[]| |] s']; auto. Qed.

Lemma runs_bind {E A B} P (m : act S E A) (f : A → act S E B) Q Q' X :
  runs P m Q X → (∀ a, runs (Q a) (f a) Q' X) → runs P (m ≫= f) Q' X.
Proof.
  intros Hm Hf s Hs. specialize (Hm s Hs). unfold mbind, act_bind.
  destruct (m s) as [[[a|e|]| |] s']; try done. by apply Hf.
Qed.

Lemma runs_fail {E A} P (e : E) (Q : A → S → Prop) X : (∀ s, P s → X s) → runs P (fail e) Q X.
Proof. intros HX s Hs. by apply HX. Qed.

Lemma runs_pure {E A} P (m : outcome E A) (Q : A → S → Prop) X :
  (∀ s, P s → m ≠ Panic) → (∀ a s, m = Ok a → P s → Q a s) → (∀ s, P s → X s) → runs P (pure m) Q X.
Proof. intros Hm HQ HX s Hs. specialize (Hm s Hs). unfold pure. destruct m; auto. Qed.

Lemma runs_attempt {E F A} P (m : act S E A) Q X :
  runs P m Q X →
  runs P (attempt (F:=F) m) (λ r s, match r with Ok a => Q a s | Err _ => X s | Panic => False end) X.
Proof. intros Hm s Hs. specialize (Hm s Hs). unfold attempt. by destruct (m s) as [[[]| |] s']. Qed.

(** A call whose result is not looked at. *)
Lemma runs_attempt_drop {E F A} P (m : act S E A) (X : S → Prop) :
  runs P m (λ _, X) X → runs P (attempt (F:=F) m) (λ r s, r ≠ Panic ∧ X s) X.
Proof.
  intros Hm. eapply runs_conseq; [by apply runs_attempt|done| |done]. by intros [] s.
Qed.
Lemma runs_fail_after {E F A B} P (m : act S E A) (e : F) (Q : B → S → Prop) (X : S → Prop) :
  runs P m (λ _, X) X → runs P (_ ← attempt (F:=F) m; fail e) Q X.
Proof.
  intros Hm. eapply runs_bind; [by apply runs_attempt_drop|]. intros r. apply runs_fail. by intros s [].
Qed.
End runs.

(** ** The world *)

(** Calls by what they are for: a search, one peripheral, a write. *)
Definition searching {R} (c : ble_call R) : Prop :=
  match c with
  | Call_manager | Call_adapters | Call_adapter_state _ | Call_adapter_info _ | Call_stop_scan _
  | Call_peripherals _ | Call_properties _ | Call_sleep => True
  | _ => False
  end.
Definition about {R} (p : Peripheral) (c : ble_call R) : Prop :=
  match c with
  | Call_is_connected p' | Call_connect p' | Call_disconnect p' | Call_discover_services p'
  | Call_notifications p' | Call_subscribe p' _ | Call_unsubscribe p' _ => p' = p
  | Call_events _ => True
  | _ => False
  end.
Definition writing {R} (c : ble_call R) : Prop := match c with Call_write _ _ _ _ => True | _ => False end.

Section world.
Context {W : Type} `{BleProvider W}.
Implicit Types w : ble_world W.

(** [I l]: nothing but the adapters of [l] scans.  [J v]: the streams of a
    connection still hold [v].  Both are kept by the calls [allowed] names. *)
Record world_invariant (allowed : ∀ R, ble_call R → Prop) (I : list nat → ble_world W → Prop)
    (J : list ble_poll → ble_world W → Prop) : Prop := {
  allowed_search R (c : ble_call R) : searching c → allowed R c;
  I_call l R (c : ble_call R) w : allowed R c → I l w → I l (run_call c w).2;
  I_start l a services w : a ∈ l → I l w → I l (run_call (Call_start_scan a services) w).2;
  I_mono l l' w : l ⊆ l' → I l w → I l' w;
  I_stop l w : I l w → I [] (stop_all l w).2;
  I_schedule l w : I l w → I [] (schedule_best_effort_scan_stop l w);
  J_call v R (c : ble_call R) w : allowed R c → J v w → J v (run_call c w).2;
  J_new p v w : I [] w → (run_call (Call_notifications p) w).1 = Provider_Done v →
    J v (run_call (Call_notifications p) w).2;
  J_I v w : J v w → I [] w
}.

Context (I : list nat → ble_world W → Prop) (J : list ble_poll → ble_world W → Prop).
Context (allowed : ∀ R, ble_call R → Prop) (HI : world_invariant allowed I J).
Arguments allowed {R}.
Ltac allow :=
  solve
    [ assumption
    | apply (allowed_search _ _ _ HI); exact Logic.I
    | match goal with H : ∀ R (c : ble_call R), _ → allowed c |- _ => apply H; (reflexivity || exact Logic.I) end
    | match goal with H : ∀ R p (c : ble_call R), _ → allowed c |- _ => eapply H; (reflexivity || exact Logic.I) end
    | apply (allowed_search _ _ _ HI); assumption ].

Lemma runs_finish {E R} (K : ble_world W → Prop) (c : ble_call R) (late : E) failed :
  (∀ w, K w → K (run_call c w).2) →
  runs K (λ w, finish_call late failed (run_call c w)) (λ _, K) K.
Proof.
  intros HK w Hw%HK. by destruct (run_call c w) as [[v|e| |[]] w'].
Qed.

Lemma runs_deadline {R} l (c : ble_call R) op sel :
  allowed c → runs (I l) (with_ble_deadline c op sel) (λ _, I l) (I l).
Proof. intros Hc. apply runs_finish. intros w. by apply (I_call _ _ _ HI). Qed.
Lemma runs_deadline_J {R} v (c : ble_call R) op sel :
  allowed c → runs (J v) (with_ble_timeout c op sel) (λ _, J v) (I []).
Proof.
  intros Hc. eapply runs_conseq; [apply (runs_finish (J v))|done|done|by apply (J_I _ _ _ HI)].
  intros w. by apply (J_call _ _ _ HI).
Qed.
(** The same with the streams kept when the call fails. *)
Lemma runs_deadline_keep {R} v (c : ble_call R) op sel :
  allowed c → runs (J v) (with_ble_timeout c op sel) (λ _, J v) (J v).
Proof. intros Hc. apply runs_finish. intros w. by apply (J_call _ _ _ HI). Qed.
Lemma runs_notifications p op sel :
  allowed (Call_notifications p) → runs (I []) (with_ble_timeout (Call_notifications p) op sel) J (I []).
Proof.
  intros Hd w Hw. unfold with_ble_timeout, with_ble_deadline.
  pose proof (I_call _ _ _ HI [] _ (Call_notifications p) w Hd Hw) as Hi.
  pose proof (λ v, J_new _ _ _ HI p v w Hw) as Hj.
  destruct (run_call (Call_notifications p) w) as [[v|e| |[]] w']; simpl in *; auto.
Qed.

Lemma runs_discovery {R} l timeout (c : ble_call R) op :
  allowed c → runs (I l) (with_discovery_deadline timeout c op) (λ _, I l) (I l).
Proof.
  intros Hc w Hw. unfold with_discovery_deadline. pose proof (I_call _ _ _ HI _ _ c w Hc Hw) as Hi.
  destruct (provider_token c _); [|done|done]. by destruct (run_call c w) as [[v|e| |[]] w'].
Qed.

(** Starting the scan of a registered adapter. *)
Lemma runs_start l a services op sel :
  a ∈ l → runs (I l) (with_ble_deadline (Call_start_scan a services) op sel) (λ _, I l) (I l).
Proof. intros Ha. apply runs_finish. intros w. by apply (I_start _ _ _ HI). Qed.
Lemma runs_start_discovery l a services timeout op :
  a ∈ l → runs (I l) (with_discovery_deadline timeout (Call_start_scan a services) op) (λ _, I l) (I l).
Proof.
  intros Ha w Hw. unfold with_discovery_deadline. pose proof (I_start _ _ _ HI _ _ services w Ha Hw) as Hi.
  destruct (provider_token _ _); [|done|done]. by destruct (run_call _ w) as [[v|e| |[]] w'].
Qed.

Lemma runs_bare {R} (K : ble_world W → Prop) (c : ble_call R) :
  (∀ w, K w → K (run_call c w).2) → runs K (bare_call c) (λ _, K) K.
Proof.
  intros HK w Hw%HK. unfold bare_call. by destruct (run_call c w) as [[v|e| |[]] w'].
Qed.
Lemma runs_bare_I {R} l (c : ble_call R) : allowed c → runs (I l) (bare_call c) (λ _, I l) (I l).
Proof. intros Hc. apply runs_bare. intros w. by apply (I_call _ _ _ HI). Qed.

Lemma runs_pause {E} l : runs (I l) (pause : act _ E ()) (λ _, I l) (I l).
Proof.
  eapply runs_bind; [apply runs_attempt_drop, runs_bare_I; allow|]. intros r. eapply runs_conseq;
    [apply runs_ret|naive_solver..].
Qed.

(** ** Scans *)

Lemma drop_scans scans w :
  Scans_stopped scans = false → I (Scans_adapters scans) w → I [] (Scans_drop scans w).
Proof. intros Hs Hw. unfold Scans_drop. rewrite Hs. by apply (I_schedule _ _ _ HI). Qed.

Lemma runs_holding {E A} scans (m : act (ble_world W) E A) Q X :
  Scans_stopped scans = false → runs (I (Scans_adapters scans)) m Q (I (Scans_adapters scans)) →
  (∀ w, I [] w → X w) →
  ∀ w, I (Scans_adapters scans) w →
  match holding scans (attempt (F:=E) m) w with
  | (Ready (Ok (Ok a)), w') => Q a w'
  | (Ready (Ok (Err _)), w') => I (Scans_adapters scans) w'
  | (Ready _, _) => False
  | (_, w') => X w'
  end.
Proof.
  intros Hs Hm HX w Hw. specialize (Hm w Hw). unfold holding, attempt.
  destruct (m w) as [[[a|e|]| |] w']; try done; by apply HX, drop_scans.
Qed.

Lemma runs_scans_stop scans :
  Scans_stopped scans = false →
  runs (I (Scans_adapters scans)) (Scans_stop scans) (λ _, I []) (I []).
Proof.
  intros Hs w Hw. unfold Scans_stop. case_bool_decide as Hn; [by rewrite Hn in Hw|].
  pose proof (I_stop _ _ _ HI _ _ Hw) as Hi. destruct (stop_all _ w) as [fates w']. simpl in Hi.
  assert (I (Scans_adapters scans) w') as Hl by (eapply (I_mono _ _ _ HI); [|done]; set_solver).
  destruct (first_cut fates) as [[]|]; simpl; [by apply drop_scans..|].
  destruct (any_late fates); simpl; [by apply (I_schedule _ _ _ HI)|].
  destruct (first_failure fates); simpl; [by apply (I_schedule _ _ _ HI)|done].
Qed.

Lemma runs_start_scans {E} (start : nat → act (ble_world W) E ()) adapters scans :
  (∀ l a, a ∈ l → runs (I l) (start a) (λ _, I l) (I l)) →
  Scans_stopped scans = false →
  runs (I (Scans_adapters scans)) (start_scans start adapters scans)
    (λ scans' w, Scans_stopped scans' = false ∧ I (Scans_adapters scans') w) (I []).
Proof.
  intros Hstart. revert scans. induction adapters as [|a adapters IH]; intros scans Hs.
  { intros w Hw. by split. }
  intros w Hw. cbn [start_scans]. unfold mbind, act_bind at 1.
  set (scans' := Scans_register scans a).
  assert (I (Scans_adapters scans') w) as Hw' by (eapply (I_mono _ _ _ HI); [|done]; set_solver).
  assert (a ∈ Scans_adapters scans') as Ha by (apply elem_of_app; right; by apply list_elem_of_singleton).
  pose proof (runs_holding scans' (start a) _ (I []) Hs (Hstart _ a Ha) (λ _, id) w Hw') as Hh.
  destruct (holding scans' _ w) as [[[[u|e|]|e|]| |] w']; try done.
  - by apply (IH scans' Hs).
  - apply (runs_fail_after _ (Scans_stop scans') e _ _ (runs_scans_stop scans' Hs) w' Hh).
Qed.

(** ** Searching *)

Lemma runs_find_cached l adapters sel req :
  runs (I l) (find_cached adapters sel req) (λ _, I l) (I l).
Proof.
  induction adapters as [|a adapters IH]; [by apply runs_value|]. cbn [find_cached].
  eapply runs_bind; [apply runs_deadline; allow|]. intros ps. destruct (find _ ps); [by apply runs_value|exact IH].
Qed.

Lemma runs_search l turns adapters sel req :
  runs (I l) (search turns adapters sel req) (λ _, I l) (I l).
Proof.
  induction turns as [|turns IH]; [by apply runs_value|]. cbn [search].
  eapply runs_bind; [apply runs_find_cached|]. intros [found|]; [by apply runs_value|].
  eapply runs_bind; [apply runs_pause|]. intros u. exact IH.
Qed.

Lemma runs_find_peripheral req : runs (I []) (find_peripheral req) (λ _, I []) (I []).
Proof.
  unfold find_peripheral.
  eapply runs_bind; [apply runs_deadline; allow|]. intros u.
  eapply runs_bind; [apply runs_deadline; allow|]. intros adapters.
  case_bool_decide; [by apply runs_fail|].
  eapply runs_bind; [apply runs_find_cached|]. intros [found|]; [by apply runs_value|].
  eapply runs_bind; [apply (runs_start_scans _ _ ActiveScans_new); [|done]; intros l a Ha; by apply runs_start|].
  intros scans w [Hs Hw]. unfold mbind, act_bind at 1.
  pose proof (runs_holding scans (search_until_deadline adapters (strip_ble req) req) (λ _, I (Scans_adapters scans))
    (I []) Hs (λ w Hw, runs_search _ _ _ _ _ w Hw) (λ _, id) w Hw) as Hh.
  destruct (holding scans _ w) as [[[[found|e|]|e|]| |] w']; try done.
  2: apply (runs_fail_after _ (Scans_stop scans) e _ _ (runs_scans_stop scans Hs) w' Hh).
  eapply runs_bind; [by apply runs_attempt_drop, runs_scans_stop| |exact Hh]. intros stopped.
  eapply runs_bind; [apply (runs_pure _ _ (λ _, I []))|intros u0; apply runs_pure].
  - intros s [Hp _]. by destruct stopped.
  - by intros a s _ [].
  - by intros s [].
  - by destruct found.
  - done.
  - done.
Qed.

(** ** Discovery *)

Lemma runs_usable timeout adapters :
  runs (I []) (usable_adapters timeout adapters) (λ _, I []) (I []).
Proof.
  induction adapters as [|a adapters IH]; [by apply runs_value|]. cbn [usable_adapters].
  eapply runs_bind; [apply runs_discovery; allow|]. intros state.
  eapply runs_bind; [exact IH|]. intros rest. by apply runs_value.
Qed.

Lemma runs_collect_peripherals timeout name ps records :
  runs (I []) (collect_peripherals timeout name ps records) (λ _, I []) (I []).
Proof.
  revert records. induction ps as [|p ps IH]; intros records; [by apply runs_value|].
  cbn [collect_peripherals]. eapply runs_bind; [apply runs_discovery; allow|]. intros props. apply IH.
Qed.

Lemma runs_collect timeout adapters :
  runs (I []) (collect_discovered_devices adapters timeout) (λ _, I []) (I []).
Proof.
  eapply (runs_bind _ _ _ (λ _, I [])); [|intros records; by apply runs_value]. generalize (∅ : gmap string DiscoveredDevice).
  induction adapters as [|a adapters IH]; intros records; [by apply runs_value|]. cbn [collect_adapters].
  eapply runs_bind; [apply runs_discovery; allow|]. intros name.
  eapply runs_bind; [apply runs_discovery; allow|]. intros ps.
  eapply runs_bind; [apply runs_collect_peripherals|]. intros records'. apply IH.
Qed.

Lemma runs_observe l : runs (I l) observe (λ _, I l) (I l).
Proof.
  intros w Hw. unfold observe. pose proof (I_call _ _ _ HI l _ Call_sleep w (allowed_search _ _ _ HI _ Call_sleep Logic.I) Hw) as Hi.
  destruct (provider_token Call_sleep _); [|done|done]. by apply runs_pause.
Qed.

Lemma validate_scan_timeout_no_panic timeout : validate_scan_timeout timeout ≠ Panic.
Proof. unfold validate_scan_timeout, validate_timeout. by destruct (_ || _). Qed.

Lemma runs_discover timeout : runs (I []) (discover_ble_with_cancellation timeout) (λ _, I []) (I []).
Proof.
  unfold discover_ble_with_cancellation.
  eapply runs_bind; [apply (runs_pure _ _ (λ _, I [])); [|done|done];
    intros; apply validate_scan_timeout_no_panic|]. intros u.
  eapply runs_bind; [apply runs_discovery; allow|]. intros u0.
  eapply runs_bind; [apply runs_discovery; allow|]. intros adapters.
  case_bool_decide; [by apply runs_fail|].
  eapply runs_bind; [apply runs_usable|]. intros usable.
  destruct (bool_decide (usable.1 = []) && _); [by apply runs_fail|].
  eapply runs_bind; [apply (runs_start_scans _ _ ActiveScans_new); [|done]; intros l a Ha; by apply runs_start_discovery|].
  intros scans w [Hs Hw]. unfold mbind, act_bind at 1.
  pose proof (runs_holding scans observe _ (I []) Hs (runs_observe _) (λ _, id) w Hw) as Hh.
  destruct (holding scans _ w) as [[[[found|e|]|e|]| |] w']; try done.
  2: apply (runs_fail_after _ (Scans_stop scans) e _ _ (runs_scans_stop scans Hs) w' Hh).
  eapply runs_bind; [by apply runs_attempt_drop, runs_scans_stop| |exact Hh]. intros stopped.
  eapply runs_bind; [apply (runs_pure _ _ (λ _, I []))|intros u1; apply runs_collect].
  - intros s [Hp _]. by destruct stopped.
  - by intros a s _ [].
  - by intros s [].
Qed.

(** ** Connections *)

Lemma resolve_uart_no_panic services cs sel : resolve_uart_characteristics services cs sel ≠ Panic.
Proof.
  unfold resolve_uart_characteristics, ensure. destruct (existsb _ services); [|done]. cbn [mbind outcome_bind].
  destruct (find_characteristic NORDIC_UART_WRITE_CHARACTERISTIC cs) as [write|]; [|done]. cbn [mbind outcome_bind ok_or].
  destruct (find_characteristic NORDIC_UART_NOTIFY_CHARACTERISTIC cs) as [notify|]; [|done]. cbn [mbind outcome_bind ok_or].
  destruct (preferred_write_type _); [|done]. cbn [mbind outcome_bind ok_or]. by destruct (flags_intersect _ _).
Qed.

Lemma runs_establish adapter p sel :
  (∀ R (c : ble_call R), about p c → allowed c) → runs (I []) (establish_connection adapter p sel) (λ c, J (Connection_incoming c)) (I []).
Proof.
  intros Ha. unfold establish_connection.
  eapply runs_bind; [apply runs_deadline; allow|]. intros already.
  eapply (runs_bind _ _ _ (λ _, I [])); [destruct already; [by apply runs_value|apply runs_deadline; allow]|]. intros u.
  eapply runs_bind; [apply runs_deadline; allow|]. intros connected.
  destruct (negb connected); [by apply runs_fail|].
  eapply runs_bind; [apply runs_deadline; allow|]. intros u0.
  eapply (runs_bind _ _ _ (λ _, I [])).
  { intros w Hw. unfold uart_of. pose proof (resolve_uart_no_panic (provider_services p (World_provider w))
      (provider_characteristics p (World_provider w)) sel). by destruct (resolve_uart_characteristics _ _ _). }
  intros uart. eapply runs_bind; [apply runs_notifications; allow|]. intros incoming.
  eapply runs_bind; [apply runs_deadline_J; allow|]. intros u1.
  eapply runs_bind; [apply runs_deadline_J; allow|]. intros u2.
  eapply (runs_bind _ _ _ (λ _, J incoming)); [by intros w Hw|]. intros mtu. by apply runs_value.
Qed.

Lemma runs_close c sel :
  (∀ R (k : ble_call R), about (Connection_peripheral c) k → allowed k) →
  runs (I []) (close_connection c sel) (λ _, I []) (I []).
Proof.
  intros Ha. eapply (runs_bind _ _ _ (λ r w, I [] w ∧ match r with Ok Panic | Panic => False | _ => True end)).
  - eapply runs_conseq; [apply (runs_attempt _ _ (λ r w, I [] w ∧ r ≠ Panic) (I []))|done| |done].
    2:{ intros [[]| |] w; naive_solver. }
    eapply runs_bind; [apply runs_bare_I; allow|]. intros state.
    assert (∀ r : tresult (), r ≠ Panic → runs (I []) (mret r : act (ble_world W) () (tresult ()))
      (λ r w, I [] w ∧ r ≠ Panic) (I [])) as Hret by (intros; by apply runs_value).
    destruct state as [[]|e]; [|by apply Hret|].
    all: eapply runs_bind; [apply runs_bare_I; allow|]; intros r1.
    all: eapply runs_bind; [apply runs_bare_I; allow|]; intros r2; apply Hret; by case_match.
  - intros r. apply runs_pure; intros; destruct r as [[]| |]; naive_solver.
Qed.

Lemma runs_best_effort {E} p :
  allowed (Call_disconnect p) → runs (I []) (best_effort_disconnect p : act _ E ()) (λ _, I []) (I []).
Proof.
  intros Ha. eapply runs_bind; [apply runs_attempt_drop, runs_bare_I; allow|]. intros r. apply runs_value. by intros s [].
Qed.

(** ** The transport *)

Context (Habout : ∀ R p (c : ble_call R), about p c → allowed c).

(** A transport that has sent [ps], with the streams of its connection. *)
Definition transport_inv (ps : list bytes) (t : BleTransport W) : Prop :=
  Ble_sent t = ps ∧
  match Ble_connection t with
  | Some c => J (Connection_incoming c) (Ble_world t)
  | None => I [] (Ble_world t)
  end.
(** The same with the connection taken out. *)
Definition taken (ps : list bytes) (c : option BleConnection) (t : BleTransport W) : Prop :=
  Ble_sent t = ps ∧ Ble_connection t = None ∧
  match c with Some c => J (Connection_incoming c) (Ble_world t) | None => I [] (Ble_world t) end.

Lemma taken_inv ps c t : taken ps c t → transport_inv ps t.
Proof.
  intros (Hs&Hc&Hw). split; [done|]. rewrite Hc. destruct c; [by apply (J_I _ _ _ HI) in Hw|done].
Qed.
Lemma taken_none ps c t : taken ps c t → taken ps None t.
Proof. intros (?&?&Hw). split_and!; [done|done|]. destruct c; [by apply (J_I _ _ _ HI) in Hw|done]. Qed.

Lemma runs_take ps : runs (transport_inv ps) take_connection (taken ps) (transport_inv ps).
Proof. intros t [Hs Ht]. by destruct (Ble_connection t) eqn:Hc; simpl; rewrite Hc. Qed.

(** A call on the world, of a transport that holds nothing. *)
Lemma runs_in_world {A} ps (m : string → act (ble_world W) TransportError A) (Q : A → ble_world W → Prop) :
  (∀ sel, runs (I []) (m sel) Q (I [])) →
  runs (taken ps None) (in_world m)
    (λ a t, Ble_sent t = ps ∧ Ble_connection t = None ∧ Q a (Ble_world t)) (transport_inv ps).
Proof.
  intros Hm t (Hs&Hc&Hw). specialize (Hm (Ble_selector t) _ Hw). unfold in_world.
  destruct (m (Ble_selector t) (Ble_world t)) as [[[a|e|]| |] w']; simpl; try done.
  all: split; simpl; [done|by rewrite Hc].
Qed.
(** A query while a connection is held, or while it is taken out. *)
Lemma runs_query {R} (P X : BleTransport W → Prop) (c : ble_call R) op :
  (∀ t, P t → P (ble_with t (Ble_connection t) (run_call c (Ble_world t)).2)) →
  (∀ t, P t → X t) →
  runs P (attempt (F:=TransportError) (in_world (with_ble_timeout c op))) (λ r t, r ≠ Panic ∧ P t) X.
Proof.
  intros HP HX t Ht. specialize (HP t Ht). specialize (HX _ HP).
  unfold attempt, in_world, with_ble_timeout, with_ble_deadline.
  by destruct (run_call c (Ble_world t)) as [[v|e| |[]] w].
Qed.
Lemma taken_call {R} ps c (k : ble_call R) t :
  allowed k → taken ps c t → taken ps c (ble_with t (Ble_connection t) (run_call k (Ble_world t)).2).
Proof.
  intros Hk (?&?&Hw). split_and!; [done|done|]. simpl.
  destruct c; [by apply (J_call _ _ _ HI)|by apply (I_call _ _ _ HI)].
Qed.

Lemma runs_establishing ps adapter p :
  runs (taken ps None) (established ← attempt (in_world (establish_connection adapter p));
    match established with
    | Ok connection => hold (Some connection)
    | Err error => _ ← in_world (λ _, best_effort_disconnect p); fail error
    | Panic => pure Panic
    end) (λ _, transport_inv ps) (transport_inv ps).
Proof.
  intros t (Hs&Hc&Hw). unfold mbind, act_bind, attempt, in_world.
  pose proof (runs_establish adapter p (Ble_selector t) (λ R c, Habout R p c) _ Hw) as He.
  destruct (establish_connection _ _ _ _) as [[[c|e|]| |] w]; simpl; try done.
  2,3: by split; [done|]; simpl; rewrite Hc.
  pose proof (runs_best_effort (E:=TransportError) p (Habout _ p (Call_disconnect p) eq_refl) _ He) as Hb.
  destruct (best_effort_disconnect p w) as [[[[]|e'|]| |] w']; simpl; try done;
    by split; [done|]; simpl; rewrite Hc.
Qed.

Lemma runs_connect ps : runs (transport_inv ps) ble_connect (λ _, transport_inv ps) (transport_inv ps).
Proof.
  eapply runs_bind; [apply runs_take|]. intros c.
  eapply (runs_bind _ _ _ (λ _, taken ps None)).
  - destruct c as [c|]; [|by apply runs_value].
    eapply runs_bind; [apply (runs_query (taken ps (Some c)))|].
    + intros t. apply taken_call; allow.
    + apply taken_inv.
    + intros [[]|e|].
      * intros t (_&Hs&Hc&Hj). by split.
      * apply runs_value. intros t [_ Ht]. by eapply taken_none.
      * eapply runs_conseq; [apply (runs_fail_after (taken ps None) _ _ (λ _, taken ps None) (transport_inv ps))
          |by intros t [_ ?%taken_none]|done|done].
        eapply runs_conseq; [apply (runs_in_world ps _ (λ _, I [])); intros; apply runs_close; intros R k; apply Habout|done| |done].
        intros u t ?. by apply (taken_inv _ None).
      * apply runs_pure; naive_solver.
  - intros u. eapply runs_bind; [apply (runs_in_world ps _ (λ _, I [])); apply runs_find_peripheral|].
    intros found. eapply runs_conseq; [apply runs_establishing|done|done|done].
Qed.

Lemma runs_disconnect ps : runs (transport_inv ps) ble_disconnect (λ _, transport_inv ps) (transport_inv ps).
Proof.
  eapply runs_bind; [apply runs_take|]. intros [c|]; [|apply runs_value; by apply taken_inv].
  eapply runs_conseq; [apply (runs_in_world ps _ (λ _, I [])); intros; apply runs_close; intros R k; apply Habout|apply taken_none| |done].
  intros u t ?. by apply (taken_inv _ None).
Qed.

(** What is held during a write. *)
Definition holds (ps : list bytes) (c : BleConnection) (t : BleTransport W) : Prop :=
  Ble_sent t = ps ∧ Ble_connection t = Some c ∧ J (Connection_incoming c) (Ble_world t).
Lemma holds_inv ps c t : holds ps c t → transport_inv ps t.
Proof. intros (?&Hc&?). split; [done|]. by rewrite Hc. Qed.
Lemma holds_call {R} ps c (k : ble_call R) t :
  allowed k → holds ps c t → holds ps c (ble_with t (Ble_connection t) (run_call k (Ble_world t)).2).
Proof. intros Hk (?&?&Hw). split_and!; [done|done|]. by apply (J_call _ _ _ HI). Qed.

Lemma runs_give_up ps c p error (Q : () → BleTransport W → Prop) :
  runs (holds ps c) (_ ← hold None; _ ← in_world (λ _, best_effort_disconnect p); fail error)
    Q (transport_inv ps).
Proof.
  eapply (runs_bind _ _ _ (λ _, taken ps None)).
  { intros t (?&?&Hw). split_and!; [done|done|]. by apply (J_I _ _ _ HI) in Hw. }
  intros u. eapply runs_bind; [apply (runs_in_world ps _ (λ _, I [])); intros; apply runs_best_effort; allow|].
  intros u0. apply runs_fail. intros t ?. by apply (taken_inv _ None).
Qed.

Lemma runs_write ps payload :
  (∀ R (c : ble_call R), writing c → allowed c) → runs (transport_inv ps) (ble_write payload) (λ _, transport_inv (ps ++ [payload])) (transport_inv ps).
Proof.
  intros Hwr. assert (validate_payload payload ≠ Panic) as Hv by (unfold validate_payload; by case_match).
  eapply (runs_bind _ _ _ (λ _, transport_inv ps)); [by apply runs_pure|]. intros u.
  eapply (runs_bind _ _ _ (λ h t, transport_inv ps t ∧ Ble_connection t = h)); [by intros t Ht|]. intros h.
  eapply (runs_bind _ _ _ (λ c t, holds ps c t)).
  { apply runs_pure; [by destruct h| |by intros t []]. intros c t Hh [[Hs Ht] Hc]. destruct h; [|done].
    injection Hh as ->. rewrite Hc in Ht. by split. }
  intros c. eapply (runs_bind _ _ _ (λ _, holds ps c)).
  { apply runs_pure; [|done|apply holds_inv]. intros. unfold validate_negotiated_payload. by case_match. }
  intros u0. eapply runs_bind; [apply (runs_query (holds ps c)); [|apply holds_inv]; intros t; apply holds_call; allow|].
  intros [[]|e|].
  - eapply (runs_bind _ _ _ (λ r t, r ≠ Panic ∧ holds ps c t)); [eapply runs_conseq; [apply (runs_query (holds ps c)); [|apply holds_inv];
      intros t; apply holds_call; allow|by intros t []|done|done]|].
    intros [u1|e|]; [|eapply runs_conseq; [apply (runs_give_up ps c _ _ (λ _, transport_inv (ps ++ [payload])))|by intros t []|done|done]|apply runs_pure; naive_solver].
    intros t (_&Hs&Hc&Hw). split; simpl; [by rewrite Hs|by rewrite Hc].
  - eapply (runs_bind _ _ _ (λ _, transport_inv ps)); [|intros u1; by apply runs_fail].
    intros t (_&Hs&Hc&Hw). split; simpl; [done|]. by apply (J_I _ _ _ HI) in Hw.
  - eapply runs_conseq; [apply (runs_give_up ps c _ _ (λ _, transport_inv (ps ++ [payload])))|by intros t []|done|done].
  - apply runs_pure; naive_solver.
Qed.

End world.

(** ** [reconnect] closes, whatever comes of it, and connects *)

Section reconnect.
Context {W : Type} `{BleProvider W}.

Lemma trivial_invariant : world_invariant (W:=W) (λ _ _, True) (λ _ _, True) (λ _ _, True).
Proof. by split. Qed.

Lemma ble_reconnect_steps (t : BleTransport W) :
  ble_reconnect t = match ble_disconnect t with
                    | (Ready (Ok _ | Err _), t) => ble_connect t
                    | (r, t) => (r, t)
                    end.
Proof.
  unfold ble_reconnect, ble_disconnect, mbind, act_bind, take_connection. cbn beta iota.
  destruct (Ble_connection t) as [c|]; [|done]. unfold attempt, in_world.
  pose proof (runs_close _ _ _ trivial_invariant c (Ble_selector t) (λ _ _ _, Logic.I) (Ble_world t) Logic.I) as Hp.
  simpl. by destruct (close_connection c _ _) as [[[]| |] w].
Qed.

Lemma ble_reconnect_keeps (P : polled (tresult ()) → Prop) (I : BleTransport W → Prop) t :
  (I t → I (ble_disconnect t).2 ∧ P (ble_disconnect t).1) → (∀ t, I t → I (ble_connect t).2 ∧ P (ble_connect t).1) →
  I t → I (ble_reconnect t).2 ∧ P (ble_reconnect t).1.
Proof.
  intros Hd Hc Ht. destruct (Hd Ht) as [Ht' Hp]. rewrite ble_reconnect_steps.
  destruct (ble_disconnect t) as [[[]| |] t']; simpl in *; auto.
Qed.
End reconnect.
