(* ===== verification/BleProps.v ===== *)
(** * Properties of the BLE transport and of BLE discovery

    The laws of the transport interface, so that the theorems about the client
    hold over BLE; scans and links that are given back; packets that are handed
    over whole, once and within the negotiated size; and what a scan reports. *)

From Stdlib Require Import Sorted.
From S2P Require Import Prelude Text Order Domain Packet Framing Transport Discovery Framed Ble BleFacts.

(** ** What is known of the library *)

Definition poll_bytes (e : ble_poll) : Prop :=
  match e with
  | Poll_Event (Read_Notification (Some n)) => is_bytes (Notification_value n)
  | _ => True
  end.
(** The packets a stream can still deliver. *)
Definition poll_count (incoming : list ble_poll) : nat :=
  sum_list_with (λ e, match e with Poll_Event (Read_Notification (Some _)) => 1 | _ => 0 end) incoming.

(** What the type system guarantees: the library delivers bytes. *)
Class LawfulProvider (W : Type) `{BleProvider W} := {
  provider_ok : W → Prop;
  run_ok R (c : ble_call R) w : provider_ok w → provider_ok (provider_run c w).2;
  notifications_ok p v w :
    provider_ok w → (provider_run (Call_notifications p) w).1 = Provider_Done v → Forall poll_bytes v
}.

(** A library that delivers finitely many packets over all connections. *)
Class FiniteProvider (W : Type) `{BleProvider W} := {
  provider_left : W → nat;
  run_left R (c : ble_call R) w : provider_left (provider_run c w).2 ≤ provider_left w;
  notifications_left p v w :
    (provider_run (Call_notifications p) w).1 = Provider_Done v →
    poll_count v + provider_left (provider_run (Call_notifications p) w).2 ≤ provider_left w
}.

(** The futures are polled and dropped within the runtime. *)
Class BleRuntime (W : Type) `{BleProvider W} := { runtime_present w : provider_handle w = true }.

(** ** The world under calls *)

Lemma run_call_spec {W} `{BleProvider W} {R} (c : ble_call R) (w : ble_world W) :
  (run_call c w).1 = (provider_run c (World_provider w)).1 ∧
  World_provider (run_call c w).2 = (provider_run c (World_provider w)).2 ∧
  World_log (run_call c w).2 = World_log w ++ [Effect_Call c (run_call c w).1].
Proof. unfold run_call. by destruct (provider_run c _). Qed.

Section laws.
Context {W : Type} `{BleProvider W}.

(** An invariant of the library's state alone. *)
Lemma provider_invariant (I : W → Prop) (J : list ble_poll → W → Prop) :
  (∀ R (c : ble_call R) w, I w → I (provider_run c w).2) →
  (∀ v R (c : ble_call R) w, J v w → J v (provider_run c w).2) →
  (∀ p v w, I w → (provider_run (Call_notifications p) w).1 = Provider_Done v →
     J v (provider_run (Call_notifications p) w).2) →
  (∀ v w, J v w → I w) →
  world_invariant (λ _ _, True) (λ _ w, I (World_provider w)) (λ v w, J v (World_provider w)).
Proof.
  intros HI HJ HN HJI.
  assert (∀ R (c : ble_call R) w, World_provider (run_call c w).2 = (provider_run c (World_provider w)).2) as Hrun
    by (intros; apply run_call_spec).
  split.
  - done.
  - intros l R c w _ Hw. rewrite Hrun. by apply HI.
  - intros l a services w _ Hw. rewrite Hrun. by apply HI.
  - done.
  - intros l. induction l as [|a l IH]; intros w Hw; simpl; [done|].
    specialize (IH (run_call (Call_stop_scan a) w).2). rewrite Hrun in IH. specialize (IH (HI _ _ _ Hw)).
    destruct (run_call _ w). simpl in *. by destruct (stop_all l _).
  - intros l w Hw. unfold schedule_best_effort_scan_stop. by destruct (negb _).
  - intros v R c w _ Hw. rewrite Hrun. by apply HJ.
  - intros p v w Hw Hv. rewrite Hrun. rewrite (proj1 (run_call_spec _ _)) in Hv. by apply HN.
  - intros v w. apply HJI.
Qed.

Lemma ok_invariant `{!LawfulProvider W} :
  world_invariant (λ _ _, True) (λ _ w, provider_ok (World_provider w))
    (λ v w, Forall poll_bytes v ∧ provider_ok (World_provider w)).
Proof.
  apply (provider_invariant provider_ok (λ v w, Forall poll_bytes v ∧ provider_ok w)).
  - apply run_ok.
  - intros v R c w [??]. split; [done|by apply run_ok].
  - intros p v w Hw Hv. split; [by eapply notifications_ok|by apply run_ok].
  - by intros v w [].
Qed.

Lemma left_invariant `{!FiniteProvider W} n :
  world_invariant (λ _ _, True) (λ _ w, provider_left (World_provider w) ≤ n)
    (λ v w, poll_count v + provider_left (World_provider w) ≤ n).
Proof.
  apply (provider_invariant (λ w, provider_left w ≤ n) (λ v w, poll_count v + provider_left w ≤ n)).
  - intros R c w Hw. pose proof (run_left R c w). lia.
  - intros v R c w Hw. pose proof (run_left R c w). lia.
  - intros p v w Hw Hv%notifications_left. lia.
  - intros v w Hw. lia.
Qed.

(** ** Reading *)

Lemma read_events_spec id events incoming :
  let '(r, remaining) := read_events id events incoming in
  r ≠ Ready Panic ∧
  (Forall poll_bytes incoming →
     match r with Ready (Ok (Some p)) => is_bytes p | _ => True end ∧
     match remaining with Some (_, rest) => Forall poll_bytes rest | None => True end) ∧
  let left := match remaining with Some (_, rest) => poll_count rest | None => 0 end in
  match r with Ready (Ok (Some _)) => left < poll_count incoming | _ => left ≤ poll_count incoming end.
Proof.
  revert events. induction incoming as [|e incoming IH]; intros events; [by split_and!|].
  assert (poll_count incoming ≤ poll_count (e :: incoming)) as Hle.
  { unfold poll_count. simpl. lia. }
  assert (∀ ev, let '(r, remaining) := read_events id ev incoming in
    r ≠ Ready Panic ∧
    (Forall poll_bytes (e :: incoming) →
       match r with Ready (Ok (Some p)) => is_bytes p | _ => True end ∧
       match remaining with Some (_, rest) => Forall poll_bytes rest | None => True end) ∧
    let left := match remaining with Some (_, rest) => poll_count rest | None => 0 end in
    match r with Ready (Ok (Some _)) => left < poll_count (e :: incoming)
    | _ => left ≤ poll_count (e :: incoming) end) as Hskip.
  { intros ev. specialize (IH ev). destruct (read_events id ev incoming) as [r remaining].
    destruct IH as (Hp&Hb&Hl). split_and!; [done|by intros [_ Hf]%Forall_cons; apply Hb|].
    destruct r as [[[]| |]| |]; simpl in *; lia. }
  destruct e as [[[n|]|event]| |]; cbn [read_events].
  - destruct (negb _); [apply Hskip|]. unfold validate_payload.
    assert (poll_count (Poll_Event (Read_Notification (Some n)) :: incoming) = S (poll_count incoming)) as -> by done.
    destruct (_ <? _); simpl; (split_and!; [done|by intros [Hn Hf]%Forall_cons|lia]).
  - split_and!; try done; simpl; lia.
  - destruct (negb events); [apply Hskip|]. destruct event as [[id'|]|]; [|apply Hskip..].
    destruct (String.eqb id' id); [|apply Hskip]. split_and!; try done; simpl; lia.
  - split_and!; [done|by intros [_ Hf]%Forall_cons|simpl; lia].
  - split_and!; [done|by intros [_ Hf]%Forall_cons|simpl; lia].
Qed.
End laws.

(** ** The laws of the interface *)

Section instances.
Context {W : Type} `{BleProvider W}.
Implicit Types t : BleTransport W.

Lemma ble_read_sent t : Ble_sent (ble_read t).2 = Ble_sent t.
Proof. unfold ble_read. destruct (Ble_connection t); [|done]. by destruct (read_events _ _ _). Qed.

Abbreviation plain_inv := (transport_inv (W:=W) (λ _ _, True) (λ _ _, True)) (only parsing).
Abbreviation ok_inv :=
  (transport_inv (W:=W) (λ _ w, provider_ok (World_provider w))
     (λ v w, Forall poll_bytes v ∧ provider_ok (World_provider w))) (only parsing).
Abbreviation left_inv n :=
  (transport_inv (W:=W) (λ _ w, provider_left (World_provider w) ≤ n)
     (λ v w, poll_count v + provider_left (World_provider w) ≤ n)) (only parsing).

(** Every transport is plain, so the triples say what it sends and that it does
    not panic. *)
Lemma runs_plain {A} (m : act (BleTransport W) TransportError A) (Q : A → BleTransport W → Prop) t :
  runs (plain_inv (Ble_sent t)) m Q (plain_inv (Ble_sent t)) →
  (m t).1 ≠ Ready Panic ∧
  match m t with (Ready (Ok a), t') => Q a t' | (_, t') => Ble_sent t' = Ble_sent t end.
Proof.
  intros Hm. assert (plain_inv (Ble_sent t) t) as Ht by (split; [done|by case_match]).
  specialize (Hm _ Ht). destruct (m t) as [[[]| |] t']; try done; by destruct Hm.
Qed.
Lemma ble_connect_plain t : (ble_connect t).1 ≠ Ready Panic ∧ Ble_sent (ble_connect t).2 = Ble_sent t.
Proof.
  destruct (runs_plain _ _ t (runs_connect _ _ _ trivial_invariant (λ _ _ _ _, Logic.I) (Ble_sent t))) as [Hp Hs].
  split; [done|]. destruct (ble_connect t) as [[[]| |] t']; try done; by destruct Hs.
Qed.
Lemma ble_disconnect_plain t : (ble_disconnect t).1 ≠ Ready Panic ∧ Ble_sent (ble_disconnect t).2 = Ble_sent t.
Proof.
  destruct (runs_plain _ _ t (runs_disconnect _ _ _ trivial_invariant (λ _ _ _ _, Logic.I) (Ble_sent t))) as [Hp Hs].
  split; [done|]. destruct (ble_disconnect t) as [[[]| |] t']; try done; by destruct Hs.
Qed.
Lemma ble_write_plain t p :
  (ble_write p t).1 ≠ Ready Panic ∧
  Ble_sent (ble_write p t).2 =
    match (ble_write p t).1 with Ready (Ok _) => Ble_sent t ++ [p] | _ => Ble_sent t end.
Proof.
  destruct (runs_plain _ _ t (runs_write _ _ _ trivial_invariant (λ _ _ _ _, Logic.I) (Ble_sent t) p (λ _ _ _, Logic.I))) as [Hp Hs].
  split; [done|]. destruct (ble_write p t) as [[[]| |] t']; try done; by destruct Hs.
Qed.

Lemma try_read_state {T} (P : T → Prop) (read : T → polled (tresult (option bytes)) * T) (t : T) :
  P (read t).2 → P (default_try_read read t).2.
Proof. unfold default_try_read. by destruct (read t) as [[[[]| |]| |] t']. Qed.

Definition ble_wf `{!LawfulProvider W} (t : BleTransport W) : Prop := ok_inv (Ble_sent t) t.

Lemma ble_wf_kept `{!LawfulProvider W} {A} (m : act (BleTransport W) TransportError A) t f :
  (∀ ps, runs (ok_inv ps) m (λ _, ok_inv (f ps)) (ok_inv ps)) →
  ble_wf t → ble_wf (m t).2 ∧ (m t).1 ≠ Ready Panic.
Proof.
  intros Hm Ht%Hm. unfold ble_wf. destruct (m t) as [[[]| |] t']; simpl in *; try done;
    (split; [|done]); destruct Ht as [Hs ?]; by split.
Qed.

Lemma ble_read_wf `{!LawfulProvider W} t :
  ble_wf t → ble_wf (ble_read t).2 ∧
  match (ble_read t).1 with Ready (Ok (Some p)) => is_bytes p | Ready Panic => False | _ => True end.
Proof.
  intros [_ Ht]. unfold ble_read. destruct (Ble_connection t) as [c|] eqn:Hc.
  2:{ split; [|done]. split; [done|]. simpl. by rewrite Hc. }
  pose proof (read_events_spec (Connection_peripheral_id c) (Connection_events c) (Connection_incoming c)) as Hr.
  destruct (read_events _ _ _) as [r remaining]. destruct Hr as (Hp&Hb&_). destruct Ht as [Hin Hok].
  specialize (Hb Hin) as [Hb1 Hb2]. split.
  - split; [done|]. by destruct remaining as [[ev rest]|].
  - by destruct r as [[[]| |]| |].
Qed.

Lemma ble_connect_wf `{!LawfulProvider W} t : ble_wf t → ble_wf (ble_connect t).2 ∧ (ble_connect t).1 ≠ Ready Panic.
Proof. apply (ble_wf_kept _ _ id). intros. by apply (runs_connect _ _ _ ok_invariant (λ _ _ _ _, Logic.I)). Qed.
Lemma ble_disconnect_wf `{!LawfulProvider W} t : ble_wf t → ble_wf (ble_disconnect t).2 ∧ (ble_disconnect t).1 ≠ Ready Panic.
Proof. apply (ble_wf_kept _ _ id). intros. by apply (runs_disconnect _ _ _ ok_invariant (λ _ _ _ _, Logic.I)). Qed.

#[global] Program Instance Ble_observed `{!LawfulProvider W} : ObservedTransport (BleTransport W) := {
  transport_sent := Ble_sent;
  transport_wf := ble_wf
}.
Next Obligation. intros ? t. apply ble_connect_plain. Qed.
Next Obligation. intros ? t. apply ble_disconnect_plain. Qed.
Next Obligation.
  intros ? t. apply (ble_reconnect_keeps (λ _, True) (λ t', Ble_sent t' = Ble_sent t)); [|intros t' <-|done];
    by rewrite ?(proj2 (ble_disconnect_plain _)), ?(proj2 (ble_connect_plain _)).
Qed.
Next Obligation. intros ? t. apply ble_read_sent. Qed.
Next Obligation. intros ? t. apply (try_read_state (λ t', Ble_sent t' = Ble_sent t)), ble_read_sent. Qed.
Next Obligation. intros ? t p. apply ble_write_plain. Qed.
Next Obligation. intros ? t. apply ble_connect_wf. Qed.
Next Obligation. intros ? t. apply ble_disconnect_wf. Qed.
Next Obligation.
  intros ? t. apply (ble_reconnect_keeps (λ r, r ≠ Ready Panic)); [apply ble_disconnect_wf|apply ble_connect_wf].
Qed.
Next Obligation.
  intros ? t p. apply (ble_wf_kept (ble_write p) _ (λ ps, ps ++ [p])). intros. by apply (runs_write _ _ _ ok_invariant (λ _ _ _ _, Logic.I)).
Qed.
Next Obligation. intros ? t. apply ble_read_wf. Qed.
Next Obligation.
  intros ? t Ht%ble_read_wf. cbn. unfold default_try_read. by destruct (ble_read t) as [[[[]| |]| |] t'].
Qed.

(** The packets still to come, of the connection and of those to be made. *)
Definition ble_left `{!FiniteProvider W} (t : BleTransport W) : nat :=
  from_option (λ c, poll_count (Connection_incoming c)) 0 (Ble_connection t)
  + provider_left (World_provider (Ble_world t)).

Lemma ble_left_kept `{!FiniteProvider W} {A} (m : act (BleTransport W) TransportError A) t (f : list bytes → list bytes) :
  (∀ n ps, runs (left_inv n ps) m (λ _, left_inv n (f ps)) (left_inv n ps)) →
  (m t).1 ≠ Ready Panic → ble_left (m t).2 ≤ ble_left t.
Proof.
  intros Hm Hp. specialize (Hm (ble_left t) (Ble_sent t) t).
  assert (∀ ps t', left_inv (ble_left t) ps t' → ble_left t' ≤ ble_left t) as Hl.
  { intros ps t' [_ Ht']. unfold ble_left at 1. by destruct (Ble_connection t'). }
  destruct (m t) as [[[]| |] t']; try done; eapply Hl, Hm; (split; [done|]);
    unfold ble_left; by destruct (Ble_connection t); simpl.
Qed.

Lemma ble_read_left `{!FiniteProvider W} t :
  match ble_read t with
  | (Ready (Ok (Some _)), t') => ble_left t' < ble_left t
  | (_, t') => ble_left t' ≤ ble_left t
  end.
Proof.
  unfold ble_read, ble_left. destruct (Ble_connection t) as [c|] eqn:Hc; [|rewrite Hc; simpl; lia].
  pose proof (read_events_spec (Connection_peripheral_id c) (Connection_events c) (Connection_incoming c)) as Hr.
  destruct (read_events _ _ _) as [r remaining]. destruct Hr as (_&_&Hl).
  destruct r as [[[]| |]| |], remaining as [[]|]; simpl in *; lia.
Qed.

Lemma ble_connect_left `{!FiniteProvider W} t : ble_left (ble_connect t).2 ≤ ble_left t.
Proof.
  apply (ble_left_kept ble_connect t id); [|apply ble_connect_plain].
  intros. by apply (runs_connect _ _ _ (left_invariant n) (λ _ _ _ _, Logic.I)).
Qed.
Lemma ble_disconnect_left `{!FiniteProvider W} t : ble_left (ble_disconnect t).2 ≤ ble_left t.
Proof.
  apply (ble_left_kept ble_disconnect t id); [|apply ble_disconnect_plain].
  intros. by apply (runs_disconnect _ _ _ (left_invariant n) (λ _ _ _ _, Logic.I)).
Qed.

#[global] Program Instance Ble_finite `{!FiniteProvider W} : FiniteTransport (BleTransport W) := {
  transport_left := ble_left
}.
Next Obligation. intros ? t. apply ble_read_left. Qed.
Next Obligation.
  intros ? t p. apply (ble_left_kept (ble_write p) t (λ ps, ps ++ [p])); [|apply ble_write_plain].
  intros. by apply (runs_write _ _ _ (left_invariant n) (λ _ _ _ _, Logic.I)).
Qed.
Next Obligation.
  intros ? t. pose proof (ble_read_left t) as Hr. apply (try_read_state (λ t', ble_left t' ≤ ble_left t)).
  destruct (ble_read t) as [[[[]| |]| |] t']; simpl in *; lia.
Qed.
Next Obligation. intros ? t. apply ble_connect_left. Qed.
Next Obligation. intros ? t. apply ble_disconnect_left. Qed.
Next Obligation.
  intros ? t. apply (ble_reconnect_keeps (λ _, True) (λ t', ble_left t' ≤ ble_left t)); [|intros t' Ht'|done].
  - intros _. split; [apply ble_disconnect_left|done].
  - pose proof (ble_connect_left t'). split; [lia|done].
Qed.
End instances.

(** ** Scans are stopped *)

(** Whether an adapter has been asked to scan and not been asked to stop since. *)
Definition scan_step (a : nat) (b : bool) (e : ble_effect) : bool :=
  match e with
  | Effect_Call c _ =>
      match c with
      | Call_start_scan a' _ => if a' =? a then true else b
      | Call_stop_scan a' => if a' =? a then false else b
      | _ => b
      end
  | Effect_ScheduledStop a' => if a' =? a then false else b
  end.
Definition scanning (log : list ble_effect) (a : nat) : bool := fold_left (scan_step a) log false.
Definition no_scans {W} (w : ble_world W) : Prop := ∀ a, scanning (World_log w) a = false.

(** What a program does with the transport; discovery runs beside it. *)
Inductive ble_op :=
| BleConnect | BleDisconnect | BleReconnect | BleWrite (payload : bytes) | BleRead | BleTryRead
| BleDiscover (timeout : Z).
Definition ble_run {W} `{BleProvider W} (t : BleTransport W) (op : ble_op) : BleTransport W :=
  match op with
  | BleConnect => (ble_connect t).2
  | BleDisconnect => (ble_disconnect t).2
  | BleReconnect => (ble_reconnect t).2
  | BleWrite payload => (ble_write payload t).2
  | BleRead => (ble_read t).2
  | BleTryRead => (transport_try_read t).2
  | BleDiscover timeout => ble_with t (Ble_connection t) (discover_ble_with_cancellation timeout (Ble_world t)).2
  end.

Section operations.
Context {W : Type} `{BleProvider W}.
Implicit Types t : BleTransport W.

(** An invariant of the world that every operation keeps, however it ends. *)
Lemma ble_run_inv allowed (I : list nat → ble_world W → Prop) t op :
  world_invariant allowed I (λ _, I []) → (∀ R p (c : ble_call R), about p c → allowed R c) →
  match op with BleWrite _ => ∀ R (c : ble_call R), writing c → allowed R c | _ => True end →
  I [] (Ble_world t) → I [] (Ble_world (ble_run t op)).
Proof.
  intros HI Ha Hwr Hw.
  assert (∀ ps t', transport_inv I (λ _, I []) ps t' → I [] (Ble_world t')) as Hout.
  { intros ps t' [_ Ht]. by destruct (Ble_connection t'). }
  assert (∀ t', I [] (Ble_world t') → transport_inv I (λ _, I []) (Ble_sent t') t') as Hin.
  { intros t' Ht. split; [done|by destruct (Ble_connection t')]. }
  assert (∀ (m : act (BleTransport W) TransportError ()) ps' t', I [] (Ble_world t') →
    runs (transport_inv I (λ _, I []) (Ble_sent t')) m (λ _, transport_inv I (λ _, I []) ps')
      (transport_inv I (λ _, I []) (Ble_sent t')) → I [] (Ble_world (m t').2)) as Hrun.
  { intros m ps' t' Ht' Hm. specialize (Hm t' (Hin _ Ht')). destruct (m t') as [[[]| |] t'']; simpl in *; try done;
      by eapply Hout. }
  assert (I [] (Ble_world (ble_read t).2)) as Hread.
  { unfold ble_read. destruct (Ble_connection t); [|done]. by destruct (read_events _ _ _). }
  assert (∀ t', I [] (Ble_world t') → I [] (Ble_world (ble_connect t').2)) as Hconnect.
  { intros t' Ht'. eapply Hrun; [done|]. by eapply runs_connect. }
  destruct op; simpl.
  - by apply Hconnect.
  - eapply Hrun; [done|]. by eapply runs_disconnect.
  - rewrite ble_reconnect_steps.
    assert (I [] (Ble_world (ble_disconnect t).2)) as Hd by (eapply Hrun; [done|]; by eapply runs_disconnect).
    destruct (ble_disconnect t) as [[[[]|e|]| |] t']; simpl in *; auto.
  - eapply Hrun; [done|]. by eapply runs_write.
  - done.
  - by apply (try_read_state (λ t', I [] (Ble_world t'))).
  - pose proof (runs_discover _ _ _ HI timeout _ Hw) as Hd.
    by destruct (discover_ble_with_cancellation timeout (Ble_world t)) as [[[]| |] w'].
Qed.

(** ** The log *)

Lemma stop_all_log l (w : ble_world W) :
  ∃ fates, length fates = length l ∧
  World_log (stop_all l w).2 = World_log w ++ zip_with (λ a f, Effect_Call (Call_stop_scan a) f) l fates.
Proof.
  revert w. induction l as [|a l IH]; intros w; simpl; [exists []; by rewrite app_nil_r|].
  destruct (run_call_spec (Call_stop_scan a) w) as (_&_&Hlog).
  destruct (run_call (Call_stop_scan a) w) as [fate w1]. simpl in Hlog.
  destruct (IH w1) as (fates&Hl&Heq). destruct (stop_all l w1) as [fs w2]. simpl in *.
  exists (fate :: fates). simpl. split; [by rewrite Hl|]. by rewrite Heq, Hlog, <- app_assoc.
Qed.

Lemma scanning_app log es a : scanning (log ++ es) a = fold_left (scan_step a) es (scanning log a).
Proof. apply fold_left_app. Qed.

Lemma scanning_stops {A} (f : nat → A → ble_effect) l (xs : list A) a b :
  (∀ a' x c, scan_step a c (f a' x) = if a' =? a then false else c) → length xs = length l →
  fold_left (scan_step a) (zip_with f l xs) b = true → a ∉ l ∧ b = true.
Proof.
  intros Hf. revert b xs. induction l as [|a' l IH]; intros b [|x xs] Hl; try done; simpl.
  { intros ->. by split; [apply not_elem_of_nil|]. }
  rewrite Hf. intros [Hn Hb]%IH; [|by simpl in Hl; lia].
  destruct (Nat.eqb_spec a' a) as [->|Hne]; [done|]. split; [|done]. apply not_elem_of_cons. by split.
Qed.

Lemma schedule_zip l :
  Effect_ScheduledStop <$> l = zip_with (λ a (_ : ()), Effect_ScheduledStop a) l (replicate (length l) ()).
Proof. induction l as [|a l IH]; [done|]. cbn. by f_equal. Qed.

(** Nothing but the adapters of [l] scans. *)
Definition scans_within (l : list nat) (w : ble_world W) : Prop :=
  ∀ a, scanning (World_log w) a = true → a ∈ l.

Lemma scans_invariant `{!BleRuntime W} :
  world_invariant (λ R c, match c with Call_start_scan _ _ => False | _ => True end) scans_within
    (λ _, scans_within []).
Proof.
  assert (∀ l R (c : ble_call R) w, match c with Call_start_scan _ _ => False | _ => True end →
    scans_within l w → scans_within l (run_call c w).2) as Hcall.
  { intros l R c w Hc Hw a. destruct (run_call_spec c w) as (_&_&->). rewrite scanning_app.
    destruct c; simpl; try done; auto. destruct (_ =? _); [done|]. auto. }
  split.
  - intros R c. by destruct c.
  - exact Hcall.
  - intros l a services w Ha Hw a'. destruct (run_call_spec (Call_start_scan a services) w) as (_&_&->).
    rewrite scanning_app. simpl. destruct (Nat.eqb_spec a a') as [->|]; auto.
  - intros l l' w Hl Hw a Hs. apply Hl. by apply Hw.
  - intros l w Hw a. destruct (stop_all_log l w) as (fates&Hl&->). rewrite scanning_app.
    intros [Hn Hs]%scanning_stops; [|done|done]. by apply Hw in Hs.
  - intros l w Hw a. unfold schedule_best_effort_scan_stop. rewrite runtime_present. simpl.
    rewrite scanning_app. intros Hs.
    rewrite schedule_zip in Hs.
    apply scanning_stops in Hs as [Hn Hs]; [by apply Hw in Hs|done|by rewrite length_replicate].
  - intros _. apply Hcall.
  - intros p v w Hw _. by apply Hcall.
  - done.
Qed.
End operations.

(** whatever a program does with the transport and with discovery, and wherever
    the futures are dropped, no adapter is left scanning: every scan that was
    started has been stopped or handed to a task that stops it. *)
Theorem ble_scans_stopped {W} `{BleProvider W} `{!BleRuntime W} (t : BleTransport W) ops :
  no_scans (Ble_world t) → no_scans (Ble_world (fold_left ble_run ops t)).
Proof.
  assert (∀ w : ble_world W, no_scans w ↔ scans_within [] w) as Hiff.
  { intros w. split; intros Hw a; specialize (Hw a).
    - by rewrite Hw.
    - destruct (scanning (World_log w) a); [|done]. by apply elem_of_nil in Hw. }
  rewrite !Hiff. revert t. induction ops as [|op ops IH]; intros t Ht; simpl; [done|]. apply IH.
  eapply ble_run_inv; [apply scans_invariant|intros; by destruct c|destruct op; try done; intros ? c ?; by destruct c|done].
Qed.

(** ** Packets are handed over whole and once *)

(** The packets handed to the library. *)
Definition written (log : list ble_effect) : list bytes :=
  omap (λ e, match e with
             | Effect_Call c _ => match c with Call_write _ _ packet _ => Some packet | _ => None end
             | _ => None
             end) log.
Definition asked (ops : list ble_op) : list bytes :=
  omap (λ op, match op with BleWrite payload => Some payload | _ => None end) ops.
Definition log_of {W} (t : BleTransport W) : list ble_effect := World_log (Ble_world t).

Section writes.
Context {W : Type} `{BleProvider W}.
Implicit Types t : BleTransport W.

Lemma written_app log es : written (log ++ es) = written log ++ written es.
Proof. apply omap_app. Qed.

Lemma written_invariant ws :
  world_invariant (W:=W) (λ R c, ¬ writing c) (λ _ w, written (World_log w) = ws) (λ _ w, written (World_log w) = ws).
Proof.
  assert (∀ R (c : ble_call R) w, ¬ writing c → written (World_log w) = ws → written (World_log (run_call c w).2) = ws) as Hcall.
  { intros R c w Hc Hw. destruct (run_call_spec c w) as (_&_&->). rewrite written_app, Hw.
    destruct c; simpl in *; try done; by rewrite app_nil_r. }
  split.
  - intros R c. destruct c; simpl; tauto.
  - intros l R c w. apply Hcall.
  - intros l a services w _. apply Hcall. simpl. tauto.
  - done.
  - intros l w Hw. destruct (stop_all_log l w) as (fates&Hl&->). rewrite written_app, Hw.
    assert (written (zip_with (λ a f, Effect_Call (Call_stop_scan a) f) l fates) = []) as ->; [|apply app_nil_r].
    clear Hl. revert fates. induction l as [|a l IH]; intros [|f fates]; [done..|]. cbn. apply IH.
  - intros l w Hw. unfold schedule_best_effort_scan_stop. destruct (negb _); [done|]. simpl.
    rewrite written_app, Hw. assert (written (Effect_ScheduledStop <$> l) = []) as ->; [|apply app_nil_r].
    clear Hw. induction l as [|a l IH]; [done|]. cbn. apply IH.
  - intros v R c w. apply Hcall.
  - intros p v w Hw _. apply Hcall; [simpl; tauto|done].
  - done.
Qed.

Lemma written_call {R} (k : ble_call R) (w : ble_world W) :
  written (World_log (run_call k w).2)
  = written (World_log w) ++ match k with Call_write _ _ packet _ => [packet] | _ => [] end.
Proof. destruct (run_call_spec k w) as (_&_&->). rewrite written_app. by destruct k. Qed.

(** The courses a write over connection [c] can take: the calls made, the result
    and the connection held afterwards. *)
Definition no_done {R} (f : ble_fate R) : Prop :=
  match f with Provider_Failed _ | Provider_Late => True | _ => False end.
Definition cut_by {R} (f : ble_fate R) (r : polled (tresult ())) : Prop :=
  match f with Provider_Cut deadline => r = if deadline : bool then Pending else Dropped | _ => False end.
Definition not_ok (r : polled (tresult ())) : Prop := r ≠ Ready (Ok ()) ∧ r ≠ Ready Panic.
Inductive write_course (c : BleConnection) (p : bytes) :
    list ble_effect → polled (tresult ()) → option BleConnection → Prop :=
| Write_Refused r : not_ok r → write_course c p [] r (Some c)
| Write_Gone :
    write_course c p [Effect_Call (Call_is_connected (Connection_peripheral c)) (Provider_Done false)]
      (Ready (Err TransportError_NotConnected)) None
| Write_QueryCut f r : cut_by f r →
    write_course c p [Effect_Call (Call_is_connected (Connection_peripheral c)) f] r (Some c)
| Write_QueryFailed f f' r : no_done f → not_ok r →
    write_course c p [Effect_Call (Call_is_connected (Connection_peripheral c)) f;
                      Effect_Call (Call_disconnect (Connection_peripheral c)) f'] r None
| Write_Done u :
    write_course c p [Effect_Call (Call_is_connected (Connection_peripheral c)) (Provider_Done true);
                      Effect_Call (provider_write_once p c) (Provider_Done u)] (Ready (Ok ())) (Some c)
| Write_Cut f r : cut_by f r →
    write_course c p [Effect_Call (Call_is_connected (Connection_peripheral c)) (Provider_Done true);
                      Effect_Call (provider_write_once p c) f] r (Some c)
| Write_Failed f f' r : no_done f → not_ok r →
    write_course c p [Effect_Call (Call_is_connected (Connection_peripheral c)) (Provider_Done true);
                      Effect_Call (provider_write_once p c) f;
                      Effect_Call (Call_disconnect (Connection_peripheral c)) f'] r None.

Lemma run_call_log {R} (c : ble_call R) (w : ble_world W) :
  ∃ fate w', run_call c w = (fate, w') ∧ World_log w' = World_log w ++ [Effect_Call c fate].
Proof.
  destruct (run_call_spec c w) as (_&_&Hl). destruct (run_call c w) as [fate w']. by exists fate, w'.
Qed.

(** Giving up: the connection is dropped and the peripheral told so. *)
Lemma ble_give_up t p error :
  ∃ r t' f, (_ ← hold None; _ ← in_world (λ _, best_effort_disconnect p); fail error : act _ _ ()) t = (r, t') ∧
  not_ok r ∧ Ble_connection t' = None ∧ log_of t' = log_of t ++ [Effect_Call (Call_disconnect p) f].
Proof.
  unfold mbind, act_bind, hold, in_world, best_effort_disconnect, mbind, act_bind, attempt, bare_call. simpl.
  destruct (run_call_log (Call_disconnect p) (Ble_world t)) as (f&w'&->&Hl).
  destruct f as [v|e| |[]]; by eexists _, _, _.
Qed.

Lemma ble_write_course t p :
  let '(r, t') := ble_write p t in
  match Ble_connection t with
  | None => not_ok r ∧ t' = t
  | Some c =>
      ∃ es, log_of t' = log_of t ++ es ∧ write_course c p es r (Ble_connection t') ∧
      (es = [] ∨ length p ≤ MAX_INNER_PAYLOAD ∧ length p ≤ Connection_max_write_payload c)
  end.
Proof.
  assert (∀ e c, Ble_connection t = Some c → ∃ es, log_of t = log_of t ++ es ∧
    write_course c p es (Ready (Err e)) (Ble_connection t) ∧
    (es = [] ∨ length p ≤ MAX_INNER_PAYLOAD ∧ length p ≤ Connection_max_write_payload c)) as Hrefuse.
  { intros e c Hc. exists []. rewrite app_nil_r, Hc. split_and!; [done|by constructor|by left]. }
  unfold ble_write. unfold mbind at 1, act_bind at 1, pure at 1, validate_payload at 1.
  destruct (MAX_INNER_PAYLOAD <? length p) eqn:Hp; [by destruct (Ble_connection t); eauto|]. apply Nat.ltb_ge in Hp.
  unfold mbind at 1, act_bind at 1, as_ref at 1. unfold mbind at 1, act_bind at 1, pure at 1.
  destruct (Ble_connection t) as [c|] eqn:Hc; cbn [ok_or]; [|done].
  unfold mbind at 1, act_bind at 1, pure at 1, validate_negotiated_payload at 1.
  destruct (_ <? length p) eqn:Hn; [by rewrite Hc; eauto|]. apply Nat.ltb_ge in Hn.
  assert (∀ t' es r, log_of t' = log_of t ++ es → write_course c p es r (Ble_connection t') →
    ∃ es, log_of t' = log_of t ++ es ∧ write_course c p es r (Ble_connection t') ∧
    (es = [] ∨ length p ≤ MAX_INNER_PAYLOAD ∧ length p ≤ Connection_max_write_payload c)) as Hout
    by (intros; eauto 6).
  unfold mbind at 1, act_bind at 1, attempt at 1, in_world at 1, with_ble_timeout at 1, with_ble_deadline at 1.
  destruct (run_call_log (Call_is_connected (Connection_peripheral c)) (Ble_world t)) as (f1&w1&->&Hl1).
  destruct f1 as [[]|e| |[]]; cbn [finish_call].
  2: eapply Hout; [exact Hl1|constructor].
  4,5: eapply Hout; [exact Hl1|rewrite Hc; by constructor].
  2,3: lazymatch goal with |- context [fail ?e] =>
      destruct (ble_give_up (ble_with t (Ble_connection t) w1) (Connection_peripheral c) e) as (r&t'&f&Hg&Hr&Hn'&Hl) end;
    rewrite Hg; eapply Hout; [rewrite Hl; unfold log_of at 1; cbn [Ble_world ble_with]; by rewrite Hl1, <- app_assoc|];
    rewrite Hn'; by constructor.
  unfold mbind at 1, act_bind at 1, attempt at 1, in_world at 1, with_ble_timeout at 1, with_ble_deadline at 1.
  cbn [Ble_world Ble_selector ble_with].
  destruct (run_call_log (provider_write_once p c) w1) as (f2&w2&->&Hl2). rewrite Hl1, <- app_assoc in Hl2.
  destruct f2 as [u|e| |[]]; cbn [finish_call].
  1: eapply Hout; [exact Hl2|cbn; rewrite Hc; by constructor].
  3,4: eapply Hout; [exact Hl2|cbn; rewrite Hc; by constructor].
  all: lazymatch goal with |- match ?m ?t0 with _ => _ end => lazymatch m with context [fail ?e] =>
      destruct (ble_give_up t0 (Connection_peripheral c) e) as (r&t'&f&Hg&Hr&Hn'&Hl) end end;
    rewrite Hg; eapply Hout; [rewrite Hl; unfold log_of at 1; cbn [Ble_world ble_with]; by rewrite Hl2, <- app_assoc|];
    rewrite Hn'; by constructor.
Qed.

(** The outcomes of a write: nothing handed over, or the whole packet once. *)
Lemma ble_write_spec t p :
  let '(r, t') := ble_write p t in
  (written (log_of t') = written (log_of t) ∧ r ≠ Ready (Ok ()))
  ∨ (written (log_of t') = written (log_of t) ++ [p] ∧
     ∃ c, Ble_connection t = Some c ∧ length p ≤ MAX_INNER_PAYLOAD ∧ length p ≤ Connection_max_write_payload c ∧
     match r with
     | Ready (Ok _) => Ble_connection t' = Some c
     | Ready _ => Ble_connection t' = None ∧
         ∃ fate, last (log_of t') = Some (Effect_Call (Call_disconnect (Connection_peripheral c)) fate)
     | _ => True
     end).
Proof.
  pose proof (ble_write_course t p) as Hw. destruct (ble_write p t) as [r t'].
  destruct (Ble_connection t) as [c|]; [|destruct Hw as [[Hr _] ->]; by left].
  destruct Hw as (es&->&Hcourse&Hlen). rewrite written_app.
  assert (∀ r', not_ok r' → r' ≠ Ready (Ok ())) as Hno by (by intros r' []).
  assert (∀ R (f : ble_fate R) r', cut_by f r' → r' = Pending ∨ r' = Dropped) as Hcut
    by (intros R [| | |[]] r'; simpl; tauto).
  inversion Hcourse; subst; clear Hcourse; cbn [written omap list_omap provider_write_once]; rewrite ?app_nil_r;
    repeat match goal with
    | Hf : cut_by _ _ |- _ => apply Hcut in Hf as [->| ->]
    | Hf : not_ok _ |- _ => destruct Hf
    end.
  1,2,3,4,5: by left.
  all: right; split; [done|]; exists c; destruct Hlen as [|[? ?]]; [done|]; split_and!; try done.
  destruct r as [[[]|e|]| |]; try done. split; [done|]. exists f'. by rewrite last_app.
Qed.

(** What one operation hands over. *)
Lemma ble_run_writes t op :
  ∃ ws ss, written (log_of (ble_run t op)) = written (log_of t) ++ ws ∧ Ble_sent (ble_run t op) = Ble_sent t ++ ss ∧
  ss `sublist_of` ws ∧ ws `sublist_of` asked [op] ∧ Forall (λ p, length p ≤ MAX_INNER_PAYLOAD) ws.
Proof.
  assert (match op with BleWrite _ => False | _ => True end ∨ ∃ p, op = BleWrite p) as [Hop|[p ->]]
    by (destruct op; eauto).
  - exists [], []. rewrite !app_nil_r. split_and!; [| |done|apply sublist_nil_l|constructor].
    + eapply (ble_run_inv _ (λ _ w, written (World_log w) = written (log_of t)) t op); [apply written_invariant| | |done].
      * intros R p c. destruct c; simpl; tauto.
      * by destruct op.
    + destruct op; simpl; try done.
      * apply ble_connect_plain.
      * apply ble_disconnect_plain.
      * rewrite ble_reconnect_steps.
        pose proof (proj2 (ble_disconnect_plain t)) as Hd.
        destruct (ble_disconnect t) as [[[[]|e|]| |] t']; simpl in *; rewrite ?(proj2 (ble_connect_plain t')); done.
      * apply ble_read_sent.
      * apply (try_read_state (λ t', Ble_sent t' = Ble_sent t)), ble_read_sent.
  - simpl. pose proof (ble_write_spec t p) as Hw. pose proof (proj2 (ble_write_plain t p)) as Hs.
    destruct (ble_write p t) as [r t']. simpl in Hs |- *. destruct Hw as [[Hw Hr]|[Hw (c&_&Hp&_)]].
    + exists [], []. rewrite !app_nil_r. split_and!; [done| |done|apply sublist_nil_l|constructor].
      by destruct r as [[[]| |]| |].
    + exists [p], (match r with Ready (Ok _) => [p] | _ => [] end).
      split_and!; [done| | |done|by apply Forall_singleton].
      * destruct r as [[]| |]; by rewrite ?app_nil_r.
      * destruct r as [[]| |]; (done || apply sublist_nil_l).
Qed.
End writes.

(** C28: over any use of the transport, the packets handed to the library are
    packets the program asked to write, each handed over whole and at most once,
    in order and within the 176 bytes; the completed writes are among them.  No
    reconnect replays a packet. *)
Theorem ble_no_replay {W} `{BleProvider W} (t : BleTransport W) ops :
  let t' := fold_left ble_run ops t in
  ∃ ws ss, written (log_of t') = written (log_of t) ++ ws ∧ Ble_sent t' = Ble_sent t ++ ss ∧
  ss `sublist_of` ws ∧ ws `sublist_of` asked ops ∧ Forall (λ p, length p ≤ 176) ws.
Proof.
  revert t. induction ops as [|op ops IH]; intros t; cbn zeta; cbn [fold_left].
  { exists [], []. rewrite !app_nil_r. by repeat constructor. }
  destruct (ble_run_writes t op) as (ws&ss&Hw&Hs&Hsub&Hask&Hl).
  destruct (IH (ble_run t op)) as (ws'&ss'&Hw'&Hs'&Hsub'&Hask'&Hl'). simpl in Hw', Hs'.
  exists (ws ++ ws'), (ss ++ ss'). rewrite Hw', Hw, Hs', Hs, <- !app_assoc. split_and!; [done|done|by apply sublist_app| |].
  - assert (asked (op :: ops) = asked [op] ++ asked ops) as -> by apply (omap_app _ [op] ops). by apply sublist_app.
  - by apply Forall_app.
Qed.

(** a write hands the library nothing, or the whole packet in one call
    on a held connection whose negotiated limit it fits; it succeeds only then,
    and when it fails after that the connection is let go and the peripheral is
    told to disconnect, so nothing can be appended to a packet that may have
    arrived in part. *)
Theorem ble_write_contract {W} `{BleProvider W} (t : BleTransport W) p :
  let '(r, t') := ble_write p t in
  r ≠ Ready Panic ∧
  ((written (log_of t') = written (log_of t) ∧ r ≠ Ready (Ok ()))
   ∨ (written (log_of t') = written (log_of t) ++ [p] ∧
      ∃ c, Ble_connection t = Some c ∧ length p ≤ MAX_INNER_PAYLOAD ∧ length p ≤ Connection_max_write_payload c ∧
      match r with
      | Ready (Ok _) => Ble_connection t' = Some c
      | Ready _ => Ble_connection t' = None ∧
          ∃ fate, last (log_of t') = Some (Effect_Call (Call_disconnect (Connection_peripheral c)) fate)
      | _ => True
      end)).
Proof.
  pose proof (ble_write_spec t p) as Hw. pose proof (proj1 (ble_write_plain t p)) as Hp.
  destruct (ble_write p t). by split.
Qed.

(** ** Links are given back *)

(** A peripheral that was asked to connect is linked until it has disconnected or is
    reported as not connected.  When the request to disconnect failed, ran out of time
    or was dropped, the link is abandoned: it may be there, and nobody answers for it. *)
Inductive link_state := Unlinked | Linked | Abandoned.
#[global] Instance link_state_eq_dec : EqDecision link_state.
Proof. solve_decision. Defined.

Definition unlink (s : link_state) (fate : ble_fate ()) : link_state :=
  match fate, s with
  | Provider_Done _, _ => Unlinked
  | _, Unlinked => Unlinked
  | _, _ => Abandoned
  end.
Definition link_step (p : Peripheral) (s : link_state) (e : ble_effect) : link_state :=
  match e with
  | Effect_Call c fate =>
      match c in ble_call R return ble_fate R → link_state with
      | Call_connect p' => λ _, if decide (p' = p) then Linked else s
      | Call_disconnect p' => λ fate, if decide (p' = p) then unlink s fate else s
      | Call_is_connected p' => λ fate,
          match fate with
          | Provider_Done false => if decide (p' = p) then Unlinked else s
          | _ => s
          end
      | _ => λ _, s
      end fate
  | Effect_ScheduledStop _ => s
  end.
Definition link_of (log : list ble_effect) (p : Peripheral) : link_state := fold_left (link_step p) log Unlinked.
Lemma unlink_linked s fate : unlink s fate ≠ Linked.
Proof. by destruct fate, s. Qed.
Definition links_within {W} (ps : list Peripheral) (w : ble_world W) : Prop :=
  ∀ p, link_of (World_log w) p = Linked → p ∈ ps.
Definition held {W} (t : BleTransport W) : list Peripheral :=
  option_list (Connection_peripheral <$> Ble_connection t).

Section links.
Context {W : Type} `{BleProvider W}.

Lemma link_app log es p : link_of (log ++ es) p = fold_left (link_step p) es (link_of log p).
Proof. apply fold_left_app. Qed.

(** A call that is not a new link, or one to a known peripheral. *)
Definition link_allowed (ps : list Peripheral) (R : Type) (c : ble_call R) : Prop :=
  match c with Call_connect p => p ∈ ps | _ => True end.

Lemma link_step_within ps R (c : ble_call R) fate p b :
  link_allowed ps R c → link_step p b (Effect_Call c fate) = Linked → b = Linked ∨ p ∈ ps.
Proof.
  destruct c; simpl; try tauto.
  - destruct fate as [[]| | |]; try tauto. case_decide; [done|tauto].
  - case_decide; [subst|]; tauto.
  - case_decide; [by intros _ ?%unlink_linked|tauto].
Qed.

Lemma links_call ps R (c : ble_call R) (w : ble_world W) :
  link_allowed ps R c → links_within ps w → links_within ps (run_call c w).2.
Proof.
  intros Hc Hw p. destruct (run_call_spec c w) as (_&_&->). rewrite link_app.
  intros [Hb|?]%(link_step_within ps _ c); [by apply Hw|done|done].
Qed.

Lemma link_quiet log es p :
  Forall (λ e, ∀ b, link_step p b e = b) es → link_of (log ++ es) p = link_of log p.
Proof.
  rewrite link_app. generalize (link_of log p). intros b Hes. revert b.
  induction Hes as [|e es He _ IH]; intros b; simpl; [done|]. by rewrite He.
Qed.

Lemma links_invariant ps :
  world_invariant (link_allowed ps) (λ _, links_within ps) (λ _, links_within (W:=W) ps).
Proof.
  split.
  - intros R c. by destruct c.
  - intros l R c w. apply links_call.
  - intros l a services w _. by apply links_call.
  - done.
  - intros l w Hw p. destruct (stop_all_log l w) as (fates&_&->). rewrite link_quiet; [apply Hw|].
    revert fates. induction l as [|a l IH]; intros [|f fates]; by constructor.
  - intros l w Hw p. unfold schedule_best_effort_scan_stop. destruct (negb _); [apply Hw|]. simpl.
    rewrite link_quiet; [apply Hw|]. by apply Forall_fmap, Forall_true.
  - intros v R c w. apply links_call.
  - intros p v w Hw _. by apply links_call.
  - done.
Qed.

(** After a disconnect nothing is left of a single link. *)
Lemma links_disconnected p w f w' :
  links_within [p] w → run_call (Call_disconnect p) w = (f, w') → links_within (W:=W) [] w'.
Proof.
  intros Hw Hr p' Hl. destruct (run_call_spec (Call_disconnect p) w) as (_&_&Hlog). rewrite Hr in Hlog. simpl in Hlog.
  rewrite Hlog, link_app in Hl. simpl in Hl. case_decide as Hp; [by apply unlink_linked in Hl|].
  apply Hw in Hl. apply list_elem_of_singleton in Hl. congruence.
Qed.

Lemma links_mono ps ps' w : ps ⊆ ps' → links_within ps w → links_within (W:=W) ps' w.
Proof. intros Hp Hw p Hl. by apply Hp, Hw. Qed.

Lemma establish_peripheral a p sel (w : ble_world W) c w' :
  establish_connection a p sel w = (Ready (Ok c), w') → Connection_peripheral c = p.
Proof.
  assert (∀ S E A B (m : act S E A) (f : A → act S E B) Q,
    (∀ a s b s', f a s = (Ready (Ok b), s') → Q b) → ∀ s b s', (m ≫= f) s = (Ready (Ok b), s') → Q b) as Hbind.
  { intros S E A B m f Q Hf s b s'. unfold mbind, act_bind. destruct (m s) as [[[x|e|]| |] s1]; [apply Hf|done..]. }
  revert w c w'. unfold establish_connection.
  do 2 (apply (Hbind _ _ _ _ _ _ (λ c, Connection_peripheral c = p)); intros ?).
  apply (Hbind _ _ _ _ _ _ (λ c, Connection_peripheral c = p)). intros connected w c w'.
  destruct (negb connected); [done|]. revert w c w'.
  do 6 (apply (Hbind _ _ _ _ _ _ (λ c, Connection_peripheral c = p)); intros ?). by intros w c w' [= <- _].
Qed.

Lemma connect_links (t : BleTransport W) :
  Ble_connection t = None → links_within [] (Ble_world t) →
  match ble_connect t with (Ready _, t') => links_within (held t') (Ble_world t') | _ => True end.
Proof.
  intros Hc Hw. unfold ble_connect, mbind, act_bind, take_connection. rewrite Hc. simpl.
  unfold in_world at 1. cbn [Ble_selector Ble_world ble_with].
  pose proof (runs_find_peripheral _ _ _ (links_invariant []) (Ble_selector t) _ Hw) as Hf.
  destruct (find_peripheral _ _) as [[[[a p]|e|]| |] w1]; try done.
  apply (links_mono [] [p]) in Hf; [|set_solver]. unfold attempt, in_world. cbn [Ble_selector Ble_world ble_with fst snd].
  assert (∀ R (c : ble_call R), about p c → link_allowed [p] R c) as Hp.
  { intros R c. destruct c; simpl; try done. intros ->. by apply list_elem_of_singleton. }
  pose proof (runs_establish _ _ _ (links_invariant [p]) a p (Ble_selector t) Hp _ Hf) as He.
  destruct (establish_connection a p (Ble_selector t) w1) as [[[c|e|]| |] w2] eqn:Hper; try done; simpl.
  - unfold held. simpl. by rewrite (establish_peripheral _ _ _ _ _ _ Hper).
  - unfold best_effort_disconnect, mbind, act_bind, attempt, bare_call. simpl.
    destruct (run_call (Call_disconnect p) w2) as [f w3] eqn:Hr. pose proof (links_disconnected _ _ _ _ He Hr) as Hd.
    destruct f as [| | |[]]; simpl; unfold held; simpl; rewrite ?Hc; done.
Qed.
(** The steps a write or a cleanup takes only take a link away. *)
Lemma link_last log p e :
  link_of (log ++ [e]) p = link_step p (link_of log p) e.
Proof. apply link_app. Qed.

Lemma write_links (t : BleTransport W) p :
  links_within (held t) (Ble_world t) → links_within (held (ble_write p t).2) (Ble_world (ble_write p t).2).
Proof.
  intros Hw. pose proof (ble_write_course t p) as Hcourse. destruct (ble_write p t) as [r t'].
  unfold held in *. destruct (Ble_connection t) as [c|] eqn:Hc.
  2:{ destruct Hcourse as [_ ->]. simpl. by rewrite Hc. }
  destruct Hcourse as (es&Hlog&Hcourse&_). cbn [snd]. intros p' Hl. unfold log_of in Hlog. rewrite Hlog, link_app in Hl.
  specialize (Hw p'). simpl in Hw. rewrite list_elem_of_singleton in Hw.
  destruct Hcourse as [r _| |f r Hf|f f' r Hf _|u|f r Hf|f f' r Hf _]; simpl in *;
    repeat match goal with
    | f : ble_fate bool |- _ => destruct f as [[]| | |]; try done
    | Hl : context [decide ?P] |- _ => destruct (decide P); [first [done|by apply unlink_linked in Hl]|]
    end; rewrite ?list_elem_of_singleton; naive_solver.
Qed.

(** A disconnect that succeeds was carried out, or found nothing to disconnect. *)
Lemma disconnect_links (t : BleTransport W) :
  links_within (held t) (Ble_world t) →
  match ble_disconnect t with
  | (Ready (Ok _), t') => links_within [] (Ble_world t') ∧ ∀ p, p ∈ held t → link_of (log_of t') p = Unlinked
  | _ => True
  end.
Proof.
  unfold held. intros Hw. unfold ble_disconnect, mbind, act_bind, take_connection.
  destruct (Ble_connection t) as [c|] eqn:Hc; simpl in *; [|by split; [|intros ? ?%elem_of_nil]].
  unfold in_world, close_connection, with_ble_cleanup_timeout, mbind, act_bind, attempt. simpl.
  unfold close_connection_provider, mbind, act_bind, bare_call. set (p := Connection_peripheral c) in *.
  destruct (run_call_log (Call_is_connected p) (Ble_world t)) as (f&w1&Hr1&Hl1). rewrite Hr1.
  assert (∀ w' : ble_world W, World_log w' = World_log (Ble_world t) ++ [Effect_Call (Call_is_connected p) f] → f = Provider_Done false →
    links_within [] w' ∧ ∀ p', p' ∈ [p] → link_of (World_log w') p' = Unlinked) as Hgone.
  { intros w' Hl' ->. split; [intros p' Hl|intros p' ->%list_elem_of_singleton]; rewrite Hl', link_last in *; simpl in *;
      case_decide as Hp; try done. apply Hw in Hl. apply list_elem_of_singleton in Hl. congruence. }
  assert (links_within [p] w1) as Hw1.
  { pose proof (links_call [p] _ (Call_is_connected p) (Ble_world t) Logic.I Hw) as H1. by rewrite Hr1 in H1. }
  destruct f as [[]|e| |[]]; simpl; try done; [|by apply Hgone|].
  all: destruct (run_call (Call_unsubscribe p _) w1) as [f2 w2] eqn:Hr2.
  all: assert (links_within [p] w2) as Hw2
    by (pose proof (links_call [p] _ (Call_unsubscribe p (Connection_notify_characteristic c)) w1 Logic.I Hw1) as H2;
        by rewrite Hr2 in H2).
  all: destruct f2 as [|e2| |[]]; simpl; try done;
    destruct (run_call_log (Call_disconnect p) w2) as (f3&w3&Hr3&Hl3); rewrite Hr3;
    pose proof (links_disconnected _ _ _ _ Hw2 Hr3) as Hw3; destruct f3 as [|e3| |[]]; try done.
  all: split; [done|]; intros p' ->%list_elem_of_singleton; unfold log_of; simpl; rewrite Hl3, link_last; simpl.
  all: by rewrite decide_True.
Qed.
End links.

(** C27: links are given back.  Under a transport that answers for every link but those
    it was refused to give back, this stays so: a connect that returns, from no
    connection, answers for the link it reports and has asked the peripheral of any
    other to disconnect; a write, however it ends, asks for the disconnect of the link
    whose connection it drops.  What became of such a request nobody waits for: if it
    failed or ran out of time the link is abandoned.  A disconnect that succeeds leaves
    no connection, and its peripheral has disconnected or was found disconnected. *)
Theorem ble_links_released {W} `{BleProvider W} (t : BleTransport W) :
  links_within (held t) (Ble_world t) →
  (Ble_connection t = None →
     match ble_connect t with (Ready _, t') => links_within (held t') (Ble_world t') | _ => True end) ∧
  (∀ p, links_within (held (ble_write p t).2) (Ble_world (ble_write p t).2)) ∧
  match ble_disconnect t with
  | (Ready (Ok _), t') =>
      Ble_connection t' = None ∧ links_within [] (Ble_world t') ∧ ∀ p, p ∈ held t → link_of (log_of t') p = Unlinked
  | _ => True
  end.
Proof.
  intros Hw. split_and!.
  - intros Hc. apply connect_links; [done|]. unfold held in Hw. by rewrite Hc in Hw.
  - intros p. by apply write_links.
  - pose proof (disconnect_links t Hw) as Hd.
    assert (Ble_connection (ble_disconnect t).2 = None) as Hn.
    { unfold ble_disconnect, mbind, act_bind, take_connection. destruct (Ble_connection t); [|done].
      unfold in_world. by destruct (close_connection _ _ _). }
    by destruct (ble_disconnect t) as [[[]| |] t'].
Qed.

(** * What BLE discovery reports, and samples

    The records of a scan against the log of what was read, and a small library
    of the operating system's kind on which the theorems about BLE are run. *)

(** ** What discovery reports *)

(** The properties that were read, in a log. *)
Definition sightings (log : list ble_effect) : list (Peripheral * PeripheralProperties) :=
  omap (λ e, match e with
             | Effect_Call c fate =>
                 match c in ble_call R return ble_fate R → option (Peripheral * PeripheralProperties) with
                 | Call_properties p => λ fate,
                     match fate with Provider_Done (Some properties) => Some (p, properties) | _ => None end
                 | _ => λ _, None
                 end fate
             | _ => None
             end) log.

(** [records] has the strongest of the companions among [seen]. *)
Record strongest (seen : list (Peripheral * PeripheralProperties)) (records : gmap string DiscoveredDevice) : Prop := {
  strongest_from id d : records !! id = Some d → Discovered_id d = id ∧
    ∃ p properties name, (p, properties) ∈ seen ∧ advertises_uart properties = true ∧
      d = peripheral_record p properties name;
  strongest_of p properties : (p, properties) ∈ seen → advertises_uart properties = true →
    ∃ d, records !! ("ble:" +:+ Peripheral_id p) = Some d ∧
      rssi_gtb (Properties_rssi properties) (Discovered_rssi d) = false
}.

Lemma rssi_gtb_weaken s c r : rssi_gtb s c = false → rssi_gtb r c = true → rssi_gtb s r = false.
Proof. destruct s, c, r; simpl; try done; lia. Qed.
Lemma rssi_gtb_irrefl r : rssi_gtb r r = false.
Proof. destruct r; simpl; [lia|done]. Qed.

Lemma strongest_mono seen more records :
  strongest seen records → (∀ x, x ∈ more → advertises_uart x.2 = false) → strongest (seen ++ more) records.
Proof.
  intros [Hf Ho] Hm. split.
  - intros id d (?&p&props&name&?&?)%Hf. split; [done|]. exists p, props, name. rewrite elem_of_app. naive_solver.
  - intros p props [Hin|Hin]%elem_of_app Ha; [by apply Ho|]. apply Hm in Hin. simpl in Hin. congruence.
Qed.

Lemma strongest_file seen records p properties name :
  strongest seen records → advertises_uart properties = true →
  strongest (seen ++ [(p, properties)]) (file_record (peripheral_record p properties name) records).
Proof.
  intros [Hf Ho] Ha. set (record := peripheral_record p properties name).
  assert (Discovered_id record = "ble:" +:+ Peripheral_id p) as Hid by done.
  assert (∀ id d, records !! id = Some d → Discovered_id d = id ∧
    ∃ p' properties' name', (p', properties') ∈ seen ++ [(p, properties)] ∧ advertises_uart properties' = true ∧
      d = peripheral_record p' properties' name') as Hold.
  { intros id d (?&p'&props&name'&?&?)%Hf. split; [done|]. exists p', props, name'. rewrite elem_of_app. naive_solver. }
  assert (∀ m id d, (<[Discovered_id record := record]> m : gmap string _) !! id = Some d →
    (∀ id d, m !! id = Some d → records !! id = Some d) →
    Discovered_id d = id ∧
    ∃ p' properties' name', (p', properties') ∈ seen ++ [(p, properties)] ∧ advertises_uart properties' = true ∧
      d = peripheral_record p' properties' name') as Hins.
  { intros m id d Hm Hsub. apply lookup_insert_Some in Hm as [[Hi <-]|[_ Hm]]; [|by apply Hold, Hsub].
    split; [done|]. exists p, properties, name. rewrite elem_of_app, list_elem_of_singleton. auto. }
  unfold file_record. destruct (records !! Discovered_id record) as [current|] eqn:Hcur;
    [destruct (rssi_gtb (Discovered_rssi record) (Discovered_rssi current)) eqn:Hgt|].
  - split; [intros id d Hm; by eapply Hins|].
    intros p' props' [Hin|Hin]%elem_of_app Ha'.
    + destruct (Ho _ _ Hin Ha') as (d&Hd&Hr). destruct (decide (Discovered_id record = "ble:" +:+ Peripheral_id p')) as [He|He].
      * exists record. rewrite <- He, lookup_insert_eq. split; [done|]. rewrite <- He, Hcur in Hd. injection Hd as <-.
        by eapply rssi_gtb_weaken.
      * exists d. by rewrite lookup_insert_ne.
    + apply list_elem_of_singleton in Hin as [= -> ->]. exists record. rewrite <- Hid, lookup_insert_eq.
      split; [done|apply rssi_gtb_irrefl].
  - split; [exact Hold|]. intros p' props' [Hin|Hin]%elem_of_app Ha'; [by apply Ho|].
    apply list_elem_of_singleton in Hin as [= -> ->]. exists current. by rewrite <- Hid.
  - split; [intros id d Hm; by eapply Hins|].
    intros p' props' [Hin|Hin]%elem_of_app Ha'.
    + destruct (Ho _ _ Hin Ha') as (d&Hd&Hr). exists d. rewrite lookup_insert_ne; [done|]. congruence.
    + apply list_elem_of_singleton in Hin as [= -> ->]. exists record. rewrite <- Hid, lookup_insert_eq.
      split; [done|apply rssi_gtb_irrefl].
Qed.

Section discovery.
Context {W : Type} `{BleProvider W}.

Lemma discovery_done {R} timeout (c : ble_call R) op (w : ble_world W) v w' :
  with_discovery_deadline timeout c op w = (Ready (Ok v), w') →
  World_log w' = World_log w ++ [Effect_Call c (Provider_Done v)].
Proof.
  unfold with_discovery_deadline. destruct (provider_token c _); [|done|done].
  destruct (run_call_log c w) as (f&w1&->&Hl). destruct f as [u|e| |[]]; [|done..]. by intros [= -> ->].
Qed.

Lemma bind_done {S E A B} (m : act S E A) (f : A → act S E B) s b s' :
  (m ≫= f) s = (Ready (Ok b), s') → ∃ a s1, m s = (Ready (Ok a), s1) ∧ f a s1 = (Ready (Ok b), s').
Proof. unfold mbind, act_bind. destruct (m s) as [[[a|e|]| |] s1]; [eauto|done..]. Qed.

Lemma sightings_app l k : sightings (l ++ k) = sightings l ++ sightings k.
Proof. apply omap_app. Qed.

Lemma collect_peripherals_strongest timeout name ps records seen (w : ble_world W) records' w' :
  strongest seen records →
  collect_peripherals timeout name ps records w = (Ready (Ok records'), w') →
  ∃ es, World_log w' = World_log w ++ es ∧ strongest (seen ++ sightings es) records'.
Proof.
  revert records seen w. induction ps as [|p ps IH]; intros records seen w Hs; cbn [collect_peripherals].
  { intros [= <- <-]. exists []. by rewrite !app_nil_r. }
  intros (props&w1&Hd%discovery_done&Hk)%bind_done.
  assert (strongest (seen ++ sightings [Effect_Call (Call_properties p) (Provider_Done props)])
    match props with
    | Some properties =>
        if advertises_uart properties then file_record (peripheral_record p properties name) records else records
    | None => records
    end) as Hs1.
  { destruct props as [props|]; simpl; [|by rewrite app_nil_r].
    destruct (advertises_uart props) eqn:Ha; [by apply strongest_file|].
    apply strongest_mono; [done|]. intros x Hx%list_elem_of_singleton. by subst x. }
  destruct (IH _ _ _ Hs1 Hk) as (es&Hl&Hs2). exists (Effect_Call (Call_properties p) (Provider_Done props) :: es).
  rewrite Hl, Hd, <- app_assoc. split; [done|]. rewrite <- app_assoc, <- sightings_app in Hs2. exact Hs2.
Qed.

Lemma collect_adapters_strongest timeout adapters records seen (w : ble_world W) records' w' :
  strongest seen records →
  collect_adapters timeout adapters records w = (Ready (Ok records'), w') →
  ∃ es, World_log w' = World_log w ++ es ∧ strongest (seen ++ sightings es) records'.
Proof.
  revert records seen w. induction adapters as [|a adapters IH]; intros records seen w Hs; cbn [collect_adapters].
  { intros [= <- <-]. exists []. by rewrite !app_nil_r. }
  intros (name&w1&Hd1%discovery_done&(ps&w2&Hd2%discovery_done&(rs&w3&Hc&Hk)%bind_done)%bind_done)%bind_done.
  destruct (collect_peripherals_strongest _ _ _ _ _ _ _ _ Hs Hc) as (es1&Hl1&Hs1).
  destruct (IH _ _ _ Hs1 Hk) as (es2&Hl2&Hs2).
  eexists. rewrite Hl2, Hl1, Hd2, Hd1, <- !app_assoc. split; [done|].
  rewrite !sightings_app. simpl. by rewrite <- app_assoc in Hs2.
Qed.
End discovery.

(** the records of a finished scan are exactly one per companion that was
    seen advertising the service, built from the strongest sighting of it (the
    first of equals), in the order of the identifiers; nothing else is
    reported. *)
Theorem ble_discovery_strongest {W} `{BleProvider W} adapters timeout (w : ble_world W) devices w' :
  collect_discovered_devices adapters timeout w = (Ready (Ok devices), w') →
  ∃ es, World_log w' = World_log w ++ es ∧
    StronglySorted id_leb devices ∧ NoDup (Discovered_id <$> devices) ∧
    Forall (λ d, ∃ p properties name, (p, properties) ∈ sightings es ∧ advertises_uart properties = true ∧
              d = peripheral_record p properties name) devices ∧
    ∀ p properties, (p, properties) ∈ sightings es → advertises_uart properties = true →
      ∃ d, d ∈ devices ∧ Discovered_id d = "ble:" +:+ Peripheral_id p ∧
        rssi_gtb (Properties_rssi properties) (Discovered_rssi d) = false.
Proof.
  intros (records&w1&Hc&[= <- <-])%bind_done.
  assert (strongest [] ∅) as H0 by (split; [intros id d; by rewrite lookup_empty|intros p props Hp; by apply elem_of_nil in Hp]).
  destruct (collect_adapters_strongest _ _ _ _ _ _ _ H0 Hc) as (es&Hl&[Hf Ho]). exists es. simpl in Hf, Ho.
  assert (∀ d, d ∈ sort_by id_leb (map_to_list records).*2 ↔ ∃ id, records !! id = Some d) as Hin.
  { intros d. rewrite sort_by_perm, list_elem_of_fmap. split.
    - intros ([id d']&->&Hd). exists id. by apply elem_of_map_to_list.
    - intros [id Hd]. exists (id, d). split; [done|]. by apply elem_of_map_to_list. }
  split_and!; [done|apply sort_by_sorted; [apply id_leb_total|apply id_leb_trans]| | |].
  - rewrite sort_by_perm.
    assert (Discovered_id <$> (map_to_list records).*2 = (map_to_list records).*1) as ->; [|apply NoDup_fst_map_to_list].
    rewrite <- list_fmap_compose. apply list_fmap_ext. intros i [id d] Hi. apply list_elem_of_lookup_2 in Hi.
    apply elem_of_map_to_list in Hi. by apply Hf in Hi as [? _].
  - apply Forall_forall. intros d [id Hd]%Hin. by apply Hf in Hd as [_ Hd].
  - intros p props Hp Ha. destruct (Ho _ _ Hp Ha) as (d&Hd&Hr). exists d. split_and!; [apply Hin; eauto| |done].
    by apply Hf in Hd as [? _].
Qed.

(** ** A sample library

    One adapter and one companion; the state is whether it is connected and how
    many connections still deliver a packet. *)

Definition sample_peripheral : Peripheral := mkPeripheral "hci0/dev_01" "01:23:45:67:89:AB".
Definition sample_characteristics : list Characteristic :=
  [mkCharacteristic NORDIC_UART_WRITE_CHARACTERISTIC NORDIC_UART_SERVICE WRITE_WITHOUT_RESPONSE;
   mkCharacteristic NORDIC_UART_NOTIFY_CHARACTERISTIC NORDIC_UART_SERVICE NOTIFY].
Definition sample_packet : ble_poll :=
  Poll_Event (Read_Notification (Some (mkNotification NORDIC_UART_NOTIFY_CHARACTERISTIC [0x0a]%Z))).

Definition sample_run R (c : ble_call R) : bool * nat → ble_fate R * (bool * nat) :=
  match c in ble_call R return bool * nat → ble_fate R * (bool * nat) with
  | Call_adapters => λ w, (Provider_Done [0], w)
  | Call_adapter_state _ => λ w, (Provider_Done CentralState_PoweredOn, w)
  | Call_adapter_info _ => λ w, (Provider_Done "hci0"%string, w)
  | Call_peripherals _ => λ w, (Provider_Done [sample_peripheral], w)
  | Call_properties _ => λ w,
      (Provider_Done (Some (mkProperties "01:23:45:67:89:AB" None None (Some (-47)%Z) [NORDIC_UART_SERVICE] [])), w)
  | Call_is_connected _ => λ w, (Provider_Done w.1, w)
  | Call_connect _ => λ w, (Provider_Done (), (true, w.2))
  | Call_disconnect _ => λ w, (Provider_Done (), (false, w.2))
  | Call_notifications _ => λ w,
      match w.2 with
      | 0 => (Provider_Done [], w)
      | S n => (Provider_Done [sample_packet], (w.1, n))
      end
  | Call_write _ _ packet _ => λ w,
      (if bool_decide (packet = [0x07]%Z) then Provider_Failed "link lost" else Provider_Done (), w)
  | Call_manager => λ w, (Provider_Done (), w)
  | Call_start_scan _ _ => λ w, (Provider_Cut false, w)
  | Call_stop_scan _ => λ w, (Provider_Done (), w)
  | Call_discover_services _ => λ w, (Provider_Done (), w)
  | Call_events _ => λ w, (Provider_Done (), w)
  | Call_subscribe _ _ => λ w, (Provider_Done (), w)
  | Call_unsubscribe _ _ => λ w, (Provider_Done (), w)
  | Call_sleep => λ w, (Provider_Done (), w)
  end.

#[global] Instance sample_provider : BleProvider (bool * nat) := {
  provider_run := sample_run;
  provider_services _ _ := [NORDIC_UART_SERVICE];
  provider_characteristics _ _ := sample_characteristics;
  provider_mtu _ _ := 23%Z;
  provider_token _ _ _ := Token_Live;
  provider_turns _ := 3;
  provider_handle _ := true
}.
#[global] Instance sample_runtime : BleRuntime (bool * nat).
Proof. by split. Defined.
#[global] Program Instance sample_lawful : LawfulProvider (bool * nat) := { provider_ok _ := True }.
Next Obligation. done. Qed.
Next Obligation.
  intros p v [b [|n]] _ [= <-]; repeat constructor; simpl; unfold is_u8; lia.
Qed.
#[global] Program Instance sample_finite : FiniteProvider (bool * nat) := { provider_left w := w.2 }.
Next Obligation. intros R c [b n]. destruct c; simpl; try lia. destruct n; simpl; lia. Qed.
Next Obligation. intros p v [b [|n]] [= <-]; simpl; lia. Qed.

Definition sample_ble (selector : string) : BleTransport (bool * nat) :=
  mkBle selector (5 * NANOS_PER_SEC) None (mkWorld (false, 2) []) [].

(** A connect, a write, a packet over the limit of the link, and one the link
    loses; an unknown device is searched for and the search is dropped. *)
Example sample_session :
  let t := fold_left ble_run [BleConnect; BleWrite [1; 2]%Z; BleWrite (replicate 21 0%Z); BleRead; BleWrite [7]%Z]
             (sample_ble "ble:HCI0/dev_01") in
  (Ble_sent t, written (log_of t), Ble_connection t) = ([[1; 2]%Z], [[1; 2]%Z; [7]%Z], None).
Proof. vm_compute. reflexivity. Qed.
Example sample_search_dropped :
  let t := fold_left ble_run [BleConnect] (sample_ble "other") in
  (ble_connect (sample_ble "other")).1 = Dropped ∧ last (log_of t) = Some (Effect_ScheduledStop 0).
Proof. vm_compute. done. Qed.

Lemma ble_scans_stopped_witness :
  no_scans (Ble_world (fold_left ble_run [BleConnect; BleDiscover NANOS_PER_SEC] (sample_ble "other"))).
Proof. apply (ble_scans_stopped (sample_ble "other")). intros a. reflexivity. Defined.

Lemma ble_links_released_witness :
  let t := (ble_connect (sample_ble "hci0/dev_01")).2 in
  links_within [] (Ble_world (ble_write [7]%Z t).2) ∧ held t = [sample_peripheral].
Proof.
  split; [|vm_compute; reflexivity].
  assert (links_within [] (Ble_world (sample_ble "hci0/dev_01"))) as H0 by (intros p Hp; discriminate Hp).
  destruct (ble_links_released (sample_ble "hci0/dev_01") H0) as [Hc _]. specialize (Hc eq_refl).
  assert (links_within (held (ble_connect (sample_ble "hci0/dev_01")).2) (Ble_world (ble_connect (sample_ble "hci0/dev_01")).2))
    as H1 by exact Hc.
  destruct (ble_links_released _ H1) as (_&Hw&_). exact (Hw [7]%Z).
Defined.

Lemma ble_discovery_strongest_witness :
  ∃ d w', collect_discovered_devices [0] NANOS_PER_SEC (mkWorld (false, 2) []) = (Ready (Ok [d]), w') ∧
    Discovered_id d = "ble:hci0/dev_01"%string ∧ NoDup (Discovered_id <$> [d]).
Proof.
  eexists _, _. split; [vm_compute; reflexivity|]. split; [reflexivity|].
  edestruct (ble_discovery_strongest [0] NANOS_PER_SEC (mkWorld (false, 2) [])) as (es&_&_&Hn&_);
    [vm_compute; reflexivity|exact Hn].
Defined.
