(* ===== verification/Tracker.v ===== *)
(** * Bounded ACK tracking (crates/meshquill-core/src/client.rs)

    The client keeps two bounded first-in first-out tables of ACK codes: a hash
    map with the order of insertion beside it.  [Tracker] pairs the two fields
    of one table; the operations are those of [Client], which the source writes
    out once per table.  The abstract table is an association list, oldest entry
    first, and every operation refines its counterpart on it. *)

From S2P Require Import Prelude.

(** The capacity of both tables ([CLIENT_PENDING_ACK_CAPACITY],
    [CLIENT_COMPLETED_ACK_CAPACITY]). *)
Definition ACK_CAPACITY : nat := 256.

Record Tracker (A : Type) := mkTracker {
  tracker_map : gmap bytes A;
  tracker_order : list bytes
}.
Arguments mkTracker {A} _ _.
Arguments tracker_map {A} _.
Arguments tracker_order {A} _.

Lemma filter_id {A} (P : A → Prop) `{∀ x, Decision (P x)} l : Forall P l → filter P l = l.
Proof. induction 1; cbn; [done|]. rewrite decide_True by done. by f_equal. Qed.

Lemma elem_of_drop_in {A} n (l : list A) x : x ∈ drop n l → x ∈ l.
Proof. intros. rewrite <- (take_drop n l). set_solver. Qed.

Section tracker.
  Context {A : Type}.
  Implicit Types t : Tracker A.

Definition tracker_empty : Tracker A := mkTracker ∅ [].

(** [discard_pending_ack] / [discard_completed_ack]. *)
Definition tracker_discard (code : bytes) t : Tracker A :=
  mkTracker (delete code (tracker_map t)) (filter (λ c, c ≠ code) (tracker_order t)).

(** [take_pending_ack] / [take_completed_ack]. *)
Definition tracker_take (code : bytes) t : option A * Tracker A :=
  match tracker_map t !! code with
  | Some v =>
      (Some v,
       mkTracker (delete code (tracker_map t)) (filter (λ c, c ≠ code) (tracker_order t)))
  | None => (None, mkTracker (delete code (tracker_map t)) (tracker_order t))
  end.

(** The eviction loop: pop the oldest codes while the table is full. *)
Fixpoint tracker_evict (m : gmap bytes A) (order : list bytes) : Tracker A :=
  match order with
  | oldest :: rest =>
      if ACK_CAPACITY <=? length order then tracker_evict (delete oldest m) rest
      else mkTracker m order
  | [] => mkTracker m []
  end.

(** [remember_pending_ack] / [remember_completed_ack]. *)
Definition tracker_remember (code : bytes) (v : A) t : Tracker A :=
  let t := tracker_discard code t in
  let t := tracker_evict (tracker_map t) (tracker_order t) in
  mkTracker (<[code := v]> (tracker_map t)) (tracker_order t ++ [code]).

(** ** Invariant *)

Record tracker_wf t : Prop := {
  tracker_wf_nodup : NoDup (tracker_order t);
  tracker_wf_dom code : code ∈ tracker_order t ↔ is_Some (tracker_map t !! code);
  tracker_wf_bound : length (tracker_order t) ≤ ACK_CAPACITY
}.

Lemma tracker_empty_wf : tracker_wf tracker_empty.
Proof.
  split; cbn; [constructor| |lia]. intros code. rewrite lookup_empty, is_Some_alt.
  split; [by intros ?%not_elem_of_nil|done].
Qed.

Lemma tracker_discard_wf code t : tracker_wf t → tracker_wf (tracker_discard code t).
Proof.
  intros [Hn Hd Hb]. split; cbn.
  - by apply NoDup_filter.
  - intros c. rewrite list_elem_of_filter, Hd, lookup_delete_is_Some. naive_solver.
  - pose proof (length_filter (λ c, c ≠ code) (tracker_order t)). lia.
Qed.

Lemma tracker_take_discard code t :
  tracker_wf t → tracker_take code t = (tracker_map t !! code, tracker_discard code t).
Proof.
  intros [_ Hd _]. unfold tracker_take, tracker_discard.
  destruct (tracker_map t !! code) as [v|] eqn:Hm; [done|].
  rewrite filter_id; [done|]. apply Forall_forall. intros c Hc ->.
  apply Hd in Hc. rewrite Hm in Hc. by apply is_Some_None in Hc.
Qed.

Lemma tracker_evict_spec m order :
  NoDup order → (∀ c, c ∈ order ↔ is_Some (m !! c)) →
  let t := tracker_evict m order in
  tracker_order t = drop (S (length order) - ACK_CAPACITY) order ∧
  (∀ c, tracker_map t !! c = if bool_decide (c ∈ tracker_order t) then m !! c else None).
Proof.
  revert m. induction order as [|oldest rest IH]; intros m Hn Hd; cbn [tracker_evict].
  { cbn. split; [done|]. intros c. rewrite bool_decide_false by apply not_elem_of_nil.
    apply eq_None_not_Some. intros Hc. apply Hd in Hc. by apply not_elem_of_nil in Hc. }
  destruct (Nat.leb_spec ACK_CAPACITY (length (oldest :: rest))) as [Hle|Hlt].
  - apply NoDup_cons in Hn as [Hold Hn]. destruct (IH (delete oldest m)) as [Ho Hm]; [done| |].
    + intros c. rewrite lookup_delete_is_Some, <- Hd, elem_of_cons. naive_solver.
    + split.
      * rewrite Ho. unfold ACK_CAPACITY in *. cbn [length] in *.
        replace (S (S (length rest)) - 256) with (S (S (length rest) - 256)) by lia. done.
      * intros c. rewrite Hm. case_bool_decide as Hc; [|done]. rewrite lookup_delete_ne; [done|].
        intros <-. apply Hold. rewrite Ho in Hc. by eapply elem_of_drop_in.
  - cbn [tracker_order tracker_map]. unfold ACK_CAPACITY in *. cbn [length] in *.
    replace (S (S (length rest)) - 256) with 0 by lia. split; [done|].
    intros c. case_bool_decide as Hc; [done|]. apply eq_None_not_Some. by rewrite <- Hd.
Qed.

(** The order and the map after [remember]. *)
Lemma tracker_remember_spec code v t :
  tracker_wf t →
  let kept := filter (λ c, c ≠ code) (tracker_order t) in
  let kept := drop (S (length kept) - ACK_CAPACITY) kept in
  tracker_order (tracker_remember code v t) = kept ++ [code] ∧
  ∀ c, tracker_map (tracker_remember code v t) !! c =
    if bool_decide (c = code) then Some v
    else if bool_decide (c ∈ kept) then tracker_map t !! c else None.
Proof.
  intros Hwf. pose proof (tracker_discard_wf code t Hwf) as [Hn Hd _].
  unfold tracker_remember. cbn zeta.
  destruct (tracker_evict_spec _ _ Hn Hd) as [Ho Hm]. cbn [tracker_order tracker_map].
  rewrite Ho in *. split; [done|]. intros c. rewrite lookup_insert. cbn [tracker_order tracker_discard] in Hm.
  case_decide as Hc; [subst; by rewrite bool_decide_true|]. rewrite bool_decide_false by congruence.
  rewrite Hm. case_bool_decide; [|done]. cbn. by rewrite lookup_delete_ne.
Qed.

Lemma tracker_remember_wf code v t : tracker_wf t → tracker_wf (tracker_remember code v t).
Proof.
  intros Hwf. destruct (tracker_remember_spec code v t Hwf) as [Ho Hm].
  destruct (tracker_discard_wf code t Hwf) as [Hn Hd _]. cbn in Hn, Hd.
  set (kept := filter _ _) in *. set (k := S (length kept) - ACK_CAPACITY) in *. cbn zeta in Hm.
  assert (code ∉ drop k kept) as Hnew.
  { intros ?%elem_of_drop_in%list_elem_of_filter. naive_solver. }
  split.
  - rewrite Ho. apply NoDup_app. split_and!.
    + rewrite <- (take_drop k kept) in Hn. by apply NoDup_app in Hn as (_&_&?).
    + intros c Hc ->%list_elem_of_singleton. done.
    + apply NoDup_singleton.
  - intros c. rewrite Hm, Ho, elem_of_app, list_elem_of_singleton.
    case_bool_decide as Hc; [naive_solver|]. case_bool_decide as Hd'.
    + split; [intros _|naive_solver]. apply elem_of_drop_in, list_elem_of_filter in Hd' as [_ ?].
      by apply Hwf.
    + split; [naive_solver|]. by intros [? ?].
  - rewrite Ho, length_app, length_drop. subst k. unfold ACK_CAPACITY. cbn. lia.
Qed.

(** ** Refinement of an association list, oldest first *)

Definition entries_of (m : gmap bytes A) (order : list bytes) : list (bytes * A) :=
  omap (λ c, (c,.) <$> m !! c) order.
Definition tracker_entries t : list (bytes * A) := entries_of (tracker_map t) (tracker_order t).

Definition spec_discard (code : bytes) (l : list (bytes * A)) : list (bytes * A) :=
  filter (λ e, e.1 ≠ code) l.
Definition spec_remember (code : bytes) (v : A) (l : list (bytes * A)) : list (bytes * A) :=
  let l := spec_discard code l in
  drop (S (length l) - ACK_CAPACITY) l ++ [(code, v)].
Fixpoint spec_lookup (code : bytes) (l : list (bytes * A)) : option A :=
  match l with
  | [] => None
  | (c, v) :: l => if bool_decide (c = code) then Some v else spec_lookup code l
  end.

Lemma entries_of_cons m c order :
  entries_of m (c :: order) =
  match m !! c with Some v => (c, v) :: entries_of m order | None => entries_of m order end.
Proof. unfold entries_of. cbn. by destruct (m !! c). Qed.

Lemma entries_of_ext m m' order :
  (∀ c, c ∈ order → m !! c = m' !! c) → entries_of m order = entries_of m' order.
Proof.
  intros He. induction order as [|c order IH]; [done|].
  rewrite !entries_of_cons, (He c), IH by set_solver. done.
Qed.

Lemma entries_of_filter m order code :
  entries_of m (filter (λ c, c ≠ code) order) = spec_discard code (entries_of m order).
Proof.
  unfold spec_discard. induction order as [|c order IH]; [done|].
  rewrite filter_cons, entries_of_cons.
  destruct (m !! c) as [v|] eqn:Hm; [rewrite filter_cons; cbn [fst]|];
    case_decide; rewrite ?entries_of_cons, ?Hm, IH; done.
Qed.

Lemma entries_of_drop m order n :
  (∀ c, c ∈ order → is_Some (m !! c)) → entries_of m (drop n order) = drop n (entries_of m order).
Proof.
  revert n. induction order as [|c order IH]; intros n Hs; [by destruct n|].
  destruct n as [|n]; [done|]. destruct (Hs c) as [v Hv]; [set_solver|].
  rewrite entries_of_cons, Hv. cbn [drop]. apply IH. set_solver.
Qed.

Lemma entries_of_length m order :
  (∀ c, c ∈ order → is_Some (m !! c)) → length (entries_of m order) = length order.
Proof.
  induction order as [|c order IH]; intros Hs; [done|].
  destruct (Hs c) as [v Hv]; [set_solver|]. rewrite entries_of_cons, Hv. cbn.
  f_equal. apply IH. set_solver.
Qed.

Lemma tracker_discard_refines code t :
  tracker_entries (tracker_discard code t) = spec_discard code (tracker_entries t).
Proof.
  unfold tracker_entries. cbn. rewrite <- entries_of_filter. apply entries_of_ext.
  intros c [? _]%list_elem_of_filter. by rewrite lookup_delete_ne.
Qed.

Lemma tracker_remember_refines code v t :
  tracker_wf t →
  tracker_entries (tracker_remember code v t) = spec_remember code v (tracker_entries t).
Proof.
  intros Hwf. destruct (tracker_remember_spec code v t Hwf) as [Ho Hm].
  unfold tracker_entries. rewrite Ho. unfold spec_remember. cbn zeta in *.
  rewrite <- (entries_of_filter (tracker_map t)).
  set (kept := filter _ _) in *.
  assert (∀ c, c ∈ kept → c ≠ code ∧ is_Some (tracker_map t !! c)) as Hk.
  { intros c [? ?]%list_elem_of_filter. split; [done|]. by apply Hwf. }
  rewrite entries_of_length by naive_solver.
  rewrite <- entries_of_drop by naive_solver.
  unfold entries_of at 1. rewrite omap_app. cbn. rewrite Hm, bool_decide_true by done. cbn.
  f_equal. apply entries_of_ext. intros c Hc. rewrite Hm.
  rewrite bool_decide_false by (apply elem_of_drop_in in Hc; naive_solver).
  by rewrite bool_decide_true.
Qed.

Lemma tracker_lookup_refines code t :
  tracker_wf t → tracker_map t !! code = spec_lookup code (tracker_entries t).
Proof.
  intros [_ Hd _]. unfold tracker_entries.
  assert (∀ o, (∀ c, c ∈ o → is_Some (tracker_map t !! c)) →
    spec_lookup code (entries_of (tracker_map t) o) =
    if bool_decide (code ∈ o) then tracker_map t !! code else None) as Haux.
  { induction o as [|c o IH]; intros Hs.
    - by rewrite bool_decide_false by apply not_elem_of_nil.
    - destruct (Hs c) as [v Hv]; [set_solver|]. rewrite entries_of_cons, Hv.
      cbn [spec_lookup]. destruct (decide (c = code)) as [->|Hc].
      + by rewrite !bool_decide_true by (done || left).
      + rewrite (bool_decide_false (c = code)), IH by (done || set_solver).
        rewrite (bool_decide_ext (code ∈ c :: o) (code ∈ o)); [done|]. rewrite elem_of_cons. naive_solver. }
  rewrite Haux by (intros; by apply Hd). case_bool_decide as Hc; [done|].
  apply eq_None_not_Some. by rewrite <- Hd.
Qed.

(** ** Sequences of operations *)

Inductive tracker_op :=
| OpDiscard (code : bytes)
| OpTake (code : bytes)
| OpRemember (code : bytes) (v : A).

Definition tracker_step (op : tracker_op) t : option A * Tracker A :=
  match op with
  | OpDiscard code => (None, tracker_discard code t)
  | OpTake code => tracker_take code t
  | OpRemember code v => (None, tracker_remember code v t)
  end.
Definition spec_step (op : tracker_op) (l : list (bytes * A)) : option A * list (bytes * A) :=
  match op with
  | OpDiscard code => (None, spec_discard code l)
  | OpTake code => (spec_lookup code l, spec_discard code l)
  | OpRemember code v => (None, spec_remember code v l)
  end.

(** The answers of a sequence of operations, and the state after it. *)
Fixpoint run_ops {S} (step : tracker_op → S → option A * S) (ops : list tracker_op) (s : S)
    : list (option A) * S :=
  match ops with
  | [] => ([], s)
  | op :: ops =>
      let '(answer, s) := step op s in
      let '(answers, s) := run_ops step ops s in
      (answer :: answers, s)
  end.

Lemma tracker_step_refines op t :
  tracker_wf t →
  let '(answer, t') := tracker_step op t in
  tracker_wf t' ∧ spec_step op (tracker_entries t) = (answer, tracker_entries t').
Proof.
  intros Hwf. destruct op as [code|code|code v]; cbn [tracker_step spec_step].
  - split; [by apply tracker_discard_wf|]. by rewrite tracker_discard_refines.
  - rewrite tracker_take_discard by done. split; [by apply tracker_discard_wf|].
    by rewrite tracker_discard_refines, tracker_lookup_refines.
  - split; [by apply tracker_remember_wf|]. by rewrite tracker_remember_refines.
Qed.

Lemma run_ops_refines ops t :
  tracker_wf t →
  let '(answers, t') := run_ops tracker_step ops t in
  tracker_wf t' ∧ run_ops spec_step ops (tracker_entries t) = (answers, tracker_entries t').
Proof.
  revert t. induction ops as [|op ops IH]; intros t Hwf; [done|]. cbn [run_ops].
  pose proof (tracker_step_refines op t Hwf) as Hs. destruct (tracker_step op t) as [answer t1].
  destruct Hs as [Hwf1 ->]. specialize (IH t1 Hwf1).
  destruct (run_ops tracker_step ops t1) as [answers t2]. destruct IH as [Hwf2 ->]. done.
Qed.

(** C33: the ACK tables, a hash map with a queue of codes beside it, implement a
    single bounded list, oldest entry first: whatever the sequence of [discard],
    [take] and [remember] calls, every [take] answers what the list answers, the
    table holds exactly the entries of the list, and never more than 256; a
    [remember] on a full table evicts the oldest entry. *)
Theorem tracker_refines_bounded_list ops :
  let '(answers, t) := run_ops tracker_step ops tracker_empty in
  let '(spec_answers, l) := run_ops spec_step ops [] in
  answers = spec_answers ∧ tracker_entries t = l ∧ length l ≤ 256 ∧
  ∀ code, tracker_map t !! code = spec_lookup code l.
Proof.
  pose proof (run_ops_refines ops tracker_empty tracker_empty_wf) as Hr.
  destruct (run_ops tracker_step ops tracker_empty) as [answers t]. destruct Hr as [Hwf Hr].
  change (tracker_entries tracker_empty) with (@nil (bytes * A)) in Hr. rewrite Hr.
  split_and!; [done|done| |].
  - unfold tracker_entries. rewrite entries_of_length; [apply Hwf|]. intros c. by apply Hwf.
  - intros code. by apply tracker_lookup_refines.
Qed.
End tracker.

#[export] Hint Resolve tracker_empty_wf tracker_discard_wf tracker_remember_wf : mq_wf.
