(* ===== verification/Command.v ===== *)
(** * Companion commands (crates/meshquill-core/src/protocol.rs, outbound half)

    [CommandCode] with its byte codes, [Command] with its encoding and every
    constructor of [impl Command], the validators they share, and the encoders
    of contact types, routes and coordinates.  A constructor that the source
    declares as [-> Self] is a total function; one that returns a [Result] is
    an [outcome CoreError Command], with the error messages written out. *)

From S2P Require Import Prelude Text Floats Domain Packet.

(** ** Command codes *)

Inductive CommandCode :=
| CommandCode_AppStart
| CommandCode_SendTxtMsg
| CommandCode_SendChannelTxtMsg
| CommandCode_GetContacts
| CommandCode_GetDeviceTime
| CommandCode_SetDeviceTime
| CommandCode_SendSelfAdvert
| CommandCode_SetAdvertName
| CommandCode_AddUpdateContact
| CommandCode_SyncNextMessage
| CommandCode_SetRadioParams
| CommandCode_SetTxPower
| CommandCode_ResetPath
| CommandCode_SetAdvertLatLon
| CommandCode_RemoveContact
| CommandCode_ShareContact
| CommandCode_ExportContact
| CommandCode_ImportContact
| CommandCode_Reboot
| CommandCode_GetBattAndStorage
| CommandCode_SetTuningParams
| CommandCode_DeviceQuery
| CommandCode_ExportPrivateKey
| CommandCode_ImportPrivateKey
| CommandCode_SendRawData
| CommandCode_SendLogin
| CommandCode_SendStatusReq
| CommandCode_HasConnection
| CommandCode_Logout
| CommandCode_GetContactByKey
| CommandCode_GetChannel
| CommandCode_SetChannel
| CommandCode_SignStart
| CommandCode_SignData
| CommandCode_SignFinish
| CommandCode_SendTracePath
| CommandCode_SetDevicePin
| CommandCode_SetOtherParams
| CommandCode_SendTelemetryReq
| CommandCode_GetCustomVars
| CommandCode_SetCustomVar
| CommandCode_GetAdvertPath
| CommandCode_GetTuningParams
| CommandCode_BinaryReq
| CommandCode_FactoryReset
| CommandCode_PathDiscovery
| CommandCode_SetFloodScope
| CommandCode_SendControlData
| CommandCode_GetStats
| CommandCode_SendAnonReq
| CommandCode_SetAutoAddConfig
| CommandCode_GetAutoAddConfig
| CommandCode_GetAllowedRepeatFreq
| CommandCode_SetPathHashMode
| CommandCode_SendChannelData
| CommandCode_SetDefaultFloodScope
| CommandCode_GetDefaultFloodScope
| CommandCode_Unknown (value : u8).

#[global] Instance CommandCode_eq_dec : EqDecision CommandCode.
Proof. solve_decision. Defined.

Definition CommandCode_to_u8 (c : CommandCode) : u8 :=
  match c with
  | CommandCode_AppStart => 0x01
  | CommandCode_SendTxtMsg => 0x02
  | CommandCode_SendChannelTxtMsg => 0x03
  | CommandCode_GetContacts => 0x04
  | CommandCode_GetDeviceTime => 0x05
  | CommandCode_SetDeviceTime => 0x06
  | CommandCode_SendSelfAdvert => 0x07
  | CommandCode_SetAdvertName => 0x08
  | CommandCode_AddUpdateContact => 0x09
  | CommandCode_SyncNextMessage => 0x0a
  | CommandCode_SetRadioParams => 0x0b
  | CommandCode_SetTxPower => 0x0c
  | CommandCode_ResetPath => 0x0d
  | CommandCode_SetAdvertLatLon => 0x0e
  | CommandCode_RemoveContact => 0x0f
  | CommandCode_ShareContact => 0x10
  | CommandCode_ExportContact => 0x11
  | CommandCode_ImportContact => 0x12
  | CommandCode_Reboot => 0x13
  | CommandCode_GetBattAndStorage => 0x14
  | CommandCode_SetTuningParams => 0x15
  | CommandCode_DeviceQuery => 0x16
  | CommandCode_ExportPrivateKey => 0x17
  | CommandCode_ImportPrivateKey => 0x18
  | CommandCode_SendRawData => 0x19
  | CommandCode_SendLogin => 0x1a
  | CommandCode_SendStatusReq => 0x1b
  | CommandCode_HasConnection => 0x1c
  | CommandCode_Logout => 0x1d
  | CommandCode_GetContactByKey => 0x1e
  | CommandCode_GetChannel => 0x1f
  | CommandCode_SetChannel => 0x20
  | CommandCode_SignStart => 0x21
  | CommandCode_SignData => 0x22
  | CommandCode_SignFinish => 0x23
  | CommandCode_SendTracePath => 0x24
  | CommandCode_SetDevicePin => 0x25
  | CommandCode_SetOtherParams => 0x26
  | CommandCode_SendTelemetryReq => 0x27
  | CommandCode_GetCustomVars => 0x28
  | CommandCode_SetCustomVar => 0x29
  | CommandCode_GetAdvertPath => 0x2a
  | CommandCode_GetTuningParams => 0x2b
  | CommandCode_BinaryReq => 0x32
  | CommandCode_FactoryReset => 0x33
  | CommandCode_PathDiscovery => 0x34
  | CommandCode_SetFloodScope => 0x36
  | CommandCode_SendControlData => 0x37
  | CommandCode_GetStats => 0x38
  | CommandCode_SendAnonReq => 0x39
  | CommandCode_SetAutoAddConfig => 0x3a
  | CommandCode_GetAutoAddConfig => 0x3b
  | CommandCode_GetAllowedRepeatFreq => 0x3c
  | CommandCode_SetPathHashMode => 0x3d
  | CommandCode_SendChannelData => 0x3e
  | CommandCode_SetDefaultFloodScope => 0x3f
  | CommandCode_GetDefaultFloodScope => 0x40
  | CommandCode_Unknown value => value
  end%Z.

Definition CommandCode_try_from (code : u8) : outcome ParseError CommandCode :=
  match code with
  | 0x01 => Ok CommandCode_AppStart
  | 0x02 => Ok CommandCode_SendTxtMsg
  | 0x03 => Ok CommandCode_SendChannelTxtMsg
  | 0x04 => Ok CommandCode_GetContacts
  | 0x05 => Ok CommandCode_GetDeviceTime
  | 0x06 => Ok CommandCode_SetDeviceTime
  | 0x07 => Ok CommandCode_SendSelfAdvert
  | 0x08 => Ok CommandCode_SetAdvertName
  | 0x09 => Ok CommandCode_AddUpdateContact
  | 0x0a => Ok CommandCode_SyncNextMessage
  | 0x0b => Ok CommandCode_SetRadioParams
  | 0x0c => Ok CommandCode_SetTxPower
  | 0x0d => Ok CommandCode_ResetPath
  | 0x0e => Ok CommandCode_SetAdvertLatLon
  | 0x0f => Ok CommandCode_RemoveContact
  | 0x10 => Ok CommandCode_ShareContact
  | 0x11 => Ok CommandCode_ExportContact
  | 0x12 => Ok CommandCode_ImportContact
  | 0x13 => Ok CommandCode_Reboot
  | 0x14 => Ok CommandCode_GetBattAndStorage
  | 0x15 => Ok CommandCode_SetTuningParams
  | 0x16 => Ok CommandCode_DeviceQuery
  | 0x17 => Ok CommandCode_ExportPrivateKey
  | 0x18 => Ok CommandCode_ImportPrivateKey
  | 0x19 => Ok CommandCode_SendRawData
  | 0x1a => Ok CommandCode_SendLogin
  | 0x1b => Ok CommandCode_SendStatusReq
  | 0x1c => Ok CommandCode_HasConnection
  | 0x1d => Ok CommandCode_Logout
  | 0x1e => Ok CommandCode_GetContactByKey
  | 0x1f => Ok CommandCode_GetChannel
  | 0x20 => Ok CommandCode_SetChannel
  | 0x21 => Ok CommandCode_SignStart
  | 0x22 => Ok CommandCode_SignData
  | 0x23 => Ok CommandCode_SignFinish
  | 0x24 => Ok CommandCode_SendTracePath
  | 0x25 => Ok CommandCode_SetDevicePin
  | 0x26 => Ok CommandCode_SetOtherParams
  | 0x27 => Ok CommandCode_SendTelemetryReq
  | 0x28 => Ok CommandCode_GetCustomVars
  | 0x29 => Ok CommandCode_SetCustomVar
  | 0x2a => Ok CommandCode_GetAdvertPath
  | 0x2b => Ok CommandCode_GetTuningParams
  | 0x32 => Ok CommandCode_BinaryReq
  | 0x33 => Ok CommandCode_FactoryReset
  | 0x34 => Ok CommandCode_PathDiscovery
  | 0x36 => Ok CommandCode_SetFloodScope
  | 0x37 => Ok CommandCode_SendControlData
  | 0x38 => Ok CommandCode_GetStats
  | 0x39 => Ok CommandCode_SendAnonReq
  | 0x3a => Ok CommandCode_SetAutoAddConfig
  | 0x3b => Ok CommandCode_GetAutoAddConfig
  | 0x3c => Ok CommandCode_GetAllowedRepeatFreq
  | 0x3d => Ok CommandCode_SetPathHashMode
  | 0x3e => Ok CommandCode_SendChannelData
  | 0x3f => Ok CommandCode_SetDefaultFloodScope
  | 0x40 => Ok CommandCode_GetDefaultFloodScope
  | other => Ok (CommandCode_Unknown other)
  end%Z.

(** ** Commands and shared validators *)

Record Command := mkCommand { Command_code : CommandCode; Command_payload : bytes }.

(** [Command::encode]: the code pushed first, then a copy of the payload. *)
Definition Command_encode (c : Command) : bytes :=
  [CommandCode_to_u8 (Command_code c)] ++ Command_payload c.

(** [Command::into_encoded]: the same bytes, the payload moved into the result. *)
Definition Command_into_encoded (c : Command) : bytes :=
  [CommandCode_to_u8 (Command_code c)] ++ Command_payload c.

Abbreviation build := (outcome CoreError) (only parsing).

Definition invalid_argument {A} (field message : string) : build A :=
  Err (CoreError_InvalidArgument field message).

Definition without_payload (code : CommandCode) : Command := mkCommand code [].

Definition checked (code : CommandCode) (payload : bytes) : build Command :=
  let total := usize_saturating_add (length payload) 1 in
  if MAX_INNER_PAYLOAD <? total then
    invalid_argument "payload"
      ("encoded packet is " +:+ pretty total +:+ " bytes; maximum is " +:+ pretty MAX_INNER_PAYLOAD)
  else Ok (mkCommand code payload).

Definition command_with_key (code : CommandCode) (public_key : bytes) (prefix : bytes)
    : build Command :=
  if negb (length public_key =? 32) then
    invalid_argument "public_key"
      ("expected exactly 32 bytes, got " +:+ pretty (length public_key))
  else checked code (prefix ++ public_key).

Definition command_with_key_suffix (code : CommandCode) (public_key : bytes) (suffix : bytes)
    : build Command :=
  if negb (length public_key =? 32) then
    invalid_argument "public_key"
      ("expected exactly 32 bytes, got " +:+ pretty (length public_key))
  else checked code (public_key ++ suffix).

Definition contact_type_to_u8 (t : ContactType) : u8 :=
  match t with
  | ContactType_Chat => 0
  | ContactType_Repeater => 1
  | ContactType_Room => 2
  | ContactType_Sensor => 3
  | ContactType_Unknown value => value
  end%Z.

Definition encode_contact_route (route : ContactRoute) (path : Path) : build u8 :=
  match route with
  | ContactRoute_Flood =>
      if negb (bool_decide (Path_bytes path = []))
      then invalid_argument "path" "a flood route must not contain path bytes"
      else Ok 255%Z
  | ContactRoute_Path hash_mode hop_count =>
      if ((2 <? hash_mode) || (63 <? hop_count))%Z
      then invalid_argument "route" "hash mode must be at most 2 and hop count at most 63"
      else
        let expected := Z.to_nat hop_count * (Z.to_nat hash_mode + 1) in
        if negb (length (Path_bytes path) =? expected) then
          invalid_argument "path"
            ("route descriptor requires " +:+ pretty expected +:+ " bytes, got "
               +:+ pretty (length (Path_bytes path)))
        else if 64 <? expected
        then invalid_argument "path" "contact paths are limited to 64 bytes"
        else Ok (Z.lor (to_unsigned 8 (Z.shiftl hash_mode 6)) hop_count)
  end.

Definition validate_text_field (value : rstring) (maximum_bytes : usize) (field : string)
    : build () :=
  if bool_decide (value = []) then invalid_argument field "must not be empty"
  else if maximum_bytes <? length value then
    invalid_argument field
      ("UTF-8 value is " +:+ pretty (length value) +:+ " bytes; maximum is "
         +:+ pretty maximum_bytes)
  else Ok ().

(** The NUL test that follows [validate_text_field] in the name setters. *)
Definition reject_nul (value : rstring) (field : string) : build () :=
  if contains_byte 0 value then invalid_argument field "must not contain a NUL byte" else Ok ().

Definition validate_custom_component (value : rstring) (field : string) : build () :=
  _ ← validate_text_field value (MAX_INNER_PAYLOAD - 2) field;
  if existsb (λ b, (b =? 0) || (b =? 58) || (b =? 44))%Z value
  then invalid_argument field "must not contain NUL, ':' or ',' wire separators"
  else Ok ().

Definition validate_range (value minimum maximum : Z) (field : string) : build () :=
  if ((value <? minimum) || (maximum <? value))%Z then
    invalid_argument field
      ("must be between " +:+ pretty minimum +:+ " and " +:+ pretty maximum
         +:+ ", got " +:+ pretty value)
  else Ok ().

(** The bounds are integral at every call, so they are given as integers. *)
Definition scaled_coordinate (value : f64) (minimum maximum : Z) (field : string) : build i32 :=
  if negb (is_finite value) || f64_lt value (f64_of_Z minimum) || f64_lt (f64_of_Z maximum) value
  then invalid_argument field
         ("must be finite and between " +:+ pretty minimum +:+ " and " +:+ pretty maximum)
  else Ok (f64_as_i32 (f64_mul value (f64_of_Z 1000000))).

(** ** Session, time, device configuration *)

Definition app_start : Command :=
  mkCommand CommandCode_AppStart (3%Z :: str_bytes "      mccli").
Definition device_query : Command := mkCommand CommandCode_DeviceQuery [3%Z].
Definition get_contacts (lastmod : option u32) : Command :=
  mkCommand CommandCode_GetContacts
    match lastmod with Some lastmod => u32_to_le_bytes lastmod | None => [] end.
Definition sync_next_message : Command := mkCommand CommandCode_SyncNextMessage [].
Definition get_time : Command := mkCommand CommandCode_GetDeviceTime [].
Definition set_time (value : u32) : Command :=
  mkCommand CommandCode_SetDeviceTime (u32_to_le_bytes value).
Definition get_battery : Command := without_payload CommandCode_GetBattAndStorage.
Definition send_self_advert (flood : bool) : Command :=
  mkCommand CommandCode_SendSelfAdvert (if flood then [1%Z] else []).

Definition set_advert_name (name : rstring) : build Command :=
  _ ← validate_text_field name 31 "name";
  _ ← reject_nul name "name";
  checked CommandCode_SetAdvertName name.

Definition set_coordinates (latitude longitude : f64) : build Command :=
  latitude ← scaled_coordinate latitude (-90) 90 "latitude";
  longitude ← scaled_coordinate longitude (-180) 180 "longitude";
  checked CommandCode_SetAdvertLatLon
    (i32_to_le_bytes latitude ++ i32_to_le_bytes longitude ++ i32_to_le_bytes 0).

Definition set_tx_power (power_dbm : i8) : build Command :=
  if (power_dbm <? -9)%Z then invalid_argument "power_dbm" "must be at least -9 dBm"
  else checked CommandCode_SetTxPower [i8_cast_unsigned power_dbm].

Definition set_radio_params (params : RadioParams) : build Command :=
  _ ← validate_range (RadioParams_frequency_khz params) 150000 2500000 "frequency_khz";
  _ ← validate_range (RadioParams_bandwidth_hz params) 7000 500000 "bandwidth_hz";
  _ ← validate_range (RadioParams_spreading_factor params) 5 12 "spreading_factor";
  _ ← validate_range (RadioParams_coding_rate params) 5 8 "coding_rate";
  checked CommandCode_SetRadioParams
    (u32_to_le_bytes (RadioParams_frequency_khz params) ++
     u32_to_le_bytes (RadioParams_bandwidth_hz params) ++
     [RadioParams_spreading_factor params] ++ [RadioParams_coding_rate params] ++
     match RadioParams_repeat params with
     | Some repeat => [if repeat : bool then 1%Z else 0%Z]
     | None => []
     end).

Definition set_tuning (params : TuningParams) : Command :=
  mkCommand CommandCode_SetTuningParams
    (u32_to_le_bytes (TuningParams_rx_delay params) ++
     u32_to_le_bytes (TuningParams_airtime_factor params) ++ [0%Z; 0%Z]).
Definition get_tuning : Command := without_payload CommandCode_GetTuningParams.

(** ** Contacts *)

Definition reset_path (public_key : bytes) : build Command :=
  command_with_key CommandCode_ResetPath public_key [].

Definition update_contact (contact : Contact) : build Command :=
  _ ← validate_text_field (Contact_adv_name contact) 31 "name";
  _ ← reject_nul (Contact_adv_name contact) "name";
  descriptor ← encode_contact_route (Contact_route contact) (Contact_out_path contact);
  latitude ← scaled_coordinate (Contact_adv_lat contact) (-90) 90 "latitude";
  longitude ← scaled_coordinate (Contact_adv_lon contact) (-180) 180 "longitude";
  let payload := PublicKey_0 (Contact_public_key contact) in
  let payload := payload ++ [contact_type_to_u8 (Contact_contact_type contact)] in
  let payload := payload ++ [Contact_flags contact] in
  let payload := payload ++ [descriptor] in
  let payload := payload ++ Path_bytes (Contact_out_path contact) in
  let payload := resize0 (32 + 1 + 1 + 1 + 64) payload in
  let payload := payload ++ Contact_adv_name contact in
  let payload := resize0 (32 + 1 + 1 + 1 + 64 + 32) payload in
  let payload := payload ++ u32_to_le_bytes (Contact_last_advert contact) in
  let payload := payload ++ i32_to_le_bytes latitude in
  let payload := payload ++ i32_to_le_bytes longitude in
  checked CommandCode_AddUpdateContact payload.

Definition remove_contact (public_key : bytes) : build Command :=
  command_with_key CommandCode_RemoveContact public_key [].
Definition share_contact (public_key : bytes) : build Command :=
  command_with_key CommandCode_ShareContact public_key [].
Definition export_contact (public_key : option bytes) : build Command :=
  match public_key with
  | Some public_key => command_with_key CommandCode_ExportContact public_key []
  | None => Ok (without_payload CommandCode_ExportContact)
  end.
Definition import_contact (card : bytes) : build Command :=
  let MIN_CARD_BYTES := 98 in
  if length card <? MIN_CARD_BYTES then
    invalid_argument "card" ("must contain at least " +:+ pretty MIN_CARD_BYTES +:+ " bytes")
  else checked CommandCode_ImportContact card.
Definition get_contact (public_key : bytes) : build Command :=
  command_with_key CommandCode_GetContactByKey public_key [].
Definition get_advert_path (public_key : bytes) : build Command :=
  command_with_key CommandCode_GetAdvertPath public_key [0%Z].

Definition set_auto_add_config (config : AutoAddConfig) : build Command :=
  if match AutoAddConfig_max_hops config with Some h => (64 <? h)%Z | None => false end
  then invalid_argument "max_hops" "must be at most 64"
  else checked CommandCode_SetAutoAddConfig
         ([AutoAddConfig_config config] ++
          match AutoAddConfig_max_hops config with Some h => [h] | None => [] end).
Definition get_auto_add_config : Command := without_payload CommandCode_GetAutoAddConfig.

(** ** Custom variables, statistics, scopes *)

Definition get_custom_vars : Command := without_payload CommandCode_GetCustomVars.
Definition set_custom_var (key value : rstring) : build Command :=
  _ ← validate_custom_component key "key";
  _ ← validate_custom_component value "value";
  checked CommandCode_SetCustomVar (key ++ [58%Z] ++ value).

Definition get_stats (stats_type : StatsType) : Command :=
  mkCommand CommandCode_GetStats
    [match stats_type with
     | StatsType_Core => 0 | StatsType_Radio => 1 | StatsType_Packets => 2
     end%Z].
Definition get_allowed_repeat_frequencies : Command :=
  without_payload CommandCode_GetAllowedRepeatFreq.
Definition set_path_hash_mode (mode : u8) : build Command :=
  if (2 <? mode)%Z then invalid_argument "mode" "must be 0, 1, or 2"
  else checked CommandCode_SetPathHashMode [0%Z; mode].
Definition set_flood_scope (scope : FloodScope) : Command :=
  mkCommand CommandCode_SetFloodScope
    match scope with
    | FloodScope_Default => [0%Z]
    | FloodScope_Unscoped => [1%Z]
    | FloodScope_Key key => [0%Z] ++ key
    end.

Definition set_default_flood_scope (name : rstring) (key : bytes) : build Command :=
  _ ← validate_text_field name 30 "name";
  _ ← reject_nul name "name";
  let payload := replicate (31 + 16) 0%Z in
  payload ← copy_from_slice payload 0 (length name) name;
  payload ← copy_from_slice payload 31 (length payload) key;
  checked CommandCode_SetDefaultFloodScope payload.
Definition clear_default_flood_scope : Command := without_payload CommandCode_SetDefaultFloodScope.
Definition get_default_flood_scope : Command := without_payload CommandCode_GetDefaultFloodScope.

(** ** Messages and channels *)

Definition send_direct_text (destination_prefix : bytes) (timestamp : u32) (attempt : u8)
    (text : rstring) : Command :=
  mkCommand CommandCode_SendTxtMsg
    ([0%Z] ++ [attempt] ++ u32_to_le_bytes timestamp ++ destination_prefix ++ text).
Definition send_direct_command (destination_prefix : bytes) (timestamp : u32) (attempt : u8)
    (command : rstring) : Command :=
  mkCommand CommandCode_SendTxtMsg
    ([1%Z] ++ [attempt] ++ u32_to_le_bytes timestamp ++ destination_prefix ++ command).
Definition send_channel (chan txt_type : u8) (timestamp : u32) (text : rstring) : Command :=
  mkCommand CommandCode_SendChannelTxtMsg
    ([txt_type] ++ [chan] ++ u32_to_le_bytes timestamp ++ text).
Definition get_channel (idx : u8) : Command := mkCommand CommandCode_GetChannel [idx].

Definition set_channel (idx : u8) (name : rstring) (secret : bytes) : build Command :=
  _ ← validate_text_field name 31 "name";
  _ ← reject_nul name "name";
  let payload := replicate (1 + 32 + 16) 0%Z in
  payload ← copy_from_slice payload 0 1 [idx];
  payload ← copy_from_slice payload 1 (length name + 1) name;
  payload ← copy_from_slice payload 33 (length payload) secret;
  checked CommandCode_SetChannel payload.
Definition clear_channel (idx : u8) : Command :=
  mkCommand CommandCode_SetChannel (<[0 := idx]> (replicate (1 + 32 + 16) 0%Z)).

(** ** Remote requests *)

Definition send_login (public_key : bytes) (password : rstring) : build Command :=
  _ ← reject_nul password "password";
  command_with_key_suffix CommandCode_SendLogin public_key password.
Definition send_status_request (public_key : bytes) : build Command :=
  command_with_key CommandCode_SendStatusReq public_key [].
Definition has_connection (public_key : bytes) : build Command :=
  command_with_key CommandCode_HasConnection public_key [].
Definition logout (public_key : bytes) : build Command :=
  command_with_key CommandCode_Logout public_key [].
Definition get_self_telemetry : Command :=
  mkCommand CommandCode_SendTelemetryReq [0%Z; 0%Z; 0%Z].
Definition send_binary_request (public_key : bytes) (request_type : u8) (data : bytes)
    : build Command :=
  command_with_key_suffix CommandCode_BinaryReq public_key ([request_type] ++ data).

Definition send_anonymous_request (public_key : bytes) (request_type : u8)
    (reply_route : ContactRoute) (reply_path : Path) : build Command :=
  if (request_type =? 0)%Z then invalid_argument "request_type" "must be non-zero"
  else if bool_decide (reply_route = ContactRoute_Flood) then
    invalid_argument "reply_route" "anonymous requests require a direct reply route"
  else
    descriptor ← encode_contact_route reply_route reply_path;
    command_with_key_suffix CommandCode_SendAnonReq public_key
      ([request_type] ++ [descriptor] ++ Path_bytes reply_path).

Definition discover_path (public_key : bytes) : build Command :=
  command_with_key CommandCode_PathDiscovery public_key [0%Z].

Definition send_node_discovery (filter : u8) (prefix_only : bool) (tag : u32) (since : option u32)
    : build Command :=
  if (tag =? 0)%Z then invalid_argument "tag" "must be non-zero"
  else checked CommandCode_SendControlData
         ([Z.lor 0x80 (if prefix_only then 1 else 0)] ++ [filter] ++ u32_to_le_bytes tag ++
          match since with Some since => u32_to_le_bytes since | None => [] end).

(** ** Signing, keys, administration *)

Definition sign_start : Command := without_payload CommandCode_SignStart.
Definition sign_data (chunk : bytes) : build Command :=
  if bool_decide (chunk = []) then invalid_argument "chunk" "must not be empty"
  else checked CommandCode_SignData chunk.
Definition sign_finish : Command := without_payload CommandCode_SignFinish.
Definition export_private_key : Command := without_payload CommandCode_ExportPrivateKey.
Definition import_private_key (key : PrivateKeyMaterial) : Command :=
  mkCommand CommandCode_ImportPrivateKey (PrivateKeyMaterial_0 key).
Definition set_device_pin (pin : u32) : build Command :=
  if (999999 <? pin)%Z then invalid_argument "pin" "must be between 0 and 999999"
  else checked CommandCode_SetDevicePin (u32_to_le_bytes pin).
Definition reboot : Command := mkCommand CommandCode_Reboot (str_bytes "reboot").
Definition factory_reset : Command := mkCommand CommandCode_FactoryReset (str_bytes "reset").
