(* ===== verification/CommandFacts.v ===== *)
(** * Facts about command construction

    Every fallible constructor either rejects its arguments with
    [InvalidArgument] or produces a packet of 1 to 176 bytes, and never panics;
    the command-code bijection; the route descriptor round trip. *)

From S2P Require Import Prelude Text Floats Domain Packet PacketFacts Command.

(** ** Command codes *)

(** Only [Unknown] carries a byte; it stands for itself when the byte names no
    command. *)
Definition canonical_code (c : CommandCode) : Prop :=
  CommandCode_try_from (CommandCode_to_u8 c) = Ok c.

Lemma CommandCode_bijection b :
  is_u8 b → ∃ c, CommandCode_try_from b = Ok c ∧ CommandCode_to_u8 c = b ∧ canonical_code c.
Proof.
  intros _. unfold canonical_code. destruct (CommandCode_try_from b) as [c|e|] eqn:Hc.
  - exists c. enough (CommandCode_to_u8 c = b) as ->; [done|].
    revert Hc. unfold CommandCode_try_from. repeat (case_match; try (intros; by simplify_eq)).
  - revert Hc. unfold CommandCode_try_from. by repeat case_match.
  - revert Hc. unfold CommandCode_try_from. by repeat case_match.
Qed.

(** ** What a constructor promises *)

Definition wire_ok (c : Command) : Prop :=
  is_bytes (Command_encode c) ∧ 1 ≤ length (Command_encode c) ≤ MAX_INNER_PAYLOAD.

Definition argument_error (e : CoreError) : Prop := ∃ f m, e = CoreError_InvalidArgument f m.

Abbreviation build_ok m := (post m wire_ok argument_error).

Lemma invalid_argument_post {A} f m (Q : A → Prop) : post (invalid_argument f m) Q argument_error.
Proof. simpl. by eexists _, _. Qed.

Lemma checked_spec code payload :
  length payload ≤ 175 → checked code payload = Ok (mkCommand code payload).
Proof.
  intros Hl. unfold checked, usize_saturating_add, usize_fits, MAX_INNER_PAYLOAD.
  destruct (Z.ltb_spec (Z.of_nat (length payload) + Z.of_nat 1) (2 ^ 64)); [|lia].
  destruct (Nat.ltb_spec 176 (length payload + 1)); [lia|done].
Qed.

Lemma checked_too_long code payload :
  175 < length payload → ∃ m, checked code payload = Err (CoreError_InvalidArgument "payload" m).
Proof.
  intros Hl. unfold checked, usize_saturating_add, usize_fits, MAX_INNER_PAYLOAD.
  destruct (Z.ltb_spec (Z.of_nat (length payload) + Z.of_nat 1) (2 ^ 64)).
  - destruct (Nat.ltb_spec 176 (length payload + 1)); [by eexists|lia].
  - destruct (Nat.ltb_spec 176 (Z.to_nat (2 ^ 64 - 1))); [by eexists|lia].
Qed.

Lemma checked_post code payload :
  is_u8 (CommandCode_to_u8 code) → is_bytes payload → build_ok (checked code payload).
Proof.
  intros Hc Hp. destruct (decide (length payload ≤ 175)) as [Hl|Hl].
  - rewrite checked_spec by done. split; [by constructor|]. unfold MAX_INNER_PAYLOAD. simpl. lia.
  - destruct (checked_too_long code payload) as [m ->]; [lia|]. by eexists _, _.
Qed.

Lemma command_with_key_post code key prefix :
  is_u8 (CommandCode_to_u8 code) → is_bytes key → is_bytes prefix →
  build_ok (command_with_key code key prefix).
Proof.
  intros. unfold command_with_key. case_match; [apply invalid_argument_post|].
  apply checked_post; auto with mq_wf.
Qed.

Lemma command_with_key_suffix_post code key suffix :
  is_u8 (CommandCode_to_u8 code) → is_bytes key → is_bytes suffix →
  build_ok (command_with_key_suffix code key suffix).
Proof.
  intros. unfold command_with_key_suffix. case_match; [apply invalid_argument_post|].
  apply checked_post; auto with mq_wf.
Qed.

Lemma validate_text_field_post value n field :
  post (validate_text_field value n field)
    (λ _, value ≠ [] ∧ length value ≤ n) argument_error.
Proof.
  unfold validate_text_field. case_bool_decide; [apply invalid_argument_post|].
  destruct (Nat.ltb_spec n (length value)); [apply invalid_argument_post|]. simpl. auto.
Qed.

Lemma contains_byte_false c s : contains_byte c s = false ↔ Forall (λ b, b ≠ c) s.
Proof.
  unfold contains_byte. induction s as [|b s IH]; simpl; [done|].
  rewrite orb_false_iff, IH, Forall_cons. split; intros [? ?]; split; auto; lia.
Qed.

Lemma reject_nul_post value field :
  post (reject_nul value field) (λ _, no_nul value) argument_error.
Proof.
  unfold reject_nul. case_match eqn:Hc; [apply invalid_argument_post|].
  by apply contains_byte_false.
Qed.

Lemma validate_custom_component_post value field :
  post (validate_custom_component value field)
    (λ _, value ≠ [] ∧ length value ≤ 174 ∧ Forall (λ b, b ≠ 0 ∧ b ≠ 58 ∧ b ≠ 44)%Z value)
    argument_error.
Proof.
  unfold validate_custom_component. apply post_bind.
  eapply post_weaken; [apply validate_text_field_post|]. intros _ [? Hl].
  case_match eqn:Hc; [apply invalid_argument_post|]. split; [done|]. split; [exact Hl|].
  clear Hl H. induction value as [|b value IH]; [constructor|].
  simpl in Hc. apply orb_false_iff in Hc as [? ?]. constructor; [lia|auto].
Qed.

Lemma validate_range_post value lo hi field :
  post (validate_range value lo hi field) (λ _, lo ≤ value ≤ hi)%Z argument_error.
Proof.
  unfold validate_range. case_match eqn:Hc; [apply invalid_argument_post|]. simpl. lia.
Qed.

Lemma scaled_coordinate_post value lo hi field :
  post (scaled_coordinate value lo hi field) (is_sint 32) argument_error.
Proof.
  unfold scaled_coordinate. case_match; [apply invalid_argument_post|].
  apply f64_as_i32_range.
Qed.

(** The descriptor byte of a route the encoder accepts. *)
Definition route_descriptor (route : ContactRoute) : u8 :=
  match route with
  | ContactRoute_Flood => 255
  | ContactRoute_Path hash_mode hop_count => 64 * hash_mode + hop_count
  end%Z.

(** The routes the encoder accepts together with their path bytes. *)
Definition encodable_route (route : ContactRoute) (path : Path) : Prop :=
  match route with
  | ContactRoute_Flood => Path_bytes path = []
  | ContactRoute_Path hash_mode hop_count =>
      (0 ≤ hash_mode ≤ 2)%Z ∧ (0 ≤ hop_count ≤ 63)%Z ∧
      Z.of_nat (length (Path_bytes path)) = (hop_count * (hash_mode + 1))%Z ∧
      length (Path_bytes path) ≤ 64
  end.

Definition wf_ContactRoute (route : ContactRoute) : Prop :=
  match route with
  | ContactRoute_Flood => True
  | ContactRoute_Path hash_mode hop_count => is_u8 hash_mode ∧ is_u8 hop_count
  end.

Lemma descriptor_bits m h :
  (0 ≤ m ≤ 2 → 0 ≤ h ≤ 63 → Z.lor (to_unsigned 8 (Z.shiftl m 6)) h = 64 * m + h)%Z.
Proof.
  intros Hm Hh. assert (∃ k, m = Z.of_nat k ∧ k < 3) as (k&->&Hk)
    by (exists (Z.to_nat m); lia).
  assert (∃ j, h = Z.of_nat j ∧ j < 64) as (j&->&Hj) by (exists (Z.to_nat h); lia).
  clear Hm Hh. do 3 (destruct k as [|k]; [do 64 (destruct j as [|j]; [vm_compute; reflexivity|]); lia|]).
  lia.
Qed.

Lemma encode_contact_route_iff route path d :
  wf_ContactRoute route →
  encode_contact_route route path = Ok d ↔
    encodable_route route path ∧ d = route_descriptor route.
Proof.
  intros Hwf. destruct route as [|m h]; simpl in *.
  { case_bool_decide; simpl; split; intros; destruct_and?; simplify_eq; auto. }
  destruct Hwf as [[? _] [? _]].
  destruct ((2 <? m) || (63 <? h))%Z eqn:Hb; [split; [done|lia]|].
  rewrite descriptor_bits by lia.
  destruct (Nat.eqb_spec (length (Path_bytes path)) (Z.to_nat h * (Z.to_nat m + 1))) as [Hl|Hl];
    cbn [negb]; [|split; [done|lia]].
  destruct (Nat.ltb_spec 64 (Z.to_nat h * (Z.to_nat m + 1))); [split; [done|lia]|].
  split; [intros [= <-]|intros [_ ->]; done]. lia.
Qed.

Lemma encode_contact_route_post route path :
  wf_ContactRoute route →
  post (encode_contact_route route path)
    (λ d, encodable_route route path ∧ d = route_descriptor route ∧ is_u8 d) argument_error.
Proof.
  intros Hwf. pose proof (encode_contact_route_iff route path) as Hiff.
  destruct (encode_contact_route route path) as [d|e|] eqn:He; simpl.
  - destruct (Hiff d Hwf) as [Hd _]. destruct (Hd eq_refl) as [Hr ->]. repeat split; auto.
    all: destruct route; simpl in *; lia.
  - unfold encode_contact_route in He. unfold argument_error.
    repeat case_match; simplify_eq; unfold invalid_argument in *; simplify_eq; eauto.
  - unfold encode_contact_route, invalid_argument in He. by repeat case_match.
Qed.

Lemma wf_Path_bytes path : wf_Path path → is_bytes (Path_bytes path).
Proof. by intros []. Qed.

Lemma copy_from_slice_post {E} buf i j src (Q : bytes → Prop) (F : E → Prop) :
  i ≤ j → j ≤ length buf → length src = j - i → is_bytes buf → is_bytes src →
  (∀ b, is_bytes b → length b = length buf → b = take i buf ++ src ++ drop j buf → Q b) →
  post (copy_from_slice buf i j src) Q F.
Proof.
  intros Hi Hj Hs Hb Hsrc HQ. unfold copy_from_slice. rewrite bool_decide_true by done. simpl.
  apply HQ; [| |done].
  - apply is_bytes_app_2; [by apply Forall_take|].
    apply is_bytes_app_2; [done|by apply Forall_drop].
  - rewrite !length_app, length_take, length_drop. lia.
Qed.

#[export] Hint Resolve wf_Path_bytes : mq_wf.
#[export] Hint Extern 1 (is_u8 (CommandCode_to_u8 _)) => (vm_compute; split; congruence) : mq_wf.
#[export] Hint Extern 2 (is_u8 _) => (unfold is_u8 in *; lia) : mq_wf.
#[export] Hint Extern 1 (is_bytes (u32_to_le_bytes _)) => apply is_bytes_to_le : mq_wf.
#[export] Hint Extern 1 (is_bytes (i32_to_le_bytes _)) => apply is_bytes_to_le : mq_wf.
#[export] Hint Extern 1 (is_bytes (str_bytes _)) => (apply (bool_decide_unpack _); vm_compute; exact I) : mq_wf.

Ltac len_lia := autorewrite with mq_len in *; simpl length in *; lia.

(** One step of the symbolic execution of a constructor. *)
Ltac build_step :=
  lazymatch goal with
  | |- post (mbind _ _) _ _ => apply post_bind
  | |- post (invalid_argument _ _) _ _ => apply invalid_argument_post
  | |- post (validate_text_field _ _ _) _ _ =>
      eapply post_weaken; [apply validate_text_field_post|intros _ [? ?]]
  | |- post (reject_nul _ _) _ _ =>
      eapply post_weaken; [apply reject_nul_post|cbv beta; intros _ ?]
  | |- post (validate_custom_component _ _) _ _ =>
      eapply post_weaken; [apply validate_custom_component_post|intros _ (?&?&?)]
  | |- post (validate_range _ _ _ _) _ _ =>
      eapply post_weaken; [apply validate_range_post|cbv beta; intros _ ?]
  | |- post (scaled_coordinate _ _ _ _) _ _ =>
      eapply post_weaken; [apply scaled_coordinate_post|intros ? ?]
  | |- post (encode_contact_route _ _) _ _ =>
      eapply post_weaken; [apply encode_contact_route_post; assumption|intros ? (?&?&?)]
  | |- post (copy_from_slice _ _ _ _) _ _ =>
      apply copy_from_slice_post; [len_lia|len_lia|len_lia|solve [auto with mq_wf]..|intros ? ? ? ?]
  | |- post (checked _ _) _ _ => apply checked_post
  | |- post (command_with_key _ _ _) _ _ => apply command_with_key_post
  | |- post (command_with_key_suffix _ _ _) _ _ => apply command_with_key_suffix_post
  | |- post (if _ then _ else _) _ _ => apply post_if; intros ?
  | |- post (Ok _) _ _ => simpl
  end.

Ltac build_solve := cbv zeta; repeat build_step; auto 12 with mq_wf.

Lemma update_contact_post contact :
  wf_Contact contact → wf_ContactRoute (Contact_route contact) →
  build_ok (update_contact contact).
Proof.
  intros ((?&?)&Ht&?&_&?&_&(Hn&_)&_) Hr. unfold update_contact. cbv zeta. repeat build_step; [auto with mq_wf|].
  assert (is_u8 (contact_type_to_u8 (Contact_contact_type contact)))
    by (destruct (Contact_contact_type contact); simpl in *; unfold is_u8 in *; lia).
  destruct Hn. auto 12 with mq_wf.
Qed.

Lemma set_radio_params_post params :
  is_uint 32 (RadioParams_frequency_khz params) → build_ok (set_radio_params params).
Proof.
  intros. unfold set_radio_params. build_solve.
  repeat apply is_bytes_app_2; auto with mq_wf.
  destruct (RadioParams_repeat params) as [[]|]; auto with mq_wf.
Qed.

Lemma set_default_flood_scope_post name key :
  is_bytes name → is_arr 16 key → build_ok (set_default_flood_scope name key).
Proof. intros ? [? Hk]. unfold set_default_flood_scope. build_solve. Qed.

Lemma set_channel_post idx name secret :
  is_u8 idx → is_bytes name → is_arr 16 secret → build_ok (set_channel idx name secret).
Proof. intros ? ? [? Hk]. unfold set_channel. build_solve. Qed.

(** ** Every constructor *)

(** [built m]: [m] is the result of one of the constructors that can be given
    arguments the wire cannot carry, on arguments of their Rust types. *)
Inductive built : outcome CoreError Command → Prop :=
| built_set_advert_name name : is_rstring name → built (set_advert_name name)
| built_set_coordinates latitude longitude : built (set_coordinates latitude longitude)
| built_set_tx_power power : is_sint 8 power → built (set_tx_power power)
| built_set_radio_params params :
    is_uint 32 (RadioParams_frequency_khz params) → built (set_radio_params params)
| built_reset_path key : is_bytes key → built (reset_path key)
| built_update_contact contact :
    wf_Contact contact → wf_ContactRoute (Contact_route contact) → built (update_contact contact)
| built_remove_contact key : is_bytes key → built (remove_contact key)
| built_share_contact key : is_bytes key → built (share_contact key)
| built_export_contact key : opt_wf is_bytes key → built (export_contact key)
| built_import_contact card : is_bytes card → built (import_contact card)
| built_get_contact key : is_bytes key → built (get_contact key)
| built_get_advert_path key : is_bytes key → built (get_advert_path key)
| built_set_auto_add_config config :
    is_u8 (AutoAddConfig_config config) → opt_wf is_u8 (AutoAddConfig_max_hops config) →
    built (set_auto_add_config config)
| built_set_custom_var key value : is_rstring key → is_rstring value →
    built (set_custom_var key value)
| built_set_path_hash_mode mode : is_u8 mode → built (set_path_hash_mode mode)
| built_set_default_flood_scope name key : is_rstring name → is_arr 16 key →
    built (set_default_flood_scope name key)
| built_set_channel idx name secret : is_u8 idx → is_rstring name → is_arr 16 secret →
    built (set_channel idx name secret)
| built_send_login key password : is_bytes key → is_rstring password →
    built (send_login key password)
| built_send_status_request key : is_bytes key → built (send_status_request key)
| built_has_connection key : is_bytes key → built (has_connection key)
| built_logout key : is_bytes key → built (logout key)
| built_send_binary_request key request_type data :
    is_bytes key → is_u8 request_type → is_bytes data →
    built (send_binary_request key request_type data)
| built_send_anonymous_request key request_type route path :
    is_bytes key → is_u8 request_type → wf_ContactRoute route → wf_Path path →
    built (send_anonymous_request key request_type route path)
| built_discover_path key : is_bytes key → built (discover_path key)
| built_send_node_discovery filter prefix_only tag since :
    is_u8 filter → built (send_node_discovery filter prefix_only tag since)
| built_sign_data chunk : is_bytes chunk → built (sign_data chunk)
| built_set_device_pin pin : built (set_device_pin pin).

Lemma is_rstring_bytes s : is_rstring s → is_bytes s.
Proof. by intros []. Qed.
#[export] Hint Resolve is_rstring_bytes update_contact_post set_radio_params_post
  set_default_flood_scope_post set_channel_post : mq_wf.

Lemma built_ok m : built m → build_ok m.
Proof.
  destruct 1 as [| |power Hp| | | | | |[key|] Hk| | | |[c [h|]] Hc Hh| | | | | | | | | | | |f p t [s|] Hf| |];
    auto with mq_wf;
    unfold set_advert_name, set_coordinates, set_tx_power, reset_path, remove_contact,
      share_contact, export_contact, import_contact, get_contact, get_advert_path,
      set_auto_add_config, set_custom_var, set_path_hash_mode, send_login, send_status_request,
      has_connection, logout, send_binary_request, send_anonymous_request, discover_path,
      send_node_discovery, sign_data, set_device_pin; build_solve.
  - constructor; [|constructor]. apply (to_unsigned_range 8). lia.
  - split; [apply (bool_decide_unpack _); vm_compute; exact I|]. unfold MAX_INNER_PAYLOAD. simpl. lia.
  - specialize (Hh h eq_refl). cbn. auto with mq_wf.
  - destruct p; repeat apply is_bytes_app_2; auto with mq_wf; by apply (bool_decide_unpack _).
  - destruct p; repeat apply is_bytes_app_2; auto with mq_wf; by apply (bool_decide_unpack _).
Qed.

(** The constructors without a [Result]: their packets always fit, the three
    text senders apart, whose length is the text's. *)
Lemma plain_commands_fit :
  Forall wire_ok
    [app_start; device_query; sync_next_message; get_time; get_battery; get_tuning;
     get_auto_add_config; get_custom_vars; get_allowed_repeat_frequencies;
     clear_default_flood_scope; get_default_flood_scope; get_self_telemetry; sign_start;
     sign_finish; export_private_key; reboot; factory_reset; get_contacts None;
     send_self_advert true; send_self_advert false; get_stats StatsType_Core;
     get_stats StatsType_Radio; get_stats StatsType_Packets].
Proof.
  repeat constructor; try (apply (bool_decide_unpack _); vm_compute; exact I).
  all: unfold MAX_INNER_PAYLOAD; simpl; lia.
Qed.

Lemma text_command_length prefix timestamp attempt text :
  length (Command_encode (send_direct_text prefix timestamp attempt text))
    = 7 + length prefix + length text.
Proof. unfold Command_encode, send_direct_text, u32_to_le_bytes. simpl. autorewrite with mq_len. lia. Qed.
