(* ===== verification/CoreProps.v ===== *)
(** * Properties of the packet parser, the command builders and the domain types *)

From S2P Require Import Prelude Text Floats Domain Samples Packet PacketFacts Command CommandFacts.

(** ** Packets *)

(** C11: [Packet::parse] is total on byte strings: it never panics; what it
    accepts has 1 to 176 bytes, is well formed (every field within its width,
    every name valid UTF-8 without NUL, every path as long as its descriptor
    says), and reports the code of its first byte, the version-3 message layouts
    under the legacy codes. *)
Theorem packet_parse_total `{CratesLaws} raw :
  is_bytes raw →
  match Packet_parse raw with
  | Ok p =>
      wf_Packet p ∧ 1 ≤ length raw ≤ 176 ∧
      ∃ b, head raw = Some b ∧ PacketCode_to_u8 (Packet_code p) = reported_code b
  | Err _ => True
  | Panic => False
  end.
Proof.
  intros Hraw. pose proof (Packet_parse_post raw Hraw) as Hp.
  destruct (Packet_parse raw) as [p|e|] eqn:E; [|done|done]. split; [done|].
  destruct raw as [|b l]; [done|]. pose proof (parse_reported_code b l p E) as Hc.
  unfold Packet_parse, MAX_INNER_PAYLOAD in E.
  destruct (Nat.ltb_spec 176 (length (b :: l))); [done|]. split; [cbn in *; lia|]. by exists b.
Qed.

Lemma packet_parse_total_witness :
  match Packet_parse [9; 1; 2; 3; 4]%Z with
  | Ok p => wf_Packet p ∧ 1 ≤ 5 ≤ 176 ∧
      ∃ b, Some 9%Z = Some b ∧ PacketCode_to_u8 (Packet_code p) = reported_code b
  | Err _ => True
  | Panic => False
  end.
Proof. apply (packet_parse_total [9; 1; 2; 3; 4]%Z). repeat constructor; unfold is_u8; lia. Defined.

(** ** Commands *)

(** C35: every fallible command constructor either rejects its arguments with
    [InvalidArgument] or produces a packet of 1 to 176 bytes; none panics. *)
Theorem command_builders_total m :
  built m →
  match m with
  | Ok c => is_bytes (Command_encode c) ∧ 1 ≤ length (Command_encode c) ≤ 176
  | Err e => ∃ field message, e = CoreError_InvalidArgument field message
  | Panic => False
  end.
Proof. exact (built_ok m). Qed.

Lemma command_builders_total_witness :
  match set_custom_var (str_bytes "gps") (str_bytes "1") with
  | Ok c => is_bytes (Command_encode c) ∧ 1 ≤ length (Command_encode c) ≤ 176
  | Err e => ∃ field message, e = CoreError_InvalidArgument field message
  | Panic => False
  end.
Proof.
  apply command_builders_total, built_set_custom_var;
    (split; [repeat constructor; unfold is_u8; lia|by vm_compute]).
Defined.

(** the command codes and the packet codes are in bijection with the bytes:
    every byte decodes to one code, which encodes back to the byte, and a code is
    [Unknown] only for a byte that names no command or packet. *)
Theorem wire_codes_bijective b :
  is_u8 b →
  (∃ c, CommandCode_try_from b = Ok c ∧ CommandCode_to_u8 c = b ∧
        ∀ raw, c = CommandCode_Unknown raw → raw = b) ∧
  PacketCode_to_u8 (PacketCode_from_u8 b) = b ∧
  PacketCode_from_u8 (PacketCode_to_u8 (PacketCode_from_u8 b)) = PacketCode_from_u8 b.
Proof.
  intros Hb. rewrite PacketCode_to_from_u8. split; [|done].
  destruct (CommandCode_bijection b Hb) as (c&Hc&Hb'&_). exists c. split_and!; [done|done|].
  intros raw ->. exact Hb'.
Qed.

Lemma wire_codes_bijective_witness : PacketCode_to_u8 (PacketCode_from_u8 0x82) = 0x82%Z.
Proof. apply (wire_codes_bijective 0x82). unfold is_u8. lia. Defined.

(** a contact route is encoded exactly when its path has the length its hop
    count and hash size say, at most 64 bytes, and its mode is one of the three
    the firmware knows; the descriptor byte then determines the route. *)
Theorem route_encoding_exact route path d :
  wf_ContactRoute route →
  (encode_contact_route route path = Ok d ↔
     encodable_route route path ∧ d = route_descriptor route) ∧
  (∀ route', wf_ContactRoute route' → encode_contact_route route path = Ok d →
     encode_contact_route route' path = Ok d → route' = route).
Proof.
  intros Hwf. split; [by apply encode_contact_route_iff|]. intros route' Hwf'.
  rewrite !encode_contact_route_iff by done. intros [Hr ->] [Hr' Hd].
  destruct route as [|m h], route' as [|m' h']; cbn in *; try done; try lia.
  assert (m' = m) as -> by lia. f_equal. lia.
Qed.

Lemma route_encoding_exact_witness :
  encode_contact_route (ContactRoute_Path 1 2) (mkPath [1; 2; 3; 4]%Z) = Ok 66%Z.
Proof.
  apply (route_encoding_exact (ContactRoute_Path 1 2) (mkPath [1; 2; 3; 4]%Z) 66).
  - cbn. unfold is_u8. lia.
  - cbn. lia.
Defined.

(** ** Domain values *)

(** a public key survives the hexadecimal form, and only 32-byte strings are
    accepted. *)
Theorem public_key_hex_roundtrip `{CratesLaws} key :
  wf_PublicKey key → PublicKey_from_hex (PublicKey_to_hex key) = Ok key ∧
  length (PublicKey_to_hex key) = 64.
Proof.
  intros [Hb Hl]. unfold PublicKey_from_hex, PublicKey_to_hex.
  rewrite hex_decode_encode, hex_encode_length, Hl by done. split; [|done].
  cbn. unfold PublicKey_try_from_bytes. rewrite Hl. by destruct key.
Qed.

Lemma public_key_hex_roundtrip_witness :
  PublicKey_from_hex (PublicKey_to_hex (mkPublicKey (replicate 32 7%Z))) = Ok (mkPublicKey (replicate 32 7%Z)).
Proof.
  apply (public_key_hex_roundtrip (mkPublicKey (replicate 32 7%Z))).
  split; [|reflexivity]. apply Forall_replicate. unfold is_u8. lia.
Defined.

(** The part of a message the delivery fingerprint depends on. *)
Definition delivery_content (m : Message)
    : MessageSource * u8 * u32 * option bytes * rstring :=
  (Message_source m, Message_txt_type m, Message_sender_timestamp m, Message_signature m,
   Message_text m).

Definition source_fits (m : Message) : Prop :=
  match Message_source m with
  | MessageSource_Direct prefix => (Z.of_nat (length prefix) < 2 ^ 64)%Z
  | MessageSource_Channel _ => True
  end.

Lemma le_bytes_inj n a b :
  is_uint (8 * Z.of_nat n) a → is_uint (8 * Z.of_nat n) b → to_le_bytes n a = to_le_bytes n b → a = b.
Proof. intros Ha Hb He. rewrite <- (from_to_le_bytes n a), <- (from_to_le_bytes n b) by done. by rewrite He. Qed.

(** What follows the source in the hashed bytes. *)
Definition fingerprint_tail (m : Message) : bytes :=
  [Message_txt_type m] ++ u32_to_le_bytes (Message_sender_timestamp m) ++
  match Message_signature m with Some signature => [1%Z] ++ signature | None => [0%Z] end ++
  Message_text m.

Lemma fingerprint_tail_inj m1 m2 :
  wf_Message m1 → wf_Message m2 → fingerprint_tail m1 = fingerprint_tail m2 →
  Message_txt_type m1 = Message_txt_type m2 ∧
  Message_sender_timestamp m1 = Message_sender_timestamp m2 ∧
  Message_signature m1 = Message_signature m2 ∧ Message_text m1 = Message_text m2.
Proof.
  intros (_&_&_&Ht1&Hs1&_) (_&_&_&Ht2&Hs2&_) He. unfold fingerprint_tail, u32_to_le_bytes in He.
  apply app_inj_1 in He as [[= Hty] He]; [|done].
  apply app_inj_1 in He as [Hts He]; [|by rewrite !length_to_le_bytes].
  apply le_bytes_inj in Hts; [|done..].
  destruct (Message_signature m1) as [s1|] eqn:E1, (Message_signature m2) as [s2|] eqn:E2; try done.
  - apply app_inj_1 in He as [[= ->] ->]; [done|]. cbn.
    by rewrite (proj2 (Hs1 s1 eq_refl)), (proj2 (Hs2 s2 eq_refl)).
  - by injection He as ->.
Qed.

(** two received messages have the same hashed bytes exactly when they agree
    on source, text type, sender timestamp, signature and text; so the delivery
    fingerprint does not depend on the observation id, the route or the SNR, and
    two different deliveries only collide when the digest does. *)
Theorem fingerprint_input_injective m1 m2 :
  wf_Message m1 → wf_Message m2 → source_fits m1 → source_fits m2 →
  fingerprint_input m1 = fingerprint_input m2 ↔ delivery_content m1 = delivery_content m2.
Proof.
  intros Hw1 Hw2 Hf1 Hf2. split.
  - unfold fingerprint_input. intros He. apply app_inv_head, (app_inj_1 [0%Z] [0%Z]) in He as [_ He]; [|done].
    change ([Message_txt_type m1] ++ _) with (fingerprint_tail m1) in He.
    change ([Message_txt_type m2] ++ _) with (fingerprint_tail m2) in He.
    unfold delivery_content, source_fits in *.
    destruct (Message_source m1) as [p1|c1], (Message_source m2) as [p2|c2]; try done.
    + rewrite !(Z.min_l _ (2 ^ 64 - 1)), <- !app_assoc in He by lia.
      apply (app_inj_1 [0%Z] [0%Z]) in He as [_ He]; [|done].
      unfold u64_to_le_bytes in He.
      apply app_inj_1 in He as [Hl He]; [|by rewrite !length_to_le_bytes].
      apply le_bytes_inj in Hl; [|split; [lia|exact Hf1]|split; [lia|exact Hf2]].
      apply app_inj_1 in He as [-> He]; [|lia].
      by apply fingerprint_tail_inj in He as (->&->&->&->).
    + apply (app_inj_1 [1%Z; c1] [1%Z; c2]) in He as [[= ->] He]; [|done]. by apply fingerprint_tail_inj in He as (->&->&->&->).
  - intros He. injection He as H1 H2 H3 H4 H5. unfold fingerprint_input. by rewrite H1, H2, H3, H4, H5.
Qed.

Definition sample_message (id : option u64) (route : MessageRoute) : Message :=
  mkMessage id (MessageSource_Direct (str_bytes "0a0b")) route 0 5 None (str_bytes "hi") None
    MessageStatus_Received.

Lemma sample_message_wf id route : wf_MessageRoute route → wf_Message (sample_message id route).
Proof.
  intros Hr. unfold wf_Message. cbn. split_and!; try done;
    try (split; [repeat constructor; unfold is_u8; lia|by vm_compute]); unfold is_u8; lia.
Qed.

Lemma fingerprint_input_injective_witness :
  fingerprint_input (sample_message (Some 1%Z) MessageRoute_Direct) =
  fingerprint_input (sample_message None (MessageRoute_Path 0 3)).
Proof.
  apply (fingerprint_input_injective (sample_message (Some 1%Z) MessageRoute_Direct)
           (sample_message None (MessageRoute_Path 0 3))).
  - by apply sample_message_wf.
  - apply sample_message_wf. cbn. unfold is_uint. lia.
  - cbn. lia.
  - cbn. lia.
  - reflexivity.
Defined.

(** decoding a node-discovery response never panics, and what it accepts has
    a four-bit node type, a non-zero tag and a key of 8 or 32 bytes. *)
Theorem node_discovery_total data :
  is_bytes (ControlData_payload data) →
  match node_discovery_response data with
  | Ok (Some r) =>
      wf_NodeDiscoveryResponse r ∧
      length (ControlData_payload data) = 6 + length (NodeDiscoveryResponse_public_key r)
  | Ok None | Err _ => True
  | Panic => False
  end.
Proof.
  intros Hb.
  enough (post (node_discovery_response data)
            (λ o, opt_wf (λ r, wf_NodeDiscoveryResponse r ∧
               length (ControlData_payload data) = 6 + length (NodeDiscoveryResponse_public_key r)) o)
            any_error) as Hp.
  { destruct (node_discovery_response data) as [[r|]|e|]; try done. by apply Hp. }
  unfold node_discovery_response. set (p := ControlData_payload data) in *.
  destruct (p !! 0) as [ct|] eqn:H0; [|exact I].
  assert (is_u8 ct) as Hct by by apply (Forall_lookup_1 _ _ _ _ Hb H0).
  repeat (pkt_step; [try exact I; try done|]); try exact I.
  apply Nat.ltb_ge in Hc0. apply negb_false_iff, orb_true_iff in Hc1 as Hlen.
  rewrite !Nat.eqb_eq in Hlen. pkt_steps. intros r [= <-].
  assert (is_bytes [b; b0; b1; b2]) as Htag by (repeat (constructor; [done|]); constructor).
  apply from_le_bytes_range in Htag as [Hlo Hhi]. cbn in Hhi.
  unfold wf_NodeDiscoveryResponse.
  cbn [NodeDiscoveryResponse_node_type NodeDiscoveryResponse_inbound_snr_qdb
       NodeDiscoveryResponse_tag NodeDiscoveryResponse_public_key]. 
  assert (is_sint 8 (i8_from_bytes b3)) by by apply i8_from_bytes_range.
  assert (is_uint 4 (Z.land ct 15))
    by (change 15%Z with (Z.ones 4); rewrite Z.land_ones by lia; by apply Z.mod_pos_bound).
  apply Z.eqb_neq in Hc2. cbn in Hc2, Hlo. split_and!; try done; lia.
Qed.

Definition sample_discovery : ControlData :=
  mkControlData 8 (-70) 0 ([0x92; 4; 1; 0; 0; 0]%Z ++ replicate 8 7%Z).

Lemma node_discovery_total_witness :
  node_discovery_response sample_discovery = Ok (Some (mkNodeDiscoveryResponse 2 4 1 (replicate 8 7%Z))) ∧
  wf_NodeDiscoveryResponse (mkNodeDiscoveryResponse 2 4 1 (replicate 8 7%Z)).
Proof.
  split; [vm_compute; reflexivity|].
  assert (is_bytes (ControlData_payload sample_discovery)) as Hb
    by (repeat constructor; unfold is_u8; lia).
  exact (proj1 (node_discovery_total sample_discovery Hb)).
Defined.
