(* ===== verification/Client.v ===== *)
(** * The client state machine (crates/meshquill-core/src/client.rs)

    [Client] with every operation of [impl Client].  An operation is a function
    of the client that returns its result and the client afterwards; the
    transport is any instance of the [Transport] class.

    Time: a read of the transport is [Pending] when no packet arrives before the
    deadline of the operation that waits for it; the operation then returns
    [Timeout].  A read that completes in time is [Ready], however long it took.

    Cancellation: when the task that runs an operation drops it at an await, the
    result is [Cancelled] and nothing after that await happens; so it is when a
    call without a deadline never completes.

    Loops that read packets take fuel, one unit per packet; running out of it is
    [Stuck], a result of its own.  [ClientFacts] shows how much is enough. *)

From S2P Require Import Prelude Text Floats Domain Packet Transport Tracker Command.

(** ** Constants *)

Definition CLIENT_REQUEST_TIMEOUT : Z := 5 * NANOS_PER_SEC.
Definition CLIENT_SYNC_READY_DRAIN_CAPACITY : nat := 256.
Definition MAX_REMOTE_RESPONSE_TIMEOUT : Z := 60 * NANOS_PER_SEC.
Definition SIGNING_CHUNK_BYTES : nat := 120.
(** [Duration::MAX]. *)
Definition DURATION_MAX : Z := (2 ^ 64 - 1) * NANOS_PER_SEC + 999999999.

(** ** State *)

Inductive PacketWait (R : Type) :=
| PacketWait_Ready (value : R)
| PacketWait_Continue (packet : Packet)
| PacketWait_Fail (error : CoreError).
Arguments PacketWait_Ready {R} _.
Arguments PacketWait_Continue {R} _.
Arguments PacketWait_Fail {R} _.

Inductive ReadySync :=
| ReadySync_Message (message : Message)
| ReadySync_NoMoreMessages
| ReadySync_Error.

Inductive SyncState := SyncState_Idle | SyncState_AwaitingResponse.

#[global] Instance SyncState_eq_dec : EqDecision SyncState.
Proof. solve_decision. Defined.

Record ContactCollection := mkContactCollection {
  ContactCollection_contacts : list Contact;
  ContactCollection_lastmod : option u32
}.

(** [Client]; [Client_events] is every event given to [event_tx.send] so far. *)
Record Client (T : Type) := mkClient {
  Client_transport : T;
  Client_events : list Event;
  Client_request_timeout : Z;
  Client_connected : bool;
  Client_pending : Tracker CommandTracking;
  Client_completed : Tracker Ack;
  Client_next_message_observation_id : u64;
  Client_sync_state : SyncState;
  Client_deferred_sync : option ReadySync
}.
Arguments mkClient {T} _ _ _ _ _ _ _ _ _.
Arguments Client_transport {T} _.
Arguments Client_events {T} _.
Arguments Client_request_timeout {T} _.
Arguments Client_connected {T} _.
Arguments Client_pending {T} _.
Arguments Client_completed {T} _.
Arguments Client_next_message_observation_id {T} _.
Arguments Client_sync_state {T} _.
Arguments Client_deferred_sync {T} _.

(** ** Results *)

Inductive res (A : Type) :=
| Ret (a : A)
| Throw (e : CoreError)
| Crash
| Stuck
| Cancelled.
Arguments Ret {A} a.
Arguments Throw {A} e.
Arguments Crash {A}.
Arguments Stuck {A}.
Arguments Cancelled {A}.

Definition res_of {A} (m : outcome CoreError A) : res A :=
  match m with Ok a => Ret a | Err e => Throw e | Panic => Crash end.

(** A client operation: explicit state passing. *)
Definition io (T A : Type) : Type := Client T → res A * Client T.

#[global] Instance io_ret {T} : MRet (io T) := fun A a c => (Ret a, c).
#[global] Instance io_bind {T} : MBind (io T) := fun A B f m c =>
  match m c with
  | (Ret a, c) => f a c
  | (Throw e, c) => (Throw e, c)
  | (Crash, c) => (Crash, c)
  | (Stuck, c) => (Stuck, c)
  | (Cancelled, c) => (Cancelled, c)
  end.

Definition throw {T A} (e : CoreError) : io T A := λ c, (Throw e, c).
Definition stuck {T A} : io T A := λ c, (Stuck, c).
Definition lift {T A} (m : outcome CoreError A) : io T A := λ c, (res_of m, c).
Definition modify {T} (f : Client T → Client T) : io T () := λ c, (Ret (), f c).
Definition gets {T A} (f : Client T → A) : io T A := λ c, (Ret (f c), c).

(** ** Field updates *)

Section updates.
  Context {T : Type}.
  Implicit Types c : Client T.

Definition with_transport (t : T) c : Client T :=
  mkClient t (Client_events c) (Client_request_timeout c) (Client_connected c) (Client_pending c)
    (Client_completed c) (Client_next_message_observation_id c) (Client_sync_state c)
    (Client_deferred_sync c).
Definition with_events (es : list Event) c : Client T :=
  mkClient (Client_transport c) es (Client_request_timeout c) (Client_connected c)
    (Client_pending c) (Client_completed c) (Client_next_message_observation_id c)
    (Client_sync_state c) (Client_deferred_sync c).
Definition with_connected (b : bool) c : Client T :=
  mkClient (Client_transport c) (Client_events c) (Client_request_timeout c) b
    (Client_pending c) (Client_completed c) (Client_next_message_observation_id c)
    (Client_sync_state c) (Client_deferred_sync c).
Definition with_pending (p : Tracker CommandTracking) c : Client T :=
  mkClient (Client_transport c) (Client_events c) (Client_request_timeout c) (Client_connected c)
    p (Client_completed c) (Client_next_message_observation_id c) (Client_sync_state c)
    (Client_deferred_sync c).
Definition with_completed (p : Tracker Ack) c : Client T :=
  mkClient (Client_transport c) (Client_events c) (Client_request_timeout c) (Client_connected c)
    (Client_pending c) p (Client_next_message_observation_id c) (Client_sync_state c)
    (Client_deferred_sync c).
Definition with_observation_id (id : u64) c : Client T :=
  mkClient (Client_transport c) (Client_events c) (Client_request_timeout c) (Client_connected c)
    (Client_pending c) (Client_completed c) id (Client_sync_state c) (Client_deferred_sync c).
Definition with_sync (s : SyncState) (d : option ReadySync) c : Client T :=
  mkClient (Client_transport c) (Client_events c) (Client_request_timeout c) (Client_connected c)
    (Client_pending c) (Client_completed c) (Client_next_message_observation_id c) s d.
Definition with_sync_state (s : SyncState) c : Client T := with_sync s (Client_deferred_sync c) c.

(** ** Tracking *)

Definition send_event (e : Event) c : Client T := with_events (Client_events c ++ [e]) c.

Definition discard_pending_ack (code : bytes) c : Client T :=
  with_pending (tracker_discard code (Client_pending c)) c.
Definition discard_completed_ack (code : bytes) c : Client T :=
  with_completed (tracker_discard code (Client_completed c)) c.
Definition remember_pending_ack (tracking : CommandTracking) c : Client T :=
  with_pending (tracker_remember (CommandTracking_ack_code tracking) tracking (Client_pending c)) c.
Definition remember_completed_ack (ack : Ack) c : Client T :=
  with_completed (tracker_remember (Ack_code ack) ack (Client_completed c)) c.
Definition take_pending_ack (code : bytes) c : option CommandTracking * Client T :=
  let '(v, t) := tracker_take code (Client_pending c) in (v, with_pending t c).
Definition take_completed_ack (code : bytes) c : option Ack * Client T :=
  let '(v, t) := tracker_take code (Client_completed c) in (v, with_completed t c).

Definition clear_tracking c : Client T :=
  with_completed tracker_empty (with_pending tracker_empty c).
Definition clear_sync_tracking c : Client T := with_sync SyncState_Idle None c.

Definition mark_disconnected c : Client T :=
  let c := clear_sync_tracking (clear_tracking c) in
  if Client_connected c then send_event Event_Disconnected (with_connected false c)
  else with_connected false c.

Definition pending_ack_codes c : list bytes := tracker_order (Client_pending c).

Definition retain_sync_response (packet : Packet) c : Client T :=
  if negb (bool_decide (Client_sync_state c = SyncState_AwaitingResponse)) then c
  else
    let ready :=
      match packet with
      | Packet_ContactMsg message | Packet_ChannelMsg message => Some (ReadySync_Message message)
      | Packet_NoMoreMsgs => Some ReadySync_NoMoreMessages
      | Packet_Error _ => Some ReadySync_Error
      | _ => None
      end in
    match ready with
    | Some ready => with_sync SyncState_Idle (Some ready) c
    | None => c
    end.

Definition publish_event (packet : Packet) c : Client T :=
  let c := retain_sync_response packet c in
  match Packet_into_event packet with
  | Some event => send_event event c
  | None => c
  end.

Definition update_tracking (packet : Packet) c : Client T :=
  match packet with
  | Packet_MsgSent _ expected_ack suggested_timeout_ms =>
      remember_pending_ack (mkCommandTracking expected_ack suggested_timeout_ms)
        (discard_completed_ack expected_ack c)
  | Packet_Ack ack =>
      match take_pending_ack (Ack_code ack) c with
      | (Some _, c) => remember_completed_ack ack c
      | (None, c) => c
      end
  | _ => c
  end.

(** The arm of a request loop for a packet that does not answer the request. *)
Definition absorb (packet : Packet) c : Client T := update_tracking packet (publish_event packet c).

Definition ensure_connected : io T () :=
  λ c, if Client_connected c then (Ret (), c) else (Throw CoreError_Disconnected, c).

Definition remote_response_timeout c (suggested_timeout_ms : u32) : Z :=
  let suggested := Z.min DURATION_MAX (suggested_timeout_ms * 1000000 + NANOS_PER_SEC) in
  Z.min (Z.max (Client_request_timeout c) suggested) MAX_REMOTE_RESPONSE_TIMEOUT.
End updates.

(** ** Validation and classification *)

Definition validate_operation_timeout (timeout : Z) : outcome CoreError () :=
  if (timeout =? 0)%Z || (MAX_OPERATION_TIMEOUT <? timeout)%Z
  then invalid_argument "timeout" "must be greater than zero and at most 24 hours"
  else Ok ().

Definition is_disconnect_error (error : TransportError) : bool :=
  match error with
  | TransportError_NotConnected | TransportError_Closed => true
  | TransportError_Io error =>
      match IoError_kind error with
      | ConnectionAborted | ConnectionReset | BrokenPipe | NotConnected | UnexpectedEof => true
      | _ => false
      end
  | _ => false
  end.

Definition is_terminal_write_error (error : TransportError) : bool :=
  match error with
  | TransportError_NotConnected | TransportError_Closed | TransportError_Timeout
  | TransportError_ReconnectFailed _ | TransportError_Io _ => true
  | _ => false
  end.

Definition key_prefix (public_key : bytes) : outcome CoreError bytes :=
  if negb (length public_key =? 32) then
    invalid_argument "public_key"
      ("expected exactly 32 bytes, got " +:+ pretty (length public_key))
  else slice public_key 0 6.

Definition validate_destination_prefix (prefix : bytes) : outcome CoreError () :=
  if negb (length prefix =? 6) then
    invalid_argument "destination_prefix"
      ("expected exactly 6 bytes, got " +:+ pretty (length prefix))
  else Ok ().

Definition validate_text (text : rstring) (maximum_bytes : usize) (field : string)
    : outcome CoreError () :=
  if bool_decide (text = []) then invalid_argument field "must not be empty"
  else if maximum_bytes <? length text then
    invalid_argument field
      ("UTF-8 payload is " +:+ pretty (length text) +:+ " bytes; maximum is "
         +:+ pretty maximum_bytes)
  else Ok ().

(** [u32::try_from(Utc::now().timestamp()).unwrap_or(0)]. *)
Definition wire_timestamp (now : Z) : u32 := if bool_decide (is_uint 32 now) then now else 0%Z.

Definition ready_sync_result (ready : ReadySync) : outcome CoreError (option Message) :=
  match ready with
  | ReadySync_Message message => Ok (Some message)
  | ReadySync_NoMoreMessages => Ok None
  | ReadySync_Error => Err (CoreError_ProtocolInvariant "sync next message returned an error")
  end.

(** ** Reading and writing *)

Section client.
  Context `{Crates} {T : Type} `{Transport T}.
  Implicit Types c : Client T.

Definition with_valid_timeout (transport : T) (request_timeout : Z) : Client T :=
  mkClient transport [] request_timeout false tracker_empty tracker_empty 1 SyncState_Idle None.
Definition Client_new (transport : T) : Client T :=
  with_valid_timeout transport CLIENT_REQUEST_TIMEOUT.
Definition with_timeout (transport : T) (request_timeout : Z) : outcome CoreError (Client T) :=
  _ ← validate_operation_timeout request_timeout;
  Ok (with_valid_timeout transport request_timeout).

(** The numbering of [parse_packet]: the message of a message packet gets an observation id. *)
Definition set_observation_id (id : u64) (m : Message) : Message :=
  mkMessage (Some id) (Message_source m) (Message_route m) (Message_txt_type m)
    (Message_sender_timestamp m) (Message_signature m) (Message_text m) (Message_snr m)
    (Message_status m).
Definition next_observation_id (id : u64) : u64 :=
  let next := to_unsigned 64 (id + 1) in if (next =? 0)%Z then 1%Z else next.

Definition parse_packet (raw : bytes) : io T Packet := λ c,
  let id := Client_next_message_observation_id c in
  match Packet_parse raw with
  | Ok (Packet_ContactMsg message) =>
      (Ret (Packet_ContactMsg (set_observation_id id message)),
       with_observation_id (next_observation_id id) c)
  | Ok (Packet_ChannelMsg message) =>
      (Ret (Packet_ChannelMsg (set_observation_id id message)),
       with_observation_id (next_observation_id id) c)
  | Ok packet => (Ret packet, c)
  | Err e => (Throw (CoreError_Parse e), c)
  | Panic => (Crash, c)
  end.

(** [read_next_packet], polled. *)
Definition read_next_packet c : polled (res Packet) * Client T :=
  let '(r, t) := transport_read (Client_transport c) in
  let c := with_transport t c in
  match r with
  | Pending => (Pending, c)
  | Dropped => (Dropped, c)
  | Ready (Ok (Some raw)) => let '(r, c) := parse_packet raw c in (Ready r, c)
  | Ready (Ok None) => (Ready (Throw CoreError_Disconnected), mark_disconnected c)
  | Ready (Err error) =>
      (Ready (Throw (CoreError_Transport error)),
       if is_disconnect_error error then mark_disconnected c else c)
  | Ready Panic => (Ready Crash, c)
  end.

(** [timeout(.., self.read_next_packet())], for the request timeout and for the
    deadline around a loop of reads. *)
Definition read_next_packet_with_timeout : io T Packet := λ c,
  match read_next_packet c with
  | (Pending, c) => (Throw CoreError_Timeout, c)
  | (Dropped, c) => (Cancelled, c)
  | (Ready r, c) => (r, c)
  end.

Definition write_raw (payload : bytes) : io T () := λ c,
  if bool_decide (payload = []) then
    (Throw (CoreError_ProtocolInvariant "cannot send an empty companion packet"), c)
  else if MAX_INNER_PAYLOAD <? length payload then
    (Throw (CoreError_Parse (ParseError_OversizedPacketPayload (length payload) MAX_INNER_PAYLOAD)),
     c)
  else
    let '(r, t) := transport_write (Client_transport c) payload in
    let c := with_transport t c in
    match r with
    | Ready (Ok _) => (Ret (), c)
    | Ready (Err error) =>
        (Throw (CoreError_Transport error),
         if is_terminal_write_error error then mark_disconnected c else c)
    | Ready Panic => (Crash, c)
    | Pending | Dropped => (Cancelled, c)
    end.

Definition send_raw (payload : bytes) : io T () := λ c,
  if bool_decide (Client_sync_state c = SyncState_AwaitingResponse) then
    (Throw (CoreError_ProtocolInvariant
       "a prior inbox synchronization response must be reconciled before another command"), c)
  else write_raw payload c.

(** A loop of reads: [arm] answers a packet, or leaves it to be absorbed. *)
Fixpoint reply_loop {R} (fuel : nat) (arm : Packet → option (io T R)) : io T R :=
  match fuel with
  | 0 => stuck
  | S fuel =>
      packet ← read_next_packet_with_timeout;
      match arm packet with
      | Some answer => answer
      | None => _ ← modify (absorb packet); reply_loop fuel arm
      end
  end.

(** Checks the connection, writes a command and waits for its answer. *)
Definition request {R} (fuel : nat) (command : Command) (arm : Packet → option (io T R)) : io T R :=
  _ ← ensure_connected;
  _ ← send_raw (Command_into_encoded command);
  reply_loop fuel arm.

Definition device_rejected {R} (operation : string) (code : option u8) : option (io T R) :=
  Some (throw (CoreError_DeviceRejected operation code)).
Definition feature_disabled {R} (feature : string) : option (io T R) :=
  Some (throw (CoreError_FeatureDisabled feature)).

Definition ok_arm (packet : Packet) : option (io T ()) :=
  match packet with
  | Packet_Ok _ => Some (mret ())
  | Packet_Disabled => feature_disabled "requested operation"
  | Packet_Error code => device_rejected "command" code
  | _ => None
  end.
Definition send_command_expect_ok (fuel : nat) (command : Command) : io T () :=
  request fuel command ok_arm.

Definition expect_arm {R} (error_context : string) (extract : Packet → option R)
    (packet : Packet) : option (io T R) :=
  match extract packet with
  | Some value => Some (mret value)
  | None =>
      match packet with
      | Packet_Disabled => feature_disabled error_context
      | Packet_Error code => device_rejected error_context code
      | _ => None
      end
  end.
Definition send_command_expect {R} (fuel : nat) (command : Command) (error_context : string)
    (extract : Packet → option R) : io T R :=
  request fuel command (expect_arm error_context extract).

Definition msg_sent_arm (track_ack : bool) (packet : Packet) : option (io T CommandTracking) :=
  match packet with
  | Packet_MsgSent _ expected_ack suggested_timeout_ms =>
      let tracking := mkCommandTracking expected_ack suggested_timeout_ms in
      Some (_ ← modify (λ c,
                  if track_ack
                  then remember_pending_ack tracking (discard_completed_ack expected_ack c) else c);
            mret tracking)
  | Packet_Error code => device_rejected "message send" code
  | _ => None
  end.
Definition send_command_expect_msg_sent_inner (fuel : nat) (command : Command) (track_ack : bool)
    : io T CommandTracking := request fuel command (msg_sent_arm track_ack).
Definition send_command_expect_msg_sent (fuel : nat) (command : Command) : io T CommandTracking :=
  send_command_expect_msg_sent_inner fuel command true.
Definition send_command_expect_msg_sent_untracked (fuel : nat) (command : Command)
    : io T CommandTracking := send_command_expect_msg_sent_inner fuel command false.

(** [wait_for_packet]: the same loop under one deadline. *)
Definition wait_arm {R} (operation : string) (extract : Packet → PacketWait R) (packet : Packet)
    : option (io T R) :=
  match extract packet with
  | PacketWait_Ready value => Some (mret value)
  | PacketWait_Fail error => Some (throw error)
  | PacketWait_Continue (Packet_Error code) => device_rejected operation code
  | PacketWait_Continue Packet_Disabled => feature_disabled operation
  | PacketWait_Continue _ => None
  end.
Definition wait_for_packet {R} (fuel : nat) (operation : string)
    (extract : Packet → PacketWait R) : io T R :=
  reply_loop fuel (wait_arm operation extract).

(** [let _ = self.transport.disconnect().await; self.mark_disconnected()]. *)
Definition close_transport : io T () := λ c,
  match transport_disconnect (Client_transport c) with
  | (Ready Panic, t) => (Crash, with_transport t c)
  | (Ready _, t) => (Ret (), mark_disconnected (with_transport t c))
  | (_, t) => (Cancelled, with_transport t c)
  end.

Definition send_disconnect_command (command : Command) : io T () :=
  _ ← ensure_connected;
  _ ← send_raw (Command_into_encoded command);
  close_transport.

(** ** Session *)

Definition init (fuel : nat) : io T SelfInfo :=
  request fuel app_start (λ packet,
    match packet with
    | Packet_SelfInfo info =>
        Some (_ ← modify (publish_event (Packet_SelfInfo info)); mret info)
    | Packet_Error _ => Some (throw (CoreError_ProtocolInvariant "APP_START returned an error"))
    | _ => None
    end).

(** The part of [connect] and [reconnect] after the transport is open. *)
Definition start_session (fuel : nat) : io T SelfInfo := λ c,
  match init fuel (with_connected true c) with
  | (Ret info, c) => (Ret info, send_event Event_Connected c)
  | (Throw error, c) => (_ ← close_transport; throw error) c
  | (r, c) => (r, c)
  end.

Definition connect (fuel : nat) : io T SelfInfo := λ c,
  let c := clear_sync_tracking (clear_tracking c) in
  let '(r, t) := transport_connect (Client_transport c) in
  let c := with_transport t c in
  match r with
  | Ready (Ok _) => start_session fuel c
  | Ready (Err e) => (Throw (CoreError_Transport e), c)
  | Ready Panic => (Crash, c)
  | Pending | Dropped => (Cancelled, c)
  end.

(** [disconnect], polled, for the callers that put a deadline on it. *)
Definition poll_disconnect c : polled (res ()) * Client T :=
  let '(r, t) := transport_disconnect (Client_transport c) in
  let c := with_transport t c in
  match r with
  | Ready Panic => (Ready Crash, c)
  | Ready r => (Ready (res_of (map_err CoreError_Transport r)), mark_disconnected c)
  | Pending => (Pending, c)
  | Dropped => (Dropped, c)
  end.
Definition disconnect : io T () := λ c,
  match poll_disconnect c with
  | (Ready r, c) => (r, c)
  | (_, c) => (Cancelled, c)
  end.

Definition reconnect (fuel : nat) : io T SelfInfo := λ c,
  let c := mark_disconnected c in
  let '(r, t) := transport_reconnect (Client_transport c) in
  let c := with_transport t c in
  match r with
  | Ready (Ok _) => start_session fuel c
  | Ready (Err e) => (Throw (CoreError_Transport e), c)
  | Ready Panic => (Crash, c)
  | Pending | Dropped => (Cancelled, c)
  end.

(** [next_event]: without a deadline, so it can stay pending. *)
Definition next_event c : polled (res (option Event)) * Client T :=
  if Client_connected c then
    match read_next_packet c with
    | (Pending, c) => (Pending, c)
    | (Dropped, c) => (Dropped, c)
    | (Ready (Ret packet), c) =>
        let c := update_tracking packet (retain_sync_response packet c) in
        match Packet_into_event packet with
        | Some event => (Ready (Ret (Some event)), send_event event c)
        | None => (Ready (Ret None), c)
        end
    | (Ready (Throw e), c) => (Ready (Throw e), c)
    | (Ready Crash, c) => (Ready Crash, c)
    | (Ready Stuck, c) => (Ready Stuck, c)
    | (Ready Cancelled, c) => (Ready Cancelled, c)
    end
  else (Ready (Throw CoreError_Disconnected), c).

(** ** Contacts *)

Fixpoint collect_contacts_loop (fuel : nat) (contacts : list Contact) : io T ContactCollection :=
  match fuel with
  | 0 => stuck
  | S fuel =>
      packet ← read_next_packet_with_timeout;
      match packet with
      | Packet_Contact contact => collect_contacts_loop fuel (contacts ++ [contact])
      | Packet_ContactEnd lastmod => mret (mkContactCollection contacts (Some lastmod))
      | Packet_NoMoreMsgs => mret (mkContactCollection contacts None)
      | Packet_Error _ => throw (CoreError_ProtocolInvariant "contact request returned an error")
      | other => _ ← modify (absorb other); collect_contacts_loop fuel contacts
      end
  end.
Definition collect_contacts (fuel : nat) (lastmod : option u32) : io T ContactCollection :=
  _ ← ensure_connected;
  _ ← send_raw (Command_into_encoded (get_contacts lastmod));
  collect_contacts_loop fuel [].
Definition list_contacts (fuel : nat) (lastmod : option u32) : io T (list Contact) :=
  collection ← collect_contacts fuel lastmod;
  mret (ContactCollection_contacts collection).
Definition list_contacts_snapshot (fuel : nat) (lastmod : option u32) : io T ContactSnapshot :=
  collection ← collect_contacts fuel lastmod;
  match ContactCollection_lastmod collection with
  | None =>
      throw (CoreError_ProtocolInvariant "contact snapshot ended without a last-modified marker")
  | Some lastmod => mret (mkContactSnapshot (ContactCollection_contacts collection) lastmod)
  end.

(** A setter that builds its command first ([Command::..(..)?]). *)
Definition expect_ok (fuel : nat) (command : outcome CoreError Command) : io T () :=
  command ← lift command; send_command_expect_ok fuel command.

Definition client_reset_path (fuel : nat) (public_key : bytes) : io T () :=
  expect_ok fuel (reset_path public_key).
Definition client_update_contact (fuel : nat) (contact : Contact) : io T () :=
  expect_ok fuel (update_contact contact).
Definition client_share_contact (fuel : nat) (public_key : bytes) : io T () :=
  expect_ok fuel (share_contact public_key).
Definition client_export_contact (fuel : nat) (public_key : option bytes) : io T ContactUri :=
  command ← lift (export_contact public_key);
  send_command_expect fuel command "contact export"
    (λ p, match p with Packet_ContactUri uri => Some uri | _ => None end).
Definition client_import_contact (fuel : nat) (card : bytes) : io T () :=
  expect_ok fuel (import_contact card).
Definition client_get_contact (fuel : nat) (public_key : bytes) : io T Contact :=
  command ← lift (get_contact public_key);
  send_command_expect fuel command "contact query"
    (λ p, match p with Packet_Contact contact => Some contact | _ => None end).
Definition client_get_advert_path (fuel : nat) (public_key : bytes) : io T AdvertPath :=
  command ← lift (get_advert_path public_key);
  send_command_expect fuel command "advert path query"
    (λ p, match p with Packet_AdvertPath path => Some path | _ => None end).
Definition client_remove_contact (fuel : nat) (public_key : bytes) : io T () :=
  expect_ok fuel (remove_contact public_key).

(** ** Device configuration *)

Definition query_device_info (fuel : nat) : io T DeviceInfo :=
  request fuel device_query (λ packet,
    match packet with
    | Packet_DeviceInfo info => Some (mret info)
    | Packet_Error _ => Some (throw (CoreError_ProtocolInvariant "device query returned an error"))
    | _ => None
    end).
Definition client_get_time (fuel : nat) : io T u32 :=
  send_command_expect fuel get_time "time query"
    (λ p, match p with Packet_CurrentTime value => Some value | _ => None end).
Definition client_set_time (fuel : nat) (value : u32) : io T () :=
  send_command_expect_ok fuel (set_time value).
Definition client_get_battery (fuel : nat) : io T BatteryInfo :=
  send_command_expect fuel get_battery "battery query"
    (λ p, match p with Packet_Battery info => Some info | _ => None end).
Definition client_send_self_advert (fuel : nat) (flood : bool) : io T () :=
  send_command_expect_ok fuel (send_self_advert flood).
Definition client_set_advert_name (fuel : nat) (name : rstring) : io T () :=
  expect_ok fuel (set_advert_name name).
Definition client_set_coordinates (fuel : nat) (latitude longitude : f64) : io T () :=
  expect_ok fuel (set_coordinates latitude longitude).
Definition client_set_tx_power (fuel : nat) (power_dbm : i8) : io T () :=
  expect_ok fuel (set_tx_power power_dbm).
Definition client_set_radio_params (fuel : nat) (params : RadioParams) : io T () :=
  expect_ok fuel (set_radio_params params).
Definition client_set_tuning (fuel : nat) (params : TuningParams) : io T () :=
  send_command_expect_ok fuel (set_tuning params).
Definition client_get_tuning (fuel : nat) : io T TuningParams :=
  send_command_expect fuel get_tuning "tuning query"
    (λ p, match p with Packet_TuningParams params => Some params | _ => None end).
Definition client_set_auto_add_config (fuel : nat) (config : AutoAddConfig) : io T () :=
  expect_ok fuel (set_auto_add_config config).
Definition client_get_auto_add_config (fuel : nat) : io T AutoAddConfig :=
  send_command_expect fuel get_auto_add_config "auto-add config query"
    (λ p, match p with Packet_AutoAddConfig config => Some config | _ => None end).
Definition client_get_custom_vars (fuel : nat) : io T CustomVariables :=
  send_command_expect fuel get_custom_vars "custom-variable query"
    (λ p, match p with Packet_CustomVariables vars => Some vars | _ => None end).
Definition client_set_custom_var (fuel : nat) (key value : rstring) : io T () :=
  expect_ok fuel (set_custom_var key value).
Definition client_get_stats (fuel : nat) (stats_type : StatsType) : io T DeviceStats :=
  send_command_expect fuel (get_stats stats_type) "statistics query"
    (λ p, match p with Packet_DeviceStats stats => Some stats | _ => None end).
Definition client_get_allowed_repeat_frequencies (fuel : nat) : io T (list FrequencyRange) :=
  send_command_expect fuel get_allowed_repeat_frequencies "allowed repeat-frequency query"
    (λ p, match p with Packet_AllowedRepeatFrequencies ranges => Some ranges | _ => None end).
Definition client_set_path_hash_mode (fuel : nat) (mode : u8) : io T () :=
  expect_ok fuel (set_path_hash_mode mode).
Definition client_get_path_hash_mode (fuel : nat) : io T u8 :=
  info ← query_device_info fuel;
  lift (ok_or (DeviceInfo_path_hash_mode info)
          (CoreError_ProtocolInvariant "device info does not include path hash mode")).
Definition client_set_flood_scope (fuel : nat) (scope : FloodScope) : io T () :=
  send_command_expect_ok fuel (set_flood_scope scope).
Definition client_set_default_flood_scope (fuel : nat) (name : rstring) (key : bytes) : io T () :=
  expect_ok fuel (set_default_flood_scope name key).
Definition client_clear_default_flood_scope (fuel : nat) : io T () :=
  send_command_expect_ok fuel clear_default_flood_scope.
Definition client_get_default_flood_scope (fuel : nat) : io T DefaultFloodScope :=
  send_command_expect fuel get_default_flood_scope "default flood-scope query"
    (λ p, match p with Packet_DefaultFloodScope scope => Some scope | _ => None end).
Definition client_get_channel (fuel : nat) (idx : u8) : io T ChannelInfo :=
  send_command_expect fuel (get_channel idx) "channel query"
    (λ p, match p with Packet_ChannelInfo info => Some info | _ => None end).
Definition client_set_channel (fuel : nat) (idx : u8) (name : rstring) (secret : bytes) : io T () :=
  expect_ok fuel (set_channel idx name secret).
Definition client_clear_channel (fuel : nat) (idx : u8) : io T () :=
  send_command_expect_ok fuel (clear_channel idx).

(** ** Remote sessions *)

Definition login (fuel : nat) (public_key : bytes) (password : rstring) : io T LoginSession :=
  expected_prefix ← lift (key_prefix public_key);
  command ← lift (send_login public_key password);
  _ ← send_command_expect_msg_sent_untracked fuel command;
  wait_for_packet fuel "remote login" (λ packet,
    match packet with
    | Packet_LoginSuccess session =>
        if bool_decide (LoginSession_pubkey_prefix session = expected_prefix)
        then PacketWait_Ready session else PacketWait_Continue packet
    | Packet_LoginFailed pubkey_prefix =>
        if bool_decide (pubkey_prefix = expected_prefix)
        then PacketWait_Fail CoreError_AuthenticationFailed else PacketWait_Continue packet
    | other => PacketWait_Continue other
    end).
Definition client_logout (fuel : nat) (public_key : bytes) : io T () :=
  expect_ok fuel (logout public_key).
Definition client_has_connection (fuel : nat) (public_key : bytes) : io T bool :=
  _ ← ensure_connected;
  command ← lift (has_connection public_key);
  _ ← send_raw (Command_into_encoded command);
  reply_loop fuel (λ packet,
    match packet with
    | Packet_Ok _ => Some (mret true)
    | Packet_Error (Some 2%Z) => Some (mret false)
    | Packet_Error code => device_rejected "remote connection query" code
    | _ => None
    end).
Definition remote_status (fuel : nat) (public_key : bytes) : io T RemoteStatus :=
  expected_prefix ← lift (key_prefix public_key);
  command ← lift (send_status_request public_key);
  _ ← send_command_expect_msg_sent_untracked fuel command;
  wait_for_packet fuel "remote status" (λ packet,
    match packet with
    | Packet_RemoteStatus status =>
        if bool_decide (RemoteStatus_pubkey_prefix status = expected_prefix)
        then PacketWait_Ready status else PacketWait_Continue packet
    | other => PacketWait_Continue other
    end).
Definition client_get_self_telemetry (fuel : nat) : io T TelemetryResponse :=
  send_command_expect fuel get_self_telemetry "self telemetry query"
    (λ p, match p with Packet_TelemetryResponse response => Some response | _ => None end).

(** The tag-correlated wait shared by the binary and the anonymous request. *)
Definition wait_for_tag (fuel : nat) (operation : string) (expected_tag : bytes)
    : io T BinaryResponse :=
  wait_for_packet fuel operation (λ packet,
    match packet with
    | Packet_BinaryResponse response =>
        if bool_decide (BinaryResponse_tag response = expected_tag)
        then PacketWait_Ready response else PacketWait_Continue packet
    | other => PacketWait_Continue other
    end).
Definition binary_request (fuel : nat) (public_key : bytes) (request_type : u8) (data : bytes)
    : io T BinaryResponse :=
  command ← lift (send_binary_request public_key request_type data);
  tracking ← send_command_expect_msg_sent_untracked fuel command;
  wait_for_tag fuel "binary request" (CommandTracking_ack_code tracking).
Definition anonymous_request (fuel : nat) (public_key : bytes) (request_type : u8)
    (reply_route : ContactRoute) (reply_path : Path) : io T BinaryResponse :=
  command ← lift (send_anonymous_request public_key request_type reply_route reply_path);
  tracking ← send_command_expect_msg_sent_untracked fuel command;
  wait_for_tag fuel "anonymous request" (CommandTracking_ack_code tracking).
Definition client_send_node_discovery (fuel : nat) (filter : u8) (prefix_only : bool) (tag : u32)
    (since : option u32) : io T () :=
  expect_ok fuel (send_node_discovery filter prefix_only tag since).
Definition client_discover_path (fuel : nat) (public_key : bytes) : io T PathDiscovery :=
  expected_prefix ← lift (key_prefix public_key);
  command ← lift (discover_path public_key);
  _ ← send_command_expect_msg_sent_untracked fuel command;
  wait_for_packet fuel "path discovery" (λ packet,
    match packet with
    | Packet_PathDiscovery path =>
        if bool_decide (PathDiscovery_pubkey_prefix path = expected_prefix)
        then PacketWait_Ready path else PacketWait_Continue packet
    | other => PacketWait_Continue other
    end).

(** ** Signing and keys *)

Fixpoint sign_chunks (fuel : nat) (chunks : list bytes) : io T () :=
  match chunks with
  | [] => mret ()
  | chunk :: chunks => _ ← expect_ok fuel (sign_data chunk); sign_chunks fuel chunks
  end.
Definition sign (fuel : nat) (data : bytes) : io T Signature :=
  max_data_bytes ← send_command_expect fuel sign_start "signing start"
    (λ p, match p with Packet_SignStart n => Some n | _ => None end);
  if (max_data_bytes <? Z.of_nat (length data))%Z then
    throw (CoreError_InvalidArgument "data"
      (pretty (length data) +:+ " bytes exceeds device signing limit " +:+ pretty max_data_bytes))
  else
    _ ← sign_chunks fuel (chunks SIGNING_CHUNK_BYTES data);
    send_command_expect fuel sign_finish "signing finish"
      (λ p, match p with Packet_Signature signature => Some signature | _ => None end).

Definition client_export_private_key (fuel : nat) : io T PrivateKeyMaterial :=
  request fuel export_private_key (λ packet,
    match packet with
    | Packet_PrivateKey key => Some (mret key)
    | Packet_Disabled => feature_disabled "private-key export"
    | Packet_Error code => device_rejected "private-key export" code
    | _ => None
    end).
Definition client_import_private_key (fuel : nat) (key : PrivateKeyMaterial) : io T () :=
  request fuel (import_private_key key) (λ packet,
    match packet with
    | Packet_Ok _ => Some (mret ())
    | Packet_Disabled => feature_disabled "private-key import"
    | Packet_Error code => device_rejected "private-key import" code
    | _ => None
    end).
Definition client_set_device_pin (fuel : nat) (pin : u32) : io T () :=
  expect_ok fuel (set_device_pin pin).
Definition client_reboot : io T () := send_disconnect_command reboot.
Definition client_factory_reset : io T () := send_disconnect_command factory_reset.

(** ** Messages *)

Definition client_send_direct_text (fuel : nat) (now : Z) (destination_prefix : bytes)
    (attempt : u8) (text : rstring) : io T CommandTracking :=
  _ ← lift (validate_destination_prefix destination_prefix);
  _ ← lift (validate_text text (MAX_INNER_PAYLOAD - 13) "text");
  send_command_expect_msg_sent fuel
    (send_direct_text destination_prefix (wire_timestamp now) attempt text).
Definition client_send_direct_command (fuel : nat) (now : Z) (destination_prefix : bytes)
    (attempt : u8) (command_text : rstring) : io T CommandTracking :=
  _ ← lift (validate_destination_prefix destination_prefix);
  _ ← lift (validate_text command_text (MAX_INNER_PAYLOAD - 13) "command");
  send_command_expect_msg_sent fuel
    (send_direct_command destination_prefix (wire_timestamp now) attempt command_text).
Definition send_channel_message (fuel : nat) (now : Z) (channel txt_type : u8) (text : rstring)
    : io T () :=
  _ ← lift (validate_text text (MAX_INNER_PAYLOAD - 7) "text");
  send_command_expect_ok fuel (send_channel channel txt_type (wire_timestamp now) text).

(** ** Inbox synchronization *)

Definition sync_arm (packet : Packet) : option (io T (option Message)) :=
  match packet with
  | Packet_ContactMsg message =>
      Some (_ ← modify (λ c, publish_event (Packet_ContactMsg message)
                               (with_sync_state SyncState_Idle c));
            mret (Some message))
  | Packet_ChannelMsg message =>
      Some (_ ← modify (λ c, publish_event (Packet_ChannelMsg message)
                               (with_sync_state SyncState_Idle c));
            mret (Some message))
  | Packet_NoMoreMsgs => Some (_ ← modify (with_sync_state SyncState_Idle); mret None)
  | Packet_Error _ =>
      Some (_ ← modify (with_sync_state SyncState_Idle);
            throw (CoreError_ProtocolInvariant "sync next message returned an error"))
  | _ => None
  end.
Definition wait_for_sync_response (fuel : nat) : io T (option Message) := reply_loop fuel sync_arm.

(** One ready packet of the drain loop: an answer ends it, any other packet is
    absorbed before [next]. *)
Definition drain_packet (raw : bytes) (next : io T (option ReadySync)) : io T (option ReadySync) :=
  packet ← parse_packet raw;
  match packet with
  | Packet_ContactMsg message =>
      _ ← modify (λ c, publish_event (Packet_ContactMsg message)
                         (with_sync_state SyncState_Idle c));
      mret (Some (ReadySync_Message message))
  | Packet_ChannelMsg message =>
      _ ← modify (λ c, publish_event (Packet_ChannelMsg message)
                         (with_sync_state SyncState_Idle c));
      mret (Some (ReadySync_Message message))
  | Packet_NoMoreMsgs =>
      _ ← modify (with_sync_state SyncState_Idle); mret (Some ReadySync_NoMoreMessages)
  | Packet_Error _ =>
      _ ← modify (with_sync_state SyncState_Idle); mret (Some ReadySync_Error)
  | other => _ ← modify (absorb other); next
  end.

(** The drain loop: [remaining] more packets may still be absorbed; the packet
    read when none is left is one too many. *)
Fixpoint drain_loop (remaining : nat) : io T (option ReadySync) := λ c,
  let '(r, t) := transport_try_read (Client_transport c) in
  let c := with_transport t c in
  match r with
  | Ok ReadyRead_Pending => (Ret None, c)
  | Ok ReadyRead_Closed => (Throw CoreError_Disconnected, mark_disconnected c)
  | Err error =>
      (Throw (CoreError_Transport error),
       if is_disconnect_error error then mark_disconnected c else c)
  | Panic => (Crash, c)
  | Ok (ReadyRead_Packet raw) =>
      drain_packet raw
        (match remaining with
         | 0 => throw (CoreError_ProtocolInvariant
                         "too many buffered packets before inbox synchronization")
         | S remaining => drain_loop remaining
         end) c
  end.
Definition drain_ready_packets_before_sync : io T (option ReadySync) :=
  drain_loop CLIENT_SYNC_READY_DRAIN_CAPACITY.

Definition client_sync_next_message (fuel : nat) : io T (option Message) :=
  _ ← ensure_connected;
  deferred ← gets Client_deferred_sync;
  match deferred with
  | Some ready =>
      _ ← modify (λ c, with_sync (Client_sync_state c) None c);
      lift (ready_sync_result ready)
  | None =>
      drained ← drain_ready_packets_before_sync;
      match drained with
      | Some ready => lift (ready_sync_result ready)
      | None =>
          state ← gets Client_sync_state;
          if bool_decide (state = SyncState_AwaitingResponse) then wait_for_sync_response fuel
          else
            _ ← modify (with_sync_state SyncState_AwaitingResponse);
            _ ← write_raw (Command_into_encoded sync_next_message);
            wait_for_sync_response fuel
      end
  end.

(** ** Waiting for an ACK *)

Fixpoint ack_loop (fuel : nat) (ack_code : bytes) : io T Ack :=
  match fuel with
  | 0 => stuck
  | S fuel =>
      packet ← read_next_packet_with_timeout;
      match packet with
      | Packet_Ack ack =>
          if bool_decide (Ack_code ack = ack_code) then
            _ ← modify (λ c, publish_event (Packet_Ack ack) (discard_pending_ack ack_code c));
            mret ack
          else _ ← modify (absorb (Packet_Ack ack)); ack_loop fuel ack_code
      | Packet_Error _ => throw (CoreError_ProtocolInvariant "ack request returned an error")
      | other => _ ← modify (publish_event other); ack_loop fuel ack_code
      end
  end.

(** [wait_for_ack] after its guards: a completed ACK, or the loop with the
    tracking of the code dropped when it fails. *)
Definition take_or_wait_for_ack (fuel : nat) (ack_code : bytes) : io T Ack := λ c,
  match take_completed_ack ack_code c with
  | (Some ack, c) => (Ret ack, c)
  | (None, c) =>
      match ack_loop fuel ack_code c with
      | (Throw e, c) => (Throw e, discard_completed_ack ack_code (discard_pending_ack ack_code c))
      | r => r
      end
  end.
Definition wait_for_ack (fuel : nat) (ack_code : bytes) (request_timeout : option Z) : io T Ack :=
  _ ← lift (match request_timeout with
            | Some request_timeout => validate_operation_timeout request_timeout
            | None => Ok ()
            end);
  _ ← ensure_connected;
  take_or_wait_for_ack fuel ack_code.
End client.
