(* ===== verification/ClientFacts.v ===== *)
(** * Facts about the client

    A small Hoare logic for client operations, the client invariant and its
    preservation by every operation, and the packets an operation hands to the
    transport.  Everything is proved against the transport interface, for any
    transport that keeps its laws. *)

From S2P Require Import Prelude Text Floats Domain Samples Packet PacketFacts Transport Framed Tracker Command.
From S2P Require Import CommandFacts Client.

(** ** Invariant *)

Definition keyed {A} (key : A → bytes) (t : Tracker A) : Prop :=
  ∀ k v, tracker_map t !! k = Some v → key v = k.

Section client_facts.
  Context `{CratesLaws} {T : Type} `{ObservedTransport T}.
  Implicit Types c : Client T.

Record client_wf c : Prop := {
  wf_transport : transport_wf (Client_transport c);
  wf_pending : tracker_wf (Client_pending c);
  wf_completed : tracker_wf (Client_completed c);
  wf_pending_keyed : keyed CommandTracking_ack_code (Client_pending c);
  wf_completed_keyed : keyed Ack_code (Client_completed c);
  wf_disjoint k :
    is_Some (tracker_map (Client_pending c) !! k) →
    is_Some (tracker_map (Client_completed c) !! k) → False;
  wf_observation : (0 < Client_next_message_observation_id c < 2 ^ 64)%Z;
  wf_deferred : is_Some (Client_deferred_sync c) → Client_sync_state c = SyncState_Idle;
  wf_disconnected : Client_connected c = false →
    Client_pending c = tracker_empty ∧ Client_completed c = tracker_empty ∧
    Client_sync_state c = SyncState_Idle ∧ Client_deferred_sync c = None
}.

Definition live_client c : Prop := client_wf c ∧ Client_connected c = true.

(** ** Pure updates *)

Lemma keyed_empty {A} (key : A → bytes) : keyed key tracker_empty.
Proof. intros k v. cbn. by rewrite lookup_empty. Qed.

Lemma keyed_discard {A} (key : A → bytes) code t : keyed key t → keyed key (tracker_discard code t).
Proof. intros Hk k v. cbn. rewrite lookup_delete_Some. intros [_ ?]. by apply Hk. Qed.

Lemma keyed_remember {A} (key : A → bytes) v t :
  tracker_wf t → keyed key t → keyed key (tracker_remember (key v) v t).
Proof.
  intros Hwf Hk k w. destruct (tracker_remember_spec (key v) v t Hwf) as [_ ->].
  case_bool_decide; [by intros [= <-]|]. case_bool_decide; [apply Hk|done].
Qed.

Lemma discard_lookup {A} code (t : Tracker A) k :
  is_Some (tracker_map (tracker_discard code t) !! k) →
  k ≠ code ∧ is_Some (tracker_map t !! k).
Proof. cbn. rewrite lookup_delete_is_Some. naive_solver. Qed.

Lemma remember_lookup {A} code v (t : Tracker A) k :
  tracker_wf t → is_Some (tracker_map (tracker_remember code v t) !! k) →
  k = code ∨ is_Some (tracker_map t !! k).
Proof.
  intros Hwf. destruct (tracker_remember_spec code v t Hwf) as [_ ->].
  case_bool_decide; [by left|]. case_bool_decide; [by right|]. by intros [].
Qed.

Lemma mark_disconnected_wf c : client_wf c → client_wf (mark_disconnected c) ∧
  Client_connected (mark_disconnected c) = false.
Proof.
  intros []. unfold mark_disconnected. case_match; cbn; split; try done; split; cbn; auto with mq_wf.
  all: try apply keyed_empty. all: try (intros k; rewrite lookup_empty; by intros []).
  all: by intros [].
Qed.

Lemma with_transport_wf t c : client_wf c → transport_wf t → client_wf (with_transport t c).
Proof. intros [] Ht. by split. Qed.

Lemma send_event_wf e c : client_wf c → client_wf (send_event e c).
Proof. intros []. by split. Qed.

Lemma send_event_live e c : live_client c → live_client (send_event e c).
Proof. intros [? ?]. split; [by apply send_event_wf|done]. Qed.

Lemma with_sync_live s d c :
  live_client c → (is_Some d → s = SyncState_Idle) → live_client (with_sync s d c).
Proof. intros [[] Hc] Hd. split; [|done]. split; cbn; auto. congruence. Qed.

Lemma retain_sync_response_live p c : live_client c → live_client (retain_sync_response p c).
Proof.
  intros Hc. unfold retain_sync_response. case_match; [done|].
  destruct p; try done; by apply with_sync_live.
Qed.

Lemma publish_event_live p c : live_client c → live_client (publish_event p c).
Proof.
  intros Hc%(retain_sync_response_live p). unfold publish_event.
  destruct (Packet_into_event p); [by apply send_event_live|done].
Qed.

Lemma discard_completed_live code c : live_client c → live_client (discard_completed_ack code c).
Proof.
  intros [[] Hc]. split; [|done]. split; cbn; auto using keyed_discard with mq_wf; [|congruence].
  intros k Hp [_ ?]%discard_lookup. eauto.
Qed.

Lemma discard_pending_live code c : live_client c → live_client (discard_pending_ack code c).
Proof.
  intros [[] Hc]. split; [|done]. split; cbn; auto using keyed_discard with mq_wf; [|congruence].
  intros k [_ ?]%discard_lookup ?. eauto.
Qed.

(** Tracking a send: its code leaves the completed table first. *)
Lemma remember_pending_live tracking c :
  live_client c →
  live_client (remember_pending_ack tracking
                 (discard_completed_ack (CommandTracking_ack_code tracking) c)).
Proof.
  intros [[] Hc]. split; [|done].
  split; cbn; auto using keyed_discard, keyed_remember with mq_wf; [|congruence].
  intros k [->|Hk]%remember_lookup [? ?]%discard_lookup; eauto.
Qed.

(** An ACK moves its code from the pending to the completed table. *)
Lemma update_tracking_live p c : live_client c → live_client (update_tracking p c).
Proof.
  intros Hc. destruct p as [| | | | | | ? code ms | | | | | | | | | | | | | | | | | | | | ack | | | | | | | | |];
    try exact Hc.
  - apply (remember_pending_live (mkCommandTracking code ms) c Hc).
  - cbn. destruct Hc as [[] Hc]. unfold take_pending_ack. rewrite tracker_take_discard by done.
    destruct (tracker_map (Client_pending c) !! Ack_code ack) as [v|]; split; try done;
      split; cbn; auto using keyed_discard, keyed_remember with mq_wf; try congruence.
    + intros k [? ?]%discard_lookup [->|?]%remember_lookup; eauto.
    + intros k [_ ?]%discard_lookup ?. eauto.
Qed.

Lemma absorb_live p c : live_client c → live_client (absorb p c).
Proof. intros. by apply update_tracking_live, publish_event_live. Qed.

Lemma take_completed_live code c : live_client c → live_client (take_completed_ack code c).2.
Proof.
  intros Hc. unfold take_completed_ack. rewrite tracker_take_discard by apply Hc.
  apply (discard_completed_live code c Hc).
Qed.

Lemma next_observation_range id :
  (0 < id < 2 ^ 64)%Z → (0 < next_observation_id id < 2 ^ 64)%Z.
Proof.
  intros Hid. unfold next_observation_id.
  pose proof (to_unsigned_range 64 (id + 1)) as [? ?]; [lia|].
  destruct (Z.eqb_spec (to_unsigned 64 (id + 1)) 0); lia.
Qed.

(** ** Hoare triples

    [triple P m Q F]: from a client that satisfies [P], [m] does not crash; a
    value is returned with [Q]; an error, running out of fuel and being cancelled
    leave [F]. *)

Definition triple {A} (P : Client T → Prop) (m : io T A) (Q : A → Client T → Prop)
    (F : Client T → Prop) : Prop :=
  ∀ c, P c →
  match m c with
  | (Ret a, c') => Q a c'
  | (Throw _, c') => F c'
  | (Stuck, c') => F c'
  | (Cancelled, c') => F c'
  | (Crash, _) => False
  end.

Lemma triple_bind {A B} P (m : io T A) (f : A → io T B) R Q F :
  triple P m R F → (∀ a, triple (R a) (f a) Q F) → triple P (m ≫= f) Q F.
Proof.
  intros Hm Hf c Hc. specialize (Hm c Hc). unfold mbind, io_bind.
  destruct (m c) as [[a| | | |] c']; try done. by apply Hf.
Qed.

Lemma triple_weaken {A} P P' (m : io T A) Q Q' F F' :
  triple P m Q F → (∀ c, P' c → P c) → (∀ a c, Q a c → Q' a c) → (∀ c, F c → F' c) →
  triple P' m Q' F'.
Proof.
  intros Hm HP HQ HF c Hc. specialize (Hm c (HP c Hc)).
  destruct (m c) as [[a| | | |] c']; auto.
Qed.

Lemma triple_ret {A} (a : A) P Q F : (∀ c, P c → Q a c) → triple P (mret a) Q F.
Proof. intros HQ c Hc. by apply HQ. Qed.

Lemma triple_throw {A} e P (Q : A → Client T → Prop) F : (∀ c, P c → F c) → triple P (throw e) Q F.
Proof. intros HF c Hc. by apply HF. Qed.

Lemma triple_stuck {A} P (Q : A → Client T → Prop) F : (∀ c, P c → F c) → triple P stuck Q F.
Proof. intros HF c Hc. by apply HF. Qed.

Lemma triple_modify f P (Q : () → Client T → Prop) F : (∀ c, P c → Q () (f c)) → triple P (modify f) Q F.
Proof. intros HQ c Hc. by apply HQ. Qed.

Lemma triple_gets {A} (f : Client T → A) P (Q : A → Client T → Prop) F :
  (∀ c, P c → Q (f c) c) → triple P (gets f) Q F.
Proof. intros HQ c Hc. by apply HQ. Qed.

Lemma triple_lift {A} (m : outcome CoreError A) P Q F :
  m ≠ Panic → (∀ a c, m = Ok a → P c → Q a c) → (∀ c, P c → F c) → triple P (lift m) Q F.
Proof. intros Hp HQ HF c Hc. unfold lift. destruct m; cbn; auto. Qed.

Lemma triple_ensure_connected :
  triple client_wf ensure_connected (λ _, live_client) client_wf.
Proof. intros c Hc. unfold ensure_connected. by destruct (Client_connected c) eqn:E. Qed.

(** ** Reads and writes *)

Lemma parse_packet_triple raw :
  is_bytes raw → triple live_client (parse_packet raw) (λ _, live_client) client_wf.
Proof.
  intros Hraw c Hc. unfold parse_packet.
  pose proof (Packet_parse_post raw Hraw) as Hp.
  assert (live_client (with_observation_id
            (next_observation_id (Client_next_message_observation_id c)) c)) as Hid.
  { destruct Hc as [[] Hc]. split; [|done]. split; auto. cbn. by apply next_observation_range. }
  destruct (Packet_parse raw) as [p| |]; [|apply Hc|done]. by destruct p.
Qed.

(** A completed read keeps the connection; a failed one may end it. *)
Lemma read_next_packet_spec c :
  live_client c →
  match read_next_packet c with
  | (Ready (Ret _), c') => live_client c'
  | (Pending, c') | (Dropped, c') => live_client c'
  | (Ready (Throw _), c') => client_wf c'
  | (Ready Stuck, c') | (Ready Cancelled, c') => client_wf c'
  | (Ready Crash, _) => False
  end.
Proof.
  intros Hc. unfold read_next_packet. destruct (read_wf (Client_transport c)) as [Ht Hr]; [apply Hc|].
  destruct (transport_read (Client_transport c)) as [r t]. cbn in Ht, Hr.
  assert (live_client (with_transport t c)) as Hc'
    by (split; [apply with_transport_wf; [apply Hc|done]|apply Hc]).
  destruct r as [[[raw|]|e|]| |]; try done.
  - pose proof (parse_packet_triple raw Hr _ Hc') as Hp.
    by destruct (parse_packet raw (with_transport t c)) as [[] ?].
  - apply mark_disconnected_wf, Hc'.
  - case_match; [apply mark_disconnected_wf|]; apply Hc'.
Qed.

Lemma read_triple : triple live_client read_next_packet_with_timeout (λ _, live_client) client_wf.
Proof.
  intros c Hc. unfold read_next_packet_with_timeout. pose proof (read_next_packet_spec c Hc) as Hr.
  destruct (read_next_packet c) as [[[]| |] c']; try done; apply Hr.
Qed.

Lemma write_raw_triple p : triple live_client (write_raw p) (λ _, live_client) client_wf.
Proof.
  intros c Hc. unfold write_raw. case_bool_decide; [apply Hc|].
  destruct (MAX_INNER_PAYLOAD <? length p); [apply Hc|].
  destruct (write_wf (Client_transport c) p) as [Ht Hp]; [apply Hc|].
  destruct (transport_write (Client_transport c) p) as [r t]. cbn in Ht, Hp.
  assert (live_client (with_transport t c)) as Hc'
    by (split; [apply with_transport_wf; [apply Hc|done]|apply Hc]).
  destruct r as [[|e|]| |]; [done| |done|apply Hc'..].
  destruct (is_terminal_write_error e); [apply mark_disconnected_wf|]; apply Hc'.
Qed.

Lemma send_raw_triple p : triple live_client (send_raw p) (λ _, live_client) client_wf.
Proof. intros c Hc. unfold send_raw. case_bool_decide; [apply Hc|]. by apply write_raw_triple. Qed.

Lemma reply_loop_triple {R} fuel (arm : Packet → option (io T R)) Q :
  (∀ p answer, arm p = Some answer → triple live_client answer Q client_wf) →
  triple live_client (reply_loop fuel arm) Q client_wf.
Proof.
  intros Ha. induction fuel as [|fuel IH]; cbn [reply_loop]; [apply triple_stuck; by intros c []|].
  eapply triple_bind; [apply read_triple|]. intros p. destruct (arm p) as [answer|] eqn:E; [by eapply Ha|].
  eapply triple_bind; [|intros; apply IH]. apply triple_modify. apply absorb_live.
Qed.

Lemma request_triple {R} fuel command (arm : Packet → option (io T R)) Q :
  (∀ p answer, arm p = Some answer → triple live_client answer Q client_wf) →
  triple client_wf (request fuel command arm) Q client_wf.
Proof.
  intros Ha. eapply triple_bind; [apply triple_ensure_connected|]. intros ?.
  eapply triple_bind; [apply send_raw_triple|]. intros ?. by apply reply_loop_triple.
Qed.

(** ** Every operation keeps the invariant *)

Lemma live_wf c : live_client c → client_wf c.
Proof. by intros []. Qed.

(** The answers of the request loops: return, throw, or an update and a return. *)
Ltac answer_tac :=
  first
    [ apply triple_ret; solve [auto]
    | apply triple_throw; exact live_wf
    | apply (triple_bind _ _ _ (λ _, live_client));
        [apply triple_modify; cbv beta; intros; auto using publish_event_live
        |intros ?; answer_tac] ].

Ltac arm_tac :=
  let p := fresh "p" in let answer := fresh "answer" in let Ha := fresh "Ha" in
  intros p answer Ha;
  unfold ok_arm, expect_arm, msg_sent_arm, wait_arm, device_rejected, feature_disabled in Ha;
  repeat case_match; simplify_eq; answer_tac.

Lemma send_command_expect_triple {R} fuel command context (extract : Packet → option R) :
  triple client_wf (send_command_expect fuel command context extract) (λ _, live_client) client_wf.
Proof. apply request_triple. arm_tac. Qed.

Lemma send_command_expect_ok_triple fuel command :
  triple client_wf (send_command_expect_ok fuel command) (λ _, live_client) client_wf.
Proof. apply request_triple. arm_tac. Qed.

Lemma msg_sent_triple fuel command track :
  triple client_wf (send_command_expect_msg_sent_inner fuel command track) (λ _, live_client)
    client_wf.
Proof.
  apply request_triple. intros p answer Ha. unfold msg_sent_arm, device_rejected in Ha.
  destruct p as [| | | | | |d code ms| | | | | | | | | | | | | | | | | | | | | | | | | | | | |];
    simplify_eq; [apply triple_throw; exact live_wf|].
  apply (triple_bind _ _ _ (λ _, live_client)); [|intros ?; answer_tac]. apply triple_modify. intros c Hc.
  destruct track; [|done]. by apply (remember_pending_live (mkCommandTracking code ms)).
Qed.

Lemma wait_for_packet_triple {R} fuel operation (extract : Packet → PacketWait R) :
  triple live_client (wait_for_packet fuel operation extract) (λ _, live_client) client_wf.
Proof. apply reply_loop_triple. arm_tac. Qed.

Lemma expect_ok_triple fuel command :
  command ≠ Panic → triple client_wf (expect_ok fuel command) (λ _, live_client) client_wf.
Proof.
  intros Hc. eapply triple_bind; [apply triple_lift; [done| |done]|intros ?; apply send_command_expect_ok_triple].
  by intros.
Qed.

Lemma collect_contacts_triple fuel lastmod :
  triple client_wf (collect_contacts fuel lastmod) (λ _, live_client) client_wf.
Proof.
  eapply triple_bind; [apply triple_ensure_connected|]. intros ?.
  eapply triple_bind; [apply send_raw_triple|]. intros ?.
  assert (∀ cs, triple live_client (collect_contacts_loop fuel cs) (λ _, live_client) client_wf) as Hl;
    [|apply Hl].
  induction fuel as [|fuel IH]; intros cs; cbn [collect_contacts_loop]; [apply triple_stuck, live_wf|].
  eapply triple_bind; [apply read_triple|]. intros p.
  destruct p; try (apply IH); try answer_tac;
    (apply (triple_bind _ _ _ (λ _, live_client)); [apply triple_modify; intros; by apply absorb_live|intros ?; apply IH]).
Qed.

Lemma sync_idle_live c : live_client c → live_client (with_sync_state SyncState_Idle c).
Proof. intros. by apply with_sync_live. Qed.

Lemma wait_for_sync_triple fuel :
  triple live_client (wait_for_sync_response fuel) (λ _, live_client) client_wf.
Proof.
  apply reply_loop_triple. intros p answer Ha. unfold sync_arm in Ha.
  destruct p; simplify_eq; (apply (triple_bind _ _ _ (λ _, live_client)); [|intros ?; answer_tac]);
    apply triple_modify; intros; auto using publish_event_live, sync_idle_live.
Qed.

(** A packet that answers an inbox synchronization. *)
Definition sync_packet (p : Packet) : bool :=
  match p with
  | Packet_ContactMsg _ | Packet_ChannelMsg _ | Packet_NoMoreMsgs | Packet_Error _ => true
  | _ => false
  end.

Lemma retain_other p c : sync_packet p = false → retain_sync_response p c = c.
Proof. intros Hp. unfold retain_sync_response. case_match; [done|]. by destruct p. Qed.

Lemma retain_idle p c : Client_sync_state c = SyncState_Idle → retain_sync_response p c = c.
Proof. intros Hs. unfold retain_sync_response. by rewrite Hs. Qed.

Lemma update_tracking_sync p c :
  Client_sync_state (update_tracking p c) = Client_sync_state c ∧
  Client_deferred_sync (update_tracking p c) = Client_deferred_sync c.
Proof.
  destruct p; try done. cbn. unfold take_pending_ack.
  destruct (tracker_take _ _) as [[]]; done.
Qed.

Lemma absorb_sync p c :
  sync_packet p = false →
  Client_sync_state (absorb p c) = Client_sync_state c ∧
  Client_deferred_sync (absorb p c) = Client_deferred_sync c.
Proof.
  intros Hp. unfold absorb. destruct (update_tracking_sync p (publish_event p c)) as [-> ->].
  unfold publish_event. rewrite retain_other by done. by destruct (Packet_into_event p).
Qed.

(** No response is held back. *)
Definition inbox_live c : Prop := live_client c ∧ Client_deferred_sync c = None.

Lemma absorb_inbox p c : sync_packet p = false → inbox_live c → inbox_live (absorb p c).
Proof.
  intros Hp [Hc Hd]. split; [by apply absorb_live|]. by destruct (absorb_sync p c Hp) as [_ ->].
Qed.

Lemma idle_inbox c : inbox_live c → inbox_live (with_sync_state SyncState_Idle c).
Proof. intros [Hc Hd]. split; [by apply sync_idle_live|done]. Qed.

Lemma publish_idle_inbox p c :
  inbox_live c → inbox_live (publish_event p (with_sync_state SyncState_Idle c)).
Proof.
  intros Hc%idle_inbox. unfold publish_event. rewrite retain_idle by done.
  destruct (Packet_into_event p); [|done]. destruct Hc. split; [by apply send_event_live|done].
Qed.

Lemma parse_packet_inbox raw :
  is_bytes raw → triple inbox_live (parse_packet raw) (λ _, inbox_live) client_wf.
Proof.
  intros Hr c [Hc Hd]. pose proof (parse_packet_triple raw Hr c Hc) as Hp.
  assert (∀ r c', parse_packet raw c = (r, c') → Client_deferred_sync c' = None) as Haux.
  { intros r c'. unfold parse_packet. by repeat case_match; intros; simplify_eq. }
  destruct (parse_packet raw c) as [[] c']; try done. split; [done|]. by eapply Haux.
Qed.

Lemma inbox_wf c : inbox_live c → client_wf c.
Proof. by intros [[] _]. Qed.

Lemma drain_packet_triple raw (next : io T (option ReadySync)) :
  is_bytes raw → triple inbox_live next (λ _, inbox_live) client_wf →
  triple inbox_live (drain_packet raw next) (λ _, inbox_live) client_wf.
Proof.
  intros Hr Hn. eapply triple_bind; [by apply parse_packet_inbox|]. intros p.
  destruct p; (apply (triple_bind _ _ _ (λ _, inbox_live));
    [apply triple_modify; intros; first [by apply absorb_inbox|by apply publish_idle_inbox|by apply idle_inbox]
    |intros ?; first [exact Hn|by apply triple_ret]]).
Qed.

Lemma drain_loop_triple n : triple inbox_live (drain_loop n) (λ _, inbox_live) client_wf.
Proof.
  induction n as [|n IH]; intros c Hc; cbn [drain_loop];
    (destruct (try_read_wf (Client_transport c)) as [Ht Hr]; [apply Hc|]);
    destruct (transport_try_read (Client_transport c)) as [r t]; cbn in Ht, Hr;
    (assert (inbox_live (with_transport t c)) as Hc'
      by (destruct Hc as [[] ?]; split; [split; [by apply with_transport_wf|done]|done]));
    (destruct r as [[| |raw]|e|]; try done;
      [apply mark_disconnected_wf, Hc'| |case_match; [apply mark_disconnected_wf|]; apply Hc']).
  - apply drain_packet_triple; [done| |done]. apply triple_throw, inbox_wf.
  - by apply drain_packet_triple.
Qed.

Lemma sync_next_message_triple fuel :
  triple client_wf (client_sync_next_message fuel) (λ _, live_client) client_wf.
Proof.
  eapply triple_bind; [apply triple_ensure_connected|]. intros ?.
  eapply triple_bind.
  { apply (triple_gets _ _ (λ d c, live_client c ∧ Client_deferred_sync c = d)). auto. }
  intros [ready|].
  - apply (triple_bind _ _ _ (λ _, live_client)); [apply triple_modify|intros ?; apply triple_lift].
    + intros c [Hc _]. by apply (with_sync_live (Client_sync_state c) None c).
    + by destruct ready.
    + auto.
    + apply live_wf.
  - eapply triple_bind; [apply drain_loop_triple|].
    intros [ready|]; [apply triple_lift; [by destruct ready|by intros ? ? ? []|apply inbox_wf]|].
    eapply triple_bind; [by apply (triple_gets _ _ (λ _, inbox_live))|]. intros st. cbv beta.
    case_bool_decide; [eapply triple_weaken; [apply wait_for_sync_triple|by intros ? []|auto|auto]|].
    apply (triple_bind _ _ _ (λ _, live_client)).
    { apply triple_modify. intros c [Hc Hd]. apply with_sync_live; [done|].
      rewrite Hd. by intros []. }
    intros ?. eapply triple_bind; [apply write_raw_triple|]. intros ?. apply wait_for_sync_triple.
Qed.

Lemma ack_loop_triple fuel code : triple live_client (ack_loop fuel code) (λ _, live_client) client_wf.
Proof.
  induction fuel as [|fuel IH]; cbn [ack_loop]; [apply triple_stuck, live_wf|].
  eapply triple_bind; [apply read_triple|]. intros p.
  destruct p as [| | | | | | | | | | | | | | | | | | | | | | | | | |ack| | | | | | | | |];
    try answer_tac;
    try (apply (triple_bind _ _ _ (λ _, live_client));
      [apply triple_modify; intros; by apply publish_event_live|intros ?; apply IH]).
  case_bool_decide; (apply (triple_bind _ _ _ (λ _, live_client)); [apply triple_modify|intros ?]).
  - intros. by apply publish_event_live, discard_pending_live.
  - answer_tac.
  - intros. by apply absorb_live.
  - apply IH.
Qed.

Lemma discard_empty {A} code : tracker_discard code (tracker_empty : Tracker A) = tracker_empty.
Proof. unfold tracker_discard, tracker_empty. cbn. by rewrite delete_empty. Qed.

Lemma discard_both_wf code c :
  client_wf c → client_wf (discard_completed_ack code (discard_pending_ack code c)).
Proof.
  intros Hc. destruct (Client_connected c) eqn:Hconn.
  - apply discard_completed_live, discard_pending_live. by split.
  - destruct Hc as [? ? ? ? ? Hdis ? ? Hd].
    split; cbn; auto using keyed_discard with mq_wf.
    + intros k [_ ?]%discard_lookup [_ ?]%discard_lookup. eauto.
    + intros _. destruct (Hd Hconn) as (->&->&?&?). by rewrite !discard_empty.
Qed.

Lemma wait_for_ack_triple fuel code timeout :
  triple client_wf (wait_for_ack fuel code timeout) (λ _, live_client) client_wf.
Proof.
  apply (triple_bind _ _ _ (λ _, client_wf)).
  { apply triple_lift; [|auto|auto]. destruct timeout; [|done].
    unfold validate_operation_timeout, invalid_argument. by case_match. }
  intros ?. eapply triple_bind; [apply triple_ensure_connected|]. intros ? c Hc.
  unfold take_or_wait_for_ack. pose proof (take_completed_live code c Hc) as Ht.
  destruct (take_completed_ack code c) as [[ack|] c']; [done|].
  pose proof (ack_loop_triple fuel code c' Ht) as Hl.
  destruct (ack_loop fuel code c') as [[] c'']; try done. by apply discard_both_wf.
Qed.

Lemma key_prefix_no_panic key : key_prefix key ≠ Panic.
Proof.
  unfold key_prefix, invalid_argument. destruct (Nat.eqb_spec (length key) 32) as [Hl|]; cbn [negb]; [|done].
  rewrite slice_ok by lia. done.
Qed.

Lemma validate_text_no_panic t n f : validate_text t n f ≠ Panic.
Proof. unfold validate_text, invalid_argument. by repeat case_match. Qed.

Lemma validate_prefix_no_panic p : validate_destination_prefix p ≠ Panic.
Proof. unfold validate_destination_prefix, invalid_argument. by case_match. Qed.

Lemma built_no_panic m : built m → m ≠ Panic.
Proof. intros Hb. by eapply post_no_panic, built_ok. Qed.

(** A guard or a command constructor in front of an operation. *)
Lemma triple_guard {A B} (m : outcome CoreError A) (f : A → io T B) Q :
  m ≠ Panic → (∀ a, triple client_wf (f a) Q client_wf) → triple client_wf (lift m ≫= f) Q client_wf.
Proof.
  intros Hm Hf. apply (triple_bind _ _ _ (λ _, client_wf)); [by apply triple_lift; auto|]. done.
Qed.

Lemma sign_chunks_triple fuel chunks :
  Forall is_bytes chunks → triple client_wf (sign_chunks fuel chunks) (λ _, client_wf) client_wf.
Proof.
  induction 1 as [|chunk chunks Hc Hcs IH]; cbn [sign_chunks]; [by apply triple_ret|].
  apply (triple_bind _ _ _ (λ _, client_wf)); [|by intros].
  eapply triple_weaken; [apply expect_ok_triple, built_no_panic; by constructor|done| |done].
  intros ? c. apply live_wf.
Qed.

Lemma chunks_bytes n l : is_bytes l → Forall is_bytes (chunks n l).
Proof.
  intros Hl. unfold chunks. generalize (length l) as fuel. intros fuel. revert l Hl.
  induction fuel as [|fuel IH]; intros l Hl; cbn; [constructor|]. destruct l as [|x l']; [constructor|].
  constructor; [by apply Forall_take|]. by apply IH, Forall_drop.
Qed.

Lemma sign_triple fuel data : is_bytes data → triple client_wf (sign fuel data) (λ _, live_client) client_wf.
Proof.
  intros Hd. eapply triple_bind; [apply send_command_expect_triple|]. intros m.
  case_match; [apply triple_throw, live_wf|].
  apply (triple_bind _ _ _ (λ _, client_wf)); [|intros ?; apply send_command_expect_triple].
  eapply triple_weaken; [by apply sign_chunks_triple, chunks_bytes|apply live_wf|done|done].
Qed.

Lemma close_transport_triple : triple client_wf close_transport (λ _, client_wf) client_wf.
Proof.
  intros c Hc. unfold close_transport. destruct (disconnect_wf (Client_transport c)) as [Ht Hp]; [apply Hc|].
  destruct (transport_disconnect (Client_transport c)) as [[[| |]| |] t]; cbn in Ht, Hp; try done;
    try apply mark_disconnected_wf; by apply with_transport_wf.
Qed.

Lemma send_disconnect_triple command :
  triple client_wf (send_disconnect_command command) (λ _, client_wf) client_wf.
Proof.
  eapply triple_bind; [apply triple_ensure_connected|]. intros ?.
  eapply triple_bind; [apply send_raw_triple|]. intros ? c [Hc _]. by apply close_transport_triple.
Qed.

Lemma connected_live c : client_wf c → live_client (with_connected true c).
Proof. intros []. split; [by split|done]. Qed.

Lemma start_session_triple fuel : triple client_wf (start_session fuel) (λ _, live_client) client_wf.
Proof.
  intros c Hc%connected_live. unfold start_session.
  assert (triple client_wf (init fuel) (λ _, live_client) client_wf) as Hi
    by (apply request_triple; arm_tac).
  specialize (Hi _ (live_wf _ Hc)). destruct (init fuel (with_connected true c)) as [[] c']; try done.
  - by apply send_event_live.
  - eapply triple_bind; [apply close_transport_triple|intros ?; by apply triple_throw|done].
Qed.

Lemma clear_wf c : client_wf c → client_wf (clear_sync_tracking (clear_tracking c)).
Proof.
  intros []. split; cbn; auto using keyed_empty with mq_wf.
  intros k. rewrite lookup_empty. by intros [].
Qed.

Lemma connect_triple fuel : triple client_wf (connect fuel) (λ _, live_client) client_wf.
Proof.
  intros c Hc%clear_wf. unfold connect. set (c0 := clear_sync_tracking _) in *.
  destruct (connect_wf (Client_transport c0)) as [Ht Hp]; [apply Hc|].
  destruct (transport_connect (Client_transport c0)) as [[[|e|]| |] t]; cbn in Ht, Hp; [| |done|..].
  1: by apply start_session_triple, with_transport_wf.
  all: by apply with_transport_wf.
Qed.

Lemma reconnect_triple fuel : triple client_wf (reconnect fuel) (λ _, live_client) client_wf.
Proof.
  intros c [Hc _]%mark_disconnected_wf. unfold reconnect. set (c0 := mark_disconnected c) in *.
  destruct (reconnect_wf (Client_transport c0)) as [Ht Hp]; [apply Hc|].
  destruct (transport_reconnect (Client_transport c0)) as [[[|e|]| |] t]; cbn in Ht, Hp; [| |done|..].
  1: by apply start_session_triple, with_transport_wf.
  all: by apply with_transport_wf.
Qed.

Lemma poll_disconnect_wf c :
  client_wf c → client_wf (poll_disconnect c).2 ∧ (poll_disconnect c).1 ≠ Ready Crash.
Proof.
  intros Hc. unfold poll_disconnect.
  destruct (disconnect_wf (Client_transport c)) as [Ht Hp]; [apply Hc|].
  destruct (transport_disconnect (Client_transport c)) as [[[|e|]| |] t]; cbn in Ht, Hp |- *; try done;
    (split; [|done]); try apply mark_disconnected_wf; by apply with_transport_wf.
Qed.

Lemma disconnect_triple : triple client_wf disconnect (λ _, client_wf) client_wf.
Proof.
  intros c Hc. unfold disconnect. destruct (poll_disconnect_wf c Hc) as [Hw Hp].
  by destruct (poll_disconnect c) as [[[]| |] c'].
Qed.

Lemma next_event_wf c : client_wf c → client_wf (next_event c).2 ∧ (next_event c).1 ≠ Ready Crash.
Proof.
  intros Hc. unfold next_event. destruct (Client_connected c) eqn:Hconn; [|done].
  pose proof (read_next_packet_spec c (conj Hc Hconn)) as Hr.
  destruct (read_next_packet c) as [[[p| | | |]| |] c']; cbn in *; try done; [|split; [apply Hr|done]..].
  apply (retain_sync_response_live p), (update_tracking_live p) in Hr.
  destruct (Packet_into_event p); cbn; split; try done; [by apply send_event_wf, live_wf|by apply live_wf].
Qed.

(** ** The operations of the client, on arguments of their Rust types *)

Inductive operation (fuel : nat) : ∀ A, io T A → Prop :=
| op_connect : operation fuel _ (connect fuel)
| op_init : operation fuel _ (init fuel)
| op_disconnect : operation fuel _ disconnect
| op_reconnect : operation fuel _ (reconnect fuel)
| op_list_contacts lastmod : operation fuel _ (list_contacts fuel lastmod)
| op_list_contacts_snapshot lastmod : operation fuel _ (list_contacts_snapshot fuel lastmod)
| op_query_device_info : operation fuel _ (query_device_info fuel)
| op_get_time : operation fuel _ (client_get_time fuel)
| op_set_time t : operation fuel _ (client_set_time fuel t)
| op_get_battery : operation fuel _ (client_get_battery fuel)
| op_send_self_advert flood : operation fuel _ (client_send_self_advert fuel flood)
| op_set_advert_name name : is_rstring name → operation fuel _ (client_set_advert_name fuel name)
| op_set_coordinates lat lon : operation fuel _ (client_set_coordinates fuel lat lon)
| op_set_tx_power p : is_sint 8 p → operation fuel _ (client_set_tx_power fuel p)
| op_set_radio_params params : is_uint 32 (RadioParams_frequency_khz params) →
    operation fuel _ (client_set_radio_params fuel params)
| op_set_tuning params : operation fuel _ (client_set_tuning fuel params)
| op_get_tuning : operation fuel _ (client_get_tuning fuel)
| op_reset_path k : is_bytes k → operation fuel _ (client_reset_path fuel k)
| op_update_contact contact : wf_Contact contact → wf_ContactRoute (Contact_route contact) →
    operation fuel _ (client_update_contact fuel contact)
| op_share_contact k : is_bytes k → operation fuel _ (client_share_contact fuel k)
| op_export_contact k : opt_wf is_bytes k → operation fuel _ (client_export_contact fuel k)
| op_import_contact card : is_bytes card → operation fuel _ (client_import_contact fuel card)
| op_get_contact k : is_bytes k → operation fuel _ (client_get_contact fuel k)
| op_get_advert_path k : is_bytes k → operation fuel _ (client_get_advert_path fuel k)
| op_set_auto_add_config config : is_u8 (AutoAddConfig_config config) →
    opt_wf is_u8 (AutoAddConfig_max_hops config) →
    operation fuel _ (client_set_auto_add_config fuel config)
| op_get_auto_add_config : operation fuel _ (client_get_auto_add_config fuel)
| op_get_custom_vars : operation fuel _ (client_get_custom_vars fuel)
| op_set_custom_var k v : is_rstring k → is_rstring v → operation fuel _ (client_set_custom_var fuel k v)
| op_get_stats s : operation fuel _ (client_get_stats fuel s)
| op_get_allowed_repeat_frequencies : operation fuel _ (client_get_allowed_repeat_frequencies fuel)
| op_set_path_hash_mode mode : is_u8 mode → operation fuel _ (client_set_path_hash_mode fuel mode)
| op_get_path_hash_mode : operation fuel _ (client_get_path_hash_mode fuel)
| op_set_flood_scope s : operation fuel _ (client_set_flood_scope fuel s)
| op_set_default_flood_scope name key : is_rstring name → is_arr 16 key →
    operation fuel _ (client_set_default_flood_scope fuel name key)
| op_clear_default_flood_scope : operation fuel _ (client_clear_default_flood_scope fuel)
| op_get_default_flood_scope : operation fuel _ (client_get_default_flood_scope fuel)
| op_get_channel idx : operation fuel _ (client_get_channel fuel idx)
| op_set_channel idx name secret : is_u8 idx → is_rstring name → is_arr 16 secret →
    operation fuel _ (client_set_channel fuel idx name secret)
| op_clear_channel idx : operation fuel _ (client_clear_channel fuel idx)
| op_remove_contact k : is_bytes k → operation fuel _ (client_remove_contact fuel k)
| op_login k password : is_bytes k → is_rstring password → operation fuel _ (login fuel k password)
| op_logout k : is_bytes k → operation fuel _ (client_logout fuel k)
| op_has_connection k : is_bytes k → operation fuel _ (client_has_connection fuel k)
| op_remote_status k : is_bytes k → operation fuel _ (remote_status fuel k)
| op_get_self_telemetry : operation fuel _ (client_get_self_telemetry fuel)
| op_binary_request k t data : is_bytes k → is_u8 t → is_bytes data →
    operation fuel _ (binary_request fuel k t data)
| op_anonymous_request k t route path : is_bytes k → is_u8 t → wf_ContactRoute route → wf_Path path →
    operation fuel _ (anonymous_request fuel k t route path)
| op_send_node_discovery f p tag since : is_u8 f →
    operation fuel _ (client_send_node_discovery fuel f p tag since)
| op_discover_path k : is_bytes k → operation fuel _ (client_discover_path fuel k)
| op_sign data : is_bytes data → operation fuel _ (sign fuel data)
| op_export_private_key : operation fuel _ (client_export_private_key fuel)
| op_import_private_key k : operation fuel _ (client_import_private_key fuel k)
| op_set_device_pin pin : operation fuel _ (client_set_device_pin fuel pin)
| op_reboot : operation fuel _ client_reboot
| op_factory_reset : operation fuel _ client_factory_reset
| op_send_direct_text now prefix attempt text :
    operation fuel _ (client_send_direct_text fuel now prefix attempt text)
| op_send_direct_command now prefix attempt text :
    operation fuel _ (client_send_direct_command fuel now prefix attempt text)
| op_send_channel_message now channel txt_type text :
    operation fuel _ (send_channel_message fuel now channel txt_type text)
| op_sync_next_message : operation fuel _ (client_sync_next_message fuel)
| op_wait_for_ack code timeout : operation fuel _ (wait_for_ack fuel code timeout).

Ltac op_tac :=
  first
    [ solve [auto using connect_triple, reconnect_triple, disconnect_triple, send_command_expect_triple,
        send_command_expect_ok_triple, sync_next_message_triple, wait_for_ack_triple, sign_triple]
    | apply expect_ok_triple, built_no_panic; by constructor
    | apply msg_sent_triple
    | solve [apply request_triple; arm_tac]
    | apply triple_guard; [solve [auto using key_prefix_no_panic, validate_text_no_panic,
        validate_prefix_no_panic | apply built_no_panic; by constructor]|intros ?; op_tac]
    | eapply triple_bind; [apply msg_sent_triple|intros ?; apply wait_for_packet_triple] ].

Lemma operation_live fuel A m :
  operation fuel A m →
  triple client_wf m (λ _ c, client_wf c) client_wf.
Proof.
  assert (∀ A (m : io T A), triple client_wf m (λ _, live_client) client_wf →
    triple client_wf m (λ _ c, client_wf c) client_wf) as Hw.
  { intros B m' Hm. eapply triple_weaken; [exact Hm|done| |done]. intros ? c. apply live_wf. }
  destruct 1; try apply disconnect_triple; try apply send_disconnect_triple; apply Hw; try op_tac.
  - eapply triple_bind; [apply collect_contacts_triple|]. intros ?. by apply triple_ret.
  - eapply triple_bind; [apply collect_contacts_triple|]. intros r.
    destruct (ContactCollection_lastmod r); [by apply triple_ret|apply triple_throw, live_wf].
  - apply (triple_bind _ _ _ (λ _, live_client)); [apply request_triple; arm_tac|]. intros info.
    apply triple_lift; [by destruct (DeviceInfo_path_hash_mode info)|auto|apply live_wf].
  - eapply triple_bind; [apply triple_ensure_connected|]. intros ?.
    apply (triple_bind _ _ _ (λ _, live_client)).
    + apply triple_lift; [apply built_no_panic; by constructor|auto|apply live_wf].
    + intros ?. eapply triple_bind; [apply send_raw_triple|]. intros ?. apply reply_loop_triple. arm_tac.
Qed.

(** One step of a client: an operation, or reading the next event. *)
Inductive client_step : Client T → Client T → Prop :=
| step_operation fuel A (m : io T A) c : operation fuel A m → client_step c (m c).2
| step_next_event c : client_step c (next_event c).2.

Lemma triple_state {A} (m : io T A) c :
  triple client_wf m (λ _ c, client_wf c) client_wf → client_wf c → client_wf (m c).2 ∧ (m c).1 ≠ Crash.
Proof. intros Hm Hc. specialize (Hm c Hc). by destruct (m c) as [[] c']. Qed.

Lemma client_step_wf c c' : client_step c c' → client_wf c → client_wf c'.
Proof.
  destruct 1 as [fuel A m c Ho|c]; intros Hc.
  - by apply triple_state; [eapply operation_live|].
  - by apply next_event_wf.
Qed.

Lemma client_reachable_wf c c' : rtc client_step c c' → client_wf c → client_wf c'.
Proof. induction 1; eauto using client_step_wf. Qed.

Lemma client_new_wf t timeout : transport_wf t → client_wf (with_valid_timeout t timeout).
Proof.
  intros Ht. split; cbn; auto using keyed_empty with mq_wf; [|lia].
  intros k. rewrite lookup_empty. by intros [].
Qed.

(** ** What is handed to the transport *)

Definition sent c : list bytes := transport_sent (Client_transport c).

(** [quiet m]: [m] writes nothing. *)
Definition quiet {A} (m : io T A) : Prop := ∀ c, sent (m c).2 = sent c.

Lemma mark_disconnected_transport c : Client_transport (mark_disconnected c) = Client_transport c.
Proof. unfold mark_disconnected. by case_match. Qed.

Lemma retain_transport p c : Client_transport (retain_sync_response p c) = Client_transport c.
Proof. unfold retain_sync_response. by repeat case_match. Qed.

Lemma publish_event_transport p c : Client_transport (publish_event p c) = Client_transport c.
Proof.
  unfold publish_event. rewrite <- (retain_transport p c). by destruct (Packet_into_event p).
Qed.

Lemma update_tracking_transport p c : Client_transport (update_tracking p c) = Client_transport c.
Proof. destruct p; try done. cbn. unfold take_pending_ack. by destruct (tracker_take _ _) as [[]]. Qed.

Lemma absorb_transport p c : Client_transport (absorb p c) = Client_transport c.
Proof. unfold absorb. by rewrite update_tracking_transport, publish_event_transport. Qed.

Lemma quiet_bind {A B} (m : io T A) (f : A → io T B) :
  quiet m → (∀ a, quiet (f a)) → quiet (m ≫= f).
Proof.
  intros Hm Hf c. specialize (Hm c). unfold mbind, io_bind.
  destruct (m c) as [[a| | | |] c']; try done. by rewrite Hf.
Qed.

Lemma quiet_ret {A} (a : A) : quiet (mret a).
Proof. by intros c. Qed.
Lemma quiet_throw {A} e : quiet (throw e : io T A).
Proof. by intros c. Qed.
Lemma quiet_stuck {A} : quiet (stuck : io T A).
Proof. by intros c. Qed.
Lemma quiet_lift {A} (m : outcome CoreError A) : quiet (lift m).
Proof. by intros c. Qed.
Lemma quiet_modify f : (∀ c, Client_transport (f c) = Client_transport c) → quiet (modify f).
Proof. intros Hf c. unfold sent. cbn. by rewrite Hf. Qed.
Lemma quiet_absorb p : quiet (modify (absorb p)).
Proof. apply quiet_modify, absorb_transport. Qed.
Lemma quiet_publish p : quiet (modify (publish_event p)).
Proof. apply quiet_modify, publish_event_transport. Qed.

Lemma parse_packet_transport raw c : Client_transport (parse_packet raw c).2 = Client_transport c.
Proof. unfold parse_packet. by repeat case_match. Qed.

Lemma read_next_packet_sent c : sent (read_next_packet c).2 = sent c.
Proof.
  unfold read_next_packet, sent. pose proof (read_sent (Client_transport c)) as Hs.
  destruct (transport_read (Client_transport c)) as [r t]. cbn in Hs. rewrite <- Hs.
  destruct r as [[[raw|]|e|]| |]; cbn [snd]; try done.
  - pose proof (parse_packet_transport raw (with_transport t c)) as Hp.
    destruct (parse_packet raw (with_transport t c)) as [r c1]. cbn in *. by rewrite Hp.
  - by rewrite mark_disconnected_transport.
  - case_match; [by rewrite mark_disconnected_transport|done].
Qed.

Lemma quiet_read : quiet read_next_packet_with_timeout.
Proof.
  intros c. rewrite <- (read_next_packet_sent c). unfold read_next_packet_with_timeout.
  by destruct (read_next_packet c) as [[[]| |] c'].
Qed.

Lemma quiet_reply_loop {R} fuel (arm : Packet → option (io T R)) :
  (∀ p answer, arm p = Some answer → quiet answer) → quiet (reply_loop fuel arm).
Proof.
  intros Ha. induction fuel as [|fuel IH]; cbn [reply_loop]; [apply quiet_stuck|].
  apply quiet_bind; [apply quiet_read|]. intros p. destruct (arm p) as [answer|] eqn:E; [by eapply Ha|].
  apply quiet_bind; [apply quiet_absorb|done].
Qed.

(** A write either hands over its payload, of 1 to 176 bytes, or nothing. *)
Lemma write_raw_sent p c :
  match write_raw p c with
  | (Ret _, c') => sent c' = sent c ++ [p] ∧ 1 ≤ length p ≤ MAX_INNER_PAYLOAD
  | (_, c') => sent c' = sent c
  end.
Proof.
  unfold write_raw. case_bool_decide as Hp; [done|].
  destruct (Nat.ltb_spec MAX_INNER_PAYLOAD (length p)); [done|]. unfold sent.
  pose proof (write_sent (Client_transport c) p) as Hs.
  destruct (transport_write (Client_transport c) p) as [[[|e|]| |] t]; cbn in Hs; try done.
  - split; [done|]. destruct p; [done|]. cbn in *. lia.
  - case_match; [rewrite mark_disconnected_transport|]; done.
Qed.

Lemma send_raw_sent p c :
  match send_raw p c with
  | (Ret _, c') => sent c' = sent c ++ [p] ∧ 1 ≤ length p ≤ MAX_INNER_PAYLOAD
  | (_, c') => sent c' = sent c
  end.
Proof. unfold send_raw. case_bool_decide; [done|]. apply write_raw_sent. Qed.

(** ** Commands of one packet *)

(** The shape of an operation that checks the connection, writes [command] and
    then only reads. *)
Definition one_command {A} (m : io T A) (command : Command) : Prop :=
  ∃ rest : io T A, quiet rest ∧
  ∀ c, m c = (_ ← ensure_connected; _ ← send_raw (Command_encode command); rest) c.

Lemma one_command_request {R} fuel command (arm : Packet → option (io T R)) :
  (∀ p answer, arm p = Some answer → quiet answer) → one_command (request fuel command arm) command.
Proof. intros Ha. eexists. split; [by apply quiet_reply_loop|]. done. Qed.

Lemma one_command_bind {A B} (m : io T A) (f : A → io T B) command :
  one_command m command → (∀ a, quiet (f a)) → one_command (m ≫= f) command.
Proof.
  intros (rest&Hq&Hm) Hf. exists (rest ≫= f). split; [by apply quiet_bind|]. intros c.
  unfold mbind, io_bind. rewrite Hm. unfold mbind, io_bind.
  destruct (ensure_connected c) as [[[]| | | |] c1]; try done.
  by destruct (send_raw _ c1) as [[[]| | | |] c2].
Qed.

Lemma one_command_lift {A B} (m : outcome CoreError A) a (f : A → io T B) command :
  m = Ok a → one_command (f a) command → one_command (lift m ≫= f) command.
Proof. intros -> (rest&Hq&Hf). exists rest. split; [done|]. intros c. by rewrite <- Hf. Qed.

Lemma one_command_lift_all {B} (m : outcome CoreError Command) cmd (f : Command → io T B) :
  m = Ok cmd → (∀ cmd, one_command (f cmd) cmd) → one_command (lift m ≫= f) cmd.
Proof. intros Hm Hf. by eapply one_command_lift. Qed.

(** The operations of one command, with the command each writes. *)
Inductive sends (fuel : nat) : ∀ A, io T A → Command → Prop :=
| sends_init : sends fuel _ (init fuel) app_start
| sends_list_contacts l : sends fuel _ (list_contacts fuel l) (get_contacts l)
| sends_list_contacts_snapshot l : sends fuel _ (list_contacts_snapshot fuel l) (get_contacts l)
| sends_query_device_info : sends fuel _ (query_device_info fuel) device_query
| sends_get_path_hash_mode : sends fuel _ (client_get_path_hash_mode fuel) device_query
| sends_get_time : sends fuel _ (client_get_time fuel) get_time
| sends_set_time t : sends fuel _ (client_set_time fuel t) (set_time t)
| sends_get_battery : sends fuel _ (client_get_battery fuel) get_battery
| sends_self_advert b : sends fuel _ (client_send_self_advert fuel b) (send_self_advert b)
| sends_set_advert_name n cmd : set_advert_name n = Ok cmd →
    sends fuel _ (client_set_advert_name fuel n) cmd
| sends_set_coordinates lat lon cmd : set_coordinates lat lon = Ok cmd →
    sends fuel _ (client_set_coordinates fuel lat lon) cmd
| sends_set_tx_power p cmd : set_tx_power p = Ok cmd → sends fuel _ (client_set_tx_power fuel p) cmd
| sends_set_radio_params p cmd : set_radio_params p = Ok cmd →
    sends fuel _ (client_set_radio_params fuel p) cmd
| sends_set_tuning p : sends fuel _ (client_set_tuning fuel p) (set_tuning p)
| sends_get_tuning : sends fuel _ (client_get_tuning fuel) get_tuning
| sends_reset_path k cmd : reset_path k = Ok cmd → sends fuel _ (client_reset_path fuel k) cmd
| sends_update_contact contact cmd : update_contact contact = Ok cmd →
    sends fuel _ (client_update_contact fuel contact) cmd
| sends_share_contact k cmd : share_contact k = Ok cmd → sends fuel _ (client_share_contact fuel k) cmd
| sends_export_contact k cmd : export_contact k = Ok cmd →
    sends fuel _ (client_export_contact fuel k) cmd
| sends_import_contact k cmd : import_contact k = Ok cmd →
    sends fuel _ (client_import_contact fuel k) cmd
| sends_get_contact k cmd : get_contact k = Ok cmd → sends fuel _ (client_get_contact fuel k) cmd
| sends_get_advert_path k cmd : get_advert_path k = Ok cmd →
    sends fuel _ (client_get_advert_path fuel k) cmd
| sends_remove_contact k cmd : remove_contact k = Ok cmd →
    sends fuel _ (client_remove_contact fuel k) cmd
| sends_set_auto_add_config a cmd : set_auto_add_config a = Ok cmd →
    sends fuel _ (client_set_auto_add_config fuel a) cmd
| sends_get_auto_add_config : sends fuel _ (client_get_auto_add_config fuel) get_auto_add_config
| sends_get_custom_vars : sends fuel _ (client_get_custom_vars fuel) get_custom_vars
| sends_set_custom_var k v cmd : set_custom_var k v = Ok cmd →
    sends fuel _ (client_set_custom_var fuel k v) cmd
| sends_get_stats s : sends fuel _ (client_get_stats fuel s) (get_stats s)
| sends_get_allowed : sends fuel _ (client_get_allowed_repeat_frequencies fuel)
    get_allowed_repeat_frequencies
| sends_set_path_hash_mode n cmd : set_path_hash_mode n = Ok cmd →
    sends fuel _ (client_set_path_hash_mode fuel n) cmd
| sends_set_flood_scope s : sends fuel _ (client_set_flood_scope fuel s) (set_flood_scope s)
| sends_set_default_flood_scope n k cmd : set_default_flood_scope n k = Ok cmd →
    sends fuel _ (client_set_default_flood_scope fuel n k) cmd
| sends_clear_default_flood_scope :
    sends fuel _ (client_clear_default_flood_scope fuel) clear_default_flood_scope
| sends_get_default_flood_scope :
    sends fuel _ (client_get_default_flood_scope fuel) get_default_flood_scope
| sends_get_channel i : sends fuel _ (client_get_channel fuel i) (get_channel i)
| sends_set_channel i n s cmd : set_channel i n s = Ok cmd →
    sends fuel _ (client_set_channel fuel i n s) cmd
| sends_clear_channel i : sends fuel _ (client_clear_channel fuel i) (clear_channel i)
| sends_login k pw pre cmd : key_prefix k = Ok pre → send_login k pw = Ok cmd →
    sends fuel _ (login fuel k pw) cmd
| sends_logout k cmd : logout k = Ok cmd → sends fuel _ (client_logout fuel k) cmd
| sends_has_connection k cmd : has_connection k = Ok cmd →
    sends fuel _ (client_has_connection fuel k) cmd
| sends_remote_status k pre cmd : key_prefix k = Ok pre → send_status_request k = Ok cmd →
    sends fuel _ (remote_status fuel k) cmd
| sends_get_self_telemetry : sends fuel _ (client_get_self_telemetry fuel) get_self_telemetry
| sends_binary_request k t d cmd : send_binary_request k t d = Ok cmd →
    sends fuel _ (binary_request fuel k t d) cmd
| sends_anonymous_request k t r p cmd : send_anonymous_request k t r p = Ok cmd →
    sends fuel _ (anonymous_request fuel k t r p) cmd
| sends_node_discovery f p t s cmd : send_node_discovery f p t s = Ok cmd →
    sends fuel _ (client_send_node_discovery fuel f p t s) cmd
| sends_discover_path k pre cmd : key_prefix k = Ok pre → discover_path k = Ok cmd →
    sends fuel _ (client_discover_path fuel k) cmd
| sends_export_private_key : sends fuel _ (client_export_private_key fuel) export_private_key
| sends_import_private_key k : sends fuel _ (client_import_private_key fuel k) (import_private_key k)
| sends_set_device_pin p cmd : set_device_pin p = Ok cmd → sends fuel _ (client_set_device_pin fuel p) cmd
| sends_reboot : sends fuel _ client_reboot reboot
| sends_factory_reset : sends fuel _ client_factory_reset factory_reset
| sends_direct_text now d a t : validate_destination_prefix d = Ok () →
    validate_text t (MAX_INNER_PAYLOAD - 13) "text" = Ok () →
    sends fuel _ (client_send_direct_text fuel now d a t)
      (send_direct_text d (wire_timestamp now) a t)
| sends_direct_command now d a t : validate_destination_prefix d = Ok () →
    validate_text t (MAX_INNER_PAYLOAD - 13) "command" = Ok () →
    sends fuel _ (client_send_direct_command fuel now d a t)
      (send_direct_command d (wire_timestamp now) a t)
| sends_channel_message now ch ty t : validate_text t (MAX_INNER_PAYLOAD - 7) "text" = Ok () →
    sends fuel _ (send_channel_message fuel now ch ty t)
      (send_channel ch ty (wire_timestamp now) t).

Ltac quiet_answer :=
  first
    [ apply quiet_ret | apply quiet_throw
    | apply quiet_bind;
        [first [apply quiet_publish | apply quiet_modify; intros ?; solve [done | by case_match]]
        |intros ?; quiet_answer] ].

Ltac quiet_arm :=
  let p := fresh "p" in let answer := fresh "answer" in let Ha := fresh "Ha" in
  intros p answer Ha;
  unfold ok_arm, expect_arm, msg_sent_arm, wait_arm, device_rejected, feature_disabled in Ha;
  repeat case_match; simplify_eq; quiet_answer.

Ltac one_command_tac :=
  first
    [ apply one_command_request; quiet_arm
    | eapply one_command_lift; [eassumption|]; one_command_tac
    | apply one_command_bind; [one_command_tac|intros ?; apply quiet_reply_loop; quiet_arm] ].

Lemma one_command_expect {R} fuel command context (extract : Packet → option R) :
  one_command (send_command_expect fuel command context extract) command.
Proof. apply one_command_request. quiet_arm. Qed.

Lemma one_command_expect_ok fuel m cmd : m = Ok cmd → one_command (expect_ok fuel m) cmd.
Proof. intros Hm. eapply one_command_lift; [exact Hm|]. apply one_command_request. quiet_arm. Qed.

Lemma quiet_collect_loop fuel cs : quiet (collect_contacts_loop fuel cs).
Proof.
  revert cs. induction fuel as [|fuel IH]; intros cs; cbn [collect_contacts_loop]; [apply quiet_stuck|].
  apply quiet_bind; [apply quiet_read|]. intros p.
  destruct p; first [apply IH|quiet_answer|apply quiet_bind; [apply quiet_absorb|intros ?; apply IH]].
Qed.

Lemma one_command_collect fuel l : one_command (collect_contacts fuel l) (get_contacts l).
Proof. eexists. split; [apply quiet_collect_loop|]. done. Qed.

Lemma quiet_close : quiet close_transport.
Proof.
  intros c. unfold close_transport, sent. pose proof (disconnect_sent (Client_transport c)) as Hd.
  destruct (transport_disconnect (Client_transport c)) as [[[]| |] t]; cbn in *;
    by rewrite ?mark_disconnected_transport.
Qed.

Lemma one_command_disconnect command : one_command (send_disconnect_command command) command.
Proof.
  exists close_transport. split; [apply quiet_close|done].
Qed.

Lemma sends_one_command fuel A m cmd : sends fuel A m cmd → one_command m cmd.
Proof.
  destruct 1; try one_command_tac; try apply one_command_disconnect.
  - apply one_command_bind; [apply one_command_collect|intros ?; apply quiet_ret].
  - apply one_command_bind; [apply one_command_collect|]. intros r.
    destruct (ContactCollection_lastmod r); [apply quiet_ret|apply quiet_throw].
  - apply one_command_bind; [one_command_tac|intros ?; apply quiet_lift].
  - match goal with Hc : has_connection _ = _ |- _ => rename Hc into Hcmd end.
    eexists. split.
    2:{ intros c. unfold client_has_connection. rewrite Hcmd. unfold mbind, io_bind.
        destruct (ensure_connected c) as [[[]| | | |] c1]; reflexivity. }
    apply quiet_reply_loop. quiet_arm.
Qed.

(** ** Operations that write nothing *)

Lemma quiet_ensure_connected : quiet ensure_connected.
Proof. intros c. unfold ensure_connected. by case_match. Qed.

Lemma quiet_ack_loop fuel code : quiet (ack_loop fuel code).
Proof.
  induction fuel as [|fuel IH]; cbn [ack_loop]; [apply quiet_stuck|].
  apply quiet_bind; [apply quiet_read|]. intros p.
  destruct p; try (apply quiet_bind; [apply quiet_publish|intros ?; apply IH]); try quiet_answer.
  case_bool_decide; (apply quiet_bind; [|intros ?]);
    [|apply quiet_ret|apply quiet_absorb|apply IH].
  apply quiet_modify. intros c. by rewrite publish_event_transport.
Qed.

Lemma quiet_wait_for_ack fuel code timeout : quiet (wait_for_ack fuel code timeout).
Proof.
  apply quiet_bind; [apply quiet_lift|]. intros ?.
  apply quiet_bind; [apply quiet_ensure_connected|]. intros ? c. unfold take_or_wait_for_ack.
  assert (sent (take_completed_ack code c).2 = sent c) as Ht
    by (unfold take_completed_ack; by destruct (tracker_take _ _)).
  destruct (take_completed_ack code c) as [[ack|] c1]; [done|]. cbn in Ht. rewrite <- Ht.
  rewrite <- (quiet_ack_loop fuel code c1). by destruct (ack_loop fuel code c1) as [[] c2].
Qed.

Lemma quiet_wait_for_sync fuel : quiet (wait_for_sync_response fuel).
Proof.
  apply quiet_reply_loop. intros p answer Ha. unfold sync_arm in Ha.
  destruct p; simplify_eq; (apply quiet_bind; [|intros ?; quiet_answer]); apply quiet_modify; intros c;
    by rewrite ?publish_event_transport.
Qed.

Lemma quiet_drain_packet raw next : quiet next → quiet (drain_packet raw next).
Proof.
  intros Hn. apply quiet_bind; [intros c; unfold sent; by rewrite parse_packet_transport|].
  intros p. destruct p; (apply quiet_bind; [apply quiet_modify; intros c;
    by rewrite ?publish_event_transport, ?absorb_transport|intros ?; first [exact Hn|apply quiet_ret]]).
Qed.

Lemma quiet_drain n : quiet (drain_loop n).
Proof.
  induction n as [|n IH]; intros c; cbn [drain_loop];
    pose proof (try_read_sent (Client_transport c)) as Hs;
    destruct (transport_try_read (Client_transport c)) as [r t]; cbn in Hs;
    (assert (sent (with_transport t c) = sent c) as Hc by done);
    (destruct r as [[| |raw]|e|]; cbn [snd]; try done;
     [unfold sent; rewrite mark_disconnected_transport; done| |
      case_match; [unfold sent; rewrite mark_disconnected_transport|]; done]);
    rewrite <- Hc; apply quiet_drain_packet; [apply quiet_throw|apply IH].
Qed.

Lemma poll_disconnect_sent c : sent (poll_disconnect c).2 = sent c.
Proof.
  unfold poll_disconnect, sent. pose proof (disconnect_sent (Client_transport c)) as Hd.
  destruct (transport_disconnect (Client_transport c)) as [[[]| |] t]; cbn in *;
    by rewrite ?mark_disconnected_transport.
Qed.

Lemma quiet_disconnect : quiet disconnect.
Proof.
  intros c. rewrite <- (poll_disconnect_sent c). unfold disconnect.
  by destruct (poll_disconnect c) as [[] c'].
Qed.
End client_facts.
