(* ===== verification/ClientTransport.v ===== *)
(** * What the client operations do to the transport

    A predicate on the transport that every call of the transport keeps is kept
    by every operation of the client.  [I] holds between calls; [K] is what is
    left when an operation is cancelled outside a write, [J] when it is cancelled,
    perhaps inside a write, and [X] when it panics.  The packets handed over, the
    state of the wire and the absence of cancellations are instances. *)

From S2P Require Import Prelude Text Floats Domain Samples Packet PacketFacts Transport Framed Tracker Command.
From S2P Require Import CommandFacts Client ClientFacts.

Definition wire_packet (p : bytes) : Prop := 1 ≤ length p ≤ MAX_INNER_PAYLOAD.

Record kept_by_calls `{Transport T} (I K J X : T → Prop) : Prop := {
  kept_crash t : I t → X t;
  kept_cancelled t : K t → J t;
  kept_connect t : I t →
    match transport_connect t with (Ready _, t') => I t' | (_, t') => K t' end;
  kept_disconnect t : I t →
    match transport_disconnect t with (Ready _, t') => I t' | (_, t') => K t' end;
  kept_reconnect t : I t →
    match transport_reconnect t with (Ready _, t') => I t' | (_, t') => K t' end;
  kept_read t : I t →
    match transport_read t with (Dropped, t') => K t' | (_, t') => I t' end;
  kept_try_read t : I t → I (transport_try_read t).2;
  kept_write t p : wire_packet p → I t →
    match transport_write t p with (Ready _, t') => I t' | (_, t') => J t' end
}.

Section carries.
  Context `{CratesLaws} {T : Type} `{Transport T}.
  Context (I K J X : T → Prop) (HI : kept_by_calls I K J X).
  Implicit Types c : Client T.

(** [ends Y m]: [m] keeps [I], and leaves [Y] when it is cancelled.  An operation
    that does not write [keeps] the transport, any operation [carries] it. *)
Definition ends (Y : T → Prop) {A} (m : io T A) : Prop :=
  ∀ c, I (Client_transport c) →
  match m c with
  | (Crash, c') => X (Client_transport c')
  | (Cancelled, c') => Y (Client_transport c')
  | (_, c') => I (Client_transport c')
  end.
Abbreviation keeps := (ends K).
Abbreviation carries := (ends J).

Lemma keeps_carries {A} (m : io T A) : keeps m → carries m.
Proof.
  intros Hm c Hc. specialize (Hm c Hc). pose proof (kept_cancelled _ _ _ _ HI).
  destruct (m c) as [[] c']; cbn in *; auto.
Qed.

Lemma ends_bind Y {A B} (m : io T A) (f : A → io T B) :
  ends Y m → (∀ a, ends Y (f a)) → ends Y (m ≫= f).
Proof.
  intros Hm Hf c Hc. specialize (Hm c Hc). unfold mbind, io_bind.
  destruct (m c) as [[a| | | |] c']; try done. by apply Hf.
Qed.
Abbreviation keeps_bind := (ends_bind K) (only parsing).
Abbreviation carries_bind := (ends_bind J) (only parsing).

Lemma keeps_same {A} (m : io T A) :
  (∀ c, Client_transport (m c).2 = Client_transport c ∧ (m c).1 ≠ Cancelled) → keeps m.
Proof.
  intros Hm c Hc. destruct (Hm c) as [Ht Hr]. pose proof (kept_crash _ _ _ _ HI).
  destruct (m c) as [[] c']; cbn in *; rewrite ?Ht; auto. done.
Qed.
Lemma keeps_ret {A} (a : A) : keeps (mret a).
Proof. by apply keeps_same. Qed.
Lemma keeps_throw {A} e : keeps (throw e : io T A).
Proof. by apply keeps_same. Qed.
Lemma keeps_stuck {A} : keeps (stuck : io T A).
Proof. by apply keeps_same. Qed.
Lemma keeps_lift {A} (m : outcome CoreError A) : keeps (lift m).
Proof. apply keeps_same. intros c. by destruct m. Qed.
Lemma keeps_gets {A} (f : Client T → A) : keeps (gets f).
Proof. by apply keeps_same. Qed.
Lemma keeps_modify f : (∀ c, Client_transport (f c) = Client_transport c) → keeps (modify f).
Proof. intros Hf. apply keeps_same. intros c. split; [apply Hf|done]. Qed.
Lemma keeps_absorb p : keeps (modify (absorb p)).
Proof. apply keeps_modify, absorb_transport. Qed.
Lemma keeps_ensure : keeps ensure_connected.
Proof. apply keeps_same. intros c. unfold ensure_connected. by case_match. Qed.
Lemma keeps_parse raw : keeps (parse_packet raw).
Proof.
  apply keeps_same. intros c. split; [apply parse_packet_transport|].
  unfold parse_packet. by repeat case_match.
Qed.

Lemma kept_read_next_packet c :
  I (Client_transport c) →
  match read_next_packet c with
  | (Ready Crash, c') => X (Client_transport c')
  | (Dropped, c') | (Ready Cancelled, c') => K (Client_transport c')
  | (_, c') => I (Client_transport c')
  end.
Proof.
  intros Hc%(kept_read _ _ _ _ HI). unfold read_next_packet. pose proof (kept_crash _ _ _ _ HI).
  destruct (transport_read (Client_transport c)) as [r t].
  destruct r as [[[raw|]|e|]| |]; cbn; auto.
  - pose proof (keeps_parse raw (with_transport t c) Hc) as Hp.
    by destruct (parse_packet raw (with_transport t c)) as [[] c1].
  - by rewrite mark_disconnected_transport.
  - case_match; by rewrite ?mark_disconnected_transport.
Qed.

Lemma keeps_read : keeps read_next_packet_with_timeout.
Proof.
  intros c Hc%kept_read_next_packet. unfold read_next_packet_with_timeout.
  by destruct (read_next_packet c) as [[[]| |] c'].
Qed.

Lemma kept_next_event c :
  I (Client_transport c) →
  match next_event c with
  | (Ready Crash, c') => X (Client_transport c')
  | (Dropped, c') | (Ready Cancelled, c') => K (Client_transport c')
  | (_, c') => I (Client_transport c')
  end.
Proof.
  intros Hc. unfold next_event. destruct (Client_connected c); [|done].
  apply kept_read_next_packet in Hc. destruct (read_next_packet c) as [[[p| | | |]| |] c1]; try done.
  destruct (Packet_into_event p); cbn; by rewrite update_tracking_transport, retain_transport.
Qed.

Lemma keeps_reply_loop {R} fuel (arm : Packet → option (io T R)) :
  (∀ p answer, arm p = Some answer → keeps answer) → keeps (reply_loop fuel arm).
Proof.
  intros Ha. induction fuel as [|fuel IH]; cbn [reply_loop]; [apply keeps_stuck|].
  apply keeps_bind; [apply keeps_read|]. intros p. destruct (arm p) as [answer|] eqn:E; [by eapply Ha|].
  apply keeps_bind; [apply keeps_absorb|done].
Qed.

Lemma carries_write p : carries (write_raw p).
Proof.
  intros c Hc. unfold write_raw. case_bool_decide as Hp; [done|].
  destruct (Nat.ltb_spec MAX_INNER_PAYLOAD (length p)); [done|].
  assert (wire_packet p) as Hw by (split; [destruct p; [done|cbn; lia]|lia]).
  pose proof (kept_write _ _ _ _ HI _ _ Hw Hc) as Ht. pose proof (kept_crash _ _ _ _ HI).
  destruct (transport_write (Client_transport c) p) as [[[|e|]| |] t]; cbn; auto.
  by case_match; rewrite ?mark_disconnected_transport.
Qed.

Lemma carries_send p : carries (send_raw p).
Proof. intros c Hc. unfold send_raw. case_bool_decide; [done|]. by apply carries_write. Qed.

Lemma carries_request {R} fuel command (arm : Packet → option (io T R)) :
  (∀ p answer, arm p = Some answer → keeps answer) → carries (request fuel command arm).
Proof.
  intros Ha. apply carries_bind; [apply keeps_carries, keeps_ensure|]. intros ?.
  apply carries_bind; [apply carries_send|]. intros ?. by apply keeps_carries, keeps_reply_loop.
Qed.

Lemma keeps_close : keeps close_transport.
Proof.
  intros c Hc%(kept_disconnect _ _ _ _ HI). unfold close_transport. pose proof (kept_crash _ _ _ _ HI).
  destruct (transport_disconnect (Client_transport c)) as [[[]| |] t]; cbn in *;
    rewrite ?mark_disconnected_transport; auto.
Qed.

Lemma kept_poll_disconnect c :
  I (Client_transport c) →
  match poll_disconnect c with
  | (Ready Crash, c') => X (Client_transport c')
  | (Ready _, c') => I (Client_transport c')
  | (_, c') => K (Client_transport c')
  end.
Proof.
  intros Hc%(kept_disconnect _ _ _ _ HI). unfold poll_disconnect. pose proof (kept_crash _ _ _ _ HI).
  destruct (transport_disconnect (Client_transport c)) as [[[]| |] t]; cbn in *;
    rewrite ?mark_disconnected_transport; auto.
Qed.

Lemma keeps_disconnect : keeps disconnect.
Proof.
  intros c Hc. unfold disconnect. pose proof (kept_poll_disconnect c Hc) as Hp.
  assert ((poll_disconnect c).1 ≠ Ready Cancelled) as Hn
    by (unfold poll_disconnect; by repeat case_match).
  by destruct (poll_disconnect c) as [[[]| |] c'].
Qed.

Ltac keeps_answer :=
  first
    [ apply keeps_ret | apply keeps_throw
    | apply keeps_bind;
        [apply keeps_modify; intros ?; solve [done | by rewrite ?publish_event_transport | by case_match]
        |intros ?; keeps_answer] ].

Ltac keeps_arm :=
  let p := fresh "p" in let answer := fresh "answer" in let Ha := fresh "Ha" in
  intros p answer Ha;
  unfold ok_arm, expect_arm, msg_sent_arm, wait_arm, sync_arm, device_rejected, feature_disabled in Ha;
  repeat case_match; simplify_eq; keeps_answer.

Lemma keeps_collect_loop fuel cs : keeps (collect_contacts_loop fuel cs).
Proof.
  revert cs. induction fuel as [|fuel IH]; intros cs; cbn [collect_contacts_loop]; [apply keeps_stuck|].
  apply keeps_bind; [apply keeps_read|]. intros p.
  destruct p; first [apply IH|keeps_answer|apply keeps_bind; [apply keeps_absorb|intros ?; apply IH]].
Qed.

Lemma carries_collect fuel l : carries (collect_contacts fuel l).
Proof.
  apply carries_bind; [apply keeps_carries, keeps_ensure|]. intros ?.
  apply carries_bind; [apply carries_send|]. intros ?. apply keeps_carries, keeps_collect_loop.
Qed.

Lemma carries_init fuel : carries (init fuel).
Proof. apply carries_request. keeps_arm. Qed.

Lemma carries_start fuel : carries (start_session fuel).
Proof.
  intros c Hc. unfold start_session. pose proof (carries_init fuel (with_connected true c) Hc) as Hi.
  destruct (init fuel (with_connected true c)) as [[] c']; try done.
  apply (keeps_carries (_ ← close_transport; throw e)); [|done].
  apply keeps_bind; [apply keeps_close|intros ?; apply keeps_throw].
Qed.

Lemma carries_opened fuel (r : polled (tresult ())) t c :
  match r with Ready _ => I t | _ => K t end →
  match
    match r with
    | Ready (Ok _) => start_session fuel (with_transport t c)
    | Ready (Err e) => (Throw (CoreError_Transport e), with_transport t c)
    | Ready Panic => (Crash, with_transport t c)
    | Pending | Dropped => (Cancelled, with_transport t c)
    end
  with
  | (Crash, c') => X (Client_transport c')
  | (Cancelled, c') => J (Client_transport c')
  | (_, c') => I (Client_transport c')
  end.
Proof.
  intros Ht. pose proof (kept_crash _ _ _ _ HI). pose proof (kept_cancelled _ _ _ _ HI).
  destruct r as [[|e|]| |]; cbn; auto. by apply carries_start.
Qed.

Lemma carries_connect fuel : carries (connect fuel).
Proof.
  intros c Hc%(kept_connect _ _ _ _ HI). unfold connect.
  cbn [Client_transport clear_sync_tracking clear_tracking with_sync with_completed with_pending].
  destruct (transport_connect (Client_transport c)) as [r t]. by apply carries_opened; destruct r.
Qed.

Lemma carries_reconnect fuel : carries (reconnect fuel).
Proof.
  intros c Hc%(kept_reconnect _ _ _ _ HI). unfold reconnect. rewrite mark_disconnected_transport.
  destruct (transport_reconnect (Client_transport c)) as [r t]. by apply carries_opened; destruct r.
Qed.

Lemma carries_expect_ok fuel m : carries (expect_ok fuel m).
Proof.
  apply carries_bind; [apply keeps_carries, keeps_lift|]. intros cmd. apply carries_request. keeps_arm.
Qed.

Lemma carries_sign fuel data : carries (sign fuel data).
Proof.
  apply carries_bind; [apply carries_request; keeps_arm|]. intros n.
  case_match; [apply keeps_carries, keeps_throw|].
  apply carries_bind; [|intros ?; apply carries_request; keeps_arm].
  generalize (chunks SIGNING_CHUNK_BYTES data) as cs. induction cs as [|x cs IH]; cbn [sign_chunks].
  - apply keeps_carries, keeps_ret.
  - apply carries_bind; [apply carries_expect_ok|done].
Qed.

Lemma keeps_drain_packet raw next : keeps next → keeps (drain_packet raw next).
Proof.
  intros Hn. apply keeps_bind; [apply keeps_parse|]. intros p.
  destruct p; (apply keeps_bind; [apply keeps_modify; intros c;
    by rewrite ?publish_event_transport, ?absorb_transport|intros ?; first [exact Hn|apply keeps_ret]]).
Qed.

Lemma keeps_drain n : keeps (drain_loop n).
Proof.
  induction n as [|n IH]; intros c Hc%(kept_try_read _ _ _ _ HI); cbn [drain_loop];
    pose proof (kept_crash _ _ _ _ HI);
    destruct (transport_try_read (Client_transport c)) as [[[| |raw]|e|] t]; cbn in Hc |- *; auto;
    try (by rewrite mark_disconnected_transport);
    try (by case_match; rewrite ?mark_disconnected_transport);
    (apply keeps_drain_packet; [first [exact IH|apply keeps_throw]|done]).
Qed.

Lemma carries_sync fuel : carries (client_sync_next_message fuel).
Proof.
  assert (carries (wait_for_sync_response fuel)) as Hw
    by (apply keeps_carries, keeps_reply_loop; keeps_arm).
  apply carries_bind; [apply keeps_carries, keeps_ensure|]. intros ?.
  apply carries_bind; [apply keeps_carries, keeps_gets|]. intros [ready|].
  { apply keeps_carries, keeps_bind; [by apply keeps_modify|intros ?; apply keeps_lift]. }
  apply carries_bind; [apply keeps_carries, keeps_drain|]. intros [ready|].
  { apply keeps_carries, keeps_lift. }
  apply carries_bind; [apply keeps_carries, keeps_gets|]. intros st. case_bool_decide; [done|].
  apply carries_bind; [by apply keeps_carries, keeps_modify|]. intros ?.
  by apply carries_bind; [apply carries_write|].
Qed.

Lemma keeps_ack_loop fuel code : keeps (ack_loop fuel code).
Proof.
  induction fuel as [|fuel IH]; cbn [ack_loop]; [apply keeps_stuck|].
  apply keeps_bind; [apply keeps_read|]. intros p.
  destruct p; try keeps_answer;
    try (apply keeps_bind; [apply keeps_modify, publish_event_transport|intros ?; apply IH]).
  case_bool_decide; [keeps_answer|]. apply keeps_bind; [apply keeps_absorb|intros ?; apply IH].
Qed.

Lemma keeps_wait_for_ack fuel code timeout : keeps (wait_for_ack fuel code timeout).
Proof.
  apply keeps_bind; [apply keeps_lift|]. intros ?.
  apply keeps_bind; [apply keeps_ensure|]. intros ? c Hc.
  unfold take_or_wait_for_ack, take_completed_ack. destruct (tracker_take _ _) as [[ack|] t]; [done|].
  pose proof (keeps_ack_loop fuel code (with_completed t c) Hc) as Hl.
  by destruct (ack_loop fuel code _) as [[] c2].
Qed.

Lemma carries_disconnect_command cmd : carries (send_disconnect_command cmd).
Proof.
  apply carries_bind; [apply keeps_carries, keeps_ensure|]. intros ?.
  apply carries_bind; [apply carries_send|intros ?; apply keeps_carries, keeps_close].
Qed.

Lemma carries_has_connection fuel k : carries (client_has_connection fuel k).
Proof.
  apply carries_bind; [apply keeps_carries, keeps_ensure|]. intros ?.
  apply carries_bind; [apply keeps_carries, keeps_lift|]. intros ?.
  apply carries_bind; [apply carries_send|]. intros ?. apply keeps_carries, keeps_reply_loop. keeps_arm.
Qed.

Lemma carries_snapshot fuel l : carries (list_contacts_snapshot fuel l).
Proof.
  apply carries_bind; [apply carries_collect|]. intros r. apply keeps_carries.
  destruct (ContactCollection_lastmod r); [apply keeps_ret|apply keeps_throw].
Qed.

Ltac carries_tac :=
  first
    [ solve [apply carries_request; keeps_arm]
    | solve [apply keeps_carries, keeps_reply_loop; keeps_arm]
    | apply keeps_carries, keeps_lift | apply keeps_carries, keeps_ret
    | apply carries_collect
    | apply carries_bind; [carries_tac|intros ?; carries_tac] ].

#[local] Hint Resolve carries_connect carries_reconnect carries_init carries_sign carries_sync
  carries_has_connection carries_snapshot : carries.

Lemma operation_carries fuel A (m : io T A) : operation fuel A m → carries m.
Proof.
  destruct 1;
    first [ solve [auto with nocore carries]
          | apply keeps_carries, keeps_disconnect | apply keeps_carries, keeps_wait_for_ack
          | apply carries_disconnect_command | carries_tac ].
Qed.
End carries.

(** ** The packets handed over *)

Section growth.
  Context `{CratesLaws} {T : Type} `{ObservedTransport T}.
  Implicit Types c : Client T.

Definition grown (before : list bytes) (t : T) : Prop :=
  ∃ ps, transport_sent t = before ++ ps ∧ Forall wire_packet ps.
Definition grows c c' : Prop := grown (sent c) (Client_transport c').

Lemma grown_refl c : grown (sent c) (Client_transport c).
Proof. exists []. rewrite app_nil_r. by split; [|constructor]. Qed.

Lemma grown_same before (t t' : T) :
  transport_sent t' = transport_sent t → grown before t → grown before t'.
Proof. intros Hs (ps&?&?). exists ps. by rewrite Hs. Qed.

Lemma grown_kept before : kept_by_calls (grown before) (grown before) (grown before) (grown before).
Proof.
  split; try done.
  - intros t. pose proof (connect_sent t) as Hs. destruct (transport_connect t) as [[] t'];
      by apply grown_same.
  - intros t. pose proof (disconnect_sent t) as Hs. destruct (transport_disconnect t) as [[] t'];
      by apply grown_same.
  - intros t. pose proof (reconnect_sent t) as Hs. destruct (transport_reconnect t) as [[] t'];
      by apply grown_same.
  - intros t. pose proof (read_sent t) as Hs. destruct (transport_read t) as [[] t'];
      by apply grown_same.
  - intros t. apply grown_same, try_read_sent.
  - intros t p Hw (ps&Hp&Hps). pose proof (write_sent t p) as Hs.
    destruct (transport_write t p) as [[[]| |] t']; cbn in Hs;
      [exists (ps ++ [p])|exists ps..]; rewrite Hs, Hp; [|done..].
    rewrite app_assoc. split; [done|]. by apply Forall_app; split; [|constructor].
Qed.

Lemma operation_growing fuel A (m : io T A) c : operation fuel A m → grows c (m c).2.
Proof.
  intros Ho. pose proof (operation_carries _ _ _ _ (grown_kept (sent c)) fuel A m Ho c (grown_refl c)) as Hc.
  unfold grows. by destruct (m c) as [[] c'].
Qed.

Lemma next_event_growing c : grows c (next_event c).2.
Proof.
  pose proof (kept_next_event _ _ _ _ (grown_kept (sent c)) c (grown_refl c)) as Hc.
  unfold grows. by destruct (next_event c) as [[[]| |] c'].
Qed.
End growth.
