(* ===== verification/ClientProps.v ===== *)
(** * Properties of the client

    The invariant over every reachable state, the absence of panics, the
    no-replay guarantee, the synchronization discipline, ACK bookkeeping
    and signing. *)

From S2P Require Import Prelude Text Floats Domain Samples Packet PacketFacts Transport Framed Tracker Command.
From S2P Require Import CommandFacts Client ClientFacts ClientTransport.

Section properties.
  Context `{CratesLaws} {T : Type} `{ObservedTransport T}.
  Implicit Types c : Client T.

(** ** Reachable states *)

Lemma client_step_grows c c' : client_step c c' → grows c c'.
Proof. destruct 1; [by eapply operation_growing|apply next_event_growing]. Qed.

(** C1: in every state a client can reach from construction, by any sequence of
    operations over any transport, the two ACK tables are consistent (map and
    order agree, no duplicates, at most 256 entries, every entry filed under its
    own code), no code is both pending and completed, a held-back inbox response
    only exists while no synchronization is outstanding, the next observation id
    is a non-zero [u64], and a disconnected client tracks nothing. *)
Theorem client_invariant t timeout c :
  transport_wf t → rtc client_step (with_valid_timeout t timeout) c → client_wf c.
Proof. intros Ht Hr. by eapply client_reachable_wf, client_new_wf. Qed.

(** no operation panics in a reachable state, on arguments of its types. *)
Theorem client_never_panics t timeout c fuel A (m : io T A) :
  transport_wf t → rtc client_step (with_valid_timeout t timeout) c → operation fuel A m →
  (m c).1 ≠ Crash.
Proof.
  intros Ht Hr Ho. eapply triple_state; [by eapply operation_live|].
  by eapply client_reachable_wf, client_new_wf.
Qed.

(** whatever a client does, the transport is only ever handed packets of 1
    to 176 bytes, and what was handed over before is never taken back. *)
Theorem outbound_packets_bounded c c' :
  rtc client_step c c' → ∃ ps, sent c' = sent c ++ ps ∧ Forall (λ p, 1 ≤ length p ≤ 176) ps.
Proof.
  induction 1 as [c|c1 c2 c3 Hs Hr (qs&Hq&?)]; [exists []; by rewrite app_nil_r|].
  apply client_step_grows in Hs as (ps&Hp&?). exists (ps ++ qs). rewrite Hq. unfold sent at 1.
  rewrite Hp, app_assoc.
  split; [done|]. by apply Forall_app.
Qed.

(** ** One command, one write *)

Lemma one_command_sent {A} (m : io T A) cmd c :
  one_command m cmd →
  match m c with
  | (Ret _, c') => sent c' = sent c ++ [Command_encode cmd]
  | (_, c') => sent c' = sent c ∨ sent c' = sent c ++ [Command_encode cmd]
  end.
Proof.
  intros (rest&Hq&->). unfold mbind, io_bind, ensure_connected.
  destruct (Client_connected c); [|by left].
  pose proof (send_raw_sent (Command_encode cmd) c) as Hs.
  destruct (send_raw _ c) as [[[]| | | |] c1]; try by left. destruct Hs as [Hs _].
  specialize (Hq c1). rewrite Hs in Hq. destruct (rest c1) as [[] c2]; auto.
Qed.

(** C13: an operation that sends one command writes it at most once, whatever
    the device answers, and exactly once when it succeeds: nothing is retried or
    replayed. *)
Theorem command_written_once fuel A (m : io T A) cmd c :
  sends fuel A m cmd →
  match m c with
  | (Ret _, c') => sent c' = sent c ++ [Command_encode cmd]
  | (_, c') => sent c' = sent c ∨ sent c' = sent c ++ [Command_encode cmd]
  end.
Proof. intros Hs. by apply one_command_sent, (sends_one_command fuel). Qed.

Definition unreconciled : CoreError :=
  CoreError_ProtocolInvariant
    "a prior inbox synchronization response must be reconciled before another command".

(** while an inbox response is outstanding every other command is refused,
    and on a disconnected client every command is; in both cases nothing is
    written and the client is unchanged. *)
Theorem commands_blocked fuel A (m : io T A) cmd c :
  sends fuel A m cmd →
  (Client_connected c = false → m c = (Throw CoreError_Disconnected, c)) ∧
  (Client_connected c = true → Client_sync_state c = SyncState_AwaitingResponse →
   m c = (Throw unreconciled, c)).
Proof.
  intros (rest&_&Hm)%sends_one_command. rewrite Hm. unfold mbind, io_bind, ensure_connected.
  split; intros Hc; rewrite Hc; [done|]. intros Hs. unfold send_raw. by rewrite Hs.
Qed.

(** ** Inbox synchronization *)

(** A drain that answers leaves the client idle, one that does not leaves the
    synchronization state alone. *)
Definition drained c (r : option ReadySync) c' : Prop :=
  match r with
  | Some _ => Client_sync_state c' = SyncState_Idle
  | None => Client_sync_state c' = Client_sync_state c
  end.

Lemma drain_packet_state raw next c r c' :
  (∀ c r c', next c = (Ret r, c') → drained c r c') →
  drain_packet raw next c = (Ret r, c') → drained c r c'.
Proof.
  intros Hn. unfold drain_packet. unfold mbind at 1, io_bind at 1.
  assert (Client_sync_state (parse_packet raw c).2 = Client_sync_state c) as Hp
    by (unfold parse_packet; by repeat case_match).
  destruct (parse_packet raw c) as [[p| | | |] c2]; try done. cbn in Hp. unfold drained. rewrite <- Hp.
  destruct p; unfold mbind, io_bind, modify, mret, io_ret; try (intros [= <- <-]; done);
    try (intros Hx; apply Hn in Hx; unfold drained in Hx; by destruct r; [|rewrite Hx; apply absorb_sync]).
Qed.

Lemma drain_state n c r c' : drain_loop n c = (Ret r, c') → drained c r c'.
Proof.
  revert c r c'. induction n as [|n IH]; intros c r c'; cbn [drain_loop];
    destruct (transport_try_read (Client_transport c)) as [[[| |raw]|e|] t]; try done;
    try (intros [= <- <-]; done);
    intros Hx; apply drain_packet_state in Hx; try done.
Qed.

Lemma publish_idle p c :
  Client_sync_state c = SyncState_Idle → Client_sync_state (publish_event p c) = SyncState_Idle.
Proof.
  intros Hc. unfold publish_event. rewrite retain_idle by done. by destruct (Packet_into_event p).
Qed.

Lemma wait_for_sync_idle fuel c r c' :
  wait_for_sync_response fuel c = (Ret r, c') → Client_sync_state c' = SyncState_Idle.
Proof.
  unfold wait_for_sync_response. revert c. induction fuel as [|fuel IH]; intros c; [done|].
  cbn [reply_loop]. unfold mbind at 1, io_bind at 1.
  destruct (read_next_packet_with_timeout c) as [[p| | | |] c1]; try done.
  destruct p; cbn [sync_arm];
    try (unfold mbind, io_bind, modify; intros Hx; by apply IH in Hx);
    unfold mbind, io_bind, modify, mret, io_ret, throw; intros Hx; simplify_eq; auto using publish_idle.
Qed.

(** a synchronization writes at most one request, and only when none is
    outstanding and no answer is held back; one that returns a message or the
    end of the inbox leaves none outstanding. *)
Theorem sync_discipline fuel c :
  client_wf c →
  let '(r, c') := client_sync_next_message fuel c in
  (sent c' = sent c ∨
   sent c' = sent c ++ [Command_encode sync_next_message] ∧ Client_connected c = true ∧
   Client_sync_state c = SyncState_Idle ∧ Client_deferred_sync c = None) ∧
  (∀ v, r = Ret v → Client_sync_state c' = SyncState_Idle).
Proof.
  intros Hwf. unfold client_sync_next_message. unfold mbind at 1, io_bind at 1, ensure_connected.
  destruct (Client_connected c) eqn:Hconn; [|split; [by left|done]].
  unfold mbind at 1, io_bind at 1, gets. destruct (Client_deferred_sync c) as [ready|] eqn:Hd.
  { split; [by left|]. intros v _. apply (wf_deferred c Hwf). by rewrite Hd. }
  unfold mbind at 1, io_bind at 1. unfold drain_ready_packets_before_sync.
  pose proof (quiet_drain CLIENT_SYNC_READY_DRAIN_CAPACITY c) as Hq.
  destruct (drain_loop _ c) as [r c1] eqn:Hdr. cbn in Hq.
  destruct r as [[ready|]| | | |]; try (split; [by left|done]);
    apply drain_state in Hdr; cbn in Hdr.
  { split; [by left|]. intros v _. by destruct ready. }
  unfold mbind at 1, io_bind at 1. case_bool_decide as Ha.
  { pose proof (quiet_wait_for_sync fuel c1) as Hw. rewrite Hq in Hw.
    destruct (wait_for_sync_response fuel c1) as [r2 c2] eqn:E. split; [by left|].
    intros v ->. by eapply wait_for_sync_idle. }
  assert (Client_sync_state c = SyncState_Idle) as Hidle
    by (rewrite <- Hdr; by destruct (Client_sync_state c1)).
  unfold mbind, io_bind, modify. set (c2 := with_sync_state _ c1).
  assert (sent c2 = sent c) as Hc2 by exact Hq.
  pose proof (write_raw_sent (Command_into_encoded sync_next_message) c2) as Hw.
  destruct (write_raw _ c2) as [[[]| | | |] c3]; try (rewrite <- Hc2; split; [by left|done]).
  destruct Hw as [Hw _]. pose proof (quiet_wait_for_sync fuel c3) as Hs.
  destruct (wait_for_sync_response fuel c3) as [r4 c4] eqn:E. cbn in Hs.
  rewrite Hs, Hw, Hc2. split; [by right|]. intros v ->. by eapply wait_for_sync_idle.
Qed.

(** when the transport refuses the synchronization request without ending
    the connection (backpressure, for instance), nothing is handed over and yet
    the client is left waiting for an answer: it then refuses every command,
    although no answer can come. *)
Theorem refused_sync_blocks_commands fuel c c1 e t :
  Client_connected c = true → Client_sync_state c = SyncState_Idle →
  Client_deferred_sync c = None → drain_ready_packets_before_sync c = (Ret None, c1) →
  transport_write (Client_transport c1) (Command_encode sync_next_message) = (Ready (Err e), t) →
  Client_connected c1 = true → is_terminal_write_error e = false →
  let '(r, c') := client_sync_next_message fuel c in
  r = Throw (CoreError_Transport e) ∧ sent c' = sent c ∧
  Client_sync_state c' = SyncState_AwaitingResponse ∧
  ∀ fuel A (m : io T A) cmd, sends fuel A m cmd → m c' = (Throw unreconciled, c').
Proof.
  intros Hc Hs Hd Hdr Hw Hc1 He. pose proof (drain_state _ _ _ _ Hdr) as Hst. cbn in Hst.
  pose proof (quiet_drain CLIENT_SYNC_READY_DRAIN_CAPACITY c) as Hq.
  unfold drain_ready_packets_before_sync in Hdr. rewrite Hdr in Hq. cbn in Hq.
  unfold client_sync_next_message. unfold mbind, io_bind, ensure_connected, gets.
  rewrite Hc, Hd. unfold drain_ready_packets_before_sync. rewrite Hdr, Hst, Hs.
  rewrite bool_decide_false by done. unfold modify, write_raw.
  rewrite bool_decide_false by done. unfold Command_into_encoded in *.
  change ([CommandCode_to_u8 (Command_code sync_next_message)] ++ Command_payload sync_next_message)
    with (Command_encode sync_next_message).
  change (MAX_INNER_PAYLOAD <? length (Command_encode sync_next_message)) with false. cbv iota.
  cbn [Client_transport with_sync_state with_sync]. rewrite Hw, He.
  split_and!; try done.
  - unfold sent in *. cbn. rewrite <- Hq. pose proof (write_sent (Client_transport c1)
      (Command_encode sync_next_message)) as Hws. rewrite Hw in Hws. exact Hws.
  - intros fuel' A m cmd (rest&_&Hm)%sends_one_command. rewrite Hm.
    unfold mbind, io_bind, ensure_connected. cbn. by rewrite Hc1.
Qed.

(** ** ACK bookkeeping *)

Definition untracked (code : bytes) c : Prop :=
  tracker_map (Client_pending c) !! code = None ∧ tracker_map (Client_completed c) !! code = None.

Lemma publish_trackers p c :
  Client_pending (publish_event p c) = Client_pending c ∧
  Client_completed (publish_event p c) = Client_completed c.
Proof.
  assert (Client_pending (retain_sync_response p c) = Client_pending c ∧
          Client_completed (retain_sync_response p c) = Client_completed c) as [Hp Hc]
    by (unfold retain_sync_response; by repeat case_match).
  unfold publish_event. by destruct (Packet_into_event p).
Qed.

Lemma absorb_other_ack code ack c :
  live_client c → Ack_code ack ≠ code →
  tracker_map (Client_completed c) !! code = None →
  tracker_map (Client_completed (absorb (Packet_Ack ack) c)) !! code = None.
Proof.
  intros Hc Hne Hn. unfold absorb. set (c1 := publish_event _ c).
  assert (live_client c1) as Hc1 by by apply publish_event_live.
  assert (tracker_map (Client_completed c1) !! code = None) as Hn1
    by (unfold c1; by destruct (publish_trackers (Packet_Ack ack) c) as [_ ->]).
  clearbody c1. cbn. unfold take_pending_ack. rewrite tracker_take_discard by apply Hc1.
  destruct (tracker_map (Client_pending c1) !! Ack_code ack); [|exact Hn1]. cbn.
  apply eq_None_not_Some. intros [Heq|Hs]%remember_lookup; [by subst| |apply Hc1].
  rewrite Hn1 in Hs. by apply is_Some_None in Hs.
Qed.

Lemma ack_loop_untracked fuel code c :
  live_client c → tracker_map (Client_completed c) !! code = None →
  ∀ ack c', ack_loop fuel code c = (Ret ack, c') → Ack_code ack = code ∧ untracked code c'.
Proof.
  revert c. induction fuel as [|fuel IH]; intros c Hc Hn ack c'; [done|].
  cbn [ack_loop]. unfold mbind at 1, io_bind at 1.
  assert (Client_completed (read_next_packet_with_timeout c).2 = Client_completed c ∨
          ∃ e, (read_next_packet_with_timeout c).1 = Throw e) as Hr.
  { unfold read_next_packet_with_timeout, read_next_packet.
    destruct (transport_read (Client_transport c)) as [[[[raw|]|e|]| |] t]; cbn; eauto.
    left. unfold parse_packet. by repeat case_match; simplify_eq. }
  pose proof (read_triple c Hc) as Hl.
  destruct (read_next_packet_with_timeout c) as [[p| | | |] c1]; try done.
  destruct Hr as [Hr|[e Hr]]; [|done]. cbn in Hr. rewrite <- Hr in Hn.
  destruct p as [| | | | | | | | | | | | | | | | | | | | | | | | | |a| | | | | | | | |];
    try done;
    try (unfold mbind, io_bind, modify; apply IH; [by apply publish_event_live|];
         by rewrite (proj2 (publish_trackers _ c1))).
  case_bool_decide as Ha; unfold mbind, io_bind, modify.
  - intros [= <- <-]. split; [done|].
    destruct (publish_trackers (Packet_Ack a) (discard_pending_ack code c1)) as [Hp Hq].
    split; [rewrite Hp|by rewrite Hq]. cbn. apply lookup_delete_eq.
  - apply IH; [by apply absorb_live|]. by apply absorb_other_ack.
Qed.

Lemma wait_for_ack_completed fuel code ack c :
  client_wf c → Client_connected c = true → tracker_map (Client_completed c) !! code = Some ack →
  ∃ c', wait_for_ack fuel code None c = (Ret ack, c') ∧
        Client_transport c' = Client_transport c ∧ untracked code c'.
Proof.
  intros Hwf Hc Hm. unfold wait_for_ack, mbind, io_bind, lift, ensure_connected. cbn [res_of].
  rewrite Hc. unfold take_or_wait_for_ack, take_completed_ack.
  rewrite tracker_take_discard, Hm by apply Hwf. eexists. split_and!; [done|done|].
  split; cbn; [|apply lookup_delete_eq].
  apply eq_None_not_Some. intros Hp. eapply (wf_disjoint c Hwf); [done|]. by rewrite Hm.
Qed.

Lemma absorb_pending_ack ack c :
  client_wf c → Client_connected c = true →
  is_Some (tracker_map (Client_pending c) !! Ack_code ack) →
  tracker_map (Client_completed (absorb (Packet_Ack ack) c)) !! Ack_code ack = Some ack.
Proof.
  intros Hwf Hc Hp. unfold absorb. set (c1 := publish_event _ c).
  assert (live_client c1) as [Hl _] by (by apply publish_event_live).
  destruct (publish_trackers (Packet_Ack ack) c) as [Hpc _]. fold c1 in Hpc.
  rewrite <- Hpc in Hp. clearbody c1. cbn. unfold take_pending_ack.
  rewrite tracker_take_discard by apply Hl. destruct Hp as [tr ->]. cbn.
  rewrite (proj2 (tracker_remember_spec (Ack_code ack) ack (Client_completed c1) (wf_completed c1 Hl))).
  by rewrite bool_decide_true.
Qed.

(** when [wait_for_ack] returns the ACK it is the one asked for, and when it
    returns or fails its code is tracked in neither table any more. *)
Theorem wait_for_ack_untracks fuel code c :
  client_wf c → Client_connected c = true →
  match wait_for_ack fuel code None c with
  | (Ret ack, c') => Ack_code ack = code ∧ untracked code c'
  | (Throw _, c') => untracked code c'
  | _ => True
  end.
Proof.
  intros Hwf Hc. destruct (tracker_map (Client_completed c) !! code) as [ack|] eqn:Hm.
  - destruct (wait_for_ack_completed fuel code ack c Hwf Hc Hm) as (c'&->&_&Hu).
    split; [by eapply (wf_completed_keyed c Hwf)|done].
  - unfold wait_for_ack, mbind, io_bind, lift, ensure_connected. cbn [res_of].
    rewrite Hc. unfold take_or_wait_for_ack, take_completed_ack.
    rewrite tracker_take_discard, Hm by apply Hwf. set (c1 := with_completed _ c).
    assert (live_client c1) as Hl by (apply (discard_completed_live code c); by split).
    pose proof (ack_loop_triple fuel code c1 Hl) as Ht.
    destruct (ack_loop fuel code c1) as [[ack| | | |] c2] eqn:E; try done.
    + eapply ack_loop_untracked; [exact Hl| |exact E]. cbn. apply lookup_delete_eq.
    + split; cbn; apply lookup_delete_eq.
Qed.

(** an ACK that arrives while some other packet is waited for is not lost:
    when its code is pending, a later [wait_for_ack] for that code returns it
    without touching the transport, and stops tracking it. *)
Theorem early_ack_delivered fuel ack c :
  client_wf c → Client_connected c = true →
  is_Some (tracker_map (Client_pending c) !! Ack_code ack) →
  ∃ c', wait_for_ack fuel (Ack_code ack) None (absorb (Packet_Ack ack) c) = (Ret ack, c') ∧
        Client_transport c' = Client_transport c ∧ untracked (Ack_code ack) c'.
Proof.
  intros Hwf Hc Hp. assert (live_client (absorb (Packet_Ack ack) c)) as Hl by (by apply absorb_live).
  destruct (wait_for_ack_completed fuel (Ack_code ack) ack (absorb (Packet_Ack ack) c)) as (c'&Hr&Ht&Hu);
    [apply Hl|apply Hl|by apply absorb_pending_ack|].
  exists c'. split; [done|]. rewrite Ht, absorb_transport. done.
Qed.
End properties.

(** ** Signing *)

Section signing.
  Context `{CratesLaws} {T : Type} `{ObservedTransport T}.
  Implicit Types c : Client T.

Lemma one_command_ret {A} (m : io T A) cmd c a c' :
  one_command m cmd → m c = (Ret a, c') → sent c' = sent c ++ [Command_encode cmd].
Proof. intros Ho Hm. pose proof (one_command_sent m cmd c Ho) as Hs. by rewrite Hm in Hs. Qed.

Lemma sign_data_ok chunk :
  0 < length chunk ≤ SIGNING_CHUNK_BYTES →
  sign_data chunk = Ok (mkCommand CommandCode_SignData chunk).
Proof.
  unfold SIGNING_CHUNK_BYTES. intros Hl. unfold sign_data.
  rewrite bool_decide_false by (intros ->; simpl in Hl; lia). apply checked_spec. lia.
Qed.

Lemma sign_chunks_sent fuel cs c u c' :
  Forall (λ chunk, 0 < length chunk ≤ SIGNING_CHUNK_BYTES) cs →
  sign_chunks fuel cs c = (Ret u, c') →
  sent c' = sent c ++ ((λ chunk, Command_encode (mkCommand CommandCode_SignData chunk)) <$> cs).
Proof.
  intros Hcs. revert c. induction Hcs as [|chunk cs Hc Hcs IH]; intros c; cbn [sign_chunks].
  { intros [= <- <-]. by rewrite app_nil_r. }
  unfold mbind at 1, io_bind at 1. destruct (expect_ok fuel (sign_data chunk) c) as [[[]| | | |] c1] eqn:E;
    try done. intros Hr. apply IH in Hr. rewrite Hr.
  assert (one_command (expect_ok fuel (sign_data chunk)) (mkCommand CommandCode_SignData chunk)) as Ho
    by (by apply one_command_expect_ok, sign_data_ok).
  rewrite (one_command_ret _ _ _ _ _ Ho E). by rewrite <- app_assoc.
Qed.

(** when [sign] succeeds the companion has been handed the start of the
    session, then the data in order in non-empty chunks of at most 120 bytes,
    then the end of the session, and nothing else. *)
Theorem sign_transcript fuel data c sig c' :
  sign fuel data c = (Ret sig, c') →
  ∃ cs, concat cs = data ∧ Forall (λ chunk, 0 < length chunk ≤ 120) cs ∧
  sent c' = sent c ++ [Command_encode sign_start]
    ++ ((λ chunk, Command_encode (mkCommand CommandCode_SignData chunk)) <$> cs)
    ++ [Command_encode sign_finish].
Proof.
  unfold sign. unfold mbind at 1, io_bind at 1.
  destruct (send_command_expect fuel sign_start _ _ c) as [[n| | | |] c1] eqn:E1; try done.
  destruct (n <? Z.of_nat (length data))%Z; [done|].
  unfold mbind at 1, io_bind at 1.
  destruct (sign_chunks fuel (chunks SIGNING_CHUNK_BYTES data) c1) as [[u| | | |] c2] eqn:E2; try done.
  intros E3. exists (chunks SIGNING_CHUNK_BYTES data).
  assert (Forall (λ chunk, 0 < length chunk ≤ SIGNING_CHUNK_BYTES) (chunks SIGNING_CHUNK_BYTES data)) as Hcs.
  { apply Forall_forall. intros x Hx. apply (chunks_bound SIGNING_CHUNK_BYTES data x); [|done].
    unfold SIGNING_CHUNK_BYTES. lia. }
  split; [apply chunks_concat; unfold SIGNING_CHUNK_BYTES; lia|]. split; [done|].
  apply one_command_ret with (cmd := sign_start) in E1; [|apply one_command_expect].
  apply sign_chunks_sent in E2; [|done].
  apply one_command_ret with (cmd := sign_finish) in E3; [|apply one_command_expect].
  rewrite E3, E2, E1. by rewrite <- !app_assoc.
Qed.
End signing.

(** ** Concrete runs *)

(** A connected client whose transport holds [incoming]. *)
Definition demo_client (incoming : list bytes) : Client ScriptedTransport :=
  with_connected true (Client_new (with_inbound_frames incoming)).

Lemma demo_live incoming : Forall is_bytes incoming → live_client (demo_client incoming).
Proof. intros Hi. by apply connected_live, client_new_wf. Qed.

Definition time_report : bytes := [9; 1; 0; 0; 0]%Z.
Definition ack_report : bytes := [0x82; 1; 2; 3; 4]%Z.

Lemma reports_bytes : Forall is_bytes [ack_report; time_report].
Proof. repeat constructor; unfold is_u8; lia. Qed.

Definition asked_time : Client ScriptedTransport :=
  (client_get_time 3 (Client_new (with_inbound_frames [ack_report; time_report]))).2.

Lemma asked_time_reachable :
  rtc client_step (with_valid_timeout (with_inbound_frames [ack_report; time_report])
                     CLIENT_REQUEST_TIMEOUT) asked_time.
Proof. apply rtc_once. apply (step_operation 3), op_get_time. Qed.

Lemma client_invariant_witness : client_wf asked_time.
Proof.
  apply (client_invariant (with_inbound_frames [ack_report; time_report]) CLIENT_REQUEST_TIMEOUT).
  - apply reports_bytes.
  - apply asked_time_reachable.
Defined.

Lemma client_never_panics_witness : (client_sync_next_message 3 asked_time).1 ≠ Crash.
Proof.
  apply (client_never_panics (with_inbound_frames [ack_report; time_report]) CLIENT_REQUEST_TIMEOUT
           asked_time 3).
  - apply reports_bytes.
  - apply asked_time_reachable.
  - apply op_sync_next_message.
Defined.

Lemma outbound_packets_bounded_witness :
  ∃ ps, sent (client_get_time 3 (demo_client [ack_report; time_report])).2
        = sent (demo_client [ack_report; time_report]) ++ ps ∧ Forall (λ p, 1 ≤ length p ≤ 176) ps.
Proof.
  apply (outbound_packets_bounded (demo_client [ack_report; time_report])).
  apply rtc_once. apply (step_operation 3), op_get_time.
Defined.

Lemma command_written_once_witness :
  (client_get_time 3 (demo_client [ack_report; time_report])).1 = Ret 1%Z ∧
  sent (client_get_time 3 (demo_client [ack_report; time_report])).2 = [Command_encode get_time].
Proof.
  split; [vm_compute; reflexivity|].
  pose proof (command_written_once 3 _ (client_get_time 3) get_time
                (demo_client [ack_report; time_report]) (sends_get_time 3)) as Hw.
  vm_compute in Hw |- *. exact Hw.
Defined.

Lemma commands_blocked_witness :
  client_get_time 3 (with_connected false (demo_client [])) =
    (Throw CoreError_Disconnected, with_connected false (demo_client [])) ∧
  client_get_time 3 (with_sync_state SyncState_AwaitingResponse (demo_client [])) =
    (Throw unreconciled, with_sync_state SyncState_AwaitingResponse (demo_client [])).
Proof.
  split.
  - by apply (commands_blocked 3 _ (client_get_time 3) get_time); [apply sends_get_time|].
  - by apply (commands_blocked 3 _ (client_get_time 3) get_time); [apply sends_get_time| |].
Defined.

Lemma sync_discipline_witness :
  (client_sync_next_message 3 (demo_client [[0x0a]%Z])).1 = Ret None ∧
  Client_sync_state (client_sync_next_message 3 (demo_client [[0x0a]%Z])).2 = SyncState_Idle.
Proof.
  split; [vm_compute; reflexivity|].
  assert (client_wf (demo_client [[0x0a]%Z])) as Hwf.
  { apply live_wf, demo_live. repeat constructor; unfold is_u8; lia. }
  pose proof (sync_discipline 3 (demo_client [[0x0a]%Z]) Hwf) as Hd.
  destruct (client_sync_next_message 3 (demo_client [[0x0a]%Z])) as [r c] eqn:E.
  apply (proj2 Hd None). change r with (r, c).1. rewrite <- E. vm_compute. reflexivity.
Defined.

(** A connected transport with nothing to read whose send queue is full. *)
Inductive CongestedTransport := Congested.

#[global] Instance Congested_transport : Transport CongestedTransport := {
  transport_kind _ := TransportKind_Unknown;
  transport_connect t := (Ready (Ok ()), t);
  transport_disconnect t := (Ready (Ok ()), t);
  transport_write t _ := (Ready (Err (TransportError_Backpressure "outbound" 1)), t);
  transport_read t := (Pending, t);
  transport_try_read t := (Ok ReadyRead_Pending, t);
  transport_reconnect t := (Ready (Ok ()), t)
}.

#[global] Instance Congested_observed : ObservedTransport CongestedTransport.
Proof. by refine {| transport_sent _ := []; transport_wf _ := True |}. Defined.

Lemma refused_sync_blocks_commands_witness :
  let c := with_connected true (Client_new Congested) in
  Client_sync_state (client_sync_next_message 3 c).2 = SyncState_AwaitingResponse ∧
  (client_get_time 3 (client_sync_next_message 3 c).2).1 = Throw unreconciled.
Proof.
  intros c.
  pose proof (refused_sync_blocks_commands 3 c c (TransportError_Backpressure "outbound" 1) Congested
                eq_refl eq_refl eq_refl eq_refl eq_refl eq_refl eq_refl) as Hr.
  destruct (client_sync_next_message 3 c) as [r c']. destruct Hr as (_&_&Hs&Hb).
  split; [exact Hs|]. simpl. by rewrite (Hb 3 _ (client_get_time 3) get_time (sends_get_time 3)).
Defined.

Lemma wait_for_ack_untracks_witness :
  untracked [1; 2; 3; 4]%Z (wait_for_ack 3 [1; 2; 3; 4]%Z None (demo_client [ack_report])).2.
Proof.
  assert (live_client (demo_client [ack_report])) as [Hwf Hc]
    by (apply demo_live; repeat constructor; unfold is_u8; lia).
  pose proof (wait_for_ack_untracks 3 [1; 2; 3; 4]%Z (demo_client [ack_report]) Hwf Hc) as Hw.
  destruct (wait_for_ack 3 [1; 2; 3; 4]%Z None (demo_client [ack_report])) as [r c] eqn:E.
  assert (r = Ret (mkAck [1; 2; 3; 4]%Z None)) as -> by (change r with (r, c).1; rewrite <- E; by vm_compute).
  exact (proj2 Hw).
Defined.

(** A client that has sent a message and waits for the ACK [1; 2; 3; 4]. *)
Definition awaiting_ack : Client ScriptedTransport :=
  (client_send_direct_text 2 1700000000 [1; 2; 3; 4; 5; 6]%Z 0 (str_bytes "hi")
     (demo_client [[6; 0; 1; 2; 3; 4; 100; 0; 0; 0]%Z])).2.

Lemma early_ack_delivered_witness :
  ∃ c', wait_for_ack 3 [1; 2; 3; 4]%Z None
          (absorb (Packet_Ack (mkAck [1; 2; 3; 4]%Z None)) awaiting_ack)
        = (Ret (mkAck [1; 2; 3; 4]%Z None), c') ∧
        Client_transport c' = Client_transport awaiting_ack ∧ untracked [1; 2; 3; 4]%Z c'.
Proof.
  apply (early_ack_delivered 3 (mkAck [1; 2; 3; 4]%Z None) awaiting_ack).
  - apply (client_step_wf (demo_client [[6; 0; 1; 2; 3; 4; 100; 0; 0; 0]%Z])).
    + apply (step_operation 2). apply op_send_direct_text.
    + apply live_wf, demo_live. repeat constructor; unfold is_u8; lia.
  - vm_compute. reflexivity.
  - vm_compute. eexists. reflexivity.
Defined.

Definition signing_device : Client ScriptedTransport :=
  demo_client [[0x13; 0; 100; 0; 0; 0]; [0]; 0x14 :: replicate 64 1]%Z.

Lemma sign_transcript_witness :
  ∃ sig c cs, sign 3 [5; 6]%Z signing_device = (Ret sig, c) ∧
  concat cs = [5; 6]%Z ∧ Forall (λ chunk, 0 < length chunk ≤ 120) cs ∧
  sent c = [Command_encode sign_start]
    ++ ((λ chunk, Command_encode (mkCommand CommandCode_SignData chunk)) <$> cs)
    ++ [Command_encode sign_finish].
Proof.
  destruct (sign 3 [5; 6]%Z signing_device) as [[sig| | | |] c] eqn:E; try (by vm_compute in E).
  destruct (sign_transcript 3 [5; 6]%Z signing_device sig c E) as (cs&Hcs).
  exists sig, c, cs. split; [reflexivity|exact Hcs].
Defined.
