(* ===== verification/ClientTermination.v ===== *)
(** * Termination of the client operations

    Every operation returns when its fuel exceeds the packets the transport can
    still deliver: each turn of a loop uses one up, and the absence of packets is
    a timeout. *)

From S2P Require Import Prelude Text Floats Domain Samples Packet PacketFacts Transport Framed Tracker Command.
From S2P Require Import CommandFacts Client ClientFacts ClientProps.

Section termination.
  Context `{CratesLaws} {T : Type} `{ObservedTransport T} `{!FiniteTransport T}.
  Implicit Types c : Client T.

Definition left c : nat := transport_left (Client_transport c).

(** [returns n m]: with fewer than [n] packets to come [m] does not run out of
    fuel, and does not bring packets about. *)
Definition returns {A} (n : nat) (m : io T A) : Prop :=
  ∀ c, left c < n → (m c).1 ≠ Stuck ∧ left (m c).2 ≤ left c.

Lemma returns_bind {A B} n (m : io T A) (f : A → io T B) :
  returns n m → (∀ a, returns n (f a)) → returns n (m ≫= f).
Proof.
  intros Hm Hf c Hc. destruct (Hm c Hc) as [Hs Hl]. unfold mbind, io_bind.
  destruct (m c) as [[a| | | |] c1]; try done. cbn in Hl.
  destruct (Hf a c1) as [? ?]; [lia|]. split; [done|lia].
Qed.

Lemma returns_pure {A} n (r : res A) (f : Client T → Client T) :
  r ≠ Stuck → (∀ c, Client_transport (f c) = Client_transport c) → returns n (λ c, (r, f c)).
Proof. intros Hr Hf c Hc. cbn. unfold left. by rewrite Hf. Qed.

Lemma returns_ret {A} n (a : A) : returns n (mret a).
Proof. by apply (returns_pure n (Ret a) id). Qed.
Lemma returns_throw {A} n e : returns n (throw e : io T A).
Proof. by apply (returns_pure n (Throw e) id). Qed.
Lemma returns_modify n f : (∀ c, Client_transport (f c) = Client_transport c) → returns n (modify f).
Proof. by apply returns_pure. Qed.
Lemma returns_lift {A} n (m : outcome CoreError A) : returns n (lift m).
Proof. apply (returns_pure n (res_of m) id); [by destruct m|done]. Qed.

(** A completed read uses up a packet. *)
Lemma read_left_spec c :
  match read_next_packet_with_timeout c with
  | (Ret _, c') => left c' < left c
  | (Stuck, _) => False
  | (_, c') => left c' ≤ left c
  end.
Proof.
  unfold read_next_packet_with_timeout, read_next_packet, left.
  pose proof (read_left (Client_transport c)) as Hr.
  destruct (transport_read (Client_transport c)) as [[[[raw|]|e|]| |] t]; cbn; try done.
  - pose proof (parse_packet_transport raw (with_transport t c)) as Hp.
    assert ((parse_packet raw (with_transport t c)).1 ≠ Stuck) as Hs
      by (unfold parse_packet; by repeat case_match).
    destruct (parse_packet raw (with_transport t c)) as [[] c1]; cbn in *; rewrite ?Hp; try done; lia.
  - by rewrite mark_disconnected_transport.
  - by destruct (is_disconnect_error e); [rewrite mark_disconnected_transport|].
Qed.

Lemma returns_write n p : returns n (write_raw p).
Proof.
  intros c Hc. unfold write_raw, left. case_bool_decide; [done|]. case_match; [done|].
  pose proof (write_left (Client_transport c) p) as Hw.
  destruct (transport_write (Client_transport c) p) as [[[|e|]| |] t]; cbn in *; try done.
  by destruct (is_terminal_write_error e); [rewrite mark_disconnected_transport|].
Qed.

Lemma returns_send n p : returns n (send_raw p).
Proof. intros c Hc. unfold send_raw. case_bool_decide; [done|]. by apply (returns_write n). Qed.

Lemma returns_ensure n : returns n ensure_connected.
Proof. intros c Hc. unfold ensure_connected. by case_match. Qed.

Lemma returns_reply_loop {R} n (arm : Packet → option (io T R)) :
  (∀ p answer, arm p = Some answer → returns n answer) → returns n (reply_loop n arm).
Proof.
  intros Ha. assert (∀ k, k ≤ n → returns k (reply_loop k arm)) as Hk; [|by apply Hk].
  induction k as [|k IH]; intros Hkn c Hc; [lia|]. cbn [reply_loop]. unfold mbind, io_bind.
  pose proof (read_left_spec c) as Hr.
  destruct (read_next_packet_with_timeout c) as [[p| | | |] c1]; try done.
  destruct (arm p) as [answer|] eqn:E.
  - destruct (Ha p answer E c1) as [? ?]; [lia|]. split; [done|lia].
  - unfold modify. assert (left (absorb p c1) = left c1) as Hl
      by (unfold left; by rewrite absorb_transport).
    destruct (IH ltac:(lia) (absorb p c1)) as [? ?]; [lia|]. split; [done|lia].
Qed.

Lemma returns_request {R} n command (arm : Packet → option (io T R)) :
  (∀ p answer, arm p = Some answer → returns n answer) → returns n (request n command arm).
Proof.
  intros Ha. apply returns_bind; [apply returns_ensure|]. intros ?.
  apply returns_bind; [apply returns_send|]. intros ?. by apply returns_reply_loop.
Qed.

Ltac returns_answer :=
  first
    [ apply returns_ret | apply returns_throw
    | apply returns_bind;
        [apply returns_modify; intros ?; solve [done | apply publish_event_transport | by case_match]
        |intros ?; returns_answer] ].

Ltac returns_arm :=
  let p := fresh "p" in let answer := fresh "answer" in let Ha := fresh "Ha" in
  intros p answer Ha;
  unfold ok_arm, expect_arm, msg_sent_arm, wait_arm, device_rejected, feature_disabled in Ha;
  repeat case_match; simplify_eq; returns_answer.

Ltac returns_tac :=
  first
    [ apply returns_request; returns_arm
    | apply returns_bind; [apply returns_lift|intros ?; returns_tac]
    | apply returns_bind; [returns_tac|intros ?; first [apply returns_lift|apply returns_reply_loop; returns_arm]] ].

Lemma returns_collect n l : returns n (collect_contacts n l).
Proof.
  apply returns_bind; [apply returns_ensure|]. intros ?.
  apply returns_bind; [apply returns_send|]. intros ?.
  assert (∀ k cs, k ≤ n → returns k (collect_contacts_loop k cs)) as Hk; [|by apply Hk].
  induction k as [|k IH]; intros cs Hkn c Hc; [lia|]. cbn [collect_contacts_loop]. unfold mbind, io_bind.
  pose proof (read_left_spec c) as Hr.
  destruct (read_next_packet_with_timeout c) as [[p| | | |] c1]; try done.
  assert (∀ cs, let r := collect_contacts_loop k cs c1 in r.1 ≠ Stuck ∧ left r.2 ≤ left c) as Hk.
  { intros cs'. destruct (IH cs' ltac:(lia) c1) as [? ?]; [lia|]. cbn. split; [done|lia]. }
  assert (let r := collect_contacts_loop k cs (absorb p c1) in r.1 ≠ Stuck ∧ left r.2 ≤ left c) as Ha.
  { assert (left (absorb p c1) = left c1) as Hl by (unfold left; by rewrite absorb_transport).
    destruct (IH cs ltac:(lia) (absorb p c1)) as [? ?]; [lia|]. cbn. split; [done|lia]. }
  destruct p; unfold mret, io_ret, throw, modify; cbn; try apply Hk; try apply Ha; split; done || lia.
Qed.

Lemma returns_has_connection n k : returns n (client_has_connection n k).
Proof.
  apply returns_bind; [apply returns_ensure|]. intros ?.
  apply returns_bind; [apply returns_lift|]. intros ?.
  apply returns_bind; [apply returns_send|]. intros ?. apply returns_reply_loop. returns_arm.
Qed.

Lemma returns_snapshot n l : returns n (list_contacts_snapshot n l).
Proof.
  apply returns_bind; [apply returns_collect|]. intros r.
  destruct (ContactCollection_lastmod r); [apply returns_ret|apply returns_throw].
Qed.

(** ** Sessions *)

Lemma returns_close n : returns n close_transport.
Proof.
  intros c Hc. unfold close_transport, left. pose proof (disconnect_left (Client_transport c)) as Hd.
  destruct (transport_disconnect (Client_transport c)) as [[[]| |] t]; cbn in *;
    by rewrite ?mark_disconnected_transport.
Qed.

Lemma returns_disconnect_command n cmd : returns n (send_disconnect_command cmd).
Proof.
  apply returns_bind; [apply returns_ensure|]. intros ?.
  apply returns_bind; [apply returns_send|intros ?; apply returns_close].
Qed.

Lemma returns_init n : returns n (init n).
Proof. apply returns_request. returns_arm. Qed.

Lemma returns_start n : returns n (start_session n).
Proof.
  intros c Hc. unfold start_session. destruct (returns_init n (with_connected true c) Hc) as [Hs Hl].
  destruct (init n _) as [[|e| | |] c1]; try done. unfold left in *. cbn in Hl, Hc.
  destruct (returns_bind (A:=()) (B:=SelfInfo) n close_transport (λ _, throw e) (returns_close n)
    (λ _, returns_throw n e) c1) as [? ?]; unfold left in *; [lia|]. split; [done|lia].
Qed.

(** Opening the transport, then the session. *)
Lemma returns_open n (r : polled (tresult ())) t c :
  transport_left t < n →
  let result := match r with
                | Ready (Ok _) => start_session n (with_transport t c)
                | Ready (Err e) => (Throw (CoreError_Transport e), with_transport t c)
                | Ready Panic => (Crash, with_transport t c)
                | Pending | Dropped => (Cancelled, with_transport t c)
                end in
  result.1 ≠ Stuck ∧ left result.2 ≤ transport_left t.
Proof. intros Ht. destruct r as [[]| |]; [by apply (returns_start n)|done..]. Qed.

Lemma returns_connect n : returns n (connect n).
Proof.
  intros c Hc. unfold connect. pose proof (connect_left (Client_transport c)) as Ht.
  unfold left in *. cbn.
  destruct (transport_connect (Client_transport c)) as [r t]. cbn in Ht.
  destruct (returns_open n r t (clear_sync_tracking (clear_tracking c))) as [? ?]; [lia|].
  split; [done|]. unfold left in *. lia.
Qed.

Lemma returns_reconnect n : returns n (reconnect n).
Proof.
  intros c Hc. unfold reconnect. pose proof (reconnect_left (Client_transport c)) as Ht.
  unfold left in *. rewrite mark_disconnected_transport.
  destruct (transport_reconnect (Client_transport c)) as [r t]. cbn in Ht.
  destruct (returns_open n r t (mark_disconnected c)) as [? ?]; [lia|].
  split; [done|]. unfold left in *. lia.
Qed.

Lemma returns_disconnect n : returns n disconnect.
Proof.
  intros c Hc. unfold disconnect, poll_disconnect, left.
  pose proof (disconnect_left (Client_transport c)) as Hd.
  destruct (transport_disconnect _) as [[[]| |] t]; cbn in *; by rewrite ?mark_disconnected_transport.
Qed.

(** ** Synchronization, ACKs and signing *)

Lemma returns_gets {A} n (f : Client T → A) : returns n (gets f).
Proof. intros c Hc. by split. Qed.

Lemma returns_parse n raw : returns n (parse_packet raw).
Proof.
  intros c Hc. unfold left. rewrite parse_packet_transport. split; [|done].
  unfold parse_packet. by repeat case_match.
Qed.

Lemma returns_absorb n p : returns n (modify (absorb p)).
Proof. apply returns_modify. intros ?. apply absorb_transport. Qed.

Lemma returns_drain_packet n raw next : returns n next → returns n (drain_packet raw next).
Proof.
  intros Hn. apply returns_bind; [apply returns_parse|]. intros p.
  destruct p; first [ returns_answer
    | apply returns_bind; [apply returns_absorb|by intros ?]
    | apply returns_bind; [apply returns_modify; intros ?; by rewrite publish_event_transport|];
      intros ?; apply returns_ret ].
Qed.

Lemma returns_drain n remaining : returns n (drain_loop remaining).
Proof.
  induction remaining as [|remaining IH]; intros c Hc; cbn [drain_loop];
    pose proof (try_read_left (Client_transport c)) as Ht; unfold left in *;
    destruct (transport_try_read (Client_transport c)) as [[[| |raw]|e|] t]; cbn in Ht; try done;
    try (split; [done|]; repeat case_match; cbn; by rewrite ?mark_disconnected_transport).
  all: match goal with |- (drain_packet ?raw ?next _).1 ≠ _ ∧ _ =>
         destruct (returns_drain_packet n raw next ltac:(first [exact IH|apply returns_throw])
           (with_transport t c)) as [? ?]; unfold left in *; cbn in *; [lia|split; [done|lia]] end.
Qed.

Lemma returns_sync n : returns n (client_sync_next_message n).
Proof.
  assert (returns n (wait_for_sync_response n)) as Hw.
  { apply returns_reply_loop. unfold sync_arm. returns_arm. }
  apply returns_bind; [apply returns_ensure|]. intros ?.
  apply returns_bind; [apply returns_gets|]. intros [ready|].
  { apply returns_bind; [by apply returns_modify|intros ?; apply returns_lift]. }
  apply returns_bind; [apply returns_drain|]. intros [ready|]; [apply returns_lift|].
  apply returns_bind; [apply returns_gets|]. intros state. case_bool_decide; [done|].
  apply returns_bind; [by apply returns_modify|]. intros ?.
  apply returns_bind; [apply returns_write|done].
Qed.

Lemma returns_ack_loop n code : returns n (ack_loop n code).
Proof.
  induction n as [|n IH]; intros c Hc; [lia|]. cbn [ack_loop]. unfold mbind, io_bind.
  pose proof (read_left_spec c) as Hr.
  destruct (read_next_packet_with_timeout c) as [[p| | | |] c1]; try done.
  assert (∀ f, (∀ c, Client_transport (f c) = Client_transport c) →
    (ack_loop n code (f c1)).1 ≠ Stuck ∧ left (ack_loop n code (f c1)).2 ≤ left c) as Hk.
  { intros f Hf. assert (left (f c1) = left c1) as Hl by (unfold left; by rewrite Hf).
    destruct (IH (f c1)) as [? ?]; [lia|]. split; [done|lia]. }
  assert (left (publish_event p (discard_pending_ack code c1)) = left c1) as Hp
    by (unfold left; by rewrite publish_event_transport).
  destruct p; unfold mret, io_ret, throw, modify; cbn -[absorb publish_event];
    try (apply Hk; intros ?; apply publish_event_transport); try (split; done || lia).
  case_bool_decide; cbn -[absorb publish_event]; [split; [done|lia]|].
  apply Hk. intros ?. apply absorb_transport.
Qed.

Lemma returns_wait_for_ack n code timeout : returns n (wait_for_ack n code timeout).
Proof.
  apply returns_bind; [apply returns_lift|]. intros ?.
  apply returns_bind; [apply returns_ensure|]. intros ? c Hc. unfold take_or_wait_for_ack.
  unfold take_completed_ack. destruct (tracker_take code (Client_completed c)) as [[ack|] t]; [done|].
  destruct (returns_ack_loop n code (with_completed t c) Hc) as [Hs Hl].
  by destruct (ack_loop n code _) as [[| | | |] c1].
Qed.

Lemma returns_sign n data : returns n (sign n data).
Proof.
  apply returns_bind; [returns_tac|]. intros limit. case_match; [apply returns_throw|].
  apply returns_bind; [|intros ?; returns_tac].
  induction (chunks SIGNING_CHUNK_BYTES data) as [|chunk rest IH]; [apply returns_ret|].
  apply returns_bind; [returns_tac|by intros ?].
Qed.

#[local] Hint Resolve returns_connect returns_init returns_disconnect returns_reconnect
  returns_snapshot returns_has_connection returns_sign returns_sync returns_wait_for_ack : returns.

Lemma operation_returns fuel A (m : io T A) : operation fuel A m → returns fuel m.
Proof.
  destruct 1;
    first [ solve [auto with nocore returns] | apply returns_disconnect_command
          | apply returns_bind; [apply returns_collect|intros ?; apply returns_ret]
          | returns_tac ].
Qed.

(** C36: every operation of a client, over a transport with fewer packets to come
    than there is fuel, comes to an end: with a result, an error, or cancelled at
    a call that never completed.  Its loops end, because every turn uses up a
    packet and the absence of packets is a timeout. *)
Theorem operations_terminate fuel A (m : io T A) c :
  operation fuel A m → transport_left (Client_transport c) < fuel → (m c).1 ≠ Stuck.
Proof. intros Ho Hl. by apply (operation_returns fuel A m Ho c Hl). Qed.
End termination.

Lemma operations_terminate_witness :
  (reconnect 3 (demo_client [ack_report; time_report])).1 ≠ Stuck.
Proof. apply (operations_terminate 3 _ (reconnect 3)); [apply op_reconnect|vm_compute; lia]. Defined.
