(* ===== verification/ClientRequests.v ===== *)
(** * What a request returns

    The functional behaviour of a request over the scripted transport: which
    answer it returns, which packets it takes, which events it publishes and
    which observation ids it gives to the messages it meets; the bounds of the
    remote response timeout. *)

From S2P Require Import Prelude Text Floats Domain Samples Packet PacketFacts Transport Framed Tracker Command.
From S2P Require Import CommandFacts Client ClientFacts ClientProps.

(** ** Observation ids *)

(** The packet with the observation id it is given, and the next id. *)
Definition stamp (id : u64) (packet : Packet) : Packet * u64 :=
  match packet with
  | Packet_ContactMsg m => (Packet_ContactMsg (set_observation_id id m), next_observation_id id)
  | Packet_ChannelMsg m => (Packet_ChannelMsg (set_observation_id id m), next_observation_id id)
  | packet => (packet, id)
  end.

Fixpoint stamped (id : u64) (packets : list Packet) : list Packet :=
  match packets with
  | [] => []
  | packet :: packets => (stamp id packet).1 :: stamped (stamp id packet).2 packets
  end.

Section requests.
  Context `{CratesLaws}.
  Implicit Types c : Client ScriptedTransport.

Lemma parse_stamp raw p c :
  Packet_parse raw = Ok p →
  parse_packet raw c =
    (Ret (stamp (Client_next_message_observation_id c) p).1,
     with_observation_id (stamp (Client_next_message_observation_id c) p).2 c).
Proof. intros Hp. unfold parse_packet. rewrite Hp. by destruct p, c. Qed.

(** Tracking only touches the two ACK tables. *)
Lemma update_tracking_frame p c :
  ∃ pending completed, update_tracking p c = with_completed completed (with_pending pending c).
Proof.
  destruct p; try (exists (Client_pending c), (Client_completed c); by destruct c); cbn.
  - by eexists _, _.
  - unfold take_pending_ack. destruct (tracker_take _ _) as [[t|] pending]; [by eexists _, _|].
    exists pending, (Client_completed c). by destruct c.
Qed.

Lemma absorb_spec p c :
  Client_sync_state c = SyncState_Idle →
  Client_sync_state (absorb p c) = SyncState_Idle ∧
  Client_connected (absorb p c) = Client_connected c ∧
  Client_next_message_observation_id (absorb p c) = Client_next_message_observation_id c ∧
  Client_events (absorb p c) = Client_events c ++ option_list (Packet_into_event p).
Proof.
  intros Hc. unfold absorb, publish_event. rewrite retain_idle by done.
  destruct (Packet_into_event p) as [e|];
    [destruct (update_tracking_frame p (send_event e c)) as (?&?&->)
    |destruct (update_tracking_frame p c) as (?&?&->); cbn; rewrite app_nil_r]; done.
Qed.

(** The client once the packets [skipped] are read and absorbed. *)
Record absorbed (c : Client ScriptedTransport) (packets : list Packet) (rest out : list bytes)
    (c' : Client ScriptedTransport) : Prop := {
  absorbed_transport : Client_transport c' = mkScripted (Scripted_kind (Client_transport c)) true rest out;
  absorbed_events : Client_events c' = Client_events c ++ omap Packet_into_event packets
}.

Lemma read_step c raw raws p :
  Scripted_connected (Client_transport c) = true →
  Scripted_incoming (Client_transport c) = raw :: raws → Packet_parse raw = Ok p →
  read_next_packet_with_timeout c =
    (Ret (stamp (Client_next_message_observation_id c) p).1,
     with_observation_id (stamp (Client_next_message_observation_id c) p).2
       (with_transport (mkScripted (Scripted_kind (Client_transport c)) true raws
                          (Scripted_outgoing (Client_transport c))) c)).
Proof.
  intros Hc Hi Hp. unfold read_next_packet_with_timeout, read_next_packet. cbn.
  unfold Scripted_read. rewrite Hc, Hi. cbn. by rewrite (parse_stamp raw p).
Qed.

Lemma reply_loop_answered {R} (arm : Packet → option (io ScriptedTransport R)) answer last
    raws raw rest packets packet :
  Forall2 (λ r p, Packet_parse r = Ok p) raws packets → Packet_parse raw = Ok packet →
  ∀ fuel c seen,
  Scripted_connected (Client_transport c) = true → Client_sync_state c = SyncState_Idle →
  Scripted_incoming (Client_transport c) = raws ++ raw :: rest →
  stamped (Client_next_message_observation_id c) (packets ++ [packet]) = seen ++ [last] →
  Forall (λ p, arm p = None) seen → arm last = Some answer → length raws < fuel →
  ∃ c', reply_loop fuel arm c = answer c' ∧
        absorbed c seen rest (Scripted_outgoing (Client_transport c)) c'.
Proof.
  intros Hps Hp. induction Hps as [|r p raws packets Hr Hps IH];
    intros fuel c seen Hc Hs Hi Hst Hseen Ha Hf; (destruct fuel as [|fuel]; [cbn in Hf; lia|]);
    cbn [reply_loop]; unfold mbind, io_bind; cbn in Hi.
  - rewrite (read_step c raw rest packet Hc Hi Hp).
    destruct seen as [|q seen]; [|by destruct seen]. cbn in Hst. simplify_eq. rewrite Ha.
    eexists. split; [done|]. split; [done|]. cbn. by rewrite app_nil_r.
  - rewrite (read_step c r _ p Hc Hi Hr). cbn in Hst.
    destruct seen as [|q seen]; [by destruct packets|]. cbn in Hst. injection Hst as Hq Hst.
    apply Forall_cons in Hseen as [Hn Hseen]. rewrite Hq, Hn. unfold modify.
    set (c1 := with_observation_id _ _).
    destruct (absorb_spec q c1 Hs) as (Hai&_&Hid&Hev).
    destruct (IH fuel (absorb q c1) seen) as (c'&Hl&Ht&He);
      rewrite ?absorb_transport, ?Hid; auto; [cbn in Hf; lia|].
    exists c'. split; [done|]. rewrite absorb_transport in Ht. rewrite Hev in He.
    split; [exact Ht|]. rewrite He. cbn. rewrite <- app_assoc. by destruct (Packet_into_event q).
Qed.

Lemma send_raw_scripted cmd c :
  1 ≤ length (Command_encode cmd) ≤ MAX_INNER_PAYLOAD →
  Scripted_connected (Client_transport c) = true → Client_sync_state c = SyncState_Idle →
  send_raw (Command_into_encoded cmd) c =
    (Ret (), with_transport (mkScripted (Scripted_kind (Client_transport c)) true
                (Scripted_incoming (Client_transport c))
                (Scripted_outgoing (Client_transport c) ++ [Command_encode cmd])) c).
Proof.
  change (Command_into_encoded cmd) with (Command_encode cmd).
  intros Hl Hc Hs. unfold send_raw, write_raw. rewrite Hs.
  rewrite bool_decide_false by done. rewrite bool_decide_false by (intros He; rewrite He in Hl; cbn in Hl; lia).
  replace (MAX_INNER_PAYLOAD <? length (Command_encode cmd)) with false
    by (symmetry; apply Nat.ltb_ge; lia).
  cbn. unfold Scripted_write. by rewrite Hc.
Qed.

(** C19: a request on a connected client, over a transport that delivers a given list of
    packets, of which those up to the answer parse, and with no inbox response
    outstanding, writes its command and returns what the first packet that answers it
    says; the packets before it are taken off the transport in order, each published as
    its event exactly once, with the messages among them numbered consecutively; the
    packets after it stay. *)
Theorem request_answered {R} fuel cmd (arm : Packet → option (io ScriptedTransport R)) answer c
    raws raw rest packets packet seen last :
  1 ≤ length (Command_encode cmd) ≤ MAX_INNER_PAYLOAD →
  Client_connected c = true → Scripted_connected (Client_transport c) = true →
  Client_sync_state c = SyncState_Idle →
  Scripted_incoming (Client_transport c) = raws ++ raw :: rest →
  Forall2 (λ r p, Packet_parse r = Ok p) raws packets → Packet_parse raw = Ok packet →
  stamped (Client_next_message_observation_id c) (packets ++ [packet]) = seen ++ [last] →
  Forall (λ p, arm p = None) seen → arm last = Some answer → length raws < fuel →
  ∃ c', request fuel cmd arm c = answer c' ∧
        Client_transport c' = mkScripted (Scripted_kind (Client_transport c)) true rest
          (Scripted_outgoing (Client_transport c) ++ [Command_encode cmd]) ∧
        Client_events c' = Client_events c ++ omap Packet_into_event seen.
Proof.
  intros Hl Hcc Hsc Hs Hi Hps Hp Hst Hseen Ha Hf.
  unfold request, mbind, io_bind, ensure_connected. rewrite Hcc.
  rewrite send_raw_scripted by done. set (c1 := with_transport _ c).
  destruct (reply_loop_answered arm answer last raws raw rest packets packet Hps Hp fuel c1 seen)
    as (c'&Hr&Ht&He); try done.
  exists c'. split; [done|]. split; [exact Ht|exact He].
Qed.

(** a request whose packets run out unanswered reports the end of the
    transport and leaves the client disconnected with nothing tracked. *)
Theorem request_unanswered {R} fuel cmd (arm : Packet → option (io ScriptedTransport R)) c
    raws packets :
  1 ≤ length (Command_encode cmd) ≤ MAX_INNER_PAYLOAD →
  Client_connected c = true → Scripted_connected (Client_transport c) = true →
  Client_sync_state c = SyncState_Idle →
  Scripted_incoming (Client_transport c) = raws →
  Forall2 (λ r p, Packet_parse r = Ok p) raws packets →
  Forall (λ p, arm p = None) (stamped (Client_next_message_observation_id c) packets) →
  length raws < fuel →
  ∃ c', request fuel cmd arm c = (Throw CoreError_Disconnected, c') ∧
        Client_connected c' = false ∧ tracker_map (Client_pending c') = ∅ ∧
        Client_events c' = Client_events c ++
          omap Packet_into_event (stamped (Client_next_message_observation_id c) packets) ++
          [Event_Disconnected].
Proof.
  intros Hl Hcc Hsc Hs Hi Hps Hn Hf.
  unfold request, mbind, io_bind, ensure_connected. rewrite Hcc.
  rewrite send_raw_scripted by done. set (c1 := with_transport _ c).
  change (Client_events c) with (Client_events c1).
  change (Client_next_message_observation_id c) with (Client_next_message_observation_id c1) in *.
  assert (Scripted_incoming (Client_transport c1) = raws) as Hi1 by done.
  assert (Scripted_connected (Client_transport c1) = true) as Hs1 by done.
  assert (Client_sync_state c1 = SyncState_Idle) as Hd1 by done.
  assert (Client_connected c1 = true) as Hc1 by done. clearbody c1. clear c Hcc Hsc Hs Hi Hl.
  revert fuel c1 Hn Hf Hi1 Hs1 Hd1 Hc1.
  induction Hps as [|r p raws packets Hr Hps IH]; intros fuel c Hn Hf Hi Hs Hd Hc;
    (destruct fuel as [|fuel]; [cbn in Hf; lia|]); cbn [reply_loop]; unfold mbind, io_bind.
  - unfold read_next_packet_with_timeout, read_next_packet. cbn. unfold Scripted_read.
    rewrite Hs, Hi. cbn. eexists. split; [done|]. unfold mark_disconnected. cbn. by rewrite Hc.
  - rewrite (read_step c r raws p Hs Hi Hr). cbn in Hn. apply Forall_cons in Hn as [Hn1 Hn].
    rewrite Hn1. unfold modify. set (q := (stamp _ p).1) in *. set (c1 := with_observation_id _ _).
    destruct (absorb_spec q c1 Hd) as (Hai&Hac&Hid&Hev).
    destruct (IH fuel (absorb q c1)) as (c'&Hl&Hcd&Hm&He);
      rewrite ?absorb_transport, ?Hid, ?Hac; auto; [cbn in Hf; lia|].
    exists c'. split_and!; try done. rewrite He, Hev, Hid.
    cbn. fold q. rewrite <- app_assoc. f_equal. by destruct (Packet_into_event q).
Qed.

(** ** Listing contacts *)

Definition contact_of (packet : Packet) : option Contact :=
  match packet with Packet_Contact contact => Some contact | _ => None end.
(** What the listing loop publishes: everything but the contacts it collects. *)
Definition bystander_event (packet : Packet) : option Event :=
  match packet with Packet_Contact _ => None | packet => Packet_into_event packet end.
Definition ends_listing (packet : Packet) : bool :=
  match packet with
  | Packet_ContactEnd _ | Packet_NoMoreMsgs | Packet_Error _ => true
  | _ => false
  end.

Lemma stamp_ends id p : ends_listing (stamp id p).1 = ends_listing p.
Proof. by destruct p. Qed.
Lemma stamp_contact id p : contact_of (stamp id p).1 = contact_of p.
Proof. by destruct p. Qed.

Lemma collect_loop_step fuel p cs c :
  ends_listing p = false → Client_sync_state c = SyncState_Idle →
  ∃ c', (match p with
         | Packet_Contact contact => collect_contacts_loop fuel (cs ++ [contact])
         | Packet_ContactEnd lastmod => mret (mkContactCollection cs (Some lastmod))
         | Packet_NoMoreMsgs => mret (mkContactCollection cs None)
         | Packet_Error _ => throw (CoreError_ProtocolInvariant "contact request returned an error")
         | other => _ ← modify (absorb other); collect_contacts_loop fuel cs
         end) c = collect_contacts_loop fuel (cs ++ option_list (contact_of p)) c' ∧
        Client_transport c' = Client_transport c ∧ Client_sync_state c' = SyncState_Idle ∧
        Client_next_message_observation_id c' = Client_next_message_observation_id c ∧
        Client_events c' = Client_events c ++ option_list (bystander_event p).
Proof.
  intros Hp Hs. destruct (contact_of p) as [contact|] eqn:E.
  { destruct p; try done. simplify_eq/=. exists c. by rewrite app_nil_r. }
  exists (absorb p c). destruct (absorb_spec p c Hs) as (?&_&?&He).
  rewrite absorb_transport, He. cbn. rewrite app_nil_r. by destruct p.
Qed.

Lemma collect_loop_spec raws raw rest packets lastmod :
  Forall2 (λ r p, Packet_parse r = Ok p) raws packets →
  Packet_parse raw = Ok (Packet_ContactEnd lastmod) → Forall (λ p, ends_listing p = false) packets →
  ∀ fuel c cs,
  Scripted_connected (Client_transport c) = true → Client_sync_state c = SyncState_Idle →
  Scripted_incoming (Client_transport c) = raws ++ raw :: rest → length raws < fuel →
  ∃ c', collect_contacts_loop fuel cs c =
          (Ret (mkContactCollection (cs ++ omap contact_of packets) (Some lastmod)), c') ∧
        Client_transport c' = mkScripted (Scripted_kind (Client_transport c)) true rest
          (Scripted_outgoing (Client_transport c)) ∧
        Client_events c' = Client_events c ++
          omap bystander_event (stamped (Client_next_message_observation_id c) packets).
Proof.
  intros Hps Hp. induction Hps as [|r p raws packets Hr Hps IH]; intros Hends fuel c cs Hc Hs Hi Hf;
    (destruct fuel as [|fuel]; [cbn in Hf; lia|]); cbn [collect_contacts_loop]; unfold mbind, io_bind;
    cbn in Hi.
  - rewrite (read_step c raw rest _ Hc Hi Hp). eexists. cbn. by rewrite !app_nil_r.
  - apply Forall_cons in Hends as [Hn Hends]. rewrite (read_step c r _ p Hc Hi Hr).
    set (q := (stamp _ p).1). set (c1 := with_observation_id _ _).
    destruct (collect_loop_step fuel q cs c1) as (c2&Hl&Ht&Hs2&Hid&He);
      [by unfold q; rewrite stamp_ends|done|]. unfold mbind, io_bind in Hl. rewrite Hl.
    destruct (IH Hends fuel c2 (cs ++ option_list (contact_of q))) as (c'&Hl'&Ht'&He');
      rewrite ?Ht; auto; [cbn in Hf; lia|]. rewrite Ht in Ht'.
    exists c'. split; [|split; [exact Ht'|]].
    + rewrite Hl'. unfold q. rewrite stamp_contact, <- app_assoc. cbn.
      by destruct (contact_of p).
    + rewrite He', He, Hid, <- app_assoc. cbn. fold q. by destruct (bystander_event q).
Qed.

(** listing contacts returns the contacts the device reports, all of them,
    in order and once, with the device's last-modified mark; the other packets
    that arrive in between are published as events in order. *)
Theorem list_contacts_complete fuel since c raws raw rest packets lastmod :
  Client_connected c = true → Scripted_connected (Client_transport c) = true →
  Client_sync_state c = SyncState_Idle →
  Scripted_incoming (Client_transport c) = raws ++ raw :: rest →
  Forall2 (λ r p, Packet_parse r = Ok p) raws packets →
  Packet_parse raw = Ok (Packet_ContactEnd lastmod) →
  Forall (λ p, ends_listing p = false) packets → length raws < fuel →
  ∃ c', list_contacts_snapshot fuel since c =
          (Ret (mkContactSnapshot (omap contact_of packets) lastmod), c') ∧
        Client_transport c' = mkScripted (Scripted_kind (Client_transport c)) true rest
          (Scripted_outgoing (Client_transport c) ++ [Command_encode (get_contacts since)]) ∧
        Client_events c' = Client_events c ++
          omap bystander_event (stamped (Client_next_message_observation_id c) packets).
Proof.
  intros Hcc Hsc Hs Hi Hps Hp Hends Hf.
  unfold list_contacts_snapshot, collect_contacts, mbind, io_bind, ensure_connected. rewrite Hcc.
  rewrite send_raw_scripted; [|by destruct since; vm_compute; lia|done..].
  set (c1 := with_transport _ c).
  destruct (collect_loop_spec raws raw rest packets lastmod Hps Hp Hends fuel c1 []) as (c'&->&Ht&He);
    try done.
  exists c'. split; [done|]. split; [exact Ht|exact He].
Qed.
End requests.

(** ** The deadline of a remote reply *)

(** The wait for a remote node is at least the request timeout and at least the
    firmware's suggestion with a second to spare, up to a minute. *)
Lemma remote_response_timeout_bounds {T} (c : Client T) ms :
  (0 ≤ ms < 2 ^ 32)%Z → (0 < Client_request_timeout c)%Z →
  let t := remote_response_timeout c ms in
  (0 < t ≤ MAX_REMOTE_RESPONSE_TIMEOUT)%Z ∧
  (Client_request_timeout c ≤ MAX_REMOTE_RESPONSE_TIMEOUT → Client_request_timeout c ≤ t)%Z ∧
  (ms * 1000000 + NANOS_PER_SEC ≤ MAX_REMOTE_RESPONSE_TIMEOUT → ms * 1000000 + NANOS_PER_SEC ≤ t)%Z.
Proof.
  intros Hms Hc t. unfold t, remote_response_timeout, MAX_REMOTE_RESPONSE_TIMEOUT, DURATION_MAX,
    NANOS_PER_SEC. split_and!; lia.
Qed.

(** ** Concrete runs *)

Definition time_arm : Packet → option (io ScriptedTransport u32) :=
  expect_arm "time query" (λ p, match p with Packet_CurrentTime value => Some value | _ => None end).
Definition seen_ack : Packet := Packet_Ack (mkAck [1; 2; 3; 4]%Z None).

Lemma ack_report_parses : Packet_parse ack_report = Ok seen_ack.
Proof. vm_compute. reflexivity. Qed.

Lemma time_report_parses : Packet_parse time_report = Ok (Packet_CurrentTime 1).
Proof. vm_compute. reflexivity. Qed.

Lemma time_fits : 1 ≤ length (Command_encode get_time) ≤ MAX_INNER_PAYLOAD.
Proof. vm_compute. lia. Qed.

Lemma request_answered_witness :
  ∃ c', client_get_time 2 (demo_client [ack_report; time_report; [0]%Z]) = (Ret 1%Z, c') ∧
        Client_transport c' = mkScripted TransportKind_Scripted true [[0]%Z] [Command_encode get_time] ∧
        Client_events c' = [Event_Ack (mkAck [1; 2; 3; 4]%Z None)].
Proof.
  destruct (request_answered 2 get_time time_arm (mret 1%Z) (demo_client [ack_report; time_report; [0]%Z])
           [ack_report] time_report [[0]%Z] [seen_ack] (Packet_CurrentTime 1) [seen_ack]
           (Packet_CurrentTime 1) time_fits eq_refl eq_refl eq_refl eq_refl) as (c'&Hr&Ht&He).
  - constructor; [exact ack_report_parses|constructor].
  - exact time_report_parses.
  - reflexivity.
  - repeat constructor.
  - reflexivity.
  - simpl. lia.
  - exists c'. split; [exact Hr|]. split; [exact Ht|]. exact He.
Defined.

Lemma request_unanswered_witness :
  ∃ c', client_get_time 2 (demo_client [ack_report]) = (Throw CoreError_Disconnected, c') ∧
        Client_connected c' = false ∧ tracker_map (Client_pending c') = ∅ ∧
        Client_events c' = [Event_Ack (mkAck [1; 2; 3; 4]%Z None); Event_Disconnected].
Proof.
  destruct (request_unanswered 2 get_time time_arm (demo_client [ack_report]) [ack_report] [seen_ack]
           time_fits eq_refl eq_refl eq_refl eq_refl) as (c'&Hr&Hc&Hp&He).
  - constructor; [exact ack_report_parses|constructor].
  - repeat constructor.
  - simpl. lia.
  - exists c'. split; [exact Hr|]. split; [exact Hc|]. split; [exact Hp|]. exact He.
Defined.

Lemma list_contacts_complete_witness :
  ∃ c', list_contacts_snapshot 2 None (demo_client [ack_report; [4; 7; 0; 0; 0]%Z]) =
          (Ret (mkContactSnapshot [] 7), c') ∧
        Client_events c' = [Event_Ack (mkAck [1; 2; 3; 4]%Z None)].
Proof.
  destruct (list_contacts_complete 2 None (demo_client [ack_report; [4; 7; 0; 0; 0]%Z])
              [ack_report] [4; 7; 0; 0; 0]%Z [] [seen_ack] 7 eq_refl eq_refl eq_refl eq_refl)
    as (c'&Hr&_&He).
  - constructor; [exact ack_report_parses|constructor].
  - vm_compute. reflexivity.
  - repeat constructor.
  - simpl. lia.
  - exists c'. split; [exact Hr|exact He].
Defined.
