(* ===== verification/Managed.v ===== *)
(** * The managed client (crates/meshquill-core/src/managed.rs)

    One actor task owns a [Client]; handles put commands into its bounded queue,
    each with the generation of the cancellation epoch it was made under, and
    wait on a reply channel.  [handle_command] is the dispatch, indexed by the
    type of the reply; [handle_optional_command] is one turn of the actor.

    [Managed] is the state of the whole system: the client, the requests that
    wait for a place in the queue, the queue, the epoch, and what became of every
    request.  [managed_step] is the interleaving: callers that make, abandon and
    cancel requests, and the actor that reads events while idle, runs commands
    and leaves.  A turn is one step, since nothing but the client is touched
    while an operation runs; when the operation is dropped, the step includes the
    cancellation that dropped it. *)

From S2P Require Import Prelude Text Floats Domain Samples Packet PacketFacts Transport Framed Tracker Command.
From S2P Require Import CommandFacts Client ClientFacts.

Definition MANAGED_CLIENT_COMMAND_CAPACITY : usize := 32.

(** ** Commands, by the type of their reply *)

Inductive ActorCommand : Type → Type :=
| ActorCommand_Connect : ActorCommand SelfInfo
| ActorCommand_Disconnect : ActorCommand ()
| ActorCommand_Reconnect : ActorCommand SelfInfo
| ActorCommand_QueryDeviceInfo : ActorCommand DeviceInfo
| ActorCommand_ListContacts (lastmod : option u32) : ActorCommand (list Contact)
| ActorCommand_ListContactsSnapshot (lastmod : option u32) : ActorCommand ContactSnapshot
| ActorCommand_GetTime : ActorCommand u32
| ActorCommand_SetTime (value : u32) : ActorCommand ()
| ActorCommand_GetBattery : ActorCommand BatteryInfo
| ActorCommand_SendSelfAdvert (flood : bool) : ActorCommand ()
| ActorCommand_SetAdvertName (name : rstring) : ActorCommand ()
| ActorCommand_SetCoordinates (latitude longitude : f64) : ActorCommand ()
| ActorCommand_SetTxPower (power_dbm : i8) : ActorCommand ()
| ActorCommand_SetRadioParams (params : RadioParams) : ActorCommand ()
| ActorCommand_SetTuning (params : TuningParams) : ActorCommand ()
| ActorCommand_GetTuning : ActorCommand TuningParams
| ActorCommand_ResetPath (public_key : bytes) : ActorCommand ()
| ActorCommand_UpdateContact (contact : Contact) : ActorCommand ()
| ActorCommand_ShareContact (public_key : bytes) : ActorCommand ()
| ActorCommand_ExportContact (public_key : option bytes) : ActorCommand ContactUri
| ActorCommand_ImportContact (card : bytes) : ActorCommand ()
| ActorCommand_GetContact (public_key : bytes) : ActorCommand Contact
| ActorCommand_GetAdvertPath (public_key : bytes) : ActorCommand AdvertPath
| ActorCommand_SetAutoAddConfig (config : AutoAddConfig) : ActorCommand ()
| ActorCommand_GetAutoAddConfig : ActorCommand AutoAddConfig
| ActorCommand_GetCustomVars : ActorCommand CustomVariables
| ActorCommand_SetCustomVar (key value : rstring) : ActorCommand ()
| ActorCommand_GetStats (stats_type : StatsType) : ActorCommand DeviceStats
| ActorCommand_GetAllowedRepeatFrequencies : ActorCommand (list FrequencyRange)
| ActorCommand_SetPathHashMode (mode : u8) : ActorCommand ()
| ActorCommand_GetPathHashMode : ActorCommand u8
| ActorCommand_SetFloodScope (scope : FloodScope) : ActorCommand ()
| ActorCommand_SetDefaultFloodScope (name : rstring) (key : bytes) : ActorCommand ()
| ActorCommand_ClearDefaultFloodScope : ActorCommand ()
| ActorCommand_GetDefaultFloodScope : ActorCommand DefaultFloodScope
| ActorCommand_GetChannel (idx : u8) : ActorCommand ChannelInfo
| ActorCommand_SetChannel (idx : u8) (name : rstring) (secret : bytes) : ActorCommand ()
| ActorCommand_ClearChannel (idx : u8) : ActorCommand ()
| ActorCommand_RemoveContact (public_key : bytes) : ActorCommand ()
| ActorCommand_Login (public_key : bytes) (password : rstring) : ActorCommand LoginSession
| ActorCommand_Logout (public_key : bytes) : ActorCommand ()
| ActorCommand_HasConnection (public_key : bytes) : ActorCommand bool
| ActorCommand_RemoteStatus (public_key : bytes) : ActorCommand RemoteStatus
| ActorCommand_GetSelfTelemetry : ActorCommand TelemetryResponse
| ActorCommand_BinaryRequest (public_key : bytes) (request_type : u8) (data : bytes)
    : ActorCommand BinaryResponse
| ActorCommand_AnonymousRequest (public_key : bytes) (request_type : u8) 
    (reply_route : ContactRoute) (reply_path : Path) : ActorCommand BinaryResponse
| ActorCommand_SendNodeDiscovery (filter : u8) (prefix_only : bool) (tag : u32) (since : option u32)
    : ActorCommand ()
| ActorCommand_DiscoverPath (public_key : bytes) : ActorCommand PathDiscovery
| ActorCommand_Sign (data : bytes) : ActorCommand Signature
| ActorCommand_ExportPrivateKey : ActorCommand PrivateKeyMaterial
| ActorCommand_ImportPrivateKey (key : PrivateKeyMaterial) : ActorCommand ()
| ActorCommand_SetDevicePin (pin : u32) : ActorCommand ()
| ActorCommand_Reboot : ActorCommand ()
| ActorCommand_FactoryReset : ActorCommand ()
| ActorCommand_SendDirectText (destination_prefix : bytes) (attempt : u8) (text : rstring)
    : ActorCommand CommandTracking
| ActorCommand_SendDirectCommand (destination_prefix : bytes) (attempt : u8) 
    (command_text : rstring) : ActorCommand CommandTracking
| ActorCommand_SendChannelMessage (channel txt_type : u8) (text : rstring) : ActorCommand ()
| ActorCommand_SyncNextMessage : ActorCommand (option Message)
| ActorCommand_WaitForAck (ack_code : bytes) (request_timeout : option Z) : ActorCommand Ack
| ActorCommand_Shutdown : ActorCommand ().

(** The arguments are values of their Rust types. *)
Definition command_wf {A} (command : ActorCommand A) : Prop :=
  match command with
  | ActorCommand_SetAdvertName name => is_rstring name
  | ActorCommand_SetTxPower power_dbm => is_sint 8 power_dbm
  | ActorCommand_SetRadioParams params => is_uint 32 (RadioParams_frequency_khz params)
  | ActorCommand_ResetPath public_key => is_bytes public_key
  | ActorCommand_UpdateContact contact =>
      wf_Contact contact ∧ wf_ContactRoute (Contact_route contact)
  | ActorCommand_ShareContact public_key => is_bytes public_key
  | ActorCommand_ExportContact public_key => opt_wf is_bytes public_key
  | ActorCommand_ImportContact card => is_bytes card
  | ActorCommand_GetContact public_key => is_bytes public_key
  | ActorCommand_GetAdvertPath public_key => is_bytes public_key
  | ActorCommand_SetAutoAddConfig config =>
      is_u8 (AutoAddConfig_config config) ∧ opt_wf is_u8 (AutoAddConfig_max_hops config)
  | ActorCommand_SetCustomVar key value => is_rstring key ∧ is_rstring value
  | ActorCommand_SetPathHashMode mode => is_u8 mode
  | ActorCommand_SetDefaultFloodScope name key => is_rstring name ∧ is_arr 16 key
  | ActorCommand_SetChannel idx name secret => is_u8 idx ∧ is_rstring name ∧ is_arr 16 secret
  | ActorCommand_RemoveContact public_key => is_bytes public_key
  | ActorCommand_Login public_key password => is_bytes public_key ∧ is_rstring password
  | ActorCommand_Logout public_key => is_bytes public_key
  | ActorCommand_HasConnection public_key => is_bytes public_key
  | ActorCommand_RemoteStatus public_key => is_bytes public_key
  | ActorCommand_BinaryRequest public_key request_type data =>
      is_bytes public_key ∧ is_u8 request_type ∧ is_bytes data
  | ActorCommand_AnonymousRequest public_key request_type reply_route reply_path =>
      is_bytes public_key ∧ is_u8 request_type ∧ wf_ContactRoute reply_route ∧
      wf_Path reply_path
  | ActorCommand_SendNodeDiscovery filter _ _ _ => is_u8 filter
  | ActorCommand_DiscoverPath public_key => is_bytes public_key
  | ActorCommand_Sign data => is_bytes data
  | _ => True
  end.

(** [!matches!(&queued.command, ActorCommand::WaitForAck { .. })]. *)
Definition disconnect_on_interrupt {A} (command : ActorCommand A) : bool :=
  match command with ActorCommand_WaitForAck _ _ => false | _ => true end.

(** What [handle_command] returns: whether the actor goes on. *)
Definition stays_running {A} (command : ActorCommand A) : bool :=
  match command with ActorCommand_Shutdown => false | _ => true end.

(** ** One turn of the actor *)

(** A command in the queue; the ticket is the identity of its reply channel. *)
Record QueuedCommand := mkQueued {
  Queued_ticket : nat;
  Queued_reply : Type;
  Queued_command : ActorCommand Queued_reply;
  Queued_generation : u64
}.

(** What the caller of a request finds on its reply channel: the result, or that
    the sender is gone ([CoreError::ActorStopped]). *)
Inductive Outcome :=
| Replied {A : Type} (result : outcome CoreError A)
| Unanswered.

Inductive Turn :=
| Turn_Closed
| Turn_Stale
| Turn_Replied (running : bool) (reply : Outcome)
| Turn_Interrupted (running : bool)
| Turn_Panicked
| Turn_Stuck.

Section actor.
  Context `{Crates} {T : Type} `{Transport T}.
  Implicit Types c : Client T.

Definition bounded_disconnect : io T () := λ c,
  if negb (Client_connected c) then (Ret (), c)
  else
    match poll_disconnect c with
    | (Ready r, c) => (r, c)
    | (Pending, c) => (Throw CoreError_Timeout, c)
    | (Dropped, c) => (Cancelled, c)
    end.

(** The dispatch: the operation whose result is sent to the caller.  [now] is the
    clock the message operations read. *)
Definition handle_command (fuel : nat) (now : Z) {A} (command : ActorCommand A) : io T A :=
  match command with
  | ActorCommand_Connect => connect fuel
  | ActorCommand_Disconnect => disconnect
  | ActorCommand_Reconnect => reconnect fuel
  | ActorCommand_QueryDeviceInfo => query_device_info fuel
  | ActorCommand_ListContacts lastmod => list_contacts fuel lastmod
  | ActorCommand_ListContactsSnapshot lastmod => list_contacts_snapshot fuel lastmod
  | ActorCommand_GetTime => client_get_time fuel
  | ActorCommand_SetTime value => client_set_time fuel value
  | ActorCommand_GetBattery => client_get_battery fuel
  | ActorCommand_SendSelfAdvert flood => client_send_self_advert fuel flood
  | ActorCommand_SetAdvertName name => client_set_advert_name fuel name
  | ActorCommand_SetCoordinates latitude longitude => client_set_coordinates fuel latitude longitude
  | ActorCommand_SetTxPower power_dbm => client_set_tx_power fuel power_dbm
  | ActorCommand_SetRadioParams params => client_set_radio_params fuel params
  | ActorCommand_SetTuning params => client_set_tuning fuel params
  | ActorCommand_GetTuning => client_get_tuning fuel
  | ActorCommand_ResetPath public_key => client_reset_path fuel public_key
  | ActorCommand_UpdateContact contact => client_update_contact fuel contact
  | ActorCommand_ShareContact public_key => client_share_contact fuel public_key
  | ActorCommand_ExportContact public_key => client_export_contact fuel public_key
  | ActorCommand_ImportContact card => client_import_contact fuel card
  | ActorCommand_GetContact public_key => client_get_contact fuel public_key
  | ActorCommand_GetAdvertPath public_key => client_get_advert_path fuel public_key
  | ActorCommand_SetAutoAddConfig config => client_set_auto_add_config fuel config
  | ActorCommand_GetAutoAddConfig => client_get_auto_add_config fuel
  | ActorCommand_GetCustomVars => client_get_custom_vars fuel
  | ActorCommand_SetCustomVar key value => client_set_custom_var fuel key value
  | ActorCommand_GetStats stats_type => client_get_stats fuel stats_type
  | ActorCommand_GetAllowedRepeatFrequencies => client_get_allowed_repeat_frequencies fuel
  | ActorCommand_SetPathHashMode mode => client_set_path_hash_mode fuel mode
  | ActorCommand_GetPathHashMode => client_get_path_hash_mode fuel
  | ActorCommand_SetFloodScope scope => client_set_flood_scope fuel scope
  | ActorCommand_SetDefaultFloodScope name key => client_set_default_flood_scope fuel name key
  | ActorCommand_ClearDefaultFloodScope => client_clear_default_flood_scope fuel
  | ActorCommand_GetDefaultFloodScope => client_get_default_flood_scope fuel
  | ActorCommand_GetChannel idx => client_get_channel fuel idx
  | ActorCommand_SetChannel idx name secret => client_set_channel fuel idx name secret
  | ActorCommand_ClearChannel idx => client_clear_channel fuel idx
  | ActorCommand_RemoveContact public_key => client_remove_contact fuel public_key
  | ActorCommand_Login public_key password => login fuel public_key password
  | ActorCommand_Logout public_key => client_logout fuel public_key
  | ActorCommand_HasConnection public_key => client_has_connection fuel public_key
  | ActorCommand_RemoteStatus public_key => remote_status fuel public_key
  | ActorCommand_GetSelfTelemetry => client_get_self_telemetry fuel
  | ActorCommand_BinaryRequest public_key request_type data =>
      binary_request fuel public_key request_type data
  | ActorCommand_AnonymousRequest public_key request_type reply_route reply_path =>
      anonymous_request fuel public_key request_type reply_route reply_path
  | ActorCommand_SendNodeDiscovery filter prefix_only tag since =>
      client_send_node_discovery fuel filter prefix_only tag since
  | ActorCommand_DiscoverPath public_key => client_discover_path fuel public_key
  | ActorCommand_Sign data => sign fuel data
  | ActorCommand_ExportPrivateKey => client_export_private_key fuel
  | ActorCommand_ImportPrivateKey key => client_import_private_key fuel key
  | ActorCommand_SetDevicePin pin => client_set_device_pin fuel pin
  | ActorCommand_Reboot => client_reboot
  | ActorCommand_FactoryReset => client_factory_reset
  | ActorCommand_SendDirectText destination_prefix attempt text =>
      client_send_direct_text fuel now destination_prefix attempt text
  | ActorCommand_SendDirectCommand destination_prefix attempt command_text =>
      client_send_direct_command fuel now destination_prefix attempt command_text
  | ActorCommand_SendChannelMessage channel txt_type text =>
      send_channel_message fuel now channel txt_type text
  | ActorCommand_SyncNextMessage => client_sync_next_message fuel
  | ActorCommand_WaitForAck ack_code request_timeout => wait_for_ack fuel ack_code request_timeout
  | ActorCommand_Shutdown => bounded_disconnect
  end.

(** [handle_optional_command].  The disconnect after an interruption is not
    itself interrupted: a call that does not complete meets the deadline. *)
Definition handle_optional_command (fuel : nat) (now : Z) (current_generation : u64)
    (queued : option QueuedCommand) c : Turn * Client T :=
  match queued with
  | None => (Turn_Closed, c)
  | Some queued =>
      if negb (bool_decide (Queued_generation queued = current_generation)) then (Turn_Stale, c)
      else
        let command := Queued_command queued in
        match handle_command fuel now command c with
        | (Ret a, c) => (Turn_Replied (stays_running command) (Replied (Ok a)), c)
        | (Throw e, c) =>
            (Turn_Replied (stays_running command)
               (Replied (Err e : outcome CoreError (Queued_reply queued))), c)
        | (Crash, c) => (Turn_Panicked, c)
        | (Stuck, c) => (Turn_Stuck, c)
        | (Cancelled, c) =>
            if negb (disconnect_on_interrupt command) then (Turn_Interrupted true, c)
            else
              match poll_disconnect c with
              | (Ready Crash, c) => (Turn_Panicked, c)
              | (Ready _, c) => (Turn_Interrupted true, c)
              | (_, c) => (Turn_Interrupted false, c)
              end
        end
  end.
End actor.

(** ** The system *)

(** [Status_Leaving]: the loop of [run_actor] has ended, its last disconnect has
    not. *)
Inductive Status := Status_Looping | Status_Leaving | Status_Stopped | Status_Panicked.
#[global] Instance Status_eq_dec : EqDecision Status.
Proof. solve_decision. Defined.

(** The channels between the handles and the actor: the senders waiting for a
    place, the queue, the cancellation epoch, and whether a handle is left. *)
Record Channels := mkChannels {
  Channels_waiting : list QueuedCommand;
  Channels_queue : list QueuedCommand;
  Channels_capacity : usize;
  Channels_epoch : u64;
  Channels_handles : bool
}.

(** What the callers have called, in order. *)
Inductive Call :=
| Call_Request {A : Type} (command : ActorCommand A)
| Call_Cancel.

(** What has happened: the next ticket, the outcome of every request that has
    one, the tickets in the order they entered the queue, the tickets whose
    operation was run, the number of cancellations, and the calls. *)
Record Ledger := mkLedger {
  Ledger_next : nat;
  Ledger_outcomes : gmap nat Outcome;
  Ledger_entered : list nat;
  Ledger_executed : list nat;
  Ledger_cancels : nat;
  Ledger_calls : list Call
}.

Record Managed (T : Type) := mkManaged {
  Managed_client : Client T;
  Managed_status : Status;
  Managed_channels : Channels;
  Managed_ledger : Ledger
}.
Arguments mkManaged {T} _ _ _ _.
Arguments Managed_client {T} _.
Arguments Managed_status {T} _.
Arguments Managed_channels {T} _.
Arguments Managed_ledger {T} _.

Abbreviation tickets := (fmap Queued_ticket) (only parsing).
Definition resolve (outcome : Outcome) (ks : list nat) (outcomes : gmap nat Outcome)
    : gmap nat Outcome := foldr (λ k, <[k := outcome]>) outcomes ks.

Definition with_queue (waiting queue : list QueuedCommand) (ch : Channels) : Channels :=
  mkChannels waiting queue (Channels_capacity ch) (Channels_epoch ch) (Channels_handles ch).
Definition with_outcomes (outcomes : gmap nat Outcome) (l : Ledger) : Ledger :=
  mkLedger (Ledger_next l) outcomes (Ledger_entered l) (Ledger_executed l) (Ledger_cancels l) (Ledger_calls l).
Definition with_executed (executed : list nat) (l : Ledger) : Ledger :=
  mkLedger (Ledger_next l) (Ledger_outcomes l) (Ledger_entered l) executed (Ledger_cancels l) (Ledger_calls l).

Section system.
  Context `{Crates} {T : Type} `{Transport T}.
  Implicit Types (s : Managed T) (c : Client T).

(** *** The handles *)

Definition spawn_inner c (command_capacity : usize) : Managed T :=
  mkManaged c Status_Looping (mkChannels [] [] command_capacity 0 true) (mkLedger 0 ∅ [] [] 0 []).
Definition spawn c : Managed T := spawn_inner c MANAGED_CLIENT_COMMAND_CAPACITY.
Definition spawn_with_capacity c (command_capacity : usize) : outcome CoreError (Managed T) :=
  if command_capacity =? 0 then
    invalid_argument "command_capacity" "must be greater than zero"
  else Ok (spawn_inner c command_capacity).

(** The first half of [request]: the generation is read, and the command waits
    for a place in the queue. *)
Definition request_begin {A} (command : ActorCommand A) s : Managed T :=
  let ch := Managed_channels s in
  let l := Managed_ledger s in
  let queued := mkQueued (Ledger_next l) A command (Channels_epoch ch) in
  mkManaged (Managed_client s) (Managed_status s)
    (with_queue (Channels_waiting ch ++ [queued]) (Channels_queue ch) ch)
    (mkLedger (S (Ledger_next l)) (Ledger_outcomes l) (Ledger_entered l) (Ledger_executed l)
       (Ledger_cancels l) (Ledger_calls l ++ [Call_Request command])).

(** [self.command_tx.send(..)] completes: the command enters the queue. *)
Definition request_send (waiting : list QueuedCommand) (queued : QueuedCommand) s : Managed T :=
  let ch := Managed_channels s in
  let l := Managed_ledger s in
  mkManaged (Managed_client s) (Managed_status s)
    (with_queue waiting (Channels_queue ch ++ [queued]) ch)
    (mkLedger (Ledger_next l) (Ledger_outcomes l) (Ledger_entered l ++ [Queued_ticket queued])
       (Ledger_executed l) (Ledger_cancels l) (Ledger_calls l)).

(** The caller gives up before its command is queued, or the queue is closed. *)
Definition request_fail (waiting : list QueuedCommand) (queued : QueuedCommand) s : Managed T :=
  let ch := Managed_channels s in
  let l := Managed_ledger s in
  mkManaged (Managed_client s) (Managed_status s) (with_queue waiting (Channels_queue ch) ch)
    (with_outcomes (resolve Unanswered [Queued_ticket queued] (Ledger_outcomes l)) l).

(** [generation.wrapping_add(1)]. *)
Definition cancel_pending_operations s : Managed T :=
  let ch := Managed_channels s in
  let l := Managed_ledger s in
  mkManaged (Managed_client s) (Managed_status s)
    (mkChannels (Channels_waiting ch) (Channels_queue ch) (Channels_capacity ch)
       (to_unsigned 64 (Channels_epoch ch + 1)) (Channels_handles ch))
    (mkLedger (Ledger_next l) (Ledger_outcomes l) (Ledger_entered l) (Ledger_executed l)
       (S (Ledger_cancels l)) (Ledger_calls l ++ [Call_Cancel])).

(** The last handle goes away. *)
Definition drop_handles s : Managed T :=
  let ch := Managed_channels s in
  mkManaged (Managed_client s) (Managed_status s)
    (mkChannels (Channels_waiting ch) (Channels_queue ch) (Channels_capacity ch)
       (Channels_epoch ch) false)
    (Managed_ledger s).

(** *** The actor *)

(** The receiver is dropped with the actor, and with it the queued commands. *)
Definition close (status : Status) c s : Managed T :=
  let ch := Managed_channels s in
  let l := Managed_ledger s in
  mkManaged c status (with_queue (Channels_waiting ch) [] ch)
    (with_outcomes (resolve Unanswered (tickets (Channels_queue ch)) (Ledger_outcomes l)) l).

(** An idle turn of [run_actor]: an event is read, or the read is abandoned. *)
Definition idle_turn s : Managed T :=
  match next_event (Managed_client s) with
  | (Ready Crash, c) => close Status_Panicked c s
  | (_, c) => mkManaged c (Managed_status s) (Managed_channels s) (Managed_ledger s)
  end.

Definition leave_loop (running : bool) : Status :=
  if running then Status_Looping else Status_Leaving.

(** The command [queued] leaves the queue with [outcome]. *)
Definition finish_command (queued : QueuedCommand) (rest : list QueuedCommand) (executed running : bool)
    (outcome : Outcome) c s : Managed T :=
  let ch := Managed_channels s in
  let l := Managed_ledger s in
  let k := Queued_ticket queued in
  mkManaged c (leave_loop running) (with_queue (Channels_waiting ch) rest ch)
    (with_outcomes (resolve outcome [k] (Ledger_outcomes l))
       (if executed then with_executed (Ledger_executed l ++ [k]) l else l)).

(** A turn of [run_actor] with a command; [None] when the operation needs more
    fuel. *)
Definition command_turn (fuel : nat) (now : Z) (queued : QueuedCommand)
    (rest : list QueuedCommand) s : option (Managed T) :=
  let '(turn, c) := handle_optional_command fuel now (Channels_epoch (Managed_channels s))
                      (Some queued) (Managed_client s) in
  match turn with
  | Turn_Stale => Some (finish_command queued rest false true Unanswered c s)
  | Turn_Replied running reply => Some (finish_command queued rest true running reply c s)
  | Turn_Interrupted running =>
      Some (cancel_pending_operations (finish_command queued rest true running Unanswered c s))
  | Turn_Panicked => Some (close Status_Panicked c s)
  | Turn_Closed | Turn_Stuck => None
  end.
Definition interrupted (fuel : nat) (now : Z) (queued : QueuedCommand) s : bool :=
  match (handle_optional_command fuel now (Channels_epoch (Managed_channels s))
           (Some queued) (Managed_client s)).1 with
  | Turn_Interrupted _ => true
  | _ => false
  end.

(** [command_rx.recv()] returns [None]. *)
Definition closed_turn s : Managed T :=
  mkManaged (Managed_client s) Status_Leaving (Managed_channels s) (Managed_ledger s).

(** The end of [run_actor]. *)
Definition finish s : Managed T :=
  let c := Managed_client s in
  close Status_Stopped (if Client_connected c then (bounded_disconnect c).2 else c) s.

(** ** The interleaving *)

(** What happens without a caller making, abandoning or cancelling anything. *)
Inductive progress_step : Managed T → Managed T → Prop :=
| step_send s before queued after :
    Managed_status s ∈ [Status_Looping; Status_Leaving] →
    Channels_waiting (Managed_channels s) = before ++ queued :: after →
    length (Channels_queue (Managed_channels s)) < Channels_capacity (Managed_channels s) →
    progress_step s (request_send (before ++ after) queued s)
| step_refused s before queued after :
    Managed_status s ∈ [Status_Stopped; Status_Panicked] →
    Channels_waiting (Managed_channels s) = before ++ queued :: after →
    progress_step s (request_fail (before ++ after) queued s)
| step_command fuel now s queued rest s' :
    Managed_status s = Status_Looping →
    Channels_queue (Managed_channels s) = queued :: rest →
    command_turn fuel now queued rest s = Some s' →
    interrupted fuel now queued s = false →
    progress_step s s'
| step_closed s :
    Managed_status s = Status_Looping →
    Channels_queue (Managed_channels s) = [] → Channels_handles (Managed_channels s) = false →
    progress_step s (closed_turn s)
| step_finish s :
    Managed_status s = Status_Leaving → progress_step s (finish s).

Inductive managed_step : Managed T → Managed T → Prop :=
| step_progress s s' : progress_step s s' → managed_step s s'
| step_request s A (command : ActorCommand A) :
    Channels_handles (Managed_channels s) = true → command_wf command →
    managed_step s (request_begin command s)
| step_withdraw s before queued after :
    Channels_waiting (Managed_channels s) = before ++ queued :: after →
    managed_step s (request_fail (before ++ after) queued s)
| step_cancel s :
    Channels_handles (Managed_channels s) = true →
    managed_step s (cancel_pending_operations s)
| step_drop s :
    Channels_waiting (Managed_channels s) = [] → managed_step s (drop_handles s)
| step_idle s :
    Managed_status s = Status_Looping → Client_connected (Managed_client s) = true →
    Channels_queue (Managed_channels s) = [] → Channels_handles (Managed_channels s) = true →
    managed_step s (idle_turn s)
| step_interrupt fuel now s queued rest s' :
    Managed_status s = Status_Looping →
    Channels_queue (Managed_channels s) = queued :: rest →
    Channels_handles (Managed_channels s) = true →
    command_turn fuel now queued rest s = Some s' →
    interrupted fuel now queued s = true →
    managed_step s s'.
End system.
