(* ===== verification/ManagedApi.v ===== *)
(** * The methods of the managed client (crates/meshquill-core/src/managed.rs)

    Each public method of [ManagedClient] makes one command and awaits its reply.
    [request] is what makes the command and awaits it: the interface is the same for
    the actor, which runs the command, and for a caller, who waits for it. *)

From S2P Require Import Prelude Text Floats Domain Samples Packet PacketFacts Transport Framed Tracker Command.
From S2P Require Import CommandFacts Client ClientFacts Managed.

Section methods.
Context {F : Type → Type} (request : ∀ {A}, ActorCommand A → F A).
Arguments request {A} _.

Definition connect : F SelfInfo := request ActorCommand_Connect.
Definition disconnect : F () := request ActorCommand_Disconnect.
Definition reconnect : F SelfInfo := request ActorCommand_Reconnect.
Definition query_device_info : F DeviceInfo := request ActorCommand_QueryDeviceInfo.
Definition list_contacts (lastmod : option u32) : F (list Contact) := request (ActorCommand_ListContacts lastmod).
Definition list_contacts_snapshot (lastmod : option u32) : F ContactSnapshot :=
  request (ActorCommand_ListContactsSnapshot lastmod).
Definition get_time : F u32 := request ActorCommand_GetTime.
Definition set_time (value : u32) : F () := request (ActorCommand_SetTime value).
Definition get_battery : F BatteryInfo := request ActorCommand_GetBattery.
Definition send_self_advert (flood : bool) : F () := request (ActorCommand_SendSelfAdvert flood).
Definition set_advert_name (name : rstring) : F () := request (ActorCommand_SetAdvertName name).
Definition set_coordinates (latitude longitude : f64) : F () :=
  request (ActorCommand_SetCoordinates latitude longitude).
Definition set_tx_power (power_dbm : i8) : F () := request (ActorCommand_SetTxPower power_dbm).
Definition set_radio_params (params : RadioParams) : F () := request (ActorCommand_SetRadioParams params).
Definition set_tuning (params : TuningParams) : F () := request (ActorCommand_SetTuning params).
Definition get_tuning : F TuningParams := request ActorCommand_GetTuning.
Definition reset_path (public_key : bytes) : F () := request (ActorCommand_ResetPath public_key).
Definition update_contact (contact : Contact) : F () := request (ActorCommand_UpdateContact contact).
Definition share_contact (public_key : bytes) : F () := request (ActorCommand_ShareContact public_key).
Definition export_contact (public_key : option bytes) : F ContactUri :=
  request (ActorCommand_ExportContact public_key).
Definition import_contact (card : bytes) : F () := request (ActorCommand_ImportContact card).
Definition get_contact (public_key : bytes) : F Contact := request (ActorCommand_GetContact public_key).
Definition get_advert_path (public_key : bytes) : F AdvertPath := request (ActorCommand_GetAdvertPath public_key).
Definition set_auto_add_config (config : AutoAddConfig) : F () := request (ActorCommand_SetAutoAddConfig config).
Definition get_auto_add_config : F AutoAddConfig := request ActorCommand_GetAutoAddConfig.
Definition get_custom_vars : F CustomVariables := request ActorCommand_GetCustomVars.
Definition set_custom_var (key value : rstring) : F () := request (ActorCommand_SetCustomVar key value).
Definition get_stats (stats_type : StatsType) : F DeviceStats := request (ActorCommand_GetStats stats_type).
Definition get_allowed_repeat_frequencies : F (list FrequencyRange) :=
  request ActorCommand_GetAllowedRepeatFrequencies.
Definition set_path_hash_mode (mode : u8) : F () := request (ActorCommand_SetPathHashMode mode).
Definition get_path_hash_mode : F u8 := request ActorCommand_GetPathHashMode.
Definition set_flood_scope (scope : FloodScope) : F () := request (ActorCommand_SetFloodScope scope).
Definition set_default_flood_scope (name : rstring) (key : bytes) : F () :=
  request (ActorCommand_SetDefaultFloodScope name key).
Definition clear_default_flood_scope : F () := request ActorCommand_ClearDefaultFloodScope.
Definition get_default_flood_scope : F DefaultFloodScope := request ActorCommand_GetDefaultFloodScope.
Definition get_channel (idx : u8) : F ChannelInfo := request (ActorCommand_GetChannel idx).
Definition set_channel (idx : u8) (name : rstring) (secret : bytes) : F () :=
  request (ActorCommand_SetChannel idx name secret).
Definition clear_channel (idx : u8) : F () := request (ActorCommand_ClearChannel idx).
Definition remove_contact (public_key : bytes) : F () := request (ActorCommand_RemoveContact public_key).
Definition login (public_key : bytes) (password : rstring) : F LoginSession :=
  request (ActorCommand_Login public_key password).
Definition logout (public_key : bytes) : F () := request (ActorCommand_Logout public_key).
Definition has_connection (public_key : bytes) : F bool := request (ActorCommand_HasConnection public_key).
Definition remote_status (public_key : bytes) : F RemoteStatus := request (ActorCommand_RemoteStatus public_key).
Definition get_self_telemetry : F TelemetryResponse := request ActorCommand_GetSelfTelemetry.
Definition binary_request (public_key : bytes) (request_type : u8) (data : bytes) : F BinaryResponse :=
  request (ActorCommand_BinaryRequest public_key request_type data).
Definition anonymous_request (public_key : bytes) (request_type : u8) (reply_route : ContactRoute) (reply_path : Path) :
    F BinaryResponse :=
  request (ActorCommand_AnonymousRequest public_key request_type reply_route reply_path).
Definition send_node_discovery (filter : u8) (prefix_only : bool) (tag : u32) (since : option u32) : F () :=
  request (ActorCommand_SendNodeDiscovery filter prefix_only tag since).
Definition discover_path (public_key : bytes) : F PathDiscovery := request (ActorCommand_DiscoverPath public_key).
Definition sign (data : bytes) : F Signature := request (ActorCommand_Sign data).
Definition export_private_key : F PrivateKeyMaterial := request ActorCommand_ExportPrivateKey.
Definition import_private_key (key : PrivateKeyMaterial) : F () := request (ActorCommand_ImportPrivateKey key).
Definition set_device_pin (pin : u32) : F () := request (ActorCommand_SetDevicePin pin).
Definition reboot : F () := request ActorCommand_Reboot.
Definition factory_reset : F () := request ActorCommand_FactoryReset.
Definition send_direct_text (destination_prefix : bytes) (attempt : u8) (text : rstring) : F CommandTracking :=
  request (ActorCommand_SendDirectText destination_prefix attempt text).
Definition send_direct_command (destination_prefix : bytes) (attempt : u8) (command_text : rstring) :
    F CommandTracking :=
  request (ActorCommand_SendDirectCommand destination_prefix attempt command_text).
Definition send_channel_message (channel txt_type : u8) (text : rstring) : F () :=
  request (ActorCommand_SendChannelMessage channel txt_type text).
Definition sync_next_message : F (option Message) := request ActorCommand_SyncNextMessage.
Definition wait_for_ack (ack_code : bytes) (request_timeout : option Z) : F Ack :=
  request (ActorCommand_WaitForAck ack_code request_timeout).
Definition shutdown : F () := request ActorCommand_Shutdown.
End methods.

(** ** What the methods mean

    Each method of the managed client stands for the method of [Client] with the same
    name and arguments, [shutdown] for a disconnect that is bounded in time. *)
Section meaning.
Context `{Crates} {T : Type} `{Transport T}.
#[local] Abbreviation asked := (λ A (command : ActorCommand A), command) (only parsing).

Inductive client_method : ∀ {A}, ActorCommand A → (nat → Z → io T A) → Prop :=
| method_connect : client_method (connect asked) (λ fuel now, Client.connect fuel)
| method_disconnect : client_method (disconnect asked) (λ fuel now, Client.disconnect)
| method_reconnect : client_method (reconnect asked) (λ fuel now, Client.reconnect fuel)
| method_query_device_info : client_method (query_device_info asked) (λ fuel now, Client.query_device_info fuel)
| method_list_contacts lastmod : client_method (list_contacts asked lastmod)
    (λ fuel now, Client.list_contacts fuel lastmod)
| method_list_contacts_snapshot lastmod : client_method (list_contacts_snapshot asked lastmod)
    (λ fuel now, Client.list_contacts_snapshot fuel lastmod)
| method_get_time : client_method (get_time asked) (λ fuel now, Client.client_get_time fuel)
| method_set_time value : client_method (set_time asked value) (λ fuel now, Client.client_set_time fuel value)
| method_get_battery : client_method (get_battery asked) (λ fuel now, Client.client_get_battery fuel)
| method_send_self_advert flood : client_method (send_self_advert asked flood)
    (λ fuel now, Client.client_send_self_advert fuel flood)
| method_set_advert_name name : client_method (set_advert_name asked name)
    (λ fuel now, Client.client_set_advert_name fuel name)
| method_set_coordinates latitude longitude : client_method (set_coordinates asked latitude longitude)
    (λ fuel now, Client.client_set_coordinates fuel latitude longitude)
| method_set_tx_power power_dbm : client_method (set_tx_power asked power_dbm)
    (λ fuel now, Client.client_set_tx_power fuel power_dbm)
| method_set_radio_params params : client_method (set_radio_params asked params)
    (λ fuel now, Client.client_set_radio_params fuel params)
| method_set_tuning params : client_method (set_tuning asked params)
    (λ fuel now, Client.client_set_tuning fuel params)
| method_get_tuning : client_method (get_tuning asked) (λ fuel now, Client.client_get_tuning fuel)
| method_reset_path public_key : client_method (reset_path asked public_key)
    (λ fuel now, Client.client_reset_path fuel public_key)
| method_update_contact contact : client_method (update_contact asked contact)
    (λ fuel now, Client.client_update_contact fuel contact)
| method_share_contact public_key : client_method (share_contact asked public_key)
    (λ fuel now, Client.client_share_contact fuel public_key)
| method_export_contact public_key : client_method (export_contact asked public_key)
    (λ fuel now, Client.client_export_contact fuel public_key)
| method_import_contact card : client_method (import_contact asked card)
    (λ fuel now, Client.client_import_contact fuel card)
| method_get_contact public_key : client_method (get_contact asked public_key)
    (λ fuel now, Client.client_get_contact fuel public_key)
| method_get_advert_path public_key : client_method (get_advert_path asked public_key)
    (λ fuel now, Client.client_get_advert_path fuel public_key)
| method_set_auto_add_config config : client_method (set_auto_add_config asked config)
    (λ fuel now, Client.client_set_auto_add_config fuel config)
| method_get_auto_add_config : client_method (get_auto_add_config asked)
    (λ fuel now, Client.client_get_auto_add_config fuel)
| method_get_custom_vars : client_method (get_custom_vars asked) (λ fuel now, Client.client_get_custom_vars fuel)
| method_set_custom_var key value : client_method (set_custom_var asked key value)
    (λ fuel now, Client.client_set_custom_var fuel key value)
| method_get_stats stats_type : client_method (get_stats asked stats_type)
    (λ fuel now, Client.client_get_stats fuel stats_type)
| method_get_allowed_repeat_frequencies : client_method (get_allowed_repeat_frequencies asked)
    (λ fuel now, Client.client_get_allowed_repeat_frequencies fuel)
| method_set_path_hash_mode mode : client_method (set_path_hash_mode asked mode)
    (λ fuel now, Client.client_set_path_hash_mode fuel mode)
| method_get_path_hash_mode : client_method (get_path_hash_mode asked)
    (λ fuel now, Client.client_get_path_hash_mode fuel)
| method_set_flood_scope scope : client_method (set_flood_scope asked scope)
    (λ fuel now, Client.client_set_flood_scope fuel scope)
| method_set_default_flood_scope name key : client_method (set_default_flood_scope asked name key)
    (λ fuel now, Client.client_set_default_flood_scope fuel name key)
| method_clear_default_flood_scope : client_method (clear_default_flood_scope asked)
    (λ fuel now, Client.client_clear_default_flood_scope fuel)
| method_get_default_flood_scope : client_method (get_default_flood_scope asked)
    (λ fuel now, Client.client_get_default_flood_scope fuel)
| method_get_channel idx : client_method (get_channel asked idx) (λ fuel now, Client.client_get_channel fuel idx)
| method_set_channel idx name secret : client_method (set_channel asked idx name secret)
    (λ fuel now, Client.client_set_channel fuel idx name secret)
| method_clear_channel idx : client_method (clear_channel asked idx)
    (λ fuel now, Client.client_clear_channel fuel idx)
| method_remove_contact public_key : client_method (remove_contact asked public_key)
    (λ fuel now, Client.client_remove_contact fuel public_key)
| method_login public_key password : client_method (login asked public_key password)
    (λ fuel now, Client.login fuel public_key password)
| method_logout public_key : client_method (logout asked public_key)
    (λ fuel now, Client.client_logout fuel public_key)
| method_has_connection public_key : client_method (has_connection asked public_key)
    (λ fuel now, Client.client_has_connection fuel public_key)
| method_remote_status public_key : client_method (remote_status asked public_key)
    (λ fuel now, Client.remote_status fuel public_key)
| method_get_self_telemetry : client_method (get_self_telemetry asked)
    (λ fuel now, Client.client_get_self_telemetry fuel)
| method_binary_request public_key request_type data : client_method (binary_request asked public_key request_type data)
    (λ fuel now, Client.binary_request fuel public_key request_type data)
| method_anonymous_request public_key request_type reply_route reply_path : client_method (anonymous_request asked public_key request_type reply_route reply_path)
    (λ fuel now, Client.anonymous_request fuel public_key request_type reply_route reply_path)
| method_send_node_discovery filter prefix_only tag since : client_method (send_node_discovery asked filter prefix_only tag since)
    (λ fuel now, Client.client_send_node_discovery fuel filter prefix_only tag since)
| method_discover_path public_key : client_method (discover_path asked public_key)
    (λ fuel now, Client.client_discover_path fuel public_key)
| method_sign data : client_method (sign asked data) (λ fuel now, Client.sign fuel data)
| method_export_private_key : client_method (export_private_key asked)
    (λ fuel now, Client.client_export_private_key fuel)
| method_import_private_key key : client_method (import_private_key asked key)
    (λ fuel now, Client.client_import_private_key fuel key)
| method_set_device_pin pin : client_method (set_device_pin asked pin)
    (λ fuel now, Client.client_set_device_pin fuel pin)
| method_reboot : client_method (reboot asked) (λ fuel now, Client.client_reboot)
| method_factory_reset : client_method (factory_reset asked) (λ fuel now, Client.client_factory_reset)
| method_send_direct_text destination_prefix attempt text : client_method (send_direct_text asked destination_prefix attempt text)
    (λ fuel now, Client.client_send_direct_text fuel now destination_prefix attempt text)
| method_send_direct_command destination_prefix attempt command_text : client_method (send_direct_command asked destination_prefix attempt command_text)
    (λ fuel now, Client.client_send_direct_command fuel now destination_prefix attempt command_text)
| method_send_channel_message channel txt_type text : client_method (send_channel_message asked channel txt_type text)
    (λ fuel now, Client.send_channel_message fuel now channel txt_type text)
| method_sync_next_message : client_method (sync_next_message asked)
    (λ fuel now, Client.client_sync_next_message fuel)
| method_wait_for_ack ack_code request_timeout : client_method (wait_for_ack asked ack_code request_timeout)
    (λ fuel now, Client.wait_for_ack fuel ack_code request_timeout)
| method_shutdown : client_method (shutdown asked) (λ fuel now, Managed.bounded_disconnect).

Lemma handle_command_method {A} (command : ActorCommand A) :
  client_method command (λ fuel now, handle_command fuel now command).
Proof. destruct command; econstructor. Qed.
End meaning.
