(* ===== verification/ManagedFacts.v ===== *)
(** * Facts about the managed client

    One turn of the actor: the invariant of the client, the wire, and how an
    interrupted operation ends.  Then the bookkeeping of requests, which every
    step keeps. *)

From S2P Require Import Prelude Text Floats Domain Samples Packet PacketFacts Transport Framed Tracker Command.
From S2P Require Import CommandFacts Client ClientFacts ClientTransport Managed.

(** ** One turn *)

Section turn.
  Context `{CratesLaws} {T : Type} `{ObservedTransport T}.
  Implicit Types c : Client T.

Lemma handle_command_operation fuel now {A} (command : ActorCommand A) :
  command_wf command → stays_running command = true →
  operation fuel A (handle_command (T:=T) fuel now command).
Proof.
  destruct command; cbn [command_wf stays_running]; intros Hw Hr; destruct_and?; try done;
    by constructor.
Qed.

Lemma bounded_disconnect_triple : triple client_wf bounded_disconnect (λ _, client_wf) client_wf.
Proof.
  intros c Hc. unfold bounded_disconnect. destruct (Client_connected c); [|done]. cbn.
  destruct (poll_disconnect_wf c Hc) as [Hw Hp]. by destruct (poll_disconnect c) as [[[]| |] c'].
Qed.

Lemma handle_command_triple fuel now {A} (command : ActorCommand A) :
  command_wf command →
  triple client_wf (handle_command fuel now command) (λ _ c, client_wf c) client_wf.
Proof.
  intros Hw. destruct (stays_running command) eqn:Hr.
  - by eapply operation_live, handle_command_operation.
  - destruct command; try done. apply bounded_disconnect_triple.
Qed.

Lemma turn_wf fuel now generation queued c :
  command_wf (Queued_command queued) → client_wf c →
  let '(turn, c') := handle_optional_command fuel now generation (Some queued) c in
  client_wf c' ∧ turn ≠ Turn_Panicked ∧ turn ≠ Turn_Closed.
Proof.
  intros Hw Hc. cbn. case_bool_decide; [|done]. cbn [negb].
  pose proof (handle_command_triple fuel now (Queued_command queued) Hw c Hc) as Ht.
  destruct (handle_command fuel now (Queued_command queued) c) as [[] c1]; try done.
  destruct (negb (disconnect_on_interrupt (Queued_command queued))); [done|].
  destruct (poll_disconnect_wf c1 Ht) as [Hd Hp]. by destruct (poll_disconnect c1) as [[[]| |] c2].
Qed.

(** *** Interruption *)

Lemma poll_disconnect_closes c r :
  (poll_disconnect c).1 = Ready r → r ≠ Crash → Client_connected (poll_disconnect c).2 = false.
Proof.
  assert (∀ c, Client_connected (mark_disconnected c) = false) as Hm
    by (intros c'; unfold mark_disconnected; by case_match).
  unfold poll_disconnect. destruct (transport_disconnect _) as [[[]| |] t]; cbn; intros [= <-]; done.
Qed.

Lemma read_cancelled_live c c' :
  live_client c → read_next_packet_with_timeout c = (Cancelled, c') → live_client c'.
Proof.
  intros Hc. unfold read_next_packet_with_timeout. pose proof (read_next_packet_spec c Hc) as Hr.
  assert ((read_next_packet c).1 ≠ Ready Cancelled) as Hn.
  { unfold read_next_packet, parse_packet. by repeat case_match; simplify_eq. }
  by destruct (read_next_packet c) as [[[]| |] c1]; intros [= <-].
Qed.

(** A wait for an ACK is only ever cancelled at a read, which keeps the session. *)
Lemma ack_loop_cancelled fuel code c c' :
  live_client c → ack_loop fuel code c = (Cancelled, c') → live_client c'.
Proof.
  revert c. induction fuel as [|fuel IH]; intros c Hc; [done|]. cbn [ack_loop].
  unfold mbind, io_bind. pose proof (read_triple c Hc) as Hr.
  destruct (read_next_packet_with_timeout c) as [[p| | | |] c1] eqn:E; try done;
    [|intros [= <-]; by eapply read_cancelled_live].
  destruct p; unfold modify; try done; try (apply IH, publish_event_live, Hr).
  case_bool_decide; [done|]. apply IH, absorb_live, Hr.
Qed.

Lemma wait_for_ack_cancelled fuel code timeout c c' :
  client_wf c → wait_for_ack fuel code timeout c = (Cancelled, c') → live_client c' ∧ sent c' = sent c.
Proof.
  intros Hc Hw. split.
  2:{ rewrite <- (quiet_wait_for_ack fuel code timeout c). by rewrite Hw. }
  revert Hw. unfold wait_for_ack. unfold mbind at 1, io_bind at 1, lift.
  destruct (match timeout with Some _ => _ | None => _ end); try done. cbn [res_of].
  unfold mbind, io_bind, ensure_connected. destruct (Client_connected c) eqn:Hconn; [|done].
  unfold take_or_wait_for_ack.
  pose proof (take_completed_live code c (conj Hc Hconn)) as Ht.
  destruct (take_completed_ack code c) as [[ack|] c1]; [done|].
  destruct (ack_loop fuel code c1) as [[] c2] eqn:E; try done. intros [= <-].
  by eapply ack_loop_cancelled.
Qed.

(** The transport of a client whose operation was interrupted. *)
Context `{!CleanTransport T}.

Lemma clean_kept :
  kept_by_calls (T:=T) transport_clean transport_clean transport_torn transport_torn.
Proof.
  split; try apply clean_torn.
  - intros t Ht%connect_clean. by destruct (transport_connect t) as [[] t'].
  - intros t Ht%clean_torn%disconnect_clean. by destruct (transport_disconnect t) as [[] t'].
  - intros t Ht%clean_torn%reconnect_clean. by destruct (transport_reconnect t) as [[] t'].
  - intros t Ht%read_clean. by destruct (transport_read t) as [[] t'].
  - apply try_read_clean.
  - intros t p _. apply write_clean.
Qed.

Lemma poll_disconnect_clean c :
  transport_torn (Client_transport c) → transport_clean (Client_transport (poll_disconnect c).2).
Proof.
  intros Hc%disconnect_clean. unfold poll_disconnect.
  destruct (transport_disconnect (Client_transport c)) as [[[]| |] t]; cbn in *;
    by rewrite ?mark_disconnected_transport.
Qed.

Lemma bounded_disconnect_clean c :
  transport_clean (Client_transport c) → transport_clean (Client_transport (bounded_disconnect c).2).
Proof.
  intros Hc. unfold bounded_disconnect. destruct (Client_connected c); [|done]. cbn.
  apply clean_torn, poll_disconnect_clean in Hc. by destruct (poll_disconnect c) as [[] c'].
Qed.

Lemma turn_clean fuel now generation queued c :
  command_wf (Queued_command queued) → client_wf c → transport_clean (Client_transport c) →
  transport_clean
    (Client_transport (handle_optional_command fuel now generation (Some queued) c).2).
Proof.
  intros Hw Hwf Hc. cbn. case_bool_decide; [|done]. cbn [negb].
  pose proof (handle_command_triple fuel now (Queued_command queued) Hw c Hwf) as Ht.
  destruct queued as [k A command g]. cbn in *. destruct (stays_running command) eqn:Hr.
  2:{ destruct command; try done. pose proof (bounded_disconnect_clean c Hc) as Hb. cbn in *.
      destruct (bounded_disconnect c) as [[] c1]; try done. cbn in Hb |- *.
      apply clean_torn, poll_disconnect_clean in Hb. by destruct (poll_disconnect c1) as [[[]| |] c2]. }
  pose proof (operation_carries _ _ _ _ clean_kept fuel A _
    (handle_command_operation fuel now command Hw Hr) c Hc) as Ho.
  destruct (handle_command fuel now command c) as [[] c1] eqn:E; try done.
  destruct (disconnect_on_interrupt command) eqn:Hd; cbn [negb snd].
  - apply poll_disconnect_clean in Ho. by destruct (poll_disconnect c1) as [[[]| |] c2].
  - destruct command; try done. cbn in E.
    pose proof (keeps_wait_for_ack _ _ _ _ clean_kept fuel ack_code request_timeout c Hc) as Hk.
    by rewrite E in Hk.
Qed.
End turn.

(** ** Bookkeeping *)

Lemma resolve_lookup o ks m k :
  resolve o ks m !! k = if bool_decide (k ∈ ks) then Some o else m !! k.
Proof.
  induction ks as [|k' ks IH]; [by rewrite bool_decide_false by apply not_elem_of_nil|].
  change (resolve o (k' :: ks) m) with (<[k' := o]> (resolve o ks m)).
  destruct (decide (k = k')) as [->|Hk].
  - rewrite lookup_insert_eq. by rewrite bool_decide_true by left.
  - rewrite lookup_insert_ne by done. rewrite IH.
    case_bool_decide as Hin; case_bool_decide as Hin'; rewrite elem_of_cons in Hin'; naive_solver.
Qed.

(** The generation [n] cancellations after the start. *)
Definition generation_of (n : nat) : u64 := to_unsigned 64 (Z.of_nat n).

Record book (ch : Channels) (l : Ledger) : Prop := {
  book_order : ∃ gone, Ledger_entered l = gone ++ tickets (Channels_queue ch) ∧
    Ledger_executed l `sublist_of` gone ∧
    Forall (λ k, is_Some (Ledger_outcomes l !! k)) gone;
  book_nodup : NoDup (Ledger_entered l ++ tickets (Channels_waiting ch));
  book_open k : k ∈ tickets (Channels_waiting ch) ++ tickets (Channels_queue ch) →
    Ledger_outcomes l !! k = None;
  book_account k : k < Ledger_next l ↔
    k ∈ tickets (Channels_waiting ch) ++ tickets (Channels_queue ch) ∨
    is_Some (Ledger_outcomes l !! k);
  book_capacity : length (Channels_queue ch) ≤ Channels_capacity ch;
  book_epoch : Channels_epoch ch = generation_of (Ledger_cancels l);
  book_generations : Forall (λ q, ∃ n, n ≤ Ledger_cancels l ∧ Queued_generation q = generation_of n)
    (Channels_waiting ch ++ Channels_queue ch)
}.

Section bookkeeping.
  Context `{Crates} {T : Type} `{Transport T}.
  Implicit Types s : Managed T.

Abbreviation books s := (book (Managed_channels s) (Managed_ledger s)).

Lemma spawn_books c capacity : books (spawn_inner (T:=T) c capacity).
Proof.
  split; cbn.
  - exists []. split_and!; [done|done|constructor].
  - constructor.
  - by intros k ?%not_elem_of_nil.
  - intros k. rewrite lookup_empty. split; [lia|]. by intros [?%not_elem_of_nil|[]].
  - lia.
  - done.
  - constructor.
Qed.

Lemma entered_lt ch l k : book ch l → k ∈ Ledger_entered l → k < Ledger_next l.
Proof.
  intros Hb Hk. destruct (book_order _ _ Hb) as (gone&He&_&Hg). rewrite He in Hk.
  apply (book_account _ _ Hb). apply elem_of_app in Hk as [Hk|Hk].
  - right. by rewrite Forall_forall in Hg; apply Hg.
  - left. apply elem_of_app. by right.
Qed.

Lemma request_begin_books {A} (command : ActorCommand A) s :
  books s → books (request_begin command s).
Proof.
  intros Hb. set (k0 := Ledger_next (Managed_ledger s)).
  assert (k0 ∉ tickets (Channels_waiting (Managed_channels s))
               ++ tickets (Channels_queue (Managed_channels s)) ∧
          Ledger_outcomes (Managed_ledger s) !! k0 = None) as [Hnew Hnone].
  { pose proof (book_account _ _ Hb k0) as [_ Hk]. split.
    - intros Hin. specialize (Hk (or_introl Hin)). lia.
    - apply eq_None_not_Some. intros Hin. specialize (Hk (or_intror Hin)). lia. }
  pose proof (entered_lt _ _ k0 Hb) as He. destruct Hb. split; cbn; try done.
  - rewrite fmap_app, app_assoc. apply NoDup_app. split; [done|]. split.
    2:{ by apply NoDup_singleton. }
    intros k [Hk|Hk]%elem_of_app ->%list_elem_of_singleton; [specialize (He Hk); lia|].
    apply Hnew, elem_of_app. by left.
  - intros k. rewrite fmap_app, !elem_of_app. cbn. rewrite list_elem_of_singleton.
    intros [[Hk| ->]|Hk]; [|done|]; apply book_open0, elem_of_app; auto.
  - intros k. rewrite fmap_app, !elem_of_app. cbn. rewrite list_elem_of_singleton.
    pose proof (book_account0 k) as Hk. rewrite elem_of_app in Hk.
    fold k0 in Hk |- *. destruct (decide (k = k0)) as [->|]; [split; [tauto|lia]|].
    assert (k < S k0 ↔ k < k0) as -> by lia. rewrite Hk. tauto.
  - rewrite <- app_assoc. apply Forall_app in book_generations0 as [? ?]. apply Forall_app. split; [done|].
    constructor; [|done]. cbn. eauto.
Qed.

(** A waiting request that leaves for the queue or for good. *)
Lemma waiting_split before (q : QueuedCommand) after :
  tickets (before ++ q :: after) ≡ₚ Queued_ticket q :: tickets (before ++ after).
Proof. rewrite !fmap_app. cbn. by rewrite Permutation_middle. Qed.

Lemma request_send_books before q after s :
  Channels_waiting (Managed_channels s) = before ++ q :: after →
  length (Channels_queue (Managed_channels s)) < Channels_capacity (Managed_channels s) →
  books s → books (request_send (before ++ after) q s).
Proof.
  intros Hw Hlen []. rewrite Hw in *. pose proof (waiting_split before q after) as Hp.
  assert (∀ k, k ∈ tickets (before ++ after) ++ tickets (Channels_queue (Managed_channels s) ++ [q]) ↔
               k ∈ tickets (before ++ q :: after) ++ tickets (Channels_queue (Managed_channels s))) as Hin.
  { intros k. rewrite (fmap_app _ _ [q]), !elem_of_app, Hp, elem_of_cons. cbn.
    rewrite list_elem_of_singleton. tauto. }
  split; cbn; try done.
  - destruct book_order0 as (gone&->&?&?). exists gone. by rewrite fmap_app, app_assoc.
  - rewrite <- app_assoc. eapply NoDup_Permutation_proper; [|exact book_nodup0]. by rewrite Hp.
  - intros k. rewrite Hin. apply book_open0.
  - intros k. rewrite Hin. apply book_account0.
  - rewrite length_app. cbn. lia.
  - revert book_generations0. rewrite !Forall_app, Forall_cons, Forall_singleton. tauto.
Qed.

Lemma request_fail_books before q after s :
  Channels_waiting (Managed_channels s) = before ++ q :: after →
  books s → books (request_fail (before ++ after) q s).
Proof.
  intros Hw []. rewrite Hw in *. pose proof (waiting_split before q after) as Hp.
  assert (NoDup (Queued_ticket q :: tickets (before ++ after) ++
                   Ledger_entered (Managed_ledger s))) as [Hq Hnd]%NoDup_cons.
  { eapply NoDup_Permutation_proper; [|exact book_nodup0].
    by rewrite Hp, (Permutation_app_comm (Ledger_entered _)). }
  destruct book_order0 as (gone&He&Hx&Hg).
  assert (∀ k, k ∈ tickets (before ++ after) ++ tickets (Channels_queue (Managed_channels s)) →
    k ≠ Queued_ticket q) as Hne.
  { intros k Hk ->. apply Hq. rewrite He. set_solver. }
  assert (∀ k, is_Some (resolve Unanswered [Queued_ticket q] (Ledger_outcomes (Managed_ledger s)) !! k)
    ↔ k = Queued_ticket q ∨ is_Some (Ledger_outcomes (Managed_ledger s) !! k)) as Hr.
  { intros k. rewrite resolve_lookup. case_bool_decide as Hk; rewrite list_elem_of_singleton in Hk;
      naive_solver. }
  split; cbn [request_fail Managed_channels Managed_ledger with_queue with_outcomes
    Channels_waiting Channels_queue Channels_capacity Channels_epoch Ledger_next Ledger_outcomes
    Ledger_entered Ledger_executed Ledger_cancels]; try done.
  - exists gone. split_and!; try done. eapply Forall_impl; [exact Hg|]. intros k Hk. apply Hr. auto.
  - by rewrite (Permutation_app_comm (Ledger_entered _)).
  - intros k Hk. rewrite resolve_lookup, bool_decide_false.
    + apply book_open0. rewrite Hp. set_solver.
    + rewrite list_elem_of_singleton. by apply Hne.
  - intros k. rewrite Hr, (book_account0 k), Hp. set_solver.
  - revert book_generations0. rewrite !Forall_app, Forall_cons. tauto.
Qed.

Lemma cancel_books s : books s → books (cancel_pending_operations s).
Proof.
  intros []. split; cbn; try done.
  - rewrite book_epoch0. unfold generation_of, to_unsigned. rewrite Nat2Z.inj_succ.
    unfold Z.succ. by rewrite Zplus_mod_idemp_l.
  - eapply Forall_impl; [exact book_generations0|]. intros q (n&?&?). exists n. split; [lia|done].
Qed.

Lemma drop_books s : books s → books (drop_handles s).
Proof. by intros []. Qed.

(** Commands [qs] at the head of the queue leave it with [o]; those in [xs] were
    run. *)
Lemma leave_queue_books qs rest xs o s :
  Channels_queue (Managed_channels s) = qs ++ rest → xs `sublist_of` tickets qs → books s →
  book (with_queue (Channels_waiting (Managed_channels s)) rest (Managed_channels s))
    (with_outcomes (resolve o (tickets qs) (Ledger_outcomes (Managed_ledger s)))
       (with_executed (Ledger_executed (Managed_ledger s) ++ xs) (Managed_ledger s))).
Proof.
  intros Hq Hxs []. rewrite Hq, ?fmap_app in *. destruct book_order0 as (gone&He&Hx&Hg).
  set (out := Ledger_outcomes (Managed_ledger s)) in *.
  assert (∀ k, is_Some (resolve o (tickets qs) out !! k) ↔ k ∈ tickets qs ∨ is_Some (out !! k)) as Hr.
  { intros k. rewrite resolve_lookup. case_bool_decide; naive_solver. }
  rewrite He in book_nodup0.
  split; cbn [with_queue with_outcomes with_executed Channels_waiting Channels_queue
    Channels_capacity Channels_epoch Ledger_next Ledger_outcomes Ledger_entered Ledger_executed
    Ledger_cancels]; try done.
  - exists (gone ++ tickets qs). rewrite He, app_assoc. split; [done|].
    split; [by apply sublist_app|]. apply Forall_app. split.
    + eapply Forall_impl; [exact Hg|]. intros k Hk. apply Hr. auto.
    + apply Forall_forall. intros k Hk. apply Hr. auto.
  - by rewrite He.
  - intros k Hk. rewrite resolve_lookup, bool_decide_false.
    + apply book_open0. set_solver.
    + intros Hin. rewrite <- !app_assoc in book_nodup0.
      apply NoDup_app in book_nodup0 as (_&_&Hn). apply NoDup_app in Hn as (_&Hn&_).
      apply (Hn k Hin). set_solver.
  - intros k. rewrite Hr, (book_account0 k). set_solver.
  - rewrite length_app in book_capacity0. lia.
  - revert book_generations0. rewrite !Forall_app. tauto.
Qed.

Lemma finish_command_books q rest executed running o c s :
  Channels_queue (Managed_channels s) = q :: rest → books s →
  books (finish_command q rest executed running o c s).
Proof.
  intros Hq Hb. destruct executed.
  - apply (leave_queue_books [q] rest [Queued_ticket q]); done.
  - pose proof (leave_queue_books [q] rest [] o s Hq (sublist_nil_l _) Hb) as Hl.
    unfold with_executed in Hl. rewrite app_nil_r in Hl. cbn in *.
    by destruct s as [? ? ? []].
Qed.

Lemma close_books status c s : books s → books (close status c s).
Proof.
  intros Hb. pose proof (leave_queue_books (Channels_queue (Managed_channels s)) [] [] Unanswered s) as Hl.
  rewrite !app_nil_r in Hl. specialize (Hl eq_refl (sublist_nil_l _) Hb).
  by destruct s as [? ? ? []].
Qed.

Lemma command_turn_books fuel now q rest s s' :
  Channels_queue (Managed_channels s) = q :: rest → command_turn fuel now q rest s = Some s' →
  books s → books s'.
Proof.
  intros Hq Ht Hb. unfold command_turn in Ht.
  destruct (handle_optional_command _ _ _ _ _) as [[] c]; simplify_eq;
    auto using finish_command_books, close_books, cancel_books.
Qed.

Lemma managed_step_books s s' : managed_step s s' → books s → books s'.
Proof.
  destruct 1 as [s s' Hp|s A command|s before q after|s|s|s|fuel now s q rest s'];
    eauto using request_begin_books, request_fail_books, cancel_books, drop_books, command_turn_books.
  - destruct Hp; eauto using request_send_books, request_fail_books, command_turn_books, close_books.
  - intros Hb. unfold idle_turn. destruct (next_event _) as [[[]| |] c]; auto using close_books.
Qed.

Lemma managed_reachable_books c capacity s :
  rtc managed_step (spawn_inner c capacity) s → books s.
Proof.
  intros Hr. assert (books (spawn_inner c capacity)) as Hb by apply spawn_books. revert Hb.
  induction Hr; eauto using managed_step_books.
Qed.
End bookkeeping.
