(* ===== verification/ManagedProps.v ===== *)
(** * Properties of the managed client

    Over every interleaving of callers and actor: requests are run one at a time,
    in queue order, at most once, and every one of them ends; a cancellation
    discards what was pending and closes the session of the operation it
    interrupts, so that the peer never sees a torn frame followed by another. *)

From S2P Require Import Prelude Text Floats Domain Samples Packet PacketFacts Transport Framed Tracker Command ManagedApi.
From S2P Require Import CommandFacts Client ClientFacts ClientTransport ClientProps ClientTermination Managed.
From S2P Require Import ManagedFacts.

(** ** Reachable states *)

Section reachable.
  Context `{CratesLaws} {T : Type} `{ObservedTransport T}.
  Implicit Types (s : Managed T) (c : Client T).

Definition commands_wf (ch : Channels) : Prop :=
  Forall (λ q, command_wf (Queued_command q)) (Channels_waiting ch ++ Channels_queue ch).

Record managed_wf s : Prop := {
  managed_client_wf : client_wf (Managed_client s);
  managed_commands_wf : commands_wf (Managed_channels s);
  managed_not_panicked : Managed_status s ≠ Status_Panicked;
  managed_stopped : Managed_status s = Status_Stopped → Channels_queue (Managed_channels s) = []
}.

Lemma commands_sub ch waiting queue :
  waiting ++ queue ⊆ Channels_waiting ch ++ Channels_queue ch → commands_wf ch →
  commands_wf (with_queue waiting queue ch).
Proof. unfold commands_wf. rewrite !Forall_forall. cbn. auto. Qed.

Lemma head_command_wf q rest s :
  Channels_queue (Managed_channels s) = q :: rest → managed_wf s → command_wf (Queued_command q).
Proof.
  intros Hq [_ Hc _ _]. unfold commands_wf in Hc. rewrite Forall_forall in Hc. apply Hc. rewrite Hq.
  set_solver.
Qed.

Lemma close_wf c s : client_wf c → managed_wf s → managed_wf (close Status_Stopped c s).
Proof. intros Hc []. split; try done. cbn. apply commands_sub; [set_solver|done]. Qed.

Lemma command_turn_wf fuel now q rest s s' :
  Managed_status s = Status_Looping →
  Channels_queue (Managed_channels s) = q :: rest → command_turn fuel now q rest s = Some s' →
  managed_wf s → managed_wf s'.
Proof.
  intros Hl Hq Ht Hs. pose proof (head_command_wf _ _ _ Hq Hs) as Hw. unfold command_turn in Ht.
  pose proof (turn_wf fuel now (Channels_epoch (Managed_channels s)) q (Managed_client s) Hw
    (managed_client_wf _ Hs)) as Htw.
  assert (∀ c x r o, client_wf c → managed_wf (finish_command q rest x r o c s)) as Hf.
  { intros c x r o Hc. destruct Hs. split; cbn; try done; [|by destruct r..].
    apply commands_sub; [|done]. rewrite Hq. set_solver. }
  destruct (handle_optional_command _ _ _ _ _) as [turn c]. destruct Htw as (Hc&Hp&Hx).
  destruct turn; simplify_eq; auto. destruct (Hf c true running Unanswered Hc). by split.
Qed.

Lemma managed_step_wf s s' : managed_step s s' → managed_wf s → managed_wf s'.
Proof.
  destruct 1 as [s s' Hp|s A command ? Hw|s before q after Hw|s|s Hw|s ? ? ? ?|fuel now s q rest s'];
    eauto using command_turn_wf.
  - destruct Hp as [s before q after Hst Hw|s before q after Hst Hw|fuel now s q rest s'|s|s Hst];
      eauto using command_turn_wf.
    + intros []. split; try done; cbn.
      * apply commands_sub; [rewrite Hw; set_solver|done].
      * intros Hs. rewrite Hs in Hst. set_solver.
    + intros []. split; try done; cbn. apply commands_sub; [rewrite Hw; set_solver|done].
    + intros []. by split.
    + intros Hs. apply close_wf; [|done]. pose proof (managed_client_wf _ Hs) as Hc.
      pose proof (bounded_disconnect_triple (Managed_client s) Hc) as Hb.
      destruct (Client_connected (Managed_client s)); [|done]. by destruct (bounded_disconnect _) as [[] ?].
  - intros []. split; try done; cbn. unfold commands_wf in *. cbn.
    rewrite !Forall_app, Forall_singleton in *. by destruct_and?.
  - intros []. split; try done; cbn. apply commands_sub; [rewrite Hw; set_solver|done].
  - intros []. by split.
  - intros []. by split.
  - intros []. destruct (next_event_wf (Managed_client s)) as [Hc Hn]; [done|]. unfold idle_turn.
    destruct (next_event _) as [[[]| |] c]; by split.
Qed.

Lemma spawn_managed_wf c capacity : client_wf c → managed_wf (spawn_inner c capacity).
Proof. intros Hc. split; try done. constructor. Qed.

Lemma managed_reachable_wf c capacity s :
  client_wf c → rtc managed_step (spawn_inner c capacity) s → managed_wf s.
Proof.
  intros Hc%(spawn_managed_wf c capacity) Hr. revert Hc. induction Hr; eauto using managed_step_wf.
Qed.
End reachable.

(** ** Serial execution *)

Section serial.
  Context `{CratesLaws} {T : Type} `{ObservedTransport T}.
  Implicit Types (s : Managed T) (c : Client T).

Lemma poll_disconnect_step c : client_step c (poll_disconnect c).2.
Proof.
  replace (poll_disconnect c).2 with (disconnect c).2 by (unfold disconnect; by case_match; case_match).
  apply (step_operation 0), op_disconnect.
Qed.

Lemma bounded_disconnect_step c : rtc client_step c (bounded_disconnect c).2.
Proof.
  unfold bounded_disconnect. destruct (Client_connected c); [|done]. cbn.
  replace (match poll_disconnect c with (Ready r, c) => (r, c) | (Pending, c) => _ | (Dropped, c) => _ end).2
    with (poll_disconnect c).2 by (by destruct (poll_disconnect c) as [[] ?]).
  apply rtc_once, poll_disconnect_step.
Qed.

(** *** The specification: one caller at a time

    A history of a client with one caller: the calls that were made, the reads of an
    idle client, the requests that were served, with what was answered, those that were
    given up half way, and a last disconnect. *)
Inductive Entry :=
| Entry_Call (call : Call)
| Entry_Idle
| Entry_Served (ticket : nat) (reply : Outcome)
| Entry_Interrupted (ticket : nat)
| Entry_Closed.

Definition entry_call (entry : Entry) : option Call :=
  match entry with Entry_Call call => Some call | _ => None end.
Definition entry_ticket (entry : Entry) : option nat :=
  match entry with Entry_Served k _ | Entry_Interrupted k => Some k | _ => None end.
Definition calls (history : list Entry) : list Call := omap entry_call history.
Definition served (history : list Entry) : list nat := omap entry_ticket history.

Definition is_request (call : Call) : bool := match call with Call_Request _ => true | Call_Cancel => false end.
Definition requests (cs : list Call) : nat := length (List.filter is_request cs).
Definition cancels (cs : list Call) : nat := length (List.filter (λ call, negb (is_request call)) cs).

(** The request with the ticket [k] is for [command], and none of the calls since it
    was made cancels it.  (The code tells cancellations apart by a 64-bit number.) *)
Definition due (cs : list Call) (k : nat) {A} (command : ActorCommand A) : Prop :=
  ∃ before after, cs = before ++ Call_Request command :: after ∧ requests before = k ∧
    (Z.of_nat (cancels after) mod 2 ^ 64 = 0)%Z.

Definition waits_for_ack {A} (command : ActorCommand A) : bool :=
  match command with ActorCommand_WaitForAck _ _ => true | _ => false end.
Definition reply_of {A} (r : res A) : option Outcome :=
  match r with
  | Ret a => Some (Replied (Ok a))
  | Throw e => Some (Replied (Err e : outcome CoreError A))
  | _ => None
  end.

(** A request is served at most once and only while it is due, by the method of the
    client it asks for; when it is given up half way the session is closed, a wait for
    an acknowledgement excepted. *)
Inductive serves c : list Entry → Client T → Prop :=
| serves_nothing : serves c [] c
| serves_call history c' call :
    serves c history c' → serves c (history ++ [Entry_Call call]) c'
| serves_idle history c' :
    serves c history c' → serves c (history ++ [Entry_Idle]) (next_event c').2
| serves_request history c' k A (command : ActorCommand A) method fuel now r c1 reply :
    serves c history c' → due (calls history) k command → k ∉ served history →
    client_method command method → method fuel now c' = (r, c1) → reply_of r = Some reply →
    serves c (history ++ [Entry_Served k reply]) c1
| serves_interrupted history c' k A (command : ActorCommand A) method fuel now c1 :
    serves c history c' → due (calls history) k command → k ∉ served history →
    client_method command method → method fuel now c' = (Cancelled, c1) →
    serves c (history ++ [Entry_Interrupted k]) (if waits_for_ack command then c1 else (disconnect c1).2)
| serves_closed history c' :
    serves c history c' → serves c (history ++ [Entry_Closed]) (bounded_disconnect c').2.

(** *** The refinement *)

Lemma calls_app h h' : calls (h ++ h') = calls h ++ calls h'.
Proof. apply omap_app. Qed.
Lemma served_app h h' : served (h ++ h') = served h ++ served h'.
Proof. apply omap_app. Qed.
Lemma requests_app cs cs' : requests (cs ++ cs') = requests cs + requests cs'.
Proof. unfold requests. by rewrite List.filter_app, length_app. Qed.
Lemma cancels_app cs cs' : cancels (cs ++ cs') = cancels cs + cancels cs'.
Proof. unfold cancels. by rewrite List.filter_app, length_app. Qed.

#[local] Arguments requests : simpl never.
#[local] Arguments cancels : simpl never.
(** The calls of a ledger, and the pending commands among them. *)
Definition made (cs : list Call) (q : QueuedCommand) : Prop :=
  ∃ before after, cs = before ++ Call_Request (Queued_command q) :: after ∧ requests before = Queued_ticket q ∧
    Queued_generation q = generation_of (cancels before).
Record called (ch : Channels) (l : Ledger) : Prop := {
  called_next : Ledger_next l = requests (Ledger_calls l);
  called_cancels : Ledger_cancels l = cancels (Ledger_calls l);
  called_pending : Forall (made (Ledger_calls l)) (Channels_waiting ch ++ Channels_queue ch)
}.

Lemma made_snoc cs call q : made cs q → made (cs ++ [call]) q.
Proof.
  intros (before & after & -> & Hk & Hg). exists before, (after ++ [call]). by rewrite <- app_assoc.
Qed.
Lemma made_due cs q : made cs q → Queued_generation q = generation_of (cancels cs) →
  due cs (Queued_ticket q) (Queued_command q).
Proof.
  intros (before & after & -> & Hk & Hg) He. exists before, after. split_and!; [done|done|].
  rewrite Hg, cancels_app in He. unfold generation_of, to_unsigned in He.
  change (cancels (Call_Request (Queued_command q) :: after)) with (cancels after) in He.
  rewrite Nat2Z.inj_add in He. apply Z.mod_divide; [lia|].
  replace (Z.of_nat (cancels after)) with (Z.of_nat (cancels before) + Z.of_nat (cancels after) - Z.of_nat (cancels before))%Z by lia.
  apply Z.mod_divide; [lia|]. rewrite Zminus_mod, <- He, Z.sub_diag. by apply Z.mod_0_l.
Qed.

Lemma made_sub cs qs qs' : qs' ⊆ qs → Forall (made cs) qs → Forall (made cs) qs'.
Proof. rewrite !Forall_forall. auto. Qed.
Lemma called_queue ch l waiting queue outcomes :
  waiting ++ queue ⊆ Channels_waiting ch ++ Channels_queue ch → called ch l →
  called (with_queue waiting queue ch) (with_outcomes outcomes l).
Proof. intros Hs []. split; try done. by eapply made_sub. Qed.
Lemma called_cancel s : called (Managed_channels s) (Managed_ledger s) →
  called (Managed_channels (cancel_pending_operations s)) (Managed_ledger (cancel_pending_operations s)).
Proof.
  intros []. split; cbn; [rewrite requests_app; unfold requests in *; cbn; lia|rewrite cancels_app; unfold cancels in *; cbn; lia|].
  eapply Forall_impl; [done|]. intros q. apply made_snoc.
Qed.
Lemma called_turn fuel now q rest s s' :
  Channels_queue (Managed_channels s) = q :: rest → command_turn fuel now q rest s = Some s' →
  called (Managed_channels s) (Managed_ledger s) → called (Managed_channels s') (Managed_ledger s').
Proof.
  intros Hq Ht Hc.
  assert (∀ x r o c, called (Managed_channels (finish_command q rest x r o c s)) (Managed_ledger (finish_command q rest x r o c s))) as Hf.
  { intros x r o c. apply (called_queue _ _ (Channels_waiting (Managed_channels s)) rest (resolve o [Queued_ticket q]
      (Ledger_outcomes (Managed_ledger s)))) in Hc; [|rewrite Hq; set_solver]. destruct Hc. by destruct x. }
  unfold command_turn in Ht. destruct (handle_optional_command _ _ _ _ _) as [[] c]; simplify_eq; auto using called_cancel.
  apply called_queue; [set_solver|done].
Qed.
Lemma called_step s s' : managed_step s s' →
  book (Managed_channels s) (Managed_ledger s) → called (Managed_channels s) (Managed_ledger s) →
  called (Managed_channels s') (Managed_ledger s').
Proof.
  destruct 1 as [s s' Hp|s A command|s before q after Hw|s|s|s|fuel now s q rest s']; intros Hb Hc; eauto using called_turn, called_cancel.
  - destruct Hp as [s before q after Hst Hw|s before q after Hst Hw|fuel now s q rest s'|s|s Hst]; eauto using called_turn.
    + destruct Hc. split; try done. cbn. eapply made_sub; [|done]. rewrite Hw. set_solver.
    + apply called_queue; [rewrite Hw; set_solver|done].
    + apply called_queue; [set_solver|done].
  - destruct Hc. split; cbn; [rewrite requests_app; unfold requests in *; cbn; lia|rewrite cancels_app; unfold cancels in *; cbn; lia|]. rewrite <- app_assoc.
    apply Forall_app in called_pending0 as [? ?]. rewrite !Forall_app, Forall_singleton.
    split_and!; try (eapply Forall_impl; [done|intros ?; apply made_snoc]).
    eexists _, []. split_and!; [done|done|]. cbn. by rewrite (book_epoch _ _ Hb), called_cancels0.
  - apply called_queue; [rewrite Hw; set_solver|done].
  - by destruct Hc.
  - unfold idle_turn. destruct (next_event _) as [[[]| |] c]; try done. apply called_queue; [set_solver|done].
Qed.

(** The state [s] is that of a client with one caller, who has the answers it has. *)
Definition refines c s : Prop :=
  ∃ history, serves c history (Managed_client s) ∧ calls history = Ledger_calls (Managed_ledger s) ∧
    served history = Ledger_executed (Managed_ledger s) ∧
    ∀ k reply, reply ≠ Unanswered →
      Ledger_outcomes (Managed_ledger s) !! k = Some reply ↔ Entry_Served k reply ∈ history.

Lemma resolve_unanswered ks m k reply : reply ≠ Unanswered → (∀ k, k ∈ ks → m !! k = None) →
  resolve Unanswered ks m !! k = Some reply ↔ m !! k = Some reply.
Proof.
  intros Hr Hn. rewrite resolve_lookup. case_bool_decide as Hk; [|done]. rewrite (Hn k Hk). naive_solver.
Qed.

(** What does not serve a request. *)
Lemma refines_quiet c s ks s' :
  (∀ k, k ∈ ks → Ledger_outcomes (Managed_ledger s) !! k = None) →
  Ledger_outcomes (Managed_ledger s') = resolve Unanswered ks (Ledger_outcomes (Managed_ledger s)) →
  Ledger_calls (Managed_ledger s') = Ledger_calls (Managed_ledger s) →
  Ledger_executed (Managed_ledger s') = Ledger_executed (Managed_ledger s) →
  Managed_client s' = Managed_client s → refines c s → refines c s'.
Proof.
  intros Hk Ho Hc He Hs (h & Hh & Hcalls & Hserved & Hr). exists h. rewrite Hs, Hc, He, Ho. split_and!; try done.
  intros k reply Hu. rewrite resolve_unanswered by done. by apply Hr.
Qed.
Lemma refines_entry c s entry c' s' :
  (∀ history, serves c history (Managed_client s) → calls history = Ledger_calls (Managed_ledger s) →
     served history = Ledger_executed (Managed_ledger s) → serves c (history ++ [entry]) c') →
  Managed_client s' = c' →
  Ledger_calls (Managed_ledger s') = Ledger_calls (Managed_ledger s) ++ calls [entry] →
  Ledger_executed (Managed_ledger s') = Ledger_executed (Managed_ledger s) ++ served [entry] →
  (∀ k reply, reply ≠ Unanswered → Ledger_outcomes (Managed_ledger s') !! k = Some reply ↔
     Ledger_outcomes (Managed_ledger s) !! k = Some reply ∨ entry = Entry_Served k reply) →
  refines c s → refines c s'.
Proof.
  intros Hstep <- Hc He Ho (h & Hh & Hcalls & Hserved & Hr). exists (h ++ [entry]).
  rewrite calls_app, served_app, Hc, He, Hcalls, Hserved. split_and!; [by apply Hstep|done|done|].
  intros k reply Hu. rewrite (Ho k reply Hu), (Hr k reply Hu), elem_of_app, list_elem_of_singleton. naive_solver.
Qed.

Lemma pending_not_executed ch l q : book ch l → q ∈ Channels_waiting ch ++ Channels_queue ch →
  Ledger_outcomes l !! Queued_ticket q = None ∧ Queued_ticket q ∉ Ledger_executed l.
Proof.
  intros Hb Hq. assert (Queued_ticket q ∈ tickets (Channels_waiting ch) ++ tickets (Channels_queue ch)) as Hk.
  { rewrite <- fmap_app. by apply list_elem_of_fmap_2. }
  pose proof (book_open _ _ Hb _ Hk) as Ho. split; [done|]. intros Hex.
  destruct (book_order _ _ Hb) as (gone & _ & Hx & Hg). rewrite Forall_forall in Hg.
  destruct (Hg (Queued_ticket q)) as [o Ho']; [|congruence]. by eapply elem_of_submseteq, sublist_submseteq.
Qed.

Lemma refines_turn c fuel now q rest s s' :
  Channels_queue (Managed_channels s) = q :: rest → command_turn fuel now q rest s = Some s' → managed_wf s →
  book (Managed_channels s) (Managed_ledger s) → called (Managed_channels s) (Managed_ledger s) →
  refines c s → refines c s'.
Proof.
  intros Hq Ht Hwf Hb Hc Hr.
  destruct (pending_not_executed _ _ q Hb) as [Hopen Hnew]; [rewrite Hq; set_solver|].
  pose proof (turn_wf fuel now (Channels_epoch (Managed_channels s)) q (Managed_client s)
    (head_command_wf _ _ _ Hq Hwf) (managed_client_wf _ Hwf)) as Htw.
  unfold command_turn in Ht. unfold handle_optional_command in Ht, Htw. case_bool_decide as Hg; cbn [negb] in Ht, Htw.
  2:{ simplify_eq. apply (refines_quiet c s [Queued_ticket q]); try done. by intros k ->%list_elem_of_singleton. }
  assert (∀ history, calls history = Ledger_calls (Managed_ledger s) →
    due (calls history) (Queued_ticket q) (Queued_command q)) as Hdue.
  { intros h ->. apply made_due.
    - pose proof (called_pending _ _ Hc) as Hp. rewrite Forall_forall in Hp. apply Hp. rewrite Hq. set_solver.
    - by rewrite Hg, (book_epoch _ _ Hb), (called_cancels _ _ Hc). }
  assert (∀ reply running c1, reply ≠ Unanswered →
    (∃ r, handle_command fuel now (Queued_command q) (Managed_client s) = (r, c1) ∧ reply_of r = Some reply) →
    refines c (finish_command q rest true running reply c1 s)) as Hserve.
  { intros reply running c1 Hu (r & Hh & Hreply). eapply (refines_entry c s (Entry_Served (Queued_ticket q) reply)); try done.
    - intros h Hs Hcalls Hserved. eapply serves_request; [done|by apply Hdue|by rewrite Hserved|apply handle_command_method|exact Hh|done].
    - cbn. by rewrite app_nil_r.
    - intros k reply' Hu'. cbn. rewrite lookup_insert. case_decide; subst; [rewrite Hopen|]; naive_solver. }
  destruct (handle_command fuel now (Queued_command q) (Managed_client s)) as [[a|e| | |] c1] eqn:Hh; simplify_eq; try (by apply Hserve; eauto).
  - by destruct Htw as (_ & [] & _).
  - assert (∀ running, refines c (finish_command q rest true running Unanswered
      (if waits_for_ack (Queued_command q) then c1 else (disconnect c1).2) s)) as Hint.
    { intros running. eapply (refines_entry c s (Entry_Interrupted (Queued_ticket q))); try done.
      - intros h Hs Hcalls Hserved. eapply serves_interrupted; [done|by apply Hdue|by rewrite Hserved|apply handle_command_method|exact Hh].
      - cbn. by rewrite app_nil_r.
      - intros k reply Hu. cbn. rewrite lookup_insert. case_decide; subst; [rewrite Hopen|]; naive_solver. }
    assert (∀ running c2, c2 = (if waits_for_ack (Queued_command q) then c1 else (disconnect c1).2) →
      refines c (cancel_pending_operations (finish_command q rest true running Unanswered c2 s))) as Hcancel.
    { intros running c2 ->. eapply (refines_entry c _ (Entry_Call Call_Cancel)), (Hint running); try done.
      - intros h Hs _ _. by apply serves_call.
      - cbn. by rewrite app_nil_r.
      - naive_solver. }
    assert (disconnect_on_interrupt (Queued_command q) = negb (waits_for_ack (Queued_command q))) as Hd
      by (by destruct (Queued_command q)). rewrite Hd in Ht, Htw. unfold disconnect in Hcancel.
    destruct (waits_for_ack (Queued_command q)); cbn [negb] in *; simplify_eq; [by apply Hcancel|].
    destruct (poll_disconnect c1) as [[[]| |] c2]; simplify_eq; try (by apply Hcancel). by destruct Htw as (_ & [] & _).
Qed.

Lemma refines_step c s s' : managed_step s s' → managed_wf s →
  book (Managed_channels s) (Managed_ledger s) → called (Managed_channels s) (Managed_ledger s) →
  refines c s → refines c s'.
Proof.
  assert (∀ s before q after, Channels_waiting (Managed_channels s) = before ++ q :: after →
    book (Managed_channels s) (Managed_ledger s) → refines c s → refines c (request_fail (before ++ after) q s)) as Hfail.
  { intros s1 before q after Hw Hb. apply (refines_quiet c s1 [Queued_ticket q]); try done.
    intros k ->%list_elem_of_singleton. eapply pending_not_executed; [done|]. rewrite Hw. set_solver. }
  destruct 1 as [s s' Hp|s A command|s before q after Hw|s|s|s|fuel now s q rest s']; intros Hwf Hb Hc Hr; eauto using refines_turn.
  - destruct Hp as [s before q after Hst Hw|s before q after Hst Hw|fuel now s q rest s'|s|s Hst]; eauto using refines_turn.
    pose proof (refines_quiet c s (tickets (Channels_queue (Managed_channels s))) (close Status_Stopped (Managed_client s) s)) as Hclose.
    eapply (refines_entry c (close Status_Stopped (Managed_client s) s) Entry_Closed); [intros h Hs _ _; by apply serves_closed| | | |naive_solver|].
    + cbn. unfold bounded_disconnect. by destruct (Client_connected _).
    + cbn. by rewrite app_nil_r.
    + cbn. by rewrite app_nil_r.
    + apply Hclose; try done. intros k (q & -> & Hin)%list_elem_of_fmap. eapply pending_not_executed; [done|set_solver].
  - eapply (refines_entry c s (Entry_Call (Call_Request command))); try done; [intros h Hs _ _; by apply serves_call|cbn; by rewrite app_nil_r|naive_solver].
  - eapply (refines_entry c s (Entry_Call Call_Cancel)); try done; [intros h Hs _ _; by apply serves_call|cbn; by rewrite app_nil_r|naive_solver].
  - unfold idle_turn. destruct (next_event_wf (Managed_client s) (managed_client_wf _ Hwf)) as [_ Hn].
    eapply (refines_entry c s Entry_Idle); [intros h Hs _ _; by apply serves_idle|..|exact Hr]; cbn; rewrite ?app_nil_r;
      destruct (next_event (Managed_client s)) as [[[]| |] c1]; try done; naive_solver.
Qed.

Lemma managed_reachable_refines c capacity s :
  client_wf c → rtc managed_step (spawn_inner c capacity) s →
  book (Managed_channels s) (Managed_ledger s) ∧ refines c s.
Proof.
  intros Hwf%(spawn_managed_wf c capacity) Hr. pose proof (spawn_books (T:=T) c capacity) as Hb.
  assert (called (Managed_channels (spawn_inner c capacity)) (Managed_ledger (spawn_inner c capacity))) as Hc by done.
  assert (refines c (spawn_inner c capacity)) as Hf.
  { exists []. split_and!; [constructor|done|done|]. intros k reply _. cbn. rewrite lookup_empty. set_solver. }
  revert Hwf Hb Hc Hf. induction Hr as [|s1 s2 s3 Hs Hr IH]; intros; [done|].
  apply IH; eauto using managed_step_wf, managed_step_books, called_step, refines_step.
Qed.

(** C2: the managed client refines a client used by one caller.  However requests,
    cancellations and turns of the actor interleave, there is a history of a client
    with one caller that has made the same calls in the same order, that is in the same
    state and gave the same replies: each request is served at most once, in the order
    the requests entered the queue, by the method of the client that it asks for, on the
    state its predecessors left, and only if it has not been cancelled since it was made
    (up to 2^64 cancellations); one that is interrupted gets no reply and its session is
    closed, a wait for an acknowledgement excepted.  The actor never panics. *)
Theorem managed_refines_client c capacity s :
  client_wf c → rtc managed_step (spawn_inner c capacity) s →
  (∃ history, serves c history (Managed_client s) ∧ calls history = Ledger_calls (Managed_ledger s) ∧
     served history `sublist_of` Ledger_entered (Managed_ledger s) ∧
     ∀ k reply, reply ≠ Unanswered →
       Ledger_outcomes (Managed_ledger s) !! k = Some reply ↔ Entry_Served k reply ∈ history) ∧
  Managed_status s ≠ Status_Panicked.
Proof.
  intros Hc Hr. split; [|by eapply managed_not_panicked, managed_reachable_wf].
  destruct (managed_reachable_refines c capacity s Hc Hr) as [Hb (h & Hs & Hcalls & Hserved & Hreplies)].
  exists h. split_and!; [done|done| |done]. rewrite Hserved. destruct (book_order _ _ Hb) as (gone & He & Hx & _).
  rewrite He. by apply sublist_inserts_r.
Qed.

(** In every reachable state of the managed client, the operations that were
    run were run at most once and in the order their commands entered the queue,
    ahead of what is still queued; every request made is either still pending or
    has exactly one outcome; and the queue never exceeds its capacity. *)
Theorem managed_requests_once c capacity s :
  rtc managed_step (spawn_inner c capacity) s →
  let ch := Managed_channels s in
  let l := Managed_ledger s in
  NoDup (Ledger_entered l) ∧
  Ledger_executed l ++ tickets (Channels_queue ch) `sublist_of` Ledger_entered l ∧
  (∀ k, k < Ledger_next l →
    if bool_decide (k ∈ tickets (Channels_waiting ch) ++ tickets (Channels_queue ch))
    then Ledger_outcomes l !! k = None ∧ k ∉ Ledger_executed l
    else is_Some (Ledger_outcomes l !! k)) ∧
  length (Channels_queue ch) ≤ Channels_capacity ch.
Proof.
  intros Hb%managed_reachable_books ch l. subst ch l. destruct (book_order _ _ Hb) as (gone&He&Hx&Hg).
  pose proof (book_nodup _ _ Hb) as (Hnd&_&_)%NoDup_app. split_and!.
  - done.
  - rewrite He. by apply sublist_app.
  - intros k Hk. case_bool_decide as Hin.
    + pose proof (book_open _ _ Hb k Hin) as Ho. split; [done|]. intros Hex.
      rewrite Forall_forall in Hg. destruct (Hg k) as [o Ho']; [|congruence].
      by eapply elem_of_submseteq, sublist_submseteq.
    + by apply (book_account _ _ Hb) in Hk as [?|?].
  - apply (book_capacity _ _ Hb).
Qed.
End serial.

(** ** Cancellation *)

Section cancellation.
  Context `{CratesLaws} {T : Type} `{ObservedTransport T}.
  Implicit Types (s : Managed T) (c : Client T).

(** The requests [ks], made before a cancellation: those still pending carry an
    older generation, none was run, and none has a reply. *)
Record discarded (ks : list nat) (ch : Channels) (l : Ledger) : Prop := {
  discarded_old k : k ∈ ks → k < Ledger_next l;
  discarded_generation q : q ∈ Channels_waiting ch ++ Channels_queue ch → Queued_ticket q ∈ ks →
    ∃ n, n < Ledger_cancels l ∧ Queued_generation q = generation_of n;
  discarded_executed k : k ∈ ks → k ∉ Ledger_executed l;
  discarded_outcome k : k ∈ ks →
    Ledger_outcomes l !! k = None ∨ Ledger_outcomes l !! k = Some Unanswered
}.
Abbreviation discards ks s := (discarded ks (Managed_channels s) (Managed_ledger s)).

Lemma generation_of_inj m n :
  m < n → (Z.of_nat n < 2 ^ 64)%Z → generation_of m ≠ generation_of n.
Proof. intros ? ?. unfold generation_of, to_unsigned. rewrite !Z.mod_small; lia. Qed.

Lemma cancels_mono s s' : managed_step s s' →
  Ledger_cancels (Managed_ledger s) ≤ Ledger_cancels (Managed_ledger s').
Proof.
  assert (∀ fuel now q rest s s', command_turn fuel now q rest s = Some s' →
    Ledger_cancels (Managed_ledger s) ≤ Ledger_cancels (Managed_ledger s')) as Ht.
  { intros fuel now q rest s1 s2. unfold command_turn.
    destruct (handle_optional_command _ _ _ _ _) as [[] c]; intros; simplify_eq; cbn; lia. }
  destruct 1 as [s s' Hp| | | | | |]; eauto; cbn; try lia.
  - destruct Hp; eauto; cbn; lia.
  - unfold idle_turn. by destruct (next_event _) as [[[]| |] c].
Qed.

Lemma discarded_resolve ks o rs ch waiting queue l :
  (o = Unanswered ∨ ∀ k, k ∈ rs → k ∉ ks) →
  waiting ++ queue ⊆ Channels_waiting ch ++ Channels_queue ch → discarded ks ch l →
  discarded ks (with_queue waiting queue ch) (with_outcomes (resolve o rs (Ledger_outcomes l)) l).
Proof.
  intros Ho Hsub []. split; cbn [with_queue with_outcomes Channels_waiting Channels_queue Ledger_next
    Ledger_cancels Ledger_executed Ledger_outcomes]; eauto.
  intros k Hk. rewrite resolve_lookup. case_bool_decide; [|auto]. destruct Ho as [->|Ho]; [by right|].
  by destruct (Ho k).
Qed.

Lemma discarded_with_executed ks xs ch l :
  (∀ k, k ∈ ks → k ∉ xs) → discarded ks ch l →
  discarded ks ch (with_executed (Ledger_executed l ++ xs) l).
Proof. intros Hxs []. split; cbn; auto. intros k Hk. rewrite elem_of_app. naive_solver. Qed.

Lemma cancel_discarded ks s : discards ks s → discards ks (cancel_pending_operations s).
Proof.
  intros []. split; cbn; auto. intros q Hq Hk. destruct (discarded_generation0 q Hq Hk) as (n&?&?).
  exists n. split; [lia|done].
Qed.

Lemma command_turn_discarded fuel now ks q rest s s' :
  (Z.of_nat (Ledger_cancels (Managed_ledger s)) < 2 ^ 64)%Z →
  Channels_queue (Managed_channels s) = q :: rest → command_turn fuel now q rest s = Some s' →
  book (Managed_channels s) (Managed_ledger s) → discards ks s → discards ks s'.
Proof.
  intros Hn Hq Ht Hb Hd.
  assert (Channels_waiting (Managed_channels s) ++ rest
            ⊆ Channels_waiting (Managed_channels s) ++ Channels_queue (Managed_channels s)) as Hsub
    by (rewrite Hq; set_solver).
  assert (∀ r c, discards ks (finish_command q rest false r Unanswered c s)) as Hstale.
  { intros r c. apply discarded_resolve; auto. }
  assert (Queued_generation q = Channels_epoch (Managed_channels s) → Queued_ticket q ∉ ks) as Hfresh.
  { intros Hg Hk. destruct (discarded_generation _ _ _ Hd q) as (n&Hlt&Hgn); [rewrite Hq; set_solver|done|].
    rewrite (book_epoch _ _ Hb), Hgn in Hg. by eapply generation_of_inj in Hg. }
  assert (Queued_generation q = Channels_epoch (Managed_channels s) → ∀ r o c,
    discards ks (finish_command q rest true r o c s)) as Hrun.
  { intros Hg%Hfresh r o c.
    apply (discarded_resolve ks o [Queued_ticket q] (Managed_channels s)
      (Channels_waiting (Managed_channels s)) rest
      (with_executed (Ledger_executed (Managed_ledger s) ++ [Queued_ticket q]) (Managed_ledger s)));
      [right; set_solver|done|]. apply discarded_with_executed; [set_solver|done]. }
  unfold command_turn, handle_optional_command in Ht. case_bool_decide as Hg; cbn [negb] in Ht;
    [|by simplify_eq].
  assert (∀ st c, discards ks (close st c s)) as Hclose.
  { intros st c. apply discarded_resolve; [by left|set_solver|done]. }
  destruct (handle_command _ _ _ _) as [[] c1]; simplify_eq; auto.
  destruct (negb _); simplify_eq; [by apply cancel_discarded, Hrun|].
  destruct (poll_disconnect c1) as [[[]| |] c2]; simplify_eq; auto; by apply cancel_discarded, Hrun.
Qed.

Lemma managed_step_discarded ks s s' :
  (Z.of_nat (Ledger_cancels (Managed_ledger s)) < 2 ^ 64)%Z → managed_step s s' →
  book (Managed_channels s) (Managed_ledger s) → discards ks s → discards ks s'.
Proof.
  intros Hn. destruct 1 as [s s' Hp|s A command ? Hw|s before q after Hw|s|s Hw|s|fuel now s q rest s'];
    eauto using command_turn_discarded, cancel_discarded; intros Hb Hd.
  - destruct Hp as [s before q after Hst Hw|s before q after Hst Hw|fuel now s q rest s'|s|s Hst];
      eauto using command_turn_discarded.
    + destruct Hd. split; cbn; auto. intros q' Hq'. apply discarded_generation0. rewrite Hw. set_solver.
    + apply discarded_resolve; [by left|rewrite Hw; set_solver|done].
    + apply discarded_resolve; [by left|set_solver|done].
  - destruct Hd. split; cbn; auto.
    + intros k Hk. specialize (discarded_old0 k Hk). lia.
    + intros q. rewrite !elem_of_app, list_elem_of_singleton. intros [[Hq| ->]|Hq] Hk; cbn in *.
      * apply discarded_generation0; set_solver.
      * specialize (discarded_old0 _ Hk). lia.
      * apply discarded_generation0; set_solver.
  - apply discarded_resolve; [by left|rewrite Hw; set_solver|done].
  - by destruct Hd.
  - unfold idle_turn. destruct (next_event _) as [[[]| |] c]; try done.
    apply discarded_resolve; [by left|set_solver|done].
Qed.

(** A request that is pending when [cancel_pending_operations] is called is
    never run afterwards, and its caller is never given a reply, only
    [ActorStopped], as long as the 64-bit epoch has not come round. *)
Theorem cancel_discards c capacity s s' k :
  rtc managed_step (spawn_inner c capacity) s →
  k ∈ tickets (Channels_waiting (Managed_channels s) ++ Channels_queue (Managed_channels s)) →
  rtc managed_step (cancel_pending_operations s) s' →
  (Z.of_nat (Ledger_cancels (Managed_ledger s')) < 2 ^ 64)%Z →
  k ∉ Ledger_executed (Managed_ledger s') ∧
  ∀ o, Ledger_outcomes (Managed_ledger s') !! k = Some o → o = Unanswered.
Proof.
  intros Hb%managed_reachable_books Hk Hr Hn.
  assert (discards [k] (cancel_pending_operations s)) as Hd.
  { rewrite fmap_app in Hk. pose proof (book_open _ _ Hb k Hk) as Ho. destruct (book_order _ _ Hb) as (gone&_&Hx&Hg).
    split; cbn; intros k'; try (rewrite list_elem_of_singleton; intros ->).
    - apply (book_account _ _ Hb). by left.
    - intros Hq _. pose proof (book_generations _ _ Hb) as Hgen. rewrite Forall_forall in Hgen.
      destruct (Hgen _ Hq) as (n&?&?). exists n. split; [lia|done].
    - intros Hin. rewrite Forall_forall in Hg. destruct (Hg k) as [o Ho']; [|congruence].
      by eapply elem_of_submseteq, sublist_submseteq.
    - by left. }
  assert (discards [k] s') as Hd'.
  { apply cancel_books in Hb. revert Hb Hd. induction Hr as [|s1 s2 s3 Hs Hr IH]; [done|]. intros Hb Hd.
    assert (Ledger_cancels (Managed_ledger s1) ≤ Ledger_cancels (Managed_ledger s3)) as Hle.
    { transitivity (Ledger_cancels (Managed_ledger s2)); [by apply cancels_mono|].
      clear -Hr. induction Hr; [done|]. etrans; [by apply cancels_mono|done]. }
    apply IH; [done|by eapply managed_step_books|]. eapply managed_step_discarded; [|exact Hs|exact Hb|exact Hd]; lia. }
  split; [apply (discarded_executed _ _ _ Hd'); set_solver|].
  intros o Ho. destruct (discarded_outcome _ _ _ Hd' k); [set_solver|congruence..].
Qed.

(** C34: when a cancellation interrupts the operation in progress, its caller gets
    no reply; a wait for an ACK leaves the session open with nothing written,
    and after any other operation the session is closed, or the actor leaves
    because closing did not end in time. *)
Theorem interruption_closes_session fuel now q rest c capacity s s' :
  client_wf c → rtc managed_step (spawn_inner c capacity) s →
  Channels_queue (Managed_channels s) = q :: rest →
  command_turn fuel now q rest s = Some s' → interrupted fuel now q s = true →
  Ledger_outcomes (Managed_ledger s') !! Queued_ticket q = Some Unanswered ∧
  if disconnect_on_interrupt (Queued_command q)
  then Client_connected (Managed_client s') = false ∨ Managed_status s' = Status_Leaving
  else Managed_status s' = Status_Looping ∧ Client_connected (Managed_client s') = true ∧
       sent (Managed_client s') = sent (Managed_client s).
Proof.
  intros Hc Hr Hq Ht Hi. pose proof (managed_reachable_wf _ _ _ Hc Hr) as Hwf.
  pose proof (head_command_wf _ _ _ Hq Hwf) as Hw. unfold command_turn, interrupted in *.
  destruct (handle_optional_command _ _ _ _ _) as [[] c'] eqn:Hh; simplify_eq. split.
  { cbn. by rewrite lookup_insert_eq. }
  cbn [cancel_pending_operations finish_command Managed_client Managed_status].
  revert Hh. unfold handle_optional_command. case_bool_decide; [cbn [negb]|done].
  pose proof (handle_command_triple fuel now (Queued_command q) Hw _ (managed_client_wf _ Hwf)) as Htr.
  destruct (handle_command _ _ _ _) as [[] c1] eqn:Ho; try done.
  destruct (disconnect_on_interrupt (Queued_command q)) eqn:Hd; cbn [negb].
  - pose proof (poll_disconnect_closes c1) as Hcl.
    destruct (poll_disconnect c1) as [[r| |] c2]; [|intros [= <- <-]; by right..].
    specialize (Hcl r eq_refl). destruct r; intros [= <- <-]; left; by apply Hcl.
  - intros [= <- <-]. split; [done|]. destruct q as [k A command g]. cbn in *.
    destruct command; try done. apply wait_for_ack_cancelled in Ho as [[_ ?] ?]; [done|].
    apply (managed_client_wf _ Hwf).
Qed.
End cancellation.

(** ** The wire *)

Section wire.
  Context `{CratesLaws} {T : Type} `{ObservedTransport T} `{!CleanTransport T}.
  Implicit Types (s : Managed T) (c : Client T).

Lemma managed_step_clean s s' :
  managed_step s s' → managed_wf s → transport_clean (Client_transport (Managed_client s)) →
  transport_clean (Client_transport (Managed_client s')).
Proof.
  assert (∀ fuel now q rest s s', Channels_queue (Managed_channels s) = q :: rest →
    command_turn fuel now q rest s = Some s' → managed_wf s →
    transport_clean (Client_transport (Managed_client s)) →
    transport_clean (Client_transport (Managed_client s'))) as Ht.
  { intros fuel now q rest s1 s2 Hq Hc Hs Hcl. pose proof (head_command_wf _ _ _ Hq Hs) as Hw.
    unfold command_turn in Hc.
    pose proof (turn_clean fuel now (Channels_epoch (Managed_channels s1)) q (Managed_client s1) Hw
      (managed_client_wf _ Hs) Hcl) as Hr.
    by destruct (handle_optional_command _ _ _ _ _) as [[] c]; simplify_eq. }
  destruct 1 as [s s' Hp| | | | |s|]; eauto; try done.
  - destruct Hp as [| | | |s]; eauto; try done. intros _ Hc. cbn.
    destruct (Client_connected _); [by apply bounded_disconnect_clean|done].
  - intros Hs Hc. unfold idle_turn.
    pose proof (kept_next_event _ _ _ _ clean_kept (Managed_client s) Hc) as Hn.
    destruct (next_event_wf (Managed_client s)) as [_ Hp]; [apply Hs|].
    by destruct (next_event (Managed_client s)) as [[[]| |] c].
Qed.

Lemma managed_reachable_clean c capacity s :
  client_wf c → transport_clean (Client_transport c) →
  rtc managed_step (spawn_inner c capacity) s →
  transport_clean (Client_transport (Managed_client s)).
Proof.
  intros Hwf%(spawn_managed_wf c capacity) Hc Hr.
  assert (transport_clean (Client_transport (Managed_client (spawn_inner c capacity)))) as Hc' by done.
  clear Hc. induction Hr as [|s1 s2 s3 Hs Hr IH]; [done|].
  apply IH; [by eapply managed_step_wf|by eapply managed_step_clean].
Qed.
End wire.

(** C12: a managed client over TCP, whatever is requested, cancelled and
    interrupted in the middle of a write: what the peer of the last connection
    has received is complete frames of the last packets sent, in order, and an
    incomplete frame only once the stream has been given up, so no packet is ever
    appended to a torn frame. *)
Theorem managed_tcp_wire `{CratesLaws} (c : Client TcpTransport) capacity s :
  client_wf c → tcp_wire_ok (Client_transport c) →
  rtc managed_step (spawn_inner c capacity) s → tcp_wire_ok (Client_transport (Managed_client s)).
Proof. intros Hc Hw Hr. exact (managed_reachable_clean c capacity s Hc Hw Hr). Qed.

(** ** Liveness *)

Section liveness.
  Context `{CratesLaws} {T : Type} `{ObservedTransport T} `{!FiniteTransport T} `{!PromptTransport T}.
  Implicit Types (s : Managed T) (c : Client T).

Lemma prompt_kept :
  kept_by_calls (T:=T) (λ _, True) (λ _, False) (λ _, False) (λ _, True).
Proof.
  split; try done.
  - intros t _. destruct (connect_prompt t) as [r Hr]. by destruct (transport_connect t) as [[] ?].
  - intros t _. destruct (disconnect_prompt t) as [r Hr]. by destruct (transport_disconnect t) as [[] ?].
  - intros t _. destruct (reconnect_prompt t) as [r Hr]. by destruct (transport_reconnect t) as [[] ?].
  - intros t _. pose proof (read_prompt t) as Hr. by destruct (transport_read t) as [[] ?].
  - intros t p _ _. destruct (write_prompt t p) as [r Hr]. by destruct (transport_write t p) as [[] ?].
Qed.

Lemma poll_disconnect_prompt c : ∃ r, (poll_disconnect c).1 = Ready r.
Proof.
  unfold poll_disconnect. destruct (disconnect_prompt (Client_transport c)) as [r Hr].
  destruct (transport_disconnect _) as [[[]| |] t]; try done; by eexists.
Qed.

(** With enough fuel a turn comes to its end by itself. *)
Lemma command_turn_total now q rest s :
  managed_wf s → Channels_queue (Managed_channels s) = q :: rest →
  ∃ fuel s', command_turn fuel now q rest s = Some s' ∧ interrupted fuel now q s = false.
Proof.
  intros Hs Hq. pose proof (head_command_wf _ _ _ Hq Hs) as Hw.
  set (c := Managed_client s). exists (S (transport_left (Client_transport c))).
  assert (∃ r c', handle_command (S (transport_left (Client_transport c))) now (Queued_command q) c
            = (r, c') ∧ r ≠ Stuck ∧ r ≠ Cancelled) as (r&c'&Hh&Hst&Hca).
  { destruct (handle_command _ now (Queued_command q) c) as [r c'] eqn:E. exists r, c'. split; [done|].
    destruct q as [k A command g]. cbn in *. destruct (stays_running command) eqn:Hr.
    - pose proof (handle_command_operation (S (transport_left (Client_transport c))) now command Hw Hr) as Ho.
      pose proof (operation_returns _ _ _ Ho c) as Hret. unfold left in Hret.
      pose proof (operation_carries _ _ _ _ prompt_kept _ _ _ Ho c I) as Hp.
      rewrite E in Hret, Hp. destruct Hret as [? _]; [lia|]. by destruct r.
    - destruct command; try done. cbn in E. unfold bounded_disconnect in E.
      destruct (negb _); [by simplify_eq|]. destruct (poll_disconnect_prompt c) as [r' Hr'].
      assert ((poll_disconnect c).1 ≠ Ready Stuck ∧ (poll_disconnect c).1 ≠ Ready Cancelled) as [? ?]
        by (unfold poll_disconnect; split; by repeat case_match).
      destruct (poll_disconnect c) as [p c1]; cbn in *. subst p. simplify_eq. split; congruence. }
  unfold command_turn, interrupted, handle_optional_command. fold c.
  case_bool_decide; cbn [negb]; [|by eexists]. rewrite Hh. by destruct r; eauto.
Qed.

Definition status_rank (status : Status) : nat :=
  match status with Status_Looping => 2 | Status_Leaving => 1 | _ => 0 end.
(** What is left to do. *)
Definition remaining s : nat :=
  2 * length (Channels_waiting (Managed_channels s)) + length (Channels_queue (Managed_channels s))
  + status_rank (Managed_status s).

Lemma progress_remaining s s' : progress_step s s' → remaining s' < remaining s.
Proof.
  unfold remaining.
  destruct 1 as [s before q after Hst Hw|s before q after Hst Hw|fuel now s q rest s' Hst Hq Ht Hi|s Hst Hq|s Hst];
    cbn; try rewrite Hw; rewrite ?length_app; cbn; try lia.
  - unfold command_turn, interrupted in *. rewrite Hq, Hst.
    destruct (handle_optional_command _ _ _ _ _) as [[] c]; simplify_eq; cbn; try lia.
    destruct running; cbn; lia.
  - rewrite Hst. cbn. lia.
  - rewrite Hst. cbn. lia.
Qed.

Lemma progress_next s s' : progress_step s s' →
  Ledger_next (Managed_ledger s') = Ledger_next (Managed_ledger s) ∧
  Channels_capacity (Managed_channels s') = Channels_capacity (Managed_channels s).
Proof.
  destruct 1; try done. unfold command_turn in *.
  by destruct (handle_optional_command _ _ _ _ _) as [[] c]; simplify_eq.
Qed.

Lemma capacity_const s s' : managed_step s s' →
  Channels_capacity (Managed_channels s') = Channels_capacity (Managed_channels s).
Proof.
  destruct 1 as [s s' Hp| | | | |s|]; try done; [by apply progress_next| |].
  - unfold idle_turn. by destruct (next_event _) as [[[]| |] c].
  - unfold command_turn in *. by destruct (handle_optional_command _ _ _ _ _) as [[] c]; simplify_eq.
Qed.

(** When nothing can happen by itself, nothing is pending. *)
Lemma progress_finished s :
  managed_wf s → 0 < Channels_capacity (Managed_channels s) → nf progress_step s →
  Channels_waiting (Managed_channels s) = [] ∧ Channels_queue (Managed_channels s) = [].
Proof.
  intros Hs Hcap Hnf. assert (∀ s', ¬ progress_step s s') as Hno by (intros s' ?; apply Hnf; by eexists).
  destruct (Managed_status s) eqn:Hst.
  - destruct (Channels_queue (Managed_channels s)) as [|q rest] eqn:Hq.
    + split; [|done]. destruct (Channels_waiting (Managed_channels s)) as [|q after] eqn:Hw; [done|].
      exfalso. eapply Hno, (step_send s [] q after); [rewrite Hst; set_solver|done|rewrite Hq; done].
    + destruct (command_turn_total 0 q rest s Hs Hq) as (fuel&s'&Ht&Hi).
      exfalso. by eapply Hno, step_command.
  - exfalso. by eapply Hno, step_finish.
  - split; [|by apply (managed_stopped _ Hs)].
    destruct (Channels_waiting (Managed_channels s)) as [|q after] eqn:Hw; [done|].
    exfalso. eapply Hno, (step_refused s [] q after); [rewrite Hst; set_solver|done].
  - by destruct (managed_not_panicked _ Hs).
Qed.

(** C20: every request is eventually answered, over a transport whose calls complete and
    which delivers finitely many packets in all, those it answers commands with included
    ([FiniteTransport]).  From any reachable state, the turns of the actor and the queue
    cannot go on for ever without a caller doing something, and when they have come to
    rest every request made has its outcome.  Without the second condition this is not
    so: the timeout of a request starts again with each packet, and a device that never
    stops sending other packets keeps a request waiting. *)
Theorem managed_requests_answered c capacity s :
  0 < capacity → client_wf c → rtc managed_step (spawn_inner c capacity) s →
  sn progress_step s ∧
  ∀ s', rtc progress_step s s' → nf progress_step s' →
  ∀ k, k < Ledger_next (Managed_ledger s) → is_Some (Ledger_outcomes (Managed_ledger s') !! k).
Proof.
  intros Hcap Hc Hr. split.
  { remember (remaining s) as n eqn:Hn. clear Hr. revert s Hn.
    induction n as [n IH] using lt_wf_ind. intros s ->. constructor. intros s' Hs.
    by eapply IH; [apply progress_remaining|]. }
  intros s' Hp Hnf k Hk.
  assert (rtc managed_step (spawn_inner c capacity) s') as Hr'.
  { etrans; [exact Hr|]. eapply (rtc_congruence id); [|exact Hp]. intros. by apply step_progress. }
  assert (Channels_capacity (Managed_channels s') = capacity) as Hcap'.
  { transitivity (Channels_capacity (Managed_channels (spawn_inner (T:=T) c capacity))); [|done].
    clear -Hr'. induction Hr' as [|s1 s2 s3 Hs _ IH]; [done|]. by rewrite <- (capacity_const _ _ Hs). }
  assert (Ledger_next (Managed_ledger s') = Ledger_next (Managed_ledger s)) as Hnext.
  { clear -Hp. induction Hp as [|s1 s2 s3 Hs _ IH]; [done|].
    by rewrite <- (proj1 (progress_next _ _ Hs)). }
  destruct (progress_finished s') as [Hw Hq]; [by eapply managed_reachable_wf|by rewrite Hcap'|done|].
  apply managed_reachable_books in Hr'. rewrite <- Hnext in Hk.
  apply (book_account _ _ Hr') in Hk as [Hk|Hk]; [|done]. rewrite Hw, Hq in Hk. set_solver.
Qed.
End liveness.

(** ** Examples *)

(** A request that is queued and run. *)
Definition demo_managed : Managed ScriptedTransport :=
  spawn_inner (demo_client [ack_report; time_report]) 1.
Definition time_request : QueuedCommand := mkQueued 0 u32 ActorCommand_GetTime 0.
Definition demo_asked : Managed ScriptedTransport := request_begin ActorCommand_GetTime demo_managed.
Definition demo_queued : Managed ScriptedTransport := request_send [] time_request demo_asked.
Definition demo_answered : Managed ScriptedTransport :=
  default demo_queued (command_turn 3 0 time_request [] demo_queued).

Lemma demo_wf : client_wf (demo_client [ack_report; time_report]).
Proof. apply demo_live, reports_bytes. Qed.

Lemma demo_asked_reachable : rtc managed_step demo_managed demo_asked.
Proof. by apply rtc_once, step_request. Qed.

Lemma demo_queued_step : progress_step demo_asked demo_queued.
Proof.
  apply (step_send demo_asked [] time_request []); [set_solver|reflexivity|vm_compute; lia].
Qed.

Lemma demo_answered_step : progress_step demo_queued demo_answered.
Proof. by apply (step_command 3 0 demo_queued time_request []). Qed.

Lemma demo_answered_reachable : rtc managed_step demo_managed demo_answered.
Proof.
  etrans; [apply demo_asked_reachable|]. eapply rtc_l; [apply step_progress, demo_queued_step|].
  apply rtc_once, step_progress, demo_answered_step.
Qed.

(** The request for the time was made, and served with the time the device told. *)
Lemma managed_refines_client_witness :
  ∃ history, serves (demo_client [ack_report; time_report]) history (Managed_client demo_answered) ∧
    calls history = [Call_Request ActorCommand_GetTime] ∧ Entry_Served 0 (Replied (Ok 1%Z)) ∈ history.
Proof.
  destruct (managed_refines_client (demo_client [ack_report; time_report]) 1 demo_answered) as [(h & Hs & Hc & _ & Hr) _];
    [apply demo_wf|apply demo_answered_reachable|].
  exists h. split; [exact Hs|]. split; [rewrite Hc; reflexivity|]. apply Hr; [discriminate|reflexivity].
Defined.

Lemma managed_requests_once_witness :
  is_Some (Ledger_outcomes (Managed_ledger demo_answered) !! 0) ∧
  Ledger_executed (Managed_ledger demo_answered) = [0].
Proof.
  destruct (managed_requests_once _ 1 demo_answered demo_answered_reachable) as (_&_&Ho&_).
  split; [apply (Ho 0); vm_compute; lia|reflexivity].
Defined.

Lemma managed_requests_answered_witness :
  sn progress_step demo_asked ∧
  ∀ s', rtc progress_step demo_asked s' → nf progress_step s' →
  is_Some (Ledger_outcomes (Managed_ledger s') !! 0).
Proof.
  destruct (managed_requests_answered (demo_client [ack_report; time_report]) 1 demo_asked) as [Hs Ha].
  - lia.
  - apply demo_wf.
  - apply demo_asked_reachable.
  - split; [exact Hs|]. intros s' Hr Hn. apply (Ha s' Hr Hn). vm_compute. lia.
Defined.

Definition demo_cancelled : Managed ScriptedTransport := cancel_pending_operations demo_queued.
Definition demo_discarded : Managed ScriptedTransport :=
  default demo_cancelled (command_turn 3 0 time_request [] demo_cancelled).

Lemma cancel_discards_witness :
  0 ∉ Ledger_executed (Managed_ledger demo_discarded) ∧
  Ledger_outcomes (Managed_ledger demo_discarded) !! 0 = Some Unanswered.
Proof.
  destruct (cancel_discards (demo_client [ack_report; time_report]) 1 demo_queued demo_discarded 0)
    as [Hx Ho].
  - etrans; [apply demo_asked_reachable|]. apply rtc_once, step_progress, demo_queued_step.
  - set_solver.
  - apply rtc_once, step_progress. by apply (step_command 3 0 demo_cancelled time_request []).
  - vm_compute. reflexivity.
  - split; [exact Hx|reflexivity].
Defined.

(** A TCP session whose first write is cut off after two bytes. *)
Definition torn_tcp : TcpTransport :=
  mkTcp "node" 5000 (5 * NANOS_PER_SEC) true (mkStream [] [WriteDropped 2] []) FramedReadState_new [] [] [].
Definition torn_client : Client TcpTransport :=
  with_connected true (with_valid_timeout torn_tcp CLIENT_REQUEST_TIMEOUT).
Definition torn_queued : Managed TcpTransport :=
  request_send [] time_request (request_begin ActorCommand_GetTime (spawn_inner torn_client 1)).
Definition torn_interrupted : Managed TcpTransport :=
  default torn_queued (command_turn 3 0 time_request [] torn_queued).

Lemma torn_client_wf : client_wf torn_client.
Proof. apply connected_live, client_new_wf. split; [constructor|split; constructor]. Qed.

Lemma torn_queued_reachable : rtc managed_step (spawn_inner torn_client 1) torn_queued.
Proof.
  apply (rtc_l _ _ (request_begin ActorCommand_GetTime (spawn_inner torn_client 1)));
    [by apply step_request|]. apply rtc_once, step_progress.
  apply (step_send _ [] time_request []); [set_solver|reflexivity|vm_compute; lia].
Qed.

Lemma interruption_closes_session_witness :
  Client_connected (Managed_client torn_interrupted) = false ∧
  Stream_written (Tcp_stream (Client_transport (Managed_client torn_interrupted))) = [60; 1]%Z.
Proof.
  destruct (interruption_closes_session 3 0 time_request [] torn_client 1 torn_queued torn_interrupted)
    as [_ [Hc|Hc]].
  - apply torn_client_wf.
  - apply torn_queued_reachable.
  - reflexivity.
  - reflexivity.
  - reflexivity.
  - split; [exact Hc|reflexivity].
  - discriminate Hc.
Defined.

Lemma managed_tcp_wire_witness : tcp_wire_ok (Client_transport (Managed_client torn_interrupted)).
Proof.
  apply (managed_tcp_wire torn_client 1).
  - apply torn_client_wf.
  - apply tcp_wire_fresh; [constructor|reflexivity].
  - etrans; [apply torn_queued_reachable|]. apply rtc_once.
    by apply (step_interrupt 3 0 torn_queued time_request []).
Defined.
