(* ===== verification/Roundtrip.v ===== *)
(** * Round trips between the outbound and the inbound half of the protocol

    What a setter puts on the wire is what the matching parser reads back: the
    companion echoes the record of a setter under the response code of the
    matching query.  Contacts, channels, the default flood scope, the clock,
    the tuning parameters, the auto-add configuration and custom variables. *)

From S2P Require Import Prelude Text Floats Domain Samples Packet PacketFacts Command CommandFacts.

(** ** Reading a field of a concatenation *)

Section walk.
  Implicit Types a b : bytes.

Lemma idx_head {E} x b : idx (E:=E) ([x] ++ b) 0 = Ok x.
Proof. done. Qed.

Lemma read_u32_skip a b i : length a ≤ i → read_u32 (a ++ b) i = read_u32 b (i - length a).
Proof.
  intros. unfold read_u32. rewrite !idx_app_r by lia.
  by replace (i + 1 - length a) with (i - length a + 1) by lia;
  replace (i + 2 - length a) with (i - length a + 2) by lia;
  replace (i + 3 - length a) with (i - length a + 3) by lia.
Qed.

Lemma read_u32_head a b : length a = 4 → read_u32 (a ++ b) 0 = Ok (from_le_bytes a).
Proof. by destruct a as [|? [|? [|? [|? [|? ?]]]]]. Qed.

Lemma read_u32_all a : length a = 4 → read_u32 a 0 = Ok (from_le_bytes a).
Proof. intros. rewrite <- (app_nil_r a) at 1. by apply read_u32_head. Qed.

Lemma read_scaled_skip a b i :
    length a ≤ i → read_scaled_i32 (a ++ b) i = read_scaled_i32 b (i - length a).
Proof.
  intros. unfold read_scaled_i32. rewrite !idx_app_r by lia.
  by replace (i + 1 - length a) with (i - length a + 1) by lia;
  replace (i + 2 - length a) with (i - length a + 2) by lia;
  replace (i + 3 - length a) with (i - length a + 3) by lia.
Qed.

Lemma read_scaled_head a b : length a = 4 → read_scaled_i32 (a ++ b) 0 = Ok (parse_scaled_i32 a).
Proof. by destruct a as [|? [|? [|? [|? [|? ?]]]]]. Qed.

Lemma slice_from_skip {E} a b i :
    length a ≤ i → i ≤ length a + length b → slice_from (E:=E) (a ++ b) i = slice_from b (i - length a).
Proof.
  intros. unfold slice_from. rewrite length_app, slice_skip by lia. f_equal. lia.
Qed.

Lemma slice_from_all {E} a : slice_from (E:=E) a 0 = Ok a.
Proof. by apply slice_all. Qed.
End walk.

(** Length goals of a layout whose fields have known lengths. *)
Ltac seg_len :=
  repeat match goal with
  | H : length ?a = _ |- context [length ?a] => rewrite H
  end; autorewrite with mq_len; simpl length.

(** Moves an access past the first field of a layout. *)
Ltac seg_skip :=
  first
    [ rewrite idx_head
    | rewrite read_u32_head by (seg_len; lia)
    | rewrite read_u32_all by (seg_len; lia)
    | rewrite read_scaled_head by (seg_len; lia)
    | rewrite slice_head by (seg_len; lia)
    | rewrite slice_all by (seg_len; lia)
    | rewrite slice_from_all
    | rewrite idx_app_r by (seg_len; lia)
    | rewrite read_u32_skip by (seg_len; lia)
    | rewrite read_scaled_skip by (seg_len; lia)
    | rewrite slice_skip by (seg_len; lia)
    | rewrite slice_from_skip by (seg_len; lia) ];
  seg_len; cbn [Nat.sub Nat.add].

Lemma copy_ok {E} buf i j src :
  i ≤ j → j ≤ length buf → length src = j - i →
  copy_from_slice (E:=E) buf i j src = Ok (take i buf ++ src ++ drop j buf).
Proof. intros. unfold copy_from_slice. by rewrite bool_decide_true. Qed.

Lemma require_len_ok raw n code : n ≤ length raw → require_len raw n code = Ok ().
Proof. intros. unfold require_len. destruct (Nat.ltb_spec (length raw) n); [lia|done]. Qed.

Lemma require_exact_len_ok raw n code : length raw = n → require_exact_len raw n code = Ok ().
Proof.
  intros <-. unfold require_exact_len. rewrite require_len_ok by done. simpl.
  by rewrite Nat.eqb_refl.
Qed.

Lemma decode_padded_name name n context :
  is_rstring name → no_nul name → decode_padded_string (name ++ replicate n 0%Z) context = Ok name.
Proof.
  intros Hr Hn. unfold decode_padded_string.
  assert (position (λ b, (b =? 0)%Z) (name ++ replicate n 0%Z)
          = Nat.add (length name) <$> position (λ b, (b =? 0)%Z) (replicate n 0%Z)) as ->.
  { apply position_app_skip. eapply Forall_impl; [exact Hn|]. simpl. intros; lia. }
  assert (default (length (name ++ replicate n 0%Z))
            (Nat.add (length name) <$> position (λ b, (b =? 0)%Z) (replicate n 0%Z))
          = length name) as ->.
  { destruct n; simpl; [rewrite app_nil_r|]; lia. }
  rewrite slice_head by done. simpl. by rewrite from_utf8_rstring.
Qed.

(** ** Contacts *)

Lemma descriptor_split m h :
  (0 ≤ h ≤ 63)%Z → Z.shiftr (64 * m + h) 6 = m ∧ Z.land (64 * m + h) 0x3f = h.
Proof.
  intros. rewrite Z.shiftr_div_pow2 by lia. change 63%Z with (Z.ones 6).
  rewrite Z.land_ones by lia. change (2 ^ 6)%Z with 64%Z.
  rewrite (Z.add_comm (64 * m)), (Z.mul_comm 64 m). rewrite Z.div_add, Z_mod_plus_full by lia.
  rewrite Z.div_small, Z.mod_small by lia. lia.
Qed.

(** The route decoding step of [parse_contact] inverts the descriptor. *)
Lemma decode_route_descriptor route path :
  encodable_route route (mkPath path) →
  (if (route_descriptor route =? 255)%Z then Ok (ContactRoute_Flood, 0)
   else if 64 <? Z.to_nat (Z.land (route_descriptor route) 63) *
                 (Z.to_nat (Z.shiftr (route_descriptor route) 6) + 1)
   then malformed "contact path descriptor exceeds fixed path field"
   else Ok (ContactRoute_Path (Z.shiftr (route_descriptor route) 6)
              (Z.land (route_descriptor route) 63),
            Z.to_nat (Z.land (route_descriptor route) 63) *
            (Z.to_nat (Z.shiftr (route_descriptor route) 6) + 1)))
  = Ok (route, length path).
Proof.
  destruct route as [|m h]; simpl; [by intros ->|]. intros (?&?&Hl&?).
  destruct (descriptor_split m h) as [-> ->]; [lia|].
  destruct (Z.eqb_spec (64 * m + h) 255); [lia|].
  destruct (Nat.ltb_spec 64 (Z.to_nat h * (Z.to_nat m + 1))); [lia|].
  do 2 f_equal. lia.
Qed.

(** What [parse_contact] computes on the fields of its layout. *)
Lemma parse_contact_layout key t flags route path name adv lat lon lm :
  length key = 32 → encodable_route route (mkPath path) →
  is_rstring name → no_nul name → length name ≤ 32 →
  length adv = 4 → length lat = 4 → length lon = 4 → length lm = 4 →
  parse_contact ([3%Z] ++ key ++ [t] ++ [flags] ++ [route_descriptor route] ++
                 (path ++ replicate (64 - length path) 0%Z) ++
                 (name ++ replicate (32 - length name) 0%Z) ++ adv ++ lat ++ lon ++ lm)
  = Ok (Packet_Contact
          (mkContact (mkPublicKey key) (ContactType_from_u8 t) flags route (mkPath path) name
             (from_le_bytes adv) (parse_scaled_i32 lat) (parse_scaled_i32 lon)
             (from_le_bytes lm))).
Proof.
  intros Hk Hr Hs Hn Hl Ha Hlat Hlon Hlm.
  assert (length path ≤ 64) as Hp by (destruct route; simpl in Hr; [subst; simpl|]; lia).
  assert (length (path ++ replicate (64 - length path) 0%Z) = 64) as Hpf by (autorewrite with mq_len; lia).
  assert (length (name ++ replicate (32 - length name) 0%Z) = 32) as Hnf by (autorewrite with mq_len; lia).
  unfold parse_contact. rewrite require_len_ok by (seg_len; lia).
  cbv zeta. cbn [mbind outcome_bind]. change (36 + 64) with 100.
  change (100 + 32) with 132. change (132 + 4) with 136. change (136 + 4) with 140.
  change (136 + 8) with 144. repeat seg_skip.
  cbn [mbind outcome_bind]. unfold PublicKey_try_from_bytes.
  rewrite Hk. cbn [Nat.eqb map_err mbind outcome_bind].
  rewrite decode_route_descriptor with (path := path) by done. cbn [mbind outcome_bind].
  rewrite !slice_skip by (seg_len; lia). seg_len.
  rewrite <- app_assoc, slice_head by lia. cbn [mbind outcome_bind].
  unfold Path_try_from_bytes, Path_MAX_BYTES.
  destruct (Nat.ltb_spec 128 (length path)); [lia|]. cbn [map_err mbind outcome_bind].
  by rewrite decode_padded_name.
Qed.

(** The payload [update_contact] builds, field by field. *)
Lemma update_contact_payload c cmd :
  wf_Contact c → wf_ContactRoute (Contact_route c) → update_contact c = Ok cmd →
  ∃ lat lon,
    scaled_coordinate (Contact_adv_lat c) (-90) 90 "latitude" = Ok lat ∧
    scaled_coordinate (Contact_adv_lon c) (-180) 180 "longitude" = Ok lon ∧
    encodable_route (Contact_route c) (Contact_out_path c) ∧
    Contact_adv_name c ≠ [] ∧ length (Contact_adv_name c) ≤ 31 ∧
    cmd = mkCommand CommandCode_AddUpdateContact
      (PublicKey_0 (Contact_public_key c) ++ [contact_type_to_u8 (Contact_contact_type c)] ++
       [Contact_flags c] ++ [route_descriptor (Contact_route c)] ++
       (Path_bytes (Contact_out_path c) ++
        replicate (64 - length (Path_bytes (Contact_out_path c))) 0%Z) ++
       (Contact_adv_name c ++ replicate (32 - length (Contact_adv_name c)) 0%Z) ++
       u32_to_le_bytes (Contact_last_advert c) ++ i32_to_le_bytes lat ++ i32_to_le_bytes lon).
Proof.
  intros ((_&Hk)&_&_&_&_&Hp&_) Hr. unfold update_contact. cbv zeta.
  pose proof (validate_text_field_post (Contact_adv_name c) 31 "name") as Hv.
  destruct (validate_text_field _ _ _); [|done|done]. destruct Hv as [Hne Hlen]. cbn [mbind outcome_bind].
  destruct (reject_nul _ _); [|done|done]. cbn [mbind outcome_bind].
  destruct (encode_contact_route _ _) as [d| |] eqn:Hd; [|done|done]. cbn [mbind outcome_bind].
  apply encode_contact_route_iff in Hd as [Henc ->]; [|done].
  destruct (scaled_coordinate (Contact_adv_lat c) _ _ _) as [lat| |] eqn:Hlat; [|done|done].
  destruct (scaled_coordinate (Contact_adv_lon c) _ _ _) as [lon| |] eqn:Hlon; [|done|done].
  cbn [mbind outcome_bind]. intros Hc. exists lat, lon. split_and!; try done.
  revert Hc. rewrite resize0_pad by (rewrite ?length_app, ?length_resize0; simpl; lia).
  rewrite resize0_pad by (rewrite ?length_app; simpl; lia).
  assert (∀ a b : bytes, a = b → length b ≤ 175 → checked CommandCode_AddUpdateContact a = Ok cmd →
    cmd = mkCommand CommandCode_AddUpdateContact b) as Haux.
  { intros x y <- Hx. rewrite checked_spec by done. by intros [= <-]. }
  apply Haux.
  - rewrite <- !app_assoc, !length_app, !length_replicate. simpl length. rewrite Hk.
    do 5 f_equal. apply (f_equal2 app); [f_equal; lia|]. f_equal.
    apply (f_equal2 app); [f_equal; lia|done].
  - unfold u32_to_le_bytes, i32_to_le_bytes. rewrite !length_app, !length_replicate, !length_to_le_bytes. simpl. lia.
Qed.

(** [c] with its coordinates replaced by what the wire carries, and the
    modification time the companion reports. *)
Definition stored_contact (c : Contact) (lat lon : i32) (lastmod : u32) : Contact :=
  mkContact (Contact_public_key c) (Contact_contact_type c) (Contact_flags c) (Contact_route c)
    (Contact_out_path c) (Contact_adv_name c) (Contact_last_advert c)
    (f64_div (f64_of_Z lat) (f64_of_Z 1000000)) (f64_div (f64_of_Z lon) (f64_of_Z 1000000))
    lastmod.

(** The frame in which the companion reports a record it was given. *)
Definition contact_report (cmd : Command) (lastmod : u32) : bytes :=
  [PacketCode_to_u8 PacketCode_Contact] ++ Command_payload cmd ++ u32_to_le_bytes lastmod.

Lemma contact_type_roundtrip t : wf_ContactType t → ContactType_from_u8 (contact_type_to_u8 t) = t.
Proof.
  destruct t as [| | | |raw]; try done. simpl. intros [? ?]. unfold ContactType_from_u8.
  repeat (case_match; try done; try lia).
Qed.

Lemma parse_contact_report c cmd lastmod :
  wf_Contact c → wf_ContactRoute (Contact_route c) → is_uint 32 lastmod →
  update_contact c = Ok cmd →
  ∃ lat lon,
    scaled_coordinate (Contact_adv_lat c) (-90) 90 "latitude" = Ok lat ∧
    scaled_coordinate (Contact_adv_lon c) (-180) 180 "longitude" = Ok lon ∧
    parse_contact (contact_report cmd lastmod) = Ok (Packet_Contact (stored_contact c lat lon lastmod))
    ∧ length (contact_report cmd lastmod) = 148.
Proof.
  intros Hwf Hr Hlm Hu. pose proof Hwf as ((_&Hk)&Ht&_&_&_&Hp&(Hs&Hn&_)&Hadv&_).
  destruct (update_contact_payload c cmd Hwf Hr Hu) as (lat&lon&Hlat&Hlon&Henc&Hne&Hl&->).
  exists lat, lon. split_and!; [done..| |].
  - etrans; [|etrans; [apply (parse_contact_layout (PublicKey_0 (Contact_public_key c))
        (contact_type_to_u8 (Contact_contact_type c)) (Contact_flags c) (Contact_route c)
        (Path_bytes (Contact_out_path c)) (Contact_adv_name c)
        (u32_to_le_bytes (Contact_last_advert c)) (i32_to_le_bytes lat) (i32_to_le_bytes lon)
        (u32_to_le_bytes lastmod)); auto; try apply length_to_le_bytes; try lia|]].
    + unfold contact_report. cbn [Command_payload]. by rewrite <- !app_assoc.
    + pose proof (scaled_coordinate_post (Contact_adv_lat c) (-90) 90 "latitude") as Hpl.
      pose proof (scaled_coordinate_post (Contact_adv_lon c) (-180) 180 "longitude") as Hpo.
      rewrite Hlat in Hpl. rewrite Hlon in Hpo. unfold stored_contact, parse_scaled_i32.
      rewrite !i32_le_roundtrip, contact_type_roundtrip by done.
      unfold u32_to_le_bytes. rewrite !from_to_le_bytes by done.
      by destruct c as [[key] ? ? ? [path] ? ? ? ? ?].
  - unfold contact_report, u32_to_le_bytes, i32_to_le_bytes. cbn [Command_payload].
    autorewrite with mq_len. simpl length. lia.
Qed.

(** [Packet::parse] of a frame that fits is the parser of its code byte; what
    is left to show is that the frame fits. *)
Ltac parse_as f :=
  lazymatch goal with
  | |- Packet_parse ?raw = _ =>
      transitivity (f raw); [|reflexivity];
      cut (length raw ≤ MAX_INNER_PAYLOAD);
      [intros Hfit; unfold Packet_parse; cbn [app];
       match goal with |- context [_ <? ?n] =>
         rewrite (proj2 (Nat.ltb_ge MAX_INNER_PAYLOAD n) Hfit) end; reflexivity
      |unfold MAX_INNER_PAYLOAD]
  end.

Section roundtrips.
  Context `{CratesLaws}.

(** a contact record written with [update_contact] and reported back is
    parsed as the same record, its coordinates being the encoded millionths of
    a degree. *)
Theorem update_contact_roundtrip c cmd lastmod :
  wf_Contact c → wf_ContactRoute (Contact_route c) → is_uint 32 lastmod →
  update_contact c = Ok cmd →
  ∃ lat lon,
    scaled_coordinate (Contact_adv_lat c) (-90) 90 "latitude" = Ok lat ∧
    scaled_coordinate (Contact_adv_lon c) (-180) 180 "longitude" = Ok lon ∧
    Packet_parse (contact_report cmd lastmod)
      = Ok (Packet_Contact (stored_contact c lat lon lastmod)).
Proof.
  intros Hwf Hr Hlm Hu. destruct (parse_contact_report c cmd lastmod Hwf Hr Hlm Hu)
    as (lat&lon&?&?&Hp&Hlen). exists lat, lon. split_and!; [done..|].
  rewrite <- Hp. parse_as parse_contact. unfold contact_report in Hlen.
  rewrite length_app in Hlen. simpl in Hlen. simpl. lia.
Qed.

(** ** Channels *)

Lemma set_channel_payload idx name secret cmd :
  length secret = 16 → set_channel idx name secret = Ok cmd →
  name ≠ [] ∧ length name ≤ 31 ∧ no_nul name ∧
  cmd = mkCommand CommandCode_SetChannel
          ([idx] ++ (name ++ replicate (32 - length name) 0%Z) ++ secret).
Proof.
  intros Hs. unfold set_channel. cbv zeta.
  pose proof (validate_text_field_post name 31 "name") as Hv.
  destruct (validate_text_field _ _ _); [|done|done]. destruct Hv as [Hne Hlen].
  pose proof (reject_nul_post name "name") as Hn. cbn [mbind outcome_bind].
  destruct (reject_nul _ _); [|done|done]. simpl in Hn. cbn [mbind outcome_bind].
  change (1 + 32 + 16) with 49. rewrite (copy_ok _ 0) by (simpl; lia).
  cbn [mbind outcome_bind]. change (take 0 _ ++ [idx] ++ drop 1 _) with ([idx] ++ replicate 48 0%Z).
  rewrite (copy_ok _ 1) by (simpl; lia).
  cbn [mbind outcome_bind]. rewrite take_app_length' by done.
  replace (length name + 1) with (length [idx] + length name) by (simpl; lia).
  rewrite drop_app_add. change (replicate 48 0%Z) with (replicate 32 0%Z ++ replicate 16 0%Z).
  rewrite drop_app_le by (rewrite length_replicate; lia). rewrite drop_replicate.
  set (b := [idx] ++ name ++ _).
  assert (length b = 49) as Hb by (unfold b; rewrite !length_app, !length_replicate; simpl; lia).
  rewrite copy_ok by lia. cbn [mbind outcome_bind]. rewrite drop_ge, app_nil_r by lia.
  assert (take 33 b = [idx] ++ (name ++ replicate (32 - length name) 0%Z)) as ->.
  { unfold b. rewrite !app_assoc. apply take_app_length'.
    rewrite !length_app, length_replicate. simpl. lia. }
  rewrite <- !app_assoc. rewrite checked_spec by (rewrite !length_app, length_replicate; simpl; lia).
  intros [= <-]. by rewrite <- ?app_assoc.
Qed.

(** a channel written with [set_channel] is read back by the channel query
    with its index, name and secret. *)
Theorem set_channel_roundtrip idx name secret cmd :
  is_u8 idx → is_rstring name → is_arr 16 secret → set_channel idx name secret = Ok cmd →
  Packet_parse ([PacketCode_to_u8 PacketCode_ChannelInfo] ++ Command_payload cmd)
    = Ok (Packet_ChannelInfo (ChannelInfo_with_secret idx name (Some secret))).
Proof.
  intros Hi Hr [Hsb Hs] Hc. apply set_channel_payload in Hc as (Hne&Hl&Hn&->); [|done].
  cbn [Command_payload].
  assert (length (name ++ replicate (32 - length name) 0%Z) = 32) as Hnf by (autorewrite with mq_len; lia).
  set (field := name ++ _) in *.
  etrans; [parse_as parse_channel_info; seg_len; lia|].
  unfold parse_channel_info. rewrite require_len_ok by (seg_len; lia).
  repeat seg_skip. cbn [mbind outcome_bind]. repeat seg_skip. unfold field. by rewrite decode_padded_name.
Qed.

(** ** Default flood scope *)

Lemma set_default_flood_scope_payload name key cmd :
  length key = 16 → set_default_flood_scope name key = Ok cmd →
  name ≠ [] ∧ length name ≤ 30 ∧ no_nul name ∧
  cmd = mkCommand CommandCode_SetDefaultFloodScope
          ((name ++ replicate (31 - length name) 0%Z) ++ key).
Proof.
  intros Hk. unfold set_default_flood_scope. cbv zeta.
  pose proof (validate_text_field_post name 30 "name") as Hv.
  destruct (validate_text_field _ _ _); [|done|done]. destruct Hv as [Hne Hlen].
  pose proof (reject_nul_post name "name") as Hn. cbn [mbind outcome_bind].
  destruct (reject_nul _ _); [|done|done]. simpl in Hn. cbn [mbind outcome_bind].
  rewrite (copy_ok _ 0) by (rewrite ?length_replicate; lia). cbn [mbind outcome_bind take app].
  change (replicate (31 + 16) 0%Z) with (replicate 31 0%Z ++ replicate 16 0%Z).
  rewrite take_0. cbn [app]. rewrite drop_app_le by (rewrite length_replicate; lia).
  rewrite drop_replicate. set (b := name ++ _).
  assert (length b = 47) as Hb by (unfold b; rewrite !length_app, !length_replicate; simpl; lia).
  rewrite copy_ok by lia. cbn [mbind outcome_bind]. rewrite drop_ge, app_nil_r by lia.
  assert (take 31 b = name ++ replicate (31 - length name) 0%Z) as ->.
  { unfold b. rewrite !app_assoc. apply take_app_length'.
    rewrite !length_app, length_replicate. simpl. lia. }
  rewrite checked_spec by (rewrite !length_app, length_replicate; simpl; lia).
  by intros [= <-].
Qed.

(** a default flood scope written with [set_default_flood_scope] is read
    back with its name and key; clearing it reads back as unconfigured. *)
Theorem default_flood_scope_roundtrip name key cmd :
  is_rstring name → is_arr 16 key → set_default_flood_scope name key = Ok cmd →
  Packet_parse ([PacketCode_to_u8 PacketCode_DefaultFloodScope] ++ Command_payload cmd)
    = Ok (Packet_DefaultFloodScope (DefaultFloodScope_Configured (Scope_new (Some name) key))) ∧
  Packet_parse ([PacketCode_to_u8 PacketCode_DefaultFloodScope]
                ++ Command_payload clear_default_flood_scope)
    = Ok (Packet_DefaultFloodScope DefaultFloodScope_Unconfigured).
Proof.
  intros Hr [Hkb Hk] Hc. split; [|done].
  apply set_default_flood_scope_payload in Hc as (Hne&Hl&Hn&->); [|done].
  cbn [Command_payload].
  assert (length (name ++ replicate (31 - length name) 0%Z) = 31) as Hnf by (autorewrite with mq_len; lia).
  assert (position (λ b, (b =? 0)%Z) (name ++ replicate (31 - length name) 0%Z)
          = Some (length name)) as Hpos.
  { rewrite position_app_skip by (eapply Forall_impl; [exact Hn|]; simpl; intros; lia).
    destruct (31 - length name) eqn:E; [lia|]. simpl. f_equal. lia. }
  assert (slice (E:=ParseError) (name ++ replicate (31 - length name) 0%Z) 0 (length name) = Ok name)
    as Hname by (by apply slice_head).
  set (field := name ++ _) in *.
  etrans; [parse_as parse_default_flood_scope; seg_len; lia|].
  unfold parse_default_flood_scope.
  destruct (Nat.eqb_spec (length ([PacketCode_to_u8 PacketCode_DefaultFloodScope] ++ field ++ key)) 1) as [E|_];
    [rewrite !length_app in E; simpl in E; lia|].
  rewrite require_exact_len_ok by (seg_len; lia). cbn [mbind outcome_bind]. repeat seg_skip.
  cbn [mbind outcome_bind]. rewrite Hpos.
  destruct (Nat.eqb_spec (length name) 0) as [E|_]; [by destruct name|].
  rewrite slice_skip by (simpl; lia). simpl length. rewrite Nat.sub_diag, Nat.add_sub.
  unfold field. rewrite <- app_assoc, slice_head by done. cbn [mbind outcome_bind].
  by rewrite from_utf8_rstring.
Qed.

(** ** Clock, tuning, auto-add configuration, private key *)

Definition echo (code : PacketCode) (payload : bytes) : bytes := [PacketCode_to_u8 code] ++ payload.

Lemma private_key_echo key :
  length (PrivateKeyMaterial_0 key) = 64 →
  Packet_parse (echo PacketCode_PrivateKey (Command_payload (import_private_key key)))
    = Ok (Packet_PrivateKey key).
Proof.
  destruct key as [key]. cbn [PrivateKeyMaterial_0]. intros Hk.
  unfold echo, import_private_key. cbn [Command_payload PrivateKeyMaterial_0].
  etrans; [parse_as parse_private_key; seg_len; lia|].
  unfold parse_private_key. rewrite require_exact_len_ok by (seg_len; lia).
  cbn [mbind outcome_bind]. rewrite slice_from_skip by (seg_len; lia). simpl length.
  rewrite Nat.sub_diag, slice_from_all. cbn [mbind outcome_bind].
  unfold PrivateKeyMaterial_try_from_bytes. by rewrite Hk.
Qed.

Lemma time_echo t :
  is_uint 32 t →
  Packet_parse (echo PacketCode_CurrentTime (Command_payload (set_time t))) = Ok (Packet_CurrentTime t).
Proof.
  intros Ht. unfold echo. cbn [Command_payload set_time]. unfold u32_to_le_bytes.
  etrans; [parse_as parse_current_time; seg_len; lia|].
  unfold parse_current_time. rewrite require_exact_len_ok by (seg_len; lia).
  cbn [mbind outcome_bind]. repeat seg_skip. cbn [mbind outcome_bind].
  by rewrite from_to_le_bytes.
Qed.

Lemma auto_add_echo c cmd :
  set_auto_add_config c = Ok cmd →
  Packet_parse (echo PacketCode_AutoaddConfig (Command_payload cmd)) = Ok (Packet_AutoAddConfig c).
Proof.
  destruct c as [config [h|]]; unfold set_auto_add_config; cbn [AutoAddConfig_max_hops AutoAddConfig_config].
  - destruct (64 <? h)%Z eqn:Hh; [done|]. rewrite checked_spec by (simpl; lia). intros [= <-].
    cbn. by rewrite Hh.
  - rewrite checked_spec by (simpl; lia). by intros [= <-].
Qed.

(** the clock, the tuning parameters, the auto-add configuration and the
    private key written by their setters are read back unchanged. *)
Theorem settings_roundtrip t params config cmd key :
  is_uint 32 t →
  is_uint 32 (TuningParams_rx_delay params) → is_uint 32 (TuningParams_airtime_factor params) →
  set_auto_add_config config = Ok cmd → length (PrivateKeyMaterial_0 key) = 64 →
  Packet_parse (echo PacketCode_CurrentTime (Command_payload (set_time t)))
    = Ok (Packet_CurrentTime t) ∧
  Packet_parse (echo PacketCode_TuningParams (take 8 (Command_payload (set_tuning params))))
    = Ok (Packet_TuningParams params) ∧
  Packet_parse (echo PacketCode_AutoaddConfig (Command_payload cmd))
    = Ok (Packet_AutoAddConfig config) ∧
  Packet_parse (echo PacketCode_PrivateKey (Command_payload (import_private_key key)))
    = Ok (Packet_PrivateKey key).
Proof.
  intros Ht Hp Hq Hc Hk. split_and!; [by apply time_echo| |by apply auto_add_echo|by apply private_key_echo].
  - destruct params as [rx af]. unfold echo, set_tuning, u32_to_le_bytes. cbn [Command_payload
      TuningParams_rx_delay TuningParams_airtime_factor] in *.
    rewrite app_assoc, take_app_length' by (by rewrite length_app, !length_to_le_bytes).
    etrans; [parse_as parse_tuning_params; seg_len; lia|].
    unfold parse_tuning_params. rewrite require_exact_len_ok by (seg_len; lia).
    cbn [mbind outcome_bind]. repeat seg_skip. cbn [mbind outcome_bind].
    by rewrite !from_to_le_bytes.
Qed.
End roundtrips.

(** ** Custom variables *)

(** The text of a custom-variable report: [key:value] pairs joined by commas. *)
Definition custom_var_pair (v : CustomVariable) : rstring :=
  CustomVariable_key v ++ [58%Z] ++ CustomVariable_value v.

Fixpoint join (sep : Z) (pieces : list rstring) : rstring :=
  match pieces with
  | [] => []
  | [p] => p
  | p :: ps => p ++ [sep] ++ join sep ps
  end.

Lemma split_on_app sep a l :
  Forall (λ b, b ≠ sep) a → split_on sep (a ++ [sep] ++ l) = a :: split_on sep l.
Proof.
  induction 1 as [|b a Hb Ha IH]; simpl; [by rewrite Z.eqb_refl|].
  rewrite (proj2 (Z.eqb_neq _ _) Hb). simpl in IH. by rewrite IH.
Qed.

Lemma split_on_join sep pieces :
  pieces ≠ [] → Forall (Forall (λ b, b ≠ sep)) pieces → split_on sep (join sep pieces) = pieces.
Proof.
  intros Hne Hp. induction Hp as [|p ps Hp Hps IH]; [done|]. destruct ps as [|q qs].
  - by apply split_on_no_sep.
  - cbn [join]. rewrite split_on_app by done. f_equal. by apply IH.
Qed.

Lemma custom_var_pair_no_comma v : wf_CustomVariable v → Forall (λ b, b ≠ 44%Z) (custom_var_pair v).
Proof.
  intros (_&_&_&_&Hk&Hv). unfold custom_var_pair. rewrite !Forall_app. split_and!.
  - eapply Forall_impl; [exact Hk|naive_solver].
  - by constructor.
  - eapply Forall_impl; [exact Hv|naive_solver].
Qed.

Lemma custom_var_entry_ok entries v :
  wf_CustomVariable v → CustomVariable_key v ∉ CustomVariable_key <$> entries →
  custom_var_entry entries (custom_var_pair v) = Ok (entries ++ [v]).
Proof.
  intros (_&_&Hk&Hv&Fk&Fv) Hnew. unfold custom_var_entry, custom_var_pair. cbn [app].
  rewrite split_once_first by (eapply Forall_impl; [exact Fk|naive_solver]).
  rewrite !bool_decide_false by done.
  rewrite !(proj2 (contains_byte_false _ _)) by (eapply Forall_impl; [eassumption|naive_solver]).
  cbn [orb]. destruct (existsb _ entries) eqn:He; [|by destruct v].
  apply existsb_exists in He as (e&Hin&Heq). apply bool_decide_eq_true in Heq.
  destruct Hnew. apply list_elem_of_fmap. exists e. split; [done|]. by apply list_elem_of_In.
Qed.

Lemma custom_vars_fold entries vars :
  Forall wf_CustomVariable vars → NoDup (CustomVariable_key <$> (entries ++ vars)) →
  try_fold custom_var_entry entries (custom_var_pair <$> vars) = Ok (entries ++ vars).
Proof.
  intros Hv. revert entries. induction Hv as [|v vars Hv Hvs IH]; intros entries Hnd.
  { cbn. by rewrite app_nil_r. }
  cbn [fmap list_fmap try_fold]. rewrite custom_var_entry_ok; [|done|].
  - cbn [mbind outcome_bind]. rewrite IH; [by rewrite <- app_assoc|by rewrite <- app_assoc].
  - rewrite fmap_app in Hnd. apply NoDup_app in Hnd as (_&Hd&_). intros Hin.
    apply (Hd _ Hin). cbn. left.
Qed.

Lemma join_rstring sep pieces :
  (0 <= sep <= 0x7f)%Z → Forall is_rstring pieces → is_rstring (join sep pieces).
Proof.
  intros Hs. induction 1 as [|p ps Hp Hps IH]; [split; [constructor|done]|].
  destruct ps; [done|]. cbn [join]. apply is_rstring_app; [done|]. apply is_rstring_app; [|done].
  split; [constructor; [unfold is_u8; lia|constructor]|].
  apply utf8_valid_ascii. by constructor.
Qed.

Lemma custom_var_pair_rstring v : wf_CustomVariable v → is_rstring (custom_var_pair v).
Proof.
  intros (?&?&_). unfold custom_var_pair. apply is_rstring_app; [done|].
  apply is_rstring_app; [|done]. by apply (bool_decide_unpack _).
Qed.

Lemma custom_vars_parse vars :
  Forall wf_CustomVariable vars → NoDup (CustomVariable_key <$> vars) →
  length (join 44 (custom_var_pair <$> vars)) ≤ 140 →
  parse_custom_vars (echo PacketCode_CustomVars (join 44 (custom_var_pair <$> vars)))
  = Ok (Packet_CustomVariables (mkCustomVariables (join 44 (custom_var_pair <$> vars)) vars)).
Proof.
  intros Hv Hnd Hl.
  assert (is_rstring (join 44 (custom_var_pair <$> vars))) as Hr.
  { apply join_rstring; [lia|]. apply Forall_fmap. eapply Forall_impl; [exact Hv|].
    apply custom_var_pair_rstring. }
  unfold parse_custom_vars, echo.
  destruct (Nat.ltb_spec 140 (length ([PacketCode_to_u8 PacketCode_CustomVars]
    ++ join 44 (custom_var_pair <$> vars)) - 1)); [rewrite length_app in *; simpl in *; lia|].
  rewrite slice_from_skip by (simpl; lia). simpl length. rewrite Nat.sub_diag, slice_from_all.
  cbn [mbind outcome_bind]. rewrite from_utf8_rstring by done. cbn [ok_or mbind outcome_bind].
  destruct vars as [|v vars]; [done|].
  rewrite bool_decide_false.
  - rewrite split_on_join; [|done|].
    + by rewrite (custom_vars_fold [] (v :: vars)).
    + apply Forall_fmap. eapply Forall_impl; [exact Hv|]. apply custom_var_pair_no_comma.
  - apply Forall_cons in Hv as [(_&_&Hk&_) _].
    destruct v as [[|? ?] ?]; [done|]. by destruct vars.
Qed.

(** The single-variable setter sends one such pair. *)
Lemma set_custom_var_payload key value cmd :
  is_rstring key → is_rstring value → set_custom_var key value = Ok cmd →
  wf_CustomVariable (mkCustomVariable key value) ∧
  Command_payload cmd = join 44 [custom_var_pair (mkCustomVariable key value)] ∧
  Command_code cmd = CommandCode_SetCustomVar.
Proof.
  intros Hk Hv. unfold set_custom_var.
  pose proof (validate_custom_component_post key "key") as Pk.
  destruct (validate_custom_component key _); [|done|done]. destruct Pk as (?&?&?).
  pose proof (validate_custom_component_post value "value") as Pv. cbn [mbind outcome_bind].
  destruct (validate_custom_component value _); [|done|done]. destruct Pv as (?&?&?).
  cbn [mbind outcome_bind]. unfold checked. case_match; [done|]. intros [= <-].
  split; [by split_and!|done].
Qed.

Section custom_vars.
  Context `{CratesLaws}.

(** a report of any set of well-formed custom variables with distinct keys
    that fits the firmware's 140 bytes is parsed back to exactly those
    variables, in order. *)
Theorem custom_variables_roundtrip vars :
  Forall wf_CustomVariable vars → NoDup (CustomVariable_key <$> vars) →
  length (join 44 (custom_var_pair <$> vars)) ≤ 140 →
  Packet_parse (echo PacketCode_CustomVars (join 44 (custom_var_pair <$> vars)))
  = Ok (Packet_CustomVariables (mkCustomVariables (join 44 (custom_var_pair <$> vars)) vars)).
Proof.
  intros Hv Hnd Hl. rewrite <- custom_vars_parse by done.
  parse_as parse_custom_vars. unfold echo. rewrite length_app. simpl. lia.
Qed.
End custom_vars.

(** ** Coordinates *)

(** A latitude of [z] millionths of a degree as the parser reports it, and what
    the setter would encode for it. *)
Definition readback_latitude (z : i32) : outcome CoreError i32 :=
  scaled_coordinate (parse_scaled_i32 (i32_to_le_bytes z)) (-90) 90 "latitude".

Lemma whole_degrees_aux :
  forallb (λ d, match readback_latitude (d * 1000000) with
                | Ok z => (z =? d * 1000000)%Z | _ => false end)
    (Z_range 181 (-90)) = true.
Proof. vm_compute. reflexivity. Qed.

(** a latitude of whole degrees survives a read followed by a write, but a
    latitude in millionths need not: the setter truncates the product where the
    parser divided, so writing back a freshly read contact can move it by one
    millionth of a degree. *)
Theorem coordinate_readback :
  (∀ d, (-90 ≤ d ≤ 90)%Z → readback_latitude (d * 1000000) = Ok (d * 1000000)%Z) ∧
  readback_latitude 32000001 = Ok 32000000%Z ∧ readback_latitude (-1048574) = Ok (-1048573)%Z.
Proof.
  split; [|by split; vm_compute]. intros d Hd.
  pose proof (proj1 (forallb_forall _ _) whole_degrees_aux d) as Haux. cbv beta in Haux.
  destruct (readback_latitude (d * 1000000)) as [z| |].
  - f_equal. apply Z.eqb_eq, Haux. apply list_elem_of_In, elem_of_Z_range. lia.
  - exfalso. apply Bool.diff_false_true, Haux. apply list_elem_of_In, elem_of_Z_range. lia.
  - exfalso. apply Bool.diff_false_true, Haux. apply list_elem_of_In, elem_of_Z_range. lia.
Qed.

(** ** Instances *)

(** Discharges a decidable hypothesis by evaluation. *)
Ltac decide_goal := apply (bool_decide_unpack _); vm_compute; exact I.

Definition sample_key : PublicKey := mkPublicKey (replicate 32 7%Z).
Definition sample_contact : Contact :=
  mkContact sample_key ContactType_Repeater 1 (ContactRoute_Path 1 2) (mkPath [1; 2; 3; 4]%Z)
    (str_bytes "relay") 1700000000 (f64_of_Z 45) (f64_of_Z (-120)) 5.

Lemma sample_contact_wf : wf_Contact sample_contact.
Proof.
  unfold wf_Contact, wf_PublicKey, is_arr, wf_name, no_nul, route_covers, is_uint; simpl.
  split_and!; try lia; try done; decide_goal.
Qed.

Definition sample_update : Command :=
  match update_contact sample_contact with Ok c => c | _ => app_start end.

Lemma update_contact_roundtrip_witness :
  ∃ lat lon,
    scaled_coordinate (Contact_adv_lat sample_contact) (-90) 90 "latitude" = Ok lat ∧
    scaled_coordinate (Contact_adv_lon sample_contact) (-180) 180 "longitude" = Ok lon ∧
    Packet_parse (contact_report sample_update 9)
      = Ok (Packet_Contact (stored_contact sample_contact lat lon 9)).
Proof.
  apply (update_contact_roundtrip sample_contact sample_update 9).
  - apply sample_contact_wf.
  - unfold sample_contact. simpl. unfold is_u8. lia.
  - unfold is_uint. lia.
  - vm_compute. reflexivity.
Defined.

Definition sample_channel : Command :=
  match set_channel 3 (str_bytes "ops") (replicate 16 9%Z) with Ok c => c | _ => app_start end.

Lemma set_channel_roundtrip_witness :
  Packet_parse ([PacketCode_to_u8 PacketCode_ChannelInfo] ++ Command_payload sample_channel)
    = Ok (Packet_ChannelInfo
            (ChannelInfo_with_secret 3 (str_bytes "ops") (Some (replicate 16 9%Z)))).
Proof.
  apply (set_channel_roundtrip 3 (str_bytes "ops") (replicate 16 9%Z) sample_channel).
  - unfold is_u8. lia.
  - decide_goal.
  - split; [decide_goal|done].
  - vm_compute. reflexivity.
Defined.

Definition sample_scope : Command :=
  match set_default_flood_scope (str_bytes "eu") (replicate 16 8%Z) with
  | Ok c => c | _ => app_start end.

Lemma default_flood_scope_roundtrip_witness :
  Packet_parse ([PacketCode_to_u8 PacketCode_DefaultFloodScope] ++ Command_payload sample_scope)
    = Ok (Packet_DefaultFloodScope
            (DefaultFloodScope_Configured (Scope_new (Some (str_bytes "eu")) (replicate 16 8%Z)))).
Proof.
  apply (default_flood_scope_roundtrip (str_bytes "eu") (replicate 16 8%Z) sample_scope).
  - decide_goal.
  - split; [decide_goal|done].
  - vm_compute. reflexivity.
Defined.

Lemma settings_roundtrip_witness :
  Packet_parse (echo PacketCode_CurrentTime (Command_payload (set_time 1700000000)))
    = Ok (Packet_CurrentTime 1700000000).
Proof.
  apply (settings_roundtrip 1700000000 (mkTuningParams 10 20) (mkAutoAddConfig 3 (Some 8%Z))
    (mkCommand CommandCode_SetAutoAddConfig [3; 8]%Z)
    (mkPrivateKeyMaterial (replicate 64 1%Z))); try (unfold is_uint; simpl; lia); done.
Defined.

Lemma custom_variables_roundtrip_witness :
  let vars := [mkCustomVariable (str_bytes "gps") (str_bytes "1");
               mkCustomVariable (str_bytes "led") (str_bytes "off")] in
  Packet_parse (echo PacketCode_CustomVars (str_bytes "gps:1,led:off"))
  = Ok (Packet_CustomVariables (mkCustomVariables (str_bytes "gps:1,led:off") vars)).
Proof.
  intros vars. apply (custom_variables_roundtrip vars).
  - repeat constructor; try done; repeat (apply Forall_cons; split; [lia|]); constructor.
  - decide_goal.
  - vm_compute. lia.
Defined.
