(* ===== verification/Remote.v ===== *)
(** * Remote administration replies (crates/meshquill-core/src/remote.rs)

    The request payloads and the parsers of the replies a remote node sends:
    neighbour pages, regions, owner and basic metadata, access lists, telemetry
    and summaries.  Cursors are positions in a payload of at most 176 bytes; the
    two record loops take as much fuel as the payload has bytes, and running out
    of it is [Panic], which [RemoteFacts] excludes together with the panics. *)

From S2P Require Import Prelude Text Floats Domain Packet.

Local Open Scope Z_scope.

Definition MAX_REMOTE_PAYLOAD_LEN : usize := MAX_INNER_PAYLOAD.
Definition LPP_MIN_POLYLINE_SIZE : usize := 8.

(** ** Errors *)

Inductive RemotePayloadError :=
| RemotePayloadError_PayloadTooLarge (actual maximum : usize)
| RemotePayloadError_Truncated (context : string)
| RemotePayloadError_UnknownType (code : u8)
| RemotePayloadError_InvalidUtf8 (context : string)
| RemotePayloadError_Malformed (reason : string)
| RemotePayloadError_NonFinite (context : string).

Abbreviation remote := (outcome RemotePayloadError) (only parsing).

Definition truncated {A} (context : string) : remote A :=
  Err (RemotePayloadError_Truncated context).
Definition malformed_reply {A} (reason : string) : remote A :=
  Err (RemotePayloadError_Malformed reason).

(** ** Requests *)

Inductive BinaryRequestKind :=
| BinaryRequestKind_Status | BinaryRequestKind_KeepAlive | BinaryRequestKind_Telemetry
| BinaryRequestKind_Summary | BinaryRequestKind_Acl | BinaryRequestKind_Neighbours.

Definition BinaryRequestKind_code (k : BinaryRequestKind) : u8 :=
  match k with
  | BinaryRequestKind_Status => 1
  | BinaryRequestKind_KeepAlive => 2
  | BinaryRequestKind_Telemetry => 3
  | BinaryRequestKind_Summary => 4
  | BinaryRequestKind_Acl => 5
  | BinaryRequestKind_Neighbours => 6
  end.
Definition has_fixed_payload (k : BinaryRequestKind) : bool :=
  match k with BinaryRequestKind_Acl | BinaryRequestKind_Summary => true | _ => false end.

Inductive AnonymousRequestKind :=
| AnonymousRequestKind_Regions | AnonymousRequestKind_Owner | AnonymousRequestKind_Basic.

Definition AnonymousRequestKind_code (k : AnonymousRequestKind) : u8 :=
  match k with
  | AnonymousRequestKind_Regions => 1
  | AnonymousRequestKind_Owner => 2
  | AnonymousRequestKind_Basic => 3
  end.

Inductive NeighbourOrder :=
| NeighbourOrder_Newest | NeighbourOrder_Oldest | NeighbourOrder_Strongest
| NeighbourOrder_Weakest | NeighbourOrder_Unknown (value : u8).

Definition NeighbourOrder_code (o : NeighbourOrder) : u8 :=
  match o with
  | NeighbourOrder_Newest => 0
  | NeighbourOrder_Oldest => 1
  | NeighbourOrder_Strongest => 2
  | NeighbourOrder_Weakest => 3
  | NeighbourOrder_Unknown value => value
  end.
Definition NeighbourOrder_from_code (code : u8) : NeighbourOrder :=
  match code with
  | 0 => NeighbourOrder_Newest
  | 1 => NeighbourOrder_Oldest
  | 2 => NeighbourOrder_Strongest
  | 3 => NeighbourOrder_Weakest
  | other => NeighbourOrder_Unknown other
  end.

Record NeighbourQuery := mkNeighbourQuery {
  NeighbourQuery_version : u8;
  NeighbourQuery_count : u8;
  NeighbourQuery_offset : u16;
  NeighbourQuery_order : NeighbourOrder;
  NeighbourQuery_prefix_length : u8;
  NeighbourQuery_nonce : u32
}.

Definition NeighbourQuery_new (count : u8) (offset : u16) (order : NeighbourOrder)
    (prefix_length : u8) (nonce : u32) : NeighbourQuery :=
  mkNeighbourQuery 0 count offset order prefix_length nonce.

Definition validate_neighbour_query (query : NeighbourQuery) : remote () :=
  if negb (NeighbourQuery_version query =? 0) then
    malformed_reply "unsupported neighbour request version"
  else if NeighbourQuery_count query =? 0 then malformed_reply "count must be greater than zero"
  else if negb ((1 <=? NeighbourQuery_prefix_length query)
                && (NeighbourQuery_prefix_length query <=? 32)) then
    malformed_reply "prefix length must be between 1 and 32"
  else if match NeighbourQuery_order query with NeighbourOrder_Unknown _ => true | _ => false end then
    malformed_reply "neighbour order must be between 0 and 3"
  else if NeighbourQuery_nonce query =? 0 then malformed_reply "neighbour nonce must be non-zero"
  else Ok ().

Definition NeighbourQuery_encode (query : NeighbourQuery) : remote bytes :=
  _ ← validate_neighbour_query query;
  Ok ([NeighbourQuery_version query] ++ [NeighbourQuery_count query]
        ++ u16_to_le_bytes (NeighbourQuery_offset query)
        ++ [NeighbourOrder_code (NeighbourQuery_order query)]
        ++ [NeighbourQuery_prefix_length query]
        ++ u32_to_le_bytes (NeighbourQuery_nonce query)).

Definition acl_request_payload : bytes := [0; 0].
Definition summary_request_payload (start_secs_ago end_secs_ago : u32) : bytes :=
  u32_to_le_bytes start_secs_ago ++ u32_to_le_bytes end_secs_ago ++ [0; 0].
Definition binary_request_payload (kind : BinaryRequestKind) : option bytes :=
  match kind with
  | BinaryRequestKind_Acl => Some acl_request_payload
  | BinaryRequestKind_Summary => None
  | _ => Some []
  end.

(** ** Replies *)

Record RemoteFeature := mkRemoteFeature {
  RemoteFeature_kind : u8;
  RemoteFeature_disabled : bool
}.

Definition from_feature_byte (raw : u8) : RemoteFeature :=
  mkRemoteFeature (Z.land raw 0x7f) (negb (Z.land raw 0x80 =? 0)).
Definition to_feature_byte (f : RemoteFeature) : u8 :=
  Z.lor (RemoteFeature_kind f) (if RemoteFeature_disabled f then 0x80 else 0).

Record BasicResponse := mkBasicResponse {
  BasicResponse_clock : u32;
  BasicResponse_feature : RemoteFeature
}.

Record AclEntry := mkAclEntry {
  AclEntry_pubkey_prefix : bytes;
  AclEntry_permissions : u8
}.
Record AclResponse := mkAclResponse { AclResponse_entries : list AclEntry }.

Record NeighbourEntry := mkNeighbourEntry {
  NeighbourEntry_pubkey_prefix : bytes;
  NeighbourEntry_secs_ago : u32;
  NeighbourEntry_snr_db : f64
}.
Record NeighbourPage := mkNeighbourPage {
  NeighbourPage_total_count : u16;
  NeighbourPage_result_count : u16;
  NeighbourPage_entries : list NeighbourEntry
}.

Record RegionsResponse := mkRegionsResponse {
  RegionsResponse_clock : u32;
  RegionsResponse_names : list rstring
}.
Record OwnerResponse := mkOwnerResponse {
  OwnerResponse_clock : u32;
  OwnerResponse_name : rstring;
  OwnerResponse_owner : rstring
}.

(** ** Telemetry kinds *)

Inductive LppTelemetryKind :=
| LppTelemetryKind_DigitalInput | LppTelemetryKind_DigitalOutput | LppTelemetryKind_AnalogInput
| LppTelemetryKind_AnalogOutput | LppTelemetryKind_GenericSensor | LppTelemetryKind_Luminosity
| LppTelemetryKind_Presence | LppTelemetryKind_Temperature | LppTelemetryKind_RelativeHumidity
| LppTelemetryKind_Accelerometer | LppTelemetryKind_BarometricPressure | LppTelemetryKind_Voltage
| LppTelemetryKind_Current | LppTelemetryKind_Frequency | LppTelemetryKind_Percentage
| LppTelemetryKind_Altitude | LppTelemetryKind_Concentration | LppTelemetryKind_Power
| LppTelemetryKind_Distance | LppTelemetryKind_Energy | LppTelemetryKind_Direction
| LppTelemetryKind_UnixTime | LppTelemetryKind_Gyrometer | LppTelemetryKind_Colour
| LppTelemetryKind_Gps | LppTelemetryKind_Switch | LppTelemetryKind_Polyline.

#[global] Instance LppTelemetryKind_eq_dec : EqDecision LppTelemetryKind.
Proof. solve_decision. Defined.

Definition LppTelemetryKind_code (k : LppTelemetryKind) : u8 :=
  match k with
  | LppTelemetryKind_DigitalInput => 0
  | LppTelemetryKind_DigitalOutput => 1
  | LppTelemetryKind_AnalogInput => 2
  | LppTelemetryKind_AnalogOutput => 3
  | LppTelemetryKind_GenericSensor => 100
  | LppTelemetryKind_Luminosity => 101
  | LppTelemetryKind_Presence => 102
  | LppTelemetryKind_Temperature => 103
  | LppTelemetryKind_RelativeHumidity => 104
  | LppTelemetryKind_Accelerometer => 113
  | LppTelemetryKind_BarometricPressure => 115
  | LppTelemetryKind_Voltage => 116
  | LppTelemetryKind_Current => 117
  | LppTelemetryKind_Frequency => 118
  | LppTelemetryKind_Percentage => 120
  | LppTelemetryKind_Altitude => 121
  | LppTelemetryKind_Concentration => 125
  | LppTelemetryKind_Power => 128
  | LppTelemetryKind_Distance => 130
  | LppTelemetryKind_Energy => 131
  | LppTelemetryKind_Direction => 132
  | LppTelemetryKind_UnixTime => 133
  | LppTelemetryKind_Gyrometer => 134
  | LppTelemetryKind_Colour => 135
  | LppTelemetryKind_Gps => 136
  | LppTelemetryKind_Switch => 142
  | LppTelemetryKind_Polyline => 240
  end.

Definition LppTelemetryKind_from_code (code : u8) : option LppTelemetryKind :=
  match code with
  | 0 => Some LppTelemetryKind_DigitalInput
  | 1 => Some LppTelemetryKind_DigitalOutput
  | 2 => Some LppTelemetryKind_AnalogInput
  | 3 => Some LppTelemetryKind_AnalogOutput
  | 100 => Some LppTelemetryKind_GenericSensor
  | 101 => Some LppTelemetryKind_Luminosity
  | 102 => Some LppTelemetryKind_Presence
  | 103 => Some LppTelemetryKind_Temperature
  | 104 => Some LppTelemetryKind_RelativeHumidity
  | 113 => Some LppTelemetryKind_Accelerometer
  | 115 => Some LppTelemetryKind_BarometricPressure
  | 116 => Some LppTelemetryKind_Voltage
  | 117 => Some LppTelemetryKind_Current
  | 118 => Some LppTelemetryKind_Frequency
  | 120 => Some LppTelemetryKind_Percentage
  | 121 => Some LppTelemetryKind_Altitude
  | 125 => Some LppTelemetryKind_Concentration
  | 128 => Some LppTelemetryKind_Power
  | 130 => Some LppTelemetryKind_Distance
  | 131 => Some LppTelemetryKind_Energy
  | 132 => Some LppTelemetryKind_Direction
  | 133 => Some LppTelemetryKind_UnixTime
  | 134 => Some LppTelemetryKind_Gyrometer
  | 135 => Some LppTelemetryKind_Colour
  | 136 => Some LppTelemetryKind_Gps
  | 142 => Some LppTelemetryKind_Switch
  | 240 => Some LppTelemetryKind_Polyline
  | _ => None
  end.

Definition data_size_and_count (k : LppTelemetryKind) : usize * usize :=
  (match k with
  | LppTelemetryKind_DigitalInput | LppTelemetryKind_DigitalOutput | LppTelemetryKind_Presence
  | LppTelemetryKind_RelativeHumidity | LppTelemetryKind_Percentage | LppTelemetryKind_Switch => (1, 1)
  | LppTelemetryKind_AnalogInput | LppTelemetryKind_AnalogOutput | LppTelemetryKind_Luminosity
  | LppTelemetryKind_Temperature | LppTelemetryKind_BarometricPressure | LppTelemetryKind_Voltage
  | LppTelemetryKind_Current | LppTelemetryKind_Altitude | LppTelemetryKind_Concentration
  | LppTelemetryKind_Power | LppTelemetryKind_Direction => (2, 1)
  | LppTelemetryKind_GenericSensor | LppTelemetryKind_Frequency | LppTelemetryKind_Distance
  | LppTelemetryKind_Energy | LppTelemetryKind_UnixTime => (4, 1)
  | LppTelemetryKind_Accelerometer | LppTelemetryKind_Gyrometer => (2, 3)
  | LppTelemetryKind_Gps => (3, 3)
  | LppTelemetryKind_Colour => (1, 3)
  | LppTelemetryKind_Polyline => (0, 0)
  end)%nat.

Definition is_signed (k : LppTelemetryKind) : bool :=
  match k with
  | LppTelemetryKind_AnalogInput | LppTelemetryKind_AnalogOutput | LppTelemetryKind_Temperature
  | LppTelemetryKind_Current | LppTelemetryKind_Altitude | LppTelemetryKind_Accelerometer
  | LppTelemetryKind_Gyrometer | LppTelemetryKind_Gps => true
  | _ => false
  end.

(** The multipliers are whole numbers. *)
Definition multiplier (k : LppTelemetryKind) (component : usize) : f64 :=
  f64_of_Z match k with
  | LppTelemetryKind_Gps => if (component <? 2)%nat then 10000 else 100
  | LppTelemetryKind_AnalogInput | LppTelemetryKind_AnalogOutput | LppTelemetryKind_Voltage
  | LppTelemetryKind_Gyrometer => 100
  | LppTelemetryKind_Temperature | LppTelemetryKind_BarometricPressure => 10
  | LppTelemetryKind_RelativeHumidity => 2
  | LppTelemetryKind_Accelerometer | LppTelemetryKind_Current | LppTelemetryKind_Distance
  | LppTelemetryKind_Energy => 1000
  | _ => 1
  end.

Definition is_vector (k : LppTelemetryKind) : bool :=
  match k with
  | LppTelemetryKind_Accelerometer | LppTelemetryKind_Gyrometer | LppTelemetryKind_Gps
  | LppTelemetryKind_Colour | LppTelemetryKind_Polyline => true
  | _ => false
  end.

Definition summary_width (k : LppTelemetryKind) : option usize :=
  (match k with
  | LppTelemetryKind_DigitalInput | LppTelemetryKind_DigitalOutput | LppTelemetryKind_Presence
  | LppTelemetryKind_Percentage | LppTelemetryKind_Switch => Some 1
  | LppTelemetryKind_AnalogInput | LppTelemetryKind_AnalogOutput | LppTelemetryKind_Luminosity
  | LppTelemetryKind_Temperature | LppTelemetryKind_RelativeHumidity
  | LppTelemetryKind_BarometricPressure | LppTelemetryKind_Voltage | LppTelemetryKind_Current
  | LppTelemetryKind_Altitude | LppTelemetryKind_Concentration | LppTelemetryKind_Power
  | LppTelemetryKind_Direction => Some 2
  | LppTelemetryKind_GenericSensor | LppTelemetryKind_Frequency | LppTelemetryKind_Distance
  | LppTelemetryKind_Energy | LppTelemetryKind_UnixTime => Some 4
  | LppTelemetryKind_Accelerometer | LppTelemetryKind_Gyrometer | LppTelemetryKind_Colour
  | LppTelemetryKind_Gps | LppTelemetryKind_Polyline => None
  end)%nat.

Definition summary_is_signed (k : LppTelemetryKind) : bool :=
  match k with
  | LppTelemetryKind_AnalogInput | LppTelemetryKind_AnalogOutput | LppTelemetryKind_Temperature
  | LppTelemetryKind_Altitude => true
  | _ => false
  end.

Definition summary_multiplier (k : LppTelemetryKind) : f64 :=
  f64_of_Z match k with
  | LppTelemetryKind_Current | LppTelemetryKind_Distance | LppTelemetryKind_Energy => 1000
  | LppTelemetryKind_Voltage | LppTelemetryKind_AnalogInput | LppTelemetryKind_AnalogOutput => 100
  | LppTelemetryKind_Temperature | LppTelemetryKind_BarometricPressure
  | LppTelemetryKind_RelativeHumidity => 10
  | _ => 1
  end.

Record TelemetrySample := mkTelemetrySample {
  TelemetrySample_channel : u8;
  TelemetrySample_kind : LppTelemetryKind;
  TelemetrySample_values : list f64;
  TelemetrySample_raw : option bytes
}.
Record SummaryRecord := mkSummaryRecord {
  SummaryRecord_channel : u8;
  SummaryRecord_kind : LppTelemetryKind;
  SummaryRecord_minimum : f64;
  SummaryRecord_maximum : f64;
  SummaryRecord_average : f64
}.
Record SummaryResponse := mkSummaryResponse {
  SummaryResponse_clock : u32;
  SummaryResponse_entries : list SummaryRecord
}.

(** ** Helpers *)

Local Open Scope nat_scope.

Definition check_max_len (payload : bytes) : remote () :=
  if MAX_REMOTE_PAYLOAD_LEN <? length payload
  then Err (RemotePayloadError_PayloadTooLarge (length payload) MAX_REMOTE_PAYLOAD_LEN)
  else Ok ().

Definition trim_trailing_nul (raw : bytes) (context : string) : remote bytes :=
  match position (λ b, (b =? 0)%Z) raw with
  | Some first_zero =>
      rest ← slice_from raw (first_zero + 1);
      if existsb (λ b, negb (b =? 0)%Z) rest then malformed_reply context
      else slice raw 0 first_zero
  | None => Ok raw
  end.

Definition decode_string (raw : bytes) (context : string) : remote rstring :=
  ok_or (from_utf8 raw) (RemotePayloadError_InvalidUtf8 context).

(** [raw.get(idx..idx + n)] or the truncation error. *)
Definition get_field (raw : bytes) (idx n : usize) (context : string) : remote bytes :=
  ok_or (get_range raw idx (idx + n)) (RemotePayloadError_Truncated context).

Definition read_i16_le (raw : bytes) (idx : usize) : remote i16 :=
  field ← get_field raw idx 2 "fixed field"; Ok (i16_from_le_bytes field).
Definition read_u32_le (raw : bytes) (idx : usize) : remote u32 :=
  field ← get_field raw idx 4 "fixed field"; Ok (from_le_bytes field).
Definition read_u16_be (raw : bytes) (idx : usize) : remote u16 :=
  field ← get_field raw idx 2 "value field"; Ok (from_be_bytes field).
Definition read_i16_be (raw : bytes) (idx : usize) : remote i16 :=
  field ← get_field raw idx 2 "value field"; Ok (i16_from_be_bytes field).
Definition read_u24_be (raw : bytes) (idx : usize) : remote u32 :=
  field ← get_field raw idx 3 "value field";
  match field with
  | [b0; b1; b2] => Ok (Z.lor (Z.lor (Z.shiftl b0 16) (Z.shiftl b1 8)) b2)
  | _ => Panic
  end.
Definition read_i24_be (raw : bytes) (idx : usize) : remote i32 :=
  value ← read_u24_be raw idx;
  let value := to_signed 32 value in
  if negb (Z.land value 0x800000 =? 0)%Z then Ok (Z.lor value (Z.lnot 0xffffff)) else Ok value.
Definition read_u32_be (raw : bytes) (idx : usize) : remote u32 :=
  field ← get_field raw idx 4 "value field"; Ok (from_be_bytes field).
Definition read_i32_be (raw : bytes) (idx : usize) : remote i32 :=
  field ← get_field raw idx 4 "value field"; Ok (i32_from_be_bytes field).

(** ** Telemetry values *)

(** The value read at the cursor before scaling, with the cursor after it. *)
Definition decode_raw_value (raw : bytes) (kind : LppTelemetryKind) (cursor width : usize)
    : remote (Z * usize) :=
  match width with
  | 1 =>
      byte ← ok_or (raw !! cursor) (RemotePayloadError_Truncated "telemetry value");
      Ok (if is_signed kind then i8_from_bytes byte else byte, cursor + 1)
  | 2 =>
      value ← (if is_signed kind then read_i16_be raw cursor else read_u16_be raw cursor);
      Ok (value, usize_saturating_add cursor 2)
  | 3 =>
      value ← (if is_signed kind then read_i24_be raw cursor else read_u24_be raw cursor);
      Ok (value, usize_saturating_add cursor 3)
  | 4 =>
      value ← (if is_signed kind then read_i32_be raw cursor else read_u32_be raw cursor);
      Ok (value, usize_saturating_add cursor 4)
  | _ => malformed_reply "unsupported telemetry width"
  end.

Definition decode_value (raw : bytes) (kind : LppTelemetryKind) (cursor width component : usize)
    : remote (f64 * usize) :=
  '(raw_value, cursor) ← decode_raw_value raw kind cursor width;
  let scaled := f64_div (f64_of_Z raw_value) (multiplier kind component) in
  if negb (is_finite scaled) then
    Err (RemotePayloadError_NonFinite
           (if is_vector kind then "vector component" else "scalar value"))
  else Ok (scaled, cursor).

(** [while *cursor < end]. *)
Fixpoint decode_values_loop (fuel : nat) (payload : bytes) (kind : LppTelemetryKind)
    (width end_ cursor component : usize) (values : list f64) : remote (list f64 * usize) :=
  if cursor <? end_ then
    match fuel with
    | 0 => Panic
    | S fuel =>
        '(value, cursor) ← decode_value payload kind cursor width component;
        decode_values_loop fuel payload kind width end_ cursor
          (usize_saturating_add component 1) (values ++ [value])
    end
  else Ok (values, cursor).

Definition decode_values (payload : bytes) (cursor : usize) (kind : LppTelemetryKind)
    (count : usize) (context : string) : remote (list f64 * usize) :=
  let '(width, _) := data_size_and_count kind in
  max_bytes ← ok_or (usize_checked_mul width count)
                (RemotePayloadError_Malformed "telemetry count overflow");
  end_ ← ok_or (usize_checked_add cursor max_bytes)
           (RemotePayloadError_Malformed "telemetry cursor overflow");
  if length payload <? end_ then truncated "telemetry values"
  else
    '(values, cursor) ← decode_values_loop max_bytes payload kind width end_ cursor 0 [];
    if negb (length values =? count) then truncated context else Ok (values, cursor).

Definition decode_summary_value (payload : bytes) (cursor : usize) (kind : LppTelemetryKind)
    : remote (f64 * usize) :=
  width ← ok_or (summary_width kind)
    (RemotePayloadError_Malformed "vector and dynamic telemetry types are not valid MMA records");
  end_ ← ok_or (usize_checked_add cursor width)
           (RemotePayloadError_Malformed "summary cursor overflow");
  if length payload <? end_ then truncated "summary value"
  else
    raw ← match width, summary_is_signed kind with
          | 1, true => byte ← idx payload cursor; Ok (i8_from_bytes byte)
          | 1, false => idx payload cursor
          | 2, true => read_i16_be payload cursor
          | 2, false => read_u16_be payload cursor
          | 4, true => read_i32_be payload cursor
          | 4, false => read_u32_be payload cursor
          | _, _ => malformed_reply "unsupported MMA value width"
          end;
    Ok (f64_div (f64_of_Z raw) (summary_multiplier kind), end_).

(** ** Parsers *)

(** [u16::try_from] of a signed count. *)
Definition u16_try_from (z : Z) (reason : string) : remote u16 :=
  if bool_decide (is_uint 16 z) then Ok z else malformed_reply reason.

(** One turn of the loop over the neighbour records. *)
Definition neighbour_entry (payload : bytes) (prefix_length entry_size : usize)
    (state : list NeighbourEntry * usize) (_ : nat) : remote (list NeighbourEntry * usize) :=
  let '(entries, cursor) := state in
  let prefix_end := usize_saturating_add cursor prefix_length in
  pubkey_prefix ← slice payload cursor prefix_end;
  secs_ago ← read_u32_le payload prefix_end;
  snr_raw ← idx payload (prefix_end + 4);
  let snr_db := f64_div (f64_of_Z (i8_from_bytes snr_raw)) (f64_of_Z 4) in
  Ok (entries ++ [mkNeighbourEntry pubkey_prefix secs_ago snr_db],
      usize_saturating_add cursor entry_size).

Definition parse_neighbour_page (payload : bytes) (prefix_length : u8) : remote NeighbourPage :=
  _ ← check_max_len payload;
  if negb ((1 <=? prefix_length)%Z && (prefix_length <=? 32)%Z) then
    malformed_reply "prefix length must be between 1 and 32"
  else if length payload <? 4 then truncated "neighbour header"
  else
    total_count ← read_i16_le payload 0;
    result_count ← read_i16_le payload 2;
    if (total_count <? 0)%Z || (result_count <? 0)%Z then
      malformed_reply "neighbour counts must not be negative"
    else
    total_count ← u16_try_from total_count "neighbour total count is invalid";
    result_count ← u16_try_from result_count "neighbour result count is invalid";
    if (total_count <? result_count)%Z then
      malformed_reply "neighbour result count exceeds total count"
    else
      let entry_count := Z.to_nat result_count in
      let entry_size := usize_saturating_add (Z.to_nat prefix_length) 5 in
      let expected := usize_saturating_add 4 (usize_saturating_mul entry_count entry_size) in
      if negb (expected =? length payload) then malformed_reply "neighbour page length mismatch"
      else
        '(entries, _) ← try_fold (neighbour_entry payload (Z.to_nat prefix_length) entry_size)
                          ([], 4) (seq 0 entry_count);
        Ok (mkNeighbourPage total_count result_count entries).

Definition parse_regions_response (payload : bytes) : remote RegionsResponse :=
  _ ← check_max_len payload;
  if length payload <? 4 then truncated "regions header"
  else
    clock ← read_u32_le payload 0;
    body ← slice_from payload 4;
    text ← trim_trailing_nul body "regions";
    if bool_decide (text = []) then malformed_reply "at least one region entry is required"
    else
      value ← decode_string text "regions";
      let names := split_on 44 value in
      if bool_decide (names = []) || existsb (λ name, bool_decide (name = [])) names
      then malformed_reply "at least one region entry is required"
      else Ok (mkRegionsResponse clock names).

(** [text.splitn(n, sep)] for an ASCII separator. *)
Fixpoint splitn (n : nat) (sep : Z) (text : rstring) : list rstring :=
  match n with
  | 0 => []
  | 1 => [text]
  | S n =>
      match split_once sep text with
      | Some (head, rest) => head :: splitn n sep rest
      | None => [text]
      end
  end.

(** [parts.next().filter(|part| !part.is_empty())]. *)
Definition next_part (parts : list rstring) : option rstring * list rstring :=
  (part ← head parts; if bool_decide (part = []) then None else Some part, tail parts).

Definition parse_owner_response (payload : bytes) : remote OwnerResponse :=
  _ ← check_max_len payload;
  if length payload <? 4 then truncated "owner header"
  else
    clock ← read_u32_le payload 0;
    rest ← slice_from payload 4;
    body ← trim_trailing_nul rest "owner";
    text ← decode_string body "owner";
    let parts := splitn 3 10 text in
    let '(name, parts) := next_part parts in
    name ← ok_or name (RemotePayloadError_Malformed "owner name");
    let '(owner, parts) := next_part parts in
    owner ← ok_or owner (RemotePayloadError_Malformed "owner identity");
    match head parts with
    | Some _ => malformed_reply "owner contains too many fields"
    | None => Ok (mkOwnerResponse clock name owner)
    end.

Definition parse_basic_response (payload : bytes) : remote BasicResponse :=
  _ ← check_max_len payload;
  if negb (length payload =? 5) then malformed_reply "basic payload must be exactly five bytes"
  else
    clock ← read_u32_le payload 0;
    feature ← idx payload 4;
    Ok (mkBasicResponse clock (from_feature_byte feature)).

(** One turn of the loop over the access-list slots. *)
Definition acl_entry (entries : list AclEntry) (chunk : bytes) : remote (list AclEntry) :=
  pubkey_prefix ← slice chunk 0 6;
  if bool_decide (pubkey_prefix = replicate 6 0%Z) then Ok entries
  else permissions ← idx chunk 6; Ok (entries ++ [mkAclEntry pubkey_prefix permissions]).

Definition parse_acl_payload (payload : bytes) : remote AclResponse :=
  _ ← check_max_len payload;
  if negb (length payload mod 7 =? 0) then
    malformed_reply "acl payload length must be a multiple of 7"
  else
    entries ← try_fold acl_entry [] (chunks_exact 7 payload);
    Ok (mkAclResponse entries).

(** The polyline record at the cursor: its bytes and the cursor after it. *)
Definition polyline_record (payload : bytes) (record_start : usize) : remote (bytes * usize) :=
  size_byte ← ok_or (payload !! record_start) (RemotePayloadError_Truncated "polyline size");
  let record_size := Z.to_nat size_byte in
  if record_size <? LPP_MIN_POLYLINE_SIZE then
    malformed_reply "polyline record size below minimum"
  else
    end_ ← ok_or (usize_checked_add record_start record_size)
             (RemotePayloadError_Malformed "polyline length overflow");
    if length payload <? end_ then truncated "polyline payload"
    else raw ← slice payload record_start end_; Ok (raw, end_).

(** [while cursor < payload.len()]. *)
Fixpoint telemetry_loop (fuel : nat) (payload : bytes) (cursor : usize)
    (readings : list TelemetrySample) : remote (list TelemetrySample) :=
  if negb (cursor <? length payload) then Ok readings
  else
    match fuel with
    | 0 => Panic
    | S fuel =>
        channel ← ok_or (payload !! cursor) (RemotePayloadError_Truncated "telemetry channel");
        let cursor := usize_saturating_add cursor 1 in
        if (channel =? 0)%Z then
          rest ← slice_from payload cursor;
          if negb (forallb (λ b, (b =? 0)%Z) rest)
          then malformed_reply "channel zero must be followed only by zero padding"
          else Ok readings
        else
          kind_code ← ok_or (payload !! cursor) (RemotePayloadError_Truncated "telemetry type");
          let cursor := usize_saturating_add cursor 1 in
          kind ← ok_or (LppTelemetryKind_from_code kind_code)
                   (RemotePayloadError_UnknownType kind_code);
          if bool_decide (kind = LppTelemetryKind_Polyline) then
            '(raw, cursor) ← polyline_record payload cursor;
            telemetry_loop fuel payload cursor
              (readings ++ [mkTelemetrySample channel kind [] (Some raw)])
          else
            '(values, cursor) ← decode_values payload cursor kind (data_size_and_count kind).2
                                  "telemetry";
            telemetry_loop fuel payload cursor
              (readings ++ [mkTelemetrySample channel kind values None])
    end.

Definition parse_telemetry_payload (payload : bytes) : remote (list TelemetrySample) :=
  _ ← check_max_len payload;
  if bool_decide (payload = []) then Ok []
  else telemetry_loop (length payload) payload 0 [].

Fixpoint summary_loop (fuel : nat) (payload : bytes) (cursor : usize)
    (entries : list SummaryRecord) : remote (list SummaryRecord) :=
  if negb (cursor <? length payload) then Ok entries
  else
    match fuel with
    | 0 => Panic
    | S fuel =>
        channel ← ok_or (payload !! cursor) (RemotePayloadError_Truncated "summary channel");
        let cursor := usize_saturating_add cursor 1 in
        if (channel =? 0)%Z then
          rest ← slice_from payload cursor;
          if negb (forallb (λ b, (b =? 0)%Z) rest)
          then malformed_reply "summary terminator must be followed only by zero padding"
          else Ok entries
        else
          kind_code ← ok_or (payload !! cursor) (RemotePayloadError_Truncated "summary kind");
          let cursor := usize_saturating_add cursor 1 in
          kind ← ok_or (LppTelemetryKind_from_code kind_code)
                   (RemotePayloadError_UnknownType kind_code);
          '(minimum, cursor) ← decode_summary_value payload cursor kind;
          '(maximum, cursor) ← decode_summary_value payload cursor kind;
          '(average, cursor) ← decode_summary_value payload cursor kind;
          summary_loop fuel payload cursor
            (entries ++ [mkSummaryRecord channel kind minimum maximum average])
    end.

Definition parse_summary_payload (payload : bytes) : remote SummaryResponse :=
  _ ← check_max_len payload;
  if length payload <? 4 then truncated "summary clock"
  else
    clock ← read_u32_le payload 0;
    entries ← summary_loop (length payload) payload 4 [];
    Ok (mkSummaryResponse clock entries).
