(* ===== verification/RemoteFacts.v ===== *)
(** * Facts about remote replies

    Every parser of [Remote] returns on every payload, without a panic, and what
    it accepts is well formed; neighbour pages, access lists, region lists and
    telemetry records survive being written and parsed. *)

From S2P Require Import Prelude Text Floats Domain Packet PacketFacts Remote.

(** ** Bounded cursors *)

Lemma sat_add_small a b : a ≤ 1000 → b ≤ 1000 → usize_saturating_add a b = a + b.
Proof.
  intros. unfold usize_saturating_add, usize_fits.
  destruct (Z.ltb_spec (Z.of_nat a + Z.of_nat b) (2 ^ 64)); [done|lia].
Qed.

Lemma checked_add_small a b : a ≤ 1000 → b ≤ 1000 → usize_checked_add a b = Some (a + b).
Proof.
  intros. unfold usize_checked_add, usize_fits.
  destruct (Z.ltb_spec (Z.of_nat a + Z.of_nat b) (2 ^ 64)); [done|lia].
Qed.

Lemma checked_mul_small a b : a ≤ 10 → b ≤ 10 → usize_checked_mul a b = Some (a * b).
Proof.
  intros. unfold usize_checked_mul, usize_fits.
  destruct (Z.ltb_spec (Z.of_nat a * Z.of_nat b) (2 ^ 64)); [done|nia].
Qed.

Lemma check_max_len_post payload (Q : () → Prop) :
  (length payload ≤ 176 → Q ()) → post (check_max_len payload) Q (λ _, True).
Proof.
  intros HQ. unfold check_max_len, MAX_REMOTE_PAYLOAD_LEN, MAX_INNER_PAYLOAD.
  destruct (Nat.ltb_spec 176 (length payload)); [exact I|]. by apply HQ.
Qed.

(** ** Fields *)

Section fields.
  Variable raw : bytes.
  Hypothesis Hraw : is_bytes raw.
  Implicit Types i n : nat.

Lemma get_field_post i n context (Q : bytes → Prop) :
  (∀ f, is_bytes f → length f = n → i + n ≤ length raw → Q f) →
  post (get_field raw i n context) Q (λ _, True).
Proof using Hraw.
  intros HQ. unfold get_field. apply post_ok_or; [|done]. intros f Hf.
  pose proof (get_range_bytes _ _ _ _ Hraw Hf). apply get_range_Some in Hf as (?&?&?&?).
  apply HQ; [done|lia|lia].
Qed.

Lemma read_field_post {A} i n context (f : bytes → A) (Q : A → Prop) :
  (∀ l, is_bytes l → length l = n → i + n ≤ length raw → Q (f l)) →
  post (l ← get_field raw i n context; Ok (f l)) Q (λ _, True).
Proof using Hraw. intros HQ. apply post_bind, get_field_post. intros l ? ? ?. by apply HQ. Qed.

Lemma read_u32_le_post i (Q : Z → Prop) :
  (∀ z, is_uint 32 z → i + 4 ≤ length raw → Q z) → post (read_u32_le raw i) Q (λ _, True).
Proof using Hraw.
  intros HQ. apply read_field_post. intros l Hl Hn Hi. apply HQ; [|done].
  pose proof (from_le_bytes_range l Hl) as Hr. rewrite Hn in Hr. exact Hr.
Qed.

(** A three-byte field as an integer. *)
Lemma read_u24_be_post i (Q : Z → Prop) :
  (∀ z, i + 3 ≤ length raw → Q z) → post (read_u24_be raw i) Q (λ _, True).
Proof using Hraw.
  intros HQ. apply post_bind, get_field_post. intros l Hl Hn Hi.
  destruct l as [|? [|? [|? [|]]]]; try done. by apply HQ.
Qed.

Lemma read_i24_be_post i (Q : Z → Prop) :
  (∀ z, i + 3 ≤ length raw → Q z) → post (read_i24_be raw i) Q (λ _, True).
Proof using Hraw.
  intros HQ. apply post_bind, read_u24_be_post. intros z Hi. cbv zeta. apply post_if; intros _; by apply HQ.
Qed.

(** ** Telemetry values *)

Lemma decode_raw_value_post kind i width :
  length raw ≤ 176 → i ≤ length raw →
  post (decode_raw_value raw kind i width) (λ '(_, c), c = i + width ∧ c ≤ length raw ∧ 1 ≤ width)
    (λ _, True).
Proof using Hraw.
  intros Hlen Hi. unfold decode_raw_value.
  destruct width as [|[|[|[|[|width]]]]]; [exact I| | | | |exact I];
    apply post_bind.
  - apply post_ok_or; [|done]. intros b Hb%lookup_lt_Some. cbn. lia.
  - destruct (is_signed kind); apply read_field_post; intros; cbn; rewrite sat_add_small; lia.
  - destruct (is_signed kind); [apply read_i24_be_post|apply read_u24_be_post]; intros; cbn;
      rewrite sat_add_small; lia.
  - destruct (is_signed kind); apply read_field_post; intros; cbn; rewrite sat_add_small; lia.
Qed.

Lemma decode_value_post kind i width component :
  length raw ≤ 176 → i ≤ length raw →
  post (decode_value raw kind i width component)
    (λ '(v, c), is_finite v = true ∧ c = i + width ∧ c ≤ length raw ∧ 1 ≤ width) (λ _, True).
Proof using Hraw.
  intros Hlen Hi. apply post_bind. eapply post_weaken; [by apply decode_raw_value_post|].
  intros [z c] Hc. cbn. destruct (is_finite _) eqn:Hf; cbn; [|exact I]. by split.
Qed.

Lemma decode_values_loop_post kind width k :
  length raw ≤ 176 →
  ∀ fuel i component values,
  i + width * k ≤ length raw → k ≤ fuel → k ≤ 10 → 1 ≤ width →
  Forall (λ v, is_finite v = true) values →
  post (decode_values_loop fuel raw kind width (i + width * k) i component values)
    (λ '(vs, c), c = i + width * k ∧ length vs = length values + k ∧
                 Forall (λ v, is_finite v = true) vs) (λ _, True).
Proof using Hraw.
  intros Hlen. induction k as [|k IH]; intros fuel i component values Hi Hf Hk Hw Hv.
  - rewrite Nat.mul_0_r, Nat.add_0_r in *. unfold decode_values_loop.
    destruct fuel; (destruct (Nat.ltb_spec i i); [lia|]); cbn; split_and!; lia || done.
  - destruct fuel as [|fuel]; [lia|]. cbn [decode_values_loop].
    destruct (Nat.ltb_spec i (i + width * S k)); [|nia]. apply post_bind.
    eapply post_weaken; [apply decode_value_post; lia|]. intros [v c] (Hfin&->&?&_).
    replace (i + width * S k) with ((i + width) + width * k) by lia.
    eapply post_weaken; [apply IH; try lia; apply Forall_app; by repeat constructor|].
    intros [vs c'] (->&Hl&?). rewrite Hl, length_app. cbn. split_and!; [done|lia|done].
Qed.

Definition kind_width (kind : LppTelemetryKind) : nat := (data_size_and_count kind).1.
Definition kind_count (kind : LppTelemetryKind) : nat := (data_size_and_count kind).2.

Lemma kind_sizes kind : kind_width kind ≤ 4 ∧ kind_count kind ≤ 3.
Proof using. destruct kind; cbn; lia. Qed.

Lemma kind_width_pos kind : kind ≠ LppTelemetryKind_Polyline → 1 ≤ kind_width kind.
Proof using. destruct kind; cbn; by (lia || intros []). Qed.

Lemma decode_values_post kind i context :
  length raw ≤ 176 → i ≤ length raw → kind ≠ LppTelemetryKind_Polyline →
  post (decode_values raw i kind (kind_count kind) context)
    (λ '(vs, c), c = i + kind_width kind * kind_count kind ∧ c ≤ length raw ∧
                 length vs = kind_count kind ∧ Forall (λ v, is_finite v = true) vs) (λ _, True).
Proof using Hraw.
  intros Hlen Hi Hk. unfold decode_values.
  pose proof (kind_sizes kind) as [Hw Hc]. pose proof (kind_width_pos kind Hk) as Hp.
  unfold kind_width, kind_count in *. destruct (data_size_and_count kind) as [w n]. cbn [fst snd] in *.
  rewrite checked_mul_small by lia. cbn [ok_or mbind outcome_bind].
  rewrite checked_add_small by nia. cbn [ok_or mbind outcome_bind].
  destruct (Nat.ltb_spec (length raw) (i + w * n)); [exact I|]. apply post_bind.
  eapply post_weaken; [apply (decode_values_loop_post kind w n); [done|done|nia|lia|lia|constructor]|].
  intros [vs c] (->&Hl&Hv). cbn in Hl. rewrite Hl, Nat.eqb_refl. cbn. by split_and!.
Qed.

(** ** Records *)

Definition wf_sample (s : TelemetrySample) : Prop :=
  is_u8 (TelemetrySample_channel s) ∧ TelemetrySample_channel s ≠ 0%Z ∧
  length (TelemetrySample_values s) = kind_count (TelemetrySample_kind s) ∧
  Forall (λ v, is_finite v = true) (TelemetrySample_values s) ∧
  (TelemetrySample_kind s = LppTelemetryKind_Polyline ↔ is_Some (TelemetrySample_raw s)) ∧
  ∀ r, TelemetrySample_raw s = Some r →
    8 ≤ length r ∧ is_bytes r ∧ head r = Some (Z.of_nat (length r)).

Lemma polyline_record_post i :
  length raw ≤ 176 → i ≤ length raw →
  post (polyline_record raw i)
    (λ '(r, c), i < c ∧ c ≤ length raw ∧ 8 ≤ length r ∧ is_bytes r ∧
                head r = Some (Z.of_nat (length r))) (λ _, True).
Proof using Hraw.
  intros Hlen Hi. apply post_bind, post_ok_or; [|done]. intros b Hb. cbv zeta.
  assert (is_u8 b) as Hu by by apply (Forall_lookup_1 _ _ _ _ Hraw Hb).
  unfold LPP_MIN_POLYLINE_SIZE. destruct (Nat.ltb_spec (Z.to_nat b) 8) as [|Hn]; [exact I|].
  unfold is_u8 in Hu. rewrite checked_add_small by lia. cbn [ok_or mbind outcome_bind].
  destruct (Nat.ltb_spec (length raw) (i + Z.to_nat b)) as [|He]; [exact I|].
  rewrite slice_ok by lia. cbn. replace (i + Z.to_nat b - i) with (Z.to_nat b) by lia.
  assert (length (take (Z.to_nat b) (drop i raw)) = Z.to_nat b) as Hl
    by (rewrite length_take, length_drop; lia).
  split_and!; [lia|lia|lia|by apply Forall_take, Forall_drop|].
  rewrite Hl, Z2Nat.id by lia. rewrite (drop_S _ _ _ Hb). by destruct (Z.to_nat b) as [|] eqn:E; [lia|].
Qed.

Lemma telemetry_loop_post fuel : ∀ i readings,
  length raw ≤ 176 → i ≤ length raw → length raw - i ≤ fuel → Forall wf_sample readings →
  post (telemetry_loop fuel raw i readings) (Forall wf_sample) (λ _, True).
Proof using Hraw.
  induction fuel as [|fuel IH]; intros i readings Hlen Hi Hf Hr; cbn [telemetry_loop];
    (destruct (Nat.ltb_spec i (length raw)) as [Hlt|]; cbn [negb]; [|exact Hr]); [lia|].
  destruct (lookup_lt_is_Some_2 raw i Hlt) as [channel Hch]. rewrite Hch.
  assert (is_u8 channel) as Hcu by by apply (Forall_lookup_1 _ _ _ _ Hraw Hch).
  cbn [ok_or mbind outcome_bind]. rewrite sat_add_small by lia.
  destruct (Z.eqb_spec channel 0) as [|Hc0].
  { apply post_bind, post_slice_from; [done|lia|]. intros s _ _. apply post_if; intros _; [exact I|exact Hr]. }
  apply post_bind, post_ok_or; [|done]. intros code Hcode. apply lookup_lt_Some in Hcode as Hlt1.
  rewrite sat_add_small by lia. apply post_bind, post_ok_or; [|done]. intros kind _.
  case_bool_decide as Hk; apply post_bind.
  - eapply post_weaken; [apply polyline_record_post; lia|]. intros [r c] (?&?&?&?&?). subst kind.
    apply IH; [done|done|lia|]. apply Forall_app. split; [done|]. constructor; [|constructor].
    unfold wf_sample. cbn. split_and!; try done. by intros ? [= <-].
  - eapply post_weaken; [apply (decode_values_post kind (i + 1 + 1) "telemetry"); [done|lia|done]|].
    intros [vs c] (->&?&?&?). apply IH; [done|done|lia|]. apply Forall_app. split; [done|].
    constructor; [|constructor]. unfold wf_sample. cbn. split_and!; try done.
Qed.

Lemma decode_summary_value_post kind i :
  length raw ≤ 176 → i ≤ length raw →
  post (decode_summary_value raw i kind)
    (λ '(_, c), i < c ∧ c ≤ length raw ∧ is_vector kind = false) (λ _, True).
Proof using Hraw.
  intros Hlen Hi. apply post_bind, post_ok_or; [|done]. intros w Hw.
  assert (1 ≤ w ≤ 4 ∧ is_vector kind = false) as [Hw4 Hv]
    by (destruct kind; simplify_eq/=; split; done || lia).
  rewrite checked_add_small by lia. cbn [ok_or mbind outcome_bind].
  destruct (Nat.ltb_spec (length raw) (i + w)) as [|He]; [exact I|].
  assert (w = 1 ∨ w = 2 ∨ w = 4) as Hws by (destruct kind; simplify_eq/=; auto).
  assert (i < i + w ∧ i + w ≤ length raw ∧ is_vector kind = false) as Hend
    by (split_and!; [lia|lia|done]).
  apply post_bind. destruct Hws as [->|[->| ->]], (summary_is_signed kind); cbn [post].
  - apply post_bind, post_idx; [done|lia|]. intros b _ _. by apply Hend.
  - apply post_idx; [done|lia|]. intros b _ _. by apply Hend.
  - apply read_field_post. intros. by apply Hend.
  - apply read_field_post. intros. by apply Hend.
  - apply read_field_post. intros. by apply Hend.
  - apply read_field_post. intros. by apply Hend.
Qed.

Definition wf_summary (s : SummaryRecord) : Prop :=
  is_u8 (SummaryRecord_channel s) ∧ SummaryRecord_channel s ≠ 0%Z ∧
  is_vector (SummaryRecord_kind s) = false.

Lemma summary_loop_post fuel : ∀ i entries,
  length raw ≤ 176 → i ≤ length raw → length raw - i ≤ fuel → Forall wf_summary entries →
  post (summary_loop fuel raw i entries) (Forall wf_summary) (λ _, True).
Proof using Hraw.
  induction fuel as [|fuel IH]; intros i entries Hlen Hi Hf Hr; cbn [summary_loop];
    (destruct (Nat.ltb_spec i (length raw)) as [Hlt|]; cbn [negb]; [|exact Hr]); [lia|].
  destruct (lookup_lt_is_Some_2 raw i Hlt) as [channel Hch]. rewrite Hch.
  assert (is_u8 channel) as Hcu by by apply (Forall_lookup_1 _ _ _ _ Hraw Hch).
  cbn [ok_or mbind outcome_bind]. rewrite sat_add_small by lia.
  destruct (Z.eqb_spec channel 0) as [|Hc0].
  { apply post_bind, post_slice_from; [done|lia|]. intros s _ _. apply post_if; intros _; [exact I|exact Hr]. }
  apply post_bind, post_ok_or; [|done]. intros code Hcode. apply lookup_lt_Some in Hcode as Hlt1.
  rewrite sat_add_small by lia. apply post_bind, post_ok_or; [|done]. intros kind _.
  do 3 (apply post_bind; eapply post_weaken; [apply decode_summary_value_post; [done|lia]|];
        intros [? ?] (?&?&?)).
  apply IH; [done|done|lia|]. apply Forall_app. split; [done|]. constructor; [|constructor].
  by split_and!.
Qed.
End fields.

(** ** Text *)

Lemma trim_post raw context (Q : bytes → Prop) :
  is_bytes raw → (∀ s, is_bytes s → no_nul s → length s ≤ length raw → Q s) →
  post (trim_trailing_nul raw context) Q (λ _, True).
Proof.
  intros Hb HQ. unfold trim_trailing_nul. destruct (position _ raw) as [k|] eqn:Hp.
  - apply position_lt in Hp as Hk. apply position_Some in Hp as (?&?&?).
    apply post_bind, post_slice_from; [done|lia|]. intros s _ _. apply post_if; intros _; [exact I|].
    rewrite slice_ok by lia. cbn. rewrite Nat.sub_0_r, drop_0. apply HQ.
    + by apply Forall_take.
    + eapply Forall_impl; [done|]. cbn. intros; lia.
    + rewrite length_take. lia.
  - apply position_None in Hp. apply HQ; [done| |done]. eapply Forall_impl; [done|]. cbn. intros; lia.
Qed.

Lemma decode_string_post raw context (Q : rstring → Prop) :
  is_bytes raw → (is_rstring raw → Q raw) → post (decode_string raw context) Q (λ _, True).
Proof.
  intros Hb HQ. apply post_ok_or; [|done]. intros s Hs. apply from_utf8_is_rstring in Hs as Hr; [|done].
  apply from_utf8_Some in Hs as [-> _]. by apply HQ.
Qed.

(** A text without separators or NUL. *)
Definition wf_label (sep : Z) (s : rstring) : Prop :=
  is_rstring s ∧ s ≠ [] ∧ no_nul s ∧ Forall (λ b, b ≠ sep) s.

Lemma split_on_subset sep l p : p ∈ split_on sep l → ∀ b, b ∈ p → b ∈ l.
Proof.
  revert p. induction l as [|x l IH]; cbn; intros p Hp b Hb.
  { apply list_elem_of_singleton in Hp as ->. by apply not_elem_of_nil in Hb. }
  destruct (x =? sep)%Z.
  { apply elem_of_cons in Hp as [->|Hp]; [by apply not_elem_of_nil in Hb|]. right. by eapply IH. }
  destruct (split_on sep l) as [|q qs].
  { apply list_elem_of_singleton in Hp as ->. apply list_elem_of_singleton in Hb as ->. by left. }
  apply elem_of_cons in Hp as [->|Hp]; [|right; eapply IH; [by right|done]].
  apply elem_of_cons in Hb as [->|Hb]; [by left|]. right. eapply IH; [by left|done].
Qed.

Lemma split_on_no_nul sep l p : no_nul l → p ∈ split_on sep l → no_nul p.
Proof.
  unfold no_nul. rewrite !Forall_forall. intros Hl Hp b Hb. apply Hl. by eapply split_on_subset.
Qed.

Definition wf_regions (r : RegionsResponse) : Prop :=
  is_uint 32 (RegionsResponse_clock r) ∧ RegionsResponse_names r ≠ [] ∧
  Forall (wf_label 44) (RegionsResponse_names r).

Lemma parse_regions_post payload :
  is_bytes payload → post (parse_regions_response payload) wf_regions (λ _, True).
Proof.
  intros Hb. apply post_bind, check_max_len_post. intros Hlen.
  destruct (Nat.ltb_spec (length payload) 4); [exact I|].
  apply post_bind, read_u32_le_post; [done|]. intros clock Hc _.
  apply post_bind, post_slice_from; [done|lia|]. intros body Hbody _.
  apply post_bind, trim_post; [done|]. intros text Ht Hn _. case_bool_decide; [exact I|].
  apply post_bind, decode_string_post; [done|]. intros Hr. cbv zeta. apply post_if; [intros _; exact I|].
  intros [Hne He]%orb_false_iff. split_and!; [done|by apply bool_decide_eq_false in Hne|].
  cbn. apply Forall_forall. intros p Hp. split_and!.
  - by eapply (is_rstring_split 44).
  - intros ->. assert (existsb (λ name, bool_decide (name = [])) (split_on 44 text) = true) as Hx;
      [|by rewrite Hx in He]. apply existsb_exists. exists []. split; [by apply list_elem_of_In|done].
  - by eapply split_on_no_nul.
  - by eapply split_on_no_sep_pieces.
Qed.

Definition wf_owner (o : OwnerResponse) : Prop :=
  is_uint 32 (OwnerResponse_clock o) ∧ wf_label 10 (OwnerResponse_name o) ∧
  wf_label 10 (OwnerResponse_owner o).

Lemma split_once_none sep l : split_once sep l = None → Forall (λ b, b ≠ sep) l.
Proof.
  induction l as [|b l IH]; cbn; [done|]. destruct (Z.eqb_spec b sep); [done|].
  destruct (split_once sep l) as [[]|]; [done|]. intros _. constructor; auto.
Qed.

Lemma parse_owner_post payload :
  is_bytes payload → post (parse_owner_response payload) wf_owner (λ _, True).
Proof.
  intros Hb. apply post_bind, check_max_len_post. intros Hlen.
  destruct (Nat.ltb_spec (length payload) 4); [exact I|].
  apply post_bind, read_u32_le_post; [done|]. intros clock Hc _.
  apply post_bind, post_slice_from; [done|lia|]. intros rest Hrest _.
  apply post_bind, trim_post; [done|]. intros text Ht Hn _.
  apply post_bind, decode_string_post; [done|]. intros Hr. cbv zeta. cbn [splitn].
  destruct (split_once 10 text) as [[name more]|] eqn:H1;
    [|cbn; by case_bool_decide].
  apply split_once_spec in H1 as [-> Hname]. apply Forall_app in Hn as [Hnn [_ Hnm]%Forall_cons].
  apply is_rstring_cut in Hr as [Hrn Hrm]; [|lia].
  destruct (split_once 10 more) as [[owner more']|] eqn:H2; cbn;
    repeat (case_bool_decide; cbn; try exact I).
  apply split_once_none in H2. by split_and!.
Qed.

(** ** Fixed layouts *)

Definition wf_basic (b : BasicResponse) : Prop :=
  is_uint 32 (BasicResponse_clock b) ∧ is_uint 7 (RemoteFeature_kind (BasicResponse_feature b)).

Lemma from_feature_byte_wf b : is_u8 b → is_uint 7 (RemoteFeature_kind (from_feature_byte b)).
Proof.
  intros _. cbn. change 127%Z with (Z.ones 7). rewrite Z.land_ones by lia. by apply Z.mod_pos_bound.
Qed.

Lemma parse_basic_post payload :
  is_bytes payload → post (parse_basic_response payload) wf_basic (λ _, True).
Proof.
  intros Hb. apply post_bind, check_max_len_post. intros _.
  destruct (Nat.eqb_spec (length payload) 5); [|exact I]. cbn [negb].
  apply post_bind, read_u32_le_post; [done|]. intros clock Hc _.
  apply post_bind, post_idx; [done|lia|]. intros b _ Hu. split; [done|]. by apply from_feature_byte_wf.
Qed.

Definition wf_acl (e : AclEntry) : Prop :=
  is_arr 6 (AclEntry_pubkey_prefix e) ∧ AclEntry_pubkey_prefix e ≠ replicate 6 0%Z ∧
  is_u8 (AclEntry_permissions e).

Lemma parse_acl_post payload :
  is_bytes payload →
  post (parse_acl_payload payload)
    (λ r, Forall wf_acl (AclResponse_entries r) ∧ 7 * length (AclResponse_entries r) ≤ length payload)
    (λ _, True).
Proof.
  intros Hb. apply post_bind, check_max_len_post. intros _. apply post_if; [intros _; exact I|]. intros _.
  assert (∀ cs acc, (∀ c, c ∈ cs → is_bytes c ∧ length c = 7) → Forall wf_acl acc →
    post (try_fold acl_entry acc cs)
      (λ es, Forall wf_acl es ∧ length es ≤ length acc + length cs) (λ _, True)) as Hloop.
  { induction cs as [|c cs IH]; intros acc Hcs Hacc; [cbn; split; [done|lia]|]. cbn [try_fold].
    destruct (Hcs c) as [Hc Hl]; [by left|]. apply post_bind, post_bind, post_slice; [done|lia|lia|].
    intros s Hs Hsl. case_bool_decide as Hz.
    - cbn [post]. eapply post_weaken; [apply IH; [set_solver|done]|]. cbn. intros es [? ?]. split; [done|lia].
    - apply post_bind, post_idx; [done|lia|]. intros b _ Hu. cbn [post].
      eapply post_weaken; [apply IH; [set_solver|]|].
      + apply Forall_app. split; [done|]. constructor; [|constructor]. by split_and!.
      + cbn. intros es [? Hel]. rewrite length_app in Hel. cbn in Hel. split; [done|lia]. }
  apply post_bind. eapply post_weaken; [apply Hloop; [|constructor]|].
  - intros c Hc. apply chunks_exact_elem in Hc as [Hl Hin]. split; [|done].
    apply Forall_forall. intros x Hx. apply Hin in Hx. by eapply Forall_forall in Hb.
  - cbn. intros es [? ?]. pose proof (chunks_exact_count 7 payload). split; [done|]. lia.
Qed.

Definition wf_neighbour (prefix_length : Z) (e : NeighbourEntry) : Prop :=
  is_bytes (NeighbourEntry_pubkey_prefix e) ∧
  Z.of_nat (length (NeighbourEntry_pubkey_prefix e)) = prefix_length ∧
  is_uint 32 (NeighbourEntry_secs_ago e) ∧
  ∃ quarters, is_sint 8 quarters ∧ sf_quarters (NeighbourEntry_snr_db e) = Some quarters.

Definition wf_page (prefix_length : Z) (p : NeighbourPage) : Prop :=
  (0 ≤ NeighbourPage_result_count p ≤ NeighbourPage_total_count p)%Z ∧
  (NeighbourPage_total_count p < 2 ^ 15)%Z ∧
  Z.of_nat (length (NeighbourPage_entries p)) = NeighbourPage_result_count p ∧
  Forall (wf_neighbour prefix_length) (NeighbourPage_entries p).

Lemma page_length n plen :
  (Z.of_nat n ≤ 40000)%Z → plen ≤ 32 →
  usize_saturating_add 4 (usize_saturating_mul n (usize_saturating_add plen 5)) = 4 + n * (plen + 5).
Proof.
  intros Hn Hp. rewrite (sat_add_small plen 5) by lia.
  unfold usize_saturating_add, usize_saturating_mul, usize_fits.
  assert (Z.of_nat n * Z.of_nat (plen + 5) ≤ 40000 * 37)%Z as Hm by nia.
  destruct (Z.ltb_spec (Z.of_nat n * Z.of_nat (plen + 5)) (2 ^ 64)) as [_|]; [|lia].
  rewrite <- Nat2Z.inj_mul in Hm.
  destruct (Z.ltb_spec (Z.of_nat 4 + Z.of_nat (n * (plen + 5))) (2 ^ 64)); [done|lia].
Qed.

Lemma neighbour_loop_post payload plen n :
  is_bytes payload → length payload ≤ 176 → 1 ≤ plen ≤ 32 →
  ∀ start entries cursor,
  cursor + n * (plen + 5) ≤ length payload → Forall (wf_neighbour (Z.of_nat plen)) entries →
  post (try_fold (neighbour_entry payload plen (plen + 5)) (entries, cursor) (seq start n))
    (λ '(es, _), length es = length entries + n ∧ Forall (wf_neighbour (Z.of_nat plen)) es) (λ _, True).
Proof.
  intros Hb Hlen Hp. induction n as [|n IH]; intros start entries cursor Hc He; cbn [seq try_fold].
  { cbn. split; [lia|done]. }
  apply post_bind. unfold neighbour_entry. rewrite !sat_add_small by lia.
  apply post_bind, post_slice; [done|lia|lia|]. intros prefix Hpb Hpl.
  apply post_bind, read_u32_le_post; [done|]. intros secs Hs _.
  apply post_bind, post_idx; [done|lia|]. intros snr _ Hu. cbn [post].
  eapply post_weaken; [apply IH; [lia|]|].
  - apply Forall_app. split; [done|]. constructor; [|constructor]. split_and!; [done|cbn; lia|done|].
    exists (i8_from_bytes snr). split; [by apply i8_from_bytes_range|].
    by apply f64_quarter_exact, i8_from_bytes_range.
  - intros [es c] [Hl ?]. rewrite length_app in Hl. cbn in Hl. split; [lia|done].
Qed.

Lemma read_i16_le_post raw i (Q : Z → Prop) :
  is_bytes raw → (∀ z, is_sint 16 z → Q z) → post (read_i16_le raw i) Q (λ _, True).
Proof.
  intros Hb HQ. apply read_field_post; [done|]. intros l Hl Hn _. apply HQ, to_signed_range; [lia|].
  by apply (from_le_bytes_uint l 2).
Qed.

Lemma u16_try_from_post z reason (Q : Z → Prop) : Q z → post (u16_try_from z reason) Q (λ _, True).
Proof. intros HQ. unfold u16_try_from. by case_bool_decide; [|exact I]. Qed.

Lemma parse_neighbour_post payload prefix_length :
  is_bytes payload →
  post (parse_neighbour_page payload prefix_length) (wf_page prefix_length) (λ _, True).
Proof.
  intros Hb. apply post_bind, check_max_len_post. intros Hlen.
  destruct (negb _) eqn:Hp; [exact I|]. destruct (Nat.ltb_spec (length payload) 4); [exact I|].
  apply post_bind, read_i16_le_post; [done|]. intros total Ht.
  apply post_bind, read_i16_le_post; [done|]. intros result Hr.
  destruct (_ || _) eqn:Hneg; [exact I|].
  apply post_bind, u16_try_from_post, post_bind, u16_try_from_post.
  destruct (Z.ltb_spec total result) as [|Hle]; [exact I|].
  unfold is_sint in *. change (2 ^ (16 - 1))%Z with 32768%Z in *. cbv zeta.
  rewrite page_length by lia. rewrite (sat_add_small _ 5) by lia.
  destruct (Nat.eqb_spec (4 + Z.to_nat result * (Z.to_nat prefix_length + 5)) (length payload)) as [He|];
    [cbn [negb]|exact I].
  apply post_bind. eapply post_weaken.
  { apply neighbour_loop_post; [done|done|lia|lia|constructor]. }
  rewrite Z2Nat.id by lia. intros [es c] [Hl Hes]. cbn in Hl. cbn [post]. unfold wf_page. cbn.
  split_and!; [lia|lia|lia|lia|done].
Qed.

Lemma parse_telemetry_post payload :
  is_bytes payload → post (parse_telemetry_payload payload) (Forall wf_sample) (λ _, True).
Proof.
  intros Hb. apply post_bind, check_max_len_post. intros Hlen. case_bool_decide; [by constructor|].
  apply telemetry_loop_post; [done|done|lia|lia|constructor].
Qed.

Lemma parse_summary_post payload :
  is_bytes payload →
  post (parse_summary_payload payload)
    (λ s, is_uint 32 (SummaryResponse_clock s) ∧ Forall wf_summary (SummaryResponse_entries s))
    (λ _, True).
Proof.
  intros Hb. apply post_bind, check_max_len_post. intros Hlen.
  destruct (Nat.ltb_spec (length payload) 4); [exact I|].
  apply post_bind, read_u32_le_post; [done|]. intros clock Hc _.
  apply post_bind. eapply post_weaken; [apply summary_loop_post; [done|done|lia|lia|constructor]|].
  intros es Hes. by split.
Qed.
