(* ===== verification/RemoteProps.v ===== *)
(** * Properties of remote replies

    Totality of the parsers, and the round trips of the record formats: what a
    node writes in the layout of the firmware is what the parser returns. *)

From S2P Require Import Prelude Text Floats Domain Packet PacketFacts Remote RemoteFacts.

(** the seven parsers of remote replies return on every payload: no input
    panics or keeps them looping, and what they accept is well formed, with the
    counts, widths and texts the protocol promises and only finite readings. *)
Theorem remote_parsers_total payload prefix_length :
  is_bytes payload →
  post (parse_neighbour_page payload prefix_length) (wf_page prefix_length) (λ _, True) ∧
  post (parse_regions_response payload) wf_regions (λ _, True) ∧
  post (parse_owner_response payload) wf_owner (λ _, True) ∧
  post (parse_basic_response payload) wf_basic (λ _, True) ∧
  post (parse_acl_payload payload) (λ r, Forall wf_acl (AclResponse_entries r) ∧
    7 * length (AclResponse_entries r) ≤ length payload) (λ _, True) ∧
  post (parse_telemetry_payload payload) (Forall wf_sample) (λ _, True) ∧
  post (parse_summary_payload payload) (λ s, is_uint 32 (SummaryResponse_clock s) ∧
    Forall wf_summary (SummaryResponse_entries s)) (λ _, True).
Proof.
  intros Hb. split_and!;
    auto using parse_neighbour_post, parse_regions_post, parse_owner_post, parse_basic_post,
      parse_acl_post, parse_telemetry_post, parse_summary_post.
Qed.

(** ** Fields inside a payload *)

Lemma get_field_at pre f rest i context :
  length pre = i → get_field (pre ++ f ++ rest) i (length f) context = Ok f.
Proof.
  intros <-. unfold get_field, get_range.
  rewrite bool_decide_true by (rewrite !length_app; lia).
  replace (length pre + length f - length pre) with (length f) by lia.
  by rewrite drop_app_length, take_app_length.
Qed.

Lemma slice_at {E} pre f rest i j :
  length pre = i → length f = j - i → i ≤ j → slice (E:=E) (pre ++ f ++ rest) i j = Ok f.
Proof.
  intros <- Hf Hij. rewrite slice_ok by (rewrite ?length_app; lia).
  rewrite <- Hf. by rewrite drop_app_length, take_app_length.
Qed.

Lemma lookup_at (pre : bytes) x rest i : length pre = i → (pre ++ x :: rest) !! i = Some x.
Proof. intros <-. by rewrite lookup_app_r, Nat.sub_diag by lia. Qed.

Lemma idx_at {E} pre x rest i : length pre = i → idx (E:=E) (pre ++ x :: rest) i = Ok x.
Proof. intros Hi. unfold idx. by rewrite lookup_at. Qed.

(** ** Neighbour pages *)

(** A neighbour as a node reports it: link quality in quarter decibels. *)
Record neighbour := mkNeighbour { nb_prefix : bytes; nb_secs : u32; nb_quarters : i8 }.

Definition neighbour_bytes (n : neighbour) : bytes :=
  nb_prefix n ++ u32_to_le_bytes (nb_secs n) ++ [to_unsigned 8 (nb_quarters n)].
Definition page_bytes (total : u16) (ns : list neighbour) : bytes :=
  u16_to_le_bytes total ++ u16_to_le_bytes (Z.of_nat (length ns)) ++ concat (neighbour_bytes <$> ns).
Definition reported_neighbour (n : neighbour) : NeighbourEntry :=
  mkNeighbourEntry (nb_prefix n) (nb_secs n) (f64_div (f64_of_Z (nb_quarters n)) (f64_of_Z 4)).
Definition neighbour_ok (plen : nat) (n : neighbour) : Prop :=
  length (nb_prefix n) = plen ∧ is_uint 32 (nb_secs n) ∧ is_sint 8 (nb_quarters n).

Lemma length_neighbour_bytes plen n : neighbour_ok plen n → length (neighbour_bytes n) = plen + 5.
Proof.
  intros [Hp _]. unfold neighbour_bytes, u32_to_le_bytes.
  rewrite !length_app, length_to_le_bytes, Hp. cbn. lia.
Qed.

Lemma length_neighbours plen ns :
  Forall (neighbour_ok plen) ns → length (concat (neighbour_bytes <$> ns)) = length ns * (plen + 5).
Proof.
  induction 1 as [|n ns Hn Hns IH]; [done|]. cbn. rewrite length_app, IH, (length_neighbour_bytes plen); done || lia.
Qed.

Lemma neighbour_entry_at pre n rest plen entries k :
  neighbour_ok plen n → plen ≤ 32 → length pre ≤ 176 →
  neighbour_entry (pre ++ neighbour_bytes n ++ rest) plen (plen + 5) (entries, length pre) k
  = Ok (entries ++ [reported_neighbour n], length pre + (plen + 5)).
Proof.
  intros (Hpl&Hs&Hq) Hp Hl. unfold neighbour_entry. cbv beta iota zeta. rewrite !sat_add_small by lia.
  unfold neighbour_bytes. rewrite <- !app_assoc.
  rewrite slice_at by lia. cbn [mbind outcome_bind].
  rewrite (app_assoc pre (nb_prefix n)). unfold read_u32_le.
  rewrite (get_field_at _ (u32_to_le_bytes (nb_secs n)) _ _ _) by (rewrite length_app; lia).
  cbn [mbind outcome_bind]. rewrite (app_assoc (pre ++ nb_prefix n)). cbn [app].
  rewrite idx_at by (rewrite !length_app, Hpl; cbn; lia). cbn [mbind outcome_bind].
  unfold u32_to_le_bytes. rewrite from_to_le_bytes by exact Hs.
  unfold i8_from_bytes. by rewrite to_signed_unsigned.
Qed.

Lemma neighbour_loop_ok plen ns :
  Forall (neighbour_ok plen) ns → plen ≤ 32 →
  ∀ pre start entries, length pre + length ns * (plen + 5) ≤ 176 →
  try_fold (neighbour_entry (pre ++ concat (neighbour_bytes <$> ns)) plen (plen + 5))
    (entries, length pre) (seq start (length ns))
  = Ok (entries ++ (reported_neighbour <$> ns), length pre + length ns * (plen + 5)).
Proof.
  intros Hns Hp. induction Hns as [|n ns Hn Hns IH]; intros pre start entries Hl.
  { cbn. by rewrite app_nil_r, Nat.add_0_r. }
  cbn [length] in Hl. cbn [length seq try_fold fmap list_fmap concat].
  rewrite neighbour_entry_at by (done || lia). cbn [mbind outcome_bind].
  specialize (IH (pre ++ neighbour_bytes n) (S start) (entries ++ [reported_neighbour n])).
  rewrite length_app, (length_neighbour_bytes plen n Hn), <- !app_assoc in IH.
  rewrite IH by lia. f_equal. f_equal. lia.
Qed.

Lemma i16_le_at pre z rest i :
  length pre = i → (0 ≤ z < 2 ^ 15)%Z → read_i16_le (pre ++ u16_to_le_bytes z ++ rest) i = Ok z.
Proof.
  intros Hi Hz. unfold read_i16_le. rewrite (get_field_at _ (u16_to_le_bytes z)) by done.
  cbn [mbind outcome_bind]. unfold i16_from_le_bytes, u16_to_le_bytes.
  rewrite from_to_le_bytes by (unfold is_uint; change (8 * Z.of_nat 2)%Z with 16%Z; lia).
  unfold to_signed. change (16 - 1)%Z with 15%Z. by destruct (Z.ltb_spec z (2 ^ 15)); [|lia].
Qed.

(** a neighbour page written with the key-prefix length of the request is
    parsed to exactly the neighbours it lists, in order, the quarter decibels
    divided by four. *)
Theorem neighbour_page_roundtrip total plen ns :
  (1 ≤ plen ≤ 32)%Z → Forall (neighbour_ok (Z.to_nat plen)) ns →
  (Z.of_nat (length ns) ≤ total < 2 ^ 15)%Z → length (page_bytes total ns) ≤ 176 →
  parse_neighbour_page (page_bytes total ns) plen =
    Ok (mkNeighbourPage total (Z.of_nat (length ns)) (reported_neighbour <$> ns)).
Proof.
  intros Hp Hns Ht Hl. pose proof (length_neighbours _ ns Hns) as Hcl.
  assert (length (page_bytes total ns) = 4 + length ns * (Z.to_nat plen + 5)) as Hlen.
  { unfold page_bytes, u16_to_le_bytes. rewrite !length_app, !length_to_le_bytes, Hcl. lia. }
  unfold parse_neighbour_page, check_max_len, MAX_REMOTE_PAYLOAD_LEN, MAX_INNER_PAYLOAD.
  destruct (Nat.ltb_spec 176 (length (page_bytes total ns))); [lia|]. cbn [mbind outcome_bind].
  replace (negb ((1 <=? plen)%Z && (plen <=? 32)%Z)) with false by lia.
  destruct (Nat.ltb_spec (length (page_bytes total ns)) 4); [lia|].
  assert (read_i16_le (page_bytes total ns) 0 = Ok total) as -> by (by apply (i16_le_at []); [|lia]).
  assert (read_i16_le (page_bytes total ns) 2 = Ok (Z.of_nat (length ns))) as ->
    by (by apply (i16_le_at (u16_to_le_bytes total)); [|lia]).
  cbn [mbind outcome_bind].
  replace ((total <? 0)%Z || (Z.of_nat (length ns) <? 0)%Z) with false by lia.
  unfold u16_try_from. rewrite !bool_decide_true by (unfold is_uint; lia). cbn [mbind outcome_bind].
  destruct (Z.ltb_spec total (Z.of_nat (length ns))); [lia|]. cbv zeta. rewrite Nat2Z.id.
  rewrite page_length, sat_add_small, Hlen, Nat.eqb_refl by lia. cbn [negb].
  unfold page_bytes. rewrite app_assoc.
  change 4 with (length (u16_to_le_bytes total ++ u16_to_le_bytes (Z.of_nat (length ns)))) at 1.
  rewrite neighbour_loop_ok; [done|done|lia|]. rewrite Hlen in Hl. exact Hl.
Qed.

Definition sample_neighbours : list neighbour :=
  [mkNeighbour [1; 2]%Z 60 (-6); mkNeighbour [3; 4]%Z 5 41].

Lemma neighbour_page_roundtrip_witness :
  parse_neighbour_page (page_bytes 9 sample_neighbours) 2 =
    Ok (mkNeighbourPage 9 2 (reported_neighbour <$> sample_neighbours)).
Proof.
  apply (neighbour_page_roundtrip 9 2 sample_neighbours).
  - lia.
  - repeat constructor; cbn; unfold is_uint, is_sint; lia.
  - cbn. lia.
  - cbn. lia.
Defined.

Lemma remote_parsers_total_witness :
  post (parse_telemetry_payload [1; 103; 0; 250]%Z) (Forall wf_sample) (λ _, True).
Proof.
  apply (remote_parsers_total [1; 103; 0; 250]%Z 2). repeat constructor; unfold is_u8; lia.
Defined.

(** ** Access lists *)

Definition slot_bytes (e : AclEntry) : bytes := AclEntry_pubkey_prefix e ++ [AclEntry_permissions e].
Definition occupied (e : AclEntry) : bool := bool_decide (AclEntry_pubkey_prefix e ≠ replicate 6 0%Z).

Lemma acl_entry_slot entries e :
  length (AclEntry_pubkey_prefix e) = 6 →
  acl_entry entries (slot_bytes e) = Ok (entries ++ if occupied e then [e] else []).
Proof.
  intros He. unfold acl_entry, slot_bytes. rewrite slice_head by done.
  cbn [mbind outcome_bind]. unfold occupied. case_bool_decide as Hz.
  - by rewrite bool_decide_false, app_nil_r by (by intros []).
  - rewrite bool_decide_true by done. rewrite idx_at by done. by destruct e.
Qed.

(** an access list of seven-byte slots is parsed to its occupied slots, in
    order; the slots whose prefix is all zero are left out. *)
Theorem acl_roundtrip slots :
  Forall (λ e, length (AclEntry_pubkey_prefix e) = 6) slots → 7 * length slots ≤ 176 →
  parse_acl_payload (concat (slot_bytes <$> slots)) = Ok (mkAclResponse (List.filter occupied slots)).
Proof.
  intros Hs Hl.
  assert (Forall (λ c, length c = 7) (slot_bytes <$> slots)) as H7.
  { apply Forall_fmap. eapply Forall_impl; [exact Hs|]. intros e He. cbn. unfold slot_bytes.
    rewrite length_app, He. done. }
  assert (length (concat (slot_bytes <$> slots)) = 7 * length slots) as Hlen.
  { clear -H7. induction slots as [|e slots IH]; [done|]. cbn in *. apply Forall_cons in H7 as [He H7].
    rewrite length_app, IH by done. lia. }
  unfold parse_acl_payload, check_max_len, MAX_REMOTE_PAYLOAD_LEN, MAX_INNER_PAYLOAD. rewrite Hlen.
  destruct (Nat.ltb_spec 176 (7 * length slots)); [lia|]. cbn [mbind outcome_bind].
  rewrite Nat.mul_comm, Nat.Div0.mod_mul. cbn [Nat.eqb negb].
  rewrite chunks_exact_concat by (lia || done).
  assert (∀ acc, try_fold acl_entry acc (slot_bytes <$> slots) = Ok (acc ++ List.filter occupied slots)) as Hf.
  { clear -Hs. induction Hs as [|e slots He Hs IH]; intros acc; [cbn; by rewrite app_nil_r|].
    cbn [fmap list_fmap try_fold]. rewrite acl_entry_slot by done. cbn [mbind outcome_bind].
    rewrite IH, <- app_assoc. cbn [List.filter]. by destruct (occupied e). }
  rewrite Hf. done.
Qed.

Lemma acl_roundtrip_witness :
  parse_acl_payload [1; 2; 3; 4; 5; 6; 7; 0; 0; 0; 0; 0; 0; 9]%Z
  = Ok (mkAclResponse [mkAclEntry [1; 2; 3; 4; 5; 6]%Z 7]).
Proof.
  apply (acl_roundtrip [mkAclEntry [1; 2; 3; 4; 5; 6]%Z 7; mkAclEntry (replicate 6 0%Z) 9]).
  - repeat constructor.
  - cbn. lia.
Defined.

(** ** Telemetry *)

(** The integer in a big-endian field, by the signedness of its kind. *)
Definition field_value (kind : LppTelemetryKind) (field : bytes) : Z :=
  let u := from_be_bytes field in
  if is_signed kind then to_signed (8 * Z.of_nat (length field)) u else u.

Lemma land_shift_low x y n : (0 ≤ n → 0 ≤ y < 2 ^ n → Z.land (Z.shiftl x n) y = 0)%Z.
Proof.
  intros Hn Hy. apply Z.bits_inj'. intros k Hk. rewrite Z.land_spec, Z.bits_0.
  destruct (Z.ltb_spec k n) as [Hkn|Hkn].
  - by rewrite Z.shiftl_spec_low.
  - destruct (decide (y = 0)%Z) as [->|]; [by rewrite Z.bits_0, andb_false_r|].
    rewrite (Z.bits_above_log2 y k), andb_false_r; [done|lia|].
    apply Z.log2_lt_pow2; [lia|]. pose proof (Z.pow_le_mono_r 2 n k). lia.
Qed.

Lemma lor_shift_low x y n : (0 ≤ n → 0 ≤ y < 2 ^ n → Z.lor (Z.shiftl x n) y = Z.shiftl x n + y)%Z.
Proof.
  intros Hn Hy. pose proof (land_shift_low x y n Hn Hy) as Hl.
  rewrite (Z.add_nocarry_lxor _ _ Hl). symmetry. apply Z.lxor_lor. done.
Qed.

Lemma u24_be b0 b1 b2 :
  is_u8 b0 → is_u8 b1 → is_u8 b2 →
  Z.lor (Z.lor (Z.shiftl b0 16) (Z.shiftl b1 8)) b2 = from_be_bytes [b0; b1; b2].
Proof.
  unfold is_u8. intros. change 16%Z with (8 + 8)%Z. rewrite <- Z.shiftl_shiftl by lia.
  rewrite <- Z.shiftl_lor, !lor_shift_low by lia. rewrite !Z.shiftl_mul_pow2 by lia. cbn. lia.
Qed.

(** Sign extension of a 24-bit value. *)
Lemma i24_extend z :
  (0 ≤ z < 2 ^ 24)%Z →
  (if negb (Z.land (to_signed 32 z) 0x800000 =? 0)%Z
   then Z.lor (to_signed 32 z) (Z.lnot 0xffffff) else to_signed 32 z) = to_signed 24 z.
Proof.
  intros Hz. assert (to_signed 32 z = z) as ->.
  { unfold to_signed. change (32 - 1)%Z with 31%Z. by destruct (Z.ltb_spec z (2 ^ 31)); [|lia]. }
  unfold to_signed. change (24 - 1)%Z with 23%Z. change 0x800000%Z with (Z.shiftl 1 23).
  destruct (Z.ltb_spec z (2 ^ 23)) as [Hlo|Hhi].
  - by rewrite Z.land_comm, land_shift_low by lia.
  - assert (z = Z.lor (Z.shiftl 1 23) (z - 2 ^ 23)) as Hzl.
    { rewrite lor_shift_low by lia. rewrite Z.shiftl_mul_pow2 by lia. lia. }
    assert (Z.land z (Z.shiftl 1 23) = Z.shiftl 1 23) as Hl.
    { rewrite Hzl at 1. rewrite Z.land_lor_distr_l, Z.land_diag.
      rewrite (Z.land_comm (z - 2 ^ 23)), land_shift_low, Z.lor_0_r by lia. done. }
    rewrite Hl. change (Z.lnot 0xffffff) with (Z.shiftl (-1) 24).
    rewrite Z.lor_comm, lor_shift_low by lia. change (Z.shiftl (-1) 24) with (- 2 ^ 24)%Z.
    replace (negb (Z.shiftl 1 23 =? 0)%Z) with true by done. lia.
Qed.

Lemma be_bytes_range f : is_bytes f → (0 ≤ from_be_bytes f < 2 ^ (8 * Z.of_nat (length f)))%Z.
Proof.
  intros Hf. unfold from_be_bytes. rewrite <- length_rev. apply from_le_bytes_range.
  by apply Forall_rev.
Qed.

Lemma decode_raw_at kind pre f rest :
  is_bytes f → 1 ≤ length f ≤ 4 → length pre ≤ 176 →
  decode_raw_value (pre ++ f ++ rest) kind (length pre) (length f)
  = Ok (field_value kind f, length pre + length f).
Proof.
  intros Hf Hl Hp. pose proof (be_bytes_range f Hf) as Hr. unfold decode_raw_value, field_value.
  destruct f as [|b0 [|b1 [|b2 [|b3 [|]]]]]; cbn [length] in Hl; try lia; cbn [length].
  - cbn [app]. rewrite lookup_at by done. cbn [ok_or mbind outcome_bind].
    unfold from_be_bytes. cbn [rev app from_le_bytes]. rewrite Z.mul_0_r, Z.add_0_r.
    by destruct (is_signed kind).
  - unfold read_i16_be, read_u16_be, i16_from_be_bytes.
    rewrite !(get_field_at pre [b0; b1]) by done. rewrite sat_add_small by lia.
    by destruct (is_signed kind).
  - unfold read_i24_be, read_u24_be. rewrite (get_field_at pre [b0; b1; b2]) by done.
    rewrite sat_add_small by lia. cbn [mbind outcome_bind].
    apply Forall_cons in Hf as [? [? [? _]%Forall_cons]%Forall_cons].
    rewrite u24_be by done. destruct (is_signed kind); [|done].
    cbn [mbind outcome_bind]. cbv zeta.
    pose proof (i24_extend (from_be_bytes [b0; b1; b2]) Hr) as Hx.
    destruct (negb _); cbn [mbind outcome_bind]; by rewrite Hx.
  - unfold read_i32_be, read_u32_be, i32_from_be_bytes.
    rewrite !(get_field_at pre [b0; b1; b2; b3]) by done. rewrite sat_add_small by lia.
    by destruct (is_signed kind).
Qed.

(** The readings of the components from number [component] on. *)
Fixpoint scaled (kind : LppTelemetryKind) (component : nat) (fields : list bytes) : list f64 :=
  match fields with
  | [] => []
  | field :: fields =>
      f64_div (f64_of_Z (field_value kind field)) (multiplier kind component)
        :: scaled kind (S component) fields
  end.

(** A telemetry record: a reading with its big-endian fields, or a polyline. *)
Inductive record :=
| Reading (channel : u8) (kind : LppTelemetryKind) (fields : list bytes)
| Line (channel : u8) (body : bytes).

Definition record_bytes (r : record) : bytes :=
  match r with
  | Reading channel kind fields => [channel; LppTelemetryKind_code kind] ++ concat fields
  | Line channel body =>
      [channel; LppTelemetryKind_code LppTelemetryKind_Polyline] ++ Z.of_nat (S (length body)) :: body
  end.

Definition record_ok (r : record) : Prop :=
  match r with
  | Reading channel kind fields =>
      channel ≠ 0%Z ∧ kind ≠ LppTelemetryKind_Polyline ∧ length fields = kind_count kind ∧
      Forall (λ f, is_bytes f ∧ length f = kind_width kind) fields ∧
      Forall (λ v, is_finite v = true) (scaled kind 0 fields)
  | Line channel body => channel ≠ 0%Z ∧ 7 ≤ length body ≤ 254
  end.

Definition sample_of (r : record) : TelemetrySample :=
  match r with
  | Reading channel kind fields => mkTelemetrySample channel kind (scaled kind 0 fields) None
  | Line channel body =>
      mkTelemetrySample channel LppTelemetryKind_Polyline [] (Some (Z.of_nat (S (length body)) :: body))
  end.

Lemma from_code_code kind : LppTelemetryKind_from_code (LppTelemetryKind_code kind) = Some kind.
Proof. by destruct kind. Qed.

Lemma length_fields w (fields : list bytes) :
  Forall (λ f, is_bytes f ∧ length f = w) fields → length (concat fields) = w * length fields.
Proof.
  induction 1 as [|f fs [_ Hf] Hfs IH]; [cbn; lia|]. cbn. rewrite length_app, IH, Hf. lia.
Qed.

Lemma values_loop_at kind w fields :
  Forall (λ f, is_bytes f ∧ length f = w) fields → 1 ≤ w ≤ 4 →
  ∀ fuel pre rest component values,
  length fields ≤ fuel → length pre + w * length fields ≤ 176 → component + length fields ≤ 10 →
  Forall (λ v, is_finite v = true) (scaled kind component fields) →
  decode_values_loop fuel (pre ++ concat fields ++ rest) kind w (length pre + w * length fields)
    (length pre) component values
  = Ok (values ++ scaled kind component fields, length pre + w * length fields).
Proof.
  intros Hfs Hw. induction Hfs as [|f fs [Hfb Hf] Hfs IH];
    intros fuel pre rest component values Hfuel Hl Hc Hfin.
  - cbn [length] in *. rewrite Nat.mul_0_r, Nat.add_0_r.
    destruct fuel; cbn [decode_values_loop]; (destruct (Nat.ltb_spec (length pre) (length pre)); [lia|]);
      cbn; by rewrite app_nil_r.
  - cbn [length] in *. destruct fuel as [|fuel]; [lia|]. cbn [decode_values_loop].
    destruct (Nat.ltb_spec (length pre) (length pre + w * S (length fs))); [|nia].
    cbn [scaled] in Hfin. apply Forall_cons in Hfin as [Hv Hfin]. cbn [concat].
    rewrite <- (app_assoc f). unfold decode_value. rewrite <- Hf at 1.
    rewrite decode_raw_at by (done || lia). cbn [mbind outcome_bind]. rewrite Hv. cbn [negb].
    cbn [mbind outcome_bind]. rewrite sat_add_small, Nat.add_1_r by lia.
    specialize (IH fuel (pre ++ f) rest (S component)
                  (values ++ [f64_div (f64_of_Z (field_value kind f)) (multiplier kind component)])).
    rewrite length_app, <- !app_assoc in IH.
    replace (length pre + w * S (length fs)) with (length pre + length f + w * length fs) by lia.
    rewrite IH by (done || lia). done.
Qed.

Lemma decode_values_at kind fields pre rest context :
  kind ≠ LppTelemetryKind_Polyline → length fields = kind_count kind →
  Forall (λ f, is_bytes f ∧ length f = kind_width kind) fields →
  Forall (λ v, is_finite v = true) (scaled kind 0 fields) →
  length (pre ++ concat fields ++ rest) ≤ 176 →
  decode_values (pre ++ concat fields ++ rest) (length pre) kind (kind_count kind) context
  = Ok (scaled kind 0 fields, length pre + length (concat fields)).
Proof.
  intros Hk Hn Hfs Hfin Hl. pose proof (kind_width_pos kind Hk) as Hw.
  pose proof (kind_sizes kind) as [Hw4 Hc3]. pose proof (length_fields _ _ Hfs) as Hcl.
  rewrite !length_app in Hl. unfold decode_values, kind_width, kind_count in *.
  destruct (data_size_and_count kind) as [w n]. cbn [fst snd] in *.
  rewrite checked_mul_small by lia. cbn [ok_or mbind outcome_bind].
  rewrite checked_add_small by nia. cbn [ok_or mbind outcome_bind].
  destruct (Nat.ltb_spec (length (pre ++ concat fields ++ rest)) (length pre + w * n)) as [Hx|];
    [rewrite !length_app in Hx; nia|].
  rewrite <- Hn at 2. rewrite values_loop_at by (done || nia). cbn [mbind outcome_bind app].
  assert (∀ k, length (scaled kind k fields) = length fields) as Hs.
  { clear. induction fields as [|f fs IH]; intros k; [done|]. cbn. by rewrite IH. }
  rewrite Hs, Hn, Nat.eqb_refl. cbn [negb]. by rewrite Hcl, Hn.
Qed.

Lemma polyline_at pre body rest :
  7 ≤ length body ≤ 254 → length (pre ++ (Z.of_nat (S (length body)) :: body) ++ rest) ≤ 176 →
  polyline_record (pre ++ (Z.of_nat (S (length body)) :: body) ++ rest) (length pre)
  = Ok (Z.of_nat (S (length body)) :: body, length pre + S (length body)).
Proof.
  intros Hb Hl. unfold polyline_record. rewrite <- app_comm_cons.
  rewrite lookup_at by done. cbn [ok_or mbind outcome_bind]. cbv zeta. rewrite Nat2Z.id.
  unfold LPP_MIN_POLYLINE_SIZE. destruct (Nat.ltb_spec (S (length body)) 8); [lia|].
  rewrite !length_app in Hl. cbn [length] in Hl.
  rewrite checked_add_small by lia. cbn [ok_or mbind outcome_bind].
  destruct (Nat.ltb_spec (length (pre ++ Z.of_nat (S (length body)) :: body ++ rest))
              (length pre + S (length body))) as [Hx|];
    [rewrite length_app in Hx; cbn [length] in Hx; rewrite length_app in Hx; lia|].
  rewrite app_comm_cons, slice_at by (done || cbn [length]; lia). done.
Qed.

(** The head of a record: its channel and its kind. *)
Lemma telemetry_step fuel pre channel kind rest readings :
  channel ≠ 0%Z → length pre ≤ 176 →
  let payload := pre ++ [channel; LppTelemetryKind_code kind] ++ rest in
  telemetry_loop (S fuel) payload (length pre) readings =
  if bool_decide (kind = LppTelemetryKind_Polyline) then
    '(raw, cursor) ← polyline_record payload (length pre + 2);
    telemetry_loop fuel payload cursor (readings ++ [mkTelemetrySample channel kind [] (Some raw)])
  else
    '(values, cursor) ← decode_values payload (length pre + 2) kind (kind_count kind) "telemetry";
    telemetry_loop fuel payload cursor (readings ++ [mkTelemetrySample channel kind values None]).
Proof.
  intros Hc Hl payload. cbn [telemetry_loop].
  destruct (Nat.ltb_spec (length pre) (length payload)) as [_|Hx];
    [|unfold payload in Hx; rewrite length_app in Hx; cbn in Hx; lia].
  cbn [negb]. assert (payload !! length pre = Some channel) as -> by (by apply lookup_at).
  cbn [ok_or mbind outcome_bind]. rewrite (sat_add_small (length pre) 1) by lia.
  destruct (Z.eqb_spec channel 0); [done|].
  assert (payload !! (length pre + 1) = Some (LppTelemetryKind_code kind)) as ->.
  { unfold payload. rewrite lookup_app_r by lia. by replace (length pre + 1 - length pre) with 1 by lia. }
  cbn [ok_or mbind outcome_bind]. rewrite from_code_code. cbn [ok_or mbind outcome_bind].
  rewrite sat_add_small by lia. by replace (length pre + 1 + 1) with (length pre + 2) by lia.
Qed.

Lemma telemetry_padding pad fuel pre readings :
  let payload := pre ++ replicate pad 0%Z in
  length payload ≤ 176 → length payload - length pre ≤ fuel →
  telemetry_loop fuel payload (length pre) readings = Ok readings.
Proof.
  intros payload Hl Hf. subst payload.
  destruct pad as [|pad].
  { rewrite app_nil_r. destruct fuel; cbn [telemetry_loop];
      (destruct (Nat.ltb_spec (length pre) (length pre)); [lia|done]). }
  rewrite length_app in *. cbn [replicate length] in *. destruct fuel as [|fuel]; [lia|].
  cbn [telemetry_loop]. rewrite length_app. cbn [length].
  destruct (Nat.ltb_spec (length pre) (length pre + S (length (replicate pad 0%Z)))); [|lia].
  cbn [negb]. rewrite (lookup_at pre 0%Z _ (length pre)) by done. cbn [ok_or mbind outcome_bind Z.eqb].
  rewrite sat_add_small by lia. unfold slice_from. rewrite slice_ok by (rewrite length_app; cbn [length]; lia).
  cbn [mbind outcome_bind]. rewrite Nat.add_1_r, drop_app_ge, Nat.sub_succ_l, Nat.sub_diag by lia.
  cbn [drop]. rewrite drop_0, take_ge by (rewrite ?length_app; cbn [length]; lia).
  assert (∀ n, forallb (λ b, (b =? 0)%Z) (replicate n 0%Z) = true) as -> by (by induction n). done.
Qed.

Lemma telemetry_loop_at records pad :
  Forall record_ok records →
  ∀ fuel pre readings,
  let payload := pre ++ concat (record_bytes <$> records) ++ replicate pad 0%Z in
  length payload ≤ 176 → length payload - length pre ≤ fuel →
  telemetry_loop fuel payload (length pre) readings = Ok (readings ++ (sample_of <$> records)).
Proof.
  intros Hrs. induction Hrs as [|r rs Hr Hrs IH]; intros fuel pre readings payload Hl Hf.
  - cbn [fmap list_fmap concat app] in payload. rewrite app_nil_r. by apply telemetry_padding.
  - assert (payload = (pre ++ record_bytes r) ++ concat (record_bytes <$> rs) ++ replicate pad 0%Z) as Hpl
      by (unfold payload; cbn [fmap list_fmap concat]; by rewrite <- !app_assoc).
    specialize (IH (pred fuel) (pre ++ record_bytes r) (readings ++ [sample_of r])).
    rewrite <- Hpl in IH. cbv zeta in IH. rewrite length_app, <- app_assoc in IH.
    assert (length payload = length pre + length (record_bytes r) +
              length (concat (record_bytes <$> rs) ++ replicate pad 0%Z)) as Hll
      by (rewrite Hpl, !length_app; lia).
    assert (2 ≤ length (record_bytes r)) as H2 by (destruct r; cbn; lia).
    destruct fuel as [|fuel]; [lia|]. cbn [pred] in IH.
    change (sample_of <$> r :: rs) with ([sample_of r] ++ (sample_of <$> rs)).
    rewrite <- IH by lia. clear IH. assert (length pre ≤ 176) as Hp by lia. rewrite Hpl in Hl |- *.
    set (rest := concat _ ++ _). fold rest in Hl. rewrite <- app_assoc in Hl |- *.
    destruct r as [channel kind fields|channel body]; cbn [record_bytes sample_of] in *.
    + destruct Hr as (Hc&Hk&Hn&Hfs&Hfin). rewrite <- (app_assoc _ (concat fields)) in Hl |- *.
      rewrite telemetry_step by (done || lia). rewrite bool_decide_false by done.
      rewrite (app_assoc pre [channel; _]) in Hl |- *.
      replace (length pre + 2) with (length (pre ++ [channel; LppTelemetryKind_code kind]))
        by (rewrite length_app; done).
      rewrite decode_values_at by done. cbn [mbind outcome_bind]. rewrite !length_app. cbn [length].
      by rewrite Nat.add_assoc.
    + destruct Hr as [Hc Hb]. rewrite <- (app_assoc _ (_ :: body)) in Hl |- *.
      rewrite telemetry_step by (done || lia). rewrite bool_decide_true by done.
      rewrite (app_assoc pre [channel; _]) in Hl |- *.
      replace (length pre + 2) with (length (pre ++ [channel; LppTelemetryKind_code LppTelemetryKind_Polyline]))
        by (rewrite length_app; done).
      rewrite polyline_at by done. cbn [mbind outcome_bind]. rewrite !length_app. cbn [length].
      by rewrite Nat.add_assoc.
Qed.

(** a telemetry reply, its records in any order and any number of zero bytes
    after them, is parsed to exactly those records: every component is the
    big-endian integer of its field, signed where its kind is, divided by the
    kind's multiplier; a polyline keeps its bytes. *)
Theorem telemetry_roundtrip records pad :
  Forall record_ok records →
  length (concat (record_bytes <$> records) ++ replicate pad 0%Z) ≤ 176 →
  parse_telemetry_payload (concat (record_bytes <$> records) ++ replicate pad 0%Z)
  = Ok (sample_of <$> records).
Proof.
  intros Hr Hl. set (payload := _ ++ _) in *.
  unfold parse_telemetry_payload, check_max_len, MAX_REMOTE_PAYLOAD_LEN, MAX_INNER_PAYLOAD.
  destruct (Nat.ltb_spec 176 (length payload)); [lia|]. cbn [mbind outcome_bind].
  pose proof (telemetry_loop_at records pad Hr (length payload) [] []) as Ht.
  cbv zeta in Ht. cbn [app length] in Ht. fold payload in Ht.
  case_bool_decide as He; [|by apply Ht; [|lia]].
  rewrite <- Ht by lia. by rewrite He.
Qed.

Definition sample_records : list record :=
  [Reading 1 LppTelemetryKind_Temperature [[0; 250]%Z];
   Reading 2 LppTelemetryKind_Gps [[7; 161; 32]%Z; [255; 0; 1]%Z; [0; 39; 16]%Z];
   Line 3 [1; 2; 3; 4; 5; 6; 7]%Z].

Lemma telemetry_roundtrip_witness :
  parse_telemetry_payload (concat (record_bytes <$> sample_records) ++ replicate 3 0%Z)
  = Ok (sample_of <$> sample_records).
Proof.
  apply (telemetry_roundtrip sample_records 3).
  - repeat constructor; cbn; unfold is_u8; done || lia.
  - cbn. lia.
Defined.
