(* ===== verification/Hooks.v ===== *)
(** * Hooks: configuration, protocol and results
    (crates/meshquill-hooks/src/{error,protocol,runtime}.rs)

    The data of the hook crate, the validation of its settings, the bounded
    writer and readers of the runner protocol, and what is made of a reply. *)

From S2P Require Import Prelude Text Domain.

Definition byte_count (s : bytes) : Z := Z.of_nat (length s).

(** ** Events *)

Inductive HookEventKind :=
| OnConnect | OnDisconnect | OnMessage | BeforeSend | AfterSend | OnAck | OnTimeout
| OnContactUpdate | OnError.
#[global] Instance HookEventKind_eq_dec : EqDecision HookEventKind.
Proof. solve_decision. Defined.

Definition handler_name (kind : HookEventKind) : string :=
  match kind with
  | OnConnect => "on_connect"
  | OnDisconnect => "on_disconnect"
  | OnMessage => "on_message"
  | BeforeSend => "before_send"
  | AfterSend => "after_send"
  | OnAck => "on_ack"
  | OnTimeout => "on_timeout"
  | OnContactUpdate => "on_contact_update"
  | OnError => "on_error"
  end.

Record OnConnectPayload := mkOnConnect { OnConnect_transport : rstring; OnConnect_peer : option rstring }.
Record OnDisconnectPayload := mkOnDisconnect {
  OnDisconnect_transport : rstring;
  OnDisconnect_reason : option rstring
}.
Record OnMessagePayload := mkOnMessage {
  OnMessage_source : rstring;
  OnMessage_text : rstring;
  OnMessage_message_id : option rstring
}.
Record BeforeSendInput := mkBeforeSend { BeforeSend_destination : rstring; BeforeSend_text : rstring }.
Record AfterSendPayload := mkAfterSend {
  AfterSend_destination : rstring;
  AfterSend_text : rstring;
  AfterSend_message_id : option rstring
}.
Record OnAckPayload := mkOnAck {
  OnAck_message_id : rstring;
  OnAck_source : option rstring;
  OnAck_round_trip_ms : option u64
}.
Record OnTimeoutPayload := mkOnTimeout {
  OnTimeout_operation : rstring;
  OnTimeout_message_id : option rstring
}.
Inductive ContactChange := Change_Added | Change_Updated | Change_Removed.
Record OnContactUpdatePayload := mkOnContactUpdate {
  OnContactUpdate_contact_id : rstring;
  OnContactUpdate_display_name : option rstring;
  OnContactUpdate_change : ContactChange
}.
Record OnErrorPayload := mkOnError { OnError_operation : rstring; OnError_message : rstring }.

Inductive HookEvent :=
| HookEvent_OnConnect (payload : OnConnectPayload)
| HookEvent_OnDisconnect (payload : OnDisconnectPayload)
| HookEvent_OnMessage (payload : OnMessagePayload)
| HookEvent_BeforeSend (payload : BeforeSendInput)
| HookEvent_AfterSend (payload : AfterSendPayload)
| HookEvent_OnAck (payload : OnAckPayload)
| HookEvent_OnTimeout (payload : OnTimeoutPayload)
| HookEvent_OnContactUpdate (payload : OnContactUpdatePayload)
| HookEvent_OnError (payload : OnErrorPayload).

Definition HookEvent_kind (event : HookEvent) : HookEventKind :=
  match event with
  | HookEvent_OnConnect _ => OnConnect
  | HookEvent_OnDisconnect _ => OnDisconnect
  | HookEvent_OnMessage _ => OnMessage
  | HookEvent_BeforeSend _ => BeforeSend
  | HookEvent_AfterSend _ => AfterSend
  | HookEvent_OnAck _ => OnAck
  | HookEvent_OnTimeout _ => OnTimeout
  | HookEvent_OnContactUpdate _ => OnContactUpdate
  | HookEvent_OnError _ => OnError
  end.

Inductive BeforeSendOutcome :=
| Outcome_Allow
| Outcome_Modify (destination text : rstring)
| Outcome_Reject (reason : rstring).

(** ** Errors *)

Inductive HookErrorCategory :=
| Category_Configuration | Category_Timeout | Category_Rejected | Category_Process
| Category_Protocol.

Inductive ValidationIssue :=
| Issue_LoadFailed
| Issue_NoHandlers
| Issue_HandlerNotCallable (handler : HookEventKind)
| Issue_InvalidSignature (handler : HookEventKind).

Inductive ConfigurationError :=
| Configuration_InvalidLimit (field : string)
| Configuration_InvalidConcurrency
| Configuration_NonUtf8ScriptPath
| Configuration_InvalidEnvironmentName
| Configuration_ScriptNotFound
| Configuration_ScriptMetadata (kind : IoErrorKind)
| Configuration_ScriptNotRegularFile
| Configuration_ScriptTooLarge (actual maximum : Z)
| Configuration_Validation (issue : ValidationIssue)
| Configuration_BeforeSendRequiresDedicatedMethod.

Inductive StreamKind := Stdin | Stdout | Stderr.

Inductive ProcessError :=
| Process_Spawn (kind : IoErrorKind)
| Process_MissingPipe (stream : StreamKind)
| Process_StreamIo (stream : StreamKind) (kind : IoErrorKind)
| Process_StreamTask (stream : StreamKind)
| Process_CoordinatorStopped
| Process_Wait (kind : IoErrorKind)
| Process_UnsuccessfulExit (code : option Z) (stderr_bytes : Z).

Inductive ModificationField := Field_Destination | Field_Text | Field_RejectionReason.
Inductive ModificationIssue := Modification_Empty | Modification_TooLarge | Modification_ContainsNul.

Inductive ProtocolError :=
| Protocol_InputTooLarge (observed_at_least maximum : Z)
| Protocol_OutputTooLarge (stream : StreamKind) (maximum : Z)
| Protocol_RequestEncoding
| Protocol_MalformedOutput
| Protocol_SchemaMismatch
| Protocol_UnexpectedResponse
| Protocol_HandlerFailed
| Protocol_RunnerRejected
| Protocol_InvalidModification (field : ModificationField) (issue : ModificationIssue).

Inductive HookError :=
| HookError_Configuration (error : ConfigurationError)
| HookError_Timeout (timeout : Z)
| HookError_Rejected (reason : rstring)
| HookError_Process (error : ProcessError)
| HookError_Protocol (error : ProtocolError).

Definition HookError_category (error : HookError) : HookErrorCategory :=
  match error with
  | HookError_Configuration _ => Category_Configuration
  | HookError_Timeout _ => Category_Timeout
  | HookError_Rejected _ => Category_Rejected
  | HookError_Process _ => Category_Process
  | HookError_Protocol _ => Category_Protocol
  end.

Definition require_allowed (outcome_ : BeforeSendOutcome) : outcome HookError BeforeSendOutcome :=
  match outcome_ with
  | Outcome_Reject reason => Err (HookError_Rejected reason)
  | allowed => Ok allowed
  end.

(** The [Display] of the errors; a kind is printed by its [Debug] name. *)
Definition debug_IoErrorKind (kind : IoErrorKind) : string :=
  match kind with
  | ConnectionAborted => "ConnectionAborted" | ConnectionReset => "ConnectionReset"
  | BrokenPipe => "BrokenPipe" | NotConnected => "NotConnected" | UnexpectedEof => "UnexpectedEof"
  | InvalidData => "InvalidData" | TimedOut => "TimedOut" | AlreadyExists => "AlreadyExists"
  | WouldBlock => "WouldBlock" | NotFound => "NotFound" | InvalidInput => "InvalidInput"
  | Unsupported => "Unsupported" | OtherKind => "Other"
  end.

Definition display_ValidationIssue (issue : ValidationIssue) : string :=
  match issue with
  | Issue_LoadFailed => "hook script could not be loaded"
  | Issue_NoHandlers => "hook script defines no supported handlers"
  | Issue_HandlerNotCallable handler => "hook handler " +:+ handler_name handler +:+ " is not callable"
  | Issue_InvalidSignature handler =>
      "hook handler " +:+ handler_name handler +:+ " must accept exactly one positional argument"
  end.

Definition display_ConfigurationError (error : ConfigurationError) : string :=
  match error with
  | Configuration_InvalidLimit field => "invalid hook configuration limit: " +:+ field
  | Configuration_InvalidConcurrency => "invalid hook max_concurrency value"
  | Configuration_NonUtf8ScriptPath => "hook script path must be valid UTF-8"
  | Configuration_InvalidEnvironmentName =>
      "hook environment allow-list contains an invalid variable name"
  | Configuration_ScriptNotFound => "hook script does not exist"
  | Configuration_ScriptMetadata kind =>
      "could not read hook script metadata (" +:+ debug_IoErrorKind kind +:+ ")"
  | Configuration_ScriptNotRegularFile => "hook script path is not a regular file"
  | Configuration_ScriptTooLarge actual maximum =>
      "hook script is " +:+ pretty actual +:+ " bytes; maximum is " +:+ pretty maximum +:+ " bytes"
  | Configuration_Validation issue => display_ValidationIssue issue
  | Configuration_BeforeSendRequiresDedicatedMethod =>
      "before_send must be invoked through HookRuntime::before_send"
  end.

(** ** Settings *)

Inductive FailurePolicy := Policy_Open | Policy_Closed.
#[global] Instance FailurePolicy_eq_dec : EqDecision FailurePolicy.
Proof. solve_decision. Defined.

(** A [BTreeSet] of names is a [gset]; its order is only used to list it. *)
Inductive EnvironmentPolicy :=
| Environment_Clear
| Environment_SafeInherited
| Environment_AllowList (names : gset string).

Definition SAFE_ENVIRONMENT : list string :=
  ["PATH"; "LANG"; "LC_ALL"; "LC_CTYPE"; "TZ"; "TMPDIR"; "SYSTEMROOT"; "WINDIR"].

Definition inherited_environment_names (policy : EnvironmentPolicy) : list string :=
  match policy with
  | Environment_Clear => []
  | Environment_SafeInherited => SAFE_ENVIRONMENT
  | Environment_AllowList names => elements names
  end.

(** Durations are nanoseconds. *)
Definition DEFAULT_TIMEOUT : Z := 5 * 1000000000.
Definition DEFAULT_MAX_SCRIPT_BYTES : Z := 1024 * 1024.
Definition DEFAULT_MAX_INPUT_BYTES : Z := 1024 * 1024.
Definition DEFAULT_MAX_OUTPUT_BYTES : Z := 64 * 1024.
Definition DEFAULT_MAX_STDERR_BYTES : Z := 64 * 1024.
Definition DEFAULT_MAX_DESTINATION_BYTES : Z := 4 * 1024.
Definition DEFAULT_MAX_TEXT_BYTES : Z := 64 * 1024.
Definition DEFAULT_MAX_REJECTION_REASON_BYTES : Z := 4 * 1024.
Definition DEFAULT_MAX_CONCURRENCY : Z := 4.
Definition HARD_MAX_BYTES : Z := 64 * 1024 * 1024.
Definition HARD_MAX_CONCURRENCY : Z := 1024.
Definition MAX_OPERATION_TIMEOUT : Z := 24 * 60 * 60 * 1000000000.

Record HookConfig := mkHookConfig {
  HookConfig_python_executable : string;
  HookConfig_script : string;
  HookConfig_timeout : Z;
  HookConfig_max_script_bytes : Z;
  HookConfig_max_input_bytes : Z;
  HookConfig_max_output_bytes : Z;
  HookConfig_max_stderr_bytes : Z;
  HookConfig_max_concurrency : Z;
  HookConfig_max_destination_bytes : Z;
  HookConfig_max_text_bytes : Z;
  HookConfig_max_rejection_reason_bytes : Z;
  HookConfig_environment : EnvironmentPolicy;
  HookConfig_observational_failure : FailurePolicy;
  HookConfig_before_send_failure : FailurePolicy
}.

Definition HookConfig_new (script : string) : HookConfig :=
  mkHookConfig "python3" script DEFAULT_TIMEOUT DEFAULT_MAX_SCRIPT_BYTES DEFAULT_MAX_INPUT_BYTES
    DEFAULT_MAX_OUTPUT_BYTES DEFAULT_MAX_STDERR_BYTES DEFAULT_MAX_CONCURRENCY
    DEFAULT_MAX_DESTINATION_BYTES DEFAULT_MAX_TEXT_BYTES DEFAULT_MAX_REJECTION_REASON_BYTES
    Environment_SafeInherited Policy_Open Policy_Closed.

Definition validate_byte_limit (field : string) (value : Z) : outcome ConfigurationError () :=
  if (value =? 0)%Z || (HARD_MAX_BYTES <? value)%Z then Err (Configuration_InvalidLimit field)
  else Ok ().

(** [Path::to_str]. *)
Definition to_str (path : string) : option rstring := from_utf8 (str_bytes path).

Definition environment_name_invalid (name : string) : bool :=
  bool_decide (name = "") || contains [0x3d]%Z (str_bytes name) || contains [0]%Z (str_bytes name).

Definition validate_config (config : HookConfig) : outcome ConfigurationError () :=
  if bool_decide (to_str (HookConfig_script config) = None) then Err Configuration_NonUtf8ScriptPath
  else
  _ ← validate_byte_limit "max_script_bytes" (HookConfig_max_script_bytes config);
  _ ← validate_byte_limit "max_input_bytes" (HookConfig_max_input_bytes config);
  _ ← validate_byte_limit "max_output_bytes" (HookConfig_max_output_bytes config);
  _ ← validate_byte_limit "max_stderr_bytes" (HookConfig_max_stderr_bytes config);
  _ ← validate_byte_limit "max_destination_bytes" (HookConfig_max_destination_bytes config);
  _ ← validate_byte_limit "max_text_bytes" (HookConfig_max_text_bytes config);
  _ ← validate_byte_limit "max_rejection_reason_bytes" (HookConfig_max_rejection_reason_bytes config);
  if (HookConfig_timeout config =? 0)%Z || (MAX_OPERATION_TIMEOUT <? HookConfig_timeout config)%Z then
    Err (Configuration_InvalidLimit "timeout")
  else if (HookConfig_max_concurrency config =? 0)%Z
          || (HARD_MAX_CONCURRENCY <? HookConfig_max_concurrency config)%Z then
    Err Configuration_InvalidConcurrency
  else
    match HookConfig_environment config with
    | Environment_AllowList names =>
        if existsb environment_name_invalid (elements names) then
          Err Configuration_InvalidEnvironmentName
        else Ok ()
    | _ => Ok ()
    end.

Definition validate_modified_string (value : rstring) (field : ModificationField) (maximum : Z)
    (require_nonempty : bool) : outcome HookError () :=
  let refuse issue := Err (HookError_Protocol (Protocol_InvalidModification field issue)) in
  if (maximum <? byte_count value)%Z then refuse Modification_TooLarge
  else if require_nonempty && trim_is_empty value then refuse Modification_Empty
  else if contains [0]%Z value then refuse Modification_ContainsNul
  else Ok ().

(** ** The runner protocol *)

Definition PROTOCOL_SCHEMA : rstring := str_bytes "meshquill.hook/v1".

Record HookEnvelope := mkHookEnvelope {
  HookEnvelope_schema : rstring;
  HookEnvelope_event_id : string;
  HookEnvelope_timestamp : u64;
  HookEnvelope_event : HookEventKind;
  HookEnvelope_payload : HookEvent
}.

(** [ValidateRequest] and [InvokeRequest], with their operation. *)
Inductive RunnerRequest :=
| Request_Validate (schema script : rstring)
| Request_Invoke (schema script : rstring) (envelope : HookEnvelope).

Inductive RunnerFaultKind :=
| Fault_LoadError | Fault_NoHandlers | Fault_NotCallable | Fault_InvalidSignature
| Fault_HookException | Fault_InvalidResult | Fault_InvalidRequest | Fault_InternalError
| Fault_Unknown.
Record RunnerFault := mkRunnerFault {
  RunnerFault_kind : RunnerFaultKind;
  RunnerFault_handler : option HookEventKind
}.

Inductive RawBeforeSendResult :=
| Raw_Allow
| Raw_Modify (destination text : option rstring)
| Raw_Reject (reason : rstring).

Inductive RunnerResponseBody :=
| Response_Validated (handlers : list HookEventKind)
| Response_Invoked (result : option RawBeforeSendResult)
| Response_Missing
| Response_Error (error : RunnerFault).
Record RunnerResponse := mkRunnerResponse {
  RunnerResponse_schema : rstring;
  RunnerResponse_body : RunnerResponseBody
}.

(** [serde_json]: the pieces a request is written in and whether the writer is
    satisfied with it, and the reader of replies. *)
Class HookJson := {
  request_pieces : RunnerRequest → list bytes * bool;
  response_from_slice : bytes → option RunnerResponse
}.

Definition map_runner_error (error : RunnerFault) (validation : bool) : HookError :=
  let issue i := HookError_Configuration (Configuration_Validation i) in
  match RunnerFault_kind error with
  | Fault_LoadError => issue Issue_LoadFailed
  | Fault_NoHandlers => issue Issue_NoHandlers
  | Fault_NotCallable =>
      match RunnerFault_handler error with
      | Some handler => issue (Issue_HandlerNotCallable handler)
      | None => HookError_Protocol Protocol_UnexpectedResponse
      end
  | Fault_InvalidSignature =>
      match RunnerFault_handler error with
      | Some handler => issue (Issue_InvalidSignature handler)
      | None => HookError_Protocol Protocol_UnexpectedResponse
      end
  | Fault_HookException =>
      if validation then HookError_Protocol Protocol_RunnerRejected
      else HookError_Protocol Protocol_HandlerFailed
  | Fault_InvalidResult | Fault_InvalidRequest | Fault_InternalError | Fault_Unknown =>
      HookError_Protocol Protocol_RunnerRejected
  end.

(** ** The bounded writer *)

Record BoundedJsonWriter := mkWriter {
  Writer_bytes : bytes;
  Writer_maximum : Z;
  Writer_observed_at_least : Z;
  Writer_exceeded : bool
}.
Definition BoundedJsonWriter_new (maximum : Z) : BoundedJsonWriter := mkWriter [] maximum 0 false.

(** [Write::write]; [false] is the error. *)
Definition Writer_write (self : BoundedJsonWriter) (buffer : bytes) : bool * BoundedJsonWriter :=
  let attempted := (byte_count (Writer_bytes self) + byte_count buffer)%Z in
  let observed := Z.max (Writer_observed_at_least self) attempted in
  if (Writer_maximum self <? attempted)%Z then
    (false, mkWriter (Writer_bytes self) (Writer_maximum self) observed true)
  else (true, mkWriter (Writer_bytes self ++ buffer) (Writer_maximum self) observed (Writer_exceeded self)).

(** The pieces one after the other, up to the first error; nothing is written for
    an empty piece. *)
Fixpoint write_pieces (self : BoundedJsonWriter) (pieces : list bytes) : bool * BoundedJsonWriter :=
  match pieces with
  | [] => (true, self)
  | [] :: pieces => write_pieces self pieces
  | piece :: pieces =>
      let '(ok, self) := Writer_write self piece in
      if ok then write_pieces self pieces else (false, self)
  end.

Definition encode_request `{HookJson} (request : RunnerRequest) (maximum : Z) : outcome HookError bytes :=
  let '(pieces, satisfied) := request_pieces request in
  let '(ok, writer) := write_pieces (BoundedJsonWriter_new maximum) pieces in
  if ok && satisfied then Ok (Writer_bytes writer)
  else if Writer_exceeded writer then
    Err (HookError_Protocol (Protocol_InputTooLarge (Writer_observed_at_least writer) maximum))
  else Err (HookError_Protocol Protocol_RequestEncoding).

(** ** The bounded readers *)

(** [io::Result], the error reduced to its kind. *)
Notation io_result A := (A + IoErrorKind)%type.

(** What a pipe delivers: bytes, then its end or an error. *)
Record pipe := mkPipe { Pipe_bytes : bytes; Pipe_error : option IoErrorKind }.

Inductive BoundedRead := Read_Complete (contents : bytes) | Read_LimitExceeded.

(** [read_bounded]: [take(maximum + 1)] stops before a later error is seen. *)
Definition read_bounded (reader : pipe) (maximum : Z) : io_result BoundedRead :=
  if (maximum <? byte_count (Pipe_bytes reader))%Z then inl Read_LimitExceeded
  else
    match Pipe_error reader with
    | Some kind => inr kind
    | None => inl (Read_Complete (Pipe_bytes reader))
    end.

(** What a reader task ends with; [None] is a task that stopped. *)
Definition unpack_reader (result : option (io_result BoundedRead)) (stream : StreamKind) :
    BoundedRead + HookError :=
  match result with
  | Some (inl read) => inl read
  | Some (inr kind) => inr (HookError_Process (Process_StreamIo stream kind))
  | None => inr (HookError_Process (Process_StreamTask stream))
  end.

(** An exit status: its code; success is the code 0. *)
Definition finish_communication (stdout_bytes stderr_bytes : option bytes)
    (exit_status : option (option Z)) : outcome HookError bytes :=
  stdout ← ok_or stdout_bytes (HookError_Process (Process_StreamTask Stdout));
  stderr ← ok_or stderr_bytes (HookError_Process (Process_StreamTask Stderr));
  status ← ok_or exit_status (HookError_Process Process_CoordinatorStopped);
  if negb (bool_decide (status = Some 0%Z)) then
    Err (HookError_Process (Process_UnsuccessfulExit status (byte_count stderr)))
  else Ok stdout.
