(* ===== verification/HookRuntime.v ===== *)
(** * Hooks: the runtime (crates/meshquill-hooks/src/runtime.rs)

    One request to the script is one subprocess.  What the operating system does
    in the course of a request is the record [os_run]; what the runtime does to
    the subprocess and to its concurrency permit is a log of [effect]s.  Requests
    of one runtime run concurrently: [hook_step] interleaves their effects, the
    permits being the only thing they share, and drops requests anywhere. *)

From S2P Require Import Prelude Text Domain Hooks.

(** ** What happens outside and what the runtime does *)

(** An awaited call under [timeout_at]: its result, or the deadline. *)
Inductive timed (A : Type) := Completed (a : A) | DeadlinePassed.
Arguments Completed {A} a.
Arguments DeadlinePassed {A}.

(** What the loop of [communicate] can wake up for; a reader that ended
    abnormally delivers [None]. *)
Inductive arrival :=
| Arrival_Stdout (result : option pipe)
| Arrival_Stderr (result : option pipe)
| Arrival_Exit (status : io_result (option Z))
| Arrival_Deadline.

(** One request as the operating system sees it: whether the deadline can be
    represented, the metadata of the script (regular file, size), the permit,
    the spawn, which pipes there are, the write of the request, the arrivals
    until the loop of [communicate] ends, and at each of the five comparisons
    with the clock whether the deadline has passed. *)
Record os_run := mkOsRun {
  Os_deadline : bool;
  Os_metadata : timed (io_result (bool * Z));
  Os_late_encoded : bool;
  Os_permit : timed bool;
  Os_late_permit : bool;
  Os_spawn : io_result ();
  Os_late_spawned : bool;
  Os_stdin : bool;
  Os_stdout : bool;
  Os_stderr : bool;
  Os_write : timed (io_result ());
  Os_arrivals : list arrival;
  Os_late_output : bool;
  Os_late_parsed : bool
}.

(** A subprocess is started with [kill_on_drop] or without it. *)
Inductive effect :=
| Effect_Acquire
| Effect_Spawn (python : string) (environment : gmap string string) (kill_on_drop : bool)
| Effect_Kill
| Effect_Wait
| Effect_Exited
| Effect_Release.

(** ** The subprocess *)

Section Runtime.
Context `{HookJson}.

Definition fixed_environment : list (string * string) :=
  [("PYTHONIOENCODING", "utf-8"); ("PYTHONUTF8", "1"); ("PYTHONDONTWRITEBYTECODE", "1")].

(** [env_clear], then the inherited variables that are set, then the fixed
    ones. *)
Definition child_environment (policy : EnvironmentPolicy) (parent : gmap string string) :
    gmap string string :=
  let inherited := foldl (λ env name,
    match parent !! name with Some value => <[name := value]> env | None => env end)
    ∅ (inherited_environment_names policy) in
  foldl (λ env kv, <[kv.1 := kv.2]> env) inherited fixed_environment.

(** [terminate_unconnected], and [ReaderTasks::terminate] as far as the child is
    concerned. *)
Definition terminate : list effect := [Effect_Kill; Effect_Wait].

Definition timeout_error (config : HookConfig) : HookError := HookError_Timeout (HookConfig_timeout config).

(** [start_communication]: the pipes, then the request. *)
Definition start_communication (config : HookConfig) (os : os_run) :
    outcome HookError () * list effect :=
  if negb (Os_stdin os) then (Err (HookError_Process (Process_MissingPipe Stdin)), terminate)
  else if negb (Os_stdout os) then (Err (HookError_Process (Process_MissingPipe Stdout)), terminate)
  else if negb (Os_stderr os) then (Err (HookError_Process (Process_MissingPipe Stderr)), terminate)
  else
    match Os_write os with
    | DeadlinePassed => (Err (timeout_error config), terminate)
    | Completed (inr kind) => (Err (HookError_Process (Process_StreamIo Stdin kind)), terminate)
    | Completed (inl _) => (Ok (), [])
    end.

(** The state of the loop of [communicate]. *)
Record progress := mkProgress {
  Progress_stdout : option bytes;
  Progress_stderr : option bytes;
  Progress_exit : option (option Z)
}.

Definition complete (p : progress) : bool :=
  bool_decide (is_Some (Progress_stdout p)) && bool_decide (is_Some (Progress_stderr p))
  && bool_decide (is_Some (Progress_exit p)).

Definition bounded (maximum : Z) (result : option pipe) : option (io_result BoundedRead) :=
  (λ reader, read_bounded reader maximum) <$> result.

(** One turn of the loop; [inr] leaves it.  An arrival that was already taken is
    not waited for. *)
Definition communicate_turn (config : HookConfig) (p : progress) (a : arrival) :
    (progress * list effect) + (HookError * list effect) :=
  match a with
  | Arrival_Stdout result =>
      if Progress_stdout p then inl (p, []) else
      match unpack_reader (bounded (HookConfig_max_output_bytes config) result) Stdout with
      | inl (Read_Complete contents) =>
          inl (mkProgress (Some contents) (Progress_stderr p) (Progress_exit p), [])
      | inl Read_LimitExceeded =>
          inr (HookError_Protocol (Protocol_OutputTooLarge Stdout (HookConfig_max_output_bytes config)),
               terminate)
      | inr error => inr (error, terminate)
      end
  | Arrival_Stderr result =>
      if Progress_stderr p then inl (p, []) else
      match unpack_reader (bounded (HookConfig_max_stderr_bytes config) result) Stderr with
      | inl (Read_Complete contents) =>
          inl (mkProgress (Progress_stdout p) (Some contents) (Progress_exit p), [])
      | inl Read_LimitExceeded =>
          inr (HookError_Protocol (Protocol_OutputTooLarge Stderr (HookConfig_max_stderr_bytes config)),
               terminate)
      | inr error => inr (error, terminate)
      end
  | Arrival_Exit status =>
      if Progress_exit p then inl (p, []) else
      match status with
      | inl status => inl (mkProgress (Progress_stdout p) (Progress_stderr p) (Some status), [Effect_Exited])
      | inr kind => inr (HookError_Process (Process_Wait kind), terminate)
      end
  | Arrival_Deadline => inr (timeout_error config, terminate)
  end.

(** The loop of [communicate]; when nothing arrives any more, the deadline
    does. *)
Fixpoint communicate_loop (config : HookConfig) (p : progress) (arrivals : list arrival) :
    outcome HookError bytes * list effect :=
  match arrivals with
  | [] => (Err (timeout_error config), terminate)
  | a :: arrivals =>
      match communicate_turn config p a with
      | inr (error, log) => (Err error, log)
      | inl (p, log) =>
          if complete p then
            (finish_communication (Progress_stdout p) (Progress_stderr p) (Progress_exit p), log)
          else
            let '(r, log') := communicate_loop config p arrivals in (r, log ++ log')
      end
  end.

Definition communicate (config : HookConfig) (os : os_run) : outcome HookError bytes * list effect :=
  match start_communication config os with
  | (Ok _, log) =>
      let '(r, log') := communicate_loop config (mkProgress None None None) (Os_arrivals os) in
      (r, log ++ log')
  | (Err error, log) => (Err error, log)
  | (Panic, log) => (Panic, log)
  end.

(** ** A request *)

Definition validate_script_file (config : HookConfig) (metadata : io_result (bool * Z)) :
    outcome HookError () :=
  match metadata with
  | inl (is_file, len) =>
      if negb is_file then Err (HookError_Configuration Configuration_ScriptNotRegularFile)
      else if (HookConfig_max_script_bytes config <? len)%Z then
        Err (HookError_Configuration (Configuration_ScriptTooLarge len (HookConfig_max_script_bytes config)))
      else Ok ()
  | inr NotFound => Err (HookError_Configuration Configuration_ScriptNotFound)
  | inr kind => Err (HookError_Configuration (Configuration_ScriptMetadata kind))
  end.

(** [run_request] from the spawn on, with the permit held. *)
Definition run_child (config : HookConfig) (parent : gmap string string) (os : os_run) :
    outcome HookError bytes * list effect :=
  match Os_spawn os with
  | inr kind => (Err (HookError_Process (Process_Spawn kind)), [])
  | inl _ =>
      let spawn := Effect_Spawn (HookConfig_python_executable config)
                     (child_environment (HookConfig_environment config) parent) true in
      if Os_late_spawned os then (Err (timeout_error config), spawn :: terminate)
      else let '(r, log) := communicate config os in (r, spawn :: log)
  end.

(** The reply, between the comparisons with the clock. *)
Definition read_response (config : HookConfig) (os : os_run) (output : bytes) :
    outcome HookError RunnerResponse :=
  if Os_late_output os then Err (timeout_error config) else
  response ← ok_or (response_from_slice output) (HookError_Protocol Protocol_MalformedOutput);
  if Os_late_parsed os then Err (timeout_error config)
  else if negb (bool_decide (RunnerResponse_schema response = PROTOCOL_SCHEMA)) then
    Err (HookError_Protocol Protocol_SchemaMismatch)
  else Ok response.

(** What [run_request] checks before it asks for a permit. *)
Definition prepare_request (config : HookConfig) (os : os_run) (request : RunnerRequest) :
    outcome HookError bytes :=
  _ ← ensure (Os_deadline os) (HookError_Configuration (Configuration_InvalidLimit "timeout"));
  _ ← match Os_metadata os with
      | Completed metadata => validate_script_file config metadata
      | DeadlinePassed => Err (timeout_error config)
      end;
  input ← encode_request request (HookConfig_max_input_bytes config);
  if Os_late_encoded os then Err (timeout_error config) else Ok input.

(** [run_request]; the permit is released when it returns. *)
Definition run_request (config : HookConfig) (parent : gmap string string) (os : os_run)
    (request : RunnerRequest) : outcome HookError RunnerResponse * list effect :=
  match prepare_request config os request with
  | Err error => (Err error, [])
  | Panic => (Panic, [])
  | Ok input =>
      match Os_permit os with
      | DeadlinePassed => (Err (timeout_error config), [])
      | Completed false => (Err (HookError_Process Process_CoordinatorStopped), [])
      | Completed true =>
          let '(r, log) :=
            if Os_late_permit os then (Err (timeout_error config), [])
            else
              let '(r, log) := run_child config parent os in
              (r ≫= read_response config os, log) in
          (r, Effect_Acquire :: log ++ [Effect_Release])
      end
  end.

(** ** The operations of [HookRuntime] *)

(** The counter of the runtime; clones share it. *)
Record HookRuntime := mkHookRuntime {
  Runtime_config : HookConfig;
  Runtime_id : u64;
  Runtime_next_event_id : u64
}.

Definition HookRuntime_new (config : HookConfig) (runtime_id : u64) : outcome HookError HookRuntime :=
  _ ← map_err HookError_Configuration (validate_config config);
  Ok (mkHookRuntime config runtime_id 1).

Definition script_as_str (config : HookConfig) : outcome HookError rstring :=
  ok_or (to_str (HookConfig_script config)) (HookError_Configuration Configuration_NonUtf8ScriptPath).

(** Milliseconds since the epoch; [None] is a clock before it. *)
Definition hook_timestamp (clock : option Z) : u64 :=
  match clock with
  | None => 0
  | Some millis => if (millis <? 2 ^ 64)%Z then millis else (2 ^ 64 - 1)%Z
  end.

(** [fetch_add] wraps around. *)
Definition envelope (self : HookRuntime) (clock : option Z) (event : HookEvent) :
    string * HookEnvelope * HookRuntime :=
  let timestamp := hook_timestamp clock in
  let sequence := Runtime_next_event_id self in
  let event_id := pretty timestamp +:+ "-" +:+ pretty (Runtime_id self) +:+ "-" +:+ pretty sequence in
  (event_id, mkHookEnvelope PROTOCOL_SCHEMA event_id timestamp (HookEvent_kind event) event,
   mkHookRuntime (Runtime_config self) (Runtime_id self) (to_unsigned 64 (sequence + 1))).

Inductive Invocation :=
| Invocation_Completed (result : option RawBeforeSendResult)
| Invocation_Missing.

Definition invoke (config : HookConfig) (parent : gmap string string) (os : os_run)
    (envelope : HookEnvelope) : outcome HookError Invocation * list effect :=
  match script_as_str config with
  | Ok script =>
      let '(r, log) := run_request config parent os (Request_Invoke PROTOCOL_SCHEMA script envelope) in
      (response ← r;
       match RunnerResponse_body response with
       | Response_Invoked result =>
           if bool_decide (HookEnvelope_event envelope = BeforeSend) then Ok (Invocation_Completed result)
           else
             match result with
             | None => Ok (Invocation_Completed None)
             | Some _ => Err (HookError_Protocol Protocol_UnexpectedResponse)
             end
       | Response_Missing => Ok Invocation_Missing
       | Response_Error error => Err (map_runner_error error false)
       | Response_Validated _ => Err (HookError_Protocol Protocol_UnexpectedResponse)
       end, log)
  | Err error => (Err error, [])
  | Panic => (Panic, [])
  end.

Inductive HookExecutionStatus :=
| Execution_Completed
| Execution_Missing
| Execution_FailedOpen (category : HookErrorCategory).
Record HookReport := mkHookReport {
  HookReport_event_id : string;
  HookReport_event : HookEventKind;
  HookReport_status : HookExecutionStatus
}.

Definition dispatch (self : HookRuntime) (clock : option Z) (parent : gmap string string) (os : os_run)
    (event : HookEvent) : outcome HookError HookReport * list effect * HookRuntime :=
  let kind := HookEvent_kind event in
  if bool_decide (kind = BeforeSend) then
    (Err (HookError_Configuration Configuration_BeforeSendRequiresDedicatedMethod), [], self)
  else
    let '(event_id, env, self) := envelope self clock event in
    let '(r, log) := invoke (Runtime_config self) parent os env in
    let report status := Ok (mkHookReport event_id kind status) in
    (match r with
     | Ok (Invocation_Completed _) => report Execution_Completed
     | Ok Invocation_Missing => report Execution_Missing
     | Err error =>
         if bool_decide (HookConfig_observational_failure (Runtime_config self) = Policy_Open) then
           report (Execution_FailedOpen (HookError_category error))
         else Err error
     | Panic => Panic
     end, log, self).

Definition apply_before_send_failure (config : HookConfig) (error : HookError) :
    outcome HookError BeforeSendOutcome :=
  if bool_decide (HookConfig_before_send_failure config = Policy_Open) then Ok Outcome_Allow
  else Err error.

Definition validate_send_input (config : HookConfig) (input : BeforeSendInput) : outcome HookError () :=
  _ ← validate_modified_string (BeforeSend_destination input) Field_Destination
        (HookConfig_max_destination_bytes config) true;
  validate_modified_string (BeforeSend_text input) Field_Text (HookConfig_max_text_bytes config) false.

Definition apply_before_send_result (config : HookConfig) (original : BeforeSendInput)
    (result : RawBeforeSendResult) : outcome HookError BeforeSendOutcome :=
  match result with
  | Raw_Allow => Ok Outcome_Allow
  | Raw_Modify None None => Err (HookError_Protocol Protocol_UnexpectedResponse)
  | Raw_Modify destination text =>
      let destination := default (BeforeSend_destination original) destination in
      let text := default (BeforeSend_text original) text in
      _ ← validate_modified_string destination Field_Destination
            (HookConfig_max_destination_bytes config) true;
      _ ← validate_modified_string text Field_Text (HookConfig_max_text_bytes config) false;
      Ok (Outcome_Modify destination text)
  | Raw_Reject reason =>
      _ ← validate_modified_string reason Field_RejectionReason
            (HookConfig_max_rejection_reason_bytes config) true;
      Ok (Outcome_Reject reason)
  end.

Definition before_send (self : HookRuntime) (clock : option Z) (parent : gmap string string) (os : os_run)
    (input : BeforeSendInput) : outcome HookError BeforeSendOutcome * list effect * HookRuntime :=
  let config := Runtime_config self in
  match validate_send_input config input with
  | Err error => (apply_before_send_failure config error, [], self)
  | Panic => (Panic, [], self)
  | Ok _ =>
      let '(_, env, self) := envelope self clock (HookEvent_BeforeSend input) in
      let '(r, log) := invoke config parent os env in
      (match r with
       | Ok Invocation_Missing => Ok Outcome_Allow
       | Ok (Invocation_Completed (Some result)) =>
           match apply_before_send_result config input result with
           | Ok outcome_ => Ok outcome_
           | Err error => apply_before_send_failure config error
           | Panic => Panic
           end
       | Ok (Invocation_Completed None) =>
           apply_before_send_failure config (HookError_Protocol Protocol_UnexpectedResponse)
       | Err error => apply_before_send_failure config error
       | Panic => Panic
       end, log, self)
  end.

(** [HookRuntime::validate]: the handlers as a set, here a list. *)
Definition validate_script (self : HookRuntime) (parent : gmap string string) (os : os_run) :
    outcome HookError (list HookEventKind) * list effect :=
  let config := Runtime_config self in
  match script_as_str config with
  | Ok script =>
      let '(r, log) := run_request config parent os (Request_Validate PROTOCOL_SCHEMA script) in
      (response ← r;
       match RunnerResponse_body response with
       | Response_Validated handlers => Ok handlers
       | Response_Error error => Err (map_runner_error error true)
       | Response_Invoked _ | Response_Missing => Err (HookError_Protocol Protocol_UnexpectedResponse)
       end, log)
  | Err error => (Err error, [])
  | Panic => (Panic, [])
  end.

(** ** Concurrent requests *)

(** A subprocess that has not been seen to end: what becomes of it when its handle is
    dropped, and whether it was killed. *)
Record process := mkProcess { Process_kill_on_drop : bool; Process_killed : bool }.

(** What a request in flight holds: permits, and the handles of its subprocesses. *)
Record holding := mkHolding { Holding_permits : nat; Holding_children : list process }.
Definition idle : holding := mkHolding 0 [].

(** One effect, whatever is held.  A kill is a signal to the last child; [wait] returns
    once that child has ended. *)
Definition perform (h : holding) (e : effect) : holding :=
  let '(mkHolding permits children) := h in
  match e with
  | Effect_Acquire => mkHolding (S permits) children
  | Effect_Spawn _ _ kill_on_drop => mkHolding permits (mkProcess kill_on_drop false :: children)
  | Effect_Kill =>
      mkHolding permits (match children with
                         | child :: children => mkProcess (Process_kill_on_drop child) true :: children
                         | [] => []
                         end)
  | Effect_Wait | Effect_Exited => mkHolding permits (tail children)
  | Effect_Release => mkHolding (pred permits) children
  end.

Record task := mkTask { Task_todo : list effect; Task_holding : holding }.

(** The runtime's semaphore, the requests in flight, and the subprocesses whose handle
    was dropped. *)
Record Hooks := mkHooks { Hooks_permits : nat; Hooks_tasks : list task; Hooks_orphans : list process }.

Definition hooks_start (config : HookConfig) : Hooks :=
  mkHooks (Z.to_nat (HookConfig_max_concurrency config)) [] [].

(** A request waits for the semaphore, and for nothing else of another request. *)
Definition permits_after (e : effect) (permits : nat) : option nat :=
  match e with
  | Effect_Acquire => match permits with O => None | S n => Some n end
  | Effect_Release => Some (S permits)
  | _ => Some permits
  end.

(** The handle of a subprocess is dropped: it is killed if it was started so. *)
Definition orphan (child : process) : process :=
  mkProcess (Process_kill_on_drop child) (Process_killed child || Process_kill_on_drop child).

(** Dropping a request, when it is done or before, drops what it holds: the handles of
    its subprocesses, and its permits, which return to the semaphore. *)
Inductive hook_step (config : HookConfig) : Hooks → Hooks → Prop :=
| step_request permits tasks orphans parent os request :
    hook_step config (mkHooks permits tasks orphans)
      (mkHooks permits (mkTask (run_request config parent os request).2 idle :: tasks) orphans)
| step_effect permits before e todo h after orphans permits' :
    permits_after e permits = Some permits' →
    hook_step config (mkHooks permits (before ++ mkTask (e :: todo) h :: after) orphans)
      (mkHooks permits' (before ++ mkTask todo (perform h e) :: after) orphans)
| step_drop permits before todo h after orphans :
    hook_step config (mkHooks permits (before ++ mkTask todo h :: after) orphans)
      (mkHooks (permits + Holding_permits h) (before ++ after) (orphans ++ (orphan <$> Holding_children h))).
End Runtime.
