(* ===== verification/HookProps.v ===== *)
(** * Properties of the hook runtime

    Subprocesses are bounded, confined and always ended; a message is let through
    only as the policy and the script say; the exchange with a subprocess does
    not depend on the order in which its streams end. *)

From S2P Require Import Prelude Text Domain Hooks HookRuntime.

(** ** The life of a subprocess *)

(** The effects as they should come: one permit, under it at most one child, started to
    be killed with its handle, killed before it is waited for, and gone before the
    permit is. *)
Definition ordered (h : holding) (e : effect) : option holding :=
  match e, h with
  | Effect_Acquire, mkHolding 0 [] => Some (mkHolding 1 [])
  | Effect_Spawn _ _ true, mkHolding 1 [] => Some (mkHolding 1 [mkProcess true false])
  | Effect_Kill, mkHolding 1 [mkProcess true _] => Some (mkHolding 1 [mkProcess true true])
  | Effect_Wait, mkHolding 1 [mkProcess _ true] => Some (mkHolding 1 [])
  | Effect_Exited, mkHolding 1 [_] => Some (mkHolding 1 [])
  | (Effect_Kill | Effect_Wait), mkHolding 1 [] => Some (mkHolding 1 [])
  | Effect_Release, mkHolding 1 [] => Some (mkHolding 0 [])
  | _, _ => None
  end.
Fixpoint ordered_all (h : holding) (log : list effect) : option holding :=
  match log with
  | [] => Some h
  | e :: log => h ← ordered h e; ordered_all h log
  end.

Lemma ordered_perform h e h' : ordered h e = Some h' → perform h e = h'.
Proof. destruct h as [[|[|n]] [|[[] []] [|? ?]]], e as [|? ? []| | | |]; simpl; intros; simplify_eq; done. Qed.
Lemma ordered_all_app h l1 l2 :
  ordered_all h (l1 ++ l2) = ordered_all h l1 ≫= λ h, ordered_all h l2.
Proof. revert h. induction l1 as [|e l1 IH]; intros h; simpl; [done|]. by destruct (ordered h e); simpl. Qed.

(** A permit, and a child while it has not been seen to exit. *)
Definition at_work (p : progress) : holding :=
  mkHolding 1 (if Progress_exit p then [] else [mkProcess true false]).

Lemma communicate_turn_disciplined config p a :
  match communicate_turn config p a with
  | inl (p', log) => ordered_all (at_work p) log = Some (at_work p')
  | inr (_, log) => ordered_all (at_work p) log = Some (mkHolding 1 [])
  end.
Proof.
  unfold at_work. destruct p as [o s x]. destruct a as [r|r|r|]; simpl; [| | |by destruct x].
  - destruct o; [done|]. destruct (unpack_reader _ _) as [[]|]; by destruct x.
  - destruct s; [done|]. destruct (unpack_reader _ _) as [[]|]; by destruct x.
  - destruct x; [done|]. by destruct r.
Qed.

Lemma communicate_loop_disciplined config p arrivals :
  ordered_all (at_work p) (communicate_loop config p arrivals).2 = Some (mkHolding 1 []).
Proof.
  revert p. induction arrivals as [|a arrivals IH]; intros p; simpl; [unfold at_work; by destruct (Progress_exit p)|].
  pose proof (communicate_turn_disciplined config p a) as Ht.
  destruct (communicate_turn config p a) as [[p' log]|[e log]]; [|done].
  destruct (complete p') eqn:Hc; simpl.
  - rewrite Ht. unfold complete in Hc. apply andb_true_iff in Hc as [_ [status Hx]%bool_decide_eq_true].
    unfold at_work. by rewrite Hx.
  - specialize (IH p'). destruct (communicate_loop config p' arrivals) as [r log']. simpl in *.
    rewrite ordered_all_app, Ht. done.
Qed.

Lemma communicate_disciplined config os :
  ordered_all (mkHolding 1 [mkProcess true false]) (communicate config os).2 = Some (mkHolding 1 []).
Proof.
  unfold communicate, start_communication.
  repeat (case_match; simplify_eq; try done);
    try match goal with H : communicate_loop _ ?p _ = _ |- _ =>
      pose proof (communicate_loop_disciplined config p (Os_arrivals os)) as Hl; rewrite H in Hl end; done.
Qed.

Lemma run_child_disciplined config parent os :
  ordered_all (mkHolding 1 []) (run_child config parent os).2 = Some (mkHolding 1 []).
Proof.
  unfold run_child. destruct (Os_spawn os); [|done]. destruct (Os_late_spawned os); [done|].
  pose proof (communicate_disciplined config os) as Hc. by destruct (communicate config os).
Qed.

Lemma run_request_disciplined `{HookJson} config parent os request :
  ordered_all idle (run_request config parent os request).2 = Some idle.
Proof.
  unfold run_request. destruct (prepare_request _ _ _); [|done..].
  destruct (Os_permit os) as [[]|]; [|done..]. destruct (Os_late_permit os); [done|].
  pose proof (run_child_disciplined config parent os) as Hc. destruct (run_child config parent os) as [r log].
  simpl in *. by rewrite ordered_all_app, Hc.
Qed.

(** ** Concurrent requests *)

Definition permits_held (tasks : list task) : nat := sum_list_with (λ t, Holding_permits (Task_holding t)) tasks.
Lemma permits_held_app l t l' :
  permits_held (l ++ t :: l') = permits_held (l ++ l') + Holding_permits (Task_holding t).
Proof. unfold permits_held. rewrite !sum_list_with_app. simpl. lia. Qed.
(** Every subprocess: those of the requests in flight, and those whose handle is gone. *)
Definition processes (s : Hooks) : list process :=
  (Hooks_tasks s ≫= λ t, Holding_children (Task_holding t)) ++ Hooks_orphans s.
(** Those that run and were not killed. *)
Definition unkilled (children : list process) : nat := length (filter (λ c, Process_killed c = false) children).

Lemma unkilled_app l1 l2 : unkilled (l1 ++ l2) = unkilled l1 + unkilled l2.
Proof. unfold unkilled. by rewrite filter_app, length_app. Qed.

(** A request has a child only with a permit, and will end with nothing in its hands. *)
Definition task_ok (t : task) : Prop :=
  ordered_all (Task_holding t) (Task_todo t) = Some idle ∧
  unkilled (Holding_children (Task_holding t)) ≤ Holding_permits (Task_holding t) ∧
  Forall (λ c, Process_kill_on_drop c = true) (Holding_children (Task_holding t)).

Record hooks_ok (config : HookConfig) (s : Hooks) : Prop := {
  hooks_tasks : Forall task_ok (Hooks_tasks s);
  hooks_permits : Hooks_permits s + permits_held (Hooks_tasks s) = Z.to_nat (HookConfig_max_concurrency config);
  hooks_orphans : Forall (λ c, Process_killed c = true) (Hooks_orphans s)
}.

Lemma ordered_permits h e h' permits permits' :
  ordered h e = Some h' → permits_after e permits = Some permits' →
  permits' + Holding_permits h' = permits + Holding_permits h ∧
  unkilled (Holding_children h') ≤ Holding_permits h' ∧ Forall (λ c, Process_kill_on_drop c = true) (Holding_children h').
Proof.
  destruct h as [[|[|n]] [|[[] []] [|? ?]]], e as [|? ? []| | | |]; simpl; intros; simplify_eq; repeat case_match; simplify_eq;
    simpl; (split_and!; [lia|by vm_compute; lia|by repeat constructor]).
Qed.

Section concurrent.
Context `{HookJson} (config : HookConfig).

Lemma hook_step_ok s s' : hook_step config s s' → hooks_ok config s → hooks_ok config s'.
Proof.
  destruct 1 as [permits tasks orphans parent os request|permits before e todo h after orphans permits' Hp
                |permits before todo h after orphans]; intros [Ht Hn Ho]; simpl in *.
  - split; simpl; [|done|done]. constructor; [|done]. split; [apply run_request_disciplined|]. simpl.
    split; [by vm_compute|constructor].
  - rewrite permits_held_app in Hn. simpl in Hn. apply Forall_app in Ht as [Hb Ha].
    apply Forall_cons in Ha as [[Hall _] Ha]. simpl in Hall. destruct (ordered h e) as [h'|] eqn:Hh; [|done].
    destruct (ordered_permits _ _ _ _ _ Hh Hp) as (Hcount & Hchild & Hkill). rewrite (ordered_perform _ _ _ Hh).
    split; simpl; [|rewrite permits_held_app; simpl; lia|done]. apply Forall_app. split; [done|]. constructor; [|done].
    by split_and!.
  - rewrite permits_held_app in Hn. simpl in Hn. apply Forall_app in Ht as [Hb Ha].
    apply Forall_cons in Ha as [(_ & _ & Hkill) Ha]. split; simpl; [by apply Forall_app|lia|].
    apply Forall_app. split; [done|]. apply Forall_fmap. eapply Forall_impl; [exact Hkill|]. intros c Hc. simpl.
    by rewrite Hc, orb_true_r.
Qed.

Lemma unkilled_held tasks : Forall task_ok tasks →
  unkilled (tasks ≫= λ t, Holding_children (Task_holding t)) ≤ permits_held tasks.
Proof.
  induction 1 as [|t tasks (_ & Ht & _) _ IH]; [done|]. rewrite bind_cons, unkilled_app. unfold permits_held in *. simpl. lia.
Qed.
Lemma unkilled_none children : Forall (λ c, Process_killed c = true) children → unkilled children = 0.
Proof.
  unfold unkilled. induction 1 as [|c children Hc _ IH]; [done|]. rewrite filter_cons, decide_False; [done|]. by rewrite Hc.
Qed.

(** C21: however requests of one runtime interleave and wherever they are dropped, at
    most [max_concurrency] subprocesses run that were not killed; a subprocess whose
    request was dropped was killed; and a request that has returned holds no permit and
    no subprocess, its own having ended. *)
Theorem hook_processes_bounded s :
  rtc (hook_step config) (hooks_start config) s →
  unkilled (processes s) ≤ Z.to_nat (HookConfig_max_concurrency config) ∧
  Forall (λ c, Process_killed c = true) (Hooks_orphans s) ∧
  Forall (λ t, Task_todo t = [] → Task_holding t = idle) (Hooks_tasks s).
Proof.
  intros Hr. assert (hooks_ok config s) as [Ht Hn Ho].
  { assert (hooks_ok config (hooks_start config)) as H0 by (split; [constructor|unfold permits_held; simpl; lia|constructor]).
    revert H0. generalize (hooks_start config) Hr. clear Hr.
    induction 1 as [|s1 s2 s3 Hs _ IH]; [done|]. intros Hok. by apply IH, (hook_step_ok s1). }
  split_and!; [|done|].
  - unfold processes. rewrite unkilled_app, (unkilled_none _ Ho). pose proof (unkilled_held _ Ht). lia.
  - eapply Forall_impl; [done|]. intros t [Hp _] Htodo. rewrite Htodo in Hp. by injection Hp.
Qed.
End concurrent.

(** ** The environment of a subprocess *)

Lemma inherited_lookup (names : list string) (parent env : gmap string string) k :
  foldl (λ env name, match parent !! name with Some v => <[name := v]> env | None => env end) env names !! k =
  if bool_decide (k ∈ names) then (match parent !! k with Some v => Some v | None => env !! k end) else env !! k.
Proof.
  revert env. induction names as [|n names IH]; intros env; simpl; [done|]. rewrite IH.
  destruct (decide (k = n)) as [->|Hne].
  - rewrite (bool_decide_true (n ∈ n :: names)) by set_solver.
    destruct (parent !! n) eqn:Hn; [rewrite lookup_insert_eq|]; by case_bool_decide.
  - assert (bool_decide (k ∈ n :: names) = bool_decide (k ∈ names)) as ->.
    { apply bool_decide_ext. set_solver. }
    destruct (parent !! n); [by rewrite lookup_insert_ne|done].
Qed.

(** What the script sees: the fixed settings, and the parent's value of the
    variables the policy names. *)
Definition confined (policy : EnvironmentPolicy) (parent env : gmap string string) : Prop :=
  ∀ k, env !! k =
    match list_to_map (M:=gmap string string) fixed_environment !! k with
    | Some v => Some v
    | None => if bool_decide (k ∈ inherited_environment_names policy) then parent !! k else None
    end.

Lemma child_environment_lookup policy parent : confined policy parent (child_environment policy parent).
Proof.
  intros k. unfold child_environment. simpl.
  rewrite !lookup_insert, !lookup_empty, inherited_lookup, lookup_empty.
  repeat case_decide; simplify_eq; try done. case_bool_decide; [|done]. by destruct (parent !! k).
Qed.

Definition spawns_only (python : string) (Q : gmap string string → Prop) (e : effect) : Prop :=
  match e with Effect_Spawn p env _ => p = python ∧ Q env | _ => True end.

Lemma communicate_spawns python Q config os : Forall (spawns_only python Q) (communicate config os).2.
Proof.
  assert (Forall (spawns_only python Q) terminate) as Hterm by by repeat constructor.
  assert (∀ p arrivals, Forall (spawns_only python Q) (communicate_loop config p arrivals).2) as Hloop.
  { intros p arrivals. revert p. induction arrivals as [|a arrivals IH]; intros p; simpl; [done|].
    assert (match communicate_turn config p a with inl (_, log) | inr (_, log) => Forall (spawns_only python Q) log end) as Ht.
    { unfold communicate_turn. repeat case_match; simplify_eq; try done; by repeat constructor. }
    destruct (communicate_turn config p a) as [[p' log]|[e log]]; [|done]. destruct (complete p'); [done|].
    specialize (IH p'). destruct (communicate_loop config p' arrivals). by apply Forall_app. }
  unfold communicate, start_communication. repeat (case_match; simplify_eq; try done);
    match goal with H : communicate_loop _ ?p _ = _ |- _ =>
      pose proof (Hloop p (Os_arrivals os)) as Hl; rewrite H in Hl; done end.
Qed.

(** a request starts the configured interpreter and nothing else, and the
    environment of the subprocess is confined by the policy. *)
Theorem hook_environment_confined `{HookJson} config parent os request :
  Forall (spawns_only (HookConfig_python_executable config)
            (confined (HookConfig_environment config) parent))
    (run_request config parent os request).2.
Proof.
  unfold run_request. destruct (prepare_request _ _ _); [|done..].
  destruct (Os_permit os) as [[]|]; [|done..].
  destruct (Os_late_permit os); [by repeat constructor|]. unfold run_child.
  destruct (Os_spawn os); [|by repeat constructor].
  assert (spawns_only (HookConfig_python_executable config) (confined (HookConfig_environment config) parent)
    (Effect_Spawn (HookConfig_python_executable config)
       (child_environment (HookConfig_environment config) parent) true)) as Hs
    by (split; [done|apply child_environment_lookup]).
  destruct (Os_late_spawned os); [by repeat first [apply Forall_nil_2|apply Forall_cons_2]|].
  pose proof (communicate_spawns (HookConfig_python_executable config)
    (confined (HookConfig_environment config) parent) config os) as Hc.
  destruct (communicate config os) as [r log]. simpl.
  constructor; [done|]. constructor; [done|]. apply Forall_app. split; [done|by repeat constructor].
Qed.

(** ** The exchange *)

(** once the request is written, the result of an exchange whose streams stay
    within their bounds and end without an error does not depend on the order in
    which the streams end and the child exits, and the child is not killed. *)
Theorem communicate_any_order config os out err status :
  Os_stdin os = true → Os_stdout os = true → Os_stderr os = true → Os_write os = Completed (inl ()) →
  (byte_count out <= HookConfig_max_output_bytes config)%Z →
  (byte_count err <= HookConfig_max_stderr_bytes config)%Z →
  Os_arrivals os ≡ₚ [Arrival_Stdout (Some (mkPipe out None)); Arrival_Stderr (Some (mkPipe err None));
                     Arrival_Exit (inl status)] →
  communicate config os =
    (if bool_decide (status = Some 0%Z) then Ok out
     else Err (HookError_Process (Process_UnsuccessfulExit status (byte_count err))),
     [Effect_Exited]).
Proof.
  intros H1 H2 H3 Hw Ho He Hp. unfold communicate, start_communication. rewrite H1, H2, H3, Hw. simpl.
  assert (NoDup (Os_arrivals os)) as Hnd by (rewrite Hp; repeat constructor; set_solver).
  pose proof (Permutation_length Hp) as Hl. simpl in Hl.
  assert (∀ a, a ∈ Os_arrivals os → a ∈ [Arrival_Stdout (Some (mkPipe out None));
    Arrival_Stderr (Some (mkPipe err None)); Arrival_Exit (inl status)]) as Hin by (intros a; by rewrite Hp).
  destruct (Os_arrivals os) as [|a [|b [|c [|]]]]; try done. clear Hp Hl.
  assert (∀ contents maximum, (byte_count contents <= maximum)%Z →
    read_bounded (mkPipe contents None) maximum = inl (Read_Complete contents)) as Hread.
  { intros contents maximum Hle. unfold read_bounded. simpl. by rewrite (proj2 (Z.ltb_ge _ _)). }
  pose proof (Hin a ltac:(set_solver)) as Ha. pose proof (Hin b ltac:(set_solver)) as Hb.
  pose proof (Hin c ltac:(set_solver)) as Hc. clear Hin.
  assert (a ≠ b ∧ a ≠ c ∧ b ≠ c) as (Hab & Hac & Hbc).
  { apply NoDup_cons in Hnd as [? Hnd]. apply NoDup_cons in Hnd as [? _]. set_solver. }
  rewrite !elem_of_cons, elem_of_nil in Ha, Hb, Hc.
  destruct Ha as [->|[->|[->|[]]]], Hb as [->|[->|[->|[]]]], Hc as [->|[->|[->|[]]]]; try done;
    cbn; rewrite ?Hread by done; cbn; rewrite ?Hread by done; cbn; rewrite ?Hread by done;
    by case_bool_decide.
Qed.

(** ** Requests *)

Lemma write_pieces_spec w pieces : Writer_exceeded w = false →
  (byte_count (Writer_bytes w) <= Writer_maximum w)%Z →
  (Writer_observed_at_least w <= byte_count (Writer_bytes w))%Z →
  let total := (byte_count (Writer_bytes w) + byte_count (concat pieces))%Z in
  let '(ok, w') := write_pieces w pieces in
  Writer_exceeded w' = negb ok ∧ (byte_count (Writer_bytes w') <= Writer_maximum w)%Z ∧
  if ok then Writer_bytes w' = Writer_bytes w ++ concat pieces
  else (Writer_maximum w < Writer_observed_at_least w' <= total)%Z.
Proof.
  revert w. induction pieces as [|piece pieces IH]; intros w He Hb Ho; simpl.
  { by rewrite app_nil_r, He. }
  destruct piece as [|b piece]; [by apply IH|].
  assert (byte_count ((b :: piece) ++ concat pieces) =
    byte_count (b :: piece) + byte_count (concat pieces))%Z as Hc
    by (unfold byte_count; rewrite length_app; lia).
  generalize dependent (b :: piece). intros buffer Hc. simpl app. rewrite Hc. unfold Writer_write.
  set (attempted := (byte_count (Writer_bytes w) + byte_count buffer)%Z).
  assert (byte_count (Writer_bytes w ++ buffer) = attempted) as Ha
    by (unfold attempted, byte_count; rewrite length_app; lia).
  assert (0 <= byte_count buffer ∧ 0 <= byte_count (concat pieces))%Z as [? ?] by (unfold byte_count; lia).
  destruct (Z.ltb_spec (Writer_maximum w) attempted) as [Hlt|Hge]; cbn.
  - split_and!; try done; lia.
  - specialize (IH (mkWriter (Writer_bytes w ++ buffer) (Writer_maximum w)
      (Z.max (Writer_observed_at_least w) attempted) (Writer_exceeded w))). cbn in IH. rewrite Ha in IH.
    destruct (write_pieces _ pieces) as [ok w']. destruct IH as (? & ? & IH); [done|lia|lia|].
    split_and!; [done|done|]. destruct ok; [by rewrite IH, <- app_assoc|]. lia.
Qed.

(** a request is encoded whole or not at all.  Within the cap the encoding is
    what the serializer wrote; beyond it the error reports more bytes than the cap
    and no more than there are; the runtime never buffers more than the cap. *)
Theorem encode_request_bounded `{HookJson} request maximum :
  (0 <= maximum)%Z →
  let '(pieces, satisfied) := request_pieces request in
  match encode_request request maximum with
  | Ok input => input = concat pieces ∧ (byte_count input <= maximum)%Z ∧ satisfied = true
  | Err (HookError_Protocol (Protocol_InputTooLarge observed cap)) =>
      cap = maximum ∧ (maximum < observed <= byte_count (concat pieces))%Z
  | Err e => e = HookError_Protocol Protocol_RequestEncoding ∧ satisfied = false ∧
      (byte_count (concat pieces) <= maximum)%Z
  | Panic => False
  end.
Proof.
  intros Hm. unfold encode_request. destruct (request_pieces request) as [pieces satisfied].
  pose proof (write_pieces_spec (BoundedJsonWriter_new maximum) pieces eq_refl Hm ltac:(done)) as Hw.
  destruct (write_pieces _ pieces) as [ok w]. cbn in Hw. destruct Hw as (He & Hb & Hw).
  destruct ok; simpl; rewrite ?He; simpl in *; subst.
  - rewrite Hw in Hb. destruct satisfied; simpl; by rewrite ?Hw.
  - done.
Qed.

(** ** Decisions *)

Lemma contains_single (b : Z) s : contains [b] s = bool_decide (b ∈ s).
Proof.
  induction s as [|c s IH]; simpl.
  - done.
  - rewrite IH, take_0. apply eq_true_iff_eq. rewrite orb_true_iff, !bool_decide_eq_true. set_solver.
Qed.

(** What a destination, a text or a reason must be. *)
Definition acceptable (maximum : Z) (nonblank : bool) (s : rstring) : Prop :=
  (byte_count s <= maximum)%Z ∧ (nonblank = true → trim s ≠ []) ∧ 0%Z ∉ s.

Lemma validate_modified_string_ok s field maximum nonblank :
  validate_modified_string s field maximum nonblank = Ok () ↔ acceptable maximum nonblank s.
Proof.
  unfold validate_modified_string, acceptable, trim_is_empty. rewrite contains_single.
  destruct (Z.ltb_spec maximum (byte_count s)); [split; [done|lia]|].
  destruct nonblank; simpl; repeat case_bool_decide; naive_solver.
Qed.

Lemma validate_modified_string_cases s field maximum nonblank :
  validate_modified_string s field maximum nonblank = Ok () ∨
  ∃ e, validate_modified_string s field maximum nonblank = Err e.
Proof. unfold validate_modified_string. repeat case_match; eauto. Qed.

(** An outbound message as the limits of the runtime want it. *)
Definition sendable (config : HookConfig) (destination text : rstring) : Prop :=
  acceptable (HookConfig_max_destination_bytes config) true destination ∧
  acceptable (HookConfig_max_text_bytes config) false text.

Lemma validate_send_ok config destination text :
  match validate_send_input config (mkBeforeSend destination text) with
  | Ok _ => sendable config destination text
  | Err _ => ¬ sendable config destination text
  | Panic => False
  end.
Proof.
  unfold validate_send_input, sendable. simpl.
  pose proof (validate_modified_string_ok destination Field_Destination
    (HookConfig_max_destination_bytes config) true) as Hd.
  pose proof (validate_modified_string_ok text Field_Text (HookConfig_max_text_bytes config) false) as Ht.
  destruct (validate_modified_string_cases destination Field_Destination
    (HookConfig_max_destination_bytes config) true) as [E|[e E]]; rewrite E in *; simpl; [|naive_solver].
  destruct (validate_modified_string_cases text Field_Text (HookConfig_max_text_bytes config) false)
    as [E'|[e E']]; rewrite E' in *; naive_solver.
Qed.

Lemma apply_result_spec config original raw :
  match apply_before_send_result config original raw with
  | Ok Outcome_Allow => raw = Raw_Allow
  | Ok (Outcome_Modify destination text) => sendable config destination text ∧
      ∃ d t, raw = Raw_Modify d t ∧ destination = default (BeforeSend_destination original) d ∧
             text = default (BeforeSend_text original) t
  | Ok (Outcome_Reject reason) => raw = Raw_Reject reason ∧
      acceptable (HookConfig_max_rejection_reason_bytes config) true reason
  | Err _ => True
  | Panic => False
  end.
Proof.
  assert (∀ d t, raw = Raw_Modify d t →
    match validate_send_input config (mkBeforeSend (default (BeforeSend_destination original) d)
            (default (BeforeSend_text original) t)) with
    | Ok _ => apply_before_send_result config original raw =
        (if bool_decide (d = None ∧ t = None) then Err (HookError_Protocol Protocol_UnexpectedResponse)
         else Ok (Outcome_Modify (default (BeforeSend_destination original) d)
                    (default (BeforeSend_text original) t)))
    | Err _ => is_Err (apply_before_send_result config original raw) = true
    | Panic => False
    end) as Hmod.
  { intros d t ->. unfold validate_send_input. simpl.
    destruct (validate_modified_string_cases (default (BeforeSend_destination original) d)
      Field_Destination (HookConfig_max_destination_bytes config) true) as [Hd|[e Hd]]; rewrite Hd; simpl.
    - destruct (validate_modified_string_cases (default (BeforeSend_text original) t) Field_Text
        (HookConfig_max_text_bytes config) false) as [Ht|[e Ht]]; rewrite Ht; simpl;
        destruct d, t; simpl in *; by rewrite ?Hd, ?Ht.
    - destruct d, t; simpl in *; by rewrite ?Hd. }
  destruct raw as [|d t|reason]; [done| |].
  - specialize (Hmod d t eq_refl). pose proof (validate_send_ok config
      (default (BeforeSend_destination original) d) (default (BeforeSend_text original) t)) as Hs.
    destruct (validate_send_input _ _) as [[]|e|]; [|by destruct (apply_before_send_result _ _ _)|done].
    rewrite Hmod. case_bool_decide; naive_solver.
  - simpl. destruct (validate_modified_string_cases reason Field_RejectionReason
      (HookConfig_max_rejection_reason_bytes config) true) as [Hr|[e Hr]]; rewrite Hr; simpl; [|done].
    by apply validate_modified_string_ok in Hr.
Qed.

(** ** No panics *)

Lemma bind_no_panic {E A B} (m : outcome E A) (f : A → outcome E B) :
  m ≠ Panic → (∀ a, f a ≠ Panic) → m ≫= f ≠ Panic.
Proof. destruct m; simpl; naive_solver. Qed.

Lemma communicate_no_panic config os : (communicate config os).1 ≠ Panic.
Proof.
  assert (∀ p arrivals, (communicate_loop config p arrivals).1 ≠ Panic) as Hloop.
  { intros p arrivals. revert p. induction arrivals as [|a arrivals IH]; intros p; simpl; [done|].
    destruct (communicate_turn config p a) as [[p' log]|[e log]]; [|done].
    destruct (complete p').
    - destruct (Progress_stdout p'), (Progress_stderr p'), (Progress_exit p'); cbn; try done; by repeat case_match.
    - specialize (IH p'). by destruct (communicate_loop config p' arrivals). }
  unfold communicate, start_communication. specialize (Hloop (mkProgress None None None) (Os_arrivals os)).
  repeat (case_match; simplify_eq; try done).
Qed.

Lemma run_request_no_panic `{HookJson} config parent os request : (run_request config parent os request).1 ≠ Panic.
Proof.
  unfold run_request. assert (prepare_request config os request ≠ Panic) as Hp.
  { unfold prepare_request, ensure. apply bind_no_panic; [by destruct (Os_deadline os)|intros _].
    apply bind_no_panic; [unfold validate_script_file; by repeat case_match|intros _].
    apply bind_no_panic; [unfold encode_request; by repeat case_match|intros i]. by case_match. }
  destruct (prepare_request config os request); [|done..]. destruct (Os_permit os) as [[]|]; [|done..].
  destruct (Os_late_permit os); [done|]. pose proof (communicate_no_panic config os) as Hc. unfold run_child.
  assert (∀ output, read_response config os output ≠ Panic) as Hr.
  { intros output. unfold read_response. case_match; [done|]. apply bind_no_panic; [by destruct (response_from_slice _)|].
    intros r. by repeat case_match. }
  destruct (Os_spawn os); [|done]. destruct (Os_late_spawned os); [done|].
  destruct (communicate config os) as [r log]. simpl in *. by apply bind_no_panic.
Qed.

Lemma invoke_no_panic `{HookJson} config parent os env : (invoke config parent os env).1 ≠ Panic.
Proof.
  unfold invoke, script_as_str. destruct (to_str _) as [script|]; [|done]. simpl.
  pose proof (run_request_no_panic config parent os (Request_Invoke PROTOCOL_SCHEMA script env)) as Hr.
  destruct (run_request _ _ _ _) as [r log]. simpl in *. apply bind_no_panic; [done|]. intros a. by repeat case_match.
Qed.

(** C26: what becomes of an outbound message.  It is let through unchanged only
    when the policy is open, or it is sendable and the script said so or has no
    handler; what it is replaced by is sendable, and is what the script said,
    filled up from the message; a rejection is the script's own; and an error,
    which stops it, needs the closed policy.  A message that is not sendable
    starts no subprocess. *)
Theorem before_send_policy `{HookJson} self clock parent os input :
  let config := Runtime_config self in
  let answer := (invoke config parent os (envelope self clock (HookEvent_BeforeSend input)).1.2).1 in
  let fits := sendable config (BeforeSend_destination input) (BeforeSend_text input) in
  let '(r, log, _) := before_send self clock parent os input in
  match r with
  | Ok Outcome_Allow =>
      HookConfig_before_send_failure config = Policy_Open ∨
      fits ∧ (answer = Ok Invocation_Missing ∨ answer = Ok (Invocation_Completed (Some Raw_Allow)))
  | Ok (Outcome_Modify destination text) =>
      fits ∧ sendable config destination text ∧
      ∃ d t, answer = Ok (Invocation_Completed (Some (Raw_Modify d t))) ∧
             destination = default (BeforeSend_destination input) d ∧
             text = default (BeforeSend_text input) t
  | Ok (Outcome_Reject reason) =>
      fits ∧ answer = Ok (Invocation_Completed (Some (Raw_Reject reason))) ∧
      acceptable (HookConfig_max_rejection_reason_bytes config) true reason
  | Err _ => HookConfig_before_send_failure config = Policy_Closed
  | Panic => False
  end ∧ (¬ fits → log = []).
Proof.
  intros config answer fits. unfold before_send. fold config. subst fits.
  assert (∀ e, match apply_before_send_failure config e with
    | Ok o => o = Outcome_Allow ∧ HookConfig_before_send_failure config = Policy_Open
    | Err _ => HookConfig_before_send_failure config = Policy_Closed
    | Panic => False end) as Hfail.
  { intros e. unfold apply_before_send_failure. case_bool_decide; [done|]. by destruct (HookConfig_before_send_failure _). }
  pose proof (validate_send_ok config (BeforeSend_destination input) (BeforeSend_text input)) as Hs.
  replace (mkBeforeSend (BeforeSend_destination input) (BeforeSend_text input)) with input in Hs by (by destruct input).
  destruct (validate_send_input config input) as [[]|e|]; [|specialize (Hfail e)|done].
  - simpl envelope. subst answer. unfold envelope. cbn [fst snd]. destruct (invoke _ _ _ _) as [r log] eqn:Hi. cbn [fst].
    split; [|done]. destruct r as [[[raw|]|]|e|].
    + pose proof (apply_result_spec config input raw) as Ha.
      destruct (apply_before_send_result config input raw) as [[]|e|]; [naive_solver..| |done].
      specialize (Hfail e). destruct (apply_before_send_failure config e) as [[]|e'|]; naive_solver.
    + match goal with |- context [apply_before_send_failure config ?e] => specialize (Hfail e) end.
      destruct (apply_before_send_failure config _) as [[]|e'|]; naive_solver.
    + naive_solver.
    + specialize (Hfail e). destruct (apply_before_send_failure config e) as [[]|e'|]; naive_solver.
    + pose proof (invoke_no_panic config parent os
        (envelope self clock (HookEvent_BeforeSend input)).1.2) as Hn. unfold envelope in Hn.
      cbn [fst snd] in Hn. by rewrite Hi in Hn.
  - split; [|done]. destruct (apply_before_send_failure config e) as [[]|e'|]; naive_solver.
Qed.

(** ** Examples *)

Module SampleHook.

(** Requests are written in two pieces; the replies are numbered. *)
#[global] Instance json : HookJson := {
  request_pieces request :=
    match request with
    | Request_Validate schema script => ([schema; script], true)
    | Request_Invoke schema script _ => ([schema; script; [0x0a]%Z], true)
    end;
  response_from_slice output :=
    match output with
    | [0]%Z => Some (mkRunnerResponse PROTOCOL_SCHEMA Response_Missing)
    | [1]%Z => Some (mkRunnerResponse PROTOCOL_SCHEMA (Response_Invoked (Some Raw_Allow)))
    | [2]%Z => Some (mkRunnerResponse PROTOCOL_SCHEMA
                       (Response_Invoked (Some (Raw_Modify None (Some (str_bytes "soon"))))))
    | _ => None
    end
}.

Definition config : HookConfig := HookConfig_new "hooks/audit.py".
Definition runtime : HookRuntime := mkHookRuntime config 7 1.
Definition input : BeforeSendInput := mkBeforeSend (str_bytes "base") (str_bytes "on my way").
Definition parent : gmap string string :=
  {[ "PATH" := "/usr/bin"; "HOME" := "/home/me"; "PYTHONPATH" := "/evil" ]}.

Definition answering (reply : bytes) : os_run :=
  mkOsRun true (Completed (inl (true, 300%Z))) false (Completed true) false (inl ()) false true true true
    (Completed (inl ()))
    [Arrival_Exit (inl (Some 0%Z)); Arrival_Stderr (Some (mkPipe [] None));
     Arrival_Stdout (Some (mkPipe reply None))]
    false false.

Definition request : RunnerRequest := Request_Validate PROTOCOL_SCHEMA (str_bytes "hooks/audit.py").
Definition run : list effect := (run_request config parent (answering [1]%Z) request).2.

(** One request has started its subprocess, the other is about to. *)
Definition after_spawn : list effect := drop 2 run.
Definition running : Hooks :=
  mkHooks 3 [mkTask run idle; mkTask after_spawn (mkHolding 1 [mkProcess true false])] [].

Lemma running_reachable : rtc (hook_step config) (hooks_start config) running.
Proof.
  eapply rtc_l; [apply (step_request config 4 [] [] parent (answering [1]%Z) request)|].
  eapply rtc_l; [by apply (step_effect config 4 [] Effect_Acquire _ idle [] [] 3)|].
  eapply rtc_l; [by apply (step_effect config 3 [] (Effect_Spawn "python3" (child_environment
    Environment_SafeInherited parent) true) after_spawn (mkHolding 1 []) [] [] 3)|].
  apply rtc_once. apply (step_request config 3 _ [] parent (answering [1]%Z) request).
Qed.
(** The request with the subprocess is dropped. *)
Definition dropped : Hooks := mkHooks 4 [mkTask run idle] [mkProcess true true].
Lemma dropped_reachable : rtc (hook_step config) (hooks_start config) dropped.
Proof.
  eapply rtc_r; [exact running_reachable|].
  apply (step_drop config 3 [mkTask run idle] after_spawn (mkHolding 1 [mkProcess true false]) [] []).
Qed.

End SampleHook.

Lemma hook_processes_bounded_witness :
  unkilled (processes SampleHook.running) = 1 ∧ 1 ≤ 4 ∧ Forall (λ c, Process_killed c = true) (Hooks_orphans SampleHook.dropped) ∧
  length (Hooks_orphans SampleHook.dropped) = 1.
Proof.
  destruct (hook_processes_bounded SampleHook.config SampleHook.running SampleHook.running_reachable) as [Hn _].
  destruct (hook_processes_bounded SampleHook.config SampleHook.dropped SampleHook.dropped_reachable) as (_ & Ho & _).
  split; [reflexivity|]. split; [exact Hn|]. split; [exact Ho|reflexivity].
Defined.

Lemma hook_environment_confined_witness :
  Forall (spawns_only "python3" (confined Environment_SafeInherited SampleHook.parent)) SampleHook.run ∧
  child_environment Environment_SafeInherited SampleHook.parent !! "PATH" = Some "/usr/bin" ∧
  child_environment Environment_SafeInherited SampleHook.parent !! "PYTHONPATH" = None.
Proof.
  split; [|split; reflexivity].
  apply (hook_environment_confined SampleHook.config SampleHook.parent (SampleHook.answering [1]%Z) SampleHook.request).
Defined.

Lemma communicate_any_order_witness :
  communicate SampleHook.config (SampleHook.answering [2]%Z) = (Ok [2]%Z, [Effect_Exited]).
Proof.
  apply (communicate_any_order SampleHook.config (SampleHook.answering [2]%Z) [2]%Z [] (Some 0%Z)); try reflexivity.
  - vm_compute. discriminate.
  - vm_compute. discriminate.
  - symmetry. apply (Permutation_rev [_; _; _]).
Defined.

Lemma encode_request_bounded_witness :
  match encode_request SampleHook.request 20 with
  | Err (HookError_Protocol (Protocol_InputTooLarge observed _)) => (20 < observed)%Z
  | _ => False
  end.
Proof.
  pose proof (encode_request_bounded SampleHook.request 20 ltac:(lia)) as He. simpl request_pieces in He.
  exact (proj1 (proj2 He)).
Defined.

Lemma before_send_policy_witness :
  (before_send SampleHook.runtime (Some 5%Z) SampleHook.parent (SampleHook.answering [2]%Z) SampleHook.input).1.1
    = Ok (Outcome_Modify (str_bytes "base") (str_bytes "soon")) ∧
  sendable SampleHook.config (str_bytes "base") (str_bytes "soon").
Proof.
  pose proof (before_send_policy SampleHook.runtime (Some 5%Z) SampleHook.parent (SampleHook.answering [2]%Z)
    SampleHook.input) as [(_ & Hs & _) _].
  split; [vm_compute; reflexivity|exact Hs].
Defined.
