(* ===== verification/Store.v ===== *)
(** * The store: errors and the file system (crates/meshquill-store/src/lib.rs)

    The file system is the state of a small monad: the contents of the files, and
    what will go wrong.  Every fallible call takes one [fault]: it passes, it
    fails with an I/O error, or the process is killed at it and nothing after it
    runs.  Consecutive calls that leave the files alone (creating directories,
    setting permissions, filling and syncing a temporary file) are one step,
    since a failure of any of them has the same effect.  A temporary file is not
    in the map until it is renamed into place. *)

From stdpp Require Import sorting.
From S2P Require Import Prelude Text Domain.

Inductive Platform := Platform_Linux | Platform_Macos | Platform_Windows.

Inductive StoreError :=
| StoreError_Io (error : IoError)
| StoreError_MissingRuntimePath (platform : Platform) (context : string)
| StoreError_LockTimeout (path : string)
| StoreError_Serde (message : string)
| StoreError_Parse (path : string) (message : string)
| StoreError_UnsupportedVersion (version : u8)
| StoreError_Validation (field message : string)
| StoreError_SecretUnavailable (backend message : string)
| StoreError_PromptRequired
| StoreError_AtomicRename (path : string) (message : string).

Definition invalid {A} (field message : string) : outcome StoreError A :=
  Err (StoreError_Validation field message).

(** ** The file system *)

Inductive fault :=
| Pass
| Fail (error : IoError)
| Kill.

(** [Path::exists] is [false] when the query is not answered. *)
Record Fs := mkFs {
  Fs_files : gmap string bytes;
  Fs_answers : list bool;
  Fs_faults : list fault
}.

Inductive fres (A : Type) :=
| Done (a : A)
| Failed (e : StoreError)
| Killed.
Arguments Done {A} a.
Arguments Failed {A} e.
Arguments Killed {A}.

Definition fs (A : Type) : Type := Fs → fres A * Fs.

#[global] Instance fs_ret : MRet fs := fun A a w => (Done a, w).
#[global] Instance fs_bind : MBind fs := fun A B f m w =>
  match m w with
  | (Done a, w) => f a w
  | (Failed e, w) => (Failed e, w)
  | (Killed, w) => (Killed, w)
  end.

Definition fs_fail {A} (e : StoreError) : fs A := λ w, (Failed e, w).
Definition fs_lift {A} (m : outcome StoreError A) : fs A := λ w,
  match m with Ok a => (Done a, w) | Err e => (Failed e, w) | Panic => (Killed, w) end.

(** A fallible call that leaves the files alone. *)
Definition fs_step (on_error : IoError → StoreError) : fs () := λ w,
  let w' := mkFs (Fs_files w) (Fs_answers w) (tail (Fs_faults w)) in
  match default Pass (head (Fs_faults w)) with
  | Pass => (Done (), w')
  | Fail e => (Failed (on_error e), w')
  | Kill => (Killed, w')
  end.

Definition fs_exists (path : string) : fs bool := λ w,
  (Done (bool_decide (is_Some (Fs_files w !! path)) && default true (head (Fs_answers w))),
   mkFs (Fs_files w) (tail (Fs_answers w)) (Fs_faults w)).

(** Whether a file is there, as the operating system knows it. *)
Definition fs_present (path : string) : fs bool := λ w,
  (Done (bool_decide (is_Some (Fs_files w !! path))), w).

(** [OpenOptions::read(true).open(path)]. *)
Definition fs_open (path : string) : fs () :=
  _ ← fs_step StoreError_Io;
  present ← fs_present path;
  if present : bool then mret ()
  else fs_fail (StoreError_Io (mkIoError NotFound "No such file or directory")).

(** The contents of an open file. *)
Definition fs_contents (path : string) : fs bytes := λ w,
  (Done (default [] (Fs_files w !! path)), w).

Definition fs_update (f : gmap string bytes → gmap string bytes) : fs () := λ w,
  (Done (), mkFs (f (Fs_files w)) (Fs_answers w) (Fs_faults w)).

(** [temp.persist(path)]: the rename puts the whole contents in place. *)
Definition fs_rename (path : string) (contents : bytes) : fs () :=
  _ ← fs_step (λ e, StoreError_AtomicRename path (IoError_message e));
  fs_update <[path := contents]>.

(** [remove_file_if_exists]: a missing file is [NotFound], which is no error. *)
Definition remove_file_if_exists (path : string) : fs () :=
  _ ← fs_step StoreError_Io;
  fs_update (delete path).

(** [match result { Err(e) => .., Ok(()) => .. }] around a call: a kill goes
    through. *)
Definition fs_try {A} (m : fs A) : fs (outcome StoreError A) := λ w,
  match m w with
  | (Done a, w) => (Done (Ok a), w)
  | (Failed e, w) => (Done (Err e), w)
  | (Killed, w) => (Killed, w)
  end.

(** ** Locks *)

(** [acquire_lock_path]: [WouldBlock] until the deadline is a timeout. *)
Definition acquire_lock_path (path : string) : fs () :=
  fs_step (λ e,
    if bool_decide (IoError_kind e = WouldBlock) then StoreError_LockTimeout path
    else StoreError_Io e).

(** [sidecar_lock_path]: the name of the target with [.lock] behind it, in the
    same directory. *)
Definition sidecar_lock_path (target : string) : string := target +:+ ".lock".

Fixpoint acquire_all (paths : list string) : fs () :=
  match paths with
  | [] => mret ()
  | path :: paths => _ ← acquire_lock_path path; acquire_all paths
  end.

(** The byte order of paths, for [BTreeSet]. *)
Definition path_le (a b : string) : Prop := String.leb a b = true.
#[global] Instance path_le_dec a b : Decision (path_le a b).
Proof. unfold path_le. apply _. Defined.

(** [acquire_target_locks]: each sidecar once, in order. *)
Definition acquire_target_locks (targets : list string) : fs () :=
  acquire_all (merge_sort path_le (remove_dups (sidecar_lock_path <$> targets))).

(** * A crash logic for the file system of the store

    Triples for the operations of [Store] that say what the files are when a
    computation finishes, fails or is killed. *)

(** ** A crash logic

    [spec X m F Q I]: run from the files [F] with every query answered, [m]
    finishes with [Q], or stops (an error or a kill) with the files in [I]; it
    stops of its own accord, with no fault injected, only if [X]. *)

Definition honest (w : Fs) : Prop := Forall (λ b, b = true) (Fs_answers w).
Definition calm (w : Fs) : Prop := Forall (λ f, f = Pass) (Fs_faults w).

Notation files := (gmap string bytes).

Definition spec (X : Prop) {A} (m : fs A) (F : files) (Q : A → files → Prop) (I : files → Prop) :
    Prop :=
  ∀ w, Fs_files w = F → honest w →
    honest (m w).2 ∧ (calm w → calm (m w).2) ∧
    match (m w).1 with
    | Done a => Q a (Fs_files (m w).2)
    | _ => I (Fs_files (m w).2) ∧ (calm w → X)
    end.

Section Logic.
Context {X : Prop}.
Implicit Types F : files.

Lemma spec_mono {A} (m : fs A) F Q Q' (I I' : files → Prop) :
  spec X m F Q I → (∀ a F', Q a F' → Q' a F') → (∀ F', I F' → I' F') → spec X m F Q' I'.
Proof.
  intros Hm HQ HI w Hw Hh. destruct (Hm w Hw Hh) as (? & ? & Hr). split_and!; [done..|].
  destruct (m w) as [[] ?]; simpl in *; naive_solver.
Qed.

Lemma spec_ret {A} (a : A) F Q I : Q a F → spec X (mret a) F Q I.
Proof. intros HQ w <- Hh. done. Qed.

Lemma spec_bind {A B} (m : fs A) (f : A → fs B) F Q I :
  spec X m F (λ a F', spec X (f a) F' Q I) I → spec X (m ≫= f) F Q I.
Proof.
  intros Hm w Hw Hh. destruct (Hm w Hw Hh) as (Hh' & Hc & Hr).
  unfold mbind, fs_bind. destruct (m w) as [[a|e|] w']; simpl in *; [|done..].
  destruct (Hr w' eq_refl Hh') as (? & ? & Hf).
  split_and!; [done|naive_solver|]. destruct (f a w') as [[] ?]; simpl in *; naive_solver.
Qed.

Lemma calm_tail w a : calm w → calm (mkFs (Fs_files w) a (tail (Fs_faults w))).
Proof. unfold calm. intros []; simpl; done. Qed.

Lemma spec_step k F (Q : () → files → Prop) I : Q () F → I F → spec X (fs_step k) F Q I.
Proof.
  intros HQ HI w <- Hh. unfold fs_step.
  assert (calm w → default Pass (head (Fs_faults w)) = Pass) as Hp.
  { unfold calm. by intros []. }
  split_and!; try (by destruct (default _ _)).
  - intros Hc. apply (calm_tail w (Fs_answers w)) in Hc. by destruct (default _ _).
  - destruct (default _ _); simpl; [done|..]; split; naive_solver.
Qed.

Lemma spec_exists p F (Q : bool → files → Prop) I :
  Q (bool_decide (is_Some (F !! p))) F → spec X (fs_exists p) F Q I.
Proof.
  intros HQ w <- Hh. unfold fs_exists. simpl. split_and!; [|done|].
  - unfold honest in *. simpl. by destruct Hh.
  - unfold honest in Hh. replace (default true (head (Fs_answers w))) with true
      by (by destruct Hh). by rewrite andb_true_r.
Qed.

Lemma spec_contents p F (Q : bytes → files → Prop) I :
  Q (default [] (F !! p)) F → spec X (fs_contents p) F Q I.
Proof. intros HQ w <- Hh. done. Qed.

Lemma spec_update f F (Q : () → files → Prop) I : Q () (f F) → spec X (fs_update f) F Q I.
Proof. intros HQ w <- Hh. done. Qed.

Lemma spec_fail {A} e F (Q : A → files → Prop) (I : files → Prop) :
  X → I F → spec X (fs_fail e) F Q I.
Proof. intros HX HI w <- Hh. done. Qed.

Lemma spec_lift_ok {A} (m : outcome StoreError A) a F (Q : A → files → Prop) I :
  m = Ok a → Q a F → spec X (fs_lift m) F Q I.
Proof. intros -> HQ. by apply spec_ret. Qed.

Lemma spec_lift {A} (m : outcome StoreError A) F (Q : A → files → Prop) (I : files → Prop) :
  (∀ a, m = Ok a → Q a F) → (is_Ok m = false → X) → I F → spec X (fs_lift m) F Q I.
Proof. intros HQ HX HI w <- Hh. destruct m; simpl; auto. Qed.

Lemma spec_present p F (Q : bool → files → Prop) I :
  Q (bool_decide (is_Some (F !! p))) F → spec X (fs_present p) F Q I.
Proof. intros HQ w <- Hh. done. Qed.

(** A caught error goes on from any state in which the call may stop. *)
Lemma spec_try {A} (m : fs A) F (Q : outcome StoreError A → files → Prop) (I : files → Prop) :
  spec X m F (λ a, Q (Ok a)) (λ F', I F' ∧ ∀ e, Q (Err e) F') → spec X (fs_try m) F Q I.
Proof.
  intros Hm w Hw Hh. destruct (Hm w Hw Hh) as (? & ? & Hr). unfold fs_try.
  destruct (m w) as [[] ?]; simpl in *; naive_solver.
Qed.

Lemma spec_rename p c F (Q : () → files → Prop) (I : files → Prop) :
  Q () (<[p := c]> F) → I F → spec X (fs_rename p c) F Q I.
Proof. intros. apply spec_bind, spec_step; [|done]. by apply spec_update. Qed.

Lemma spec_remove p F (Q : () → files → Prop) (I : files → Prop) :
  Q () (delete p F) → I F → spec X (remove_file_if_exists p) F Q I.
Proof. intros. apply spec_bind, spec_step; [|done]. by apply spec_update. Qed.

Lemma spec_locks ts F (Q : () → files → Prop) (I : files → Prop) :
  Q () F → I F → spec X (acquire_target_locks ts) F Q I.
Proof.
  intros HQ HI. unfold acquire_target_locks. induction (merge_sort _ _) as [|p ps IH]; simpl.
  - by apply spec_ret.
  - by apply spec_bind, spec_step.
Qed.
End Logic.
