(* ===== verification/History.v ===== *)
(** * Message history (crates/meshquill-store/src/lib.rs)

    The opt-in plaintext history: its records and their validation, the bounded
    line-by-line loader, the merge of the canonical file with the adjacent legacy
    file, and the operations of [HistoryStore], each over the file system of
    [Store].  [serde_json] is a class: two functions, and what its documentation
    says of them as laws. *)

From stdpp Require Import sorting.
From S2P Require Import Prelude Text Domain Store.

(** ** Records *)

Definition HISTORY_FORMAT_VERSION : u8 := 1.
Definition MAX_PROFILE_IDENTIFIER_BYTES : nat := 64.
Definition MAX_HISTORY_MESSAGES : Z := 100000.
Definition MAX_HISTORY_ENTRY_BYTES : u64 := 8192.

Inductive HistoryDirection := Incoming | Outgoing.

Inductive HistoryStatus :=
| Status_Pending | Status_Acknowledged | Status_TimedOut | Status_Failed | Status_Received.

(** [id] is the UUID as a number: [Uuid] is ordered by its bytes. *)
Record HistoryEntry := mkHistoryEntry {
  HistoryEntry_version : u8;
  HistoryEntry_id : Z;
  HistoryEntry_recorded_at_unix_ms : u64;
  HistoryEntry_direction : HistoryDirection;
  HistoryEntry_peer : rstring;
  HistoryEntry_channel : option u8;
  HistoryEntry_text : rstring;
  HistoryEntry_status : HistoryStatus;
  HistoryEntry_acknowledgement : option bytes
}.

#[global] Instance HistoryDirection_eq_dec : EqDecision HistoryDirection.
Proof. solve_decision. Defined.
#[global] Instance HistoryStatus_eq_dec : EqDecision HistoryStatus.
Proof. solve_decision. Defined.
#[global] Instance HistoryEntry_eq_dec : EqDecision HistoryEntry.
Proof. solve_decision. Defined.

(** What the field types of [HistoryEntry] guarantee. *)
Definition HistoryEntry_wf (e : HistoryEntry) : Prop :=
  is_u8 (HistoryEntry_version e) ∧ is_uint 128 (HistoryEntry_id e) ∧
  is_uint 64 (HistoryEntry_recorded_at_unix_ms e) ∧
  is_rstring (HistoryEntry_peer e) ∧ is_rstring (HistoryEntry_text e) ∧
  from_option is_u8 True (HistoryEntry_channel e) ∧
  from_option (λ a, is_bytes a ∧ length a = 4) True (HistoryEntry_acknowledgement e).

#[global] Instance HistoryEntry_wf_dec e : Decision (HistoryEntry_wf e).
Proof.
  unfold HistoryEntry_wf.
  destruct (HistoryEntry_channel e), (HistoryEntry_acknowledgement e); simpl; apply _.
Defined.

Definition validate_history_text (value : rstring) (maximum : nat) (field : string) :
    outcome StoreError () :=
  if bool_decide (value = []) || (maximum <? length value)%nat || bool_decide (0%Z ∈ value)
  then invalid field ("must contain 1 to " +:+ pretty maximum +:+ " UTF-8 bytes without NUL")
  else Ok ().

Definition status_matches_direction (d : HistoryDirection) (s : HistoryStatus) : bool :=
  match d, s with
  | Incoming, Status_Received => true
  | Outgoing, (Status_Pending | Status_Acknowledged | Status_TimedOut | Status_Failed) => true
  | _, _ => false
  end.

Definition HistoryEntry_validate (e : HistoryEntry) : outcome StoreError () :=
  if negb (HistoryEntry_version e =? HISTORY_FORMAT_VERSION)%Z then
    invalid "history.version" "unsupported history entry version"
  else
  _ ← validate_history_text (HistoryEntry_peer e) 256 "history.peer";
  _ ← validate_history_text (HistoryEntry_text e) 1024 "history.text";
  if negb (status_matches_direction (HistoryEntry_direction e) (HistoryEntry_status e)) then
    invalid "history.status" "status does not match message direction"
  else if bool_decide (HistoryEntry_status e = Status_Acknowledged)
          && bool_decide (HistoryEntry_acknowledgement e = None) then
    invalid "history.acknowledgement" "acknowledged messages require a correlation code"
  else Ok ().

(** [HistoryEntry::new]: the milliseconds since the epoch the host clock gives
    ([None] before it), and a fresh [Uuid::now_v7]. *)
Definition HistoryEntry_new (now : option Z) (fresh : Z) (direction : HistoryDirection)
    (peer : rstring) (channel : option u8) (text : rstring) (status : HistoryStatus)
    (acknowledgement : option bytes) : outcome StoreError HistoryEntry :=
  millis ← ok_or now
    (StoreError_Validation "history.recorded_at_unix_ms" "host clock is before the Unix epoch");
  if negb (millis <? 2 ^ 64)%Z then
    invalid "history.recorded_at_unix_ms" "host timestamp is not representable"
  else
  let entry := mkHistoryEntry HISTORY_FORMAT_VERSION fresh millis direction peer channel text
                 status acknowledgement in
  _ ← HistoryEntry_validate entry;
  Ok entry.

(** [validate_identifier], over the ASCII bytes of the name. *)
Definition validate_identifier (name : rstring) : bool :=
  match name with
  | [] => false
  | first :: rest =>
      if (MAX_PROFILE_IDENTIFIER_BYTES <? length name)%nat then false
      else if negb (is_ascii_alphabetic first || (first =? 0x5f)%Z) then false
      else forallb (λ b, is_ascii_alphanumeric b || (b =? 0x5f)%Z || (b =? 0x2d)%Z) rest
  end.

(** ** serde_json *)

Class HistoryCodec := {
  entry_to_vec : HistoryEntry → outcome string bytes;
  entry_from_str : rstring → outcome string HistoryEntry
}.

(** A record is one line of printable UTF-8: control characters are escaped, a
    byte of a string takes six bytes at most, and what is around the two strings
    is less than 256 bytes.  What was written is read back, and what is read fits
    the fields' types. *)
Class HistoryCodecLaws `{HistoryCodec} : Prop := {
  to_vec_ok e : HistoryEntry_wf e → ∃ s, entry_to_vec e = Ok s;
  to_vec_str e s : HistoryEntry_wf e → entry_to_vec e = Ok s →
    is_rstring s ∧ Forall (λ b, (0x20 <= b)%Z) s;
  to_vec_length e s : HistoryEntry_wf e → entry_to_vec e = Ok s →
    length s ≤ 6 * (length (HistoryEntry_peer e) + length (HistoryEntry_text e)) + 256;
  from_to e s : HistoryEntry_wf e → entry_to_vec e = Ok s → entry_from_str s = Ok e;
  from_str_wf s e : entry_from_str s = Ok e → HistoryEntry_wf e;
  codec_no_panic e s : entry_to_vec e ≠ Panic ∧ entry_from_str s ≠ Panic
}.

(** ** Reading lines *)

(** [reader.take(limit).read_line]: through the next newline, or [limit] bytes,
    or what is left. *)
Fixpoint read_line (limit : nat) (l : bytes) : bytes * bytes :=
  match limit, l with
  | S limit, b :: l =>
      if (b =? 0x0a)%Z then ([b], l) else let (line, rest) := read_line limit l in (b :: line, rest)
  | _, _ => ([], l)
  end.

Fixpoint read_lines_fuel (fuel limit : nat) (l : bytes) : list bytes :=
  match fuel with
  | 0 => []
  | S fuel =>
      match read_line limit l with
      | ([], _) => []
      | (line, rest) => line :: read_lines_fuel fuel limit rest
      end
  end.
Definition read_lines (limit : nat) (l : bytes) : list bytes :=
  read_lines_fuel (length l) limit l.

Definition strip_suffix (b : Z) (l : bytes) : bytes :=
  match rev l with
  | c :: r => if (c =? b)%Z then rev r else l
  | [] => l
  end.

Definition not_utf8 : StoreError :=
  StoreError_Io (mkIoError InvalidData "stream did not contain valid UTF-8").

(** ** The store *)

Record HistoryStore := mkHistoryStore {
  HistoryStore_path : string;
  HistoryStore_legacy_path : option string;
  HistoryStore_max_messages : nat
}.

Definition with_optional_legacy (path : string) (legacy_path : option string)
    (max_messages : u32) : outcome StoreError HistoryStore :=
  if negb ((1 <=? max_messages)%Z && (max_messages <=? 100000)%Z) then
    invalid "history.max_messages" "must be between 1 and 100000"
  else Ok (mkHistoryStore path legacy_path (Z.to_nat max_messages)).

Definition HistoryStore_new (path : string) (max_messages : u32) : outcome StoreError HistoryStore :=
  with_optional_legacy path None max_messages.

Definition with_legacy (canonical_path legacy_path : string) (max_messages : u32) :
    outcome StoreError HistoryStore :=
  with_optional_legacy canonical_path
    (if bool_decide (legacy_path ≠ canonical_path) then Some legacy_path else None) max_messages.

Definition lock_targets (self : HistoryStore) : list string :=
  HistoryStore_path self :: option_list (HistoryStore_legacy_path self).

Definition history_le (left right : HistoryEntry) : Prop :=
  (HistoryEntry_recorded_at_unix_ms left < HistoryEntry_recorded_at_unix_ms right)%Z ∨
  (HistoryEntry_recorded_at_unix_ms left = HistoryEntry_recorded_at_unix_ms right ∧
   HistoryEntry_id left <= HistoryEntry_id right)%Z.
#[global] Instance history_le_dec : RelDecision history_le.
Proof. intros a b. unfold history_le. apply _. Defined.

(** [BTreeMap::insert] of each entry under its id, in order. *)
Definition insert_all (entries : list HistoryEntry) (m : gmap Z HistoryEntry) : gmap Z HistoryEntry :=
  fold_left (λ m e, <[HistoryEntry_id e := e]> m) entries m.

(** [entries.drain(..excess)]. *)
Definition drain_excess (max_messages : nat) (entries : list HistoryEntry) : list HistoryEntry :=
  drop (length entries - max_messages) entries.

(** The keys of the sort are distinct, so the order of [into_values] does not
    matter. *)
Definition merge_entries (self : HistoryStore) (lower_priority higher_priority : list HistoryEntry) :
    list HistoryEntry :=
  let by_id := insert_all (lower_priority ++ higher_priority) ∅ in
  drain_excess (HistoryStore_max_messages self)
    (merge_sort history_le (map_to_list by_id).*2).

Section Store.
Context `{HistoryCodec}.

(** One line of the file. *)
Definition parse_line (path : string) (line : bytes) : outcome StoreError HistoryEntry :=
  line ← ok_or (from_utf8 line) not_utf8;
  let line := strip_suffix 0x0d (strip_suffix 0x0a line) in
  if (MAX_HISTORY_ENTRY_BYTES <? Z.of_nat (length line))%Z then
    invalid "history.entry" "history entry exceeds its byte bound"
  else
  entry ← map_err (StoreError_Parse path) (entry_from_str line);
  _ ← HistoryEntry_validate entry;
  Ok entry.

(** The loop of [load_path] over the lines. *)
Fixpoint load_lines (path : string) (lines : list bytes) (entries : list HistoryEntry) :
    fs (list HistoryEntry) :=
  _ ← fs_step StoreError_Io;
  match lines with
  | [] => mret entries
  | line :: lines =>
      entry ← fs_lift (parse_line path line);
      let entries := entries ++ [entry] in
      if (MAX_HISTORY_MESSAGES <? Z.of_nat (length entries))%Z then
        fs_fail (StoreError_Validation "history.file"
          "history file contains more entries than the global input bound")
      else load_lines path lines entries
  end.

Definition load_path (path : string) : fs (list HistoryEntry) :=
  present ← fs_exists path;
  if negb present then mret [] else
  let maximum := (MAX_HISTORY_MESSAGES * (MAX_HISTORY_ENTRY_BYTES + 2))%Z in
  _ ← fs_step StoreError_Io;
  contents ← fs_contents path;
  if (maximum <? Z.of_nat (length contents))%Z then
    fs_fail (StoreError_Validation "history.file" "history file exceeds the global input bound")
  else
  _ ← fs_step StoreError_Io;
  load_lines path (read_lines (Z.to_nat (MAX_HISTORY_ENTRY_BYTES + 3)) contents) [].

(** The lines of the temporary file. *)
Fixpoint encode_entries (entries : list HistoryEntry) : fs bytes :=
  match entries with
  | [] => mret []
  | entry :: entries =>
      encoded ← fs_lift (map_err StoreError_Serde (entry_to_vec entry));
      if (MAX_HISTORY_ENTRY_BYTES <? Z.of_nat (length encoded))%Z then
        fs_fail (StoreError_Validation "history.entry"
          "serialized history entry exceeds its byte bound")
      else
      _ ← fs_step StoreError_Io;
      rest ← encode_entries entries;
      mret (encoded ++ 0x0a%Z :: rest)
  end.

(** The steps: preparing the directory and the temporary file, its lines,
    flush and sync, the rename, and on Unix the sync of the directory. *)
Definition persist (self : HistoryStore) (entries : list HistoryEntry) : fs () :=
  _ ← fs_step StoreError_Io;
  contents ← encode_entries entries;
  _ ← fs_step StoreError_Io;
  _ ← fs_rename (HistoryStore_path self) contents;
  fs_step StoreError_Io.

Definition load_canonical (self : HistoryStore) (canonical : list HistoryEntry) :
    fs (list HistoryEntry) :=
  let entries := merge_entries self [] canonical in
  _ ← (if bool_decide (length entries ≠ length canonical) then persist self entries else mret ());
  mret entries.

Definition load_unlocked (self : HistoryStore) : fs (list HistoryEntry) :=
  canonical ← load_path (HistoryStore_path self);
  match HistoryStore_legacy_path self with
  | None => load_canonical self canonical
  | Some legacy_path =>
      present ← fs_exists legacy_path;
      if negb present then load_canonical self canonical else
      legacy ← load_path legacy_path;
      let entries := merge_entries self legacy canonical in
      _ ← persist self entries;
      _ ← remove_file_if_exists legacy_path;
      mret entries
  end.

Definition load (self : HistoryStore) : fs (list HistoryEntry) :=
  _ ← acquire_target_locks (lock_targets self);
  load_unlocked self.

(** [entries.iter_mut().find(..)], replaced in place, or pushed. *)
Fixpoint replace_or_push (entry : HistoryEntry) (entries : list HistoryEntry) : list HistoryEntry :=
  match entries with
  | [] => [entry]
  | existing :: entries =>
      if (HistoryEntry_id existing =? HistoryEntry_id entry)%Z then entry :: entries
      else existing :: replace_or_push entry entries
  end.

Definition upsert (self : HistoryStore) (entry : HistoryEntry) : fs () :=
  _ ← fs_lift (HistoryEntry_validate entry);
  _ ← acquire_target_locks (lock_targets self);
  entries ← load_unlocked self;
  let entries := merge_sort history_le (replace_or_push entry entries) in
  persist self (drain_excess (HistoryStore_max_messages self) entries).

(** [||] and [is_some_and] ask for the legacy file only when needed. *)
Definition any_path_exists (self : HistoryStore) : fs bool :=
  present ← fs_exists (HistoryStore_path self);
  if present : bool then mret true else
  match HistoryStore_legacy_path self with
  | None => mret false
  | Some legacy => fs_exists legacy
  end.

(** Both removals are tried; the first error wins. *)
Definition clear_unlocked (self : HistoryStore) : fs () :=
  canonical_result ← fs_try (remove_file_if_exists (HistoryStore_path self));
  legacy_result ← fs_try (from_option remove_file_if_exists (mret ()) (HistoryStore_legacy_path self));
  fs_lift (_ ← canonical_result; legacy_result).

Definition clear (self : HistoryStore) : fs () :=
  _ ← acquire_target_locks (lock_targets self);
  clear_unlocked self.

Definition copy_to (self destination : HistoryStore) : fs () :=
  _ ← acquire_target_locks (lock_targets self ++ lock_targets destination);
  occupied ← any_path_exists destination;
  if occupied : bool then
    fs_fail (StoreError_Validation "history.destination"
      "retained destination history must be cleared before copying")
  else
  source_entries ← load_unlocked self;
  skip ← (if bool_decide (source_entries = [])
          then present ← fs_exists (HistoryStore_path self); mret (negb present)
          else mret false);
  if skip : bool then mret () else persist destination source_entries.

(** The end of [move_to_with]: the owner is updated, and one side cleared. *)
Definition finish_move (self destination : HistoryStore) (source_present : bool)
    (update_owner : fs ()) : fs bool :=
  updated ← fs_try update_owner;
  match updated with
  | Ok _ => _ ← clear_unlocked self; mret source_present
  | Err error =>
      _ ← (if source_present : bool
           then _ ← fs_try (clear_unlocked destination); mret () else mret ());
      fs_fail error
  | Panic => λ w, (Killed, w)
  end.

Definition move_to_with (self destination : HistoryStore) (update_owner : fs ()) : fs bool :=
  _ ← acquire_target_locks (lock_targets self ++ lock_targets destination);
  occupied ← any_path_exists destination;
  if occupied : bool then
    fs_fail (StoreError_Validation "history.destination"
      "retained destination history must be cleared before profile rename")
  else
  source_present ← any_path_exists self;
  source_entries ← load_unlocked self;
  _ ← (if source_present : bool then persist destination source_entries else mret ());
  finish_move self destination source_present update_owner.
End Store.
