(* ===== verification/HistoryFacts.v ===== *)
(** * Facts about the history store

    The retention order of the history, the keyed lists it works on, what its files
    hold, and a triple of the crash logic for each operation. *)

From stdpp Require Import sorting.
From S2P Require Import Prelude Text Domain Store History.

(** ** The retention order *)

#[global] Instance history_le_trans : Transitive history_le.
Proof. intros a b c. unfold history_le. lia. Qed.
#[global] Instance history_le_total : Total history_le.
Proof. intros a b. unfold history_le. lia. Qed.

Lemma history_le_id a b : history_le a b → history_le b a → HistoryEntry_id a = HistoryEntry_id b.
Proof. unfold history_le. lia. Qed.

Definition values (m : gmap Z HistoryEntry) : list HistoryEntry := (map_to_list m).*2.

(** Every entry is filed under its own id. *)
Definition keyed (m : gmap Z HistoryEntry) : Prop :=
  ∀ i e, m !! i = Some e → HistoryEntry_id e = i.

Definition entry_map (entries : list HistoryEntry) : gmap Z HistoryEntry := insert_all entries ∅.

(** The [n] newest entries of a map, oldest first. *)
Definition retained (n : nat) (m : gmap Z HistoryEntry) : list HistoryEntry :=
  drain_excess n (merge_sort history_le (values m)).

Lemma elem_of_values m e : e ∈ values m ↔ ∃ i, m !! i = Some e.
Proof.
  unfold values. rewrite list_elem_of_fmap. split.
  - intros ([i x] & -> & Hi%elem_of_map_to_list). eauto.
  - intros [i Hi]. exists (i, e). by rewrite elem_of_map_to_list.
Qed.

Lemma entry_keyed_empty : keyed ∅.
Proof. intros i e. by rewrite lookup_empty. Qed.
Lemma keyed_insert e m : keyed m → keyed (<[HistoryEntry_id e := e]> m).
Proof. intros Hm i x. rewrite lookup_insert_Some. naive_solver. Qed.
Lemma keyed_insert_all es m : keyed m → keyed (insert_all es m).
Proof.
  unfold insert_all. revert m. induction es as [|e es IH]; intros m Hm; simpl; [done|].
  by apply IH, keyed_insert.
Qed.
Lemma keyed_entry_map es : keyed (entry_map es).
Proof. apply keyed_insert_all, entry_keyed_empty. Qed.
Lemma keyed_union m1 m2 : keyed m1 → keyed m2 → keyed (m1 ∪ m2).
Proof. intros H1 H2 i e. rewrite lookup_union_Some_raw. naive_solver. Qed.

Lemma insert_all_union es m : insert_all es m = insert_all es ∅ ∪ m.
Proof.
  revert m. induction es as [|e es IH] using rev_ind; intros m.
  - simpl. by rewrite (left_id_L ∅ (∪)).
  - unfold insert_all in *. rewrite !fold_left_app. simpl. by rewrite IH, insert_union_l.
Qed.

Lemma entry_map_app l h : entry_map (l ++ h) = entry_map h ∪ entry_map l.
Proof. unfold entry_map at 1, insert_all. rewrite fold_left_app. apply insert_all_union. Qed.

Lemma elem_of_entry_map es x : x ∈ values (entry_map es) → x ∈ es.
Proof.
  rewrite elem_of_values. intros [i Hi]. revert Hi. induction es as [|e es IH] using rev_ind.
  - unfold entry_map. simpl. by rewrite lookup_empty.
  - rewrite entry_map_app, lookup_union_Some_raw, elem_of_app, list_elem_of_singleton.
    intros [Hx|[_ Hx]]; [right|left; by apply IH].
    unfold entry_map in Hx. simpl in Hx. rewrite lookup_insert_Some, lookup_empty in Hx. naive_solver.
Qed.

(** In a keyed map two entries that are equal in the order are the same. *)
Lemma keyed_antisymm m x y : keyed m → x ∈ values m → y ∈ values m →
  history_le x y → history_le y x → x = y.
Proof.
  intros Hm [i Hi]%elem_of_values [j Hj]%elem_of_values H1 H2.
  pose proof (history_le_id _ _ H1 H2). rewrite (Hm _ _ Hi), (Hm _ _ Hj) in *. congruence.
Qed.

Lemma sort_unique m l : keyed m → l ≡ₚ values m → StronglySorted history_le l →
  merge_sort history_le (values m) = l.
Proof.
  intros Hm Hp Hs. apply (StronglySorted_unique_strong history_le).
  - intros x y Hx Hy. apply keyed_antisymm with m; [done|..].
    + by rewrite <- (merge_sort_Permutation history_le).
    + by rewrite <- Hp.
  - apply StronglySorted_merge_sort; apply _.
  - done.
  - by rewrite merge_sort_Permutation.
Qed.

Lemma sorted_drop {A} (R : relation A) n l : StronglySorted R l → StronglySorted R (drop n l).
Proof. rewrite <- (take_drop n l) at 1. apply StronglySorted_app_1_r. Qed.

Lemma filter_none {A} (P : A → Prop) `{∀ x, Decision (P x)} (l : list A) :
  (∀ x, x ∈ l → ¬ P x) → filter P l = [].
Proof.
  induction l as [|x l IH]; intros Hl; [done|]. rewrite filter_cons_False by (apply Hl; set_solver).
  apply IH. intros y Hy. apply Hl. set_solver.
Qed.
Lemma filter_all {A} (P : A → Prop) `{∀ x, Decision (P x)} (l : list A) :
  (∀ x, x ∈ l → P x) → filter P l = l.
Proof.
  induction l as [|x l IH]; intros Hl; [done|]. rewrite filter_cons_True by (apply Hl; set_solver).
  f_equal. apply IH. intros y Hy. apply Hl. set_solver.
Qed.

Lemma drain_excess_app n a b : length b ≤ n → (a = [] ∨ length b = n) →
  drain_excess n (a ++ b) = b.
Proof.
  intros Hn Ha. unfold drain_excess. rewrite length_app, drop_app_length'; [done|].
  destruct Ha as [->|]; simpl in *; lia.
Qed.

(** Entries below a full block of newest entries do not matter. *)
Lemma retained_block n m a b : keyed m → a ++ b ≡ₚ values m → StronglySorted history_le b →
  (∀ x y, x ∈ a → y ∈ b → history_le x y) → length b ≤ n → (a = [] ∨ length b = n) →
  retained n m = b.
Proof.
  intros Hm Hp Hb Hab Hn Ha. unfold retained.
  rewrite (sort_unique m (merge_sort history_le a ++ b)); [|done|..].
  - apply drain_excess_app; [done|]. destruct Ha as [->|]; [by left|by right].
  - by rewrite merge_sort_Permutation.
  - apply StronglySorted_app_2; [|apply StronglySorted_merge_sort; apply _|done].
    intros x y Hx. apply Hab. by rewrite <- (merge_sort_Permutation history_le).
Qed.

(** The retained list is the newest part of the sorted values. *)
Lemma retained_split n m : ∃ a,
  a ++ retained n m ≡ₚ values m ∧ StronglySorted history_le (a ++ retained n m) ∧
  length (retained n m) ≤ n ∧ (a = [] ∨ length (retained n m) = n).
Proof.
  set (l := merge_sort history_le (values m)).
  exists (take (length l - n) l). unfold retained, drain_excess. fold l.
  rewrite take_drop, length_drop. split_and!.
  - apply merge_sort_Permutation.
  - apply StronglySorted_merge_sort; apply _.
  - lia.
  - destruct (decide (length l ≤ n)).
    + left. by rewrite (proj2 (Nat.sub_0_le _ _)).
    + right. lia.
Qed.

Lemma merge_entries_retained self l h :
  merge_entries self l h = retained (HistoryStore_max_messages self) (entry_map h ∪ entry_map l).
Proof. unfold merge_entries. by rewrite <- entry_map_app. Qed.

(** ** Lists with distinct ids *)

Definition ids (entries : list HistoryEntry) : list Z := HistoryEntry_id <$> entries.

Lemma NoDup_ids_values m : keyed m → NoDup (ids (values m)).
Proof.
  intros Hm. unfold ids, values. rewrite <- list_fmap_compose.
  rewrite (list_fmap_ext _ fst).
  - apply NoDup_fst_map_to_list.
  - intros k [i e] He%list_elem_of_lookup_2%elem_of_map_to_list. simpl. by apply Hm.
Qed.

Lemma NoDup_ids es : NoDup (ids es) → NoDup es.
Proof. apply NoDup_fmap_1. Qed.

Lemma ids_inj es x y : NoDup (ids es) → x ∈ es → y ∈ es → HistoryEntry_id x = HistoryEntry_id y → x = y.
Proof.
  intros Hnd [i Hi]%list_elem_of_lookup [j Hj]%list_elem_of_lookup Hid.
  assert (i = j) as ->; [|congruence].
  apply (NoDup_lookup _ _ _ (HistoryEntry_id x) Hnd).
  - unfold ids. by rewrite list_lookup_fmap, Hi.
  - unfold ids. by rewrite list_lookup_fmap, Hj, Hid.
Qed.

Lemma entry_map_lookup es i x : NoDup (ids es) →
  entry_map es !! i = Some x ↔ x ∈ es ∧ HistoryEntry_id x = i.
Proof.
  intros Hnd. induction es as [|e es IH] using rev_ind.
  - unfold entry_map. simpl. rewrite lookup_empty. set_solver.
  - unfold ids in Hnd. rewrite fmap_app in Hnd. apply NoDup_app in Hnd as (Hnd & Hd & _).
    rewrite entry_map_app, lookup_union_Some_raw, IH by done. unfold entry_map at 1 2.
    simpl. rewrite lookup_insert_Some, lookup_empty, lookup_insert_None, elem_of_app, list_elem_of_singleton.
    split; [naive_solver|]. intros [[Hx| ->] <-]; [|naive_solver]. right. split_and!; [done| |done|done].
    intros Heq. apply (Hd (HistoryEntry_id x)); [by apply list_elem_of_fmap_2|].
    rewrite <- Heq. by apply list_elem_of_fmap_2, list_elem_of_singleton.
Qed.

Lemma values_entry_map es : NoDup (ids es) → values (entry_map es) ≡ₚ es.
Proof.
  intros Hnd. apply NoDup_Permutation.
  - apply NoDup_ids, NoDup_ids_values, keyed_entry_map.
  - by apply NoDup_ids.
  - intros x. rewrite elem_of_values. setoid_rewrite entry_map_lookup; [|done]. naive_solver.
Qed.

Lemma values_union a b : keyed a → keyed b → a ##ₘ b → values (a ∪ b) ≡ₚ values a ++ values b.
Proof.
  intros Ha Hb Hd. apply NoDup_Permutation.
  - by apply NoDup_ids, NoDup_ids_values, keyed_union.
  - apply NoDup_app. split_and!; [by apply NoDup_ids, NoDup_ids_values..| |by apply NoDup_ids, NoDup_ids_values].
    intros x [i Hi]%elem_of_values [j Hj]%elem_of_values. pose proof (Ha _ _ Hi). pose proof (Hb _ _ Hj).
    subst. by apply (map_disjoint_spec a b) with (HistoryEntry_id x) x x.
  - intros x. rewrite elem_of_app, !elem_of_values. setoid_rewrite lookup_union_Some; [|done]. naive_solver.
Qed.

(** The shape of every list the store keeps. *)
Record retained_list (n : nat) (es : list HistoryEntry) : Prop := {
  retained_sorted : StronglySorted history_le es;
  retained_ids : NoDup (ids es);
  retained_length : length es ≤ n
}.

Lemma retained_list_retained n m : keyed m → retained_list n (retained n m).
Proof.
  intros Hm. destruct (retained_split n m) as (a & Hp & Hs & Hn & _). split; [|..|done].
  - by apply StronglySorted_app_1_r in Hs.
  - apply NoDup_ids_values in Hm. unfold ids in *. rewrite <- Hp, fmap_app in Hm.
    by apply NoDup_app in Hm as (_ & _ & ?).
Qed.

Lemma elem_of_retained n m x : x ∈ retained n m → x ∈ values m.
Proof.
  destruct (retained_split n m) as (a & <- & _). rewrite elem_of_app. by right.
Qed.

Lemma retained_self n es : retained_list n es → retained n (entry_map es) = es.
Proof.
  intros [Hs Hnd Hn]. apply (retained_block _ _ []); try done.
  - apply keyed_entry_map.
  - by rewrite values_entry_map.
  - by intros x y ?%not_elem_of_nil.
  - by left.
Qed.

(** Both files agree on when a record they share was first recorded. *)
Definition same_times (c l : gmap Z HistoryEntry) : Prop :=
  ∀ i a b, c !! i = Some a → l !! i = Some b →
    HistoryEntry_recorded_at_unix_ms a = HistoryEntry_recorded_at_unix_ms b.

Lemma same_times_lists c l :
  Forall (λ a, Forall (λ b, HistoryEntry_id a = HistoryEntry_id b →
    HistoryEntry_recorded_at_unix_ms a = HistoryEntry_recorded_at_unix_ms b) l) c →
  same_times (entry_map c) (entry_map l).
Proof.
  intros Hcl i a b Ha Hb. rewrite Forall_forall in Hcl. specialize (Hcl a).
  rewrite Forall_forall in Hcl. apply Hcl; [apply elem_of_entry_map, elem_of_values; eauto..|].
  by rewrite (keyed_entry_map _ _ _ Ha), (keyed_entry_map _ _ _ Hb).
Qed.

Lemma split_in_values n m x : x ∈ values m → x ∉ retained n m →
  length (retained n m) = n ∧ ∀ y, y ∈ retained n m → history_le x y.
Proof.
  destruct (retained_split n m) as (a & Hp & Hs & _ & Ha). rewrite <- Hp, elem_of_app.
  intros [Hx|] Hnot; [|done]. split.
  - destruct Ha as [->|]; [by apply not_elem_of_nil in Hx|done].
  - intros y Hy. by apply (StronglySorted_app_1_elem_of _ _ _ _ _ Hs).
Qed.

(** What the canonical file keeps is still what is retained when the legacy file
    has not been removed yet. *)
Lemma retained_with_legacy n c l : keyed c → keyed l → same_times c l →
  retained n (entry_map (retained n (c ∪ l)) ∪ l) = retained n (c ∪ l).
Proof.
  intros Hc Hl Ht. set (v := retained n (c ∪ l)).
  destruct (retained_list_retained n (c ∪ l)) as [Hs Hnd Hn]; [by apply keyed_union|]. fold v in Hs, Hnd, Hn.
  set (old := filter (λ '(i, _), entry_map v !! i = None) l).
  assert (∀ x, x ∈ values old → length v = n ∧ ∀ y, y ∈ v → history_le x y) as Hold.
  { intros x [i [Hi Hv]%map_lookup_filter_Some]%elem_of_values.
    assert (∃ z, (c ∪ l) !! i = Some z ∧
      HistoryEntry_recorded_at_unix_ms z = HistoryEntry_recorded_at_unix_ms x) as (z & Hz & Hzt).
    { destruct (c !! i) as [z|] eqn:Hci.
      - exists z. split; [by apply lookup_union_Some_l|by apply (Ht i)].
      - exists x. by rewrite lookup_union_r. }
    pose proof (keyed_union _ _ Hc Hl i z Hz) as Hzi.
    destruct (split_in_values n (c ∪ l) z) as [? Hle].
    - apply elem_of_values. eauto.
    - intros Hin. fold v in Hin. by rewrite (proj2 (entry_map_lookup v i z Hnd)) in Hv.
    - split; [done|]. intros y Hy. specialize (Hle y Hy). apply Hl in Hi.
      unfold history_le in *. lia. }
  apply (retained_block _ _ (values old)); try done.
  - apply keyed_union; [apply keyed_entry_map|done].
  - replace (entry_map v ∪ l) with (old ∪ entry_map v).
    + rewrite values_union; [by rewrite (values_entry_map v)|..].
      * intros i x [? ?]%map_lookup_filter_Some. by apply Hl.
      * apply keyed_entry_map.
      * apply map_disjoint_spec. intros i x y [? ?]%map_lookup_filter_Some. congruence.
    + apply map_eq. intros i. apply option_eq. intros x. unfold old.
      rewrite !lookup_union_Some_raw, map_lookup_filter_None, map_lookup_filter_Some.
      destruct (entry_map v !! i), (l !! i); naive_solver.
  - intros x y Hx. by apply Hold.
  - destruct (values old) as [|x o] eqn:Ho; [by left|]. right.
    apply (Hold x). set_solver.
Qed.

(** ** Insertion *)

Lemma elem_of_replace_or_push e es x : NoDup (ids es) →
  x ∈ replace_or_push e es ↔ x = e ∨ (x ∈ es ∧ HistoryEntry_id x ≠ HistoryEntry_id e).
Proof.
  intros Hnd. induction es as [|y es IH]; simpl; [set_solver|].
  apply NoDup_cons in Hnd as [Hy Hnd]. destruct (Z.eqb_spec (HistoryEntry_id y) (HistoryEntry_id e)) as [Heq|].
  - rewrite !elem_of_cons. split.
    + intros [|Hx]; [by left|]. right. split; [by right|]. intros Hx'. apply Hy.
      rewrite Heq, <- Hx'. by apply list_elem_of_fmap_2.
    + intros [|[[->|] ?]]; [by left|done|by right].
  - rewrite !elem_of_cons, IH by done. naive_solver.
Qed.

Lemma NoDup_replace_or_push e es : NoDup (ids es) → NoDup (ids (replace_or_push e es)).
Proof.
  induction es as [|y es IH]; intros Hnd; [apply NoDup_singleton|].
  pose proof Hnd as Hnd'. apply NoDup_cons in Hnd' as [Hy Hes]. simpl.
  destruct (Z.eqb_spec (HistoryEntry_id y) (HistoryEntry_id e)) as [Heq|Hne].
  - apply NoDup_cons. by rewrite <- Heq.
  - apply NoDup_cons. split; [|by apply IH].
    intros (z & Hz & Hin)%list_elem_of_fmap. apply elem_of_replace_or_push in Hin as [->|[? ?]]; [done| |done].
    apply Hy. rewrite Hz. by apply list_elem_of_fmap_2.
Qed.

Lemma entry_map_replace_or_push e es : NoDup (ids es) →
  entry_map (replace_or_push e es) = <[HistoryEntry_id e := e]> (entry_map es).
Proof.
  intros Hnd. apply map_eq. intros i. apply option_eq. intros x.
  rewrite entry_map_lookup, elem_of_replace_or_push, lookup_insert_Some, entry_map_lookup
    by auto using NoDup_replace_or_push. naive_solver.
Qed.

Lemma upsert_retained n e es : NoDup (ids es) →
  drain_excess n (merge_sort history_le (replace_or_push e es)) =
  retained n (<[HistoryEntry_id e := e]> (entry_map es)).
Proof.
  intros Hnd. unfold retained. f_equal. symmetry. apply sort_unique.
  - apply keyed_insert, keyed_entry_map.
  - rewrite merge_sort_Permutation, <- entry_map_replace_or_push by done.
    by rewrite values_entry_map by auto using NoDup_replace_or_push.
  - apply StronglySorted_merge_sort; apply _.
Qed.

(** * The operations of the history store, specified

    What a history file holds, that writing and reading it are inverse, and a
    triple of the crash logic for each operation of [History]. *)

(** ** Lines *)

Lemma read_line_newline limit s rest : Forall (λ b, b ≠ 0x0a%Z) s → length s < limit →
  read_line limit (s ++ 0x0a%Z :: rest) = (s ++ [0x0a%Z], rest).
Proof.
  intros Hs. revert limit. induction Hs as [|b s Hb _ IH]; intros [|limit] Hl; simpl in *; try lia.
  - done.
  - rewrite (proj2 (Z.eqb_neq _ _) Hb), IH by lia. done.
Qed.

Definition with_newline (s : bytes) : bytes := s ++ [0x0a%Z].

Lemma read_lines_newlines limit ss :
  Forall (λ s, Forall (λ b, b ≠ 0x0a%Z) s ∧ length s < limit) ss →
  read_lines limit (concat (with_newline <$> ss)) = with_newline <$> ss.
Proof.
  intros Hss. unfold read_lines. generalize (le_n (length (concat (with_newline <$> ss)))).
  generalize (length (concat (with_newline <$> ss))) at 2 3. intros fuel. revert fuel.
  induction Hss as [|s ss [Hs Hl] _ IH]; intros fuel Hf; [by destruct fuel, limit|].
  assert (length (with_newline s) = S (length s)) as Hw.
  { unfold with_newline. rewrite length_app. simpl. lia. }
  cbn [fmap list_fmap concat] in *. rewrite length_app, Hw in Hf.
  destruct fuel as [|fuel]; [lia|]. simpl. unfold with_newline at 1. rewrite <- app_assoc. simpl.
  rewrite read_line_newline by done. destruct (s ++ [0x0a%Z]) eqn:Hc; [by destruct s|].
  rewrite <- Hc. f_equal. apply IH. lia.
Qed.

Lemma strip_newline s : strip_suffix 0x0a (with_newline s) = s.
Proof. unfold strip_suffix, with_newline. rewrite rev_app_distr. simpl. apply rev_involutive. Qed.

Lemma strip_suffix_absent b s : b ∉ s → strip_suffix b s = s.
Proof.
  unfold strip_suffix. intros Hb. destruct (rev s) as [|c r] eqn:Hr; [done|].
  destruct (Z.eqb_spec c b) as [->|]; [|done]. destruct Hb.
  apply list_elem_of_In, in_rev. rewrite Hr. by left.
Qed.

(** ** History files *)

Section Files.
Context `{HistoryCodecLaws}.
Implicit Types F : files.

(** What the entries of the store are: what their types say, and validated. *)
Definition valid_entry (e : HistoryEntry) : Prop :=
  HistoryEntry_wf e ∧ HistoryEntry_validate e = Ok ().

Definition parsed (path : string) (line : bytes) : option HistoryEntry :=
  match parse_line path line with Ok e => Some e | _ => None end.

(** What [load_path] makes of a file, [None] when it refuses it. *)
Definition file_entries (path : string) (F : files) : option (list HistoryEntry) :=
  match F !! path with
  | None => Some []
  | Some c =>
      if (MAX_HISTORY_MESSAGES * (MAX_HISTORY_ENTRY_BYTES + 2) <? Z.of_nat (length c))%Z
      then None else
      es ← mapM (parsed path) (read_lines (Z.to_nat (MAX_HISTORY_ENTRY_BYTES + 3)) c);
      if (MAX_HISTORY_MESSAGES <? Z.of_nat (length es))%Z then None else Some es
  end.

Definition encoded (e : HistoryEntry) : bytes :=
  match entry_to_vec e with Ok s => s | _ => [] end.
Definition encode_file (es : list HistoryEntry) : bytes := concat (with_newline <$> (encoded <$> es)).

Lemma parse_line_valid path line e : parse_line path line = Ok e → valid_entry e.
Proof.
  unfold parse_line. destruct (ok_or _ _) as [s| |]; simpl; try done. case_match; [done|].
  destruct (entry_from_str _) as [x| |] eqn:Hx; simpl; try done.
  destruct (HistoryEntry_validate x) as [[]| |] eqn:Hv; simpl; try done.
  intros [= ->]. split; [by eapply from_str_wf|done].
Qed.

Lemma file_entries_valid path F es : file_entries path F = Some es → Forall valid_entry es.
Proof.
  unfold file_entries. destruct (F !! path); [|by intros [= <-]]. case_match; [done|].
  rewrite bind_Some. intros (xs & Hxs%mapM_Some & Hes). case_match; [done|]. injection Hes as <-.
  clear -Hxs H0. induction Hxs as [|line x lines xs Hx _ IH]; constructor; [|done].
  unfold parsed in Hx. destruct (parse_line path line) eqn:?; simplify_eq. by eapply parse_line_valid.
Qed.

Lemma text_bound v n field : validate_history_text v n field = Ok () → length v ≤ n.
Proof.
  unfold validate_history_text. destruct (_ <? _)%nat eqn:Hn; rewrite ?orb_true_r; simpl; [done|].
  apply Nat.ltb_ge in Hn. done.
Qed.

Lemma encoded_line e : valid_entry e →
  entry_to_vec e = Ok (encoded e) ∧ (Z.of_nat (length (encoded e)) <= MAX_HISTORY_ENTRY_BYTES)%Z ∧
  is_rstring (encoded e) ∧ Forall (λ b, (0x20 <= b)%Z) (encoded e).
Proof.
  intros [Hwf Hv]. destruct (to_vec_ok e Hwf) as [s Hs]. unfold encoded. rewrite Hs.
  pose proof (to_vec_length e s Hwf Hs). destruct (to_vec_str e s Hwf Hs). split_and!; try done.
  revert Hv. unfold HistoryEntry_validate. case_match; [done|].
  destruct (validate_history_text _ 256 _) as [[]| |] eqn:Hp; simpl; try done.
  destruct (validate_history_text _ 1024 _) as [[]| |] eqn:Ht; simpl; try done.
  apply text_bound in Hp, Ht. intros _. unfold MAX_HISTORY_ENTRY_BYTES. lia.
Qed.

Lemma parsed_encoded path e : valid_entry e → parsed path (with_newline (encoded e)) = Some e.
Proof.
  intros He. destruct (encoded_line e He) as (Hs & Hl & Hr & Hp). destruct He as [Hwf Hv].
  unfold parsed, parse_line. rewrite from_utf8_rstring; simpl.
  - rewrite strip_newline, strip_suffix_absent.
    + rewrite (proj2 (Z.ltb_ge _ _) Hl), (from_to e) by done. simpl. by rewrite Hv.
    + intros Hin. rewrite Forall_forall in Hp. specialize (Hp _ Hin). lia.
  - apply is_rstring_app; [done|]. by apply (bool_decide_unpack (is_rstring [0x0a%Z])).
Qed.

Lemma encode_file_length es : Forall valid_entry es →
  (Z.of_nat (length (encode_file es)) <= Z.of_nat (length es) * (MAX_HISTORY_ENTRY_BYTES + 1))%Z.
Proof.
  induction 1 as [|e es He _ IH]; [done|]. unfold encode_file, with_newline in *.
  cbn [fmap list_fmap concat length]. rewrite !length_app. destruct (encoded_line e He) as (_ & ? & _).
  simpl (length [_]). unfold MAX_HISTORY_ENTRY_BYTES in *. lia.
Qed.

(** Reading what was written. *)
Lemma file_entries_encode path F es : Forall valid_entry es →
  (Z.of_nat (length es) <= MAX_HISTORY_MESSAGES)%Z →
  file_entries path (<[path := encode_file es]> F) = Some es.
Proof.
  intros Hes Hn. unfold file_entries. rewrite lookup_insert_eq.
  pose proof (encode_file_length es Hes). rewrite (proj2 (Z.ltb_ge _ _)); cycle 1.
  { unfold MAX_HISTORY_MESSAGES, MAX_HISTORY_ENTRY_BYTES in *. lia. }
  unfold encode_file. rewrite read_lines_newlines.
  - replace (mapM _ _) with (Some es).
    + simpl. by rewrite (proj2 (Z.ltb_ge _ _)).
    + symmetry. apply mapM_Some. rewrite <- list_fmap_compose. apply Forall2_fmap_l.
      clear Hn H1. induction Hes as [|e es He _ IH]; constructor; [by apply parsed_encoded|done].
  - apply Forall_fmap. eapply Forall_impl; [done|]. intros e He. simpl.
    destruct (encoded_line e He) as (_ & Hl & _ & Hp). split.
    + eapply Forall_impl; [done|]. simpl. lia.
    + unfold MAX_HISTORY_ENTRY_BYTES in *. lia.
Qed.

Lemma file_entries_other p q c F : p ≠ q → file_entries p (<[q := c]> F) = file_entries p F.
Proof. intros. unfold file_entries. by rewrite lookup_insert_ne. Qed.
Lemma file_entries_delete p F : file_entries p (delete p F) = Some [].
Proof. unfold file_entries. by rewrite lookup_delete_eq. Qed.
Lemma file_entries_delete_ne p q F : p ≠ q → file_entries p (delete q F) = file_entries p F.
Proof. intros. unfold file_entries. by rewrite lookup_delete_ne. Qed.
Lemma file_entries_missing p F : F !! p = None → file_entries p F = Some [].
Proof. unfold file_entries. by intros ->. Qed.
Lemma file_entries_same p F F' : F !! p = F' !! p → file_entries p F = file_entries p F'.
Proof. unfold file_entries. by intros ->. Qed.

(** ** Triples *)

Context {X : Prop}.

Lemma spec_load_lines path lines acc F (Q : list HistoryEntry → files → Prop) (I : files → Prop) :
  I F → (Z.of_nat (length acc) <= MAX_HISTORY_MESSAGES)%Z →
  match mapM (parsed path) lines with
  | None => X
  | Some es => if (MAX_HISTORY_MESSAGES <? Z.of_nat (length (acc ++ es)))%Z then X
               else Q (acc ++ es) F
  end → spec X (load_lines path lines acc) F Q I.
Proof.
  intros HI. revert acc. induction lines as [|line lines IH]; intros acc Hacc Hm;
    cbn [load_lines]; apply spec_bind, spec_step; try done.
  - simpl in Hm. rewrite app_nil_r in Hm. rewrite (proj2 (Z.ltb_ge _ _)) in Hm by done.
    by apply spec_ret.
  - unfold parsed in Hm at 1. simpl in Hm. fold (parsed path) in Hm.
    apply spec_bind. destruct (parse_line path line) as [e| |]; simpl in Hm.
    + apply (spec_lift_ok _ e); [done|].
      destruct (Z.ltb_spec MAX_HISTORY_MESSAGES (Z.of_nat (length (acc ++ [e])))) as [Hlt|Hge].
      * apply spec_fail; [|done]. destruct (mapM _ lines) as [es|]; simpl in Hm; [|done].
        rewrite (proj2 (Z.ltb_lt _ _)) in Hm; [done|]. rewrite length_app in *. simpl in *. lia.
      * apply IH; [done|]. destruct (mapM _ lines) as [es|]; simpl in Hm; [|done].
        by rewrite <- app_assoc.
    + by apply spec_fail.
    + intros w <- Hh. done.
Qed.

Lemma spec_load_path path F (Q : list HistoryEntry → files → Prop) (I : files → Prop) :
  I F → match file_entries path F with Some es => Q es F | None => X end →
  spec X (load_path path) F Q I.
Proof.
  intros HI HQ. unfold file_entries in HQ. unfold load_path. apply spec_bind, spec_exists.
  destruct (F !! path) as [c|] eqn:Hc.
  - rewrite bool_decide_true by eauto. simpl. apply spec_bind, spec_step; [|done].
    apply spec_bind, spec_contents. rewrite Hc. simpl. destruct (Z.ltb _ _); [by apply spec_fail|].
    apply spec_bind, spec_step; [|done]. apply spec_load_lines; [done|done|].
    destruct (mapM _ _); simpl in HQ |- *; [|done].
    by destruct (MAX_HISTORY_MESSAGES <? _)%Z.
  - rewrite bool_decide_false by (by intros []). by apply spec_ret.
Qed.

Lemma spec_encode_entries es F (Q : bytes → files → Prop) (I : files → Prop) :
  Forall valid_entry es → I F → Q (encode_file es) F → spec X (encode_entries es) F Q I.
Proof.
  intros Hes HI. revert Q. induction Hes as [|e es He _ IH]; intros Q HQ; [by apply spec_ret|].
  simpl. destruct (encoded_line e He) as (Hs & Hl & _).
  apply spec_bind, (spec_lift_ok _ (encoded e)); [by rewrite Hs|].
  rewrite (proj2 (Z.ltb_ge _ _) Hl). apply spec_bind, spec_step; [|done].
  apply spec_bind, IH, spec_ret. revert HQ. unfold encode_file, with_newline. simpl.
  by rewrite <- app_assoc.
Qed.

Lemma spec_persist self es F (Q : () → files → Prop) (I : files → Prop) :
  Forall valid_entry es → I F →
  I (<[HistoryStore_path self := encode_file es]> F) →
  Q () (<[HistoryStore_path self := encode_file es]> F) →
  spec X (persist self es) F Q I.
Proof.
  intros Hes HI HI' HQ. apply spec_bind, spec_step; [|done].
  apply spec_bind, spec_encode_entries; [done..|]. apply spec_bind, spec_step; [|done].
  apply spec_bind, spec_rename; [|done]. by apply spec_step.
Qed.
End Files.

(** ** The history a store holds *)

Section View.
Context `{HistoryCodecLaws}.
Implicit Types F : files.

(** What the constructors guarantee. *)
Definition HistoryStore_wf (self : HistoryStore) : Prop :=
  HistoryStore_legacy_path self ≠ Some (HistoryStore_path self) ∧
  (1 <= Z.of_nat (HistoryStore_max_messages self) <= MAX_HISTORY_MESSAGES)%Z.

Definition legacy_entries (self : HistoryStore) (F : files) : option (list HistoryEntry) :=
  from_option (λ p, file_entries p F) (Some []) (HistoryStore_legacy_path self).

(** The history: the newest entries of both files, the canonical one first. *)
Definition history (self : HistoryStore) (F : files) : option (list HistoryEntry) :=
  c ← file_entries (HistoryStore_path self) F;
  l ← legacy_entries self F;
  Some (retained (HistoryStore_max_messages self) (entry_map c ∪ entry_map l)).

(** Both files date the records they share alike. *)
Definition legacy_agrees (self : HistoryStore) (F : files) : Prop :=
  ∀ c l, file_entries (HistoryStore_path self) F = Some c → legacy_entries self F = Some l →
    same_times (entry_map c) (entry_map l).

Definition legacy_gone (self : HistoryStore) (F : files) : Prop :=
  from_option (λ p, F !! p = None) True (HistoryStore_legacy_path self).

(** Files of others are left alone. *)
Definition others (self : HistoryStore) (F F' : files) : Prop :=
  ∀ p, p ∉ lock_targets self → F' !! p = F !! p.

Lemma others_refl self F : others self F F.
Proof. done. Qed.
Lemma others_write self F F' c : others self F F' → others self F (<[HistoryStore_path self := c]> F').
Proof. intros HF p Hp. rewrite lookup_insert_ne; [by apply HF|]. unfold lock_targets in Hp. set_solver. Qed.
Lemma others_remove self F F' p : others self F F' → p ∈ lock_targets self → others self F (delete p F').
Proof. intros HF Hp q Hq. rewrite lookup_delete_ne; [by apply HF|congruence]. Qed.
Lemma others_trans self F F' F'' : others self F F' → others self F' F'' → others self F F''.
Proof. intros H1 H2 p Hp. by rewrite H2, H1. Qed.

Lemma legacy_gone_entries self F : legacy_gone self F → legacy_entries self F = Some [].
Proof.
  unfold legacy_gone, legacy_entries. destruct (HistoryStore_legacy_path self); simpl; [|done].
  apply file_entries_missing.
Qed.

Lemma legacy_write self F c : HistoryStore_wf self →
  legacy_entries self (<[HistoryStore_path self := c]> F) = legacy_entries self F ∧
  (legacy_gone self F → legacy_gone self (<[HistoryStore_path self := c]> F)).
Proof.
  intros [Hne _]. unfold legacy_entries, legacy_gone. destruct (HistoryStore_legacy_path self); simpl; [|done].
  rewrite lookup_insert_ne by congruence. by rewrite file_entries_other by congruence.
Qed.

Lemma legacy_entries_valid self F l : legacy_entries self F = Some l → Forall valid_entry l.
Proof.
  unfold legacy_entries. destruct (HistoryStore_legacy_path self); simpl;
    [apply file_entries_valid|by intros [= <-]].
Qed.

Lemma history_inv self F v : history self F = Some v → ∃ c l,
  file_entries (HistoryStore_path self) F = Some c ∧ legacy_entries self F = Some l ∧
  v = retained (HistoryStore_max_messages self) (entry_map c ∪ entry_map l).
Proof. unfold history. rewrite bind_Some. setoid_rewrite bind_Some. naive_solver. Qed.

Lemma history_shape self F v : history self F = Some v →
  retained_list (HistoryStore_max_messages self) v ∧ Forall valid_entry v.
Proof.
  intros (c & l & Hc & Hl & ->)%history_inv. split.
  - apply retained_list_retained, keyed_union; apply keyed_entry_map.
  - apply Forall_forall. intros x Hx%elem_of_retained. rewrite <- entry_map_app in Hx.
    apply elem_of_entry_map in Hx. revert x Hx. apply Forall_forall, Forall_app.
    eauto using file_entries_valid, legacy_entries_valid.
Qed.

Lemma retained_length_bound self n es : HistoryStore_wf self → n = HistoryStore_max_messages self →
  retained_list n es → (Z.of_nat (length es) <= MAX_HISTORY_MESSAGES)%Z.
Proof. intros [_ ?] -> [_ _ ?]. lia. Qed.

(** The canonical file alone, rewritten with a list in retained form. *)
Lemma history_write self F es : HistoryStore_wf self → Forall valid_entry es →
  retained_list (HistoryStore_max_messages self) es → legacy_gone self F →
  history self (<[HistoryStore_path self := encode_file es]> F) = Some es.
Proof.
  intros Hwf Hes Hr Hg. unfold history. destruct (legacy_write self F (encode_file es) Hwf) as [-> _].
  rewrite file_entries_encode by eauto using retained_length_bound.
  rewrite legacy_gone_entries by done. simpl. f_equal. change (entry_map []) with (∅ : gmap Z HistoryEntry).
  rewrite (right_id_L ∅ (∪)). by apply retained_self.
Qed.

(** The canonical file rewritten with the history, the legacy file still there. *)
Lemma history_rewrite self F v : HistoryStore_wf self → legacy_agrees self F →
  history self F = Some v →
  history self (<[HistoryStore_path self := encode_file v]> F) = Some v.
Proof.
  intros Hwf Ha Hv. destruct (history_shape self F v Hv) as [Hr Hvalid].
  apply history_inv in Hv as (c & l & Hc & Hl & Hv). unfold history. destruct (legacy_write self F (encode_file v) Hwf) as [-> _].
  rewrite Hl, file_entries_encode by eauto using retained_length_bound. simpl. f_equal.
  rewrite Hv. apply retained_with_legacy; auto using keyed_entry_map.
Qed.

Lemma history_remove_legacy self F p v : HistoryStore_wf self →
  HistoryStore_legacy_path self = Some p → Forall valid_entry v →
  retained_list (HistoryStore_max_messages self) v →
  history self (delete p (<[HistoryStore_path self := encode_file v]> F)) = Some v ∧
  legacy_gone self (delete p (<[HistoryStore_path self := encode_file v]> F)).
Proof.
  intros Hwf Hp Hvalid Hr. pose proof Hwf as [Hne _]. rewrite Hp in Hne.
  rewrite delete_insert_ne by congruence.
  assert (legacy_gone self (delete p F)) as Hg.
  { unfold legacy_gone. rewrite Hp. simpl. apply lookup_delete_eq. }
  split; [by apply history_write|by apply legacy_write].
Qed.

(** ** The operations *)

Context {X : Prop}.

Definition kept (self : HistoryStore) (v : list HistoryEntry) (F F' : files) : Prop :=
  history self F' = Some v ∧ others self F F'.

Lemma spec_load_unlocked self F v : HistoryStore_wf self → legacy_agrees self F →
  history self F = Some v →
  spec X (load_unlocked self) F
    (λ es F', es = v ∧ kept self v F F' ∧ legacy_gone self F') (kept self v F).
Proof.
  intros Hwf Ha Hv. destruct (history_shape self F v Hv) as [Hr Hvalid].
  destruct (history_inv self F v Hv) as (c & l & Hc & Hl & Heq).
  assert (kept self v F F) as Hkept by (split; [done|apply others_refl]).
  apply spec_bind, spec_load_path; [done|]. rewrite Hc.
  assert (legacy_gone self F → spec X (load_canonical self c) F
    (λ es F', es = v ∧ kept self v F F' ∧ legacy_gone self F') (kept self v F)) as Halone.
  { intros Hg. assert (merge_entries self [] c = v) as Hm.
    { rewrite merge_entries_retained, Heq. rewrite legacy_gone_entries in Hl by done. by injection Hl as <-. }
    unfold load_canonical. rewrite Hm. apply spec_bind. case_bool_decide.
    - apply spec_persist; [done..| |].
      + split; [by apply history_rewrite|by apply others_write].
      + apply spec_ret. split_and!; [done|split; [by apply history_rewrite|by apply others_write]|by apply legacy_write].
    - by apply spec_ret, spec_ret. }
  unfold legacy_gone, legacy_entries in *. destruct (HistoryStore_legacy_path self) as [p|] eqn:Hp; simpl in *; [|by apply Halone].
  apply spec_bind, spec_exists. destruct (F !! p) as [x|] eqn:Hx.
  - rewrite bool_decide_true by eauto. simpl. apply spec_bind, spec_load_path; [done|].
    rewrite Hl. rewrite merge_entries_retained, <- Heq.
    assert (kept self v F (<[HistoryStore_path self:=encode_file v]> F)) as Hk.
    { split; [by apply history_rewrite|by apply others_write]. }
    apply spec_bind, spec_persist; [done..|]. apply spec_bind, spec_remove; [|done].
    destruct (history_remove_legacy self F p v) as [? Hg]; [done..|].
    apply spec_ret. split_and!; [done| |].
    + split; [done|]. apply others_remove; [by apply others_write|].
      unfold lock_targets. rewrite Hp. set_solver.
    + unfold legacy_gone in Hg. by rewrite Hp in Hg.
  - rewrite bool_decide_false by (by intros []). simpl. by apply Halone.
Qed.

Definition upserted (self : HistoryStore) (v : list HistoryEntry) (e : HistoryEntry) : list HistoryEntry :=
  retained (HistoryStore_max_messages self) (<[HistoryEntry_id e := e]> (entry_map v)).

Lemma upserted_shape self v e : valid_entry e → Forall valid_entry v →
  Forall valid_entry (upserted self v e) ∧
  retained_list (HistoryStore_max_messages self) (upserted self v e).
Proof.
  intros He Hv. split.
  - apply Forall_forall. intros x [i Hx]%elem_of_retained%elem_of_values.
    rewrite lookup_insert_Some in Hx. destruct Hx as [[_ <-]|[_ Hx]]; [done|].
    rewrite Forall_forall in Hv. apply Hv, elem_of_entry_map, elem_of_values. eauto.
  - apply retained_list_retained, keyed_insert, keyed_entry_map.
Qed.

Lemma spec_upsert self F v e : HistoryStore_wf self → legacy_agrees self F →
  history self F = Some v → valid_entry e →
  spec X (upsert self e) F
    (λ _ F', kept self (upserted self v e) F F' ∧ legacy_gone self F')
    (λ F', kept self v F F' ∨ kept self (upserted self v e) F F').
Proof.
  intros Hwf Ha Hv He. destruct (history_shape self F v Hv) as [Hr Hvalid].
  assert (kept self v F F) as Hkept by (split; [done|apply others_refl]).
  apply spec_bind, (spec_lift_ok _ ()); [apply He|]. apply spec_bind, spec_locks; [|by left].
  apply spec_bind. eapply spec_mono; [by apply spec_load_unlocked| |by left].
  intros es F' (-> & Hk & Hg). simpl. rewrite upsert_retained by apply Hr. fold (upserted self v e).
  destruct (upserted_shape self v e He Hvalid).
  assert (kept self (upserted self v e) F (<[HistoryStore_path self:=encode_file (upserted self v e)]> F')).
  { split; [by apply history_write|apply others_write, Hk]. }
  apply spec_persist; [done|by left|by right|]. split; [done|by apply legacy_write].
Qed.

Definition cleared (self : HistoryStore) (F : files) : Prop :=
  ∀ p, p ∈ lock_targets self → F !! p = None.

Lemma spec_clear_unlocked self F :
  spec X (clear_unlocked self) F (λ _ F', cleared self F' ∧ others self F F') (others self F).
Proof.
  intros w <- Hh. unfold clear_unlocked, cleared, others, lock_targets, calm.
  destruct w as [F answers faults]. unfold honest in *. simpl in *.
  destruct (HistoryStore_legacy_path self) as [q|]; simpl.
  - destruct faults as [|[| |] [|[| |] faults]]; simpl; split_and!; try done;
      try (by intros Hc; repeat (apply Forall_cons in Hc as [? Hc]));
      try (split; [|by intros Hc; repeat (apply Forall_cons in Hc as [? Hc])]);
      intros; rewrite ?lookup_delete_None, ?lookup_delete_ne by set_solver; set_solver.
  - destruct faults as [|[| |] faults]; simpl; split_and!; try done;
      try (by intros Hc; repeat (apply Forall_cons in Hc as [? Hc]));
      try (split; [|by intros Hc; repeat (apply Forall_cons in Hc as [? Hc])]);
      intros; rewrite ?lookup_delete_None, ?lookup_delete_ne by set_solver; set_solver.
Qed.

Lemma spec_any_path_exists self F (Q : bool → files → Prop) I :
  (∀ b, (b = false → cleared self F) → Q b F) → spec X (any_path_exists self) F Q I.
Proof.
  intros HQ. apply spec_bind, spec_exists. unfold cleared, lock_targets in HQ.
  destruct (F !! HistoryStore_path self) eqn:Hp.
  - rewrite bool_decide_true by eauto. by apply spec_ret, HQ.
  - rewrite bool_decide_false by (by intros []). destruct (HistoryStore_legacy_path self) as [q|].
    + apply spec_exists, HQ. intros Hq%bool_decide_eq_false. simpl.
      intros p [->|[->|[]%not_elem_of_nil]%elem_of_cons]%elem_of_cons; [done|].
      by apply eq_None_not_Some.
    + apply spec_ret, HQ. intros _ p [->|[]%not_elem_of_nil]%elem_of_cons. done.
Qed.

Lemma cleared_history self F : cleared self F → history self F = Some [].
Proof.
  intros Hc. unfold history. rewrite file_entries_missing by (apply Hc; unfold lock_targets; set_solver).
  rewrite legacy_gone_entries; [done|]. unfold legacy_gone, cleared, lock_targets in *.
  destruct (HistoryStore_legacy_path self); simpl in *; [|done]. apply Hc. set_solver.
Qed.

Lemma history_same self F F' : (∀ p, p ∈ lock_targets self → F' !! p = F !! p) →
  history self F' = history self F.
Proof.
  intros Hs. unfold history, legacy_entries. rewrite (file_entries_same _ F' F)
    by (apply Hs; unfold lock_targets; set_solver). f_equal.
  unfold lock_targets in Hs. destruct (HistoryStore_legacy_path self); simpl in *; [|done].
  by rewrite (file_entries_same _ F' F) by (apply Hs; set_solver).
Qed.
End View.

(** ** Moving a history with its owner *)

Section Move.
Context `{HistoryCodecLaws}.
Implicit Types F : files.
Context (self destination : HistoryStore) (moved : files → Prop) (v : list HistoryEntry).

(** The owner is recorded outside of both histories. *)
Record owner_outside : Prop := {
  targets_disjoint p : p ∈ lock_targets self → p ∈ lock_targets destination → False;
  moved_outside F F' :
    (∀ p, p ∉ lock_targets self ++ lock_targets destination → F' !! p = F !! p) →
    moved F → moved F'
}.

(** An update that leaves the histories alone and succeeds only when it moved the
    owner; if [exact], a failure means that it did not. *)
Definition owner_update_if (exact : Prop) (m : fs ()) : Prop :=
  ∀ w, honest w → ¬ moved (Fs_files w) → honest (m w).2 ∧ (calm w → calm (m w).2) ∧
    (∀ p, p ∈ lock_targets self ++ lock_targets destination →
       Fs_files (m w).2 !! p = Fs_files w !! p) ∧
    match (m w).1 with
    | Done _ => moved (Fs_files (m w).2)
    | Failed _ => exact → ¬ moved (Fs_files (m w).2)
    | Killed => True
    end.
(** An update that reports what it did. *)
Definition owner_update (m : fs ()) : Prop := owner_update_if True m.

(** Whoever owns the history has it, unless a failure of the update can hide that
    the owner moved: then the source still has it. *)
Definition owned (exact : Prop) F : Prop :=
  (¬ moved F → history self F = Some v) ∧
  (moved F → file_entries (HistoryStore_path destination) F = Some v ∨
             ¬ exact ∧ history self F = Some v).

Context (Hout : owner_outside).

Lemma moved_same F F' :
  (∀ p, p ∉ lock_targets self ++ lock_targets destination → F' !! p = F !! p) →
  moved F' ↔ moved F.
Proof. intros Hs. split; apply (moved_outside Hout); intros p Hp; [symmetry|]; by apply Hs. Qed.

Lemma others_moved s F F' : s = self ∨ s = destination → others s F F' → moved F' ↔ moved F.
Proof. intros Hs Ho. apply moved_same. intros p Hp. apply Ho. set_solver. Qed.

Lemma destination_path : HistoryStore_path destination ∉ lock_targets self.
Proof. intros Hp. apply (targets_disjoint Hout _ Hp). unfold lock_targets. set_solver. Qed.

Lemma spec_try_owner exact m F : owner_update_if exact m → ¬ moved F →
  spec True (fs_try m) F
    (λ r F', (∀ p, p ∈ lock_targets self ++ lock_targets destination → F' !! p = F !! p) ∧
             match r with Ok _ => moved F' | Err _ => exact → ¬ moved F' | Panic => False end)
    (λ F', ∀ p, p ∈ lock_targets self ++ lock_targets destination → F' !! p = F !! p).
Proof.
  intros Hm Hn w <- Hh. destruct (Hm w Hh Hn) as (? & ? & ? & Hr). unfold fs_try.
  destruct (m w) as [[] w']; simpl in *; done.
Qed.

Lemma spec_finish_move exact m present F2 : owner_update_if exact m → ¬ moved F2 →
  history self F2 = Some v → file_entries (HistoryStore_path destination) F2 = Some v →
  spec True (finish_move self destination present m) F2
    (λ _ F', moved F' ∧ cleared self F' ∧ file_entries (HistoryStore_path destination) F' = Some v)
    (owned exact).
Proof.
  intros Hm Hn2 Hh2 Hd2.
  assert (∀ F3, (∀ p, p ∈ lock_targets self ++ lock_targets destination → F3 !! p = F2 !! p) →
    history self F3 = Some v ∧ file_entries (HistoryStore_path destination) F3 = Some v) as Hsame.
  { intros F3 Hs. split.
    - rewrite <- Hh2. apply history_same. intros p Hp. apply Hs. set_solver.
    - rewrite <- Hd2. apply file_entries_same, Hs. unfold lock_targets. set_solver. }
  apply spec_bind. eapply spec_mono; [by apply spec_try_owner| |]; cycle 1.
  { intros F3 [? ?]%Hsame. split; auto. }
  intros [[]|e|] F3 [[Hh3 Hd3]%Hsame Hm3]; [| |done].
  - apply spec_bind. eapply spec_mono; [apply spec_clear_unlocked| |].
    + intros [] F4 [Hc Ho4]. apply spec_ret.
      assert (moved F4) as Hm4 by (by rewrite (others_moved self F3) by auto). split_and!; [done..|].
      rewrite <- Hd3. apply file_entries_same, Ho4, destination_path.
    + intros F4 Ho4. split; rewrite (others_moved self F3) by auto; [done|]. intros _. left.
      rewrite <- Hd3. apply file_entries_same, Ho4, destination_path.
  - assert (∀ F4, others destination F3 F4 → owned exact F4) as Hlast.
    { intros F4 Ho4. assert (history self F4 = Some v) as Hh4.
      { rewrite <- Hh3. apply history_same. intros p Hp. apply Ho4. intros Hp'.
        by apply (targets_disjoint Hout p). }
      split; rewrite (others_moved destination F3) by auto; [done|]. intros Hmv. right.
      split; [|done]. intros He. by apply (Hm3 He). }
    apply spec_bind. destruct present; [|apply spec_ret, spec_fail; [done|by apply Hlast]].
    apply spec_bind, spec_try. eapply spec_mono; [apply spec_clear_unlocked| |].
    + intros [] F4 [_ Ho4]. apply spec_ret, spec_fail; auto.
    + intros F4 Ho4. split; [by apply Hlast|]. intros ?. apply spec_ret, spec_fail; auto.
Qed.

Lemma spec_move exact m F : HistoryStore_wf self → legacy_agrees self F → history self F = Some v →
  owner_update_if exact m → ¬ moved F →
  spec True (move_to_with self destination m) F
    (λ _ F', moved F' ∧ cleared self F' ∧ file_entries (HistoryStore_path destination) F' = Some v)
    (owned exact).
Proof.
  intros Hwf Ha Hv Hm Hnot. destruct (history_shape self F v Hv) as [Hr Hvalid].
  assert (owned exact F) as Hown by (split; [done|by intros ?]).
  apply spec_bind, spec_locks; [|done]. apply spec_bind, spec_any_path_exists. intros occupied Hfree.
  destruct occupied; [by apply spec_fail|]. specialize (Hfree eq_refl).
  apply spec_bind, spec_any_path_exists. intros present Habsent.
  apply spec_bind. eapply spec_mono; [by apply spec_load_unlocked| |]; cycle 1.
  { intros F' [Hh Ho]. split; [done|]. rewrite (others_moved self F) by auto. done. }
  intros es F1 (-> & [Hh1 Ho1] & Hg1).
  assert (¬ moved F1) as Hn1 by (rewrite (others_moved self F); auto).
  assert (∀ F2, others destination F1 F2 → history self F2 = Some v ∧ ¬ moved F2) as Hdest.
  { intros F2 Ho2. rewrite (others_moved destination F1) by auto. split; [|done].
    rewrite <- Hh1. apply history_same. intros p Hp. apply Ho2. intros Hp'.
    by apply (targets_disjoint Hout p). }
  apply spec_bind. eapply spec_mono with
    (Q := λ _ F2, others destination F1 F2 ∧ file_entries (HistoryStore_path destination) F2 = Some v)
    (I := others destination F1); cycle 2.
  { intros F2 Ho2. destruct (Hdest F2 Ho2). by split. }
  { destruct present.
    - apply spec_persist; [done|apply others_refl|by apply others_write, others_refl|].
      split; [by apply others_write, others_refl|].
      apply file_entries_encode; [done|by eapply retained_length_bound].
    - apply spec_ret. split; [apply others_refl|]. rewrite file_entries_missing.
      + f_equal. rewrite (cleared_history self F) in Hv by auto. by injection Hv as <-.
      + rewrite Ho1 by apply destination_path. apply Hfree. unfold lock_targets. set_solver. }
  intros [] F2 [Ho2 Hd2]. destruct (Hdest F2 Ho2) as [Hh2 Hn2]. by apply spec_finish_move.
Qed.
End Move.
