(* ===== verification/HistoryProps.v ===== *)
(** * Properties of the history store

    Retention, the round trip through a file, and what the operations leave
    behind when they finish, fail or are killed. *)

From stdpp Require Import sorting.
From S2P Require Import Prelude Text Domain Store History HistoryFacts.

(** ** A codec with the laws of [serde_json], for the witnesses

    The fields at fixed width, each byte as two printable ones. *)

Module SampleCodec.

Fixpoint nibbles (l : bytes) : bytes :=
  match l with
  | [] => []
  | b :: l => (0x40 + b / 16)%Z :: (0x40 + b mod 16)%Z :: nibbles l
  end.
Fixpoint unnibbles (l : bytes) : bytes :=
  match l with
  | a :: b :: l => ((a - 0x40) * 16 + (b - 0x40))%Z :: unnibbles l
  | _ => []
  end.

Definition direction_code (d : HistoryDirection) : Z :=
  match d with Incoming => 0 | Outgoing => 1 end.
Definition direction_of (z : Z) : HistoryDirection := if (z =? 0)%Z then Incoming else Outgoing.
Definition status_code (s : HistoryStatus) : Z :=
  match s with
  | Status_Pending => 0 | Status_Acknowledged => 1 | Status_TimedOut => 2 | Status_Failed => 3
  | Status_Received => 4
  end.
Definition status_of (z : Z) : HistoryStatus :=
  match z with
  | 0 => Status_Pending | 1 => Status_Acknowledged | 2 => Status_TimedOut | 3 => Status_Failed
  | _ => Status_Received
  end%Z.
Definition channel_code (c : option u8) : bytes := match c with None => [0; 0]%Z | Some c => [1; c]%Z end.
Definition ack_code (a : option bytes) : bytes :=
  match a with None => [0; 0; 0; 0; 0]%Z | Some a => 1%Z :: a end.

Definition fixed_part (e : HistoryEntry) : bytes :=
  [HistoryEntry_version e; direction_code (HistoryEntry_direction e); status_code (HistoryEntry_status e)]
  ++ channel_code (HistoryEntry_channel e) ++ ack_code (HistoryEntry_acknowledgement e)
  ++ to_le_bytes 16 (HistoryEntry_id e) ++ to_le_bytes 8 (HistoryEntry_recorded_at_unix_ms e).

Definition print (e : HistoryEntry) : bytes :=
  nibbles (fixed_part e ++ HistoryEntry_peer e) ++ 0x20%Z :: nibbles (HistoryEntry_text e).

Definition entry_of (l text : bytes) : HistoryEntry :=
  let field (i : nat) : Z := default 0%Z (l !! i) in
  mkHistoryEntry (field 0%nat)
    (from_le_bytes (take 16 (drop 10 l))) (from_le_bytes (take 8 (drop 26 l)))
    (direction_of (field 1%nat)) (drop 34 l)
    (if (field 3%nat =? 0)%Z then None else Some (field 4%nat)) text (status_of (field 2%nat))
    (if (field 5%nat =? 0)%Z then None else Some (take 4 (drop 6 l))).

Definition scan (s : rstring) : outcome string HistoryEntry :=
  match split_once 0x20 s with
  | None => Err "invalid record"
  | Some (l, text) =>
      let e := entry_of (unnibbles l) (unnibbles text) in
      if decide (HistoryEntry_wf e) then Ok e else Err "invalid record"
  end.

#[global] Instance codec : HistoryCodec := { entry_to_vec e := Ok (print e); entry_from_str := scan }.

Lemma length_nibbles l : length (nibbles l) = 2 * length l.
Proof. induction l as [|b l IH]; simpl; lia. Qed.

Lemma nibbles_range l : is_bytes l → Forall (λ b, 0x40 <= b < 0x50)%Z (nibbles l).
Proof.
  induction 1 as [|b l Hb _ IH]; simpl; [constructor|]. unfold is_u8 in Hb.
  repeat constructor; [..|done]; try (pose proof (Z.mod_pos_bound b 16); lia).
  all: pose proof (Z.div_pos b 16); pose proof (Z.div_lt_upper_bound b 16 16); lia.
Qed.

Lemma unnibbles_nibbles l : unnibbles (nibbles l) = l.
Proof.
  induction l as [|b l IH]; simpl; [done|]. rewrite IH. f_equal.
  pose proof (Z.div_mod b 16). lia.
Qed.

Lemma length_fixed_part e : HistoryEntry_wf e → length (fixed_part e) = 34.
Proof.
  intros (_ & _ & _ & _ & _ & _ & Ha). unfold fixed_part. rewrite !length_app, !length_to_le_bytes.
  destruct (HistoryEntry_channel e), (HistoryEntry_acknowledgement e); simpl in *; lia.
Qed.

Lemma fixed_part_bytes e : HistoryEntry_wf e → is_bytes (fixed_part e).
Proof.
  intros (Hv & _ & _ & _ & _ & Hc & Ha). unfold fixed_part.
  rewrite !is_bytes_app. split_and!; try apply is_bytes_to_le.
  - repeat constructor; try apply Hv; destruct (HistoryEntry_direction e), (HistoryEntry_status e); simpl; lia.
  - destruct (HistoryEntry_channel e); simpl in *; repeat constructor; try apply Hc; lia.
  - destruct (HistoryEntry_acknowledgement e) as [a|]; simpl in *.
    + apply is_bytes_cons; [unfold is_u8; lia|apply Ha].
    + repeat constructor; lia.
Qed.

Lemma entry_of_fixed e : HistoryEntry_wf e →
  entry_of (fixed_part e ++ HistoryEntry_peer e) (HistoryEntry_text e) = e.
Proof.
  intros Hwf. pose proof (length_fixed_part e Hwf) as Hl. destruct Hwf as (_ & Hid & Ht & _ & _ & _ & Ha).
  unfold entry_of. rewrite (drop_app_length' (fixed_part e) _ 34) by done.
  destruct e as [ver id time dir peer ch text st ack]. simpl in Hid, Ht, Ha.
  transitivity (mkHistoryEntry ver (from_le_bytes (to_le_bytes 16 id)) (from_le_bytes (to_le_bytes 8 time))
    dir peer ch text st ack); [|by rewrite !from_to_le_bytes].
  destruct dir, st, ch as [c|], ack as [a|]; simpl in Ha;
    try (destruct Ha as [_ Ha]; destruct a as [|a0 [|a1 [|a2 [|a3 [|]]]]]; simpl in Ha; try lia);
    reflexivity.
Qed.

#[global] Instance codec_laws : HistoryCodecLaws.
Proof.
  assert (∀ e, HistoryEntry_wf e → is_bytes (fixed_part e ++ HistoryEntry_peer e)) as Hb.
  { intros e He. apply is_bytes_app_2; [by apply fixed_part_bytes|by apply He]. }
  assert (∀ e, HistoryEntry_wf e → Forall (λ b, 0x20 <= b < 0x50)%Z (print e)) as Hp.
  { intros e He. apply Forall_app. split; [|constructor; [lia|]];
      (eapply Forall_impl; [apply nibbles_range|simpl; lia]); [by apply Hb|by apply He]. }
  split; simpl.
  - eauto.
  - intros e s He [= <-]. specialize (Hp e He). split; [split|].
    + eapply Forall_impl; [done|]. unfold is_u8. simpl. lia.
    + apply utf8_valid_ascii. eapply Forall_impl; [done|]. simpl. lia.
    + eapply Forall_impl; [done|]. simpl. lia.
  - intros e s He [= <-]. unfold print. rewrite length_app. cbn [length].
    rewrite !length_nibbles, length_app, length_fixed_part by done. lia.
  - intros e s He [= <-]. unfold scan, print. rewrite split_once_first.
    + rewrite !unnibbles_nibbles, entry_of_fixed by done. by rewrite decide_True.
    + eapply Forall_impl; [by apply nibbles_range, Hb|]. simpl. lia.
  - intros s e. unfold scan. repeat case_match; naive_solver.
  - intros e s. split; [done|]. unfold scan. by repeat case_match.
Qed.

End SampleCodec.

(** ** Retention *)

Definition newer_than (e e' : HistoryEntry) : Prop := ¬ history_le e' e.
#[global] Instance newer_than_dec e e' : Decision (newer_than e e').
Proof. unfold newer_than. apply _. Defined.

(** what [merge_entries] keeps.  The result is sorted by (time, id), has each
    id once and is no longer than the bound; and an entry is kept exactly when it
    is the last one filed under its id, the higher-priority list after the lower,
    and fewer entries than the bound are newer. *)
Theorem merge_entries_newest self lower higher :
  let by_id := insert_all (lower ++ higher) ∅ in
  let kept := merge_entries self lower higher in
  StronglySorted history_le kept ∧ NoDup (HistoryEntry_id <$> kept) ∧
  length kept ≤ HistoryStore_max_messages self ∧
  ∀ e, e ∈ kept ↔
    by_id !! HistoryEntry_id e = Some e ∧
    length (filter (newer_than e) (map_to_list by_id).*2) < HistoryStore_max_messages self.
Proof.
  intros by_id kept. assert (keyed by_id) as Hk by apply keyed_entry_map.
  assert (kept = retained (HistoryStore_max_messages self) by_id) as Hkept by done.
  destruct (retained_list_retained (HistoryStore_max_messages self) by_id Hk) as [Hs Hnd Hn].
  rewrite <- Hkept in Hs, Hnd, Hn. split_and!; [done..|]. intros e. fold (values by_id).
  destruct (retained_split (HistoryStore_max_messages self) by_id) as (a & Hp & Hsort & _ & _).
  rewrite <- Hkept in Hp, Hsort. split.
  - intros He. split.
    + assert (e ∈ values by_id) as [i Hi]%elem_of_values by (rewrite <- Hp; set_solver).
      by rewrite (Hk i e Hi).
    + rewrite <- Hp, filter_app, length_app, (filter_none _ a); cycle 1.
      { intros x Hx Hnew. apply Hnew. by apply (StronglySorted_app_1_elem_of _ _ _ _ _ Hsort). }
      assert (length (filter (newer_than e) kept) < length kept); [|simpl; lia].
      apply length_filter_lt with e; [done|]. unfold newer_than, history_le. lia.
  - intros [Hi Hlt]. destruct (decide (e ∈ kept)) as [|He]; [done|]. exfalso.
    assert (e ∈ values by_id) as Hin by (apply elem_of_values; eauto).
    rewrite Hkept in He. destruct (split_in_values _ _ _ Hin He) as [Hlen Hle]. rewrite <- Hkept in *.
    rewrite <- Hp, filter_app, length_app in Hlt.
    rewrite (filter_all _ kept) in Hlt; [lia|]. intros y Hy Hye. rewrite (keyed_antisymm by_id y e) in Hy; auto.
    rewrite <- Hp. set_solver.
Qed.

(** ** Files *)

(** writing and reading are inverse.  Valid entries within the global bound,
    written by [persist] with no fault, are read back by [load_path] in order. *)
Theorem history_file_roundtrip `{HistoryCodecLaws} self entries w :
  Forall valid_entry entries → (Z.of_nat (length entries) <= MAX_HISTORY_MESSAGES)%Z →
  honest w → calm w →
  ∃ w', persist self entries w = (Done (), w') ∧
        ∃ w'', load_path (HistoryStore_path self) w' = (Done entries, w'').
Proof.
  intros Hes Hn Hh Hc.
  destruct (spec_persist (X:=False) self entries (Fs_files w)
    (λ _ F, file_entries (HistoryStore_path self) F = Some entries) (λ _, True) Hes I I
    (file_entries_encode _ _ _ Hes Hn) w eq_refl Hh) as (Hh' & Hc' & Hr).
  destruct (persist self entries w) as [[[]|e|] w']; simpl in *; [|naive_solver..].
  exists w'. split; [done|].
  destruct (spec_load_path (X:=False) (HistoryStore_path self) (Fs_files w')
    (λ es _, es = entries) (λ _, True) I ltac:(by rewrite Hr) w' eq_refl Hh') as (_ & _ & Hl).
  destruct (load_path _ w') as [[es|e|] w'']; simpl in *; naive_solver.
Qed.

(** ** Operations under faults *)

(** [load] returns the history and leaves it as it was, whatever happens.
    When it finishes the legacy file is gone; when it fails or is killed, which it
    is only by a fault, the history is still there. *)
Theorem load_reconciles `{HistoryCodecLaws} self w v :
  HistoryStore_wf self → honest w → history self (Fs_files w) = Some v →
  legacy_agrees self (Fs_files w) →
  let '(r, w') := load self w in
  history self (Fs_files w') = Some v ∧ others self (Fs_files w) (Fs_files w') ∧
  match r with
  | Done entries => entries = v ∧ legacy_gone self (Fs_files w')
  | _ => ¬ calm w
  end.
Proof.
  intros Hwf Hh Hv Ha.
  assert (spec False (load self) (Fs_files w)
    (λ es F', es = v ∧ kept self v (Fs_files w) F' ∧ legacy_gone self F') (kept self v (Fs_files w))) as Hspec.
  { assert (kept self v (Fs_files w) (Fs_files w)) by (split; [done|apply others_refl]).
    apply spec_bind, spec_locks; [by apply spec_load_unlocked|done]. }
  destruct (Hspec w eq_refl Hh) as (_ & _ & Hr).
  destruct (load self w) as [[es|e|] w']; simpl in *; unfold kept in Hr; naive_solver.
Qed.

(** C3: [upsert] is atomic, provided that every question whether a file exists is
    answered ([honest]: [unanswered_query_forgets] shows what is lost otherwise) and that
    a legacy copy dates the records it shares with the history as the history does.  The
    history is the old one with the record filed under its id and cut to the newest; when
    the call fails or is killed, which it is only by a fault, it is the old one or that
    one; other files are left alone. *)
Theorem upsert_atomic `{HistoryCodecLaws} self entry w v :
  HistoryStore_wf self → honest w → history self (Fs_files w) = Some v →
  legacy_agrees self (Fs_files w) → valid_entry entry →
  let v' := retained (HistoryStore_max_messages self)
              (<[HistoryEntry_id entry := entry]> (entry_map v)) in
  let '(r, w') := upsert self entry w in
  others self (Fs_files w) (Fs_files w') ∧
  match r with
  | Done _ => history self (Fs_files w') = Some v'
  | _ => ¬ calm w ∧ (history self (Fs_files w') = Some v ∨ history self (Fs_files w') = Some v')
  end.
Proof.
  intros Hwf Hh Hv Ha He v'.
  destruct (spec_upsert (X:=False) self (Fs_files w) v entry Hwf Ha Hv He w eq_refl Hh) as (_ & _ & Hr).
  destruct (upsert self entry w) as [[[]|e|] w']; simpl in *; unfold kept in Hr; naive_solver.
Qed.

(** Moving a history with an owner whose failed update did not move it, when every
    question whether a file exists is answered.  In every outcome, kills included,
    whoever owns the history afterwards has all of it: the source while the owner
    is not moved, the destination file once it is.  A move that finishes has moved
    the owner and cleared the source. *)
Theorem move_keeps_history `{HistoryCodecLaws} self destination moved update_owner w v :
  HistoryStore_wf self → honest w → history self (Fs_files w) = Some v →
  legacy_agrees self (Fs_files w) → owner_outside self destination moved →
  owner_update self destination moved update_owner → ¬ moved (Fs_files w) →
  let '(r, w') := move_to_with self destination update_owner w in
  (¬ moved (Fs_files w') → history self (Fs_files w') = Some v) ∧
  (moved (Fs_files w') → file_entries (HistoryStore_path destination) (Fs_files w') = Some v) ∧
  match r with Done _ => moved (Fs_files w') ∧ cleared self (Fs_files w') | _ => True end.
Proof.
  intros Hwf Hh Hv Ha Hout Hup Hnot.
  destruct (spec_move self destination moved v Hout True update_owner (Fs_files w) Hwf Ha Hv Hup Hnot
    w eq_refl Hh) as (_ & _ & Hr).
  destruct (move_to_with _ _ _ w) as [[b|e|] w']; simpl in *; unfold owned in Hr; naive_solver.
Qed.

(** ** An unanswered query *)

Lemma calm_step k w : calm w → fs_step k w = (Done (), mkFs (Fs_files w) (Fs_answers w) (tail (Fs_faults w))).
Proof. unfold calm, fs_step. intros Hc. by destruct Hc as [|f fs ->]. Qed.

Lemma calm_locks ts w : calm w → ∃ faults,
  acquire_target_locks ts w = (Done (), mkFs (Fs_files w) (Fs_answers w) faults) ∧
  Forall (λ f, f = Pass) faults.
Proof.
  unfold acquire_target_locks. revert w. induction (merge_sort _ _) as [|p ps IH]; intros w Hc; simpl.
  - exists (Fs_faults w). by destruct w.
  - unfold mbind, fs_bind, acquire_lock_path. rewrite calm_step by done.
    apply (IH (mkFs _ _ _)). by apply calm_tail.
Qed.

(** an existence query that is not answered is taken for a missing file.
    Whatever the canonical file holds, [upsert] then reports success and the
    history is the new record alone. *)
Theorem unanswered_query_forgets `{HistoryCodecLaws} self entry w answers :
  HistoryStore_wf self → HistoryStore_legacy_path self = None → valid_entry entry → calm w →
  Fs_answers w = false :: answers → Forall (λ b, b = true) answers →
  let '(r, w') := upsert self entry w in
  r = Done () ∧ history self (Fs_files w') = Some [entry].
Proof.
  intros Hwf Hl He Hc Hans Hrest. unfold upsert. rewrite (proj2 He).
  destruct (calm_locks (lock_targets self) w Hc) as (faults & Hlocks & Hc').
  set (w1 := mkFs (Fs_files w) answers faults).
  assert (retained_list (HistoryStore_max_messages self) [entry]) as Hr.
  { split; [repeat constructor|apply NoDup_singleton|]. destruct Hwf as [_ ?]. simpl. lia. }
  assert (drain_excess (HistoryStore_max_messages self)
    (merge_sort history_le (replace_or_push entry [])) = [entry]) as Hm.
  { rewrite upsert_retained by constructor. by apply (retained_self _ [entry]). }
  assert (∀ A (k : list HistoryEntry → fs A),
    (load_unlocked self ≫= k) (mkFs (Fs_files w) (Fs_answers w) faults) = k [] w1) as Hload.
  { intros A k. unfold load_unlocked, load_path, mbind, fs_bind. rewrite Hl, Hans.
    unfold fs_exists at 1. simpl. rewrite andb_false_r. simpl. unfold load_canonical, merge_entries.
    by rewrite bool_decide_false by (by intros []). }
  unfold mbind at 1 2, fs_bind at 1 2. simpl. rewrite Hlocks, Hload. cbv zeta. rewrite Hm.
  destruct (spec_persist (X:=False) self [entry] (Fs_files w1)
    (λ _ F, history self F = Some [entry]) (λ _, True)) with w1 as (_ & _ & Hp); try done.
  - by constructor.
  - apply history_write; [done|by constructor|done|]. unfold legacy_gone. by rewrite Hl.
  - destruct (persist self [entry] w1) as [[[]|e|] w']; simpl in *; [done|naive_solver..].
Qed.

(** ** Witnesses *)

Module SampleHistory.

Definition record (id time : Z) (text : string) : HistoryEntry :=
  mkHistoryEntry 1 id time Incoming (str_bytes "base") (Some 3%Z) (str_bytes text) Status_Received None.
Definition sent (id time : Z) (status : HistoryStatus) (ack : option bytes) : HistoryEntry :=
  mkHistoryEntry 1 id time Outgoing (str_bytes "alice") None (str_bytes "on my way") status ack.

Definition store : HistoryStore := mkHistoryStore "data/base.jsonl" (Some "config/base.jsonl") 3.
Definition target : HistoryStore := mkHistoryStore "data/home.jsonl" (Some "config/home.jsonl") 3.
Definition single : HistoryStore := mkHistoryStore "data/base.jsonl" None 3.

Definition old_first : HistoryEntry := record 7 100 "hello".
Definition first_ : HistoryEntry := record 7 100 "hello again".
Definition second_ : HistoryEntry := sent 8 200 Status_Pending None.
Definition third : HistoryEntry := record 9 150 "ping".
Definition acked : HistoryEntry := sent 8 200 Status_Acknowledged (Some [1; 2; 3; 4]%Z).

(** The canonical file out of order, the legacy file with a record of its own and
    a stale copy; the second fault hits the replacement of the canonical file. *)
Definition disk : files :=
  {[ "data/base.jsonl" := encode_file [second_; first_];
     "config/base.jsonl" := encode_file [old_first; third] ]}.
Definition quiet : Fs := mkFs disk [] [].
Definition torn : Fs := mkFs disk [] (replicate 12 Pass ++ [Kill]).

Lemma valid_sample e : bool_decide (HistoryEntry_wf e) = true → HistoryEntry_validate e = Ok () →
  valid_entry e.
Proof. intros ?%bool_decide_eq_true. by split. Qed.

Lemma store_wf : HistoryStore_wf store.
Proof. split; [done|]. vm_compute. split; discriminate. Qed.

Lemma store_history : history store disk = Some [first_; third; second_].
Proof. vm_compute. reflexivity. Qed.

Lemma store_agrees : legacy_agrees store disk.
Proof.
  assert (file_entries "data/base.jsonl" disk = Some [second_; first_]) as Hc by (vm_compute; reflexivity).
  assert (legacy_entries store disk = Some [old_first; third]) as Hl by (vm_compute; reflexivity).
  intros c l Hc' Hl'. change (HistoryStore_path store) with "data/base.jsonl" in Hc'.
  assert (c = [second_; first_]) as -> by congruence.
  assert (l = [old_first; third]) as -> by congruence.
  apply same_times_lists. by apply (bool_decide_unpack _).
Qed.

End SampleHistory.
Import SampleHistory.

Lemma history_file_roundtrip_witness :
  ∃ w', persist store [first_; acked] quiet = (Done (), w') ∧
        ∃ w'', load_path (HistoryStore_path store) w' = (Done [first_; acked], w'').
Proof.
  apply history_file_roundtrip; [|done|by constructor..].
  constructor; [|constructor; [|constructor]]; by apply valid_sample.
Defined.

Lemma load_reconciles_witness :
  let '(r, w') := load store torn in
  history store (Fs_files w') = Some [first_; third; second_] ∧ others store disk (Fs_files w') ∧
  match r with
  | Done entries => entries = [first_; third; second_] ∧ legacy_gone store (Fs_files w')
  | _ => ¬ calm torn
  end.
Proof.
  apply (load_reconciles store torn [first_; third; second_]).
  - apply store_wf.
  - repeat constructor.
  - apply store_history.
  - apply store_agrees.
Defined.

Lemma upsert_atomic_witness :
  let v' := retained 3 (<[8%Z := acked]> (entry_map [first_; third; second_])) in
  let '(r, w') := upsert store acked torn in
  others store disk (Fs_files w') ∧
  match r with
  | Done _ => history store (Fs_files w') = Some v'
  | _ => ¬ calm torn ∧ (history store (Fs_files w') = Some [first_; third; second_]
                         ∨ history store (Fs_files w') = Some v')
  end.
Proof.
  apply (upsert_atomic store acked torn [first_; third; second_]).
  - apply store_wf.
  - repeat constructor.
  - apply store_history.
  - apply store_agrees.
  - by apply valid_sample.
Defined.

(** The owner is a file that names the profile. *)
Definition owner_moved (F : files) : Prop := F !! "config.toml" = Some (str_bytes "home").
Definition rename_owner : fs () := fs_rename "config.toml" (str_bytes "home").

Lemma move_keeps_history_witness :
  let '(r, w') := move_to_with store target rename_owner quiet in
  (¬ owner_moved (Fs_files w') → history store (Fs_files w') = Some [first_; third; second_]) ∧
  (owner_moved (Fs_files w') →
     file_entries (HistoryStore_path target) (Fs_files w') = Some [first_; third; second_]) ∧
  match r with Done _ => owner_moved (Fs_files w') ∧ cleared store (Fs_files w') | _ => True end.
Proof.
  apply move_keeps_history.
  - apply store_wf.
  - repeat constructor.
  - apply store_history.
  - apply store_agrees.
  - split; unfold lock_targets, owner_moved; simpl; [set_solver|].
    intros F F' Hs <-. apply Hs. set_solver.
  - intros [F a f] Hh Hn. unfold calm, rename_owner, fs_rename, fs_step, mbind, fs_bind, owner_moved in *.
    destruct f as [|[| |] f]; simpl in *; split_and!; try done; intros;
      repeat match goal with H : Forall _ (_ :: _) |- _ => apply Forall_cons in H as [? ?] end;
      rewrite ?lookup_insert_eq, ?lookup_insert_ne by set_solver; done.
  - unfold owner_moved. by vm_compute.
Defined.

Lemma unanswered_query_forgets_witness :
  let w := mkFs disk [false] [] in
  history single disk = Some [first_; second_] ∧
  let '(r, w') := upsert single acked w in
  r = Done () ∧ history single (Fs_files w') = Some [acked].
Proof.
  split; [vm_compute; reflexivity|].
  apply (unanswered_query_forgets single acked (mkFs disk [false] []) []);
    [|done|by apply valid_sample|by constructor|done|by constructor].
  split; [done|]. vm_compute. split; discriminate.
Defined.
