(* ===== verification/Paths.v ===== *)
(** * Paths of the store (crates/meshquill-store/src/lib.rs)

    Paths are the bytes of a Unix path, with the components, [join] and [parent]
    of [std::path].  The directories of a platform are resolved from an
    environment, and the history files of a profile are named below them. *)

From S2P Require Import Prelude Text Domain Store History.

(** ** [std::path] *)

Notation path := bytes.
Definition slash : Z := 0x2f.

Inductive Component := RootDir | CurDir | ParentDir | Normal (name : bytes).
#[global] Instance Component_eq_dec : EqDecision Component.
Proof. solve_decision. Defined.

(** Empty segments and [.] are dropped, but for a leading [.]; only an absolute
    path starts with an empty segment. *)
Fixpoint segments (first : bool) (segs : list bytes) : list Component :=
  match segs with
  | [] => []
  | seg :: segs =>
      (if bool_decide (seg = []) then []
       else if bool_decide (seg = str_bytes ".") then (if first then [CurDir] else [])
       else if bool_decide (seg = str_bytes "..") then [ParentDir]
       else [Normal seg]) ++ segments false segs
  end.
Definition is_rooted (p : path) : bool := starts_with [slash] p.
Definition components (p : path) : list Component :=
  (if is_rooted p then [RootDir] else []) ++ segments true (split_on slash p).

Definition path_join (base arg : path) : path :=
  if is_rooted arg then arg
  else if bool_decide (base = []) || ends_with [slash] base then base ++ arg
  else base ++ slash :: arg.

Definition component_bytes (c : Component) : bytes :=
  match c with
  | RootDir => [slash]
  | CurDir => str_bytes "."
  | ParentDir => str_bytes ".."
  | Normal name => name
  end.
(** A path with these components. *)
Definition from_components (cs : list Component) : path :=
  foldl (λ base c, path_join base (component_bytes c)) [] cs.

Definition parent (p : path) : option path :=
  match rev (components p) with
  | [] | RootDir :: _ => None
  | _ :: cs => Some (from_components (rev cs))
  end.
Definition file_name (p : path) : option bytes :=
  match rev (components p) with Normal name :: _ => Some name | _ => None end.

(** ** Platform directories *)

Record PathEnvironment := mkPathEnvironment {
  Env_home : option path;
  Env_xdg_config_home : option path;
  Env_xdg_data_home : option path;
  Env_app_data : option path;
  Env_local_app_data : option path
}.

Definition current_process_env (env : string → option path) : PathEnvironment :=
  let env_path key := match env key with Some [] | None => None | Some value => Some value end in
  let or_else (a b : option path) := match a with Some _ => a | None => b end in
  mkPathEnvironment (or_else (env_path "HOME") (env_path "USERPROFILE")) (env_path "XDG_CONFIG_HOME")
    (env_path "XDG_DATA_HOME") (env_path "APPDATA") (env_path "LOCALAPPDATA").

Definition path_is_absolute_for (platform : Platform) (p : path) : bool :=
  match platform with
  | Platform_Linux | Platform_Macos => starts_with [slash] p
  | Platform_Windows =>
      starts_with [0x5c; 0x5c]%Z p || starts_with [slash; slash] p ||
      match p with
      | a :: b :: c :: _ =>
          is_ascii_alphabetic a && (b =? 0x3a)%Z && ((c =? 0x2f)%Z || (c =? 0x5c)%Z)
      | _ => false
      end
  end.

Definition validated_platform_base (platform : Platform) (base : path) (purpose : string) :
    outcome StoreError path :=
  if bool_decide (base = []) || negb (path_is_absolute_for platform base) then
    Err (StoreError_MissingRuntimePath platform (purpose +:+ " base directory must be absolute"))
  else Ok base.

Definition below (p : path) (name : string) : path := path_join p (str_bytes name).

Definition application_dir (platform : Platform) (base : path) (app_name : path) : path :=
  path_join
    match platform with
    | Platform_Macos => below (below base "Library") "Application Support"
    | Platform_Linux | Platform_Windows => base
    end app_name.

Definition resolve_platform_config_dir (platform : Platform) (app_name : path) (env : PathEnvironment) :
    outcome StoreError path :=
  let missing {A} context : outcome StoreError A := Err (StoreError_MissingRuntimePath platform context) in
  base ← match platform with
         | Platform_Linux =>
             match Env_xdg_config_home env, Env_home env with
             | Some dir, _ => Ok dir
             | None, Some home => Ok (below home ".config")
             | None, None => missing "missing HOME/XDG_CONFIG_HOME"
             end
         | Platform_Macos =>
             match Env_home env with Some home => Ok home | None => missing "missing HOME" end
         | Platform_Windows =>
             match Env_app_data env, Env_local_app_data env with
             | Some dir, _ | None, Some dir => Ok dir
             | None, None => missing "missing APPDATA/LOCALAPPDATA"
             end
         end;
  base ← validated_platform_base platform base "configuration";
  Ok (application_dir platform base app_name).

Definition CONFIG_FILE_NAME : string := "config.toml".
Definition HISTORY_DIR_NAME : string := "history".

Definition resolve_platform_config_path (platform : Platform) (app_name : path) (env : PathEnvironment) :
    outcome StoreError path :=
  dir ← resolve_platform_config_dir platform app_name env;
  Ok (below dir CONFIG_FILE_NAME).

Definition resolve_platform_data_dir (platform : Platform) (app_name : path) (env : PathEnvironment) :
    outcome StoreError path :=
  let missing {A} context : outcome StoreError A := Err (StoreError_MissingRuntimePath platform context) in
  base ← match platform with
         | Platform_Linux =>
             match Env_xdg_data_home env, Env_home env with
             | Some dir, _ => Ok dir
             | None, Some home => Ok (below (below home ".local") "share")
             | None, None => missing "missing HOME/XDG_DATA_HOME"
             end
         | Platform_Macos =>
             match Env_home env with Some home => Ok home | None => missing "missing HOME" end
         | Platform_Windows =>
             match Env_local_app_data env, Env_app_data env with
             | Some dir, _ | None, Some dir => Ok dir
             | None, None => missing "missing LOCALAPPDATA/APPDATA"
             end
         end;
  base ← validated_platform_base platform base "data";
  Ok (application_dir platform base app_name).

Definition resolve_default_data_dir (platform : Platform) (app_name : path) (env : string → option path) :
    outcome StoreError path :=
  resolve_platform_data_dir platform app_name (current_process_env env).

(** ** History files *)

(** The lexical normal form: whether the path is rooted, and its parts, where
    [..] only leads a relative path. *)
Definition normalize_step (rooted : bool) (parts : list bytes) (c : Component) : list bytes :=
  match c with
  | RootDir | CurDir => parts
  | ParentDir =>
      match last parts with
      | Some part =>
          if bool_decide (part = str_bytes "..") then (if rooted then parts else parts ++ [str_bytes ".."])
          else removelast parts
      | None => if rooted then parts else [str_bytes ".."]
      end
  | Normal name => parts ++ [name]
  end.
Definition normalized (p : path) : bool * list bytes :=
  (is_rooted p, foldl (normalize_step (is_rooted p)) [] (components p)).

(** What [hash_os_str] feeds to the hasher, on Unix. *)
Definition hash_os_str (value : bytes) : bytes :=
  str_bytes "unix" ++ [0]%Z ++ u64_to_le_bytes (Z.of_nat (length value)) ++ value.

Definition digest_input (p : path) : bytes :=
  let '(rooted, parts) := normalized p in
  (if rooted then str_bytes "root" ++ [0]%Z else str_bytes "relative" ++ [0]%Z)
  ++ concat (hash_os_str <$> parts).

(** [format!("{:x}")] of a digest. *)
Definition lower_hex_digit (d : Z) : Z := if (d <? 10)%Z then (0x30 + d)%Z else (0x57 + d)%Z.
Definition lower_hex (l : bytes) : bytes :=
  concat ((λ b, [lower_hex_digit (b / 16)%Z; lower_hex_digit (b mod 16)%Z]) <$> l).

Record HistoryPaths := mkHistoryPaths { HistoryPaths_canonical : path; HistoryPaths_legacy : path }.

Definition profile_file (profile : rstring) : bytes := profile ++ str_bytes ".jsonl".

Section Digest.
Context `{Crates}.

Definition normalized_config_path_digest (config_path : path) : bytes :=
  lower_hex (sha256 (digest_input config_path)).

Definition history_paths (data_dir config_path : path) (explicit_config : bool) (profile : rstring) :
    outcome StoreError HistoryPaths :=
  if negb (validate_identifier profile) then invalid "history.profile" "profile must be a safe identifier"
  else
    let canonical_parent :=
      if explicit_config then
        path_join (below data_dir HISTORY_DIR_NAME) (normalized_config_path_digest config_path)
      else below data_dir HISTORY_DIR_NAME in
    let legacy_parent := default (str_bytes ".") (parent config_path) in
    Ok (mkHistoryPaths (path_join canonical_parent (profile_file profile))
          (path_join (below legacy_parent HISTORY_DIR_NAME) (profile_file profile))).
End Digest.

(** ** Facts *)

Lemma split_on_cons_app sep a b : split_on sep (a ++ sep :: b) = split_on sep a ++ split_on sep b.
Proof.
  induction a as [|c a IH]; simpl; [by rewrite Z.eqb_refl|]. rewrite IH.
  destruct (c =? sep)%Z; [done|].
  destruct (split_on sep a) eqn:Ha; [|done]. destruct a; simpl in Ha; repeat case_match; done.
Qed.

Lemma split_on_nonempty sep a : split_on sep a ≠ [].
Proof. destruct a; simpl; [done|]. by repeat case_match. Qed.

Lemma segments_app f a b : a ≠ [] → segments f (a ++ b) = segments f a ++ segments false b.
Proof.
  destruct a as [|x a]; [done|]. intros _. simpl. rewrite <- app_assoc. f_equal.
  induction a as [|y a IH]; simpl; [done|]. by rewrite IH, app_assoc.
Qed.

(** A name that is one component. *)
Definition plain (name : bytes) : Prop :=
  name ≠ [] ∧ name ≠ str_bytes "." ∧ name ≠ str_bytes ".." ∧ slash ∉ name.
#[global] Instance plain_dec name : Decision (plain name).
Proof. unfold plain. apply _. Defined.

Lemma plain_not_rooted name : plain name → is_rooted name = false.
Proof.
  intros (Hn & _ & _ & Hs). unfold is_rooted, starts_with. apply bool_decide_false.
  destruct name as [|b name]; [done|]. simpl. intros [= ->]. set_solver.
Qed.

Lemma segments_plain name : plain name → segments false (split_on slash name) = [Normal name].
Proof.
  intros (Hn & Hd & Hdd & Hs). rewrite split_on_no_sep.
  - simpl. by rewrite !bool_decide_false.
  - apply Forall_forall. intros b Hb ->. done.
Qed.

Lemma is_rooted_app a b : a ≠ [] → is_rooted (a ++ b) = is_rooted a.
Proof. by destruct a. Qed.

(** Joining a plain name adds one component. *)
Lemma components_join base name : plain name →
  components (path_join base name) = components base ++ [Normal name].
Proof.
  intros Hp. unfold path_join. rewrite plain_not_rooted by done.
  destruct (decide (base = [])) as [->|Hb].
  { simpl. unfold components. rewrite plain_not_rooted by done. simpl. pose proof (segments_plain name Hp) as Hs.
    destruct Hp as (Hn & Hd & Hdd & Hns). rewrite split_on_no_sep in *;
      try (apply Forall_forall; intros b Hb ->; done). simpl in *. by rewrite !bool_decide_false in *. }
  rewrite (bool_decide_false (base = [])) by done. simpl.
  assert (∀ a, components (a ++ slash :: name) = components (a ++ [slash]) ++ [Normal name]) as Hsep.
  { intros a. unfold components. change (a ++ [slash]) with (a ++ slash :: []).
    rewrite !split_on_cons_app, !segments_app, segments_plain by (done || apply split_on_nonempty).
    assert (is_rooted (a ++ slash :: name) = is_rooted (a ++ slash :: [])) as -> by (by destruct a).
    simpl. by rewrite app_nil_r, <- app_assoc. }
  destruct (ends_with [slash] base) eqn:He.
  - unfold ends_with, starts_with in He. simpl in He. apply bool_decide_eq_true in He.
    destruct base as [|b base _] using rev_ind; [done|]. rewrite rev_app_distr in He. simpl in He.
    injection He as ->. rewrite <- app_assoc. simpl. by rewrite Hsep.
  - rewrite Hsep. f_equal. unfold components. rewrite is_rooted_app by done. f_equal.
    change (base ++ [slash]) with (base ++ slash :: []).
    rewrite split_on_cons_app, segments_app by apply split_on_nonempty. simpl. by rewrite app_nil_r.
Qed.
