(* ===== verification/MqttSchema.v ===== *)
(** * MQTT gateway: the event schema (crates/meshquill-mqtt/src/schema.rs)

    The payloads of the v1 schema with the conversions from core events, the
    envelope and its validation.  [serde_json] is a class: conversion of the
    payloads to and from a value, and of envelopes to and from bytes, with the
    laws that what is written can be read back. *)

From S2P Require Import Prelude Text Floats Domain MqttConfig.

(** ** Payloads *)

Inductive ConnectionComponent := Component_MeshCore | Component_MqttBroker.
Inductive ConnectionStatus := Status_Connected | Status_Disconnected.

Record ConnectionStateData := mkConnectionStateData {
  ConnectionStateData_component : ConnectionComponent;
  ConnectionStateData_status : ConnectionStatus;
  ConnectionStateData_reason : option rstring
}.

Inductive ContactTypeData :=
| ContactTypeData_Chat | ContactTypeData_Repeater | ContactTypeData_Room | ContactTypeData_Sensor
| ContactTypeData_Unknown (code : u8).

Definition ContactTypeData_from (value : ContactType) : ContactTypeData :=
  match value with
  | ContactType_Chat => ContactTypeData_Chat
  | ContactType_Repeater => ContactTypeData_Repeater
  | ContactType_Room => ContactTypeData_Room
  | ContactType_Sensor => ContactTypeData_Sensor
  | ContactType_Unknown code => ContactTypeData_Unknown code
  end.

Inductive ContactRouteData :=
| ContactRouteData_Flood
| ContactRouteData_Path (hash_mode hop_count : u8).

Definition ContactRouteData_from (value : ContactRoute) : ContactRouteData :=
  match value with
  | ContactRoute_Flood => ContactRouteData_Flood
  | ContactRoute_Path hash_mode hop_count => ContactRouteData_Path hash_mode hop_count
  end.

Record ContactData := mkContactData {
  ContactData_public_key : rstring;
  ContactData_contact_type : ContactTypeData;
  ContactData_flags : u8;
  ContactData_route : ContactRouteData;
  ContactData_out_path : rstring;
  ContactData_adv_name : rstring;
  ContactData_last_advert : u32;
  ContactData_adv_lat : f64;
  ContactData_adv_lon : f64;
  ContactData_lastmod : u32
}.

Record ContactsData := mkContactsData {
  ContactsData_contacts : list ContactData;
  ContactsData_lastmod : u32
}.

Section contacts.
  Context `{Crates}.

Definition ContactData_from (value : Contact) : ContactData :=
  mkContactData (PublicKey_to_hex (Contact_public_key value))
    (ContactTypeData_from (Contact_contact_type value)) (Contact_flags value)
    (ContactRouteData_from (Contact_route value)) (Path_to_hex (Contact_out_path value))
    (Contact_adv_name value) (Contact_last_advert value) (Contact_adv_lat value)
    (Contact_adv_lon value) (Contact_lastmod value).

Definition ContactsData_from (value : ContactSnapshot) : ContactsData :=
  mkContactsData (ContactData_from <$> ContactSnapshot_contacts value) (ContactSnapshot_lastmod value).
End contacts.

Inductive MessageSourceData :=
| MessageSourceData_Direct (pubkey_prefix : rstring)
| MessageSourceData_Channel (channel_idx : u8).

Inductive MessageRouteData :=
| MessageRouteData_Direct
| MessageRouteData_Path (hash_mode hop_count : u8).

Definition MessageRouteData_from (value : MessageRoute) : MessageRouteData :=
  match value with
  | MessageRoute_Direct => MessageRouteData_Direct
  | MessageRoute_Path hash_mode hop_count => MessageRouteData_Path hash_mode hop_count
  end.

Inductive MessageStatusData :=
| MessageStatusData_Received
| MessageStatusData_Queued
| MessageStatusData_Sent (suggested_timeout_ms : option u32)
| MessageStatusData_Acked
| MessageStatusData_Failed (reason : rstring).

Record IncomingMessageData := mkIncomingMessageData {
  IncomingMessageData_source : MessageSourceData;
  IncomingMessageData_route : MessageRouteData;
  IncomingMessageData_txt_type : u8;
  IncomingMessageData_sender_timestamp : u32;
  IncomingMessageData_signature : option rstring;
  IncomingMessageData_text : rstring;
  IncomingMessageData_snr : option f32;
  IncomingMessageData_status : MessageStatusData
}.

(** [DIGITS[n]]. *)
Definition hex_digit_byte (n : Z) : Z := if (n <? 10)%Z then (0x30 + n)%Z else (0x61 + (n - 10))%Z.

Fixpoint lowercase_hex (l : bytes) : rstring :=
  match l with
  | [] => []
  | b :: l => hex_digit_byte (Z.shiftr b 4) :: hex_digit_byte (Z.land b 0x0f) :: lowercase_hex l
  end.

Definition IncomingMessageData_from (value : Message) : IncomingMessageData :=
  let source := match Message_source value with
                | MessageSource_Direct prefix => MessageSourceData_Direct (to_ascii_lowercase prefix)
                | MessageSource_Channel channel_idx => MessageSourceData_Channel channel_idx
                end in
  let status := match Message_status value with
                | MessageStatus_Received => MessageStatusData_Received
                | MessageStatus_Queued => MessageStatusData_Queued
                | MessageStatus_Sent timeout => MessageStatusData_Sent timeout
                | MessageStatus_Acked => MessageStatusData_Acked
                | MessageStatus_Failed reason => MessageStatusData_Failed reason
                end in
  mkIncomingMessageData source (MessageRouteData_from (Message_route value)) (Message_txt_type value)
    (Message_sender_timestamp value) (lowercase_hex <$> Message_signature value) (Message_text value)
    (Message_snr value) status.

Record AckData := mkAckData { AckData_code : rstring; AckData_trip_time_ms : option u32 }.
Definition AckData_from (value : Ack) : AckData :=
  mkAckData (lowercase_hex (Ack_code value)) (Ack_trip_time_ms value).

Inductive TelemetryData :=
| TelemetryData_Battery (level : u16) (used_kb total_kb : option u32)
| TelemetryData_StatsCore (battery_mv : u16) (uptime_seconds : u32) (errors : u16) (queue_length : u8)
| TelemetryData_StatsRadio (noise_floor : i16) (last_rssi : i8) (last_snr : f32)
    (tx_airtime_seconds rx_airtime_seconds : u32)
| TelemetryData_StatsPackets (recv sent flood_recv flood_sent direct_recv direct_sent : u32)
    (recv_errors : option u32)
| TelemetryData_RawCayenneLpp (source_pubkey_prefix payload : rstring).

Definition TelemetryData_from_battery (value : BatteryInfo) : TelemetryData :=
  TelemetryData_Battery (BatteryInfo_level value) (BatteryInfo_used_kb value) (BatteryInfo_total_kb value).

Definition TelemetryData_from_stats (value : DeviceStats) : TelemetryData :=
  match value with
  | DeviceStats_Core battery_mv uptime_seconds errors queue_length =>
      TelemetryData_StatsCore battery_mv uptime_seconds errors queue_length
  | DeviceStats_Radio noise_floor last_rssi last_snr tx_airtime_seconds rx_airtime_seconds =>
      TelemetryData_StatsRadio noise_floor last_rssi last_snr tx_airtime_seconds rx_airtime_seconds
  | DeviceStats_Packets recv sent flood_recv flood_sent direct_recv direct_sent recv_errors =>
      TelemetryData_StatsPackets recv sent flood_recv flood_sent direct_recv direct_sent recv_errors
  end.

Definition TelemetryData_from_response (value : TelemetryResponse) : TelemetryData :=
  TelemetryData_RawCayenneLpp (lowercase_hex (TelemetryResponse_pubkey_prefix value))
    (lowercase_hex (TelemetryResponse_payload value)).

(** ** Publications *)

Inductive Publication :=
| Publication_IncomingMessage (data : IncomingMessageData)
| Publication_Ack (data : AckData)
| Publication_ConnectionState (data : ConnectionStateData)
| Publication_Contacts (data : ContactsData)
| Publication_Telemetry (data : TelemetryData).

Definition Publication_kind (p : Publication) : EventKind :=
  match p with
  | Publication_IncomingMessage _ => Kind_IncomingMessage
  | Publication_Ack _ => Kind_Ack
  | Publication_ConnectionState _ => Kind_ConnectionState
  | Publication_Contacts _ => Kind_Contacts
  | Publication_Telemetry _ => Kind_Telemetry
  end.

Section core_events.
  Context `{Crates}.

Definition Publication_contacts (snapshot : ContactSnapshot) : Publication :=
  Publication_Contacts (ContactsData_from snapshot).
Definition Publication_battery (info : BatteryInfo) : Publication :=
  Publication_Telemetry (TelemetryData_from_battery info).
Definition Publication_raw_telemetry (response : TelemetryResponse) : Publication :=
  Publication_Telemetry (TelemetryData_from_response response).

Definition from_core_event (event : Event) : option Publication :=
  match event with
  | Event_Connected =>
      Some (Publication_ConnectionState (mkConnectionStateData Component_MeshCore Status_Connected None))
  | Event_Disconnected =>
      Some (Publication_ConnectionState (mkConnectionStateData Component_MeshCore Status_Disconnected None))
  | Event_Contacts contacts lastmod => Some (Publication_contacts (mkContactSnapshot contacts lastmod))
  | Event_Message message => Some (Publication_IncomingMessage (IncomingMessageData_from message))
  | Event_Ack ack => Some (Publication_Ack (AckData_from ack))
  | Event_Battery level used_kb total_kb => Some (Publication_battery (mkBatteryInfo level used_kb total_kb))
  | Event_DeviceStats stats => Some (Publication_Telemetry (TelemetryData_from_stats stats))
  | Event_Telemetry response => Some (Publication_raw_telemetry response)
  | _ => None
  end.
End core_events.

(** ** Envelopes *)

Record EventEnvelope (V : Type) := mkEnvelope {
  Envelope_schema : rstring;
  Envelope_event_id : Z;
  Envelope_origin : rstring;
  Envelope_timestamp : u64;
  Envelope_kind : EventKind;
  Envelope_data : V
}.
Arguments mkEnvelope {V}.
Arguments Envelope_schema {V}.
Arguments Envelope_event_id {V}.
Arguments Envelope_origin {V}.
Arguments Envelope_timestamp {V}.
Arguments Envelope_kind {V}.
Arguments Envelope_data {V}.

(** [serde_json] at the types of the schema and of the inbound commands. *)
Class MqttJson := {
  Value : Type;
  is_object : Value → bool;
  publication_to_value : Publication → outcome string Value;
  incoming_message_from_value : Value → outcome string IncomingMessageData;
  ack_from_value : Value → outcome string AckData;
  connection_state_from_value : Value → outcome string ConnectionStateData;
  contacts_from_value : Value → outcome string ContactsData;
  telemetry_from_value : Value → outcome string TelemetryData;
  (** [DirectData]: destination and text. *)
  direct_from_value : Value → outcome string (rstring * rstring);
  (** [ChannelData]: channel and text. *)
  channel_from_value : Value → outcome string (u8 * rstring);
  envelope_to_vec : EventEnvelope Value → outcome string bytes;
  envelope_from_slice : bytes → outcome string (EventEnvelope Value);
  (** [CommandEnvelope]: schema, event id, origin, timestamp, type and data. *)
  command_from_slice : bytes → outcome string (rstring * Z * rstring * u64 * rstring * Value)
}.

Inductive SchemaError :=
| SchemaError_Json (error : string)
| SchemaError_UnsupportedSchema (schema : rstring)
| SchemaError_NilEventId
| SchemaError_InvalidOrigin
| SchemaError_DataMustBeObject
| SchemaError_InvalidEventData (error : string)
| SchemaError_InvalidWireData (message : string).

Definition is_lower_hex_digit (b : Z) : bool := is_ascii_digit b || in_range 0x61 0x66 b.
Definition is_lower_hex_exact (value : rstring) (n : Z) : bool :=
  (byte_len value =? n * 2)%Z && forallb is_lower_hex_digit value.
Definition is_lower_hex_bounded (value : rstring) (maximum_bytes : Z) : bool :=
  (byte_len value mod 2 =? 0)%Z && (byte_len value / 2 <=? maximum_bytes)%Z
  && forallb is_lower_hex_digit value.

Definition validate_origin (origin : rstring) : outcome SchemaError () :=
  if bool_decide (origin = []) || (128 <? byte_len origin)%Z || negb (is_trimmed origin)
     || any_control origin
  then Err SchemaError_InvalidOrigin else Ok ().

(** ** Validation of the payload, by kind *)

Definition wire_error {A} (message : string) : outcome SchemaError A :=
  Err (SchemaError_InvalidWireData message).

Definition validate_incoming_message (value : IncomingMessageData) : outcome SchemaError () :=
  if match IncomingMessageData_source value with
     | MessageSourceData_Direct prefix => negb (is_lower_hex_exact prefix 6)
     | MessageSourceData_Channel _ => false
     end
  then wire_error "incoming message public-key prefix must be six lowercase-hex bytes"
  else if match IncomingMessageData_signature value with
          | Some signature => negb (is_lower_hex_exact signature 4)
          | None => false
          end
  then wire_error "incoming message signature must be four lowercase-hex bytes"
  else Ok ().

Definition validate_ack (value : AckData) : outcome SchemaError () :=
  if negb (is_lower_hex_exact (AckData_code value) 4)
  then wire_error "acknowledgement code must be four lowercase-hex bytes" else Ok ().

Definition validate_contact (contact : ContactData) : outcome SchemaError () :=
  if negb (is_lower_hex_exact (ContactData_public_key contact) 32)
  then wire_error "contact public key must be 32 lowercase-hex bytes"
  else if negb (is_lower_hex_bounded (ContactData_out_path contact) 128)
  then wire_error "contact path must be at most 128 lowercase-hex bytes"
  else Ok ().

Definition validate_contacts (value : ContactsData) : outcome SchemaError () :=
  try_fold (λ _ contact, validate_contact contact) () (ContactsData_contacts value).

Definition validate_telemetry (value : TelemetryData) : outcome SchemaError () :=
  match value with
  | TelemetryData_RawCayenneLpp source_pubkey_prefix payload =>
      if negb (is_lower_hex_exact source_pubkey_prefix 6)
      then wire_error "telemetry source must be six lowercase-hex bytes"
      else if negb (is_lower_hex_bounded payload (2 ^ 64 - 1))
      then wire_error "telemetry payload must be lowercase hexadecimal"
      else Ok ()
  | _ => Ok ()
  end.

Definition validate_direct_data (destination text : rstring) : outcome SchemaError () :=
  if bool_decide (destination = []) || (MAX_COMMAND_DESTINATION_BYTES <? byte_len destination)%Z
     || negb (is_trimmed destination) || any_control destination
     || bool_decide (text = []) || (MAX_COMMAND_TEXT_BYTES <? byte_len text)%Z
     || bool_decide (0%Z ∈ text)
  then wire_error "direct command destination or text is invalid" else Ok ().

Definition validate_channel_data (text : rstring) : outcome SchemaError () :=
  if bool_decide (text = []) || (MAX_COMMAND_TEXT_BYTES <? byte_len text)%Z || bool_decide (0%Z ∈ text)
  then wire_error "channel command text is invalid" else Ok ().

Section Envelope.
Context `{MqttJson}.

Definition deserialize_data {T} (from_value : Value → outcome string T) (data : Value) :
    outcome SchemaError T :=
  map_err SchemaError_InvalidEventData (from_value data).

Definition validate_event_data (kind : EventKind) (data : Value) : outcome SchemaError () :=
  match kind with
  | Kind_IncomingMessage =>
      value ← deserialize_data incoming_message_from_value data; validate_incoming_message value
  | Kind_Ack => value ← deserialize_data ack_from_value data; validate_ack value
  | Kind_ConnectionState => _ ← deserialize_data connection_state_from_value data; Ok ()
  | Kind_Contacts => value ← deserialize_data contacts_from_value data; validate_contacts value
  | Kind_Telemetry => value ← deserialize_data telemetry_from_value data; validate_telemetry value
  | Kind_SendDirect =>
      '(destination, text) ← deserialize_data direct_from_value data;
      validate_direct_data destination text
  | Kind_SendChannel =>
      '(_, text) ← deserialize_data channel_from_value data; validate_channel_data text
  end.

Definition EventEnvelope_validate (self : EventEnvelope Value) : outcome SchemaError () :=
  if bool_decide (Envelope_schema self ≠ SCHEMA_VERSION) then
    Err (SchemaError_UnsupportedSchema (Envelope_schema self))
  else if (Envelope_event_id self =? 0)%Z then Err SchemaError_NilEventId
  else
  _ ← validate_origin (Envelope_origin self);
  if negb (is_object (Envelope_data self)) then Err SchemaError_DataMustBeObject
  else validate_event_data (Envelope_kind self) (Envelope_data self).

Definition EventEnvelope_new (event_id : Z) (origin : rstring) (timestamp : u64) (kind : EventKind)
    (data : Value) : outcome SchemaError (EventEnvelope Value) :=
  let envelope := mkEnvelope SCHEMA_VERSION event_id origin timestamp kind data in
  _ ← EventEnvelope_validate envelope;
  Ok envelope.

Definition data_value (p : Publication) : outcome SchemaError Value :=
  map_err SchemaError_Json (publication_to_value p).

Definition from_publication (event_id : Z) (origin : rstring) (timestamp : u64) (p : Publication) :
    outcome SchemaError (EventEnvelope Value) :=
  data ← data_value p;
  EventEnvelope_new event_id origin timestamp (Publication_kind p) data.

Definition EventEnvelope_encode (self : EventEnvelope Value) : outcome SchemaError bytes :=
  _ ← EventEnvelope_validate self;
  map_err SchemaError_Json (envelope_to_vec self).

Definition EventEnvelope_decode (payload : bytes) : outcome SchemaError (EventEnvelope Value) :=
  envelope ← map_err SchemaError_Json (envelope_from_slice payload);
  _ ← EventEnvelope_validate envelope;
  Ok envelope.
End Envelope.
