(* ===== verification/MqttCommand.v ===== *)
(** * MQTT gateway: inbound commands
    (crates/meshquill-mqtt/src/command.rs)

    The bounded cache of event ids, and the gate an inbound publication passes. *)

From S2P Require Import Prelude Text Domain MqttConfig MqttSchema.

(** ** The cache of event ids

    An [Instant] and a [Duration] are numbers of nanoseconds. *)

Inductive DedupeDecision := Fresh | Duplicate.
#[global] Instance DedupeDecision_eq_dec : EqDecision DedupeDecision.
Proof. solve_decision. Defined.

Record EventIdDedupe := mkDedupe {
  Dedupe_slots : Z;
  Dedupe_ttl : Z;
  Dedupe_entries : gmap Z Z;
  Dedupe_order : list (Z * Z)
}.

Inductive DedupeError :=
| DedupeError_ZeroCapacity
| DedupeError_ZeroTtl
| DedupeError_CapacityExceedsLimit (configured maximum : Z)
| DedupeError_TtlExceedsLimit (configured maximum : Z).

Definition from_secs (s : u64) : Z := s * 1000000000.

Definition EventIdDedupe_new (capacity ttl : Z) : outcome DedupeError EventIdDedupe :=
  if (capacity =? 0)%Z then Err DedupeError_ZeroCapacity
  else if (ttl =? 0)%Z then Err DedupeError_ZeroTtl
  else if (MAX_DEDUPE_CAPACITY <? capacity)%Z then
    Err (DedupeError_CapacityExceedsLimit capacity MAX_DEDUPE_CAPACITY)
  else if (from_secs MAX_DEDUPE_TTL_SECS <? ttl)%Z then
    Err (DedupeError_TtlExceedsLimit ttl (from_secs MAX_DEDUPE_TTL_SECS))
  else Ok (mkDedupe capacity ttl ∅ []).

(** [now.checked_duration_since(seen)]. *)
Definition checked_duration_since (now seen : Z) : option Z :=
  if (now <? seen)%Z then None else Some (now - seen)%Z.

(** [if self.entries.get(&event_id) == Some(&seen) { remove }]. *)
Definition forget (entries : gmap Z Z) (event_id seen : Z) : gmap Z Z :=
  if bool_decide (entries !! event_id = Some seen) then delete event_id entries else entries.

(** The [while] loop of [evict_expired], over the queue. *)
Fixpoint evict_expired (ttl now : Z) (entries : gmap Z Z) (order : list (Z * Z)) :
    gmap Z Z * list (Z * Z) :=
  match order with
  | [] => (entries, [])
  | (event_id, seen) :: rest =>
      let expired := match checked_duration_since now seen with
                     | Some elapsed => (ttl <=? elapsed)%Z
                     | None => false
                     end in
      if negb expired then (entries, order)
      else evict_expired ttl now (forget entries event_id seen) rest
  end.

Fixpoint enforce_capacity (capacity : Z) (entries : gmap Z Z) (order : list (Z * Z)) :
    gmap Z Z * list (Z * Z) :=
  if negb (capacity <? Z.of_nat (size entries))%Z then (entries, order) else
  match order with
  | [] => (entries, [])
  | (event_id, seen) :: rest => enforce_capacity capacity (forget entries event_id seen) rest
  end.

Definition check_and_insert_at (self : EventIdDedupe) (event_id now : Z) :
    DedupeDecision * EventIdDedupe :=
  let '(entries, order) := evict_expired (Dedupe_ttl self) now (Dedupe_entries self) (Dedupe_order self) in
  let duplicate := match entries !! event_id with
                   | Some seen => match checked_duration_since now seen with
                                  | None => true
                                  | Some elapsed => (elapsed <? Dedupe_ttl self)%Z
                                  end
                   | None => false
                   end in
  if duplicate then (Duplicate, mkDedupe (Dedupe_slots self) (Dedupe_ttl self) entries order) else
  let '(entries, order) :=
    enforce_capacity (Dedupe_slots self) (<[event_id := now]> entries) (order ++ [(event_id, now)]) in
  (Fresh, mkDedupe (Dedupe_slots self) (Dedupe_ttl self) entries order).

(** ** Commands *)

Inductive SendCommand :=
| SendCommand_Direct (destination text : rstring)
| SendCommand_Channel (channel : u8) (text : rstring).

Record AcceptedCommand := mkAcceptedCommand {
  Accepted_event_id : Z;
  Accepted_origin : rstring;
  Accepted_timestamp : u64;
  Accepted_command : SendCommand
}.

Inductive CommandError :=
| CommandError_Config (error : ConfigError)
| CommandError_Dedupe (error : DedupeError)
| CommandError_SendDisabled
| CommandError_UnexpectedTopic
| CommandError_InvalidTopicEncoding
| CommandError_RetainedCommand
| CommandError_EmptyPayload
| CommandError_PayloadTooLarge (actual maximum : Z)
| CommandError_InvalidJson (error : string)
| CommandError_UnsupportedSchema
| CommandError_NilEventId
| CommandError_InvalidOrigin
| CommandError_LocalOriginLoop
| CommandError_DataMustBeObject
| CommandError_UnsupportedCommand
| CommandError_InvalidCommandData (error : string)
| CommandError_InvalidDestination
| CommandError_DestinationTooLong (actual maximum : Z)
| CommandError_ChannelOutOfRange (channel maximum : u8)
| CommandError_InvalidText
| CommandError_TextTooLong (actual maximum : Z)
| CommandError_DuplicateEvent.

Definition validate_destination (destination : rstring) (maximum : Z) : outcome CommandError () :=
  if bool_decide (destination = []) || negb (is_trimmed destination) then
    Err CommandError_InvalidDestination
  else if (maximum <? byte_len destination)%Z then
    Err (CommandError_DestinationTooLong (byte_len destination) maximum)
  else if any_control destination then Err CommandError_InvalidDestination
  else Ok ().

Definition validate_text (text : rstring) (maximum : Z) : outcome CommandError () :=
  if bool_decide (text = []) || bool_decide (0%Z ∈ text) then Err CommandError_InvalidText
  else if (maximum <? byte_len text)%Z then Err (CommandError_TextTooLong (byte_len text) maximum)
  else Ok ().

Definition validate_send_command (command : SendCommand) (limits : CommandLimits) :
    outcome CommandError () :=
  match command with
  | SendCommand_Direct destination text =>
      _ ← validate_destination destination (Limits_max_destination_bytes limits);
      validate_text text (Limits_max_text_bytes limits)
  | SendCommand_Channel channel text =>
      if (Limits_max_channel limits <? channel)%Z then
        Err (CommandError_ChannelOutOfRange channel (Limits_max_channel limits))
      else validate_text text (Limits_max_text_bytes limits)
  end.

(** ** The gate *)

Record CommandProcessor := mkProcessor {
  Processor_allow_send : bool;
  Processor_outbound_topic : rstring;
  Processor_local_origin : rstring;
  Processor_max_payload_bytes : Z;
  Processor_limits : CommandLimits;
  Processor_dedupe : EventIdDedupe
}.

Definition CommandProcessor_new (tls : TlsFiles) (config : MqttConfig) :
    outcome CommandError CommandProcessor :=
  _ ← map_err CommandError_Config (MqttConfig_validate tls config);
  topics ← map_err CommandError_Config (TopicSet_new (Mqtt_topic_prefix config));
  dedupe ← map_err CommandError_Dedupe
    (EventIdDedupe_new (Dedupe_capacity (Mqtt_dedupe config))
       (from_secs (Dedupe_ttl_secs (Mqtt_dedupe config))));
  Ok (mkProcessor (Mqtt_allow_send config) (outbound_send topics) (Mqtt_origin config)
    (Mqtt_max_payload_bytes config) (Mqtt_command_limits config) dedupe).

Definition subscription_topic (self : CommandProcessor) : option rstring :=
  if Processor_allow_send self then Some (Processor_outbound_topic self) else None.

Section Gate.
Context `{MqttJson}.

(** The command of an envelope, by its type. *)
Definition parse_command (kind : rstring) (data : Value) : outcome CommandError SendCommand :=
  if bool_decide (kind = str_bytes "send_direct") then
    '(destination, text) ← map_err CommandError_InvalidCommandData (direct_from_value data);
    Ok (SendCommand_Direct destination text)
  else if bool_decide (kind = str_bytes "send_channel") then
    '(channel, text) ← map_err CommandError_InvalidCommandData (channel_from_value data);
    Ok (SendCommand_Channel channel text)
  else Err CommandError_UnsupportedCommand.

(** Everything before the cache: what does not change the state. *)
Definition screen (self : CommandProcessor) (topic : rstring) (payload : bytes) :
    outcome CommandError AcceptedCommand :=
  if negb (Processor_allow_send self) then Err CommandError_SendDisabled
  else if bool_decide (topic ≠ Processor_outbound_topic self) then Err CommandError_UnexpectedTopic
  else if bool_decide (payload = []) then Err CommandError_EmptyPayload
  else if (Processor_max_payload_bytes self <? byte_len payload)%Z then
    Err (CommandError_PayloadTooLarge (byte_len payload) (Processor_max_payload_bytes self))
  else
  '(schema, event_id, origin, timestamp, kind, data) ←
    map_err CommandError_InvalidJson (command_from_slice payload);
  if bool_decide (schema ≠ SCHEMA_VERSION) then Err CommandError_UnsupportedSchema
  else if (event_id =? 0)%Z then Err CommandError_NilEventId
  else
  _ ← map_err (λ _, CommandError_InvalidOrigin) (validate_origin origin);
  if bool_decide (origin = Processor_local_origin self) then Err CommandError_LocalOriginLoop
  else if negb (is_object data) then Err CommandError_DataMustBeObject
  else
  command ← parse_command kind data;
  _ ← validate_send_command command (Processor_limits self);
  Ok (mkAcceptedCommand event_id origin timestamp command).

Definition process_at (self : CommandProcessor) (topic : rstring) (payload : bytes) (now : Z) :
    outcome CommandError AcceptedCommand * CommandProcessor :=
  match screen self topic payload with
  | Ok accepted =>
      let '(decision, dedupe) :=
        check_and_insert_at (Processor_dedupe self) (Accepted_event_id accepted) now in
      let self' := mkProcessor (Processor_allow_send self) (Processor_outbound_topic self)
        (Processor_local_origin self) (Processor_max_payload_bytes self) (Processor_limits self) dedupe in
      (if bool_decide (decision = Duplicate) then Err CommandError_DuplicateEvent else Ok accepted, self')
  | Err error => (Err error, self)
  | Panic => (Panic, self)
  end.
End Gate.
