(* ===== verification/MqttRunner.v ===== *)
(** * MQTT gateway: publisher, worker and runner (crates/meshquill-mqtt/src/runner.rs)

    The two loops of the gateway as transition functions: [worker_turn] polls the
    client library and paces reconnects, [process_step] serves the publication
    and network channels.  What the environment does at each suspension point
    (a send goes through, the channel is closed or full, an operation fails or
    times out, the token is cancelled) is a [fate]; what the gateway does to the
    outside is a log. *)

From S2P Require Import Prelude Text Domain MqttConfig MqttSchema MqttCommand.

Inductive GatewayError :=
| GatewayError_Config (error : ConfigError)
| GatewayError_Command (error : CommandError)
| GatewayError_Backoff (error : BackoffError)
| GatewayError_Schema (error : SchemaError)
| GatewayError_TlsFile (path : string) (source : IoErrorKind)
| GatewayError_TlsFileNotRegular (path : string)
| GatewayError_TlsFileTooLarge (path : string) (maximum : Z)
| GatewayError_Tls (message : string)
| GatewayError_NoTrustRoots
| GatewayError_IncompleteClientIdentity
| GatewayError_ProtocolPartsMismatch
| GatewayError_PublicationTooLarge (actual maximum : Z)
| GatewayError_NonPublishableEvent
| GatewayError_Cancelled
| GatewayError_PublicationChannelClosed
| GatewayError_NoticeChannelClosed
| GatewayError_NetworkChannelClosed
| GatewayError_NetworkWorkerStopped
| GatewayError_CommandSubscriptionRejected
| GatewayError_MissingEventLoop
| GatewayError_Client (message : string)
| GatewayError_BrokerOperationTimeout (timeout_ms : u64)
| GatewayError_WorkerJoin
| GatewayError_ClockBeforeUnixEpoch
| GatewayError_TimestampOverflow.

(** ** Preparing a publication *)

Record PreparedPublication := mkPrepared {
  Prepared_kind : EventKind;
  Prepared_payload : bytes
}.

Definition unix_timestamp_millis (clock : option Z) : outcome GatewayError u64 :=
  elapsed ← ok_or clock GatewayError_ClockBeforeUnixEpoch;
  if (elapsed <? 2 ^ 64)%Z then Ok elapsed else Err GatewayError_TimestampOverflow.

Section Prepare.
Context `{MqttJson}.

Definition prepare_publication (publication : Publication) (event_id : Z) (origin : rstring)
    (timestamp : u64) (max_payload_bytes : Z) : outcome GatewayError PreparedPublication :=
  envelope ← map_err GatewayError_Schema (from_publication event_id origin timestamp publication);
  payload ← map_err GatewayError_Schema (EventEnvelope_encode envelope);
  if (max_payload_bytes <? byte_len payload)%Z then
    Err (GatewayError_PublicationTooLarge (byte_len payload) max_payload_bytes)
  else Ok (mkPrepared (Publication_kind publication) payload).
End Prepare.

(** ** What the environment decides and what the gateway does *)

Inductive fate :=
| Fate_Done
| Fate_Cancelled
| Fate_Closed
| Fate_Full
| Fate_Failed (message : string)
| Fate_TimedOut.

Inductive NetworkNotice :=
| Notice_Connected
| Notice_Disconnected
| Notice_CommandReady
| Notice_CommandSubscriptionRejected
| Notice_Publish (topic payload : bytes) (retain : bool).

Inductive GatewayNotice :=
| Gateway_BrokerState (status : ConnectionStatus)
| Gateway_CommandReady
| Gateway_Command (command : AcceptedCommand)
| Gateway_Rejected (error : CommandError).

Inductive effect :=
| Did_Publish (topic : rstring) (qos : MqttQos) (payload : bytes)
| Did_Subscribe (topic : rstring) (qos : MqttQos)
| Did_Notify (notice : GatewayNotice)
| Did_Forward (notice : NetworkNotice)
| Did_Sleep (delay_ms : u64).

Record world := mkWorld { World_fates : list fate; World_log : list effect }.

Definition gw (A : Type) : Type := world → outcome GatewayError A * world.
#[global] Instance gw_ret : MRet gw := fun A a w => (Ok a, w).
#[global] Instance gw_bind : MBind gw := fun A B f m w =>
  match m w with
  | (Ok a, w) => f a w
  | (Err e, w) => (Err e, w)
  | (Panic, w) => (Panic, w)
  end.
Definition gw_lift {A} (m : outcome GatewayError A) : gw A := λ w, (m, w).

Definition next_fate : gw fate := λ w,
  (Ok (default Fate_Done (head (World_fates w))), mkWorld (tail (World_fates w)) (World_log w)).
Definition did (e : effect) : gw () := λ w, (Ok (), mkWorld (World_fates w) (World_log w ++ [e])).

(** A biased [select!] of cancellation against a channel send: cancelled or
    closed, nothing is sent. *)
Definition send_or_cancel (e : effect) (closed : GatewayError) : gw () :=
  f ← next_fate;
  match f with
  | Fate_Cancelled => mret ()
  | Fate_Closed => gw_lift (Err closed)
  | _ => did e
  end.

Definition send_notice (notice : GatewayNotice) : gw () :=
  send_or_cancel (Did_Notify notice) GatewayError_NoticeChannelClosed.

(** A rejection is dropped when the channel is full. *)
Definition try_send_rejection (error : CommandError) : gw () :=
  f ← next_fate;
  match f with
  | Fate_Full => mret ()
  | Fate_Closed => gw_lift (Err GatewayError_NoticeChannelClosed)
  | _ => did (Did_Notify (Gateway_Rejected error))
  end.

(** [await_broker_operation]: the request enters the client's queue, or not. *)
Definition await_broker_operation (e : effect) (timeout_ms : u64) : gw () :=
  f ← next_fate;
  match f with
  | Fate_Cancelled => gw_lift (Err GatewayError_Cancelled)
  | Fate_Failed message => gw_lift (Err (GatewayError_Client message))
  | Fate_TimedOut => gw_lift (Err (GatewayError_BrokerOperationTimeout timeout_ms))
  | _ => did e
  end.

(** [GatewayPublisher::publish_with_metadata]: what is queued for the runner. *)
Definition publish_with_metadata `{MqttJson} (origin : rstring) (max_payload_bytes : Z)
    (publication : Publication) (event_id : Z) (timestamp : u64) (f : fate) :
    outcome GatewayError (Z * PreparedPublication) :=
  prepared ← prepare_publication publication event_id origin timestamp max_payload_bytes;
  match f with
  | Fate_Cancelled => Err GatewayError_Cancelled
  | Fate_Closed => Err GatewayError_PublicationChannelClosed
  | _ => Ok (event_id, prepared)
  end.

(** ** The network worker *)

(** What [classify_v311_event] and [classify_v5_event] distinguish. *)
Inductive library_event :=
| Incoming_ConnAck
| Incoming_Publish (topic payload : bytes) (retain : bool)
| Incoming_SubAck (granted : list bool)
| Incoming_Other
| Outgoing_Any.

(** A subscription is ready when its acknowledgement is one granted code. *)
Definition classify_event (event : library_event) : option NetworkNotice :=
  match event with
  | Incoming_ConnAck => Some Notice_Connected
  | Incoming_Publish topic payload retain => Some (Notice_Publish topic payload retain)
  | Incoming_SubAck [true] => Some Notice_CommandReady
  | Incoming_SubAck _ => Some Notice_CommandSubscriptionRejected
  | Incoming_Other | Outgoing_Any => None
  end.

Record Worker := mkWorker { Worker_backoff : ExponentialBackoff; Worker_connected : bool }.

Definition worker_start (reconnect : ReconnectConfig) : outcome GatewayError Worker :=
  backoff ← map_err GatewayError_Backoff (ExponentialBackoff_new reconnect);
  Ok (mkWorker backoff false).

Definition send_network_notice (notice : NetworkNotice) : gw () :=
  send_or_cancel (Did_Forward notice) GatewayError_NetworkChannelClosed.

(** One iteration of [poll_event_loop]: cancelled, an event, or an error of the
    connection.  [None] is a return. *)
Inductive poll_result := Poll_Cancelled | Poll_Event (event : library_event) | Poll_Error.

Definition worker_turn (self : Worker) (result : poll_result) : gw (option Worker) :=
  match result with
  | Poll_Cancelled => mret None
  | Poll_Event event =>
      match classify_event event with
      | Some Notice_Connected =>
          _ ← send_network_notice Notice_Connected;
          mret (Some (mkWorker (Backoff_reset (Worker_backoff self)) true))
      | Some notice => _ ← send_network_notice notice; mret (Some self)
      | None => mret (Some self)
      end
  | Poll_Error =>
      _ ← (if Worker_connected self then send_network_notice Notice_Disconnected else mret ());
      let '(delay, backoff) := next_delay (Worker_backoff self) in
      f ← next_fate;
      match f with
      | Fate_Cancelled => mret None
      | _ => _ ← did (Did_Sleep delay); mret (Some (mkWorker backoff false))
      end
  end.

Fixpoint poll_event_loop (self : Worker) (results : list poll_result) : gw (option Worker) :=
  match results with
  | [] => mret (Some self)
  | result :: results =>
      next ← worker_turn self result;
      match next with
      | None => mret None
      | Some self => poll_event_loop self results
      end
  end.

(** ** The runner *)

Record GatewayRunner := mkRunner {
  Runner_config : MqttConfig;
  Runner_topics : TopicSet;
  Runner_processor : CommandProcessor;
  Runner_publication_input_open : bool
}.

(** [from_protocol_parts]: the runner's own state. *)
Definition from_protocol_parts (tls : TlsFiles) (config : MqttConfig) :
    outcome GatewayError GatewayRunner :=
  topics ← map_err GatewayError_Config (TopicSet_new (Mqtt_topic_prefix config));
  processor ← map_err GatewayError_Command (CommandProcessor_new tls config);
  Ok (mkRunner config topics processor true).

(** [from_v311_parts] and [from_v5_parts]. *)
Definition from_parts (tls : TlsFiles) (protocol : MqttProtocol) (config : MqttConfig) :
    outcome GatewayError GatewayRunner :=
  _ ← map_err GatewayError_Config (MqttConfig_validate tls config);
  if bool_decide (Mqtt_protocol config ≠ protocol) then Err GatewayError_ProtocolPartsMismatch
  else from_protocol_parts tls config.

(** What the runner reads at a network notice: the monotonic time, the system
    clock in milliseconds, and a fresh id. *)
Record reading := mkReading { Reading_now : Z; Reading_clock : option Z; Reading_fresh : Z }.

Inductive input :=
| Input_Cancelled
| Input_Publication (publication : option PreparedPublication)
| Input_Network (notice : option NetworkNotice) (reading : reading).

Definition set_processor (self : GatewayRunner) (processor : CommandProcessor) : GatewayRunner :=
  mkRunner (Runner_config self) (Runner_topics self) processor (Runner_publication_input_open self).

Section Runner.
Context `{MqttJson}.

Definition publish_prepared (self : GatewayRunner) (publication : PreparedPublication) : gw () :=
  topic ← gw_lift (ok_or (for_event (Runner_topics self) (Prepared_kind publication))
                     GatewayError_NonPublishableEvent);
  await_broker_operation (Did_Publish topic (Mqtt_qos (Runner_config self)) (Prepared_payload publication))
    (Mqtt_broker_operation_timeout_ms (Runner_config self)).

Definition publish_connection_state (self : GatewayRunner) (status : ConnectionStatus)
    (r : reading) : gw () :=
  let publication :=
    Publication_ConnectionState (mkConnectionStateData Component_MqttBroker status None) in
  timestamp ← gw_lift (unix_timestamp_millis (Reading_clock r));
  prepared ← gw_lift (prepare_publication publication (Reading_fresh r) (Mqtt_origin (Runner_config self))
                        timestamp (Mqtt_max_payload_bytes (Runner_config self)));
  publish_prepared self prepared.

Definition handle_publish (self : GatewayRunner) (topic payload : bytes) (retain : bool) (now : Z) :
    gw GatewayRunner :=
  if retain then _ ← try_send_rejection CommandError_RetainedCommand; mret self else
  match from_utf8 topic with
  | None => _ ← try_send_rejection CommandError_InvalidTopicEncoding; mret self
  | Some topic =>
      let '(result, processor) := process_at (Runner_processor self) topic payload now in
      match result with
      | Ok command => _ ← send_notice (Gateway_Command command); mret (set_processor self processor)
      | Err error => _ ← try_send_rejection error; mret (set_processor self processor)
      | Panic => λ w, (Panic, w)
      end
  end.

Definition handle_network_notice (self : GatewayRunner) (notice : NetworkNotice) (r : reading) :
    gw GatewayRunner :=
  match notice with
  | Notice_Connected =>
      _ ← send_notice (Gateway_BrokerState Status_Connected);
      _ ← match subscription_topic (Runner_processor self) with
          | Some topic =>
              await_broker_operation (Did_Subscribe topic (Mqtt_qos (Runner_config self)))
                (Mqtt_broker_operation_timeout_ms (Runner_config self))
          | None => mret ()
          end;
      _ ← publish_connection_state self Status_Connected r;
      mret self
  | Notice_Disconnected =>
      _ ← send_notice (Gateway_BrokerState Status_Disconnected);
      _ ← publish_connection_state self Status_Disconnected r;
      mret self
  | Notice_CommandReady => _ ← send_notice Gateway_CommandReady; mret self
  | Notice_CommandSubscriptionRejected => gw_lift (Err GatewayError_CommandSubscriptionRejected)
  | Notice_Publish topic payload retain => handle_publish self topic payload retain (Reading_now r)
  end.

(** One iteration of [process].  The publication branch is disabled once its
    channel is closed. *)
Definition process_step (self : GatewayRunner) (i : input) : gw (option GatewayRunner) :=
  match i with
  | Input_Cancelled => mret None
  | Input_Publication publication =>
      if negb (Runner_publication_input_open self) then mret (Some self) else
      match publication with
      | Some publication => _ ← publish_prepared self publication; mret (Some self)
      | None => mret (Some (mkRunner (Runner_config self) (Runner_topics self) (Runner_processor self) false))
      end
  | Input_Network None _ => gw_lift (Err GatewayError_NetworkWorkerStopped)
  | Input_Network (Some notice) r => self ← handle_network_notice self notice r; mret (Some self)
  end.

Fixpoint process (self : GatewayRunner) (inputs : list input) : gw (option GatewayRunner) :=
  match inputs with
  | [] => mret (Some self)
  | i :: inputs =>
      next ← process_step self i;
      match next with
      | None => mret None
      | Some self => process self inputs
      end
  end.
End Runner.

(** The result of [GatewayRunner::run], from those of the loop and the worker. *)
Definition run_result (processing worker : outcome GatewayError ()) (joined : bool) :
    outcome GatewayError () :=
  if negb joined then Err GatewayError_WorkerJoin else
  match processing with
  | Ok _ | Err GatewayError_Cancelled => worker
  | other => other
  end.
