(* ===== verification/MqttFacts.v ===== *)
(** * Facts about the MQTT gateway

    The cache of event ids against its queue, the screen of inbound commands, the
    topics, and the delays. *)

From stdpp Require Import sorting.
From S2P Require Import Prelude Text Domain MqttConfig MqttSchema MqttCommand.

(** ** The cache *)

Definition queue_map (order : list (Z * Z)) : gmap Z Z := list_to_map order.

(** The map is the queue's, ids are distinct, and the queue is in time order and
    within its bound. *)
Record dedupe_ok (d : EventIdDedupe) : Prop := {
  dedupe_map : Dedupe_entries d = queue_map (Dedupe_order d);
  dedupe_nodup : NoDup (Dedupe_order d).*1;
  dedupe_sorted : StronglySorted (λ a b, (a.2 <= b.2)%Z) (Dedupe_order d);
  dedupe_bound : (Z.of_nat (length (Dedupe_order d)) <= Dedupe_slots d)%Z;
  dedupe_slots : (1 <= Dedupe_slots d)%Z
}.

Definition seen_by (now : Z) (d : EventIdDedupe) : Prop :=
  Forall (λ p, (p.2 <= now)%Z) (Dedupe_order d).

Definition live_at (ttl now : Z) (p : Z * Z) : Prop := (now - p.2 < ttl)%Z.
#[global] Instance live_at_dec ttl now p : Decision (live_at ttl now p).
Proof. unfold live_at. apply _. Defined.

(** What a check leaves: what is live, and the new id behind it, the oldest
    dropped when there is no room. *)
Definition live (d : EventIdDedupe) (now : Z) : list (Z * Z) :=
  filter (live_at (Dedupe_ttl d) now) (Dedupe_order d).
Definition trimmed (slots : Z) (order : list (Z * Z)) : list (Z * Z) :=
  drop (length order - Z.to_nat slots) order.

Lemma forget_head i s order : i ∉ order.*1 → forget (queue_map ((i, s) :: order)) i s = queue_map order.
Proof.
  intros Hi. unfold forget, queue_map. simpl. rewrite bool_decide_true by apply lookup_insert_eq.
  apply delete_insert_id, not_elem_of_list_to_map. done.
Qed.

Lemma evict_expired_live ttl now order :
  NoDup order.*1 → StronglySorted (λ a b, (a.2 <= b.2)%Z) order → Forall (λ p, (p.2 <= now)%Z) order →
  evict_expired ttl now (queue_map order) order =
    (queue_map (filter (live_at ttl now) order), filter (live_at ttl now) order).
Proof.
  induction order as [|[i s] order IH]; intros Hnd Hs Hle; [done|].
  apply NoDup_cons in Hnd as [Hi Hnd]. apply StronglySorted_cons in Hs as [Hall Hs].
  apply Forall_cons in Hle as [His Hle]. cbn [evict_expired fst snd] in *.
  unfold checked_duration_since. rewrite (proj2 (Z.ltb_ge _ _)) by (simpl in His; lia).
  destruct (Z.leb_spec ttl (now - s)) as [Hexp|Hlive]; cbn [negb].
  - rewrite forget_head, IH by done. rewrite filter_cons_False; [done|]. unfold live_at. simpl. lia.
  - assert (filter (live_at ttl now) ((i, s) :: order) = (i, s) :: order) as ->; [|done].
    rewrite filter_cons_True by (unfold live_at; simpl; lia). f_equal.
    clear -Hall Hlive. induction Hall as [|p order Hp _ IH]; [done|].
    rewrite filter_cons_True, IH; [done|]. unfold live_at. simpl in *. lia.
Qed.

Lemma size_queue_map order : NoDup order.*1 → size (queue_map order) = length order.
Proof.
  intros Hnd. unfold queue_map. rewrite <- length_map_to_list.
  by rewrite (map_to_list_to_map order Hnd).
Qed.

Lemma enforce_capacity_trimmed slots order : (0 <= slots)%Z → NoDup order.*1 →
  enforce_capacity slots (queue_map order) order = (queue_map (trimmed slots order), trimmed slots order).
Proof.
  intros Hsl. unfold trimmed. induction order as [|[i s] order IH]; intros Hnd; cbn [enforce_capacity].
  - rewrite (proj2 (Z.ltb_ge _ _)); [done|]. rewrite size_queue_map by done. simpl. lia.
  - pose proof Hnd as Hnd'. apply NoDup_cons in Hnd' as [Hi Hnd'].
    rewrite size_queue_map by done. destruct (Z.ltb_spec slots (Z.of_nat (length ((i, s) :: order)))) as [Hlt|Hge];
      cbn [negb].
    + rewrite forget_head, IH by done. simpl length in *.
      replace (S (length order) - Z.to_nat slots) with (S (length order - Z.to_nat slots)) by lia. done.
    + by replace (length ((i, s) :: order) - Z.to_nat slots) with 0 by lia.
Qed.

Lemma sorted_filter {A} (R : relation A) (P : A → Prop) `{∀ x, Decision (P x)} (l : list A) :
  StronglySorted R l → StronglySorted R (filter P l).
Proof.
  induction 1 as [|x l Hl IH Hx]; [constructor|]. destruct (decide (P x)).
  - rewrite filter_cons_True by done. constructor; [done|]. apply Forall_forall.
    intros y [_ Hy]%list_elem_of_filter. rewrite Forall_forall in Hx. by apply Hx.
  - by rewrite filter_cons_False by done.
Qed.

Lemma live_ok d now : dedupe_ok d → seen_by now d →
  NoDup (live d now).*1 ∧ StronglySorted (λ a b, (a.2 <= b.2)%Z) (live d now) ∧
  Forall (λ p, (p.2 <= now)%Z) (live d now) ∧ length (live d now) ≤ length (Dedupe_order d).
Proof.
  intros [_ Hnd Hs _ _] Hle. unfold live. split_and!.
  - eapply sublist_NoDup; [done|apply fmap_sublist, sublist_filter].
  - by apply sorted_filter.
  - apply Forall_forall. intros p [_ Hp]%list_elem_of_filter. unfold seen_by in Hle.
    rewrite Forall_forall in Hle. by apply Hle.
  - apply length_filter.
Qed.

(** The check, over the queue alone. *)
Lemma check_spec d event_id now : dedupe_ok d → seen_by now d →
  check_and_insert_at d event_id now =
    if bool_decide (event_id ∈ (live d now).*1)
    then (Duplicate, mkDedupe (Dedupe_slots d) (Dedupe_ttl d) (queue_map (live d now)) (live d now))
    else let order := trimmed (Dedupe_slots d) (live d now ++ [(event_id, now)]) in
         (Fresh, mkDedupe (Dedupe_slots d) (Dedupe_ttl d) (queue_map order) order).
Proof.
  intros Hok Hle. destruct (live_ok d now Hok Hle) as (Hnd & Hs & Hll & _).
  destruct Hok as [Hm Hnd0 Hs0 Hb Hsl]. unfold check_and_insert_at.
  rewrite Hm, evict_expired_live by done. fold (live d now).
  destruct (decide (event_id ∈ (live d now).*1)) as [Hin|Hout].
  - rewrite bool_decide_true by done. apply list_elem_of_fmap in Hin as ([i s] & Hi & Hin). simpl in Hi. subst i.
    assert (queue_map (live d now) !! event_id = Some s) as -> by (by apply elem_of_list_to_map).
    unfold live in Hin. apply list_elem_of_filter in Hin as [Hl Hin].
    unfold seen_by in Hle. rewrite Forall_forall in Hle. specialize (Hle _ Hin). unfold live_at in Hl. simpl in *.
    unfold checked_duration_since. rewrite (proj2 (Z.ltb_ge _ _)) by lia. by rewrite (proj2 (Z.ltb_lt _ _)) by lia.
  - rewrite bool_decide_false by done.
    assert (queue_map (live d now) !! event_id = None) as -> by (by apply not_elem_of_list_to_map).
    assert (NoDup (live d now ++ [(event_id, now)]).*1) as Hnd'.
    { rewrite fmap_app. apply NoDup_app. split_and!; [done| |apply NoDup_singleton].
      simpl. intros x Hx ->%list_elem_of_singleton. done. }
    assert (<[event_id := now]> (queue_map (live d now)) = queue_map (live d now ++ [(event_id, now)])) as ->.
    { unfold queue_map. rewrite list_to_map_app. simpl. rewrite insert_empty, insert_union_singleton_l.
      apply map_union_comm, map_disjoint_singleton_l_2. by apply not_elem_of_list_to_map. }
    by rewrite enforce_capacity_trimmed by (done || lia).
Qed.

Lemma trimmed_length slots order : (0 <= slots)%Z → (Z.of_nat (length (trimmed slots order)) <= slots)%Z.
Proof. unfold trimmed. rewrite length_drop. lia. Qed.

Lemma check_ok d event_id now : dedupe_ok d → seen_by now d →
  dedupe_ok (check_and_insert_at d event_id now).2 ∧ seen_by now (check_and_insert_at d event_id now).2.
Proof.
  intros Hok Hle. destruct (live_ok d now Hok Hle) as (Hnd & Hs & Hll & Hlen).
  destruct Hok as [Hm Hnd0 Hs0 Hb Hsl] eqn:Hok'. clear Hok'.
  rewrite check_spec by (done || by split). case_bool_decide as Hin; simpl.
  - split; [split; simpl; (done || lia)|done].
  - assert (sublist (trimmed (Dedupe_slots d) (live d now ++ [(event_id, now)]))
      (live d now ++ [(event_id, now)])) as Hsub by apply sublist_drop.
    split; [split; simpl|].
    + done.
    + eapply sublist_NoDup; [|by apply fmap_sublist]. rewrite fmap_app. apply NoDup_app.
      split_and!; [done| |apply NoDup_singleton]. simpl. intros x Hx ->%list_elem_of_singleton. done.
    + unfold trimmed. eapply StronglySorted_app_1_r. rewrite take_drop. apply StronglySorted_app_2; [|done|repeat constructor].
      intros x y Hx ->%list_elem_of_singleton. rewrite Forall_forall in Hll. by apply Hll.
    + apply trimmed_length. lia.
    + lia.
    + unfold seen_by. simpl. apply Forall_drop, Forall_app. split; [done|].
      repeat constructor; simpl; lia.
Qed.

(** An id seen at [t] with at most [k] ids after it. *)
Definition remembered (d : EventIdDedupe) (event_id t : Z) (k : nat) : Prop :=
  ∃ a b, Dedupe_order d = a ++ (event_id, t) :: b ∧ length b ≤ k.

Lemma live_split d now a event_id t b : Dedupe_order d = a ++ (event_id, t) :: b →
  (now - t < Dedupe_ttl d)%Z →
  live d now = filter (live_at (Dedupe_ttl d) now) a ++ (event_id, t) :: filter (live_at (Dedupe_ttl d) now) b.
Proof. intros Ho Ht. unfold live. rewrite Ho, filter_app, filter_cons_True; [done|]. unfold live_at. simpl. lia. Qed.

Lemma check_remembers d event_id t k event_id' now : dedupe_ok d → seen_by now d →
  remembered d event_id t k → (now - t < Dedupe_ttl d)%Z →
  match (check_and_insert_at d event_id' now).1 with
  | Duplicate => remembered (check_and_insert_at d event_id' now).2 event_id t k
  | Fresh => event_id' ≠ event_id ∧
      ((Z.of_nat (S (S k)) <= Dedupe_slots d)%Z →
       remembered (check_and_insert_at d event_id' now).2 event_id t (S k))
  end.
Proof.
  intros Hok Hle (a & b & Ho & Hb) Ht. pose proof (live_split d now a event_id t b Ho Ht) as Hlive.
  set (a' := filter _ a) in Hlive. set (b' := filter _ b) in Hlive.
  assert (length b' ≤ length b) by apply length_filter.
  rewrite check_spec by done. case_bool_decide as Hin; simpl.
  - exists a', b'. simpl. split; [done|lia].
  - split.
    + intros ->. apply Hin. rewrite Hlive, fmap_app. set_solver.
    + intros Hk. unfold remembered, trimmed. cbn [Dedupe_order]. rewrite Hlive, <- app_assoc. cbn [app].
      exists (drop (length (a' ++ (event_id, t) :: b' ++ [(event_id', now)]) - Z.to_nat (Dedupe_slots d)) a'),
        (b' ++ [(event_id', now)]). split.
      * apply drop_app_le. rewrite length_app. simpl. rewrite length_app. simpl. lia.
      * rewrite length_app. simpl. lia.
Qed.

Lemma check_fresh_remembers d event_id now : dedupe_ok d → seen_by now d →
  (check_and_insert_at d event_id now).1 = Fresh →
  remembered (check_and_insert_at d event_id now).2 event_id now 0.
Proof.
  intros Hok Hle. pose proof (dedupe_slots _ Hok) as Hsl. rewrite check_spec by done.
  case_bool_decide; [done|]. intros _. unfold remembered, trimmed. cbn [fst snd Dedupe_order].
  eexists (drop _ (live d now)), []. split; [|simpl; lia]. apply drop_app_le. rewrite length_app. simpl. lia.
Qed.

(** ** Runs of the gate *)

Section Runs.
Context `{MqttJson}.

(** A topic, a payload and the time it is processed. *)
Definition arrival : Type := rstring * bytes * Z.
Definition arrived (x : arrival) : Z := x.2.

Fixpoint process_all (self : CommandProcessor) (inputs : list arrival) :
    list (outcome CommandError AcceptedCommand) * CommandProcessor :=
  match inputs with
  | [] => ([], self)
  | (topic, payload, now) :: inputs =>
      let '(r, self) := process_at self topic payload now in
      let '(rs, self) := process_all self inputs in
      (r :: rs, self)
  end.

Definition accepted_count (rs : list (outcome CommandError AcceptedCommand)) : nat :=
  length (filter (λ r, is_Ok r = true) rs).

Lemma accepted_count_cons r rs :
  accepted_count (r :: rs) = (if is_Ok r then 1 else 0) + accepted_count rs.
Proof. unfold accepted_count. rewrite filter_cons. by destruct r. Qed.

Definition processor_ok (now : Z) (self : CommandProcessor) : Prop :=
  dedupe_ok (Processor_dedupe self) ∧ seen_by now (Processor_dedupe self).

Lemma seen_by_mono now now' d : (now <= now')%Z → seen_by now d → seen_by now' d.
Proof. intros Hn Hs. eapply Forall_impl; [exact Hs|]. simpl. lia. Qed.

(** The settings of a processor never change. *)
Lemma process_fixed self topic payload now :
  let self' := (process_at self topic payload now).2 in
  Dedupe_slots (Processor_dedupe self') = Dedupe_slots (Processor_dedupe self) ∧
  Dedupe_ttl (Processor_dedupe self') = Dedupe_ttl (Processor_dedupe self).
Proof.
  unfold process_at. destruct (screen self topic payload) as [a| |]; [|done..].
  unfold check_and_insert_at. by repeat case_match; simplify_eq/=.
Qed.

Lemma process_keeps self topic payload now now' : (now <= now')%Z → processor_ok now self →
  processor_ok now' (process_at self topic payload now').2.
Proof.
  intros Hn [Hok Hs]. apply (seen_by_mono _ now') in Hs; [|done]. unfold process_at.
  destruct (screen self topic payload) as [a| |]; [|by split..].
  destruct (check_ok (Processor_dedupe self) (Accepted_event_id a) now' Hok Hs) as [? ?].
  destruct (check_and_insert_at _ _ _). by split.
Qed.

(** What one call does to a remembered id. *)
Lemma process_remembers self topic payload now event_id t k :
  processor_ok now self → remembered (Processor_dedupe self) event_id t k →
  (now - t < Dedupe_ttl (Processor_dedupe self))%Z →
  (Z.of_nat (S k) <= Dedupe_slots (Processor_dedupe self))%Z →
  let '(r, self') := process_at self topic payload now in
  match r with
  | Ok a => Accepted_event_id a ≠ event_id ∧
      ((Z.of_nat (S (S k)) <= Dedupe_slots (Processor_dedupe self))%Z →
       remembered (Processor_dedupe self') event_id t (S k))
  | _ => remembered (Processor_dedupe self') event_id t k
  end.
Proof.
  intros [Hok Hs] Hr Ht Hk. unfold process_at. destruct (screen self topic payload) as [a| |]; [|done..].
  pose proof (check_remembers _ event_id t k (Accepted_event_id a) now Hok Hs Hr Ht) as Hc.
  destruct (check_and_insert_at _ _ _) as [[] d']; simpl in Hc |- *; done.
Qed.

Lemma processor_ok_mono now now' self : (now <= now')%Z → processor_ok now self → processor_ok now' self.
Proof. intros Hn [? ?]. split; [done|by apply (seen_by_mono now)]. Qed.

Lemma process_fresh_remembers self topic payload now a : processor_ok now self →
  (process_at self topic payload now).1 = Ok a →
  remembered (Processor_dedupe (process_at self topic payload now).2) (Accepted_event_id a) now 0.
Proof.
  intros [Hok Hs]. unfold process_at. destruct (screen self topic payload) as [x| |]; [|done..].
  pose proof (check_fresh_remembers (Processor_dedupe self) (Accepted_event_id x) now Hok Hs) as Hf.
  destruct (check_and_insert_at _ _ _) as [[] d]; simpl in *; [|done]. intros [= ->]. by apply Hf.
Qed.

Definition in_order (now : Z) (inputs : list arrival) : Prop :=
  StronglySorted Z.le (now :: (arrived <$> inputs)).

Lemma in_order_cons now topic payload now' inputs : in_order now ((topic, payload, now') :: inputs) →
  (now <= now')%Z ∧ in_order now' inputs.
Proof.
  unfold in_order. simpl. intros [Hall Hs]%StronglySorted_cons. split; [|done].
  apply Forall_cons in Hall as [? _]. done.
Qed.

Lemma in_order_app now xs ys : in_order now (xs ++ ys) →
  in_order now xs ∧ in_order (default now (last (arrived <$> xs))) ys.
Proof.
  revert now. induction xs as [|[[topic payload] t] xs IH]; intros now Ho.
  { split; [|done]. unfold in_order. simpl. repeat constructor. }
  cbn [app] in Ho. pose proof Ho as Ho'. apply in_order_cons in Ho' as [Hn Ho'].
  destruct (IH t Ho') as [Hxs Hys]. split.
  - unfold in_order in Ho |- *. rewrite app_comm_cons, fmap_app, app_comm_cons in Ho.
    by apply StronglySorted_app_1_l in Ho.
  - change (arrived <$> (topic, payload, t) :: xs) with (t :: (arrived <$> xs)). rewrite last_cons.
    destruct (last (arrived <$> xs)); exact Hys.
Qed.

Lemma in_order_before now xs y x : in_order now (xs ++ [y]) → x ∈ xs → (arrived x <= arrived y)%Z.
Proof.
  intros Ho Hx. apply StronglySorted_cons in Ho as [_ Ho]. rewrite fmap_app in Ho.
  apply (StronglySorted_app_1_elem_of Z.le _ _ (arrived x) (arrived y) Ho).
  - by apply list_elem_of_fmap_2.
  - set_solver.
Qed.

Lemma process_all_keeps self now inputs : in_order now inputs → processor_ok now self →
  let self' := (process_all self inputs).2 in
  processor_ok (default now (last (arrived <$> inputs))) self' ∧
  Dedupe_slots (Processor_dedupe self') = Dedupe_slots (Processor_dedupe self) ∧
  Dedupe_ttl (Processor_dedupe self') = Dedupe_ttl (Processor_dedupe self).
Proof.
  revert self now. induction inputs as [|[[topic payload] now'] inputs IH]; intros self now Ho Hok; [done|].
  apply in_order_cons in Ho as [Hn Ho]. pose proof (process_fixed self topic payload now') as [Hsl Htt].
  pose proof (process_keeps self topic payload now now' Hn Hok) as Hok'.
  cbn [process_all]. destruct (process_at self topic payload now') as [r self']. simpl in *.
  specialize (IH self' now' Ho Hok'). destruct (process_all self' inputs) as [rs self'']. simpl in *.
  rewrite Hsl, Htt in IH. change (arrived (topic, payload, now')) with now'. rewrite last_cons.
  change (list_fmap arrival Z arrived inputs) with (arrived <$> inputs).
  destruct (last (arrived <$> inputs)); exact IH.
Qed.

(** An accepted id is not accepted again while it is remembered. *)
Lemma process_all_remembers self now inputs event_id t k :
  in_order now inputs → processor_ok now self → remembered (Processor_dedupe self) event_id t k →
  Forall (λ x, arrived x - t < Dedupe_ttl (Processor_dedupe self))%Z inputs →
  (Z.of_nat (S (k + accepted_count (process_all self inputs).1)) <= Dedupe_slots (Processor_dedupe self))%Z →
  remembered (Processor_dedupe (process_all self inputs).2) event_id t
    (k + accepted_count (process_all self inputs).1).
Proof.
  revert self now k. induction inputs as [|[[topic payload] now'] inputs IH]; intros self now k Ho Hok Hr Hall Hk.
  { unfold accepted_count. simpl. by rewrite Nat.add_0_r. }
  apply in_order_cons in Ho as [Hn Ho]. apply Forall_cons in Hall as [Hx Hall].
  pose proof (process_fixed self topic payload now') as [Hsl Htt].
  pose proof (process_keeps self topic payload now now' Hn Hok) as Hok'.
  destruct Hok as [Hd Hseen]. cbn [process_all] in Hk |- *.
  assert (processor_ok now' self) as Hnow by (split; [done|by apply (seen_by_mono now)]).
  pose proof (process_remembers self topic payload now' event_id t k Hnow Hr Hx) as Hstep.
  destruct (process_at self topic payload now') as [r self']. simpl in *. rewrite <- Htt in Hall.
  destruct (process_all self' inputs) as [rs self''] eqn:Hall'. simpl in Hk |- *.
  assert (self'' = (process_all self' inputs).2) as -> by (by rewrite Hall').
  assert (rs = (process_all self' inputs).1) as Hrs by (by rewrite Hall').
  rewrite Hrs, accepted_count_cons in Hk |- *. destruct r as [a|e|]; cbn [is_Ok Nat.add] in Hk |- *.
  - rewrite Nat.add_succ_r, <- Nat.add_succ_l in Hk |- *.
    apply (IH self' now' (S k)); try done; [|rewrite Hsl; exact Hk]. apply Hstep; lia.
  - apply (IH self' now' k); try done; [|rewrite Hsl; exact Hk]. apply Hstep. lia.
  - apply (IH self' now' k); try done; [|rewrite Hsl; exact Hk]. apply Hstep. lia.
Qed.
End Runs.
