(* ===== verification/MqttProps.v ===== *)
(** * Properties of the MQTT gateway

    Replay protection of the inbound gate, what the gateway may do to the outside,
    the pace of reconnects, and the round trip of published events. *)

From stdpp Require Import sorting.
From S2P Require Import Prelude Text Floats Domain Samples MqttConfig MqttSchema MqttCommand MqttRunner MqttFacts.

(** ** Construction *)

Lemma bind_Ok {E A B} (m : outcome E A) (f : A → outcome E B) b :
  m ≫= f = Ok b ↔ ∃ a, m = Ok a ∧ f a = Ok b.
Proof. destruct m; simpl; naive_solver. Qed.

Lemma map_err_Ok {E F A} (g : E → F) (m : outcome E A) a : map_err g m = Ok a ↔ m = Ok a.
Proof. destruct m; simpl; naive_solver. Qed.

Lemma if_Err {E A} (b : bool) (e : E) (m : outcome E A) a :
  (if b then Err e else m) = Ok a ↔ b = false ∧ m = Ok a.
Proof. destruct b; naive_solver. Qed.

(** Inverts a chain of guards and calls that ended in [Ok]. *)
Ltac ok_inv H :=
  repeat first
    [ rewrite bind_Ok in H; let a := fresh "a" in let Ha := fresh "Ha" in destruct H as (a & Ha & H); try ok_inv Ha
    | rewrite map_err_Ok in H
    | progress unfold ConfigError_invalid in H
    | rewrite if_Err in H; let Hb := fresh "Hb" in destruct H as [Hb H] ].

Lemma reconnect_valid c : validate_reconnect c = Ok () →
  ExponentialBackoff_new c = Ok (mkBackoff c (Reconnect_initial_delay_ms c)).
Proof. unfold validate_reconnect, ExponentialBackoff_new. intros H. ok_inv H. by rewrite Hb, Hb0, Hb1, Hb2. Qed.

Lemma within_range lo hi z : negb (within lo hi z) = false → (lo <= z <= hi)%Z.
Proof. unfold within. intros H. apply negb_false_iff in H. lia. Qed.

Lemma dedupe_valid c : validate_dedupe c = Ok () →
  EventIdDedupe_new (Dedupe_capacity c) (from_secs (Dedupe_ttl_secs c)) =
    Ok (mkDedupe (Dedupe_capacity c) (from_secs (Dedupe_ttl_secs c)) ∅ []) ∧
  (1 <= Dedupe_capacity c)%Z.
Proof.
  unfold validate_dedupe, EventIdDedupe_new, from_secs. intros H. ok_inv H.
  apply within_range in Hb, Hb0. unfold MAX_DEDUPE_CAPACITY, MAX_DEDUPE_TTL_SECS in *.
  rewrite (proj2 (Z.eqb_neq _ _)), (proj2 (Z.eqb_neq _ _)), (proj2 (Z.ltb_ge _ _)), (proj2 (Z.ltb_ge _ _)) by lia.
  split; [done|lia].
Qed.

(** The parts of a configuration that passed validation. *)
Record config_valid (c : MqttConfig) : Prop := {
  valid_prefix : validate_topic_prefix (Mqtt_topic_prefix c) = Ok ();
  valid_reconnect : validate_reconnect (Mqtt_reconnect c) = Ok ();
  valid_dedupe : validate_dedupe (Mqtt_dedupe c) = Ok ();
  valid_limits : validate_command_limits (Mqtt_command_limits c) (Mqtt_max_payload_bytes c) = Ok ();
  valid_session : Mqtt_allow_send c = true → Session_clean (Mqtt_session c) = true;
  valid_tls : Tls_verify_server_certificate (Mqtt_tls c) = true
}.

Lemma MqttConfig_validate_parts tls c : MqttConfig_validate tls c = Ok () → config_valid c.
Proof.
  unfold MqttConfig_validate. intros H. ok_inv H. unfold validate_tls in H. ok_inv H.
  repeat match goal with a : () |- _ => destruct a end. split; try done.
  - intros Hs. rewrite Hs in *. by destruct (Session_clean _).
  - by apply negb_false_iff.
Qed.

(** validation is complete.  A configuration that passes [validate] is
    refused by no later constructor: the runner and the network worker are built,
    and the command topic is subscribed to exactly when sending was allowed, in a
    clean session and with certificate verification on. *)
Theorem validated_config_builds tls c : MqttConfig_validate tls c = Ok () →
  ∃ r w, from_parts tls (Mqtt_protocol c) c = Ok r ∧ worker_start (Mqtt_reconnect c) = Ok w ∧
    subscription_topic (Runner_processor r) =
      (if Mqtt_allow_send c then Some (outbound_send (Runner_topics r)) else None) ∧
    (Mqtt_allow_send c = true → Session_clean (Mqtt_session c) = true) ∧
    Tls_verify_server_certificate (Mqtt_tls c) = true.
Proof.
  intros Hv. destruct (MqttConfig_validate_parts tls c Hv) as [Hp Hr Hd Hl Hs Ht].
  unfold from_parts, from_protocol_parts, CommandProcessor_new, TopicSet_new, worker_start.
  rewrite Hv, Hp. simpl. rewrite bool_decide_false by (intros Hne; by apply Hne).
  destruct (dedupe_valid _ Hd) as [-> _]. simpl. rewrite (reconnect_valid _ Hr). simpl. eauto 10.
Qed.

(** ** Replay *)

Lemma processor_new_ok tls c p now : CommandProcessor_new tls c = Ok p →
  processor_ok now p ∧ Dedupe_slots (Processor_dedupe p) = Dedupe_capacity (Mqtt_dedupe c) ∧
  Dedupe_ttl (Processor_dedupe p) = from_secs (Dedupe_ttl_secs (Mqtt_dedupe c)).
Proof.
  unfold CommandProcessor_new. intros H. ok_inv H. destruct a. apply MqttConfig_validate_parts in Ha as [_ _ Hd _ _ _].
  destruct (dedupe_valid _ Hd) as [Heq Hc]. rewrite Heq in Ha1. injection Ha1 as <-. injection H as <-.
  split_and!; [|done..]. split; [split; simpl; try (done || constructor || lia)|constructor].
Qed.

(** C9: an accepted command is not accepted again.  Whatever arrived before and
    in between, in time order, a second command with the id of an accepted one is
    accepted only after the retention time, or after as many other commands as the
    cache holds. *)
Theorem commands_not_replayed `{MqttJson} tls c p start before first_ between again a b :
  CommandProcessor_new tls c = Ok p →
  in_order start (before ++ first_ :: between ++ [again]) →
  let p1 := (process_all p before).2 in
  let run x q := process_at q x.1.1 x.1.2 x.2 in
  let p2 := (run first_ p1).2 in
  let p3 := (process_all p2 between).2 in
  (run first_ p1).1 = Ok a → (run again p3).1 = Ok b → Accepted_event_id b = Accepted_event_id a →
  (from_secs (Dedupe_ttl_secs (Mqtt_dedupe c)) <= arrived again - arrived first_)%Z ∨
  (Dedupe_capacity (Mqtt_dedupe c) <= Z.of_nat (accepted_count (process_all p2 between).1))%Z.
Proof.
  intros Hnew Ho p1 run p2 p3 Ha Hb Hid.
  destruct (Z.le_gt_cases (from_secs (Dedupe_ttl_secs (Mqtt_dedupe c))) (arrived again - arrived first_)) as [|Ht]; [by left|].
  destruct (Z.le_gt_cases (Dedupe_capacity (Mqtt_dedupe c)) (Z.of_nat (accepted_count (process_all p2 between).1))) as [|Hn]; [by right|].
  exfalso. destruct (processor_new_ok tls c p start Hnew) as (Hok & Hslots & Httl).
  apply in_order_app in Ho as [Ho1 Ho2]. destruct (process_all_keeps p start before Ho1 Hok) as (Hok1 & Hs1 & Ht1).
  change (process_all p before).2 with p1 in Hok1, Hs1, Ht1.
  destruct first_ as [[topic payload] t]. apply in_order_cons in Ho2 as [Hle Ho2].
  destruct (process_fixed p1 topic payload t) as [Hs2 Ht2].
  pose proof (process_keeps p1 topic payload _ t Hle Hok1) as Hok2.
  pose proof (process_fresh_remembers p1 topic payload t a (processor_ok_mono _ _ _ Hle Hok1) Ha) as Hrem.
  change (process_at p1 topic payload t).2 with p2 in Hs2, Ht2, Hok2, Hrem.
  pose proof Ho2 as Ho3. apply in_order_app in Ho3 as [Ho3 Ho4].
  destruct (process_all_keeps p2 t between Ho3 Hok2) as (Hok3 & Hs3 & Ht3).
  change (process_all p2 between).2 with p3 in Hok3, Hs3, Ht3.
  destruct again as [[topic' payload'] t']. apply in_order_cons in Ho4 as [Hle4 _].
  unfold arrived in Ht. cbn [fst snd] in Ht.
  assert (remembered (Processor_dedupe p3) (Accepted_event_id a) t (accepted_count (process_all p2 between).1)) as Hrem3.
  { apply (process_all_remembers p2 t between (Accepted_event_id a) t 0); try done.
    - apply Forall_forall. intros x Hx. rewrite Ht2, Ht1, Httl.
      apply (in_order_before _ _ _ x) in Ho2; [|done]. unfold arrived in Ho2 |- *. simpl in Ho2 |- *. lia.
    - rewrite Hs2, Hs1, Hslots. lia. }
  pose proof (process_remembers p3 topic' payload' t' (Accepted_event_id a) t _ (processor_ok_mono _ _ _ Hle4 Hok3) Hrem3) as Hlast.
  change (run (topic', payload', t') p3) with (process_at p3 topic' payload' t') in Hb.
  destruct (process_at p3 topic' payload' t') as [r p4]. simpl in Hb. subst r.
  destruct Hlast as [Hne _]; [rewrite Ht3, Ht2, Ht1, Httl; lia|rewrite Hs3, Hs2, Hs1, Hslots; lia|done].
Qed.

(** ** The gate *)

Lemma destination_checked d n : validate_destination d n = Ok () →
  d ≠ [] ∧ trim d = chars d ∧ (byte_len d <= n)%Z ∧ Forall (λ c, is_control c = false) (chars d).
Proof.
  unfold validate_destination. intros H. ok_inv H. apply orb_false_iff in Hb as [He Ht].
  apply bool_decide_eq_false in He. apply negb_false_iff, bool_decide_eq_true in Ht.
  split_and!; [done..|lia|]. apply Forall_forall. intros x Hx.
  destruct (is_control x) eqn:Hc; [|done]. apply not_true_iff_false in Hb1. destruct Hb1.
  apply existsb_exists. exists x. by rewrite <- list_elem_of_In.
Qed.

Lemma text_checked s n : validate_text s n = Ok () → s ≠ [] ∧ 0%Z ∉ s ∧ (byte_len s <= n)%Z.
Proof.
  unfold validate_text. intros H. ok_inv H. apply orb_false_iff in Hb as [He Ht].
  apply bool_decide_eq_false in He, Ht. split_and!; [done..|lia].
Qed.

(** What a command that passed the limits looks like. *)
Definition within_limits (limits : CommandLimits) (command : SendCommand) : Prop :=
  match command with
  | SendCommand_Direct d text =>
      d ≠ [] ∧ trim d = chars d ∧ (byte_len d <= Limits_max_destination_bytes limits)%Z ∧
      Forall (λ c, is_control c = false) (chars d) ∧
      text ≠ [] ∧ 0%Z ∉ text ∧ (byte_len text <= Limits_max_text_bytes limits)%Z
  | SendCommand_Channel channel text =>
      (channel <= Limits_max_channel limits)%Z ∧
      text ≠ [] ∧ 0%Z ∉ text ∧ (byte_len text <= Limits_max_text_bytes limits)%Z
  end.

Lemma send_command_checked c limits : validate_send_command c limits = Ok () → within_limits limits c.
Proof.
  destruct c as [d text|channel text]; simpl; intros H; ok_inv H.
  - destruct a. apply destination_checked in Ha. apply text_checked in H. naive_solver.
  - apply text_checked in H. split; [lia|done].
Qed.

(** The envelope a payload carries, and the command in it. *)
Definition carries `{MqttJson} (payload : bytes) (a : AcceptedCommand) : Prop :=
  ∃ kind data,
    command_from_slice payload =
      Ok (SCHEMA_VERSION, Accepted_event_id a, Accepted_origin a, Accepted_timestamp a, kind, data) ∧
    is_object data = true ∧ parse_command kind data = Ok (Accepted_command a).

Lemma screen_checked `{MqttJson} p topic payload a : screen p topic payload = Ok a →
  Processor_allow_send p = true ∧ topic = Processor_outbound_topic p ∧ payload ≠ [] ∧
  (byte_len payload <= Processor_max_payload_bytes p)%Z ∧ carries payload a ∧
  Accepted_event_id a ≠ 0%Z ∧ validate_origin (Accepted_origin a) = Ok () ∧
  Accepted_origin a ≠ Processor_local_origin p ∧ within_limits (Processor_limits p) (Accepted_command a).
Proof.
  unfold screen. intros Hs.
  with_strategy opaque [parse_command validate_send_command validate_origin] ok_inv Hs.
  destruct a0 as [[[[[schema event_id] origin] timestamp] kind] data].
  with_strategy opaque [parse_command validate_send_command validate_origin] ok_inv Hs.
  injection Hs as <-. apply negb_false_iff in Hb, Hb6.
  apply bool_decide_eq_false in Hb0, Hb1, Hb3, Hb5. apply Z.ltb_ge in Hb2. apply Z.eqb_neq in Hb4.
  apply dec_stable in Hb0, Hb3. subst. destruct a0, a2. apply send_command_checked in Ha2.
  unfold carries. simpl. split_and!; eauto.
Qed.

(** ** What the gateway does to the outside *)

(** [m] only does what [P] allows, and returns what [Q] says. *)
Definition gspec {A} (P : effect → Prop) (m : gw A) (Q : A → Prop) : Prop :=
  ∀ w, Forall P (World_log w) → Forall P (World_log (m w).2) ∧ ∀ a, (m w).1 = Ok a → Q a.

Section gspec.
Context (P : effect → Prop).

Lemma gspec_ret {A} (a : A) (Q : A → Prop) : Q a → gspec P (mret a) Q.
Proof. intros HQ w Hw. split; [done|]. by intros ? [= <-]. Qed.
Lemma gspec_bind {A B} (m : gw A) (f : A → gw B) R Q :
  gspec P m R → (∀ a, R a → gspec P (f a) Q) → gspec P (m ≫= f) Q.
Proof.
  intros Hm Hf w Hw. destruct (Hm w Hw) as [Hw' HR]. unfold mbind, gw_bind.
  destruct (m w) as [[a|e|] w']; simpl in *; [by apply Hf; [apply HR|]|done..].
Qed.
Lemma gspec_lift {A} (m : outcome GatewayError A) (Q : A → Prop) :
  (∀ a, m = Ok a → Q a) → gspec P (gw_lift m) Q.
Proof. intros HQ w Hw. by split. Qed.
Lemma gspec_fate (Q : fate → Prop) : (∀ f, Q f) → gspec P next_fate Q.
Proof. intros HQ w Hw. by split. Qed.
Lemma gspec_did e (Q : () → Prop) : P e → Q () → gspec P (did e) Q.
Proof. intros He HQ w Hw. split; [by apply Forall_app; split; [|constructor]|]. by intros [] _. Qed.

Lemma gspec_send e closed (Q : () → Prop) : P e → Q () → gspec P (send_or_cancel e closed) Q.
Proof.
  intros He HQ. eapply gspec_bind; [by apply (gspec_fate (λ _, True))|]. intros [] _;
    auto using gspec_did, gspec_ret; by apply gspec_lift.
Qed.
Lemma gspec_reject error (Q : () → Prop) : P (Did_Notify (Gateway_Rejected error)) → Q () →
  gspec P (try_send_rejection error) Q.
Proof.
  intros He HQ. eapply gspec_bind; [by apply (gspec_fate (λ _, True))|]. intros [] _;
    auto using gspec_did, gspec_ret; by apply gspec_lift.
Qed.
Lemma gspec_broker e timeout_ms (Q : () → Prop) : P e → Q () → gspec P (await_broker_operation e timeout_ms) Q.
Proof.
  intros He HQ. eapply gspec_bind; [by apply (gspec_fate (λ _, True))|]. intros [] _;
    auto using gspec_did; by apply gspec_lift.
Qed.
End gspec.

Section Isolation.
Context `{MqttJson} (c : MqttConfig) (topics : TopicSet).

Definition permitted (inputs : list input) (e : effect) : Prop :=
  match e with
  | Did_Publish topic _ payload =>
      (∃ kind, for_event topics kind = Some topic) ∧ topic ≠ outbound_send topics ∧
      (byte_len payload <= Mqtt_max_payload_bytes c)%Z
  | Did_Subscribe topic _ => Mqtt_allow_send c = true ∧ topic = outbound_send topics
  | Did_Notify (Gateway_Command a) =>
      Mqtt_allow_send c = true ∧ within_limits (Mqtt_command_limits c) (Accepted_command a) ∧
      Accepted_origin a ≠ Mqtt_origin c ∧
      ∃ payload r, Input_Network (Some (Notice_Publish (outbound_send topics) payload false)) r ∈ inputs ∧
        (byte_len payload <= Mqtt_max_payload_bytes c)%Z ∧ carries payload a
  | _ => True
  end.

(** A publication reaches the runner through [publish_with_metadata]. *)
Definition published_by_handle (i : input) : Prop :=
  match i with
  | Input_Publication (Some p) => ∃ publication event_id timestamp f,
      publish_with_metadata (Mqtt_origin c) (Mqtt_max_payload_bytes c) publication event_id timestamp f
        = Ok (event_id, p)
  | _ => True
  end.

Record runner_ok (r : GatewayRunner) : Prop := {
  runner_config : Runner_config r = c;
  runner_topics : Runner_topics r = topics;
  runner_allow : Processor_allow_send (Runner_processor r) = Mqtt_allow_send c;
  runner_topic : Processor_outbound_topic (Runner_processor r) = outbound_send topics;
  runner_origin : Processor_local_origin (Runner_processor r) = Mqtt_origin c;
  runner_payload : Processor_max_payload_bytes (Runner_processor r) = Mqtt_max_payload_bytes c;
  runner_limits : Processor_limits (Runner_processor r) = Mqtt_command_limits c
}.

Context (Htopics : TopicSet_new (Mqtt_topic_prefix c) = Ok topics).

Lemma event_topics_apart kind topic : for_event topics kind = Some topic → topic ≠ outbound_send topics.
Proof using Htopics.
  unfold TopicSet_new in Htopics. revert Htopics.
  destruct (validate_topic_prefix _) as [[]| |]; simpl; try done. intros [= <-].
  destruct kind; simpl; intros [= <-] Heq; do 3 (apply app_inv_head in Heq || idtac); discriminate Heq.
Qed.

Lemma prepared_bound publication event_id origin timestamp n p :
  prepare_publication publication event_id origin timestamp n = Ok p → (byte_len (Prepared_payload p) <= n)%Z.
Proof.
  unfold prepare_publication. intros Hp.
  with_strategy opaque [from_publication EventEnvelope_encode] ok_inv Hp. injection Hp as <-. simpl. lia.
Qed.

Lemma gspec_publish_prepared inputs r p : runner_ok r →
  (byte_len (Prepared_payload p) <= Mqtt_max_payload_bytes c)%Z →
  gspec (permitted inputs) (publish_prepared r p) (λ _, True).
Proof using Htopics.
  intros Hr Hp. eapply gspec_bind with (R := λ topic, for_event topics (Prepared_kind p) = Some topic).
  - apply gspec_lift. rewrite (runner_topics r Hr). intros t. by destruct (for_event _ _); intros [= ->].
  - intros topic Ht. apply gspec_broker; [|done]. split_and!; [eauto|by eapply event_topics_apart|done].
Qed.

Lemma gspec_connection_state inputs r status rd : runner_ok r →
  gspec (permitted inputs) (publish_connection_state r status rd) (λ _, True).
Proof using Htopics.
  intros Hr. eapply gspec_bind; [by apply (gspec_lift _ _ (λ _, True))|]. intros t _.
  eapply gspec_bind with (R := λ p, (byte_len (Prepared_payload p) <= Mqtt_max_payload_bytes c)%Z).
  - apply gspec_lift. intros p Hp. rewrite (runner_config r Hr) in Hp. by eapply prepared_bound.
  - intros p Hp. by apply gspec_publish_prepared.
Qed.

Lemma runner_ok_processor r p : runner_ok r →
  Processor_allow_send p = Processor_allow_send (Runner_processor r) →
  Processor_outbound_topic p = Processor_outbound_topic (Runner_processor r) →
  Processor_local_origin p = Processor_local_origin (Runner_processor r) →
  Processor_max_payload_bytes p = Processor_max_payload_bytes (Runner_processor r) →
  Processor_limits p = Processor_limits (Runner_processor r) →
  runner_ok (set_processor r p).
Proof. intros [] ? ? ? ? ?. split; simpl; congruence. Qed.

Lemma gspec_handle_publish inputs r topic payload retain rd : runner_ok r →
  Input_Network (Some (Notice_Publish topic payload retain)) rd ∈ inputs →
  gspec (permitted inputs) (handle_publish r topic payload retain (Reading_now rd)) runner_ok.
Proof.
  intros Hr Hin. unfold handle_publish. destruct retain.
  { eapply gspec_bind; [by apply (gspec_reject _ _ (λ _, True))|]. intros. by apply gspec_ret. }
  destruct (from_utf8 topic) as [t|] eqn:Ht; cycle 1.
  { eapply gspec_bind; [by apply (gspec_reject _ _ (λ _, True))|]. intros. by apply gspec_ret. }
  apply from_utf8_Some in Ht as [-> _]. unfold process_at.
  destruct (screen _ _ _) as [a|e|] eqn:Hs.
  - destruct (check_and_insert_at _ _ _) as [decision dedupe].
    case_bool_decide.
    + eapply gspec_bind; [by apply (gspec_reject _ _ (λ _, True))|]. intros. by apply gspec_ret, runner_ok_processor.
    + eapply gspec_bind; [|intros; by apply gspec_ret, runner_ok_processor].
      apply (gspec_send _ _ _ (λ _, True)); [|done].
      apply screen_checked in Hs as (Hallow & -> & _ & Hlen & Hc & _ & _ & Ho & Hlim).
      destruct Hr as [_ _ Ha Htp Hor Hpl Hli]. rewrite Htp in Hin. simpl.
      rewrite <- Ha, <- Hli, <- Hor, <- Hpl. split_and!; [done..|]. by exists payload, rd.
  - eapply gspec_bind; [by apply (gspec_reject _ _ (λ _, True))|]. intros. apply gspec_ret. by destruct r, Hr.
  - intros w Hw. by split.
Qed.

Lemma gspec_process_step inputs r i : runner_ok r → i ∈ inputs → published_by_handle i →
  gspec (permitted inputs) (process_step r i) (λ next, from_option runner_ok True next).
Proof using Htopics.
  intros Hr Hin Hp. destruct i as [|[p|]|[notice|] rd]; simpl.
  - by apply gspec_ret.
  - case_match; [by apply gspec_ret|]. destruct Hp as (publication & id & ts & f & Hp).
    eapply gspec_bind; [apply gspec_publish_prepared; [done|]|intros; by apply gspec_ret].
    unfold publish_with_metadata in Hp. rewrite bind_Ok in Hp. destruct Hp as (q & Hq & Hp).
    apply prepared_bound in Hq. destruct f; by simplify_eq.
  - case_match; [by apply gspec_ret|]. apply gspec_ret. by destruct Hr; split.
  - eapply gspec_bind with (R := runner_ok); [|intros; by apply gspec_ret].
    destruct notice; simpl.
    + eapply gspec_bind; [by apply (gspec_send _ _ _ (λ _, True))|]. intros _ _.
      eapply gspec_bind with (R := λ _, True).
      { unfold subscription_topic. case_match eqn:Hs; [|by apply gspec_ret].
        destruct (Processor_allow_send _) eqn:Ha; simplify_eq. apply gspec_broker; [|done].
        simpl. by rewrite <- (runner_allow r Hr), <- (runner_topic r Hr). }
      intros _ _. eapply gspec_bind; [by apply gspec_connection_state|]. intros. by apply gspec_ret.
    + eapply gspec_bind; [by apply (gspec_send _ _ _ (λ _, True))|]. intros _ _.
      eapply gspec_bind; [by apply gspec_connection_state|]. intros. by apply gspec_ret.
    + eapply gspec_bind; [by apply (gspec_send _ _ _ (λ _, True))|]. intros. by apply gspec_ret.
    + by apply gspec_lift.
    + by apply gspec_handle_publish.
  - by apply gspec_lift.
Qed.

Lemma gspec_process inputs r todo : runner_ok r → (∀ i, i ∈ todo → i ∈ inputs) →
  Forall published_by_handle todo → gspec (permitted inputs) (process r todo) (λ _, True).
Proof using Htopics.
  intros Hr Hsub Hp. revert r Hr Hsub. induction Hp as [|i todo Hi _ IH]; intros r Hr Hsub; [by apply gspec_ret|].
  eapply gspec_bind; [apply gspec_process_step; [done|apply Hsub; set_solver|done]|].
  intros [r'|] Hr'; [|by apply gspec_ret]. apply IH; [done|]. intros j Hj. apply Hsub. set_solver.
Qed.
End Isolation.

(** C31: what the gateway does to the outside.  Whatever the broker, the
    application and the token do, it publishes bounded payloads on its event
    topics and never on the command topic; it subscribes to the command topic
    only, and only if sending is allowed; and every command it hands to the
    application arrived on exactly that topic, not retained, from another origin,
    is what the payload carries, and is within the limits. *)
Theorem gateway_isolated `{MqttJson} tls c r inputs fates :
  from_parts tls (Mqtt_protocol c) c = Ok r →
  Forall (published_by_handle c) inputs →
  Forall (permitted c (Runner_topics r) inputs) (World_log (process r inputs (mkWorld fates [])).2).
Proof.
  unfold from_parts, from_protocol_parts, CommandProcessor_new. intros Hr Hp.
  with_strategy opaque [MqttConfig_validate TopicSet_new EventIdDedupe_new] ok_inv Hr.
  assert (a3 = a0) as -> by congruence. injection Ha1 as <-. injection Hr as <-.
  eapply gspec_process; [done| |by intros|done|constructor]. by split.
Qed.

(** ** Reconnects *)

(** The reference: the [n]-th failure in a row is followed by a pause of
    [initial * multiplier ^ n] milliseconds, at most the maximum; a connection
    starts over; the loss of a connection is reported once. *)
Definition pause (c : ReconnectConfig) (n : nat) : Z :=
  Z.min (Reconnect_initial_delay_ms c * Reconnect_multiplier c ^ Z.of_nat n) (Reconnect_max_delay_ms c).

Fixpoint paced (c : ReconnectConfig) (failures : nat) (connected : bool) (results : list poll_result) :
    list effect :=
  match results with
  | [] | Poll_Cancelled :: _ => []
  | Poll_Error :: results =>
      (if connected then [Did_Forward Notice_Disconnected] else [])
      ++ Did_Sleep (pause c failures) :: paced c (S failures) false results
  | Poll_Event Incoming_ConnAck :: results => Did_Forward Notice_Connected :: paced c 0 true results
  | Poll_Event event :: results =>
      (Did_Forward <$> option_list (classify_event event)) ++ paced c failures connected results
  end.

Lemma pause_step c n : validate_reconnect c = Ok () → (0 <= Reconnect_initial_delay_ms c)%Z →
  Z.min (u64_saturating_mul (pause c n) (Reconnect_multiplier c)) (Reconnect_max_delay_ms c) = pause c (S n).
Proof.
  unfold validate_reconnect. intros Hv H0. ok_inv Hv. unfold MAX_RECONNECT_DELAY_MS in *.
  unfold u64_saturating_mul, pause. rewrite Nat2Z.inj_succ, Z.pow_succ_r by lia.
  set (m := Reconnect_multiplier c) in *. set (i := Reconnect_initial_delay_ms c) in *.
  set (x := Reconnect_max_delay_ms c) in *. assert (2 <= m)%Z by lia.
  replace (i * (m * m ^ Z.of_nat n))%Z with (i * m ^ Z.of_nat n * m)%Z by ring.
  set (y := (i * m ^ Z.of_nat n)%Z). destruct (Z.min_spec y x) as [[? ->]|[? ->]]; [lia|].
  assert (x <= x * m)%Z by nia. assert (x <= y * m)%Z by nia. lia.
Qed.

(** Runs the monad on a known prefix of the loop. *)
Ltac gw_run :=
  cbv [mbind gw_bind mret gw_ret send_network_notice send_or_cancel next_fate did gw_lift Backoff_reset];
  simpl.

Lemma poll_event_loop_paced c results n connected log : validate_reconnect c = Ok () →
  (0 <= Reconnect_initial_delay_ms c)%Z →
  World_log (poll_event_loop (mkWorker (mkBackoff c (pause c n)) connected) results (mkWorld [] log)).2 =
  log ++ paced c n connected results.
Proof.
  intros Hv H0. assert (pause c 0 = Reconnect_initial_delay_ms c) as Hp0.
  { unfold validate_reconnect in Hv. ok_inv Hv. unfold pause. simpl. lia. }
  revert n connected log. induction results as [|[|event|] results IH]; intros n connected log.
  - by rewrite app_nil_r.
  - by rewrite app_nil_r.
  - cbn [poll_event_loop worker_turn]. destruct event as [|topic payload retain|[|[] [|]]| |]; gw_run;
      rewrite <- ?Hp0, IH, <- ?app_assoc; done.
  - cbn [poll_event_loop worker_turn paced]. unfold next_delay.
    cbn [Worker_backoff Backoff_next_delay_ms Backoff_config Worker_connected].
    rewrite pause_step by done. destruct connected; gw_run; rewrite IH, <- ?app_assoc; done.
Qed.

(** the network worker is its reference.  With a validated policy and every
    send going through, it does exactly what [paced] says: pauses grow with the
    power of the multiplier up to the maximum, whatever the width of the
    arithmetic, and connection changes are reported once each. *)
Theorem worker_paced tls c w results :
  MqttConfig_validate tls c = Ok () → is_uint 64 (Reconnect_initial_delay_ms (Mqtt_reconnect c)) →
  worker_start (Mqtt_reconnect c) = Ok w →
  World_log (poll_event_loop w results (mkWorld [] [])).2 = paced (Mqtt_reconnect c) 0 false results.
Proof.
  intros Hv%MqttConfig_validate_parts H0 Hw. destruct Hv as [_ Hr _ _ _ _].
  unfold worker_start in Hw. rewrite (reconnect_valid _ Hr) in Hw. injection Hw as <-.
  destruct H0 as [H0 _]. rewrite <- (app_nil_l (paced _ _ _ _)), <- poll_event_loop_paced by done.
  do 5 f_equal. unfold validate_reconnect in Hr. ok_inv Hr. unfold pause. simpl. lia.
Qed.

(** ** Published events *)

Definition publication_finite (p : Publication) : Prop :=
  match p with
  | Publication_IncomingMessage d => from_option (λ f, is_finite f = true) True (IncomingMessageData_snr d)
  | Publication_Contacts d =>
      Forall (λ c, is_finite (ContactData_adv_lat c) = true ∧ is_finite (ContactData_adv_lon c) = true)
        (ContactsData_contacts d)
  | Publication_Telemetry (TelemetryData_StatsRadio _ _ last_snr _ _) => is_finite last_snr = true
  | _ => True
  end.

Definition publication_reads `{MqttJson} (p : Publication) (v : Value) : Prop :=
  match p with
  | Publication_IncomingMessage d => incoming_message_from_value v = Ok d
  | Publication_Ack d => ack_from_value v = Ok d
  | Publication_ConnectionState d => connection_state_from_value v = Ok d
  | Publication_Contacts d => contacts_from_value v = Ok d
  | Publication_Telemetry d => telemetry_from_value v = Ok d
  end.

(** JSON has no number for an infinite or undefined float; anything else is
    written as an object and read back, and so is an envelope. *)
Class MqttJsonLaws `{MqttJson} : Prop := {
  publication_written p : publication_finite p →
    ∃ v, publication_to_value p = Ok v ∧ is_object v = true ∧ publication_reads p v;
  envelope_written e : ∃ s, envelope_to_vec e = Ok s ∧ envelope_from_slice s = Ok e
}.

Lemma lower_hex_digits s : Forall (λ b, 0x30 <= b <= 0x39 ∨ 0x61 <= b <= 0x66)%Z s →
  forallb is_lower_hex_digit s = true.
Proof.
  rewrite Forall_forall. intros Hs. apply forallb_forall. intros b Hb%list_elem_of_In. specialize (Hs b Hb).
  unfold is_lower_hex_digit, is_ascii_digit, in_range. lia.
Qed.

Lemma lower_hex_exact s n : length s = 2 * n →
  Forall (λ b, 0x30 <= b <= 0x39 ∨ 0x61 <= b <= 0x66)%Z s → is_lower_hex_exact s (Z.of_nat n) = true.
Proof.
  intros Hl Hs. unfold is_lower_hex_exact, byte_len. rewrite Hl. apply andb_true_iff. split; [lia|].
  by apply lower_hex_digits.
Qed.

Lemma lower_hex_bounded s n m : length s = 2 * n → (Z.of_nat n <= m)%Z →
  Forall (λ b, 0x30 <= b <= 0x39 ∨ 0x61 <= b <= 0x66)%Z s → is_lower_hex_bounded s m = true.
Proof.
  intros Hl Hn Hs. unfold is_lower_hex_bounded, byte_len. rewrite Hl.
  replace (Z.of_nat (2 * n)) with (Z.of_nat n * 2)%Z by lia. rewrite Z.mod_mul, Z.div_mul by lia.
  rewrite lower_hex_digits, (proj2 (Z.leb_le _ _)) by done. done.
Qed.

Lemma lowercase_hex_ok l : is_bytes l → length (lowercase_hex l) = 2 * length l ∧
  Forall (λ b, 0x30 <= b <= 0x39 ∨ 0x61 <= b <= 0x66)%Z (lowercase_hex l).
Proof.
  induction 1 as [|b l Hb _ [IHl IHf]]; [by split; [|constructor]|].
  simpl. split; [lia|].
  assert (0 <= Z.shiftr b 4 < 16 ∧ 0 <= Z.land b 15 < 16)%Z as [? ?].
  { rewrite Z.shiftr_div_pow2 by lia. change 15%Z with (Z.ones 4). rewrite Z.land_ones by lia.
    unfold is_u8 in Hb. change (2 ^ 4)%Z with 16%Z. split; [|by apply Z.mod_pos_bound].
    split; [apply Z.div_pos; lia|apply Z.div_lt_upper_bound; lia]. }
  repeat (constructor; [unfold hex_digit_byte; case_match eqn:Hd; lia|]). done.
Qed.

Lemma lowercase_lower s : Forall (λ b, 0x30 <= b <= 0x39 ∨ 0x61 <= b <= 0x66)%Z s → to_ascii_lowercase s = s.
Proof.
  unfold to_ascii_lowercase. induction 1 as [|b s Hb _ IH]; [done|]. rewrite fmap_cons, IH. f_equal.
  unfold in_range. case_match eqn:Hc; lia.
Qed.

Section Events.
Context `{C : Crates} `{!CratesLaws C}.

(** What a core event guarantees of the parts a publication shows: hexadecimal
    prefixes, array lengths, and finite readings. *)
Definition core_event_ok (e : Event) : Prop :=
  match e with
  | Event_Contacts contacts _ =>
      Forall (λ c, wf_Contact c ∧ is_finite (Contact_adv_lat c) = true ∧ is_finite (Contact_adv_lon c) = true)
        contacts
  | Event_Message m =>
      match Message_source m with
      | MessageSource_Direct prefix => ∃ key, is_arr 6 key ∧ prefix = hex_encode key
      | MessageSource_Channel _ => True
      end ∧ from_option (is_arr 4) True (Message_signature m) ∧
      from_option (λ f, is_finite f = true) True (Message_snr m)
  | Event_Ack a => is_arr 4 (Ack_code a)
  | Event_DeviceStats (DeviceStats_Radio _ _ last_snr _ _) => is_finite last_snr = true
  | Event_Telemetry r =>
      is_arr 6 (TelemetryResponse_pubkey_prefix r) ∧ is_bytes (TelemetryResponse_payload r) ∧
      (Z.of_nat (length (TelemetryResponse_payload r)) < 2 ^ 64)%Z
  | _ => True
  end.

Definition validate_publication (p : Publication) : outcome SchemaError () :=
  match p with
  | Publication_IncomingMessage d => validate_incoming_message d
  | Publication_Ack d => validate_ack d
  | Publication_ConnectionState _ => Ok ()
  | Publication_Contacts d => validate_contacts d
  | Publication_Telemetry d => validate_telemetry d
  end.

Lemma validate_message_ok m : core_event_ok (Event_Message m) →
  validate_incoming_message (IncomingMessageData_from m) = Ok ().
Proof using All.
  intros (Hsrc & Hsig & _). unfold validate_incoming_message, IncomingMessageData_from. simpl.
  destruct (Message_source m) as [prefix|ch].
  - destruct Hsrc as (key & [Hk Hl] & ->).
    pose proof (hex_encode_lower key Hk) as Hlow. rewrite lowercase_lower by done.
    rewrite (lower_hex_exact _ 6) by (done || by rewrite hex_encode_length, Hl). simpl.
    destruct (Message_signature m) as [s|]; simpl; [|done]. destruct Hsig as [Hs Hl'].
    destruct (lowercase_hex_ok s Hs). by rewrite (lower_hex_exact _ 4) by (done || lia).
  - destruct (Message_signature m) as [s|]; simpl; [|done]. destruct Hsig as [Hs Hl'].
    destruct (lowercase_hex_ok s Hs). by rewrite (lower_hex_exact _ 4) by (done || lia).
Qed.

Lemma validate_contact_ok c : wf_Contact c → validate_contact (ContactData_from c) = Ok ().
Proof using All.
  intros ([Hk Hl] & _ & _ & _ & Hp & Hpl & _). unfold validate_contact, ContactData_from. simpl.
  unfold PublicKey_to_hex, Path_to_hex.
  rewrite (lower_hex_exact _ 32) by (apply hex_encode_lower || rewrite hex_encode_length, Hl; done).
  by rewrite (lower_hex_bounded _ (length (Path_bytes (Contact_out_path c))))
    by (apply hex_encode_lower || apply hex_encode_length || lia; done).
Qed.

Lemma core_publication_ok e p : core_event_ok e → from_core_event e = Some p →
  publication_finite p ∧ validate_publication p = Ok ().
Proof using All.
  destruct e; simpl; intros He; try done; intros [= <-]; simpl; try done.
  - split.
    + apply Forall_fmap. eapply Forall_impl; [exact He|]. naive_solver.
    + unfold validate_contacts. simpl. induction He as [|c cs [Hc _] _ IH]; [done|]. simpl.
      by rewrite validate_contact_ok.
  - split; [by apply He|by apply validate_message_ok].
  - destruct He as [Hb Hl]. destruct (lowercase_hex_ok _ Hb). split; [done|]. unfold validate_ack. simpl.
    by rewrite (lower_hex_exact _ 4) by (done || lia).
  - by destruct stats.
  - destruct He as ([Hb Hl] & Hp & Hn). destruct (lowercase_hex_ok _ Hb). destruct (lowercase_hex_ok _ Hp).
    rewrite (lower_hex_exact _ 6) by (done || lia). simpl.
    by rewrite (lower_hex_bounded _ (length (TelemetryResponse_payload response))) by (done || lia).
Qed.
End Events.

Lemma validate_event_data_reads `{MqttJson} p v : publication_reads p v →
  validate_event_data (Publication_kind p) v = validate_publication p.
Proof. destruct p; simpl; unfold deserialize_data; intros ->; done. Qed.

(** every core event the schema allows can be published and read back.  Its
    publication makes a valid envelope, which encodes, decodes to itself, and
    whose data is read as the very publication. *)
Theorem published_event_roundtrip `{C : Crates, !CratesLaws C} `{J : MqttJson, !MqttJsonLaws} e p event_id origin timestamp :
  core_event_ok e → from_core_event e = Some p → event_id ≠ 0%Z → validate_origin origin = Ok () →
  ∃ envelope payload,
    from_publication event_id origin timestamp p = Ok envelope ∧
    EventEnvelope_encode envelope = Ok payload ∧ EventEnvelope_decode payload = Ok envelope ∧
    Envelope_kind envelope = Publication_kind p ∧ publication_reads p (Envelope_data envelope).
Proof.
  intros He Hp Hid Ho. destruct (core_publication_ok e p He Hp) as [Hf Hv].
  destruct (publication_written p Hf) as (v & Hw & Hobj & Hr).
  set (envelope := mkEnvelope SCHEMA_VERSION event_id origin timestamp (Publication_kind p) v).
  assert (EventEnvelope_validate envelope = Ok ()) as Hok.
  { unfold EventEnvelope_validate, envelope. simpl. rewrite (proj2 (Z.eqb_neq _ _) Hid), Ho. simpl.
    rewrite Hobj, validate_event_data_reads by done. done. }
  destruct (envelope_written envelope) as (s & Hs & Hd). exists envelope, s.
  unfold from_publication, data_value, EventEnvelope_new, EventEnvelope_encode, EventEnvelope_decode.
  rewrite Hw. simpl. fold envelope. rewrite Hok. simpl. rewrite Hs, Hd. simpl. by rewrite Hok.
Qed.
