(* ===== verification/MqttSamples.v ===== *)
(** * A concrete instance of [serde_json] for the MQTT gateway

    Values are the payloads themselves and an envelope is written as its number
    in an enumeration, so that the laws of [MqttJsonLaws] hold; inbound commands
    are two bytes, an id and a channel. *)

From stdpp Require Import countable.
From S2P Require Import Prelude Text Floats Domain Samples MqttConfig MqttSchema MqttCommand MqttRunner MqttFacts.
From S2P Require Import MqttProps.

#[global] Instance spec_float_countable : Countable spec_float.
Proof.
  apply (inj_countable'
    (λ f, match f with
          | S754_zero s => inl (inl s) | S754_infinity s => inl (inr s)
          | S754_nan => inr (inl ()) | S754_finite s m e => inr (inr (s, m, e))
          end)
    (λ x, match x with
          | inl (inl s) => S754_zero s | inl (inr s) => S754_infinity s
          | inr (inl _) => S754_nan | inr (inr (s, m, e)) => S754_finite s m e
          end)).
  by intros [].
Defined.

#[global] Instance ConnectionComponent_eq_dec : EqDecision ConnectionComponent.
Proof. solve_decision. Defined.
#[global] Instance ConnectionStatus_eq_dec : EqDecision ConnectionStatus.
Proof. solve_decision. Defined.
#[global] Instance MessageSourceData_eq_dec : EqDecision MessageSourceData.
Proof. solve_decision. Defined.
#[global] Instance MessageRouteData_eq_dec : EqDecision MessageRouteData.
Proof. solve_decision. Defined.
#[global] Instance MessageStatusData_eq_dec : EqDecision MessageStatusData.
Proof. solve_decision. Defined.
#[global] Instance ConnectionStateData_eq_dec : EqDecision ConnectionStateData.
Proof. solve_decision. Defined.
#[global] Instance ConnectionStateData_countable : Countable ConnectionStateData.
Proof.
  apply (inj_countable'
    (λ d, (match ConnectionStateData_component d with Component_MeshCore => true | _ => false end,
           match ConnectionStateData_status d with Status_Connected => true | _ => false end,
           ConnectionStateData_reason d))
    (λ '(c, s, r), mkConnectionStateData (if c : bool then Component_MeshCore else Component_MqttBroker)
       (if s : bool then Status_Connected else Status_Disconnected) r)).
  by intros [[] [] ?].
Defined.

#[global] Instance ContactTypeData_eq_dec : EqDecision ContactTypeData.
Proof. solve_decision. Defined.
#[global] Instance ContactTypeData_countable : Countable ContactTypeData.
Proof.
  apply (inj_countable'
    (λ d, match d with
          | ContactTypeData_Chat => inl 0 | ContactTypeData_Repeater => inl 1
          | ContactTypeData_Room => inl 2 | ContactTypeData_Sensor => inl 3
          | ContactTypeData_Unknown c => inr c
          end)
    (λ x : nat + Z, match x with
          | inl 0 => ContactTypeData_Chat | inl 1 => ContactTypeData_Repeater
          | inl 2 => ContactTypeData_Room | inl _ => ContactTypeData_Sensor
          | inr c => ContactTypeData_Unknown c
          end)).
  by intros [].
Defined.

#[global] Instance ContactRouteData_eq_dec : EqDecision ContactRouteData.
Proof. solve_decision. Defined.
#[global] Instance ContactRouteData_countable : Countable ContactRouteData.
Proof.
  apply (inj_countable'
    (λ d, match d with ContactRouteData_Flood => None | ContactRouteData_Path a b => Some (a, b) end)
    (λ x, match x with None => ContactRouteData_Flood | Some (a, b) => ContactRouteData_Path a b end)).
  by intros [].
Defined.

#[global] Instance ContactData_eq_dec : EqDecision ContactData.
Proof. solve_decision. Defined.
#[global] Instance ContactData_countable : Countable ContactData.
Proof.
  apply (inj_countable'
    (λ '(mkContactData a b c d e f g h i j), (a, b, c, d, e, f, g, h, i, j))
    (λ '(a, b, c, d, e, f, g, h, i, j), mkContactData a b c d e f g h i j)).
  by intros [].
Defined.

#[global] Instance ContactsData_eq_dec : EqDecision ContactsData.
Proof. solve_decision. Defined.
#[global] Instance ContactsData_countable : Countable ContactsData.
Proof. apply (inj_countable' (λ '(mkContactsData a b), (a, b)) (λ '(a, b), mkContactsData a b)). by intros []. Defined.

#[global] Instance IncomingMessageData_eq_dec : EqDecision IncomingMessageData.
Proof. solve_decision. Defined.
#[global] Instance MessageStatusData_countable : Countable MessageStatusData.
Proof.
  apply (inj_countable'
    (λ d, match d with
          | MessageStatusData_Received => inl (inl 0) | MessageStatusData_Queued => inl (inl 1)
          | MessageStatusData_Acked => inl (inl 2) | MessageStatusData_Sent t => inl (inr t)
          | MessageStatusData_Failed r => inr r
          end)
    (λ x : nat + option Z + rstring, match x with
          | inl (inl 0) => MessageStatusData_Received | inl (inl 1) => MessageStatusData_Queued
          | inl (inl _) => MessageStatusData_Acked | inl (inr t) => MessageStatusData_Sent t
          | inr r => MessageStatusData_Failed r
          end)).
  by intros [].
Defined.
#[global] Instance IncomingMessageData_countable : Countable IncomingMessageData.
Proof.
  apply (inj_countable'
    (λ '(mkIncomingMessageData a b c d e f g h),
       (match a with MessageSourceData_Direct p => inl p | MessageSourceData_Channel i => inr i end,
        match b with MessageRouteData_Direct => None | MessageRouteData_Path m n => Some (m, n) end,
        c, d, e, f, g, h))
    (λ '(a, b, c, d, e, f, g, h),
       mkIncomingMessageData
         (match a with inl p => MessageSourceData_Direct p | inr i => MessageSourceData_Channel i end)
         (match b with None => MessageRouteData_Direct | Some (m, n) => MessageRouteData_Path m n end)
         c d e f g h)).
  by intros [[] []].
Defined.

#[global] Instance TelemetryData_eq_dec : EqDecision TelemetryData.
Proof. solve_decision. Defined.
#[global] Instance TelemetryData_countable : Countable TelemetryData.
Proof.
  apply (inj_countable'
    (λ d, match d with
          | TelemetryData_Battery a b c => inl (inl (a, b, c))
          | TelemetryData_StatsCore a b c d => inl (inr (a, b, c, d))
          | TelemetryData_StatsRadio a b c d e => inr (inl (inl (a, b, c, d, e)))
          | TelemetryData_StatsPackets a b c d e f g => inr (inl (inr (a, b, c, d, e, f, g)))
          | TelemetryData_RawCayenneLpp a b => inr (inr (a, b))
          end)
    (λ x, match x with
          | inl (inl (a, b, c)) => TelemetryData_Battery a b c
          | inl (inr (a, b, c, d)) => TelemetryData_StatsCore a b c d
          | inr (inl (inl (a, b, c, d, e))) => TelemetryData_StatsRadio a b c d e
          | inr (inl (inr (a, b, c, d, e, f, g))) => TelemetryData_StatsPackets a b c d e f g
          | inr (inr (a, b)) => TelemetryData_RawCayenneLpp a b
          end)).
  by intros [].
Defined.

#[global] Instance AckData_eq_dec : EqDecision AckData.
Proof. solve_decision. Defined.
#[global] Instance AckData_countable : Countable AckData.
Proof. apply (inj_countable' (λ '(mkAckData a b), (a, b)) (λ '(a, b), mkAckData a b)). by intros []. Defined.

#[global] Instance Publication_eq_dec : EqDecision Publication.
Proof. solve_decision. Defined.
#[global] Instance Publication_countable : Countable Publication.
Proof.
  apply (inj_countable'
    (λ p, match p with
          | Publication_IncomingMessage d => inl (inl d) | Publication_Ack d => inl (inr d)
          | Publication_ConnectionState d => inr (inl d) | Publication_Contacts d => inr (inr (inl d))
          | Publication_Telemetry d => inr (inr (inr d))
          end)
    (λ x, match x with
          | inl (inl d) => Publication_IncomingMessage d | inl (inr d) => Publication_Ack d
          | inr (inl d) => Publication_ConnectionState d | inr (inr (inl d)) => Publication_Contacts d
          | inr (inr (inr d)) => Publication_Telemetry d
          end)).
  by intros [].
Defined.

(** A payload, the data of a channel command, or a scalar. *)
Definition sample_value : Type := Publication + (u8 * rstring) + ().

Definition kind_code (k : EventKind) : nat :=
  match k with
  | Kind_IncomingMessage => 0 | Kind_Ack => 1 | Kind_ConnectionState => 2 | Kind_Contacts => 3
  | Kind_Telemetry => 4 | Kind_SendDirect => 5 | Kind_SendChannel => 6
  end.
Definition kind_of (n : nat) : EventKind :=
  match n with
  | 0 => Kind_IncomingMessage | 1 => Kind_Ack | 2 => Kind_ConnectionState | 3 => Kind_Contacts
  | 4 => Kind_Telemetry | 5 => Kind_SendDirect | _ => Kind_SendChannel
  end.

Definition sample_tuple (e : EventEnvelope sample_value) :=
  (Envelope_schema e, Envelope_event_id e, Envelope_origin e, Envelope_timestamp e,
   kind_code (Envelope_kind e), Envelope_data e).

#[global] Instance sample_json : MqttJson := {
  Value := sample_value;
  is_object v := match v with inr _ => false | _ => true end;
  publication_to_value p := Ok (inl (inl p));
  incoming_message_from_value v :=
    match v with inl (inl (Publication_IncomingMessage d)) => Ok d | _ => Err "message" end;
  ack_from_value v := match v with inl (inl (Publication_Ack d)) => Ok d | _ => Err "ack" end;
  connection_state_from_value v :=
    match v with inl (inl (Publication_ConnectionState d)) => Ok d | _ => Err "state" end;
  contacts_from_value v :=
    match v with inl (inl (Publication_Contacts d)) => Ok d | _ => Err "contacts" end;
  telemetry_from_value v :=
    match v with inl (inl (Publication_Telemetry d)) => Ok d | _ => Err "telemetry" end;
  direct_from_value v := Err "direct";
  channel_from_value v := match v with inl (inr d) => Ok d | _ => Err "channel" end;
  envelope_to_vec e := Ok [Zpos (encode (sample_tuple e))];
  envelope_from_slice s :=
    match s with
    | [Zpos n] =>
        match decode n : option (rstring * Z * rstring * u64 * nat * sample_value) with
        | Some (a, b, c, d, k, v) => Ok (mkEnvelope a b c d (kind_of k) v)
        | None => Err "envelope"
        end
    | _ => Err "envelope"
    end;
  command_from_slice s :=
    match s with
    | [event_id; channel] =>
        Ok (SCHEMA_VERSION, event_id, str_bytes "desk", 1700000000000%Z, str_bytes "send_channel",
            inl (inr (channel, str_bytes "on my way")))
    | _ => Err "command"
    end
}.

#[global] Instance sample_json_laws : MqttJsonLaws.
Proof.
  split.
  - intros p _. exists (inl (inl p)). by destruct p.
  - intros [a b c d k v]. eexists. split; [reflexivity|]. cbn [envelope_from_slice sample_json].
    rewrite decode_encode. by destruct k.
Qed.

(** ** Sample settings *)

Definition sample_tls : TlsFiles :=
  mkTlsFiles (λ _, Err "missing") (λ _, Err "missing").

(** The defaults, with sending allowed and a cache of two ids. *)
Definition sample_config : MqttConfig :=
  mkMqttConfig (str_bytes "broker") 8883 (str_bytes "meshquill-mqtt") V311 TlsConfig_default None
    AtLeastOnce 30 5000 SessionConfig_default (str_bytes "meshquill") (str_bytes "meshquill-mqtt")
    true ReconnectConfig_default (64 * 1024) (mkDedupeConfig 2 900) CommandLimits_default 64.

Definition sample_runner : GatewayRunner :=
  match from_parts sample_tls V311 sample_config with
  | Ok r => r
  | _ => mkRunner sample_config (mkTopicSet [] [] [] [] [] [])
           (mkProcessor false [] [] 0 CommandLimits_default (mkDedupe 0 0 ∅ [])) false
  end.

Definition command_topic : rstring := outbound_send (Runner_topics sample_runner).
Definition at_second (s : Z) (event_id channel : Z) : arrival := (command_topic, [event_id; channel], from_secs s).
Definition sample_reading (s : Z) : reading := mkReading (from_secs s) (Some 1700000000000%Z) 77.

(** ** Witnesses *)

Lemma validated_config_builds_witness : ∃ r w,
  from_parts sample_tls V311 sample_config = Ok r ∧ worker_start ReconnectConfig_default = Ok w ∧
  subscription_topic (Runner_processor r) = Some (outbound_send (Runner_topics r)) ∧
  (Mqtt_allow_send sample_config = true → Session_clean (Mqtt_session sample_config) = true) ∧
  Tls_verify_server_certificate (Mqtt_tls sample_config) = true.
Proof. apply (validated_config_builds sample_tls sample_config). by vm_compute. Defined.

(** Id 7 is accepted, two others push it out, and it is accepted again. *)
Lemma commands_not_replayed_witness :
  let p := Runner_processor sample_runner in
  let p2 := (process_at p command_topic [7; 1]%Z (from_secs 10)).2 in
  let between := [at_second 11 8 1; at_second 12 7 1; at_second 13 9 2] in
  (from_secs 900 <= from_secs 14 - from_secs 10)%Z ∨
  (2 <= Z.of_nat (accepted_count (process_all p2 between).1))%Z.
Proof.
  apply (commands_not_replayed sample_tls sample_config (Runner_processor sample_runner) 0 []
    (at_second 10 7 1) [at_second 11 8 1; at_second 12 7 1; at_second 13 9 2] (at_second 14 7 1)
    (mkAcceptedCommand 7 (str_bytes "desk") 1700000000000 (SendCommand_Channel 1 (str_bytes "on my way")))
    (mkAcceptedCommand 7 (str_bytes "desk") 1700000000000 (SendCommand_Channel 1 (str_bytes "on my way"))));
    try (vm_compute; reflexivity).
  by apply (bool_decide_unpack _).
Defined.

(** A connection, a command, its replay, and one retained. *)
Lemma gateway_isolated_witness :
  let inputs := [Input_Network (Some Notice_Connected) (sample_reading 1);
                 Input_Network (Some (Notice_Publish command_topic [7; 1]%Z false)) (sample_reading 2);
                 Input_Network (Some (Notice_Publish command_topic [7; 1]%Z false)) (sample_reading 3);
                 Input_Network (Some (Notice_Publish command_topic [8; 1]%Z true)) (sample_reading 4)] in
  Forall (permitted sample_config (Runner_topics sample_runner) inputs)
    (World_log (process sample_runner inputs (mkWorld [] [])).2).
Proof.
  apply (gateway_isolated sample_tls sample_config sample_runner).
  - vm_compute. reflexivity.
  - repeat constructor.
Defined.

Lemma worker_paced_witness :
  let results := [Poll_Error; Poll_Error; Poll_Event Incoming_ConnAck; Poll_Error] in
  World_log (poll_event_loop (mkWorker (mkBackoff ReconnectConfig_default 250) false) results (mkWorld [] [])).2 =
  paced ReconnectConfig_default 0 false results.
Proof.
  apply (worker_paced sample_tls sample_config); [by vm_compute|by apply (bool_decide_unpack _)|by vm_compute].
Defined.

Definition sample_message : Message :=
  mkMessage None (MessageSource_Direct (str_bytes "0a1b2c3d4e5f")) MessageRoute_Direct 2 1700000000
    (Some [222; 173; 190; 239]%Z) (str_bytes "hello") (Some (f32_of_Z 5)) MessageStatus_Received.

Lemma published_event_roundtrip_witness : ∃ p envelope payload,
  from_core_event (Event_Message sample_message) = Some p ∧
  from_publication 77 (str_bytes "desk") 1700000000000 p = Ok envelope ∧
  EventEnvelope_encode envelope = Ok payload ∧ EventEnvelope_decode payload = Ok envelope ∧
  Envelope_kind envelope = Publication_kind p ∧ publication_reads p (Envelope_data envelope).
Proof.
  set (p := Publication_IncomingMessage (IncomingMessageData_from sample_message)). exists p.
  destruct (published_event_roundtrip (Event_Message sample_message) p 77 (str_bytes "desk") 1700000000000)
    as (envelope & payload & H); [|reflexivity|done|by vm_compute|].
  - split; [|split; [|by vm_compute]].
    + exists [10; 27; 44; 61; 78; 95]%Z. split; [|by vm_compute]. split; [by apply (bool_decide_unpack _)|done].
    + split; [by apply (bool_decide_unpack _)|done].
  - exists envelope, payload. split; [reflexivity|exact H].
Defined.
