(* ===== verification/Config.v ===== *)
(** * The configuration store (crates/meshquill-store/src/lib.rs)

    The versioned settings document with its defaults and validation, profile
    selection, environment overrides, migration of the legacy document, the
    redacted view, and the operations of [ConfigStore] over the file system of
    [Store].  [toml] is a class; the TLS files of the gateway are a parameter of
    validation.  A [BTreeMap] is a [gmap] listed in the order of its keys. *)

From stdpp Require Import sorting.
From S2P Require Import Prelude Text Order Domain Hooks HookRuntime Store History Paths MqttConfig.

Definition CONFIG_VERSION : u8 := 1.
Definition MAX_CONFIG_FILE_BYTES : u64 := 1024 * 1024.
Definition MAX_OPERATION_TIMEOUT_MS : u64 := 24 * 60 * 60 * 1000.

(** ** Ordered maps *)

Definition key_le {V} (a b : bytes * V) : Prop := bytes_leb a.1 b.1 = true.
#[global] Instance key_le_dec {V} (a b : bytes * V) : Decision (key_le a b).
Proof. unfold key_le. apply _. Defined.
Definition btree_to_list {V} (m : gmap bytes V) : list (bytes * V) := merge_sort key_le (map_to_list m).

(** Text of an error message from the bytes of a string. *)
Definition bytes_str (s : bytes) : string :=
  String.string_of_list_byte ((λ b, default Byte.x00 (Byte.of_N (Z.to_N b))) <$> s).

(** [HistoryStore::for_config]: the history file beside a document. *)
Definition for_config (config_path : path) (profile : rstring) (max_messages : u32) :
    outcome StoreError HistoryStore :=
  if negb (validate_identifier profile) then invalid "history.profile" "profile must be a safe identifier"
  else
    let parent := default (str_bytes ".") (parent config_path) in
    HistoryStore_new (bytes_str (path_join (below parent HISTORY_DIR_NAME) (profile_file profile)))
      max_messages.

(** ** Secrets *)

Inductive SecretRef :=
| Secret_CredentialStore (service account : rstring)
| Secret_Environment (name : rstring)
| Secret_Prompt.

Definition validate_env_name (name : rstring) : bool :=
  if bool_decide (name = []) || (64 <? length name)%nat then false
  else
    match chars name with
    | c :: _ => is_ascii_alphabetic c || (c =? 0x5f)%Z
    | [] => false
    end && forallb (λ c, is_ascii_alphanumeric c || (c =? 0x5f)%Z) (chars name).

Definition validate_credential_label (value : rstring) : bool :=
  negb (trim_is_empty value) && (length value <=? 255)%nat && negb (any_control value).

Definition SecretRef_validate (self : SecretRef) (field : string) : outcome StoreError () :=
  match self with
  | Secret_CredentialStore service account =>
      if negb (validate_credential_label service) || negb (validate_credential_label account) then
        invalid field "credential service and account must be non-empty, bounded, and contain no control characters"
      else Ok ()
  | Secret_Environment name =>
      if negb (validate_env_name name) then
        invalid field ("invalid environment variable: " +:+ bytes_str name)
      else Ok ()
  | Secret_Prompt => Ok ()
  end.

Definition SecretRef_environment (name : rstring) : outcome StoreError SecretRef :=
  let reference := Secret_Environment name in
  _ ← SecretRef_validate reference "secret.environment";
  Ok reference.

(** The credential store: the entry of a service and account and the operations
    on it, each of which can fail with a message. *)
Record Keyring := mkKeyring {
  keyring_entry : rstring → rstring → outcome string ();
  keyring_get : rstring → rstring → outcome string rstring;
  keyring_set : rstring → rstring → rstring → outcome string ();
  keyring_delete : rstring → rstring → outcome string ()
}.

Definition credential_error (operation : string) (message : string) : StoreError :=
  StoreError_SecretUnavailable "credential_store" ("could not " +:+ operation +:+ " credential: " +:+ message).

Definition validate_credential_target (service account : rstring) : outcome StoreError () :=
  SecretRef_validate (Secret_CredentialStore service account) "credential_store".

Definition set_credential (keyring : Keyring) (service account secret : rstring) : outcome StoreError () :=
  _ ← validate_credential_target service account;
  _ ← map_err (credential_error "initialize") (keyring_entry keyring service account);
  map_err (credential_error "store") (keyring_set keyring service account secret).

Definition delete_credential (keyring : Keyring) (service account : rstring) : outcome StoreError () :=
  _ ← validate_credential_target service account;
  _ ← map_err (credential_error "initialize") (keyring_entry keyring service account);
  map_err (credential_error "delete") (keyring_delete keyring service account).

(** [SystemSecretResolver::resolve]; an unset or malformed variable is [None]. *)
Definition resolve (keyring : Keyring) (env : rstring → option rstring) (reference : SecretRef) :
    outcome StoreError rstring :=
  _ ← SecretRef_validate reference "secret";
  match reference with
  | Secret_CredentialStore service account =>
      _ ← map_err (credential_error "initialize") (keyring_entry keyring service account);
      map_err (credential_error "read") (keyring_get keyring service account)
  | Secret_Environment name =>
      ok_or (env name)
        (StoreError_SecretUnavailable "environment"
           (bytes_str name +:+ " is not set or is not valid Unicode"))
  | Secret_Prompt => Err StoreError_PromptRequired
  end.

(** ** Profiles *)

Inductive TransportConfig :=
| Transport_Ble (id : rstring) (name : option rstring)
| Transport_Serial (port : rstring) (baud : u32)
| Transport_Tcp (host : rstring) (port : u16)
| Transport_Mock (scenario : rstring).

Definition TransportConfig_validate (self : TransportConfig) : outcome StoreError () :=
  match self with
  | Transport_Ble id _ => if trim_is_empty id then invalid "transport.ble.id" "required" else Ok ()
  | Transport_Serial port baud =>
      if trim_is_empty port then invalid "transport.serial.port" "required"
      else if (baud =? 0)%Z then invalid "transport.serial.baud" "must be non-zero" else Ok ()
  | Transport_Tcp host port =>
      if trim_is_empty host then invalid "transport.tcp.host" "required"
      else if (port =? 0)%Z then invalid "transport.tcp.port" "must be non-zero" else Ok ()
  | Transport_Mock scenario =>
      if trim_is_empty scenario then invalid "transport.mock.scenario" "required" else Ok ()
  end.

Record TransportOverrides := mkTransportOverrides { Overrides_request_timeout_ms : option u64 }.
Definition TransportOverrides_validate (self : TransportOverrides) : outcome StoreError () :=
  match Overrides_request_timeout_ms self with
  | Some value =>
      if negb (within 1 MAX_OPERATION_TIMEOUT_MS value) then
        invalid "device_profiles.transport_overrides.request_timeout_ms" "must be between 1 and 86400000"
      else Ok ()
  | None => Ok ()
  end.

Record DeviceProfile := mkDeviceProfile {
  DeviceProfile_transport : TransportConfig;
  DeviceProfile_transport_overrides : option TransportOverrides;
  DeviceProfile_secret : option SecretRef
}.

Definition validate_option {A} (validate : A → outcome StoreError ()) (o : option A) : outcome StoreError () :=
  match o with Some a => validate a | None => Ok () end.

Definition DeviceProfile_validate (self : DeviceProfile) : outcome StoreError () :=
  _ ← TransportConfig_validate (DeviceProfile_transport self);
  _ ← validate_option TransportOverrides_validate (DeviceProfile_transport_overrides self);
  validate_option (λ secret, SecretRef_validate secret "device_profiles.secret") (DeviceProfile_secret self).

(** ** Settings *)

Record TimeoutSettings := mkTimeoutSettings {
  Timeout_connect_timeout_ms : u64;
  Timeout_request_timeout_ms : u64;
  Timeout_retry_timeout_ms : u64
}.
Definition TimeoutSettings_default : TimeoutSettings := mkTimeoutSettings 5000 3000 1000.
Definition TimeoutSettings_validate (self : TimeoutSettings) : outcome StoreError () :=
  if negb (within 1 MAX_OPERATION_TIMEOUT_MS (Timeout_connect_timeout_ms self))
     || negb (within 1 MAX_OPERATION_TIMEOUT_MS (Timeout_request_timeout_ms self))
     || negb (within 1 MAX_OPERATION_TIMEOUT_MS (Timeout_retry_timeout_ms self)) then
    invalid "timeout" "all timeout values must be between 1 and 86400000 milliseconds"
  else Ok ().

Record HistorySettings := mkHistorySettings {
  HistorySettings_enabled : bool;
  HistorySettings_max_messages : u32
}.
Definition HistorySettings_default : HistorySettings := mkHistorySettings false 256.
Definition HistorySettings_validate (self : HistorySettings) : outcome StoreError () :=
  if (HistorySettings_max_messages self =? 0)%Z || (100000 <? HistorySettings_max_messages self)%Z then
    invalid "history.max_messages" "must be between 1 and 100000"
  else Ok ().

Inductive HookFailurePolicy := HookFailure_Open | HookFailure_Closed.
Definition FailurePolicy_from (value : HookFailurePolicy) : FailurePolicy :=
  match value with HookFailure_Open => Policy_Open | HookFailure_Closed => Policy_Closed end.

Inductive HookEnvironmentPolicy :=
| HookEnvironment_Clear
| HookEnvironment_SafeInherited
| HookEnvironment_AllowList (names : gset string).
Definition EnvironmentPolicy_from (value : HookEnvironmentPolicy) : EnvironmentPolicy :=
  match value with
  | HookEnvironment_Clear => Environment_Clear
  | HookEnvironment_SafeInherited => Environment_SafeInherited
  | HookEnvironment_AllowList names => Environment_AllowList names
  end.

Record HookSettings := mkHookSettings {
  HookSettings_enabled : bool;
  HookSettings_script : option string;
  HookSettings_python_executable : string;
  HookSettings_timeout_ms : u64;
  HookSettings_max_concurrency : Z;
  HookSettings_environment : HookEnvironmentPolicy;
  HookSettings_observational_failure : HookFailurePolicy;
  HookSettings_before_send_failure : HookFailurePolicy
}.
Definition HookSettings_default : HookSettings :=
  mkHookSettings false None "python3" 5000 4 HookEnvironment_SafeInherited HookFailure_Open
    HookFailure_Closed.

Definition runtime_config (self : HookSettings) : outcome StoreError (option HookConfig) :=
  if negb (HookSettings_enabled self) then Ok None else
  script ← ok_or (HookSettings_script self)
             (StoreError_Validation "hook.script" "required when hook.enabled is true");
  let base := HookConfig_new script in
  let config := mkHookConfig (HookSettings_python_executable self) script
    (HookSettings_timeout_ms self * 1000000)%Z (HookConfig_max_script_bytes base)
    (HookConfig_max_input_bytes base) (HookConfig_max_output_bytes base)
    (HookConfig_max_stderr_bytes base) (HookSettings_max_concurrency self)
    (HookConfig_max_destination_bytes base) (HookConfig_max_text_bytes base)
    (HookConfig_max_rejection_reason_bytes base)
    (EnvironmentPolicy_from (HookSettings_environment self))
    (FailurePolicy_from (HookSettings_observational_failure self))
    (FailurePolicy_from (HookSettings_before_send_failure self)) in
  _ ← map_err (λ error, StoreError_Validation "hook" (display_ConfigurationError error))
        (validate_config config);
  Ok (Some config).

Definition HookSettings_validate (self : HookSettings) : outcome StoreError () :=
  if HookSettings_enabled self && bool_decide (HookSettings_script self = None) then
    invalid "hook.script" "required when hook.enabled is true"
  else if bool_decide (HookSettings_python_executable self = "") then
    invalid "hook.python_executable" "must not be empty"
  else if negb (within 1 MAX_OPERATION_TIMEOUT_MS (HookSettings_timeout_ms self))
          || (HookSettings_max_concurrency self =? 0)%Z then
    invalid "hook"
      "timeout must be between 1 and 86400000 milliseconds and concurrency must be positive"
  else if HookSettings_enabled self then _ ← runtime_config self; Ok () else Ok ().

Record MqttSettings := mkMqttSettings {
  MqttSettings_enabled : bool;
  MqttSettings_gateway : MqttConfig;
  MqttSettings_password : option SecretRef
}.
Definition MqttSettings_default : MqttSettings := mkMqttSettings false MqttConfig_default None.

Definition display_ConfigError (error : ConfigError) : string :=
  match error with
  | ConfigError_InvalidField field reason => "invalid MQTT configuration field `" +:+ field +:+ "`: " +:+ reason
  | ConfigError_CredentialMismatch reason => "invalid MQTT credentials: " +:+ reason
  | ConfigError_TlsFile field path reason => "invalid TLS " +:+ field +:+ " file `" +:+ path +:+ "`: " +:+ reason
  end.

Definition MqttSettings_validate (tls : TlsFiles) (self : MqttSettings) : outcome StoreError () :=
  _ ← map_err (λ error, StoreError_Validation "mqtt.gateway" (display_ConfigError error))
        (MqttConfig_validate tls (MqttSettings_gateway self));
  _ ← validate_option (λ secret, SecretRef_validate secret "mqtt.password") (MqttSettings_password self);
  if negb (Bool.eqb (bool_decide (is_Some (Mqtt_username (MqttSettings_gateway self))))
             (bool_decide (is_Some (MqttSettings_password self)))) then
    invalid "mqtt.credentials" "username and password reference must be configured together"
  else Ok ().

Definition resolve_password (self : MqttSettings) (resolver : SecretRef → outcome StoreError rstring) :
    outcome StoreError (option MqttPassword) :=
  match MqttSettings_password self with
  | None => Ok None
  | Some reference =>
      value ← resolver reference;
      password ← map_err (λ error, StoreError_Validation "mqtt.password" (display_ConfigError error))
                   (MqttPassword_new value);
      Ok (Some password)
  end.

Record QueueSettings := mkQueueSettings {
  Queue_inbound_capacity : u32;
  Queue_outbound_capacity : u32;
  Queue_event_capacity : u32
}.
Definition QueueSettings_default : QueueSettings := mkQueueSettings 64 64 128.
Definition QueueSettings_validate (self : QueueSettings) : outcome StoreError () :=
  let max := 1000000%Z in
  if (Queue_inbound_capacity self =? 0)%Z || (Queue_outbound_capacity self =? 0)%Z
     || (Queue_event_capacity self =? 0)%Z || (max <? Queue_inbound_capacity self)%Z
     || (max <? Queue_outbound_capacity self)%Z || (max <? Queue_event_capacity self)%Z then
    invalid "queues" "invalid queue capacity"
  else Ok ().

(** ** The document *)

Record Config := mkConfig {
  Config_version : u8;
  Config_default_profile : option rstring;
  Config_device_profiles : gmap rstring DeviceProfile;
  Config_timeout : TimeoutSettings;
  Config_history : HistorySettings;
  Config_hook : HookSettings;
  Config_mqtt : MqttSettings;
  Config_queues : QueueSettings
}.
Definition Config_default : Config :=
  mkConfig CONFIG_VERSION None ∅ TimeoutSettings_default HistorySettings_default HookSettings_default
    MqttSettings_default QueueSettings_default.

Fixpoint validate_profiles (profiles : list (rstring * DeviceProfile)) : outcome StoreError () :=
  match profiles with
  | [] => Ok ()
  | (name, profile) :: profiles =>
      if negb (validate_identifier name) then
        invalid "device_profiles" ("invalid profile name: " +:+ bytes_str name)
      else _ ← DeviceProfile_validate profile; validate_profiles profiles
  end.

Definition Config_validate (tls : TlsFiles) (self : Config) : outcome StoreError () :=
  _ ← validate_profiles (btree_to_list (Config_device_profiles self));
  _ ← validate_option (λ default_profile,
        if negb (validate_identifier default_profile) then invalid "default_profile" "invalid profile name"
        else if bool_decide (Config_device_profiles self !! default_profile = None) then
          invalid "default_profile" "default profile missing from device_profiles"
        else Ok ()) (Config_default_profile self);
  _ ← TimeoutSettings_validate (Config_timeout self);
  _ ← HistorySettings_validate (Config_history self);
  _ ← HookSettings_validate (Config_hook self);
  _ ← MqttSettings_validate tls (Config_mqtt self);
  QueueSettings_validate (Config_queues self).

(** ** Profile selection *)

Inductive ProfileSelectionError :=
| Selection_NoneConfigured
| Selection_Ambiguous (profiles : list rstring)
| Selection_NotFound (name : rstring).

Definition resolve_profile (config : Config) (explicit : option rstring) :
    outcome ProfileSelectionError (rstring * DeviceProfile) :=
  let named name := ok_or ((λ profile, (name, profile)) <$> Config_device_profiles config !! name)
                      (Selection_NotFound name) in
  match explicit, Config_default_profile config with
  | Some name, _ => named name
  | None, Some name => named name
  | None, None =>
      match btree_to_list (Config_device_profiles config) with
      | [] => Err Selection_NoneConfigured
      | [(name, profile)] => Ok (name, profile)
      | profiles => Err (Selection_Ambiguous profiles.*1)
      end
  end.

(** ** The redacted view *)

Record EffectiveDeviceProfile := mkEffectiveDeviceProfile {
  EffectiveProfile_transport : TransportConfig;
  EffectiveProfile_transport_overrides : option TransportOverrides;
  EffectiveProfile_secret : option string
}.
Record EffectiveMqttSettings := mkEffectiveMqttSettings {
  EffectiveMqtt_enabled : bool;
  EffectiveMqtt_gateway : MqttConfig;
  EffectiveMqtt_password : option string
}.
Record EffectiveConfig := mkEffectiveConfig {
  Effective_version : u8;
  Effective_default_profile : option rstring;
  Effective_device_profiles : gmap rstring EffectiveDeviceProfile;
  Effective_timeout : TimeoutSettings;
  Effective_history : HistorySettings;
  Effective_hook : HookSettings;
  Effective_mqtt : EffectiveMqttSettings;
  Effective_queues : QueueSettings
}.

Definition redact_secret (secret : option SecretRef) : option string := (λ _, "redacted") <$> secret.

Definition effective_config (self : Config) : EffectiveConfig :=
  mkEffectiveConfig (Config_version self) (Config_default_profile self)
    ((λ profile, mkEffectiveDeviceProfile (DeviceProfile_transport profile)
                   (DeviceProfile_transport_overrides profile)
                   (redact_secret (DeviceProfile_secret profile))) <$> Config_device_profiles self)
    (Config_timeout self) (Config_history self) (Config_hook self)
    (mkEffectiveMqttSettings (MqttSettings_enabled (Config_mqtt self))
       (MqttSettings_gateway (Config_mqtt self)) (redact_secret (MqttSettings_password (Config_mqtt self))))
    (Config_queues self).

(** ** The legacy document *)

Inductive LegacyTransport :=
| Legacy_Ble (id : rstring) (name : option rstring)
| Legacy_Serial (port : rstring) (baud : u32)
| Legacy_Tcp (host : rstring) (port : u16)
| Legacy_Mock (scenario : rstring).
Record LegacyConfig := mkLegacyConfig {
  Legacy_default_profile : option rstring;
  Legacy_devices : gmap rstring LegacyTransport
}.

Definition migrate_transport (legacy : LegacyTransport) : TransportConfig :=
  match legacy with
  | Legacy_Ble id name => Transport_Ble id name
  | Legacy_Serial port baud => Transport_Serial port baud
  | Legacy_Tcp host port => Transport_Tcp host port
  | Legacy_Mock scenario => Transport_Mock scenario
  end.

Definition Config_from_legacy (value : LegacyConfig) : Config :=
  let device_profiles := (λ legacy, mkDeviceProfile (migrate_transport legacy) None None)
                           <$> Legacy_devices value in
  let default_profile := match Legacy_default_profile value with
                         | Some name => Some name
                         | None => head (btree_to_list device_profiles).*1
                         end in
  mkConfig CONFIG_VERSION default_profile device_profiles TimeoutSettings_default
    HistorySettings_default HookSettings_default MqttSettings_default QueueSettings_default.

#[global] Instance SecretRef_eq_dec : EqDecision SecretRef.
Proof. solve_decision. Defined.
#[global] Instance TransportConfig_eq_dec : EqDecision TransportConfig.
Proof. solve_decision. Defined.
#[global] Instance TransportOverrides_eq_dec : EqDecision TransportOverrides.
Proof. solve_decision. Defined.
#[global] Instance DeviceProfile_eq_dec : EqDecision DeviceProfile.
Proof. solve_decision. Defined.
#[global] Instance TimeoutSettings_eq_dec : EqDecision TimeoutSettings.
Proof. solve_decision. Defined.
#[global] Instance HistorySettings_eq_dec : EqDecision HistorySettings.
Proof. solve_decision. Defined.
#[global] Instance HookFailurePolicy_eq_dec : EqDecision HookFailurePolicy.
Proof. solve_decision. Defined.
#[global] Instance HookEnvironmentPolicy_eq_dec : EqDecision HookEnvironmentPolicy.
Proof. solve_decision. Defined.
#[global] Instance HookSettings_eq_dec : EqDecision HookSettings.
Proof. solve_decision. Defined.
#[global] Instance MqttSettings_eq_dec : EqDecision MqttSettings.
Proof. solve_decision. Defined.
#[global] Instance QueueSettings_eq_dec : EqDecision QueueSettings.
Proof. solve_decision. Defined.
#[global] Instance Config_eq_dec : EqDecision Config.
Proof. solve_decision. Defined.

(** ** Environment overrides *)

Definition parse_unsigned_override (w : Z) (raw : rstring) (field message : string) : outcome StoreError Z :=
  ok_or (parse_unsigned w raw) (StoreError_Validation field message).
Definition parse_u64 (raw : rstring) (field : string) : outcome StoreError u64 :=
  parse_unsigned_override 64 raw field "invalid unsigned integer".
Definition parse_u32 (raw : rstring) (field : string) : outcome StoreError u32 :=
  parse_unsigned_override 32 raw field "invalid unsigned integer".
Definition parse_u16 (raw : rstring) (field : string) : outcome StoreError u16 :=
  parse_unsigned_override 16 raw field "invalid port".

Definition parse_bool (raw : rstring) (field : string) : outcome StoreError bool :=
  let raw := to_ascii_lowercase raw in
  if bool_decide (raw ∈ str_bytes <$> ["1"; "true"; "yes"; "on"]) then Ok true
  else if bool_decide (raw ∈ str_bytes <$> ["0"; "false"; "no"; "off"]) then Ok false
  else invalid field "invalid bool".

Definition set_timeout (f : TimeoutSettings → TimeoutSettings) (c : Config) : Config :=
  mkConfig (Config_version c) (Config_default_profile c) (Config_device_profiles c) (f (Config_timeout c))
    (Config_history c) (Config_hook c) (Config_mqtt c) (Config_queues c).
Definition set_history (f : HistorySettings → HistorySettings) (c : Config) : Config :=
  mkConfig (Config_version c) (Config_default_profile c) (Config_device_profiles c) (Config_timeout c)
    (f (Config_history c)) (Config_hook c) (Config_mqtt c) (Config_queues c).
Definition set_hook (f : HookSettings → HookSettings) (c : Config) : Config :=
  mkConfig (Config_version c) (Config_default_profile c) (Config_device_profiles c) (Config_timeout c)
    (Config_history c) (f (Config_hook c)) (Config_mqtt c) (Config_queues c).
Definition set_mqtt (f : MqttSettings → MqttSettings) (c : Config) : Config :=
  mkConfig (Config_version c) (Config_default_profile c) (Config_device_profiles c) (Config_timeout c)
    (Config_history c) (Config_hook c) (f (Config_mqtt c)) (Config_queues c).
Definition set_queues (f : QueueSettings → QueueSettings) (c : Config) : Config :=
  mkConfig (Config_version c) (Config_default_profile c) (Config_device_profiles c) (Config_timeout c)
    (Config_history c) (Config_hook c) (Config_mqtt c) (f (Config_queues c)).
Definition set_default_profile (name : rstring) (c : Config) : Config :=
  mkConfig (Config_version c) (Some name) (Config_device_profiles c) (Config_timeout c)
    (Config_history c) (Config_hook c) (Config_mqtt c) (Config_queues c).

Definition set_gateway (host : option rstring) (port : option u16) (prefix : option rstring)
    (m : MqttSettings) : MqttSettings :=
  let g := MqttSettings_gateway m in
  mkMqttSettings (MqttSettings_enabled m)
    (mkMqttConfig (default (Mqtt_host g) host) (default (Mqtt_port g) port) (Mqtt_client_id g)
       (Mqtt_protocol g) (Mqtt_tls g) (Mqtt_username g) (Mqtt_qos g) (Mqtt_keep_alive_secs g)
       (Mqtt_broker_operation_timeout_ms g) (Mqtt_session g) (default (Mqtt_topic_prefix g) prefix)
       (Mqtt_origin g) (Mqtt_allow_send g) (Mqtt_reconnect g) (Mqtt_max_payload_bytes g)
       (Mqtt_dedupe g) (Mqtt_command_limits g) (Mqtt_channel_capacity g))
    (MqttSettings_password m).

Definition set_hook_fields (enabled : bool) (script : option string) (h : HookSettings) : HookSettings :=
  mkHookSettings enabled script (HookSettings_python_executable h) (HookSettings_timeout_ms h)
    (HookSettings_max_concurrency h) (HookSettings_environment h)
    (HookSettings_observational_failure h) (HookSettings_before_send_failure h).

(** The variables that are recognized, each with what its value does to a
    configuration. *)
Definition overrides : list (string * (rstring → outcome StoreError (Config → Config))) :=
  [ ("MESHQUILL_DEFAULT_PROFILE", λ v, Ok (set_default_profile v));
    ("MESHQUILL_TIMEOUT_CONNECT_MS", λ v,
       n ← parse_u64 v "MESHQUILL_TIMEOUT_CONNECT_MS";
       Ok (set_timeout (λ t, mkTimeoutSettings n (Timeout_request_timeout_ms t) (Timeout_retry_timeout_ms t))));
    ("MESHQUILL_TIMEOUT_REQUEST_MS", λ v,
       n ← parse_u64 v "MESHQUILL_TIMEOUT_REQUEST_MS";
       Ok (set_timeout (λ t, mkTimeoutSettings (Timeout_connect_timeout_ms t) n (Timeout_retry_timeout_ms t))));
    ("MESHQUILL_TIMEOUT_RETRY_MS", λ v,
       n ← parse_u64 v "MESHQUILL_TIMEOUT_RETRY_MS";
       Ok (set_timeout (λ t, mkTimeoutSettings (Timeout_connect_timeout_ms t) (Timeout_request_timeout_ms t) n)));
    ("MESHQUILL_HISTORY_ENABLED", λ v,
       b ← parse_bool v "MESHQUILL_HISTORY_ENABLED";
       Ok (set_history (λ h, mkHistorySettings b (HistorySettings_max_messages h))));
    ("MESHQUILL_HISTORY_MAX_MESSAGES", λ v,
       n ← parse_u32 v "MESHQUILL_HISTORY_MAX_MESSAGES";
       Ok (set_history (λ h, mkHistorySettings (HistorySettings_enabled h) n)));
    ("MESHQUILL_HOOK_ENABLED", λ v,
       b ← parse_bool v "MESHQUILL_HOOK_ENABLED";
       Ok (set_hook (λ h, set_hook_fields b (HookSettings_script h) h)));
    ("MESHQUILL_HOOK_SCRIPT", λ v,
       Ok (set_hook (λ h, set_hook_fields (HookSettings_enabled h) (Some (bytes_str v)) h)));
    ("MESHQUILL_MQTT_ENABLED", λ v,
       b ← parse_bool v "MESHQUILL_MQTT_ENABLED";
       Ok (set_mqtt (λ m, mkMqttSettings b (MqttSettings_gateway m) (MqttSettings_password m))));
    ("MESHQUILL_MQTT_BROKER", λ v, Ok (set_mqtt (set_gateway (Some v) None None)));
    ("MESHQUILL_MQTT_PORT", λ v,
       n ← parse_u16 v "MESHQUILL_MQTT_PORT"; Ok (set_mqtt (set_gateway None (Some n) None)));
    ("MESHQUILL_MQTT_TOPIC_PREFIX", λ v, Ok (set_mqtt (set_gateway None None (Some v))));
    ("MESHQUILL_QUEUES_INBOUND", λ v,
       n ← parse_u32 v "MESHQUILL_QUEUES_INBOUND";
       Ok (set_queues (λ q, mkQueueSettings n (Queue_outbound_capacity q) (Queue_event_capacity q))));
    ("MESHQUILL_QUEUES_OUTBOUND", λ v,
       n ← parse_u32 v "MESHQUILL_QUEUES_OUTBOUND";
       Ok (set_queues (λ q, mkQueueSettings (Queue_inbound_capacity q) n (Queue_event_capacity q))));
    ("MESHQUILL_QUEUES_EVENT", λ v,
       n ← parse_u32 v "MESHQUILL_QUEUES_EVENT";
       Ok (set_queues (λ q, mkQueueSettings (Queue_inbound_capacity q) (Queue_outbound_capacity q) n))) ].

Fixpoint find_override (key : rstring)
    (table : list (string * (rstring → outcome StoreError (Config → Config)))) :
    option (rstring → outcome StoreError (Config → Config)) :=
  match table with
  | [] => None
  | (name, apply) :: table =>
      if bool_decide (key = str_bytes name) then Some apply else find_override key table
  end.

(** One binding; other keys are skipped. *)
Definition apply_override (config : Config) (binding : rstring * rstring) : outcome StoreError Config :=
  if negb (starts_with (str_bytes "MESHQUILL_") binding.1) then Ok config
  else
    match find_override binding.1 overrides with
    | Some apply => change ← apply binding.2; Ok (change config)
    | None => Ok config
    end.

(** The bindings of the hash map, in the order it is iterated. *)
Fixpoint apply_env_overrides (config : Config) (env : list (rstring * rstring)) : outcome StoreError Config :=
  match env with
  | [] => Ok config
  | binding :: env => config ← apply_override config binding; apply_env_overrides config env
  end.

(** ** [toml] *)

Class ConfigToml := {
  toml_value : Type;
  toml_from_str : rstring → outcome string toml_value;
  toml_version : toml_value → option Z;
  toml_config : toml_value → outcome string Config;
  toml_legacy : toml_value → outcome string LegacyConfig;
  toml_to_string_pretty : Config → outcome string rstring;
  toml_effective_to_string_pretty : EffectiveConfig → outcome string rstring
}.

Section Operations.
Context `{ConfigToml} (tls : TlsFiles).

Definition to_toml_string (config : Config) : outcome string rstring :=
  out ← toml_to_string_pretty config;
  Ok (if ends_with [0x0a]%Z out then out else out ++ [0x0a]%Z).

Definition to_effective_toml (config : Config) : outcome StoreError rstring :=
  map_err StoreError_Serde (toml_effective_to_string_pretty (effective_config config)).

(** ** The store *)

Record ConfigStore := mkConfigStore { ConfigStore_path : string }.

Definition from_default_path (platform : Platform) (app_name : path) (env : string → option path) :
    outcome StoreError ConfigStore :=
  path ← resolve_platform_config_path platform app_name (current_process_env env);
  Ok (mkConfigStore (bytes_str path)).

Inductive LoadOutcome :=
| Load_Missing
| Load_Loaded (config : Config)
| Load_NeedsMigration (config : Config).

Definition parse_error (self : ConfigStore) (message : string) : StoreError :=
  StoreError_Parse (ConfigStore_path self) message.

(** What [load_unlocked] makes of the text of a document. *)
Definition read_document (self : ConfigStore) (raw : rstring) : outcome StoreError (Config * bool) :=
  value ← map_err (parse_error self) (toml_from_str raw);
  match toml_version value with
  | Some v =>
      if (v =? CONFIG_VERSION)%Z then
        config ← map_err (parse_error self) (toml_config value); Ok (config, false)
      else Err (StoreError_UnsupportedVersion (if ((0 <=? v) && (v <? 256))%Z then v else 0%Z))
  | None =>
      legacy ← map_err (parse_error self) (toml_legacy value); Ok (Config_from_legacy legacy, true)
  end.

Definition interpret_document (self : ConfigStore) (env : list (rstring * rstring)) (contents : bytes) :
    outcome StoreError LoadOutcome :=
  let raw := take (Z.to_nat (MAX_CONFIG_FILE_BYTES + 1)) contents in
  match from_utf8 raw with
  | None => Err (StoreError_Io (mkIoError InvalidData "stream did not contain valid UTF-8"))
  | Some raw =>
      if (MAX_CONFIG_FILE_BYTES <? Z.of_nat (length raw))%Z then
        invalid "config.file" ("configuration exceeds the " +:+ pretty MAX_CONFIG_FILE_BYTES
                               +:+ "-byte input bound")
      else
      '(config, needs_migration) ← read_document self raw;
      config ← apply_env_overrides config env;
      _ ← Config_validate tls config;
      Ok (if needs_migration : bool then Load_NeedsMigration config else Load_Loaded config)
  end.

Definition config_load_unlocked (self : ConfigStore) (env : list (rstring * rstring)) : fs LoadOutcome :=
  present ← fs_exists (ConfigStore_path self);
  if negb present then mret Load_Missing else
  _ ← fs_step StoreError_Io;
  contents ← fs_contents (ConfigStore_path self);
  fs_lift (interpret_document self env contents).

Definition load_with_overrides (self : ConfigStore) (env : list (rstring * rstring)) : fs LoadOutcome :=
  config_load_unlocked self env.

Definition lock_exclusive (self : ConfigStore) : fs () := acquire_target_locks [ConfigStore_path self].

Definition save_unlocked (self : ConfigStore) (config : Config) : fs () :=
  _ ← fs_lift (Config_validate tls config);
  _ ← fs_step StoreError_Io;
  text ← fs_lift (map_err StoreError_Serde (to_toml_string config));
  _ ← fs_step StoreError_Io;
  _ ← fs_rename (ConfigStore_path self) text;
  fs_step StoreError_Io.

Definition save (self : ConfigStore) (config : Config) : fs () :=
  _ ← lock_exclusive self; save_unlocked self config.

(** The name of a backup, from the clock and the process id. *)
Definition backup_path (self : ConfigStore) (clock : option Z) (pid : Z) : string :=
  let p := str_bytes (ConfigStore_path self) in
  let name := default (str_bytes CONFIG_FILE_NAME) (file_name p ≫= from_utf8) in
  bytes_str (path_join (default (str_bytes ".") (parent p))
    (name ++ str_bytes ("." +:+ pretty (default 0%Z clock) +:+ "." +:+ pretty pid +:+ ".bak"))).

(** [OpenOptions::create_new]. *)
Definition fs_create_new (path : string) : fs () :=
  _ ← fs_step StoreError_Io;
  present ← fs_present path;
  if present : bool then fs_fail (StoreError_Io (mkIoError AlreadyExists "File exists"))
  else fs_update <[path := []]>.

(** [io::copy]: it can stop after any byte. *)
Fixpoint fs_copy (path : string) (contents : bytes) : fs () :=
  match contents with
  | [] => fs_step StoreError_Io
  | b :: contents =>
      _ ← fs_step StoreError_Io;
      _ ← fs_update (alter (λ written, written ++ [b]) path);
      fs_copy path contents
  end.

Definition create_backup (self : ConfigStore) (path : string) : fs () :=
  _ ← fs_open (ConfigStore_path self);
  _ ← fs_create_new path;
  _ ← fs_step StoreError_Io;
  contents ← fs_contents (ConfigStore_path self);
  _ ← fs_copy path contents;
  fs_step StoreError_Io.

Definition backup_unlocked (self : ConfigStore) (clock : option Z) (pid : Z) : fs string :=
  present ← fs_exists (ConfigStore_path self);
  let path := backup_path self clock pid in
  if negb present then mret path else
  _ ← create_backup self path;
  mret path.

Definition backup (self : ConfigStore) (clock : option Z) (pid : Z) : fs string :=
  _ ← lock_exclusive self; backup_unlocked self clock pid.

Record RepairOutcome := mkRepairOutcome {
  Repair_config : Config;
  Repair_backup_path : option string
}.

Definition repair_unlocked (self : ConfigStore) (clock : option Z) (pid : Z) : fs RepairOutcome :=
  present ← fs_exists (ConfigStore_path self);
  backup ← (if present : bool then path ← backup_unlocked self clock pid; mret (Some path) else mret None);
  _ ← save_unlocked self Config_default;
  mret (mkRepairOutcome Config_default backup).

Definition repair (self : ConfigStore) (clock : option Z) (pid : Z) : fs RepairOutcome :=
  _ ← lock_exclusive self; repair_unlocked self clock pid.
End Operations.
