(* ===== verification/ConfigProps.v ===== *)
(** * Properties of the configuration store and of its paths

    Saving is atomic and says exactly what can be loaded again; repairing never
    loses the previous document; overrides do not depend on their order; profile
    selection of a validated document; what the redacted view hides; and that the
    history files of profiles and documents are kept apart. *)

From stdpp Require Import sorting.
From S2P Require Import Prelude Text Order Domain Samples Hooks HookRuntime Store History Paths MqttConfig Config.

(** What is assumed of [toml]: a document that was written, with or without a
    final line break, is text that parses, has its version, and reads back. *)
Class ConfigTomlLaws `{ConfigToml} : Prop := {
  toml_text c s : toml_to_string_pretty c = Ok s → is_rstring s;
  toml_reads c s nl : toml_to_string_pretty c = Ok s → nl = [] ∨ nl = [0x0a]%Z →
    ∃ v, toml_from_str (s ++ nl) = Ok v ∧ toml_version v = Some (Config_version c) ∧
         toml_config v = Ok c
}.

(** ** Saving *)

Lemma spec_run {X : Prop} {A} (m : fs A) w Q I : honest w → spec X m (Fs_files w) Q I →
  match (m w).1 with Done a => Q a (Fs_files (m w).2) | _ => I (Fs_files (m w).2) ∧ (calm w → X) end.
Proof. intros Hh Hm. by destruct (Hm w eq_refl Hh) as (_ & _ & ?). Qed.

(** The bytes that fit into the input bound. *)
Definition document_fits (text : rstring) : Prop := (Z.of_nat (length text) <= MAX_CONFIG_FILE_BYTES)%Z.

Section Save.
Context `{ConfigTomlLaws} (tls : TlsFiles).

Lemma to_toml_string_reads c text : to_toml_string c = Ok text →
  is_rstring text ∧ ∃ v, toml_from_str text = Ok v ∧ toml_version v = Some (Config_version c) ∧
    toml_config v = Ok c.
Proof.
  unfold to_toml_string. destruct (toml_to_string_pretty c) as [s| |] eqn:Hs; simpl; try done. intros [= <-].
  pose proof (toml_text c s Hs) as Ht. case_match.
  - split; [done|]. rewrite <- (app_nil_r s). eapply toml_reads; eauto.
  - split; [|eapply toml_reads; eauto]. apply is_rstring_app; [done|]. split; [by repeat constructor|done].
Qed.

(** What loading makes of a saved document. *)
Lemma interpret_saved self c text : to_toml_string c = Ok text → Config_validate tls c = Ok () →
  document_fits text → Config_version c = CONFIG_VERSION →
  interpret_document tls self [] text = Ok (Load_Loaded c).
Proof.
  intros Ht Hv Hfit Hver. destruct (to_toml_string_reads c text Ht) as (Hr & v & Hp & Hvv & Hc).
  unfold interpret_document, document_fits, MAX_CONFIG_FILE_BYTES in *. rewrite take_ge by lia.
  rewrite from_utf8_rstring by done. rewrite (proj2 (Z.ltb_ge _ _)) by lia.
  unfold read_document. rewrite Hp. simpl. rewrite Hvv, Hver, Z.eqb_refl, Hc. simpl. by rewrite Hv.
Qed.

Lemma interpret_unreadable self c text : to_toml_string c = Ok text →
  ¬ (document_fits text ∧ Config_version c = CONFIG_VERSION) →
  is_Err (interpret_document tls self [] text) = true.
Proof.
  intros Ht Hno. destruct (to_toml_string_reads c text Ht) as (Hr & v & Hp & Hvv & Hc).
  unfold interpret_document. set (raw := take _ text). destruct (from_utf8 raw) as [raw'|] eqn:Hu; [|done].
  apply from_utf8_Some in Hu as [-> _]. destruct (Z.ltb_spec MAX_CONFIG_FILE_BYTES (Z.of_nat (length raw))); [done|].
  assert (raw = text ∧ document_fits text) as [-> Hfit].
  { unfold raw, document_fits, MAX_CONFIG_FILE_BYTES in *. rewrite length_take in *. split; [apply take_ge|]; lia. }
  unfold read_document. rewrite Hp. simpl. rewrite Hvv.
  destruct (Z.eqb_spec (Config_version c) CONFIG_VERSION); [tauto|done].
Qed.

Lemma spec_save_unlocked {X : Prop} self c F (Q : () → files → Prop) (I : files → Prop) :
  (is_Ok (Config_validate tls c ≫= λ _, map_err StoreError_Serde (to_toml_string c)) = false → X) →
  (∀ text, Config_validate tls c = Ok () → to_toml_string c = Ok text →
    Q () (<[ConfigStore_path self := text]> F) ∧ I (<[ConfigStore_path self := text]> F)) → I F →
  spec X (save_unlocked tls self c) F Q I.
Proof.
  intros HX HQ HI. unfold save_unlocked. apply spec_bind, spec_lift; [|intros Hf; apply HX; by destruct (Config_validate _ _)|done].
  intros [] Hv. rewrite Hv in HX. apply spec_bind, spec_step; [|done]. apply spec_bind, spec_lift; [|done..].
  intros text Ht. destruct (to_toml_string c) as [text'|e|] eqn:Ht'; simplify_eq/=.
  destruct (HQ text Hv eq_refl). apply spec_bind, spec_step; [|done]. apply spec_bind, spec_rename; [by apply spec_step|done].
Qed.

(** Loading a file that is there, with no fault and every query answered. *)
Lemma load_document self env v text :
  Fs_files v !! ConfigStore_path self = Some text → honest v → calm v →
  (load_with_overrides tls self env v).1 = (fs_lift (interpret_document tls self env text) v).1.
Proof.
  intros Hl Hh Hc. unfold load_with_overrides, config_load_unlocked, mbind, fs_bind, fs_exists. simpl.
  assert (default true (head (Fs_answers v)) = true) as -> by (unfold honest in Hh; by destruct Hh).
  rewrite Hl, bool_decide_true by done. simpl. unfold fs_step. simpl.
  replace (default Pass (head (Fs_faults v))) with Pass by (unfold calm in Hc; by destruct Hc). simpl.
  rewrite Hl. simpl. unfold fs_lift. by destruct (interpret_document tls self env text).
Qed.

(** C32: saving is atomic, and what it leaves is exactly what loading accepts.
    However the call ends the file is the old one or the whole new one and no
    other file has changed; it fails only by a fault.  A document saved is loaded
    again, as itself, if it has the current version and fits the input bound, and
    is refused otherwise: saving checks neither. *)
Theorem saved_config_loads self c text w :
  honest w → Config_validate tls c = Ok () → to_toml_string c = Ok text →
  let new := <[ConfigStore_path self := text]> (Fs_files w) in
  let '(r, w') := save tls self c w in
  (Fs_files w' = Fs_files w ∨ Fs_files w' = new) ∧
  match r with
  | Done _ => Fs_files w' = new ∧
      ∀ v, Fs_files v = new → honest v → calm v →
      match (load_with_overrides tls self [] v).1 with
      | Done loaded => loaded = Load_Loaded c ∧ document_fits text ∧ Config_version c = CONFIG_VERSION
      | Failed _ => ¬ (document_fits text ∧ Config_version c = CONFIG_VERSION)
      | Killed => False
      end
  | _ => ¬ calm w
  end.
Proof.
  intros Hh Hv Ht new. assert (spec False (save tls self c) (Fs_files w) (λ _ F', F' = new)
    (λ F', F' = Fs_files w ∨ F' = new)) as Hspec.
  { apply spec_bind, spec_locks; [|by left]. apply spec_save_unlocked; [|intros text' _|by left].
    - by rewrite Hv, Ht.
    - rewrite Ht. intros [= <-]. by auto. }
  pose proof (spec_run _ w _ _ Hh Hspec) as Hr. destruct (save tls self c w) as [r w']. simpl in Hr.
  destruct r as [[]|e|]; [|naive_solver..]. split; [naive_solver|]. split; [done|].
  intros v Hfiles Hhv Hcv. rewrite (load_document self [] v text); [|rewrite Hfiles; apply lookup_insert_eq|done..].
  destruct (decide (document_fits text ∧ Config_version c = CONFIG_VERSION)) as [[Hfit Hver]|Hno].
  - by rewrite (interpret_saved self c text Ht Hv Hfit Hver).
  - pose proof (interpret_unreadable self c text Ht Hno). by destruct (interpret_document tls self [] text).
Qed.
End Save.

(** ** Repairing *)

Lemma default_config_valid tls : Config_validate tls Config_default = Ok ().
Proof. reflexivity. Qed.

Section Repair.
Context `{ConfigToml} (tls : TlsFiles) (self : ConfigStore) (clock : option Z) (pid : Z).
Notation source := (ConfigStore_path self).
Notation target := (backup_path self clock pid).

Lemma spec_copy b written contents F : F !! b = Some written →
  spec True (fs_copy b contents) F (λ _ F', F' = <[b := written ++ contents]> F)
    (λ F', ∃ cut, F' = <[b := cut]> F).
Proof.
  revert written F. induction contents as [|x contents IH]; intros written F Hb; simpl.
  - apply spec_step; [by rewrite app_nil_r, insert_id|]. exists written. by rewrite insert_id.
  - apply spec_bind, spec_step; [|exists written; by rewrite insert_id]. apply spec_bind, spec_update.
    assert (alter (λ w, w ++ [x]) b F = <[b := written ++ [x]]> F) as ->.
    { apply map_eq. intros k. destruct (decide (k = b)) as [->|].
      - by rewrite lookup_alter_eq, lookup_insert_eq, Hb.
      - by rewrite lookup_alter_ne, lookup_insert_ne. }
    eapply spec_mono; [apply (IH (written ++ [x])), lookup_insert_eq|..].
    + intros _ F' ->. by rewrite insert_insert_eq, <- app_assoc.
    + intros F' [cut ->]. exists cut. by rewrite insert_insert_eq.
Qed.

(** The source is where it was; the backup, if it was not there before, may be
    anything. *)
Definition untouched (F F' : files) : Prop :=
  F' = F ∨ F !! target = None ∧ ∃ cut, F' = <[target := cut]> F.

Lemma spec_create_backup old F : F !! source = Some old →
  spec True (create_backup self target) F
    (λ _ F', F !! target = None ∧ F' = <[target := old]> F) (untouched F).
Proof.
  intros Hs. unfold create_backup, fs_open, fs_create_new.
  apply spec_bind, spec_bind, spec_step; [|by left]. apply spec_bind, spec_present.
  rewrite Hs, bool_decide_true by done. apply spec_ret.
  apply spec_bind, spec_bind, spec_step; [|by left]. apply spec_bind, spec_present.
  destruct (F !! target) as [old'|] eqn:Ht.
  { rewrite bool_decide_true by done. apply spec_fail; [done|by left]. }
  rewrite bool_decide_false by (by intros []). apply spec_update.
  assert (∀ cut, untouched F (<[target := cut]> F)) as Hun by (intros cut; right; eauto).
  apply spec_bind, spec_step; [|done]. apply spec_bind, spec_contents.
  rewrite lookup_insert_ne, Hs by congruence. cbn [default]. apply spec_bind.
  eapply spec_mono; [apply (spec_copy target []), lookup_insert_eq|..].
  - intros _ F' ->. rewrite insert_insert_eq. by apply spec_step.
  - intros F' [cut ->]. by rewrite insert_insert_eq.
Qed.

(** repairing never loses the document.  However it ends, kills included, the
    previous contents are still in place or in the backup; an existing file is
    never overwritten by the backup, and no third file is touched.  When it
    finishes, the backup is complete and the defaults are in place. *)
Theorem repair_keeps_document w old :
  honest w → Fs_files w !! source = Some old →
  let '(r, w') := repair tls self clock pid w in
  (Fs_files w' !! source = Some old ∨ Fs_files w' !! target = Some old) ∧
  (∀ q, q ≠ source → q ≠ target ∨ is_Some (Fs_files w !! q) → Fs_files w' !! q = Fs_files w !! q) ∧
  match r with
  | Done outcome_ => outcome_ = mkRepairOutcome Config_default (Some target) ∧
      Fs_files w' !! target = Some old ∧
      ∃ text, to_toml_string Config_default = Ok text ∧ Fs_files w' !! source = Some text
  | _ => True
  end.
Proof.
  intros Hh Hs. set (F := Fs_files w) in *.
  set (kept := λ F' : files,
    (F' !! source = Some old ∨ F' !! target = Some old) ∧
    ∀ q, q ≠ source → q ≠ target ∨ is_Some (F !! q) → F' !! q = F !! q).
  assert (∀ F', untouched F F' → kept F') as Hun.
  { intros F' [->|[Ht [cut ->]]]; split; [by left|done|left; by rewrite lookup_insert_ne by congruence|].
    intros q Hq [Hne|[x Hx]]; rewrite lookup_insert_ne; [done..|congruence|congruence]. }
  assert (spec True (repair tls self clock pid) F (λ o F', kept F' ∧
    o = mkRepairOutcome Config_default (Some target) ∧ F' !! target = Some old ∧
    ∃ text, to_toml_string Config_default = Ok text ∧ F' !! source = Some text) kept) as Hspec.
  { apply spec_bind, spec_locks; [|by apply Hun; left]. apply spec_bind, spec_exists.
    rewrite Hs, bool_decide_true by done. apply spec_bind, spec_bind, spec_bind, spec_exists.
    rewrite Hs, bool_decide_true by done. simpl. apply spec_bind.
    eapply spec_mono; [by apply spec_create_backup|..|by apply Hun]. intros [] F' [Ht ->].
    assert (source ≠ target) as Hne by congruence.
    apply spec_ret, spec_ret, spec_bind. apply spec_save_unlocked; [done| |apply Hun; right; eauto].
    intros text _ Htext. assert (kept (<[source := text]> (<[target := old]> F))) as Hk.
    { split; [right; by rewrite lookup_insert_ne, lookup_insert_eq by done|].
      intros q Hq [Hq'|[x Hx]]; rewrite !lookup_insert_ne; congruence. }
    split; [|done]. apply spec_ret. split_and!; [done|done|by rewrite lookup_insert_ne, lookup_insert_eq by done|].
    exists text. by rewrite lookup_insert_eq. }
  pose proof (spec_run _ w _ _ Hh Hspec) as Hr.
  destruct (repair tls self clock pid w) as [r w']. cbn [fst snd] in Hr.
  destruct r as [o|e|]; [destruct Hr as [[? ?] Hd]|destruct Hr as [[? ?] _]..]; split_and!; try done; apply Hd.
Qed.
End Repair.

(** ** Overrides *)

(** Two changes that commute. *)
Definition commute (f g : Config → Config) : Prop := ∀ c, f (g c) = g (f c).

Lemma find_override_index key table apply : find_override key table = Some apply →
  ∃ i name, table !! i = Some (name, apply) ∧ key = str_bytes name.
Proof.
  induction table as [|[name f] table IH]; simpl; [done|]. case_bool_decide.
  - intros [= <-]. by exists 0, name.
  - intros (i & n & ? & ?)%IH. by exists (S i), n.
Qed.

Lemma overrides_commute i j name1 name2 f g u v a b :
  i ≠ j → overrides !! i = Some (name1, f) → overrides !! j = Some (name2, g) →
  f u = Ok a → g v = Ok b → commute a b.
Proof.
  assert (∀ E A B (m : outcome E A) (k : A → B) b, (x ← m; Ok (k x)) = Ok b → ∃ x, b = k x) as Hinv.
  { intros E A B [] k y; simpl; naive_solver. }
  intros Hij Hi Hj Hf Hg c.
  do 15 (try destruct i as [|i]); try discriminate Hi; injection Hi as <- <-;
    do 15 (try destruct j as [|j]); try discriminate Hj; try done; injection Hj as <- <-;
    try (injection Hf as <-); try (apply Hinv in Hf as [x ->]);
    try (injection Hg as <-); try (apply Hinv in Hg as [y ->]); reflexivity.
Qed.

(** What a binding does: nothing, a change, or an error. *)
Definition binding_change (binding : rstring * rstring) : outcome StoreError (Config → Config) :=
  if negb (starts_with (str_bytes "MESHQUILL_") binding.1) then Ok id
  else match find_override binding.1 overrides with Some apply => apply binding.2 | None => Ok id end.

Lemma apply_override_change c binding :
  apply_override c binding = (change ← binding_change binding; Ok (change c)).
Proof. unfold apply_override, binding_change. by repeat case_match. Qed.

Lemma binding_changes_commute b1 b2 f g : b1.1 ≠ b2.1 →
  binding_change b1 = Ok f → binding_change b2 = Ok g → commute f g.
Proof.
  unfold binding_change. intros Hne.
  destruct (negb (starts_with _ b1.1)); [by intros [= <-] _|].
  destruct (find_override b1.1 overrides) as [a1|] eqn:H1; [|by intros [= <-] _].
  destruct (negb (starts_with _ b2.1)); [by intros _ [= <-]|].
  destruct (find_override b2.1 overrides) as [a2|] eqn:H2; [|by intros _ [= <-]].
  apply find_override_index in H1 as (i & n1 & Hi & Hk1), H2 as (j & n2 & Hj & Hk2).
  apply (overrides_commute i j n1 n2 a1 a2); [|done..]. intros ->. congruence.
Qed.

(** The same configuration, or an error on both sides. *)
Definition same_result (m m' : outcome StoreError Config) : Prop :=
  match m, m' with Ok c, Ok c' => c = c' | Err _, Err _ => True | _, _ => False end.

Lemma binding_change_no_panic binding : binding_change binding ≠ Panic.
Proof.
  unfold binding_change. case_match; [done|].
  destruct (find_override binding.1 overrides) as [f|] eqn:Hf; [|done].
  apply find_override_index in Hf as (i & n & Hi & _).
  assert (∀ w u field message, parse_unsigned_override w u field message ≠ Panic) as Hu.
  { intros. unfold parse_unsigned_override. by destruct (parse_unsigned w u). }
  assert (∀ u field, parse_bool u field ≠ Panic) as Hb.
  { intros. unfold parse_bool. by repeat case_match. }
  do 15 (try destruct i as [|i]); try discriminate Hi; injection Hi as <- <-; try done;
    unfold parse_u64, parse_u32, parse_u16;
    match goal with
    | |- context [parse_unsigned_override ?w ?u ?a ?b] => specialize (Hu w u a b); by destruct (parse_unsigned_override w u a b)
    | |- context [parse_bool ?u ?a] => specialize (Hb u a); by destruct (parse_bool u a)
    end.
Qed.

Lemma apply_override_no_panic c binding : apply_override c binding ≠ Panic.
Proof.
  rewrite apply_override_change. pose proof (binding_change_no_panic binding).
  by destruct (binding_change binding).
Qed.

(** overrides do not depend on the order of the hash map they come from: the
    configurations are the same, or both orders are refused. *)
Theorem overrides_any_order c env env' :
  env ≡ₚ env' → NoDup env.*1 → same_result (apply_env_overrides c env) (apply_env_overrides c env').
Proof.
  assert (∀ c env, apply_env_overrides c env ≠ Panic) as Hnp.
  { intros c0 e. revert c0. induction e as [|b e IH]; intros c0; simpl; [done|].
    pose proof (apply_override_no_panic c0 b). destruct (apply_override c0 b); simpl; [apply IH|done..]. }
  assert (∀ c env, same_result (apply_env_overrides c env) (apply_env_overrides c env)) as Hrefl.
  { intros c0 e. specialize (Hnp c0 e). unfold same_result. by destruct (apply_env_overrides c0 e). }
  intros Hp. revert c. induction Hp as [|b l l' _ IH|b1 b2 l|l1 l2 l3 H12 IH12 H23 IH23]; intros c Hnd.
  - done.
  - simpl. apply NoDup_cons in Hnd as [_ Hnd].
    pose proof (apply_override_no_panic c b). destruct (apply_override c b); simpl; [by apply IH|done..].
  - assert (b1.1 ≠ b2.1) as Hne by (apply NoDup_cons in Hnd as [? _]; set_solver).
    simpl. rewrite !apply_override_change.
    destruct (binding_change b2) as [f| |] eqn:E2, (binding_change b1) as [g| |] eqn:E1; simpl;
      rewrite ?apply_override_change, ?E1, ?E2; simpl; try done.
    1: rewrite (binding_changes_commute b1 b2 g f Hne E1 E2); apply Hrefl.
    all: pose proof (binding_change_no_panic b1); pose proof (binding_change_no_panic b2); congruence.
  - assert (NoDup l2.*1) as Hnd2 by (by rewrite <- H12). specialize (IH12 c Hnd). specialize (IH23 c Hnd2).
    unfold same_result in *.
    destruct (apply_env_overrides c l1), (apply_env_overrides c l2), (apply_env_overrides c l3); naive_solver.
Qed.

(** ** Profile selection *)

#[global] Instance key_le_total {V} : Total (key_le (V:=V)).
Proof. intros a b. apply bytes_leb_total. Qed.
#[global] Instance key_le_trans {V} : Transitive (key_le (V:=V)).
Proof. intros a b c. apply bytes_leb_trans. Qed.

Lemma btree_permutation {V} (m : gmap bytes V) : btree_to_list m ≡ₚ map_to_list m.
Proof. apply merge_sort_Permutation. Qed.

Lemma validate_profiles_ok profiles : validate_profiles profiles = Ok () →
  Forall (λ np, validate_identifier np.1 = true ∧ DeviceProfile_validate np.2 = Ok ()) profiles.
Proof.
  induction profiles as [|[name profile] profiles IH]; simpl; [constructor|].
  destruct (validate_identifier name) eqn:Hn; simpl; [|done].
  destruct (DeviceProfile_validate profile) as [[]| |] eqn:Hp; simpl; [|done..]. intros Hr. constructor; auto.
Qed.

Lemma config_profiles_valid tls c name profile : Config_validate tls c = Ok () →
  Config_device_profiles c !! name = Some profile →
  validate_identifier name = true ∧ DeviceProfile_validate profile = Ok ().
Proof.
  unfold Config_validate. destruct (validate_profiles _) as [[]| |] eqn:Hp; simpl; [|done..].
  intros _ Hl. apply validate_profiles_ok in Hp. rewrite Forall_forall in Hp.
  apply (Hp (name, profile)). rewrite btree_permutation. by apply elem_of_map_to_list.
Qed.

Lemma config_default_present tls c name : Config_validate tls c = Ok () →
  Config_default_profile c = Some name → is_Some (Config_device_profiles c !! name).
Proof.
  unfold Config_validate. destruct (validate_profiles _) as [[]| |]; simpl; [|done..].
  intros Hv Hn. rewrite Hn in Hv. simpl in Hv. destruct (validate_identifier name); simpl in Hv; [|done].
  destruct (Config_device_profiles c !! name); [done|]. by rewrite bool_decide_true in Hv.
Qed.

(** selecting the profile of a validated document.  A profile that is
    selected is stored under its name, is valid, and is the one asked for, the
    default, or the only one; otherwise the name asked for is not there, there
    are no profiles, or there are several, listed in order, and no default. *)
Theorem profile_selection tls c explicit :
  Config_validate tls c = Ok () →
  match resolve_profile c explicit with
  | Ok (name, profile) =>
      Config_device_profiles c !! name = Some profile ∧
      validate_identifier name = true ∧ DeviceProfile_validate profile = Ok () ∧
      match explicit, Config_default_profile c with
      | Some asked, _ => name = asked
      | None, Some standard => name = standard
      | None, None => Config_device_profiles c = {[name := profile]}
      end
  | Err (Selection_NotFound name) => explicit = Some name ∧ Config_device_profiles c !! name = None
  | Err Selection_NoneConfigured =>
      explicit = None ∧ Config_default_profile c = None ∧ Config_device_profiles c = ∅
  | Err (Selection_Ambiguous names) =>
      explicit = None ∧ Config_default_profile c = None ∧ 2 ≤ length names ∧
      StronglySorted (λ a b, bytes_leb a b = true) names ∧
      (∀ name, name ∈ names ↔ is_Some (Config_device_profiles c !! name))
  | Panic => False
  end.
Proof.
  intros Hv. pose proof (config_profiles_valid tls c) as Hp. pose proof (config_default_present tls c) as Hd.
  unfold resolve_profile. destruct explicit as [asked|].
  { destruct (Config_device_profiles c !! asked) as [profile|] eqn:Hl; simpl; [|done]. naive_solver. }
  destruct (Config_default_profile c) as [standard|] eqn:Hs.
  { destruct (Hd standard Hv eq_refl) as [profile Hl]. rewrite Hl. simpl. naive_solver. }
  pose proof (btree_permutation (Config_device_profiles c)) as Hperm.
  destruct (btree_to_list (Config_device_profiles c)) as [|[name profile] [|second rest]] eqn:Hb.
  - symmetry in Hperm. apply Permutation_nil_r, map_to_list_empty_iff in Hperm. done.
  - assert (Config_device_profiles c = {[name := profile]}) as Hc.
    { symmetry in Hperm. apply Permutation_singleton_r in Hperm.
      rewrite <- (list_to_map_to_list (Config_device_profiles c)), Hperm. simpl. by rewrite insert_empty. }
    assert (Config_device_profiles c !! name = Some profile) as Hl by (by rewrite Hc, lookup_singleton_eq).
    naive_solver.
  - rewrite <- Hb in *. split_and!; [done..| | |].
    + rewrite Hb. simpl. lia.
    + apply (StronglySorted_fmap fst key_le); [by intros [] []|]. apply StronglySorted_merge_sort; apply _.
    + intros n. rewrite list_elem_of_fmap. setoid_rewrite btree_permutation. split.
      * intros ([k p] & -> & Hk%elem_of_map_to_list). eauto.
      * intros [p Hk]. exists (n, p). by rewrite elem_of_map_to_list.
Qed.

(** ** The redacted view *)

(** Both absent, or both present with whatever in them. *)
Definition both_or_none {A B} (a : option A) (b : option B) : Prop := is_Some a ↔ is_Some b.

Definition same_profile (p q : DeviceProfile) : Prop :=
  DeviceProfile_transport p = DeviceProfile_transport q ∧
  DeviceProfile_transport_overrides p = DeviceProfile_transport_overrides q ∧
  both_or_none (DeviceProfile_secret p) (DeviceProfile_secret q).

(** Two documents that differ in where secrets are kept and in nothing else. *)
Definition same_but_secrets (c d : Config) : Prop :=
  Config_version c = Config_version d ∧ Config_default_profile c = Config_default_profile d ∧
  (∀ name, option_Forall2 same_profile (Config_device_profiles c !! name) (Config_device_profiles d !! name)) ∧
  Config_timeout c = Config_timeout d ∧ Config_history c = Config_history d ∧ Config_hook c = Config_hook d ∧
  MqttSettings_enabled (Config_mqtt c) = MqttSettings_enabled (Config_mqtt d) ∧
  MqttSettings_gateway (Config_mqtt c) = MqttSettings_gateway (Config_mqtt d) ∧
  both_or_none (MqttSettings_password (Config_mqtt c)) (MqttSettings_password (Config_mqtt d)) ∧
  Config_queues c = Config_queues d.

Lemma redact_secret_eq s t : redact_secret s = redact_secret t ↔ both_or_none s t.
Proof. unfold both_or_none. destruct s, t; simpl; naive_solver. Qed.

(** the redacted view is everything but the secrets.  Two documents have the
    same effective configuration exactly when they differ in nothing but the
    references to secrets, whose presence is all that shows. *)
Theorem effective_config_redacts c d :
  effective_config c = effective_config d ↔ same_but_secrets c d.
Proof.
  unfold effective_config, same_but_secrets. split.
  - intros [= Hv Hdef Hmap Ht Hh Hk Hen Hgw Hpw Hq]. split_and!; try done; [|by apply redact_secret_eq].
    intros name. apply (f_equal (.!! name)) in Hmap. rewrite !lookup_fmap in Hmap.
    destruct (Config_device_profiles c !! name), (Config_device_profiles d !! name); simplify_eq/=; constructor.
    split_and!; try done. by apply redact_secret_eq.
  - intros (-> & -> & Hmap & -> & -> & -> & -> & -> & Hpw%redact_secret_eq & ->). rewrite Hpw. f_equal.
    apply map_eq. intros name. rewrite !lookup_fmap. destruct (Hmap name) as [p q (Ht & Ho & Hs%redact_secret_eq)|]; [|done].
    simpl. by rewrite Ht, Ho, Hs.
Qed.

(** ** History files *)

Lemma u64_bytes_inj a b : is_uint 64 a → is_uint 64 b → u64_to_le_bytes a = u64_to_le_bytes b → a = b.
Proof.
  intros Ha Hb Heq. unfold u64_to_le_bytes in Heq.
  rewrite <- (from_to_le_bytes 8 a), <- (from_to_le_bytes 8 b) by done. by rewrite Heq.
Qed.

(** Parts whose length fits its field. *)
Definition short (l : bytes) : Prop := is_uint 64 (Z.of_nat (length l)).

Lemma hash_os_str_inj p q x y : short p → short q →
  hash_os_str p ++ x = hash_os_str q ++ y → p = q ∧ x = y.
Proof.
  intros Hp Hq. unfold hash_os_str. rewrite <- !app_assoc. intros Heq.
  apply app_inv_head, app_inv_head in Heq.
  apply app_inj_1 in Heq as [Hlen Heq]; [|unfold u64_to_le_bytes; by rewrite !length_to_le_bytes].
  apply u64_bytes_inj in Hlen; [|done..]. apply app_inj_1 in Heq; [done|lia].
Qed.

Lemma hash_parts_inj ps qs : Forall short ps → Forall short qs →
  concat (hash_os_str <$> ps) = concat (hash_os_str <$> qs) → ps = qs.
Proof.
  intros Hp. revert qs. induction Hp as [|p ps Hs _ IH]; intros [|q qs] Hq; [done|discriminate..|].
  apply Forall_cons in Hq as [Hqs Hq]. intros Heq. apply hash_os_str_inj in Heq as [-> Heq]; [|done..].
  by rewrite (IH qs).
Qed.

(** the namespace of a document is its path.  Two paths feed the same bytes
    to the digest exactly when they have the same lexical normal form. *)
Theorem digest_input_normalized p q :
  Forall short (normalized p).2 → Forall short (normalized q).2 →
  digest_input p = digest_input q ↔ normalized p = normalized q.
Proof.
  unfold digest_input. destruct (normalized p) as [r1 ps], (normalized q) as [r2 qs]. simpl. intros Hp Hq.
  split; [|by intros [= -> ->]].
  destruct r1, r2; intros Heq; try discriminate Heq; f_equal;
    apply hash_parts_inj; try done; by apply app_inv_head in Heq.
Qed.

Lemma identifier_plain profile : validate_identifier profile = true → plain (profile_file profile).
Proof.
  unfold validate_identifier, profile_file. destruct profile as [|b profile]; [done|].
  destruct (_ <? _)%nat; [done|]. destruct (negb _) eqn:Hb; [done|]. intros Hall. apply negb_false_iff in Hb.
  assert (∀ x, is_ascii_alphanumeric x = true → x ≠ slash ∧ x ≠ 0x2e%Z) as Halpha.
  { intros x. unfold is_ascii_alphanumeric, is_ascii_alphabetic, is_ascii_digit, in_range, slash. lia. }
  assert (b ≠ slash ∧ b ≠ 0x2e%Z) as [Hbs Hbd].
  { destruct (is_ascii_alphabetic b) eqn:Ha; simpl in Hb; [|unfold slash; lia].
    apply Halpha. unfold is_ascii_alphanumeric. by rewrite Ha. }
  split_and!; [done|by intros [= ->]|by intros [= ->]|].
  rewrite elem_of_app. intros [Hin|Hin]; [|by vm_compute in Hin; set_solver].
  apply elem_of_cons in Hin as [Heq|Hin]; [congruence|].
  rewrite forallb_forall in Hall. specialize (Hall slash (proj1 (list_elem_of_In _ _) Hin)).
  unfold is_ascii_alphanumeric, is_ascii_alphabetic, is_ascii_digit, in_range, slash in Hall. lia.
Qed.

Lemma digest_plain `{CratesLaws} config_path : plain (normalized_config_path_digest config_path).
Proof.
  unfold normalized_config_path_digest. set (l := sha256 _).
  assert (is_bytes l ∧ length l = 32) as [Hb Hl] by (split; [apply sha256_bytes|apply sha256_length]).
  assert (length (lower_hex l) = 64) as Hlen.
  { unfold lower_hex. clear Hb. replace 64 with (2 * length l) by lia. clear Hl.
    induction l as [|x l IH]; [done|]. rewrite fmap_cons. cbn [concat]. rewrite length_app, IH. simpl. lia. }
  split_and!; [by intros E; rewrite E in Hlen..|].
  unfold lower_hex. clear Hl Hlen. induction Hb as [|x l Hx _ IH]; simpl; [set_solver|].
  unfold is_u8 in Hx. rewrite !elem_of_cons. unfold lower_hex_digit, slash.
  pose proof (Z.mod_pos_bound x 16). pose proof (Z.div_pos x 16).
  intros [?|[?|?]]; [..|done]; repeat case_match; lia.
Qed.

(** the files of a profile stay where they belong.  They are directly in the
    history directory of the data directory, in that of the document when it was
    given explicitly, and beside the document; two profiles never share one. *)
Theorem history_paths_confined `{CratesLaws} data_dir config_path explicit_config profile other paths paths' :
  history_paths data_dir config_path explicit_config profile = Ok paths →
  history_paths data_dir config_path explicit_config other = Ok paths' →
  components (HistoryPaths_canonical paths) =
    components data_dir ++ [Normal (str_bytes "history")] ++
    (if explicit_config then [Normal (normalized_config_path_digest config_path)] else []) ++
    [Normal (profile_file profile)] ∧
  components (HistoryPaths_legacy paths) =
    components (default (str_bytes ".") (parent config_path)) ++
    [Normal (str_bytes "history"); Normal (profile_file profile)] ∧
  (profile ≠ other → HistoryPaths_canonical paths ≠ HistoryPaths_canonical paths' ∧
                     HistoryPaths_legacy paths ≠ HistoryPaths_legacy paths').
Proof.
  assert (plain (str_bytes HISTORY_DIR_NAME)) as Hh by (vm_compute; split_and!; try done; set_solver).
  pose proof (digest_plain config_path) as Hd.
  assert (∀ q ps, history_paths data_dir config_path explicit_config q = Ok ps →
    components (HistoryPaths_canonical ps) = components data_dir ++ [Normal (str_bytes "history")] ++
      (if explicit_config then [Normal (normalized_config_path_digest config_path)] else []) ++ [Normal (profile_file q)] ∧
    components (HistoryPaths_legacy ps) = components (default (str_bytes ".") (parent config_path)) ++
      [Normal (str_bytes "history"); Normal (profile_file q)]) as Hcs.
  { intros q ps. unfold history_paths. destruct (validate_identifier q) eqn:Hq; simpl; [|done]. intros [= <-].
    apply identifier_plain in Hq. simpl. unfold below. split.
    - rewrite components_join by done.
      destruct explicit_config; rewrite !components_join by done; by rewrite <- !app_assoc.
    - rewrite !components_join by done. by rewrite <- app_assoc. }
  intros Hp Hp'. destruct (Hcs _ _ Hp) as [Hc Hl], (Hcs _ _ Hp') as [Hc' Hl']. split_and!; [done..|].
  intros Hne. split; intros Heq; [rewrite Heq, Hc' in Hc|rewrite Heq, Hl' in Hl].
  - apply app_inv_head, app_inv_head, app_inv_head in Hc. injection Hc as Hc. by apply app_inv_tail in Hc.
  - apply app_inv_head in Hl. injection Hl as Hl. by apply app_inv_tail in Hl.
Qed.

(** ** Examples *)

Module SampleConfig.

Definition base : DeviceProfile :=
  mkDeviceProfile (Transport_Tcp (str_bytes "node.local") 5000) None
    (Some (Secret_Environment (str_bytes "BASE_PIN"))).
Definition bench : DeviceProfile := mkDeviceProfile (Transport_Serial (str_bytes "/dev/ttyUSB0") 115200) None None.
Definition demo : Config :=
  mkConfig 1 (Some (str_bytes "base")) {[str_bytes "base" := base; str_bytes "bench" := bench]}
    TimeoutSettings_default HistorySettings_default HookSettings_default MqttSettings_default
    QueueSettings_default.
Definition future : Config :=
  mkConfig 2 None ∅ TimeoutSettings_default HistorySettings_default HookSettings_default
    MqttSettings_default QueueSettings_default.

(** Three documents and their texts. *)
Definition documents : list (Config * rstring) :=
  [(Config_default, str_bytes "version = 1"); (demo, str_bytes "version = 1 # demo");
   (future, str_bytes "version = 2")].

Fixpoint text_of (c : Config) (l : list (Config * rstring)) : option rstring :=
  match l with
  | [] => None
  | (d, text) :: l => if decide (c = d) then Some text else text_of c l
  end.
Fixpoint document_of (s : rstring) (l : list (Config * rstring)) : option Config :=
  match l with
  | [] => None
  | (d, text) :: l =>
      if decide (s = text ∨ s = text ++ [0x0a]%Z) then Some d else document_of s l
  end.

#[global] Instance toml : ConfigToml := {
  toml_value := Config;
  toml_from_str s := ok_or (document_of s documents) "expected a document";
  toml_version v := Some (Config_version v);
  toml_config v := Ok v;
  toml_legacy v := Err "not a legacy document";
  toml_to_string_pretty c := ok_or (text_of c documents) "cannot be written";
  toml_effective_to_string_pretty e := Ok []
}.

Lemma text_of_known c s : text_of c documents = Some s → (c, s) ∈ documents.
Proof. simpl. repeat case_decide; intros; simplify_eq; set_solver. Qed.

#[global] Instance toml_laws : ConfigTomlLaws.
Proof.
  assert (∀ c s, toml_to_string_pretty c = Ok s → (c, s) ∈ documents) as Hk.
  { intros c s Hs. apply text_of_known. change (ok_or (text_of c documents) "cannot be written" = Ok s) in Hs.
    destruct (text_of c documents); [by injection Hs as ->|done]. }
  split.
  - intros c s Hs%Hk. apply elem_of_cons in Hs as [[= -> ->]|Hs]; [by apply (bool_decide_unpack _)|].
    apply elem_of_cons in Hs as [[= -> ->]|Hs]; [by apply (bool_decide_unpack _)|].
    apply list_elem_of_singleton in Hs as [= -> ->]. by apply (bool_decide_unpack _).
  - intros c s nl Hs%Hk Hnl. exists c. split_and!; [|done..].
    apply elem_of_cons in Hs as [[= -> ->]|Hs]; [by destruct Hnl as [-> | ->]|].
    apply elem_of_cons in Hs as [[= -> ->]|Hs]; [by destruct Hnl as [-> | ->]|].
    apply list_elem_of_singleton in Hs as [= -> ->]. by destruct Hnl as [-> | ->].
Qed.

Definition no_tls : TlsFiles := mkTlsFiles (λ _, Err "missing") (λ _, Err "missing").
Definition store : ConfigStore := mkConfigStore "config/config.toml".
Definition disk : files := {[ "config/config.toml" := str_bytes "version = 1" ]}.
Definition quiet : Fs := mkFs disk [] [].
Definition torn : Fs := mkFs disk [] (replicate 7 Pass ++ [Kill]).

End SampleConfig.
Import SampleConfig.

Lemma saved_config_loads_witness :
  (load_with_overrides no_tls store [] (save no_tls store demo quiet).2).1 = Done (Load_Loaded demo) ∧
  is_Some (Fs_files (save no_tls store future quiet).2 !! "config/config.toml").
Proof.
  pose proof (saved_config_loads no_tls store demo (str_bytes "version = 1 # demo" ++ [0x0a]%Z) quiet) as Hs.
  specialize (Hs ltac:(constructor) eq_refl eq_refl). cbv zeta in Hs.
  assert (save no_tls store demo quiet = (Done (), (save no_tls store demo quiet).2)) as He by (vm_compute; reflexivity).
  rewrite He in Hs. destruct Hs as [_ [Hf Hl]]. split; [|vm_compute; eauto].
  specialize (Hl _ Hf ltac:(vm_compute; constructor) ltac:(vm_compute; constructor)).
  destruct (load_with_overrides _ _ _ _).1 as [l|e|]; [destruct Hl as [-> _]; reflexivity| |destruct Hl].
  destruct Hl. split; vm_compute; [discriminate|reflexivity].
Defined.

Lemma repair_keeps_document_witness :
  let '(r, w') := repair no_tls store (Some 17%Z) 42 torn in
  Fs_files w' !! "config/config.toml" = Some (str_bytes "version = 1") ∨
  Fs_files w' !! backup_path store (Some 17%Z) 42 = Some (str_bytes "version = 1").
Proof.
  pose proof (repair_keeps_document no_tls store (Some 17%Z) 42 torn (str_bytes "version = 1")
    ltac:(constructor) eq_refl) as Hr.
  destruct (repair no_tls store (Some 17%Z) 42 torn) as [r w']. exact (proj1 Hr).
Defined.

Definition quiet_night : rstring * rstring := (str_bytes "MESHQUILL_HISTORY_ENABLED", str_bytes "On").
Definition slow_link : rstring * rstring := (str_bytes "MESHQUILL_TIMEOUT_REQUEST_MS", str_bytes "9000").

Lemma overrides_any_order_witness :
  same_result (apply_env_overrides demo [quiet_night; slow_link]) (apply_env_overrides demo [slow_link; quiet_night]).
Proof.
  apply overrides_any_order; [constructor|]. apply (bool_decide_unpack _). vm_compute. reflexivity.
Defined.

Lemma profile_selection_witness : Config_device_profiles demo !! str_bytes "base" = Some base ∧
  DeviceProfile_validate base = Ok ().
Proof.
  destruct (profile_selection no_tls demo None eq_refl) as (Hl & _ & Hv & _). split; [exact Hl|exact Hv].
Defined.

Lemma digest_input_normalized_witness :
  digest_input (str_bytes "/etc/./mq/../mesh/config.toml") = digest_input (str_bytes "/etc/mesh/config.toml").
Proof.
  apply digest_input_normalized; [..|reflexivity]; repeat constructor; vm_compute; discriminate || reflexivity.
Defined.

Lemma history_paths_confined_witness :
  components (str_bytes "/data/history/base.jsonl") =
    components (str_bytes "/data") ++ [Normal (str_bytes "history"); Normal (str_bytes "base.jsonl")].
Proof.
  destruct (history_paths_confined (str_bytes "/data") (str_bytes "/etc/mesh/config.toml") false
    (str_bytes "base") (str_bytes "home")
    (mkHistoryPaths (str_bytes "/data/history/base.jsonl") (str_bytes "/etc/mesh/history/base.jsonl"))
    (mkHistoryPaths (str_bytes "/data/history/home.jsonl") (str_bytes "/etc/mesh/history/home.jsonl")))
    as (Hc & _ & _).
  - vm_compute. reflexivity.
  - vm_compute. reflexivity.
  - exact Hc.
Defined.
