(* ===== verification/CliOutput.v ===== *)
(** * Command line: exit statuses, errors, output and input (crates/meshquill-cli/src)

    error.rs, output.rs, input.rs and the end of lib.rs: the stable exit statuses,
    how every error of the libraries becomes a sanitized diagnostic with one of
    them, the writer that keeps the three output contracts apart and control
    characters off the terminal, and the bounded line reader. *)

From S2P Require Import Prelude Text Domain Discovery Hooks Store.

(** ** [ExitStatus] *)

Inductive ExitStatus :=
| Exit_Success | Exit_Usage | Exit_Configuration | Exit_Discovery | Exit_Connection | Exit_Protocol
| Exit_Timeout | Exit_Authentication | Exit_Denied | Exit_NotFound | Exit_Hook | Exit_Mqtt
| Exit_Interrupted.
#[global] Instance ExitStatus_eq_dec : EqDecision ExitStatus.
Proof. solve_decision. Defined.

(** [ExitStatus::process]: the discriminant. *)
Definition ExitStatus_process (self : ExitStatus) : u8 :=
  match self with
  | Exit_Success => 0 | Exit_Usage => 2 | Exit_Configuration => 3 | Exit_Discovery => 4
  | Exit_Connection => 5 | Exit_Protocol => 6 | Exit_Timeout => 7 | Exit_Authentication => 8
  | Exit_Denied => 9 | Exit_NotFound => 10 | Exit_Hook => 11 | Exit_Mqtt => 12
  | Exit_Interrupted => 130
  end%Z.

(** ** [CliError] *)

Record CliError := mkCliError {
  CliError_status : ExitStatus;
  CliError_message : string;
  CliError_hint : option string
}.
#[global] Instance CliError_eq_dec : EqDecision CliError.
Proof. solve_decision. Defined.

Definition CliError_new (status : ExitStatus) (message : string) : CliError :=
  mkCliError status message None.
Definition with_hint (self : CliError) (hint : string) : CliError :=
  mkCliError (CliError_status self) (CliError_message self) (Some hint).

Definition CliError_unsupported (area : string) : CliError :=
  with_hint (CliError_new Exit_Denied (area +:+ " is not supported by this Meshquill build"))
    "No device change was attempted.".

(** [From<CoreError>]. *)
Definition cli_of_core (error : CoreError) : CliError :=
  match error with
  | CoreError_Timeout | CoreError_Transport TransportError_Timeout =>
      with_hint (CliError_new Exit_Timeout "the bounded device operation timed out")
        "Check the selected profile and try a longer configured timeout."
  | CoreError_Transport (TransportError_NotConnected | TransportError_Closed
      | TransportError_ReconnectUnsupported | TransportError_ReconnectFailed _)
  | CoreError_Disconnected | CoreError_ActorStopped =>
      with_hint (CliError_new Exit_Connection "the companion connection is unavailable")
        "Check the profile endpoint and whether another application owns it."
  | CoreError_Transport (TransportError_Io _) =>
      with_hint (CliError_new Exit_Connection
                   "transport I/O failed while communicating with the companion")
        "Check device presence, endpoint reachability, and OS access."
  | CoreError_Transport (TransportError_Backpressure queue capacity) =>
      CliError_new Exit_Protocol
        ("bounded transport queue '" +:+ queue +:+ "' is full (capacity " +:+ pretty capacity +:+ ")")
  | CoreError_Transport (TransportError_PayloadTooLarge maximum actual) =>
      CliError_new Exit_Usage
        ("payload is " +:+ pretty actual +:+ " bytes; the transport maximum is " +:+ pretty maximum)
  | CoreError_Parse _ | CoreError_ProtocolInvariant _ | CoreError_InvalidUtf8 _ =>
      with_hint (CliError_new Exit_Protocol
                   "the companion returned data that violates the supported protocol")
        "Run `meshquill doctor --connect` and check firmware compatibility."
  | CoreError_InvalidArgument field message =>
      CliError_new Exit_Usage ("invalid " +:+ field +:+ ": " +:+ message)
  | CoreError_DeviceRejected operation code =>
      let code := from_option pretty "unspecified" code in
      CliError_new Exit_Denied ("the companion rejected " +:+ operation +:+ " (code " +:+ code +:+ ")")
  | CoreError_FeatureDisabled feature =>
      CliError_new Exit_Denied ("the companion reports that " +:+ feature +:+ " is disabled")
  | CoreError_AuthenticationFailed =>
      with_hint (CliError_new Exit_Authentication "remote authentication failed")
        "Verify the target and credential source before retrying."
  end.

(** [From<StoreError>]. *)
Definition cli_of_store (error : StoreError) : CliError :=
  match error with
  | StoreError_Parse path _ =>
      with_hint (CliError_new Exit_Configuration ("configuration at " +:+ path +:+ " is malformed"))
        "Run `meshquill config repair` to create a backup and recover defaults."
  | StoreError_UnsupportedVersion version =>
      with_hint (CliError_new Exit_Configuration
                   ("configuration schema version " +:+ pretty version +:+ " is unsupported"))
        "Upgrade Meshquill or restore a compatible configuration backup."
  | StoreError_Validation field message =>
      CliError_new Exit_Configuration ("invalid configuration field " +:+ field +:+ ": " +:+ message)
  | StoreError_MissingRuntimePath _ _ =>
      with_hint (CliError_new Exit_Configuration
                   "the platform configuration directory could not be resolved")
        "Set --config (or MESHQUILL_CONFIG) to an explicit file path."
  | StoreError_LockTimeout path =>
      with_hint (CliError_new Exit_Configuration ("another process is still updating " +:+ path))
        "Wait for the other Meshquill process to finish, then retry."
  | StoreError_PromptRequired =>
      CliError_new Exit_Authentication "a credential requires an interactive prompt"
  | StoreError_SecretUnavailable backend _ =>
      CliError_new Exit_Authentication ("credential resolution through " +:+ backend +:+ " failed")
  | StoreError_Io _ | StoreError_AtomicRename _ _ | StoreError_Serde _ =>
      with_hint (CliError_new Exit_Configuration "configuration could not be read or written safely")
        "Check the selected path and its directory permissions."
  end.

(** [HookError]'s [Display]: a rejection keeps its reason to itself. *)
Definition debug_StreamKind (stream : StreamKind) : string :=
  match stream with Stdin => "Stdin" | Stdout => "Stdout" | Stderr => "Stderr" end.
Definition debug_ModificationField (field : ModificationField) : string :=
  match field with
  | Field_Destination => "Destination" | Field_Text => "Text" | Field_RejectionReason => "RejectionReason"
  end.
Definition debug_ModificationIssue (issue : ModificationIssue) : string :=
  match issue with
  | Modification_Empty => "Empty" | Modification_TooLarge => "TooLarge"
  | Modification_ContainsNul => "ContainsNul"
  end.

Definition display_ProcessError (error : ProcessError) : string :=
  match error with
  | Process_Spawn kind => "could not start configured Python executable (" +:+ debug_IoErrorKind kind +:+ ")"
  | Process_MissingPipe stream =>
      "Python subprocess did not expose its " +:+ debug_StreamKind stream +:+ " pipe"
  | Process_StreamIo stream kind =>
      "Python subprocess " +:+ debug_StreamKind stream +:+ " I/O failed ("
        +:+ debug_IoErrorKind kind +:+ ")"
  | Process_StreamTask stream =>
      "Python subprocess " +:+ debug_StreamKind stream +:+ " reader stopped unexpectedly"
  | Process_CoordinatorStopped => "hook subprocess coordinator stopped unexpectedly"
  | Process_Wait kind => "could not wait for Python subprocess (" +:+ debug_IoErrorKind kind +:+ ")"
  | Process_UnsuccessfulExit code stderr_bytes =>
      "Python subprocess exited unsuccessfully (code " +:+ debug_option code +:+ ", "
        +:+ pretty stderr_bytes +:+ " stderr bytes discarded)"
  end.

Definition display_ProtocolError (error : ProtocolError) : string :=
  match error with
  | Protocol_InputTooLarge observed_at_least maximum =>
      "hook protocol input exceeded its " +:+ pretty maximum +:+ "-byte cap (observed at least "
        +:+ pretty observed_at_least +:+ " bytes)"
  | Protocol_OutputTooLarge stream maximum =>
      "hook subprocess " +:+ debug_StreamKind stream +:+ " exceeded its " +:+ pretty maximum
        +:+ "-byte cap"
  | Protocol_RequestEncoding => "hook protocol request could not be encoded"
  | Protocol_MalformedOutput => "hook subprocess produced malformed protocol output"
  | Protocol_SchemaMismatch => "hook subprocess returned an unsupported protocol schema"
  | Protocol_UnexpectedResponse => "hook subprocess returned an unexpected protocol response"
  | Protocol_HandlerFailed => "hook handler failed"
  | Protocol_RunnerRejected => "hook bootstrap rejected protocol data"
  | Protocol_InvalidModification field issue =>
      "hook modification for " +:+ debug_ModificationField field +:+ " is invalid ("
        +:+ debug_ModificationIssue issue +:+ ")"
  end.

Definition display_HookError (error : HookError) : string :=
  match error with
  | HookError_Configuration error => display_ConfigurationError error
  | HookError_Timeout timeout => "hook execution exceeded its " +:+ debug_Duration timeout +:+ " timeout"
  | HookError_Rejected _ => "outbound message rejected by hook"
  | HookError_Process error => display_ProcessError error
  | HookError_Protocol error => display_ProtocolError error
  end.

(** [From<HookError>]. *)
Definition cli_of_hook (error : HookError) : CliError :=
  CliError_new Exit_Hook (display_HookError error).

(** ** [OutputWriter] *)

Inductive OutputMode := Output_Human | Output_Json | Output_Jsonl.
#[global] Instance OutputMode_eq_dec : EqDecision OutputMode.
Proof. solve_decision. Defined.

Inductive OutputError :=
| OutputError_JsonForStream
| OutputError_JsonlForSingleResult
| OutputError_MachineModeForRaw
| OutputError_Io (error : IoError)
| OutputError_Json (message : string).

Definition display_OutputError (error : OutputError) : string :=
  match error with
  | OutputError_JsonForStream => "streaming commands require --output jsonl (or human)"
  | OutputError_JsonlForSingleResult => "single-result commands require --output json (or human)"
  | OutputError_MachineModeForRaw => "this artifact requires --output human"
  | OutputError_Io error => "could not write command output: " +:+ IoError_message error
  | OutputError_Json message => "could not serialize command output: " +:+ message
  end.

(** [From<OutputError>]: a reader that went away is no failure. *)
Definition cli_of_output (error : OutputError) : CliError :=
  match error with
  | OutputError_JsonForStream | OutputError_JsonlForSingleResult | OutputError_MachineModeForRaw =>
      CliError_new Exit_Usage (display_OutputError error)
  | OutputError_Io io_error =>
      if bool_decide (IoError_kind io_error = BrokenPipe) then CliError_new Exit_Success "stdout was closed"
      else CliError_new Exit_Protocol "could not write command output"
  | OutputError_Json _ => CliError_new Exit_Protocol "could not encode command output"
  end.

(** Standard output: what reached it, and for each later call of [Write] whether it
    fails, and after how many of its bytes. *)
Record Sink := mkSink { Sink_written : bytes; Sink_faults : list (option (nat * IoError)) }.

Definition writes (A : Type) : Type := Sink → outcome OutputError A * Sink.
#[global] Instance writes_ret : MRet writes := fun A a s => (Ok a, s).
#[global] Instance writes_bind : MBind writes := fun A B f m s =>
  match m s with
  | (Ok a, s) => f a s
  | (Err e, s) => (Err e, s)
  | (Panic, s) => (Panic, s)
  end.
Definition writes_fail {A} (e : OutputError) : writes A := λ s, (Err e, s).

(** [write_all], and [flush], which writes nothing here. *)
Definition write_all (text : bytes) : writes () := λ s,
  match Sink_faults s with
  | Some (n, e) :: faults => (Err (OutputError_Io e), mkSink (Sink_written s ++ take n text) faults)
  | None :: faults => (Ok (), mkSink (Sink_written s ++ text) faults)
  | [] => (Ok (), mkSink (Sink_written s ++ text) [])
  end.
Definition flush : writes () := write_all [].

Fixpoint write_each (texts : list bytes) : writes () :=
  match texts with
  | [] => mret ()
  | text :: texts => _ ← write_all text; write_each texts
  end.

(** What is written for a character: itself, or its escape, character by
    character. *)
Definition safe_char (c : Z) : bool := (c =? 0x0a)%Z || (c =? 0x09)%Z || negb (is_control c).
Definition terminal_chars (c : Z) : list Z := if safe_char c then [c] else escape_default c.

Definition write_terminal_safe (value : rstring) : writes () :=
  write_each (encode_utf8 <$> (chars value ≫= terminal_chars)).

(** [terminal_safe] of the commands, which escapes line breaks too. *)
Definition terminal_safe (value : rstring) : rstring :=
  of_chars (chars value ≫= λ c, if is_control c then escape_default c else [c]).

Definition CLI_SCHEMA : string := "meshquill.cli/v1".

(** [serde_json] of an [Envelope] around a value that can be serialized: the pieces
    it writes, or its own error. *)
Class CliJson := envelope_pieces : ∀ T : Type, string → string → T → outcome string (list bytes).

Section writer.
Context `{CliJson} {T : Type}.

(** [serde_json::to_writer]: an error of the writer becomes an error of the
    serializer. *)
Definition to_writer (record_type : string) (data : T) : writes () := λ s,
  match envelope_pieces T CLI_SCHEMA record_type data with
  | Ok pieces =>
      match write_each pieces s with
      | (Err (OutputError_Io e), s) => (Err (OutputError_Json (IoError_message e)), s)
      | r => r
      end
  | Err message => (Err (OutputError_Json message), s)
  | Panic => (Panic, s)
  end.

Definition write_human (human : rstring) : writes () :=
  _ ← write_terminal_safe human;
  write_all [0x0a%Z].
Definition write_machine (record_type : string) (data : T) : writes () :=
  _ ← to_writer record_type data;
  write_all [0x0a%Z].

Definition Writer_result (mode : OutputMode) (record_type : string) (data : T) (human : rstring) :
    writes () :=
  _ ← match mode with
      | Output_Human => write_human human
      | Output_Json => write_machine record_type data
      | Output_Jsonl => writes_fail OutputError_JsonlForSingleResult
      end;
  flush.

Definition Writer_event (mode : OutputMode) (record_type : string) (data : T) (human : rstring) :
    writes () :=
  _ ← match mode with
      | Output_Human => write_human human
      | Output_Jsonl => write_machine record_type data
      | Output_Json => writes_fail OutputError_JsonForStream
      end;
  flush.

Definition Writer_raw (mode : OutputMode) (raw : bytes) : writes () :=
  if negb (bool_decide (mode = Output_Human)) then writes_fail OutputError_MachineModeForRaw
  else _ ← write_all raw; flush.
End writer.

(** ** The end of a run *)

(** [run]: the exit status of what [dispatch] returned, and the diagnostics. *)
Definition run_end (result : outcome CliError ()) : outcome () (ExitStatus * list string) :=
  match result with
  | Ok () => Ok (Exit_Success, [])
  | Err error =>
      if bool_decide (CliError_status error = Exit_Success) then Ok (Exit_Success, [])
      else Ok (CliError_status error,
               ("error: " +:+ CliError_message error)
               :: match CliError_hint error with Some hint => ["hint: " +:+ hint] | None => [] end)
  | Panic => Panic
  end.

(** ** Lines of input *)

Definition MAX_INTERACTIVE_LINE_BYTES : nat := 4096.

(** A buffered input: what is still to be read, and an error of the next read,
    by whether its kind is [Interrupted]. *)
Record Input := mkInput { Input_pending : bytes; Input_error : option bool }.

(** [read_until(b'\n')] on the first [bound] bytes: up to and with the newline. *)
Fixpoint read_until (bound : nat) (pending : bytes) : bytes * bytes :=
  match bound, pending with
  | S bound, b :: pending =>
      if (b =? 0x0a)%Z then ([b], pending)
      else let '(line, rest) := read_until bound pending in (b :: line, rest)
  | _, _ => ([], pending)
  end.

Definition read_bounded_line (context : string) (input : Input) :
    outcome CliError (option rstring) * Input :=
  match Input_error input with
  | Some true =>
      (Err (CliError_new Exit_Interrupted (context +:+ " was interrupted")), mkInput (Input_pending input) None)
  | Some false =>
      (Err (CliError_new Exit_Protocol ("could not read " +:+ context)), mkInput (Input_pending input) None)
  | None =>
      let '(bytes, rest) := read_until (MAX_INTERACTIVE_LINE_BYTES + 3) (Input_pending input) in
      (if bool_decide (bytes = []) then Ok None
       else
         let bytes := strip_line_ending bytes in
         if (MAX_INTERACTIVE_LINE_BYTES <? length bytes)%nat then
           Err (CliError_new Exit_Usage (context +:+ " exceeds the " +:+ pretty MAX_INTERACTIVE_LINE_BYTES
                                          +:+ "-byte input bound"))
         else
           Some <$> ok_or (from_utf8 bytes) (CliError_new Exit_Usage (context +:+ " must be valid UTF-8")),
       mkInput rest None)
  end.

(** ** What reaches the terminal *)

Definition printable (c : Z) : Prop := (0x20 <= c <= 0x7e)%Z.
#[global] Instance printable_dec c : Decision (printable c).
Proof. unfold printable. apply _. Defined.

(** Escapes are printable ASCII. *)
Lemma escape_control c : is_control c = true → Forall printable (escape_default c).
Proof.
  intros Hc.
  assert (Forall (λ c, Forall printable (escape_default c)) (seqZ 0 32 ++ seqZ 127 33)) as Hall.
  { apply (bool_decide_unpack _). vm_compute. exact I. }
  rewrite Forall_forall in Hall. apply Hall. rewrite elem_of_app, !elem_of_seqZ.
  unfold is_control, in_range in Hc. lia.
Qed.

Lemma printable_scalar c : printable c → is_scalar c.
Proof. unfold printable, is_scalar. lia. Qed.
Lemma printable_not_control c : printable c → is_control c = false.
Proof. unfold printable, is_control, in_range. lia. Qed.

Lemma terminal_chars_safe c d : is_scalar c → d ∈ terminal_chars c → is_scalar d ∧ safe_char d = true.
Proof.
  intros Hc. unfold terminal_chars. destruct (safe_char c) eqn:Hs.
  - intros ->%list_elem_of_singleton. done.
  - intros Hd. assert (is_control c = true) as Hctl.
    { unfold safe_char in Hs. destruct (is_control c); [done|]. simpl in Hs. lia. }
    pose proof (proj1 (Forall_forall _ _) (escape_control c Hctl) d Hd) as Hp.
    split; [by apply printable_scalar|]. unfold safe_char. by rewrite printable_not_control, orb_true_r.
Qed.

(** The text a human reads, as it is written. *)
Definition terminal_text (value : rstring) : rstring := of_chars (chars value ≫= terminal_chars).

Lemma terminal_text_safe value : is_rstring value →
  is_rstring (terminal_text value) ∧ Forall (λ c, safe_char c = true) (chars (terminal_text value)).
Proof.
  intros Hv%chars_scalar.
  assert (Forall (λ d, is_scalar d ∧ safe_char d = true) (chars value ≫= terminal_chars)) as Hall.
  { apply Forall_forall. intros d (c & Hd & Hc)%list_elem_of_bind.
    apply (terminal_chars_safe c); [|done]. by eapply Forall_forall in Hv. }
  apply Forall_and in Hall as [Hsc Hsafe]. unfold terminal_text. split; [by apply of_chars_rstring|].
  by rewrite chars_of_chars_nil.
Qed.

Lemma terminal_text_plain value : is_rstring value → Forall (λ c, safe_char c = true) (chars value) →
  terminal_text value = value.
Proof.
  intros Hv Hsafe. unfold terminal_text. rewrite <- (of_chars_chars value) at 2 by done. f_equal.
  induction Hsafe as [|c cs Hc _ IH]; [done|]. simpl. unfold terminal_chars at 1. rewrite Hc. simpl. by f_equal.
Qed.

(** A run of writes leaves a prefix of the text, and the whole of it when it
    succeeds; without faults it succeeds. *)
Definition writes_text (m : writes ()) (text : bytes) : Prop := ∀ s,
  ∃ done_, Sink_written (m s).2 = Sink_written s ++ done_ ∧ done_ `prefix_of` text ∧
    ((m s).1 = Ok () → done_ = text) ∧ (m s).1 ≠ Panic ∧
    (Sink_faults s = [] → (m s).1 = Ok () ∧ Sink_faults (m s).2 = []).

Lemma write_all_text text : writes_text (write_all text) text.
Proof.
  intros s. unfold write_all. destruct (Sink_faults s) as [|[[n e]|] faults]; simpl.
  - by exists text.
  - exists (take n text). repeat split; try done. apply prefix_take.
  - by exists text.
Qed.

Lemma writes_text_bind m1 m2 t1 t2 :
  writes_text m1 t1 → writes_text m2 t2 → writes_text (m1 ≫= λ _, m2) (t1 ++ t2).
Proof.
  intros H1 H2 s. destruct (H1 s) as (d1 & Hw1 & Hp1 & Hok1 & Hn1 & Hf1).
  unfold mbind, writes_bind. destruct (m1 s) as [[[]|e|] s1] eqn:E; simpl in *; [| |done].
  - rewrite (Hok1 eq_refl) in *. destruct (H2 s1) as (d2 & Hw2 & Hp2 & Hok2 & Hn2 & Hf2).
    exists (t1 ++ d2). split; [by rewrite Hw2, Hw1, app_assoc|].
    split; [by apply prefix_app|]. split; [by intros ->%Hok2|]. split; [done|].
    intros [_ ?]%Hf1. auto.
  - exists d1. split; [done|]. split; [by apply prefix_app_r|]. split; [done|]. split; [done|].
    intros [? _]%Hf1. done.
Qed.

Lemma write_each_text texts : writes_text (write_each texts) (concat texts).
Proof.
  induction texts as [|t ts IH].
  - intros s. exists []. simpl. rewrite app_nil_r. by repeat split.
  - simpl. apply writes_text_bind; [apply write_all_text|done].
Qed.

Lemma write_terminal_safe_text value : writes_text (write_terminal_safe value) (terminal_text value).
Proof.
  unfold write_terminal_safe, terminal_text, of_chars.
  assert (∀ l : list Z, l ≫= encode_utf8 = concat (encode_utf8 <$> l)) as Hcc.
  { induction l as [|c l IH]; [done|]. by rewrite bind_cons, fmap_cons, IH. }
  rewrite Hcc. apply write_each_text.
Qed.

(** C38: the output writer lets no escape sequence through.  Whatever text a result or an
    event has in the human mode, in particular names and messages received from the
    network, what the writer puts on standard output is a prefix of the same text with
    every control character other than newline and tab escaped, followed by a newline;
    plain text is unchanged, and the writer reports success only when all of it was
    written.  (The question [confirm] asks on standard error does not go through the
    writer, and is not escaped.) *)
Theorem human_output_safe `{CliJson} {T} record_type (data : T) human s : is_rstring human →
  let r := Writer_result Output_Human record_type data human s in
  Writer_event Output_Human record_type data human s = r ∧
  is_rstring (terminal_text human) ∧
  Forall (λ c, c = 0x0a ∨ c = 0x09 ∨ is_control c = false)%Z (chars (terminal_text human)) ∧
  (Forall (λ c, is_control c = false) (chars human) → terminal_text human = human) ∧
  ∃ out, Sink_written r.2 = Sink_written s ++ out ∧
    out `prefix_of` terminal_text human ++ [0x0a%Z] ∧
    (r.1 = Ok () → out = terminal_text human ++ [0x0a%Z]) ∧
    (Sink_faults s = [] → r.1 = Ok ()).
Proof.
  intros Hh r. destruct (terminal_text_safe human Hh) as [Hr Hs]. split_and!; [done|done| | |].
  - eapply Forall_impl; [apply Hs|]. unfold safe_char. simpl. intros c Hc.
    destruct (is_control c); simpl in Hc; [|auto]. lia.
  - intros Hp. apply terminal_text_plain; [done|]. eapply Forall_impl; [apply Hp|].
    simpl. intros c Hc. unfold safe_char. by rewrite Hc, orb_true_r.
  - assert (writes_text (Writer_result Output_Human record_type data human)
              ((terminal_text human ++ [0x0a%Z]) ++ [])) as Ht.
    { apply writes_text_bind; [apply writes_text_bind|]; [apply write_terminal_safe_text|..];
        apply write_all_text. }
    rewrite app_nil_r in Ht. destruct (Ht s) as (d & Hw & Hp & Hok & _ & Hf).
    exists d. split_and!; [done|done|done|]. intros [? _]%Hf. done.
Qed.

#[local] Instance sample_json : CliJson := λ _ _ _ _, Ok [str_bytes "{}"].

(** A name with a colour escape: it is shown, not obeyed. *)
Lemma human_output_safe_witness :
  let human := str_bytes "name" ++ [0x1b; 0x5b]%Z ++ str_bytes "31m" in
  let r := Writer_result Output_Human "contact" () human (mkSink [] []) in
  Sink_written r.2 = str_bytes "name\u{1b}[31m" ++ [0x0a%Z] ∧ r.1 = Ok () ∧
  Forall (λ c, c = 0x0a ∨ c = 0x09 ∨ is_control c = false)%Z (chars (terminal_text human)).
Proof.
  intros human r. assert (is_rstring human) as Hh by (apply (bool_decide_unpack _); vm_compute; exact I).
  destruct (human_output_safe "contact" () human (mkSink [] []) Hh) as (_ & _ & Hc & _ & out & Hw & _ & Hok & Hf).
  split_and!; [|by apply Hf|done]. fold r in Hw, Hok, Hf. rewrite Hw, (Hok (Hf eq_refl)). vm_compute. reflexivity.
Defined.

(** A closed pipe ends a command quietly, unless it is noticed while the JSON
    itself is written. *)
Lemma broken_pipe_status `{CliJson} {T} record_type (data : T) human n message written :
  let gone := mkIoError BrokenPipe message in
  let s := mkSink written [Some (n, gone)] in
  (∀ e, (Writer_result Output_Human record_type data human s).1 = Err e →
        CliError_status (cli_of_output e) = Exit_Success) ∧
  (∀ piece pieces e, envelope_pieces T CLI_SCHEMA record_type data = Ok (piece :: pieces) →
        (Writer_result Output_Json record_type data human s).1 = Err e →
        CliError_status (cli_of_output e) = Exit_Protocol).
Proof.
  intros gone s. split.
  - intros e. unfold Writer_result, write_human, write_terminal_safe, mbind, writes_bind.
    destruct (encode_utf8 <$> _) as [|t ts]; simpl; by intros [= <-].
  - intros piece pieces e Hp. unfold Writer_result, write_machine, to_writer, mbind, writes_bind.
    rewrite Hp. simpl. by intros [= <-].
Qed.

(** A line that is read is bounded, is text, and is followed by its line ending. *)
Lemma read_until_spec bound pending :
  let r := read_until bound pending in
  pending = r.1 ++ r.2 ∧ length r.1 ≤ bound.
Proof.
  revert pending. induction bound as [|bound IH]; intros [|b pending]; simpl; try (split; [done|lia]).
  destruct (b =? 0x0a)%Z; simpl; [split; [done|lia]|].
  specialize (IH pending). destruct (read_until bound pending) as [line rest]. simpl in *.
  destruct IH as [-> ?]. split; [done|lia].
Qed.

Lemma strip_line_ending_spec line :
  ∃ ending, line = strip_line_ending line ++ ending ∧ ending ∈ [[]; [0x0a]; [0x0d; 0x0a]]%Z.
Proof.
  unfold strip_line_ending. case_bool_decide as Hn; [|exists []; rewrite app_nil_r; set_solver].
  apply last_Some in Hn as [l ->]. rewrite removelast_last.
  case_bool_decide as Hr; [|exists [0x0a%Z]; set_solver].
  apply last_Some in Hr as [l' ->]. rewrite removelast_last.
  exists [0x0d; 0x0a]%Z. rewrite <- app_assoc. set_solver.
Qed.

Lemma read_bounded_line_ok context input line input' :
  read_bounded_line context input = (Ok (Some line), input') →
  length line ≤ MAX_INTERACTIVE_LINE_BYTES ∧ utf8_valid line = true ∧
  ∃ ending, Input_pending input = line ++ ending ++ Input_pending input' ∧
    ending ∈ [[]; [0x0a]; [0x0d; 0x0a]]%Z.
Proof.
  unfold read_bounded_line. destruct (Input_error input) as [[]|]; [done..|].
  pose proof (read_until_spec (MAX_INTERACTIVE_LINE_BYTES + 3) (Input_pending input)) as [Hp _].
  destruct (read_until _ _) as [raw rest]. simpl in Hp. case_bool_decide; [done|].
  destruct (strip_line_ending_spec raw) as (ending & Hraw & Hin).
  destruct (Nat.ltb_spec MAX_INTERACTIVE_LINE_BYTES (length (strip_line_ending raw))); [done|].
  unfold from_utf8. destruct (utf8_valid (strip_line_ending raw)) eqn:Hu; simpl; [|done].
  intros [= <- <-]. split_and!; [done|done|]. exists ending. split; [|done].
  simpl. by rewrite app_assoc, <- Hraw.
Qed.
