(* ===== verification/CliArgs.v ===== *)
(** * Command line: the parsed arguments (crates/meshquill-cli/src/args.rs)

    The grammar as [clap] leaves it: the global options and one command.  Paths and
    texts are byte strings, durations nanoseconds; the shell of [completions] is
    given by its name.  [humantime] and [clap]'s parser are parameters where they
    are used. *)

From S2P Require Import Prelude Text Domain CliOutput.

Inductive ColorMode := Color_Auto | Color_Always | Color_Never.
Inductive MqttProtocolChoice := Protocol_V311 | Protocol_V5.
Inductive MqttQosChoice := Qos_AtMostOnce | Qos_AtLeastOnce | Qos_ExactlyOnce.
Inductive TransportChoice := Choice_Ble | Choice_Serial | Choice_Tcp | Choice_Mock.
Inductive ContactKind := Kind_Client | Kind_Repeater | Kind_Room | Kind_Sensor.
Inductive WatchEvent :=
| Watch_Message | Watch_Ack | Watch_Contact | Watch_Connection | Watch_Telemetry | Watch_Error.
Inductive NeighbourOrderChoice := Order_Newest | Order_Oldest | Order_Strongest | Order_Weakest.

#[global] Instance ColorMode_eq_dec : EqDecision ColorMode.
Proof. solve_decision. Defined.
#[global] Instance TransportChoice_eq_dec : EqDecision TransportChoice.
Proof. solve_decision. Defined.
#[global] Instance ContactKind_eq_dec : EqDecision ContactKind.
Proof. solve_decision. Defined.
#[global] Instance WatchEvent_eq_dec : EqDecision WatchEvent.
Proof. solve_decision. Defined.

Record InitArgs := mkInitArgs {
  Init_name : option rstring;
  Init_ble : option rstring;
  Init_serial : option rstring;
  Init_tcp : option rstring;
  Init_demo : bool;
  Init_set_default : bool
}.

Record ProfileReconfigureArgs := mkReconfigureArgs {
  Reconfigure_name : rstring;
  Reconfigure_ble : option rstring;
  Reconfigure_serial : option rstring;
  Reconfigure_tcp : option rstring;
  Reconfigure_demo : bool
}.

Inductive ProfileCommand :=
| Profile_List
| Profile_Reconfigure (args : ProfileReconfigureArgs)
| Profile_Rename (old new : rstring)
| Profile_Delete (name : rstring)
| Profile_SetDefault (name : rstring).

Record DevicesArgs := mkDevicesArgs {
  Devices_transport : option TransportChoice;
  Devices_scan_timeout : Z
}.
Record ConnectArgs := mkConnectArgs { Connect_watch : bool }.
Record DoctorArgs := mkDoctorArgs { Doctor_connect : bool; Doctor_repair : bool }.
Record DeviceClockArgs := mkDeviceClockArgs { DeviceClock_sync : bool }.
Record DeviceAdvertiseArgs := mkDeviceAdvertiseArgs {
  Advertise_flood : bool;
  Advertise_scope : option rstring
}.

Inductive DeviceCommand :=
| Device_Info
| Device_Firmware
| Device_Telemetry
| Device_Clock (args : DeviceClockArgs)
| Device_Advertise (args : DeviceAdvertiseArgs)
| Device_Reboot.

Record ContactUpdateArgs := mkContactUpdateArgs {
  ContactUpdate_contact : rstring;
  ContactUpdate_name : option rstring;
  ContactUpdate_favorite : option bool
}.

Inductive ContactPathCommand :=
| ContactPath_Show (contact : rstring)
| ContactPath_Discover (contact : rstring)
| ContactPath_Reset (contact : rstring)
| ContactPath_Set (contact path : rstring).

Inductive PendingContactCommand :=
| Pending_List
| Pending_Accept (contact : rstring)
| Pending_Clear.

Inductive ContactCommand :=
| ContactCommand_Show (contact : rstring)
| ContactCommand_Update (args : ContactUpdateArgs)
| ContactCommand_Forget (contact : rstring)
| ContactCommand_Path (command : ContactPathCommand)
| ContactCommand_Export (contact : rstring)
| ContactCommand_Import (uri : rstring)
| ContactCommand_Pending (command : PendingContactCommand).

Record ContactsArgs := mkContactsArgs {
  Contacts_command : option ContactCommand;
  Contacts_search : option rstring;
  Contacts_kind : option ContactKind;
  Contacts_refresh : bool
}.

Record SendArgs := mkSendArgs {
  Send_destination : rstring;
  Send_message : rstring;
  Send_channel : bool;
  Send_wait : bool;
  Send_scope : option rstring
}.
Record InboxArgs := mkInboxArgs { Inbox_limit : option usize }.
Inductive HistoryCommand :=
| HistoryCommand_List (limit : option usize)
| HistoryCommand_Clear.
Record WatchArgs := mkWatchArgs { Watch_events : list WatchEvent; Watch_count : option usize }.
Record ChatArgs := mkChatArgs { Chat_destination : option rstring; Chat_line : bool }.

Record ChannelSetArgs := mkChannelSetArgs {
  ChannelSet_channel : u8;
  ChannelSet_name : rstring;
  ChannelSet_secret_file : option bytes
}.
Inductive ChannelCommand :=
| Channel_List
| Channel_Show (channel : rstring)
| Channel_Set (args : ChannelSetArgs)
| Channel_Remove (channel : rstring).

Record RemoteRunArgs := mkRemoteRunArgs {
  RemoteRun_contact : rstring;
  RemoteRun_command : rstring;
  RemoteRun_destructive : bool
}.
Record RemoteNeighboursArgs := mkRemoteNeighboursArgs {
  Neighbours_contact : rstring;
  Neighbours_count : u8;
  Neighbours_offset : u16;
  Neighbours_order : NeighbourOrderChoice;
  Neighbours_prefix_length : u8
}.
Record RemoteClockArgs := mkRemoteClockArgs { RemoteClock_contact : rstring; RemoteClock_sync : bool }.
Inductive RemoteCommand :=
| Remote_Login (contact : rstring) (password_stdin save : bool)
| Remote_Logout (contact : rstring)
| Remote_Run (args : RemoteRunArgs)
| Remote_Status (contact : rstring)
| Remote_Neighbours (args : RemoteNeighboursArgs)
| Remote_Regions (contact : rstring)
| Remote_Owner (contact : rstring)
| Remote_Clock (args : RemoteClockArgs)
| Remote_CredentialsForget (contact : rstring).

Record SensorSummaryArgs := mkSensorSummaryArgs {
  SensorSummary_contact : rstring;
  SensorSummary_start_secs_ago : u32;
  SensorSummary_end_secs_ago : u32
}.
Inductive SensorCommand :=
| Sensor_Telemetry (contact : rstring)
| Sensor_Summary (args : SensorSummaryArgs)
| Sensor_Acl (contact : rstring).

Record NetworkDiscoverArgs := mkNetworkDiscoverArgs {
  NetworkDiscover_kind : option ContactKind;
  NetworkDiscover_scope : option rstring
}.
Record NetworkTraceArgs := mkNetworkTraceArgs {
  NetworkTrace_target : rstring;
  NetworkTrace_hash_bytes : option u8
}.
Record NetworkScopeArgs := mkNetworkScopeArgs {
  NetworkScope_scope : option rstring;
  NetworkScope_set_default : bool
}.
Inductive NetworkCommand :=
| Network_Discover (args : NetworkDiscoverArgs)
| Network_Trace (args : NetworkTraceArgs)
| Network_Scope (args : NetworkScopeArgs).

Record BatchContactsArgs := mkBatchContactsArgs {
  BatchContacts_filter : rstring;
  BatchContacts_operation : rstring;
  BatchContacts_dry_run : bool
}.
Inductive BatchCommand :=
| Batch_Run (file : bytes)
| Batch_Contacts (args : BatchContactsArgs).

Inductive ConfigCommand :=
| Config_Show
| Config_Migrate
| Config_Repair
| Config_ImportLegacy (path : option bytes).

Inductive HooksCommand :=
| Hooks_Validate (path : option bytes)
| Hooks_Test (event : rstring)
| Hooks_Status.

Record MqttConfigureArgs := mkMqttConfigureArgs {
  MqttConfigure_host : rstring;
  MqttConfigure_port : u16;
  MqttConfigure_protocol : MqttProtocolChoice;
  MqttConfigure_qos : MqttQosChoice;
  MqttConfigure_no_tls : bool;
  MqttConfigure_ca_file : option bytes;
  MqttConfigure_client_certificate : option bytes;
  MqttConfigure_client_key : option bytes;
  MqttConfigure_username : option rstring;
  MqttConfigure_password_stdin : bool;
  MqttConfigure_password_env : option rstring;
  MqttConfigure_clear_auth : bool;
  MqttConfigure_topic_prefix : rstring;
  MqttConfigure_allow_send : bool
}.
Inductive MqttCommand :=
| MqttCommand_Configure (args : MqttConfigureArgs)
| MqttCommand_Test
| MqttCommand_Bridge
| MqttCommand_Status.

Record CompletionsArgs := mkCompletionsArgs { Completions_shell : string }.
Record ManpagesArgs := mkManpagesArgs { Manpages_directory : bytes }.

Inductive Command :=
| Command_Init (args : InitArgs)
| Command_Profiles (command : ProfileCommand)
| Command_Devices (args : DevicesArgs)
| Command_Connect (args : ConnectArgs)
| Command_Status
| Command_Doctor (args : DoctorArgs)
| Command_Device (command : DeviceCommand)
| Command_Contacts (args : ContactsArgs)
| Command_Send (args : SendArgs)
| Command_Inbox (args : InboxArgs)
| Command_History (command : HistoryCommand)
| Command_Watch (args : WatchArgs)
| Command_Chat (args : ChatArgs)
| Command_Channels (command : ChannelCommand)
| Command_Remote (command : RemoteCommand)
| Command_Sensor (command : SensorCommand)
| Command_Network (command : NetworkCommand)
| Command_Batch (command : BatchCommand)
| Command_Config (command : ConfigCommand)
| Command_Hooks (command : HooksCommand)
| Command_Mqtt (command : MqttCommand)
| Command_Completions (args : CompletionsArgs)
| Command_Manpages (args : ManpagesArgs).

Record Cli := mkCli {
  Cli_profile : option rstring;
  Cli_config : option bytes;
  Cli_data_dir : option bytes;
  Cli_output : OutputMode;
  Cli_non_interactive : bool;
  Cli_yes : bool;
  Cli_timeout : Z;
  Cli_color : ColorMode;
  Cli_quiet : bool;
  Cli_verbose : u8;
  Cli_command : Command
}.

(** ** Value parsers *)

(** [parse_duration], over [humantime::parse_duration]. *)
Definition parse_duration (humantime : rstring → outcome string Z) (value : rstring) : outcome string Z :=
  duration ← humantime value;
  if (duration =? 0)%Z || (MAX_OPERATION_TIMEOUT <? duration)%Z then
    Err "must be greater than zero and at most 24 hours"
  else Ok duration.

Definition parse_hash_bytes (value : rstring) : outcome string u8 :=
  (if bool_decide (value = str_bytes "1") then Ok 1
   else if bool_decide (value = str_bytes "2") then Ok 2
   else if bool_decide (value = str_bytes "3") then Ok 3
   else if bool_decide (value = str_bytes "4") then Ok 4
   else Err "must be one of 1, 2, 3, or 4"%string)%Z.

(** ** Checks before dispatch (runtime.rs) *)

Definition is_stream (command : Command) : bool :=
  match command with
  | Command_Watch _ | Command_Chat _ | Command_Mqtt MqttCommand_Bridge => true
  | Command_Connect args => Connect_watch args
  | _ => false
  end.

Definition validate_output_shape (cli : Cli) : outcome CliError () :=
  match is_stream (Cli_command cli), Cli_output cli with
  | true, Output_Json =>
      Err (CliError_new Exit_Usage "streaming commands require --output jsonl (or human)")
  | false, Output_Jsonl =>
      Err (CliError_new Exit_Usage "single-result commands require --output json (or human)")
  | _, _ => Ok ()
  end.

Definition unsupported_command (cli : Cli) : option CliError :=
  match Cli_command cli with
  | Command_Contacts args =>
      match Contacts_command args with
      | Some (ContactCommand_Pending _) => Some (CliError_unsupported "contact mutation")
      | _ => None
      end
  | _ => None
  end.
