(* ===== verification/Suggest.v ===== *)
(** * Command line: suggestions for mistyped names (crates/meshquill-cli/src/runtime.rs)

    [edit_distance], which keeps two rows of the table of prefix distances, and
    [closest_suggestion].  The specification of the distance is the cheapest edit
    script; of the suggestion, a nearest candidate within the bound. *)

From S2P Require Import Prelude Text Order.

(** ** [edit_distance] *)

(** One pass over [right]: [previous] from the current column on, and the cell to
    the left in the current row. *)
Fixpoint fill_row (left_char : Z) (right : list Z) (previous : list nat) (last : nat) : list nat :=
  match right, previous with
  | right_char :: rest, diagonal :: ((above :: _) as previous) =>
      let substitution := diagonal + (if bool_decide (left_char ≠ right_char) then 1 else 0) in
      let cell := (above + 1) `min` (last + 1) `min` substitution in
      cell :: fill_row left_char rest previous cell
  | _, _ => []
  end.
Definition next_row (right : list Z) (row : nat * list nat) (left_char : Z) : nat * list nat :=
  let '(left_index, previous) := row in
  (S left_index, S left_index :: fill_row left_char right previous (S left_index)).

Definition edit_distance (left right : rstring) : nat :=
  let right := chars right in
  let '(_, previous) := fold_left (next_row right) (chars left) (0, seq 0 (S (length right))) in
  default 0 (previous !! length right).

(** ** [closest_suggestion] *)

Section suggestion.
Context `{UnicodeTables}.

(** [min_by] with the comparison by distance, then by the lower-cased name, then by
    the name: the first of the smallest. *)
Definition suggestion_leb (left right : rstring * nat) : bool :=
  if bool_decide (left.2 = right.2) then
    let l := to_lowercase left.1 in
    let r := to_lowercase right.1 in
    if bool_decide (l = r) then bytes_leb left.1 right.1 else bytes_leb l r
  else left.2 <? right.2.
Fixpoint min_by (best : rstring * nat) (candidates : list (rstring * nat)) : rstring * nat :=
  match candidates with
  | [] => best
  | candidate :: candidates =>
      min_by (if suggestion_leb best candidate then best else candidate) candidates
  end.

Definition maximum_distance (normalized_query : rstring) : nat :=
  let count := length (chars normalized_query) in
  1 `max` ((count + 2) `div` 3 `min` 3).

Definition closest_suggestion (query : rstring) (candidates : list rstring) : option rstring :=
  if bool_decide (query = []) then None
  else
    let normalized_query := to_lowercase query in
    let measured := (λ candidate, (candidate, edit_distance normalized_query (to_lowercase candidate)))
                      <$> candidates in
    match filter (λ p, p.2 ≤ maximum_distance normalized_query) measured with
    | [] => None
    | first :: rest => Some (min_by first rest).1
    end.
End suggestion.

(** ** The specification of the distance *)

(** Scripts that turn one text into another, with the number of edits. *)
Inductive edits : list Z → list Z → nat → Prop :=
| edits_nil : edits [] [] 0
| edits_delete x a b n : edits a b n → edits (x :: a) b (S n)
| edits_insert y a b n : edits a b n → edits a (y :: b) (S n)
| edits_keep x a b n : edits a b n → edits (x :: a) (x :: b) n
| edits_replace x y a b n : edits a b n → edits (x :: a) (y :: b) (S n).

(** The number of edits of a cheapest script. *)
Definition cheapest (a b : list Z) (n : nat) : Prop := edits a b n ∧ ∀ m, edits a b m → n ≤ m.

Definition unequal (x y : Z) : nat := if bool_decide (x ≠ y) then 1 else 0.

Lemma edits_one x y a b n : edits a b n → edits (x :: a) (y :: b) (n + unequal x y).
Proof.
  intros E. unfold unequal. case_bool_decide as Hxy.
  - rewrite Nat.add_1_r. by constructor.
  - rewrite Nat.add_0_r. subst. by constructor.
Qed.

Lemma edits_app a b n a' b' m : edits a b n → edits a' b' m → edits (a ++ a') (b ++ b') (n + m).
Proof. intros E E'. induction E; simpl; try by constructor. done. Qed.

Lemma edits_rev a b n : edits a b n → edits (rev a) (rev b) n.
Proof.
  induction 1 as [|x a b n _ IH|y a b n _ IH|x a b n _ IH|x y a b n _ IH]; simpl; [constructor|..].
  - rewrite <- (app_nil_r (rev b)), <- Nat.add_1_r. apply edits_app; [done|]. repeat constructor.
  - rewrite <- (app_nil_r (rev a)), <- Nat.add_1_r. apply edits_app; [done|]. repeat constructor.
  - rewrite <- (Nat.add_0_r n). apply edits_app; [done|]. repeat constructor.
  - rewrite <- Nat.add_1_r. apply edits_app; [done|]. apply edits_replace. constructor.
Qed.

Lemma edits_snoc_inv a x b y n : edits (a ++ [x]) (b ++ [y]) n →
  (∃ m, n = S m ∧ edits a (b ++ [y]) m) ∨ (∃ m, n = S m ∧ edits (a ++ [x]) b m) ∨
  (∃ m, m + unequal x y ≤ n ∧ edits a b m).
Proof.
  intros E%edits_rev. rewrite !rev_app_distr in E. simpl in E.
  assert (∀ l l' k, edits (rev l) (rev l') k → edits l l' k) as Hr.
  { intros l l' k E'%edits_rev. by rewrite !rev_involutive in E'. }
  inversion E as [|x' a' b' m E'|y' a' b' m E'|x' a' b' m E'|x' y' a' b' m E']; subst.
  - left. exists m. split; [done|]. apply Hr. by rewrite rev_app_distr.
  - right; left. exists m. split; [done|]. apply Hr. by rewrite rev_app_distr.
  - right; right. exists n. split; [|by apply Hr]. unfold unequal. rewrite bool_decide_false by auto. lia.
  - right; right. exists m. split; [|by apply Hr]. unfold unequal. case_bool_decide; lia.
Qed.

Lemma cheapest_nil_l b : cheapest [] b (length b).
Proof.
  split.
  - induction b; simpl; by constructor.
  - intros m E. remember [] as a eqn:Ha. induction E; simplify_eq; simpl; [lia|]. specialize (IHE eq_refl). lia.
Qed.
Lemma cheapest_nil_r a : cheapest a [] (length a).
Proof.
  split.
  - induction a; simpl; by constructor.
  - intros m E. remember [] as b eqn:Hb. induction E; simplify_eq; simpl; [lia|]. specialize (IHE eq_refl). lia.
Qed.

(** The recurrence of the table. *)
Lemma cheapest_snoc a x b y above last diagonal :
  cheapest a (b ++ [y]) above → cheapest (a ++ [x]) b last → cheapest a b diagonal →
  cheapest (a ++ [x]) (b ++ [y]) ((above + 1) `min` (last + 1) `min` (diagonal + unequal x y)).
Proof.
  intros [Ea Ha] [El Hl] [Ed Hd]. split.
  - assert (edits (a ++ [x]) (b ++ [y]) (above + 1)).
    { rewrite <- (app_nil_r (b ++ [y])). apply edits_app; [done|]. repeat constructor. }
    assert (edits (a ++ [x]) (b ++ [y]) (last + 1)).
    { rewrite <- (app_nil_r (a ++ [x])). apply edits_app; [done|]. repeat constructor. }
    assert (edits (a ++ [x]) (b ++ [y]) (diagonal + unequal x y)).
    { apply edits_app; [done|]. apply (edits_one x y [] [] 0). constructor. }
    by destruct (Nat.min_dec (above + 1) (last + 1)) as [->| ->];
      match goal with |- edits _ _ (?p `min` ?q) => destruct (Nat.min_dec p q) as [->| ->] end.
  - intros n [(m & -> & E)|[(m & -> & E)|(m & Hm & E)]]%edits_snoc_inv.
    + apply Ha in E. lia.
    + apply Hl in E. lia.
    + apply Hd in E. lia.
Qed.

(** A row of the table for the prefix [a] of the left text. *)
Definition row_ok (a right : list Z) (row : list nat) : Prop :=
  length row = S (length right) ∧
  ∀ j n, row !! j = Some n → cheapest a (take j right) n.

Lemma fill_row_ok a x right done_ rest previous last :
  right = done_ ++ rest → length previous = S (length rest) →
  (∀ j n, previous !! j = Some n → cheapest a (done_ ++ take j rest) n) →
  cheapest (a ++ [x]) done_ last →
  length (fill_row x rest previous last) = length rest ∧
  ∀ j n, fill_row x rest previous last !! j = Some n → cheapest (a ++ [x]) (done_ ++ take (S j) rest) n.
Proof.
  revert done_ previous last. induction rest as [|y rest IH]; intros done_ previous last Hr Hlen Hprev Hlast;
    [by destruct previous|].
  destruct previous as [|diagonal [|above previous]]; simpl in Hlen; [lia..|]. simpl.
  fold (unequal x y).
  assert (cheapest (a ++ [x]) (done_ ++ [y]) ((above + 1) `min` (last + 1) `min` (diagonal + unequal x y))) as Hcell.
  { apply cheapest_snoc; [apply (Hprev 1); done|done|]. specialize (Hprev 0 diagonal eq_refl).
    by rewrite app_nil_r in Hprev. }
  destruct (IH (done_ ++ [y]) (above :: previous) _
              ltac:(by rewrite <- app_assoc) ltac:(simpl; lia)
              ltac:(intros j n Hj; rewrite <- app_assoc; apply (Hprev (S j)); done) Hcell) as [Hl Hn].
  split; [by rewrite Hl|]. intros [|j] n; simpl; [by intros [= <-]|].
  intros Hj%Hn. by rewrite <- app_assoc in Hj.
Qed.

Lemma next_row_ok a x right row : row_ok a right row →
  next_row right (length a, row) x = (length (a ++ [x]), (next_row right (length a, row) x).2) ∧
  row_ok (a ++ [x]) right (next_row right (length a, row) x).2.
Proof.
  intros [Hlen Hrow]. simpl. split; [rewrite length_app; simpl; f_equal; lia|].
  destruct (fill_row_ok a x right [] right row (S (length a)) eq_refl Hlen Hrow) as [Hl Hn].
  { pose proof (cheapest_nil_r (a ++ [x])) as Hc. by rewrite length_app, Nat.add_1_r in Hc. }
  split; [simpl; by rewrite Hl|]. intros [|j] n; simpl; [|by apply Hn].
  intros [= <-]. pose proof (cheapest_nil_r (a ++ [x])) as Hc. by rewrite length_app, Nat.add_1_r in Hc.
Qed.

Lemma rows_ok right a left row : row_ok a right row →
  row_ok (a ++ left) right (fold_left (next_row right) left (length a, row)).2.
Proof.
  revert a row. induction left as [|x left IH]; intros a row Hrow; [by rewrite app_nil_r|].
  destruct (next_row_ok a x right row Hrow) as [Heq Hok]. cbn [fold_left]. rewrite Heq.
  rewrite cons_middle, app_assoc. by apply IH.
Qed.

(** C40: the edit distance that drives suggestions is the length of a cheapest script of
    deletions, insertions and replacements of characters, although only two rows
    of the table are kept. *)
Theorem edit_distance_cheapest left right :
  cheapest (chars left) (chars right) (edit_distance left right).
Proof.
  unfold edit_distance. pose proof (rows_ok (chars right) [] (chars left) (seq 0 (S (length (chars right))))) as Hrows.
  simpl length in Hrows. destruct (fold_left _ _ _) as [index row].
  destruct Hrows as [Hlen Hrow].
  { split; [by rewrite length_seq|]. intros j n [-> Hj]%lookup_seq.
    rewrite <- (length_take_le (chars right) j) at 2 by lia. apply cheapest_nil_l. }
  simpl in *. destruct (row !! length (chars right)) as [n|] eqn:Hn.
  - apply Hrow in Hn. by rewrite take_ge in Hn by lia.
  - apply lookup_ge_None in Hn. lia.
Qed.

(** ** The suggestion is a nearest candidate *)

Section suggestion_facts.
Context `{UnicodeTables}.

Lemma suggestion_leb_distance p q : suggestion_leb p q = true → p.2 ≤ q.2.
Proof. unfold suggestion_leb. case_bool_decide; [lia|]. by intros ?%Nat.ltb_lt; lia. Qed.
Lemma suggestion_leb_false_distance p q : suggestion_leb p q = false → q.2 ≤ p.2.
Proof. unfold suggestion_leb. case_bool_decide; [lia|]. by intros ?%Nat.ltb_ge; lia. Qed.

Lemma min_by_spec best candidates :
  min_by best candidates ∈ best :: candidates ∧
  ∀ q, q ∈ best :: candidates → (min_by best candidates).2 ≤ q.2.
Proof.
  revert best. induction candidates as [|c candidates IH]; intros best; simpl.
  - split; [set_solver|]. by intros q ->%list_elem_of_singleton.
  - destruct (suggestion_leb best c) eqn:E.
    + apply suggestion_leb_distance in E. destruct (IH best) as [Hin Hmin]. split; [set_solver|].
      intros q Hq. rewrite !elem_of_cons in Hq. destruct Hq as [->|[->|Hq]]; [|transitivity best.2; [|done]|];
        apply Hmin; set_solver.
    + apply suggestion_leb_false_distance in E. destruct (IH c) as [Hin Hmin]. split; [set_solver|].
      intros q Hq. rewrite !elem_of_cons in Hq. destruct Hq as [->|[->|Hq]]; [transitivity c.2; [|done]|..];
        apply Hmin; set_solver.
Qed.

Lemma closest_suggestion_nearest query candidates :
  let distance c := edit_distance (to_lowercase query) (to_lowercase c) in
  match closest_suggestion query candidates with
  | Some c => c ∈ candidates ∧ distance c ≤ maximum_distance (to_lowercase query) ∧
              ∀ c', c' ∈ candidates → distance c ≤ distance c'
  | None => query = [] ∨ ∀ c, c ∈ candidates → maximum_distance (to_lowercase query) < distance c
  end.
Proof.
  intros distance. unfold closest_suggestion. case_bool_decide; [by left|].
  set (measured := _ <$> candidates). set (limit := maximum_distance _).
  assert (∀ p, p ∈ measured ↔ p.1 ∈ candidates ∧ p.2 = distance p.1) as Hm.
  { intros [c n]. unfold measured. rewrite list_elem_of_fmap. simpl. split.
    - by intros (c' & [= -> ->] & ?).
    - intros [? ->]. by exists c. }
  destruct (filter _ measured) as [|first rest] eqn:Hf.
  - right. intros c Hc. apply Nat.nle_gt. intros Hle.
    assert ((c, distance c) ∈ filter (λ p, p.2 ≤ limit) measured) as Hin.
    { apply list_elem_of_filter. by rewrite Hm. }
    rewrite Hf in Hin. by apply elem_of_nil in Hin.
  - destruct (min_by_spec first rest) as [Hin Hmin].
    rewrite <- Hf in Hin. apply list_elem_of_filter in Hin as [Hle [Hc Hd]%Hm].
    split_and!; [done|by rewrite <- Hd|]. intros c' Hc'. rewrite <- Hd.
    destruct (decide (distance c' ≤ limit)) as [Hlim|]; [|lia].
    apply (Hmin (c', distance c')). rewrite <- Hf. apply list_elem_of_filter. by rewrite Hm.
Qed.
End suggestion_facts.

Example edit_distance_kitten : edit_distance (str_bytes "kitten") (str_bytes "sitting") = 3.
Proof. vm_compute. reflexivity. Qed.
