(* ===== verification/Resolve.v ===== *)
(** * Command line: names, keys, routes and scopes (crates/meshquill-cli/src/runtime.rs)

    How what a person types becomes an argument of a device operation: contacts by
    exact name or unique key prefix, channels by number or name, contact cards,
    explicit routes, flood scopes, and the lines of the chat; and what these resolve
    to, with the round trips of cards and routes. *)

From S2P Require Import Prelude Text Order Floats Domain Samples Packet Discovery Roundtrip Hooks Store History Config.
From S2P Require Import CliOutput CliArgs Suggest.

(** ** [str] and integers *)

Definition strip_prefix (prefix s : bytes) : option bytes :=
  if starts_with prefix s then Some (drop (length prefix) s) else None.
Definition eq_ignore_ascii_case (a b : bytes) : bool :=
  bool_decide (to_ascii_lowercase a = to_ascii_lowercase b).
Definition is_ascii_hexdigit (b : Z) : bool :=
  is_ascii_digit b || in_range 0x41 0x46 b || in_range 0x61 0x66 b.
Definition is_ascii_uppercase (b : Z) : bool := in_range 0x41 0x5a b.

Definition hex_digit_value (b : Z) : option Z :=
  (if is_ascii_digit b then Some (b - 0x30)
   else if in_range 0x41 0x46 b then Some (b - 0x41 + 10)
   else if in_range 0x61 0x66 b then Some (b - 0x61 + 10)
   else None)%Z.

(** [from_str_radix(s, 16)] for an unsigned integer of [w] bits, which takes a plus
    sign too. *)
Fixpoint parse_hex_digits (w acc : Z) (s : bytes) : option Z :=
  match s with
  | [] => Some acc
  | b :: s =>
      d ← hex_digit_value b;
      let acc := (acc * 16 + d)%Z in
      if (acc <? 2 ^ w)%Z then parse_hex_digits w acc s else None
  end.
Definition from_str_radix_16 (w : Z) (s : bytes) : option Z :=
  match s with
  | [] => None
  | 0x2b%Z :: s => if bool_decide (s = []) then None else parse_hex_digits w 0 s
  | _ => parse_hex_digits w 0 s
  end.

Section resolve.
Context `{Crates} `{UnicodeTables}.

(** ** Contacts *)

Definition contact_name_suggestion (contacts : list Contact) (query : rstring) : option rstring :=
  closest_suggestion query (Contact_adv_name <$> contacts).

Definition has_name (query : rstring) (contact : Contact) : Prop := Contact_adv_name contact = query.
Definition has_key_prefix (prefix : rstring) (contact : Contact) : Prop :=
  starts_with prefix (PublicKey_to_hex (Contact_public_key contact)) = true.
#[global] Instance has_name_dec query contact : Decision (has_name query contact).
Proof. unfold has_name. apply _. Defined.
#[global] Instance has_key_prefix_dec prefix contact : Decision (has_key_prefix prefix contact).
Proof. unfold has_key_prefix. apply _. Defined.

Definition resolve_contact (contacts : list Contact) (query : rstring) : outcome CliError Contact :=
  match filter (has_name query) contacts with
  | [contact] => Ok contact
  | _ :: _ =>
      Err (with_hint (CliError_new Exit_Usage ("contact name '" +:+ bytes_str query +:+ "' is not unique"))
             "Use a unique public-key prefix.")
  | [] =>
      if bool_decide (query = []) || negb (forallb is_ascii_hexdigit query) then
        let error := CliError_new Exit_NotFound ("contact '" +:+ bytes_str query +:+ "' was not found") in
        Err match contact_name_suggestion contacts query with
            | Some suggestion =>
                with_hint error ("Did you mean '" +:+ bytes_str suggestion
                  +:+ "'? Contact names are case-sensitive; no contact was selected.")
            | None => with_hint error "Use an exact case-sensitive name or a unique hexadecimal key prefix."
            end
      else
        let prefix := to_ascii_lowercase query in
        match filter (has_key_prefix prefix) contacts with
        | [contact] => Ok contact
        | [] =>
            let error := CliError_new Exit_NotFound
                           ("contact key prefix '" +:+ bytes_str query +:+ "' was not found") in
            Err match contact_name_suggestion contacts query with
                | Some suggestion =>
                    with_hint error ("Did you mean the contact '" +:+ bytes_str suggestion
                      +:+ "'? No contact was selected.")
                | None =>
                    with_hint error "Use an exact case-sensitive name or a unique hexadecimal key prefix."
                end
        | _ :: _ =>
            Err (with_hint (CliError_new Exit_Usage
                              ("contact key prefix '" +:+ bytes_str query +:+ "' is ambiguous"))
                   "Provide more hexadecimal key characters.")
        end
  end.

Definition contact_kind_matches (contact_type : ContactType) (kind : ContactKind) : bool :=
  match contact_type, kind with
  | ContactType_Chat, Kind_Client | ContactType_Repeater, Kind_Repeater
  | ContactType_Room, Kind_Room | ContactType_Sensor, Kind_Sensor => true
  | _, _ => false
  end.

Definition contact_type_name (contact_type : ContactType) : string :=
  match contact_type with
  | ContactType_Chat => "client" | ContactType_Repeater => "repeater" | ContactType_Room => "room"
  | ContactType_Sensor => "sensor" | ContactType_Unknown _ => "unknown"
  end.

Definition filter_contacts (contacts : list Contact) (args : ContactsArgs) : list Contact :=
  let search := to_ascii_lowercase <$> Contacts_search args in
  filter (λ contact, from_option (λ needle,
      contains needle (to_ascii_lowercase (Contact_adv_name contact))
      || starts_with needle (PublicKey_to_hex (Contact_public_key contact))) true search = true)
    (filter (λ contact, from_option (contact_kind_matches (Contact_contact_type contact)) true
                          (Contacts_kind args) = true) contacts).

(** The changed contact, and whether anything changed. *)
Definition apply_contact_update (contact : Contact) (args : ContactUpdateArgs) : Contact * bool :=
  let '(name, changed) :=
    match ContactUpdate_name args with
    | Some name => if bool_decide (Contact_adv_name contact ≠ name) then (name, true)
                   else (Contact_adv_name contact, false)
    | None => (Contact_adv_name contact, false)
    end in
  let '(flags, changed) :=
    match ContactUpdate_favorite args with
    | Some favorite =>
        let flags := Z.lor (Z.land (Contact_flags contact) 0xfe) (if favorite : bool then 1 else 0) in
        if bool_decide (Contact_flags contact ≠ flags) then (flags, true)
        else (Contact_flags contact, changed)
    | None => (Contact_flags contact, changed)
    end in
  (mkContact (Contact_public_key contact) (Contact_contact_type contact) flags (Contact_route contact)
     (Contact_out_path contact) name (Contact_last_advert contact) (Contact_adv_lat contact)
     (Contact_adv_lon contact) (Contact_lastmod contact), changed).

Definition contact_route_text (route : ContactRoute) : string :=
  match route with
  | ContactRoute_Flood => "flood"
  | ContactRoute_Path hash_mode hop_count =>
      "path(hash_mode=" +:+ pretty hash_mode +:+ ",hops=" +:+ pretty hop_count +:+ ")"
  end.

Record ContactView := mkContactView {
  ContactView_name : rstring;
  ContactView_public_key : rstring;
  ContactView_kind : string;
  ContactView_flags : u8;
  ContactView_route : string;
  ContactView_path : rstring;
  ContactView_last_advert : u32;
  ContactView_lastmod : u32
}.
Definition contact_view (contact : Contact) : ContactView :=
  mkContactView (Contact_adv_name contact) (PublicKey_to_hex (Contact_public_key contact))
    (contact_type_name (Contact_contact_type contact)) (Contact_flags contact)
    (contact_route_text (Contact_route contact)) (Path_to_hex (Contact_out_path contact))
    (Contact_last_advert contact) (Contact_lastmod contact).

(** ** Channels *)

Record ChannelInfoView := mkChannelView {
  ChannelView_idx : u8;
  ChannelView_name : rstring;
  ChannelView_secret_hash : option u8
}.

Definition resolve_channel_query (channels : list ChannelInfoView) (query : rstring) : outcome CliError u8 :=
  match parse_unsigned 8 query with
  | Some idx =>
      if existsb (λ channel, (ChannelView_idx channel =? idx)%Z) channels then Ok idx
      else Err (CliError_new Exit_NotFound ("channel index '" +:+ pretty idx +:+ "' is out of range"))
  | None =>
      match filter (λ channel, ChannelView_name channel = query) channels with
      | [channel] => Ok (ChannelView_idx channel)
      | [] => Err (CliError_new Exit_NotFound ("channel name '" +:+ bytes_str query +:+ "' was not found"))
      | _ :: _ =>
          Err (with_hint (CliError_new Exit_Usage ("channel name '" +:+ bytes_str query +:+ "' is ambiguous"))
                 "Use an exact numeric channel index instead.")
      end
  end.

(** ** Contact cards *)

Definition MESHCORE_PREFIX : bytes := str_bytes "meshcore://".

Definition parse_meshcore_uri (uri : rstring) : outcome CliError bytes :=
  let usage message := Err (CliError_new Exit_Usage message) in
  if negb (starts_with MESHCORE_PREFIX uri) then usage "contact URI must begin with 'meshcore://'"
  else if existsb is_ascii_uppercase (take (length MESHCORE_PREFIX) uri) then
    usage "contact URI prefix must be lowercase"
  else
    let hex_bytes := drop (length MESHCORE_PREFIX) uri in
    if bool_decide (hex_bytes = []) then
      usage "contact URI must include at least 98 bytes of hex card data"
    else if negb (length hex_bytes mod 2 =? 0)
            || negb (forallb (λ c, is_ascii_hexdigit c && negb (is_ascii_uppercase c)) (chars hex_bytes)) then
      usage "contact URI must contain lowercase hexadecimal payload bytes"
    else
      let max_card_bytes := MAX_INNER_PAYLOAD - 1 in
      if usize_saturating_mul max_card_bytes 2 <? length hex_bytes then
        usage ("contact URI card data must not exceed " +:+ pretty max_card_bytes +:+ " bytes")
      else
        card ← ok_or (hex_decode hex_bytes) (CliError_new Exit_Usage "contact URI is not valid hex");
        if length card <? 98 then
          usage ("contact URI must include at least 98 bytes (was " +:+ pretty (length card) +:+ ")")
        else Ok card.

(** ** Explicit routes *)

Definition MAX_CONTACT_PATH_BYTES : nat := 64.
Definition path_usage {A} (message : string) : outcome CliError A := Err (CliError_new Exit_Usage message).

Definition parse_path_token (bytes : bytes) (token : rstring) : outcome CliError Prelude.bytes :=
  let token := trimmed token in
  let token := default (default token (strip_prefix (str_bytes "0X") token))
                 (strip_prefix (str_bytes "0x") token) in
  if bool_decide (token = []) || (2 <? length token) then
    path_usage "contact path must contain comma-separated hexadecimal bytes"
  else
    byte ← ok_or (from_str_radix_16 8 token)
             (CliError_new Exit_Usage "contact path must contain comma-separated hexadecimal bytes");
    let bytes := bytes ++ [byte] in
    if MAX_CONTACT_PATH_BYTES <? length bytes then
      path_usage "contact path exceeds the firmware's 64-byte limit"
    else Ok bytes.

Definition parse_explicit_contact_path (raw : rstring) (hash_mode : u8) : outcome CliError bytes :=
  if usize_saturating_mul MAX_CONTACT_PATH_BYTES 5 <? length raw then
    path_usage "explicit contact path is too long"
  else
    bytes ← try_fold parse_path_token [] (split_on 0x2c raw);
    let hash_width := Z.to_nat hash_mode + 1 in
    if bool_decide (bytes = []) || negb (length bytes mod hash_width =? 0) then
      path_usage ("contact path byte count must be a non-zero multiple of the device's "
                    +:+ pretty hash_width +:+ "-byte hash width")
    else if 63 <? length bytes / hash_width then path_usage "contact path exceeds the firmware's 63-hop limit"
    else Ok bytes.

(** ** Flood scopes *)

Definition parse_flood_scope (value : rstring) : outcome CliError (FloodScope * option rstring) :=
  let named name := eq_ignore_ascii_case value (str_bytes name) in
  if named "default" || bool_decide (value = str_bytes "0") || named "none" || bool_decide (value = []) then
    Ok (FloodScope_Default, None)
  else if named "unscoped" || bool_decide (value = str_bytes "*") then Ok (FloodScope_Unscoped, None)
  else
    let normalized := if starts_with (str_bytes "#") value then value else str_bytes "#" ++ value in
    if length normalized =? 1 then path_usage "flood scope name cannot be empty"
    else if existsb (λ b, (b =? 0)%Z || in_range 0 0x1f b || (b =? 0x7f)%Z) normalized then
      path_usage "flood scope name cannot contain NUL or control characters"
    else
      let key_length := length normalized in
      if negb ((1 <=? key_length) && (key_length <=? 30)) then
        path_usage ("flood scope name must be 1..=30 bytes, got " +:+ pretty key_length)
      else Ok (FloodScope_Key (take 16 (sha256 normalized)), Some normalized).

Definition scope_name_for_report (scope : FloodScope) (key_name : option rstring) : option rstring :=
  match scope with
  | FloodScope_Default => Some (str_bytes "default")
  | FloodScope_Unscoped => Some (str_bytes "unscoped")
  | FloodScope_Key _ => key_name
  end.

(** ** The host clock *)

(** [bounded_unix_time]: the seconds since the epoch; [None] is a clock before it. *)
Definition bounded_unix_time (now : option Z) : outcome CliError u32 :=
  match now with
  | None => Err (CliError_new Exit_Protocol "system time is invalid")
  | Some seconds =>
      if (seconds <? 2 ^ 32)%Z then Ok seconds
      else Err (CliError_new Exit_Usage "system timestamp does not fit into the device 32-bit clock field")
  end.

(** ** Descriptions *)

Definition message_source (message : Message) : rstring :=
  match Message_source message with
  | MessageSource_Direct pubkey_prefix => str_bytes "direct:" ++ pubkey_prefix
  | MessageSource_Channel channel_idx => str_bytes ("channel:" +:+ pretty channel_idx)
  end.

Definition describe_transport (transport : TransportConfig) : string :=
  match transport with
  | Transport_Ble id _ => "BLE " +:+ bytes_str id
  | Transport_Serial port baud => "serial " +:+ bytes_str port +:+ " at " +:+ pretty baud +:+ " baud"
  | Transport_Tcp host port => "TCP " +:+ bytes_str host +:+ ":" +:+ pretty port
  | Transport_Mock scenario => "explicit mock (" +:+ bytes_str scenario +:+ ")"
  end.

(** [short_key]: the key when twelve bytes are not the start of it at a character
    boundary. *)
Definition short_key (key : rstring) : rstring :=
  if (12 <=? length key) && utf8_valid (take 12 key) then take 12 key else key.
End resolve.

(** * Command line: what names and routes resolve to

    A contact is selected only when it is the only one meant; an exported contact
    card comes back through [contacts import]; a printed route is read back, and
    what is read is a route the device takes. *)

(** ** Contacts *)

(** The only element of a list with a property, by its position. *)
Definition only {A} (P : A → Prop) (l : list A) (x : A) : Prop :=
  ∃ i, l !! i = Some x ∧ P x ∧ ∀ j y, l !! j = Some y → P y → j = i.

Lemma only_cons {A} (P : A → Prop) x l y :
  only P (x :: l) y ↔ (P x ∧ x = y ∧ ∀ z, z ∈ l → ¬ P z) ∨ (¬ P x ∧ only P l y).
Proof.
  split.
  - intros ([|i] & Hi & Hy & Hu); simpl in Hi.
    + simplify_eq. left. split_and!; [done|done|]. intros z [k Hk]%list_elem_of_lookup Hz.
      by specialize (Hu (S k) z Hk Hz).
    + right. split; [intros Hx; by specialize (Hu 0 x eq_refl Hx)|].
      exists i. split_and!; [done|done|]. intros j z Hj Hz. by specialize (Hu (S j) z Hj Hz) as [= ->].
  - intros [(Hx & -> & Hn)|(Hx & i & Hi & Hy & Hu)].
    + exists 0. split_and!; [done|done|]. intros [|j] z Hj Hz; [done|].
      exfalso. eapply Hn; [|done]. apply list_elem_of_lookup. by exists j.
    + exists (S i). split_and!; [done|done|]. intros [|j] z Hj Hz; simpl in Hj; [by simplify_eq|].
      f_equal. eauto.
Qed.

Lemma filter_only {A} (P : A → Prop) `{∀ x, Decision (P x)} l x : filter P l = [x] ↔ only P l x.
Proof.
  induction l as [|y l IH]; [split; [done|by intros (i & ? & _)]|].
  rewrite only_cons, filter_cons. destruct (decide (P y)) as [Hy|Hy].
  - split.
    + intros [= -> Hf]. left. split_and!; [done|done|]. intros z Hz Hp.
      assert (z ∈ filter P l) as Hin by by apply list_elem_of_filter. rewrite Hf in Hin. set_solver.
    + intros [(_ & -> & Hn)|[? _]]; [|done]. f_equal. destruct (filter P l) as [|z l'] eqn:E; [done|].
      assert (z ∈ filter P l) as [Hz Hl]%list_elem_of_filter by (rewrite E; set_solver). by destruct (Hn z).
  - rewrite IH. naive_solver.
Qed.

Section contacts.
Context `{Crates} `{UnicodeTables}.

(** C39: a query selects a contact exactly when it is the only contact of that exact
    name, or no contact has that name, the query is hexadecimal, and it is the only
    contact whose key starts so.  A name is never guessed, and among several
    candidates none is chosen. *)
Theorem resolve_contact_unambiguous contacts query contact :
  resolve_contact contacts query = Ok contact ↔
  only (has_name query) contacts contact ∨
  ((∀ c, c ∈ contacts → ¬ has_name query c) ∧ query ≠ [] ∧
   Forall (λ b, is_ascii_hexdigit b = true) query ∧
   only (has_key_prefix (to_ascii_lowercase query)) contacts contact).
Proof.
  unfold resolve_contact.
  rewrite <- (filter_only (has_name query)), <- (filter_only (has_key_prefix (to_ascii_lowercase query))).
  assert (filter (has_name query) contacts = [] ↔ ∀ c, c ∈ contacts → ¬ has_name query c) as Hnone.
  { split.
    - intros Hf c Hc Hn. assert (c ∈ filter (has_name query) contacts) as Hin by by apply list_elem_of_filter.
      rewrite Hf in Hin. set_solver.
    - intros Hn. destruct (filter (has_name query) contacts) as [|c l] eqn:E; [done|].
      assert (c ∈ filter (has_name query) contacts) as [? ?]%list_elem_of_filter by (rewrite E; set_solver).
      by destruct (Hn c). }
  rewrite <- Hnone.
  destruct (filter (has_name query) contacts) as [|c [|c' l]] eqn:E; cycle 1.
  { split; [intros Heq; left; congruence|]. intros [Heq|[Heq _]]; congruence. }
  { split; [done|]. by intros [?|[? _]]. }
  case_bool_decide as Hq; simpl; [split; [done|by intros [?|(_ & ? & _)]]|].
  destruct (forallb is_ascii_hexdigit query) eqn:Hx; simpl.
  - assert (Forall (λ b, is_ascii_hexdigit b = true) query) as Hf.
    { apply Forall_forall. intros b Hb. rewrite forallb_forall in Hx. apply Hx. by apply list_elem_of_In. }
    destruct (filter (has_key_prefix _) contacts) as [|k [|k' l]].
    + split; [done|]. by intros [?|(_ & _ & _ & ?)].
    + split; [intros Heq; right; split_and!; congruence|]. intros [?|(_ & _ & _ & ?)]; congruence.
    + split; [done|]. by intros [?|(_ & _ & _ & ?)].
  - split; [done|]. intros [?|(_ & _ & Hf & _)]; [done|].
    assert (forallb is_ascii_hexdigit query = true) as Ht; [|congruence].
    apply forallb_forall. intros b Hb%list_elem_of_In. by eapply Forall_forall in Hf.
Qed.
End contacts.

(** ** Contact cards *)

Lemma chars_ascii s : Forall (λ b, 0 <= b < 0x80)%Z s → chars s = s.
Proof. intros Hs. pose proof (chars_app_ascii_l s [] Hs) as Hc. by rewrite !app_nil_r in Hc. Qed.

Lemma hex_encode_ascii `{CratesLaws} l : is_bytes l → Forall (λ b, 0 <= b < 0x80)%Z (hex_encode l).
Proof. intros Hl. eapply Forall_impl; [by apply hex_encode_lower|]. simpl. lia. Qed.

Lemma hex_encode_checked `{CratesLaws} l : is_bytes l →
  forallb (λ c, is_ascii_hexdigit c && negb (is_ascii_uppercase c)) (chars (hex_encode l)) = true.
Proof.
  intros Hl. rewrite chars_ascii by by apply hex_encode_ascii. apply forallb_forall.
  intros b Hb%list_elem_of_In. pose proof (hex_encode_lower l Hl) as Hf.
  eapply Forall_forall in Hf; [|done]. simpl in Hf.
  unfold is_ascii_hexdigit, is_ascii_digit, is_ascii_uppercase, in_range. lia.
Qed.

(** a contact card the device exported is read back from its URI byte for byte,
    so what [contacts export] prints [contacts import] sends, for every card of
    the size the import accepts. *)
Theorem contact_card_roundtrip `{CratesLaws} card : is_bytes card → 98 ≤ length card ≤ MAX_INNER_PAYLOAD - 1 →
  ∃ uri, parse_contact_uri (11%Z :: card) = Ok (Packet_ContactUri uri) ∧
    ContactUri_card uri = card ∧ parse_meshcore_uri (ContactUri_uri uri) = Ok card.
Proof.
  intros Hb Hlen. exists (mkContactUri (MESHCORE_PREFIX ++ hex_encode card) card). split; [|split].
  - unfold parse_contact_uri, require_len. simpl length.
    destruct (Nat.ltb_spec (S (length card)) 2); [lia|]. simpl.
    unfold slice_from, slice. rewrite bool_decide_true by (simpl; lia). simpl.
    rewrite Nat.sub_0_r, firstn_all. reflexivity.
  - done.
  - cbn [ContactUri_uri]. unfold parse_meshcore_uri.
    unfold starts_with. rewrite take_app_length, bool_decide_true by done. cbn [negb].
    replace (existsb is_ascii_uppercase MESHCORE_PREFIX) with false by done. rewrite drop_app_length.
    pose proof (hex_encode_length card Hb) as Hl.
    rewrite bool_decide_false by (intros Hn; rewrite Hn in Hl; simpl in Hl; lia).
    rewrite hex_encode_checked, Hl by done.
    replace (2 * length card mod 2 =? 0) with true by (rewrite Nat.mul_comm, Nat.Div0.mod_mul; done).
    cbn [negb orb]. replace (usize_saturating_mul (MAX_INNER_PAYLOAD - 1) 2) with 350 by done.
    destruct (Nat.ltb_spec 350 (2 * length card)) as [|_]; [unfold MAX_INNER_PAYLOAD in *; lia|].
    rewrite hex_decode_encode by done. cbn [ok_or mbind outcome_bind].
    by destruct (Nat.ltb_spec (length card) 98); [lia|].
Qed.

Lemma contact_card_roundtrip_witness :
  ∃ uri, parse_contact_uri (11%Z :: replicate 98 7%Z) = Ok (Packet_ContactUri uri) ∧
    ContactUri_card uri = replicate 98 7%Z ∧ parse_meshcore_uri (ContactUri_uri uri) = Ok (replicate 98 7%Z).
Proof.
  apply (contact_card_roundtrip (replicate 98 7%Z)).
  - apply (bool_decide_unpack _). vm_compute. exact I.
  - vm_compute. split; repeat constructor.
Defined.

(** ** Explicit routes *)

(** A route the device takes: whole hashes of its width, at most 63 of them. *)
Definition valid_path (hash_mode : u8) (path : bytes) : Prop :=
  let width := Z.to_nat hash_mode + 1 in
  is_bytes path ∧ 0 < length path ≤ MAX_CONTACT_PATH_BYTES ∧ length path mod width = 0 ∧
  length path / width ≤ 63.

(** How a route is written: [12,ab,ff]. *)
Definition hex_byte (b : u8) : bytes := [lower_hex_digit (b / 16); lower_hex_digit (b mod 16)].
Definition render_path (path : bytes) : rstring := join 0x2c (hex_byte <$> path).

Lemma lower_hex_digit_range n : (0 <= n < 16)%Z →
  (0x30 <= lower_hex_digit n <= 0x39 ∨ 0x61 <= lower_hex_digit n <= 0x66)%Z.
Proof. intros. unfold lower_hex_digit. case_match; lia. Qed.
Lemma hex_digit_value_lower n : (0 <= n < 16)%Z → hex_digit_value (lower_hex_digit n) = Some n.
Proof.
  intros Hn. unfold hex_digit_value, lower_hex_digit, is_ascii_digit, in_range.
  destruct (Z.ltb_spec n 10); repeat (case_match; try lia); f_equal; lia.
Qed.

Lemma byte_nibbles b : is_u8 b → (0 <= b / 16 < 16 ∧ 0 <= b mod 16 < 16)%Z.
Proof. unfold is_u8. intros. Z.to_euclidean_division_equations. lia. Qed.

Lemma hex_byte_plain b : is_u8 b →
  trimmed (hex_byte b) = hex_byte b ∧ strip_prefix (str_bytes "0x") (hex_byte b) = None ∧
  strip_prefix (str_bytes "0X") (hex_byte b) = None ∧ from_str_radix_16 8 (hex_byte b) = Some b ∧
  Forall (λ c, c ≠ 0x2c)%Z (hex_byte b).
Proof.
  intros Hb. destruct (byte_nibbles b Hb) as [Hh Hl].
  pose proof (lower_hex_digit_range _ Hh) as Rh. pose proof (lower_hex_digit_range _ Hl) as Rl.
  pose proof (hex_digit_value_lower _ Hh) as Vh. pose proof (hex_digit_value_lower _ Hl) as Vl.
  unfold hex_byte. set (h := lower_hex_digit (b / 16)) in *. set (l := lower_hex_digit (b mod 16)) in *.
  split_and!.
  - unfold trimmed, trim. rewrite chars_ascii by (repeat constructor; lia).
    assert (is_whitespace h = false) as Wh by (unfold is_whitespace, in_range; lia).
    assert (is_whitespace l = false) as Wl by (unfold is_whitespace, in_range; lia).
    simpl. rewrite Wh. simpl. rewrite Wl. simpl. unfold encode_utf8.
    rewrite !(proj2 (Z.ltb_lt _ _)) by lia. done.
  - unfold strip_prefix, starts_with. rewrite bool_decide_false; [done|].
    simpl. intros [= ? ?]. lia.
  - unfold strip_prefix, starts_with. rewrite bool_decide_false; [done|].
    simpl. intros [= ? ?]. lia.
  - unfold from_str_radix_16. replace (parse_hex_digits 8 0 [h; l]) with (Some b).
    { repeat case_match; try done; lia. }
    simpl. rewrite Vh. simpl. rewrite Vl. simpl.
    unfold is_u8 in Hb. repeat (rewrite (proj2 (Z.ltb_lt _ _))); try f_equal; change (Z.pow_pos 2 8) with 256%Z;
      Z.to_euclidean_division_equations; lia.
  - repeat constructor; lia.
Qed.

Lemma parse_path_token_byte done_ b : is_u8 b → length done_ < MAX_CONTACT_PATH_BYTES →
  parse_path_token done_ (hex_byte b) = Ok (done_ ++ [b]).
Proof.
  intros Hb Hlen. destruct (hex_byte_plain b Hb) as (Ht & Hx & HX & Hv & _).
  unfold parse_path_token. rewrite Ht, Hx, HX. cbn [default from_option id].
  rewrite bool_decide_false by done. change (2 <? length (hex_byte b)) with false.
  rewrite orb_false_r, Hv. cbn [ok_or mbind outcome_bind].
  destruct (Nat.ltb_spec MAX_CONTACT_PATH_BYTES (length (done_ ++ [b]))) as [Hl|]; [|done].
  rewrite length_app in Hl. simpl in Hl. lia.
Qed.

Lemma parse_path_tokens done_ path : is_bytes path → length done_ + length path ≤ MAX_CONTACT_PATH_BYTES →
  try_fold parse_path_token done_ (hex_byte <$> path) = Ok (done_ ++ path).
Proof.
  revert done_. induction path as [|b path IH]; intros done_ Hb Hlen; [by rewrite app_nil_r|].
  apply Forall_cons in Hb as [Hb Hp]. simpl in Hlen. rewrite fmap_cons. cbn [try_fold].
  rewrite parse_path_token_byte by (done || lia). cbn [mbind outcome_bind].
  rewrite IH; [by rewrite <- app_assoc|done|]. rewrite length_app. simpl. lia.
Qed.

Lemma length_join sep ps : Forall (λ p, length p = 2) ps → length (join sep ps) ≤ 3 * length ps.
Proof.
  induction 1 as [|p ps Hp Hps IH]; [simpl; lia|]. destruct ps as [|q qs]; [simpl; lia|].
  cbn [join]. rewrite !length_app. simpl in *. lia.
Qed.

Lemma parse_hex_digits_range s acc z :
  is_u8 acc → parse_hex_digits 8 acc s = Some z → is_u8 z.
Proof.
  revert acc. induction s as [|c s IH]; intros acc Hacc; simpl; [by intros [= <-]|].
  destruct (hex_digit_value c) as [d|] eqn:Hd; [|done]. simpl.
  destruct (Z.ltb_spec (acc * 16 + d) (2 ^ 8)); [|done]. apply IH. unfold is_u8 in *.
  unfold hex_digit_value, is_ascii_digit, in_range in Hd. repeat case_match; simplify_eq; lia.
Qed.
Lemma from_str_radix_16_range s z : from_str_radix_16 8 s = Some z → is_u8 z.
Proof.
  unfold from_str_radix_16. repeat case_match; try done; apply parse_hex_digits_range; unfold is_u8; lia.
Qed.

Lemma parse_path_token_range done_ token path :
  is_bytes done_ → parse_path_token done_ token = Ok path →
  is_bytes path ∧ length path ≤ MAX_CONTACT_PATH_BYTES.
Proof.
  intros Hd. unfold parse_path_token. case_match; [done|].
  destruct (from_str_radix_16 8 _) as [b|] eqn:Hb; [|done]. cbn [ok_or mbind outcome_bind].
  destruct (Nat.ltb_spec MAX_CONTACT_PATH_BYTES (length (done_ ++ [b]))); [done|]. intros [= <-].
  split; [|done]. apply Forall_app. split; [done|]. constructor; [|done]. by eapply from_str_radix_16_range.
Qed.

(** a route typed as hexadecimal bytes is accepted only when it fits the
    device: whole hashes of the width in use, 64 bytes and 63 hops at most; and
    every such route is read back from the way it is written. *)
Theorem explicit_path_roundtrip hash_mode path :
  (∀ raw, parse_explicit_contact_path raw hash_mode = Ok path → valid_path hash_mode path) ∧
  (valid_path hash_mode path → parse_explicit_contact_path (render_path path) hash_mode = Ok path).
Proof.
  split.
  - intros raw. unfold parse_explicit_contact_path. case_match; [done|].
    assert (post (try_fold parse_path_token [] (split_on 0x2c raw))
              (λ p, is_bytes p ∧ length p ≤ MAX_CONTACT_PATH_BYTES) (λ _, True)) as Hp.
    { apply post_try_fold; [by split; [constructor|simpl; unfold MAX_CONTACT_PATH_BYTES; lia]|].
      intros done_ token _ [Hd _]. destruct (parse_path_token done_ token) as [p|e|] eqn:E; simpl; [|done|].
      - by eapply parse_path_token_range.
      - exfalso. revert E. unfold parse_path_token. case_match; [done|].
        destruct (from_str_radix_16 _ _); [|done]. cbn [ok_or mbind outcome_bind]. by case_match. }
    destruct (try_fold _ _ _) as [p|e|]; [|done|done]. cbn [mbind outcome_bind post] in *.
    case_bool_decide as Hne; [done|]. cbn [orb].
    destruct (Nat.eqb_spec (length p mod (Z.to_nat hash_mode + 1)) 0) as [Hm|]; [|done]. cbn [negb].
    destruct (Nat.ltb_spec 63 (length p / (Z.to_nat hash_mode + 1))); [done|]. intros [= ->].
    destruct Hp as [Hb Hl]. split_and!; [done| |done|done|done]. destruct path; [done|simpl; lia].
  - intros (Hb & [Hpos Hl] & Hm & Hh). unfold parse_explicit_contact_path, render_path.
    assert (Forall (λ p : bytes, length p = 2) (hex_byte <$> path)) as H2.
    { apply Forall_fmap, Forall_forall. done. }
    pose proof (length_join 0x2c _ H2) as Hj. rewrite length_fmap in Hj.
    replace (usize_saturating_mul MAX_CONTACT_PATH_BYTES 5) with 320 by done.
    unfold MAX_CONTACT_PATH_BYTES in Hl.
    destruct (Nat.ltb_spec 320 (length (join 0x2c (hex_byte <$> path)))) as [|_]; [lia|].
    rewrite split_on_join; [|by destruct path; [simpl in *; lia|]|].
    2: { apply Forall_fmap, Forall_forall. intros b Hin. eapply Forall_forall in Hb; [|done].
         by apply hex_byte_plain. }
    rewrite parse_path_tokens; [|done|simpl; unfold MAX_CONTACT_PATH_BYTES; lia].
    cbn [mbind outcome_bind app].
    rewrite bool_decide_false by (intros ->; simpl in *; lia). rewrite Hm. cbn [orb Nat.eqb negb].
    destruct (Nat.ltb_spec 63 (length path / (Z.to_nat hash_mode + 1))); [lia|done].
Qed.
