(* ===== verification/Chat.v ===== *)
(** * Command line: the lines of a chat (crates/meshquill-cli/src/runtime.rs)

    [parse_chat_line]: what a line typed in a chat means, and that every text can be
    sent and every command reached. *)

From S2P Require Import Prelude Text Floats Domain Config CliOutput CliArgs Suggest Resolve.

Inductive ParsedChatLine :=
| Chat_Empty
| Chat_Message (text : rstring)
| Chat_Help
| Chat_Contacts (query : option rstring)
| Chat_To (query : rstring)
| Chat_Channel (channel : u8)
| Chat_History (limit : Z)
| Chat_SendRetained
| Chat_DiscardRetained
| Chat_Quit
| Chat_CommandError (command : rstring) (message : rstring) (suggestion : option rstring).

Definition CHAT_HISTORY_DEFAULT : Z := 20.
Definition CHAT_HISTORY_MAX : Z := 100.
Definition CHAT_COMMAND_NAMES : list string :=
  ["/help"; "/contacts"; "/to"; "/channel"; "/history"; "/send"; "/discard"; "/quit"].
Definition CHAT_HELP_COMMANDS : list string :=
  ["/help"; "/contacts [query]"; "/to <contact>"; "/channel <0..255>"; "/history [N]"; "/send"; "/discard";
   "/quit"; "//text"].

(** [line.find(char::is_whitespace)], and the halves of the line. *)
Fixpoint split_command (cs : list Z) : list Z * list Z :=
  match cs with
  | [] => ([], [])
  | c :: cs' => if is_whitespace c then ([], cs) else let '(command, rest) := split_command cs' in (c :: command, rest)
  end.

Definition trim_chars (cs : list Z) : list Z := rev (trim_start (rev (trim_start cs))).

Definition chat_parse_error (command : rstring) (message : string) : ParsedChatLine :=
  Chat_CommandError command (str_bytes message) None.

Definition no_argument_chat_command (arguments command : rstring) (parsed : ParsedChatLine) : ParsedChatLine :=
  if bool_decide (arguments = []) then parsed
  else chat_parse_error command "this command does not accept arguments".

Definition one_chat_argument (arguments : rstring) : option rstring :=
  match split_whitespace (chars arguments) with
  | [value] => Some (of_chars value)
  | _ => None
  end.

Section parse.
Context `{UnicodeTables}.

Definition parse_chat_command (command arguments : rstring) : ParsedChatLine :=
  let named name := bool_decide (command = str_bytes name) in
  if named "/help" then no_argument_chat_command arguments command Chat_Help
  else if named "/contacts" then Chat_Contacts (if bool_decide (arguments = []) then None else Some arguments)
  else if named "/to" then
    if bool_decide (arguments = []) then chat_parse_error command "expected an exact contact name or key prefix"
    else Chat_To arguments
  else if named "/channel" then
    match one_chat_argument arguments ≫= parse_unsigned 8 with
    | Some channel => Chat_Channel channel
    | None => chat_parse_error command "expected one channel index from 0 to 255"
    end
  else if named "/history" then
    if bool_decide (arguments = []) then Chat_History CHAT_HISTORY_DEFAULT
    else
      match one_chat_argument arguments ≫= parse_unsigned 64 with
      | Some limit =>
          if (limit =? 0)%Z then chat_parse_error command "expected one positive history entry count"
          else Chat_History (Z.min limit CHAT_HISTORY_MAX)
      | None => chat_parse_error command "expected one positive history entry count"
      end
  else if named "/send" then no_argument_chat_command arguments command Chat_SendRetained
  else if named "/discard" then no_argument_chat_command arguments command Chat_DiscardRetained
  else if named "/quit" then no_argument_chat_command arguments command Chat_Quit
  else
    Chat_CommandError command (str_bytes "unknown chat command '" ++ command ++ str_bytes "'")
      (closest_suggestion command (str_bytes <$> CHAT_COMMAND_NAMES)).

Definition parse_chat_line (line : rstring) : ParsedChatLine :=
  if trim_is_empty line then Chat_Empty
  else
    match strip_prefix (str_bytes "//") line with
    | Some literal => Chat_Message (str_bytes "/" ++ literal)
    | None =>
        if negb (starts_with (str_bytes "/") line) then Chat_Message line
        else
          let '(command, rest) := split_command (chars line) in
          parse_chat_command (of_chars command) (of_chars (trim_chars rest))
    end.

(** What to type so that a text is sent: a slash is doubled. *)
Definition chat_escape (text : rstring) : rstring :=
  if starts_with (str_bytes "/") text then str_bytes "/" ++ text else text.

Lemma starts_with_slash s : starts_with (str_bytes "/") s = true → ∃ rest, s = 0x2f%Z :: rest.
Proof. unfold starts_with. intros Hs%bool_decide_eq_true. destruct s as [|b s]; [done|]. injection Hs as ->. eauto. Qed.

Lemma slash_not_blank s : trim_is_empty (0x2f%Z :: s) = false.
Proof.
  unfold trim_is_empty, trim. apply bool_decide_eq_false_2.
  change (chars (0x2f%Z :: s)) with (0x2f%Z :: chars s).
  change (trim_start (0x2f%Z :: chars s)) with (0x2f%Z :: chars s). simpl.
  assert (∀ l, trim_start (l ++ [0x2f%Z]) ≠ []) as Hne.
  { intros l. induction l as [|c cs IH]; [done|]. simpl. by destruct (is_whitespace c). }
  intros Hr%(f_equal (@rev Z)). rewrite rev_involutive in Hr. by apply Hne in Hr.
Qed.

(** A command is never a text, and its numbers are within bounds. *)
Definition command_parsed (p : ParsedChatLine) : Prop :=
  match p with
  | Chat_Message _ => False
  | Chat_Channel channel => (0 <= channel < 256)%Z
  | Chat_History limit => (1 <= limit <= CHAT_HISTORY_MAX)%Z
  | _ => True
  end.

Lemma no_argument_parsed arguments command p : command_parsed p →
  command_parsed (no_argument_chat_command arguments command p).
Proof. unfold no_argument_chat_command. by case_bool_decide. Qed.

Lemma parse_chat_command_parsed command arguments : command_parsed (parse_chat_command command arguments).
Proof.
  unfold parse_chat_command.
  destruct (bool_decide _); [by apply no_argument_parsed|]. destruct (bool_decide _); [done|].
  destruct (bool_decide _); [by case_bool_decide|]. destruct (bool_decide _).
  { destruct (one_chat_argument arguments ≫= parse_unsigned 8) as [c|] eqn:Hc; [|done].
    apply bind_Some in Hc as (v & _ & Hv). apply parse_unsigned_range in Hv; [|done]. exact Hv. }
  destruct (bool_decide _).
  { case_bool_decide; [by vm_compute|].
    destruct (one_chat_argument arguments ≫= parse_unsigned 64) as [c|] eqn:Hc; [|done].
    apply bind_Some in Hc as (v & _ & Hv). apply parse_unsigned_range in Hv as [Hv _]; [|done].
    destruct (Z.eqb_spec c 0); [done|]. simpl. unfold CHAT_HISTORY_MAX. lia. }
  repeat (destruct (bool_decide _); [by apply no_argument_parsed|]). done.
Qed.

Lemma parse_chat_line_cases line :
  (∃ text, parse_chat_line line = Chat_Message text ∧ line = chat_escape text) ∨
  parse_chat_line line = Chat_Empty ∨ command_parsed (parse_chat_line line).
Proof.
  unfold parse_chat_line. destruct (trim_is_empty line); [auto|]. unfold strip_prefix.
  destruct (starts_with (str_bytes "//") line) eqn:Hd.
  { left. eexists. split; [done|]. unfold starts_with in Hd. apply bool_decide_eq_true in Hd.
    rewrite <- (take_drop 2 line) at 1. change (length (str_bytes "//")) with 2 in *. by rewrite Hd. }
  destruct (starts_with (str_bytes "/") line) eqn:Hs; simpl.
  - right; right. destruct (split_command (chars line)). apply parse_chat_command_parsed.
  - left. exists line. split; [done|]. unfold chat_escape. by rewrite Hs.
Qed.

(** every text can be sent from a chat, and every command reached.  A text that is
    not blank is sent as it is typed, with a leading slash doubled; a line that starts
    with a single slash is never sent; the number of a channel and the count of a
    history are taken within their bounds. *)
Theorem chat_lines_complete :
  (∀ text, trim_is_empty text = false → parse_chat_line (chat_escape text) = Chat_Message text) ∧
  (∀ line text, parse_chat_line line = Chat_Message text → line = chat_escape text) ∧
  (∀ line channel, parse_chat_line line = Chat_Channel channel → (0 <= channel < 256)%Z) ∧
  (∀ line limit, parse_chat_line line = Chat_History limit → (1 <= limit <= CHAT_HISTORY_MAX)%Z).
Proof.
  split_and!.
  - intros text Hb. unfold chat_escape. destruct (starts_with (str_bytes "/") text) eqn:Hs.
    + destruct (starts_with_slash text Hs) as [rest ->]. unfold parse_chat_line.
      change (str_bytes "/" ++ 0x2f%Z :: rest) with (0x2f%Z :: 0x2f%Z :: rest). by rewrite slash_not_blank.
    + unfold parse_chat_line. rewrite Hb. unfold strip_prefix.
      destruct (starts_with (str_bytes "//") text) eqn:Hd; [|by rewrite Hs].
      unfold starts_with in Hs, Hd. apply bool_decide_eq_true in Hd. apply bool_decide_eq_false in Hs.
      destruct Hs. destruct text; [done|]. by injection Hd as ->.
  - intros line text Hl. destruct (parse_chat_line_cases line) as [(t & Ht & ->)|[He|Hc]]; [congruence..|].
    by rewrite Hl in Hc.
  - intros line channel Hl. destruct (parse_chat_line_cases line) as [(t & Ht & _)|[He|Hc]]; [congruence..|].
    by rewrite Hl in Hc.
  - intros line limit Hl. destruct (parse_chat_line_cases line) as [(t & Ht & _)|[He|Hc]]; [congruence..|].
    by rewrite Hl in Hc.
Qed.
End parse.
