(* ===== verification/Batch.v ===== *)
(** * Command line: batch files and contact filters (crates/meshquill-cli/src/batch_cli.rs)

    The bounded script reader with its shell-like lexer, the commands a script may
    hold, the options it inherits, the filters of [batch contacts], and the two
    drivers.  [clap]'s parser is a parameter, and so is the dispatcher of the nested
    commands, which acts on a world of its own.  The second half shows what a line means
    and what a file does. *)

From S2P Require Import Prelude Text Order Floats Domain Store Config CliOutput CliArgs Suggest Resolve.

Definition MAX_SCRIPT_BYTES : Z := 256 * 1024.
Definition MAX_COMMANDS : nat := 1000.
Definition MAX_LINE_BYTES : nat := 4096.

(** ** The lexer *)

Inductive Quote := Quote_Single | Quote_Double.

(** The variables of the loop of [lex_line]. *)
Record Lexer := mkLexer {
  Lexer_words : list (list Z);
  Lexer_word : list Z;
  Lexer_quote : option Quote;
  Lexer_escaped : bool;
  Lexer_started : bool
}.

Definition single_quote : Z := 0x27.
Definition double_quote : Z := 0x22.
Definition backslash : Z := 0x5c.
Definition hash_sign : Z := 0x23.

(** One character; [None] is the [break] at a comment. *)
Definition lex_char (lx : Lexer) (character : Z) : option Lexer :=
  let '(mkLexer words word quote escaped started) := lx in
  if escaped then Some (mkLexer words (word ++ [character]) quote false true)
  else
    match quote with
    | Some Quote_Single =>
        if (character =? single_quote)%Z then Some (mkLexer words word None false true)
        else Some (mkLexer words (word ++ [character]) quote false true)
    | Some Quote_Double =>
        if (character =? double_quote)%Z then Some (mkLexer words word None false true)
        else if (character =? backslash)%Z then Some (mkLexer words word quote true true)
        else Some (mkLexer words (word ++ [character]) quote false true)
    | None =>
        if (character =? hash_sign)%Z then None
        else if is_whitespace character then
          if started then Some (mkLexer (words ++ [word]) [] None false false)
          else Some (mkLexer words word None false false)
        else if (character =? single_quote)%Z then Some (mkLexer words word (Some Quote_Single) false true)
        else if (character =? double_quote)%Z then Some (mkLexer words word (Some Quote_Double) false true)
        else if (character =? backslash)%Z then Some (mkLexer words word None true true)
        else Some (mkLexer words (word ++ [character]) None false true)
    end.

Fixpoint lex_loop (lx : Lexer) (characters : list Z) : Lexer :=
  match characters with
  | [] => lx
  | character :: characters =>
      match lex_char lx character with
      | Some lx => lex_loop lx characters
      | None => lx
      end
  end.

Definition lex_end (lx : Lexer) : outcome string (list (list Z)) :=
  if Lexer_escaped lx then Err "line ends with an incomplete backslash escape"
  else if bool_decide (is_Some (Lexer_quote lx)) then Err "line contains an unterminated quote"
  else Ok (if Lexer_started lx then Lexer_words lx ++ [Lexer_word lx] else Lexer_words lx).

Definition lex_start : Lexer := mkLexer [] [] None false false.
Definition lex_chars (characters : list Z) : outcome string (list (list Z)) :=
  lex_end (lex_loop lex_start characters).

Definition lex_line (line : rstring) : outcome string (list rstring) :=
  words ← lex_chars (chars line);
  Ok (map of_chars words).

(** ** What a line may hold *)

Definition LONG_GLOBALS : list rstring :=
  str_bytes <$> ["--profile"; "--config"; "--data-dir"; "--output"; "--non-interactive"; "--yes"; "--timeout";
                 "--color"; "--quiet"; "--verbose"].

(** [word.chars().skip(1).any(|value| matches!(value, 'q' | 'v'))]. *)
Definition short_global (word : rstring) : bool :=
  negb (starts_with (str_bytes "--") word) && starts_with (str_bytes "-") word
  && existsb (λ c, (c =? 0x71)%Z || (c =? 0x76)%Z) (drop 1 (chars word)).

Fixpoint has_line_global_option (words : list rstring) : bool :=
  match words with
  | [] => false
  | word :: words =>
      if bool_decide (word = str_bytes "--") then false
      else
        let long_name := from_option fst word (split_once 0x3d word) in
        if bool_decide (long_name ∈ LONG_GLOBALS) then true
        else if short_global word then true
        else has_line_global_option words
  end.

Definition validate_nested_command (command : Command) : outcome string () :=
  match command with
  | Command_Batch _ => Err "nested batch commands are not allowed"
  | Command_Init _ => Err "init is not allowed inside a batch file"
  | Command_Config Config_Show | Command_Profiles Profile_List => Ok ()
  | Command_Config _ => Err "configuration mutation is not allowed inside a batch file"
  | Command_Profiles _ => Err "profile mutation is not allowed inside a batch file"
  | Command_Watch _ | Command_Chat _ | Command_Mqtt MqttCommand_Bridge =>
      Err "streaming commands are not allowed inside a batch file"
  | Command_Connect args =>
      if Connect_watch args then Err "streaming commands are not allowed inside a batch file" else Ok ()
  | Command_Mqtt (MqttCommand_Configure _) =>
      Err "configuration mutation is not allowed inside a batch file"
  | Command_Completions _ | Command_Manpages _ =>
      Err "artifact generation is not allowed inside a batch file"
  | _ => Ok ()
  end.

Definition inherit_globals (parent nested : Cli) : Cli :=
  mkCli (Cli_profile parent) (Cli_config parent) (Cli_data_dir parent) Output_Json true (Cli_yes parent)
    (Cli_timeout parent) Color_Never true (Cli_verbose parent) (Cli_command nested).

(** ** Errors *)

(** [terminal_safe] on the text of a message. *)
Definition safe_text (text : string) : string := bytes_str (terminal_safe (str_bytes text)).

Definition line_error (line : usize) (message : string) : CliError :=
  CliError_new Exit_Usage ("batch line " +:+ pretty line +:+ ": " +:+ safe_text message).

Definition contextual_error (error : CliError) (context : string) : CliError :=
  let contextual := CliError_new (CliError_status error)
                      (safe_text context +:+ ": " +:+ safe_text (CliError_message error)) in
  match CliError_hint error with
  | Some hint => with_hint contextual (safe_text hint)
  | None => contextual
  end.

Definition batch_file_error (path : bytes) (action : string) (error : IoError) : CliError :=
  CliError_new (if bool_decide (IoError_kind error = NotFound) then Exit_NotFound else Exit_Usage)
    ("could not " +:+ action +:+ " batch file '" +:+ bytes_str (terminal_safe path) +:+ "'").

(** ** Reading and parsing a script *)

(** What the operating system answers about the script file: opening it, its
    metadata (whether it is a regular file, and its length), its contents. *)
Record ScriptFile := mkScriptFile {
  Script_open : outcome IoError ();
  Script_metadata : outcome IoError (bool * Z);
  Script_contents : outcome IoError bytes
}.

Definition script_too_large : CliError :=
  CliError_new Exit_Usage ("batch file exceeds the " +:+ pretty MAX_SCRIPT_BYTES +:+ "-byte limit").

(** [take(MAX + 1).read_to_end]: a file that grew is noticed by the extra byte. *)
Definition read_script (path : bytes) (file : ScriptFile) : outcome CliError rstring :=
  _ ← map_err (batch_file_error path "open") (Script_open file);
  '(is_file, length_) ← map_err (batch_file_error path "inspect") (Script_metadata file);
  if negb is_file then Err (CliError_new Exit_Usage "batch input must be a regular file")
  else if (MAX_SCRIPT_BYTES <? length_)%Z then Err script_too_large
  else
    contents ← map_err (batch_file_error path "read") (Script_contents file);
    let bytes := take (Z.to_nat (MAX_SCRIPT_BYTES + 1)) contents in
    if (MAX_SCRIPT_BYTES <? Z.of_nat (length bytes))%Z then Err script_too_large
    else ok_or (from_utf8 bytes) (CliError_new Exit_Usage "batch file must contain valid UTF-8").

Record ParsedCommand := mkParsedCommand { Parsed_line : usize; Parsed_cli : Cli }.

Section script.
(** [Cli::try_parse_from]: the arguments, or the text of [clap]'s error. *)
Context (try_parse_from : list rstring → outcome string Cli).

Definition parse_command_line (parent : Cli) (line : rstring) (line_number : usize) :
    outcome CliError (option Cli) :=
  words ← map_err (line_error line_number) (lex_line line);
  if bool_decide (words = []) then Ok None
  else if has_line_global_option words then
    Err (line_error line_number "global options are not allowed inside a batch file")
  else
    parsed ← map_err (λ error, line_error line_number
                        ("command could not be parsed: " +:+ safe_text error))
               (try_parse_from (str_bytes "meshquill" :: words));
    _ ← map_err (line_error line_number) (validate_nested_command (Cli_command parsed));
    Ok (Some (inherit_globals parent parsed)).

Definition parse_script_line (parent : Cli) (commands : list ParsedCommand) (line_number : usize)
    (line : rstring) : outcome CliError (list ParsedCommand) :=
  if MAX_LINE_BYTES <? length line then
    Err (line_error line_number ("line exceeds the " +:+ pretty MAX_LINE_BYTES +:+ "-byte limit"))
  else if existsb (λ b, b =? 0)%Z line then Err (line_error line_number "NUL is not allowed")
  else
    parsed ← parse_command_line parent line line_number;
    match parsed with
    | None => Ok commands
    | Some cli =>
        if length commands =? MAX_COMMANDS then
          Err (line_error line_number
                 ("batch files may contain at most " +:+ pretty MAX_COMMANDS +:+ " commands"))
        else Ok (commands ++ [mkParsedCommand line_number cli])
    end.

Definition parse_script (parent : Cli) (script : rstring) : outcome CliError (list ParsedCommand) :=
  try_fold (λ commands '(line_index, line), parse_script_line parent commands (line_index + 1) line) []
    (imap pair (lines script)).

(** ** Running a script *)

Context {W Value : Type}.
(** [dispatch_json]: one nested command on the world, and the JSON value it wrote. *)
Context (dispatch_json : Cli → W → outcome CliError Value * W).

Record BatchRunEntry := mkBatchRunEntry { BatchRun_line : usize; BatchRun_result : Value }.

Fixpoint run_commands (commands : list ParsedCommand) (results : list BatchRunEntry) (w : W) :
    outcome CliError (list BatchRunEntry) * W :=
  match commands with
  | [] => (Ok results, w)
  | command :: commands =>
      match dispatch_json (Parsed_cli command) w with
      | (Ok result, w) =>
          run_commands commands (results ++ [mkBatchRunEntry (Parsed_line command) result]) w
      | (Err error, w) =>
          (Err (contextual_error error ("batch line " +:+ pretty (Parsed_line command))), w)
      | (Panic, w) => (Panic, w)
      end
  end.

Definition run_file (parent : Cli) (path : bytes) (file : ScriptFile) (w : W) :
    outcome CliError (list BatchRunEntry) * W :=
  match read_script path file ≫= parse_script parent with
  | Ok commands => run_commands commands [] w
  | Err error => (Err error, w)
  | Panic => (Panic, w)
  end.
End script.

(** ** Filtered contacts *)

Inductive BatchOperation :=
| Operation_RemoteStatus | Operation_RemoteOwner | Operation_RemoteRegions | Operation_RemoteClock
| Operation_SensorTelemetry | Operation_PathDiscover | Operation_PathReset.
#[global] Instance BatchOperation_eq_dec : EqDecision BatchOperation.
Proof. solve_decision. Defined.

Definition operation_usage_error : CliError :=
  with_hint (CliError_new Exit_Usage "unsupported batch contact operation")
    "Use remote-status, remote-owner, remote-regions, remote-clock, sensor-telemetry, path-discover, or path-reset.".

Definition BatchOperation_name (self : BatchOperation) : string :=
  match self with
  | Operation_RemoteStatus => "remote-status" | Operation_RemoteOwner => "remote-owner"
  | Operation_RemoteRegions => "remote-regions" | Operation_RemoteClock => "remote-clock"
  | Operation_SensorTelemetry => "sensor-telemetry" | Operation_PathDiscover => "path-discover"
  | Operation_PathReset => "path-reset"
  end.

Definition BatchOperation_parse (value : rstring) : outcome CliError BatchOperation :=
  let value := trimmed value in
  let is_name name := bool_decide (value = str_bytes name) in
  if is_name "remote-status" then Ok Operation_RemoteStatus
  else if is_name "remote-owner" then Ok Operation_RemoteOwner
  else if is_name "remote-regions" then Ok Operation_RemoteRegions
  else if is_name "remote-clock" then Ok Operation_RemoteClock
  else if is_name "sensor-telemetry" then Ok Operation_SensorTelemetry
  else if is_name "path-discover" then Ok Operation_PathDiscover
  else if is_name "path-reset" then Ok Operation_PathReset
  else Err operation_usage_error.

Definition BatchOperation_argv (self : BatchOperation) (public_key : rstring) : list rstring :=
  let command := match self with
                 | Operation_RemoteStatus => ["remote"; "status"]
                 | Operation_RemoteOwner => ["remote"; "owner"]
                 | Operation_RemoteRegions => ["remote"; "regions"]
                 | Operation_RemoteClock => ["remote"; "clock"]
                 | Operation_SensorTelemetry => ["sensor"; "telemetry"]
                 | Operation_PathDiscover => ["contacts"; "path"; "discover"]
                 | Operation_PathReset => ["contacts"; "path"; "reset"]
                 end in
  [str_bytes "meshquill"] ++ map str_bytes command ++ [public_key].

Inductive FilterKind := Filter_Client | Filter_Repeater | Filter_Room | Filter_Sensor.
Inductive FilterClause :=
| Clause_Kind (kind : FilterKind)
| Clause_NameContains (needle : rstring)
| Clause_Favorite (required : bool).
Inductive ContactFilter :=
| Filter_All
| Filter_Clauses (clauses : list FilterClause).

Definition filter_usage_error : CliError :=
  with_hint (CliError_new Exit_Usage "invalid batch contact filter")
    "Use 'all' or comma-separated type=client|repeater|room|sensor, name~TEXT, and favorite=true|false clauses.".

Definition filter_kind_matches (contact_type : ContactType) (required : FilterKind) : bool :=
  match contact_type, required with
  | ContactType_Chat, Filter_Client | ContactType_Repeater, Filter_Repeater
  | ContactType_Room, Filter_Room | ContactType_Sensor, Filter_Sensor => true
  | _, _ => false
  end.

Section filters.
Context `{UnicodeTables}.

Definition parse_filter_clause (value : rstring) : outcome CliError FilterClause :=
  match strip_prefix (str_bytes "type=") value with
  | Some kind =>
      if bool_decide (kind = str_bytes "client") then Ok (Clause_Kind Filter_Client)
      else if bool_decide (kind = str_bytes "repeater") then Ok (Clause_Kind Filter_Repeater)
      else if bool_decide (kind = str_bytes "room") then Ok (Clause_Kind Filter_Room)
      else if bool_decide (kind = str_bytes "sensor") then Ok (Clause_Kind Filter_Sensor)
      else Err filter_usage_error
  | None =>
      match strip_prefix (str_bytes "name~") value with
      | Some name =>
          let name := trimmed name in
          if negb (bool_decide (name = [])) && negb (existsb (λ b, b =? 0)%Z name) then
            Ok (Clause_NameContains (to_lowercase name))
          else Err filter_usage_error
      | None =>
          match strip_prefix (str_bytes "favorite=") value with
          | Some favorite =>
              if bool_decide (favorite = str_bytes "true") then Ok (Clause_Favorite true)
              else if bool_decide (favorite = str_bytes "false") then Ok (Clause_Favorite false)
              else Err filter_usage_error
          | None => Err filter_usage_error
          end
      end
  end.

(** [map(parse).collect::<Result<Vec<_>, _>>()]. *)
Fixpoint parse_clauses (values : list rstring) : outcome CliError (list FilterClause) :=
  match values with
  | [] => Ok []
  | value :: values =>
      clause ← parse_filter_clause (trimmed value);
      clauses ← parse_clauses values;
      Ok (clause :: clauses)
  end.

Definition ContactFilter_parse (value : rstring) : outcome CliError ContactFilter :=
  let value := trimmed value in
  if bool_decide (value = str_bytes "all") then Ok Filter_All
  else if bool_decide (value = []) then Err filter_usage_error
  else
    clauses ← parse_clauses (split_on 0x2c value);
    if bool_decide (length clauses = 0) then Err filter_usage_error
    else Ok (Filter_Clauses clauses).

Definition clause_matches (kind : ContactType) (name : rstring) (favorite : bool) (clause : FilterClause) : bool :=
  match clause with
  | Clause_Kind required => filter_kind_matches kind required
  | Clause_NameContains needle => contains needle (to_lowercase name)
  | Clause_Favorite required => Bool.eqb favorite required
  end.
Definition matches_fields (self : ContactFilter) (kind : ContactType) (name : rstring) (favorite : bool) : bool :=
  match self with
  | Filter_All => true
  | Filter_Clauses clauses => forallb (clause_matches kind name favorite) clauses
  end.
Definition ContactFilter_matches (self : ContactFilter) (contact : Contact) : bool :=
  matches_fields self (Contact_contact_type contact) (Contact_adv_name contact)
    (negb (Z.land (Contact_flags contact) 1 =? 0)%Z).
End filters.

(** The command for one contact: the fixed arguments with its whole key; a path
    reset has been confirmed for all of them. *)
Definition generated_cli (try_parse_from : list rstring → outcome string Cli) (parent : Cli)
    (operation : BatchOperation) (public_key : rstring) : outcome CliError Cli :=
  cli ← map_err (λ _, CliError_new Exit_Protocol "the fixed batch contact command could not be parsed")
          (try_parse_from (BatchOperation_argv operation public_key));
  let cli := inherit_globals parent cli in
  Ok (if bool_decide (operation = Operation_PathReset) then
        mkCli (Cli_profile cli) (Cli_config cli) (Cli_data_dir cli) (Cli_output cli)
          (Cli_non_interactive cli) true (Cli_timeout cli) (Cli_color cli) (Cli_quiet cli) (Cli_verbose cli)
          (Cli_command cli)
      else cli).

(** * Command line: what a batch file means and does

    The lexer accepts exactly the lines of a grammar, with their words; a script is
    accepted as a whole or not at all, within its bounds and with only commands
    that may be in it; and running it dispatches its commands in order up to the
    first failure. *)

(** ** The grammar of a line *)

(** Text between double quotes, and what it stands for. *)
Inductive quoted : list Z → list Z → Prop :=
| quoted_nil : quoted [] []
| quoted_plain c s v : c ≠ double_quote → c ≠ backslash → quoted s v → quoted (c :: s) (c :: v)
| quoted_escape c s v : quoted s v → quoted (backslash :: c :: s) (c :: v).

Definition plain_char (c : Z) : Prop :=
  c ≠ hash_sign ∧ is_whitespace c = false ∧ c ≠ single_quote ∧ c ≠ double_quote ∧ c ≠ backslash.

(** A piece of a word, and what it stands for. *)
Inductive piece : list Z → list Z → Prop :=
| piece_plain c : plain_char c → piece [c] [c]
| piece_escape c : piece [backslash; c] [c]
| piece_single s : single_quote ∉ s → piece (single_quote :: s ++ [single_quote]) s
| piece_double s v : quoted s v → piece (double_quote :: s ++ [double_quote]) v.

Inductive pieces : list Z → list Z → Prop :=
| pieces_nil : pieces [] []
| pieces_cons s v s' v' : piece s v → pieces s' v' → pieces (s ++ s') (v ++ v').

(** Where a word ends. *)
Definition boundary (rest : list Z) : Prop :=
  match rest with [] => True | c :: _ => c = hash_sign ∨ is_whitespace c = true end.

(** A line and its words: white space separates, and a number sign outside quotes
    starts a comment. *)
Inductive line_of : list Z → list (list Z) → Prop :=
| line_end : line_of [] []
| line_comment s : line_of (hash_sign :: s) []
| line_blank c s words : is_whitespace c = true → line_of s words → line_of (c :: s) words
| line_word s v s' v' rest words :
    piece s v → pieces s' v' → boundary rest → line_of rest words →
    line_of (s ++ s' ++ rest) ((v ++ v') :: words).

(** ** The lexer implements the grammar *)

Ltac lex_eqbs := repeat match goal with
  | |- context [(?a =? ?b)%Z] => destruct (Z.eqb_spec a b); try (exfalso; congruence)
  end.

Lemma lex_single ws w st s r : single_quote ∉ s →
  lex_loop (mkLexer ws w (Some Quote_Single) false st) (s ++ single_quote :: r)
  = lex_loop (mkLexer ws (w ++ s) None false true) r.
Proof.
  revert w st. induction s as [|c s IH]; intros w st Hs; [by rewrite app_nil_r|].
  apply not_elem_of_cons in Hs as [Hc Hs]. cbn [app lex_loop lex_char]. lex_eqbs.
  rewrite IH by done. by rewrite <- app_assoc.
Qed.
Lemma lex_single_open ws w st s : single_quote ∉ s →
  lex_end (lex_loop (mkLexer ws w (Some Quote_Single) false st) s) = Err "line contains an unterminated quote".
Proof.
  revert w st. induction s as [|c s IH]; intros w st Hs; [done|].
  apply not_elem_of_cons in Hs as [Hc Hs]. cbn [lex_loop lex_char]. lex_eqbs. by apply IH.
Qed.

Lemma lex_double ws w st s v r : quoted s v →
  lex_loop (mkLexer ws w (Some Quote_Double) false st) (s ++ double_quote :: r)
  = lex_loop (mkLexer ws (w ++ v) None false true) r.
Proof.
  intros Hq. revert w st. induction Hq as [|c s v Hd Hb _ IH|c s v _ IH]; intros w st.
  - by rewrite app_nil_r.
  - cbn [app lex_loop lex_char]. lex_eqbs. rewrite IH. by rewrite <- app_assoc.
  - cbn [app lex_loop lex_char]. rewrite Z.eqb_refl. cbn [lex_loop lex_char].
    change (backslash =? double_quote)%Z with false. cbn [lex_loop lex_char].
    rewrite IH. by rewrite <- app_assoc.
Qed.
Lemma lex_double_split cs :
  (∃ s v r, cs = s ++ double_quote :: r ∧ quoted s v) ∨
  ∀ ws w st, ∃ e, lex_end (lex_loop (mkLexer ws w (Some Quote_Double) false st) cs) = Err e.
Proof.
  induction cs as [cs IH] using (induction_ltof1 _ (@length Z)). unfold ltof in IH.
  destruct cs as [|c cs]; [right; intros; by eexists|].
  destruct (decide (c = double_quote)) as [->|Hd]; [left; exists [], [], cs; by repeat constructor|].
  destruct (decide (c = backslash)) as [->|Hb].
  - destruct cs as [|c cs]; [right; intros; by eexists|].
    destruct (IH cs) as [(s & v & r & -> & Hq)|Herr]; [simpl; lia|..].
    + left. exists (backslash :: c :: s), (c :: v), r. split; [done|]. by constructor.
    + right. intros ws w st. cbn [lex_loop lex_char]. change (backslash =? double_quote)%Z with false.
      rewrite Z.eqb_refl. cbn [lex_loop lex_char]. apply Herr.
  - destruct (IH cs) as [(s & v & r & -> & Hq)|Herr]; [simpl; lia|..].
    + left. exists (c :: s), (c :: v), r. split; [done|]. by constructor.
    + right. intros ws w st. cbn [lex_loop lex_char]. lex_eqbs. apply Herr.
Qed.

(** A piece is consumed by the current word. *)
Lemma lex_piece ws w st s v r : piece s v →
  lex_loop (mkLexer ws w None false st) (s ++ r) = lex_loop (mkLexer ws (w ++ v) None false true) r.
Proof.
  intros [c (Hh & Hw & Hs & Hd & Hb)|c|s' Hs|s' v' Hq].
  - cbn [app lex_loop lex_char]. rewrite Hw. by lex_eqbs.
  - done.
  - rewrite <- app_comm_cons, <- app_assoc. cbn [lex_loop lex_char].
    change (is_whitespace single_quote) with false. change (single_quote =? hash_sign)%Z with false.
    rewrite Z.eqb_refl. cbn [app]. by apply lex_single.
  - rewrite <- app_comm_cons, <- app_assoc. cbn [lex_loop lex_char].
    change (is_whitespace double_quote) with false. change (double_quote =? hash_sign)%Z with false.
    change (double_quote =? single_quote)%Z with false. rewrite Z.eqb_refl. cbn [app]. by apply lex_double.
Qed.
Lemma lex_pieces ws w s v r : pieces s v →
  lex_loop (mkLexer ws w None false true) (s ++ r) = lex_loop (mkLexer ws (w ++ v) None false true) r.
Proof.
  intros Hp. revert w. induction Hp as [|s v s' v' Hp _ IH]; intros w; [by rewrite app_nil_r|].
  rewrite <- app_assoc, (lex_piece _ _ _ s v) by done. by rewrite IH, <- app_assoc.
Qed.

Lemma lex_boundary ws w rest : boundary rest →
  lex_end (lex_loop (mkLexer ws w None false true) rest)
  = lex_end (lex_loop (mkLexer (ws ++ [w]) [] None false false) rest).
Proof.
  destruct rest as [|c rest]; [done|]. simpl boundary. intros [->|Hw]; [done|].
  cbn [lex_loop lex_char]. rewrite Hw. by destruct (c =? hash_sign)%Z.
Qed.

Lemma line_of_lexed cs words ws : line_of cs words →
  lex_end (lex_loop (mkLexer ws [] None false false) cs) = Ok (ws ++ words).
Proof.
  intros Hl. revert ws. induction Hl as [|s|c s words Hw Hl IH|s v s' v' rest words Hp Hps Hb Hl IH]; intros ws.
  - by rewrite app_nil_r.
  - by rewrite app_nil_r.
  - cbn [lex_loop lex_char]. rewrite Hw. destruct (Z.eqb_spec c hash_sign) as [->|]; [done|]. apply IH.
  - rewrite (lex_piece _ _ _ s v), (lex_pieces _ _ s' v') by done.
    rewrite lex_boundary by done. simpl. rewrite IH, <- app_assoc. done.
Qed.

(** The next piece of a word, or the line is malformed. *)
Lemma lex_cut c cs : c ≠ hash_sign → is_whitespace c = false →
  (∃ s v r, c :: cs = s ++ r ∧ piece s v ∧ length r < length (c :: cs)) ∨
  ∀ ws w st, ∃ e, lex_end (lex_loop (mkLexer ws w None false st) (c :: cs)) = Err e.
Proof.
  intros Hh Hw.
  destruct (decide (c = single_quote)) as [->|Hs].
  { destruct (decide (single_quote ∈ cs)) as [Hin|Hin].
    - apply list_elem_of_split_l in Hin as (s & r & -> & Hn). left.
      exists (single_quote :: s ++ [single_quote]), s, r. split; [by rewrite <- app_comm_cons, <- app_assoc|].
      split; [by constructor|]. simpl. rewrite length_app. simpl. lia.
    - right. intros ws w st. cbn [lex_loop lex_char]. rewrite Hw.
      change (single_quote =? hash_sign)%Z with false. rewrite Z.eqb_refl. eexists. by apply lex_single_open. }
  destruct (decide (c = double_quote)) as [->|Hd].
  { destruct (lex_double_split cs) as [(s & v & r & -> & Hq)|Herr].
    - left. exists (double_quote :: s ++ [double_quote]), v, r.
      split; [by rewrite <- app_comm_cons, <- app_assoc|]. split; [by constructor|].
      simpl. rewrite length_app. simpl. lia.
    - right. intros ws w st. cbn [lex_loop lex_char]. rewrite Hw.
      change (double_quote =? hash_sign)%Z with false. change (double_quote =? single_quote)%Z with false.
      rewrite Z.eqb_refl. apply Herr. }
  destruct (decide (c = backslash)) as [->|Hb].
  { destruct cs as [|c cs]; [right; intros; by eexists|]. left. exists [backslash; c], [c], cs.
    split; [done|]. split; [by constructor|]. simpl. lia. }
  left. exists [c], [c], cs. split; [done|]. split; [by constructor|]. simpl. lia.
Qed.

Lemma lexed_line_of n cs : length cs ≤ n →
  (∀ ws out, lex_end (lex_loop (mkLexer ws [] None false false) cs) = Ok out →
     ∃ words, out = ws ++ words ∧ line_of cs words) ∧
  (∀ ws w out, lex_end (lex_loop (mkLexer ws w None false true) cs) = Ok out →
     ∃ s v rest words, cs = s ++ rest ∧ pieces s v ∧ boundary rest ∧ line_of rest words ∧
       out = ws ++ (w ++ v) :: words).
Proof.
  revert cs. induction n as [|n IH]; intros [|c cs] Hn; simpl in Hn; try lia.
  1, 2: split; [intros ws out [= <-]; exists []; rewrite app_nil_r; split; [done|apply line_end]|];
    intros ws w out [= <-]; exists [], [], [], []; rewrite !app_nil_r;
    split_and!; [done|apply pieces_nil|done|apply line_end|done].
  assert (length cs ≤ n) as Hcs by lia.
  destruct (decide (c = hash_sign)) as [->|Hh].
  { split; [intros ws out [= <-]; exists []; rewrite app_nil_r; split; [done|apply line_comment]|].
    intros ws w out [= <-]. exists [], [], (hash_sign :: cs), []. rewrite app_nil_r.
    split_and!; [done|apply pieces_nil|by left|apply line_comment|done]. }
  destruct (is_whitespace c) eqn:Hw.
  { assert (∀ ws out, lex_end (lex_loop (mkLexer ws [] None false false) cs) = Ok out →
            ∃ words, out = ws ++ words ∧ line_of (c :: cs) words) as Hblank.
    { intros ws out (words & -> & Hl)%(proj1 (IH cs Hcs)). exists words. split; [done|]. by apply line_blank. }
    split.
    - intros ws out. cbn [lex_loop lex_char]. rewrite Hw. lex_eqbs. apply Hblank.
    - intros ws w out. cbn [lex_loop lex_char]. rewrite Hw. lex_eqbs.
      intros (words & -> & Hl)%Hblank. exists [], [], (c :: cs), words. rewrite app_nil_r, <- app_assoc.
      split_and!; [done|apply pieces_nil|by right|done|done]. }
  destruct (lex_cut c cs Hh Hw) as [(s & v & r & Heq & Hp & Hr)|Herr].
  2: { split; [intros ws out; destruct (Herr ws [] false) as [e ->]; done|].
       intros ws w out. destruct (Herr ws w true) as [e ->]. done. }
  rewrite Heq. assert (length r ≤ n) as Hrn by (simpl in *; lia). destruct (IH r Hrn) as [_ Hword].
  assert (∀ ws w st out, lex_end (lex_loop (mkLexer ws w None false st) (s ++ r)) = Ok out →
    ∃ s' v' rest words, r = s' ++ rest ∧ pieces s' v' ∧ boundary rest ∧ line_of rest words ∧
      out = ws ++ (w ++ v ++ v') :: words) as Hgo.
  { intros ws w st out. rewrite (lex_piece _ _ _ s v) by done.
    intros (s' & v' & rest & words & -> & ? & ? & ? & ->)%Hword. exists s', v', rest, words.
    by rewrite <- app_assoc. }
  split.
  - intros ws out (s' & v' & rest & words & -> & ? & ? & ? & ->)%Hgo. exists ((v ++ v') :: words).
    split; [done|]. by apply line_word.
  - intros ws w out (s' & v' & rest & words & -> & ? & ? & ? & ->)%Hgo.
    exists (s ++ s'), (v ++ v'), rest, words. split_and!; [by rewrite app_assoc|by constructor|done|done|done].
Qed.

Lemma lex_chars_line_of cs words : lex_chars cs = Ok words ↔ line_of cs words.
Proof.
  unfold lex_chars, lex_start. split.
  - intros (words' & -> & Hl)%(proj1 (lexed_line_of (length cs) cs (le_n _))). done.
  - intros Hl. by rewrite (line_of_lexed cs words []).
Qed.

(** C37: the lexer of batch lines accepts exactly the lines of the grammar, with exactly their
    words: quotes and backslashes protect, white space outside quotes separates,
    a number sign outside quotes starts a comment, empty words can be quoted, and
    an unfinished escape or quote is an error. *)
Theorem lex_line_grammar line words :
  lex_line line = Ok words ↔ ∃ ws, line_of (chars line) ws ∧ words = map of_chars ws.
Proof.
  unfold lex_line. setoid_rewrite <- lex_chars_line_of.
  destruct (lex_chars (chars line)) as [ws|e|]; simpl; naive_solver.
Qed.

(** ** Quoting *)

(** A word in double quotes, and a line of quoted words. *)
Definition escape_char (c : Z) : list Z :=
  if bool_decide (c = double_quote ∨ c = backslash) then [backslash; c] else [c].
Definition quote_word (word : list Z) : list Z := double_quote :: (word ≫= escape_char) ++ [double_quote].
Fixpoint quote_line (words : list (list Z)) : list Z :=
  match words with
  | [] => []
  | word :: words => quote_word word ++ 0x20%Z :: quote_line words
  end.

Lemma quoted_escape_char word : quoted (word ≫= escape_char) word.
Proof.
  induction word as [|c word IH]; [constructor|]. rewrite bind_cons. unfold escape_char at 1.
  case_bool_decide as Hc; simpl; constructor; naive_solver.
Qed.

Lemma quote_line_of words : line_of (quote_line words) words.
Proof.
  induction words as [|word words IH]; [constructor|]. simpl. unfold quote_word.
  rewrite <- (app_nil_r word) at 2.
  apply (line_word (double_quote :: (word ≫= escape_char) ++ [double_quote]) word [] []
           (0x20%Z :: quote_line words) words).
  - apply piece_double, quoted_escape_char.
  - apply pieces_nil.
  - by right.
  - by apply line_blank.
Qed.

(** Any words can be written on a line. *)
Lemma quoted_line_lexed words : Forall (Forall is_scalar) words →
  lex_line (of_chars (quote_line words)) = Ok (map of_chars words).
Proof.
  intros Hw. unfold lex_line. rewrite chars_of_chars_nil.
  { by rewrite (proj2 (lex_chars_line_of _ _) (quote_line_of words)). }
  assert (∀ c, c ∈ [double_quote; backslash; 0x20%Z] → is_scalar c) as Hsp.
  { intros c. rewrite !elem_of_cons, elem_of_nil. unfold double_quote, backslash, is_scalar. lia. }
  induction Hw as [|word words Hword _ IH]; [constructor|]. cbn [quote_line]. unfold quote_word.
  apply Forall_app. split; [|constructor; [apply Hsp; set_solver|done]].
  constructor; [apply Hsp; set_solver|]. apply Forall_app. split; [|apply Forall_singleton, Hsp; set_solver].
  apply Forall_forall. intros d (c & Hd & Hc)%list_elem_of_bind. eapply Forall_forall in Hword; [|done].
  unfold escape_char in Hd. case_bool_decide; [|by apply list_elem_of_singleton in Hd as ->].
  rewrite !elem_of_cons, elem_of_nil in Hd. destruct Hd as [->|[->|[]]]; [apply Hsp; set_solver|done].
Qed.

(** ** Scripts *)

(** What a script may hold. *)
Definition may_be_nested (command : Command) : Prop :=
  is_stream command = false ∧
  match command with
  | Command_Batch _ | Command_Init _ | Command_Completions _ | Command_Manpages _ => False
  | Command_Config command => command = Config_Show
  | Command_Profiles command => command = Profile_List
  | Command_Mqtt (MqttCommand_Configure _) => False
  | _ => True
  end.

Lemma validate_nested_ok command : validate_nested_command command = Ok () → may_be_nested command.
Proof. unfold may_be_nested. destruct command; simpl; repeat case_match; naive_solver. Qed.

(** The options of a nested command: those of the batch, and never a prompt, a
    colour or a human rendering. *)
Definition inherits (parent cli : Cli) : Prop :=
  Cli_profile cli = Cli_profile parent ∧ Cli_config cli = Cli_config parent ∧
  Cli_data_dir cli = Cli_data_dir parent ∧ Cli_timeout cli = Cli_timeout parent ∧
  Cli_yes cli = Cli_yes parent ∧ Cli_output cli = Output_Json ∧ Cli_non_interactive cli = true ∧
  Cli_color cli = Color_Never.

Section script.
Context (try_parse_from : list rstring → outcome string Cli).

(** A command is on a line of the script that is in bounds, has no global option,
    and parses to a command that may be nested. *)
Definition from_line (parent : Cli) (line : rstring) (cli : Cli) : Prop :=
  length line ≤ MAX_LINE_BYTES ∧ 0%Z ∉ line ∧
  ∃ words parsed, lex_line line = Ok words ∧ words ≠ [] ∧ has_line_global_option words = false ∧
    try_parse_from (str_bytes "meshquill" :: words) = Ok parsed ∧
    Cli_command cli = Cli_command parsed ∧ may_be_nested (Cli_command cli) ∧ inherits parent cli.

(** The commands of the first lines of a script: each from its line, in order, and
    the other lines blank. *)
Inductive commands_of (parent : Cli) : nat → list rstring → list ParsedCommand → Prop :=
| commands_nil n : commands_of parent n [] []
| commands_blank n line ls commands :
    lex_line line = Ok [] → commands_of parent (S n) ls commands → commands_of parent n (line :: ls) commands
| commands_line n line ls cli commands :
    from_line parent line cli → commands_of parent (S n) ls commands →
    commands_of parent n (line :: ls) (mkParsedCommand (n + 1) cli :: commands).

Lemma parse_script_line_spec parent commands n line commands' :
  parse_script_line try_parse_from parent commands n line = Ok commands' →
  length commands ≤ MAX_COMMANDS → length commands' ≤ MAX_COMMANDS ∧
  ((lex_line line = Ok [] ∧ commands' = commands) ∨
   ∃ cli, from_line parent line cli ∧ commands' = commands ++ [mkParsedCommand n cli]).
Proof.
  unfold parse_script_line. intros H Hc.
  destruct (Nat.ltb_spec MAX_LINE_BYTES (length line)) as [|Hl]; [done|].
  destruct (existsb (λ b, (b =? 0)%Z) line) eqn:Hnul; [done|].
  unfold parse_command_line in H. destruct (lex_line line) as [words|e|] eqn:Hlex; [|done|done].
  cbn [map_err mbind outcome_bind] in H. case_bool_decide as Hw; [subst; simplify_eq/=; naive_solver|].
  destruct (has_line_global_option words) eqn:Hg; [done|].
  destruct (try_parse_from _) as [parsed|e|] eqn:Hp; [|done|done]. cbn [map_err mbind outcome_bind] in H.
  destruct (validate_nested_command _) as [[]|e|] eqn:Hv; [|done|done]. cbn [map_err mbind outcome_bind] in H.
  destruct (Nat.eqb_spec (length commands) MAX_COMMANDS) as [|Hne]; [done|]. injection H as <-.
  split; [rewrite length_app; simpl; lia|]. right. eexists. split; [|done]. split_and!; [done| |].
  - intros Hin. apply (not_true_iff_false _) in Hnul. apply Hnul, existsb_exists. exists 0%Z.
    split; [by apply list_elem_of_In|done].
  - exists words, parsed. split_and!; try done. by apply validate_nested_ok.
Qed.

Lemma parse_script_spec parent n ls commands commands' :
  try_fold (λ commands '(line_index, line),
              parse_script_line try_parse_from parent commands (line_index + 1) line) commands
    (imap (λ i line, (n + i, line)) ls) = Ok commands' →
  length commands ≤ MAX_COMMANDS → length commands' ≤ MAX_COMMANDS ∧
  ∃ new, commands' = commands ++ new ∧ commands_of parent n ls new.
Proof.
  revert n commands. induction ls as [|line ls IH]; intros n commands H Hc.
  { injection H as <-. split; [done|]. exists []. rewrite app_nil_r. split; [done|constructor]. }
  rewrite imap_cons in H. cbn [try_fold] in H. rewrite Nat.add_0_r in H.
  destruct (parse_script_line _ _ _ _ _) as [mid|e|] eqn:Hl; [|done|done]. cbn [mbind outcome_bind] in H.
  apply parse_script_line_spec in Hl as [Hm Hl]; [|done].
  rewrite (imap_ext _ (λ i line, (S n + i, line))) in H by (intros; unfold compose; f_equal; simpl; lia).
  apply IH in H as [Hlen (new & -> & Hnew)]; [|done]. split; [done|].
  destruct Hl as [[Hb ->]|(cli & Hcli & ->)].
  - exists new. split; [done|]. by apply commands_blank.
  - exists (mkParsedCommand (n + 1) cli :: new). split; [by rewrite <- app_assoc|]. by apply commands_line.
Qed.

Lemma parse_script_ok parent script commands :
  parse_script try_parse_from parent script = Ok commands →
  length commands ≤ MAX_COMMANDS ∧ commands_of parent 0 (lines script) commands.
Proof.
  unfold parse_script. intros H.
  rewrite (imap_ext _ (λ i line, (0 + i, line))) in H by done.
  apply parse_script_spec in H as [Hl (new & -> & Hn)]; [done|simpl; unfold MAX_COMMANDS; lia].
Qed.

(** ** Execution *)

Context {W Value : Type}.
Context (dispatch_json : Cli → W → outcome CliError Value * W).

(** Commands that were dispatched and succeeded, one after the other. *)
Inductive dispatched : list ParsedCommand → W → list (BatchRunEntry (Value := Value)) → W → Prop :=
| dispatched_nil w : dispatched [] w [] w
| dispatched_cons command commands w value w1 entries w2 :
    dispatch_json (Parsed_cli command) w = (Ok value, w1) → dispatched commands w1 entries w2 →
    dispatched (command :: commands) w (mkBatchRunEntry (Parsed_line command) value :: entries) w2.

Lemma run_commands_spec commands results w :
  match run_commands dispatch_json commands results w with
  | (Ok entries, w') => ∃ new, entries = results ++ new ∧ dispatched commands w new w'
  | (Err error, w') =>
      ∃ before command after new w1 cause, commands = before ++ command :: after ∧
        dispatched before w new w1 ∧ dispatch_json (Parsed_cli command) w1 = (Err cause, w') ∧
        error = contextual_error cause ("batch line " +:+ pretty (Parsed_line command))
  | (Panic, w') => ∃ cli w1, dispatch_json cli w1 = (Panic, w')
  end.
Proof.
  revert results w. induction commands as [|command commands IH]; intros results w; simpl.
  { exists []. rewrite app_nil_r. split; [done|constructor]. }
  destruct (dispatch_json (Parsed_cli command) w) as [[value|cause|] w1] eqn:Hd; [|by exists [], command, commands, [], w, cause; repeat constructor|by eauto].
  specialize (IH (results ++ [mkBatchRunEntry (Parsed_line command) value]) w1).
  destruct (run_commands _ _ _ _) as [[entries|error|] w2].
  - destruct IH as (new & -> & Hn). eexists. split; [by rewrite <- app_assoc|]. by econstructor.
  - destruct IH as (before & failing & after & new & w3 & cause & -> & Hb & Hf & ->).
    exists (command :: before), failing, after. do 3 eexists. split; [done|]. split; [by econstructor|done].
  - done.
Qed.

(** C23: a batch file is accepted or refused as a whole.  When it is refused nothing
    has been dispatched; otherwise at most a thousand commands, each from its own
    line within the line bound, none of them a stream, another batch or a change of
    the profiles or of the configuration by [config], none with global options of
    its own and all with those of the batch, are dispatched in order, and the first
    failure ends the run with its line in the diagnostic. *)
Theorem batch_all_or_nothing parent path file w :
  match read_script path file ≫= parse_script try_parse_from parent with
  | Ok commands =>
      ∃ script, read_script path file = Ok script ∧
      length commands ≤ MAX_COMMANDS ∧ commands_of parent 0 (lines script) commands ∧
      match run_file try_parse_from dispatch_json parent path file w with
      | (Ok entries, w') => dispatched commands w entries w'
      | (Err error, w') =>
          ∃ before command after entries w1 cause, commands = before ++ command :: after ∧
            dispatched before w entries w1 ∧ dispatch_json (Parsed_cli command) w1 = (Err cause, w') ∧
            error = contextual_error cause ("batch line " +:+ pretty (Parsed_line command))
      | (Panic, w') => ∃ cli w1, dispatch_json cli w1 = (Panic, w')
      end
  | Err error => run_file try_parse_from dispatch_json parent path file w = (Err error, w)
  | Panic => run_file try_parse_from dispatch_json parent path file w = (Panic, w)
  end.
Proof.
  unfold run_file. destruct (read_script path file) as [script|e|]; [|done|done].
  cbn [mbind outcome_bind]. destruct (parse_script try_parse_from parent script) as [commands|e|] eqn:Hp; [|done|done].
  exists script. split; [done|]. apply parse_script_ok in Hp as [Hl Hc]. split; [done|]. split; [done|].
  pose proof (run_commands_spec commands [] w) as Hr.
  destruct (run_commands dispatch_json commands [] w) as [[entries|error|] w']; [|done|done].
  by destruct Hr as (new & -> & Hd).
Qed.
End script.

(** [doctor --repair] rewrites the configuration and may be in a batch. *)
Lemma doctor_repair_may_be_nested connect :
  validate_nested_command (Command_Doctor (mkDoctorArgs connect true)) = Ok ().
Proof. reflexivity. Qed.

Lemma operation_name_parsed operation :
  BatchOperation_parse (str_bytes (BatchOperation_name operation)) = Ok operation.
Proof. by destruct operation. Qed.
