(* ===== verification/Session.v ===== *)
(** * Command line: the world of a command

    What the commands act on: the managed client behind its handle, the file
    system, the hook runtime, standard output and error, and the interrupt.  The
    class [Companion] is what the rest of the system answers, one call at a time;
    [cli] is the monad of the commands, whose errors are [CliError]s.  Every call
    that matters to the session is logged.

    [protocol] is the specification of a session with a companion: the order in
    which a command may connect, announce, select a scope, transmit, withdraw and
    shut down.  [follows] says that a computation keeps to it. *)

From S2P Require Import Prelude Text Floats Domain Managed Hooks HookRuntime Store History Config CliOutput CliArgs.

(** ** What the commands call *)

(** [timeout_at(deadline, events.recv())]. *)
Inductive Received :=
| Received_Event (event : Domain.Event)
| Received_Lagged (skipped : u64)
| Received_Closed
| Received_Deadline.

Class Companion (W : Type) := {
  (** The transport of a profile and the managed client over it, within the connect
      and the request timeouts ([make_client]). *)
  comp_open : DeviceProfile → Z → Z → W → outcome CliError () * W;
  (** Awaiting a request, alone, and against [interrupt.cancelled()], when [None] is
      the interrupt. *)
  comp_request : ∀ {A}, ActorCommand A → W → (CoreError + A) * W;
  comp_select : ∀ {A}, ActorCommand A → W → option (CoreError + A) * W;
  comp_cancel_pending : W → W;
  (** The next event of the subscription, before a deadline, and against the
      interrupt, when there is no deadline. *)
  comp_event : W → Received * W;
  comp_select_event : W → option Received * W;
  (** The interrupt: whether it was signalled, whether its handler failed, and a
      sleep that it can cut short. *)
  comp_cancelled : W → bool * W;
  comp_handler_failed : W → bool;
  comp_sleep : Z → W → bool * W;
  (** The host: milliseconds since the epoch, nanoseconds and the process-wide counter
      of the nonces, fresh identifiers, and a process for a hook. *)
  comp_clock : W → option Z * W;
  comp_nonce : W → option Z * u64 * W;
  comp_uuid : W → Z * W;
  comp_os : W → os_run * W
}.

(** What happened, as far as the session is concerned.  A notification is logged
    when the workflow is given it, whether or not hooks are configured. *)
Inductive Event :=
| Ev_Request {A : Type} (command : ActorCommand A) (ok : bool)
| Ev_Hook (event : HookEvent)
| Ev_Upsert (entry : HistoryEntry)
| Ev_Output {T : Type} (record_type : string) (data : T)
| Ev_Streamed {T : Type} (record_type : string) (data : T)
(** The credential of an account is stored or deleted. *)
| Ev_Credential (stored : bool) (account : rstring).

Inductive IncomingOrigin := Live | Queue.
#[global] Instance IncomingOrigin_eq_dec : EqDecision IncomingOrigin.
Proof. solve_decision. Defined.
Record IncomingOccurrence := mkOccurrence {
  Occurrence_observation_id : u64;
  Occurrence_origin : IncomingOrigin
}.

Record Env (W : Type) := mkEnv {
  Env_world : W;
  Env_fs : Fs;
  Env_hooks : option HookRuntime;
  Env_tracker : list IncomingOccurrence;
  Env_stdin : Input;
  Env_stdout : Sink;
  Env_stderr : Sink;
  Env_log : list Event
}.
Arguments mkEnv {W} _ _ _ _ _ _ _ _.
Arguments Env_world {W} _.
Arguments Env_fs {W} _.
Arguments Env_hooks {W} _.
Arguments Env_tracker {W} _.
Arguments Env_stdin {W} _.
Arguments Env_stdout {W} _.
Arguments Env_stderr {W} _.
Arguments Env_log {W} _.

(** What a command finds on the host and never changes. *)
Record Host := mkHost {
  Host_platform : Platform;
  Host_env : string → option bytes;
  Host_cwd : option bytes;
  Host_tls : MqttConfig.TlsFiles;
  Host_parent_env : gmap string string;
  Host_stdin_terminal : bool;
  Host_runtime_id : u64;
  Host_pid : Z
}.

(** ** The monad *)

Section monad.
Context {W : Type}.

Definition cli (A : Type) : Type := Env W → outcome CliError A * Env W.
#[global] Instance cli_ret : MRet cli := fun A a e => (Ok a, e).
#[global] Instance cli_bind : MBind cli := fun A B f m e =>
  match m e with
  | (Ok a, e) => f a e
  | (Err error, e) => (Err error, e)
  | (Panic, e) => (Panic, e)
  end.

Definition raise {A} (error : CliError) : cli A := λ e, (Err error, e).
Definition lift {A} (m : outcome CliError A) : cli A := λ e, (m, e).

(** [match operation.await { Err(error) => .., Ok(value) => .. }]. *)
Definition attempt {A} (m : cli A) : cli (CliError + A) := λ e,
  match m e with
  | (Ok a, e) => (Ok (inr a), e)
  | (Err error, e) => (Ok (inl error), e)
  | (Panic, e) => (Panic, e)
  end.
(** [let _ = operation.await], and a failure that is only traced. *)
Definition ignore {A} (m : cli A) : cli () := _ ← attempt m; mret ().

Definition with_world (w : W) (e : Env W) : Env W :=
  mkEnv w (Env_fs e) (Env_hooks e) (Env_tracker e) (Env_stdin e) (Env_stdout e) (Env_stderr e) (Env_log e).
Definition log (event : Event) (e : Env W) : Env W :=
  mkEnv (Env_world e) (Env_fs e) (Env_hooks e) (Env_tracker e) (Env_stdin e) (Env_stdout e) (Env_stderr e)
    (Env_log e ++ [event]).
Definition with_fs (f : Fs) (e : Env W) : Env W :=
  mkEnv (Env_world e) f (Env_hooks e) (Env_tracker e) (Env_stdin e) (Env_stdout e) (Env_stderr e) (Env_log e).
Definition with_hooks (hooks : option HookRuntime) (e : Env W) : Env W :=
  mkEnv (Env_world e) (Env_fs e) hooks (Env_tracker e) (Env_stdin e) (Env_stdout e) (Env_stderr e) (Env_log e).
Definition with_tracker (tracker : list IncomingOccurrence) (e : Env W) : Env W :=
  mkEnv (Env_world e) (Env_fs e) (Env_hooks e) tracker (Env_stdin e) (Env_stdout e) (Env_stderr e) (Env_log e).

(** A question to the world. *)
Definition ask {A} (f : W → A * W) : cli A := λ e,
  let '(a, w) := f (Env_world e) in (Ok a, with_world w e).

(** An operation of the store; when the process is killed nothing follows. *)
Definition run_fs {A} (m : fs A) : cli A := λ e,
  match m (Env_fs e) with
  | (Done a, f) => (Ok a, with_fs f e)
  | (Failed error, f) => (Err (cli_of_store error), with_fs f e)
  | (Killed, f) => (Panic, with_fs f e)
  end.
Definition of_store {A} (m : outcome StoreError A) : cli A := lift (map_err cli_of_store m).

Definition prompt_error : CliError := CliError_new Exit_Protocol "could not write the prompt".
Definition write_stderr (text : bytes) (error : CliError) : cli () := λ e,
  let '(r, s) := write_all text (Env_stderr e) in
  let e := mkEnv (Env_world e) (Env_fs e) (Env_hooks e) (Env_tracker e) (Env_stdin e) (Env_stdout e) s
             (Env_log e) in
  (match r with Ok _ => Ok () | Err _ => Err error | Panic => Panic end, e).
Definition read_line (context : string) : cli (option rstring) := λ e,
  let '(r, input) := read_bounded_line context (Env_stdin e) in
  (r, mkEnv (Env_world e) (Env_fs e) (Env_hooks e) (Env_tracker e) input (Env_stdout e) (Env_stderr e)
        (Env_log e)).

(** [writer.result(..).map_err(CliError::from)] and [writer.event]. *)
Definition emit_with (write : writes ()) (event : Event) : cli () := λ e,
  let '(r, s) := write (Env_stdout e) in
  let e := log event
             (mkEnv (Env_world e) (Env_fs e) (Env_hooks e) (Env_tracker e) (Env_stdin e) s (Env_stderr e)
                (Env_log e)) in
  (map_err cli_of_output r, e).
Definition emit_result `{CliJson} {T} (mode : OutputMode) (record_type : string) (data : T)
    (human : rstring) : cli () :=
  emit_with (Writer_result mode record_type data human) (Ev_Output record_type data).
Definition emit_event `{CliJson} {T} (mode : OutputMode) (record_type : string) (data : T)
    (human : rstring) : cli () :=
  emit_with (Writer_event mode record_type data human) (Ev_Streamed record_type data).
End monad.
Arguments cli : clear implicits.

(** ** The client and the interrupt *)

Section client.
Context `{Companion W}.

Definition is_ok {A} (r : CoreError + A) : bool := match r with inl _ => false | inr _ => true end.

Definition request {A} (command : ActorCommand A) : cli W (CoreError + A) := λ e,
  let '(r, w) := comp_request command (Env_world e) in
  (Ok r, log (Ev_Request command (is_ok r)) (with_world w e)).

(** [client.operation().await.map_err(CliError::from)?]. *)
Definition require {A} (command : ActorCommand A) : cli W A :=
  r ← request command;
  match r with inl error => raise (cli_of_core error) | inr a => mret a end.

(** [tokio::select!] between a request and the interrupt. *)
Definition select_request {A} (command : ActorCommand A) : cli W (option (CoreError + A)) := λ e,
  let '(r, w) := comp_select command (Env_world e) in
  (Ok r, log (Ev_Request command (from_option is_ok false r)) (with_world w e)).

Definition cancel_pending : cli W () := ask (λ w, ((), comp_cancel_pending w)).
Definition is_cancelled : cli W bool := ask comp_cancelled.

(** [InterruptWatcher::error]. *)
Definition interrupt_error : cli W CliError :=
  failed ← ask (λ w, (comp_handler_failed w, w));
  mret (CliError_new Exit_Interrupted
          (if failed : bool then "could not install the interrupt handler" else "interrupted by user")).

(** [client.shutdown().await]. *)
Definition shutdown : cli W (CoreError + ()) := request ActorCommand_Shutdown.
End client.

(** ** [confirm] (runtime.rs) *)

Section confirm.
Context {W : Type} (host : Host).

Definition confirm (args : Cli) (operation : string) : cli W () :=
  if Cli_yes args then mret ()
  else if Cli_non_interactive args || negb (Host_stdin_terminal host) then
    raise (with_hint (CliError_new Exit_Denied ("confirmation is required to " +:+ operation))
             "Review the operation and rerun it with --yes.")
  else
    _ ← write_stderr (str_bytes ("Confirm: " +:+ operation +:+ "? [y/N] "))
          (CliError_new Exit_Protocol "could not write confirmation prompt");
    answer ← read_line "confirmation input";
    let answer := to_ascii_lowercase (trimmed (default [] answer)) in
    if bool_decide (answer = str_bytes "y" ∨ answer = str_bytes "yes") then mret ()
    else raise (CliError_new Exit_Denied "operation was not confirmed").
End confirm.

(** ** The protocol of a session *)

(** The one message of a session: whether the hooks were asked for it, and whether it
    was given to the device, which accepted it or did not. *)
Inductive Sending := Unasked | Asked | Unaccepted | Accepted.

(** Where a session is: whether the companion is connected, whether the client was
    shut down, whether the connection was announced to the hooks and not yet
    withdrawn, whether a flood scope is in effect, whether a connection failed and
    the client has not been shut down yet, and what became of the message. *)
Record Stage := mkStage {
  Stage_open : bool;
  Stage_closed : bool;
  Stage_announced : bool;
  Stage_scoped : bool;
  Stage_failed : bool;
  Stage_sent : Sending
}.
Definition at_rest : Stage := mkStage false false false false false Unasked.

(** A session that is over: shut down, withdrawn, and no scope left behind. *)
Definition settled (s : Stage) : Prop :=
  Stage_open s = false ∧ Stage_announced s = false ∧ Stage_scoped s = false.

Definition scope_in_effect (scope : FloodScope) : bool :=
  match scope with FloodScope_Default => false | _ => true end.

Definition step_request {A} (s : Stage) (command : ActorCommand A) (ok : bool) : option Stage :=
  let '(mkStage open closed announced scoped failed sent) := s in
  if closed then None
  else
    match command with
    | ActorCommand_Connect =>
        if open || failed then None else Some (mkStage ok false announced scoped (negb ok) sent)
    | ActorCommand_Shutdown =>
        if scoped then None else Some (mkStage false true announced false false sent)
    | ActorCommand_SetFloodScope scope =>
        if open then Some (mkStage open false announced (scope_in_effect scope) failed sent) else None
    | ActorCommand_SendDirectText _ _ _ | ActorCommand_SendChannelMessage _ _ _ =>
        match sent with
        | Asked => if open then Some (mkStage open false announced scoped failed (if ok then Accepted else Unaccepted)) else None
        | _ => None
        end
    | _ => if open then Some s else None
    end.

Definition step_hook (s : Stage) (event : HookEvent) : option Stage :=
  let '(mkStage open closed announced scoped failed sent) := s in
  match event with
  | HookEvent_BeforeSend _ =>
      match sent with
      | Unasked => if open || announced then None else Some (mkStage open closed announced scoped failed Asked)
      | _ => None
      end
  | HookEvent_OnConnect _ =>
      if open && negb announced then Some (mkStage open closed true scoped failed sent) else None
  | HookEvent_OnDisconnect _ =>
      if announced then Some (mkStage open closed false scoped failed sent) else None
  | HookEvent_AfterSend _ | HookEvent_OnAck _ | HookEvent_OnTimeout _ =>
      match sent with Accepted => if announced then Some s else None | _ => None end
  | HookEvent_OnMessage _ | HookEvent_OnContactUpdate _ | HookEvent_OnError _ =>
      if announced then Some s else None
  end.

(** A result is printed once the session is over; a stream goes on within it. *)
Definition protocol (s : Stage) (event : Event) : option Stage :=
  match event with
  | Ev_Request command ok => step_request s command ok
  | Ev_Hook event => step_hook s event
  | Ev_Upsert _ | Ev_Streamed _ _ | Ev_Credential _ _ => Some s
  | Ev_Output _ _ => if Stage_open s || Stage_announced s || Stage_scoped s || Stage_failed s then None else Some s
  end.

(** An automaton that reads what happens; what it rejects must not happen.  It does
    not mind what is written to the history.  [Stage] is one, and claims about a
    command that [Stage] does not express have their own. *)
Class Automaton (St : Type) := {
  step_event : St → Event → option St;
  upsert_ignored : ∀ s entry, step_event s (Ev_Upsert entry) = Some s
}.
#[global] Instance Stage_automaton : Automaton Stage := {| step_event := protocol; upsert_ignored := λ _ _, eq_refl |}.

Section automaton.
Context `{Automaton St}.

Fixpoint advance (s : St) (events : list Event) : option St :=
  match events with
  | [] => Some s
  | event :: events => s ← step_event s event; advance s events
  end.

(** [follows s m Q]: from the stage [s], what [m] does keeps to the protocol, and
    when it ends the outcome and the stage satisfy [Q]. *)
Definition follows {W A} (s : St) (m : cli W A) (Q : outcome CliError A → St → Prop) : Prop :=
  ∀ e, let '(r, e') := m e in
    ∃ events s', Env_log e' = Env_log e ++ events ∧ advance s events = Some s' ∧ (r ≠ Panic → Q r s').
End automaton.

(** ** Rules *)

Lemma advance_app `{Automaton St} (s : St) e1 e2 : advance s (e1 ++ e2) = s' ← advance s e1; advance s' e2.
Proof.
  revert s. induction e1 as [|ev e1 IH]; intros s; [done|]. simpl.
  destruct (step_event s ev); simpl; [apply IH|done].
Qed.

Section rules.
Context {W : Type} `{Automaton St}.
Implicit Types s : St.

Lemma follows_weaken {A} s (m : cli W A) (Q Q' : outcome CliError A → St → Prop) :
  follows s m Q → (∀ r s', r ≠ Panic → Q r s' → Q' r s') → follows s m Q'.
Proof.
  intros Hm HQ e. specialize (Hm e). destruct (m e) as [r e'].
  destruct Hm as (events & s' & Hl & Ha & Hq). exists events, s'. auto.
Qed.
Lemma follows_mono {A} s (m : cli W A) (Q Q' : outcome CliError A → St → Prop) :
  follows s m Q → (∀ r s', Q r s' → Q' r s') → follows s m Q'.
Proof. intros Hm HQ. eapply follows_weaken; eauto. Qed.

(** The outcome is one that [m] has. *)
Lemma follows_result {A} s (m : cli W A) (Q : outcome CliError A → St → Prop) :
  follows s m Q → follows s m (λ r s', Q r s' ∧ ∃ e e', m e = (r, e')).
Proof.
  intros Hm e. specialize (Hm e). destruct (m e) as [r e'] eqn:He.
  destruct Hm as (events & s' & Hl & Ha & Hq). exists events, s'. eauto 10.
Qed.

Lemma follows_ret {A} s (a : A) (Q : outcome CliError A → St → Prop) :
  Q (Ok a) s → follows s (mret a : cli W A) Q.
Proof. intros HQ e. exists [], s. by rewrite app_nil_r. Qed.
Lemma follows_raise {A} s error (Q : outcome CliError A → St → Prop) :
  Q (Err error) s → follows s (raise error : cli W A) Q.
Proof. intros HQ e. exists [], s. by rewrite app_nil_r. Qed.
Lemma follows_lift {A} s (m : outcome CliError A) (Q : outcome CliError A → St → Prop) :
  (m ≠ Panic → Q m s) → follows s (lift m : cli W A) Q.
Proof. intros HQ e. exists [], s. by rewrite app_nil_r. Qed.

Lemma follows_bind {A B} s (m : cli W A) (f : A → cli W B) (Q : outcome CliError B → St → Prop) :
  follows s m (λ r s', match r with
                       | Ok a => follows s' (f a) Q
                       | Err error => Q (Err error) s'
                       | Panic => True
                       end) →
  follows s (m ≫= f) Q.
Proof.
  intros Hm e. specialize (Hm e). unfold mbind, cli_bind. destruct (m e) as [[a|error|] e'].
  - destruct Hm as (ev1 & s1 & Hl1 & Ha1 & Hf). specialize (Hf ltac:(done) e').
    destruct (f a e') as [r e'']. destruct Hf as (ev2 & s2 & Hl2 & Ha2 & HQ).
    exists (ev1 ++ ev2), s2. rewrite Hl2, Hl1, app_assoc. split; [done|].
    rewrite advance_app, Ha1. done.
  - destruct Hm as (ev1 & s1 & Hl1 & Ha1 & HQ). exists ev1, s1. split_and!; [done|done|]. intros _. by apply HQ.
  - destruct Hm as (ev1 & s1 & Hl1 & Ha1 & _). exists ev1, s1. by split_and!.
Qed.

Lemma follows_attempt {A} s (m : cli W A) (Q : outcome CliError (CliError + A) → St → Prop) :
  follows s m (λ r s', match r with
                       | Ok a => Q (Ok (inr a)) s'
                       | Err error => Q (Ok (inl error)) s'
                       | Panic => True
                       end) →
  follows s (attempt m) Q.
Proof.
  intros Hm e. specialize (Hm e). unfold attempt. destruct (m e) as [[a|error|] e'];
    destruct Hm as (events & s' & Hl & Ha & HQ); exists events, s'; split_and!; try done; intros _; by apply HQ.
Qed.

(** Computations that log nothing. *)
Definition silent {A} (m : cli W A) : Prop := ∀ e, Env_log (m e).2 = Env_log e.

Lemma follows_silent {A} s (m : cli W A) (Q : outcome CliError A → St → Prop) :
  silent m → (∀ r, r ≠ Panic → Q r s) → follows s m Q.
Proof.
  intros Hm HQ e. specialize (Hm e). destruct (m e) as [r e']. simpl in Hm.
  exists [], s. rewrite app_nil_r. auto.
Qed.

Lemma silent_ask {A} (f : W → A * W) : silent (ask f).
Proof. intros e. unfold ask. by destruct (f _). Qed.
Lemma silent_run_fs {A} (m : fs A) : silent (run_fs m).
Proof. intros e. unfold run_fs. by destruct (m _) as [[] ?]. Qed.
Lemma silent_write_stderr text error : silent (write_stderr text error).
Proof. intros e. unfold write_stderr. by destruct (write_all _ _). Qed.
Lemma silent_read_line context : silent (read_line context).
Proof. intros e. unfold read_line. by destruct (read_bounded_line _ _). Qed.
Lemma silent_ret {A} (a : A) : silent (mret a).
Proof. done. Qed.
Lemma silent_raise {A} error : silent (raise (A := A) error).
Proof. done. Qed.
Lemma silent_lift {A} (m : outcome CliError A) : silent (lift m).
Proof. done. Qed.
Lemma silent_bind {A B} (m : cli W A) (f : A → cli W B) : silent m → (∀ a, silent (f a)) → silent (m ≫= f).
Proof.
  intros Hm Hf e. specialize (Hm e). unfold mbind, cli_bind. destruct (m e) as [[a|error|] e'] eqn:E; try done.
  simpl in Hm. by rewrite Hf.
Qed.
Lemma silent_if {A} (b : bool) (m1 m2 : cli W A) : silent m1 → silent m2 → silent (if b then m1 else m2).
Proof. by destruct b. Qed.
Lemma silent_attempt {A} (m : cli W A) : silent m → silent (attempt m).
Proof. intros Hm e. specialize (Hm e). unfold attempt. by destruct (m e) as [[] ?]. Qed.

(** The output of a result. *)
Lemma follows_emit {A} s s' write event (k : () → cli W A) (Q : outcome CliError A → St → Prop) :
  step_event s event = Some s' →
  (∀ error, Q (Err error) s') → follows s' (k ()) Q → follows s (emit_with write event ≫= k) Q.
Proof.
  intros Hp He Hk. apply follows_bind. intros e. unfold emit_with. destruct (write (Env_stdout e)) as [r k'].
  exists [event], s'. split; [done|]. cbn [advance]. rewrite Hp. split; [done|].
  destruct r as [[]| |]; simpl; [done|auto|done].
Qed.
Lemma follows_emit_last s s' write event (Q : outcome CliError () → St → Prop) :
  step_event s event = Some s' →
  (∀ error, Q (Err error) s') → Q (Ok ()) s' → follows s (emit_with write event : cli W ()) Q.
Proof.
  intros Hp He Hk e. unfold emit_with. destruct (write (Env_stdout e)) as [r k'].
  exists [event], s'. split; [done|]. cbn [advance]. rewrite Hp. split; [done|].
  destruct r as [[]| |]; simpl; [done|auto|done].
Qed.
End rules.

Section client_rules.
Context `{Companion W} `{Automaton St}.
Implicit Types s : St.

Lemma follows_request {A} s s0 s1 (command : ActorCommand A) (Q : outcome CliError (CoreError + A) → St → Prop) :
  step_event s (Ev_Request command false) = Some s0 → step_event s (Ev_Request command true) = Some s1 →
  (∀ error, Q (Ok (inl error)) s0) → (∀ a, Q (Ok (inr a)) s1) → follows s (request command) Q.
Proof.
  intros Hs0 Hs1 HQ0 HQ1 e. unfold request. destruct (comp_request command (Env_world e)) as [[error|a] w].
  - exists [Ev_Request command false], s0. simpl. by rewrite Hs0.
  - exists [Ev_Request command true], s1. simpl. by rewrite Hs1.
Qed.

Lemma follows_select {A} s s0 s1 (command : ActorCommand A)
    (Q : outcome CliError (option (CoreError + A)) → St → Prop) :
  step_event s (Ev_Request command false) = Some s0 → step_event s (Ev_Request command true) = Some s1 →
  Q (Ok None) s0 → (∀ error, Q (Ok (Some (inl error))) s0) → (∀ a, Q (Ok (Some (inr a))) s1) →
  follows s (select_request command) Q.
Proof.
  intros Hs0 Hs1 HQn HQ0 HQ1 e. unfold select_request.
  destruct (comp_select command (Env_world e)) as [[[error|a]|] w].
  - exists [Ev_Request command false], s0. simpl. by rewrite Hs0.
  - exists [Ev_Request command true], s1. simpl. by rewrite Hs1.
  - exists [Ev_Request command false], s0. simpl. by rewrite Hs0.
Qed.

Lemma follows_require {A} s s0 s1 (command : ActorCommand A) (Q : outcome CliError A → St → Prop) :
  step_event s (Ev_Request command false) = Some s0 → step_event s (Ev_Request command true) = Some s1 →
  (∀ error, Q (Err error) s0) → (∀ a, Q (Ok a) s1) → follows s (require command) Q.
Proof.
  intros Hs0 Hs1 HQ0 HQ1. unfold require. apply follows_bind. eapply follows_request; [done|done|..].
  - intros error. by apply follows_raise.
  - intros a. by apply follows_ret.
Qed.

Lemma silent_cancel_pending : silent cancel_pending.
Proof. apply silent_ask. Qed.
Lemma silent_is_cancelled : silent is_cancelled.
Proof. apply silent_ask. Qed.
Lemma silent_interrupt_error : silent interrupt_error.
Proof. apply silent_bind; [apply silent_ask|intros; apply silent_ret]. Qed.
End client_rules.

Lemma silent_confirm {W} host args operation : silent (confirm (W := W) host args operation).
Proof.
  unfold confirm. repeat first [apply silent_if | apply silent_ret | apply silent_raise | apply silent_bind
    | apply silent_write_stderr | apply silent_read_line | intros ?].
Qed.

(** Nobody to ask: no [--yes], and prompts are switched off or there is no terminal. *)
Definition unattended (host : Host) (args : Cli) : Prop :=
  Cli_yes args = false ∧ Cli_non_interactive args || negb (Host_stdin_terminal host) = true.
Lemma confirm_unattended {W} host args operation : unattended host args →
  ∃ error, confirm (W := W) host args operation = raise error.
Proof. intros [Hy Hn]. unfold confirm. rewrite Hy, Hn. by eexists. Qed.

Create HintDb mq_silent.
#[export] Hint Resolve silent_ask silent_run_fs silent_write_stderr silent_read_line silent_ret silent_raise
  silent_lift silent_bind silent_if silent_attempt silent_cancel_pending silent_is_cancelled
  silent_interrupt_error silent_confirm : mq_silent.
