(* ===== verification/CliConfig.v ===== *)
(** * Command line: configuration, profiles and first-run setup (crates/meshquill-cli/src)

    config.rs, profiles.rs and the configuration commands of runtime.rs, over the
    stores of [Config] and [History]: which document and which history a command
    works on, the profile it selects, and the commands that change them. *)

From S2P Require Import Prelude Text Order Floats Domain Discovery Hooks Store History Paths MqttConfig Config.
From S2P Require Import CliOutput CliArgs Suggest Resolve Session.

(** [HashMap::new()]. *)
Definition no_overrides : list (rstring * rstring) := [].

Definition OVERRIDE_NAMES : list string :=
  ["MESHQUILL_DEFAULT_PROFILE"; "MESHQUILL_TIMEOUT_CONNECT_MS"; "MESHQUILL_TIMEOUT_REQUEST_MS";
   "MESHQUILL_TIMEOUT_RETRY_MS"; "MESHQUILL_HISTORY_ENABLED"; "MESHQUILL_HISTORY_MAX_MESSAGES";
   "MESHQUILL_HOOK_ENABLED"; "MESHQUILL_HOOK_SCRIPT"; "MESHQUILL_MQTT_ENABLED"; "MESHQUILL_MQTT_BROKER";
   "MESHQUILL_MQTT_PORT"; "MESHQUILL_MQTT_TOPIC_PREFIX"; "MESHQUILL_QUEUES_INBOUND";
   "MESHQUILL_QUEUES_OUTBOUND"; "MESHQUILL_QUEUES_EVENT"].

Record SelectedProfile := mkSelectedProfile {
  Selected_config : Config;
  Selected_name : rstring;
  Selected_profile : DeviceProfile;
  Selected_path : string;
  Selected_needs_migration : bool;
  Selected_data_dir : option bytes;
  Selected_namespaced_history : bool
}.

(** Durations in nanoseconds. *)
Definition from_millis (millis : u64) : Z := (millis * 1000000)%Z.
Definition connect_timeout (self : SelectedProfile) : Z :=
  from_millis (Timeout_connect_timeout_ms (Config_timeout (Selected_config self))).
Definition request_timeout (self : SelectedProfile) : Z :=
  from_millis (default (Timeout_request_timeout_ms (Config_timeout (Selected_config self)))
                 (DeviceProfile_transport_overrides (Selected_profile self) ≫= Overrides_request_timeout_ms)).
Definition retry_timeout (self : SelectedProfile) : Z :=
  from_millis (Timeout_retry_timeout_ms (Config_timeout (Selected_config self))).

Definition transport_label (transport : TransportConfig) : string :=
  match transport with
  | Transport_Ble _ _ => "ble" | Transport_Serial _ _ => "serial" | Transport_Tcp _ _ => "tcp"
  | Transport_Mock _ => "mock"
  end.

(** ** Transports from options *)

Definition required_value (field : string) (value : rstring) : outcome CliError rstring :=
  let value := trimmed value in
  if bool_decide (value = []) then Err (CliError_new Exit_Usage (field +:+ " must not be empty"))
  else Ok value.

(** [rsplit_once(':')]: at the last colon. *)
Definition rsplit_once (sep : Z) (s : bytes) : option (bytes * bytes) :=
  '(tail, head) ← split_once sep (rev s);
  Some (rev head, rev tail).

Fixpoint trim_start_matches (c : Z) (s : bytes) : bytes :=
  match s with
  | b :: s' => if (b =? c)%Z then trim_start_matches c s' else s
  | [] => []
  end.
Definition trim_end_matches (c : Z) (s : bytes) : bytes := rev (trim_start_matches c (rev s)).

Definition port_error : CliError := CliError_new Exit_Usage "TCP port must be an integer from 1 to 65535".

Definition tcp_transport (endpoint : rstring) : outcome CliError TransportConfig :=
  '(host, port) ← ok_or (rsplit_once 0x3a endpoint)
                    (CliError_new Exit_Usage "TCP endpoint must use HOST:PORT form");
  let host := trim_end_matches 0x5d (trim_start_matches 0x5b (trimmed host)) in
  host ← required_value "TCP host" host;
  port ← ok_or (parse_unsigned 16 port) port_error;
  if (port =? 0)%Z then Err port_error else Ok (Transport_Tcp host port).

Definition count_options (ble serial tcp : option rstring) (demo : bool) : nat :=
  (if ble then 1 else 0) + (if serial then 1 else 0) + (if tcp then 1 else 0) + (if demo then 1 else 0).

Definition transport_from_options (ble serial tcp : option rstring) (demo : bool) :
    outcome CliError TransportConfig :=
  if negb (count_options ble serial tcp demo =? 1) then
    Err (CliError_new Exit_Usage "exactly one of --ble, --serial, --tcp, or --demo is required")
  else
    match ble, serial, tcp with
    | Some id, _, _ => id ← required_value "BLE identifier" id; Ok (Transport_Ble id None)
    | None, Some port, _ => port ← required_value "serial port" port; Ok (Transport_Serial port 115200)
    | None, None, Some endpoint => tcp_transport endpoint
    | None, None, None => Ok (Transport_Mock (str_bytes "demo"))
    end.

Inductive GuidedTransport := Guided_Ble | Guided_Serial.
Definition Guided_label (self : GuidedTransport) : string :=
  match self with Guided_Ble => "BLE" | Guided_Serial => "serial" end.
Definition manual_label (self : GuidedTransport) : string :=
  match self with Guided_Ble => "BLE identifier or address" | Guided_Serial => "serial port" end.

Definition target_to_transport (kind : GuidedTransport) (target : TransportTarget) :
    outcome CliError TransportConfig :=
  match kind, target with
  | Guided_Ble, Target_Ble selector => transport_from_options (Some (str_bytes selector)) None None false
  | Guided_Serial, Target_Serial port baud =>
      port ← required_value "serial port" (str_bytes port); Ok (Transport_Serial port baud)
  | _, _ => Err (CliError_new Exit_Protocol "discovery returned a target for the wrong transport")
  end.

Definition map_target_choice (kind : GuidedTransport) (devices : list DiscoveredDevice) (selection : rstring) :
    outcome CliError TransportConfig :=
  selection ← required_value (manual_label kind) selection;
  let by_hand := match kind with
                 | Guided_Ble => transport_from_options (Some selection) None None false
                 | Guided_Serial => transport_from_options None (Some selection) None false
                 end in
  match devices, parse_unsigned 64 selection with
  | _ :: _, Some index =>
      if (index =? 0)%Z || (Z.of_nat (length devices) <? index)%Z then
        Err (CliError_new Exit_Usage
               ("candidate number must be between 1 and " +:+ pretty (length devices)))
      else
        match devices !! Z.to_nat (index - 1) with
        | Some device => target_to_transport kind (Discovered_target device)
        | None => Panic
        end
  | _, _ => by_hand
  end.

(** ** Documents and histories *)

Section documents.
Context {W : Type} (host : Host).
Context `{ConfigToml} `{Crates} `{HistoryCodec} `{CliJson}.

Definition app_name : bytes := str_bytes "meshquill".
Definition platform_config_store : outcome StoreError ConfigStore :=
  from_default_path (Host_platform host) app_name (Host_env host).

Definition config_store (args : Cli) : cli W ConfigStore :=
  match Cli_config args with
  | Some path => mret (mkConfigStore (bytes_str path))
  | None => of_store platform_config_store
  end.

(** [env::var(name).ok()]: the variables that are set to text. *)
Definition documented_overrides : list (rstring * rstring) :=
  omap (λ name, value ← Host_env host name ≫= from_utf8; Some (str_bytes name, value)) OVERRIDE_NAMES.

Definition load_optional (store : ConfigStore) : cli W LoadOutcome :=
  run_fs (load_with_overrides (Host_tls host) store documented_overrides).
Definition load_unmodified (store : ConfigStore) : cli W LoadOutcome :=
  run_fs (load_with_overrides (Host_tls host) store no_overrides).

Definition selection_error (error : ProfileSelectionError) : CliError :=
  match error with
  | Selection_NoneConfigured =>
      with_hint (CliError_new Exit_Configuration "no device profiles are configured")
        "Run `meshquill init` to create a profile."
  | Selection_Ambiguous profiles =>
      with_hint (CliError_new Exit_Configuration
                   ("multiple device profiles are configured without a default: "
                      +:+ String.concat ", " (bytes_str <$> profiles)))
        "Run `meshquill profiles set-default NAME` or pass --profile NAME."
  | Selection_NotFound name =>
      with_hint (CliError_new Exit_NotFound ("device profile '" +:+ bytes_str name +:+ "' was not found"))
        "Run `meshquill profiles list` to list configured profiles."
  end.

(** [Path::is_absolute], and joining the current directory. *)
Definition absolute_path (p : bytes) : outcome CliError bytes :=
  if is_rooted p then Ok p
  else
    directory ← ok_or (Host_cwd host)
      (CliError_new Exit_Configuration "the selected configuration path could not be normalized");
    Ok (path_join directory p).

Definition uses_namespaced_history (args : Cli) (config_path : string) : outcome CliError bool :=
  match Cli_config args with
  | None => Ok false
  | Some _ =>
      selected ← absolute_path (str_bytes config_path);
      match platform_config_store with
      | Ok store =>
          default_ ← absolute_path (str_bytes (ConfigStore_path store));
          Ok (negb (bool_decide (normalized_config_path_digest selected
                                 = normalized_config_path_digest default_)))
      | _ => Ok true
      end
  end.

Definition history_store_for (data_dir : option bytes) (explicit_config : bool) (config_path : string)
    (profile : rstring) (max_messages : u32) : outcome CliError HistoryStore :=
  data_dir ← match data_dir with
             | Some path => absolute_path path
             | None =>
                 map_err (λ _, with_hint (CliError_new Exit_Configuration
                                            "the platform data directory could not be resolved")
                                 "Set --data-dir (or MESHQUILL_DATA_DIR) to an explicit directory.")
                   (resolve_default_data_dir (Host_platform host) app_name (Host_env host))
             end;
  config_path ← absolute_path (str_bytes config_path);
  paths ← map_err cli_of_store (history_paths data_dir config_path explicit_config profile);
  map_err cli_of_store
    (with_legacy (bytes_str (HistoryPaths_canonical paths)) (bytes_str (HistoryPaths_legacy paths))
       max_messages).

Definition history_store_for_cli (args : Cli) (config_path : string) (profile : rstring) (max_messages : u32) :
    outcome CliError HistoryStore :=
  namespaced ← uses_namespaced_history args config_path;
  history_store_for (Cli_data_dir args) namespaced config_path profile max_messages.

(** [SelectedProfile::history_store]. *)
Definition selected_history_store (self : SelectedProfile) : outcome CliError HistoryStore :=
  history_store_for (Selected_data_dir self) (Selected_namespaced_history self) (Selected_path self)
    (Selected_name self) (HistorySettings_max_messages (Config_history (Selected_config self))).

Definition select_profile (args : Cli) : cli W SelectedProfile :=
  store ← config_store args;
  let path := ConfigStore_path store in
  loaded ← load_optional store;
  '(config, needs_migration) ←
    match loaded with
    | Load_Missing =>
        raise (with_hint (CliError_new Exit_Configuration ("configuration is missing at " +:+ path))
                 "Run `meshquill init` or select an existing file with --config.")
    | Load_Loaded config => mret (config, false)
    | Load_NeedsMigration config => mret (config, true)
    end;
  '(name, profile) ← lift (map_err selection_error (resolve_profile config (Cli_profile args)));
  namespaced_history ← lift (uses_namespaced_history args path);
  mret (mkSelectedProfile config name profile path needs_migration (Cli_data_dir args) namespaced_history).

(** ** Prompts *)

Definition prompt (label : string) : cli W rstring :=
  _ ← write_stderr (str_bytes (label +:+ ": ")) prompt_error;
  value ← read_line "interactive setup input";
  mret (trimmed (default [] value)).

(** ** [init] *)

(** What a scan within the deadline answers; [None] is the deadline. *)
Context (discover : GuidedTransport → W → option (outcome DiscoveryError (list DiscoveredDevice)) * W).

Definition discovery_diagnostic (text : string) : cli W () :=
  write_stderr (str_bytes text) (CliError_new Exit_Protocol "could not write discovery diagnostics").

Definition manual_discovered_target (kind : GuidedTransport) : cli W TransportConfig :=
  selection ← prompt (manual_label kind);
  lift (map_target_choice kind [] selection).

Definition write_candidate (index : nat) (device : DiscoveredDevice) : cli W () :=
  write_stderr (str_bytes ("  " +:+ pretty (index + 1) +:+ ". " +:+ Discovered_display_name device +:+ " ("
                             +:+ Discovered_id device +:+ ")"))
    (CliError_new Exit_Protocol "could not write discovery candidates").
Fixpoint write_candidates (index : nat) (devices : list DiscoveredDevice) : cli W () :=
  match devices with
  | [] => mret ()
  | device :: devices => _ ← write_candidate index device; write_candidates (S index) devices
  end.

Definition prompt_discovered_target (kind : GuidedTransport) : cli W TransportConfig :=
  result ← ask (discover kind);
  match result with
  | None =>
      _ ← discovery_diagnostic (Guided_label kind +:+ " discovery timed out; enter a target manually.");
      manual_discovered_target kind
  | Some (Ok devices) =>
      let devices := sort_by id_leb devices in
      if bool_decide (length devices = 0) then
        _ ← discovery_diagnostic
              ("No " +:+ Guided_label kind +:+ " candidates were discovered; enter a target manually.");
        manual_discovered_target kind
      else
        _ ← write_stderr (str_bytes ("Discovered " +:+ Guided_label kind +:+ " candidates:"))
              (CliError_new Exit_Protocol "could not write discovery candidates");
        _ ← write_candidates 0 devices;
        selection ← prompt ("Select " +:+ Guided_label kind +:+ " candidate number or enter "
                              +:+ manual_label kind);
        lift (map_target_choice kind devices selection)
  | Some (Err error) =>
      _ ← discovery_diagnostic (Guided_label kind +:+ " discovery failed (" +:+ display_DiscoveryError error
                                  +:+ "); enter a target manually.");
      manual_discovered_target kind
  | Some Panic => lift Panic
  end.

Definition prompt_transport : cli W TransportConfig :=
  choice ← prompt "Transport (ble/serial/tcp/demo)";
  let choice := to_ascii_lowercase choice in
  if bool_decide (choice = str_bytes "ble") then prompt_discovered_target Guided_Ble
  else if bool_decide (choice = str_bytes "serial") then prompt_discovered_target Guided_Serial
  else if bool_decide (choice = str_bytes "tcp") then
    endpoint ← prompt "TCP endpoint (HOST:PORT)"; lift (tcp_transport endpoint)
  else if bool_decide (choice = str_bytes "demo") then mret (Transport_Mock (str_bytes "demo"))
  else raise (CliError_new Exit_Usage "transport must be ble, serial, tcp, or demo").

Definition collect_init_inputs (args : Cli) (init : InitArgs) : cli W (rstring * TransportConfig) :=
  let count := count_options (Init_ble init) (Init_serial init) (Init_tcp init) (Init_demo init) in
  if 1 <? count then raise (CliError_new Exit_Usage "init requires exactly one transport")
  else if Cli_non_interactive args && (bool_decide (Init_name init = None) || negb (count =? 1)) then
    raise (with_hint (CliError_new Exit_Usage
                        "non-interactive init requires --name and exactly one transport option")
             "Choose one of --ble, --serial, --tcp, or --demo.")
  else if (bool_decide (Init_name init = None) || (count =? 0)) && negb (Host_stdin_terminal host) then
    raise (with_hint (CliError_new Exit_Usage "the init wizard requires an interactive terminal")
             "Pass --non-interactive, --name, and exactly one transport option.")
  else
    name ← match Init_name init with
           | Some name => mret (trimmed name)
           | None => prompt "Profile name"
           end;
    if bool_decide (name = []) then raise (CliError_new Exit_Usage "profile name must not be empty")
    else if negb (validate_identifier name) then
      raise (CliError_new Exit_Usage
        "profile name must be at most 64 ASCII bytes, start with a letter or underscore, and contain only letters, digits, underscores, or hyphens")
    else
      transport ← (if count =? 1 then
                     lift (transport_from_options (Init_ble init) (Init_serial init) (Init_tcp init)
                             (Init_demo init))
                   else prompt_transport);
      mret (name, transport).

Definition set_profiles (profiles : gmap rstring DeviceProfile) (default_profile : option rstring) (c : Config) :
    Config :=
  mkConfig (Config_version c) default_profile profiles (Config_timeout c) (Config_history c) (Config_hook c)
    (Config_mqtt c) (Config_queues c).

Record InitReport := mkInitReport {
  InitReport_profile : rstring;
  InitReport_config_path : string;
  InitReport_default : bool;
  InitReport_transport : string
}.

(** A new profile under an exclusive lock; the first profile is the default. *)
Definition add_profile (name : rstring) (transport : TransportConfig) (set_default : bool) (config : Config) :
    Config * bool :=
  let make_default := set_default || bool_decide (Config_default_profile config = None) in
  (set_profiles (<[name := mkDeviceProfile transport None None]> (Config_device_profiles config))
     (if make_default then Some name else Config_default_profile config) config, make_default).

Definition initialize (args : Cli) (init : InitArgs) : cli W InitReport :=
  '(name, transport) ← collect_init_inputs args init;
  store ← config_store args;
  _ ← run_fs (lock_exclusive store);
  loaded ← load_unmodified store;
  config ← match loaded with
           | Load_Missing => mret Config_default
           | Load_Loaded config => mret config
           | Load_NeedsMigration _ =>
               raise (with_hint (CliError_new Exit_Configuration
                                   "configuration must be migrated before adding a profile")
                        "Run `meshquill config migrate` first; it preserves a backup.")
           end;
  if bool_decide (is_Some (Config_device_profiles config !! name)) then
    raise (with_hint (CliError_new Exit_Denied ("profile '" +:+ bytes_str name +:+ "' already exists"))
             "Choose another name; init never overwrites an existing profile.")
  else
    let '(config, make_default) := add_profile name transport (Init_set_default init) config in
    _ ← run_fs (save_unlocked (Host_tls host) store config);
    mret (mkInitReport name (ConfigStore_path store) make_default (transport_label transport)).

(** ** Profile commands *)

Definition RENAME_WARNING : string :=
  "remote credential hashes are keyed outside the config and cannot be migrated automatically".

Definition missing_config (store : ConfigStore) : CliError :=
  with_hint (CliError_new Exit_Configuration ("configuration is missing at " +:+ ConfigStore_path store))
    "Run `meshquill init` to create a profile.".
Definition profile_not_found (name : rstring) : CliError :=
  with_hint (CliError_new Exit_NotFound ("device profile '" +:+ bytes_str name +:+ "' was not found"))
    "Run `meshquill profiles list` to list configured profiles.".
Definition validate_name (name : rstring) : outcome CliError () :=
  ensure (validate_identifier name)
    (CliError_new Exit_Usage "profile name must be a safe ASCII identifier of at most 64 bytes").
Definition profile_exists (name : rstring) : CliError :=
  CliError_new Exit_Denied ("profile '" +:+ bytes_str name +:+ "' already exists").

(** [load_mutable] and [load_mutable_locked]: the document as it is written. *)
Definition load_mutable (store : ConfigStore) : cli W Config :=
  loaded ← load_unmodified store;
  match loaded with
  | Load_Missing => raise (missing_config store)
  | Load_Loaded config => mret config
  | Load_NeedsMigration _ =>
      raise (with_hint (CliError_new Exit_Configuration "configuration must be migrated before changing profiles")
               "Run `meshquill config migrate` first; it preserves a backup.")
  end.

Definition has_profile (name : rstring) (config : Config) : bool :=
  bool_decide (is_Some (Config_device_profiles config !! name)).
Definition is_default (name : rstring) (config : Config) : bool :=
  bool_decide (Config_default_profile config = Some name).

Record ProfileSummary := mkProfileSummary {
  Summary_name : rstring;
  Summary_default : bool;
  Summary_transport : string
}.
Record ProfilesReport := mkProfilesReport {
  Profiles_profiles : list ProfileSummary;
  Profiles_default_profile : option rstring
}.

Definition join_lines (ls : list rstring) : rstring :=
  match ls with [] => [] | l :: ls => l ++ concat ((λ l, 0x0a%Z :: l) <$> ls) end.

Definition profiles_list (args : Cli) : cli W () :=
  store ← config_store args;
  loaded ← load_unmodified store;
  config ← match loaded with
           | Load_Missing => raise (missing_config store)
           | Load_Loaded config | Load_NeedsMigration config => mret config
           end;
  let profiles := (λ '(name, profile),
      mkProfileSummary name (is_default name config) (transport_label (DeviceProfile_transport profile)))
    <$> btree_to_list (Config_device_profiles config) in
  let human := if bool_decide (length profiles = 0) then str_bytes "No device profiles are configured."
               else join_lines ((λ p, Summary_name p ++ [0x09%Z] ++ str_bytes (Summary_transport p)
                      ++ (if Summary_default p then [0x09%Z] ++ str_bytes "(default)" else [])) <$> profiles) in
  emit_result (Cli_output args) "profiles" (mkProfilesReport profiles (Config_default_profile config)) human.

Record ProfileReconfiguredReport := mkReconfigured {
  Reconfigured_profile : rstring;
  Reconfigured_transport : string;
  Reconfigured_default : bool
}.

Definition reconfigure_profile (name : rstring) (transport : TransportConfig) (config : Config) : option Config :=
  profile ← Config_device_profiles config !! name;
  let profile := mkDeviceProfile transport (DeviceProfile_transport_overrides profile)
                   (DeviceProfile_secret profile) in
  Some (set_profiles (<[name := profile]> (Config_device_profiles config)) (Config_default_profile config) config).

Definition profiles_reconfigure (args : Cli) (options : ProfileReconfigureArgs) : cli W () :=
  let name := Reconfigure_name options in
  _ ← lift (validate_name name);
  transport ← lift (transport_from_options (Reconfigure_ble options) (Reconfigure_serial options)
                      (Reconfigure_tcp options) (Reconfigure_demo options));
  store ← config_store args;
  _ ← run_fs (lock_exclusive store);
  config ← load_mutable store;
  config ← lift (ok_or (reconfigure_profile name transport config) (profile_not_found name));
  _ ← run_fs (save_unlocked (Host_tls host) store config);
  emit_result (Cli_output args) "profile_reconfigured"
    (mkReconfigured name (transport_label transport) (is_default name config))
    (str_bytes "Reconfigured profile '" ++ name ++ str_bytes ("' to use " +:+ transport_label transport +:+ ".")).

Record ProfileRenamedReport := mkRenamed {
  Renamed_old : rstring;
  Renamed_new : rstring;
  Renamed_default : bool;
  Renamed_history_migrated : bool;
  Renamed_warning : string
}.

(** The document with the profile under its new name, still the default if it was. *)
Definition rename_profile (old new : rstring) (config : Config) : option Config :=
  profile ← Config_device_profiles config !! old;
  Some (set_profiles (<[new := profile]> (delete old (Config_device_profiles config)))
          (if is_default old config then Some new else Config_default_profile config) config).

(** The two checks, before the confirmation and again under the lock. *)
Definition check_rename (old new : rstring) (config : Config) : outcome CliError () :=
  if negb (has_profile old config) then Err (profile_not_found old)
  else if has_profile new config then Err (profile_exists new)
  else Ok ().

(** The move of the history around the replacement of the document. *)
Definition rename_stores (store : ConfigStore) (old_history new_history : HistoryStore) (config : Config) :
    fs bool :=
  move_to_with old_history new_history (save_unlocked (Host_tls host) store config).

Definition profiles_rename (args : Cli) (old new : rstring) : cli W () :=
  _ ← lift (validate_name old);
  _ ← lift (validate_name new);
  if bool_decide (old = new) then
    raise (CliError_new Exit_Usage "the old and new profile names must differ")
  else
  store ← config_store args;
  initial ← load_mutable store;
  _ ← lift (check_rename old new initial);
  _ ← confirm host args ("rename profile '" +:+ bytes_str old +:+ "' to '" +:+ bytes_str new +:+ "' ("
                           +:+ RENAME_WARNING +:+ ")");
  _ ← run_fs (lock_exclusive store);
  config ← load_mutable store;
  _ ← lift (check_rename old new config);
  let max_messages := HistorySettings_max_messages (Config_history config) in
  old_history ← lift (history_store_for_cli args (ConfigStore_path store) old max_messages);
  new_history ← lift (history_store_for_cli args (ConfigStore_path store) new max_messages);
  renamed ← lift (ok_or (rename_profile old new config)
                    (CliError_new Exit_Configuration
                       "the selected profile disappeared during the local rename operation"));
  history_migrated ← run_fs (rename_stores store old_history new_history renamed);
  emit_result (Cli_output args) "profile_renamed"
    (mkRenamed old new (is_default old config) history_migrated RENAME_WARNING)
    (str_bytes "Renamed profile '" ++ old ++ str_bytes "' to '" ++ new
       ++ str_bytes ("'. Warning: " +:+ RENAME_WARNING +:+ ".")).

Record ProfileDeletedReport := mkDeleted {
  Deleted_profile : rstring;
  Deleted_default_cleared : bool;
  Deleted_history_retained : bool;
  Deleted_credentials_retained : bool
}.

Definition delete_profile (name : rstring) (config : Config) : Config :=
  set_profiles (delete name (Config_device_profiles config))
    (if is_default name config then None else Config_default_profile config) config.

Definition profiles_delete (args : Cli) (name : rstring) : cli W () :=
  _ ← lift (validate_name name);
  store ← config_store args;
  initial ← load_mutable store;
  _ ← lift (ensure (has_profile name initial) (profile_not_found name));
  _ ← confirm host args ("delete profile '" +:+ bytes_str name
                           +:+ "' while retaining its local history and credentials");
  _ ← run_fs (lock_exclusive store);
  config ← load_mutable store;
  _ ← lift (ensure (has_profile name config) (profile_not_found name));
  _ ← run_fs (save_unlocked (Host_tls host) store (delete_profile name config));
  emit_result (Cli_output args) "profile_deleted" (mkDeleted name (is_default name config) true true)
    (str_bytes "Deleted profile '" ++ name ++ str_bytes "'. Local history and credentials were retained.").

Record ProfileDefaultSetReport := mkDefaultSet { DefaultSet_profile : rstring }.

Definition profiles_set_default (args : Cli) (name : rstring) : cli W () :=
  _ ← lift (validate_name name);
  store ← config_store args;
  _ ← run_fs (lock_exclusive store);
  config ← load_mutable store;
  _ ← lift (ensure (has_profile name config) (profile_not_found name));
  _ ← run_fs (save_unlocked (Host_tls host) store
                (set_profiles (Config_device_profiles config) (Some name) config));
  emit_result (Cli_output args) "profile_default_set" (mkDefaultSet name)
    (str_bytes "Set profile '" ++ name ++ str_bytes "' as the default.").

Definition profiles (args : Cli) (command : ProfileCommand) : cli W () :=
  match command with
  | Profile_List => profiles_list args
  | Profile_Reconfigure options => profiles_reconfigure args options
  | Profile_Rename old new => profiles_rename args old new
  | Profile_Delete name => profiles_delete args name
  | Profile_SetDefault name => profiles_set_default args name
  end.
End documents.

(** ** Configuration commands (runtime.rs) *)

Section configuration.
Context {W : Type} `{Companion W} (host : Host).
Context `{ConfigToml} `{Crates} `{HistoryCodec} `{CliJson}.

Record ConfigShowReport := mkConfigShowReport {
  ConfigShow_path : string;
  ConfigShow_needs_migration : bool;
  ConfigShow_effective : EffectiveConfig
}.

(** [human.trim_end()]. *)
Definition trim_end (s : rstring) : rstring := of_chars (rev (trim_start (rev (chars s)))).

Definition config_show (args : Cli) : cli W () :=
  store ← config_store host args;
  let path := ConfigStore_path store in
  loaded ← load_optional host store;
  '(config, needs_migration) ←
    match loaded with
    | Load_Missing =>
        raise (with_hint (CliError_new Exit_Configuration ("configuration is missing at " +:+ path))
                 "Run `meshquill init`.")
    | Load_Loaded config => mret (config, false)
    | Load_NeedsMigration config => mret (config, true)
    end;
  human ← of_store (to_effective_toml config);
  emit_result (Cli_output args) "configuration"
    (mkConfigShowReport path needs_migration (effective_config config)) (trim_end human).

Record ConfigChangeReport := mkConfigChangeReport {
  ConfigChange_path : string;
  ConfigChange_changed : bool;
  ConfigChange_backup_path : option string
}.

(** The document is backed up before it is replaced, both under the lock. *)
Definition config_migrate (args : Cli) : cli W () :=
  store ← config_store host args;
  _ ← run_fs (lock_exclusive store);
  loaded ← load_unmodified host store;
  '(changed, backup_path) ←
    match loaded with
    | Load_Missing =>
        raise (with_hint (CliError_new Exit_Configuration
                            ("configuration is missing at " +:+ ConfigStore_path store))
                 "Run `meshquill init`.")
    | Load_Loaded _ => mret (false, None)
    | Load_NeedsMigration config =>
        clock ← ask comp_clock;
        backup ← run_fs (backup_unlocked store clock (Host_pid host));
        _ ← run_fs (save_unlocked (Host_tls host) store config);
        mret (true, Some backup)
    end;
  let human := if changed : bool then
                 "Migrated configuration; backup: " +:+ default "unavailable" backup_path
               else "Configuration is already current." in
  emit_result (Cli_output args) "configuration_migration"
    (mkConfigChangeReport (ConfigStore_path store) changed backup_path) (str_bytes human).

Definition config_repair (args : Cli) : cli W () :=
  _ ← confirm host args "replace the selected configuration with safe defaults";
  store ← config_store host args;
  clock ← ask comp_clock;
  outcome_ ← run_fs (repair (Host_tls host) store clock (Host_pid host));
  let backup_path := Repair_backup_path outcome_ in
  let human := match backup_path with
               | None => "Created a clean default configuration."
               | Some backup => "Repaired configuration; backup: " +:+ backup
               end in
  emit_result (Cli_output args) "configuration_repair"
    (mkConfigChangeReport (ConfigStore_path store) true backup_path) (str_bytes human).

(** ** The selection of the legacy tool *)

Definition MAX_LEGACY_ADDRESS_BYTES : Z := 512.

Definition legacy_source_path (requested_path : option bytes) : outcome CliError bytes :=
  match requested_path with
  | Some path => Ok path
  | None =>
      home ← ok_or (match Host_env host "HOME" with Some home => Some home | None => Host_env host "USERPROFILE" end)
        (with_hint (CliError_new Exit_Configuration
                      "the legacy meshcore-cli home directory could not be resolved")
           "Pass the path to its `default_address` file explicitly.");
      Ok (below (below (below home ".config") "meshcore") "default_address")
  end.

(** What the operating system answers about the file. *)
Record LegacyFile := mkLegacyFile {
  Legacy_open : bool;
  Legacy_metadata : option (bool * Z);
  Legacy_contents : option bytes
}.

Definition read_legacy_address (source : bytes) (file : LegacyFile) : outcome CliError rstring :=
  let configuration message := CliError_new Exit_Configuration message in
  _ ← ensure (Legacy_open file)
        (with_hint (configuration ("legacy meshcore-cli selection was not found at " +:+ bytes_str source))
           "Pass the path to the old `default_address` file.");
  '(is_file, length_) ← ok_or (Legacy_metadata file)
                          (configuration "legacy meshcore-cli selection could not be inspected");
  if negb is_file || (MAX_LEGACY_ADDRESS_BYTES <? length_)%Z then
    Err (configuration "legacy meshcore-cli selection must be a small regular file")
  else
    contents ← ok_or (Legacy_contents file)
                 (configuration "legacy meshcore-cli selection could not be read");
    let raw := take (Z.to_nat (MAX_LEGACY_ADDRESS_BYTES + 1)) contents in
    if (MAX_LEGACY_ADDRESS_BYTES <? Z.of_nat (length raw))%Z then
      Err (configuration "legacy meshcore-cli selection must be a small regular file")
    else
      text ← ok_or (from_utf8 raw) (configuration "legacy meshcore-cli selection is not valid UTF-8");
      let address := trimmed text in
      if bool_decide (address = []) || (128 <? length address)%nat || any_control address then
        Err (configuration "legacy meshcore-cli BLE identifier is empty or invalid")
      else Ok address.

Record LegacyImportReport := mkLegacyImportReport {
  LegacyImport_source : bytes;
  LegacyImport_config_path : string;
  LegacyImport_profile : rstring;
  LegacyImport_default : bool;
  LegacyImport_transport : string
}.

Definition IMPORTED_PROFILE : rstring := str_bytes "legacy".

Definition config_import_legacy (args : Cli) (requested_path : option bytes) (file : LegacyFile) : cli W () :=
  source ← lift (legacy_source_path requested_path);
  address ← lift (read_legacy_address source file);
  store ← config_store host args;
  _ ← run_fs (lock_exclusive store);
  loaded ← load_unmodified host store;
  config ← match loaded with
           | Load_Missing => mret Config_default
           | Load_Loaded config => mret config
           | Load_NeedsMigration _ =>
               raise (with_hint (CliError_new Exit_Configuration
                        "migrate the Meshquill configuration before importing a legacy device")
                        "Run `meshquill config migrate` first.")
           end;
  if has_profile IMPORTED_PROFILE config then
    raise (CliError_new Exit_Denied "profile 'legacy' already exists; legacy import never overwrites it")
  else
    let '(config, make_default) := add_profile IMPORTED_PROFILE (Transport_Ble address None) false config in
    _ ← run_fs (save_unlocked (Host_tls host) store config);
    emit_result (Cli_output args) "legacy_configuration_import"
      (mkLegacyImportReport source (ConfigStore_path store) IMPORTED_PROFILE make_default "ble")
      (str_bytes "Imported legacy BLE selection as profile 'legacy'.").
End configuration.
