(* ===== verification/ProfileProps.v ===== *)
(** * Command line: what the profile commands preserve

    Every profile command turns a valid document into a valid one, so the save that
    follows is never refused; and a rename moves the history with the profile,
    however it is interrupted. *)

From stdpp Require Import sorting.
From S2P Require Import Prelude Text Order Floats Domain Samples Hooks Store History HistoryFacts HistoryProps Paths.
From S2P Require Import MqttConfig Config ConfigProps CliOutput CliArgs Suggest Resolve Session CliConfig.

(** ** Valid documents *)

Definition profiles_valid (c : Config) : Prop :=
  ∀ name profile, Config_device_profiles c !! name = Some profile →
    validate_identifier name = true ∧ DeviceProfile_validate profile = Ok ().
Definition default_valid (c : Config) : Prop :=
  ∀ name, Config_default_profile c = Some name → is_Some (Config_device_profiles c !! name).
Definition settings_valid (tls : TlsFiles) (c : Config) : Prop :=
  TimeoutSettings_validate (Config_timeout c) = Ok () ∧ HistorySettings_validate (Config_history c) = Ok () ∧
  HookSettings_validate (Config_hook c) = Ok () ∧ MqttSettings_validate tls (Config_mqtt c) = Ok () ∧
  QueueSettings_validate (Config_queues c) = Ok ().

Lemma validate_profiles_iff l : validate_profiles l = Ok () ↔
  ∀ name profile, (name, profile) ∈ l → validate_identifier name = true ∧ DeviceProfile_validate profile = Ok ().
Proof.
  induction l as [|[n p] l IH]; simpl; [set_solver|].
  destruct (validate_identifier n) eqn:Hn; simpl; cycle 1.
  { split; [done|]. intros Hall. destruct (Hall n p) as [? _]; [set_solver|congruence]. }
  destruct (DeviceProfile_validate p) as [[]|e|] eqn:Hp; simpl.
  - rewrite IH. setoid_rewrite elem_of_cons. naive_solver.
  - split; [done|]. intros Hall. destruct (Hall n p) as [_ ?]; [set_solver|congruence].
  - split; [done|]. intros Hall. destruct (Hall n p) as [_ ?]; [set_solver|congruence].
Qed.

Lemma outcome_seq_iff {E} (m1 m2 : outcome E ()) : (_ ← m1; m2) = Ok () ↔ m1 = Ok () ∧ m2 = Ok ().
Proof. destruct m1 as [[]|e|]; simpl; naive_solver. Qed.

Lemma Config_validate_iff tls c : Config_validate tls c = Ok () ↔
  profiles_valid c ∧ default_valid c ∧ settings_valid tls c.
Proof.
  unfold Config_validate. rewrite !outcome_seq_iff. unfold settings_valid.
  assert (validate_profiles (btree_to_list (Config_device_profiles c)) = Ok () ↔ profiles_valid c) as Hp.
  { rewrite validate_profiles_iff. unfold profiles_valid. split.
    - intros Hall name profile Hl. apply Hall. rewrite btree_permutation. by apply elem_of_map_to_list.
    - intros Hall name profile Hin. rewrite btree_permutation in Hin. apply Hall. by apply elem_of_map_to_list. }
  rewrite Hp. unfold default_valid.
  destruct (Config_default_profile c) as [d|]; simpl; [|naive_solver].
  split.
  - intros (Hprof & Hd & Hrest). split; [done|split; [|done]]. intros name [= <-].
    destruct (validate_identifier d); simpl in Hd; [|done]. case_bool_decide as Hn; [done|].
    by apply not_eq_None_Some.
  - intros (Hprof & Hd & Hrest). split; [done|split; [|done]].
    destruct (Hd d eq_refl) as [profile Hl]. destruct (Hprof d profile Hl) as [-> _]. simpl.
    rewrite bool_decide_false by congruence. done.
Qed.

(** ** Transports from options *)

Lemma trim_start_head cs c cs' : trim_start cs = c :: cs' → is_whitespace c = false.
Proof.
  induction cs as [|d cs IH]; [done|]. simpl. destruct (is_whitespace d) eqn:Hd; [done|]. by intros [= <- <-].
Qed.
Lemma trim_start_nil cs : trim_start cs = [] → Forall (λ c, is_whitespace c = true) cs.
Proof.
  destruct (trim_start_suffix cs) as (ws & Heq & Hws). intros Hn. rewrite Hn, app_nil_r in Heq. by subst.
Qed.
(** Trimming leaves nothing of a blank text only. *)
Lemma trim_nil s : trim s = [] → Forall (λ c, is_whitespace c = true) (chars s).
Proof.
  unfold trim. intros Ht. apply (f_equal (@rev Z)) in Ht. rewrite rev_involutive in Ht. simpl in Ht.
  apply trim_start_nil in Ht. apply Forall_rev in Ht. rewrite rev_involutive in Ht.
  destruct (trim_start (chars s)) as [|c cs] eqn:E; [by apply trim_start_nil|].
  apply trim_start_head in E. apply Forall_cons in Ht as [? _]. congruence.
Qed.
Lemma trim_last s c rest : rev (trim s) = c :: rest → is_whitespace c = false.
Proof. unfold trim. rewrite rev_involutive. apply trim_start_head. Qed.

Lemma trim_scalar s : is_rstring s → Forall is_scalar (trim s).
Proof.
  intros Hs%chars_scalar. unfold trim.
  assert (∀ l : list Z, Forall is_scalar l → Forall is_scalar (trim_start l)) as Ht.
  { intros l Hl. destruct (trim_start_suffix l) as (ws & Heq & _). rewrite Heq in Hl.
    by apply Forall_app in Hl as [_ ?]. }
  by apply Forall_rev, Ht, Forall_rev, Ht.
Qed.

(** A trimmed text that is not empty is not blank. *)
Lemma trimmed_nonempty v : is_rstring v → trimmed v ≠ [] → trim_is_empty (trimmed v) = false.
Proof.
  intros Hv Hne. unfold trim_is_empty. apply bool_decide_eq_false_2. intros Ht%trim_nil.
  unfold trimmed in *. rewrite chars_of_chars_nil in Ht by by apply trim_scalar.
  destruct (rev (trim v)) as [|c rest] eqn:Hr.
  - apply Hne. apply (f_equal (@rev Z)) in Hr. rewrite rev_involutive in Hr. by rewrite Hr.
  - pose proof (trim_last v c rest Hr). apply Forall_rev in Ht. rewrite Hr in Ht.
    apply Forall_cons in Ht as [? _]. congruence.
Qed.

Lemma required_value_ok field v value : is_rstring v → required_value field v = Ok value →
  trim_is_empty value = false.
Proof.
  intros Hv. unfold required_value. case_bool_decide as Hn; [done|]. intros [= <-]. by apply trimmed_nonempty.
Qed.

Definition options_ok (ble serial tcp : option rstring) : Prop :=
  (∀ s, ble = Some s → is_rstring s) ∧ (∀ s, serial = Some s → is_rstring s) ∧
  (∀ s, tcp = Some s → is_rstring s).

Lemma trimmed_rstring s : is_rstring s → is_rstring (trimmed s).
Proof. intros Hs. by apply of_chars_rstring, trim_scalar. Qed.

Lemma trim_start_matches_rstring c s : (0 <= c <= 0x7f)%Z → is_rstring s → is_rstring (trim_start_matches c s).
Proof.
  intros Hc. induction s as [|b s IH]; [done|]. intros Hs. simpl. destruct (Z.eqb_spec b c) as [->|]; [|done].
  apply IH. by apply (is_rstring_cut [] c s) in Hs as [_ ?].
Qed.
Lemma trim_end_matches_rstring c s : (0 <= c <= 0x7f)%Z → is_rstring s → is_rstring (trim_end_matches c s).
Proof.
  intros Hc. unfold trim_end_matches. rewrite <- (rev_involutive s) at 1. generalize (rev s).
  induction l as [|b l IH]; [done|]. intros Hs. simpl. destruct (Z.eqb_spec b c) as [->|]; [|done].
  apply IH. simpl in Hs. by apply (is_rstring_cut (rev l) c []) in Hs as [? _].
Qed.

Lemma transport_from_options_valid ble serial tcp demo transport : options_ok ble serial tcp →
  transport_from_options ble serial tcp demo = Ok transport → TransportConfig_validate transport = Ok ().
Proof.
  intros (Hb & Hs & Ht). unfold transport_from_options. case_match; [done|].
  destruct ble as [id|]; [|destruct serial as [port|]; [|destruct tcp as [endpoint|]]].
  - destruct (required_value _ id) as [value|e|] eqn:Hv; simpl; [|done|done]. intros [= <-]. simpl.
    by rewrite (required_value_ok _ id value (Hb id eq_refl) Hv).
  - destruct (required_value _ port) as [value|e|] eqn:Hv; simpl; [|done|done]. intros [= <-]. simpl.
    by rewrite (required_value_ok _ port value (Hs port eq_refl) Hv).
  - unfold tcp_transport, rsplit_once. destruct (split_once 0x3a (rev endpoint)) as [[t h]|] eqn:Hsp; [|done].
    cbn [mbind option_bind ok_or outcome_bind]. apply split_once_spec in Hsp as [Hrev _].
    apply (f_equal (@rev Z)) in Hrev. rewrite rev_involutive, rev_app_distr in Hrev. simpl in Hrev.
    rewrite <- app_assoc in Hrev. simpl in Hrev.
    assert (is_rstring (rev h)) as Hh.
    { specialize (Ht endpoint eq_refl). rewrite Hrev in Ht. by apply is_rstring_cut in Ht as [? _]. }
    destruct (required_value _ _) as [value|e|] eqn:Hv; cbn [mbind outcome_bind]; [|done|done].
    apply required_value_ok in Hv;
      [|by apply trim_end_matches_rstring, trim_start_matches_rstring, trimmed_rstring].
    destruct (parse_unsigned 16 (rev t)) as [p|]; cbn [ok_or mbind outcome_bind]; [|done].
    destruct (p =? 0)%Z eqn:Hp; [done|]. intros [= <-]. simpl. by rewrite Hv, Hp.
  - by intros [= <-].
Qed.

(** ** The changes *)

Lemma set_profiles_valid tls c profiles default_profile : settings_valid tls c →
  profiles_valid (set_profiles profiles default_profile c) →
  default_valid (set_profiles profiles default_profile c) →
  Config_validate tls (set_profiles profiles default_profile c) = Ok ().
Proof. intros Hs Hp Hd. by apply Config_validate_iff. Qed.

(** each profile command makes a valid document of a valid one, so that the
    save that follows it is not refused: adding a profile with a transport from the
    options, replacing a transport, renaming, deleting, and choosing the default.
    A rename keeps the profile itself, its place as the default and every other
    profile; a deletion takes the default with it only if it was the profile
    deleted. *)
Theorem profile_changes_valid tls c name new transport : Config_validate tls c = Ok () →
  validate_identifier name = true → validate_identifier new = true →
  TransportConfig_validate transport = Ok () →
  (∀ b, Config_validate tls (add_profile name transport b c).1 = Ok ()) ∧
  (∀ c', reconfigure_profile name transport c = Some c' → Config_validate tls c' = Ok ()) ∧
  (∀ c', rename_profile name new c = Some c' → name ≠ new → Config_validate tls c' = Ok () ∧
     Config_device_profiles c' !! new = Config_device_profiles c !! name ∧
     Config_device_profiles c' !! name = None ∧
     (∀ other, other ≠ name → other ≠ new → Config_device_profiles c' !! other = Config_device_profiles c !! other) ∧
     (is_default name c = true → Config_default_profile c' = Some new)) ∧
  Config_validate tls (delete_profile name c) = Ok () ∧
  (has_profile name c = true →
     Config_validate tls (set_profiles (Config_device_profiles c) (Some name) c) = Ok ()).
Proof.
  intros (Hp & Hd & Hs)%Config_validate_iff Hn Hn' Ht.
  assert (DeviceProfile_validate (mkDeviceProfile transport None None) = Ok ()) as Hfresh.
  { unfold DeviceProfile_validate. simpl. by rewrite Ht. }
  split_and!.
  - intros b. unfold add_profile. simpl. apply set_profiles_valid; [done|..].
    + intros k profile. simpl. destruct (decide (name = k)) as [<-|]; [rewrite lookup_insert_eq; naive_solver|].
      rewrite lookup_insert_ne by done. apply Hp.
    + intros k. simpl. destruct (decide (name = k)) as [<-|Hne]; [rewrite lookup_insert_eq; by eauto|].
      rewrite lookup_insert_ne by done. destruct (b || _); [congruence|]. apply Hd.
  - unfold reconfigure_profile. intros c'. destruct (Config_device_profiles c !! name) as [profile|] eqn:Hl; simpl; [|done].
    intros [= <-]. destruct (Hp name profile Hl) as [_ Hv]. apply set_profiles_valid; [done|..].
    + intros k profile'. simpl. destruct (decide (name = k)) as [<-|]; cycle 1.
      { rewrite lookup_insert_ne by done. apply Hp. }
      rewrite lookup_insert_eq. intros [= <-]. split; [done|]. unfold DeviceProfile_validate in *. simpl in *.
      rewrite Ht. simpl. by destruct (TransportConfig_validate (DeviceProfile_transport profile)) as [[]|e|].
    + intros k Hk. simpl in *. destruct (decide (name = k)) as [<-|]; [rewrite lookup_insert_eq; by eauto|].
      rewrite lookup_insert_ne by done. by apply Hd.
  - unfold rename_profile. intros c' Hc' Hne. destruct (Config_device_profiles c !! name) as [profile|] eqn:Hl; simpl in Hc'; [|done].
    injection Hc' as <-. destruct (Hp name profile Hl) as [_ Hv]. split; [|split_and!]; simpl.
    + apply set_profiles_valid; [done|..].
      * intros k profile'. simpl. destruct (decide (new = k)) as [<-|]; [rewrite lookup_insert_eq; naive_solver|].
        rewrite lookup_insert_ne by done. intros [? Hk]%lookup_delete_Some. by apply Hp.
      * intros k. simpl. destruct (decide (new = k)) as [<-|]; [rewrite lookup_insert_eq; by eauto|].
        rewrite lookup_insert_ne by done. unfold is_default. case_bool_decide as Hdef; [congruence|].
        intros Hk. rewrite lookup_delete_ne by congruence. by apply Hd.
    + apply lookup_insert_eq.
    + rewrite lookup_insert_ne by done. apply lookup_delete_eq.
    + intros other Ho Ho'. by rewrite lookup_insert_ne, lookup_delete_ne by done.
    + by intros ->.
  - apply set_profiles_valid; [done|..].
    + intros k profile. simpl. intros [? Hk]%lookup_delete_Some. by apply Hp.
    + intros k. simpl. unfold is_default. case_bool_decide as Hdef; [done|].
      intros Hk. rewrite lookup_delete_ne by congruence. by apply Hd.
  - unfold has_profile. intros Hh%bool_decide_eq_true. apply set_profiles_valid; [done|done|].
    intros k. simpl. by intros [= <-].
Qed.

(** ** A rename and the history *)

Section Rename.
Context `{HistoryCodecLaws} `{ConfigToml} `{Crates} (host : Host).
Context (store : ConfigStore) (old new : HistoryStore) (renamed : Config).

(** The document on disk is the one with the profile under its new name. *)
Definition renamed_on_disk (F : files) : Prop :=
  ∃ text, to_toml_string renamed = Ok text ∧ F !! ConfigStore_path store = Some text.

(** The document is none of the history files, and the histories share none. *)
Definition separate_files : Prop :=
  ConfigStore_path store ∉ lock_targets old ++ lock_targets new ∧
  ∀ p, p ∈ lock_targets old → p ∉ lock_targets new.

Lemma rename_owner_outside : separate_files → owner_outside old new renamed_on_disk.
Proof.
  intros [Hc Hd]. split; [by intros p Hp Hp'; apply (Hd p)|].
  intros F F' Hs (text & Ht & Hl). exists text. split; [done|]. by rewrite Hs.
Qed.

Lemma save_updates_owner : separate_files →
  owner_update_if old new renamed_on_disk False (save_unlocked (Host_tls host) store renamed).
Proof.
  intros [Hc _] w Hh _.
  pose proof (spec_save_unlocked (X:=True) (Host_tls host) store renamed (Fs_files w)
    (λ _ F', renamed_on_disk F' ∧ ∀ p, p ∈ lock_targets old ++ lock_targets new → F' !! p = Fs_files w !! p)
    (λ F', ∀ p, p ∈ lock_targets old ++ lock_targets new → F' !! p = Fs_files w !! p)) as Hs.
  destruct Hs with w as (? & ? & Hr); try done.
  - intros text _ Ht.
    assert (∀ p, p ∈ lock_targets old ++ lock_targets new →
      <[ConfigStore_path store := text]> (Fs_files w) !! p = Fs_files w !! p) as Hsame.
    { intros p Hp. apply lookup_insert_ne. congruence. }
    split; [split; [|done]|done]. exists text. split; [done|]. apply lookup_insert_eq.
  - destruct (save_unlocked _ _ _ w) as [[[]|e|] w']; simpl in *; naive_solver.
Qed.
End Rename.

(** C22: renaming a profile never loses its messages, whichever write, rename or removal
    fails and wherever the process is killed, provided that every question whether a file
    exists is answered ([honest]), that a legacy copy dates the records it shares with
    the history as the history does, and that the document and the files of both
    histories are different files.  While the document still has the old name the
    history of the old name is whole; once it has the new one the messages are in
    the file of the new name, or still under the old name.  A rename that finishes
    has renamed the profile, and the messages are under the new name alone. *)
Theorem rename_keeps_history `{HistoryCodecLaws} `{ConfigToml} `{Crates} host store old new renamed w v :
  HistoryStore_wf old → honest w → history old (Fs_files w) = Some v → legacy_agrees old (Fs_files w) →
  separate_files store old new → ¬ renamed_on_disk store renamed (Fs_files w) →
  let '(r, w') := rename_stores host store old new renamed w in
  let F := Fs_files w' in
  (¬ renamed_on_disk store renamed F → history old F = Some v) ∧
  (renamed_on_disk store renamed F → file_entries (HistoryStore_path new) F = Some v ∨ history old F = Some v) ∧
  match r with
  | Done _ => renamed_on_disk store renamed F ∧ cleared old F ∧
              file_entries (HistoryStore_path new) F = Some v
  | _ => True
  end.
Proof.
  intros Hwf Hh Hv Ha Hsep Hnot.
  destruct (spec_move old new (renamed_on_disk store renamed) v (rename_owner_outside _ _ _ _ Hsep) False
    (save_unlocked (Host_tls host) store renamed) (Fs_files w) Hwf Ha Hv
    (save_updates_owner host store old new renamed Hsep) Hnot w eq_refl Hh) as (_ & _ & Hr).
  unfold rename_stores. destruct (move_to_with _ _ _ w) as [[b|e|] w']; simpl in *; unfold owned in Hr; naive_solver.
Qed.

(** ** Examples *)

Module SampleRename.
Import SampleConfig SampleHistory.

Definition host : Host := mkHost Platform_Linux (λ _, None) None no_tls ∅ true 1 42.
Definition site : rstring := str_bytes "site".
Definition before : Config :=
  mkConfig 1 (Some site) {[site := base; str_bytes "bench" := bench]}
    TimeoutSettings_default HistorySettings_default HookSettings_default MqttSettings_default
    QueueSettings_default.
Definition settings : ConfigStore := SampleConfig.store.
Definition disk : files := <["config/config.toml" := str_bytes "version = 1"]> SampleHistory.disk.
(** The directory of the replaced document cannot be synchronised. *)
Definition unsynced : Fs := mkFs disk [] (replicate 32 Pass ++ [Fail (mkIoError OtherKind "no space left")]).
(** Killed before the source is cleared. *)
Definition killed : Fs := mkFs disk [] (replicate 33 Pass ++ [Kill]).

Lemma rename_to_demo : rename_profile site (str_bytes "base") before = Some demo.
Proof. vm_compute. reflexivity. Qed.
End SampleRename.
Import SampleConfig SampleHistory SampleRename.

Lemma profile_changes_valid_witness :
  Config_validate no_tls demo = Ok () ∧
  Config_validate no_tls (delete_profile site before) = Ok ().
Proof.
  pose proof (profile_changes_valid no_tls before site (str_bytes "base") (Transport_Mock site)
    ltac:(vm_compute; reflexivity) ltac:(vm_compute; reflexivity) ltac:(vm_compute; reflexivity)
    ltac:(vm_compute; reflexivity)) as (_ & _ & Hr & Hd & _).
  split; [|exact Hd]. apply (Hr demo rename_to_demo). vm_compute. discriminate.
Defined.

Lemma separate_samples : separate_files settings SampleHistory.store target.
Proof. split; unfold lock_targets; simpl; set_solver. Qed.

Lemma renamed_text F : renamed_on_disk settings demo F ↔
  F !! "config/config.toml" = Some (str_bytes "version = 1 # demo" ++ [0x0a]%Z).
Proof.
  unfold renamed_on_disk. assert (to_toml_string demo = Ok (str_bytes "version = 1 # demo" ++ [0x0a]%Z)) as ->
    by (vm_compute; reflexivity). naive_solver.
Qed.

Lemma rename_keeps_history_witness :
  let '(r, w') := rename_stores host settings SampleHistory.store target demo killed in
  file_entries "data/home.jsonl" (Fs_files w') = Some [first_; third; second_] ∨
  history SampleHistory.store (Fs_files w') = Some [first_; third; second_].
Proof.
  pose proof (rename_keeps_history host settings SampleHistory.store target demo killed [first_; third; second_]
    store_wf ltac:(constructor) store_history store_agrees separate_samples) as Hr.
  rewrite renamed_text in Hr. specialize (Hr ltac:(vm_compute; discriminate)).
  assert (Fs_files (rename_stores host settings SampleHistory.store target demo killed).2 !! "config/config.toml"
    = Some (str_bytes "version = 1 # demo" ++ [0x0a]%Z)) as Hm by (vm_compute; reflexivity).
  destruct (rename_stores host settings SampleHistory.store target demo killed) as [r w'].
  apply Hr. by apply renamed_text.
Defined.

(** A document that is replaced but not synchronised is reported as a failure, and
    the copy of the history under the new name is cleared again: the profile has its
    new name, its history is left under the old one. *)
Example unsynced_rename_strands_history :
  let '(r, w') := rename_stores host settings SampleHistory.store target demo unsynced in
  renamed_on_disk settings demo (Fs_files w') ∧ cleared target (Fs_files w') ∧
  history SampleHistory.store (Fs_files w') = Some [first_; third; second_] ∧
  match r with Failed _ => True | _ => False end.
Proof.
  destruct (rename_stores host settings SampleHistory.store target demo unsynced) as [r w'] eqn:Hr.
  vm_compute in Hr. injection Hr as <- <-. rewrite renamed_text. split_and!; [vm_compute; reflexivity| |vm_compute; reflexivity|done].
  intros p Hp. unfold lock_targets in Hp. simpl in Hp.
  apply elem_of_cons in Hp as [->|Hp]; [vm_compute; reflexivity|].
  apply list_elem_of_singleton in Hp as ->. vm_compute. reflexivity.
Qed.
