(* ===== verification/Workflow.v ===== *)
(** * Command line: the workflow around a command (crates/meshquill-cli/src/workflow.rs)

    The services a command shares: the hooks, the history, and the tracker that
    recognises the live and the queued view of one incoming message; and the
    session of a command that needs one connection; and what both guarantee. *)

From S2P Require Import Prelude Text Order Floats Domain Managed Hooks HookRuntime Store History Paths MqttConfig.
From S2P Require Import Config CliOutput CliArgs Suggest Resolve Session CliConfig.

(** ** [IncomingTracker] *)

Definition INCOMING_CORRELATION_CAPACITY : nat := 256.

Definition opposite (observation_id : u64) (origin : IncomingOrigin) (occurrence : IncomingOccurrence) : Prop :=
  Occurrence_observation_id occurrence = observation_id ∧ Occurrence_origin occurrence ≠ origin.
#[global] Instance opposite_dec i o : ∀ x, Decision (opposite i o x).
Proof. intros x. unfold opposite. apply _. Defined.

Definition observe (observation_id : option u64) (origin : IncomingOrigin)
    (occurrences : list IncomingOccurrence) : bool * list IncomingOccurrence :=
  match observation_id with
  | None => (true, occurrences)
  | Some observation_id =>
      match list_find (opposite observation_id origin) occurrences with
      | Some (position, _) => (false, delete position occurrences)
      | None =>
          let occurrences := if length occurrences =? INCOMING_CORRELATION_CAPACITY then tail occurrences
                             else occurrences in
          (true, occurrences ++ [mkOccurrence observation_id origin])
      end
  end.

(** ** [WorkflowServices]

    The hook runtime and the tracker are state: they are kept in the environment. *)

Record WorkflowServices := mkWorkflow {
  Workflow_history_store : option HistoryStore;
  Workflow_transport_kind : string;
  Workflow_profile_name : rstring
}.

Record PreparedSend := mkPreparedSend { Prepared_destination : rstring; Prepared_text : rstring }.
Record OutgoingRecord := mkOutgoing {
  Outgoing_message_id : Uuid;
  Outgoing_history_message_id : option Uuid
}.

(** [Uuid::to_string]. *)
Definition uuid_string (id : Uuid) : rstring := str_bytes (debug_uuid id).

Definition entry_with_id (id : Uuid) (e : HistoryEntry) : HistoryEntry :=
  mkHistoryEntry (HistoryEntry_version e) id (HistoryEntry_recorded_at_unix_ms e) (HistoryEntry_direction e)
    (HistoryEntry_peer e) (HistoryEntry_channel e) (HistoryEntry_text e) (HistoryEntry_status e)
    (HistoryEntry_acknowledgement e).
Definition entry_with_status (status : HistoryStatus) (e : HistoryEntry) : HistoryEntry :=
  mkHistoryEntry (HistoryEntry_version e) (HistoryEntry_id e) (HistoryEntry_recorded_at_unix_ms e)
    (HistoryEntry_direction e) (HistoryEntry_peer e) (HistoryEntry_channel e) (HistoryEntry_text e) status
    (HistoryEntry_acknowledgement e).
Definition entry_accepted (peer : rstring) (ack_code : option bytes) (e : HistoryEntry) : HistoryEntry :=
  mkHistoryEntry (HistoryEntry_version e) (HistoryEntry_id e) (HistoryEntry_recorded_at_unix_ms e)
    (HistoryEntry_direction e) peer (HistoryEntry_channel e) (HistoryEntry_text e) (HistoryEntry_status e)
    ack_code.

Section workflow.
Context `{Companion W} (host : Host).
Context `{ConfigToml} `{Crates} `{HistoryCodec} `{HookJson}.

(** [spawn_blocking(move || store.load())] and its companions. *)
Definition load_history (store : HistoryStore) : cli W (list HistoryEntry) := run_fs (History.load store).
Definition load_history_entry (store : HistoryStore) (id : Uuid) : cli W (option HistoryEntry) :=
  entries ← load_history store;
  mret (find (λ entry, (HistoryEntry_id entry =? id)%Z) entries).
Definition clear_history (store : HistoryStore) : cli W () := run_fs (History.clear store).
Definition record_event (event : Event) : cli W () := λ e, (Ok (), log event e).
Definition store_upsert (store : HistoryStore) (entry : HistoryEntry) : cli W () :=
  _ ← record_event (Ev_Upsert entry);
  run_fs (upsert store entry).

Definition history_store_for_selected (selected : SelectedProfile) (include_disabled : bool) :
    outcome CliError (option HistoryStore) :=
  if negb (HistorySettings_enabled (Config_history (Selected_config selected))) && negb include_disabled then Ok None
  else store ← selected_history_store host selected; Ok (Some store).

(** [transport_kind]. *)
Definition workflow_transport_kind (transport : TransportConfig) : string :=
  match transport with
  | Transport_Ble _ _ => "ble" | Transport_Serial _ _ => "serial" | Transport_Tcp _ _ => "tcp"
  | Transport_Mock _ => "mock"
  end.

(** The fresh runtime and the fresh tracker of the services. *)
Definition install (hook_runtime : option HookRuntime) : cli W () := λ e,
  (Ok (), with_tracker [] (with_hooks hook_runtime e)).

Definition from_selected (selected : SelectedProfile) : cli W WorkflowServices :=
  config ← of_store (runtime_config (Config_hook (Selected_config selected)));
  hook_runtime ← match config with
                 | None => mret None
                 | Some config =>
                     runtime ← lift (map_err cli_of_hook (HookRuntime_new config (Host_runtime_id host)));
                     mret (Some runtime)
                 end;
  history_store ← (if HistorySettings_enabled (Config_history (Selected_config selected)) then
                     store ← lift (selected_history_store host selected); mret (Some store)
                   else mret None);
  _ ← install hook_runtime;
  mret (mkWorkflow history_store (workflow_transport_kind (DeviceProfile_transport (Selected_profile selected)))
          (Selected_name selected)).

(** A notification: [runtime.dispatch(event).await.map_err(CliError::from)?], if there
    is a runtime. *)
Definition notify (event : HookEvent) : cli W () := λ e,
  let e := log (Ev_Hook event) e in
  match Env_hooks e with
  | None => (Ok (), e)
  | Some runtime =>
      let '(clock, w) := comp_clock (Env_world e) in
      let '(os, w) := comp_os w in
      let '(r, _, runtime) := dispatch runtime clock (Host_parent_env host) os event in
      (map_err cli_of_hook (_ ← r; Ok ()), with_hooks (Some runtime) (with_world w e))
  end.

(** [runtime.before_send(input).await], and the allowance. *)
Definition ask_before_send (input : BeforeSendInput) : cli W BeforeSendOutcome := λ e,
  let e := log (Ev_Hook (HookEvent_BeforeSend input)) e in
  match Env_hooks e with
  | None => (Ok Outcome_Allow, e)
  | Some runtime =>
      let '(clock, w) := comp_clock (Env_world e) in
      let '(os, w) := comp_os w in
      let '(r, _, runtime) := before_send runtime clock (Host_parent_env host) os input in
      (map_err cli_of_hook (outcome_ ← r; require_allowed outcome_), with_hooks (Some runtime) (with_world w e))
  end.

Definition prepare_send (destination text : rstring) : cli W PreparedSend :=
  outcome_ ← ask_before_send (mkBeforeSend destination text);
  match outcome_ with
  | Outcome_Modify destination text => mret (mkPreparedSend destination text)
  | Outcome_Allow => mret (mkPreparedSend destination text)
  | Outcome_Reject _ =>
      raise (CliError_new Exit_Protocol "hook rejection was not converted into a typed hook error")
  end.

Section services.
Context (self : WorkflowServices).

(** [WorkflowServices::load_history]. *)
Definition workflow_load_history : cli W (option (list HistoryEntry)) :=
  match Workflow_history_store self with
  | None => mret None
  | Some store => entries ← load_history store; mret (Some entries)
  end.

Definition clear_tracker : cli W () := λ e, (Ok (), with_tracker [] e).

Definition connected (peer : rstring) : cli W () :=
  _ ← clear_tracker;
  let peer := if bool_decide (peer = []) then Workflow_profile_name self else peer in
  notify (HookEvent_OnConnect (mkOnConnect (str_bytes (Workflow_transport_kind self)) (Some peer))).

Definition disconnected (reason : string) : cli W () :=
  notify (HookEvent_OnDisconnect
            (mkOnDisconnect (str_bytes (Workflow_transport_kind self)) (Some (str_bytes reason)))).

(** [HistoryEntry::new], with the identifier replaced. *)
Definition new_entry (id : Uuid) (direction : HistoryDirection) (peer : rstring) (channel : option u8)
    (text : rstring) (status : HistoryStatus) : cli W HistoryEntry :=
  clock ← ask comp_clock;
  fresh ← ask comp_uuid;
  entry ← of_store (HistoryEntry_new clock fresh direction peer channel text status None);
  mret (entry_with_id id entry).

Definition begin_outgoing (peer : rstring) (channel : option u8) (text : rstring) : cli W OutgoingRecord :=
  message_id ← ask comp_uuid;
  match Workflow_history_store self with
  | None => mret (mkOutgoing message_id None)
  | Some store =>
      entry ← new_entry message_id Outgoing peer channel text Status_Pending;
      _ ← store_upsert store entry;
      mret (mkOutgoing message_id (Some message_id))
  end.

(** [if let Some(store) .. && let Some(history_id) .. && let Some(mut entry) ..]. *)
Definition amend (record : OutgoingRecord) (change : HistoryEntry → outcome CliError HistoryEntry) : cli W () :=
  match Workflow_history_store self, Outgoing_history_message_id record with
  | Some store, Some history_id =>
      entry ← load_history_entry store history_id;
      match entry with
      | None => mret ()
      | Some entry => entry ← lift (change entry); store_upsert store entry
      end
  | _, _ => mret ()
  end.

Definition sent (record : OutgoingRecord) (destination text message_id : rstring) (ack_code : option bytes) :
    cli W () :=
  _ ← amend record (λ entry, Ok (entry_accepted destination ack_code entry));
  notify (HookEvent_AfterSend (mkAfterSend destination text (Some message_id))).

Definition acknowledged (record : OutgoingRecord) (message_id : rstring) (source : option rstring)
    (round_trip_ms : option u32) (ack_code : bytes) : cli W () :=
  _ ← amend record (λ entry,
        if bool_decide (HistoryEntry_acknowledgement entry = Some ack_code) then
          Ok (entry_with_status Status_Acknowledged entry)
        else Err (CliError_new Exit_Protocol
                    "outgoing message acknowledgement did not match stored correlation"));
  notify (HookEvent_OnAck (mkOnAck message_id source round_trip_ms)).

Definition timed_out (record : OutgoingRecord) (operation : string) (message_id : rstring) : cli W () :=
  _ ← amend record (λ entry, Ok (entry_with_status Status_TimedOut entry));
  notify (HookEvent_OnTimeout (mkOnTimeout (str_bytes operation) (Some message_id))).

Definition failed (record : OutgoingRecord) : cli W () :=
  amend record (λ entry, Ok (entry_with_status Status_Failed entry)).

Definition track (observation_id : option u64) (origin : IncomingOrigin) : cli W bool := λ e,
  let '(is_new, tracker) := observe observation_id origin (Env_tracker e) in
  (Ok is_new, with_tracker tracker e).

Definition incoming (message : Message) (origin : IncomingOrigin) : cli W (option rstring) :=
  is_new ← track (Message_observation_id message) origin;
  if negb is_new then mret None
  else
    id ← ask comp_uuid;
    _ ← match Workflow_history_store self with
        | None => mret ()
        | Some store =>
            let channel := match Message_source message with
                           | MessageSource_Direct _ => None
                           | MessageSource_Channel channel_idx => Some channel_idx
                           end in
            entry ← new_entry id Incoming (message_source message) channel (Message_text message) Status_Received;
            store_upsert store entry
        end;
    _ ← notify (HookEvent_OnMessage (mkOnMessage (message_source message) (Message_text message)
                                       (Some (uuid_string id))));
    mret (Some (uuid_string id)).

Definition contact_updated (contact_id : rstring) (display_name : option rstring) (change : ContactChange) :
    cli W () :=
  notify (HookEvent_OnContactUpdate (mkOnContactUpdate contact_id display_name change)).

Definition workflow_error (operation : string) (message : string) : cli W () :=
  notify (HookEvent_OnError (mkOnError (str_bytes operation) (str_bytes message))).
End services.

(** ** [CompanionSession] *)

Record CompanionSession := mkSession {
  Session_workflow : WorkflowServices;
  Session_operation : string
}.

Definition session_connect (selected : SelectedProfile) (operation : string) : cli W (CompanionSession * SelfInfo) :=
  workflow ← from_selected selected;
  result ← request ActorCommand_Connect;
  match result with
  | inl error => _ ← shutdown; raise (cli_of_core error)
  | inr info =>
      announced ← attempt (connected workflow (SelfInfo_name info));
      match announced with
      | inl primary =>
          _ ← ignore (disconnected workflow "connection hook failed");
          _ ← shutdown;
          raise primary
      | inr _ => mret (mkSession workflow operation, info)
      end
  end.

Definition should_emit_error (status : ExitStatus) : bool :=
  match status with
  | Exit_Success | Exit_Hook | Exit_Mqtt | Exit_Interrupted => false
  | _ => true
  end.

Definition emit_primary_error (self : CompanionSession) (error : CliError) : cli W () :=
  if should_emit_error (CliError_status error) then
    ignore (workflow_error (Session_operation self) (CliError_message error))
  else mret ().

(** The end of [finish]: the withdrawal does not mask the result. *)
Definition withdraw {T} (self : CompanionSession) (primary : CliError + T) : cli W T :=
  let reason := match primary with
                | inr _ => "command completed"
                | inl error =>
                    if bool_decide (CliError_status error = Exit_Interrupted) then "command interrupted"
                    else "command failed"
                end in
  disconnected_ ← attempt (disconnected (Session_workflow self) reason);
  match primary, disconnected_ with
  | inl error, _ => raise error
  | inr _, inl error => raise error
  | inr value, inr _ => mret value
  end.

(** [CompanionSession::finish], of a result as [attempt] gives it. *)
Definition session_finish {T} (self : CompanionSession) (primary : CliError + T) : cli W T :=
  _ ← match primary with inl error => emit_primary_error self error | inr _ => mret () end;
  shutdown_ ← shutdown;
  match primary, shutdown_ with
  | inl error, _ => withdraw self (inl error)
  | inr _, inl error =>
      _ ← emit_primary_error self (cli_of_core error);
      withdraw self (inl (cli_of_core error))
  | inr value, inr _ => withdraw self (inr value)
  end.

(** [let (session, _) = CompanionSession::connect(..).await?; let operation = async { .. }.await;
    session.finish(operation).await]. *)
Definition with_session {T} (selected : SelectedProfile) (operation : string)
    (body : CompanionSession → SelfInfo → cli W T) : cli W T :=
  '(session, info) ← session_connect selected operation;
  result ← attempt (body session info);
  session_finish session result.
End workflow.

(** * Command line: what the workflow guarantees

    The tracker takes the live and the queued view of a message for one message;
    and a session keeps to [protocol] whatever is done in it. *)

(** ** The tracker *)

Notation observation := (option u64 * IncomingOrigin)%type.

Fixpoint observe_all (tracker : list IncomingOccurrence) (trace : list observation) :
    list bool * list IncomingOccurrence :=
  match trace with
  | [] => ([], tracker)
  | (id, origin) :: trace =>
      let '(answer, tracker) := observe id origin tracker in
      let '(answers, tracker) := observe_all tracker trace in (answer :: answers, tracker)
  end.

Definition of_origin (id : u64) (origin : IncomingOrigin) (x : IncomingOccurrence) : Prop :=
  x = mkOccurrence id origin.
#[global] Instance of_origin_dec id origin : ∀ x, Decision (of_origin id origin x).
Proof.
  intros [i o]. unfold of_origin. destruct (decide (i = id ∧ o = origin)) as [[-> ->]|]; [by left|].
  right. intros [= -> ->]. tauto.
Defined.

(** How often a view of a message was offered, and how often it was accepted. *)
Definition offered (id : u64) (origin : IncomingOrigin) (trace : list observation) : nat :=
  length (filter (λ o, o = (Some id, origin)) trace).
Definition accepted (id : u64) (origin : IncomingOrigin) (trace : list observation) (answers : list bool) : nat :=
  length (filter (λ x, x = (Some id, origin, true)) (zip trace answers)).
Definition pending (id : u64) (origin : IncomingOrigin) (tracker : list IncomingOccurrence) : nat :=
  length (filter (of_origin id origin) tracker).

(** No observation is forgotten for want of room. *)
Definition roomy (tracker : list IncomingOccurrence) (trace : list observation) : Prop :=
  ∀ n, length (observe_all tracker (take n trace)).2 < INCOMING_CORRELATION_CAPACITY.

Definition other (origin : IncomingOrigin) : IncomingOrigin := match origin with Live => Queue | Queue => Live end.
Lemma other_ne o o' : o' ≠ o ↔ o' = other o.
Proof. destruct o, o'; simpl; split; congruence. Qed.

Lemma pending_app id o l l' : pending id o (l ++ l') = pending id o l + pending id o l'.
Proof. unfold pending. by rewrite filter_app, length_app. Qed.
Lemma pending_one id o i o' : pending id o [mkOccurrence i o'] = if decide (i = id ∧ o' = o) then 1 else 0.
Proof.
  unfold pending. rewrite filter_cons, filter_nil. unfold of_origin.
  repeat case_decide; simpl; try done; naive_solver.
Qed.
Lemma pending_tail id o l : pending id o (tail l) ≤ pending id o l.
Proof. destruct l as [|x l]; [done|]. unfold pending. simpl. rewrite filter_cons. case_decide; simpl; lia. Qed.

(** The first view of the opposite origin is taken out. *)
Lemma pending_delete id o i o' l n x : list_find (opposite i o') l = Some (n, x) →
  pending id o l = pending id o (delete n l) + (if decide (i = id ∧ o = other o') then 1 else 0) ∧
  length (delete n l) = length l - 1.
Proof.
  intros (Hl & [Hi Ho] & _)%list_find_Some. destruct x as [i' o'']. simpl in *. subst i'.
  apply other_ne in Ho as ->. split.
  - rewrite <- (take_drop_middle l n _ Hl) at 1. rewrite delete_take_drop, !pending_app.
    change (?x :: ?l) with ([x] ++ l). rewrite pending_app, pending_one.
    repeat case_decide; naive_solver lia.
  - by eapply length_delete.
Qed.

Lemma pending_none id i o l : list_find (opposite i o) l = None → id = i → pending id (other o) l = 0.
Proof.
  intros Hn%list_find_None ->. unfold pending. induction Hn as [|x l Hx _ IH]; [done|]. rewrite filter_cons.
  case_decide as Hx'; [|done]. destruct Hx. rewrite Hx'. split; [done|]. simpl. by destruct o.
Qed.

Lemma observe_bounded id o tracker : length tracker ≤ INCOMING_CORRELATION_CAPACITY →
  length (observe id o tracker).2 ≤ INCOMING_CORRELATION_CAPACITY.
Proof.
  intros Hl. destruct id as [i|]; [|done]. simpl. destruct (list_find _ tracker) as [[n x]|] eqn:Hf; simpl.
  - apply (pending_delete i o) in Hf as [_ ->]. lia.
  - rewrite length_app. simpl. destruct (Nat.eqb_spec (length tracker) INCOMING_CORRELATION_CAPACITY); [|lia].
    destruct tracker; [done|]. simpl in *. lia.
Qed.

(** One observation: an accepted view may be pending, a rejected one was paired with
    an accepted view of the other origin. *)
Lemma observe_counts id o i o' tracker : let '(answer, tracker') := observe (Some i) o' tracker in
  let here := if decide (i = id) then 1 else 0 in
  (answer = true → pending id o tracker' ≤ pending id o tracker + (if decide (o' = o) then here else 0)) ∧
  (answer = false → pending id o tracker = pending id o tracker' + (if decide (o = other o') then here else 0)) ∧
  (length tracker < INCOMING_CORRELATION_CAPACITY → answer = true →
     pending id o tracker' = pending id o tracker + (if decide (o' = o) then here else 0)) ∧
  (answer = true → i = id → pending id (other o') tracker' = 0).
Proof.
  simpl. destruct (list_find _ tracker) as [[n x]|] eqn:Hf.
  - destruct (pending_delete id o _ _ _ _ _ Hf) as [Hp _]. split_and!; [done| |done|done]. intros _. rewrite Hp.
    repeat case_decide; naive_solver.
  - pose proof (pending_tail id o tracker). pose proof (pending_tail id (other o') tracker).
    pose proof (pending_none id i o' tracker Hf) as Hz.
    assert (∀ l, pending id o (l ++ [mkOccurrence i o']) = pending id o l +
      (if decide (o' = o) then if decide (i = id) then 1 else 0 else 0)) as Happ.
    { intros l. rewrite pending_app, pending_one. repeat case_decide; naive_solver. }
    split_and!; [|done| |].
    + intros _. rewrite Happ. destruct (length tracker =? INCOMING_CORRELATION_CAPACITY)%nat; lia.
    + intros Hlt _. rewrite Happ. destruct (Nat.eqb_spec (length tracker) INCOMING_CORRELATION_CAPACITY); lia.
    + intros _ <-. specialize (Hz eq_refl). rewrite pending_app, pending_one.
      rewrite decide_False by (intros [_ He]; by destruct o').
      destruct (length tracker =? INCOMING_CORRELATION_CAPACITY)%nat; lia.
Qed.

(** The books: every accepted view of one origin is pending, was paired with a view of
    the other origin, or was forgotten. *)
Record books (id : u64) (live queue accepted_live accepted_queue : nat) (tracker : list IncomingOccurrence) : Prop := {
  books_live : accepted_live ≤ live;
  books_queue : accepted_queue ≤ queue;
  books_rejected_queue : (queue - accepted_queue) + pending id Live tracker ≤ accepted_live;
  books_rejected_live : (live - accepted_live) + pending id Queue tracker ≤ accepted_queue
}.
Record full_books (id : u64) (live queue accepted_live accepted_queue : nat) (tracker : list IncomingOccurrence) : Prop := {
  full_queue : (queue - accepted_queue) + pending id Live tracker = accepted_live;
  full_live : (live - accepted_live) + pending id Queue tracker = accepted_queue;
  full_one : pending id Live tracker = 0 ∨ pending id Queue tracker = 0
}.

Lemma offered_cons id o x trace :
  offered id o (x :: trace) = (if decide (x = (Some id, o)) then 1 else 0) + offered id o trace.
Proof. unfold offered. rewrite filter_cons. by case_decide. Qed.
Lemma accepted_cons id o x trace (b : bool) answers :
  accepted id o (x :: trace) (b :: answers) =
    (if decide (x = (Some id, o)) then if b then 1 else 0 else 0) + accepted id o trace answers.
Proof.
  unfold accepted. cbn [zip zip_with]. rewrite filter_cons. destruct b; repeat case_decide; simplify_eq; done.
Qed.

Lemma observe_books id l q al aq i o tracker : books id l q al aq tracker →
  let '(answer, tracker') := observe i o tracker in
  let view o' := if decide ((i, o) = (Some id, o')) then 1 else 0 in
  let taken o' := if decide ((i, o) = (Some id, o')) then if answer : bool then 1 else 0 else 0 in
  books id (l + view Live) (q + view Queue) (al + taken Live) (aq + taken Queue) tracker' ∧
  (length tracker < INCOMING_CORRELATION_CAPACITY → full_books id l q al aq tracker →
   full_books id (l + view Live) (q + view Queue) (al + taken Live) (aq + taken Queue) tracker').
Proof.
  intros [Hl Hq Hrq Hrl]. destruct i as [i|]; cycle 1.
  { unfold observe. cbv beta iota zeta. rewrite !decide_False by done. split; [constructor; lia|]. intros _ [? ? ?]. constructor; lia. }
  pose proof (observe_counts id Live i o tracker) as HL. pose proof (observe_counts id Queue i o tracker) as HQ.
  destruct (observe (Some i) o tracker) as [answer tracker'] eqn:Ho. cbv zeta in *.
  destruct HL as (HL1 & HL2 & HL3 & HL4), HQ as (HQ1 & HQ2 & HQ3 & _).
  destruct answer.
  - specialize (HL1 eq_refl). specialize (HQ1 eq_refl). clear HL2 HQ2.
    split; [constructor|intros Hroom [? ? ?]; specialize (HL3 Hroom eq_refl); specialize (HQ3 Hroom eq_refl);
      specialize (HL4 eq_refl); constructor];
      destruct o; cbn [other] in *; repeat case_decide; simplify_eq; try lia; naive_solver lia.
  - specialize (HL2 eq_refl). specialize (HQ2 eq_refl). clear HL1 HL3 HL4 HQ1 HQ3.
    split; [constructor|intros Hroom [? ? ?]; constructor];
      destruct o; cbn [other] in *; repeat case_decide; simplify_eq; try lia; naive_solver lia.
Qed.

Lemma observe_all_books id trace : ∀ l q al aq tracker, books id l q al aq tracker →
  let '(answers, tracker') := observe_all tracker trace in
  let L := l + offered id Live trace in let Q := q + offered id Queue trace in
  let AL := al + accepted id Live trace answers in let AQ := aq + accepted id Queue trace answers in
  books id L Q AL AQ tracker' ∧
  (roomy tracker trace → full_books id l q al aq tracker → full_books id L Q AL AQ tracker').
Proof.
  induction trace as [|[i o] trace IH]; intros l q al aq tracker Hb.
  { simpl. unfold offered, accepted. simpl. rewrite !Nat.add_0_r. done. }
  pose proof (observe_books id l q al aq i o tracker Hb) as Hs. simpl.
  destruct (observe i o tracker) as [answer tracker1] eqn:Ho. destruct Hs as [Hb1 Hf1].
  specialize (IH _ _ _ _ _ Hb1). destruct (observe_all tracker1 trace) as [answers tracker2] eqn:Ha. cbv zeta in *.
  rewrite !offered_cons, !accepted_cons, !Nat.add_assoc. destruct IH as [Hb2 Hf2].
  split; [done|]. intros Hroom Hf. apply Hf2; [|apply Hf1; [|done]].
  - intros n. specialize (Hroom (S n)). simpl in Hroom. rewrite Ho in Hroom.
    by destruct (observe_all tracker1 (take n trace)) eqn:E.
  - exact (Hroom 0).
Qed.

(** C30: the live and the queued view of one message count once.  The tracker never
    holds more than its capacity.  However the views arrive, at least as many are
    accepted as the busier of the two ways delivered, so no message is lost, and
    never more than were offered; while the tracker has room it is exactly as many,
    so none is reported twice.  A message without an identifier is always accepted. *)
Theorem each_message_once trace : let '(answers, tracker) := observe_all [] trace in
  length tracker ≤ INCOMING_CORRELATION_CAPACITY ∧
  (∀ n origin, trace !! n = Some (None, origin) → answers !! n = Some true) ∧
  ∀ id, let live := offered id Live trace in let queue := offered id Queue trace in
    let total := accepted id Live trace answers + accepted id Queue trace answers in
    max live queue ≤ total ≤ live + queue ∧ (roomy [] trace → total = max live queue).
Proof.
  assert (∀ trace tracker, length tracker ≤ INCOMING_CORRELATION_CAPACITY →
    length (observe_all tracker trace).2 ≤ INCOMING_CORRELATION_CAPACITY ∧
    ∀ n origin, trace !! n = Some (None, origin) → (observe_all tracker trace).1 !! n = Some true) as Hb.
  { clear trace. intros trace. induction trace as [|[i o] trace IH]; intros tracker Hl; [done|]. simpl.
    pose proof (observe_bounded i o tracker Hl) as Hl'. destruct (observe i o tracker) as [answer tracker'] eqn:Ho.
    destruct (IH tracker' Hl') as [Hl'' Hn]. destruct (observe_all tracker' trace) as [answers tracker''].
    split; [done|]. intros [|n] origin; simpl; [|apply Hn]. intros [= -> ->]. by injection Ho as <- <-. }
  destruct (Hb trace [] ltac:(simpl; lia)) as [Hl Hn].
  destruct (observe_all [] trace) as [answers tracker] eqn:Ha. split_and!; [done|done|].
  intros id. pose proof (observe_all_books id trace 0 0 0 0 []) as Hk. rewrite Ha in Hk. cbv zeta in *.
  destruct Hk as [[] Hf]; [by constructor; unfold pending; simpl; lia|]. simpl in *.
  split; [lia|]. intros Hroom. destruct (Hf Hroom) as [? ? ?]; [by constructor; unfold pending; simpl; auto|]. lia.
Qed.

(** ** Rules of the services *)

Section rules.
Context `{Companion W} (host : Host).
Context `{ConfigToml} `{Crates} `{HistoryCodec} `{HookJson}.

Section services.
Context `{Automaton St}.
Implicit Types s : St.

Lemma follows_notify s s' event (Q : outcome CliError () → St → Prop) :
  step_event s (Ev_Hook event) = Some s' → (∀ r, Q r s') → follows s (notify host event) Q.
Proof.
  intros Hs HQ e. unfold notify.
  assert (advance s [Ev_Hook event] = Some s') as Ha by (simpl; by rewrite Hs).
  destruct (Env_hooks (log (Ev_Hook event) e)) as [runtime|]; cycle 1.
  { exists [Ev_Hook event], s'. auto. }
  destruct (comp_clock _) as [clock w], (comp_os w) as [os w'], (dispatch _ _ _ _ _) as [[r l] runtime'].
  exists [Ev_Hook event], s'. auto.
Qed.

Lemma follows_ask_before_send s s' input (Q : outcome CliError BeforeSendOutcome → St → Prop) :
  step_event s (Ev_Hook (HookEvent_BeforeSend input)) = Some s' → (∀ r, Q r s') → follows s (ask_before_send host input) Q.
Proof.
  intros Hs HQ e. unfold ask_before_send.
  assert (advance s [Ev_Hook (HookEvent_BeforeSend input)] = Some s') as Ha by (simpl; by rewrite Hs).
  destruct (Env_hooks (log (Ev_Hook (HookEvent_BeforeSend input)) e)) as [runtime|]; cycle 1.
  { exists [Ev_Hook (HookEvent_BeforeSend input)], s'. auto. }
  destruct (comp_clock _) as [clock w], (comp_os w) as [os w'], (before_send _ _ _ _ _) as [[r l] runtime'].
  exists [Ev_Hook (HookEvent_BeforeSend input)], s'. auto.
Qed.

Lemma follows_prepare_send s s' destination text (Q : outcome CliError PreparedSend → St → Prop) :
  step_event s (Ev_Hook (HookEvent_BeforeSend (mkBeforeSend destination text))) = Some s' → (∀ r, Q r s') →
  follows s (prepare_send host destination text) Q.
Proof.
  intros Hs HQ. apply follows_bind. eapply follows_ask_before_send; [done|]. intros [[| |]| |]; auto using follows_ret, follows_raise.
Qed.

Lemma follows_ignore {A} s (m : cli W A) (Q : outcome CliError () → St → Prop) :
  follows s m (λ _ s', Q (Ok ()) s') → follows s (ignore m) Q.
Proof.
  intros Hm. apply follows_bind, follows_attempt. eapply follows_mono; [done|].
  intros [a|error|] s' HQ; auto using follows_ret.
Qed.

(** A step of the history, which the protocol does not mind. *)
Lemma follows_store_upsert s store entry (Q : outcome CliError () → St → Prop) :
  (∀ r, Q r s) → follows s (store_upsert store entry : cli W ()) Q.
Proof.
  intros HQ. apply follows_bind. intros e. exists [Ev_Upsert entry], s.
  cbn [advance]. rewrite upsert_ignored. split_and!; [done..|]. intros _.
  by apply follows_silent; [apply silent_run_fs|].
Qed.

Lemma silent_load_history_entry store id : silent (load_history_entry store id : cli W _).
Proof. apply silent_bind; [apply silent_run_fs|intros; apply silent_ret]. Qed.

Lemma follows_amend s self record change (Q : outcome CliError () → St → Prop) :
  (∀ r, Q r s) → follows s (amend self record change : cli W ()) Q.
Proof.
  intros HQ. unfold amend. destruct (Workflow_history_store self) as [store|]; [|by apply follows_ret].
  destruct (Outgoing_history_message_id record) as [id|]; [|by apply follows_ret].
  apply follows_bind, follows_silent; [apply silent_load_history_entry|].
  intros [[entry|]|error|] Hr; [|by apply follows_ret|done|done].
  apply follows_bind, follows_lift. intros _. destruct (change entry) as [entry'|error|]; [|done|done].
  by apply follows_store_upsert.
Qed.

(** Amending the history and announcing it. *)
Lemma follows_amend_notify s self record change event (Q : outcome CliError () → St → Prop) :
  step_event s (Ev_Hook event) = Some s → (∀ r, Q r s) →
  follows s (_ ← amend self record change; notify host event) Q.
Proof.
  intros Hs HQ. apply follows_bind, follows_amend. intros [[]|error|]; [|done|done]. by eapply follows_notify.
Qed.

Lemma silent_new_entry id direction peer channel text status :
  silent (new_entry id direction peer channel text status : cli W _).
Proof. unfold new_entry, of_store. repeat (apply silent_bind; [auto with mq_silent|intros ?]). apply silent_ret. Qed.

Lemma follows_begin_outgoing s self peer channel text (Q : outcome CliError OutgoingRecord → St → Prop) :
  (∀ r, Q r s) → follows s (begin_outgoing self peer channel text) Q.
Proof.
  intros HQ. unfold begin_outgoing. apply follows_bind, follows_silent; [apply silent_ask|].
  intros [id|error|] _; [|done|done]. destruct (Workflow_history_store self) as [store|]; [|by apply follows_ret].
  apply follows_bind, follows_silent; [apply silent_new_entry|]. intros [entry|error|] _; [|done|done].
  apply follows_bind, follows_store_upsert. intros [[]|error|]; [|done|done]. by apply follows_ret.
Qed.

Lemma silent_track id origin : silent (track id origin : cli W bool).
Proof. intros e. unfold track. by destruct (observe _ _ _). Qed.

Lemma follows_incoming s self message origin (Q : outcome CliError (option rstring) → St → Prop) :
  (∀ m, step_event s (Ev_Hook (HookEvent_OnMessage m)) = Some s) → (∀ r, Q r s) →
  follows s (incoming host self message origin) Q.
Proof.
  intros Ha HQ. unfold incoming. apply follows_bind, follows_silent; [apply silent_track|].
  intros [[]|error|] _; [|by apply follows_ret|done|done]. simpl.
  apply follows_bind, follows_silent; [apply silent_ask|]. intros [id|error|] _; [|done|done].
  assert (follows s (_ ← notify host (HookEvent_OnMessage (mkOnMessage (message_source message)
    (Message_text message) (Some (uuid_string id)))); mret (Some (uuid_string id))) Q) as Hn.
  { apply follows_bind. eapply follows_notify; [apply Ha|].
    intros [[]|error|]; [|done|done]. by apply follows_ret. }
  apply follows_bind. destruct (Workflow_history_store self) as [store|]; [|by apply follows_ret].
  apply follows_bind, follows_silent; [apply silent_new_entry|]. intros [entry|error|] _; [|done|done].
  apply follows_store_upsert. intros [[]|error|]; done.
Qed.

(** *** Operations that leave the stage as it is

    [at_] names the stages that a session can be in while it goes on. *)

Section steady.
Context {I : Type} (at_ : I → St).

Definition steady {A} (m : cli W A) : Prop := ∀ i, follows (at_ i) m (λ _ s, s = at_ i).

Lemma steady_silent {A} (m : cli W A) : silent m → steady m.
Proof. intros Hm i. by apply follows_silent. Qed.
Lemma steady_bind {A B} (m : cli W A) (f : A → cli W B) : steady m → (∀ a, steady (f a)) → steady (m ≫= f).
Proof. intros Hm Hf i. apply follows_bind. eapply follows_mono; [apply Hm|]. intros [a|error|] s ->; [apply Hf|done|done]. Qed.
Lemma steady_attempt {A} (m : cli W A) : steady m → steady (attempt m).
Proof. intros Hm i. apply follows_attempt. eapply follows_mono; [apply Hm|]. by intros [] s ->. Qed.
Lemma steady_ignore {A} (m : cli W A) : steady m → steady (ignore m).
Proof. intros Hm. apply steady_bind; [by apply steady_attempt|]. intros r. apply steady_silent, silent_ret. Qed.
Lemma steady_emit_with write event : (∀ i, step_event (at_ i) event = Some (at_ i)) → steady (emit_with write event).
Proof. intros He i. by eapply follows_emit_last. Qed.
Lemma steady_notify event : (∀ i, step_event (at_ i) (Ev_Hook event) = Some (at_ i)) → steady (notify host event).
Proof. intros He i. by eapply follows_notify. Qed.
Lemma steady_request {A} (command : ActorCommand A) :
  (∀ i ok, step_event (at_ i) (Ev_Request command ok) = Some (at_ i)) → steady (request command).
Proof. intros Hc i. by eapply follows_request. Qed.
Lemma steady_select {A} (command : ActorCommand A) :
  (∀ i ok, step_event (at_ i) (Ev_Request command ok) = Some (at_ i)) → steady (select_request command).
Proof. intros Hc i. by eapply follows_select. Qed.
Lemma steady_amend self record change : steady (amend self record change).
Proof. intros i. by apply follows_amend. Qed.
Lemma steady_begin_outgoing self peer channel text : steady (begin_outgoing self peer channel text).
Proof. intros i. by apply follows_begin_outgoing. Qed.
Lemma steady_incoming self message origin : (∀ i m, step_event (at_ i) (Ev_Hook (HookEvent_OnMessage m)) = Some (at_ i)) →
  steady (incoming host self message origin).
Proof. intros He i. by apply follows_incoming. Qed.
(** What follows an operation whose failure is looked at. *)
Lemma steady_attempt_then {A B} i (m : cli W A) (f : CliError + A → cli W B) (Q : outcome CliError B → St → Prop) :
  steady m → (∀ r, follows (at_ i) (f r) Q) → follows (at_ i) (attempt m ≫= f) Q.
Proof.
  intros Hm Hf. apply follows_bind, follows_attempt. eapply follows_mono; [apply Hm|]. by intros [a|error|] s ->; [apply Hf..|].
Qed.
End steady.

End services.
Implicit Types s : Stage.

Lemma follows_connected s self peer (Q : outcome CliError () → Stage → Prop) :
  Stage_open s = true → Stage_announced s = false →
  (∀ r, Q r (mkStage true (Stage_closed s) true (Stage_scoped s) (Stage_failed s) (Stage_sent s))) →
  follows s (connected host self peer) Q.
Proof.
  intros Ho Ha HQ. unfold connected. apply follows_bind. intros e. exists [], s. rewrite app_nil_r.
  split_and!; [done..|]. intros _. eapply follows_notify; [|done]. destruct s; simpl in *. by rewrite Ho, Ha.
Qed.

Lemma follows_disconnected s self reason (Q : outcome CliError () → Stage → Prop) :
  Stage_announced s = true →
  (∀ r, Q r (mkStage (Stage_open s) (Stage_closed s) false (Stage_scoped s) (Stage_failed s) (Stage_sent s))) →
  follows s (disconnected host self reason) Q.
Proof. intros Ha HQ. eapply follows_notify; [|done]. destruct s; simpl in *. by rewrite Ha. Qed.

Lemma follows_shutdown s (Q : outcome CliError (CoreError + ()) → Stage → Prop) :
  Stage_closed s = false → Stage_scoped s = false →
  (∀ r, Q (Ok r) (mkStage false true (Stage_announced s) false false (Stage_sent s))) → follows s shutdown Q.
Proof.
  intros Hc Hs HQ. destruct s; simpl in *; subst. eapply follows_request; [done..| |]; auto.
Qed.

Lemma silent_from_selected selected : silent (from_selected host selected : cli W _).
Proof.
  unfold from_selected, of_store. apply silent_bind; [auto with mq_silent|intros config].
  apply silent_bind; [destruct config; auto with mq_silent|intros hooks].
  apply silent_bind; [destruct (HistorySettings_enabled _); auto with mq_silent|intros store].
  apply silent_bind; [done|auto with mq_silent].
Qed.

(** ** The session *)

(** Connected and announced, with nothing transmitted. *)
Definition in_session : Stage := mkStage true false true false false Unasked.
(** Over: settled, and no connection that was tried, successfully or not, is left to
    shut down. *)
Definition over (s : Stage) : Prop := settled s ∧ Stage_failed s = false.

Lemma follows_emit_primary_error s self error (Q : outcome CliError () → Stage → Prop) :
  Stage_announced s = true → Q (Ok ()) s → follows s (emit_primary_error host self error) Q.
Proof.
  intros Ha HQ. unfold emit_primary_error. destruct (should_emit_error _); [|by apply follows_ret].
  apply follows_ignore. eapply follows_notify; [|done]. destruct s; simpl in *. by rewrite Ha.
Qed.

Lemma follows_session_connect selected operation
    (Q : outcome CliError (CompanionSession * SelfInfo) → Stage → Prop) :
  (∀ error s, over s → Q (Err error) s) →
  (∀ session info, Q (Ok (session, info)) in_session) →
  follows at_rest (session_connect host selected operation) Q.
Proof.
  intros Herr Hok. unfold session_connect. apply follows_bind, follows_silent; [apply silent_from_selected|].
  intros [workflow|error|] _; [|apply Herr; repeat split; auto|done].
  apply follows_bind. eapply follows_request; [done..| |].
  - intros error. apply follows_bind, follows_shutdown; [done..|]. intros r.
    apply follows_raise, Herr. repeat split; auto.
  - intros info. apply follows_bind, follows_attempt, follows_connected; [done..|]. intros [[]|error|]; [| |done].
    + apply follows_ret, Hok.
    + apply follows_bind, follows_ignore, follows_disconnected; [done|]. intros _.
      apply follows_bind, follows_shutdown; [done..|]. intros r. apply follows_raise, Herr. repeat split; auto.
Qed.

Lemma follows_withdraw {T} session (primary : CliError + T) (Q : outcome CliError T → Stage → Prop) :
  (∀ r s, over s → Q r s) → follows (mkStage false true true false false Unasked) (withdraw host session primary) Q.
Proof.
  intros HQ. apply follows_bind, follows_attempt, follows_disconnected; [done|].
  assert (∀ r, Q r (mkStage false true false false false Unasked)) as HQ' by (intros r; apply HQ; repeat split; auto).
  intros [[]|error|]; destruct primary; auto using follows_raise, follows_ret.
Qed.

Lemma follows_session_finish {T} session (primary : CliError + T) (Q : outcome CliError T → Stage → Prop) :
  (∀ r s, over s → Q r s) → follows in_session (session_finish host session primary) Q.
Proof.
  intros HQ. unfold session_finish. apply follows_bind. destruct primary as [error|value].
  - apply follows_emit_primary_error; [done|]. apply follows_bind, follows_shutdown; [done..|]. intros r.
    by apply follows_withdraw.
  - apply follows_ret, follows_bind, follows_shutdown; [done..|]. intros [error|[]]; [|by apply follows_withdraw].
    apply follows_bind, follows_emit_primary_error; [done|]. by apply follows_withdraw.
Qed.

Lemma finish_unmasked {T} session (error : CliError) e :
  (session_finish host session (inl error : CliError + T) e).1 = Err error ∨
  (session_finish host session (inl error : CliError + T) e).1 = Panic.
Proof.
  unfold session_finish, withdraw, mbind, cli_bind, shutdown, request, attempt.
  destruct (emit_primary_error host session error e) as [[[]|error'|] e1] eqn:He; simpl; [| |by right].
  - destruct (comp_request ActorCommand_Shutdown (Env_world e1)) as [r w]. simpl.
    destruct (disconnected _ _ _ _) as [[[]|error''|] e3]; simpl; auto.
  - exfalso. revert He. unfold emit_primary_error, ignore, attempt, mbind, cli_bind. destruct (should_emit_error _); [|done].
    by destruct (workflow_error _ _ _ _) as [[] ?].
Qed.
End rules.

(** C14: a session is always taken back.  Whatever is done in it, as long as that keeps
    to the protocol and leaves no scope behind, a command that runs it connects at
    most once, announces the connection to the hooks only once it is made, shuts the
    client down exactly once and withdraws the announcement exactly once, and is then
    over, whether it succeeds, fails or is interrupted; and a failure in the session
    is what it reports, whatever goes wrong in cleaning up. *)
Theorem session_taken_back `{Companion W} host `{ConfigToml} `{Crates} `{HistoryCodec} `{HookJson} {T}
    selected operation (body : CompanionSession → SelfInfo → cli W T) :
  (∀ session info, follows in_session (body session info) (λ _ s, s = in_session)) →
  follows at_rest (with_session host selected operation body) (λ _ s, over s) ∧
  ∀ session error e, let r := (session_finish (T := T) host session (inl error) e).1 in r = Err error ∨ r = Panic.
Proof.
  intros Hbody. split; [|intros; apply finish_unmasked].
  apply follows_bind, follows_session_connect; [done|]. intros session info.
  apply follows_bind, follows_attempt. eapply follows_mono; [apply Hbody|].
  intros [a|error|] s ->; [| |done]; by apply follows_session_finish.
Qed.
