(* ===== verification/Send.v ===== *)
(** * Command line: sending and receiving (crates/meshquill-cli/src/runtime.rs)

    [send] and [inbox] with their cleanup, and the theorem that they keep to the
    protocol of a session. *)

From S2P Require Import Prelude Text Order Floats Domain Managed Hooks HookRuntime Store History Paths MqttConfig.
From S2P Require Import Config CliOutput CliArgs Suggest Resolve Session CliConfig Workflow.

(** [bytes_hex]. *)
Definition bytes_hex (bs : bytes) : rstring :=
  concat ((λ b, [lower_hex_digit (b / 16); lower_hex_digit (b mod 16)]) <$> bs).

Record SendReport := mkSendReport {
  SendReport_destination : rstring;
  SendReport_channel : option u8;
  SendReport_queued : bool;
  SendReport_ack_code : option rstring;
  SendReport_acknowledged : bool;
  SendReport_trip_time_ms : option u32
}.

Record InboxReport := mkInboxReport {
  InboxReport_profile : rstring;
  InboxReport_messages : list Message;
  InboxReport_drained : bool
}.

Section commands.
Context `{Companion W} (host : Host).
Context `{ConfigToml} `{Crates} `{HistoryCodec} `{HookJson} `{CliJson} `{UnicodeTables}.

Definition make_client (selected : SelectedProfile) : cli W () := λ e,
  let '(r, w) := comp_open (Selected_profile selected) (connect_timeout selected) (request_timeout selected)
                   (Env_world e) in
  (r, with_world w e).

(** [finish]: the shutdown does not mask the failure of the operation. *)
Definition finish {T} (operation : CoreError + T) : cli W T :=
  shutdown_ ← shutdown;
  match operation, shutdown_ with
  | inr _, inl error => raise (cli_of_core error)
  | inr value, inr _ => mret value
  | inl error, _ => raise (cli_of_core error)
  end.

Definition cleanup_workflow (workflow : WorkflowServices) (reason : string) : cli W () :=
  _ ← ignore (disconnected host workflow reason);
  _ ← shutdown;
  mret ().

Definition cleanup_send (workflow : WorkflowServices) (reset_scope : bool) (reason : string) : cli W () :=
  _ ← (if reset_scope then _ ← request (ActorCommand_SetFloodScope FloodScope_Default); mret () else mret ());
  cleanup_workflow workflow reason.

Definition activate_workflow (workflow : WorkflowServices) (peer : rstring) (failure_reason : string) : cli W () :=
  announced ← attempt (connected host workflow peer);
  match announced with
  | inl primary =>
      _ ← ignore (disconnected host workflow failure_reason);
      _ ← shutdown;
      raise primary
  | inr _ => mret ()
  end.

Definition finish_workflow (workflow : WorkflowServices) (reason : string) : cli W () :=
  disconnect_result ← attempt (disconnected host workflow reason);
  shutdown_result ← attempt (finish (inr ()));
  match disconnect_result, shutdown_result with
  | inl primary, _ => raise primary
  | inr _, inl error => raise error
  | inr _, inr _ => mret ()
  end.

Definition accepted_delivery_error (stage : string) (error : CliError) : CliError :=
  with_hint (CliError_new (CliError_status error)
    ("the device already accepted the message, but " +:+ stage +:+ "; do not retry automatically"))
    "The emitted send result is authoritative: queued=true means radio transmission was accepted.".

(** ** [send] *)

Section send.
Context (args : Cli) (options : SendArgs) (workflow : WorkflowServices) (prepared : PreparedSend).
Context (channel : option u8) (scope : option (FloodScope * option rstring)).

Definition scoped : bool := match scope with Some _ => true | None => false end.

(** [cleanup_send(..); return Err(error)], and the same for the interrupt. *)
Definition abandon {A} (reason : string) (error : CliError) : cli W A :=
  _ ← cleanup_send workflow scoped reason; raise error.
Definition abandon_interrupted {A} : cli W A :=
  _ ← cleanup_send workflow scoped "interrupted"; error ← interrupt_error; raise error.
(** [if interrupt.token().is_cancelled() { .. return Err(interrupt.error()) }], before and
    after there is a record of the message. *)
Definition stop_if_interrupted : cli W () :=
  cancelled ← is_cancelled;
  if cancelled : bool then abandon_interrupted else mret ().
Definition withdraw_if_interrupted (outgoing : OutgoingRecord) : cli W () :=
  cancelled ← is_cancelled;
  if cancelled : bool then _ ← ignore (failed workflow outgoing); abandon_interrupted else mret ().

(** What is reported, and the first thing that went wrong after the device accepted
    the message. *)
Definition Sent : Type := SendReport * option (string * CliError).
Definition note (stage : string) (r : CliError + ()) (post_acceptance_error : option (string * CliError)) :
    option (string * CliError) :=
  match post_acceptance_error, r with
  | None, inl error => Some (stage, error)
  | _, _ => post_acceptance_error
  end.

Definition transmit_channel (outgoing : OutgoingRecord) (message_id : rstring) (idx : u8) : cli W Sent :=
  _ ← withdraw_if_interrupted outgoing;
  result ← request (ActorCommand_SendChannelMessage idx 0 (Prepared_text prepared));
  match result with
  | inr _ =>
      r ← attempt (sent host workflow outgoing (Prepared_destination prepared) (Prepared_text prepared) message_id None);
      mret (mkSendReport (Prepared_destination prepared) (Some idx) true None false None,
            note "post-send workflow failed" r None)
  | inl error =>
      _ ← ignore (failed workflow outgoing);
      abandon "send failed" (cli_of_core error)
  end.

(** The acknowledgement of a transmitted message. *)
Definition await_ack (outgoing : OutgoingRecord) (message_id : rstring) (contact : Contact)
    (tracking : CommandTracking) (post_acceptance_error : option (string * CliError)) :
    cli W (option Ack * option (string * CliError)) :=
  if negb (Send_wait options) then mret (None, post_acceptance_error)
  else
    let timeout := Z.min (from_millis (CommandTracking_timeout_ms tracking)) (Cli_timeout args) in
    ack_result ← select_request (ActorCommand_WaitForAck (CommandTracking_ack_code tracking) (Some timeout));
    match ack_result with
    | None => _ ← cancel_pending; abandon_interrupted
    | Some (inr value) =>
        r ← attempt (acknowledged host workflow outgoing message_id (Some (Contact_adv_name contact))
                       (Ack_trip_time_ms value) (CommandTracking_ack_code tracking));
        mret (Some value, note "acknowledgement workflow failed" r post_acceptance_error)
    | Some (inl error) =>
        let cli_error := cli_of_core error in
        _ ← (if bool_decide (CliError_status cli_error = Exit_Timeout) then
               ignore (timed_out host workflow outgoing "send acknowledgement" message_id)
             else ignore (failed workflow outgoing));
        abandon "send failed" cli_error
    end.

Definition transmit_direct (outgoing : OutgoingRecord) (message_id : rstring) : cli W Sent :=
  contacts ← request (ActorCommand_ListContacts None);
  match contacts with
  | inl error =>
      _ ← ignore (failed workflow outgoing);
      abandon "contact list failed" (cli_of_core error)
  | inr contacts =>
      match resolve_contact contacts (Prepared_destination prepared) with
      | Ok contact =>
          _ ← withdraw_if_interrupted outgoing;
          let prefix := take 6 (PublicKey_0 (Contact_public_key contact)) in
          tracking ← request (ActorCommand_SendDirectText prefix 0 (Prepared_text prepared));
          match tracking with
          | inl error =>
              _ ← ignore (failed workflow outgoing);
              abandon "send failed" (cli_of_core error)
          | inr tracking =>
              let ack_code := CommandTracking_ack_code tracking in
              r ← attempt (sent host workflow outgoing (Contact_adv_name contact) (Prepared_text prepared)
                             message_id (Some ack_code));
              '(ack, post_acceptance_error) ← await_ack outgoing message_id contact tracking
                                                (note "post-send workflow failed" r None);
              mret (mkSendReport (Contact_adv_name contact) None true (Some (bytes_hex ack_code))
                      (bool_decide (is_Some ack)) (ack ≫= Ack_trip_time_ms),
                    post_acceptance_error)
          end
      | Err error =>
          _ ← ignore (failed workflow outgoing);
          abandon "contact resolution failed" error
      | Panic => lift Panic
      end
  end.

(** After the acceptance: nothing that fails hides the report. *)
Definition conclude (s : Sent) : cli W () :=
  let '(report, post_acceptance_error) := s in
  cancelled ← is_cancelled;
  interrupted ← interrupt_error;
  let post_acceptance_error :=
    if cancelled : bool then note "post-send cleanup was interrupted" (inl interrupted) post_acceptance_error
    else post_acceptance_error in
  restored ← (if scoped then
                r ← request (ActorCommand_SetFloodScope FloodScope_Default);
                mret (match r with inl error => inl (cli_of_core error) | inr _ => inr () end)
              else mret (inr ()));
  let post_acceptance_error := note "flood-scope cleanup failed" restored post_acceptance_error in
  finished ← attempt (finish_workflow workflow "command completed");
  let post_acceptance_error := note "disconnect cleanup failed" finished post_acceptance_error in
  let human := if SendReport_acknowledged report then
                 str_bytes "Sent to " ++ SendReport_destination report ++ str_bytes " and received acknowledgement"
               else str_bytes "Queued message to " ++ SendReport_destination report in
  _ ← emit_result (Cli_output args) "send" report human;
  match post_acceptance_error with
  | Some (stage, error) => raise (accepted_delivery_error stage error)
  | None => mret ()
  end.

(** [send] once the connection is announced. *)
Definition send_connected : cli W () :=
  cancelled ← is_cancelled;
  if cancelled : bool then
    _ ← cleanup_workflow workflow "interrupted"; error ← interrupt_error; raise error
  else
  selected_scope ← match scope with
                   | Some (scope, _) => request (ActorCommand_SetFloodScope scope)
                   | None => mret (inr ())
                   end;
  match selected_scope with
  | inl error => abandon "scope selection failed" (cli_of_core error)
  | inr _ =>
      _ ← stop_if_interrupted;
      begun ← attempt (begin_outgoing workflow (Prepared_destination prepared) channel (Prepared_text prepared));
      match begun with
      | inl error => abandon "history setup failed" error
      | inr outgoing =>
          let message_id := uuid_string (Outgoing_message_id outgoing) in
          _ ← withdraw_if_interrupted outgoing;
          s ← match channel with
              | Some idx => transmit_channel outgoing message_id idx
              | None => transmit_direct outgoing message_id
              end;
          conclude s
      end
  end.
End send.

Definition parse_channel (options : SendArgs) (prepared : PreparedSend) : outcome CliError (option u8) :=
  if Send_channel options then
    idx ← ok_or (parse_unsigned 8 (Prepared_destination prepared))
            (with_hint (CliError_new Exit_Usage "channel destination must be a numeric channel index")
               "Named channel resolution is not available in the current core API.");
    Ok (Some idx)
  else Ok None.

Definition parse_scope (scope : option rstring) : outcome CliError (option (FloodScope * option rstring)) :=
  match scope with
  | Some scope => parsed ← parse_flood_scope scope; Ok (Some parsed)
  | None => Ok None
  end.

Definition send (args : Cli) (options : SendArgs) : cli W () :=
  if Send_channel options && Send_wait options then
    raise (CliError_new Exit_Usage "--wait is available only for direct messages")
  else
  selected ← select_profile host args;
  workflow ← from_selected host selected;
  prepared ← prepare_send host (Send_destination options) (Send_message options);
  channel ← lift (parse_channel options prepared);
  scope ← lift (parse_scope (Send_scope options));
  _ ← make_client selected;
  connect_result ← select_request ActorCommand_Connect;
  match connect_result with
  | None => _ ← cancel_pending; _ ← shutdown; error ← interrupt_error; raise error
  | Some (inl error) => finish (inl error)
  | Some (inr info) =>
      _ ← activate_workflow workflow (SelfInfo_name info) "send connection hook failed";
      send_connected args options workflow prepared channel scope
  end.

(** ** [inbox] *)

(** One turn of the loop; [None] goes on. *)
Inductive Turn := Turn_Message (message : Message) | Turn_Duplicate | Turn_Drained.

Definition inbox_turn (workflow : WorkflowServices) : cli W Turn :=
  next ← request ActorCommand_SyncNextMessage;
  match next with
  | inr (Some message) =>
      r ← attempt (incoming host workflow message Queue);
      match r with
      | inr (Some _) => mret (Turn_Message message)
      | inr None => mret Turn_Duplicate
      | inl error => _ ← cleanup_workflow workflow "incoming workflow failed"; raise error
      end
  | inr None => mret Turn_Drained
  | inl error =>
      let cli_error := cli_of_core error in
      _ ← ignore (workflow_error host "inbox" (CliError_message cli_error));
      _ ← cleanup_workflow workflow "inbox failed";
      raise cli_error
  end.

(** The loop, with a bound on its turns; [None] when it is exhausted. *)
Fixpoint inbox_loop (fuel : nat) (workflow : WorkflowServices) (limit : option usize) (messages : list Message) :
    cli W (option (list Message * bool)) :=
  match fuel with
  | O => mret None
  | S fuel =>
      if from_option (λ limit, length messages <? limit) true limit then
        turn ← inbox_turn workflow;
        match turn with
        | Turn_Message message => inbox_loop fuel workflow limit (messages ++ [message])
        | Turn_Duplicate => inbox_loop fuel workflow limit messages
        | Turn_Drained => mret (Some (messages, true))
        end
      else mret (Some (messages, false))
  end.

Definition inbox_human (messages : list Message) : rstring :=
  if bool_decide (length messages = 0) then str_bytes "Inbox is empty."
  else join_lines ((λ message, message_source message ++ [0x09%Z] ++ Message_text message) <$> messages).

Definition inbox (fuel : nat) (args : Cli) (options : InboxArgs) : cli W () :=
  selected ← select_profile host args;
  workflow ← from_selected host selected;
  _ ← make_client selected;
  connected_ ← request ActorCommand_Connect;
  match connected_ with
  | inl error => finish (inl error)
  | inr info =>
      _ ← activate_workflow workflow (SelfInfo_name info) "inbox connection hook failed";
      drained ← inbox_loop fuel workflow (Inbox_limit options) [];
      match drained with
      | None => lift Panic
      | Some (messages, drained) =>
          _ ← finish_workflow workflow "command completed";
          emit_result (Cli_output args) "inbox" (mkInboxReport (Selected_name selected) messages drained)
            (inbox_human messages)
      end
  end.
End commands.

(** ** What they keep to *)

Section protocol.
Context `{Companion W} (host : Host).
Context `{ConfigToml} `{Crates} `{HistoryCodec} `{HookJson} `{CliJson} `{UnicodeTables}.

Lemma follows_ask `{Automaton St} {A B} (s : St) (f : W → A * W) (k : A → cli W B)
    (Q : outcome CliError B → St → Prop) :
  (∀ a, follows s (k a) Q) → follows s (ask f ≫= k) Q.
Proof.
  intros Hk. apply follows_bind. intros e. unfold ask. destruct (f _) as [a w].
  exists [], s. rewrite app_nil_r. auto.
Qed.
Lemma follows_interrupt_error `{Automaton St} {A} (s : St) (k : CliError → cli W A)
    (Q : outcome CliError A → St → Prop) :
  (∀ error, follows s (k error) Q) → follows s (interrupt_error ≫= k) Q.
Proof. intros Hk. apply follows_bind, follows_ask. intros b. by apply follows_ret. Qed.

Lemma silent_config_store args : silent (config_store host args : cli W _).
Proof. unfold config_store, of_store. destruct (Cli_config args); auto with mq_silent. Qed.

Lemma silent_select_profile args : silent (select_profile host args : cli W _).
Proof.
  apply silent_bind; [apply silent_config_store|intros store].
  apply silent_bind; [apply silent_run_fs|intros loaded].
  apply silent_bind; [destruct loaded; auto with mq_silent|intros [config m]].
  apply silent_bind; [auto with mq_silent|intros [name profile]].
  apply silent_bind; auto with mq_silent.
Qed.

Lemma silent_make_client selected : silent (make_client selected : cli W ()).
Proof. intros e. unfold make_client. by destruct (comp_open _ _ _ _). Qed.

Lemma follows_finish {T} s (operation : CoreError + T) (Q : outcome CliError T → Stage → Prop) :
  Stage_closed s = false → Stage_scoped s = false →
  (∀ r, r ≠ Panic → (is_ok operation = false → is_Ok r = false) →
     Q r (mkStage false true (Stage_announced s) false false (Stage_sent s))) →
  follows s (finish operation) Q.
Proof.
  intros Hc Hs HQ. apply follows_bind, follows_shutdown; [done..|]. intros r.
  destruct operation as [error|value]; [by apply follows_raise, HQ|].
  destruct r; [by apply follows_raise, HQ|by apply follows_ret, HQ].
Qed.

(** What is left of a stage when the session is withdrawn and shut down. *)
Definition done_with (s : Stage) : Stage := mkStage false true false false false (Stage_sent s).

Lemma follows_cleanup_workflow s workflow reason (Q : outcome CliError () → Stage → Prop) :
  Stage_closed s = false → Stage_scoped s = false → Stage_announced s = true →
  Q (Ok ()) (done_with s) → follows s (cleanup_workflow host workflow reason) Q.
Proof.
  intros Hc Hs Ha HQ. apply follows_bind, follows_ignore, follows_disconnected; [done|]. intros _.
  apply follows_bind, follows_shutdown; [done..|]. intros r. by apply follows_ret.
Qed.

(** The stages of a session in which a message may be sent. *)
Definition sending (scoped : bool) (n : Sending) : Stage := mkStage true false true scoped false n.

Lemma follows_cleanup_send b reset n workflow reason (Q : outcome CliError () → Stage → Prop) :
  (b = true → reset = true) → Q (Ok ()) (mkStage false true false false false n) →
  follows (sending b n) (cleanup_send host workflow reset reason) Q.
Proof.
  intros Hb HQ. unfold cleanup_send. apply follows_bind. destruct reset; cycle 1.
  { destruct b; [by specialize (Hb eq_refl)|]. by apply follows_ret, follows_cleanup_workflow. }
  apply follows_bind. eapply follows_request; [done..| |]; intros r; by apply follows_ret, follows_cleanup_workflow.
Qed.

Lemma follows_activate n workflow peer reason (Q : outcome CliError () → Stage → Prop) :
  Q (Ok ()) (sending false n) → (∀ error, Q (Err error) (mkStage false true false false false n)) →
  follows (mkStage true false false false false n) (activate_workflow host workflow peer reason) Q.
Proof.
  intros Hok Herr. apply follows_bind, follows_attempt, follows_connected; [done..|]. intros [[]|error|]; [by apply follows_ret| |done].
  apply follows_bind, follows_ignore, follows_disconnected; [done|]. intros _.
  apply follows_bind, follows_shutdown; [done..|]. intros r. by apply follows_raise.
Qed.

Lemma follows_finish_workflow n workflow reason (Q : outcome CliError () → Stage → Prop) :
  (∀ r, Q r (mkStage false true false false false n)) →
  follows (mkStage true false true false false n) (finish_workflow host workflow reason) Q.
Proof.
  intros HQ. apply follows_bind, follows_attempt, follows_disconnected; [done|]. intros r.
  assert (∀ x : CliError + (), follows (mkStage true false false false false n)
    (shutdown_result ← attempt (finish (inr ()));
     match x, shutdown_result with
     | inl primary, _ => raise primary
     | inr _, inl error => raise error
     | inr _, inr _ => mret ()
     end) Q) as Hx.
  { intros x. apply follows_bind, follows_attempt, follows_finish; [done..|]. intros [[]|error|] _ _;
      destruct x; auto using follows_raise, follows_ret. }
  by destruct r as [[]|error|]; [apply (Hx (inr ()))|apply (Hx (inl error))|].
Qed.

Section send.
Context (args : Cli) (options : SendArgs) (workflow : WorkflowServices) (prepared : PreparedSend).
Context (channel : option u8) (scope : option (FloodScope * option rstring)).

(** Either the command failed and the session is over, or it goes on as [K] says. *)
Definition or_over {A} (K : A → Stage → Prop) (r : outcome CliError A) (s : Stage) : Prop :=
  match r with
  | Ok a => K a s
  | Err _ => over s ∧ Stage_closed s = true
  | Panic => True
  end.

Lemma closed_over n : over (mkStage false true false false false n) ∧ Stage_closed (mkStage false true false false false n) = true.
Proof. repeat split; auto. Qed.

(** Whether a scope is in effect once it is selected. *)
Definition in_effect : bool := match scope with Some (scope, _) => scope_in_effect scope | None => false end.
Lemma in_effect_scoped : in_effect = true → scoped scope = true.
Proof. unfold in_effect, scoped. by destruct scope. Qed.
#[local] Hint Resolve in_effect_scoped closed_over : core.
Notation stage := (sending in_effect).

Lemma follows_give_up {A} n reason error (K : A → Stage → Prop) :
  follows (stage n) (abandon host workflow scope reason error : cli W A) (or_over K).
Proof. apply follows_bind, follows_cleanup_send; [apply in_effect_scoped|]. apply follows_raise, closed_over. Qed.

Lemma follows_give_up_interrupted {A} n (K : A → Stage → Prop) :
  follows (stage n) (abandon_interrupted host workflow scope : cli W A) (or_over K).
Proof.
  apply follows_bind, follows_cleanup_send; [apply in_effect_scoped|]. apply follows_interrupt_error. intros error.
  apply follows_raise, closed_over.
Qed.

Lemma follows_failed {A} s outgoing (k : () → cli W A) (Q : outcome CliError A → Stage → Prop) :
  follows s (k ()) Q → follows s (ignore (failed workflow outgoing) ≫= k) Q.
Proof. intros Hk. by apply follows_bind, follows_ignore, follows_amend. Qed.

Lemma follows_withdraw_if_interrupted {A} n outgoing (k : () → cli W A) (K : A → Stage → Prop) :
  follows (stage n) (k ()) (or_over K) →
  follows (stage n) (withdraw_if_interrupted host workflow scope outgoing ≫= k) (or_over K).
Proof.
  intros Hk. apply follows_bind, follows_ask. intros [|]; [|by apply follows_ret].
  apply follows_failed. eapply follows_mono; [apply (follows_give_up_interrupted n (λ _ _, False))|].
  intros [[]|error|] s Hs; [done|done|done].
Qed.

(** The message was transmitted, and the session goes on. *)
Definition after_send {A} (_ : A) (s : Stage) : Prop := s = stage Accepted.

Lemma follows_sent s outgoing destination text id ack (Q : outcome CliError () → Stage → Prop) :
  s = stage Accepted → (∀ r, Q r s) → follows s (sent host workflow outgoing destination text id ack) Q.
Proof. intros -> HQ. by apply follows_amend_notify. Qed.

Lemma follows_transmit_channel outgoing id idx :
  follows (stage Asked) (transmit_channel host workflow prepared scope outgoing id idx) (or_over after_send).
Proof.
  apply follows_withdraw_if_interrupted, follows_bind. eapply follows_request; [done..| |].
  - intros error. apply follows_failed, follows_give_up.
  - intros []. apply follows_bind, follows_attempt, follows_sent; [done|].
    intros [[]|error|]; [by apply follows_ret..|done].
Qed.

Lemma follows_await_ack outgoing id contact tracking post :
  follows (stage Accepted) (await_ack host args options workflow scope outgoing id contact tracking post) (or_over after_send).
Proof.
  unfold await_ack. destruct (Send_wait options); [|by apply follows_ret]. simpl.
  apply follows_bind. eapply follows_select; [done..| | |].
  - apply follows_ask. intros []. apply follows_give_up_interrupted.
  - intros error. apply follows_bind. case_bool_decide.
    + apply follows_ignore, follows_amend_notify; [done|]. intros _. apply follows_give_up.
    + apply follows_ignore, follows_amend. intros _. apply follows_give_up.
  - intros ack. apply follows_bind, follows_attempt, follows_amend_notify; [done|].
    intros [[]|error|]; [by apply follows_ret..|done].
Qed.

Lemma follows_transmit_direct outgoing id :
  follows (stage Asked) (transmit_direct host args options workflow prepared scope outgoing id) (or_over after_send).
Proof.
  apply follows_bind. eapply follows_request; [done..| |].
  { intros error. apply follows_failed, follows_give_up. }
  intros contacts. destruct (resolve_contact contacts _) as [contact|error|];
    [|apply follows_failed, follows_give_up|by apply follows_lift].
  apply follows_withdraw_if_interrupted, follows_bind. eapply follows_request; [done..| |].
  { intros error. apply follows_failed, follows_give_up. }
  intros tracking. apply follows_bind, follows_attempt, follows_sent; [done|].
  assert (∀ x, follows (stage Accepted)
    ('(ack, post) ← await_ack host args options workflow scope outgoing id contact tracking x;
     mret (mkSendReport (Contact_adv_name contact) None true (Some (bytes_hex (CommandTracking_ack_code tracking)))
             (bool_decide (is_Some ack)) (ack ≫= Ack_trip_time_ms), post)) (or_over after_send)) as Hx.
  { intros x. apply follows_bind. eapply follows_mono; [apply follows_await_ack|].
    intros [[ack post]|error|] s Hs; [|done|done]. by apply follows_ret. }
  intros [[]|error|]; [apply Hx..|done].
Qed.

(** The result is printed once the session is over. *)
Definition reported (r : outcome CliError ()) (s : Stage) : Prop := over s ∧ Stage_closed s = true ∧ Stage_sent s = Accepted.

Lemma follows_conclude report : follows (stage Accepted) (conclude host args workflow scope report) reported.
Proof.
  destruct report as [report post]. unfold conclude. apply follows_ask. intros cancelled.
  apply follows_interrupt_error. intros interrupted. cbv zeta.
  set (post1 := if cancelled then _ else _). generalize post1. clear post1. intros post1.
  assert (∀ restored, follows (mkStage true false true false false Accepted)
    (finished ← attempt (finish_workflow host workflow "command completed");
     let post := note "disconnect cleanup failed" finished (note "flood-scope cleanup failed" restored post1) in
     let human := if SendReport_acknowledged report then
                 str_bytes "Sent to " ++ SendReport_destination report ++ str_bytes " and received acknowledgement"
               else str_bytes "Queued message to " ++ SendReport_destination report in
     _ ← emit_result (Cli_output args) "send" report human;
     match post with
     | Some (stage, error) => raise (accepted_delivery_error stage error)
     | None => mret ()
     end) reported) as Hend.
  { intros restored. apply follows_bind, follows_attempt, follows_finish_workflow.
    assert (reported (Ok ()) (mkStage false true false false false Accepted)) as Hr by (repeat split; auto).
    intros [[]|error|]; [| |done]; (eapply follows_emit; [done|done|]);
      (destruct (note _ _ _) as [[stage error']|]; [by apply follows_raise|by apply follows_ret]). }
  apply follows_bind. unfold in_effect, scoped. destruct scope as [[sc name]|]; [|apply follows_ret, Hend].
  apply follows_bind. eapply follows_request; [done..| |]; intros r; apply follows_ret, Hend.
Qed.

(** Over in any case, and a success has transmitted. *)
Definition sent_or_failed (r : outcome CliError ()) (s : Stage) : Prop :=
  over s ∧ (is_Ok r = true → Stage_closed s = true ∧ Stage_sent s = Accepted).

Lemma failed_sent error s : over s → sent_or_failed (Err error) s.
Proof. by split. Qed.

Lemma follows_send_connected :
  follows (sending false Asked) (send_connected host args options workflow prepared channel scope) sent_or_failed.
Proof.
  assert (∀ A (m : cli W A) (K : A → Stage → Prop) (k : A → cli W ()) s, follows s m (or_over K) →
    (∀ a s', K a s' → follows s' (k a) sent_or_failed) → follows s (m ≫= k) sent_or_failed) as Hseq.
  { intros A m K k s Hm Hk. apply follows_bind. eapply follows_mono; [done|].
    intros [a|error|] s' Hs; [by apply Hk|by apply failed_sent, Hs|done]. }
  assert (∀ reason error n, follows (stage n) (abandon host workflow scope reason error) sent_or_failed) as Hgive.
  { intros reason error n. eapply follows_weaken; [apply (follows_give_up n reason error (λ _ _, False))|].
    intros [[]|error'|] s Hr Hs; [done|by apply failed_sent, Hs|done]. }
  unfold send_connected. apply follows_ask. intros [|].
  { apply follows_bind, follows_cleanup_workflow; [done..|]. apply follows_interrupt_error. intros error.
    apply follows_raise. repeat split; auto; done. }
  apply follows_bind.
  assert (follows (stage Asked)
    (_ ← stop_if_interrupted host workflow scope;
     begun ← attempt (begin_outgoing workflow (Prepared_destination prepared) channel (Prepared_text prepared));
     match begun with
      | inl error => abandon host workflow scope "history setup failed" error
      | inr outgoing =>
          let message_id := uuid_string (Outgoing_message_id outgoing) in
          _ ← withdraw_if_interrupted host workflow scope outgoing;
          s ← match channel with
              | Some idx => transmit_channel host workflow prepared scope outgoing message_id idx
              | None => transmit_direct host args options workflow prepared scope outgoing message_id
              end;
          conclude host args workflow scope s
      end) sent_or_failed) as Hrest.
  { apply (Hseq _ _ (λ _ s, s = stage Asked)).
    { apply follows_ask. intros [|]; [apply follows_give_up_interrupted|by apply follows_ret]. }
    intros [] ? ->. apply follows_bind, follows_attempt, follows_begin_outgoing.
    intros [outgoing|error|]; [|apply Hgive|done]. cbv zeta. apply (Hseq _ _ (λ _ s, s = stage Asked)).
    { unfold withdraw_if_interrupted. apply follows_ask. intros [|]; [|by apply follows_ret].
      apply follows_failed, follows_give_up_interrupted. }
    intros [] ? ->. apply (Hseq _ _ after_send).
    { destruct channel; [apply follows_transmit_channel|apply follows_transmit_direct]. }
    intros report ? ->. eapply follows_mono; [apply follows_conclude|]. intros r s (? & ? & ?). by split. }
  unfold in_effect in *. destruct scope as [[sc name]|]; [|by apply follows_ret].
  eapply follows_request; [done..| |]; [intros error; apply Hgive|intros []; apply Hrest].
Qed.
End send.

Lemma over_at_rest : over at_rest.
Proof. repeat split; auto. Qed.
Lemma over_closed n : over (mkStage false true false false false n).
Proof. repeat split; auto. Qed.

Lemma follows_send args options : follows at_rest (send host args options) sent_or_failed.
Proof.
  assert (∀ error, sent_or_failed (Err error) at_rest) as Hrest by (intros; apply failed_sent, over_at_rest).
  assert (∀ error, sent_or_failed (Err error) (mkStage false false false false false Asked)) as Hasked
    by (intros; by apply failed_sent).
  assert (∀ error, sent_or_failed (Err error) (mkStage false true false false false Asked)) as Hclosed
    by (intros; apply failed_sent, over_closed).
  unfold send. case_match; [by apply follows_raise|].
  apply follows_bind, follows_silent; [apply silent_select_profile|]. intros [selected|error|] _; [|done|done].
  apply follows_bind, follows_silent; [apply silent_from_selected|]. intros [workflow|error|] _; [|done|done].
  apply follows_bind. eapply follows_prepare_send; [done|]. intros [prepared|error|]; [|done|done].
  apply follows_bind, follows_lift. intros _. destruct (parse_channel options prepared) as [channel|error|]; [|done|done].
  apply follows_bind, follows_lift. intros _. destruct (parse_scope _) as [scope|error|]; [|done|done].
  apply follows_bind, follows_silent; [apply silent_make_client|]. intros [[]|error|] _; [|done|done].
  apply follows_bind. eapply follows_select; [done..| | |].
  - apply follows_ask. intros []. apply follows_bind, follows_shutdown; [done..|]. intros r.
    apply follows_interrupt_error. intros error. by apply follows_raise.
  - intros error. apply follows_finish; [done..|]. intros [[]|error'|] Hn Hr; [by specialize (Hr eq_refl)|done|done].
  - intros info. apply follows_bind, follows_activate; [apply follows_send_connected|done].
Qed.

(** ** The inbox *)

Lemma follows_inbox_turn workflow (K : Turn → Stage → Prop) : (∀ t, K t in_session) →
  follows in_session (inbox_turn host workflow) (or_over K).
Proof.
  intros HK. assert (∀ reason error, follows in_session
    (_ ← cleanup_workflow host workflow reason; raise (A := Turn) error) (or_over K)) as Hgive.
  { intros reason error. apply follows_bind, follows_cleanup_workflow; [done..|]. apply follows_raise, closed_over. }
  apply follows_bind. eapply follows_request; [done..| |].
  - intros error. apply follows_bind, follows_ignore. eapply follows_notify; [done|]. intros _. apply Hgive.
  - intros [message|]; [|apply follows_ret, HK]. apply follows_bind, follows_attempt, follows_incoming; [done|].
    intros [[id|]|error|]; [apply follows_ret, HK..|apply Hgive|done].
Qed.

Lemma follows_inbox_loop fuel workflow limit : ∀ messages,
  follows in_session (inbox_loop host fuel workflow limit messages) (or_over (λ _ s, s = in_session)).
Proof.
  induction fuel as [|fuel IH]; intros messages; simpl; [by apply follows_ret|].
  case_match; [|by apply follows_ret]. apply follows_bind.
  eapply follows_mono; [by apply (follows_inbox_turn workflow (λ _ s, s = in_session))|].
  intros [[message| |]|error|] s Hs; [simpl in Hs; subst s..|done|done]; [apply IH|apply IH|by apply follows_ret].
Qed.

Lemma follows_inbox fuel args options : follows at_rest (inbox host fuel args options) (λ _ s, over s).
Proof.
  unfold inbox. pose proof over_at_rest. pose proof (over_closed Unasked).
  apply follows_bind, follows_silent; [apply silent_select_profile|]. intros [selected|error|] _; [|done|done].
  apply follows_bind, follows_silent; [apply silent_from_selected|]. intros [workflow|error|] _; [|done|done].
  apply follows_bind, follows_silent; [apply silent_make_client|]. intros [[]|error|] _; [|done|done].
  apply follows_bind. eapply follows_request; [done..| |].
  { intros error. by apply follows_finish. }
  intros info. apply follows_bind, follows_activate; [|done].
  apply follows_bind. eapply follows_mono; [apply follows_inbox_loop|].
  intros [[[messages drained]|]|error|] s Hs; [simpl in Hs; subst s..|by destruct Hs|done]; [|by apply follows_lift].
  apply follows_bind, follows_finish_workflow. intros [[]|error|]; [|done|done].
  by eapply follows_emit_last.
Qed.
End protocol.

(** C5: [send] and [inbox] keep to the protocol of a session on every path: hooks,
    history, interrupts, and failures of the device included.  [send] transmits only
    what it asked the hook about before it connected, at most once, only while connected, resets the
    flood scope it selected before it shuts down, shuts down once, withdraws what it
    announced, and prints its result only when all that is over; it succeeds only if
    the device accepted the message.  A connection that failed is shut down as well. *)
Theorem send_and_inbox_keep_protocol `{Companion W} host `{ConfigToml} `{Crates} `{HistoryCodec} `{HookJson}
    `{CliJson} `{UnicodeTables} args :
  (∀ options, follows at_rest (send host args options)
     (λ r s, over s ∧ (is_Ok r = true → Stage_closed s = true ∧ Stage_sent s = Accepted))) ∧
  (∀ fuel options, follows at_rest (inbox host fuel args options) (λ _ s, over s)).
Proof. split; intros; [apply follows_send|apply follows_inbox]. Qed.
