(* ===== verification/Commands.v ===== *)
(** * Command line: device, network, contact, channel and history commands (crates/meshquill-cli/src/runtime.rs)

    The commands that do their work in one session, with their reports, and the
    dispatch of a parsed command. *)

From S2P Require Import Prelude Text Order Floats Domain Managed Hooks HookRuntime Store History Paths MqttConfig.
From S2P Require Import Config CliOutput CliArgs Suggest Resolve Session CliConfig Workflow Send.

(** ** Reports *)

Record StatusReport := mkStatusReport {
  StatusReport_profile : rstring;
  StatusReport_config_path : string;
  StatusReport_transport : string;
  StatusReport_needs_migration : bool
}.
Record ConnectionReport := mkConnectionReport {
  ConnectionReport_profile : rstring;
  ConnectionReport_transport : string;
  ConnectionReport_connected : bool;
  ConnectionReport_self_info : SelfInfo
}.
Record DeviceReport := mkDeviceReport {
  DeviceReport_profile : rstring;
  DeviceReport_self_info : SelfInfo;
  DeviceReport_device_info : DeviceInfo
}.
Record DeviceTelemetryReport := mkDeviceTelemetryReport {
  DeviceTelemetry_profile : rstring;
  DeviceTelemetry_battery_level : u16;
  DeviceTelemetry_storage_used_kb : option u32;
  DeviceTelemetry_storage_total_kb : option u32;
  DeviceTelemetry_pubkey_prefix : rstring;
  DeviceTelemetry_payload : rstring
}.
Record DeviceClockReport := mkDeviceClockReport {
  DeviceClockReport_profile : rstring;
  DeviceClockReport_previous_time : u32;
  DeviceClockReport_synced : bool;
  DeviceClockReport_current_time : u32
}.
Record DeviceAdvertiseReport := mkDeviceAdvertiseReport { AdvertiseReport_profile : rstring; AdvertiseReport_flood : bool }.
Record DeviceRebootReport := mkDeviceRebootReport { RebootReport_profile : rstring; RebootReport_disconnected : bool }.
Record NetworkScopeReport := mkNetworkScopeReport {
  ScopeReport_profile : rstring;
  ScopeReport_action : string;
  ScopeReport_scope : option rstring
}.
Record NetworkTraceReport := mkNetworkTraceReport {
  TraceReport_profile : rstring;
  TraceReport_target : rstring;
  TraceReport_public_key : rstring;
  TraceReport_discovery : PathDiscovery
}.
Record NetworkDiscoveryNode := mkDiscoveryNode {
  DiscoveryNode_public_key_prefix : rstring;
  DiscoveryNode_key_bytes : usize;
  DiscoveryNode_node_type : u8;
  DiscoveryNode_kind : string;
  DiscoveryNode_snr_qdb : i8;
  DiscoveryNode_inbound_snr_qdb : i8;
  DiscoveryNode_rssi_dbm : i8;
  DiscoveryNode_path_len : u8
}.
Record NetworkDiscoveryReport := mkNetworkDiscoveryReport {
  DiscoveryReport_profile : rstring;
  DiscoveryReport_filter : string;
  DiscoveryReport_scope : option rstring;
  DiscoveryReport_timeout_ms : u64;
  DiscoveryReport_nodes : list NetworkDiscoveryNode
}.
Record ContactReport := mkContactReport { ContactReport_profile : rstring; ContactReport_contact : ContactView }.
Record ContactsReport := mkContactsReport {
  ContactsReport_profile : rstring;
  ContactsReport_refreshed : bool;
  ContactsReport_refresh_requested : bool;
  ContactsReport_contacts : list ContactView
}.
Record ContactUpdateReport := mkContactUpdateReport {
  ContactUpdateReport_profile : rstring;
  ContactUpdateReport_public_key : rstring;
  ContactUpdateReport_name : rstring;
  ContactUpdateReport_favorite : bool
}.
Record ContactExportReport := mkContactExportReport {
  ContactExportReport_profile : rstring;
  ContactExportReport_contact : rstring;
  ContactExportReport_public_key : rstring;
  ContactExportReport_uri : rstring
}.
Record ContactImportReport := mkContactImportReport {
  ContactImportReport_profile : rstring;
  ContactImportReport_card_bytes : usize
}.
Record ContactForgetReport := mkContactForgetReport {
  ContactForgetReport_profile : rstring;
  ContactForgetReport_contact : rstring;
  ContactForgetReport_public_key : rstring
}.
Record ContactPathReport := mkContactPathReport {
  ContactPathReport_profile : rstring;
  ContactPathReport_contact : rstring;
  ContactPathReport_public_key : rstring;
  ContactPathReport_route : string;
  ContactPathReport_received_at : u32;
  ContactPathReport_path : rstring
}.
Record ContactPathDiscoveryReport := mkContactPathDiscoveryReport {
  ContactPathDiscovery_profile : rstring;
  ContactPathDiscovery_contact : rstring;
  ContactPathDiscovery_public_key : rstring;
  ContactPathDiscovery_discovery : PathDiscovery
}.
Record ContactPathResetReport := mkContactPathResetReport {
  ContactPathReset_profile : rstring;
  ContactPathReset_contact : rstring;
  ContactPathReset_public_key : rstring;
  ContactPathReset_reset : bool
}.
Record ContactPathSetReport := mkContactPathSetReport {
  ContactPathSet_profile : rstring;
  ContactPathSet_contact : rstring;
  ContactPathSet_public_key : rstring;
  ContactPathSet_hash_bytes : u8;
  ContactPathSet_hop_count : u8;
  ContactPathSet_path : rstring;
  ContactPathSet_updated : bool
}.
Record ChannelsReport := mkChannelsReport {
  ChannelsReport_profile : rstring;
  ChannelsReport_channels : list ChannelInfoView
}.
Record ChannelReport := mkChannelReport {
  ChannelReport_profile : rstring;
  ChannelReport_idx : u8;
  ChannelReport_name : rstring;
  ChannelReport_secret_hash : option u8
}.
Record ChannelSetReport := mkChannelSetReport {
  ChannelSetReport_profile : rstring;
  ChannelSetReport_idx : u8;
  ChannelSetReport_name : rstring;
  ChannelSetReport_secret_set : bool
}.
Record ChannelRemoveReport := mkChannelRemoveReport {
  ChannelRemoveReport_profile : rstring;
  ChannelRemoveReport_idx : u8;
  ChannelRemoveReport_previous_name : rstring;
  ChannelRemoveReport_removed : bool
}.
Record HistoryReport := mkHistoryReport {
  HistoryReport_profile : rstring;
  HistoryReport_enabled : bool;
  HistoryReport_storage : string;
  HistoryReport_path : string;
  HistoryReport_entries : list HistoryEntry
}.
Record HistoryClearReport := mkHistoryClearReport {
  HistoryClearReport_profile : rstring;
  HistoryClearReport_path : string;
  HistoryClearReport_cleared : bool
}.

(** ** Node discovery *)

Definition discovery_filter (kind : option ContactKind) : u8 :=
  match kind with
  | None => 255
  | Some Kind_Client => Z.shiftl 1 1
  | Some Kind_Repeater => Z.shiftl 1 2
  | Some Kind_Room => Z.shiftl 1 3
  | Some Kind_Sensor => Z.shiftl 1 4
  end.
Definition discovery_filter_name (kind : option ContactKind) : string :=
  match kind with
  | None => "all"
  | Some Kind_Client => "client"
  | Some Kind_Repeater => "repeater"
  | Some Kind_Room => "room"
  | Some Kind_Sensor => "sensor"
  end.
Definition discovery_node_type_name (node_type : u8) : string :=
  match node_type with
  | 0 => "client" | 1 => "repeater" | 2 => "room" | 3 => "sensor" | _ => "unknown"
  end%Z.

(** [{:.2}] of a number of quarters. *)
Definition format_qdb (value : i8) : string :=
  (if value <? 0 then "-" else "")%Z +:+ pretty (Z.abs value / 4)%Z +:+ "."
    +:+ match (Z.abs value mod 4)%Z with 0 => "00" | 1 => "25" | 2 => "50" | _ => "75" end%Z.

Definition network_discovery_human (report : NetworkDiscoveryReport) : rstring :=
  if bool_decide (length (DiscoveryReport_nodes report) = 0) then
    str_bytes ("No " +:+ DiscoveryReport_filter report +:+ " nodes responded within "
                 +:+ pretty (DiscoveryReport_timeout_ms report) +:+ " ms.")
  else
    str_bytes ("Discovered " +:+ pretty (length (DiscoveryReport_nodes report)) +:+ " "
                 +:+ DiscoveryReport_filter report +:+ " node(s).") ++ [0x0a%Z]
      ++ join_lines ((λ node, DiscoveryNode_public_key_prefix node ++ [0x09%Z]
           ++ str_bytes ("type=" +:+ pretty (DiscoveryNode_node_type node) +:+ " (" +:+ DiscoveryNode_kind node +:+ ")")
           ++ [0x09%Z] ++ str_bytes ("snr=" +:+ format_qdb (DiscoveryNode_snr_qdb node) +:+ " dB")
           ++ [0x09%Z] ++ str_bytes ("inbound_snr=" +:+ format_qdb (DiscoveryNode_inbound_snr_qdb node) +:+ " dB")
           ++ [0x09%Z] ++ str_bytes ("rssi=" +:+ pretty (DiscoveryNode_rssi_dbm node) +:+ " dBm")
           ++ [0x09%Z] ++ str_bytes ("path_len=" +:+ pretty (DiscoveryNode_path_len node)))
         <$> DiscoveryReport_nodes report).

(** ** The secret of a channel *)

(** What the operating system answers about the file. *)
Record SecretFile := mkSecretFile {
  Secret_open : outcome string ();
  Secret_metadata : outcome string (bool * Z);
  Secret_contents : outcome string bytes
}.

Definition read_channel_secret (path : bytes) (file : SecretFile) : outcome CliError bytes :=
  let usage message := CliError_new Exit_Usage message in
  let unable verb error := usage ("unable to " +:+ verb +:+ " channel secret file '" +:+ bytes_str path +:+ "': " +:+ error) in
  _ ← map_err (unable "read") (Secret_open file);
  '(is_file, length_) ← map_err (unable "inspect") (Secret_metadata file);
  if negb is_file || negb (length_ =? 16)%Z then Err (usage "channel secret file must be exactly 16 bytes")
  else
    contents ← map_err (unable "read") (Secret_contents file);
    let raw := take 17 contents in
    if negb (length raw =? 16) then Err (usage "channel secret file must be exactly 16 bytes") else Ok raw.

(** ** Commands *)

Section commands.
Context `{Companion W} (host : Host).
Context `{ConfigToml} `{Crates} `{HistoryCodec} `{HookJson} `{CliJson} `{UnicodeTables}.

Definition status (args : Cli) : cli W () :=
  selected ← select_profile host args;
  let report := mkStatusReport (Selected_name selected) (Selected_path selected)
    (describe_transport (DeviceProfile_transport (Selected_profile selected))) (Selected_needs_migration selected) in
  let human := join_lines [str_bytes "Profile: " ++ StatusReport_profile report;
                           str_bytes ("Transport: " +:+ StatusReport_transport report);
                           str_bytes ("Config: " +:+ StatusReport_config_path report);
                           str_bytes "Connection: not probed"] in
  emit_result (Cli_output args) "status" report human.

(** [connect]. *)
Definition connect_command (args : Cli) : cli W () :=
  selected ← select_profile host args;
  workflow ← from_selected host selected;
  _ ← make_client selected;
  connected_ ← request ActorCommand_Connect;
  match connected_ with
  | inl error => finish (inl error)
  | inr self_info =>
      _ ← activate_workflow host workflow (SelfInfo_name self_info) "connection hook failed";
      let report := mkConnectionReport (Selected_name selected)
        (describe_transport (DeviceProfile_transport (Selected_profile selected))) true self_info in
      let human := str_bytes "Connected profile '" ++ Selected_name selected ++ str_bytes "' over "
        ++ str_bytes (ConnectionReport_transport report) ++ str_bytes " as " ++ SelfInfo_name self_info in
      _ ← finish_workflow host workflow "command completed";
      emit_result (Cli_output args) "connection" report human
  end.

(** The frame of the commands below: a profile, a client, a session, and the report
    once it is over. *)
Definition in_one_session {A T} (args : Cli) (operation : string) (body : SelectedProfile → CompanionSession → SelfInfo → cli W A)
    (record_type : string) (report : SelectedProfile → A → T) (human : T → A → rstring) : cli W () :=
  selected ← select_profile host args;
  _ ← make_client selected;
  value ← with_session host selected operation (body selected);
  let report := report selected value in
  emit_result (Cli_output args) record_type report (human report value).

Definition unknown_or (value : option rstring) : rstring := default (str_bytes "unknown") value.

Definition device_info (args : Cli) (firmware_only : bool) : cli W () :=
  in_one_session args (if firmware_only then "device firmware" else "device info")
    (λ _ _ self_info, device_info ← require ActorCommand_QueryDeviceInfo; mret (self_info, device_info))
    (if firmware_only then "firmware" else "device")
    (λ selected '(self_info, device_info), mkDeviceReport (Selected_name selected) self_info device_info)
    (λ _ '(self_info, device_info),
       if firmware_only then
         join_lines [str_bytes "Model: " ++ unknown_or (DeviceInfo_model device_info);
                     str_bytes "Firmware: " ++ unknown_or (DeviceInfo_firmware_version device_info);
                     str_bytes "Build: " ++ unknown_or (DeviceInfo_firmware_build device_info);
                     str_bytes ("Protocol: " +:+ pretty (DeviceInfo_protocol_version device_info))]
       else
         join_lines [str_bytes "Device: " ++ SelfInfo_name self_info;
                     str_bytes "Model: " ++ unknown_or (DeviceInfo_model device_info);
                     str_bytes "Firmware: " ++ unknown_or (DeviceInfo_firmware_version device_info);
                     str_bytes ("Protocol: " +:+ pretty (DeviceInfo_protocol_version device_info))]).

Definition number_or_unknown (value : option Z) : string := from_option pretty "unknown" value.

Definition device_telemetry (args : Cli) : cli W () :=
  in_one_session args "device telemetry"
    (λ _ _ _, battery ← require ActorCommand_GetBattery;
              telemetry ← require ActorCommand_GetSelfTelemetry;
              mret (battery, telemetry))
    "telemetry"
    (λ selected '(battery, telemetry),
       mkDeviceTelemetryReport (Selected_name selected) (BatteryInfo_level battery) (BatteryInfo_used_kb battery)
         (BatteryInfo_total_kb battery) (bytes_hex (TelemetryResponse_pubkey_prefix telemetry))
         (bytes_hex (TelemetryResponse_payload telemetry)))
    (λ report '(battery, telemetry),
       join_lines [str_bytes ("Battery: " +:+ pretty (DeviceTelemetry_battery_level report) +:+ " mV");
                   str_bytes ("Storage: " +:+ number_or_unknown (DeviceTelemetry_storage_used_kb report) +:+ "/"
                                +:+ number_or_unknown (DeviceTelemetry_storage_total_kb report) +:+ " KiB");
                   str_bytes "Telemetry source " ++ DeviceTelemetry_pubkey_prefix report
                     ++ str_bytes (" with " +:+ pretty (length (TelemetryResponse_payload telemetry))
                                     +:+ " payload bytes")]).

(** [bounded_unix_time], of the clock in seconds. *)
Definition host_seconds : cli W u32 :=
  clock ← ask comp_clock;
  lift (bounded_unix_time (option_map (λ millis, millis / 1000)%Z clock)).

Definition device_clock (args : Cli) (options : DeviceClockArgs) : cli W () :=
  host_time ← (if DeviceClock_sync options then t ← host_seconds; mret (Some t) else mret None);
  in_one_session args "device clock"
    (λ _ _ _,
       previous_time ← require ActorCommand_GetTime;
       match host_time with
       | None => mret (previous_time, false, previous_time)
       | Some host_time =>
           _ ← require (ActorCommand_SetTime host_time);
           current_time ← require ActorCommand_GetTime;
           if negb (current_time =? host_time)%Z then
             raise (cli_of_core (CoreError_ProtocolInvariant "device clock readback did not match requested host time"))
           else mret (previous_time, true, current_time)
       end)
    "device_clock"
    (λ selected '(previous_time, synced, current_time),
       mkDeviceClockReport (Selected_name selected) previous_time synced current_time)
    (λ report _,
       if DeviceClockReport_synced report then
         str_bytes ("Device time was " +:+ pretty (DeviceClockReport_previous_time report) +:+ "; synced to "
                      +:+ pretty (DeviceClockReport_current_time report))
       else str_bytes ("Device time is " +:+ pretty (DeviceClockReport_current_time report))).

(** The result of a request as the error monad carries it. *)
Definition of_request {A} (r : CoreError + A) : CliError + A :=
  match r with inl error => inl (cli_of_core error) | inr a => inr a end.
Definition restore_scope (selected : bool) : cli W (CliError + ()) :=
  if selected then r ← request (ActorCommand_SetFloodScope FloodScope_Default); mret (of_request r)
  else mret (inr ()).
(** [send?; restore?; Ok(value)], and the match of [network_discover]. *)
Definition first_failure {A} (operation : CliError + A) (restore : CliError + ()) : cli W A :=
  match operation, restore with
  | inl primary, _ => raise primary
  | inr _, inl restore => raise restore
  | inr value, inr _ => mret value
  end.

Definition device_advertise (args : Cli) (options : DeviceAdvertiseArgs) : cli W () :=
  scope ← lift (parse_scope (Advertise_scope options));
  in_one_session args "device advertise"
    (λ _ _ _,
       _ ← match scope with Some (scope, _) => require (ActorCommand_SetFloodScope scope) | None => mret () end;
       send ← request (ActorCommand_SendSelfAdvert (Advertise_flood options));
       restore ← restore_scope (scoped scope);
       first_failure (of_request send) restore)
    "advertise"
    (λ selected _, mkDeviceAdvertiseReport (Selected_name selected) (Advertise_flood options))
    (λ _ _, str_bytes (if Advertise_flood options then "Sent flood advertisement" else "Sent normal advertisement")).

Definition device_reboot (args : Cli) : cli W () :=
  _ ← confirm host args "reboot the local companion";
  in_one_session args "device reboot" (λ _ _ _, require ActorCommand_Reboot) "device_reboot"
    (λ selected _, mkDeviceRebootReport (Selected_name selected) true) (λ _ _, str_bytes "Reboot command sent").

(** ** Network commands *)

Definition discovery_request_nonce : cli W u32 :=
  '(elapsed, counter) ← ask comp_nonce;
  elapsed ← lift (ok_or elapsed
    (CliError_new Exit_Protocol "system time is unavailable for node-discovery correlation"));
  let digest := sha256 (to_le_bytes 16 elapsed ++ to_le_bytes 4 (Host_pid host) ++ to_le_bytes 8 counter) in
  mret (Z.max (from_le_bytes (take 4 digest)) 1).

(** The loop of [collect_node_discovery], with a bound on its turns; [None] when it is
    exhausted. *)
Fixpoint collect_node_discovery (fuel : nat) (tag : u32) (seen : list bytes) (nodes : list NetworkDiscoveryNode) :
    cli W (list NetworkDiscoveryNode) :=
  match fuel with
  | O => lift Panic
  | S fuel =>
      received ← ask comp_event;
      match received with
      | Received_Deadline => mret nodes
      | Received_Lagged _ =>
          raise (with_hint (CliError_new Exit_Protocol
                              "node-discovery event buffering lagged; results may be incomplete")
                   "Retry with fewer concurrent event consumers.")
      | Received_Closed =>
          raise (CliError_new Exit_Connection "the device event stream closed during node discovery")
      | Received_Event (Event_ControlData data) =>
          response ← lift (map_err (λ _, CliError_new Exit_Protocol
                                           "the device emitted a malformed node-discovery response")
                             (node_discovery_response data));
          match response with
          | None => collect_node_discovery fuel tag seen nodes
          | Some response =>
              let key := NodeDiscoveryResponse_public_key response in
              if negb (NodeDiscoveryResponse_tag response =? tag)%Z || bool_decide (key ∈ seen) then
                collect_node_discovery fuel tag seen nodes
              else
                let node := mkDiscoveryNode (hex_encode key) (length key) (NodeDiscoveryResponse_node_type response)
                  (discovery_node_type_name (NodeDiscoveryResponse_node_type response)) (ControlData_snr_qdb data)
                  (NodeDiscoveryResponse_inbound_snr_qdb response) (ControlData_rssi data) (ControlData_path_len data) in
                collect_node_discovery fuel tag (key :: seen) (nodes ++ [node])
          end
      | Received_Event _ => collect_node_discovery fuel tag seen nodes
      end
  end.

Definition network_discover (fuel : nat) (args : Cli) (options : NetworkDiscoverArgs) : cli W () :=
  temporary_scope ← lift (parse_scope (NetworkDiscover_scope options));
  tag ← discovery_request_nonce;
  in_one_session args "network discover"
    (λ _ _ _,
       _ ← match temporary_scope with
           | Some (scope, _) => require (ActorCommand_SetFloodScope scope)
           | None => mret ()
           end;
       operation ← attempt (
         _ ← require (ActorCommand_SendNodeDiscovery (discovery_filter (NetworkDiscover_kind options)) true tag None);
         collect_node_discovery fuel tag [] []);
       restore ← restore_scope (scoped temporary_scope);
       first_failure operation restore)
    "network_discovery"
    (λ selected nodes,
       mkNetworkDiscoveryReport (Selected_name selected) (discovery_filter_name (NetworkDiscover_kind options))
         (NetworkDiscover_scope options) (Z.min (Cli_timeout args / 1000000) (2 ^ 64 - 1)) nodes)
    (λ report _, network_discovery_human report).

Definition scope_action (options : NetworkScopeArgs) (parsed_scope : option (FloodScope * option rstring)) :
    cli W (string * option rstring) :=
  match parsed_scope with
  | None =>
      configured ← require ActorCommand_GetDefaultFloodScope;
      mret ("query", match configured with
                     | DefaultFloodScope_Unconfigured => None
                     | DefaultFloodScope_Configured scope => Scope_name scope
                     end)
  | Some (scope, key_name) =>
      if NetworkScope_set_default options then
        match scope, key_name with
        | FloodScope_Default, _ | FloodScope_Unscoped, _ =>
            _ ← require ActorCommand_ClearDefaultFloodScope; mret ("clear_default", None)
        | FloodScope_Key key, Some name =>
            _ ← require (ActorCommand_SetDefaultFloodScope name key); mret ("set_default", Some name)
        | FloodScope_Key _, None => raise (cli_of_core (CoreError_ProtocolInvariant "scope key name was lost"))
        end
      else
        _ ← require (ActorCommand_SetFloodScope scope);
        mret ("set", scope_name_for_report scope key_name)
  end.

Definition network_scope_human (report : NetworkScopeReport) : rstring :=
  let action := ScopeReport_action report in
  match ScopeReport_scope report with
  | Some scope =>
      if bool_decide (action = "set_default") then str_bytes "Configured persistent scope '" ++ scope ++ str_bytes "'"
      else if bool_decide (action = "set") then str_bytes "Set current flood scope to '" ++ scope ++ str_bytes "'"
      else if bool_decide (action = "clear_default") then str_bytes "Cleared persistent flood scope"
      else if bool_decide (action = "query") then str_bytes "Configured default scope: " ++ scope
      else str_bytes "Updated flood scope"
  | None =>
      if bool_decide (action = "clear_default") then str_bytes "Cleared persistent flood scope"
      else if bool_decide (action = "query") then str_bytes "No persistent flood scope is configured"
      else str_bytes "Updated flood scope"
  end.

Definition network_scope (args : Cli) (options : NetworkScopeArgs) : cli W () :=
  if bool_decide (NetworkScope_scope options = None) && NetworkScope_set_default options then
    raise (CliError_new Exit_Usage "--set-default requires a scope value")
  else
  parsed_scope ← lift (parse_scope (NetworkScope_scope options));
  in_one_session args "network scope" (λ _ _ _, scope_action options parsed_scope) "network_scope"
    (λ selected '(action, scope), mkNetworkScopeReport (Selected_name selected) action scope)
    (λ report _, network_scope_human report).

Definition requested_hash_mode (hash_bytes : option u8) : outcome CliError (option u8) :=
  match hash_bytes with
  | None => Ok None
  | Some 1 => Ok (Some 0)
  | Some 2 => Ok (Some 1)
  | Some 3 => Ok (Some 2)
  | Some 4 =>
      Err (with_hint (CliError_new Exit_Usage "4-byte path hashes are reserved by current companion firmware")
             "Use --hash-bytes 1, 2, or 3.")
  | Some _ => Err (CliError_new Exit_Usage "path hash bytes must be 1, 2, or 3")
  end%Z.

Definition trace_path (requested : option u8) (target : rstring) : cli W (Contact * PathDiscovery) :=
  contacts ← require (ActorCommand_ListContacts None);
  contact ← lift (resolve_contact contacts target);
  previous ← match requested with
             | Some mode =>
                 previous ← require ActorCommand_GetPathHashMode;
                 _ ← (if negb (previous =? mode)%Z then require (ActorCommand_SetPathHashMode mode) else mret ());
                 mret (Some previous)
             | None => mret None
             end;
  discovery ← request (ActorCommand_DiscoverPath (PublicKey_0 (Contact_public_key contact)));
  restore ← match previous, requested with
            | Some previous, Some requested =>
                if negb (previous =? requested)%Z then
                  r ← request (ActorCommand_SetPathHashMode previous); mret (of_request r)
                else mret (inr ())
            | _, _ => mret (inr ())
            end;
  discovery ← first_failure (of_request discovery) restore;
  mret (contact, discovery).

Definition network_trace (args : Cli) (options : NetworkTraceArgs) : cli W () :=
  if bool_decide (0x2c%Z ∈ NetworkTrace_target options) then
    raise (CliError_new Exit_Usage "network trace does not accept comma-separated paths")
  else
  requested ← lift (requested_hash_mode (NetworkTrace_hash_bytes options));
  in_one_session args "network trace" (λ _ _ _, trace_path requested (NetworkTrace_target options)) "network_trace"
    (λ selected '(contact, discovery),
       mkNetworkTraceReport (Selected_name selected) (Contact_adv_name contact)
         (PublicKey_to_hex (Contact_public_key contact)) discovery)
    (λ report _, str_bytes "Discovered path for '" ++ TraceReport_target report ++ str_bytes "'").

(** ** Contacts *)

Section contacts.
Context (args : Cli) (selected : SelectedProfile) (workflow : WorkflowServices) (contacts : list Contact).

Definition profile : rstring := Selected_name selected.

Definition contact_list (options : ContactsArgs) : cli W () :=
  let views := contact_view <$> filter_contacts contacts options in
  let human := if bool_decide (length views = 0) then str_bytes "No contacts matched."
               else join_lines ((λ v, ContactView_name v ++ [0x09%Z] ++ str_bytes (ContactView_kind v) ++ [0x09%Z]
                                        ++ short_key (ContactView_public_key v)) <$> views) in
  let human := if Contacts_refresh options then
                 str_bytes "Contacts fetched fresh from the device (--refresh explicitly requested)." ++ [0x0a%Z] ++ human
               else human in
  emit_result (Cli_output args) "contacts" (mkContactsReport profile true (Contacts_refresh options) views) human.

Definition contact_show (query : rstring) : cli W () :=
  contact ← lift (resolve_contact contacts query);
  let view := contact_view contact in
  let human := ContactView_name view ++ [0x09%Z] ++ str_bytes (ContactView_kind view) ++ [0x09%Z]
    ++ ContactView_public_key view ++ [0x0a%Z] ++ str_bytes ("Route: " +:+ ContactView_route view) ++ [0x0a%Z]
    ++ str_bytes "Path: " ++ ContactView_path view in
  emit_result (Cli_output args) "contact" (mkContactReport profile view) human.

(** [workflow.contact_updated(key, Some(name), change)]. *)
Definition announce_change (contact : Contact) (change : ContactChange) : cli W () :=
  contact_updated host (PublicKey_to_hex (Contact_public_key contact)) (Some (Contact_adv_name contact)) change.

Definition contact_update (options : ContactUpdateArgs) : cli W () :=
  listed ← lift (resolve_contact contacts (ContactUpdate_contact options));
  contact ← require (ActorCommand_GetContact (PublicKey_0 (Contact_public_key listed)));
  let '(updated, changed) := apply_contact_update contact options in
  if negb changed then raise (CliError_new Exit_Usage "no contact changes were supplied")
  else
    _ ← require (ActorCommand_UpdateContact updated);
    _ ← announce_change updated Change_Updated;
    emit_result (Cli_output args) "contact_update"
      (mkContactUpdateReport profile (PublicKey_to_hex (Contact_public_key updated)) (Contact_adv_name updated)
         (negb (Z.land (Contact_flags updated) 1 =? 0)%Z))
      (str_bytes "Updated contact '" ++ Contact_adv_name updated ++ str_bytes "'").

Definition contact_forget (query : rstring) : cli W () :=
  contact ← lift (resolve_contact contacts query);
  _ ← confirm host args ("remove contact " +:+ bytes_str (Contact_adv_name contact));
  _ ← require (ActorCommand_RemoveContact (PublicKey_0 (Contact_public_key contact)));
  _ ← announce_change contact Change_Removed;
  emit_result (Cli_output args) "contact_remove"
    (mkContactForgetReport profile (Contact_adv_name contact) (PublicKey_to_hex (Contact_public_key contact)))
    (str_bytes "Removed contact '" ++ Contact_adv_name contact ++ str_bytes "'").

Definition contact_export (query : rstring) : cli W () :=
  contact ← lift (resolve_contact contacts query);
  uri ← require (ActorCommand_ExportContact (Some (PublicKey_0 (Contact_public_key contact))));
  emit_result (Cli_output args) "contact_export"
    (mkContactExportReport profile (Contact_adv_name contact) (PublicKey_to_hex (Contact_public_key contact))
       (ContactUri_uri uri))
    (str_bytes "Exported contact '" ++ Contact_adv_name contact ++ str_bytes "'").

Definition contact_import (uri : rstring) : cli W () :=
  card ← lift (parse_meshcore_uri uri);
  _ ← require (ActorCommand_ImportContact card);
  _ ← contact_updated host (str_bytes "import-" ++ hex_encode (take 16 (sha256 card))) None Change_Added;
  emit_result (Cli_output args) "contact_import" (mkContactImportReport profile (length card))
    (str_bytes "Imported contact").

Definition contact_path_show (query : rstring) : cli W () :=
  contact ← lift (resolve_contact contacts query);
  path ← require (ActorCommand_GetAdvertPath (PublicKey_0 (Contact_public_key contact)));
  emit_result (Cli_output args) "contact_path"
    (mkContactPathReport profile (Contact_adv_name contact) (PublicKey_to_hex (Contact_public_key contact))
       (contact_route_text (AdvertPath_route path)) (AdvertPath_received_at path) (Path_to_hex (AdvertPath_path path)))
    (str_bytes "Path for '" ++ Contact_adv_name contact ++ str_bytes "' is " ++ Path_to_hex (AdvertPath_path path)).

Definition contact_path_discover (query : rstring) : cli W () :=
  contact ← lift (resolve_contact contacts query);
  discovery ← require (ActorCommand_DiscoverPath (PublicKey_0 (Contact_public_key contact)));
  emit_result (Cli_output args) "contact_path_discovery"
    (mkContactPathDiscoveryReport profile (Contact_adv_name contact) (PublicKey_to_hex (Contact_public_key contact))
       discovery)
    (str_bytes "Discovered path for '" ++ Contact_adv_name contact ++ str_bytes "'").

Definition contact_path_reset (query : rstring) : cli W () :=
  contact ← lift (resolve_contact contacts query);
  _ ← confirm host args ("reset path for contact " +:+ bytes_str (Contact_adv_name contact));
  _ ← require (ActorCommand_ResetPath (PublicKey_0 (Contact_public_key contact)));
  _ ← announce_change contact Change_Updated;
  emit_result (Cli_output args) "contact_path_reset"
    (mkContactPathResetReport profile (Contact_adv_name contact) (PublicKey_to_hex (Contact_public_key contact)) true)
    (str_bytes "Reset path for '" ++ Contact_adv_name contact ++ str_bytes "'").

Definition contact_with_path (contact : Contact) (route : ContactRoute) (path : Path) : Contact :=
  mkContact (Contact_public_key contact) (Contact_contact_type contact) (Contact_flags contact) route path
    (Contact_adv_name contact) (Contact_last_advert contact) (Contact_adv_lat contact) (Contact_adv_lon contact)
    (Contact_lastmod contact).

Definition contact_path_set (query path : rstring) : cli W () :=
  listed ← lift (resolve_contact contacts query);
  contact ← require (ActorCommand_GetContact (PublicKey_0 (Contact_public_key listed)));
  hash_mode ← require ActorCommand_GetPathHashMode;
  if negb (hash_mode <=? 2)%Z then
    raise (CliError_new Exit_Protocol "the device reported an unsupported contact path hash mode")
  else
  path_bytes ← lift (parse_explicit_contact_path path hash_mode);
  _ ← confirm host args ("replace path for contact " +:+ bytes_str (Contact_adv_name contact));
  let width := Z.to_nat hash_mode + 1 in
  let hop_count := Z.of_nat (length path_bytes / width) in
  if negb (hop_count <? 256)%Z then raise (CliError_new Exit_Usage "contact path contains too many hops")
  else
  out_path ← lift (map_err cli_of_core (Path_try_from_bytes path_bytes));
  let updated := contact_with_path contact (ContactRoute_Path hash_mode hop_count) out_path in
  _ ← require (ActorCommand_UpdateContact updated);
  _ ← announce_change updated Change_Updated;
  emit_result (Cli_output args) "contact_path_set"
    (mkContactPathSetReport profile (Contact_adv_name updated) (PublicKey_to_hex (Contact_public_key updated))
       (hash_mode + 1) hop_count (hex_encode path_bytes) true)
    (str_bytes "Updated path for '" ++ terminal_safe (Contact_adv_name updated) ++ str_bytes "'").

Definition contact_path (command : ContactPathCommand) : cli W () :=
  match command with
  | ContactPath_Show contact => contact_path_show contact
  | ContactPath_Discover contact => contact_path_discover contact
  | ContactPath_Reset contact => contact_path_reset contact
  | ContactPath_Set contact path => contact_path_set contact path
  end.

Definition contact_command (options : ContactsArgs) : cli W () :=
  match Contacts_command options with
  | Some (ContactCommand_Show contact) => contact_show contact
  | Some (ContactCommand_Update options) => contact_update options
  | Some (ContactCommand_Forget contact) => contact_forget contact
  | Some (ContactCommand_Export contact) => contact_export contact
  | Some (ContactCommand_Import uri) => contact_import uri
  | Some (ContactCommand_Path command) => contact_path command
  | None => contact_list options
  | Some (ContactCommand_Pending _) => raise (CliError_unsupported "pending contacts")
  end.
End contacts.

Definition contacts (args : Cli) (options : ContactsArgs) : cli W () :=
  selected ← select_profile host args;
  _ ← make_client selected;
  with_session host selected "contacts" (λ session _,
    listed ← match Contacts_command options with
             | Some (ContactCommand_Import _) => mret []
             | _ => require (ActorCommand_ListContacts None)
             end;
    contact_command args selected listed options).

(** ** Channels *)

Fixpoint collect_channels (idxs : list u8) (channels : list ChannelInfoView) : cli W (list ChannelInfoView) :=
  match idxs with
  | [] => mret channels
  | idx :: idxs =>
      channel ← require (ActorCommand_GetChannel idx);
      collect_channels idxs
        (channels ++ [mkChannelView (ChannelInfo_idx channel) (ChannelInfo_name channel) (ChannelInfo_secret_hash channel)])
  end.
Definition collect_channel_views : cli W (list ChannelInfoView) :=
  device_info ← require ActorCommand_QueryDeviceInfo;
  collect_channels (Z.of_nat <$> seq 0 (Z.to_nat (default 0%Z (DeviceInfo_max_channels device_info)))) [].

Section channels.
Context (args : Cli) (selected : SelectedProfile).
Definition has_idx (idx : u8) (channel : ChannelInfoView) : bool := (ChannelView_idx channel =? idx)%Z.

Definition channel_list : cli W () :=
  channels ← collect_channel_views;
  let channels := filter (λ channel, ChannelView_name channel ≠ []) channels in
  let human := if bool_decide (length channels = 0) then str_bytes "No configured channels."
               else join_lines ((λ channel, str_bytes (pretty (ChannelView_idx channel)) ++ [0x09%Z]
                                              ++ ChannelView_name channel) <$> channels) in
  emit_result (Cli_output args) "channels" (mkChannelsReport (Selected_name selected) channels) human.

Definition channel_show (query : rstring) : cli W () :=
  channels ← collect_channel_views;
  idx ← lift (resolve_channel_query channels query);
  match find (has_idx idx) channels with
  | None => raise (cli_of_core (CoreError_InvalidArgument "channel" "channel index is out of range"))
  | Some channel =>
      let display_name := if bool_decide (ChannelView_name channel = []) then str_bytes "(empty)"
                          else ChannelView_name channel in
      emit_result (Cli_output args) "channel"
        (mkChannelReport (Selected_name selected) (ChannelView_idx channel) (ChannelView_name channel)
           (ChannelView_secret_hash channel))
        (str_bytes ("Channel " +:+ pretty (ChannelView_idx channel) +:+ ": ") ++ display_name)
  end.

Definition channel_set (command : ChannelSetArgs) (secret : bytes) : cli W () :=
  channels ← collect_channel_views;
  let idx := ChannelSet_channel command in
  if negb (existsb (has_idx idx) channels) then
    raise (CliError_new Exit_NotFound ("channel index '" +:+ pretty idx +:+ "' is out of range"))
  else
    _ ← require (ActorCommand_SetChannel idx (ChannelSet_name command) secret);
    emit_result (Cli_output args) "channel_set"
      (mkChannelSetReport (Selected_name selected) idx (ChannelSet_name command) true)
      (str_bytes ("Configured channel " +:+ pretty idx)).

Definition channel_remove (query : rstring) : cli W () :=
  channels ← collect_channel_views;
  idx ← lift (resolve_channel_query channels query);
  let previous_name := from_option ChannelView_name [] (find (has_idx idx) channels) in
  if bool_decide (previous_name = []) then
    raise (CliError_new Exit_NotFound ("channel index '" +:+ pretty idx +:+ "' is not configured"))
  else
    _ ← confirm host args ("remove channel " +:+ pretty idx +:+ " (" +:+ bytes_str previous_name +:+ ")");
    _ ← require (ActorCommand_ClearChannel idx);
    emit_result (Cli_output args) "channel_remove"
      (mkChannelRemoveReport (Selected_name selected) idx previous_name true)
      (str_bytes ("Removed channel " +:+ pretty idx)).
End channels.

Definition channels (args : Cli) (command : ChannelCommand) (file : SecretFile) : cli W () :=
  set_secret ← match command with
               | Channel_Set options =>
                   path ← lift (ok_or (ChannelSet_secret_file options)
                                  (CliError_new Exit_Usage "channel set requires --secret-file"));
                   secret ← lift (read_channel_secret path file);
                   mret (Some secret)
               | _ => mret None
               end;
  selected ← select_profile host args;
  _ ← make_client selected;
  with_session host selected "channels" (λ _ _,
    match command with
    | Channel_List => channel_list args selected
    | Channel_Show channel => channel_show args selected channel
    | Channel_Set options =>
        match set_secret with
        | None => raise (cli_of_core (CoreError_ProtocolInvariant "validated channel secret was unavailable"))
        | Some secret => channel_set args selected options secret
        end
    | Channel_Remove channel => channel_remove args selected channel
    end).

(** ** History *)

Definition debug_HistoryDirection (d : HistoryDirection) : string :=
  match d with Incoming => "Incoming" | Outgoing => "Outgoing" end.
Definition debug_HistoryStatus (s : HistoryStatus) : string :=
  match s with
  | Status_Pending => "Pending" | Status_Acknowledged => "Acknowledged" | Status_TimedOut => "TimedOut"
  | Status_Failed => "Failed" | Status_Received => "Received"
  end.

Definition history_line (entry : HistoryEntry) : rstring :=
  str_bytes (pretty (HistoryEntry_recorded_at_unix_ms entry)) ++ [0x09%Z]
    ++ str_bytes (debug_HistoryDirection (HistoryEntry_direction entry)) ++ [0x09%Z]
    ++ str_bytes (debug_HistoryStatus (HistoryEntry_status entry)) ++ [0x09%Z]
    ++ terminal_safe (HistoryEntry_peer entry) ++ [0x09%Z] ++ terminal_safe (HistoryEntry_text entry).

(** [history]. *)
Definition history_command (args : Cli) (command : HistoryCommand) : cli W () :=
  selected ← select_profile host args;
  store ← lift (history_store_for_selected host selected true);
  store ← lift (ok_or store (CliError_new Exit_Configuration
                               "could not resolve the selected profile history store"));
  let path := HistoryStore_path store in
  let enabled := HistorySettings_enabled (Config_history (Selected_config selected)) in
  match command with
  | HistoryCommand_List limit =>
      entries ← load_history store;
      let entries := from_option (λ limit, drop (length entries - limit) entries) entries limit in
      let human := if bool_decide (length entries = 0) then
                     str_bytes "No retained history for '" ++ Selected_name selected
                       ++ str_bytes ("'. Persistence is " +:+ (if enabled then "enabled" else "disabled") +:+ ".")
                   else join_lines (history_line <$> entries) in
      emit_result (Cli_output args) "history"
        (mkHistoryReport (Selected_name selected) enabled "plaintext_opt_in" path entries) human
  | HistoryCommand_Clear =>
      _ ← confirm host args "delete the selected profile's local message history";
      _ ← clear_history store;
      emit_result (Cli_output args) "history_cleared" (mkHistoryClearReport (Selected_name selected) path true)
        (str_bytes "Cleared local message history.")
  end.
End commands.
