(* ===== verification/CommandProps.v ===== *)
(** * Command line: what the commands of one session keep to

    The commands that report once their session is over keep to the protocol of
    [Session]; and the filter of a node discovery does not name the nodes its
    answers name. *)

From S2P Require Import Prelude Text Order Floats Domain Managed Hooks HookRuntime Store History Paths MqttConfig.
From S2P Require Import Config CliOutput CliArgs Suggest Resolve Session CliConfig Workflow Send Commands.

(** ** What a computation logs *)

Section logging.
Context `{Companion W} (host : Host) `{HookJson}.

(** [logs P m]: whatever [m] does, the events it logs satisfy [P]. *)
Definition logs {A} (P : Event → Prop) (m : cli W A) : Prop :=
  ∀ e, ∃ events, Env_log (m e).2 = Env_log e ++ events ∧ Forall P events.

Lemma logs_silent {A} P (m : cli W A) : silent m → logs P m.
Proof. intros Hm e. exists []. by rewrite app_nil_r, Hm. Qed.
Lemma logs_one {A} P (m : cli W A) event : (∀ e, Env_log (m e).2 = Env_log e ++ [event]) → P event → logs P m.
Proof. intros Hm HP e. exists [event]. rewrite Hm. auto. Qed.
Lemma logs_bind {A B} P (m : cli W A) (k : A → cli W B) : logs P m → (∀ a, logs P (k a)) → logs P (m ≫= k).
Proof.
  intros Hm Hk e. destruct (Hm e) as (ev1 & Hl1 & HP1). unfold mbind, cli_bind.
  destruct (m e) as [[a|error|] e']; [|by exists ev1..]. simpl in Hl1.
  destruct (Hk a e') as (ev2 & Hl2 & HP2). exists (ev1 ++ ev2).
  rewrite Hl2, Hl1, app_assoc. split; [done|by apply Forall_app].
Qed.
Lemma logs_attempt {A} P (m : cli W A) : logs P m → logs P (attempt m).
Proof. intros Hm e. destruct (Hm e) as (ev & Hl & HP). exists ev. unfold attempt. by destruct (m e) as [[] ?]. Qed.
Lemma logs_ignore {A} P (m : cli W A) : logs P m → logs P (ignore m).
Proof. intros Hm. apply logs_bind; [by apply logs_attempt|intros; by apply logs_silent]. Qed.
Lemma logs_request {A} P (command : ActorCommand A) : (∀ ok, P (Ev_Request command ok)) → logs P (request command).
Proof.
  intros HP e. unfold request. destruct (comp_request _ _) as [r w]. exists [Ev_Request command (is_ok r)]. auto.
Qed.
Lemma logs_require {A} P (command : ActorCommand A) : (∀ ok, P (Ev_Request command ok)) → logs P (require command).
Proof. intros HP. apply logs_bind; [by apply logs_request|]. intros []; by apply logs_silent. Qed.
Lemma logs_notify P event : P (Ev_Hook event) → logs P (notify host event).
Proof.
  apply logs_one. intros e. unfold notify. destruct (Env_hooks _); [|done].
  by destruct (comp_clock _), (comp_os _), (dispatch _ _ _ _ _) as [[? ?] ?].
Qed.
Lemma logs_emit P write event : P event → logs P (emit_with write event : cli W ()).
Proof. apply logs_one. intros e. unfold emit_with. by destruct (write _). Qed.
Lemma logs_if {A} P (b : bool) (m1 m2 : cli W A) : logs P m1 → logs P m2 → logs P (if b then m1 else m2).
Proof. by destruct b. Qed.
End logging.

(** Decides a body of requests, notifications and results. *)
Ltac work := repeat first
  [ progress intros | apply logs_bind | by apply logs_require | by apply logs_request | by apply logs_notify
  | by apply logs_emit | apply logs_attempt | apply logs_if
  | apply logs_silent; solve [auto with mq_silent] | case_match ].

Section protocol.
Context `{Companion W} (host : Host).
Context `{ConfigToml} `{Crates} `{HistoryCodec} `{HookJson} `{CliJson} `{UnicodeTables}.

(** A body of requests that leaves the session as it was. *)
Definition stays {A} (m : cli W A) : Prop := follows in_session m (λ _ s, s = in_session).

Lemma stays_ret {A} (a : A) : stays (mret a).
Proof. by apply follows_ret. Qed.
Lemma stays_raise {A} error : stays (raise (A := A) error).
Proof. by apply follows_raise. Qed.
Lemma stays_lift {A} (m : outcome CliError A) : stays (lift m).
Proof. by apply follows_lift. Qed.
Lemma stays_bind {A B} (m : cli W A) (k : A → cli W B) : stays m → (∀ a, stays (k a)) → stays (m ≫= k).
Proof.
  intros Hm Hk. apply follows_bind. eapply follows_mono; [done|]. intros [a|error|] s ->; [apply Hk|done|done].
Qed.
Lemma stays_request {A} (command : ActorCommand A) :
  step_request in_session command false = Some in_session →
  step_request in_session command true = Some in_session → stays (request command).
Proof. intros H0' H1'. by eapply follows_request. Qed.
Lemma stays_require {A} (command : ActorCommand A) :
  step_request in_session command false = Some in_session →
  step_request in_session command true = Some in_session → stays (require command).
Proof. intros H0' H1'. by eapply follows_require. Qed.
Lemma stays_first_failure {A} (operation : CliError + A) restore : stays (first_failure operation restore).
Proof. destruct operation, restore; [apply stays_raise..|apply stays_ret]. Qed.

Lemma over_printed {T} s record_type (data : T) : over s → protocol s (Ev_Output record_type data) = Some s.
Proof. intros [(Ho & Ha & Hs) Hf]. simpl. by rewrite Ho, Ha, Hs, Hf. Qed.

Lemma follows_in_one_session {A T} args operation (body : SelectedProfile → CompanionSession → SelfInfo → cli W A)
    record_type (report : SelectedProfile → A → T) human : (∀ selected session info, stays (body selected session info)) →
  follows at_rest (in_one_session host args operation body record_type report human) (λ _ s, over s).
Proof.
  intros Hbody. unfold in_one_session. pose proof over_at_rest.
  apply follows_bind, follows_silent; [apply silent_select_profile|]. intros [selected|error|] _; [|done|done].
  apply follows_bind, follows_silent; [apply silent_make_client|]. intros [[]|error|] _; [|done|done].
  apply follows_bind, follows_bind, follows_session_connect; [done|]. intros session info.
  apply follows_bind, follows_attempt. eapply follows_mono; [apply Hbody|]. intros [a|error|] s ->; [| |done];
    (eapply follows_mono; [by apply (follows_session_finish host session _ (λ _ s, over s))|]);
    (intros [a'|error'|] s Hs; [|done|done]); (eapply follows_emit_last; [by apply over_printed|done|done]).
Qed.

Lemma silent_host_seconds : silent (host_seconds : cli W _).
Proof. apply silent_bind; [apply silent_ask|intros; apply silent_lift]. Qed.

Lemma follows_device_clock args options : follows at_rest (device_clock host args options) (λ _ s, over s).
Proof.
  pose proof over_at_rest. unfold device_clock. apply follows_bind, follows_silent.
  { destruct (DeviceClock_sync options); [|apply silent_ret].
    apply silent_bind; [apply silent_host_seconds|intros; apply silent_ret]. }
  intros [host_time|error|] _; [|done|done]. apply follows_in_one_session. intros _ _ _.
  apply stays_bind; [by apply stays_require|]. intros previous. destruct host_time; [|apply stays_ret].
  apply stays_bind; [by apply stays_require|]. intros []. apply stays_bind; [by apply stays_require|].
  intros current. destruct (negb _); [apply stays_raise|apply stays_ret].
Qed.

Lemma stays_trace_path requested target : stays (trace_path requested target).
Proof.
  apply stays_bind; [by apply stays_require|]. intros contacts. apply stays_bind; [apply stays_lift|]. intros contact.
  apply stays_bind.
  { destruct requested as [mode|]; [|apply stays_ret]. apply stays_bind; [by apply stays_require|]. intros previous.
    apply stays_bind; [|intros; apply stays_ret]. destruct (negb _); [by apply stays_require|apply stays_ret]. }
  intros previous. apply stays_bind; [by apply stays_request|]. intros discovery. apply stays_bind.
  { destruct previous as [p|], requested as [r|]; try apply stays_ret. destruct (negb _); [|apply stays_ret].
    apply stays_bind; [by apply stays_request|intros; apply stays_ret]. }
  intros restore. apply stays_bind; [apply stays_first_failure|intros; apply stays_ret].
Qed.

(** ** Sessions that report from within *)

(** What may happen in a session: any request but those that open, close or transmit,
    the notifications of a change, and results. *)
Definition within (event : Event) : Prop :=
  match event with
  | Ev_Request command _ =>
      match command with
      | ActorCommand_Connect | ActorCommand_Disconnect | ActorCommand_Reconnect | ActorCommand_Shutdown
      | ActorCommand_SendDirectText _ _ _ | ActorCommand_SendDirectCommand _ _ _
      | ActorCommand_SendChannelMessage _ _ _ => False
      | _ => True
      end
  | Ev_Hook (HookEvent_OnContactUpdate _) | Ev_Output _ _ => True
  | _ => False
  end.

(** [bracketed m]: what [m] does is an opening of a session that keeps to the protocol,
    work within it, and a closing that keeps to the protocol and leaves it over; or it
    is over before it began. *)
Definition bracketed {A} (m : cli W A) : Prop := ∀ e, let '(r, e') := m e in
  ∃ opening work closing s s', Env_log e' = Env_log e ++ opening ++ work ++ closing ∧
    advance at_rest opening = Some s ∧ Forall within work ∧ advance s closing = Some s' ∧
    (work ≠ [] → s = in_session) ∧ (r ≠ Panic → over s').

Lemma bracketed_follows {A} (m : cli W A) : follows at_rest m (λ _ s, over s) → bracketed m.
Proof.
  intros Hm e. specialize (Hm e). destruct (m e) as [r e']. destruct Hm as (events & s & Hl & Ha & Ho).
  exists events, [], [], s, s. by rewrite app_nil_r, Hl.
Qed.
Lemma bracketed_silent {A B} (m : cli W A) (k : A → cli W B) : silent m → (∀ a, bracketed (k a)) → bracketed (m ≫= k).
Proof.
  intros Hm Hk e. specialize (Hm e). unfold mbind, cli_bind. pose proof over_at_rest.
  destruct (m e) as [[a|error|] e'] eqn:E; simpl in Hm.
  - specialize (Hk a e'). by rewrite Hm in Hk.
  - exists [], [], [], at_rest, at_rest. by rewrite Hm, app_nil_r.
  - exists [], [], [], at_rest, at_rest. by rewrite Hm, app_nil_r.
Qed.

Lemma bracketed_session {A B} selected operation (body : CompanionSession → SelfInfo → cli W A) (k : A → cli W B) :
  (∀ session info, logs within (body session info)) →
  (∀ a s, over s → follows s (k a) (λ _ s', over s')) →
  bracketed (with_session host selected operation body ≫= k).
Proof.
  intros Hbody Hk e.
  pose proof (follows_session_connect host selected operation
    (λ r s, match r with Ok _ => s = in_session | Err _ => over s | Panic => True end)) as Hc.
  specialize (Hc (λ _ _ H, H) (λ _ _, eq_refl) e).
  unfold with_session, mbind, cli_bind. destruct (session_connect host selected operation e) as [[[session info]|error|] e1];
    destruct Hc as (opening & s & Hl & Ha & Hs).
  2: { exists opening, [], [], s, s. rewrite app_nil_r, Hl. split_and!; [done..|]. intros _. by apply Hs. }
  2: { exists opening, [], [], s, s. by rewrite app_nil_r, Hl. }
  assert (s = in_session) as -> by (by apply Hs). destruct (Hbody session info e1) as (work & Hw & HP).
  assert (∀ primary, follows in_session (session_finish host session primary ≫= k) (λ _ s', over s')) as Hf.
  { intros primary. apply follows_bind, follows_session_finish. intros [a|error|] s' Ho; auto. }
  unfold attempt. destruct (body session info e1) as [[a|error|] e2]; simpl in Hw.
  3: { exists opening, work, [], in_session, in_session. rewrite app_nil_r, Hw, Hl, app_assoc. by split_and!. }
  1: specialize (Hf (inr a) e2).
  2: specialize (Hf (inl error) e2).
  all: unfold mbind, cli_bind in Hf; cbn beta iota.
  all: match goal with |- context [session_finish ?h ?x ?p ?e] => destruct (session_finish h x p e) as [[a'|error'|] e3] end.
  1, 4: destruct (k a' e3) as [r e4].
  all: destruct Hf as (closing & s' & Hl3 & Ha3 & Ho); exists opening, work, closing, in_session, s';
    rewrite Hl3, Hw, Hl, <-!app_assoc; by split_and!.
Qed.

Lemma bracketed_one_session {A T} args operation (body : SelectedProfile → CompanionSession → SelfInfo → cli W A)
    record_type (report : SelectedProfile → A → T) human : (∀ selected session info, logs within (body selected session info)) →
  bracketed (in_one_session host args operation body record_type report human).
Proof.
  intros Hbody. unfold in_one_session. apply bracketed_silent; [apply silent_select_profile|intros selected].
  apply bracketed_silent; [apply silent_make_client|intros []]. apply bracketed_session; [done|].
  intros a s Hs. eapply follows_emit_last; [by apply over_printed|done|done].
Qed.

Lemma bracketed_last {A} selected operation (body : CompanionSession → SelfInfo → cli W A) :
  (∀ session info, logs within (body session info)) → bracketed (with_session host selected operation body).
Proof.
  intros Hbody e. pose proof (bracketed_session selected operation body mret Hbody
    (λ a s Hs, follows_ret s a (λ _ s', over s') Hs) e) as Hb. unfold mbind, cli_bind in Hb.
  by destruct (with_session host selected operation body e) as [[] ?].
Qed.

Lemma work_scope scope : logs within (restore_scope (scoped (scope : option (FloodScope * option rstring)))).
Proof. unfold restore_scope, scoped. work. Qed.
Lemma work_first_failure {A} (operation : CliError + A) restore : logs within (first_failure operation restore : cli W A).
Proof. unfold first_failure. work. Qed.

Lemma work_discovery fuel tag : ∀ seen nodes, logs within (collect_node_discovery fuel tag seen nodes).
Proof.
  induction fuel as [|fuel IH]; intros seen nodes; cbn [collect_node_discovery]; [by apply logs_silent|].
  apply logs_bind; [apply logs_silent, silent_ask|]. intros [event| | |]; try by apply logs_silent.
  destruct event; try apply IH. apply logs_bind; [by apply logs_silent|]. intros [response|]; [|apply IH].
  cbv zeta. case_match; apply IH.
Qed.

Lemma work_channels idxs : ∀ channels, logs within (collect_channels idxs channels).
Proof. induction idxs as [|idx idxs IH]; intros channels; cbn [collect_channels]; [by apply logs_silent|work; apply IH]. Qed.

Lemma work_contact_command args selected listed options : logs within (contact_command host args selected listed options).
Proof.
  unfold contact_command. destruct (Contacts_command options) as [[]|];
    unfold contact_show, contact_update, contact_forget, contact_export, contact_import, contact_list, announce_change,
      contact_updated, contact_path, contact_path_show, contact_path_discover, contact_path_reset, contact_path_set,
      emit_result; work.
Qed.

Lemma bracketed_advertise args options : bracketed (device_advertise host args options).
Proof.
  apply bracketed_silent; [by intros e|intros scope]. apply bracketed_one_session. intros _ _ _.
  apply logs_bind; [work|intros []]. apply logs_bind; [by apply logs_request|intros send].
  apply logs_bind; [apply work_scope|intros restore; apply work_first_failure].
Qed.

Lemma silent_nonce : silent (discovery_request_nonce host : cli W _).
Proof. apply silent_bind; [apply silent_ask|intros [elapsed counter]]. by apply silent_bind. Qed.

Lemma bracketed_discover fuel args options : bracketed (network_discover host fuel args options).
Proof.
  apply bracketed_silent; [by intros e|intros scope]. apply bracketed_silent; [apply silent_nonce|intros tag].
  apply bracketed_one_session. intros _ _ _. apply logs_bind; [work|intros []].
  apply logs_bind; [|intros operation; apply logs_bind; [apply work_scope|intros; apply work_first_failure]].
  apply logs_attempt, logs_bind; [by apply logs_require|intros; apply work_discovery].
Qed.

Lemma bracketed_scope args options : bracketed (network_scope host args options).
Proof.
  pose proof over_at_rest. unfold network_scope. case_match; [by apply bracketed_follows, follows_raise|].
  apply bracketed_silent; [by intros e|intros scope]. apply bracketed_one_session. intros _ _ _.
  unfold scope_action. work.
Qed.

Lemma bracketed_contacts args options : bracketed (contacts host args options).
Proof.
  apply bracketed_silent; [apply silent_select_profile|intros selected].
  apply bracketed_silent; [apply silent_make_client|intros []]. apply bracketed_last. intros session info.
  apply logs_bind; [work|intros; apply work_contact_command].
Qed.

Lemma bracketed_channels args command file : bracketed (channels host args command file).
Proof.
  apply bracketed_silent; [destruct command; auto with mq_silent|intros secret].
  apply bracketed_silent; [apply silent_select_profile|intros selected].
  apply bracketed_silent; [apply silent_make_client|intros []]. apply bracketed_last. intros session info.
  destruct command; unfold channel_list, channel_show, channel_set, channel_remove, emit_result; work; apply work_channels.
Qed.

Lemma follows_connect_command args : follows at_rest (connect_command host args) (λ _ s, over s).
Proof.
  pose proof over_at_rest. pose proof (over_closed Unasked). unfold connect_command.
  apply follows_bind, follows_silent; [apply silent_select_profile|]. intros [selected|error|] _; [|done|done].
  apply follows_bind, follows_silent; [apply silent_from_selected|]. intros [workflow|error|] _; [|done|done].
  apply follows_bind, follows_silent; [apply silent_make_client|]. intros [[]|error|] _; [|done|done].
  apply follows_bind. eapply follows_request; [done..| |].
  { intros error. by apply follows_finish. }
  intros info. apply follows_bind, follows_activate; [|done].
  apply follows_bind, follows_finish_workflow. intros [[]|error|]; [|done|done]. by eapply follows_emit_last.
Qed.
End protocol.

(** Reads and commands of one session, and the trace of a route. *)
Lemma follows_session_commands `{Companion W} host `{ConfigToml} `{Crates} `{HistoryCodec} `{HookJson} `{CliJson} args :
  Forall (λ m : cli W (), follows at_rest m (λ _ s, over s))
    [connect_command host args; device_info host args false; device_info host args true;
     device_telemetry host args; device_reboot host args].
Proof.
  pose proof over_at_rest. repeat constructor.
  - apply follows_connect_command.
  - apply follows_in_one_session. intros _ _ info. apply stays_bind; [by apply stays_require|intros; apply stays_ret].
  - apply follows_in_one_session. intros _ _ info. apply stays_bind; [by apply stays_require|intros; apply stays_ret].
  - apply follows_in_one_session. intros _ _ _. apply stays_bind; [by apply stays_require|]. intros battery.
    apply stays_bind; [by apply stays_require|intros; apply stays_ret].
  - apply follows_bind, follows_silent; [apply silent_confirm|]. intros [[]|error|] _; [|done|done].
    apply follows_in_one_session. intros _ _ _. by apply stays_require.
Qed.
Lemma follows_network_trace `{Companion W} host `{ConfigToml} `{Crates} `{HistoryCodec} `{HookJson} `{CliJson}
    `{UnicodeTables} args options : follows at_rest (network_trace host args options : cli W ()) (λ _ s, over s).
Proof.
  pose proof over_at_rest. unfold network_trace. case_match; [by apply follows_raise|].
  apply follows_bind, follows_lift. intros _. destruct (requested_hash_mode _) as [requested|error|]; [|done|done].
  apply follows_in_one_session. intros _ _ _. apply stays_trace_path.
Qed.

(** C25: the commands of one session keep to its protocol and end with it over.
    [connect], the device commands (info, firmware, telemetry, clock, reboot) and
    [network trace] connect once and announce it, ask only while connected, shut down
    and withdraw exactly once whatever fails, and print their result after that.
    [device advertise], [network discover], [network scope] and the contact and channel
    commands do the same around their work, which never opens, closes or transmits; they
    may print from within it, and the scope they select is not covered. *)
Theorem commands_keep_protocol `{Companion W} host `{ConfigToml} `{Crates} `{HistoryCodec} `{HookJson}
    `{CliJson} `{UnicodeTables} args :
  Forall (λ m : cli W (), follows at_rest m (λ _ s, over s))
    [connect_command host args; device_info host args false; device_info host args true;
     device_telemetry host args; device_reboot host args] ∧
  (∀ options, follows at_rest (device_clock host args options) (λ _ s, over s)) ∧
  (∀ options, follows at_rest (network_trace host args options) (λ _ s, over s)) ∧
  (∀ options, bracketed (device_advertise host args options)) ∧
  (∀ fuel options, bracketed (network_discover host fuel args options)) ∧
  (∀ options, bracketed (network_scope host args options)) ∧
  (∀ options, bracketed (contacts host args options)) ∧
  (∀ command file, bracketed (channels host args command file)).
Proof.
  split_and!.
  - by apply follows_session_commands.
  - apply follows_device_clock.
  - intros options. by apply follows_network_trace.
  - intros. apply bracketed_advertise.
  - intros. apply bracketed_discover.
  - intros. apply bracketed_scope.
  - intros. apply bracketed_contacts.
  - intros. apply bracketed_channels.
Qed.

(** The kinds of [network discover --kind] select the bit after the one of the node
    type with that name. *)
Lemma discovery_filter_bits kind : ∃ node_type,
  discovery_node_type_name node_type = discovery_filter_name (Some kind) ∧
  discovery_filter (Some kind) = Z.shiftl 1 (node_type + 1).
Proof. destruct kind; [exists 0%Z|exists 1%Z|exists 2%Z|exists 3%Z]; by split. Qed.
