(* ===== verification/Watch.v ===== *)
(** * Command line: watching and reconnecting (crates/meshquill-cli/src)

    reconnect.rs, and the event stream of [watch] from runtime.rs: which events are
    shown, how they are redacted, and the loop that follows a session across
    reconnects; and what both guarantee. *)

From S2P Require Import Prelude Text Order Floats Domain Managed Hooks HookRuntime Store History Paths MqttConfig.
From S2P Require Import Config CliOutput CliArgs Suggest Resolve Session CliConfig Workflow Send.

(** ** [ReconnectPolicy] *)

Definition DEVICE_RECONNECT_ATTEMPTS : nat := 3.

(** Durations in nanoseconds; [Duration::MAX]. *)
Definition DURATION_MAX : Z := 2 ^ 64 * 1000000000 - 1.
Record ReconnectPolicy := mkReconnectPolicy { Policy_retry_delay : Z; Policy_maximum_delay : Z }.

Definition delay_before_attempt (self : ReconnectPolicy) (attempt : nat) : Z :=
  let shift := Z.min (Z.of_nat (attempt - 1)) (2 ^ 32 - 1) in
  let multiplier := if (shift <? 32)%Z then Z.shiftl 1 shift else (2 ^ 32 - 1)%Z in
  Z.min (Z.min (Policy_retry_delay self * multiplier) DURATION_MAX) (Policy_maximum_delay self).

Definition reconnect_trigger (error : CoreError) : bool :=
  match error with
  | CoreError_Disconnected => true
  | CoreError_Transport error =>
      match error with
      | TransportError_NotConnected | TransportError_Closed | TransportError_ReconnectFailed _
      | TransportError_Io _ => true
      | _ => false
      end
  | _ => false
  end.

Definition reconnect_attempt_is_retryable (error : CoreError) : bool :=
  match error with
  | CoreError_Disconnected | CoreError_Timeout => true
  | CoreError_Transport error =>
      match error with
      | TransportError_NotConnected | TransportError_Closed | TransportError_Timeout
      | TransportError_ReconnectFailed _ | TransportError_Io _ => true
      | _ => false
      end
  | _ => false
  end.

Definition interrupted_error : CliError := CliError_new Exit_Interrupted "interrupted by user".

(** ** Events as records *)

(** [serde_json::Value]; a message is serialized by its derived implementation. *)
Inductive Value :=
| Value_Null
| Value_Bool (b : bool)
| Value_Number (n : Z)
| Value_String (s : rstring)
| Value_Object (fields : list (string * Value))
| Value_Message (message : Message).

Definition value_option {A} (f : A → Value) (v : option A) : Value := from_option f Value_Null v.
Definition value_length {A} (l : list A) : Value := Value_Number (Z.of_nat (length l)).

Record WatchRecord := mkWatchRecord { WatchRecord_event : string; WatchRecord_data : Value }.
Definition generic_watch_record (event : string) : WatchRecord :=
  mkWatchRecord event (Value_Object [("available", Value_Bool true)]).

Section records.
Context `{Crates}.

Definition watch_record (event : Domain.Event) : WatchRecord :=
  let record name fields := mkWatchRecord name (Value_Object fields) in
  match event with
  | Event_Connected => record "connected" []
  | Event_Disconnected => record "disconnected" []
  | Event_Message message => record "message" [("message", Value_Message message)]
  | Event_Ack ack =>
      record "ack" [("code", Value_String (bytes_hex (Ack_code ack)));
                    ("trip_time_ms", value_option Value_Number (Ack_trip_time_ms ack))]
  | Event_MessageSent destination_type ack_code suggested_timeout_ms =>
      record "message_sent" [("destination_type", Value_Number destination_type);
                             ("ack_code", Value_String (bytes_hex ack_code));
                             ("suggested_timeout_ms", Value_Number suggested_timeout_ms)]
  | Event_Contacts contacts lastmod =>
      record "contacts" [("count", value_length contacts); ("lastmod", Value_Number lastmod)]
  | Event_SelfInfo info =>
      record "self_info" [("name", Value_String (SelfInfo_name info));
                          ("public_key", Value_String (PublicKey_to_hex (SelfInfo_public_key info)))]
  | Event_DeviceInfo info =>
      record "device_info" [("protocol_version", Value_Number (DeviceInfo_protocol_version info));
                            ("model", value_option Value_String (DeviceInfo_model info));
                            ("firmware_version", value_option Value_String (DeviceInfo_firmware_version info))]
  | Event_Battery level used_kb total_kb =>
      record "battery" [("level", Value_Number level); ("used_kb", value_option Value_Number used_kb);
                        ("total_kb", value_option Value_Number total_kb)]
  | Event_ProtocolError message => record "protocol_error" [("message", Value_String message)]
  | Event_InboxEmpty => record "inbox_empty" []
  | Event_MessagesWaiting => record "messages_waiting" []
  | Event_ChannelInfo idx name _ => record "channel_info" [("idx", Value_Number idx); ("name", Value_String name)]
  | Event_CurrentTime value => record "current_time" [("timestamp", Value_Number value)]
  | Event_UnknownPacket code payload =>
      record "unknown_packet" [("code", Value_Number code); ("payload_bytes", value_length payload)]
  | Event_ContactUri _ => record "contact_uri" [("redacted", Value_Bool true)]
  | Event_TuningParams _ => generic_watch_record "tuning_params"
  | Event_CustomVariables _ => generic_watch_record "custom_variables"
  | Event_AdvertPath _ => generic_watch_record "advert_path"
  | Event_DeviceStats _ => generic_watch_record "device_stats"
  | Event_AutoAddConfig _ => generic_watch_record "auto_add_config"
  | Event_AllowedRepeatFrequencies values => record "allowed_repeat_frequencies" [("count", value_length values)]
  | Event_DefaultFloodScope _ => generic_watch_record "default_flood_scope"
  | Event_LoginSucceeded session =>
      record "login_succeeded"
        [("permissions", Value_Number (LoginSession_permissions session));
         ("acl_permissions", value_option Value_Number (LoginSession_acl_permissions session));
         ("firmware_version_level", value_option Value_Number (LoginSession_firmware_version_level session));
         ("server_timestamp", value_option Value_Number (LoginSession_server_timestamp session))]
  | Event_LoginFailed _ => record "login_failed" [("target", Value_String (str_bytes "redacted"))]
  | Event_RemoteStatus status =>
      record "remote_status" [("battery_mv", Value_Number (RemoteStatus_battery_mv status));
                              ("uptime_seconds", Value_Number (RemoteStatus_uptime_seconds status));
                              ("tx_queue_length", Value_Number (RemoteStatus_tx_queue_length status))]
  | Event_Telemetry response =>
      record "telemetry" [("payload_bytes", value_length (TelemetryResponse_payload response))]
  | Event_BinaryResponse response =>
      record "binary_response" [("payload_bytes", value_length (BinaryResponse_payload response))]
  | Event_ControlData data =>
      record "control_data" [("snr_qdb", Value_Number (ControlData_snr_qdb data));
                             ("rssi_dbm", Value_Number (ControlData_rssi data));
                             ("path_len", Value_Number (ControlData_path_len data));
                             ("payload_bytes", value_length (ControlData_payload data))]
  | Event_PathDiscovery path =>
      record "path_discovery" [("outbound_path_bytes", value_length (Path_bytes (PathDiscovery_outbound_path path)));
                               ("inbound_path_bytes", value_length (Path_bytes (PathDiscovery_inbound_path path)))]
  | Event_Signature signature => record "signature" [("signature_bytes", value_length (Signature_bytes signature))]
  end.
End records.

(** [Value::get(field).and_then(Value::as_str)]. *)
Fixpoint find_field (field : string) (fields : list (string * Value)) : option Value :=
  match fields with
  | [] => None
  | (name, v) :: fields => if bool_decide (name = field) then Some v else find_field field fields
  end.
Definition value_get (field : string) (v : Value) : option Value :=
  match v with
  | Value_Object fields => find_field field fields
  | Value_Message message => if bool_decide (field = "text") then Some (Value_String (Message_text message)) else None
  | _ => None
  end.
Definition as_str (v : Value) : option rstring := match v with Value_String s => Some s | _ => None end.

Definition underscores_to_spaces (s : bytes) : bytes := (λ b, if (b =? 0x5f)%Z then 0x20%Z else b) <$> s.

Definition watch_human (record : WatchRecord) : rstring :=
  let event := WatchRecord_event record in
  if bool_decide (event = "message") then
    match (value_get "message" (WatchRecord_data record) ≫= value_get "text") ≫= as_str with
    | Some text => str_bytes "message" ++ [0x09%Z] ++ text
    | None => str_bytes "message"
    end
  else if bool_decide (event = "protocol_error") then
    match value_get "message" (WatchRecord_data record) ≫= as_str with
    | Some message => str_bytes "error" ++ [0x09%Z] ++ message
    | None => str_bytes "protocol error"
    end
  else underscores_to_spaces (str_bytes event).

Definition filter_matches (event : Domain.Event) (filter : WatchEvent) : bool :=
  match filter, event with
  | Watch_Message, Event_Message _ => true
  | Watch_Ack, (Event_Ack _ | Event_MessageSent _ _ _) => true
  | Watch_Contact, Event_Contacts _ _ => true
  | Watch_Connection, (Event_Connected | Event_Disconnected) => true
  | Watch_Telemetry, (Event_Battery _ _ _ | Event_DeviceStats _ | Event_Telemetry _ | Event_RemoteStatus _) => true
  | Watch_Error, (Event_ProtocolError _ | Event_UnknownPacket _ _ | Event_LoginFailed _) => true
  | _, _ => false
  end.
Definition event_matches (event : Domain.Event) (filters : list WatchEvent) : bool :=
  match filters with [] => true | _ => existsb (filter_matches event) filters end.

Section watch.
Context `{Companion W} (host : Host).
Context `{ConfigToml} `{Crates} `{HistoryCodec} `{HookJson} `{CliJson} `{UnicodeTables}.

(** ** [reconnect_device] *)

Definition reconnect_attempt (policy : ReconnectPolicy) (attempt : nat) : cli W (CoreError + SelfInfo) :=
  interrupted ← (if 0 <? attempt then ask (comp_sleep (delay_before_attempt policy attempt)) else mret false);
  if interrupted : bool then raise interrupted_error
  else
    result ← select_request ActorCommand_Reconnect;
    match result with
    | None => _ ← cancel_pending; raise interrupted_error
    | Some result => mret result
    end.

(** The attempts from [attempt] on. *)
Fixpoint reconnect_from (remaining : nat) (policy : ReconnectPolicy) (attempt : nat) : cli W SelfInfo :=
  match remaining with
  | O => raise (CliError_new Exit_Connection "bounded companion reconnect attempts were exhausted")
  | S remaining =>
      result ← reconnect_attempt policy attempt;
      match result with
      | inr info => mret info
      | inl error =>
          if reconnect_attempt_is_retryable error && (attempt + 1 <? DEVICE_RECONNECT_ATTEMPTS) then
            reconnect_from remaining policy (attempt + 1)
          else raise (cli_of_core error)
      end
  end.
Definition reconnect_device (policy : ReconnectPolicy) : cli W SelfInfo :=
  reconnect_from DEVICE_RECONNECT_ATTEMPTS policy 0.

(** ** [watch_events] *)

Definition emit_diagnostic (args : Cli) (message : string) : cli W () :=
  if Cli_quiet args then mret ()
  else ignore (write_stderr (str_bytes ("diagnostic: " +:+ message) ++ [0x0a%Z]) prompt_error).

Record WatchState := mkWatchState {
  Watch_device_name : rstring;
  Watch_connected : bool;
  Watch_awaiting : bool;
  Watch_emitted : nat
}.

Section loop.
Context (args : Cli) (filters : list WatchEvent) (count : option usize) (policy : ReconnectPolicy).
Context (workflow : WorkflowServices).

Definition more (st : WatchState) : bool := from_option (λ limit, Watch_emitted st <? limit) true count.

(** [if workflow_connected { cleanup_workflow(..) } else { client.shutdown() }]. *)
Definition watch_cleanup (connected_ : bool) (reason : string) : cli W () :=
  if connected_ then cleanup_workflow host workflow reason else _ ← shutdown; mret ().

(** What the workflow makes of an event: whether it is withheld, and whether the
    workflow is connected afterwards.  A failure has not been cleaned up. *)
Definition watch_notify (event : Domain.Event) (st : WatchState) : cli W (bool * bool * (CliError + ())) :=
  let connected_ := Watch_connected st in
  match event with
  | Event_Message message =>
      r ← attempt (incoming host workflow message Live);
      mret (match r with
            | inr (Some _) => (false, connected_, inr ())
            | inr None => (true, connected_, inr ())
            | inl error => (false, connected_, inl error)
            end)
  | Event_Disconnected =>
      if connected_ then
        r ← attempt (disconnected host workflow "device event"); mret (false, false, r)
      else mret (false, connected_, inr ())
  | Event_Connected =>
      if connected_ then mret (false, connected_, inr ())
      else
        r ← attempt (activate_workflow host workflow (Watch_device_name st) "watch reconnect hook failed");
        mret (false, match r with inr _ => true | inl _ => false end, r)
  | Event_ProtocolError _ | Event_UnknownPacket _ _ | Event_LoginFailed _ =>
      r ← attempt (workflow_error host "watch" "the device emitted an error event");
      mret (false, connected_, r)
  | _ => mret (false, connected_, inr ())
  end.

Definition watch_show (event : Domain.Event) (st : WatchState) : cli W WatchState :=
  if event_matches event filters then
    let record := watch_record event in
    shown ← attempt (emit_event (Cli_output args) "event" record (watch_human record));
    match shown with
    | inl error => _ ← watch_cleanup (Watch_connected st) "watch output failed"; raise error
    | inr _ =>
        mret (mkWatchState (Watch_device_name st) (Watch_connected st) (Watch_awaiting st) (Watch_emitted st + 1))
    end
  else mret st.

Definition watch_reconnect (st : WatchState) : cli W WatchState :=
  r ← attempt (reconnect_device policy);
  match r with
  | inr info =>
      _ ← activate_workflow host workflow (SelfInfo_name info) "watch reconnect hook failed";
      mret (mkWatchState (SelfInfo_name info) true true (Watch_emitted st))
  | inl error =>
      _ ← shutdown;
      cancelled ← is_cancelled;
      if cancelled : bool then error ← interrupt_error; raise error else raise error
  end.

Definition is_disconnected (event : Domain.Event) : bool :=
  match event with Event_Disconnected => true | _ => false end.
Definition is_connected_event (event : Domain.Event) : bool :=
  match event with Event_Connected => true | _ => false end.

Definition watch_event (event : Domain.Event) (st : WatchState) : cli W WatchState :=
  if Watch_awaiting st && is_disconnected event then mret st
  else
    let awaiting := if Watch_awaiting st && is_connected_event event then false else Watch_awaiting st in
    '(suppress, connected_, r) ← watch_notify event st;
    match r with
    | inl error => _ ← watch_cleanup connected_ "watch workflow failed"; raise error
    | inr _ =>
        let st := mkWatchState (Watch_device_name st) connected_ awaiting (Watch_emitted st) in
        st ← (if suppress : bool then mret st else watch_show event st);
        if is_disconnected event && more st then watch_reconnect st else mret st
    end.

(** The loop, with a bound on its turns. *)
Fixpoint watch_loop (fuel : nat) (st : WatchState) : cli W WatchState :=
  if negb (more st) then mret st
  else
    match fuel with
    | O => lift Panic
    | S fuel =>
        received ← ask comp_select_event;
        match received with
        | None =>
            _ ← watch_cleanup (Watch_connected st) "interrupted";
            error ← interrupt_error; raise error
        | Some (Received_Event event) => st ← watch_event event st; watch_loop fuel st
        | Some (Received_Lagged skipped) =>
            _ ← emit_diagnostic args
                  ("event consumer lagged; " +:+ pretty skipped +:+ " bounded event(s) were skipped");
            watch_loop fuel (mkWatchState (Watch_device_name st) (Watch_connected st) false (Watch_emitted st))
        | Some Received_Deadline => watch_loop fuel st
        | Some Received_Closed =>
            _ ← watch_cleanup (Watch_connected st) "event stream closed";
            raise (CliError_new Exit_Connection "the device event stream closed")
        end
    end.
End loop.

Definition watch_events (fuel : nat) (args : Cli) (filters : list WatchEvent) (count : option usize) : cli W () :=
  selected ← select_profile host args;
  let policy := mkReconnectPolicy (retry_timeout selected) (connect_timeout selected) in
  workflow ← from_selected host selected;
  _ ← make_client selected;
  connect_result ← select_request ActorCommand_Connect;
  match connect_result with
  | None => _ ← cancel_pending; _ ← shutdown; error ← interrupt_error; raise error
  | Some (inl error) => finish (inl error)
  | Some (inr info) =>
      _ ← activate_workflow host workflow (SelfInfo_name info) "watch connection hook failed";
      st ← watch_loop args filters count policy workflow fuel (mkWatchState (SelfInfo_name info) true false 0);
      if Watch_connected st then finish_workflow host workflow "command completed" else finish (inr ())
  end.

Definition watch (fuel : nat) (args : Cli) (options : WatchArgs) : cli W () :=
  watch_events fuel args (Watch_events options) (Watch_count options).
Definition watch_connection (fuel : nat) (args : Cli) : cli W () :=
  watch_events fuel args [Watch_Connection] None.
End watch.

(** * Command line: what watching guarantees

    Reconnecting is bounded and sends nothing but the handshake; and [watch] keeps
    the hooks balanced across reconnects and shuts down exactly once. *)

Section reconnect.
Context `{Companion W}.

Definition attempts (failed : nat) (ok : bool) : list Event :=
  replicate failed (Ev_Request ActorCommand_Reconnect false)
    ++ (if ok then [Ev_Request ActorCommand_Reconnect true] else []).

Lemma reconnect_from_attempts policy rest : ∀ attempt e,
  let '(r, e') := reconnect_from rest policy attempt e in
  ∃ failed, Env_log e' = Env_log e ++ attempts failed (is_Ok r) ∧
            failed + (if is_Ok r then 1 else 0) ≤ rest ∧ r ≠ Panic.
Proof.
  induction rest as [|rest IH]; intros attempt e.
  { exists 0. simpl. rewrite app_nil_r. split_and!; [done|lia|done]. }
  assert (∀ error, ∃ failed, Env_log e = Env_log e ++ attempts failed (is_Ok (Err error : outcome CliError SelfInfo)) ∧
    failed + (if is_Ok (Err error : outcome CliError SelfInfo) then 1 else 0) ≤ S rest ∧
    (Err error : outcome CliError SelfInfo) ≠ Panic) as Hnone.
  { intros error. exists 0. simpl. rewrite app_nil_r. split_and!; [done|lia|done]. }
  assert (∀ e0, Env_log e0 = Env_log e →
    let '(r, e') := (result ← select_request ActorCommand_Reconnect;
                     result ← match result with
                              | None => _ ← cancel_pending; raise interrupted_error
                              | Some result => mret result
                              end;
                     match result with
                     | inr info => mret info
                     | inl error =>
                         if reconnect_attempt_is_retryable error && (attempt + 1 <? DEVICE_RECONNECT_ATTEMPTS) then
                           reconnect_from rest policy (attempt + 1)
                         else raise (cli_of_core error)
                     end) e0 in
    ∃ failed, Env_log e' = Env_log e ++ attempts failed (is_Ok r) ∧
              failed + (if is_Ok r then 1 else 0) ≤ S rest ∧ r ≠ Panic) as Htry.
  { intros e0 He0. unfold select_request, mbind, cli_bind.
    destruct (comp_select ActorCommand_Reconnect (Env_world e0)) as [[[error|info]|] w]; simpl.
    - destruct (reconnect_attempt_is_retryable error && _).
      + specialize (IH (attempt + 1) (log (Ev_Request ActorCommand_Reconnect false) (with_world w e0))).
        destruct (reconnect_from rest policy (attempt + 1) _) as [r e'].
        destruct IH as (failed & Hl & Hn & Hp). exists (S failed). rewrite Hl. simpl. rewrite He0, <- app_assoc.
        split_and!; [done|lia|done].
      + exists 1. simpl. rewrite He0. split_and!; [done|lia|done].
    - exists 0. simpl. rewrite He0. split_and!; [done|lia|done].
    - exists 1. simpl. rewrite He0. split_and!; [done|lia|done]. }
  cbn [reconnect_from]. unfold reconnect_attempt.
  destruct (0 <? attempt).
  - unfold mbind at 1 2, cli_bind at 1 2. unfold ask. destruct (comp_sleep _ (Env_world e)) as [[] w].
    + apply Hnone.
    + specialize (Htry (with_world w e) eq_refl).
      unfold mbind, cli_bind in *. destruct (select_request ActorCommand_Reconnect (with_world w e)) as [[]]; exact Htry.
  - specialize (Htry e eq_refl). unfold mbind, cli_bind in *. simpl in *.
    destruct (select_request ActorCommand_Reconnect e) as [[]]; exact Htry.
Qed.

Lemma follows_reconnect_device `{Automaton St} policy (s : St) (Q : outcome CliError SelfInfo → St → Prop) :
  (∀ ok, step_event s (Ev_Request ActorCommand_Reconnect ok) = Some s) → (∀ r, Q r s) →
  follows s (reconnect_device policy) Q.
Proof.
  intros Hp HQ e. pose proof (reconnect_from_attempts policy DEVICE_RECONNECT_ATTEMPTS 0 e) as Hr.
  unfold reconnect_device. destruct (reconnect_from _ policy 0 e) as [r e']. destruct Hr as (failed & Hl & _).
  exists (attempts failed (is_Ok r)), s. split_and!; [done| |auto].
  unfold attempts. rewrite advance_app.
  assert (advance s (replicate failed (Ev_Request ActorCommand_Reconnect false)) = Some s) as ->.
  { clear Hl. induction failed as [|n IH]; [done|]. cbn [replicate advance]. rewrite Hp. exact IH. }
  destruct (is_Ok r); [|done]. cbn [mbind option_bind advance]. by rewrite Hp.
Qed.
End reconnect.

Lemma delay_bounded policy attempt : (delay_before_attempt policy attempt <= Policy_maximum_delay policy)%Z.
Proof. unfold delay_before_attempt. lia. Qed.

(** Reconnecting is bounded and replays nothing.  A reconnect tries at most three
    times, waits no longer than the connect timeout before an attempt, stops at the
    first attempt that succeeds, and sends no command but the reconnect itself, so
    nothing the user did is sent again. *)
Theorem reconnect_bounded `{Companion W} policy (e : Env W) :
  let '(r, e') := reconnect_device policy e in
  (∃ failed, Env_log e' = Env_log e ++ replicate failed (Ev_Request ActorCommand_Reconnect false)
               ++ (if is_Ok r then [Ev_Request ActorCommand_Reconnect true] else []) ∧
             failed + (if is_Ok r then 1 else 0) ≤ 3 ∧ r ≠ Panic) ∧
  ∀ attempt, (delay_before_attempt policy attempt <= Policy_maximum_delay policy)%Z.
Proof.
  pose proof (reconnect_from_attempts policy DEVICE_RECONNECT_ATTEMPTS 0 e) as Hr. unfold reconnect_device.
  destruct (reconnect_from _ policy 0 e) as [r e']. split; [exact Hr|apply delay_bounded].
Qed.

(** ** The stream *)

Section stream.
Context `{Companion W} (host : Host).
Context `{ConfigToml} `{Crates} `{HistoryCodec} `{HookJson} `{CliJson} `{UnicodeTables}.
Context (args : Cli) (filters : list WatchEvent) (count : option usize) (policy : ReconnectPolicy).
Context (workflow : WorkflowServices).

(** The device is gone and the announcement withdrawn. *)
Definition lost : Stage := mkStage true false false false false Unasked.

(** Where the loop may be: announced as the state says, and without a connection only
    once enough was shown. *)
Definition watching (st : WatchState) (s : Stage) : Prop :=
  (Watch_connected st = true ∧ s = in_session) ∨
  (Watch_connected st = false ∧ more count st = false ∧ s = lost).
Definition tracked (connected_ : bool) : Stage := if connected_ then in_session else lost.

Lemma follows_watch_cleanup connected_ reason (Q : outcome CliError () → Stage → Prop) :
  Q (Ok ()) (mkStage false true false false false Unasked) →
  follows (tracked connected_) (watch_cleanup host workflow connected_ reason) Q.
Proof.
  intros HQ. destruct connected_; simpl; [by apply follows_cleanup_workflow|].
  apply follows_bind, follows_shutdown; [done..|]. intros r. by apply follows_ret.
Qed.

(** Giving up from either stage. *)
Lemma follows_watch_stop {A} connected_ reason error (K : A → Stage → Prop) :
  follows (tracked connected_) (_ ← watch_cleanup host workflow connected_ reason; raise error : cli W A) (or_over K).
Proof. apply follows_bind, follows_watch_cleanup, follows_raise, closed_over. Qed.

Lemma follows_watch_notify event st : Watch_connected st = true →
  follows in_session (watch_notify host workflow event st)
    (or_over (λ '(suppress, connected_, r) s, s = tracked connected_ ∧ connected_ = negb (is_disconnected event))).
Proof.
  intros Hc. unfold watch_notify. rewrite Hc.
  assert (∀ m : cli W (), follows in_session m (λ _ s, s = in_session) → is_disconnected event = false →
    follows in_session (r ← attempt m; mret (false, true, r))
      (or_over (λ '(suppress, connected_, r) s, s = tracked connected_ ∧ connected_ = negb (is_disconnected event)))) as Hkeep.
  { intros m Hm He. apply follows_bind, follows_attempt. eapply follows_mono; [done|].
    intros [[]|error|] s ->; [| |done]; apply follows_ret; simpl; by rewrite He. }
  destruct event; try (by apply follows_ret);
    try (apply Hkeep; [|done]; by eapply follows_notify).
  - apply follows_bind, follows_attempt, follows_disconnected; [done|]. intros [[]|error|]; [by apply follows_ret..|done].
  - apply follows_bind, follows_attempt, follows_incoming; [done|]. intros [[id|]|error|]; [by apply follows_ret..|done].
Qed.

Lemma follows_watch_show event st : follows (tracked (Watch_connected st)) (watch_show host args filters workflow event st)
  (or_over (λ st' s, s = tracked (Watch_connected st) ∧ Watch_connected st' = Watch_connected st)).
Proof.
  unfold watch_show. destruct (event_matches event filters); [|by apply follows_ret].
  apply follows_bind, follows_attempt. eapply follows_emit_last; [done| |].
  - intros error. apply follows_watch_stop.
  - by apply follows_ret.
Qed.

Lemma follows_watch_reconnect st : follows lost (watch_reconnect host policy workflow st) (or_over watching).
Proof.
  apply follows_bind, follows_attempt, follows_reconnect_device; [done..|]. intros [info|error|]; [| |done].
  - apply follows_bind, follows_activate; [|intros; apply closed_over]. apply follows_ret. by left.
  - apply follows_bind, follows_shutdown; [done..|]. intros r. apply follows_ask. intros [|].
    + apply follows_interrupt_error. intros error'. apply follows_raise, closed_over.
    + apply follows_raise, closed_over.
Qed.

Lemma follows_watch_event event st : Watch_connected st = true →
  follows in_session (watch_event host args filters count policy workflow event st) (or_over watching).
Proof.
  intros Hc. unfold watch_event. destruct (Watch_awaiting st && is_disconnected event).
  { apply follows_ret. by left. }
  apply follows_bind. eapply follows_mono; [by apply follows_watch_notify|].
  intros [[[suppress connected_] r]|error|] s Hs; [|done|done]. destruct Hs as [-> Hd].
  destruct r as [error|[]]; [apply follows_watch_stop|]. cbv zeta.
  set (st1 := mkWatchState _ connected_ _ _). apply follows_bind.
  apply follows_mono with (Q := or_over (λ st' s, s = tracked connected_ ∧ Watch_connected st' = connected_)).
  { destruct suppress; [by apply follows_ret|]. apply (follows_watch_show event st1). }
  intros [st2|error|] s Hs; [|done|done]. destruct Hs as [-> Hc2]. rewrite Hd in *. clear Hd.
  destruct (is_disconnected event); simpl in *; [|apply follows_ret; by left].
  destruct (more count st2) eqn:Hm; [apply follows_watch_reconnect|]. apply follows_ret. by right.
Qed.

Lemma follows_diagnostic {A} s message (k : () → cli W A) (Q : outcome CliError A → Stage → Prop) :
  follows s (k ()) Q → follows s (emit_diagnostic args message ≫= k) Q.
Proof.
  intros Hk. apply follows_bind. unfold emit_diagnostic. destruct (Cli_quiet args); [by apply follows_ret|].
  apply follows_ignore, follows_silent; [apply silent_write_stderr|]. done.
Qed.

Lemma follows_watch_loop fuel : ∀ st, Watch_connected st = true →
  follows in_session (watch_loop host args filters count policy workflow fuel st) (or_over watching).
Proof.
  induction fuel as [|fuel IH]; intros st Hc; cbn [watch_loop].
  { destruct (more count st); simpl; [by apply follows_lift|]. apply follows_ret. by left. }
  destruct (more count st); simpl; [|apply follows_ret; by left].
  apply follows_ask. rewrite Hc. intros [[event|skipped| |]|].
  - apply follows_bind. eapply follows_mono; [by apply follows_watch_event|].
    intros [st'|error|] s Hs; [|done|done]. destruct Hs as [[Hc' ->]|(Hc' & Hm & ->)]; [by apply IH|].
    destruct fuel; cbn [watch_loop]; rewrite Hm; apply follows_ret; by right.
  - apply follows_diagnostic. by apply IH.
  - apply (follows_watch_stop true).
  - by apply IH.
  - apply follows_bind, (follows_watch_cleanup true). apply follows_interrupt_error. intros error.
    apply follows_raise, closed_over.
Qed.
End stream.

Lemma follows_watch_events `{Companion W} host `{ConfigToml} `{Crates} `{HistoryCodec} `{HookJson}
    `{CliJson} `{UnicodeTables} fuel args filters count :
  follows at_rest (watch_events (W := W) host fuel args filters count) (λ _ s, over s).
Proof.
  pose proof over_at_rest. pose proof (over_closed Unasked). unfold watch_events.
  apply follows_bind, follows_silent; [apply silent_select_profile|]. intros [selected|error|] _; [|done|done].
  apply follows_bind, follows_silent; [apply silent_from_selected|]. intros [workflow|error|] _; [|done|done].
  apply follows_bind, follows_silent; [apply silent_make_client|]. intros [[]|error|] _; [|done|done].
  apply follows_bind. eapply follows_select; [done..| | |].
  - apply follows_ask. intros []. apply follows_bind, follows_shutdown; [done..|]. intros r.
    apply follows_interrupt_error. intros error. by apply follows_raise.
  - intros error. by apply follows_finish.
  - intros info. apply follows_bind, follows_activate; [|done]. apply follows_bind.
    eapply follows_mono; [by apply follows_watch_loop|]. intros [st|error|] s Hs; [|by destruct Hs|done].
    destruct Hs as [[-> ->]|(-> & _ & ->)]; [by apply follows_finish_workflow|by apply follows_finish].
Qed.

(** C17: [watch] stays balanced across reconnects.  However often the device drops the
    link, whatever the hooks answer, and wherever the command is interrupted, each
    announcement of a connection is withdrawn before the next one, nothing is
    announced when the command ends, the client is shut down exactly once, after a
    failed connection too, and nothing but the stream is printed while a connection is
    open or announced. *)
Theorem watch_keeps_protocol `{Companion W} host `{ConfigToml} `{Crates} `{HistoryCodec} `{HookJson}
    `{CliJson} `{UnicodeTables} fuel args filters count :
  follows at_rest (watch_events (W := W) host fuel args filters count) (λ _ s, over s).
Proof. by apply follows_watch_events. Qed.
