(* ===== verification/Doctor.v ===== *)
(** * Command line: discovery and diagnosis (crates/meshquill-cli/src/runtime.rs)

    [devices] lists what the providers and the configuration offer; [doctor] checks
    the configuration, the providers and, if asked, the handshake.  The providers'
    answers are parameters. *)

From S2P Require Import Prelude Text Order Floats Domain Transport Discovery Managed Hooks HookRuntime Store History.
From S2P Require Import Paths MqttConfig Config CliOutput CliArgs Suggest Resolve Session CliConfig Workflow Send Watch.

Record ProviderDiagnostic := mkProviderDiagnostic {
  Diagnostic_provider : string;
  Diagnostic_status : string;
  Diagnostic_detail : string
}.
Record DiscoveryReport := mkDiscoveryReport {
  Discovery_devices : list DiscoveredDevice;
  Discovery_mock_profiles : list rstring;
  Discovery_diagnostics : list ProviderDiagnostic
}.
Record DiscoveryCollection := mkCollection {
  Collection_devices : list DiscoveredDevice;
  Collection_mock_profiles : list rstring;
  Collection_diagnostics : list ProviderDiagnostic;
  Collection_provider_successes : nat
}.
Definition Collection_default : DiscoveryCollection := mkCollection [] [] [] 0.

Definition add_diagnostic (d : ProviderDiagnostic) (c : DiscoveryCollection) : DiscoveryCollection :=
  mkCollection (Collection_devices c) (Collection_mock_profiles c) (Collection_diagnostics c ++ [d])
    (Collection_provider_successes c).

Definition add_physical (provider noun : string) (result : outcome DiscoveryError (list DiscoveredDevice))
    (c : DiscoveryCollection) : DiscoveryCollection :=
  match result with
  | Ok found =>
      mkCollection (Collection_devices c ++ found) (Collection_mock_profiles c)
        (Collection_diagnostics c
           ++ [mkProviderDiagnostic provider "ok" (pretty (length found) +:+ " " +:+ noun +:+ "(s) observed")])
        (Collection_provider_successes c + 1)
  | Err error => add_diagnostic (mkProviderDiagnostic provider "error" (display_DiscoveryError error)) c
  | Panic => c
  end.

(** One profile of the configuration. *)
Definition add_configured (want_tcp want_mock : bool) (c : DiscoveryCollection) (entry : rstring * DeviceProfile) :
    DiscoveryCollection :=
  let '(name, profile) := entry in
  match DeviceProfile_transport profile with
  | Transport_Tcp host port =>
      if want_tcp then
        match manual_tcp_device (bytes_str host) port with
        | Ok device =>
            let note := "Configured by profile '" +:+ bytes_str name +:+ "'; no reachability claim was made." in
            let device := mkDiscovered (Discovered_id device) (Discovered_display_name device)
              (Discovered_transport device) (Discovered_target device) (Discovered_address device)
              (Discovered_port device) (Discovered_rssi device) (Discovered_notes device ++ [note]) in
            mkCollection (Collection_devices c ++ [device]) (Collection_mock_profiles c) (Collection_diagnostics c)
              (Collection_provider_successes c)
        | Err error => add_diagnostic (mkProviderDiagnostic "configured_tcp" "error" (display_TargetError error)) c
        | Panic => c
        end
      else c
  | Transport_Mock scenario =>
      if want_mock then
        mkCollection (Collection_devices c) (Collection_mock_profiles c ++ [name ++ str_bytes ":" ++ scenario])
          (Collection_diagnostics c) (Collection_provider_successes c)
      else c
  | _ => c
  end.

Definition configured_devices (want_tcp want_mock : bool) (config : Config) (c : DiscoveryCollection) :
    DiscoveryCollection :=
  let c := mkCollection (Collection_devices c) (Collection_mock_profiles c) (Collection_diagnostics c)
             (Collection_provider_successes c + 1) in
  let c := fold_left (add_configured want_tcp want_mock) (btree_to_list (Config_device_profiles config)) c in
  add_diagnostic (mkProviderDiagnostic (if want_mock then "configured_mock" else "configured_tcp") "ok"
                    "configuration inspected without opening endpoints") c.

Definition validate_discovery_result (provider_successes : nat) (found_any : bool) : outcome CliError () :=
  if provider_successes =? 0 then Err (CliError_new Exit_Discovery "every requested discovery provider failed")
  else if negb found_any then
    Err (with_hint (CliError_new Exit_Discovery "no requested devices or configured endpoints were found")
           "Connect a companion, broaden --transport, or initialize a profile.")
  else Ok ().

Definition transport_kind_name (kind : TransportKind) : string :=
  match kind with
  | TransportKind_Ble => "ble"
  | TransportKind_Serial => "serial"
  | TransportKind_Tcp => "tcp"
  | TransportKind_Scripted => "mock"
  | TransportKind_Unknown => "unknown"
  end.

Definition discovery_human (devices : list DiscoveredDevice) (mock_profiles : list rstring) : rstring :=
  let lines := ((λ device, str_bytes (transport_kind_name (Discovered_transport device)) ++ [0x09%Z]
                             ++ str_bytes (Discovered_display_name device) ++ [0x09%Z]
                             ++ str_bytes (Discovered_id device)) <$> devices)
               ++ ((λ profile, str_bytes "mock" ++ [0x09%Z] ++ profile ++ [0x09%Z]
                                 ++ str_bytes "explicit demo profile") <$> mock_profiles) in
  join_lines (match lines with [] => [str_bytes "No devices found."] | _ => lines end).

(** ** [doctor] *)

Record DoctorCheck := mkDoctorCheck { Check_name : string; Check_status : string; Check_detail : string }.
Record DoctorReport := mkDoctorReport {
  Doctor_healthy : bool;
  Doctor_repaired : bool;
  Doctor_checks : list DoctorCheck
}.
Record ConfigDiagnosis := mkConfigDiagnosis {
  Diagnosis_healthy : bool;
  Diagnosis_repaired : bool;
  Diagnosis_checks : list DoctorCheck
}.

Definition OLDEST_KNOWN_DEVICE_INFO_LEVEL : u8 := 3.
Definition NEWEST_KNOWN_DEVICE_INFO_LEVEL : u8 := 10.
Inductive FirmwareCompatibility := Compatibility_Legacy | Compatibility_Known | Compatibility_Newer.

Definition classify_firmware_compatibility (protocol_level : u8) : FirmwareCompatibility :=
  if (protocol_level <? OLDEST_KNOWN_DEVICE_INFO_LEVEL)%Z then Compatibility_Legacy
  else if (protocol_level <=? NEWEST_KNOWN_DEVICE_INFO_LEVEL)%Z then Compatibility_Known
  else Compatibility_Newer.

Definition firmware_compatibility_check (info : DeviceInfo) : DoctorCheck :=
  let level := pretty (DeviceInfo_protocol_version info) in
  let text v := from_option bytes_str "unknown" v in
  let identity := "firmware '" +:+ text (DeviceInfo_firmware_version info) +:+ "', model '"
                    +:+ text (DeviceInfo_model info) +:+ "'" in
  match classify_firmware_compatibility (DeviceInfo_protocol_version info) with
  | Compatibility_Legacy =>
      mkDoctorCheck "firmware_compatibility" "warning"
        ("DEVICE_INFO protocol level " +:+ level
           +:+ " is legacy; only reduced capability information is available (" +:+ identity +:+ ")")
  | Compatibility_Known =>
      mkDoctorCheck "firmware_compatibility" "ok"
        ("DEVICE_INFO protocol level " +:+ level +:+ " has a known layout (" +:+ identity +:+ ")")
  | Compatibility_Newer =>
      mkDoctorCheck "firmware_compatibility" "warning"
        ("DEVICE_INFO protocol level " +:+ level +:+ " is newer than known level "
           +:+ pretty NEWEST_KNOWN_DEVICE_INFO_LEVEL +:+ "; known fields were read from " +:+ identity
           +:+ ", extension fields were ignored, and full compatibility is not claimed")
  end.

Definition format_cli_error (context : string) (error : CliError) : string :=
  match CliError_hint error with
  | Some hint => context +:+ ": " +:+ CliError_message error +:+ "; hint: " +:+ hint
  | None => context +:+ ": " +:+ CliError_message error
  end.
Definition failed_handshake_check (error : CliError) : DoctorCheck :=
  mkDoctorCheck "handshake" "error" (format_cli_error "APP_START failed" error).
Definition failed_firmware_compatibility_check (error : CliError) : DoctorCheck :=
  mkDoctorCheck "firmware_compatibility" "error" (format_cli_error "DEVICE_QUERY failed" error).

Definition provider_check (name success_before success_after : string)
    (result : outcome DiscoveryError (list DiscoveredDevice)) : list DoctorCheck :=
  match result with
  | Ok devices => [mkDoctorCheck name "ok" (success_before +:+ pretty (length devices) +:+ success_after)]
  | Err error => [mkDoctorCheck name "warning" (display_DiscoveryError error)]
  | Panic => []
  end.

Definition loaded_check (store : ConfigStore) (loaded : CliError + LoadOutcome) : DoctorCheck :=
  let path := ConfigStore_path store in
  match loaded with
  | inr (Load_Loaded _) =>
      mkDoctorCheck "configuration" "ok" ("current configuration loaded from " +:+ path)
  | inr (Load_NeedsMigration _) =>
      mkDoctorCheck "configuration" "warning" "configuration is valid but needs `meshquill config migrate`"
  | inr Load_Missing => mkDoctorCheck "configuration" "error" ("configuration is missing at " +:+ path)
  | inl error => mkDoctorCheck "configuration" "error" (CliError_message error)
  end.
Definition loads (loaded : CliError + LoadOutcome) : bool :=
  match loaded with inr (Load_Loaded _) | inr (Load_NeedsMigration _) => true | _ => false end.

Section commands.
Context `{Companion W} (host : Host).
Context `{ConfigToml} `{Crates} `{HistoryCodec} `{HookJson} `{CliJson} `{UnicodeTables}.
Context (discover_ble : Z → W → outcome DiscoveryError (list DiscoveredDevice) * W).
Context (discover_serial : W → outcome DiscoveryError (list DiscoveredDevice) * W).

Definition wants (options : DevicesArgs) (choice : TransportChoice) : bool :=
  from_option (λ c, bool_decide (c = choice)) true (Devices_transport options).

Definition discover_physical (options : DevicesArgs) (c : DiscoveryCollection) : cli W DiscoveryCollection :=
  c ← (if wants options Choice_Ble then
         r ← ask (discover_ble (Devices_scan_timeout options)); mret (add_physical "ble" "compatible device" r c)
       else mret c);
  if wants options Choice_Serial then
    r ← ask discover_serial; mret (add_physical "serial" "candidate port" r c)
  else mret c.

Definition discover_configured (args : Cli) (options : DevicesArgs) (c : DiscoveryCollection) :
    cli W DiscoveryCollection :=
  let want_tcp := wants options Choice_Tcp in
  let want_mock := bool_decide (Devices_transport options = Some Choice_Mock) in
  if want_tcp || want_mock then
    store ← config_store host args;
    loaded ← attempt (load_unmodified host store);
    mret (match loaded with
          | inr (Load_Loaded config) | inr (Load_NeedsMigration config) =>
              configured_devices want_tcp want_mock config c
          | inr Load_Missing =>
              add_diagnostic (mkProviderDiagnostic "configuration" "error"
                                ("no configuration at " +:+ ConfigStore_path store)) c
          | inl error => add_diagnostic (mkProviderDiagnostic "configuration" "error" (CliError_message error)) c
          end)
  else mret c.

Fixpoint emit_errors (args : Cli) (diagnostics : list ProviderDiagnostic) : cli W () :=
  match diagnostics with
  | [] => mret ()
  | d :: diagnostics =>
      _ ← (if bool_decide (Diagnostic_status d = "error") then
             emit_diagnostic args (Diagnostic_provider d +:+ " discovery: " +:+ Diagnostic_detail d)
           else mret ());
      emit_errors args diagnostics
  end.

Definition devices (args : Cli) (options : DevicesArgs) : cli W () :=
  c ← discover_physical options Collection_default;
  c ← discover_configured args options c;
  _ ← emit_errors args (Collection_diagnostics c);
  let devices := sort_by id_leb (Collection_devices c) in
  let mock_profiles := sort_by bytes_leb (Collection_mock_profiles c) in
  let found_any := negb (bool_decide (length devices = 0) && bool_decide (length mock_profiles = 0)) in
  _ ← emit_result (Cli_output args) "devices" (mkDiscoveryReport devices mock_profiles (Collection_diagnostics c))
        (discovery_human devices mock_profiles);
  lift (validate_discovery_result (Collection_provider_successes c) found_any).

Definition diagnose_configuration (args : Cli) (repair_requested : bool) : cli W ConfigDiagnosis :=
  store ← config_store host args;
  loaded ← attempt (load_unmodified host store);
  let healthy := loads loaded in
  let checks := [loaded_check store loaded] in
  '(healthy, repaired, checks) ←
    (if repair_requested && negb healthy then
       _ ← confirm host args "back up and repair the selected configuration";
       clock ← ask comp_clock;
       outcome_ ← run_fs (repair (Host_tls host) store clock (Host_pid host));
       let detail := match Repair_backup_path outcome_ with
                     | None => "safe defaults created; no source file existed"
                     | Some path => "safe defaults created; source backed up to " +:+ path
                     end in
       mret (true, true, checks ++ [mkDoctorCheck "configuration_repair" "ok" detail])
     else if repair_requested then
       mret (healthy, false,
             checks ++ [mkDoctorCheck "configuration_repair" "ok"
                          "no repair was needed; valid configuration was left unchanged"])
     else mret (healthy, false, checks));
  if healthy : bool then
    overridden ← attempt (load_optional host store);
    match overridden with
    | inl error =>
        mret (mkConfigDiagnosis false repaired
                (checks ++ [mkDoctorCheck "runtime_overrides" "error" (CliError_message error)]))
    | inr _ => mret (mkConfigDiagnosis true repaired checks)
    end
  else mret (mkConfigDiagnosis false repaired checks).

Definition provider_checks (timeout : Z) : cli W (list DoctorCheck) :=
  serial_result ← ask discover_serial;
  ble_result ← ask (discover_ble timeout);
  mret (provider_check "serial_provider" "provider enumerated "
          " candidate(s); OS access is checked only on connect" serial_result
        ++ provider_check "ble_provider" "bounded scan observed "
             " compatible device(s); no permission state was inferred" ble_result).

Definition connection_checks (args : Cli) (connect_requested : bool) : cli W (bool * list DoctorCheck) :=
  if negb connect_requested then mret (true, [])
  else
    made ← attempt (selected ← select_profile host args; _ ← make_client selected; mret selected);
    match made with
    | inl error => mret (false, [failed_handshake_check error])
    | inr selected =>
        connected_ ← request ActorCommand_Connect;
        match connected_ with
        | inl error => _ ← shutdown; mret (false, [failed_handshake_check (cli_of_core error)])
        | inr self_info =>
            let handshake := mkDoctorCheck "handshake" "ok"
              ("APP_START completed for profile '" +:+ bytes_str (Selected_name selected) +:+ "' as "
                 +:+ bytes_str (SelfInfo_name self_info)) in
            device_info ← request ActorCommand_QueryDeviceInfo;
            shutdown_ ← shutdown;
            match device_info, shutdown_ with
            | inl error, _ => mret (false, [handshake; failed_firmware_compatibility_check (cli_of_core error)])
            | inr info, inr _ => mret (true, [handshake; firmware_compatibility_check info])
            | inr info, inl error =>
                mret (false, [handshake; firmware_compatibility_check info;
                              mkDoctorCheck "connection_shutdown" "error"
                                (format_cli_error "graceful connection shutdown failed" (cli_of_core error))])
            end
        end
    end.

Definition check_line (check : DoctorCheck) : rstring :=
  str_bytes (Check_status check) ++ [0x09%Z] ++ str_bytes (Check_name check) ++ [0x09%Z]
    ++ str_bytes (Check_detail check).

Definition doctor (args : Cli) (connect_requested repair_requested : bool) : cli W () :=
  diagnosis ← diagnose_configuration args repair_requested;
  providers ← provider_checks (Cli_timeout args);
  '(connection_healthy, connection) ← connection_checks args connect_requested;
  let checks := Diagnosis_checks diagnosis ++ providers ++ connection in
  let healthy := Diagnosis_healthy diagnosis && connection_healthy in
  _ ← emit_result (Cli_output args) "doctor" (mkDoctorReport healthy (Diagnosis_repaired diagnosis) checks)
        (join_lines (check_line <$> checks));
  if negb healthy then
    raise (CliError_new (if Diagnosis_healthy diagnosis then Exit_Connection else Exit_Configuration)
             "doctor found one or more blocking problems")
  else mret ().
End commands.

(** ** Diagnosis changes nothing *)

Section reading.
Context {W : Type}.

(** Commands and store operations that leave every file as it is. *)
Definition reads_only {A} (m : cli W A) : Prop := ∀ e, Fs_files (Env_fs (m e).2) = Fs_files (Env_fs e).
Definition fs_reads_only {A} (m : fs A) : Prop := ∀ f, Fs_files (m f).2 = Fs_files f.

Lemma fs_reads_bind {A B} (m : fs A) (k : A → fs B) : fs_reads_only m → (∀ a, fs_reads_only (k a)) → fs_reads_only (m ≫= k).
Proof.
  intros Hm Hk f. specialize (Hm f). unfold mbind, fs_bind. destruct (m f) as [[a|e|] f']; simpl in *; [|done|done].
  by rewrite Hk.
Qed.
Lemma fs_reads_step kind : fs_reads_only (fs_step kind).
Proof. intros f. unfold fs_step. by destruct (default Pass (head (Fs_faults f))). Qed.
Lemma fs_reads_exists p : fs_reads_only (fs_exists p).
Proof. done. Qed.
Lemma fs_reads_lift {A} (m : outcome StoreError A) : fs_reads_only (fs_lift m).
Proof. intros f. by destruct m. Qed.

Lemma load_reads_only `{ConfigToml} tls store env : fs_reads_only (load_with_overrides tls store env).
Proof.
  unfold load_with_overrides, config_load_unlocked. apply fs_reads_bind; [apply fs_reads_exists|intros present].
  destruct (negb present); [done|]. apply fs_reads_bind; [apply fs_reads_step|intros []].
  apply fs_reads_bind; [|intros contents; apply fs_reads_lift]. intros f. unfold fs_contents. by destruct (Fs_files f !! _).
Qed.

Lemma reads_ret {A} (a : A) : reads_only (mret a).
Proof. done. Qed.
Lemma reads_raise {A} error : reads_only (raise (A := A) error).
Proof. done. Qed.
Lemma reads_lift {A} (m : outcome CliError A) : reads_only (lift m).
Proof. done. Qed.
Lemma reads_ask {A} (f : W → A * W) : reads_only (ask f).
Proof. intros e. unfold ask. by destruct (f _). Qed.
Lemma reads_bind {A B} (m : cli W A) (k : A → cli W B) : reads_only m → (∀ a, reads_only (k a)) → reads_only (m ≫= k).
Proof.
  intros Hm Hk e. specialize (Hm e). unfold mbind, cli_bind. destruct (m e) as [[a|error|] e'] eqn:E; try done.
  simpl in Hm. by rewrite Hk.
Qed.
Lemma reads_attempt {A} (m : cli W A) : reads_only m → reads_only (attempt m).
Proof. intros Hm e. specialize (Hm e). unfold attempt. by destruct (m e) as [[] ?]. Qed.
Lemma reads_run_fs {A} (m : fs A) : fs_reads_only m → reads_only (run_fs m).
Proof. intros Hm e. specialize (Hm (Env_fs e)). unfold run_fs. by destruct (m _) as [[] ?]. Qed.
Lemma reads_emit write event : reads_only (emit_with write event).
Proof. intros e. unfold emit_with. by destruct (write _). Qed.
Lemma reads_request `{Companion W} {A} (command : ActorCommand A) : reads_only (request command).
Proof. intros e. unfold request. by destruct (comp_request _ _). Qed.
End reading.

Create HintDb mq_reads.
#[export] Hint Resolve reads_ret reads_raise reads_lift reads_ask reads_bind reads_attempt reads_run_fs reads_emit
  reads_request load_reads_only : mq_reads.

Section doctor.
Context `{Companion W} (host : Host).
Context `{ConfigToml} `{Crates} `{HistoryCodec} `{HookJson} `{CliJson} `{UnicodeTables}.
Context (discover_ble : Z → W → outcome DiscoveryError (list DiscoveredDevice) * W).
Context (discover_serial : W → outcome DiscoveryError (list DiscoveredDevice) * W).

Lemma reads_config_store args : reads_only (config_store host args : cli W _).
Proof. unfold config_store, of_store. destruct (Cli_config args); auto with mq_reads. Qed.

Lemma reads_select_profile args : reads_only (select_profile host args : cli W _).
Proof.
  apply reads_bind; [apply reads_config_store|intros store].
  apply reads_bind; [apply reads_run_fs, load_reads_only|intros loaded].
  apply reads_bind; [destruct loaded; auto with mq_reads|intros [config m]].
  apply reads_bind; [auto with mq_reads|intros [name profile]]. apply reads_bind; auto with mq_reads.
Qed.

Lemma reads_connection_checks args b : reads_only (connection_checks host args b : cli W _).
Proof.
  unfold connection_checks. destruct (negb b); [done|]. apply reads_bind.
  { apply reads_attempt, reads_bind; [apply reads_select_profile|intros selected].
    apply reads_bind; [|auto with mq_reads]. intros e. unfold make_client. by destruct (comp_open _ _ _ _). }
  intros [error|selected]; [done|]. apply reads_bind; [apply reads_request|intros [error|info]].
  - apply reads_bind; [apply reads_request|done].
  - apply reads_bind; [apply reads_request|intros device]. apply reads_bind; [apply reads_request|intros r].
    by destruct device, r.
Qed.

(** The diagnosis after the document was read. *)
Lemma diagnose_reads args repair_requested e :
  (repair_requested = true → unattended host args ∨ ∀ store e' loaded e'', config_store host args e = (Ok store, e') →
     load_unmodified host store e' = (loaded, e'') → loads (match loaded with Ok l => inr l | Err x => inl x | Panic => inl port_error end) = true) →
  Fs_files (Env_fs (diagnose_configuration host args repair_requested e : outcome CliError ConfigDiagnosis * Env W).2) = Fs_files (Env_fs e).
Proof.
  intros Hload. unfold diagnose_configuration, mbind at 1, cli_bind at 1.
  pose proof (reads_config_store args e) as Hs. destruct (config_store host args e) as [[store|error|] e1]; [|done..].
  simpl in Hs. rewrite <- Hs. unfold mbind at 1, cli_bind at 1, attempt at 1.
  pose proof (reads_run_fs (W := W) (load_with_overrides (Host_tls host) store no_overrides)
    (load_reads_only _ _ _) e1) as Hl.
  destruct (load_unmodified host store e1) as [loaded e2] eqn:El. unfold load_unmodified in El. rewrite El in Hl. simpl in Hl.
  assert (∀ result, (repair_requested = true → unattended host args ∨ loads result = true) →
    reads_only (W := W) (let healthy := loads result in
      let checks := [loaded_check store result] in
      '(healthy, repaired, checks) ←
        (if repair_requested && negb healthy then
           _ ← confirm host args "back up and repair the selected configuration";
           clock ← ask comp_clock;
           outcome_ ← run_fs (repair (Host_tls host) store clock (Host_pid host));
           let detail := match Repair_backup_path outcome_ with
                         | None => "safe defaults created; no source file existed"
                         | Some path => "safe defaults created; source backed up to " +:+ path
                         end in
           mret (true, true, checks ++ [mkDoctorCheck "configuration_repair" "ok" detail])
         else if repair_requested then
           mret (healthy, false,
                 checks ++ [mkDoctorCheck "configuration_repair" "ok"
                              "no repair was needed; valid configuration was left unchanged"])
         else mret (healthy, false, checks));
      if healthy : bool then
        overridden ← attempt (load_optional host store);
        match overridden with
        | inl error =>
            mret (mkConfigDiagnosis false repaired
                    (checks ++ [mkDoctorCheck "runtime_overrides" "error" (CliError_message error)]))
        | inr _ => mret (mkConfigDiagnosis true repaired checks)
        end
      else mret (mkConfigDiagnosis false repaired checks))) as Hrest.
  { intros result Hr. cbv zeta. apply reads_bind.
    - destruct repair_requested; simpl; [|apply reads_ret]. destruct (loads result); simpl; [apply reads_ret|].
      destruct Hr as [Hu|]; [done| |done].
      destruct (confirm_unattended (W := W) host args "back up and repair the selected configuration" Hu) as [error ->].
      by intros e'.
    - intros [[[] repaired] checks]; [|done]. apply reads_bind; [apply reads_attempt, reads_run_fs, load_reads_only|].
      by intros []. }
  rewrite <- Hl. destruct loaded as [l|error|]; [apply Hrest|apply Hrest|done];
    intros Hr; (destruct (Hload Hr) as [Hu|Hl']; [by left|]); right; exact (Hl' store e1 _ e2 eq_refl El).
Qed.

Lemma doctor_reads args connect repair_requested e :
  Fs_files (Env_fs (diagnose_configuration host args repair_requested e : outcome CliError ConfigDiagnosis * Env W).2) = Fs_files (Env_fs e) →
  Fs_files (Env_fs (doctor host discover_ble discover_serial args connect repair_requested e).2) = Fs_files (Env_fs e).
Proof.
  intros Hd. unfold doctor, mbind at 1, cli_bind at 1.
  destruct (diagnose_configuration host args repair_requested e) as [[diagnosis|error|] e']; [|done..]. simpl in Hd.
  rewrite <- Hd. apply reads_bind.
  { apply reads_bind; [apply reads_ask|intros r]. apply reads_bind; [apply reads_ask|done]. }
  intros providers. apply reads_bind; [apply reads_connection_checks|intros [healthy connection]].
  apply reads_bind; [apply reads_emit|intros []]. by destruct (negb _).
Qed.
End doctor.

(** a diagnosis changes nothing uninvited.  [doctor] leaves every file as it is
    unless [--repair] was given, and even then if the document loads: a valid
    configuration is never replaced. *)
Theorem doctor_changes_nothing `{Companion W} host `{ConfigToml} `{Crates} `{HistoryCodec} `{HookJson} `{CliJson}
    `{UnicodeTables} discover_ble discover_serial args connect (e : Env W) :
  let changed repair := Fs_files (Env_fs (doctor host discover_ble discover_serial args connect repair e).2)
                        ≠ Fs_files (Env_fs e) in
  ¬ changed false ∧
  (∀ store e' loaded e'', config_store host args e = (Ok store, e') → load_unmodified host store e' = (Ok loaded, e'') →
     loads (inr loaded) = true → ¬ changed true).
Proof.
  split.
  - intros Hc. apply Hc. by apply doctor_reads, diagnose_reads.
  - intros store e' loaded e'' Hs Hl Hok Hc. apply Hc. apply doctor_reads, diagnose_reads.
    intros _. right. intros store' e1 loaded' e2 Hs' Hl'. rewrite Hs in Hs'. injection Hs' as <- <-.
    rewrite Hl in Hl'. by injection Hl' as <- <-.
Qed.
