(* ===== verification/Consent.v ===== *)
(** * Command line: what is destroyed only with consent

    The commands that remove something from the device or from the disk ask first.
    When there is nobody to ask and [--yes] was not given, they destroy nothing. *)

From S2P Require Import Prelude Text Order Floats Domain Discovery Managed Hooks HookRuntime Store History Paths.
From S2P Require Import MqttConfig Config CliOutput CliArgs Suggest Resolve Session CliConfig Workflow Send Commands.
From S2P Require Import CommandProps Watch Doctor.

(** Requests that remove something from the device, or take it away for a while. *)
Definition destructive (event : Event) : Prop :=
  match event with
  | Ev_Request command _ =>
      match command with
      | ActorCommand_RemoveContact _ | ActorCommand_ResetPath _ | ActorCommand_ClearChannel _ | ActorCommand_Reboot
      | ActorCommand_FactoryReset => True
      | _ => False
      end
  | _ => False
  end.
Definition harmless (event : Event) : Prop := ¬ destructive event.
(** Requests that rewrite a contact. *)
Definition rewrites (event : Event) : Prop :=
  match event with
  | Ev_Request command _ => match command with ActorCommand_UpdateContact _ => True | _ => False end
  | _ => False
  end.

Section consent.
Context `{Companion W} (host : Host).
Context `{ConfigToml} `{Crates} `{HistoryCodec} `{HookJson} `{CliJson} `{UnicodeTables}.

(** ** Sessions *)

Section session.
Context (P : Event → Prop).
Hypothesis P_open : ∀ ok, P (Ev_Request ActorCommand_Connect ok).
Hypothesis P_close : ∀ ok, P (Ev_Request ActorCommand_Shutdown ok).
Hypothesis P_hook : ∀ event, P (Ev_Hook event).
Hypothesis P_output : ∀ T record_type (data : T), P (Ev_Output record_type data).

Lemma logs_session_connect selected operation : logs P (session_connect host selected operation).
Proof.
  unfold session_connect. apply logs_bind; [apply logs_silent, silent_from_selected|intros workflow].
  unfold connected, disconnected, shutdown, clear_tracker. work; try apply logs_ignore; work; by apply logs_silent.
Qed.
Lemma logs_session_finish {A} session (r : CliError + A) : logs P (session_finish host session r).
Proof.
  unfold session_finish, emit_primary_error, withdraw, workflow_error, shutdown, disconnected.
  work; apply logs_ignore; work.
Qed.

Lemma logs_session {A} selected operation (body : CompanionSession → SelfInfo → cli W A) :
  (∀ session info, logs P (body session info)) → logs P (with_session host selected operation body).
Proof.
  intros Hbody. apply logs_bind; [apply logs_session_connect|]. intros [session info].
  apply logs_bind; [by apply logs_attempt|intros r]. apply logs_session_finish.
Qed.

Lemma logs_one_session {A T} args operation (body : SelectedProfile → CompanionSession → SelfInfo → cli W A)
    record_type (report : SelectedProfile → A → T) human : (∀ selected session info, logs P (body selected session info)) →
  logs P (in_one_session host args operation body record_type report human).
Proof.
  intros Hbody. apply logs_bind; [apply logs_silent, silent_select_profile|intros selected].
  apply logs_bind; [apply logs_silent, silent_make_client|intros []]. apply logs_bind; [by apply logs_session|intros a].
  by apply logs_emit.
Qed.
End session.
(** A computation that stops at a refused confirmation. *)
Lemma logs_refused {A} P args operation (k : () → cli W A) : unattended host args → logs P (confirm host args operation ≫= k).
Proof. intros Hu. destruct (confirm_unattended (W := W) host args operation Hu) as [error ->]. by apply logs_silent. Qed.
Lemma reads_refused {A} args operation (k : () → cli W A) : unattended host args → reads_only (confirm host args operation ≫= k).
Proof. intros Hu. by destruct (confirm_unattended (W := W) host args operation Hu) as [error ->]. Qed.

(** A session whose work is [m]. *)
Lemma harmless_session {A} P selected operation (m : CompanionSession → SelfInfo → cli W A) :
  P = harmless ∨ P = (λ event, ¬ rewrites event) → (∀ session info, logs P (m session info)) →
  logs P (with_session host selected operation m).
Proof. intros [-> | ->]; by apply logs_session; try by intros ? []. Qed.

Ltac spare := repeat first
  [ progress intros | by apply logs_refused | apply logs_bind | (apply logs_request; by intros ? [])
  | (apply logs_notify; by intros []) | (apply logs_emit; by intros []) | apply logs_attempt | apply logs_if
  | apply logs_silent; solve [auto with mq_silent] | case_match ].

Lemma spares_contact_command args selected listed options : unattended host args →
  logs harmless (contact_command host args selected listed options).
Proof.
  intros Hu. unfold contact_command. destruct (Contacts_command options) as [[]|];
    unfold contact_show, contact_update, contact_forget, contact_export, contact_import, contact_list, announce_change,
      contact_updated, contact_path, contact_path_show, contact_path_discover, contact_path_reset, contact_path_set,
      emit_result; spare.
Qed.

Lemma spares_contacts args options : unattended host args → logs harmless (contacts host args options).
Proof.
  intros Hu. apply logs_bind; [apply logs_silent, silent_select_profile|intros selected].
  apply logs_bind; [apply logs_silent, silent_make_client|intros []]. apply harmless_session; [by left|].
  intros session info. apply logs_bind; [spare|intros; by apply spares_contact_command].
Qed.

Lemma spares_channels_collected idxs : ∀ channels, logs harmless (collect_channels idxs channels : cli W _).
Proof.
  induction idxs as [|idx idxs IH]; intros channels; cbn [collect_channels]; [by apply logs_silent|spare; apply IH].
Qed.
Lemma spares_channels args command file : unattended host args → logs harmless (channels host args command file).
Proof.
  intros Hu. apply logs_bind; [apply logs_silent; destruct command; auto with mq_silent|intros secret].
  apply logs_bind; [apply logs_silent, silent_select_profile|intros selected].
  apply logs_bind; [apply logs_silent, silent_make_client|intros []]. apply harmless_session; [by left|].
  intros session info.
  destruct command; unfold channel_list, channel_show, channel_set, channel_remove, emit_result; spare;
    apply spares_channels_collected.
Qed.

(** A route is replaced by rewriting its contact, after the confirmation. *)
Lemma spares_route args options contact path : unattended host args →
  Contacts_command options = Some (ContactCommand_Path (ContactPath_Set contact path)) →
  logs (λ event, ¬ rewrites event) (contacts host args options).
Proof.
  intros Hu Hc. apply logs_bind; [apply logs_silent, silent_select_profile|intros selected].
  apply logs_bind; [apply logs_silent, silent_make_client|intros []]. apply harmless_session; [by right|].
  intros session info. unfold contact_command. rewrite Hc. cbn [contact_path]. unfold contact_path_set. spare.
Qed.

(** ** Files *)

Lemma reads_load_mutable store : reads_only (load_mutable host store : cli W _).
Proof. apply reads_bind; [apply reads_run_fs, load_reads_only|]. by intros []. Qed.

Lemma reads_rename args old new : unattended host args → reads_only (profiles_rename host args old new : cli W _).
Proof.
  intros Hu. unfold profiles_rename. apply reads_bind; [done|intros []]. apply reads_bind; [done|intros []].
  case_bool_decide; [done|]. apply reads_bind; [apply reads_config_store|intros store].
  apply reads_bind; [apply reads_load_mutable|intros initial]. apply reads_bind; [done|intros []]. by apply reads_refused.
Qed.
Lemma reads_delete args name : unattended host args → reads_only (profiles_delete host args name : cli W _).
Proof.
  intros Hu. unfold profiles_delete. apply reads_bind; [done|intros []].
  apply reads_bind; [apply reads_config_store|intros store].
  apply reads_bind; [apply reads_load_mutable|intros initial]. apply reads_bind; [done|intros []]. by apply reads_refused.
Qed.
Lemma reads_history_clear args : unattended host args → reads_only (history_command host args HistoryCommand_Clear : cli W _).
Proof.
  intros Hu. unfold history_command. apply reads_bind; [apply reads_select_profile|intros selected].
  apply reads_bind; [done|intros store]. apply reads_bind; [done|intros store']. by apply reads_refused.
Qed.
End consent.
