(* ===== verification/ChatSession.v ===== *)
(** * Command line: the chat session (crates/meshquill-cli/src/runtime.rs)

    [chat]: the loop over the typed lines and the events of the device, the one draft
    that is kept when a delivery was not confirmed, and the reconnects in between. *)

From S2P Require Import Prelude Text Order Floats Domain Managed Hooks HookRuntime Store History Paths MqttConfig.
From S2P Require Import Config CliOutput CliArgs Suggest Resolve Chat Session CliConfig Workflow Send Commands Watch.

(** ** Records *)

Record ChatRecord := mkChatRecord {
  ChatRecord_state : string;
  ChatRecord_destination : rstring;
  ChatRecord_draft_retained : bool
}.
Record ChatIncomingRecord := mkChatIncomingRecord {
  ChatIncoming_state : string;
  ChatIncoming_source : rstring;
  ChatIncoming_text : rstring;
  ChatIncoming_message_id : rstring
}.
Record ChatHelpRecord := mkChatHelpRecord {
  ChatHelp_state : string;
  ChatHelp_destination : rstring;
  ChatHelp_commands : list string
}.
Record ChatContactSummary := mkChatContactSummary {
  Summary_name : rstring;
  Summary_public_key_prefix : rstring;
  Summary_kind : string
}.
Record ChatContactsRecord := mkChatContactsRecord {
  ChatContacts_state : string;
  ChatContacts_destination : rstring;
  ChatContacts_query : option rstring;
  ChatContacts_contacts : list ChatContactSummary
}.
Record ChatHistoryRecord := mkChatHistoryRecord {
  ChatHistory_state : string;
  ChatHistory_destination : rstring;
  ChatHistory_enabled : bool;
  ChatHistory_storage : string;
  ChatHistory_entries : list HistoryEntry
}.
Record ChatCommandErrorRecord := mkChatCommandErrorRecord {
  ChatError_state : string;
  ChatError_destination : rstring;
  ChatError_command : rstring;
  ChatError_message : rstring;
  ChatError_suggestion : option rstring
}.

Record ChatTarget := mkChatTarget {
  Target_destination : rstring;
  Target_channel : option u8;
  Target_direct_prefix : option bytes
}.
Record RetainedChatDraft := mkDraft { Draft_target : ChatTarget; Draft_text : rstring }.

Definition chat_contact_target (contact : Contact) : ChatTarget :=
  mkChatTarget (Contact_adv_name contact) None (Some (take 6 (PublicKey_0 (Contact_public_key contact)))).
Definition chat_channel_target (channel : u8) : ChatTarget :=
  mkChatTarget (str_bytes (pretty channel)) (Some channel) None.

Inductive ChatLineFlow := Flow_Continue | Flow_Quit | Flow_SessionReconnected (count : usize).
Inductive ChatAckOutcome := AckOutcome_Acknowledged | AckOutcome_TimedOut | AckOutcome_Reconnected.

(** [ChatAckOutcome::output]. *)
Definition ack_output (self : ChatAckOutcome) : string * string :=
  match self with
  | AckOutcome_Acknowledged => ("acknowledged", "acknowledged")
  | AckOutcome_TimedOut =>
      ("timed_out", "Acknowledgement timed out; chat remains open and the message was not retransmitted.")
  | AckOutcome_Reconnected =>
      ("reconnected",
       "Reconnected after acknowledgement tracking failed; the sent message was not retained for resend.")
  end.

(** ** What the session waits for *)

(** [events.try_recv()]. *)
Inductive TryReceived :=
| Try_Event (event : Domain.Event)
| Try_Empty
| Try_Lagged (skipped : u64)
| Try_Closed.

(** The branches of the [select!] that are ready when it is polled. *)
Record ChatReady := mkChatReady {
  Ready_interrupt : bool;
  Ready_event : option Received;
  Ready_input : bool
}.

(** The scheduler: what is ready, the event that is there already, and whether the
    thread that reads the lines is (still) running. *)
Class ChatWorld (W : Type) := {
  chat_ready : W → ChatReady * W;
  chat_try_event : W → TryReceived * W;
  chat_reader : W → bool * W
}.

(** ** The monad

    [ChatSessionControl::workflow_connected] outlives a failure, so it is threaded
    through it: a step is given the flag, and leaves one whether it fails or not. *)

Definition chat_m (W A : Type) : Type := bool → cli W (bool * (CliError + A)).

Section monad.
Context {W : Type}.

#[global] Instance chat_ret : MRet (chat_m W) := λ A a connected, mret (connected, inr a).
#[global] Instance chat_bind : MBind (chat_m W) := λ A B f m connected,
  '(connected, r) ← m connected;
  match r with inl error => mret (connected, inl error) | inr a => f a connected end.

(** An operation that does not know of the flag. *)
Definition run {A} (m : cli W A) : chat_m W A := λ connected, r ← attempt m; mret (connected, r).
Definition throw {A} (error : CliError) : chat_m W A := λ connected, mret (connected, inl error).
Definition catch {A} (m : chat_m W A) : chat_m W (CliError + A) := λ connected,
  '(connected, r) ← m connected; mret (connected, inr r).
(** [workflow_connected.swap(value)] and [store]. *)
Definition swap_connected (value : bool) : chat_m W bool := λ connected, mret (value, inr connected).
Definition store_connected (value : bool) : chat_m W () := λ _, mret (value, inr ()).
End monad.

(** ** Lines of text *)

Definition chat_help_description (command : string) : string :=
  if bool_decide (command = "/help") then "show this command list"
  else if bool_decide (command = "/contacts [query]") then "list contacts, optionally filtered by name"
  else if bool_decide (command = "/to <contact>") then "change to an exact contact name or unique key prefix"
  else if bool_decide (command = "/channel <0..255>") then "change to a channel index"
  else if bool_decide (command = "/history [N]") then "show up to 100 retained messages for the current target"
  else if bool_decide (command = "/send") then "deliberately retry the retained failed-send draft"
  else if bool_decide (command = "/discard") then "discard the retained failed-send draft without transmitting it"
  else if bool_decide (command = "/quit") then "exit chat"
  else if bool_decide (command = "//text") then "send a message beginning with a literal slash"
  else "".

Definition retained {A} (draft : option A) : bool := bool_decide (is_Some draft).

Section texts.
Context `{Crates} `{UnicodeTables}.

Definition summary_le (left right : ChatContactSummary) : bool :=
  let l := to_lowercase (Summary_name left) in let r := to_lowercase (Summary_name right) in
  if bool_decide (l = r) then
    if bool_decide (Summary_name left = Summary_name right) then
      bytes_leb (Summary_public_key_prefix left) (Summary_public_key_prefix right)
    else bytes_leb (Summary_name left) (Summary_name right)
  else bytes_leb l r.

Definition contact_summary (contact : Contact) : ChatContactSummary :=
  mkChatContactSummary (Contact_adv_name contact) (hex_encode (take 6 (PublicKey_0 (Contact_public_key contact))))
    (contact_type_name (Contact_contact_type contact)).

Definition contact_listed (needle : option rstring) (contact : Contact) : bool :=
  from_option (λ needle, contains needle (to_lowercase (Contact_adv_name contact))
                         || contains needle (PublicKey_to_hex (Contact_public_key contact))) true needle.

(** The contacts [/contacts] lists, in their order. *)
Definition chat_contacts (contacts : list Contact) (query : option rstring) : list ChatContactSummary :=
  let needle := to_lowercase <$> query in
  sort_by summary_le (contact_summary <$> filter (λ contact, contact_listed needle contact = true) contacts).

Definition chat_history_entry_matches (entry : HistoryEntry) (target : ChatTarget) : bool :=
  match Target_channel target with
  | Some channel => bool_decide (HistoryEntry_channel entry = Some channel)
  | None =>
      match HistoryEntry_channel entry with
      | Some _ => false
      | None =>
          match HistoryEntry_direction entry with
          | Outgoing => bool_decide (HistoryEntry_peer entry = Target_destination target)
          | Incoming =>
              from_option (λ prefix, bool_decide (HistoryEntry_peer entry = str_bytes "direct:" ++ hex_encode prefix))
                false (Target_direct_prefix target)
          end
      end
  end.

(** The retained messages [/history] shows: the last ones of the target. *)
Definition chat_history_entries (loaded : option (list HistoryEntry)) (target : ChatTarget) (limit : Z) :
    list HistoryEntry :=
  let entries := filter (λ entry, chat_history_entry_matches entry target = true) (default [] loaded) in
  drop (length entries - Z.to_nat limit) entries.

Definition chat_history_line (entry : HistoryEntry) : rstring :=
  str_bytes (pretty (HistoryEntry_recorded_at_unix_ms entry)) ++ [0x09%Z]
    ++ str_bytes (debug_HistoryDirection (HistoryEntry_direction entry)) ++ [0x09%Z]
    ++ str_bytes (debug_HistoryStatus (HistoryEntry_status entry)) ++ [0x09%Z]
    ++ terminal_safe (HistoryEntry_text entry).
End texts.

Section chat.
Context `{Companion W} `{ChatWorld W} (host : Host).
Context `{ConfigToml} `{Crates} `{HistoryCodec} `{HookJson} `{CliJson} `{UnicodeTables}.

(** ** What is shown *)

Section output.
Context (args : Cli).
Let emit {T} (record : T) (human : rstring) : cli W () := emit_event (Cli_output args) "chat" record human.

Definition emit_chat_state (target : ChatTarget) (state : string) (draft_retained : bool) (human : rstring) :
    cli W () :=
  emit (mkChatRecord state (Target_destination target) draft_retained) human.

Definition emit_chat_connected (target : ChatTarget) : cli W () :=
  emit (mkChatRecord "connected" (Target_destination target) false)
    (str_bytes "Chatting with " ++ Target_destination target
       ++ str_bytes "; /help lists commands and /quit exits.").

Definition emit_chat_help (target : ChatTarget) : cli W () :=
  emit (mkChatHelpRecord "help" (Target_destination target) CHAT_HELP_COMMANDS)
    (join_lines ((str_bytes "Chat commands (target: " ++ Target_destination target ++ str_bytes "):")
       :: ((λ command, str_bytes command ++ [0x09%Z] ++ str_bytes (chat_help_description command))
             <$> CHAT_HELP_COMMANDS))).

Definition emit_chat_contacts (contacts : list Contact) (target : ChatTarget) (query : option rstring) : cli W () :=
  let contacts := chat_contacts contacts query in
  let human :=
    if bool_decide (length contacts = 0) then
      match query with
      | Some query => str_bytes "No contacts matched '" ++ query ++ str_bytes "'. Current target: "
                        ++ Target_destination target ++ str_bytes "."
      | None => str_bytes "No contacts are available. Current target: " ++ Target_destination target ++ str_bytes "."
      end
    else
      join_lines ((str_bytes "Contacts (current target: " ++ Target_destination target ++ str_bytes "):")
        :: ((λ contact, Summary_name contact ++ [0x09%Z] ++ Summary_public_key_prefix contact ++ [0x09%Z]
                          ++ str_bytes (Summary_kind contact)) <$> contacts)) in
  emit (mkChatContactsRecord "contacts" (Target_destination target) query contacts) human.

Definition emit_chat_destination_changed (target : ChatTarget) (retained_draft : option RetainedChatDraft) :
    cli W () :=
  emit (mkChatRecord "destination_changed" (Target_destination target) (retained retained_draft))
    (str_bytes "Chat target changed to " ++ Target_destination target ++ str_bytes "."
       ++ from_option (λ draft, str_bytes " The retained draft remains addressed to "
                                  ++ Target_destination (Draft_target draft) ++ str_bytes ".") [] retained_draft).

Definition emit_chat_history (workflow : WorkflowServices) (target : ChatTarget) (limit : Z) : cli W () :=
  loaded ← workflow_load_history workflow;
  let enabled := retained loaded in
  let entries := chat_history_entries loaded target limit in
  let human :=
    if negb enabled then
      str_bytes "History is disabled for " ++ Target_destination target
        ++ str_bytes " (plaintext opt-in); no entries were loaded."
    else if bool_decide (length entries = 0) then
      str_bytes "No retained history for " ++ Target_destination target ++ str_bytes "."
    else
      join_lines ((str_bytes "History for " ++ Target_destination target ++ str_bytes ":")
                    :: (chat_history_line <$> entries)) in
  emit (mkChatHistoryRecord "history" (Target_destination target) enabled "plaintext_opt_in" entries) human.

Definition emit_chat_command_error (target : ChatTarget) (command message : rstring) (suggestion : option rstring) :
    cli W () :=
  emit (mkChatCommandErrorRecord "command_error" (Target_destination target) command message suggestion)
    (command ++ str_bytes ": " ++ message
       ++ from_option (λ suggestion, str_bytes " Did you mean '" ++ suggestion ++ str_bytes "'?") [] suggestion
       ++ str_bytes " Current target: " ++ Target_destination target ++ str_bytes ".").

Definition emit_chat_incoming (workflow : WorkflowServices) (message : Message) (origin : IncomingOrigin) :
    cli W bool :=
  message_id ← incoming host workflow message origin;
  match message_id with
  | None => mret false
  | Some message_id =>
      let source := message_source message in
      _ ← emit (mkChatIncomingRecord "incoming" source (Message_text message) message_id)
            (terminal_safe source ++ str_bytes ": " ++ terminal_safe (Message_text message));
      mret true
  end.
End output.

(** ** The session *)

Section session.
Context (args : Cli) (policy : ReconnectPolicy) (workflow : WorkflowServices).

(** [client.cancel_pending_operations(); return Err(interrupt.error())]. *)
Definition cancelled {A} : cli W A := _ ← cancel_pending; error ← interrupt_error; raise error.

Definition cleanup_chat_workflow (reason : string) (connected : bool) : cli W () :=
  if connected then cleanup_workflow host workflow reason else _ ← shutdown; mret ().

Definition reconnect_chat_session (disconnect_reason : string) : chat_m W SelfInfo :=
  was_connected ← swap_connected false;
  _ ← (if was_connected : bool then run (disconnected host workflow disconnect_reason) else mret ());
  info ← run (reconnect_device policy);
  _ ← run (activate_workflow host workflow (SelfInfo_name info) "chat reconnect hook failed");
  _ ← store_connected true;
  mret info.

Definition list_chat_contacts_with_reconnect (disconnect_reason : string) : chat_m W (list Contact * bool) :=
  first ← run (select_request (ActorCommand_ListContacts None));
  match first with
  | None => run cancelled
  | Some (inr contacts) => mret (contacts, false)
  | Some (inl error) =>
      if reconnect_trigger error then
        _ ← reconnect_chat_session disconnect_reason;
        second ← run (select_request (ActorCommand_ListContacts None));
        match second with
        | None => run cancelled
        | Some (inl error) => throw (cli_of_core error)
        | Some (inr contacts) => mret (contacts, true)
        end
      else throw (cli_of_core error)
  end.

Definition prepare_chat_target_with_reconnect (destination : rstring) (disconnect_reason : string) :
    chat_m W (ChatTarget * bool) :=
  match parse_unsigned 8 destination with
  | Some channel => mret (chat_channel_target channel, false)
  | None =>
      '(contacts, reconnected) ← list_chat_contacts_with_reconnect disconnect_reason;
      contact ← run (lift (resolve_contact contacts destination));
      mret (chat_contact_target contact, reconnected)
  end.

Definition send_chat_message (target : ChatTarget) (text : rstring) : cli W (CoreError + option CommandTracking) :=
  match Target_channel target with
  | Some channel =>
      r ← request (ActorCommand_SendChannelMessage channel 0 text);
      mret (match r with inl error => inl error | inr _ => inr None end)
  | None =>
      r ← request (ActorCommand_SendDirectText (default [] (Target_direct_prefix target)) 0 text);
      mret (match r with inl error => inl error | inr tracking => inr (Some tracking) end)
  end.

Definition wait_for_chat_ack (target : ChatTarget) (outgoing : OutgoingRecord) (message_id : rstring)
    (tracking : CommandTracking) : chat_m W (ChatAckOutcome * option CliError) :=
  let timeout := Z.min (from_millis (CommandTracking_timeout_ms tracking)) (Cli_timeout args) in
  ack_result ← run (select_request (ActorCommand_WaitForAck (CommandTracking_ack_code tracking) (Some timeout)));
  match ack_result with
  | None => run cancelled
  | Some (inr ack) =>
      r ← run (attempt (acknowledged host workflow outgoing message_id (Some (Target_destination target))
                          (Ack_trip_time_ms ack) (CommandTracking_ack_code tracking)));
      mret (AckOutcome_Acknowledged, match r with inl error => Some error | inr _ => None end)
  | Some (inl error) =>
      let cli_error := cli_of_core error in
      if bool_decide (CliError_status cli_error = Exit_Timeout) then
        _ ← run (ignore (timed_out host workflow outgoing "chat acknowledgement" message_id));
        mret (AckOutcome_TimedOut, None)
      else
        _ ← run (ignore (failed workflow outgoing));
        if negb (reconnect_trigger error) then throw cli_error
        else
          _ ← reconnect_chat_session "chat acknowledgement transport failed";
          mret (AckOutcome_Reconnected, None)
  end.

(** After the device accepted the message; whether the session was reconnected. *)
Definition chat_accepted (draft : RetainedChatDraft) (retained_draft : option RetainedChatDraft)
    (outgoing : OutgoingRecord) (message_id : rstring) (tracking : option CommandTracking) : chat_m W bool :=
  let target := Draft_target draft in
  r ← run (attempt (sent host workflow outgoing (Target_destination target) (Draft_text draft) message_id
                      (CommandTracking_ack_code <$> tracking)));
  let post_acceptance_error := note "post-send workflow failed" r None in
  _ ← run (emit_chat_state args target "sent" (retained retained_draft)
             (str_bytes "Sent to " ++ Target_destination target ++ str_bytes "."));
  interrupted ← run is_cancelled;
  if interrupted : bool then
    error ← run interrupt_error;
    throw (accepted_delivery_error "chat was interrupted after delivery was accepted" error)
  else
    '(post_acceptance_error, session_reconnected) ←
      match tracking with
      | None => mret (post_acceptance_error, false)
      | Some tracking =>
          '(outcome_, acknowledgement_workflow_error) ← wait_for_chat_ack target outgoing message_id tracking;
          let post_acceptance_error :=
            from_option (λ error, note "acknowledgement workflow failed" (inl error) post_acceptance_error)
              post_acceptance_error acknowledgement_workflow_error in
          let '(state, human) := ack_output outcome_ in
          _ ← run (emit_chat_state args target state (retained retained_draft)
                     (Target_destination target ++ str_bytes (": " +:+ human)));
          mret (post_acceptance_error, match outcome_ with AckOutcome_Reconnected => true | _ => false end)
      end;
    match post_acceptance_error with
    | Some (stage, error) => throw (accepted_delivery_error stage error)
    | None => mret session_reconnected
    end.

(** [submit_chat_draft], with the draft that is retained afterwards. *)
Definition submit_chat_draft (draft : RetainedChatDraft) (retained_draft : option RetainedChatDraft) :
    chat_m W (ChatLineFlow * option RetainedChatDraft) :=
  let target := Draft_target draft in
  outgoing ← run (begin_outgoing workflow (Target_destination target) (Target_channel target) (Draft_text draft));
  let message_id := uuid_string (Outgoing_message_id outgoing) in
  send_result ← run (send_chat_message target (Draft_text draft));
  match send_result with
  | inr tracking =>
      session_reconnected ← chat_accepted draft retained_draft outgoing message_id tracking;
      mret (if session_reconnected : bool then Flow_SessionReconnected 1 else Flow_Continue, retained_draft)
  | inl error =>
      _ ← run (ignore (failed workflow outgoing));
      if reconnect_trigger error then
        interrupted ← run is_cancelled;
        if interrupted : bool then error ← run interrupt_error; throw error
        else
          _ ← reconnect_chat_session "chat transport failed";
          _ ← run (emit_chat_state args target "reconnected" true
                     (str_bytes "Reconnected; delivery to " ++ Target_destination target
                        ++ str_bytes " was not confirmed. Its draft is retained, and /send deliberately submits it again."));
          mret (Flow_SessionReconnected 1, Some draft)
      else throw (cli_of_core error)
  end.

(** [ChatLineFlow::SessionReconnected(1)] if the session was reconnected. *)
Definition flow_of (reconnected : bool) : ChatLineFlow :=
  if reconnected then Flow_SessionReconnected 1 else Flow_Continue.
(** [usize::saturating_add]. *)
Definition saturating_add (a b : usize) : usize := Z.to_nat (Z.min (Z.of_nat a + Z.of_nat b) (2 ^ 64 - 1)).

Definition announce_reconnect (reconnected : bool) (target : ChatTarget) (draft_retained : bool) (human : string) :
    chat_m W () :=
  if reconnected then run (emit_chat_state args target "reconnected" draft_retained (str_bytes human)) else mret ().

Definition no_draft (target : ChatTarget) (command : string) : chat_m W () :=
  run (emit_chat_command_error args target (str_bytes command)
         (str_bytes "there is no retained failed-send draft") None).

(** A typed text. *)
Definition chat_message (target : ChatTarget) (retained_draft : option RetainedChatDraft) (text : rstring) :
    chat_m W (ChatLineFlow * option RetainedChatDraft) :=
  match retained_draft with
  | Some draft =>
      _ ← run (emit_chat_command_error args target (str_bytes "message")
                 (str_bytes "a failed-send draft for " ++ Target_destination (Draft_target draft)
                    ++ str_bytes " is retained; use /send or /discard before composing another message") None);
      mret (Flow_Continue, retained_draft)
  | None =>
      prepared ← run (prepare_send host (Target_destination target) text);
      '(send_target, target_reconnected) ←
        prepare_chat_target_with_reconnect (Prepared_destination prepared) "chat send target lookup transport failed";
      _ ← announce_reconnect target_reconnected target false
            "Reconnected while resolving the unsent draft; its text was retained and no message was replayed.";
      '(flow, retained_draft) ← submit_chat_draft (mkDraft send_target (Prepared_text prepared)) retained_draft;
      mret (match flow with
            | Flow_Continue => if target_reconnected : bool then Flow_SessionReconnected 1 else flow
            | Flow_SessionReconnected count =>
                if target_reconnected : bool then Flow_SessionReconnected (saturating_add count 1) else flow
            | Flow_Quit => flow
            end, retained_draft)
  end.

(** What one line leaves: the flow, the target and the retained draft. *)
Record ChatLineResult := mkLineResult {
  Line_flow : ChatLineFlow;
  Line_target : ChatTarget;
  Line_retained : option RetainedChatDraft
}.

Definition handle_chat_line (target : ChatTarget) (retained_draft : option RetainedChatDraft) (line : rstring) :
    chat_m W ChatLineResult :=
  let continue := mkLineResult Flow_Continue target retained_draft in
  match parse_chat_line line with
  | Chat_Empty => mret continue
  | Chat_Quit => mret (mkLineResult Flow_Quit target retained_draft)
  | Chat_Help => _ ← run (emit_chat_help args target); mret continue
  | Chat_Contacts query =>
      '(contacts, reconnected) ← list_chat_contacts_with_reconnect "chat contact listing transport failed";
      _ ← announce_reconnect reconnected target (retained retained_draft)
            "Reconnected while listing contacts; no message was sent or replayed.";
      _ ← run (emit_chat_contacts args contacts target query);
      mret (mkLineResult (flow_of reconnected) target retained_draft)
  | Chat_To query =>
      '(contacts, reconnected) ← list_chat_contacts_with_reconnect "chat destination lookup transport failed";
      _ ← announce_reconnect reconnected target (retained retained_draft)
            "Reconnected while resolving the destination; no message was sent or replayed.";
      target ← match resolve_contact contacts query with
               | Ok contact =>
                   let target := chat_contact_target contact in
                   _ ← run (emit_chat_destination_changed args target retained_draft); mret target
               | Err error =>
                   _ ← run (emit_chat_command_error args target (str_bytes "/to") (str_bytes (CliError_message error))
                              (contact_name_suggestion contacts query));
                   mret target
               | Panic => run (lift Panic)
               end;
      mret (mkLineResult (flow_of reconnected) target retained_draft)
  | Chat_Channel channel =>
      let target := chat_channel_target channel in
      _ ← run (emit_chat_destination_changed args target retained_draft);
      mret (mkLineResult Flow_Continue target retained_draft)
  | Chat_History limit => _ ← run (emit_chat_history args workflow target limit); mret continue
  | Chat_SendRetained =>
      match retained_draft with
      | None => _ ← no_draft target "/send"; mret continue
      | Some draft =>
          '(flow, retained_draft) ← submit_chat_draft draft None; mret (mkLineResult flow target retained_draft)
      end
  | Chat_DiscardRetained =>
      match retained_draft with
      | None => _ ← no_draft target "/discard"; mret continue
      | Some discarded =>
          _ ← run (emit_chat_state args target "draft_discarded" false
                     (str_bytes "Discarded the retained draft addressed to "
                        ++ Target_destination (Draft_target discarded) ++ str_bytes "."));
          mret (mkLineResult Flow_Continue target None)
      end
  | Chat_Message text =>
      '(flow, retained_draft) ← chat_message target retained_draft text; mret (mkLineResult flow target retained_draft)
  | Chat_CommandError command message suggestion =>
      _ ← run (emit_chat_command_error args target command message suggestion); mret continue
  end.

(** ** The queued inbox *)

Definition chat_error_event : cli W () := workflow_error host "chat" "the device emitted an error event".

(** The events that are there already, with a bound on their number; whether the
    connection is active afterwards. *)
Fixpoint drain_events (fuel : nat) (connection_active : bool) : cli W bool :=
  match fuel with
  | O => lift Panic
  | S fuel =>
      received ← ask chat_try_event;
      match received with
      | Try_Event event =>
          match event with
          | Event_Message message =>
              _ ← emit_chat_incoming args workflow message Live; drain_events fuel connection_active
          | Event_Disconnected => drain_events fuel false
          | Event_Connected => drain_events fuel true
          | Event_ProtocolError _ | Event_UnknownPacket _ _ | Event_LoginFailed _ =>
              _ ← chat_error_event; drain_events fuel connection_active
          | _ => drain_events fuel connection_active
          end
      | Try_Empty => mret connection_active
      | Try_Lagged _ =>
          raise (with_hint (CliError_new Exit_Protocol
                              "initial chat event buffering lagged while draining the queued inbox")
                   "Retry after reducing the companion's queued-message backlog.")
      | Try_Closed => raise (CliError_new Exit_Connection "the device event stream closed during chat setup")
      end
  end.

(** [poll_chat_incoming], from the turn on, with a bound on the turns. *)
Fixpoint poll_chat_incoming (fuel : nat) (connection_active : bool) : cli W () :=
  match fuel with
  | O => lift Panic
  | S fuel' =>
      result ← select_request ActorCommand_SyncNextMessage;
      match result with
      | None => cancelled
      | Some (inl error) => raise (cli_of_core error)
      | Some (inr message) =>
          connection_active ← drain_events fuel connection_active;
          _ ← match message with
              | Some message => _ ← emit_chat_incoming args workflow message Queue; mret ()
              | None => mret ()
              end;
          if negb connection_active then
            raise (CliError_new Exit_Connection "the companion disconnected while chat was loading the queued inbox")
          else match message with None => mret () | Some _ => poll_chat_incoming fuel' connection_active end
      end
  end.

Definition drain_chat_inbox_with_reconnect (fuel : nat) (target : ChatTarget) : chat_m W () :=
  polled ← catch (run (poll_chat_incoming fuel true));
  match polled with
  | inr _ => mret ()
  | inl error =>
      if bool_decide (CliError_status error = Exit_Connection) then
        _ ← reconnect_chat_session "initial chat inbox transport failed";
        _ ← run (emit_chat_state args target "reconnected" false
                   (str_bytes "Reconnected while loading the queued inbox; no message was sent or replayed."));
        run (poll_chat_incoming fuel true)
      else throw error
  end.

(** ** The loop *)

Record ChatState := mkChatState {
  Chat_target : ChatTarget;
  Chat_retained : option RetainedChatDraft;
  Chat_confirmations : usize
}.

Definition reader_stopped : CliError :=
  CliError_new Exit_Protocol "the line chat input reader stopped unexpectedly".
Definition reader_running (error : CliError) : cli W () :=
  running ← ask chat_reader; if running : bool then mret () else raise error.

(** [ChatInput::spawn], [ChatInput::next] and [ChatInput::resume].  The thread reads
    the next line only once it was resumed. *)
Definition spawn_input : cli W () :=
  reader_running (CliError_new Exit_Protocol "could not start the bounded line chat input reader").
Definition next_line : cli W (option rstring) := _ ← reader_running reader_stopped; read_line "line chat input".
Definition resume_input : cli W () := reader_running reader_stopped.

Definition chat_event (received : Received) (st : ChatState) : chat_m W ChatState :=
  let '(mkChatState target retained_draft pending) := st in
  match received with
  | Received_Event Event_Disconnected =>
      if 0 <? pending then mret st
      else
        r ← catch (reconnect_chat_session "chat device event");
        match r with
        | inl error =>
            interrupted ← run is_cancelled;
            if interrupted : bool then error ← run interrupt_error; throw error else throw error
        | inr _ =>
            _ ← run (emit_chat_state args target "reconnected" (retained retained_draft)
                       (str_bytes "Reconnected to the companion; no message was replayed."));
            mret (mkChatState target retained_draft (saturating_add pending 1))
        end
  | Received_Event Event_Connected => mret (mkChatState target retained_draft (pending - 1))
  | Received_Event (Event_Message message) => _ ← run (emit_chat_incoming args workflow message Live); mret st
  | Received_Event (Event_ProtocolError _ | Event_UnknownPacket _ _ | Event_LoginFailed _) =>
      _ ← run chat_error_event; mret st
  | Received_Event _ | Received_Deadline => mret st
  | Received_Lagged skipped =>
      _ ← run (emit_chat_state args target "lagged" (retained retained_draft)
                 (str_bytes ("Chat event consumer skipped " +:+ pretty skipped +:+ " bounded event(s).")));
      mret (mkChatState target retained_draft 0)
  | Received_Closed => throw (CliError_new Exit_Connection "the device event stream closed during chat")
  end.

(** A line, or the end of the input; [None] ends the session. *)
Definition chat_line (st : ChatState) : chat_m W (option ChatState) :=
  line ← run next_line;
  match line with
  | None => mret None
  | Some line =>
      r ← handle_chat_line (Chat_target st) (Chat_retained st) line;
      let go_on pending :=
        interrupted ← run is_cancelled;
        if interrupted : bool then error ← run interrupt_error; throw error
        else _ ← run resume_input; mret (Some (mkChatState (Line_target r) (Line_retained r) pending)) in
      match Line_flow r with
      | Flow_Quit => mret None
      | Flow_Continue => go_on (Chat_confirmations st)
      | Flow_SessionReconnected count => go_on (saturating_add (Chat_confirmations st) count)
      end
  end.

(** One turn of the biased [select!]: the interrupt first, then an event, then a line. *)
Definition chat_turn (st : ChatState) : chat_m W (option ChatState) :=
  ready ← run (ask chat_ready);
  if Ready_interrupt ready then error ← run interrupt_error; throw error
  else
    match Ready_event ready with
    | Some received => st ← chat_event received st; mret (Some st)
    | None => if Ready_input ready then chat_line st else mret (Some st)
    end.

Fixpoint chat_loop (fuel : nat) (st : ChatState) : chat_m W () :=
  match fuel with
  | O => run (lift Panic)
  | S fuel => next ← chat_turn st; match next with None => mret () | Some st => chat_loop fuel st end
  end.

Definition run_chat_lines (fuel : nat) (initial_target : ChatTarget) : chat_m W () :=
  _ ← drain_chat_inbox_with_reconnect fuel initial_target;
  _ ← run spawn_input;
  chat_loop fuel (mkChatState initial_target None 0).

(** What [chat] does once the connection is announced; the reason given if it fails. *)
Definition chat_connected (fuel : nat) (destination : rstring) : cli W () :=
  let conclude {A} (reason : string) (k : A → bool → cli W ()) (m : bool * (CliError + A)) :=
    let '(connected, r) := m in
    match r with
    | inl error => _ ← cleanup_chat_workflow reason connected; raise error
    | inr a => k a connected
    end in
  prepared ← prepare_chat_target_with_reconnect destination "chat target lookup transport failed" true;
  conclude "chat target failed" (λ '(target, target_reconnected) connected,
    shown ← run (emit_chat_connected args target) connected;
    conclude "chat output failed" (λ _ connected,
      shown ← announce_reconnect target_reconnected target false
                "Reconnected while resolving the chat target; no message was sent or replayed." connected;
      conclude "chat output failed" (λ _ connected,
        result ← run_chat_lines fuel target connected;
        conclude "chat failed" (λ _ _, finish_workflow host workflow "chat completed") result) shown) shown) prepared.
End session.

(** ** [chat] *)

Definition prompt_chat_destination : cli W rstring :=
  _ ← write_stderr (str_bytes "Chat destination: ") (CliError_new Exit_Protocol "could not write chat prompt");
  destination ← read_line "chat destination";
  let destination := trimmed (default [] destination) in
  if bool_decide (destination = []) then raise (CliError_new Exit_Usage "chat destination must not be empty")
  else mret destination.

Definition chat_destination (args : Cli) (destination : option rstring) : cli W rstring :=
  let otherwise :=
    if Cli_non_interactive args || negb (Host_stdin_terminal host) then
      raise (CliError_new Exit_Usage "line chat requires a destination when input is non-interactive")
    else prompt_chat_destination in
  match destination with
  | Some value => if trim_is_empty value then otherwise else mret (trimmed value)
  | None => otherwise
  end.

Definition chat (fuel : nat) (args : Cli) (options : ChatArgs) : cli W () :=
  _ ← (if Chat_line options then mret () else emit_diagnostic args "using the portable line chat interface");
  destination ← chat_destination args (Chat_destination options);
  selected ← select_profile host args;
  let policy := mkReconnectPolicy (retry_timeout selected) (connect_timeout selected) in
  workflow ← from_selected host selected;
  _ ← make_client selected;
  connect_result ← select_request ActorCommand_Connect;
  match connect_result with
  | None => _ ← cancel_pending; _ ← shutdown; error ← interrupt_error; raise error
  | Some (inl error) => finish (inl error)
  | Some (inr info) =>
      _ ← activate_workflow host workflow (SelfInfo_name info) "chat connection hook failed";
      chat_connected args policy workflow fuel destination
  end.
End chat.
