(* ===== verification/ChatProps.v ===== *)
(** * Command line: what a chat guarantees

    What a typed line transmits and what it keeps, and the protocol of the whole
    session across its reconnects. *)

From S2P Require Import Prelude Text Order Floats Domain Managed Hooks HookRuntime Store History Paths MqttConfig.
From S2P Require Import Config CliOutput CliArgs Suggest Resolve Chat Session CliConfig Workflow Send Commands Watch.
From S2P Require Import ChatSession.

(** ** The protocol of a chat *)

(** Where a message is addressed to: a channel, or a contact by the prefix of its key. *)
Definition Address : Type := u8 + bytes.
(** A message given to the device, and whether the device accepted it. *)
Record Delivery := mkDelivery { Delivery_to : Address; Delivery_text : rstring; Delivery_accepted : bool }.

Record ChatStage := mkChatStage {
  ChatStage_open : bool;
  ChatStage_closed : bool;
  ChatStage_announced : bool;
  ChatStage_deliveries : list Delivery
}.

(** A chat lists contacts, drains the inbox, sends and waits for acknowledgements, all
    while its connection is announced to the hooks; it reconnects only once that is
    withdrawn, and shuts down only then; it asks the device for nothing else. *)
Definition chat_request {A} (s : ChatStage) (command : ActorCommand A) (ok : bool) : option ChatStage :=
  let '(mkChatStage open closed announced deliveries) := s in
  let deliver to text :=
    if open && announced then Some (mkChatStage open closed announced (deliveries ++ [mkDelivery to text ok]))
    else None in
  match command with
  | ActorCommand_Connect =>
      if open || closed then None else Some (mkChatStage ok closed announced deliveries)
  | ActorCommand_Reconnect => if open && negb announced then Some s else None
  | ActorCommand_Shutdown => if announced then None else Some (mkChatStage false true announced deliveries)
  | ActorCommand_SendChannelMessage channel _ text => deliver (inl channel) text
  | ActorCommand_SendDirectText prefix _ text => deliver (inr prefix) text
  | ActorCommand_ListContacts _ | ActorCommand_SyncNextMessage | ActorCommand_WaitForAck _ _ =>
      if open && announced then Some s else None
  | _ => None
  end.

Definition chat_hook (s : ChatStage) (event : HookEvent) : option ChatStage :=
  let '(mkChatStage open closed announced deliveries) := s in
  match event with
  | HookEvent_OnConnect _ => if open && negb announced then Some (mkChatStage open closed true deliveries) else None
  | HookEvent_OnDisconnect _ => if announced then Some (mkChatStage open closed false deliveries) else None
  | HookEvent_OnContactUpdate _ => None
  | _ => if announced then Some s else None
  end.

Definition chat_protocol (s : ChatStage) (event : Event) : option ChatStage :=
  match event with
  | Ev_Request command ok => chat_request s command ok
  | Ev_Hook event => chat_hook s event
  | Ev_Upsert _ | Ev_Streamed _ _ => Some s
  | Ev_Output _ _ | Ev_Credential _ _ => None
  end.
#[global] Instance chat_automaton : Automaton ChatStage :=
  {| step_event := chat_protocol; upsert_ignored := λ _ _, eq_refl |}.

(** Connected and announced; lost, with the announcement withdrawn; and shut down. *)
Definition live (deliveries : list Delivery) : ChatStage := mkChatStage true false true deliveries.
Definition dark (deliveries : list Delivery) : ChatStage := mkChatStage true false false deliveries.
Definition gone (deliveries : list Delivery) : ChatStage := mkChatStage false true false deliveries.
Definition chat_rest : ChatStage := mkChatStage false false false [].

(** The flag says whether the connection is announced. *)
Definition agrees (connected : bool) (s : ChatStage) (ds : list Delivery) : Prop :=
  if connected then s = live ds else s = dark ds ∨ s = gone ds.

(** What a draft is when it is given to the device. *)
Definition address (target : ChatTarget) : Address :=
  match Target_channel target with
  | Some channel => inl channel
  | None => inr (default [] (Target_direct_prefix target))
  end.
Definition delivery (draft : RetainedChatDraft) (accepted : bool) : Delivery :=
  mkDelivery (address (Draft_target draft)) (Draft_text draft) accepted.

Section chat.
Context `{Companion W} `{ChatWorld W} (host : Host).
Context `{ConfigToml} `{Crates} `{HistoryCodec} `{HookJson} `{CliJson} `{UnicodeTables}.
Implicit Types ds : list Delivery.

(** [proceeds ds m K E]: from a live session, [m] keeps to the protocol; if it succeeds
    the session is live and [K] holds, and if it fails the flag still says where the
    session is, and [E] holds. *)
Definition proceeds {A} ds (m : chat_m W A) (K : A → list Delivery → Prop) (E : list Delivery → Prop) : Prop :=
  follows (live ds) (m true) (λ r s,
    match r with
    | Ok (connected, inr a) => connected = true ∧ ∃ ds', s = live ds' ∧ K a ds'
    | Ok (connected, inl _) => ∃ ds', agrees connected s ds' ∧ E ds'
    | Err _ => False
    | Panic => True
    end).

Lemma proceeds_ret {A} ds (a : A) (K : A → list Delivery → Prop) E : K a ds → proceeds ds (mret a) K E.
Proof. intros HK. apply follows_ret. eauto. Qed.
Lemma proceeds_throw {A} ds error (K : A → list Delivery → Prop) (E : list Delivery → Prop) :
  E ds → proceeds ds (throw error) K E.
Proof. intros HE. apply follows_ret. by exists ds. Qed.

Lemma proceeds_bind {A B} ds (m : chat_m W A) (f : A → chat_m W B) K E :
  proceeds ds m (λ a ds', proceeds ds' (f a) K E) E → proceeds ds (m ≫= f) K E.
Proof.
  intros Hm. apply follows_bind. eapply follows_mono; [exact Hm|].
  intros [[c [error|a]]|error|] s Hs; [by apply follows_ret| |done|done].
  destruct Hs as (-> & ds' & -> & Hf). exact Hf.
Qed.

Lemma proceeds_mono {A} ds (m : chat_m W A) (K K' : A → list Delivery → Prop) (E E' : list Delivery → Prop) :
  proceeds ds m K E → (∀ a ds', K a ds' → K' a ds') → (∀ ds', E ds' → E' ds') → proceeds ds m K' E'.
Proof.
  intros Hm HK HE. eapply follows_mono; [exact Hm|]. intros [[c [error|a]]|error|] s Hs; [|.. |done|done].
  - destruct Hs as (ds' & ? & ?). eauto.
  - destruct Hs as (-> & ds' & -> & ?). eauto 6.
Qed.

(** An operation that stays in the live session. *)
Lemma proceeds_run {A} ds (m : cli W A) (K : A → list Delivery → Prop) (E : list Delivery → Prop) :
  follows (live ds) m (λ r s, ∃ ds', s = live ds' ∧ match r with Ok a => K a ds' | Err _ => E ds' | Panic => True end) →
  proceeds ds (run m) K E.
Proof.
  intros Hm. apply follows_bind, follows_attempt. eapply follows_mono; [exact Hm|].
  intros [a|error|] s (ds' & -> & HK); [| |done]; apply follows_ret; [eauto|]. by exists ds'.
Qed.

Lemma proceeds_catch {A} ds (m : chat_m W A) (K : (CliError + A) → list Delivery → Prop) (E : list Delivery → Prop) :
  follows (live ds) (m true) (λ r s,
    match r with
    | Ok (connected, r) => connected = true ∧ ∃ ds', s = live ds' ∧ K r ds'
    | Err _ => False
    | Panic => True
    end) → proceeds ds (catch m) K E.
Proof.
  intros Hm. apply follows_bind. eapply follows_mono; [exact Hm|]. intros [[c r]|error|] s Hs; [|done|done].
  apply follows_ret. exact Hs.
Qed.

(** Operations that log nothing, that show something, and that read the device. *)
Lemma proceeds_silent {A} ds (m : cli W A) (K : A → list Delivery → Prop) (E : list Delivery → Prop) :
  silent m → (∀ a, K a ds) → E ds → proceeds ds (run m) K E.
Proof.
  intros Hm HK HE. apply proceeds_run, follows_silent; [done|]. intros r _. exists ds. split; [done|]. destruct r; auto.
Qed.

(** A failure that is looked at: the session may be lost. *)
Lemma proceeds_catch_bind {A B} ds (m : chat_m W A) (f : CliError + A → chat_m W B) K' E'
    (K : B → list Delivery → Prop) (E : list Delivery → Prop) :
  proceeds ds m K' E' → (∀ a ds', K' a ds' → proceeds ds' (f (inr a)) K E) →
  (∀ error connected s ds', agrees connected s ds' → E' ds' →
     follows s (f (inl error) connected) (λ r s',
       match r with Ok (c, inl _) => agrees c s' ds' ∧ E ds' | Panic => True | _ => False end)) →
  proceeds ds (catch m ≫= f) K E.
Proof.
  intros Hm Hok Herr. apply follows_bind, follows_bind. eapply follows_mono; [exact Hm|].
  intros [[c [error|a]]|error|] s Hs; [| |done|done]; apply follows_ret.
  - destruct Hs as (ds' & Ha & HE). eapply follows_mono; [by apply Herr|].
    intros [[c' [error'|b]]|error'|] s' Hs'; [|done|done|done]. eauto.
  - destruct Hs as (-> & ds' & -> & HK). by apply Hok.
Qed.

Lemma proceeds_if {A} ds (b : bool) (m1 m2 : chat_m W A) K E :
  proceeds ds m1 K E → proceeds ds m2 K E → proceeds ds (if b then m1 else m2) K E.
Proof. by destruct b. Qed.

(** [stays E ds m]: whatever it does, nothing is delivered. *)
Definition stays {A} (m : chat_m W A) : Prop := ∀ ds, proceeds ds m (λ _ ds', ds' = ds) (λ ds', ds' = ds).

Lemma chat_stays_bind {A B} ds (m : chat_m W A) (f : A → chat_m W B) K (E : list Delivery → Prop) :
  stays m → E ds → (∀ a, proceeds ds (f a) K E) → proceeds ds (m ≫= f) K E.
Proof.
  intros Hm HE Hf. apply proceeds_bind. eapply proceeds_mono; [apply Hm| |].
  - intros a ds' ->. apply Hf.
  - by intros ds' ->.
Qed.
Lemma chat_stays_ret {A} (a : A) : stays (mret a).
Proof. intros ds. by apply proceeds_ret. Qed.
Lemma stays_throw {A} error : stays (throw (A := A) error).
Proof. intros ds. by apply proceeds_throw. Qed.
Lemma stays_seq {A B} (m : chat_m W A) (f : A → chat_m W B) : stays m → (∀ a, stays (f a)) → stays (m ≫= f).
Proof. intros Hm Hf ds. apply chat_stays_bind; [done|done|]. intros a. apply Hf. Qed.
Lemma stays_if {A} (b : bool) (m1 m2 : chat_m W A) : stays m1 → stays m2 → stays (if b then m1 else m2).
Proof. by destruct b. Qed.

(** An operation of the other components. *)
#[local] Notation steady := (steady (W := W) live).
Lemma stays_run {A} (m : cli W A) : steady m → stays (run m).
Proof. intros Hm ds. apply proceeds_run. eapply follows_mono; [apply Hm|]. intros r s ->. exists ds. by destruct r. Qed.

Lemma steady_emit {T} args (record : T) human : steady (emit_event (Cli_output args) "chat" record human).
Proof. by apply steady_emit_with. Qed.
Lemma steady_chat_incoming workflow message origin : steady (incoming host workflow message origin).
Proof. by apply steady_incoming. Qed.
Lemma steady_prepare_send destination text : steady (prepare_send host destination text).
Proof. intros ds. by eapply follows_prepare_send. Qed.

Create HintDb mq_chat.
#[local] Hint Resolve steady_silent steady_emit steady_select steady_amend steady_begin_outgoing steady_chat_incoming
  steady_prepare_send steady_attempt steady_ignore steady_notify stays_run chat_stays_ret stays_throw silent_ret silent_raise
  silent_lift silent_ask silent_interrupt_error silent_is_cancelled silent_cancel_pending silent_run_fs : mq_chat.

Ltac steady := repeat first
  [ progress (auto with mq_chat)
  | apply steady_ignore | apply steady_attempt
  | apply steady_bind; [|intros ?]
  | match goal with |- steady (match ?x with _ => _ end) => destruct x end
  | match goal with |- steady (if ?x then _ else _) => destruct x end ].
Ltac stays := repeat first
  [ progress (auto with mq_chat)
  | apply stays_run; steady
  | apply stays_seq; [|intros ?]
  | match goal with |- stays (match ?x with _ => _ end) => destruct x end
  | match goal with |- stays (if ?x then _ else _) => destruct x end
  | match goal with |- stays ((fun _ => _) ?x) => destruct x end ].

Section session.
Context (args : Cli) (policy : ReconnectPolicy) (workflow : WorkflowServices).

Lemma steady_cancelled {A} : steady (cancelled : cli W A).
Proof. unfold cancelled. steady. Qed.

Lemma follows_chat_activate ds peer reason (Q : outcome CliError () → ChatStage → Prop) :
  Q (Ok ()) (live ds) → (∀ error, Q (Err error) (gone ds)) →
  follows (dark ds) (activate_workflow host workflow peer reason) Q.
Proof.
  intros Hok Herr. apply follows_bind, follows_attempt, follows_bind. intros e. exists [], (dark ds).
  rewrite app_nil_r. split_and!; [done..|]. intros _. cbv zeta. eapply follows_notify; [done|].
  intros [[]|error|]; [by apply follows_ret| |done]. apply follows_bind, follows_ignore.
  eapply follows_notify; [done|]. intros _. apply follows_bind.
  eapply follows_request; [done..| |]; intros r; by apply follows_raise.
Qed.

(** The announcement is withdrawn, the device reconnected, and announced again. *)
Lemma stays_reconnect reason : stays (reconnect_chat_session host policy workflow reason).
Proof.
  intros ds. unfold reconnect_chat_session.
  assert (follows (dark ds)
    ((info ← run (reconnect_device policy);
      _ ← run (activate_workflow host workflow (SelfInfo_name info) "chat reconnect hook failed");
      _ ← store_connected true; mret info : chat_m W SelfInfo) false)
    (λ r s, match r with
            | Ok (connected, inr a) => connected = true ∧ ∃ ds', s = live ds' ∧ ds' = ds
            | Ok (connected, inl _) => ∃ ds', agrees connected s ds' ∧ ds' = ds
            | Err _ => False
            | Panic => True
            end)) as Hrest.
  { apply follows_bind, follows_bind, follows_attempt, follows_reconnect_device; [done|].
    intros [info|error|]; [| |done]; apply follows_ret; [|by apply follows_ret; exists ds; split; [left|]].
    apply follows_bind, follows_bind, follows_attempt, follows_chat_activate; [|intros error]; apply follows_ret.
    - repeat (apply follows_bind, follows_ret). apply follows_ret. eauto.
    - apply follows_ret. exists ds. split; [by right|done]. }
  apply follows_bind, follows_ret. apply follows_bind, follows_bind, follows_attempt.
  eapply follows_notify; [done|]. intros [[]|error|]; [| |done]; apply follows_ret; [exact Hrest|].
  apply follows_ret. exists ds. split; [by left|done].
Qed.

Lemma stays_list_contacts reason : stays (list_chat_contacts_with_reconnect host policy workflow reason).
Proof.
  pose proof (stays_reconnect reason). pose proof (@steady_cancelled (list Contact * bool)).
  unfold list_chat_contacts_with_reconnect. stays.
Qed.

Lemma stays_emit {T} (record : T) human : stays (run (emit_event (Cli_output args) "chat" record human)).
Proof. apply stays_run, steady_emit. Qed.

(** ** A draft *)

(** A draft is given to the device at most once, and if the session goes on it is
    either accepted, and nothing is retained, or refused, and retained. *)
Definition submitted (draft : RetainedChatDraft) ds (retained_draft : option RetainedChatDraft) ds' : Prop :=
  (ds' = ds ++ [delivery draft true] ∧ retained_draft = None) ∨
  (ds' = ds ++ [delivery draft false] ∧ retained_draft = Some draft).
Definition attempted (draft : RetainedChatDraft) ds ds' : Prop :=
  ds' = ds ∨ ∃ accepted, ds' = ds ++ [delivery draft accepted].

Lemma follows_send_chat_message ds draft (Q : outcome CliError (CoreError + option CommandTracking) → ChatStage → Prop) :
  (∀ r, Q (Ok r) (live (ds ++ [delivery draft (is_ok r)]))) →
  follows (live ds) (send_chat_message (Draft_target draft) (Draft_text draft)) Q.
Proof.
  intros HQ. unfold send_chat_message, delivery, address in *. destruct (Target_channel (Draft_target draft)) as [channel|];
    apply follows_bind; (eapply follows_request; [done..| |]); intros r; apply follows_ret;
    [apply (HQ (inl r))|apply (HQ (inr None))|apply (HQ (inl r))|apply (HQ (inr (Some r)))].
Qed.

Lemma stays_wait target outgoing id tracking :
  stays (wait_for_chat_ack host args policy workflow target outgoing id tracking).
Proof.
  pose proof (stays_reconnect "chat acknowledgement transport failed").
  pose proof (@steady_cancelled (ChatAckOutcome * option CliError)).
  unfold wait_for_chat_ack, acknowledged, timed_out, failed. stays.
Qed.

Lemma stays_accepted draft retained_draft outgoing id tracking :
  stays (chat_accepted host args policy workflow draft retained_draft outgoing id tracking).
Proof.
  unfold chat_accepted, emit_chat_state, sent. apply stays_seq; [stays|intros r].
  apply stays_seq; [stays|intros []]. apply stays_seq; [stays|intros interrupted].
  destruct interrupted; [stays|]. apply stays_seq.
  - destruct tracking as [tracking|]; [|stays]. apply stays_seq; [apply stays_wait|intros [o error]].
    destruct (ack_output o) as [state human]. stays.
  - intros [post reconnected]. stays.
Qed.

Lemma proceeds_submit ds draft : proceeds ds (submit_chat_draft host args policy workflow draft None)
  (λ '(flow, retained_draft) ds', flow ≠ Flow_Quit ∧ submitted draft ds retained_draft ds') (attempted draft ds).
Proof.
  unfold submit_chat_draft. apply chat_stays_bind; [stays|by left|intros outgoing]. cbv zeta.
  apply proceeds_bind, proceeds_run, follows_send_chat_message. intros send_result. eexists. split; [done|].
  assert (attempted draft ds (ds ++ [delivery draft (is_ok send_result)])) as He by (right; eauto).
  destruct send_result as [error|tracking]; simpl in *.
  - unfold failed. apply chat_stays_bind; [stays|done|intros []]. destruct (reconnect_trigger error); [|by apply proceeds_throw].
    apply chat_stays_bind; [stays|done|intros interrupted]. destruct interrupted.
    { apply chat_stays_bind; [stays|done|intros error']. by apply proceeds_throw. }
    apply chat_stays_bind; [apply stays_reconnect|done|intros info].
    apply chat_stays_bind; [apply stays_emit|done|intros []]. apply proceeds_ret. split; [done|]. by right.
  - apply chat_stays_bind; [apply stays_accepted|done|intros reconnected]. apply proceeds_ret.
    split; [by destruct reconnected|]. by left.
Qed.

(** ** A line *)

(** Whom a destination means: a channel if it is a number, and otherwise a contact of
    the device. *)
Definition addressed (destination : rstring) (target : ChatTarget) : Prop :=
  match parse_unsigned 8 destination with
  | Some channel => target = chat_channel_target channel
  | None => ∃ contacts contact, resolve_contact contacts destination = Ok contact ∧ target = chat_contact_target contact
  end.

Lemma proceeds_prepare_target ds destination reason :
  proceeds ds (prepare_chat_target_with_reconnect host policy workflow destination reason)
    (λ '(target, _) ds', ds' = ds ∧ addressed destination target) (λ ds', ds' = ds).
Proof.
  unfold prepare_chat_target_with_reconnect, addressed. destruct (parse_unsigned 8 destination); [by apply proceeds_ret|].
  apply chat_stays_bind; [apply stays_list_contacts|done|intros [contacts reconnected]].
  apply proceeds_bind, proceeds_run, follows_lift. intros _. exists ds. split; [done|].
  destruct (resolve_contact contacts destination) eqn:Hr; [|done|done]. apply proceeds_ret. eauto 6.
Qed.

(** A draft that the hook left of a text typed for a destination. *)
Definition composed (destination text : rstring) (draft : RetainedChatDraft) : Prop :=
  ∃ prepared (e e' : Env W), prepare_send host destination text e = (Ok prepared, e') ∧
    Draft_text draft = Prepared_text prepared ∧ addressed (Prepared_destination prepared) (Draft_target draft).

Lemma proceeds_message ds target text : proceeds ds (chat_message host args policy workflow target None text)
  (λ '(flow, retained_draft) ds', flow ≠ Flow_Quit ∧
     ∃ draft, composed (Target_destination target) text draft ∧ submitted draft ds retained_draft ds')
  (λ ds', ds' = ds ∨ ∃ draft, composed (Target_destination target) text draft ∧ attempted draft ds ds').
Proof.
  unfold chat_message. apply proceeds_bind, proceeds_run.
  eapply follows_mono; [apply follows_result, (steady_prepare_send _ _ ds)|]. intros r s [-> (e & e' & Hp)].
  exists ds. split; [done|]. destruct r as [prepared|error|]; [|by left|done].
  apply proceeds_bind. eapply proceeds_mono; [apply proceeds_prepare_target| |by intros ds' ->; left].
  intros [send_target reconnected] ds' [-> Ha].
  set (draft := mkDraft send_target (Prepared_text prepared)).
  assert (composed (Target_destination target) text draft) as Hc by (exists prepared, e, e'; done).
  apply chat_stays_bind; [unfold announce_reconnect; destruct reconnected; [apply stays_emit|apply chat_stays_ret]|by left|intros []].
  apply proceeds_bind. eapply proceeds_mono; [apply (proceeds_submit ds draft)| |intros ds' Hd; right; eauto].
  intros [flow retained_draft] ds' [Hf Hs]. apply proceeds_ret. split; [|eauto].
  destruct flow, reconnected; done.
Qed.

(** What a line does to the drafts, if the chat goes on; [deliveries] is what it gives
    to the device. *)
Definition line_delivers (target : ChatTarget) (retained_draft : option RetainedChatDraft) (parsed : ParsedChatLine)
    (deliveries : list Delivery) (retained' : option RetainedChatDraft) : Prop :=
  match parsed, retained_draft with
  | Chat_Message text, None =>
      ∃ draft, composed (Target_destination target) text draft ∧ submitted draft [] retained' deliveries
  | Chat_SendRetained, Some draft => submitted draft [] retained' deliveries
  | Chat_DiscardRetained, _ => deliveries = [] ∧ retained' = None
  | _, _ => deliveries = [] ∧ retained' = retained_draft
  end.
(** And if it fails, which ends the chat. *)
Definition line_fails (target : ChatTarget) (retained_draft : option RetainedChatDraft) (parsed : ParsedChatLine)
    (deliveries : list Delivery) : Prop :=
  deliveries = [] ∨
  match parsed, retained_draft with
  | Chat_Message text, None =>
      ∃ draft accepted, composed (Target_destination target) text draft ∧ deliveries = [delivery draft accepted]
  | Chat_SendRetained, Some draft => ∃ accepted, deliveries = [delivery draft accepted]
  | _, _ => False
  end.

Lemma submitted_prefix draft ds r ds' : submitted draft ds r ds' → ∃ new, ds' = ds ++ new ∧ submitted draft [] r new.
Proof. intros [[-> ->]|[-> ->]]; eexists; (split; [done|]); [by left|by right]. Qed.

(** A line that delivers nothing. *)
Lemma stays_line {A} ds (m : chat_m W A) (f : A → chat_m W ChatLineResult) target retained_draft parsed :
  stays m →
  (∀ a, proceeds ds (f a)
     (λ r ds', ∃ new, ds' = ds ++ new ∧ line_delivers target retained_draft parsed new (Line_retained r))
     (λ ds', ∃ new, ds' = ds ++ new ∧ line_fails target retained_draft parsed new)) →
  proceeds ds (m ≫= f)
     (λ r ds', ∃ new, ds' = ds ++ new ∧ line_delivers target retained_draft parsed new (Line_retained r))
     (λ ds', ∃ new, ds' = ds ++ new ∧ line_fails target retained_draft parsed new).
Proof. intros Hm Hf. apply chat_stays_bind; [done| |done]. exists []. rewrite app_nil_r. by split; [|left]. Qed.

Lemma proceeds_line ds target retained_draft line :
  proceeds ds (handle_chat_line host args policy workflow target retained_draft line)
    (λ r ds', ∃ new, ds' = ds ++ new ∧
       line_delivers target retained_draft (parse_chat_line line) new (Line_retained r))
    (λ ds', ∃ new, ds' = ds ++ new ∧ line_fails target retained_draft (parse_chat_line line) new).
Proof.
  unfold handle_chat_line. set (parsed := parse_chat_line line). clearbody parsed.
  assert (∀ r, (line_delivers target retained_draft parsed [] (Line_retained r)) → proceeds ds (mret r)
    (λ r ds', ∃ new, ds' = ds ++ new ∧ line_delivers target retained_draft parsed new (Line_retained r))
    (λ ds', ∃ new, ds' = ds ++ new ∧ line_fails target retained_draft parsed new)) as Hret.
  { intros r Hr. apply proceeds_ret. exists []. by rewrite app_nil_r. }
  assert (∀ b draft_retained human, stays (announce_reconnect args b target draft_retained human)) as Hann.
  { intros b ? ?. unfold announce_reconnect. destruct b; [apply stays_emit|apply chat_stays_ret]. }
  destruct parsed as [|text| |query|query|channel|limit| | | |command message suggestion].
  - by apply Hret; destruct retained_draft.
  - apply proceeds_bind. destruct retained_draft as [draft|].
    + unfold chat_message. apply chat_stays_bind; [apply stays_emit|exists []; rewrite app_nil_r; by split; [|left]|].
      intros []. apply proceeds_ret. by apply Hret.
    + eapply proceeds_mono; [apply proceeds_message| |].
      * intros [flow retained_draft] ds' (_ & draft & Hc & (new & -> & Hs)%submitted_prefix).
        apply proceeds_ret. exists new. split; [done|]. simpl. eauto.
      * intros ds' [->|(draft & Hc & [->|[accepted ->]])]; [exists []..|]; rewrite ?app_nil_r; [by split; [|left]..|].
        eexists. split; [done|]. right. simpl. eauto.
  - apply stays_line; [apply stays_emit|intros []]. by apply Hret; destruct retained_draft.
  - apply stays_line; [apply stays_list_contacts|intros [contacts reconnected]].
    apply stays_line; [apply Hann|intros []]. apply stays_line; [apply stays_emit|intros []].
    by apply Hret; destruct retained_draft.
  - apply stays_line; [apply stays_list_contacts|intros [contacts reconnected]].
    apply stays_line; [apply Hann|intros []]. apply stays_line.
    { destruct (resolve_contact contacts query); unfold emit_chat_destination_changed, emit_chat_command_error; stays. }
    intros target'. by apply Hret; destruct retained_draft.
  - apply stays_line; [apply stays_emit|intros []]. by apply Hret; destruct retained_draft.
  - apply stays_line; [|intros []; by apply Hret; destruct retained_draft].
    unfold emit_chat_history, workflow_load_history, load_history. apply stays_run.
    apply steady_bind; [destruct (Workflow_history_store workflow); steady|intros loaded]. apply steady_emit.
  - destruct retained_draft as [draft|]; [|apply stays_line; [apply stays_emit|intros []; by apply Hret]].
    apply proceeds_bind. eapply proceeds_mono; [apply proceeds_submit| |].
    + intros [flow retained_draft] ds' (_ & (new & -> & Hs)%submitted_prefix). apply proceeds_ret. eauto.
    + intros ds' [->|[accepted ->]]; [exists []; rewrite app_nil_r; by split; [|left]|].
      eexists. split; [done|]. right. simpl. eauto.
  - destruct retained_draft as [draft|]; (apply stays_line; [apply stays_emit|intros []; by apply Hret]).
  - by apply Hret; destruct retained_draft.
  - apply stays_line; [apply stays_emit|intros []]. by apply Hret; destruct retained_draft.
Qed.

(** ** The inbox and the events *)

Lemma steady_emit_incoming message origin : steady (emit_chat_incoming host args workflow message origin).
Proof. unfold emit_chat_incoming. steady. Qed.
Lemma steady_error_event : steady (chat_error_event host).
Proof. unfold chat_error_event, workflow_error. steady. Qed.
#[local] Hint Resolve steady_emit_incoming steady_error_event : mq_chat.

Lemma steady_drain_events fuel : ∀ active, steady (drain_events host args workflow fuel active).
Proof. induction fuel as [|fuel IH]; intros active; simpl; steady. Qed.
#[local] Hint Resolve steady_drain_events : mq_chat.

Lemma steady_poll fuel : ∀ active, steady (poll_chat_incoming host args workflow fuel active).
Proof.
  pose proof (@steady_cancelled ()).
  induction fuel as [|fuel IH]; intros active; cbn [poll_chat_incoming]; [steady|].
  apply steady_bind; [steady|]. intros [[error|message]|]; [steady| |done].
  apply steady_bind; [steady|intros active']. apply steady_bind; [steady|intros []]. steady.
Qed.

Lemma stays_drain_inbox fuel target : stays (drain_chat_inbox_with_reconnect host args policy workflow fuel target).
Proof.
  intros ds. pose proof (steady_poll fuel true) as Hp. unfold drain_chat_inbox_with_reconnect.
  apply proceeds_bind. apply proceeds_catch, follows_bind, follows_attempt. eapply follows_mono; [apply Hp|].
  intros [[]|error|] s ->; [| |done]; apply follows_ret; (split; [done|]); exists ds; (split; [done|]).
  - by apply proceeds_ret.
  - case_bool_decide; [|by apply proceeds_throw].
    apply chat_stays_bind; [apply stays_reconnect|done|intros info].
    apply chat_stays_bind; [apply stays_emit|done|intros []]. by apply stays_run.
Qed.

Lemma proceeds_event ds received st : proceeds ds (chat_event host args policy workflow received st)
  (λ st' ds', ds' = ds ∧ Chat_target st' = Chat_target st ∧ Chat_retained st' = Chat_retained st) (λ ds', ds' = ds).
Proof.
  destruct st as [target retained_draft pending]. unfold chat_event.
  destruct received as [event|skipped| |]; [|apply chat_stays_bind; [apply stays_emit|done|intros []]; by apply proceeds_ret
    |by apply proceeds_throw|by apply proceeds_ret].
  destruct event; try (by apply proceeds_ret);
    try (apply chat_stays_bind; [apply stays_run; steady|done|intros r; by apply proceeds_ret]).
  destruct (0 <? pending); [by apply proceeds_ret|].
  eapply proceeds_catch_bind; [apply stays_reconnect| |].
  - intros info ds' ->. apply chat_stays_bind; [apply stays_emit|done|intros []]. by apply proceeds_ret.
  - intros error connected s ds' Ha ->. apply follows_bind, follows_bind, follows_attempt, follows_silent; [apply silent_ask|].
    intros [interrupted|e|] _; [|by apply follows_ret; apply follows_ret|done]. apply follows_ret.
    destruct interrupted; [|by apply follows_ret].
    apply follows_bind, follows_bind, follows_attempt, follows_silent; [apply silent_interrupt_error|].
    intros [e|e|] _; [| |done]; apply follows_ret; by apply follows_ret.
Qed.

(** ** The loop *)

Definition anything {A} (_ : A) ds : Prop := True.
Definition any_failure ds : Prop := True.

Lemma proceeds_chat_line ds st : proceeds ds (chat_line host args policy workflow st) anything any_failure.
Proof.
  assert (∀ error, steady (reader_running error)) as Hr by (intros error; unfold reader_running; steady).
  unfold chat_line. apply chat_stays_bind; [|done|intros line].
  { apply stays_run. unfold next_line. apply steady_bind; [apply Hr|intros []]. apply steady_silent, silent_read_line. }
  destruct line as [line|]; [|by apply proceeds_ret].
  apply proceeds_bind. eapply proceeds_mono; [apply proceeds_line| |done]. intros r ds' _. cbv zeta.
  assert (∀ pending, proceeds ds' (interrupted ← run is_cancelled;
    if interrupted : bool then error ← run interrupt_error; throw error
    else _ ← run resume_input; mret (Some (mkChatState (Line_target r) (Line_retained r) pending)))
    anything any_failure) as Hgo.
  { intros pending. apply chat_stays_bind; [stays|done|intros interrupted].
    destruct interrupted; (apply chat_stays_bind; [stays|done|intros x]); [by apply proceeds_throw|by apply proceeds_ret]. }
  destruct (Line_flow r); [apply Hgo|by apply proceeds_ret|apply Hgo].
Qed.

Lemma proceeds_loop fuel : ∀ ds st, proceeds ds (chat_loop host args policy workflow fuel st) anything any_failure.
Proof.
  induction fuel as [|fuel IH]; intros ds st; cbn [chat_loop].
  { apply proceeds_run, follows_lift. intros Hn. by destruct Hn. }
  apply proceeds_bind. unfold chat_turn. apply chat_stays_bind; [stays|done|intros ready].
  destruct (Ready_interrupt ready).
  { apply chat_stays_bind; [stays|done|intros error]. by apply proceeds_throw. }
  destruct (Ready_event ready) as [received|].
  - apply proceeds_bind. eapply proceeds_mono; [apply proceeds_event| |done]. intros st' ds' _. apply proceeds_ret, IH.
  - destruct (Ready_input ready); [|apply proceeds_ret, IH].
    eapply proceeds_mono; [apply proceeds_chat_line| |done]. intros [st'|] ds' _; [apply IH|by apply proceeds_ret].
Qed.

(** ** The session *)

(** Over: shut down, with nothing announced. *)
Definition chat_over (s : ChatStage) : Prop := s = chat_rest ∨ ∃ ds, s = gone ds.

Lemma follows_chat_cleanup ds connected s reason (Q : outcome CliError () → ChatStage → Prop) :
  agrees connected s ds → Q (Ok ()) (gone ds) → follows s (cleanup_chat_workflow host workflow reason connected) Q.
Proof.
  intros Ha HQ. unfold cleanup_chat_workflow. destruct connected; simpl in Ha.
  - subst s. apply follows_bind, follows_ignore. eapply follows_notify; [done|]. intros _.
    apply follows_bind. eapply follows_request; [done..| |]; intros r; by apply follows_ret.
  - apply follows_bind. destruct Ha as [->| ->]; (eapply follows_request; [done..| |]); intros r; by apply follows_ret.
Qed.

(** What follows a step of the session: if the step failed, the session is cleaned up. *)
Lemma follows_conclude_step {A} ds (m : chat_m W A) (k : bool * (CliError + A) → cli W ()) K reason :
  proceeds ds m K any_failure →
  (∀ connected error, k (connected, inl error) = (_ ← cleanup_chat_workflow host workflow reason connected; raise error)) →
  (∀ a ds', K a ds' → follows (live ds') (k (true, inr a)) (λ _ s, chat_over s)) →
  follows (live ds) (m true ≫= k) (λ _ s, chat_over s).
Proof.
  intros Hm Herr Hok. apply follows_bind. eapply follows_mono; [exact Hm|].
  intros [[c [error|a]]|error|] s Hs; [| |done|done].
  - destruct Hs as (ds' & Ha & _). rewrite Herr. apply follows_bind. eapply follows_chat_cleanup; [done|].
    apply follows_raise. right. eauto.
  - destruct Hs as (-> & ds' & -> & HK). by apply Hok.
Qed.

Lemma follows_chat_finish ds reason : follows (live ds) (finish_workflow host workflow reason) (λ _ s, chat_over s).
Proof.
  apply follows_bind, follows_attempt. eapply follows_notify; [done|].
  assert (∀ x : CliError + (), follows (dark ds)
    (shutdown_result ← attempt (finish (inr ()));
     match x, shutdown_result with
     | inl primary, _ => raise primary
     | inr _, inl error => raise error
     | inr _, inr _ => mret ()
     end) (λ _ s, chat_over s)) as Hx.
  { intros x. assert (chat_over (gone ds)) by (right; eauto).
    apply follows_bind, follows_attempt, follows_bind. eapply follows_request; [done..| |]; intros r;
      [apply follows_raise|apply follows_ret]; destruct x; by first [apply follows_raise|apply follows_ret]. }
  by intros [[]|error|]; [apply (Hx (inr ()))|apply (Hx (inl error))|].
Qed.

Lemma follows_chat_connected fuel destination ds :
  follows (live ds) (chat_connected host args policy workflow fuel destination) (λ _ s, chat_over s).
Proof.
  assert (∀ A (m : chat_m W A) ds, stays m → proceeds ds m anything any_failure) as Hs.
  { intros A m ds' Hm. by eapply proceeds_mono; [apply Hm|..]. }
  unfold chat_connected. eapply follows_conclude_step; [|done|].
  { eapply proceeds_mono; [apply proceeds_prepare_target|by intros a; instantiate (1 := anything)|done]. }
  intros [target reconnected] ds1 _. eapply follows_conclude_step; [apply Hs, stays_emit|done|].
  intros [] ds2 _. eapply follows_conclude_step; [apply Hs|done|].
  { unfold announce_reconnect. destruct reconnected; [apply stays_emit|apply chat_stays_ret]. }
  intros [] ds3 _. eapply follows_conclude_step; [|done|].
  { unfold run_chat_lines. apply chat_stays_bind; [apply stays_drain_inbox|done|intros []].
    apply chat_stays_bind; [apply stays_run; unfold spawn_input, reader_running; steady|done|intros []]. apply proceeds_loop. }
  intros [] ds4 _. apply follows_chat_finish.
Qed.
End session.
End chat.

Lemma follows_chat `{Companion W} `{ChatWorld W} host `{ConfigToml} `{Crates} `{HistoryCodec} `{HookJson}
    `{CliJson} `{UnicodeTables} fuel args options :
  follows chat_rest (chat host fuel args options) (λ _ s, s = chat_rest ∨ ∃ deliveries, s = gone deliveries).
Proof.
  assert (∀ ds, chat_over (gone ds)) as Hgone by (right; eauto). assert (chat_over chat_rest) as Hrest by (by left).
  unfold chat. apply follows_bind, follows_silent.
  { destruct (Chat_line options); [apply silent_ret|]. unfold emit_diagnostic. destruct (Cli_quiet args); [apply silent_ret|].
    apply silent_bind; [apply silent_attempt, silent_write_stderr|intros; apply silent_ret]. }
  intros [[]|error|] _; [|done|done]. apply follows_bind, follows_silent.
  { unfold chat_destination, prompt_chat_destination.
    destruct (Chat_destination options) as [value|]; [destruct (trim_is_empty value)|];
      repeat first [apply silent_if | apply silent_ret | apply silent_raise | apply silent_bind
        | apply silent_write_stderr | apply silent_read_line | intros ?]. }
  intros [destination|error|] _; [|done|done].
  apply follows_bind, follows_silent; [apply silent_select_profile|]. intros [selected|error|] _; [|done|done].
  apply follows_bind, follows_silent; [apply silent_from_selected|]. intros [workflow|error|] _; [|done|done].
  apply follows_bind, follows_silent; [apply silent_make_client|]. intros [[]|error|] _; [|done|done].
  apply follows_bind. eapply follows_select; [done..| | |].
  - apply follows_ask. intros []. apply follows_bind. eapply follows_request; [done..| |]; intros r;
      apply follows_interrupt_error; intros error; by apply follows_raise, Hgone.
  - intros error. apply follows_bind. eapply follows_request; [done..| |]; intros r; by apply follows_raise, Hgone.
  - intros info. apply follows_bind, (follows_chat_activate _ _ []); [|intros error; apply Hgone]. apply follows_chat_connected.
Qed.

(** C16: a chat keeps to its protocol.  However it goes - the hooks, the history, the
    output, the reader, the device and the interrupt may fail at any point - the
    session is announced to the hooks only while the device is connected, each
    announcement is withdrawn before the device is reconnected or shut down, nothing is
    listed, drained, sent or awaited outside an announced session, the device is asked
    for nothing else, and at the end the client is shut down and nothing is
    announced. *)
Theorem chat_keeps_protocol `{Companion W} `{ChatWorld W} host `{ConfigToml} `{Crates} `{HistoryCodec} `{HookJson}
    `{CliJson} `{UnicodeTables} fuel args options :
  follows chat_rest (chat host fuel args options) (λ _ s, s = chat_rest ∨ ∃ deliveries, s = gone deliveries).
Proof. by apply follows_chat. Qed.

(** A contact whose name is a number, chosen with [/to], is addressed as a channel: the
    text of the destination is resolved again for each message. *)
Lemma numeric_name_is_channel `{UnicodeTables} contact channel target :
  parse_unsigned 8 (Contact_adv_name contact) = Some channel →
  addressed (Target_destination (chat_contact_target contact)) target → address target = inl channel.
Proof. intros Hc Ha. unfold addressed in Ha. simpl in Ha. rewrite Hc in Ha. by subst target. Qed.

