(* ===== verification/RemoteCli.v ===== *)
(** * Command line: remote administration and sensors (crates/meshquill-cli/src/remote_cli.rs)

    [remote] and [sensor]: each command is one session in which a contact is looked up
    and queried, with the password of [remote login] read from standard input, from the
    credential store or from the terminal; and what these sessions guarantee. *)

From S2P Require Import Prelude Text Order Floats Domain Packet Discovery Managed Remote Hooks HookRuntime Store.
From S2P Require Import History Paths MqttConfig Config CliOutput CliArgs Suggest Resolve Session CliConfig Workflow.
From S2P Require Import Send Commands CommandProps Watch Doctor Consent.

Definition CREDENTIAL_SERVICE : string := "meshquill.remote".
Definition MAX_PASSWORD_BYTES : nat := 1024.

(** ** Reports *)

Record LoginReport := mkLoginReport {
  LoginReport_profile : rstring;
  LoginReport_contact : rstring;
  LoginReport_authenticated : bool;
  LoginReport_admin : bool;
  LoginReport_permissions : u8;
  LoginReport_acl_permissions : option u8;
  LoginReport_server_timestamp : option u32;
  LoginReport_firmware_version_level : option u8;
  LoginReport_credential_saved : bool
}.
Record LogoutReport := mkLogoutReport {
  LogoutReport_profile : rstring;
  LogoutReport_contact : rstring;
  LogoutReport_logged_out : bool
}.
Record CredentialForgetReport := mkCredentialForgetReport {
  ForgetReport_profile : rstring;
  ForgetReport_contact : rstring;
  ForgetReport_forgotten : bool
}.
Record RemoteRunReport := mkRemoteRunReport {
  RunReport_profile : rstring;
  RunReport_contact : rstring;
  RunReport_command_kind : rstring;
  RunReport_destructive : bool;
  RunReport_queued : bool;
  RunReport_acknowledgement : rstring;
  RunReport_suggested_timeout_ms : u32
}.
Record RemoteStatusReport := mkRemoteStatusReport {
  StatusReport_profile : rstring;
  StatusReport_contact : rstring;
  StatusReport_status : RemoteStatus
}.
Record NeighboursReport := mkNeighboursReport {
  NeighboursReport_profile : rstring;
  NeighboursReport_contact : rstring;
  NeighboursReport_prefix_length : u8;
  NeighboursReport_page : NeighbourPage
}.
Record RegionsReport := mkRegionsReport {
  RegionsReport_profile : rstring;
  RegionsReport_contact : rstring;
  RegionsReport_response : RegionsResponse
}.
Record OwnerReport := mkOwnerReport {
  OwnerReport_profile : rstring;
  OwnerReport_contact : rstring;
  OwnerReport_response : OwnerResponse
}.
Record ClockReport := mkClockReport {
  ClockReport_profile : rstring;
  ClockReport_contact : rstring;
  ClockReport_remote_clock : u32;
  ClockReport_feature_kind : u8;
  ClockReport_disabled : bool;
  ClockReport_synchronized : bool;
  ClockReport_acknowledgement : option rstring
}.
Record TelemetryReport := mkTelemetryReport {
  TelemetryReport_profile : rstring;
  TelemetryReport_contact : rstring;
  TelemetryReport_samples : list TelemetrySample
}.
Record SummaryReport := mkSummaryReport {
  SummaryReport_profile : rstring;
  SummaryReport_contact : rstring;
  SummaryReport_start_secs_ago : u32;
  SummaryReport_end_secs_ago : u32;
  SummaryReport_summary : SummaryResponse
}.
Record AclReport := mkAclReport {
  AclReport_profile : rstring;
  AclReport_contact : rstring;
  AclReport_acl : AclResponse
}.

(** ** Helpers *)

(** [char::is_ascii_whitespace]. *)
Definition is_ascii_whitespace (b : Z) : bool := bool_decide (b ∈ [0x20; 0x09; 0x0a; 0x0c; 0x0d]%Z).
(** [split_ascii_whitespace().next().unwrap_or_default()]. *)
Fixpoint word_from (s : bytes) : bytes :=
  match s with
  | [] => []
  | b :: s => if is_ascii_whitespace b then [] else b :: word_from s
  end.
Fixpoint first_word (s : bytes) : bytes :=
  match s with
  | [] => []
  | b :: rest => if is_ascii_whitespace b then first_word rest else word_from s
  end.

Definition READ_ONLY_COMMANDS : list string :=
  ["?"; "help"; "info"; "status"; "stats"; "uptime"; "ver"; "version"; "clock"].
Definition is_read_only_command (command : rstring) : bool :=
  bool_decide (to_ascii_lowercase (trimmed command) ∈ (str_bytes <$> READ_ONLY_COMMANDS)).

Definition remote_payload_error (error : RemotePayloadError) : CliError :=
  with_hint (CliError_new Exit_Protocol "the remote node returned a malformed or unsupported payload")
    "Check the remote firmware version and retry the bounded query.".
Definition credential_worker_error : CliError :=
  CliError_new Exit_Authentication "the operating-system credential worker was interrupted".

Definition neighbour_order (order : NeighbourOrderChoice) : NeighbourOrder :=
  match order with
  | Order_Newest => NeighbourOrder_Newest | Order_Oldest => NeighbourOrder_Oldest
  | Order_Strongest => NeighbourOrder_Strongest | Order_Weakest => NeighbourOrder_Weakest
  end.

(** [names.join(", ")]. *)
Definition join_comma (ls : list rstring) : rstring :=
  match ls with [] => [] | l :: ls => l ++ concat ((λ l, str_bytes ", " ++ l) <$> ls) end.

(** The operating system's credential store as it answers the next call, whether a
    blocking worker is joined, and the hidden prompt of the terminal. *)
Class Vault (W : Type) := {
  vault_keyring : W → Keyring * W;
  vault_worker : W → bool * W;
  vault_prompt : W → option rstring * W
}.

Section remote.
Context `{Companion W} `{Vault W} (host : Host).
Context `{ConfigToml} `{Crates} `{HistoryCodec} `{HookJson} `{CliJson} `{UnicodeTables}.

Definition request_nonce : cli W u32 :=
  '(elapsed, counter) ← ask comp_nonce;
  elapsed ← lift (ok_or elapsed
    (CliError_new Exit_Protocol "system time is unavailable for remote request correlation"));
  let digest := sha256 (to_le_bytes 16 elapsed ++ to_le_bytes 4 (Host_pid host) ++ to_le_bytes 4 counter) in
  mret (Z.max (from_le_bytes (take 4 digest)) 1).

Definition credential_account (path : bytes) (profile : rstring) (contact : Contact) : rstring :=
  let digest := sha256 (path ++ [0%Z] ++ profile ++ [0%Z] ++ PublicKey_0 (Contact_public_key contact)) in
  str_bytes "remote-" ++ hex_encode (take 16 digest).

(** [spawn_blocking(..).await.map_err(|_| credential_worker_error())?]. *)
Definition joined : cli W () :=
  finished ← ask vault_worker; if finished : bool then mret () else raise credential_worker_error.
Definition with_keyring {A} (f : Keyring → outcome StoreError A) : cli W (outcome StoreError A) :=
  keyring ← ask vault_keyring; _ ← joined; mret (f keyring).

Definition store_credential (account password : rstring) : cli W () :=
  r ← with_keyring (λ keyring, set_credential keyring (str_bytes CREDENTIAL_SERVICE) account password);
  _ ← of_store r;
  record_event (Ev_Credential true account).

Definition delete_remote_credential (account : rstring) : cli W () :=
  r ← with_keyring (λ keyring, delete_credential keyring (str_bytes CREDENTIAL_SERVICE) account);
  _ ← of_store r;
  record_event (Ev_Credential false account).

(** [read_password_stdin], here and in mqtt_cli.rs: the first [maximum + 1] bytes of the
    input are the password called [name]. *)
Definition check_password (name : string) (maximum : nat) (bytes : bytes) : outcome CliError rstring :=
  if maximum <? length bytes then
    Err (CliError_new Exit_Usage (name +:+ " password exceeds the " +:+ pretty maximum +:+ "-byte limit"))
  else
    let bytes := strip_line_ending bytes in
    if bool_decide (bytes = []) then Err (CliError_new Exit_Usage (name +:+ " password from stdin must not be empty"))
    else
      password ← ok_or (from_utf8 bytes)
                   (CliError_new Exit_Usage (name +:+ " password from stdin must be valid UTF-8"));
      if bool_decide (0%Z ∈ password) then
        Err (CliError_new Exit_Usage (name +:+ " password from stdin must not contain NUL"))
      else Ok password.

Definition read_password (name : string) (maximum : nat) : cli W rstring := λ e,
  let input := Env_stdin e in
  let e := mkEnv (Env_world e) (Env_fs e) (Env_hooks e) (Env_tracker e)
             (mkInput (drop (maximum + 1) (Input_pending input)) None) (Env_stdout e) (Env_stderr e) (Env_log e) in
  (match Input_error input with
   | Some false => Err (CliError_new Exit_Authentication ("could not read the " +:+ name +:+ " password from stdin"))
   | _ => check_password name maximum (take (maximum + 1) (Input_pending input))
   end, e).
Definition read_password_stdin : cli W rstring := read_password "remote" MAX_PASSWORD_BYTES.

Definition resolve_login_password (args : Cli) (password_stdin : bool) (account : rstring) : cli W rstring :=
  if password_stdin then read_password_stdin
  else
    stored ← with_keyring (λ keyring,
               resolve keyring (λ name, Host_env host (bytes_str name))
                 (Secret_CredentialStore (str_bytes CREDENTIAL_SERVICE) account));
    match stored with
    | Ok password => mret password
    | Panic => lift Panic
    | Err _ =>
        if Cli_non_interactive args || negb (Host_stdin_terminal host) then
          raise (with_hint (CliError_new Exit_Authentication
                              "no stored remote credential is available in non-interactive mode")
                   "Pipe the password to `remote login --password-stdin`, optionally with --save.")
        else
          password ← ask vault_prompt;
          _ ← joined;
          lift (ok_or password
                  (CliError_new Exit_Authentication "could not read the remote password securely"))
    end.

(** ** In the session *)

Definition load_contact (query : rstring) : cli W Contact :=
  contacts ← require (ActorCommand_ListContacts None);
  lift (resolve_contact contacts query).

Definition key_of (contact : Contact) : bytes := PublicKey_0 (Contact_public_key contact).

Definition require_session (contact : Contact) : cli W () :=
  connected ← require (ActorCommand_HasConnection (key_of contact));
  if connected : bool then mret ()
  else
    raise (with_hint (CliError_new Exit_Authentication
                        ("no authenticated remote session exists for '" +:+ bytes_str (Contact_adv_name contact)
                           +:+ "'"))
             "Run `meshquill remote login CONTACT` first.").

Definition anonymous (contact : Contact) (kind : AnonymousRequestKind) : cli W BinaryResponse :=
  path ← lift (map_err cli_of_core (Path_try_from_bytes []));
  require (ActorCommand_AnonymousRequest (key_of contact) (AnonymousRequestKind_code kind)
             (ContactRoute_Path 0 0) path).

(** A query of the remote node within an authenticated session. *)
Definition binary_query {A} (contact : Contact) (kind : BinaryRequestKind) (payload : bytes)
    (parse : bytes → remote A) : cli W A :=
  _ ← require_session contact;
  response ← require (ActorCommand_BinaryRequest (key_of contact) (BinaryRequestKind_code kind) payload);
  lift (map_err remote_payload_error (parse (BinaryResponse_payload response))).

(** ** [remote] *)

Definition quoted (contact : rstring) : rstring := str_bytes "'" ++ contact ++ str_bytes "'".

Definition remote_login (args : Cli) (query : rstring) (password_stdin save : bool) : cli W () :=
  in_one_session host args "remote login"
    (λ selected _ _,
       contact ← load_contact query;
       let account := credential_account (str_bytes (Selected_path selected)) (Selected_name selected) contact in
       password ← resolve_login_password args password_stdin account;
       session ← require (ActorCommand_Login (key_of contact) password);
       _ ← (if save then store_credential account password else mret ());
       mret (contact, session)) "remote_login"
    (λ selected '(contact, session),
       mkLoginReport (Selected_name selected) (Contact_adv_name contact) true (LoginSession_is_admin session)
         (LoginSession_permissions session) (LoginSession_acl_permissions session)
         (LoginSession_server_timestamp session) (LoginSession_firmware_version_level session) save)
    (λ report _, str_bytes "Authenticated to " ++ quoted (LoginReport_contact report)
       ++ str_bytes ((if LoginReport_admin report then " as administrator" else "")
                       +:+ (if LoginReport_credential_saved report then " and saved the credential" else ""))).

Definition remote_logout (args : Cli) (query : rstring) : cli W () :=
  in_one_session host args "remote logout"
    (λ _ _ _,
       contact ← load_contact query;
       _ ← require_session contact;
       _ ← require (ActorCommand_Logout (key_of contact));
       mret contact) "remote_logout"
    (λ selected contact, mkLogoutReport (Selected_name selected) (Contact_adv_name contact) true)
    (λ report _, str_bytes "Ended the remote session with " ++ quoted (LogoutReport_contact report)).

Definition credentials_forget (args : Cli) (query : rstring) : cli W () :=
  _ ← confirm host args "delete the stored remote credential";
  in_one_session host args "remote credentials forget"
    (λ selected _ _,
       contact ← load_contact query;
       _ ← delete_remote_credential
             (credential_account (str_bytes (Selected_path selected)) (Selected_name selected) contact);
       mret contact) "remote_credential_forgotten"
    (λ selected contact, mkCredentialForgetReport (Selected_name selected) (Contact_adv_name contact) true)
    (λ report _, str_bytes "Deleted the stored credential for " ++ quoted (ForgetReport_contact report)).

Definition remote_run (args : Cli) (options : RemoteRunArgs) : cli W () :=
  let command := trimmed (RemoteRun_command options) in
  if bool_decide (command = []) || bool_decide (0%Z ∈ command) then
    raise (CliError_new Exit_Usage "remote command must be non-empty and must not contain NUL")
  else
    let command_kind := to_ascii_lowercase (first_word command) in
    let read_only := is_read_only_command command in
    if negb read_only && negb (RemoteRun_destructive options) then
      raise (with_hint (CliError_new Exit_Denied "remote command is not in the conservative read-only allowlist")
               "Review it, add --destructive, and confirm with --yes for automation.")
    else
      _ ← (if negb read_only then confirm host args "send the explicitly marked destructive remote command"
           else mret ());
      in_one_session host args "remote run"
        (λ _ _ _,
           contact ← load_contact (RemoteRun_contact options);
           _ ← require_session contact;
           tracking ← require (ActorCommand_SendDirectCommand (take 6 (key_of contact)) 0 command);
           mret (contact, tracking)) "remote_command"
        (λ selected '(contact, tracking),
           mkRemoteRunReport (Selected_name selected) (Contact_adv_name contact) command_kind (negb read_only) true
             (hex_encode (CommandTracking_ack_code tracking)) (CommandTracking_timeout_ms tracking))
        (λ report _, str_bytes "Queued remote " ++ quoted (RunReport_command_kind report) ++ str_bytes " command for "
           ++ quoted (RunReport_contact report) ++ str_bytes " (ack " ++ RunReport_acknowledgement report
           ++ str_bytes ")").

(** [{:.2}] of the link quality, which the parser reads as a number of quarters. *)
Definition format_snr (snr : f32) : string := format_qdb (default 0%Z (sf_quarters snr)).

Definition remote_status (args : Cli) (query : rstring) : cli W () :=
  in_one_session host args "remote status"
    (λ _ _ _,
       contact ← load_contact query;
       _ ← require_session contact;
       status ← require (ActorCommand_RemoteStatus (key_of contact));
       mret (contact, status)) "remote_status"
    (λ selected '(contact, status), mkRemoteStatusReport (Selected_name selected) (Contact_adv_name contact) status)
    (λ report _, let status := StatusReport_status report in
       StatusReport_contact report
         ++ str_bytes (": " +:+ pretty (RemoteStatus_battery_mv status) +:+ " mV, uptime "
              +:+ pretty (RemoteStatus_uptime_seconds status) +:+ "s, RSSI " +:+ pretty (RemoteStatus_last_rssi status)
              +:+ ", SNR " +:+ format_snr (RemoteStatus_last_snr status) +:+ " dB")).

Definition neighbours (args : Cli) (options : RemoteNeighboursArgs) : cli W () :=
  nonce ← request_nonce;
  payload ← lift (map_err remote_payload_error
              (NeighbourQuery_encode (NeighbourQuery_new (Neighbours_count options) (Neighbours_offset options)
                 (neighbour_order (Neighbours_order options)) (Neighbours_prefix_length options) nonce)));
  in_one_session host args "remote neighbours"
    (λ _ _ _,
       contact ← load_contact (Neighbours_contact options);
       page ← binary_query contact BinaryRequestKind_Neighbours payload
                (λ payload, parse_neighbour_page payload (Neighbours_prefix_length options));
       mret (contact, page)) "remote_neighbours"
    (λ selected '(contact, page),
       mkNeighboursReport (Selected_name selected) (Contact_adv_name contact) (Neighbours_prefix_length options) page)
    (λ report _, let page := NeighboursReport_page report in
       NeighboursReport_contact report
         ++ str_bytes (" returned " +:+ pretty (NeighbourPage_result_count page) +:+ " of "
              +:+ pretty (NeighbourPage_total_count page) +:+ " neighbours")).

(** A query that needs no session. *)
Definition anonymous_query {A} (contact : Contact) (kind : AnonymousRequestKind) (parse : bytes → remote A) : cli W A :=
  response ← anonymous contact kind;
  lift (map_err remote_payload_error (parse (BinaryResponse_payload response))).

Definition regions (args : Cli) (query : rstring) : cli W () :=
  in_one_session host args "remote regions"
    (λ _ _ _,
       contact ← load_contact query;
       response ← anonymous_query contact AnonymousRequestKind_Regions parse_regions_response;
       mret (contact, response)) "remote_regions"
    (λ selected '(contact, response), mkRegionsReport (Selected_name selected) (Contact_adv_name contact) response)
    (λ report _, RegionsReport_contact report ++ str_bytes ": "
                   ++ join_comma (RegionsResponse_names (RegionsReport_response report))).

Definition owner (args : Cli) (query : rstring) : cli W () :=
  in_one_session host args "remote owner"
    (λ _ _ _,
       contact ← load_contact query;
       response ← anonymous_query contact AnonymousRequestKind_Owner parse_owner_response;
       mret (contact, response)) "remote_owner"
    (λ selected '(contact, response), mkOwnerReport (Selected_name selected) (Contact_adv_name contact) response)
    (λ report _, let response := OwnerReport_response report in
       OwnerReport_contact report ++ str_bytes ": " ++ OwnerResponse_name response ++ str_bytes " ("
         ++ OwnerResponse_owner response ++ str_bytes ")").

Definition clock_report (selected : SelectedProfile) (contact : Contact) (basic : BasicResponse) (synchronized : bool)
    (acknowledgement : option rstring) : ClockReport :=
  mkClockReport (Selected_name selected) (Contact_adv_name contact) (BasicResponse_clock basic)
    (RemoteFeature_kind (BasicResponse_feature basic)) (RemoteFeature_disabled (BasicResponse_feature basic))
    synchronized acknowledgement.

Definition remote_clock (args : Cli) (options : RemoteClockArgs) : cli W () :=
  in_one_session host args "remote clock"
    (λ _ _ _,
       contact ← load_contact (RemoteClock_contact options);
       basic ← anonymous_query contact AnonymousRequestKind_Basic parse_basic_response;
       acknowledgement ← (if RemoteClock_sync options then
                            _ ← require_session contact;
                            tracking ← require (ActorCommand_SendDirectCommand (take 6 (key_of contact)) 0
                                                  (str_bytes "clock sync"));
                            mret (Some (hex_encode (CommandTracking_ack_code tracking)))
                          else mret None);
       mret (contact, basic, acknowledgement)) "remote_clock"
    (λ selected '(contact, basic, acknowledgement),
       clock_report selected contact basic (RemoteClock_sync options) acknowledgement)
    (λ report _, str_bytes "Remote clock for " ++ quoted (ClockReport_contact report)
       ++ str_bytes (if ClockReport_synchronized report then
                       " was " +:+ pretty (ClockReport_remote_clock report)
                         +:+ " before the synchronization command was queued"
                     else ": " +:+ pretty (ClockReport_remote_clock report))).

Definition remote (args : Cli) (command : RemoteCommand) : cli W () :=
  match command with
  | Remote_Login contact password_stdin save => remote_login args contact password_stdin save
  | Remote_Logout contact => remote_logout args contact
  | Remote_Run options => remote_run args options
  | Remote_Status contact => remote_status args contact
  | Remote_Neighbours options => neighbours args options
  | Remote_Regions contact => regions args contact
  | Remote_Owner contact => owner args contact
  | Remote_Clock options => remote_clock args options
  | Remote_CredentialsForget contact => credentials_forget args contact
  end.

(** ** [sensor] *)

Definition telemetry (args : Cli) (query : rstring) : cli W () :=
  in_one_session host args "sensor telemetry"
    (λ _ _ _,
       contact ← load_contact query;
       samples ← binary_query contact BinaryRequestKind_Telemetry [] parse_telemetry_payload;
       mret (contact, samples)) "sensor_telemetry"
    (λ selected '(contact, samples), mkTelemetryReport (Selected_name selected) (Contact_adv_name contact) samples)
    (λ report _, TelemetryReport_contact report
       ++ str_bytes (" returned " +:+ pretty (length (TelemetryReport_samples report)) +:+ " telemetry sample(s)")).

Definition summary (args : Cli) (options : SensorSummaryArgs) : cli W () :=
  let start_ := SensorSummary_start_secs_ago options in
  let end_ := SensorSummary_end_secs_ago options in
  if (start_ <? end_)%Z then
    raise (CliError_new Exit_Usage "summary end-secs-ago must not exceed start-secs-ago")
  else
    let payload := summary_request_payload start_ end_ in
    in_one_session host args "sensor summary"
      (λ _ _ _,
         contact ← load_contact (SensorSummary_contact options);
         summary ← binary_query contact BinaryRequestKind_Summary payload parse_summary_payload;
         mret (contact, summary)) "sensor_summary"
      (λ selected '(contact, summary),
         mkSummaryReport (Selected_name selected) (Contact_adv_name contact) start_ end_ summary)
      (λ report _, SummaryReport_contact report
         ++ str_bytes (" returned " +:+ pretty (length (SummaryResponse_entries (SummaryReport_summary report)))
                         +:+ " min/max/average record(s)")).

Definition acl (args : Cli) (query : rstring) : cli W () :=
  in_one_session host args "sensor acl"
    (λ _ _ _,
       contact ← load_contact query;
       acl ← binary_query contact BinaryRequestKind_Acl acl_request_payload parse_acl_payload;
       mret (contact, acl)) "sensor_acl"
    (λ selected '(contact, acl), mkAclReport (Selected_name selected) (Contact_adv_name contact) acl)
    (λ report _, let n := length (AclResponse_entries (AclReport_acl report)) in
       AclReport_contact report
         ++ str_bytes (" returned " +:+ pretty n +:+ " ACL entr" +:+ (if (n =? 1)%nat then "y" else "ies"))).

Definition sensor (args : Cli) (command : SensorCommand) : cli W () :=
  match command with
  | Sensor_Telemetry contact => telemetry args contact
  | Sensor_Summary options => summary args options
  | Sensor_Acl contact => acl args contact
  end.
End remote.

(** * Command line: what remote administration guarantees

    The sessions of [remote] and [sensor], and what they ask of a remote node: what needs
    an authenticated session only of a node that has one, nothing marked destructive
    without consent, and a password is stored only once it was accepted. *)

(** The only command lines that are sent to a remote node. *)
Definition sends_only (P : rstring → Prop) (event : Event) : Prop :=
  match event with
  | Ev_Request command _ => match command with ActorCommand_SendDirectCommand _ _ text => P text | _ => True end
  | _ => True
  end.

(** Whether a login was accepted, and that a credential is stored only then. *)
Record Login := mkLogin { Login_accepted : bool }.
Definition login_step (s : Login) (event : Event) : option Login :=
  match event with
  | Ev_Request command ok => match command with ActorCommand_Login _ _ => Some (mkLogin ok) | _ => Some s end
  | Ev_Credential true _ => if Login_accepted s then Some s else None
  | _ => Some s
  end.
#[global] Instance login_automaton : Automaton Login :=
  {| step_event := login_step; upsert_ignored := λ _ _, eq_refl |}.

Section remote.
Context `{Companion W} `{Vault W} (host : Host).
Context `{ConfigToml} `{Crates} `{HistoryCodec} `{HookJson} `{CliJson} `{UnicodeTables}.

(** ** What logs nothing *)

Lemma silent_joined : silent (joined : cli W ()).
Proof. apply silent_bind; [apply silent_ask|intros []; auto with mq_silent]. Qed.
Lemma silent_with_keyring {A} (f : Keyring → outcome StoreError A) : silent (with_keyring f : cli W _).
Proof.
  apply silent_bind; [apply silent_ask|intros keyring]. apply silent_bind; [apply silent_joined|intros; apply silent_ret].
Qed.
Lemma silent_resolve_password args password_stdin account :
  silent (resolve_login_password host args password_stdin account : cli W _).
Proof.
  unfold resolve_login_password. apply silent_if; [done|]. apply silent_bind; [apply silent_with_keyring|].
  intros [password|error|]; [auto with mq_silent| |auto with mq_silent]. apply silent_if; [auto with mq_silent|].
  apply silent_bind; [apply silent_ask|intros password]. apply silent_bind; [apply silent_joined|auto with mq_silent].
Qed.
Lemma silent_request_nonce : silent (request_nonce host : cli W u32).
Proof.
  apply silent_bind; [apply silent_ask|intros [elapsed counter]].
  apply silent_bind; [apply silent_lift|intros; apply silent_ret].
Qed.
Hint Resolve silent_joined silent_with_keyring silent_resolve_password silent_request_nonce : mq_silent.

(** ** The protocol *)

Lemma stays_silent {A} (m : cli W A) : silent m → stays m.
Proof. intros Hm. by apply follows_silent. Qed.
Lemma stays_credential stored account : stays (record_event (Ev_Credential stored account) : cli W ()).
Proof. intros e. by exists [Ev_Credential stored account], in_session. Qed.

Ltac body := repeat first
  [ progress intros | by apply stays_require | apply stays_credential | apply stays_bind
  | apply stays_silent; solve [auto with mq_silent] | progress unfold load_contact, require_session, binary_query,
      anonymous_query, anonymous, store_credential, delete_remote_credential, of_store | case_match ].

Lemma follows_remote args command : follows at_rest (remote host args command) (λ _ s, over s).
Proof.
  pose proof over_at_rest as Hr. destruct command as [contact stdin save|contact|options|contact|options|contact|contact|options|contact];
    cbn [remote]; try (apply follows_in_one_session; body; fail).
  - unfold remote_run. cbv zeta. destruct (_ || _); [by apply follows_raise|]. destruct (_ && _); [by apply follows_raise|].
    apply follows_bind, follows_silent; [apply silent_if; auto with mq_silent|]. intros [[]|error|] _; [|done|done].
    apply follows_in_one_session. body.
  - apply follows_bind, follows_silent; [apply silent_request_nonce|]. intros [nonce|error|] _; [|done|done].
    apply follows_bind, follows_silent; [apply silent_lift|]. intros [payload|error|] _; [|done|done].
    apply follows_in_one_session. body.
  - apply follows_bind, follows_silent; [auto with mq_silent|]. intros [[]|error|] _; [|done|done].
    apply follows_in_one_session. body.
Qed.

Lemma follows_sensor args command : follows at_rest (sensor host args command) (λ _ s, over s).
Proof.
  pose proof over_at_rest as Hr. destruct command as [contact|options|contact]; cbn [sensor];
    try (apply follows_in_one_session; body; fail).
  unfold summary. cbv zeta. destruct (_ <? _)%Z; [by apply follows_raise|]. apply follows_in_one_session. body.
Qed.

(** ** What is asked of the node *)

Ltac asks refuse := repeat first
  [ progress intros | refuse | (apply logs_require; by repeat intro) | (eapply logs_one; [by intros|by repeat intro]) | apply logs_bind
  | apply logs_silent; solve [auto with mq_silent] | progress unfold load_contact, binary_query, anonymous_query,
      anonymous, store_credential, delete_remote_credential, of_store | case_match ].

(** The companion says that it has a session with the node of this key. *)
Definition has_session (key : bytes) : Prop := ∃ w, (comp_request (W := W) (ActorCommand_HasConnection key) w).1 = inr true.
(** What a node answers to an authenticated session only is asked of a node with a
    session; a command line is addressed by the first bytes of the key. *)
Definition vouched (event : Event) : Prop :=
  match event with
  | Ev_Request command _ =>
      match command with
      | ActorCommand_Logout key | ActorCommand_RemoteStatus key | ActorCommand_BinaryRequest key _ _ => has_session key
      | ActorCommand_SendDirectCommand prefix _ _ => ∃ key, prefix = take 6 key ∧ has_session key
      | _ => True
      end
  | _ => True
  end.

Lemma logs_guard {A} contact (k : () → cli W A) :
  (has_session (key_of contact) → logs vouched (k ())) → logs vouched (require_session contact ≫= k).
Proof.
  intros Hk e. set (asked := Ev_Request (ActorCommand_HasConnection (key_of contact))).
  unfold require_session, require, request, mbind, cli_bind.
  destruct (comp_request _ (Env_world e)) as [[error|[]] w] eqn:Hr; simpl;
    [exists [asked false]; split; [done|by repeat constructor]| |exists [asked true]; split; [done|by repeat constructor]].
  assert (has_session (key_of contact)) as Hs by (exists (Env_world e); by rewrite Hr).
  destruct (Hk Hs (log (asked true) (with_world w e))) as (events & Hl & Hf). exists (asked true :: events).
  split; [|by constructor]. etrans; [exact Hl|]. simpl. by rewrite <- app_assoc.
Qed.
Ltac vouch := first [apply logs_guard|solve [apply logs_require; intros; simpl; eauto]].
Lemma vouched_remote args command : logs vouched (remote host args command).
Proof.
  destruct command as [contact stdin save|contact|options|contact|options|contact|contact|options|contact]; cbn [remote];
    try (apply logs_one_session; [done..|]; asks vouch; fail).
  - unfold remote_run. cbv zeta. destruct (_ || _); [by apply logs_silent|]. destruct (_ && _); [by apply logs_silent|].
    apply logs_bind; [apply logs_silent, silent_if; auto with mq_silent|intros []]. apply logs_one_session; [done..|].
    asks vouch.
  - apply logs_bind; [apply logs_silent, silent_request_nonce|intros nonce].
    apply logs_bind; [apply logs_silent, silent_lift|intros payload]. apply logs_one_session; [done..|].
    asks vouch.
  - apply logs_bind; [apply logs_silent; auto with mq_silent|intros []]. apply logs_one_session; [done..|].
    asks vouch.
Qed.
Lemma vouched_sensor args command : logs vouched (sensor host args command).
Proof.
  destruct command as [contact|options|contact]; cbn [sensor];
    [|unfold summary; cbv zeta; destruct (_ <? _)%Z; [by apply logs_silent|]|];
    (apply logs_one_session; [done..|]; asks vouch).
Qed.

Lemma sends_run args options (P := λ text, text = trimmed (RemoteRun_command options) ∧
    (is_read_only_command text = true ∨ RemoteRun_destructive options = true)) :
  logs (sends_only P) (remote_run host args options).
Proof.
  unfold remote_run. cbv zeta. destruct (_ || _); [by apply logs_silent|].
  destruct (negb _ && negb _) eqn:Hd; [by apply logs_silent|].
  apply logs_bind; [apply logs_silent, silent_if; auto with mq_silent|intros []].
  apply logs_one_session; [done..|]. intros selected session info.
  apply logs_bind; [asks fail|intros contact]. apply logs_bind; [unfold require_session; asks fail|intros []].
  apply logs_bind; [|intros tracking; by apply logs_silent]. apply logs_require. intros ok. split; [done|].
  destruct (is_read_only_command _), (RemoteRun_destructive options); auto.
Qed.

(** The other command line that is sent: to set the clock. *)
Definition sets_clock (command : RemoteCommand) : bool :=
  match command with Remote_Clock options => RemoteClock_sync options | _ => false end.
Lemma sends_sync args command : ¬ (∃ options, command = Remote_Run options) →
  logs (sends_only (λ text, text = str_bytes "clock sync" ∧ sets_clock command = true)) (remote host args command).
Proof.
  intros Hn. destruct command as [contact stdin save|contact|options|contact|options|contact|contact|options|contact];
    cbn [remote]; try (apply logs_one_session; [done..|]; asks ltac:(progress unfold require_session); fail).
  - destruct Hn. eauto.
  - apply logs_bind; [apply logs_silent, silent_request_nonce|intros nonce].
    apply logs_bind; [apply logs_silent, silent_lift|intros payload]. apply logs_one_session; [done..|].
    asks ltac:(progress unfold require_session).
  - apply logs_bind; [apply logs_silent; auto with mq_silent|intros []]. apply logs_one_session; [done..|].
    asks ltac:(progress unfold require_session).
Qed.

(** ** The credential *)

Lemma follows_logs `{Automaton St} {A} (P : Event → Prop) (s : St) (m : cli W A) :
  (∀ event, P event → step_event s event = Some s) → logs P m → follows s m (λ _ s', s' = s).
Proof.
  intros HP Hm e. destruct (Hm e) as (events & Hl & Hf). destruct (m e) as [r e']. exists events, s. split_and!; [done| |done].
  clear Hl. induction Hf as [|event events He _ IH]; [done|]. cbn [advance]. by rewrite (HP _ He).
Qed.

(** Neither a login nor a credential. *)
Definition unrelated (event : Event) : Prop :=
  match event with
  | Ev_Request command _ => match command with ActorCommand_Login _ _ => False | _ => True end
  | Ev_Credential stored _ => stored = false
  | _ => True
  end.
Lemma follows_unrelated {A} (s : Login) (m : cli W A) : logs unrelated m → follows s m (λ _ s', s' = s).
Proof.
  apply follows_logs. intros [? command ok| | | | |[] ?] Hu; try done. by destruct command.
Qed.

Lemma follows_skip {A B} (s : Login) (m : cli W A) (k : A → cli W B) :
  logs unrelated m → (∀ a, follows s (k a) (λ _ _, True)) → follows s (m ≫= k) (λ _ _, True).
Proof.
  intros Hm Hk. apply follows_bind. eapply follows_mono; [by apply follows_unrelated|].
  intros [a|error|] s' ->; [apply Hk|done|done].
Qed.
Lemma follows_done {A} (s : Login) (m : cli W A) : logs unrelated m → follows s m (λ _ _, True).
Proof. intros Hm. by eapply follows_mono; [by apply follows_unrelated|]. Qed.

(** A session around it changes nothing. *)
Lemma follows_login_session {A T} (s : Login) args operation (body : SelectedProfile → CompanionSession → SelfInfo → cli W A)
    record_type (report : SelectedProfile → A → T) human :
  (∀ selected session info, follows s (body selected session info) (λ _ _, True)) →
  follows s (in_one_session host args operation body record_type report human) (λ _ _, True).
Proof.
  intros Hbody. unfold in_one_session. apply follows_skip; [apply logs_silent, silent_select_profile|intros selected].
  apply follows_skip; [apply logs_silent, silent_make_client|intros []].
  apply follows_bind, follows_bind. eapply follows_mono; [by apply follows_unrelated, logs_session_connect|].
  intros [[session info]|error|] s1 ->; [|done|done]. apply follows_bind, follows_attempt.
  eapply follows_mono; [apply Hbody|].
  assert (∀ s2 (r : CliError + A), follows s2 (session_finish host session r) (λ r s3,
    match r with
    | Ok a => follows s3 (let report := report selected a in
                emit_result (Cli_output args) record_type report (human report a) : cli W ()) (λ _ _, True)
    | _ => True
    end)) as Hfinish.
  { intros s2 r. eapply follows_mono; [by apply follows_unrelated, logs_session_finish|].
    intros [a|error|] s3 _; [|done|done]. by apply follows_done, logs_emit. }
  intros [a|error|] s2 _; [|..|done];
    (eapply follows_mono; [apply Hfinish|intros [a'|error'|] s3 Hs; done]).
Qed.

Lemma follows_login args query password_stdin save :
  follows (mkLogin false) (remote_login host args query password_stdin save) (λ _ _, True).
Proof.
  apply follows_login_session. intros selected session info.
  apply follows_skip; [asks fail|intros contact]. cbv zeta.
  apply follows_skip; [apply logs_silent, silent_resolve_password|intros password].
  apply follows_bind. eapply (follows_require (mkLogin false) (mkLogin false) (mkLogin true)); [done..|].
  intros session'. apply follows_bind.
  assert (∀ r : outcome CliError (), r ≠ Panic → match r with
    | Ok _ => follows (mkLogin true) (mret (contact, session') : cli W _) (λ _ _, True)
    | Err _ => True
    | Panic => True
    end) as Hlast by (intros [] _; [by apply follows_ret|done|done]).
  destruct save; [|apply follows_ret; by apply (Hlast (Ok ()))].
  unfold store_credential, of_store. apply follows_bind, follows_silent; [apply silent_with_keyring|].
  intros [r|error|] _; [|done|done]. apply follows_bind, follows_silent; [apply silent_lift|].
  intros [[]|error|] _; [|done|done]. intros e. eexists [_], (mkLogin true). split_and!; [done..|]. by apply Hlast.
Qed.

(** ** Consent *)

Lemma refused_run args options (e : Env W) : unattended host args →
  is_read_only_command (trimmed (RemoteRun_command options)) = false →
  ∃ error, remote_run host args options e = (Err error, e).
Proof.
  intros Hu Hr. destruct (confirm_unattended (W := W) host args
    "send the explicitly marked destructive remote command" Hu) as [error Hc].
  unfold remote_run. cbv zeta. rewrite Hr. destruct (_ || _); [by eexists|]. simpl.
  destruct (RemoteRun_destructive options); simpl; [|by eexists]. rewrite Hc. by exists error.
Qed.
Lemma refused_forget args query (e : Env W) : unattended host args →
  ∃ error, credentials_forget host args query e = (Err error, e).
Proof.
  intros Hu. destruct (confirm_unattended (W := W) host args "delete the stored remote credential" Hu) as [error Hc].
  unfold credentials_forget. rewrite Hc. by exists error.
Qed.
End remote.

(** A password from standard input is the input without its line ending,
    text without NUL, not empty and within the bound; anything longer is refused. *)
Theorem password_from_stdin name maximum bytes password : check_password name maximum bytes = Ok password →
  (∃ ending, bytes = password ++ ending ∧ ending ∈ [[]; [0x0a]; [0x0d; 0x0a]]%Z) ∧ password ≠ [] ∧
  utf8_valid password = true ∧ 0%Z ∉ password ∧ length bytes ≤ maximum.
Proof.
  unfold check_password. destruct (Nat.ltb_spec maximum (length bytes)) as [|Hl]; [done|].
  destruct (strip_line_ending_spec bytes) as (ending & Hb & He). revert Hb. set (line := strip_line_ending bytes).
  clearbody line. intros Hb. case_bool_decide as Hn; [done|]. destruct (from_utf8 line) as [text|] eqn:Hu; [|done].
  apply from_utf8_Some in Hu as [-> Hv]. simpl. case_bool_decide as H0; [done|]. intros [= <-]. split_and!; eauto.
Qed.

(** C15: remote administration is guarded.  Every command of [remote] and [sensor] keeps
    to the protocol of a session.  Ending a session, reading the status of a node,
    querying it and sending it a command line are asked only of a node with which the
    companion said, to the question about that very node, that it has a session.
    [remote run] sends the command line as it was typed, without the blanks around it,
    and only if it is in the list of read-only commands or was marked destructive.  The
    only other command line is that of [remote clock --sync], which is sent without a
    question.  Without anybody to ask and without [--yes] a [remote run] that is not
    read-only, and the removal of a credential, change nothing at all.  A password is
    stored only once the node has accepted it. *)
Theorem remote_guarded `{Companion W} `{Vault W} host `{ConfigToml} `{Crates} `{HistoryCodec} `{HookJson}
    `{CliJson} `{UnicodeTables} args :
  (∀ command, follows at_rest (remote host args command) (λ _ s, over s)) ∧
  (∀ command, follows at_rest (sensor host args command) (λ _ s, over s)) ∧
  (∀ command, logs vouched (remote host args command)) ∧
  (∀ command, logs vouched (sensor host args command)) ∧
  (∀ options, logs (sends_only (λ text, text = trimmed (RemoteRun_command options) ∧
       (is_read_only_command text = true ∨ RemoteRun_destructive options = true)))
     (remote host args (Remote_Run options))) ∧
  (∀ command, ¬ (∃ options, command = Remote_Run options) →
     logs (sends_only (λ text, text = str_bytes "clock sync" ∧ sets_clock command = true)) (remote host args command)) ∧
  (unattended host args → ∀ e,
     (∀ options, is_read_only_command (trimmed (RemoteRun_command options)) = false →
        ∃ error, remote host args (Remote_Run options) e = (Err error, e)) ∧
     (∀ contact, ∃ error, remote host args (Remote_CredentialsForget contact) e = (Err error, e))) ∧
  (∀ contact password_stdin save,
     follows (mkLogin false) (remote host args (Remote_Login contact password_stdin save)) (λ _ _, True)).
Proof.
  split_and!.
  - apply follows_remote.
  - apply follows_sensor.
  - apply vouched_remote.
  - apply vouched_sensor.
  - apply sends_run.
  - intros. by apply sends_sync.
  - intros Hu e. split; intros; [by apply refused_run|by apply refused_forget].
  - apply follows_login.
Qed.
