(* ===== verification/HooksCli.v ===== *)
(** * Command line: the hook commands (crates/meshquill-cli/src/hooks_cli.rs)

    [hooks validate], [hooks test] and [hooks status].  The runtime of a test is its
    own; nothing it does belongs to a session, so nothing is logged of it. *)

From S2P Require Import Prelude Text Order Floats Domain Managed Hooks HookRuntime Store History Paths MqttConfig.
From S2P Require Import Config CliOutput CliArgs Suggest Resolve Session CliConfig Workflow Send.

Record HookStatusReport := mkHookStatusReport {
  HookStatus_protocol : rstring;
  HookStatus_enabled : bool;
  HookStatus_configured : bool;
  HookStatus_observational_failure : HookFailurePolicy;
  HookStatus_before_send_failure : HookFailurePolicy
}.
Record HookTestReport := mkHookTestReport {
  HookTest_event : string;
  HookTest_event_id : option string;
  HookTest_status : option HookExecutionStatus;
  HookTest_outcome : option string;
  HookTest_modified_destination : bool;
  HookTest_modified_text : bool
}.
Record HookValidation := mkHookValidation { Validation_handlers : list HookEventKind }.

Inductive TestFixture :=
| Fixture_Event (event : HookEvent) (name : string)
| Fixture_BeforeSend (input : BeforeSendInput) (destination text : rstring).

Definition fixture_for_event (input : rstring) : outcome CliError TestFixture :=
  let normalized := to_ascii_lowercase input in
  let named (names : list string) := bool_decide (normalized ∈ (str_bytes <$> names)) in
  let s := str_bytes in
  if named ["on_connect"; "connect"] then
    Ok (Fixture_Event (HookEvent_OnConnect (mkOnConnect (s "unit-test") (Some (s "meshquill-demo")))) "on_connect")
  else if named ["on_disconnect"; "disconnect"] then
    Ok (Fixture_Event (HookEvent_OnDisconnect (mkOnDisconnect (s "unit-test") (Some (s "normal-shutdown"))))
          "on_disconnect")
  else if named ["on_message"; "message"] then
    Ok (Fixture_Event (HookEvent_OnMessage (mkOnMessage (s "meshquill-demo") (s "hello from test") (Some (s "msg-001"))))
          "on_message")
  else if named ["before_send"; "before-send"] then
    Ok (Fixture_BeforeSend (mkBeforeSend (s "inbound") (s "hello from test")) (s "inbound") (s "hello from test"))
  else if named ["after_send"; "after-send"] then
    Ok (Fixture_Event (HookEvent_AfterSend (mkAfterSend (s "meshquill-demo") (s "hello from test") (Some (s "msg-ack"))))
          "after_send")
  else if named ["on_ack"; "ack"] then
    Ok (Fixture_Event (HookEvent_OnAck (mkOnAck (s "msg-001") (Some (s "meshquill-demo")) (Some 42%Z))) "on_ack")
  else if named ["on_timeout"; "timeout"] then
    Ok (Fixture_Event (HookEvent_OnTimeout (mkOnTimeout (s "test-event") (Some (s "msg-001")))) "on_timeout")
  else if named ["on_contact_update"; "contact_update"; "contact"] then
    Ok (Fixture_Event (HookEvent_OnContactUpdate
          (mkOnContactUpdate (s "contact-id") (Some (s "meshquill-contact")) Change_Updated)) "on_contact_update")
  else if named ["on_error"; "error"] then
    Ok (Fixture_Event (HookEvent_OnError (mkOnError (s "test-operation") (s "sanitized test message"))) "on_error")
  else
    Err (with_hint (CliError_new Exit_Usage ("unsupported hook event '" +:+ bytes_str input +:+ "'"))
           "Supported events: on_connect, on_disconnect, on_message, before_send, after_send, on_ack, on_timeout, on_contact_update, on_error").

Definition analyze_before_send (destination text : rstring) (outcome_ : BeforeSendOutcome) : string * bool * bool :=
  match outcome_ with
  | Outcome_Allow => ("allow", false, false)
  | Outcome_Modify new_destination new_text =>
      ("modify", bool_decide (new_destination ≠ destination), bool_decide (new_text ≠ text))
  | Outcome_Reject _ => ("reject", false, false)
  end.

(** The handlers as the ordered set of the validation. *)
Definition all_kinds : list HookEventKind :=
  [OnConnect; OnDisconnect; OnMessage; BeforeSend; AfterSend; OnAck; OnTimeout; OnContactUpdate; OnError].
Definition handler_set (handlers : list HookEventKind) : list HookEventKind :=
  filter (λ kind, kind ∈ handlers) all_kinds.

Definition status_name (status : HookExecutionStatus) : string :=
  match status with
  | Execution_Completed => "completed" | Execution_Missing => "missing" | Execution_FailedOpen _ => "failed-open"
  end.

(** [join(", ")]. *)
Definition join_names (names : list string) : string :=
  match names with
  | [] => ""
  | name :: names => foldl (λ acc name, acc +:+ ", " +:+ name) name names
  end.

Section hooks.
Context `{Companion W} (host : Host).
Context `{ConfigToml} `{Crates} `{HistoryCodec} `{HookJson} `{CliJson} `{UnicodeTables}.

(** A subprocess of a runtime of the command's own. *)
Definition run_hook {A} (f : option Z → os_run → outcome HookError A) : cli W A :=
  clock ← ask comp_clock;
  os ← ask comp_os;
  lift (map_err cli_of_hook (f clock os)).

Definition new_runtime (config : HookConfig) : cli W HookRuntime :=
  lift (map_err cli_of_hook (HookRuntime_new config (Host_runtime_id host))).

Definition runtime_from_path (path : bytes) : cli W HookRuntime := new_runtime (HookConfig_new (bytes_str path)).

Definition runtime_from_config (args : Cli) : cli W HookRuntime :=
  store ← config_store host args;
  loaded ← load_optional host store;
  config ← match loaded with
           | Load_Missing =>
               raise (with_hint (CliError_new Exit_Configuration
                                   ("configuration is missing at " +:+ ConfigStore_path store))
                        "Run `meshquill init` to create the configuration file.")
           | Load_Loaded config | Load_NeedsMigration config => mret config
           end;
  config ← of_store (runtime_config (Config_hook config));
  config ← lift (ok_or config
    (CliError_new Exit_Configuration
       "hooks are disabled; set [hook].enabled = true and [hook].script to a path"));
  new_runtime config.

Definition hooks_validate (args : Cli) (path : option bytes) : cli W () :=
  runtime ← match path with Some path => runtime_from_path path | None => runtime_from_config args end;
  handlers ← run_hook (λ _ os, (validate_script runtime (Host_parent_env host) os).1);
  let handlers := handler_set handlers in
  emit_result (Cli_output args) "hook_validation" (mkHookValidation handlers)
    (str_bytes ("Validated " +:+ pretty (length handlers) +:+ " ") ++ PROTOCOL_SCHEMA
       ++ str_bytes (" handler(s): " +:+ join_names (handler_name <$> handlers))).

Definition hooks_test (args : Cli) (event : rstring) : cli W () :=
  runtime ← runtime_from_config args;
  fixture ← lift (fixture_for_event event);
  match fixture with
  | Fixture_Event event name =>
      report ← run_hook (λ clock os, (dispatch runtime clock (Host_parent_env host) os event).1.1);
      emit_result (Cli_output args) "hook_test"
        (mkHookTestReport name (Some (HookReport_event_id report)) (Some (HookReport_status report)) None false false)
        (str_bytes ("Dispatched hook event '" +:+ name +:+ "' with status '" +:+ status_name (HookReport_status report)
                      +:+ "'"))
  | Fixture_BeforeSend input destination text =>
      decision ← run_hook (λ clock os, (before_send runtime clock (Host_parent_env host) os input).1.1);
      let '(outcome_, modified_destination, modified_text) := analyze_before_send destination text decision in
      emit_result (Cli_output args) "hook_test"
        (mkHookTestReport "before_send" None None (Some outcome_) modified_destination modified_text)
        (str_bytes ("before_send hook decision: " +:+ outcome_))
  end.

Definition hooks_status (args : Cli) : cli W () :=
  store ← config_store host args;
  loaded ← load_optional host store;
  let report :=
    match loaded with
    | Load_Missing =>
        mkHookStatusReport PROTOCOL_SCHEMA false false (HookSettings_observational_failure HookSettings_default)
          (HookSettings_before_send_failure HookSettings_default)
    | Load_Loaded config | Load_NeedsMigration config =>
        let hook := Config_hook config in
        mkHookStatusReport PROTOCOL_SCHEMA (HookSettings_enabled hook)
          (bool_decide (is_Some (HookSettings_script hook))) (HookSettings_observational_failure hook)
          (HookSettings_before_send_failure hook)
    end in
  let human :=
    str_bytes "Hook protocol " ++ HookStatus_protocol report
      ++ str_bytes (if negb (HookStatus_enabled report) then " is currently disabled."
                    else if HookStatus_configured report then " is enabled with configured policies."
                    else " is enabled but has no configured script.") in
  emit_result (Cli_output args) "hook_status" report human.

Definition hooks (args : Cli) (command : HooksCommand) : cli W () :=
  match command with
  | Hooks_Validate path => hooks_validate args path
  | Hooks_Test event => hooks_test args event
  | Hooks_Status => hooks_status args
  end.
End hooks.

(** The events of [hooks test]: every handler can be tested by its own name, and what
    is dispatched is an event of that handler. *)
Lemma fixture_of_kind kind : ∃ fixture, fixture_for_event (str_bytes (handler_name kind)) = Ok fixture ∧
  match fixture with
  | Fixture_Event event name => HookEvent_kind event = kind ∧ name = handler_name kind ∧ kind ≠ BeforeSend
  | Fixture_BeforeSend _ _ _ => kind = BeforeSend
  end.
Proof. destruct kind; vm_compute; eexists; (split; [reflexivity|]); done. Qed.

