(* ===== verification/MqttCli.v ===== *)
(** * Command line: the MQTT gateway commands (crates/meshquill-cli/src/mqtt_cli.rs)

    [mqtt configure], [mqtt test], [mqtt status], and [mqtt bridge]: the loop between
    the events of the companion and the commands of the broker. *)

From S2P Require Import Prelude Text Order Floats Domain Packet Discovery Managed Hooks HookRuntime Store History Paths.
From S2P Require Import MqttConfig MqttSchema MqttCommand MqttRunner Config CliOutput CliArgs Suggest Resolve Session.
From S2P Require Import CliConfig Workflow Send Commands Watch RemoteCli.

Definition MQTT_SCHEMA : string := "meshquill.mqtt/v1".
Definition MQTT_CREDENTIAL_SERVICE : string := "meshquill".
Definition MAX_PENDING_ACKS : nat := 256.
(** Durations and instants in nanoseconds. *)
Definition CONTACT_RESYNC_DEBOUNCE : Z := 500 * 1000000.

(** ** Reports *)

Record MqttStatusReport := mkMqttStatusReport {
  MqttStatus_schema : string;
  MqttStatus_enabled : bool;
  MqttStatus_configured : bool;
  MqttStatus_host : rstring;
  MqttStatus_port : u16;
  MqttStatus_protocol : string;
  MqttStatus_qos : u8;
  MqttStatus_tls : bool;
  MqttStatus_custom_ca : bool;
  MqttStatus_client_identity : bool;
  MqttStatus_authentication : bool;
  MqttStatus_topic_prefix : rstring;
  MqttStatus_allow_send : bool;
  MqttStatus_broker_state : string
}.
Record MqttConfigureReport := mkMqttConfigureReport {
  MqttReport_schema : string;
  MqttReport_enabled : bool;
  MqttReport_host : rstring;
  MqttReport_port : u16;
  MqttReport_protocol : string;
  MqttReport_qos : u8;
  MqttReport_tls : bool;
  MqttReport_custom_ca : bool;
  MqttReport_client_identity : bool;
  MqttReport_authentication : bool;
  MqttReport_credential_store : bool;
  MqttReport_topic_prefix : rstring;
  MqttReport_allow_send : bool
}.
Record MqttTestReport := mkMqttTestReport {
  MqttTest_schema : string;
  MqttTest_host : rstring;
  MqttTest_port : u16;
  MqttTest_tls : bool;
  MqttTest_authenticated : bool;
  MqttTest_connected : bool
}.
Record BrokerStateReport := mkBrokerStateReport { BrokerState_component : string; BrokerState_status : string }.
Record BrokerCommandReport := mkBrokerCommandReport {
  BrokerCommand_event_id : rstring;
  BrokerCommand_command : string;
  BrokerCommand_queued : bool;
  BrokerCommand_reason : option string
}.
Record BrokerRejectionReport := mkBrokerRejectionReport { Rejection_accepted : bool; Rejection_reason : string }.
Record SnapshotDiagnosticReport := mkSnapshotDiagnosticReport {
  Diagnostic_publication : string;
  Diagnostic_published : bool;
  Diagnostic_reason : string
}.

(** ** [ContactResyncDebounce], by its deadline *)

Definition is_contact_notification (event : Domain.Event) : bool :=
  match event with
  | Event_UnknownPacket code _ => bool_decide (code ∈ [0x8a; 0x8f; 0x90]%Z)
  | _ => false
  end.
Definition debounce_observe (deadline : option Z) (event : Domain.Event) (now : Z) : option Z :=
  if is_contact_notification event then Some (now + CONTACT_RESYNC_DEBOUNCE)%Z else deadline.
Definition debounce_take_due (deadline : option Z) (now : Z) : bool * option Z :=
  if from_option (λ deadline, (deadline <=? now)%Z) false deadline then (true, None) else (false, deadline).

(** ** Names *)

Definition protocol_from_choice (choice : MqttProtocolChoice) : MqttProtocol :=
  match choice with Protocol_V311 => V311 | Protocol_V5 => V5 end.
Definition qos_from_choice (choice : MqttQosChoice) : MqttQos :=
  match choice with
  | Qos_AtMostOnce => AtMostOnce | Qos_AtLeastOnce => AtLeastOnce | Qos_ExactlyOnce => ExactlyOnce
  end.
Definition protocol_name (protocol : MqttProtocol) : string := match protocol with V311 => "3.1.1" | V5 => "5" end.
Definition qos_number (qos : MqttQos) : u8 :=
  match qos with AtMostOnce => 0 | AtLeastOnce => 1 | ExactlyOnce => 2 end.
Definition connection_status (status : ConnectionStatus) : string :=
  match status with Status_Connected => "connected" | Status_Disconnected => "disconnected" end.

Definition rejection_code (error : CommandError) : string :=
  match error with
  | CommandError_Config _ | CommandError_Dedupe _ => "invalid_gateway_policy"
  | CommandError_SendDisabled => "outbound_send_disabled"
  | CommandError_UnexpectedTopic => "unexpected_topic"
  | CommandError_InvalidTopicEncoding => "invalid_topic_encoding"
  | CommandError_RetainedCommand => "retained_command"
  | CommandError_EmptyPayload => "empty_payload"
  | CommandError_PayloadTooLarge _ _ => "payload_too_large"
  | CommandError_InvalidJson _ => "invalid_json"
  | CommandError_UnsupportedSchema => "unsupported_schema"
  | CommandError_NilEventId => "nil_event_id"
  | CommandError_InvalidOrigin => "invalid_origin"
  | CommandError_LocalOriginLoop => "local_origin_loop"
  | CommandError_DataMustBeObject => "data_must_be_object"
  | CommandError_UnsupportedCommand => "unsupported_command"
  | CommandError_InvalidCommandData _ => "invalid_command_data"
  | CommandError_InvalidDestination => "invalid_destination"
  | CommandError_DestinationTooLong _ _ => "destination_too_long"
  | CommandError_ChannelOutOfRange _ _ => "channel_out_of_range"
  | CommandError_InvalidText => "invalid_text"
  | CommandError_TextTooLong _ _ => "text_too_long"
  | CommandError_DuplicateEvent => "duplicate_event"
  end.

Definition mqtt_config_error (error : ConfigError) : CliError :=
  match error with
  | ConfigError_InvalidField field reason =>
      CliError_new Exit_Mqtt ("invalid MQTT configuration field " +:+ field +:+ ": " +:+ reason)
  | ConfigError_CredentialMismatch _ =>
      CliError_new Exit_Mqtt "MQTT username and password configuration do not match"
  | ConfigError_TlsFile field _ _ =>
      CliError_new Exit_Mqtt ("configured MQTT TLS " +:+ field +:+ " file is unavailable or invalid")
  end.

Definition mqtt_gateway_error (error : GatewayError) : CliError :=
  match error with
  | GatewayError_Config error => mqtt_config_error error
  | GatewayError_TlsFile _ _ | GatewayError_TlsFileNotRegular _ | GatewayError_TlsFileTooLarge _ _
  | GatewayError_Tls _ | GatewayError_NoTrustRoots | GatewayError_IncompleteClientIdentity =>
      CliError_new Exit_Mqtt "MQTT TLS configuration could not be loaded safely"
  | GatewayError_PublicationTooLarge actual maximum =>
      CliError_new Exit_Mqtt ("MQTT publication is " +:+ pretty actual +:+ " bytes; maximum is " +:+ pretty maximum)
  | GatewayError_Cancelled => CliError_new Exit_Interrupted "MQTT gateway was cancelled"
  | GatewayError_BrokerOperationTimeout _ =>
      CliError_new Exit_Mqtt "MQTT broker operation exceeded its configured timeout"
  | GatewayError_CommandSubscriptionRejected =>
      with_hint (CliError_new Exit_Mqtt "MQTT broker rejected the outbound-command subscription")
        "Check broker ACLs for the configured v1 outbound topic."
  | GatewayError_ClockBeforeUnixEpoch | GatewayError_TimestampOverflow =>
      CliError_new Exit_Mqtt "system clock cannot represent an MQTT event timestamp"
  | _ => CliError_new Exit_Mqtt "MQTT gateway stopped because a bounded operation failed"
  end.

Definition mqtt_disabled : CliError :=
  with_hint (CliError_new Exit_Configuration "MQTT gateway is disabled or unconfigured")
    "Run `meshquill mqtt configure --host HOST` first.".
Definition mqtt_credential_worker_error : CliError :=
  CliError_new Exit_Authentication "the MQTT credential operation failed".

Definition has_client_identity (tls : TlsConfig) : bool :=
  bool_decide (is_Some (Tls_client_certificate_path tls)) && bool_decide (is_Some (Tls_client_private_key_path tls)).
Definition has_authentication (settings : MqttSettings) : bool :=
  bool_decide (is_Some (Mqtt_username (MqttSettings_gateway settings)))
    && bool_decide (is_Some (MqttSettings_password settings)).

Definition status_report (settings : MqttSettings) : MqttStatusReport :=
  let gateway := MqttSettings_gateway settings in
  mkMqttStatusReport MQTT_SCHEMA (MqttSettings_enabled settings) (MqttSettings_enabled settings) (Mqtt_host gateway)
    (Mqtt_port gateway) (protocol_name (Mqtt_protocol gateway)) (qos_number (Mqtt_qos gateway))
    (Tls_enabled (Mqtt_tls gateway)) (bool_decide (is_Some (Tls_ca_path (Mqtt_tls gateway))))
    (has_client_identity (Mqtt_tls gateway)) (has_authentication settings) (Mqtt_topic_prefix gateway)
    (Mqtt_allow_send gateway) "not_probed".

Definition configure_report (settings : MqttSettings) : MqttConfigureReport :=
  let gateway := MqttSettings_gateway settings in
  mkMqttConfigureReport MQTT_SCHEMA (MqttSettings_enabled settings) (Mqtt_host gateway) (Mqtt_port gateway)
    (protocol_name (Mqtt_protocol gateway)) (qos_number (Mqtt_qos gateway)) (Tls_enabled (Mqtt_tls gateway))
    (bool_decide (is_Some (Tls_ca_path (Mqtt_tls gateway)))) (has_client_identity (Mqtt_tls gateway))
    (has_authentication settings)
    (match MqttSettings_password settings with Some (Secret_CredentialStore _ _) => true | _ => false end)
    (Mqtt_topic_prefix gateway) (Mqtt_allow_send gateway).

(** ** What a broker command led to *)

Record PendingBrokerAck := mkPendingBrokerAck {
  Pending_record : OutgoingRecord;
  Pending_message_id : rstring;
  Pending_destination : rstring;
  Pending_ack_code : bytes;
  Pending_deadline : Z
}.
Record BrokerCommandOutcome := mkBrokerCommandOutcome {
  Outcome_report : BrokerCommandReport;
  Outcome_pending : option PendingBrokerAck
}.
Definition broker_command_outcome (event_id : rstring) (command : string) (queued : bool) (reason : option string)
    (pending : option PendingBrokerAck) : BrokerCommandOutcome :=
  mkBrokerCommandOutcome (mkBrokerCommandReport event_id command queued reason) pending.
Definition rejected_command (event_id : rstring) (command reason : string) : BrokerCommandOutcome :=
  broker_command_outcome event_id command false (Some reason) None.

Definition broker_reconnect_requires_snapshot (notice : option GatewayNotice) (reconnect_pending : bool) :
    bool * bool :=
  match notice with
  | Some (Gateway_BrokerState Status_Disconnected) => (false, true)
  | Some (Gateway_BrokerState Status_Connected) => if reconnect_pending then (true, false) else (false, reconnect_pending)
  | _ => (false, reconnect_pending)
  end.

(** ** The gateway, as the command sees it *)

(** The end of the gateway task: its result, that it panicked, or that it did not end
    within its deadline. *)
Inductive Joined := Joined_Result (result : outcome GatewayError ()) | Joined_Panicked | Joined_Timeout.
(** The branch of the [select!] that was taken. *)
Inductive BridgeTurn :=
| Bridge_Signal (installed : bool)
| Bridge_Tick
| Bridge_Resync
| Bridge_Event (received : Received)
| Bridge_Notice (notice : option GatewayNotice).

Class Broker (W : Type) := {
  (** [fs::canonicalize]. *)
  broker_canonicalize : bytes → W → option bytes * W;
  (** [GatewayRunner::connect] and the task that runs it. *)
  broker_connect : MqttConfig → option MqttPassword → W → outcome GatewayError () * W;
  broker_publish : Publication → W → outcome GatewayError () * W;
  (** The next notice before a deadline; [None] when it passed. *)
  broker_notice : W → option (option GatewayNotice) * W;
  broker_cancel : W → W;
  broker_join : W → Joined * W;
  broker_select : option Z → W → BridgeTurn * W;
  broker_now : W → Z * W
}.

Section mqtt.
Context `{Companion W} `{Vault W} `{Broker W} (host : Host).
Context `{ConfigToml} `{Crates} `{HistoryCodec} `{HookJson} `{CliJson} `{UnicodeTables}.

Definition now : cli W Z := ask broker_now.
Definition cancel_gateway : cli W () := ask (λ w, ((), broker_cancel w)).
Definition publish (publication : Publication) : cli W () :=
  r ← ask (broker_publish publication); lift (map_err mqtt_gateway_error r).

Definition join_gateway : cli W () :=
  joined ← ask broker_join;
  match joined with
  | Joined_Result (Ok _) | Joined_Result (Err GatewayError_Cancelled) => mret ()
  | Joined_Result (Err error) => raise (mqtt_gateway_error error)
  | Joined_Result Panic | Joined_Panicked => raise (CliError_new Exit_Mqtt "MQTT gateway worker failed")
  | Joined_Timeout =>
      raise (CliError_new Exit_Mqtt "MQTT gateway did not stop within its bounded shutdown timeout")
  end.

(** ** Credentials *)

(** [spawn_blocking(..).await.map_err(|_| credential_worker_error())?]. *)
Definition mqtt_joined : cli W () :=
  finished ← ask vault_worker; if finished : bool then mret () else raise mqtt_credential_worker_error.
Definition with_mqtt_keyring {A} (f : Keyring → outcome StoreError A) : cli W (outcome StoreError A) :=
  keyring ← ask vault_keyring; _ ← mqtt_joined; mret (f keyring).

Definition mqtt_store_credential (account password : rstring) : cli W () :=
  r ← with_mqtt_keyring (λ keyring, set_credential keyring (str_bytes MQTT_CREDENTIAL_SERVICE) account password);
  _ ← of_store r;
  record_event (Ev_Credential true account).

Definition cleanup_credential (target : option (rstring * rstring)) : cli W () :=
  match target with
  | None => mret ()
  | Some (service, account) =>
      ignore (r ← with_mqtt_keyring (λ keyring, delete_credential keyring service account);
              _ ← of_store r;
              record_event (Ev_Credential false account))
  end.

Definition mqtt_credential_account (path : bytes) (username : rstring) : cli W rstring :=
  '(elapsed, _) ← ask comp_nonce;
  timestamp ← lift (ok_or elapsed mqtt_credential_worker_error);
  let digest := sha256 (path ++ [0%Z] ++ username ++ [0%Z] ++ to_le_bytes 4 (Host_pid host)
                          ++ to_le_bytes 16 timestamp) in
  mret (str_bytes "mqtt-" ++ hex_encode (take 16 digest)).

Definition credential_target_opt (reference : option SecretRef) : option (rstring * rstring) :=
  match reference with
  | Some (Secret_CredentialStore service account) => Some (service, account)
  | Some (Secret_Environment _ | Secret_Prompt) | None => None
  end.

Definition read_mqtt_password_stdin : cli W rstring := read_password "MQTT" (Z.to_nat MAX_MQTT_PASSWORD_BYTES).

(** [resolve_password], of the settings as they are. *)
Definition resolve_mqtt_password (args : Cli) (settings : MqttSettings) : cli W (option MqttPassword) :=
  match MqttSettings_password settings with
  | Some Secret_Prompt =>
      if Cli_non_interactive args || negb (Host_stdin_terminal host) then
        raise (CliError_new Exit_Authentication "MQTT password requires an interactive terminal")
      else
        password ← ask vault_prompt;
        _ ← mqtt_joined;
        password ← lift (ok_or password
          (CliError_new Exit_Authentication "could not read the MQTT password securely"));
        lift (map_err mqtt_config_error (Some <$> MqttPassword_new password))
  | _ =>
      r ← with_mqtt_keyring (λ keyring,
            resolve_password settings (resolve keyring (λ name, Host_env host (bytes_str name))));
      of_store r
  end.

(** ** [mqtt status] *)

Definition bool_name (b : bool) : string := if b then "true" else "false".

Definition mqtt_status (args : Cli) : cli W () :=
  store ← config_store host args;
  loaded ← load_optional host store;
  let settings := match loaded with
                  | Load_Missing => Config_mqtt Config_default
                  | Load_Loaded config | Load_NeedsMigration config => Config_mqtt config
                  end in
  let report := status_report settings in
  let human :=
    if MqttStatus_enabled report then
      str_bytes "MQTT gateway enabled for " ++ MqttStatus_host report
        ++ str_bytes (":" +:+ pretty (MqttStatus_port report) +:+ " (TLS: " +:+ bool_name (MqttStatus_tls report)
             +:+ ", outbound sends: " +:+ bool_name (MqttStatus_allow_send report) +:+ "). Broker not probed.")
    else str_bytes "MQTT gateway is disabled. Broker not probed." in
  emit_result (Cli_output args) "mqtt_status" report human.

(** ** [mqtt configure] *)

Inductive AuthenticationUpdate :=
| Auth_Clear
| Auth_Replace (username : rstring) (reference : SecretRef)
| Auth_PreserveForUsername (username : rstring)
| Auth_Preserve.

(** The update, and the target of a credential that was just stored. *)
Definition prepare_authentication (config_path : string) (options : MqttConfigureArgs) :
    cli W (AuthenticationUpdate * option (rstring * rstring)) :=
  let requested_username := trimmed <$> MqttConfigure_username options in
  if bool_decide (requested_username = Some []) then
    raise (CliError_new Exit_Usage "MQTT username must not be empty")
  else if MqttConfigure_clear_auth options then mret (Auth_Clear, None)
  else
    match requested_username with
    | None => mret (Auth_Preserve, None)
    | Some username =>
        if MqttConfigure_password_stdin options then
          password ← read_mqtt_password_stdin;
          account ← mqtt_credential_account (str_bytes config_path) username;
          let reference := Secret_CredentialStore (str_bytes MQTT_CREDENTIAL_SERVICE) account in
          _ ← mqtt_store_credential account password;
          mret (Auth_Replace username reference, credential_target_opt (Some reference))
        else
          match MqttConfigure_password_env options with
          | Some name =>
              reference ← of_store (SecretRef_environment name);
              mret (Auth_Replace username reference, None)
          | None => mret (Auth_PreserveForUsername username, None)
          end
    end.

Definition canonical_tls_path (path : option bytes) (field : string) : cli W (option string) :=
  match path with
  | None => mret None
  | Some path =>
      canonical ← ask (broker_canonicalize path);
      canonical ← lift (ok_or canonical
        (CliError_new Exit_Mqtt ("configured MQTT TLS " +:+ field +:+ " file is unavailable or invalid")));
      mret (Some (bytes_str canonical))
  end.

(** The settings of the gateway with the options applied, but for the user name. *)
Definition configured_gateway (options : MqttConfigureArgs) (ca_path client_certificate_path client_private_key_path : option string)
    (gateway : MqttConfig) : MqttConfig :=
  mkMqttConfig (trimmed (MqttConfigure_host options)) (MqttConfigure_port options) (Mqtt_client_id gateway)
    (protocol_from_choice (MqttConfigure_protocol options))
    (mkTlsConfig (negb (MqttConfigure_no_tls options)) true ca_path client_certificate_path client_private_key_path)
    (Mqtt_username gateway) (qos_from_choice (MqttConfigure_qos options)) (Mqtt_keep_alive_secs gateway)
    (Mqtt_broker_operation_timeout_ms gateway) (Mqtt_session gateway) (trimmed (MqttConfigure_topic_prefix options))
    (Mqtt_origin gateway) (MqttConfigure_allow_send options) (Mqtt_reconnect gateway) (Mqtt_max_payload_bytes gateway)
    (Mqtt_dedupe gateway) (Mqtt_command_limits gateway) (Mqtt_channel_capacity gateway).
Definition with_username (username : option rstring) (gateway : MqttConfig) : MqttConfig :=
  mkMqttConfig (Mqtt_host gateway) (Mqtt_port gateway) (Mqtt_client_id gateway) (Mqtt_protocol gateway)
    (Mqtt_tls gateway) username (Mqtt_qos gateway) (Mqtt_keep_alive_secs gateway)
    (Mqtt_broker_operation_timeout_ms gateway) (Mqtt_session gateway) (Mqtt_topic_prefix gateway)
    (Mqtt_origin gateway) (Mqtt_allow_send gateway) (Mqtt_reconnect gateway) (Mqtt_max_payload_bytes gateway)
    (Mqtt_dedupe gateway) (Mqtt_command_limits gateway) (Mqtt_channel_capacity gateway).
Definition with_mqtt (settings : MqttSettings) (config : Config) : Config :=
  mkConfig (Config_version config) (Config_default_profile config) (Config_device_profiles config)
    (Config_timeout config) (Config_history config) (Config_hook config) settings (Config_queues config).

Definition apply_authentication (update : AuthenticationUpdate) (gateway : MqttConfig) (old_reference : option SecretRef) :
    outcome CliError (MqttConfig * option SecretRef) :=
  match update with
  | Auth_Clear => Ok (with_username None gateway, None)
  | Auth_Replace username reference => Ok (with_username (Some username) gateway, Some reference)
  | Auth_PreserveForUsername username =>
      if bool_decide (Mqtt_username gateway ≠ Some username) then
        Err (CliError_new Exit_Usage "a new MQTT username requires --password-stdin or --password-env NAME")
      else Ok (gateway, old_reference)
  | Auth_Preserve => Ok (gateway, old_reference)
  end.

(** The update of the document under its lock: the settings, and the reference they
    had before. *)
Definition update_settings (store : ConfigStore) (gateway_of : MqttConfig → MqttConfig) (update : AuthenticationUpdate) :
    cli W (MqttSettings * option SecretRef) :=
  _ ← run_fs (lock_exclusive store);
  loaded ← load_unmodified host store;
  config ← match loaded with
           | Load_Missing => mret Config_default
           | Load_Loaded config => mret config
           | Load_NeedsMigration _ =>
               raise (with_hint (CliError_new Exit_Configuration
                                   "configuration must be migrated before changing MQTT settings")
                        "Run `meshquill config migrate` first; it preserves a backup.")
           end;
  let old_reference := MqttSettings_password (Config_mqtt config) in
  '(gateway, password) ← lift (apply_authentication update (gateway_of (MqttSettings_gateway (Config_mqtt config)))
                                 old_reference);
  _ ← lift (map_err mqtt_config_error (MqttConfig_validate (Host_tls host) gateway));
  let settings := mkMqttSettings true gateway password in
  let config := with_mqtt settings config in
  _ ← of_store (Config_validate (Host_tls host) config);
  _ ← run_fs (save_unlocked (Host_tls host) store config);
  mret (settings, old_reference).

Definition mqtt_configure (args : Cli) (options : MqttConfigureArgs) : cli W () :=
  store ← config_store host args;
  ca_path ← canonical_tls_path (MqttConfigure_ca_file options) "CA";
  client_certificate_path ← canonical_tls_path (MqttConfigure_client_certificate options) "client certificate";
  client_private_key_path ← canonical_tls_path (MqttConfigure_client_key options) "client private key";
  '(authentication, fresh_credential) ← prepare_authentication (ConfigStore_path store) options;
  updated ← attempt (update_settings store
              (configured_gateway options ca_path client_certificate_path client_private_key_path) authentication);
  match updated with
  | inl error => _ ← cleanup_credential fresh_credential; raise error
  | inr (settings, old_reference) =>
      _ ← (if bool_decide (old_reference ≠ MqttSettings_password settings) then
             cleanup_credential (credential_target_opt old_reference)
           else mret ());
      let report := configure_report settings in
      emit_result (Cli_output args) "mqtt_configuration" report
        (str_bytes "Configured MQTT broker " ++ MqttReport_host report
           ++ str_bytes (":" +:+ pretty (MqttReport_port report) +:+ " (TLS: " +:+ bool_name (MqttReport_tls report)
                +:+ ", authentication: " +:+ bool_name (MqttReport_authentication report) +:+ ", outbound sends: "
                +:+ bool_name (MqttReport_allow_send report) +:+ ")."))
  end.

(** ** [mqtt test] *)

Definition load_enabled_settings (args : Cli) : cli W MqttSettings :=
  store ← config_store host args;
  loaded ← load_optional host store;
  settings ← match loaded with
             | Load_Missing => raise mqtt_disabled
             | Load_Loaded config | Load_NeedsMigration config => mret (Config_mqtt config)
             end;
  if negb (MqttSettings_enabled settings) then raise mqtt_disabled else mret settings.

(** The notices until the broker is ready, with a bound on their number: [None] if the
    timeout passed first. *)
Fixpoint await_broker (fuel : nat) (command_readiness_required broker_connected : bool) :
    cli W (option (CliError + ())) :=
  match fuel with
  | O => lift Panic
  | S fuel =>
      notice ← ask broker_notice;
      match notice with
      | None => mret None
      | Some (Some (Gateway_BrokerState Status_Connected)) =>
          if negb command_readiness_required then mret (Some (inr ()))
          else await_broker fuel command_readiness_required true
      | Some (Some Gateway_CommandReady) =>
          if broker_connected then mret (Some (inr ()))
          else await_broker fuel command_readiness_required broker_connected
      | Some (Some (Gateway_BrokerState Status_Disconnected | Gateway_Rejected _ | Gateway_Command _)) =>
          await_broker fuel command_readiness_required broker_connected
      | Some None =>
          mret (Some (inl (CliError_new Exit_Mqtt
                             "MQTT gateway stopped before the broker accepted the connection")))
      end
  end.

Definition mqtt_test (fuel : nat) (args : Cli) : cli W () :=
  settings ← load_enabled_settings args;
  let gateway := MqttSettings_gateway settings in
  password ← resolve_mqtt_password args settings;
  opened ← ask (broker_connect gateway password);
  _ ← lift (map_err mqtt_gateway_error opened);
  connected ← await_broker fuel (Mqtt_allow_send gateway) false;
  _ ← cancel_gateway;
  _ ← join_gateway;
  match connected with
  | None =>
      raise (with_hint (CliError_new Exit_Mqtt "MQTT broker connection test timed out")
               "Check DNS, TCP reachability, TLS trust, and broker credentials.")
  | Some (inl error) => raise error
  | Some (inr _) =>
      let report := mkMqttTestReport MQTT_SCHEMA (Mqtt_host gateway) (Mqtt_port gateway) (Tls_enabled (Mqtt_tls gateway))
                      (bool_decide (is_Some (Mqtt_username gateway))) true in
      emit_result (Cli_output args) "mqtt_test" report
        (str_bytes "Connected to MQTT broker " ++ MqttTest_host report
           ++ str_bytes (":" +:+ pretty (MqttTest_port report) +:+ " using "
                +:+ (if MqttTest_tls report then "TLS" else "plain TCP") +:+ " and "
                +:+ (if MqttTest_authenticated report then "broker authentication" else "no broker authentication")
                +:+ "."))
  end.

(** ** Snapshots *)

Section bridge.
Context (args : Cli) (workflow : WorkflowServices) (limits : CommandLimits).

Definition stream {T} (record_type : string) (data : T) (human : rstring) : cli W () :=
  emit_event (Cli_output args) record_type data human.

Definition write_snapshot_diagnostic (publication reason human : string) : cli W () :=
  stream "mqtt_diagnostic" (mkSnapshotDiagnosticReport publication false reason) (str_bytes human).

Definition collect_contact_snapshot (failure_reason : string) : cli W (option Publication) :=
  snapshot ← request (ActorCommand_ListContactsSnapshot None);
  match snapshot with
  | inl _ =>
      _ ← write_snapshot_diagnostic "contacts" failure_reason
            "Skipped MQTT contact snapshot because no authoritative directory marker was available.";
      mret None
  | inr snapshot => mret (Some (Publication_contacts snapshot))
  end.

Definition publish_contact_snapshot (failure_reason : string) : cli W () :=
  publication ← collect_contact_snapshot failure_reason;
  match publication with Some publication => publish publication | None => mret () end.

Definition collect_full_device_snapshot : cli W (list Publication) :=
  contacts ← collect_contact_snapshot "contact_snapshot_query_failed";
  battery ← request ActorCommand_GetBattery;
  battery ← match battery with
            | inr info => mret (Some (Publication_battery info))
            | inl _ =>
                _ ← write_snapshot_diagnostic "battery" "battery_snapshot_query_failed"
                      "Skipped MQTT battery snapshot because the bounded device query failed.";
                mret None
            end;
  telemetry ← request ActorCommand_GetSelfTelemetry;
  telemetry ← match telemetry with
              | inr response => mret (Some (Publication_raw_telemetry response))
              | inl _ =>
                  _ ← write_snapshot_diagnostic "raw_cayenne_lpp" "self_telemetry_snapshot_query_failed"
                        "Skipped MQTT raw telemetry snapshot because the bounded device query failed.";
                  mret None
              end;
  mret (omap id [contacts; battery; telemetry]).

Fixpoint publish_all (publications : list Publication) : cli W () :=
  match publications with
  | [] => mret ()
  | publication :: publications => _ ← publish publication; publish_all publications
  end.
Definition publish_full_device_snapshot : cli W () :=
  publications ← collect_full_device_snapshot; publish_all publications.

(** ** Broker commands *)

Definition record_failed_send (outgoing : OutgoingRecord) : cli W () := ignore (failed workflow outgoing).

Definition execute_direct_command (event_id destination text : rstring) (pending_count : nat) :
    cli W BrokerCommandOutcome :=
  let reject reason := mret (rejected_command event_id "direct_send" reason) in
  if MAX_PENDING_ACKS <=? pending_count then reject "local_pending_limit"
  else
    prepared ← attempt (prepare_send host destination text);
    match prepared with
    | inl _ => reject "before_send_rejected"
    | inr prepared =>
        if negb (is_Ok (validate_send_command (SendCommand_Direct (Prepared_destination prepared)
                                                 (Prepared_text prepared)) limits)) then
          reject "before_send_out_of_bounds"
        else
          outgoing ← attempt (begin_outgoing workflow (Prepared_destination prepared) None (Prepared_text prepared));
          match outgoing with
          | inl _ => reject "history_failed"
          | inr outgoing =>
              contacts ← request (ActorCommand_ListContacts None);
              match contacts with
              | inl _ => _ ← record_failed_send outgoing; reject "device_unavailable"
              | inr contacts =>
                  match resolve_contact contacts (Prepared_destination prepared) with
                  | Err _ => _ ← record_failed_send outgoing; reject "destination_not_found_or_ambiguous"
                  | Panic => lift Panic
                  | Ok contact =>
                      tracking ← request (ActorCommand_SendDirectText (take 6 (PublicKey_0 (Contact_public_key contact)))
                                            0 (Prepared_text prepared));
                      match tracking with
                      | inl _ => _ ← record_failed_send outgoing; reject "device_send_failed"
                      | inr tracking =>
                          let message_id := uuid_string (Outgoing_message_id outgoing) in
                          workflow_result ← attempt (sent host workflow outgoing (Contact_adv_name contact)
                                                       (Prepared_text prepared) message_id
                                                       (Some (CommandTracking_ack_code tracking)));
                          now ← now;
                          let timeout := Z.min (from_millis (CommandTracking_timeout_ms tracking))
                                           Domain.MAX_OPERATION_TIMEOUT in
                          let pending := mkPendingBrokerAck outgoing message_id (Contact_adv_name contact)
                                           (CommandTracking_ack_code tracking) (now + timeout)%Z in
                          mret (broker_command_outcome event_id "direct_send" true
                                  (match workflow_result with
                                   | inl _ => Some "post_send_workflow_failed"
                                   | inr _ => None
                                   end) (Some pending))
                      end
                  end
              end
          end
    end.

Definition execute_channel_command (event_id : rstring) (channel : u8) (text : rstring) : cli W BrokerCommandOutcome :=
  let reject reason := mret (rejected_command event_id "channel_send" reason) in
  prepared ← attempt (prepare_send host (str_bytes (pretty channel)) text);
  match prepared with
  | inl _ => reject "before_send_rejected"
  | inr prepared =>
      match parse_unsigned 8 (Prepared_destination prepared) with
      | None => reject "before_send_rejected"
      | Some prepared_channel =>
          if negb (is_Ok (validate_send_command (SendCommand_Channel prepared_channel (Prepared_text prepared))
                            limits)) then
            reject "before_send_out_of_bounds"
          else
            outgoing ← attempt (begin_outgoing workflow (Prepared_destination prepared) (Some prepared_channel)
                                  (Prepared_text prepared));
            match outgoing with
            | inl _ => reject "history_failed"
            | inr outgoing =>
                r ← request (ActorCommand_SendChannelMessage prepared_channel 0 (Prepared_text prepared));
                match r with
                | inl _ => _ ← record_failed_send outgoing; reject "device_send_failed"
                | inr _ =>
                    let message_id := uuid_string (Outgoing_message_id outgoing) in
                    workflow_result ← attempt (sent host workflow outgoing (Prepared_destination prepared)
                                                 (Prepared_text prepared) message_id None);
                    mret (broker_command_outcome event_id "channel_send" true
                            (match workflow_result with
                             | inl _ => Some "post_send_workflow_failed"
                             | inr _ => None
                             end) None)
                end
            end
      end
  end.

Definition execute_command_once (accepted : AcceptedCommand) (pending_count : nat) : cli W BrokerCommandOutcome :=
  let event_id := uuid_string (Accepted_event_id accepted) in
  match Accepted_command accepted with
  | SendCommand_Direct destination text => execute_direct_command event_id destination text pending_count
  | SendCommand_Channel channel text => execute_channel_command event_id channel text
  end.

Definition handle_gateway_notice (pending : list PendingBrokerAck) (notice : option GatewayNotice) :
    cli W (list PendingBrokerAck) :=
  match notice with
  | Some (Gateway_BrokerState status) =>
      let report := mkBrokerStateReport "mqtt_broker" (connection_status status) in
      _ ← stream "mqtt_connection" report (str_bytes ("MQTT broker is " +:+ BrokerState_status report +:+ "."));
      mret pending
  | Some (Gateway_Rejected error) =>
      let report := mkBrokerRejectionReport false (rejection_code error) in
      _ ← stream "mqtt_command_rejected" report
            (str_bytes ("Rejected MQTT command: " +:+ Rejection_reason report +:+ "."));
      mret pending
  | Some Gateway_CommandReady => mret pending
  | Some (Gateway_Command command) =>
      outcome_ ← execute_command_once command (length pending);
      let pending := pending ++ option_list (Outcome_pending outcome_) in
      let report := Outcome_report outcome_ in
      let human :=
        if BrokerCommand_queued report then "Queued one MQTT " +:+ BrokerCommand_command report +:+ " request."
        else "Did not queue MQTT " +:+ BrokerCommand_command report +:+ " request: "
               +:+ default "unknown_failure" (BrokerCommand_reason report) +:+ "." in
      _ ← stream "mqtt_command" report (str_bytes human);
      mret pending
  | None => raise (CliError_new Exit_Mqtt "MQTT gateway stopped unexpectedly")
  end.

(** ** Device events *)

(** [pending.iter().position(..)] and [pending.remove(position)]. *)
Fixpoint take_pending (code : bytes) (pending : list PendingBrokerAck) :
    option PendingBrokerAck * list PendingBrokerAck :=
  match pending with
  | [] => (None, [])
  | item :: rest =>
      if bool_decide (Pending_ack_code item = code) then (Some item, rest)
      else let '(found, rest) := take_pending code rest in (found, item :: rest)
  end.

(** What the workflow makes of an event: what is still awaited, or [None] for a message
    that was seen already. *)
Definition bridge_workflow_event (pending : list PendingBrokerAck) (event : Domain.Event) :
    cli W (option (list PendingBrokerAck)) :=
  match event with
  | Event_Message message =>
      entry ← incoming host workflow message Live;
      mret (match entry with None => None | Some _ => Some pending end)
  | Event_Ack ack =>
      let '(found, rest) := take_pending (Ack_code ack) pending in
      _ ← match found with
          | Some item =>
              acknowledged host workflow (Pending_record item) (Pending_message_id item)
                (Some (Pending_destination item)) (Ack_trip_time_ms ack) (Ack_code ack)
          | None => mret ()
          end;
      mret (Some rest)
  | Event_ProtocolError _ | Event_UnknownPacket _ _ | Event_LoginFailed _ =>
      _ ← workflow_error host "mqtt_bridge" "the device emitted an error event"; mret (Some pending)
  | _ => mret (Some pending)
  end.

Definition publish_core_event (pending : list PendingBrokerAck) (event : Domain.Event) :
    cli W (list PendingBrokerAck) :=
  seen ← bridge_workflow_event pending event;
  match seen with
  | None => mret pending
  | Some pending =>
      _ ← match from_core_event event with Some publication => publish publication | None => mret () end;
      let record := watch_record event in
      _ ← stream "meshcore_event" record (watch_human record);
      mret pending
  end.

Fixpoint expire_from (now : Z) (pending : list PendingBrokerAck) : cli W (list PendingBrokerAck) :=
  match pending with
  | [] => mret []
  | item :: pending =>
      if (Pending_deadline item <=? now)%Z then
        _ ← timed_out host workflow (Pending_record item) "MQTT-originated send acknowledgement"
              (Pending_message_id item);
        expire_from now pending
      else retained ← expire_from now pending; mret (item :: retained)
  end.
Definition expire_pending_acks (pending : list PendingBrokerAck) : cli W (list PendingBrokerAck) :=
  now ← now; expire_from now pending.

Fixpoint fail_pending (pending : list PendingBrokerAck) : cli W () :=
  match pending with
  | [] => mret ()
  | item :: pending => _ ← record_failed_send (Pending_record item); fail_pending pending
  end.

(** ** [bridge_loop] *)

Record BridgeState := mkBridgeState {
  Bridge_pending : list PendingBrokerAck;
  Bridge_contact_resync : option Z;
  Bridge_reconnect_pending : bool
}.

(** One turn of the [select!]. *)
Definition bridge_turn (st : BridgeState) : cli W BridgeState :=
  let '(mkBridgeState pending contact_resync reconnect_pending) := st in
  turn ← ask (broker_select contact_resync);
  match turn with
  | Bridge_Signal installed =>
      raise (CliError_new Exit_Interrupted
               (if installed : bool then "interrupted by user" else "could not install the interrupt handler"))
  | Bridge_Tick =>
      pending ← expire_pending_acks pending; mret (mkBridgeState pending contact_resync reconnect_pending)
  | Bridge_Resync =>
      now ← now;
      let '(due, contact_resync) := debounce_take_due contact_resync now in
      _ ← (if due then publish_contact_snapshot "contact_resync_query_failed" else mret ());
      mret (mkBridgeState pending contact_resync reconnect_pending)
  | Bridge_Event (Received_Event event) =>
      now ← now;
      let contact_resync := debounce_observe contact_resync event now in
      pending ← publish_core_event pending event;
      match event with
      | Event_Disconnected =>
          _ ← fail_pending pending;
          raise (with_hint (CliError_new Exit_Connection
                              "the MeshCore companion disconnected while the MQTT bridge was running")
                   "Restart the bridge after restoring the device connection.")
      | _ => mret (mkBridgeState pending contact_resync reconnect_pending)
      end
  | Bridge_Event (Received_Lagged skipped) =>
      _ ← stream "mqtt_diagnostic" (mkBrokerRejectionReport false "local_event_consumer_lagged")
            (str_bytes ("MQTT bridge skipped " +:+ pretty skipped +:+ " locally buffered event(s)."));
      mret st
  | Bridge_Event Received_Closed => raise (CliError_new Exit_Connection "the device event stream closed")
  | Bridge_Event Received_Deadline => mret st
  | Bridge_Notice notice =>
      let '(reconnect_snapshot, reconnect_pending) :=
        broker_reconnect_requires_snapshot notice reconnect_pending in
      pending ← handle_gateway_notice pending notice;
      if reconnect_snapshot then
        _ ← publish_full_device_snapshot; mret (mkBridgeState pending None reconnect_pending)
      else mret (mkBridgeState pending contact_resync reconnect_pending)
  end.

(** The loop, with a bound on its turns; it only ends with an error. *)
Fixpoint bridge_loop (fuel : nat) (st : BridgeState) : cli W () :=
  match fuel with
  | O => lift Panic
  | S fuel => st ← bridge_turn st; bridge_loop fuel st
  end.

(** [mqtt bridge] once the companion is connected. *)
Definition bridge_connected (fuel : nat) (info : SelfInfo) : cli W () :=
  announced ← attempt (connected host workflow (SelfInfo_name info));
  match announced with
  | inl error =>
      _ ← cancel_gateway;
      _ ← ignore (disconnected host workflow "MQTT bridge connection hook failed");
      _ ← shutdown;
      _ ← ignore join_gateway;
      raise error
  | inr _ =>
      result ← attempt (_ ← publish_full_device_snapshot; bridge_loop fuel (mkBridgeState [] None false));
      _ ← cancel_gateway;
      _ ← match result with
          | inl error =>
              if bool_decide (CliError_status error ∈ [Exit_Hook; Exit_Interrupted]) then mret ()
              else ignore (workflow_error host "mqtt bridge" "MQTT bridge operation failed")
          | inr _ => mret ()
          end;
      disconnect_result ← attempt (disconnected host workflow
        (match result with inr _ => "MQTT bridge completed" | inl _ => "MQTT bridge stopped" end));
      core_shutdown ← shutdown;
      gateway_shutdown ← attempt join_gateway;
      match result, disconnect_result, core_shutdown, gateway_shutdown with
      | inl error, _, _, _ | inr _, inl error, _, _ => raise error
      | inr _, inr _, inl error, _ => raise (cli_of_core error)
      | inr _, inr _, inr _, inl error => raise error
      | inr _, inr _, inr _, inr _ => mret ()
      end
  end.
End bridge.

Definition mqtt_bridge (fuel : nat) (args : Cli) : cli W () :=
  selected ← select_profile host args;
  let settings := Config_mqtt (Selected_config selected) in
  if negb (MqttSettings_enabled settings) then raise mqtt_disabled
  else
    workflow ← from_selected host selected;
    _ ← make_client selected;
    password ← resolve_mqtt_password args settings;
    opened ← ask (broker_connect (MqttSettings_gateway settings) password);
    _ ← lift (map_err mqtt_gateway_error opened);
    result ← request ActorCommand_Connect;
    match result with
    | inl error => _ ← cancel_gateway; _ ← ignore join_gateway; _ ← shutdown; raise (cli_of_core error)
    | inr info =>
        bridge_connected args workflow (Mqtt_command_limits (MqttSettings_gateway settings)) fuel info
    end.

Definition mqtt (fuel : nat) (args : Cli) (command : MqttCommand) : cli W () :=
  match command with
  | MqttCommand_Configure options => mqtt_configure args options
  | MqttCommand_Test => mqtt_test fuel args
  | MqttCommand_Bridge => mqtt_bridge fuel args
  | MqttCommand_Status => mqtt_status args
  end.
End mqtt.
