(* ===== verification/MqttCliProps.v ===== *)
(** * Command line: what the MQTT bridge guarantees

    What a command of the broker transmits, what nothing else transmits, and the
    protocol of the session between the companion and the broker. *)

From S2P Require Import Prelude Text Order Floats Domain Packet Discovery Managed Hooks HookRuntime Store History Paths.
From S2P Require Import MqttConfig MqttSchema MqttCommand MqttRunner Config CliOutput CliArgs Suggest Resolve Chat.
From S2P Require Import Session CliConfig Workflow Send Commands Watch ChatSession ChatProps RemoteCli MqttCli.

(** ** The protocol of a bridge *)

(** [armed]: the before-send hook was asked about a message, and the message was
    neither transmitted nor reported yet. *)
Record BridgeStage := mkBridgeStage {
  BridgeStage_open : bool;
  BridgeStage_closed : bool;
  BridgeStage_announced : bool;
  BridgeStage_armed : bool;
  BridgeStage_deliveries : list Delivery
}.

(** A bridge asks for the contacts, the battery and the telemetry, and transmits what
    the hook was just asked about, all while its connection is announced; it never
    reconnects, it shuts down once the announcement is withdrawn, and it asks the
    device for nothing else. *)
Definition bridge_request {A} (s : BridgeStage) (command : ActorCommand A) (ok : bool) : option BridgeStage :=
  let '(mkBridgeStage open closed announced armed deliveries) := s in
  let deliver to text :=
    if open && announced && armed then
      Some (mkBridgeStage open closed announced false (deliveries ++ [mkDelivery to text ok]))
    else None in
  match command with
  | ActorCommand_Connect =>
      if open || closed then None else Some (mkBridgeStage ok closed announced armed deliveries)
  | ActorCommand_Shutdown =>
      if announced || closed then None else Some (mkBridgeStage false true announced armed deliveries)
  | ActorCommand_SendChannelMessage channel _ text => deliver (inl channel) text
  | ActorCommand_SendDirectText prefix _ text => deliver (inr prefix) text
  | ActorCommand_ListContacts _ | ActorCommand_ListContactsSnapshot _ | ActorCommand_GetBattery
  | ActorCommand_GetSelfTelemetry => if open && announced then Some s else None
  | _ => None
  end.

Definition bridge_hook (s : BridgeStage) (event : HookEvent) : option BridgeStage :=
  let '(mkBridgeStage open closed announced armed deliveries) := s in
  match event with
  | HookEvent_OnConnect _ =>
      if open && negb announced then Some (mkBridgeStage open closed true armed deliveries) else None
  | HookEvent_OnDisconnect _ => if announced then Some (mkBridgeStage open closed false armed deliveries) else None
  | HookEvent_BeforeSend _ =>
      if announced && negb armed then Some (mkBridgeStage open closed announced true deliveries) else None
  | HookEvent_OnContactUpdate _ => None
  | _ => if announced then Some s else None
  end.

Definition bridge_protocol (s : BridgeStage) (event : Event) : option BridgeStage :=
  match event with
  | Ev_Request command ok => bridge_request s command ok
  | Ev_Hook event => bridge_hook s event
  | Ev_Upsert _ => Some s
  | Ev_Streamed _ _ =>
      let '(mkBridgeStage open closed announced _ deliveries) := s in
      Some (mkBridgeStage open closed announced false deliveries)
  | Ev_Output _ _ | Ev_Credential _ _ => None
  end.
#[global] Instance bridge_automaton : Automaton BridgeStage :=
  {| step_event := bridge_protocol; upsert_ignored := λ _ _, eq_refl |}.

Definition bridge_rest : BridgeStage := mkBridgeStage false false false false [].
(** Connected and announced; with a message in hand; and shut down. *)
Definition bridging (deliveries : list Delivery) : BridgeStage := mkBridgeStage true false true false deliveries.
Definition holding (deliveries : list Delivery) : BridgeStage := mkBridgeStage true false true true deliveries.
Definition bridged (deliveries : list Delivery) : BridgeStage := mkBridgeStage false true false false deliveries.

(** What the limits of the gateway allow. *)
Definition permitted (limits : CommandLimits) (d : Delivery) : Prop :=
  match Delivery_to d with
  | inl channel => validate_send_command (SendCommand_Channel channel (Delivery_text d)) limits = Ok ()
  | inr _ => validate_text (Delivery_text d) (Limits_max_text_bytes limits) = Ok ()
  end.

Lemma validate_direct_text limits destination text :
  is_Ok (validate_send_command (SendCommand_Direct destination text) limits) = true →
  validate_text text (Limits_max_text_bytes limits) = Ok ().
Proof.
  simpl. destruct (validate_destination _ _) as [[]| |]; [|done|done]. simpl. by destruct (validate_text _ _) as [[]| |].
Qed.
Lemma is_Ok_unit {E} (r : outcome E ()) : is_Ok r = true → r = Ok ().
Proof. by destruct r as [[]| |]. Qed.

Section bridge.
Context `{Companion W} `{Vault W} `{Broker W} (host : Host).
Context `{ConfigToml} `{Crates} `{HistoryCodec} `{HookJson} `{CliJson} `{UnicodeTables}.
Implicit Types ds : list Delivery.
#[local] Notation idle := (steady (W := W) bridging).

Create HintDb mq_bridge.
#[local] Hint Resolve steady_silent steady_amend steady_begin_outgoing silent_ret silent_raise silent_lift silent_ask : mq_bridge.

(** An operation of the live session that asks for no transmission. *)
Ltac idle := repeat first
  [ progress (auto with mq_bridge)
  | by apply steady_emit_with | by apply steady_notify | by apply steady_request | by apply steady_incoming
  | apply steady_ignore | apply steady_attempt
  | apply steady_bind; [|intros ?]
  | match goal with |- steady _ (match ?x with _ => _ end) => destruct x end
  | match goal with |- steady _ (let '_ := ?x in _) => destruct x end ].

Section session.
Context (args : Cli) (workflow : WorkflowServices) (limits : CommandLimits).

Lemma idle_publish publication : idle (publish publication).
Proof. unfold publish. idle. Qed.
#[local] Hint Resolve idle_publish : mq_bridge.
Lemma idle_stream {T} record_type (data : T) human : idle (stream args record_type data human).
Proof. unfold stream, emit_event. idle. Qed.
#[local] Hint Resolve idle_stream : mq_bridge.

Lemma idle_collect_contacts reason : idle (collect_contact_snapshot args reason).
Proof. unfold collect_contact_snapshot, write_snapshot_diagnostic. idle. Qed.
#[local] Hint Resolve idle_collect_contacts : mq_bridge.
Lemma idle_publish_contacts reason : idle (publish_contact_snapshot args reason).
Proof. unfold publish_contact_snapshot. idle. Qed.
Lemma idle_publish_all publications : idle (publish_all publications).
Proof. induction publications as [|publication publications IH]; cbn [publish_all]; idle. Qed.
Lemma idle_snapshot : idle (publish_full_device_snapshot args).
Proof.
  unfold publish_full_device_snapshot, collect_full_device_snapshot, write_snapshot_diagnostic.
  apply steady_bind; [idle|intros publications; apply idle_publish_all].
Qed.
Lemma idle_event pending event : idle (publish_core_event host args workflow pending event).
Proof.
  unfold publish_core_event, bridge_workflow_event, acknowledged, workflow_error. apply steady_bind; [|intros; idle].
  destruct event; idle.
Qed.
Lemma idle_expire now pending : idle (expire_from host workflow now pending).
Proof. unfold timed_out. induction pending as [|item pending IH]; cbn [expire_from]; unfold timed_out; idle. Qed.
Lemma idle_expire_acks pending : idle (expire_pending_acks host workflow pending).
Proof. apply steady_bind; [by apply steady_silent, silent_ask|intros; apply idle_expire]. Qed.
Lemma idle_fail pending : idle (fail_pending workflow pending).
Proof. unfold record_failed_send, failed. induction pending; cbn [fail_pending]; unfold record_failed_send, failed; idle. Qed.

(** ** Broker commands *)

(** [ordered accepted d]: [d] is what the command [accepted] asks for, as the hook left
    it and within the limits. *)
Definition ordered (accepted : AcceptedCommand) (d : Delivery) : Prop :=
  ∃ prepared (e e' : Env W),
    Delivery_text d = Prepared_text prepared ∧ permitted limits d ∧
    match Accepted_command accepted with
    | SendCommand_Direct destination text =>
        prepare_send host destination text e = (Ok prepared, e') ∧
        validate_send_command (SendCommand_Direct (Prepared_destination prepared) (Prepared_text prepared)) limits = Ok () ∧
        ∃ contacts contact, resolve_contact contacts (Prepared_destination prepared) = Ok contact ∧
          Delivery_to d = inr (take 6 (PublicKey_0 (Contact_public_key contact)))
    | SendCommand_Channel channel text =>
        prepare_send host (str_bytes (pretty channel)) text e = (Ok prepared, e') ∧
        ∃ channel, parse_unsigned 8 (Prepared_destination prepared) = Some channel ∧ Delivery_to d = inl channel
    end.

(** What a command comes to: nothing was transmitted, and it is reported as not queued;
    or one message was, and it is reported as queued exactly if the device took it.
    What is awaited then is within the bound. *)
Definition carried_out (accepted : AcceptedCommand) (pending_count : nat) ds (o : BrokerCommandOutcome)
    (s : BridgeStage) : Prop :=
  ∃ armed ds', s = mkBridgeStage true false true armed ds' ∧
    ((ds' = ds ∧ BrokerCommand_queued (Outcome_report o) = false ∧ Outcome_pending o = None) ∨
     ∃ d, ds' = ds ++ [d] ∧ ordered accepted d ∧ BrokerCommand_queued (Outcome_report o) = Delivery_accepted d ∧
       (is_Some (Outcome_pending o) →
          Delivery_accepted d = true ∧ pending_count < MAX_PENDING_ACKS)).
Definition executes (accepted : AcceptedCommand) (pending_count : nat) ds (r : outcome CliError BrokerCommandOutcome)
    (s : BridgeStage) : Prop :=
  match r with Ok o => carried_out accepted pending_count ds o s | Err _ => False | Panic => True end.

Lemma executes_rejected accepted pending_count ds armed event_id command reason :
  follows (mkBridgeStage true false true armed ds) (mret (rejected_command event_id command reason) : cli W _)
    (executes accepted pending_count ds).
Proof. apply follows_ret. exists armed, ds. split; [done|]. by left. Qed.

Lemma follows_recorded_failure accepted pending_count ds armed d outgoing event_id command reason :
  (armed = true ∧ d = None ∨ ∃ x, d = Some x ∧ ordered accepted x ∧ Delivery_accepted x = false) →
  follows (mkBridgeStage true false true armed (ds ++ option_list d))
    (_ ← record_failed_send workflow outgoing; mret (rejected_command event_id command reason) : cli W _)
    (executes accepted pending_count ds).
Proof.
  intros Hd. apply follows_bind, follows_ignore, follows_amend. intros _. apply follows_ret.
  exists armed, (ds ++ option_list d). split; [done|]. destruct Hd as [[-> ->]|(x & -> & Ho & Hx)]; simpl.
  - left. by rewrite app_nil_r.
  - right. exists x. split_and!; [done..|]. by intros [].
Qed.

Lemma idle_sent outgoing destination text id ack : idle (sent host workflow outgoing destination text id ack).
Proof. unfold sent. idle. Qed.

(** The hook is asked first, whatever it answers. *)
Lemma follows_ask_hook {A} ds destination text (k : CliError + PreparedSend → cli W A)
    (Q : outcome CliError A → BridgeStage → Prop) :
  (∀ r, (∀ prepared, r = inr prepared → ∃ e e' : Env W, prepare_send host destination text e = (Ok prepared, e')) →
     follows (holding ds) (k r) Q) →
  follows (bridging ds) (attempt (prepare_send host destination text) ≫= k) Q.
Proof.
  intros Hk. apply follows_bind, follows_attempt. eapply follows_mono.
  { apply follows_result. eapply (follows_prepare_send host (bridging ds) (holding ds)); [done|].
    intros r. by instantiate (1 := λ _ s, s = holding ds). }
  intros [prepared|error|] s [-> (e & e' & Hp)]; [| |done]; apply Hk; [|done]. intros ? [= <-]. eauto.
Qed.

Lemma follows_direct accepted ds destination text pending_count event_id :
  Accepted_command accepted = SendCommand_Direct destination text →
  follows (bridging ds) (execute_direct_command host workflow limits event_id destination text pending_count)
    (executes accepted pending_count ds).
Proof.
  intros Ha. unfold execute_direct_command. destruct (Nat.leb_spec MAX_PENDING_ACKS pending_count) as [|Hroom].
  { apply (executes_rejected accepted pending_count ds false). }
  apply follows_ask_hook. intros [error|prepared] Hp; [apply executes_rejected|].
  destruct (Hp prepared eq_refl) as (e & e' & He). clear Hp.
  destruct (is_Ok (validate_send_command _ _)) eqn:Hv; cbn [negb]; [|apply executes_rejected].
  apply follows_bind, follows_attempt, follows_begin_outgoing.
  intros [outgoing|error|]; [|apply executes_rejected|done].
  pose proof (λ reason, follows_recorded_failure accepted pending_count ds true None outgoing event_id "direct_send" reason
    (or_introl (conj eq_refl eq_refl))) as Hfail. cbn [option_list] in Hfail. rewrite app_nil_r in Hfail.
  apply follows_bind. eapply (follows_request (holding ds)); [done..|intros error; apply Hfail|intros contacts].
  destruct (resolve_contact contacts _) as [contact|error|] eqn:Hr; [|apply Hfail|by apply follows_lift].
  set (to := inr (take 6 (PublicKey_0 (Contact_public_key contact))) : Address).
  assert (∀ ok, ordered accepted (mkDelivery to (Prepared_text prepared) ok)) as Ho.
  { intros ok. exists prepared, e, e'. split_and!; [done|by eapply validate_direct_text|]. rewrite Ha.
    split_and!; [done|by apply is_Ok_unit|]. eauto. }
  apply follows_bind. eapply (follows_request (holding ds)); [done..| |].
  - intros error. apply (follows_recorded_failure accepted pending_count ds false (Some (mkDelivery to (Prepared_text prepared) false))).
    right. eauto.
  - intros tracking. cbv zeta. apply (steady_attempt_then bridging); [apply idle_sent|intros posted].
    apply follows_ask. intros now. apply follows_ret. eexists false, _. split; [done|]. right. eexists. split_and!; [done|apply Ho|done|done].
Qed.

Lemma follows_channel accepted ds channel text pending_count event_id :
  Accepted_command accepted = SendCommand_Channel channel text →
  follows (bridging ds) (execute_channel_command host workflow limits event_id channel text)
    (executes accepted pending_count ds).
Proof.
  intros Ha. unfold execute_channel_command.
  apply follows_ask_hook. intros [error|prepared] Hp; [apply executes_rejected|].
  destruct (Hp prepared eq_refl) as (e & e' & He). clear Hp.
  destruct (parse_unsigned 8 (Prepared_destination prepared)) as [prepared_channel|] eqn:Hc; [|apply executes_rejected].
  destruct (is_Ok (validate_send_command _ _)) eqn:Hv; cbn [negb]; [|apply executes_rejected].
  apply follows_bind, follows_attempt, follows_begin_outgoing.
  intros [outgoing|error|]; [|apply executes_rejected|done].
  assert (∀ ok, ordered accepted (mkDelivery (inl prepared_channel) (Prepared_text prepared) ok)) as Ho.
  { intros ok. exists prepared, e, e'. split_and!; [done|by apply is_Ok_unit|]. rewrite Ha. eauto. }
  apply follows_bind. eapply (follows_request (holding ds)); [done..| |].
  - intros error. apply (follows_recorded_failure accepted pending_count ds false
      (Some (mkDelivery (inl prepared_channel) (Prepared_text prepared) false))). right. eauto.
  - intros []. cbv zeta. apply (steady_attempt_then bridging); [apply idle_sent|intros posted].
    apply follows_ret. eexists false, _. split; [done|]. right. eexists. split_and!; [done|apply Ho|done|].
    by intros [].
Qed.

Lemma follows_command accepted ds pending_count :
  follows (bridging ds) (execute_command_once host workflow limits accepted pending_count) (executes accepted pending_count ds).
Proof.
  unfold execute_command_once. destruct (Accepted_command accepted) eqn:Ha; [by apply follows_direct|by eapply follows_channel].
Qed.

(** ** A turn *)

(** [obeys notice ds ds']: a notice that is not a command transmits nothing, and a
    command transmits at most what it asks for, once. *)
Definition obeys (notice : option GatewayNotice) ds ds' : Prop :=
  ds' = ds ∨ ∃ accepted d, notice = Some (Gateway_Command accepted) ∧ ds' = ds ++ [d] ∧ ordered accepted d.

Lemma follows_notice ds pending notice :
  follows (bridging ds) (handle_gateway_notice host args workflow limits pending notice) (λ r s,
    ∃ ds', s = bridging ds' ∧ obeys notice ds ds' ∧
      match r with Ok pending' => length pending ≤ MAX_PENDING_ACKS → length pending' ≤ MAX_PENDING_ACKS | _ => True end).
Proof.
  assert (∀ (m : cli W (list PendingBrokerAck)), idle m → (∀ e pending' e', m e = (Ok pending', e') → pending' = pending) →
    follows (bridging ds) m (λ r s, ∃ ds', s = bridging ds' ∧ obeys notice ds ds' ∧
      match r with Ok pending' => length pending ≤ MAX_PENDING_ACKS → length pending' ≤ MAX_PENDING_ACKS | _ => True end)) as Hidle.
  { intros m Hm Hr. eapply follows_mono; [apply follows_result, Hm|]. intros r s [-> (e & e' & He)].
    exists ds. split_and!; [done|by left|]. destruct r as [pending'| |]; [|done|done]. by rewrite (Hr _ _ _ He). }
  destruct notice as [[status| |accepted|error]|]; cbn [handle_gateway_notice].
  - apply Hidle; [idle|]. intros e pending' e'. unfold mbind, cli_bind. destruct (stream _ _ _ _ e) as [[] ?]; [by intros [= ->]|done|done].
  - apply Hidle; [idle|]. by intros e pending' e' [= ->].
  - apply follows_bind. eapply follows_mono; [apply follows_command|]. intros [o|error|] s Hs; [|done|done].
    destruct Hs as (armed & ds' & -> & Hs).
    assert (obeys (Some (Gateway_Command accepted)) ds ds') as Hobeys.
    { destruct Hs as [[-> _]|(d & -> & Ho & _)]; [by left|]. right. eauto. }
    cbv zeta. eapply follows_emit; [done| |]; [intros error; exists ds'; eauto|]. apply follows_ret.
    exists ds'. split_and!; [done..|]. intros Hl. rewrite length_app.
    destruct Hs as [(_ & _ & ->)|(d & _ & _ & _ & Hpend)]; simpl; [lia|].
    destruct (Outcome_pending o) as [p|]; simpl; [|lia]. destruct Hpend as [_ ?]; [done|]. lia.
  - apply Hidle; [idle|]. intros e pending' e'. unfold mbind, cli_bind. destruct (stream _ _ _ _ e) as [[] ?]; [by intros [= ->]|done|done].
  - apply Hidle; [idle|]. by intros e pending' e' [=].
Qed.

(** What is awaited only shrinks outside of commands. *)
Lemma take_pending_length code pending : length (take_pending code pending).2 ≤ length pending.
Proof.
  induction pending as [|item pending IH]; simpl; [done|]. case_bool_decide; simpl; [lia|].
  destruct (take_pending code pending). simpl in *. lia.
Qed.
Lemma bind_ok {A B} (m : cli W A) (f : A → cli W B) e b e' :
  (m ≫= f) e = (Ok b, e') → ∃ a e1, m e = (Ok a, e1) ∧ f a e1 = (Ok b, e').
Proof. unfold mbind, cli_bind. destruct (m e) as [[a|error|] e1]; [eauto|done|done]. Qed.

Lemma event_pending pending event e pending' e' :
  publish_core_event host args workflow pending event e = (Ok pending', e') → length pending' ≤ length pending.
Proof.
  intros (seen & e1 & Hw & Hp)%bind_ok.
  assert (from_option length 0 seen ≤ length pending) as Hs.
  { clear Hp. revert Hw. unfold bridge_workflow_event.
    destruct event; try (by intros [= <- _]); try (by intros ([] & e2 & _ & [= <- _])%bind_ok).
    - intros ([] & e2 & _ & [= <- _])%bind_ok; simpl; lia.
    - pose proof (take_pending_length (Ack_code ack) pending) as Hl. destruct (take_pending _ _) as [found rest].
      by intros ([] & e2 & _ & [= <- _])%bind_ok. }
  destruct seen as [seen|]; [|by injection Hp as ->]. apply bind_ok in Hp as ([] & e2 & _ & Hp).
  by apply bind_ok in Hp as ([] & e3 & _ & [= -> _]).
Qed.
Lemma expire_pending now pending : ∀ e pending' e',
  expire_from host workflow now pending e = (Ok pending', e') → length pending' ≤ length pending.
Proof.
  induction pending as [|item pending IH]; intros e pending' e'; cbn [expire_from]; [by intros [= ->]|].
  destruct (_ <=? _)%Z.
  - intros ([] & e1 & _ & Hr%IH)%bind_ok. simpl. lia.
  - intros (retained & e1 & Hr%IH & [= <- _])%bind_ok. simpl. lia.
Qed.

(** A turn: the session stays live, every transmission so far was permitted, and no
    more acknowledgements than the bound are awaited. *)
Definition in_bounds (st : BridgeState) : Prop := length (Bridge_pending st) ≤ MAX_PENDING_ACKS.
Definition turned (r : outcome CliError BridgeState) (s : BridgeStage) : Prop :=
  ∃ ds, s = bridging ds ∧ Forall (permitted limits) ds ∧ match r with Ok st => in_bounds st | _ => True end.

Lemma obeys_permitted notice ds ds' : obeys notice ds ds' → Forall (permitted limits) ds → Forall (permitted limits) ds'.
Proof.
  intros [->|(accepted & d & _ & -> & prepared & e & e' & _ & Hp & _)] Hf; [done|]. apply Forall_app. auto.
Qed.

Lemma follows_idle_turn {A} ds (m : cli W A) (k : A → cli W BridgeState) :
  idle m → Forall (permitted limits) ds → (∀ a, (∃ e e', m e = (Ok a, e')) → follows (bridging ds) (k a) turned) →
  follows (bridging ds) (m ≫= k) turned.
Proof.
  intros Hm Hf Hk. apply follows_bind. eapply follows_mono; [apply follows_result, Hm|].
  intros [a|error|] s [-> He]; [by apply Hk|by exists ds|done].
Qed.
Lemma turned_raise ds error : Forall (permitted limits) ds → follows (bridging ds) (raise error : cli W _) turned.
Proof. intros Hf. apply follows_raise. by exists ds. Qed.
Lemma turned_ret ds st : Forall (permitted limits) ds → in_bounds st → follows (bridging ds) (mret st : cli W _) turned.
Proof. intros Hf Hb. apply follows_ret. by exists ds. Qed.

Lemma follows_turn ds st : Forall (permitted limits) ds → in_bounds st →
  follows (bridging ds) (bridge_turn host args workflow limits st) turned.
Proof.
  intros Hf Hb. destruct st as [pending resync reconnect]. unfold in_bounds in Hb. simpl in Hb.
  unfold bridge_turn. apply follows_idle_turn; [by apply steady_silent, silent_ask|done|intros turn _].
  destruct turn as [installed| | |received|notice]; [by apply turned_raise|..].
  - apply follows_idle_turn; [apply idle_expire_acks|done|intros pending' (e & e' & He)]. apply turned_ret; [done|].
    unfold expire_pending_acks, mbind, cli_bind, now, ask in He. destruct (broker_now _) as [t w]. apply expire_pending in He.
    unfold in_bounds. simpl. lia.
  - apply follows_idle_turn; [by apply steady_silent, silent_ask|done|intros t _].
    destruct (debounce_take_due resync t) as [due resync']. apply follows_idle_turn; [|done|intros; by apply turned_ret].
    destruct due; [apply idle_publish_contacts|by apply steady_silent, silent_ret].
  - destruct received as [event|skipped| |]; [|..|by apply turned_ret].
    + apply follows_idle_turn; [by apply steady_silent, silent_ask|done|intros t _]. cbv zeta.
      apply follows_idle_turn; [apply idle_event|done|intros pending' (e & e' & He%event_pending)].
      assert (∀ resync reconnect, in_bounds (mkBridgeState pending' resync reconnect)) by (unfold in_bounds; simpl; lia).
      destruct event; try by apply turned_ret.
      apply follows_idle_turn; [apply idle_fail|done|intros; by apply turned_raise].
    + apply follows_idle_turn; [apply idle_stream|done|intros; by apply turned_ret].
    + by apply turned_raise.
  - destruct (broker_reconnect_requires_snapshot notice reconnect) as [snapshot reconnect'].
    apply follows_bind. eapply follows_mono; [apply follows_notice|].
    intros [pending'|error|] s (ds' & -> & Ho & Hp); [..|done]; pose proof (obeys_permitted _ _ _ Ho Hf); [|by exists ds'].
    assert (∀ resync reconnect, in_bounds (mkBridgeState pending' resync reconnect)) by (unfold in_bounds; auto).
    destruct snapshot; [|by apply turned_ret].
    apply follows_idle_turn; [apply idle_snapshot|done|intros; by apply turned_ret].
Qed.

Lemma follows_loop fuel : ∀ ds st, Forall (permitted limits) ds → in_bounds st →
  follows (bridging ds) (bridge_loop host args workflow limits fuel st)
    (λ _ s, ∃ ds', s = bridging ds' ∧ Forall (permitted limits) ds').
Proof.
  induction fuel as [|fuel IH]; intros ds st Hf Hb; cbn [bridge_loop].
  { apply follows_lift. intros Hn. by destruct Hn. }
  apply follows_bind. eapply follows_mono; [by apply follows_turn|].
  intros [st'|error|] s (ds' & -> & Hf' & Hb'); [by apply IH|by eauto|done].
Qed.

(** ** The session *)

Definition bridge_over (s : BridgeStage) : Prop :=
  s = bridge_rest ∨ ∃ ds, s = bridged ds ∧ Forall (permitted limits) ds.

Lemma silent_join : silent (join_gateway : cli W ()).
Proof.
  apply silent_bind; [apply silent_ask|intros joined]. by destruct joined as [[[]|[]|]| |].
Qed.

Lemma follows_ignore_join s (k : () → cli W ()) (Q : outcome CliError () → BridgeStage → Prop) :
  follows s (k ()) Q → follows s (ignore join_gateway ≫= k) Q.
Proof. intros Hk. by apply follows_bind, follows_ignore, follows_silent; [apply silent_join|]. Qed.

(** The announcement is withdrawn and the client shut down. *)
Lemma follows_dismantle ds reason (k : CliError + () → CoreError + () → CliError + () → cli W ()) :
  Forall (permitted limits) ds → (∀ x y z, follows (bridged ds) (k x y z) (λ _ s, bridge_over s)) →
  follows (bridging ds) (x ← attempt (disconnected host workflow reason); y ← shutdown; z ← attempt join_gateway; k x y z)
    (λ _ s, bridge_over s).
Proof.
  intros Hf Hk. assert (∀ x, follows (mkBridgeStage true false false false ds)
    (y ← shutdown; z ← attempt join_gateway; k x y z) (λ _ s, bridge_over s)) as Hx.
  { intros x. apply follows_bind. eapply follows_request; [done..| |]; intros y;
      (apply follows_bind, follows_attempt, follows_silent; [apply silent_join|intros [[]|error|] _; [apply Hk..|done]]). }
  apply follows_bind, follows_attempt. eapply follows_notify; [done|]. by intros [[]|error|]; [apply Hx..|].
Qed.

Lemma follows_bridge_connected fuel info :
  follows (mkBridgeStage true false false false []) (bridge_connected host args workflow limits fuel info) (λ _ s, bridge_over s).
Proof.
  assert (∀ ds, Forall (permitted limits) ds → bridge_over (bridged ds)) as Hover by (right; eauto).
  unfold bridge_connected. apply follows_bind, follows_attempt, follows_bind. intros e.
  exists [], (mkBridgeStage true false false false []). rewrite app_nil_r. split_and!; [done..|]. intros _. cbv zeta.
  eapply follows_notify; [done|]. intros [[]|error|]; [| |done].
  - apply follows_bind, follows_attempt. eapply follows_mono.
    { apply follows_bind. eapply follows_mono; [apply (idle_snapshot [])|]. intros r s ->.
      instantiate (1 := λ _ s, ∃ ds, s = bridging ds ∧ Forall (permitted limits) ds).
      destruct r as [[]|error|]; [|by exists []|done]. apply follows_loop; [done|]. unfold in_bounds. simpl. lia. }
    intros [[]|error|] s (ds & -> & Hf); [..|done]; apply follows_ask; intros [].
    + apply follows_bind, follows_ret. apply follows_dismantle; [done|]. intros [] [] []; auto using follows_raise, follows_ret.
    + apply follows_bind. eapply follows_mono.
      { instantiate (1 := λ r s, r = Ok () ∧ s = bridging ds). case_bool_decide; [by apply follows_ret|].
        apply follows_ignore. eapply follows_notify; [done|]. by intros. }
      intros r s [-> ->]. apply follows_dismantle; [done|]. intros [] [] []; auto using follows_raise.
  - apply follows_ask. intros []. apply follows_bind, follows_ignore. eapply follows_notify; [done|]. intros _.
    apply follows_bind. eapply follows_request; [done..| |]; intros r; apply follows_ignore_join, follows_raise; auto.
Qed.
End session.

Lemma silent_mqtt_password args settings : silent (resolve_mqtt_password host args settings : cli W _).
Proof.
  assert (silent (mqtt_joined : cli W ())) as Hj
    by (apply silent_bind; [apply silent_ask|intros []; [apply silent_ret|apply silent_raise]]).
  assert (∀ A (f : Keyring → outcome StoreError A), silent (with_mqtt_keyring f : cli W _)) as Hk.
  { intros A f. apply silent_bind; [apply silent_ask|intros keyring]. apply silent_bind; [done|intros; apply silent_ret]. }
  unfold resolve_mqtt_password, of_store.
  repeat first [ done | case_match | apply Hk | apply silent_if | apply silent_raise | apply silent_ask | apply silent_lift
               | apply silent_bind; [|intros ?] ].
Qed.

(** The limits of the profile that the command line selects. *)
Definition selected_limits (args : Cli) (limits : CommandLimits) : Prop :=
  ∃ selected (e e' : Env W), select_profile host args e = (Ok selected, e') ∧
    MqttSettings_enabled (Config_mqtt (Selected_config selected)) = true ∧
    limits = Mqtt_command_limits (MqttSettings_gateway (Config_mqtt (Selected_config selected))).

Lemma follows_bridge fuel args : follows bridge_rest (mqtt_bridge host fuel args)
  (λ _ s, s = bridge_rest ∨ ∃ limits ds, selected_limits args limits ∧ s = bridged ds ∧ Forall (permitted limits) ds).
Proof.
  unfold mqtt_bridge. apply follows_bind. eapply follows_mono.
  { apply follows_result, (follows_silent _ _ (λ _ s, s = bridge_rest)); [apply silent_select_profile|done]. }
  intros [selected|error|] s [-> (e & e' & He)]; [|by left|done]. cbv zeta.
  destruct (MqttSettings_enabled _) eqn:Hen; cbn [negb]; [|apply follows_raise; by left].
  set (limits := Mqtt_command_limits (MqttSettings_gateway (Config_mqtt (Selected_config selected)))).
  assert (selected_limits args limits) as Hl by (exists selected, e, e'; done).
  apply follows_bind, follows_silent; [apply silent_from_selected|]. intros [workflow|error|] _; [|by left|done].
  apply follows_bind, follows_silent; [apply silent_make_client|]. intros [[]|error|] _; [|by left|done].
  apply follows_bind, follows_silent; [apply silent_mqtt_password|]. intros [password|error|] _; [|by left|done].
  apply follows_ask. intros opened. apply follows_bind, follows_lift. intros _.
  destruct (map_err mqtt_gateway_error opened) as [[]|error|]; [|by left|done].
  apply follows_bind. eapply follows_request; [done..| |].
  - intros error. apply follows_ask. intros []. apply follows_ignore_join, follows_bind.
    eapply follows_request; [done..| |]; intros r; apply follows_raise; right; exists limits, []; eauto.
  - intros info. eapply follows_mono; [apply follows_bridge_connected|]. intros r s [->|(ds & -> & Hf)]; [by left|].
    right. exists limits, ds. done.
Qed.
End bridge.

(** C6: the MQTT bridge transmits on command only, and at most once.  However a session
    goes it keeps to its protocol: transmissions and queries happen between the
    announcement of the connection and its withdrawal, every transmission directly
    follows its before-send hook, the device is never reconnected, and at the end the
    client is shut down and everything that was transmitted was within the limits of
    the selected profile.  A command of the broker transmits nothing and is reported as
    not queued, or transmits once what the hook made of it, within the limits, and is
    reported as queued exactly if the device took it.  No other notice, no event of the
    device, no tick and no snapshot transmits anything; and never more than
    [MAX_PENDING_ACKS] acknowledgements are awaited. *)
Theorem bridge_transmits_on_command `{Companion W} `{Vault W} `{Broker W} host `{ConfigToml} `{Crates} `{HistoryCodec}
    `{HookJson} `{CliJson} `{UnicodeTables} args workflow limits :
  (∀ fuel, follows bridge_rest (mqtt_bridge host fuel args) (λ _ s, s = bridge_rest ∨
     ∃ limits deliveries, selected_limits (W := W) host args limits ∧ s = bridged deliveries ∧
       Forall (permitted limits) deliveries)) ∧
  (∀ accepted pending_count deliveries,
     follows (bridging deliveries) (execute_command_once (W := W) host workflow limits accepted pending_count)
       (executes (W := W) host limits accepted pending_count deliveries)) ∧
  (∀ pending notice deliveries,
     follows (bridging deliveries) (handle_gateway_notice (W := W) host args workflow limits pending notice) (λ r s,
       ∃ deliveries', s = bridging deliveries' ∧ obeys (W := W) host limits notice deliveries deliveries' ∧
         match r with
         | Ok pending' => length pending ≤ MAX_PENDING_ACKS → length pending' ≤ MAX_PENDING_ACKS
         | _ => True
         end)) ∧
  (∀ pending event e, steady bridging (publish_core_event host args workflow pending event) ∧
     match publish_core_event host args workflow pending event e with
     | (Ok pending', _) => length pending' ≤ length pending
     | _ => True
     end) ∧
  (∀ pending, steady (W := W) bridging (expire_pending_acks host workflow pending)) ∧
  (∀ reason, steady (W := W) bridging (publish_contact_snapshot args reason)) ∧
  steady (W := W) bridging (publish_full_device_snapshot args).
Proof.
  split_and!; [intros; apply follows_bridge|intros; apply follows_command|intros; apply follows_notice| |
    intros; apply idle_expire_acks|intros; apply idle_publish_contacts|apply idle_snapshot].
  intros pending event e. split; [apply idle_event|].
  destruct (publish_core_event _ _ _ _ _ e) as [[pending'| |] e'] eqn:He; [|done|done]. by eapply event_pending.
Qed.
