(* ===== verification/Dispatch.v ===== *)
(** * Command line: batch contacts and the dispatch of a command (crates/meshquill-cli/src/runtime.rs, batch_cli.rs)

    [dispatch] runs the function of the parsed command; [batch] runs commands of its
    own through it, with their output captured.  What [clap] generates - the parser,
    the text of the completions and of each manual page - and the reader of JSON values
    are parameters, and so is what the operating system answers about the files a command
    line names.  The second half shows what every command line keeps to. *)

From S2P Require Import Prelude Text Order Floats Domain Packet Transport Discovery Managed Hooks HookRuntime Store.
From S2P Require Import History Paths MqttConfig Config CliOutput CliArgs Suggest Resolve Batch Session CliConfig.
From S2P Require Import Workflow Send Commands CommandProps Watch Doctor ChatSession ChatProps RemoteCli HooksCli.
From S2P Require Import MqttCli MqttCliProps.

(** The tree of subcommands [clap] derives from the arguments. *)
Inductive CommandTree := mkCommandTree (name : string) (subcommands : list CommandTree).

(** What is outside a command line: the files it names, and what [clap] generates. *)
Record Surroundings (Value : Type) := mkSurroundings {
  Around_secret : SecretFile;
  Around_legacy : LegacyFile;
  Around_script : ScriptFile;
  Around_try_parse_from : list rstring → outcome string Cli;
  Around_completions : string → bytes;
  Around_commands : CommandTree;
  Around_manpage : CommandTree → string → outcome IoError bytes;
  Around_json_from_slice : rstring → option Value
}.
Arguments Around_secret {Value} _.
Arguments Around_legacy {Value} _.
Arguments Around_script {Value} _.
Arguments Around_try_parse_from {Value} _ _.
Arguments Around_completions {Value} _ _.
Arguments Around_commands {Value} _.
Arguments Around_manpage {Value} _ _ _.
Arguments Around_json_from_slice {Value} _ _.

Record BatchRunReport (Value : Type) := mkBatchRunReport {
  BatchRun_file : bytes;
  BatchRun_command_count : usize;
  BatchRun_results : list (BatchRunEntry (Value := Value))
}.
Record BatchContactEntry (Value : Type) := mkBatchContactEntry {
  BatchEntry_name : rstring;
  BatchEntry_public_key : rstring;
  BatchEntry_kind : string;
  BatchEntry_result : option Value
}.
Record BatchContactsReport (Value : Type) := mkBatchContactsReport {
  BatchReport_profile : rstring;
  BatchReport_operation : string;
  BatchReport_dry_run : bool;
  BatchReport_target_count : usize;
  BatchReport_targets : list (BatchContactEntry Value)
}.
Arguments mkBatchRunReport {Value} _ _ _.
Arguments mkBatchContactEntry {Value} _ _ _ _.
Arguments BatchEntry_name {Value} _.
Arguments BatchEntry_public_key {Value} _.
Arguments BatchEntry_kind {Value} _.
Arguments mkBatchContactsReport {Value} _ _ _ _ _.
Arguments BatchReport_operation {Value} _.
Arguments BatchReport_dry_run {Value} _.
Arguments BatchReport_target_count {Value} _.
Arguments BatchReport_targets {Value} _.

Section dispatch.
Context {W : Type} `{Companion W} `{ChatWorld W} `{Vault W} `{Broker W} (host : Host).
Context `{ConfigToml} `{Crates} `{HistoryCodec} `{HookJson} `{CliJson} `{UnicodeTables}.
Context (discover_ble : Z → W → outcome DiscoveryError (list DiscoveredDevice) * W).
Context (discover_serial : W → outcome DiscoveryError (list DiscoveredDevice) * W).
Context (discover_guided : GuidedTransport → W → option (outcome DiscoveryError (list DiscoveredDevice)) * W).
Context {Value : Type} (around : Surroundings Value).

(** ** Batch contacts *)

Definition list_contacts_once (args : Cli) : cli W (rstring * list Contact) :=
  selected ← select_profile host args;
  _ ← make_client selected;
  connected ← request ActorCommand_Connect;
  contacts ← match connected with
             | inr _ => request (ActorCommand_ListContacts None)
             | inl error => mret (inl error)
             end;
  shutdown_ ← shutdown;
  match contacts with
  | inr contacts =>
      match shutdown_ with
      | inr _ => mret (Selected_name selected, contacts)
      | inl error => raise (cli_of_core error)
      end
  | inl error => raise (cli_of_core error)
  end.

Definition contacts_human (report : BatchContactsReport Value) : rstring :=
  let heading := str_bytes ((if BatchReport_dry_run report then "Matched " else "Applied operation to ")
                              +:+ pretty (BatchReport_target_count report) +:+ " contact(s) for '"
                              +:+ BatchReport_operation report +:+ "'.") in
  match BatchReport_targets report with
  | [] => heading
  | targets =>
      heading ++ [0x0a%Z]
        ++ join_lines ((λ target, terminal_safe (BatchEntry_name target) ++ [0x09%Z] ++ str_bytes (BatchEntry_kind target)
                                    ++ [0x09%Z] ++ take 12 (BatchEntry_public_key target)) <$> targets)
  end.

Section batch.
(** [runtime::dispatch] for the commands of a batch. *)
Context (dispatch : Cli → cli W ()).

(** A command whose output goes to a buffer, which takes all of it. *)
Definition captured (m : cli W ()) : cli W rstring := λ e,
  let put stdout e :=
    mkEnv (Env_world e) (Env_fs e) (Env_hooks e) (Env_tracker e) (Env_stdin e) stdout (Env_stderr e) (Env_log e) in
  let '(r, e') := m (put (mkSink [] []) e) in
  (match r with Ok _ => Ok (Sink_written (Env_stdout e')) | Err error => Err error | Panic => Panic end,
   put (Env_stdout e) e').

Definition dispatch_json (args : Cli) : cli W Value :=
  output ← captured (dispatch args);
  lift (ok_or (Around_json_from_slice around output)
          (CliError_new Exit_Protocol "batch command did not produce exactly one JSON value")).

Definition batch_run_file (args : Cli) (path : bytes) : cli W () :=
  results ← run_file (Around_try_parse_from around) dispatch_json args path (Around_script around);
  emit_result (Cli_output args) "batch_run" (mkBatchRunReport path (length results) results)
    (str_bytes ("Executed " +:+ pretty (length results) +:+ " batch command(s) from '") ++ terminal_safe path
       ++ str_bytes "'.").

(** [map_err] of the error of one target. *)
Definition with_context {A} (context : string) (m : cli W A) : cli W A := λ e,
  let '(r, e) := m e in (map_err (λ error, contextual_error error context) r, e).

Fixpoint batch_targets (args : Cli) (operation : BatchOperation) (dry_run : bool) (contacts : list Contact)
    (targets : list (BatchContactEntry Value)) : cli W (list (BatchContactEntry Value)) :=
  match contacts with
  | [] => mret targets
  | contact :: contacts =>
      let public_key := PublicKey_to_hex (Contact_public_key contact) in
      result ←
        (if dry_run then mret None
         else
           nested ← lift (generated_cli (Around_try_parse_from around) args operation public_key);
           value ← with_context ("batch target '" +:+ bytes_str (terminal_safe (Contact_adv_name contact)) +:+ "'")
                     (dispatch_json nested);
           mret (Some value));
      batch_targets args operation dry_run contacts
        (targets ++ [mkBatchContactEntry (Contact_adv_name contact) public_key
                       (contact_type_name (Contact_contact_type contact)) result])
  end.

Definition batch_contacts (args : Cli) (options : BatchContactsArgs) : cli W () :=
  filter ← lift (ContactFilter_parse (BatchContacts_filter options));
  operation ← lift (BatchOperation_parse (BatchContacts_operation options));
  '(profile, contacts) ← list_contacts_once args;
  let contacts := List.filter (ContactFilter_matches filter) contacts in
  _ ← (if negb (BatchContacts_dry_run options) && bool_decide (operation = Operation_PathReset)
            && negb (bool_decide (contacts = []))
       then confirm host args "reset the paths for all filtered batch contacts" else mret ());
  targets ← batch_targets args operation (BatchContacts_dry_run options) contacts [];
  let report := mkBatchContactsReport profile (BatchOperation_name operation) (BatchContacts_dry_run options)
                  (length targets) targets in
  emit_result (Cli_output args) "batch_contacts" report (contacts_human report).

Definition batch (args : Cli) (command : BatchCommand) : cli W () :=
  match command with
  | Batch_Run file => batch_run_file args file
  | Batch_Contacts options => batch_contacts args options
  end.
End batch.

(** ** Completions and manual pages *)

Definition completions (mode : OutputMode) (shell : string) : cli W () := λ e,
  let '(r, s) := Writer_raw mode (Around_completions around shell) (Env_stdout e) in
  (map_err cli_of_output r,
   mkEnv (Env_world e) (Env_fs e) (Env_hooks e) (Env_tracker e) (Env_stdin e) s (Env_stderr e) (Env_log e)).

Definition artifact_io_error : CliError :=
  with_hint (CliError_new Exit_Configuration "could not create the requested local artifact")
    "Check the destination directory and its permissions.".
(** A call of the file system whose error is [artifact_io_error]. *)
Definition run_artifact {A} (m : fs A) : cli W A := λ e,
  let '(r, e) := run_fs m e in (map_err (λ _, artifact_io_error) r, e).

(** [fs::write]: the file is created or emptied, then written. *)
Definition fs_write (path : string) (contents : bytes) : fs () :=
  _ ← fs_step StoreError_Io;
  _ ← fs_update (<[path := []]>);
  _ ← fs_step StoreError_Io;
  fs_update (<[path := contents]>).

Fixpoint write_manpage_tree (command : CommandTree) (page_name : string) (directory : bytes) (files : list string) :
    cli W (list string) :=
  let '(mkCommandTree _ subcommands) := command in
  bytes ← lift (map_err (λ _, artifact_io_error) (Around_manpage around command page_name));
  let path := bytes_str (below directory (page_name +:+ ".1")) in
  _ ← run_artifact (fs_write path bytes);
  (fix children (subcommands : list CommandTree) (files : list string) : cli W (list string) :=
     match subcommands with
     | [] => mret files
     | subcommand :: subcommands =>
         let '(mkCommandTree name _) := subcommand in
         files ← write_manpage_tree subcommand (page_name +:+ "-" +:+ name) directory files;
         children subcommands files
     end) subcommands (files ++ [path]).

Record ArtifactReport := mkArtifactReport { ArtifactReport_files : list string }.
Definition manpages (mode : OutputMode) (directory : bytes) : cli W () :=
  _ ← run_artifact (fs_step StoreError_Io);
  files ← write_manpage_tree (Around_commands around) "meshquill" directory [];
  emit_result mode "manpages" (mkArtifactReport files)
    (str_bytes ("Generated " +:+ pretty (length files) +:+ " man page(s) in ") ++ directory).

(** ** Dispatch *)

Definition network (fuel : nat) (args : Cli) (command : NetworkCommand) : cli W () :=
  match command with
  | Network_Discover options => network_discover host fuel args options
  | Network_Trace options => network_trace host args options
  | Network_Scope options => network_scope host args options
  end.

Definition init_human (report : InitReport) : rstring :=
  str_bytes ("Created " +:+ InitReport_transport report +:+ " profile '") ++ InitReport_profile report
    ++ str_bytes ("' at " +:+ InitReport_config_path report +:+ (if InitReport_default report then " (default)" else "")).

(** The function of the command, [batch] being that of a batch. *)
Definition dispatch_command (fuel : nat) (batch : Cli → BatchCommand → cli W ()) (args : Cli) : cli W () :=
  match Cli_command args with
  | Command_Init options =>
      report ← initialize host discover_guided args options;
      emit_result (Cli_output args) "configuration_initialized" report (init_human report)
  | Command_Profiles command => profiles host args command
  | Command_Devices options => devices host discover_ble discover_serial args options
  | Command_Connect options => if Connect_watch options then watch_connection host fuel args else connect_command host args
  | Command_Status => status host args
  | Command_Doctor options => doctor host discover_ble discover_serial args (Doctor_connect options) (Doctor_repair options)
  | Command_Device Device_Info => device_info host args false
  | Command_Device Device_Firmware => device_info host args true
  | Command_Device Device_Telemetry => device_telemetry host args
  | Command_Device (Device_Clock options) => device_clock host args options
  | Command_Device (Device_Advertise options) => device_advertise host args options
  | Command_Device Device_Reboot => device_reboot host args
  | Command_Contacts options => contacts host args options
  | Command_Channels command => channels host args command (Around_secret around)
  | Command_Send options => send host args options
  | Command_Inbox options => inbox host fuel args options
  | Command_History command => history_command host args command
  | Command_Watch options => watch host fuel args options
  | Command_Chat options => chat host fuel args options
  | Command_Network command => network fuel args command
  | Command_Remote command => remote host args command
  | Command_Sensor command => sensor host args command
  | Command_Batch command => batch args command
  | Command_Hooks command => hooks host args command
  | Command_Mqtt command => mqtt host fuel args command
  | Command_Config Config_Show => config_show host args
  | Command_Config Config_Migrate => config_migrate host args
  | Command_Config Config_Repair => config_repair host args
  | Command_Config (Config_ImportLegacy path) => config_import_legacy host args path (Around_legacy around)
  | Command_Completions options => completions (Cli_output args) (Completions_shell options)
  | Command_Manpages options => manpages (Cli_output args) (Manpages_directory options)
  end.

(** [depth] bounds the nesting of batches; the code has no such bound, and no use for
    more than one level, since a batch may not hold another. *)
Fixpoint dispatch (fuel depth : nat) (args : Cli) : cli W () :=
  _ ← lift (validate_output_shape args);
  match unsupported_command args with
  | Some error => raise error
  | None =>
      dispatch_command fuel
        (λ args command, match depth with
                         | 0 => λ e, (Panic, e)
                         | S depth => batch (dispatch fuel depth) args command
                         end) args
  end.
End dispatch.

(** * What every command line keeps to

    The life of the link to the device, seen from the log: opened, announced, withdrawn
    and closed.  Every command gives back what it opened, the commands of a batch
    included, so that [dispatch] does. *)

(** Whether the device is connected, and whether that is announced to the hooks. *)
Record Link := mkLink { Link_open : bool; Link_announced : bool }.
Definition unlinked : Link := mkLink false false.

(** The device is asked for something only while it is connected, connected only while
    it is not, and announced only while it is; an announcement is withdrawn once. *)
Definition link_event (s : Link) (event : Event) : option Link :=
  let '(mkLink open announced) := s in
  match event with
  | Ev_Request command ok =>
      match command with
      | ActorCommand_Connect => if open then None else Some (mkLink ok announced)
      | ActorCommand_Shutdown => Some (mkLink false announced)
      | _ => if open then Some s else None
      end
  | Ev_Hook (HookEvent_OnConnect _) => if open && negb announced then Some (mkLink open true) else None
  | Ev_Hook (HookEvent_OnDisconnect _) => if announced then Some (mkLink open false) else None
  | _ => Some s
  end.
#[global] Instance link_automaton : Automaton Link :=
  {| step_event := link_event; upsert_ignored := λ s _, match s with mkLink _ _ => eq_refl end |}.

(** [released m]: from no link to no link. *)
Definition released {W A} (m : cli W A) : Prop := follows unlinked m (λ _ s, s = unlinked).

Definition is_batch (command : Command) : bool := match command with Command_Batch _ => true | _ => false end.

(** The trees of subcommands, by induction on their branches. *)
Section tree.
Variable P : CommandTree → Prop.
Hypothesis node : ∀ name subcommands, Forall P subcommands → P (mkCommandTree name subcommands).
Fixpoint CommandTree_ind' (command : CommandTree) : P command :=
  let '(mkCommandTree name subcommands) := command in
  node name subcommands ((fix branches (subcommands : list CommandTree) : Forall P subcommands :=
    match subcommands with
    | [] => Forall_nil_2 P
    | command :: subcommands => Forall_cons_2 P command subcommands (CommandTree_ind' command) (branches subcommands)
    end) subcommands).
End tree.

(** ** From the protocols of the commands *)

Definition stage_link (s : Stage) : Link := mkLink (Stage_open s) (Stage_announced s).
Definition chat_link (s : ChatStage) : Link := mkLink (ChatStage_open s) (ChatStage_announced s).
Definition bridge_link (s : BridgeStage) : Link := mkLink (BridgeStage_open s) (BridgeStage_announced s).

Lemma stage_event s event s' : protocol s event = Some s' → link_event (stage_link s) event = Some (stage_link s').
Proof.
  destruct s as [open closed announced scoped failed sent], event as [A command ok|event| | | |]; simpl; try (by intros [= <-]).
  - destruct closed; [done|]. destruct command; simpl; repeat case_match; simplify_eq; try done; by intros [= <-].
  - destruct event; simpl; repeat case_match; try done; intros [= <-]; simpl in *; destruct open, announced; done.
  - by case_match; [|intros [= <-]].
Qed.
Lemma chat_link_event s event s' : chat_protocol s event = Some s' → link_event (chat_link s) event = Some (chat_link s').
Proof.
  destruct s as [open closed announced deliveries], event as [A command ok|event| | | |]; simpl; try (by intros [= <-]); try done.
  - destruct command; simpl; try done; destruct open, announced, closed; simpl; try done; by intros [= <-].
  - destruct event; simpl; destruct open, announced; simpl; try done; by intros [= <-].
Qed.
Lemma bridge_link_event s event s' :
  bridge_protocol s event = Some s' → link_event (bridge_link s) event = Some (bridge_link s').
Proof.
  destruct s as [open closed announced armed deliveries], event as [A command ok|event| | | |]; simpl; try (by intros [= <-]); try done.
  - destruct command; simpl; try done; destruct open, announced, closed, armed; simpl; try done; by intros [= <-].
  - destruct event; simpl; destruct open, announced, armed; simpl; try done; by intros [= <-].
Qed.

Section simulation.
Context `{Automaton St} (link : St → Link).
Hypothesis simulated : ∀ s event s', step_event s event = Some s' → link_event (link s) event = Some (link s').

Lemma advance_link s events s' : advance s events = Some s' → advance (link s) events = Some (link s').
Proof.
  revert s. induction events as [|event events IH]; intros s; simpl; [by intros [= <-]|].
  destruct (step_event s event) as [s1|] eqn:He; simpl; [|done]. rewrite (simulated _ _ _ He). apply IH.
Qed.
Lemma released_follows {W A} s (m : cli W A) (Q : outcome CliError A → St → Prop) :
  link s = unlinked → (∀ r s', Q r s' → link s' = unlinked) → follows s m Q → released m.
Proof.
  intros Hs HQ Hm e. specialize (Hm e). destruct (m e) as [r e']. destruct Hm as (events & s' & Hl & Ha & Hq).
  exists events, (link s'). split_and!; [done|rewrite <- Hs; by apply advance_link|]. intros Hr. by eapply HQ, Hq.
Qed.
End simulation.

Lemma over_unlinked s : over s → stage_link s = unlinked.
Proof. intros [(Ho & Ha & _) _]. unfold stage_link. by rewrite Ho, Ha. Qed.

Lemma released_stage {W A} (m : cli W A) : follows at_rest m (λ _ s, over s) → released m.
Proof. apply (released_follows (H := Stage_automaton) stage_link stage_event); [done|]. intros _ s. apply over_unlinked. Qed.
Lemma advance_within events : Forall within events → advance (mkLink true true) events = Some (mkLink true true).
Proof.
  induction 1 as [|event events He _ IH]; [done|]. simpl. destruct event as [A command ok|event| | | |]; try done.
  - by destruct command.
  - by destruct event.
Qed.
Lemma released_bracketed {W A} (m : cli W A) : bracketed m → released m.
Proof.
  intros Hm e. specialize (Hm e). destruct (m e) as [r e'].
  destruct Hm as (opening & work & closing & s & s' & Hl & Ho & Hw & Hc & Hin & Hover).
  exists (opening ++ work ++ closing), (stage_link s'). split; [done|]. split; [|intros Hr; by apply over_unlinked, Hover].
  rewrite !advance_app. rewrite (advance_link (H := Stage_automaton) stage_link stage_event _ _ _ Ho : advance unlinked opening = _).
  cbn [mbind option_bind]. rewrite advance_app.
  assert (advance (stage_link s) work = Some (stage_link s)) as ->.
  { destruct work as [|event work]; [done|]. rewrite Hin by done. by apply advance_within. }
  by apply (advance_link (H := Stage_automaton) stage_link stage_event).
Qed.

(** ** Rules *)

(** Results and credentials: what a command logs without a device. *)
Definition printed (event : Event) : Prop := match event with Ev_Request _ _ | Ev_Hook _ => False | _ => True end.
Definition prints {W A} (m : cli W A) : Prop := logs printed m.

Section rules.
Context {W : Type}.

Lemma released_prints {A} (m : cli W A) : prints m → released m.
Proof. apply follows_logs. by intros []. Qed.

Lemma released_silent {A} (m : cli W A) : silent m → released m.
Proof. intros Hm. by apply follows_silent. Qed.
Lemma released_bind {A B} (m : cli W A) (k : A → cli W B) : released m → (∀ a, released (k a)) → released (m ≫= k).
Proof.
  intros Hm Hk. apply follows_bind. eapply follows_mono; [exact Hm|]. intros [a|error|] s ->; [apply Hk|done|done].
Qed.
Lemma released_captured (m : cli W ()) : released m → released (captured m).
Proof.
  intros Hm e. unfold captured.
  specialize (Hm (mkEnv (Env_world e) (Env_fs e) (Env_hooks e) (Env_tracker e) (Env_stdin e) (mkSink [] []) (Env_stderr e)
    (Env_log e))). destruct (m _) as [r e']. destruct Hm as (events & s & Hl & Ha & Hs). exists events, s.
  split_and!; [done|done|]. intros Hr. apply Hs. by destruct r.
Qed.
Lemma released_with_context {A} context (m : cli W A) : released m → released (with_context context m).
Proof.
  intros Hm e. specialize (Hm e). unfold with_context. destruct (m e) as [r e']. destruct Hm as (events & s & Hl & Ha & Hs).
  exists events, s. split_and!; [done|done|]. intros Hr. apply Hs. by destruct r.
Qed.
End rules.

#[export] Hint Resolve silent_ask silent_run_fs silent_write_stderr silent_read_line silent_ret silent_raise silent_lift
  silent_confirm silent_config_store silent_select_profile silent_make_client silent_from_selected : mq_silent.
Ltac quietly := repeat first
  [ progress (auto with mq_silent)
  | apply silent_attempt
  | apply silent_bind; [|intros ?]
  | match goal with |- silent (match ?x with _ => _ end) => destruct x end
  | match goal with |- silent (if ?x then _ else _) => destruct x end ].
Ltac offline := try apply released_prints; unfold prints; repeat first
  [ apply logs_silent; solve [quietly]
  | apply logs_emit; exact I
  | apply logs_attempt
  | apply logs_bind; [|intros ?]
  | match goal with |- logs _ (match ?x with _ => _ end) => destruct x end
  | match goal with |- logs _ (if ?x then _ else _) => destruct x end ].

Section commands.
Context {W : Type} `{Companion W} `{ChatWorld W} `{Vault W} `{Broker W} (host : Host).
Context `{ConfigToml} `{Crates} `{HistoryCodec} `{HookJson} `{CliJson} `{UnicodeTables}.

Lemma silent_load_optional store : silent (load_optional host store : cli W _).
Proof. unfold load_optional, of_store. quietly. Qed.
Lemma silent_load_unmodified store : silent (load_unmodified host store : cli W _).
Proof. unfold load_unmodified, of_store. quietly. Qed.
Lemma silent_load_mutable store : silent (load_mutable host store : cli W _).
Proof. pose proof silent_load_unmodified. unfold load_mutable. quietly. Qed.
#[local] Hint Resolve silent_load_optional silent_load_unmodified silent_load_mutable : mq_silent.

Lemma prints_profiles args command : prints (profiles host args command : cli W ()).
Proof.
  destruct command; cbn [profiles];
    unfold profiles_list, profiles_reconfigure, profiles_rename, profiles_delete, profiles_set_default, emit_result; offline.
Qed.
Lemma prints_config args command file : prints (match command with
  | Config_Show => config_show host args
  | Config_Migrate => config_migrate host args
  | Config_Repair => config_repair host args
  | Config_ImportLegacy path => config_import_legacy host args path file
  end : cli W ()).
Proof.
  destruct command; unfold config_show, config_migrate, config_repair, config_import_legacy, of_store, emit_result; offline.
Qed.

Section init.
Context (discover : GuidedTransport → W → option (outcome DiscoveryError (list DiscoveredDevice)) * W).
Lemma silent_write_candidates index devices : silent (write_candidates index devices : cli W ()).
Proof. revert index. induction devices; intros index; cbn [write_candidates]; unfold write_candidate; quietly. Qed.
Lemma silent_prompt_transport : silent (prompt_transport discover).
Proof.
  pose proof silent_write_candidates. unfold prompt_transport, prompt_discovered_target, manual_discovered_target,
    discovery_diagnostic, prompt. quietly.
Qed.
Lemma prints_initialize args options : prints (initialize host discover args options).
Proof.
  pose proof silent_prompt_transport. unfold initialize, collect_init_inputs, prompt. offline.
Qed.
End init.

Section discovery.
Context (discover_ble : Z → W → outcome DiscoveryError (list DiscoveredDevice) * W).
Context (discover_serial : W → outcome DiscoveryError (list DiscoveredDevice) * W).
Lemma silent_emit_errors args diagnostics : silent (emit_errors args diagnostics : cli W ()).
Proof. induction diagnostics; cbn [emit_errors]; unfold emit_diagnostic; quietly. Qed.
Lemma prints_devices args options : prints (devices host discover_ble discover_serial args options).
Proof.
  pose proof silent_emit_errors. unfold devices, discover_physical, discover_configured, emit_result. offline.
Qed.
Lemma released_connection_checks args connect : released (connection_checks host args connect : cli W _).
Proof.
  unfold connection_checks. destruct connect; cbn [negb]; [|offline]. apply released_bind; [offline|]. intros [error|selected]; [offline|].
  apply follows_bind. eapply follows_request; [reflexivity..| |].
  - intros error. apply follows_bind. eapply follows_request; [reflexivity..| |]; intros r; by apply follows_ret.
  - intros info. apply follows_bind. eapply follows_request; [reflexivity..| |]; intros answer;
      (apply follows_bind; eapply follows_request; [reflexivity..| |]; intros r; by apply follows_ret).
Qed.
Lemma released_doctor args connect repair : released (doctor host discover_ble discover_serial args connect repair).
Proof.
  pose proof released_connection_checks. unfold doctor, diagnose_configuration, provider_checks, emit_result.
  apply released_bind; [offline|intros diagnosis]. apply released_bind; [offline|intros providers].
  apply released_bind; [done|intros [healthy checks]]. offline.
Qed.
End discovery.

Lemma prints_status args : prints (status host args : cli W ()).
Proof. unfold status, emit_result. offline. Qed.
Lemma prints_history args command : prints (history_command host args command : cli W ()).
Proof. unfold history_command, load_history, clear_history, emit_result. offline. Qed.
Lemma prints_hooks args command : prints (hooks host args command : cli W ()).
Proof.
  destruct command; cbn [hooks]; unfold hooks_validate, hooks_test, hooks_status, runtime_from_config, runtime_from_path,
    new_runtime, run_hook, of_store, emit_result; offline.
Qed.

Lemma prints_record event : printed event → prints (record_event event : cli W ()).
Proof. intros He. by eapply logs_one. Qed.
Lemma silent_mqtt_keyring {A} (f : Keyring → outcome StoreError A) : silent (with_mqtt_keyring f : cli W _).
Proof. unfold with_mqtt_keyring, mqtt_joined. quietly. Qed.
Lemma silent_await_broker fuel required connected : silent (await_broker fuel required connected : cli W _).
Proof. revert connected. induction fuel as [|fuel IH]; intros connected; cbn [await_broker]; quietly. Qed.
Lemma prints_cleanup target : prints (cleanup_credential target : cli W ()).
Proof.
  pose proof @silent_mqtt_keyring. destruct target as [[service account]|]; cbn [cleanup_credential]; [|offline].
  apply logs_ignore. unfold of_store. offline. by apply prints_record.
Qed.
Lemma silent_read_password what maximum : silent (read_password what maximum : cli W _).
Proof. intros e. unfold read_password. by repeat case_match. Qed.
Lemma prints_authentication path options : prints (prepare_authentication host path options : cli W _).
Proof.
  unfold prepare_authentication, mqtt_credential_account, mqtt_store_credential, of_store, read_mqtt_password_stdin.
  pose proof @silent_mqtt_keyring. pose proof silent_read_password. offline. by apply prints_record.
Qed.
Lemma prints_mqtt fuel args command : command ≠ MqttCommand_Bridge → prints (mqtt host fuel args command : cli W ()).
Proof.
  intros Hb. destruct command as [options| | |]; cbn [mqtt].
  - unfold mqtt_configure, canonical_tls_path, emit_result.
    apply logs_bind; [offline|intros store]. do 3 (apply logs_bind; [offline|intros ?]).
    apply logs_bind; [apply prints_authentication|intros [authentication fresh]]. apply logs_bind.
    { apply logs_attempt. unfold update_settings, of_store. offline. }
    intros [error|[settings old]]; (apply logs_bind; [|intros []; offline]); [apply prints_cleanup|].
    case_match; [apply prints_cleanup|offline].
  - pose proof silent_mqtt_password. pose proof silent_await_broker. pose proof silent_join.
    unfold mqtt_test, load_enabled_settings, cancel_gateway, emit_result. offline.
  - done.
  - unfold mqtt_status, emit_result. offline.
Qed.
Lemma released_mqtt fuel args command : released (mqtt host fuel args command : cli W ()).
Proof.
  destruct command as [options| | |]; [apply released_prints, prints_mqtt; discriminate..| |apply released_prints, prints_mqtt; discriminate].
  eapply (released_follows (H := bridge_automaton) bridge_link bridge_link_event bridge_rest); [done| |apply follows_bridge].
  intros r s [->|(limits & ds & _ & -> & _)]; done.
Qed.
Lemma released_send args options : released (send host args options : cli W ()).
Proof. apply released_stage. eapply follows_mono; [apply follows_send|]. by intros r s [Ho _]. Qed.
Lemma released_chat fuel args options : released (chat host fuel args options : cli W ()).
Proof.
  eapply (released_follows (H := chat_automaton) chat_link chat_link_event chat_rest); [done| |by apply follows_chat].
  intros r s [->|[ds ->]]; done.
Qed.
Lemma released_watch fuel args filters count : released (watch_events host fuel args filters count : cli W ()).
Proof. by apply released_stage, follows_watch_events. Qed.

Section batch.
Context {Value : Type} (around : Surroundings Value).
Lemma silent_run_artifact {A} (m : fs A) : silent (run_artifact m : cli W A).
Proof.
  intros e. unfold run_artifact. pose proof (silent_run_fs m e) as Hr. by destruct (run_fs m e).
Qed.
Lemma silent_completions mode shell : silent (completions around mode shell : cli W ()).
Proof. intros e. unfold completions. by destruct (Writer_raw _ _ _). Qed.
Lemma released_list_contacts args : released (list_contacts_once host args : cli W _).
Proof.
  unfold list_contacts_once. apply released_bind; [offline|intros selected]. apply released_bind; [offline|intros []].
  apply follows_bind. eapply follows_request; [reflexivity..| |].
  - intros error. apply follows_bind, follows_ret, follows_bind.
    eapply follows_request; [reflexivity..| |]; intros r; by apply follows_raise.
  - intros info. apply follows_bind. eapply follows_request; [reflexivity..| |]; intros answer;
      (apply follows_bind; eapply follows_request; [reflexivity..| |]; intros r; first [by apply follows_raise|by apply follows_ret]).
Qed.

Lemma silent_manpages command page_name directory files :
  silent (write_manpage_tree around command page_name directory files : cli W _).
Proof.
  revert page_name files. induction command as [name subcommands IH] using CommandTree_ind'; intros page_name files.
  cbn [write_manpage_tree]. pose proof @silent_run_artifact. apply silent_bind; [quietly|intros bytes]. cbv zeta.
  apply silent_bind; [done|intros []]. generalize (files ++ [bytes_str (below directory (page_name +:+ ".1"))]).
  induction IH as [|[child children] subcommands Hchild _ IH]; intros written; [apply silent_ret|].
  apply silent_bind; [apply Hchild|]. intros. apply IH.
Qed.
Lemma prints_manpages mode directory : prints (manpages around mode directory : cli W ()).
Proof. pose proof silent_manpages. pose proof @silent_run_artifact. unfold manpages, emit_result. offline. Qed.

Context (dispatch : Cli → cli W ()).
Hypothesis Hdispatch : ∀ args, released (dispatch args).
Lemma released_dispatch_json args : released (dispatch_json around dispatch args).
Proof. unfold dispatch_json. apply released_bind; [by apply released_captured|intros output]. offline. Qed.
Lemma released_run_commands commands results : released (run_commands (dispatch_json around dispatch) commands results).
Proof.
  revert results. induction commands as [|command commands IH]; intros results; cbn [run_commands]; [apply released_silent, silent_ret|].
  intros e. pose proof (released_dispatch_json (Parsed_cli command) e) as Hd.
  destruct (dispatch_json around dispatch (Parsed_cli command) e) as [[value|error|] e1].
  - destruct Hd as (events & s & Hl & Ha & Hs). rewrite (Hs ltac:(done)) in Ha.
    pose proof (IH (results ++ [mkBatchRunEntry (Parsed_line command) value]) e1) as Hr.
    destruct (run_commands _ _ _ e1) as [r e2]. destruct Hr as (events' & s' & Hl' & Ha' & Hs').
    exists (events ++ events'), s'. rewrite Hl', Hl, app_assoc, advance_app, Ha. by split_and!.
  - destruct Hd as (events & s & Hl & Ha & Hs). exists events, s. split_and!; [done|done|]. intros _. by apply Hs.
  - destruct Hd as (events & s & Hl & Ha & Hs). by exists events, s.
Qed.
Lemma released_targets args operation dry_run contacts targets :
  released (batch_targets around dispatch args operation dry_run contacts targets).
Proof.
  revert targets. induction contacts as [|contact contacts IH]; intros targets; cbn [batch_targets]; [apply released_silent, silent_ret|].
  cbv zeta. apply released_bind; [|intros result; apply IH]. case_match; [offline|]. apply released_bind; [offline|intros nested].
  apply released_bind; [apply released_with_context, released_dispatch_json|intros value; offline].
Qed.
Lemma released_batch args command : released (batch host around dispatch args command).
Proof.
  destruct command as [path|options]; cbn [batch].
  - unfold batch_run_file, run_file, emit_result. apply released_bind; [|intros results; offline].
    intros e. destruct (_ ≫= _) as [commands|error|]; [apply released_run_commands|by apply (released_silent (raise error)), silent_raise|].
    by apply (released_silent (lift Panic)), silent_lift.
  - pose proof released_list_contacts. unfold batch_contacts, emit_result. apply released_bind; [offline|intros filter].
    apply released_bind; [offline|intros operation]. apply released_bind; [done|intros [profile contacts]]. cbv zeta.
    apply released_bind; [offline|intros []]. apply released_bind; [apply released_targets|intros targets; offline].
Qed.
End batch.
End commands.

(** One command, whatever a batch does. *)
Section dispatched.
Context {W : Type} `{Companion W} `{ChatWorld W} `{Vault W} `{Broker W} (host : Host).
Context `{ConfigToml} `{Crates} `{HistoryCodec} `{HookJson} `{CliJson} `{UnicodeTables}.
Context (discover_ble : Z → W → outcome DiscoveryError (list DiscoveredDevice) * W).
Context (discover_serial : W → outcome DiscoveryError (list DiscoveredDevice) * W).
Context (discover_guided : GuidedTransport → W → option (outcome DiscoveryError (list DiscoveredDevice)) * W).
Context {Value : Type} (around : Surroundings Value).

Lemma released_device args command : released (match command with
  | Device_Info => device_info host args false
  | Device_Firmware => device_info host args true
  | Device_Telemetry => device_telemetry host args
  | Device_Clock options => device_clock host args options
  | Device_Advertise options => device_advertise host args options
  | Device_Reboot => device_reboot host args
  end : cli W ()).
Proof.
  pose proof (follows_session_commands (W := W) host args) as Hs. rewrite !Forall_cons in Hs.
  destruct Hs as (_ & Hi & Hf & Ht & Hr & _). destruct command.
  1-3,6: by apply released_stage.
  - apply released_stage, follows_device_clock.
  - apply released_bracketed, bracketed_advertise.
Qed.
Lemma released_network fuel args command : released (network host fuel args command : cli W ()).
Proof.
  destruct command; cbn [network].
  - apply released_bracketed, bracketed_discover.
  - by apply released_stage, follows_network_trace.
  - apply released_bracketed, bracketed_scope.
Qed.
Lemma released_command fuel (batch : Cli → BatchCommand → cli W ()) args :
  (∀ args command, released (batch args command)) →
  released (dispatch_command host discover_ble discover_serial discover_guided around fuel batch args).
Proof.
  intros Hb. pose proof (released_device args) as Hdevice. pose proof (prints_config host args) as Hconfig.
  unfold dispatch_command. destruct (Cli_command args) eqn:Hcommand.
  - apply released_bind; [apply released_prints, prints_initialize|intros report; unfold emit_result; offline].
  - apply released_prints, prints_profiles.
  - apply released_prints, prints_devices.
  - case_match; [refine (released_watch host fuel args _ _)|]. apply released_stage, follows_connect_command.
  - apply released_prints, prints_status.
  - apply released_doctor.
  - apply (Hdevice command).
  - apply released_bracketed, bracketed_contacts.
  - apply released_send.
  - apply released_stage, follows_inbox.
  - apply released_prints, prints_history.
  - refine (released_watch host fuel args _ _).
  - apply released_chat.
  - apply released_bracketed, bracketed_channels.
  - apply released_stage, follows_remote.
  - apply released_stage, follows_sensor.
  - apply released_network.
  - apply Hb.
  - apply released_prints, (Hconfig command).
  - apply released_prints, prints_hooks.
  - apply released_mqtt.
  - apply released_silent, silent_completions.
  - apply released_prints, prints_manpages.
Qed.
End dispatched.

(** ** Nested batches

    The parser takes the words of an operation of a batch for that operation, which is
    not a batch, and no line of a script is one: the commands of a batch hold no batch,
    and one level of [dispatch] is all there is. *)

Section depth.
Context {W : Type} `{Companion W} `{ChatWorld W} `{Vault W} `{Broker W} (host : Host).
Context `{ConfigToml} `{Crates} `{HistoryCodec} `{HookJson} `{CliJson} `{UnicodeTables}.
Context (discover_ble : Z → W → outcome DiscoveryError (list DiscoveredDevice) * W).
Context (discover_serial : W → outcome DiscoveryError (list DiscoveredDevice) * W).
Context (discover_guided : GuidedTransport → W → option (outcome DiscoveryError (list DiscoveredDevice)) * W).
Context {Value : Type} (around : Surroundings Value).
Hypothesis operations_parse : ∀ operation public_key parsed,
  Around_try_parse_from around (BatchOperation_argv operation public_key) = Ok parsed → is_batch (Cli_command parsed) = false.

Lemma bind_ext {A B} (m m' : cli W A) (k k' : A → cli W B) :
  (∀ e, m e = m' e) → (∀ a e, k a e = k' a e) → ∀ e, (m ≫= k) e = (m' ≫= k') e.
Proof.
  intros Hm Hk e. unfold mbind, cli_bind. rewrite Hm. destruct (m' e) as [[a|error|] e']; [apply Hk|done|done].
Qed.

Lemma commands_no_batch {parse parent n ls commands} : commands_of parse parent n ls commands →
  Forall (λ command, is_batch (Cli_command (Parsed_cli command)) = false) commands.
Proof.
  induction 1 as [|n line ls commands|n line ls cli commands Hl _ IH]; [constructor|done|constructor; [|done]].
  destruct Hl as (_ & _ & words & parsed & _ & _ & _ & _ & _ & [_ Hn] & _). simpl. by destruct (Cli_command cli).
Qed.

Section agreement.
Context (d d' : Cli → cli W ()).
Hypothesis agree : ∀ args, is_batch (Cli_command args) = false → ∀ e, d args e = d' args e.

Lemma dispatch_json_agrees args : is_batch (Cli_command args) = false →
  ∀ e, dispatch_json around d args e = dispatch_json around d' args e.
Proof. intros Ha. apply bind_ext; [|done]. intros e. unfold captured. by rewrite agree. Qed.
Lemma run_commands_agree commands results e :
  Forall (λ command, is_batch (Cli_command (Parsed_cli command)) = false) commands →
  run_commands (dispatch_json around d) commands results e = run_commands (dispatch_json around d') commands results e.
Proof.
  intros Hc. revert results e. induction Hc as [|command commands Hb _ IH]; intros results e; [done|]. cbn [run_commands].
  rewrite dispatch_json_agrees by done. by destruct (dispatch_json around d' _ e) as [[value|error|] e'].
Qed.
Lemma targets_agree args operation dry_run contacts targets e :
  batch_targets around d args operation dry_run contacts targets e =
  batch_targets around d' args operation dry_run contacts targets e.
Proof.
  revert targets e. induction contacts as [|contact contacts IH]; intros targets; cbn [batch_targets]; [done|].
  apply bind_ext; [|intros; apply IH]. destruct dry_run; [done|]. intros e. unfold mbind, cli_bind, lift, generated_cli.
  destruct (Around_try_parse_from around _) as [parsed|error|] eqn:Hp; [|done|done]. simpl. unfold with_context.
  rewrite dispatch_json_agrees; [done|]. apply operations_parse in Hp. by case_bool_decide.
Qed.
Lemma batch_agrees args command e : batch host around d args command e = batch host around d' args command e.
Proof.
  destruct command as [path|options]; cbn [batch].
  - apply bind_ext; [|done]. intros e'. unfold run_file. destruct (read_script _ _) as [script|error|]; [|done|done]. simpl.
    destruct (parse_script _ args script) as [commands|error|] eqn:Hp; [|done|done].
    apply run_commands_agree. by apply parse_script_ok in Hp as [_ Hp%commands_no_batch].
  - do 3 (apply bind_ext; [done|intros ?]). destruct a1 as [profile contacts]. apply bind_ext; [done|intros _].
    apply bind_ext; [|done]. apply targets_agree.
Qed.
End agreement.

Definition run (fuel depth : nat) : Cli → cli W () :=
  dispatch host discover_ble discover_serial discover_guided around fuel depth.
Lemma dispatch_agrees fuel depth depth' args : is_batch (Cli_command args) = false →
  ∀ e, run fuel depth args e = run fuel depth' args e.
Proof.
  intros Hb. destruct depth, depth'; (apply bind_ext; [done|intros _ e]; case_match; [done|]; unfold dispatch_command;
    by destruct (Cli_command args)).
Qed.
Lemma one_level_enough fuel depth args e :
  run fuel (S depth) args e = run fuel 1 args e.
Proof.
  destruct (is_batch (Cli_command args)) eqn:Hb; [|by apply dispatch_agrees]. unfold run; cbn [dispatch]. revert e.
  apply bind_ext; [done|intros _ e]. case_match; [done|]. unfold dispatch_command. destruct (Cli_command args); try done.
  apply (batch_agrees (run fuel depth) (run fuel 0)). intros nested. apply dispatch_agrees.
Qed.
End depth.

(** C4: whatever the command line is, its links are given back.  However the command
    goes - the device, the hooks, the files, the output, the interrupt may fail at any
    point, and the commands of a batch with it - the device is asked for something only
    while it is connected and connected only while it is not; the connection is
    announced to the hooks only while it is there, each announcement is withdrawn once,
    and at the end the device is not connected and nothing is announced.  (A panic, which
    is also how a command that was given too little fuel ends, stops where it is.) *)
Theorem every_command_releases `{Companion W} `{ChatWorld W} `{Vault W} `{Broker W} host `{ConfigToml} `{Crates}
    `{HistoryCodec} `{HookJson} `{CliJson} `{UnicodeTables} discover_ble discover_serial discover_guided {Value}
    (around : Surroundings Value) fuel depth args :
  follows unlinked (dispatch (W := W) host discover_ble discover_serial discover_guided around fuel depth args)
    (λ _ s, s = unlinked).
Proof.
  revert args. induction depth as [|depth IH]; intros args; cbn [dispatch];
    (apply released_bind; [offline|intros []]; case_match; [offline|]; apply released_command).
  - intros _ command. by apply (released_silent (lift Panic)), silent_lift.
  - intros. by apply released_batch.
Qed.
