(* ===== verification/Unattended.v ===== *)
(** * Command line: nobody to ask

    [dispatch], when [--yes] was not given and there is nobody to answer a question:
    whatever the command is, and whatever the commands of a batch are, nothing is
    destroyed. *)

From S2P Require Import Prelude Text Order Floats Domain Packet Transport Discovery Managed Hooks HookRuntime Store.
From S2P Require Import History Paths MqttConfig Config CliOutput CliArgs Suggest Resolve Batch Session CliConfig.
From S2P Require Import Workflow Send Commands CommandProps Watch Doctor Consent ChatSession ChatProps RemoteCli.
From S2P Require Import HooksCli MqttCli MqttCliProps Dispatch.

(** The commands that erase something on the disk. *)
Definition erases (command : Command) : bool :=
  match command with
  | Command_History HistoryCommand_Clear | Command_Profiles (Profile_Rename _ _) | Command_Profiles (Profile_Delete _)
  | Command_Config Config_Repair | Command_Doctor _ => true
  | _ => false
  end.
(** The command that replaces a route. *)
Definition reroutes (command : Command) : bool :=
  match command with
  | Command_Contacts options =>
      match Contacts_command options with Some (ContactCommand_Path (ContactPath_Set _ _)) => true | _ => false end
  | _ => false
  end.

(** ** From the protocols of the commands *)

Section protocol.
Context {W : Type} `{Automaton St} (P : Event → Prop).
Hypothesis accepted : ∀ s event s', step_event s event = Some s' → P event.
Lemma logs_follows {A} (s : St) (m : cli W A) Q : follows s m Q → logs P m.
Proof.
  intros Hm e. specialize (Hm e). destruct (m e) as [r e']. destruct Hm as (events & s' & Hl & Ha & _). exists events.
  split; [done|]. clear Hl. revert s Ha. induction events as [|event events IH]; intros s; [constructor|]. simpl.
  destruct (step_event s event) as [s1|] eqn:He; simpl; [|done]. intros Ha. constructor; eauto.
Qed.
End protocol.

Lemma chat_harmless s event s' : chat_protocol s event = Some s' → harmless event.
Proof. destruct event as [A command ok| | | | |], s; try (by intros _ []). destruct command; first [done|by intros _ []]. Qed.
Lemma bridge_harmless s event s' : bridge_protocol s event = Some s' → harmless event.
Proof. destruct event as [A command ok| | | | |], s; try (by intros _ []). destruct command; first [done|by intros _ []]. Qed.

(** ** Rules *)

Section rules.
Context `{Companion W} (host : Host).
Context `{ConfigToml} `{Crates} `{HistoryCodec} `{HookJson} `{CliJson} `{UnicodeTables}.

Lemma logs_mono {A} (P Q : Event → Prop) (m : cli W A) : (∀ event, P event → Q event) → logs P m → logs Q m.
Proof. intros HP Hm e. destruct (Hm e) as (events & Hl & Hf). exists events. split; [done|]. by eapply Forall_impl. Qed.
Lemma logs_select {A} P (command : ActorCommand A) : (∀ ok, P (Ev_Request command ok)) → logs P (select_request command).
Proof.
  intros HP e. unfold select_request. destruct (comp_select _ _) as [r w]. eexists [_]. split; [done|]. by apply Forall_singleton.
Qed.
Lemma logs_before_send P input : P (Ev_Hook (HookEvent_BeforeSend input)) → logs P (ask_before_send host input).
Proof. apply logs_one. intros e. unfold ask_before_send. repeat case_match; simplify_eq; done. Qed.
Lemma logs_captured P (m : cli W ()) : logs P m → logs P (captured m).
Proof.
  intros Hm e. unfold captured.
  specialize (Hm (mkEnv (Env_world e) (Env_fs e) (Env_hooks e) (Env_tracker e) (Env_stdin e) (mkSink [] []) (Env_stderr e)
    (Env_log e))). by destruct (m _) as [r e'].
Qed.
Lemma logs_context {A} P context (m : cli W A) : logs P m → logs P (with_context context m).
Proof. intros Hm e. specialize (Hm e). unfold with_context. by destruct (m e) as [r e']. Qed.
Lemma harmless_prints {A} (m : cli W A) : prints m → logs harmless m.
Proof. apply logs_mono. intros [] []; by intros []. Qed.
End rules.

(** Decides a computation whose requests are harmless, through its definitions. *)
Ltac head m := lazymatch m with ?f _ => head f | _ => m end.
Ltac spare := repeat first
  [ progress intros
  | solve [auto with mq_spared]
  | apply logs_silent; solve [auto with mq_silent]
  | apply logs_require; by intros ? []
  | apply logs_request; by intros ? []
  | apply logs_select; by intros ? []
  | apply logs_notify; by intros []
  | apply logs_before_send; by intros []
  | apply logs_emit; by intros []
  | apply logs_attempt | apply logs_ignore | apply logs_bind | apply logs_session; [by intros ? []..|]
  | apply logs_one_session; [by intros ? []..|]
  | case_match
  | match goal with |- logs _ ?m => let f := head m in unfold f end ].
Create HintDb mq_spared.

Section commands.
Context {W : Type} `{Companion W} `{ChatWorld W} `{Vault W} `{Broker W} (host : Host).
Context `{ConfigToml} `{Crates} `{HistoryCodec} `{HookJson} `{CliJson} `{UnicodeTables}.

Lemma spares_record event : harmless event → logs harmless (record_event event : cli W ()).
Proof. intros He. by eapply logs_one. Qed.
Lemma silent_tracker : silent (clear_tracker : cli W ()).
Proof. done. Qed.
#[local] Hint Resolve silent_tracker silent_track silent_select_profile silent_make_client silent_from_selected : mq_silent.
#[local] Hint Extern 1 (logs harmless (record_event _)) => apply spares_record; by intros [] : mq_spared.
Lemma spares_discovery fuel tag : ∀ seen nodes, logs harmless (collect_node_discovery fuel tag seen nodes : cli W _).
Proof. induction fuel as [|fuel IH]; intros seen nodes; cbn [collect_node_discovery]; spare. Qed.
Lemma spares_reconnect policy remaining : ∀ attempt, logs harmless (reconnect_from remaining policy attempt : cli W _).
Proof. induction remaining as [|remaining IH]; intros attempt; cbn [reconnect_from]; spare. Qed.
Lemma spares_inbox_loop fuel workflow limit : ∀ messages, logs harmless (inbox_loop host fuel workflow limit messages : cli W _).
Proof. induction fuel as [|fuel IH]; intros messages; cbn [inbox_loop]; spare. Qed.
Lemma spares_device args command : unattended host args → logs harmless (match command with
  | Device_Info => device_info host args false
  | Device_Firmware => device_info host args true
  | Device_Telemetry => device_telemetry host args
  | Device_Clock options => device_clock host args options
  | Device_Advertise options => device_advertise host args options
  | Device_Reboot => device_reboot host args
  end : cli W ()).
Proof. intros Hu. destruct command; [..|by apply logs_refused]. all: spare. Qed.
#[local] Hint Resolve spares_discovery spares_reconnect spares_inbox_loop : mq_spared.
Lemma spares_network fuel args command : logs harmless (network host fuel args command : cli W ()).
Proof. destruct command; cbn [network]; spare. Qed.
Lemma spares_remote args command : logs harmless (remote host args command : cli W ()).
Proof. destruct command; cbn [remote]; spare. Qed.
Lemma spares_sensor args command : logs harmless (sensor host args command : cli W ()).
Proof. destruct command; cbn [sensor]; spare. Qed.
Lemma spares_send args options : logs harmless (send host args options : cli W ()).
Proof. spare. Qed.
Lemma spares_loop args filters count policy workflow fuel :
  ∀ st, logs harmless (watch_loop host args filters count policy workflow fuel st : cli W _).
Proof. induction fuel as [|fuel IH]; intros st; cbn [watch_loop]; spare. Qed.
#[local] Hint Resolve spares_loop : mq_spared.
Lemma spares_watch fuel args filters count : logs harmless (watch_events host fuel args filters count : cli W ()).
Proof. spare. Qed.
Lemma spares_inbox fuel args options : logs harmless (inbox host fuel args options : cli W ()).
Proof. spare. Qed.
Lemma spares_connect args : logs harmless (connect_command host args : cli W ()).
Proof. spare. Qed.
Lemma spares_list args : logs harmless (list_contacts_once host args : cli W _).
Proof. spare. Qed.
Lemma spares_chat fuel args options : logs harmless (chat host fuel args options : cli W ()).
Proof. eapply (logs_follows (H := chat_automaton)); [apply chat_harmless|apply follows_chat]. Qed.
Lemma spares_mqtt fuel args command : logs harmless (mqtt host fuel args command : cli W ()).
Proof.
  destruct command; try by apply harmless_prints, prints_mqtt.
  eapply (logs_follows (H := bridge_automaton)); [apply bridge_harmless|apply follows_bridge].
Qed.
Lemma spares_doctor discover_ble discover_serial args connect repair :
  logs harmless (doctor host discover_ble discover_serial args connect repair : cli W ()).
Proof. spare. Qed.
End commands.

Section dispatched.
Context {W : Type} `{Companion W} `{ChatWorld W} `{Vault W} `{Broker W} (host : Host).
Context `{ConfigToml} `{Crates} `{HistoryCodec} `{HookJson} `{CliJson} `{UnicodeTables}.
Context (discover_ble : Z → W → outcome DiscoveryError (list DiscoveredDevice) * W).
Context (discover_serial : W → outcome DiscoveryError (list DiscoveredDevice) * W).
Context (discover_guided : GuidedTransport → W → option (outcome DiscoveryError (list DiscoveredDevice)) * W).
Context {Value : Type} (around : Surroundings Value).

(** ** Batches *)

Section batch.
Context (dispatch : Cli → cli W ()) (args : Cli).
Hypothesis nobody : unattended host args.
Hypothesis nested_spares : ∀ nested, unattended host nested → logs harmless (dispatch nested).

(** A command of the batch has the options of the batch, and nobody is asked. *)
Lemma inherits_unattended nested : inherits args nested → unattended host nested.
Proof. destruct nobody as [Hy _]. intros (_ & _ & _ & _ & Hn & _ & Hi & _). split; [by rewrite Hn|by rewrite Hi]. Qed.
Lemma generated_unattended operation public_key nested :
  generated_cli (Around_try_parse_from around) args operation public_key = Ok nested → operation ≠ Operation_PathReset →
  unattended host nested.
Proof.
  intros Hg Hn. unfold generated_cli in Hg. destruct (Around_try_parse_from around _) as [parsed| |]; [|done|done]. simpl in Hg.
  rewrite bool_decide_false in Hg by done. injection Hg as <-. by apply inherits_unattended.
Qed.

Lemma spares_json nested : unattended host nested → logs harmless (dispatch_json around dispatch nested).
Proof. intros Hu. apply logs_bind; [by apply logs_captured, nested_spares|intros output; by apply logs_silent]. Qed.
Lemma spares_run_commands commands : Forall (λ command, unattended host (Parsed_cli command)) commands →
  ∀ results, logs harmless (run_commands (dispatch_json around dispatch) commands results).
Proof.
  induction 1 as [|command commands Hc _ IH]; intros results; [by apply logs_silent|]. intros e. cbn [run_commands].
  destruct (spares_json _ Hc e) as (events & Hl & Hf). destruct (dispatch_json around dispatch _ e) as [[value|error|] e1];
    [|by exists events..].
  destruct (IH (results ++ [mkBatchRunEntry (Parsed_line command) value]) e1) as (events' & Hl' & Hf').
  exists (events ++ events'). rewrite Hl'. simpl in Hl. rewrite Hl, app_assoc. split; [done|by apply Forall_app].
Qed.
Lemma spares_script path file : logs harmless (run_file (Around_try_parse_from around) (dispatch_json around dispatch) args path file).
Proof.
  intros e. unfold run_file. destruct (read_script _ _) as [script|error|]; simpl; [|by exists []; rewrite app_nil_r..].
  destruct (parse_script _ args script) as [commands|error|] eqn:Hp; [|by exists []; rewrite app_nil_r..].
  apply spares_run_commands. apply parse_script_ok in Hp as [_ Hp]. clear -Hp nobody.
  induction Hp as [|n line ls commands|n line ls cli commands Hl _ IH]; [constructor|done|constructor; [|done]].
  destruct Hl as (_ & _ & words & parsed & _ & _ & _ & _ & _ & _ & Hi). by apply inherits_unattended.
Qed.

(** The routes of the contacts are reset only behind a question. *)
Lemma spares_targets operation dry_run contacts :
  dry_run = true ∨ operation ≠ Operation_PathReset ∨ contacts = [] →
  ∀ targets, logs harmless (batch_targets around dispatch args operation dry_run contacts targets).
Proof.
  induction contacts as [|contact contacts IH]; intros Ha targets; cbn [batch_targets]; [by apply logs_silent|]. cbv zeta.
  apply logs_bind; [|intros result; apply IH; naive_solver]. destruct dry_run; [by apply logs_silent|].
  destruct Ha as [|[Hn|]]; [done| |done]. intros e. unfold mbind, cli_bind, lift.
  destruct (generated_cli _ _ _ _) as [nested|error|] eqn:Hg; [|by exists []; rewrite app_nil_r..].
  apply (logs_bind (W := W) harmless (with_context _ (dispatch_json around dispatch nested)) (λ value, mret (Some value)));
    [|intros value; by apply logs_silent].
  apply logs_context, spares_json. by eapply generated_unattended.
Qed.
Lemma spares_batch command : logs harmless (batch host around dispatch args command).
Proof.
  destruct command as [path|options]; cbn [batch].
  - apply logs_bind; [apply spares_script|intros results; by apply logs_emit; intros []].
  - apply logs_bind; [by apply logs_silent|intros filter]. apply logs_bind; [by apply logs_silent|intros operation].
    apply logs_bind; [apply spares_list|intros [profile contacts]]. cbv zeta.
    set (matched := List.filter _ contacts).
    destruct (negb _ && _ && _) eqn:Hask; [by apply logs_refused|]. apply logs_bind; [by apply logs_silent|intros []].
    apply logs_bind; [apply spares_targets|intros targets; by apply logs_emit; intros []].
    apply andb_false_iff in Hask as [[Hd|Ho]%andb_false_iff|Hm].
    + left. by apply negb_false_iff.
    + right; left. by apply bool_decide_eq_false in Ho.
    + right; right. by apply negb_false_iff, bool_decide_eq_true in Hm.
Qed.
End batch.

Lemma spares_command fuel (batch : Cli → BatchCommand → cli W ()) args : unattended host args →
  (∀ command, logs harmless (batch args command)) →
  logs harmless (dispatch_command host discover_ble discover_serial discover_guided around fuel batch args).
Proof.
  intros Hu Hb. pose proof (spares_device host args) as Hdevice. pose proof (prints_config host args) as Hconfig.
  unfold dispatch_command. destruct (Cli_command args) eqn:Hcommand.
  - apply logs_bind; [apply harmless_prints, prints_initialize|intros report; by apply logs_emit; intros []].
  - apply harmless_prints, prints_profiles.
  - apply harmless_prints, prints_devices.
  - case_match; [apply spares_watch|apply spares_connect].
  - apply harmless_prints, prints_status.
  - apply spares_doctor.
  - by apply (Hdevice command).
  - by apply spares_contacts.
  - apply spares_send.
  - apply spares_inbox.
  - apply harmless_prints, prints_history.
  - apply spares_watch.
  - apply spares_chat.
  - by apply spares_channels.
  - apply spares_remote.
  - apply spares_sensor.
  - apply spares_network.
  - apply Hb.
  - apply harmless_prints, (Hconfig command).
  - apply harmless_prints, prints_hooks.
  - apply spares_mqtt.
  - apply logs_silent, silent_completions.
  - apply harmless_prints, prints_manpages.
Qed.

Abbreviation run := (dispatch (W := W) host discover_ble discover_serial discover_guided around).
Lemma spares_dispatch fuel depth args : unattended host args → logs harmless (run fuel depth args).
Proof.
  revert args. induction depth as [|depth IH]; intros args Hu; cbn [dispatch];
    (apply logs_bind; [by apply logs_silent|intros []]; case_match; [by apply logs_silent|]; apply spares_command; [done|]).
  - intros command. by apply logs_silent.
  - intros command. by apply spares_batch.
Qed.
Lemma spares_routes fuel depth args : unattended host args → reroutes (Cli_command args) = true →
  logs (λ event, ¬ rewrites event) (run fuel depth args).
Proof.
  intros Hu Hr. destruct depth; cbn [dispatch];
    (apply logs_bind; [by apply logs_silent|intros []]; case_match; [by apply logs_silent|]; unfold dispatch_command;
     destruct (Cli_command args) as [| | | | | | |options| | | | | | | | | | | | | | |]; try done; simpl in Hr;
     destruct (Contacts_command options) as [[| | |[]| | |]|] eqn:Hc; try done; by eapply spares_route).
Qed.
Lemma reads_dispatch fuel depth args : unattended host args → erases (Cli_command args) = true →
  reads_only (run fuel depth args).
Proof.
  intros Hu He. destruct depth; cbn [dispatch];
    (apply reads_bind; [done|intros []]; case_match; [done|]; unfold dispatch_command;
     destruct (Cli_command args) as [|[]| | | |options| | | | |[]| | | | | | | |[]| | | |]; try done;
     [by apply reads_rename|by apply reads_delete|intros e; apply doctor_reads, diagnose_reads; auto
     |by apply reads_history_clear|by apply reads_refused]).
Qed.
End dispatched.

(** C8: without consent nothing is destroyed, whatever the command line is.  When [--yes]
    was not given and prompts are switched off or there is no terminal, no command, and
    no command of a batch, removes a contact or a channel of the device, resets a route,
    reboots the device or resets it: the routes of [batch contacts path-reset], whose
    commands are run as if with [--yes], included, since that batch asks once before the
    first of them.  The command that replaces a route rewrites no contact.  Clearing the
    history, renaming or deleting a profile and repairing the configuration, by [config
    repair] or by [doctor --repair], leave every file as it is. *)
Theorem unattended_destroys_nothing `{Companion W} `{ChatWorld W} `{Vault W} `{Broker W} host `{ConfigToml} `{Crates}
    `{HistoryCodec} `{HookJson} `{CliJson} `{UnicodeTables} discover_ble discover_serial discover_guided {Value}
    (around : Surroundings Value) fuel depth args : unattended host args →
  let command := dispatch (W := W) host discover_ble discover_serial discover_guided around fuel depth args in
  logs harmless command ∧
  (reroutes (Cli_command args) = true → logs (λ event, ¬ rewrites event) command) ∧
  (erases (Cli_command args) = true → reads_only command).
Proof. intros Hu. split_and!; intros; [by apply spares_dispatch|by apply spares_routes|by apply reads_dispatch]. Qed.
