(* ===== verification/VirtualCompanion.v ===== *)
(** * The virtual companion (crates/meshquill-test-support/src/lib.rs)

    The companion behind the mock profiles and the tests: a device with contacts,
    channels, an inbox, remote sessions, a clock and a default scope, which answers
    the commands of the protocol, behind a transport with bounded queues and faults
    that can be injected.  The clones of a handle share one state under a lock; an
    operation is a function of that state.  The fields of [VirtualCompanionState]
    that the handlers of commands work on are in the record [Device]. *)

From S2P Require Import Prelude Text Floats Domain Packet Transport Command.

Definition APP_START_COMMAND : bytes := [1; 3]%Z ++ str_bytes "      mccli".
Definition DEVICE_QUERY_COMMAND : bytes := [0x16; 3]%Z.
Definition CONTACT_PACKET_LEN : usize := 148.
Definition CONTACT_FIXED_PATH_LEN : usize := 64.
Definition DEFAULT_SELF_KEY : bytes := replicate 32 1%Z.
Definition DEFAULT_OUTBOUND_QUEUE_CAPACITY : usize := 64.
Definition DEFAULT_INBOUND_QUEUE_CAPACITY : usize := 128.
Definition DEFAULT_CONTACT_CAPACITY : usize := 16.
Definition DEFAULT_SYNC_MESSAGE_CAPACITY : usize := 16.
Definition DEFAULT_CHANNEL_CAPACITY : usize := 256.
Definition DEFAULT_ACK_CODE : bytes := [0x12; 0x34; 0x56; 0x78]%Z.
Definition DEFAULT_ACK_TIMEOUT_MS : u32 := 1000.
Definition DEFAULT_ACK_PACKET_TIMEOUT_MS : u32 := 1500.
Definition DEFAULT_DEVICE_TIME_SECONDS : u32 := 1727000000.
Definition DEFAULT_BATTERY_LEVEL : u16 := 4500.
Definition DEFAULT_BATTERY_USED_KB : u32 := 12288.
Definition DEFAULT_BATTERY_TOTAL_KB : u32 := 49152.
Definition DEFAULT_CHANNEL_NAME : string := "meshquill-channel".
Definition DEFAULT_CHANNEL_SECRET : bytes := replicate 16 0x3f%Z.
Definition DEFAULT_TELEMETRY_PREFIX : bytes := replicate 6 1%Z.
Definition DEFAULT_TELEMETRY_PAYLOAD : bytes := [0xaa; 0xbb; 0xcc; 0xdd]%Z.
Definition DEFAULT_NODE_DISCOVERY_TYPE : u8 := 2.
Definition DEFAULT_NODE_DISCOVERY_KEY : bytes := replicate 32 0x42%Z.
Definition DEFAULT_NODE_DISCOVERY_SNR_QDB : i8 := 20.
Definition DEFAULT_NODE_DISCOVERY_RSSI : i8 := -91.
Definition DEFAULT_NODE_DISCOVERY_INBOUND_SNR_QDB : i8 := 12.
Definition DEFAULT_REMOTE_PASSWORD : string := "meshquill-demo".
Definition DEFAULT_REMOTE_STATUS_BATTERY_MV : u16 := 4200.
Definition DEFAULT_REMOTE_STATUS_TX_QUEUE_LEN : u16 := 6.
Definition DEFAULT_REMOTE_STATUS_NOISE_FLOOR_DBM : i16 := -105.
Definition DEFAULT_REMOTE_STATUS_LAST_RSSI_DBM : i16 := -88.
Definition DEFAULT_REMOTE_STATUS_PACKETS_RECEIVED : u32 := 13421.
Definition DEFAULT_REMOTE_STATUS_PACKETS_SENT : u32 := 12118.
Definition DEFAULT_REMOTE_STATUS_TX_AIRTIME_SECONDS : u32 := 5000.
Definition DEFAULT_REMOTE_STATUS_UPTIME_SECONDS : u32 := 72100.
Definition DEFAULT_REMOTE_STATUS_SENT_FLOOD : u32 := 1234.
Definition DEFAULT_REMOTE_STATUS_SENT_DIRECT : u32 := 2345.
Definition DEFAULT_REMOTE_STATUS_RECEIVED_FLOOD : u32 := 987.
Definition DEFAULT_REMOTE_STATUS_RECEIVED_DIRECT : u32 := 876.
Definition DEFAULT_REMOTE_STATUS_ERROR_EVENTS : u16 := 15.
Definition DEFAULT_REMOTE_STATUS_LAST_SNR_QDB : i16 := 32.
Definition DEFAULT_REMOTE_STATUS_DIRECT_DUPLICATES : u16 := 7.
Definition DEFAULT_REMOTE_STATUS_FLOOD_DUPLICATES : u16 := 3.
Definition DEFAULT_REMOTE_STATUS_RX_AIRTIME_SECONDS : u32 := 4222.
Definition DEFAULT_REMOTE_STATUS_RX_ERRORS : u32 := 19.
Definition DEFAULT_REMOTE_SESSION_PERMISSIONS : u8 := 0x01.
Definition DEFAULT_REMOTE_SESSION_ACL_PERMISSIONS : u8 := 0x5a.
Definition DEFAULT_REMOTE_SESSION_FIRMWARE_LEVEL : u8 := 0x83.
Definition DEFAULT_REMOTE_SESSION_CLOCK : u32 := DEFAULT_DEVICE_TIME_SECONDS.
Definition REMOTE_BINARY_VOLTAGE_KIND : u8 := 116.
Definition REMOTE_BINARY_TEMPERATURE_KIND : u8 := 103.
Definition DEFAULT_BINARY_CLOCK : u32 := 12345.

(** ** State *)

Record ChannelSlot := mkChannelSlot { ChannelSlot_name : bytes; ChannelSlot_secret : bytes }.
Definition ChannelSlot_default : ChannelSlot := mkChannelSlot (replicate 32 0%Z) (replicate 16 0%Z).

Record VirtualCompanionCapacities := mkCapacities {
  Capacities_outbound_queue : usize;
  Capacities_inbound_queue : usize;
  Capacities_contacts : usize;
  Capacities_sync_messages : usize
}.
Definition VirtualCompanionCapacities_default : VirtualCompanionCapacities :=
  mkCapacities DEFAULT_OUTBOUND_QUEUE_CAPACITY DEFAULT_INBOUND_QUEUE_CAPACITY DEFAULT_CONTACT_CAPACITY
    DEFAULT_SYNC_MESSAGE_CAPACITY.

Inductive VirtualCompanionFault := Fault_Timeout | Fault_CleanDisconnect.
Inductive DirectSendWriteFault := DirectSend_None | DisconnectBeforeWrite.
#[global] Instance DirectSendWriteFault_eq_dec : EqDecision DirectSendWriteFault.
Proof. solve_decision. Defined.
Inductive VirtualCompanionIdleReadMode := Idle_Timeout | Idle_Pending.

Inductive VirtualCompanionError :=
| Virtual_QueueFull (queue : string) (capacity : usize)
| Virtual_InvalidContactPacket (expected actual : usize)
| Virtual_PacketTooLarge (max actual : usize)
| Virtual_InvalidContactPathLength (expected actual : usize)
| Virtual_InvalidCoordinate (field : string).

Definition display_VirtualCompanionError (error : VirtualCompanionError) : string :=
  match error with
  | Virtual_QueueFull queue capacity => "queue '" +:+ queue +:+ "' overflow (capacity " +:+ pretty capacity +:+ ")"
  | Virtual_InvalidContactPacket expected actual =>
      "invalid contact packet: expected " +:+ pretty expected +:+ ", got " +:+ pretty actual
  | Virtual_PacketTooLarge max actual => "packet too large: max " +:+ pretty max +:+ ", got " +:+ pretty actual
  | Virtual_InvalidContactPathLength expected actual =>
      "contact path length mismatch: expected " +:+ pretty expected +:+ ", got " +:+ pretty actual
  | Virtual_InvalidCoordinate field => "invalid contact coordinate '" +:+ field +:+ "'"
  end.

Abbreviation virtual A := (outcome VirtualCompanionError A) (only parsing).

Record Device := mkDevice {
  Device_contact_rows : list bytes;
  Device_sync_queue : list bytes;
  Device_channels : list ChannelSlot;
  Device_send_txt_ack : bytes;
  Device_send_txt_timeout_ms : u32;
  Device_emit_send_txt_ack : bool;
  Device_remote_sessions : gset (list Z);
  Device_device_time_seconds : u32;
  Device_battery_level : u16;
  Device_battery_used_kb : u32;
  Device_battery_total_kb : u32;
  Device_default_scope : option (bytes * bytes);
  Device_capacities : VirtualCompanionCapacities
}.
Definition set_contact_rows (contact_rows : list bytes) (d : Device) : Device :=
  mkDevice contact_rows (Device_sync_queue d) (Device_channels d) (Device_send_txt_ack d)
    (Device_send_txt_timeout_ms d) (Device_emit_send_txt_ack d) (Device_remote_sessions d)
    (Device_device_time_seconds d) (Device_battery_level d) (Device_battery_used_kb d)
    (Device_battery_total_kb d) (Device_default_scope d) (Device_capacities d).
Definition set_sync_queue (sync_queue : list bytes) (d : Device) : Device :=
  mkDevice (Device_contact_rows d) sync_queue (Device_channels d) (Device_send_txt_ack d)
    (Device_send_txt_timeout_ms d) (Device_emit_send_txt_ack d) (Device_remote_sessions d)
    (Device_device_time_seconds d) (Device_battery_level d) (Device_battery_used_kb d)
    (Device_battery_total_kb d) (Device_default_scope d) (Device_capacities d).
Definition set_channels (channels : list ChannelSlot) (d : Device) : Device :=
  mkDevice (Device_contact_rows d) (Device_sync_queue d) channels (Device_send_txt_ack d)
    (Device_send_txt_timeout_ms d) (Device_emit_send_txt_ack d) (Device_remote_sessions d)
    (Device_device_time_seconds d) (Device_battery_level d) (Device_battery_used_kb d)
    (Device_battery_total_kb d) (Device_default_scope d) (Device_capacities d).
Definition set_send_txt (send_txt_ack : bytes) (send_txt_timeout_ms : u32) (emit_send_txt_ack : bool) (d : Device) : Device :=
  mkDevice (Device_contact_rows d) (Device_sync_queue d) (Device_channels d) send_txt_ack send_txt_timeout_ms
    emit_send_txt_ack (Device_remote_sessions d) (Device_device_time_seconds d) (Device_battery_level d)
    (Device_battery_used_kb d) (Device_battery_total_kb d) (Device_default_scope d) (Device_capacities d).
Definition set_remote_sessions (remote_sessions : gset (list Z)) (d : Device) : Device :=
  mkDevice (Device_contact_rows d) (Device_sync_queue d) (Device_channels d) (Device_send_txt_ack d)
    (Device_send_txt_timeout_ms d) (Device_emit_send_txt_ack d) remote_sessions (Device_device_time_seconds d)
    (Device_battery_level d) (Device_battery_used_kb d) (Device_battery_total_kb d) (Device_default_scope d)
    (Device_capacities d).
Definition set_device_time_seconds (device_time_seconds : u32) (d : Device) : Device :=
  mkDevice (Device_contact_rows d) (Device_sync_queue d) (Device_channels d) (Device_send_txt_ack d)
    (Device_send_txt_timeout_ms d) (Device_emit_send_txt_ack d) (Device_remote_sessions d) device_time_seconds
    (Device_battery_level d) (Device_battery_used_kb d) (Device_battery_total_kb d) (Device_default_scope d)
    (Device_capacities d).
Definition set_default_scope (default_scope : option (bytes * bytes)) (d : Device) : Device :=
  mkDevice (Device_contact_rows d) (Device_sync_queue d) (Device_channels d) (Device_send_txt_ack d)
    (Device_send_txt_timeout_ms d) (Device_emit_send_txt_ack d) (Device_remote_sessions d)
    (Device_device_time_seconds d) (Device_battery_level d) (Device_battery_used_kb d)
    (Device_battery_total_kb d) default_scope (Device_capacities d).

Record VirtualCompanionState := mkVirtual {
  Virtual_connected : bool;
  Virtual_outbound : list bytes;
  Virtual_inbound : list bytes;
  Virtual_reconnect_count : usize;
  Virtual_reconnect_failures_remaining : usize;
  Virtual_next_reconnect_push : option bytes;
  Virtual_next_fault : option VirtualCompanionFault;
  Virtual_idle_disconnects_remaining : usize;
  Virtual_direct_send_write_fault : DirectSendWriteFault;
  Virtual_idle_read_mode : VirtualCompanionIdleReadMode;
  Virtual_duplicate_next_inbound : bool;
  Virtual_device : Device
}.
Definition put_connected (connected : bool) (s : VirtualCompanionState) : VirtualCompanionState :=
  mkVirtual connected (Virtual_outbound s) (Virtual_inbound s) (Virtual_reconnect_count s)
    (Virtual_reconnect_failures_remaining s) (Virtual_next_reconnect_push s) (Virtual_next_fault s)
    (Virtual_idle_disconnects_remaining s) (Virtual_direct_send_write_fault s) (Virtual_idle_read_mode s)
    (Virtual_duplicate_next_inbound s) (Virtual_device s).
Definition put_outbound (outbound : list bytes) (s : VirtualCompanionState) : VirtualCompanionState :=
  mkVirtual (Virtual_connected s) outbound (Virtual_inbound s) (Virtual_reconnect_count s)
    (Virtual_reconnect_failures_remaining s) (Virtual_next_reconnect_push s) (Virtual_next_fault s)
    (Virtual_idle_disconnects_remaining s) (Virtual_direct_send_write_fault s) (Virtual_idle_read_mode s)
    (Virtual_duplicate_next_inbound s) (Virtual_device s).
Definition put_inbound (inbound : list bytes) (s : VirtualCompanionState) : VirtualCompanionState :=
  mkVirtual (Virtual_connected s) (Virtual_outbound s) inbound (Virtual_reconnect_count s)
    (Virtual_reconnect_failures_remaining s) (Virtual_next_reconnect_push s) (Virtual_next_fault s)
    (Virtual_idle_disconnects_remaining s) (Virtual_direct_send_write_fault s) (Virtual_idle_read_mode s)
    (Virtual_duplicate_next_inbound s) (Virtual_device s).
Definition put_reconnects (reconnect_count : usize) (reconnect_failures_remaining : usize) (s : VirtualCompanionState) : VirtualCompanionState :=
  mkVirtual (Virtual_connected s) (Virtual_outbound s) (Virtual_inbound s) reconnect_count
    reconnect_failures_remaining (Virtual_next_reconnect_push s) (Virtual_next_fault s)
    (Virtual_idle_disconnects_remaining s) (Virtual_direct_send_write_fault s) (Virtual_idle_read_mode s)
    (Virtual_duplicate_next_inbound s) (Virtual_device s).
Definition put_next_reconnect_push (next_reconnect_push : option bytes) (s : VirtualCompanionState) : VirtualCompanionState :=
  mkVirtual (Virtual_connected s) (Virtual_outbound s) (Virtual_inbound s) (Virtual_reconnect_count s)
    (Virtual_reconnect_failures_remaining s) next_reconnect_push (Virtual_next_fault s)
    (Virtual_idle_disconnects_remaining s) (Virtual_direct_send_write_fault s) (Virtual_idle_read_mode s)
    (Virtual_duplicate_next_inbound s) (Virtual_device s).
Definition put_next_fault (next_fault : option VirtualCompanionFault) (s : VirtualCompanionState) : VirtualCompanionState :=
  mkVirtual (Virtual_connected s) (Virtual_outbound s) (Virtual_inbound s) (Virtual_reconnect_count s)
    (Virtual_reconnect_failures_remaining s) (Virtual_next_reconnect_push s) next_fault
    (Virtual_idle_disconnects_remaining s) (Virtual_direct_send_write_fault s) (Virtual_idle_read_mode s)
    (Virtual_duplicate_next_inbound s) (Virtual_device s).
Definition put_idle_disconnects_remaining (idle_disconnects_remaining : usize) (s : VirtualCompanionState) : VirtualCompanionState :=
  mkVirtual (Virtual_connected s) (Virtual_outbound s) (Virtual_inbound s) (Virtual_reconnect_count s)
    (Virtual_reconnect_failures_remaining s) (Virtual_next_reconnect_push s) (Virtual_next_fault s)
    idle_disconnects_remaining (Virtual_direct_send_write_fault s) (Virtual_idle_read_mode s)
    (Virtual_duplicate_next_inbound s) (Virtual_device s).
Definition put_direct_send_write_fault (direct_send_write_fault : DirectSendWriteFault) (s : VirtualCompanionState) : VirtualCompanionState :=
  mkVirtual (Virtual_connected s) (Virtual_outbound s) (Virtual_inbound s) (Virtual_reconnect_count s)
    (Virtual_reconnect_failures_remaining s) (Virtual_next_reconnect_push s) (Virtual_next_fault s)
    (Virtual_idle_disconnects_remaining s) direct_send_write_fault (Virtual_idle_read_mode s)
    (Virtual_duplicate_next_inbound s) (Virtual_device s).
Definition put_idle_read_mode (idle_read_mode : VirtualCompanionIdleReadMode) (s : VirtualCompanionState) : VirtualCompanionState :=
  mkVirtual (Virtual_connected s) (Virtual_outbound s) (Virtual_inbound s) (Virtual_reconnect_count s)
    (Virtual_reconnect_failures_remaining s) (Virtual_next_reconnect_push s) (Virtual_next_fault s)
    (Virtual_idle_disconnects_remaining s) (Virtual_direct_send_write_fault s) idle_read_mode
    (Virtual_duplicate_next_inbound s) (Virtual_device s).
Definition put_duplicate_next_inbound (duplicate_next_inbound : bool) (s : VirtualCompanionState) : VirtualCompanionState :=
  mkVirtual (Virtual_connected s) (Virtual_outbound s) (Virtual_inbound s) (Virtual_reconnect_count s)
    (Virtual_reconnect_failures_remaining s) (Virtual_next_reconnect_push s) (Virtual_next_fault s)
    (Virtual_idle_disconnects_remaining s) (Virtual_direct_send_write_fault s) (Virtual_idle_read_mode s)
    duplicate_next_inbound (Virtual_device s).
Definition put_device (device : Device) (s : VirtualCompanionState) : VirtualCompanionState :=
  mkVirtual (Virtual_connected s) (Virtual_outbound s) (Virtual_inbound s) (Virtual_reconnect_count s)
    (Virtual_reconnect_failures_remaining s) (Virtual_next_reconnect_push s) (Virtual_next_fault s)
    (Virtual_idle_disconnects_remaining s) (Virtual_direct_send_write_fault s) (Virtual_idle_read_mode s)
    (Virtual_duplicate_next_inbound s) device.

Definition Device_new (capacities : VirtualCompanionCapacities) : Device :=
  let first := mkChannelSlot (resize0 32 (str_bytes DEFAULT_CHANNEL_NAME)) DEFAULT_CHANNEL_SECRET in
  mkDevice [] [] (first :: replicate (DEFAULT_CHANNEL_CAPACITY - 1) ChannelSlot_default) DEFAULT_ACK_CODE
    DEFAULT_ACK_TIMEOUT_MS false ∅ DEFAULT_DEVICE_TIME_SECONDS DEFAULT_BATTERY_LEVEL DEFAULT_BATTERY_USED_KB
    DEFAULT_BATTERY_TOTAL_KB None capacities.
Definition with_capacities (capacities : VirtualCompanionCapacities) : VirtualCompanionState :=
  mkVirtual false [] [] 0 0 None None 0 DirectSend_None Idle_Timeout false (Device_new capacities).
Definition VirtualCompanion_new : VirtualCompanionState := with_capacities VirtualCompanionCapacities_default.

Definition Virtual_capacities (s : VirtualCompanionState) : VirtualCompanionCapacities :=
  Device_capacities (Virtual_device s).

Definition required_inbound_slots (s : VirtualCompanionState) (packet_count : usize) : usize :=
  if Virtual_duplicate_next_inbound s then usize_saturating_mul packet_count 2 else packet_count.
Definition ensure_inbound_capacity (s : VirtualCompanionState) (packet_count : usize) : virtual () :=
  let required := required_inbound_slots s packet_count in
  let available := Capacities_inbound_queue (Virtual_capacities s) - length (Virtual_inbound s) in
  if available <? required then
    Err (Virtual_QueueFull "inbound_queue" (Capacities_inbound_queue (Virtual_capacities s)))
  else Ok ().
Definition queue_inbound (packets : list bytes) (s : VirtualCompanionState) : virtual VirtualCompanionState :=
  _ ← ensure_inbound_capacity s (length packets);
  let duplicate := Virtual_duplicate_next_inbound s in
  let queued := packets ≫= λ packet, if duplicate : bool then [packet; packet] else [packet] in
  Ok (put_inbound (Virtual_inbound s ++ queued) (put_duplicate_next_inbound false s)).
Definition ensure_outbound_capacity (s : VirtualCompanionState) : virtual () :=
  let capacity := Capacities_outbound_queue (Virtual_capacities s) in
  if capacity <=? length (Virtual_outbound s) then Err (Virtual_QueueFull "outbound_queue" capacity) else Ok ().
Definition queue_outbound (payload : bytes) (s : VirtualCompanionState) : virtual VirtualCompanionState :=
  _ ← ensure_outbound_capacity s;
  Ok (put_outbound (Virtual_outbound s ++ [payload]) s).

(** ** Controls *)

Definition check_packet (packet : bytes) : virtual () :=
  if MAX_INNER_PAYLOAD <? length packet then Err (Virtual_PacketTooLarge MAX_INNER_PAYLOAD (length packet)) else Ok ().

Fixpoint check_contacts (contacts : list bytes) : virtual () :=
  match contacts with
  | [] => Ok ()
  | contact :: contacts =>
      if negb (length contact =? CONTACT_PACKET_LEN) then
        Err (Virtual_InvalidContactPacket CONTACT_PACKET_LEN (length contact))
      else _ ← check_packet contact; check_contacts contacts
  end.
Definition set_contacts (contacts : list bytes) (s : VirtualCompanionState) : virtual VirtualCompanionState :=
  _ ← check_contacts contacts;
  let capacity := Capacities_contacts (Virtual_capacities s) in
  if capacity <? length contacts then Err (Virtual_QueueFull "contacts" capacity)
  else Ok (put_device (set_contact_rows contacts (Virtual_device s)) s).

Definition push_sync_message (message : bytes) (s : VirtualCompanionState) : virtual VirtualCompanionState :=
  _ ← check_packet message;
  let queue := Device_sync_queue (Virtual_device s) in
  let capacity := Capacities_sync_messages (Virtual_capacities s) in
  if capacity <=? length queue then Err (Virtual_QueueFull "sync_messages" capacity)
  else Ok (put_device (set_sync_queue (queue ++ [message]) (Virtual_device s)) s).
Fixpoint check_packets (packets : list bytes) : virtual () :=
  match packets with
  | [] => Ok ()
  | packet :: packets => _ ← check_packet packet; check_packets packets
  end.
Definition set_sync_messages (messages : list bytes) (s : VirtualCompanionState) : virtual VirtualCompanionState :=
  _ ← check_packets messages;
  let capacity := Capacities_sync_messages (Virtual_capacities s) in
  if capacity <? length messages then Err (Virtual_QueueFull "sync_messages" capacity)
  else Ok (put_device (set_sync_queue messages (Virtual_device s)) s).

Definition enqueue_push (packet : bytes) (s : VirtualCompanionState) : virtual VirtualCompanionState :=
  _ ← check_packet packet; queue_inbound [packet] s.
Definition configure_send_txt_ack (ack : bytes) (timeout_ms : u32) (emit_ack_packet : bool)
    (s : VirtualCompanionState) : VirtualCompanionState :=
  put_device (set_send_txt ack timeout_ms emit_ack_packet (Virtual_device s)) s.
Definition set_idle_read_mode (mode : VirtualCompanionIdleReadMode) (s : VirtualCompanionState) :
    VirtualCompanionState := put_idle_read_mode mode s.
Definition drain_virtual_outbound (s : VirtualCompanionState) : list bytes * VirtualCompanionState :=
  (Virtual_outbound s, put_outbound [] s).
Definition disconnect_on_next_idle_read (s : VirtualCompanionState) : VirtualCompanionState :=
  put_idle_disconnects_remaining 1 s.
Definition disconnect_before_next_direct_send (s : VirtualCompanionState) : VirtualCompanionState :=
  put_direct_send_write_fault DisconnectBeforeWrite s.
Definition fail_next_reconnects (count : usize) (s : VirtualCompanionState) : VirtualCompanionState :=
  put_reconnects (Virtual_reconnect_count s) count s.
Definition set_next_reconnect_push (packet : bytes) (s : VirtualCompanionState) : virtual VirtualCompanionState :=
  _ ← check_packet packet; Ok (put_next_reconnect_push (Some packet) s).
Definition set_next_read_fault (fault : VirtualCompanionFault) (s : VirtualCompanionState) : VirtualCompanionState :=
  put_next_fault (Some fault) s.
Definition duplicate_next_inbound_packet (s : VirtualCompanionState) : VirtualCompanionState :=
  put_duplicate_next_inbound true s.

(** Whether there is room for one more session, or it is there already. *)
Definition session_fits (key : bytes) (d : Device) : bool :=
  bool_decide (key ∈ Device_remote_sessions d)
    || (size (Device_remote_sessions d) <? Nat.max (Capacities_contacts (Device_capacities d)) 1).
Definition set_remote_session (public_key : bytes) (authenticated : bool) (s : VirtualCompanionState) :
    VirtualCompanionState :=
  let d := Virtual_device s in
  let sessions := Device_remote_sessions d in
  if authenticated then
    if session_fits public_key d then put_device (set_remote_sessions ({[public_key]} ∪ sessions) d) s else s
  else put_device (set_remote_sessions (sessions ∖ {[public_key]}) d) s.

(** ** Fields of rows *)

Definition pad_string (value : bytes) (len : usize) : bytes :=
  if len <? length value then take len value else resize0 len value.
Definition contact_path_bytes_used (route : u8) : usize :=
  if (route =? 255)%Z then 0
  else Z.to_nat (Z.land route 0x3f) * (Z.to_nat (Z.shiftr route 6) + 1).

Definition is_zero (b : u8) : bool := (b =? 0)%Z.
Definition valid_padded_name (field : bytes) : bool :=
  match position is_zero field with
  | None => false
  | Some end_ => (0 <? end_) && forallb is_zero (drop end_ field) && utf8_valid (take end_ field)
  end.

Definition in_geographic_bounds (latitude longitude : i32) : bool :=
  (-90000000 <=? latitude)%Z && (latitude <=? 90000000)%Z
    && ((-180000000 <=? longitude)%Z && (longitude <=? 180000000)%Z).

Definition valid_contact_row (row : bytes) : virtual bool :=
  if negb (length row =? CONTACT_PACKET_LEN) then Ok false
  else
    code ← idx row 0;
    if negb (code =? PacketCode_to_u8 PacketCode_Contact)%Z then Ok false
    else
      route ← idx row 35;
      let used_path_bytes := contact_path_bytes_used route in
      if CONTACT_FIXED_PATH_LEN <? used_path_bytes then Ok false
      else
        rest ← slice row (36 + used_path_bytes) 100;
        if negb (forallb is_zero rest) then Ok false
        else
          name ← slice row 100 132;
          let name_end := default (length name) (position is_zero name) in
          if negb (forallb is_zero (drop name_end name)) || negb (utf8_valid (take name_end name)) then Ok false
          else
            latitude ← slice row 136 140;
            longitude ← slice row 140 144;
            Ok (in_geographic_bounds (i32_from_le_bytes latitude) (i32_from_le_bytes longitude)).

(** ** Packets *)

Definition ok_packet : bytes := [PacketCode_to_u8 PacketCode_Ok].
Definition error_packet : bytes := [PacketCode_to_u8 PacketCode_Error; 1]%Z.
Definition error_packet_with_code (code : u8) : bytes := [PacketCode_to_u8 PacketCode_Error; code].
Definition i16_to_le_bytes (z : i16) : bytes := to_le_bytes 2 (to_unsigned 16 z).
Definition u16_to_be_bytes (z : u16) : bytes := rev (to_le_bytes 2 z).
Definition i16_to_be_bytes (z : i16) : bytes := rev (i16_to_le_bytes z).

Definition msg_sent_packet (destination_type : u8) (ack : bytes) (timeout_ms : u32) : bytes :=
  [PacketCode_to_u8 PacketCode_MsgSent; destination_type] ++ ack ++ u32_to_le_bytes timeout_ms.
Definition ack_packet (ack : bytes) : bytes :=
  [PacketCode_to_u8 PacketCode_Ack] ++ ack ++ u32_to_le_bytes DEFAULT_ACK_PACKET_TIMEOUT_MS.
Definition contact_start_packet (count : u32) : bytes :=
  PacketCode_to_u8 PacketCode_ContactStart :: u32_to_le_bytes count.
Definition contact_end_packet (lastmod : u32) : bytes :=
  PacketCode_to_u8 PacketCode_ContactEnd :: u32_to_le_bytes lastmod.
Definition current_time_packet (time : u32) : bytes :=
  PacketCode_to_u8 PacketCode_CurrentTime :: u32_to_le_bytes time.
Definition battery_info_packet (d : Device) : bytes :=
  [PacketCode_to_u8 PacketCode_Battery] ++ u16_to_le_bytes (Device_battery_level d)
    ++ u32_to_le_bytes (Device_battery_used_kb d) ++ u32_to_le_bytes (Device_battery_total_kb d).
Definition self_contact_card : bytes := resize0 98 DEFAULT_SELF_KEY.
Definition contact_uri_packet (card : bytes) : bytes := PacketCode_to_u8 PacketCode_ContactUri :: card.
Definition telemetry_packet : bytes :=
  [PacketCode_to_u8 PacketCode_TelemetryResponse; 0%Z] ++ DEFAULT_TELEMETRY_PREFIX ++ DEFAULT_TELEMETRY_PAYLOAD.
Definition channel_info_packet (d : Device) (idx : u8) : virtual bytes :=
  match Device_channels d !! Z.to_nat idx with
  | None => Panic
  | Some slot =>
      Ok ([PacketCode_to_u8 PacketCode_ChannelInfo; idx] ++ ChannelSlot_name slot ++ ChannelSlot_secret slot)
  end.
Definition node_discovery_response_packet (prefix_only : bool) (tag : u32) : bytes :=
  let key_len := if prefix_only then 8 else 32 in
  [PacketCode_to_u8 PacketCode_ControlData; i8_cast_unsigned DEFAULT_NODE_DISCOVERY_SNR_QDB;
   i8_cast_unsigned DEFAULT_NODE_DISCOVERY_RSSI; 0%Z; Z.lor 0x90 DEFAULT_NODE_DISCOVERY_TYPE;
   i8_cast_unsigned DEFAULT_NODE_DISCOVERY_INBOUND_SNR_QDB] ++ u32_to_le_bytes tag
    ++ take key_len DEFAULT_NODE_DISCOVERY_KEY.
Definition device_info_packet : bytes :=
  [PacketCode_to_u8 PacketCode_DeviceInfo; 0x0a%Z; 18%Z; 3%Z] ++ u32_to_le_bytes 0x01000000
    ++ pad_string (str_bytes "meshquill") 12 ++ pad_string (str_bytes "meshlink-virtual") 40
    ++ pad_string (str_bytes "fw-virtual-1.0") 20 ++ [1; 2]%Z.
Definition self_info_packet : bytes :=
  [PacketCode_to_u8 PacketCode_SelfInfo; 0x01%Z; 0xf0%Z; 0x80%Z] ++ DEFAULT_SELF_KEY ++ i32_to_le_bytes 0
    ++ i32_to_le_bytes 0 ++ [0; 0; 0x40; 0]%Z ++ u32_to_le_bytes 2440000 ++ u32_to_le_bytes 125000
    ++ [7; 5]%Z ++ str_bytes "Meshquill Demo".

Definition login_success_packet (prefix : bytes) : bytes :=
  [PacketCode_to_u8 PacketCode_LoginSuccess; DEFAULT_REMOTE_SESSION_PERMISSIONS] ++ prefix
    ++ u32_to_le_bytes DEFAULT_REMOTE_SESSION_CLOCK
    ++ [DEFAULT_REMOTE_SESSION_ACL_PERMISSIONS; DEFAULT_REMOTE_SESSION_FIRMWARE_LEVEL].
Definition login_failed_packet (prefix : bytes) : bytes :=
  [PacketCode_to_u8 PacketCode_LoginFailed; 0%Z] ++ prefix.
Definition status_response_packet (prefix : bytes) : bytes :=
  [PacketCode_to_u8 PacketCode_StatusResponse; 0%Z] ++ prefix
    ++ u16_to_le_bytes DEFAULT_REMOTE_STATUS_BATTERY_MV ++ u16_to_le_bytes DEFAULT_REMOTE_STATUS_TX_QUEUE_LEN
    ++ i16_to_le_bytes DEFAULT_REMOTE_STATUS_NOISE_FLOOR_DBM ++ i16_to_le_bytes DEFAULT_REMOTE_STATUS_LAST_RSSI_DBM
    ++ u32_to_le_bytes DEFAULT_REMOTE_STATUS_PACKETS_RECEIVED ++ u32_to_le_bytes DEFAULT_REMOTE_STATUS_PACKETS_SENT
    ++ u32_to_le_bytes DEFAULT_REMOTE_STATUS_TX_AIRTIME_SECONDS ++ u32_to_le_bytes DEFAULT_REMOTE_STATUS_UPTIME_SECONDS
    ++ u32_to_le_bytes DEFAULT_REMOTE_STATUS_SENT_FLOOD ++ u32_to_le_bytes DEFAULT_REMOTE_STATUS_SENT_DIRECT
    ++ u32_to_le_bytes DEFAULT_REMOTE_STATUS_RECEIVED_FLOOD ++ u32_to_le_bytes DEFAULT_REMOTE_STATUS_RECEIVED_DIRECT
    ++ u16_to_le_bytes DEFAULT_REMOTE_STATUS_ERROR_EVENTS ++ i16_to_le_bytes DEFAULT_REMOTE_STATUS_LAST_SNR_QDB
    ++ u16_to_le_bytes DEFAULT_REMOTE_STATUS_DIRECT_DUPLICATES ++ u16_to_le_bytes DEFAULT_REMOTE_STATUS_FLOOD_DUPLICATES
    ++ u32_to_le_bytes DEFAULT_REMOTE_STATUS_RX_AIRTIME_SECONDS ++ u32_to_le_bytes DEFAULT_REMOTE_STATUS_RX_ERRORS.
Definition binary_response_packet (payload : bytes) : bytes :=
  [PacketCode_to_u8 PacketCode_BinaryResponse; 0%Z] ++ DEFAULT_ACK_CODE ++ payload.

Definition remote_telemetry_response : bytes :=
  [1%Z; REMOTE_BINARY_VOLTAGE_KIND] ++ u16_to_be_bytes 3600
    ++ [2%Z; REMOTE_BINARY_TEMPERATURE_KIND] ++ i16_to_be_bytes 250.
Definition remote_summary_response : bytes :=
  u32_to_le_bytes DEFAULT_BINARY_CLOCK ++ [1%Z; REMOTE_BINARY_VOLTAGE_KIND] ++ u16_to_be_bytes 3300
    ++ u16_to_be_bytes 4200 ++ u16_to_be_bytes 3800.
Definition remote_acl_response : bytes := [0xaa; 0xbb; 0xcc; 0xdd; 0xee; 0xff; 0x80]%Z.
Definition remote_regions_response : bytes :=
  u32_to_le_bytes DEFAULT_DEVICE_TIME_SECONDS ++ str_bytes "au,eu".
Definition newline : bytes := [0x0a]%Z.
Definition remote_owner_response : bytes :=
  u32_to_le_bytes DEFAULT_DEVICE_TIME_SECONDS ++ str_bytes "meshquill-demo" ++ newline ++ str_bytes "Meshquill Test".
Definition remote_basic_response : bytes := u32_to_le_bytes DEFAULT_DEVICE_TIME_SECONDS ++ [0x82]%Z.

(** ** Commands *)

Definition answers (packets : list bytes) (d : Device) : virtual (list bytes * Device) := Ok (packets, d).
Definition refuse (code : u8) (d : Device) : virtual (list bytes * Device) := answers [error_packet_with_code code] d.
(** [MSG_SENT] and the answer that follows it. *)
Definition sent_then (packet : bytes) (d : Device) : virtual (list bytes * Device) :=
  answers [msg_sent_packet 0 DEFAULT_ACK_CODE DEFAULT_ACK_TIMEOUT_MS; packet] d.

Definition parse_key (payload : bytes) : option bytes :=
  if length payload <? 33 then None else Some (take 32 (drop 1 payload)).
Definition read_key (payload : bytes) : bytes := default (replicate 32 0%Z) (parse_key payload).
Definition is_remote_session_active (d : Device) (payload : bytes) : bool :=
  match parse_key payload with None => false | Some key => bool_decide (key ∈ Device_remote_sessions d) end.

(** [row.get(1..33).is_some_and(|stored| stored == key)]. *)
Definition has_key (key row : bytes) : bool := bool_decide (get_range row 1 33 = Some key).
Definition find_row (key : bytes) (d : Device) : option bytes := List.find (has_key key) (Device_contact_rows d).

Definition on_app_start (payload : bytes) (d : Device) : virtual (list bytes * Device) :=
  answers [if bool_decide (payload = APP_START_COMMAND) then self_info_packet else error_packet] d.
Definition on_device_query (payload : bytes) (d : Device) : virtual (list bytes * Device) :=
  if bool_decide (payload = DEVICE_QUERY_COMMAND) then answers [device_info_packet] d else refuse 1 d.
Definition on_get_device_time (payload : bytes) (d : Device) : virtual (list bytes * Device) :=
  if negb (length payload =? 1) then refuse 1 d else answers [current_time_packet (Device_device_time_seconds d)] d.
Definition on_set_device_time (payload : bytes) (d : Device) : virtual (list bytes * Device) :=
  if negb (length payload =? 5) then refuse 1 d
  else
    requested ← slice payload 1 5;
    let requested := from_le_bytes requested in
    if (requested <? Device_device_time_seconds d)%Z then refuse 6 d
    else answers [ok_packet] (set_device_time_seconds requested d).
Definition on_send_self_advert (payload : bytes) (d : Device) : virtual (list bytes * Device) :=
  if negb ((length payload =? 1) || (length payload =? 2)) || from_option (λ flag, negb (flag =? 1)%Z) false (payload !! 1)
  then refuse 1 d else answers [ok_packet] d.

Definition on_send_login (payload : bytes) (d : Device) : virtual (list bytes * Device) :=
  if length payload <? 33 then refuse 1 d
  else
    let key := read_key payload in
    password ← slice_from payload 33;
    let prefix := take 6 key in
    if bool_decide (password = str_bytes DEFAULT_REMOTE_PASSWORD) && session_fits key d then
      sent_then (login_success_packet prefix) (set_remote_sessions ({[key]} ∪ Device_remote_sessions d) d)
    else sent_then (login_failed_packet prefix) d.
Definition on_has_connection (payload : bytes) (d : Device) : virtual (list bytes * Device) :=
  if negb (length payload =? 33) then refuse 1 d
  else if bool_decide (read_key payload ∈ Device_remote_sessions d) then answers [ok_packet] d else refuse 2 d.
Definition on_logout (payload : bytes) (d : Device) : virtual (list bytes * Device) :=
  if negb (length payload =? 33) then refuse 1 d
  else
    let key := read_key payload in
    if bool_decide (key ∈ Device_remote_sessions d) then
      answers [ok_packet] (set_remote_sessions (Device_remote_sessions d ∖ {[key]}) d)
    else refuse 2 d.
Definition on_send_status (payload : bytes) (d : Device) : virtual (list bytes * Device) :=
  if negb (length payload =? 33) then refuse 1 d
  else
    let key := read_key payload in
    if negb (bool_decide (key ∈ Device_remote_sessions d)) then refuse 2 d
    else sent_then (status_response_packet (take 6 key)) d.

Definition remote_neighbours_response (key payload : bytes) : virtual (option bytes) :=
  if negb (length payload =? 44) then Ok None
  else
    version ← idx payload 34;
    count ← idx payload 35;
    order ← idx payload 38;
    prefix_length ← idx payload 39;
    nonce ← slice payload 40 44;
    if negb (version =? 0)%Z then Ok None
    else if (count =? 0)%Z then Ok None
    else if (3 <? order)%Z then Ok None
    else if negb ((1 <=? prefix_length)%Z && (prefix_length <=? 32)%Z) then Ok None
    else if (from_le_bytes nonce =? 0)%Z then Ok None
    else
      prefix ← slice key 0 (Z.to_nat prefix_length);
      Ok (Some (i16_to_le_bytes 1 ++ i16_to_le_bytes 1 ++ prefix ++ u32_to_le_bytes 123 ++ [0x0b]%Z)).
Definition on_binary_request (payload : bytes) (d : Device) : virtual (list bytes * Device) :=
  if length payload <? 34 then refuse 1 d
  else
    let key := read_key payload in
    if negb (bool_decide (key ∈ Device_remote_sessions d)) then refuse 2 d
    else
      kind ← idx payload 33;
      if (kind =? 3)%Z then sent_then (binary_response_packet remote_telemetry_response) d
      else if (kind =? 4)%Z then sent_then (binary_response_packet remote_summary_response) d
      else if (kind =? 5)%Z then sent_then (binary_response_packet remote_acl_response) d
      else if (kind =? 6)%Z then
        entry ← remote_neighbours_response key payload;
        match entry with
        | Some entry => sent_then (binary_response_packet entry) d
        | None => refuse 1 d
        end
      else refuse 1 d.

Definition is_valid_direct_route (descriptor : u8) (path : bytes) : bool :=
  let hash_mode := Z.to_nat (Z.shiftr descriptor 6) in
  let hop_count := Z.to_nat (Z.land descriptor 0x3f) in
  if (3 <? hash_mode) || (63 <? hop_count) then false
  else
    let expected_path_len := hop_count * (hash_mode + 1) in
    (expected_path_len =? length path) && (expected_path_len <=? 64).
Definition on_send_anon_req (payload : bytes) (d : Device) : virtual (list bytes * Device) :=
  if length payload <? 35 then refuse 1 d
  else
    request_type ← idx payload 33;
    route_descriptor ← idx payload 34;
    reply_path ← slice_from payload 35;
    if (request_type =? 0)%Z then refuse 1 d
    else if (route_descriptor =? 255)%Z || negb (is_valid_direct_route route_descriptor reply_path) then refuse 1 d
    else if (request_type =? 1)%Z then sent_then (binary_response_packet remote_regions_response) d
    else if (request_type =? 2)%Z then sent_then (binary_response_packet remote_owner_response) d
    else if (request_type =? 3)%Z then sent_then (binary_response_packet remote_basic_response) d
    else refuse 1 d.

Definition on_reboot (_payload : bytes) (d : Device) : virtual (list bytes * Device) := answers [] d.
Definition on_get_battery (d : Device) : virtual (list bytes * Device) := answers [battery_info_packet d] d.
Definition on_get_contacts (payload : bytes) (d : Device) : virtual (list bytes * Device) :=
  if negb ((length payload =? 1) || (length payload =? 5)) then refuse 1 d
  else
    let count := Z.min (Z.of_nat (length (Device_contact_rows d))) (2 ^ 32 - 1) in
    answers ([contact_start_packet count] ++ Device_contact_rows d ++ [contact_end_packet 0]) d.
Definition on_get_contact_by_key (payload : bytes) (d : Device) : virtual (list bytes * Device) :=
  if negb (length payload =? 33) then refuse 1 d
  else
    key ← slice payload 1 33;
    match find_row key d with
    | Some row => answers [row] d
    | None => refuse 2 d
    end.
Definition on_get_advert_path (payload : bytes) (d : Device) : virtual (list bytes * Device) :=
  if negb (length payload =? 34) then refuse 1 d
  else
    reserved ← idx payload 1;
    if negb (reserved =? 0)%Z then refuse 6 d
    else
      key ← slice payload 2 34;
      match find_row key d with
      | Some row =>
          route ← idx row 35;
          last_advert ← slice row 132 136;
          path ← slice row 36 (36 + contact_path_bytes_used route);
          answers [[PacketCode_to_u8 PacketCode_AdvertPath] ++ last_advert ++ [route] ++ path] d
      | None => refuse 2 d
      end.

(** The first row that satisfies [p], changed. *)
Fixpoint change_first (p : bytes → bool) (f : bytes → bytes) (rows : list bytes) : list bytes :=
  match rows with
  | [] => []
  | row :: rows => if p row then f row :: rows else row :: change_first p f rows
  end.
Definition forget_path (row : bytes) : bytes :=
  let row := if 35 <? length row then take 35 row ++ [255%Z] ++ drop 36 row else row in
  if 36 + CONTACT_FIXED_PATH_LEN <=? length row then
    take 36 row ++ replicate CONTACT_FIXED_PATH_LEN 0%Z ++ drop (36 + CONTACT_FIXED_PATH_LEN) row
  else row.
Definition on_reset_path (payload : bytes) (d : Device) : virtual (list bytes * Device) :=
  if negb (length payload =? 33) then refuse 1 d
  else
    key ← slice payload 1 33;
    match find_row key d with
    | Some _ =>
        answers [ok_packet] (set_contact_rows (change_first (has_key key) forget_path (Device_contact_rows d)) d)
    | None => refuse 2 d
    end.

Definition on_export_contact (payload : bytes) (d : Device) : virtual (list bytes * Device) :=
  if length payload =? 1 then answers [contact_uri_packet self_contact_card] d
  else if negb (length payload =? 33) then refuse 1 d
  else
    key ← slice payload 1 33;
    match find_row key d with
    | Some row => answers [contact_uri_packet row] d
    | None => refuse 2 d
    end.

Definition upsert_contact_row (row : bytes) (d : Device) : virtual (list bytes * Device) :=
  key ← slice row 1 33;
  match find_row key d with
  | Some _ => answers [ok_packet] (set_contact_rows (change_first (has_key key) (λ _, row) (Device_contact_rows d)) d)
  | None =>
      if Capacities_contacts (Device_capacities d) <=? length (Device_contact_rows d) then refuse 3 d
      else answers [ok_packet] (set_contact_rows (Device_contact_rows d ++ [row]) d)
  end.
Definition on_import_contact (payload : bytes) (d : Device) : virtual (list bytes * Device) :=
  if length payload <? 99 then refuse 1 d
  else
    card ← slice_from payload 1;
    code ← idx card 0;
    if (length card =? CONTACT_PACKET_LEN) && (code =? PacketCode_to_u8 PacketCode_Contact)%Z then
      valid ← valid_contact_row card;
      if valid : bool then upsert_contact_row card d else refuse 6 d
    else if bool_decide (card = self_contact_card) then answers [ok_packet] d
    else refuse 6 d.
Definition on_update_contact (payload : bytes) (d : Device) : virtual (list bytes * Device) :=
  if negb (length payload =? 144) then refuse 1 d
  else
    route ← idx payload 35;
    let used_path_bytes := contact_path_bytes_used route in
    path_field ← slice payload 36 100;
    name ← slice payload 100 132;
    if (CONTACT_FIXED_PATH_LEN <? used_path_bytes) || negb (forallb is_zero (drop used_path_bytes path_field))
         || negb (valid_padded_name name) then refuse 6 d
    else
      latitude ← slice payload 136 140;
      longitude ← slice payload 140 144;
      if negb (in_geographic_bounds (i32_from_le_bytes latitude) (i32_from_le_bytes longitude)) then refuse 6 d
      else
        fields ← slice_from payload 1;
        upsert_contact_row ([PacketCode_to_u8 PacketCode_Contact] ++ fields
                              ++ u32_to_le_bytes (Device_device_time_seconds d)) d.
Definition on_remove_contact (payload : bytes) (d : Device) : virtual (list bytes * Device) :=
  if negb (length payload =? 33) then refuse 1 d
  else
    key ← slice payload 1 33;
    let rows := List.filter (λ row, negb (has_key key row)) (Device_contact_rows d) in
    if length rows =? length (Device_contact_rows d) then refuse 2 d else answers [ok_packet] (set_contact_rows rows d).
Definition on_share_contact (payload : bytes) (d : Device) : virtual (list bytes * Device) :=
  if negb (length payload =? 33) then refuse 1 d
  else
    key ← slice payload 1 33;
    if existsb (has_key key) (Device_contact_rows d) then answers [ok_packet] d else refuse 2 d.
Definition on_path_discovery (payload : bytes) (d : Device) : virtual (list bytes * Device) :=
  if negb (length payload =? 34) then refuse 1 d
  else
    reserved ← idx payload 1;
    if negb (reserved =? 0)%Z then refuse 1 d
    else
      key ← slice payload 2 34;
      match find_row key d with
      | None => refuse 2 d
      | Some row =>
          route ← idx row 35;
          path ← slice row 36 (36 + contact_path_bytes_used route);
          sent_then ([PacketCode_to_u8 PacketCode_PathDiscoveryResponse; 0%Z] ++ take 6 key ++ [route] ++ path
                       ++ [route] ++ path) d
      end.

Definition on_send_telemetry_req (payload : bytes) (d : Device) : virtual (list bytes * Device) :=
  if bool_decide (payload = [CommandCode_to_u8 CommandCode_SendTelemetryReq; 0; 0; 0]%Z)
  then answers [telemetry_packet] d else refuse 1 d.
Definition on_send_txt_msg (payload : bytes) (d : Device) : virtual (list bytes * Device) :=
  if length payload <? 14 then refuse 1 d
  else
    destination_type ← idx payload 1;
    if negb ((destination_type =? 0)%Z || (destination_type =? 1)%Z) then refuse 1 d
    else
      answers ([msg_sent_packet destination_type (Device_send_txt_ack d) (Device_send_txt_timeout_ms d)]
                 ++ (if Device_emit_send_txt_ack d then [ack_packet (Device_send_txt_ack d)] else [])) d.
Definition on_send_channel_txt_msg (payload : bytes) (d : Device) : virtual (list bytes * Device) :=
  if length payload <? 7 then refuse 1 d else answers [ok_packet] d.
Definition on_sync_next_message (payload : bytes) (d : Device) : virtual (list bytes * Device) :=
  if negb (length payload =? 1) then refuse 1 d
  else
    match Device_sync_queue d with
    | packet :: queue => answers [packet] (set_sync_queue queue d)
    | [] => answers [[PacketCode_to_u8 PacketCode_NoMoreMsgs]] d
    end.
Definition on_get_channel (payload : bytes) (d : Device) : virtual (list bytes * Device) :=
  if negb (length payload =? 2) then refuse 1 d
  else channel ← idx payload 1; packet ← channel_info_packet d channel; answers [packet] d.
Definition on_set_channel (payload : bytes) (d : Device) : virtual (list bytes * Device) :=
  if negb (length payload =? 50) then refuse 1 d
  else
    channel ← idx payload 1;
    name ← slice payload 2 34;
    secret ← slice payload 34 50;
    match Device_channels d !! Z.to_nat channel with
    | None => Panic
    | Some _ => answers [ok_packet] (set_channels (<[Z.to_nat channel := mkChannelSlot name secret]> (Device_channels d)) d)
    end.

Definition node_discovery_request (payload : bytes) : virtual (option (bool * u32)) :=
  if negb ((length payload =? 7) || (length payload =? 11)) then Ok None
  else
    control ← idx payload 1;
    tag ← slice payload 3 7;
    let tag := from_le_bytes tag in
    if (control =? 0x80)%Z || (control =? 0x81)%Z then
      Ok (if (tag =? 0)%Z then None else Some ((control =? 0x81)%Z, tag))
    else Ok None.
Definition on_send_control_data (payload : bytes) (d : Device) : virtual (list bytes * Device) :=
  request ← node_discovery_request payload;
  match request with
  | None => refuse 1 d
  | Some (prefix_only, tag) => answers [ok_packet; node_discovery_response_packet prefix_only tag] d
  end.
Definition on_set_flood_scope (payload : bytes) (d : Device) : virtual (list bytes * Device) :=
  let valid := match payload with [_; flag] => (flag =? 0)%Z || (flag =? 1)%Z | _ => false end
                 || ((length payload =? 18) && bool_decide (payload !! 1 = Some 0%Z)) in
  if valid then answers [ok_packet] d else refuse 1 d.
Definition on_set_default_flood_scope (payload : bytes) (d : Device) : virtual (list bytes * Device) :=
  if length payload =? 1 then answers [ok_packet] (set_default_scope None d)
  else if negb (length payload =? 48) then refuse 1 d
  else
    name ← slice payload 1 32;
    key ← slice payload 32 48;
    if negb (valid_padded_name name) then refuse 1 d else answers [ok_packet] (set_default_scope (Some (name, key)) d).
Definition on_get_default_flood_scope (payload : bytes) (d : Device) : virtual (list bytes * Device) :=
  if negb (length payload =? 1) then refuse 1 d
  else
    answers [PacketCode_to_u8 PacketCode_DefaultFloodScope
               :: match Device_default_scope d with Some (name, key) => name ++ key | None => [] end] d.

(** The command of a packet; none for an empty packet or an unknown code. *)
Definition command_of (payload : bytes) : option CommandCode :=
  match payload with
  | [] => None
  | command :: _ => match CommandCode_try_from command with Ok code => Some code | _ => None end
  end.

Definition respond (payload : bytes) (d : Device) : virtual (list bytes * Device) :=
  match command_of payload with
  | None => answers [] d
  | Some code =>
      match code with
      | CommandCode_AppStart => on_app_start payload d
      | CommandCode_DeviceQuery => on_device_query payload d
      | CommandCode_GetDeviceTime => on_get_device_time payload d
      | CommandCode_SetDeviceTime => on_set_device_time payload d
      | CommandCode_SendSelfAdvert => on_send_self_advert payload d
      | CommandCode_SendLogin => on_send_login payload d
      | CommandCode_SendStatusReq => on_send_status payload d
      | CommandCode_HasConnection => on_has_connection payload d
      | CommandCode_Logout => on_logout payload d
      | CommandCode_BinaryReq => on_binary_request payload d
      | CommandCode_SendAnonReq => on_send_anon_req payload d
      | CommandCode_Reboot => on_reboot payload d
      | CommandCode_GetBattAndStorage => on_get_battery d
      | CommandCode_SendTelemetryReq => on_send_telemetry_req payload d
      | CommandCode_GetContactByKey => on_get_contact_by_key payload d
      | CommandCode_GetAdvertPath => on_get_advert_path payload d
      | CommandCode_ResetPath => on_reset_path payload d
      | CommandCode_ExportContact => on_export_contact payload d
      | CommandCode_ImportContact => on_import_contact payload d
      | CommandCode_GetContacts => on_get_contacts payload d
      | CommandCode_SendTxtMsg => on_send_txt_msg payload d
      | CommandCode_SendChannelTxtMsg => on_send_channel_txt_msg payload d
      | CommandCode_SyncNextMessage => on_sync_next_message payload d
      | CommandCode_GetChannel => on_get_channel payload d
      | CommandCode_SetChannel => on_set_channel payload d
      | CommandCode_AddUpdateContact => on_update_contact payload d
      | CommandCode_RemoveContact => on_remove_contact payload d
      | CommandCode_ShareContact => on_share_contact payload d
      | CommandCode_PathDiscovery => on_path_discovery payload d
      | CommandCode_SendControlData => on_send_control_data payload d
      | CommandCode_SetFloodScope => on_set_flood_scope payload d
      | CommandCode_SetDefaultFloodScope => on_set_default_flood_scope payload d
      | CommandCode_GetDefaultFloodScope => on_get_default_flood_scope payload d
      | _ => answers [] d
      end
  end.

Definition command_response_count (payload : bytes) (d : Device) : virtual usize :=
  let len := length payload in
  match command_of payload with
  | None => Ok 0
  | Some code =>
      match code with
      | CommandCode_SendLogin => Ok (if 33 <=? len then 2 else 1)
      | CommandCode_SendStatusReq => Ok (if (len =? 33) && is_remote_session_active d payload then 2 else 1)
      | CommandCode_BinaryReq => Ok (if (34 <=? len) && is_remote_session_active d payload then 2 else 1)
      | CommandCode_SendAnonReq => Ok (if 35 <=? len then 2 else 1)
      | CommandCode_GetContacts =>
          Ok (if (len =? 1) || (len =? 5) then usize_saturating_add (length (Device_contact_rows d)) 2 else 1)
      | CommandCode_SendTxtMsg =>
          if 14 <=? len then
            destination_type ← idx payload 1;
            Ok (if (destination_type =? 0)%Z || (destination_type =? 1)%Z then
                  (if Device_emit_send_txt_ack d then 1 else 0) + 1
                else 1)
          else Ok 1
      | CommandCode_PathDiscovery => Ok (if len =? 34 then 2 else 1)
      | CommandCode_SendControlData =>
          request ← node_discovery_request payload;
          Ok (match request with Some _ => 2 | None => 1 end)
      | CommandCode_AppStart | CommandCode_DeviceQuery | CommandCode_GetDeviceTime | CommandCode_SetDeviceTime
      | CommandCode_SendSelfAdvert | CommandCode_GetBattAndStorage | CommandCode_SendChannelTxtMsg
      | CommandCode_SyncNextMessage | CommandCode_GetChannel | CommandCode_GetContactByKey
      | CommandCode_GetAdvertPath | CommandCode_ResetPath | CommandCode_ExportContact | CommandCode_ImportContact
      | CommandCode_SetChannel | CommandCode_AddUpdateContact | CommandCode_RemoveContact | CommandCode_ShareContact
      | CommandCode_SendTelemetryReq | CommandCode_SetFloodScope | CommandCode_SetDefaultFloodScope
      | CommandCode_GetDefaultFloodScope | CommandCode_HasConnection | CommandCode_Logout => Ok 1
      | _ => Ok 0
      end
  end.

(** What a handler has changed stays when its answers do not fit in the queue. *)
Definition virtual_handle_command (payload : bytes) (s : VirtualCompanionState) : virtual () * VirtualCompanionState :=
  let d := Virtual_device s in
  match (response_count ← command_response_count payload d; ensure_inbound_capacity s response_count) with
  | Ok _ =>
      match respond payload d with
      | Ok (responses, d) =>
          let s := put_device d s in
          match queue_inbound responses s with
          | Ok s => (Ok (), s)
          | Err error => (Err error, s)
          | Panic => (Panic, s)
          end
      | Err error => (Err error, s)
      | Panic => (Panic, s)
      end
  | Err error => (Err error, s)
  | Panic => (Panic, s)
  end.

(** ** The transport *)

Definition transport_queue_error (error : VirtualCompanionError) : TransportError :=
  match error with
  | Virtual_QueueFull queue capacity => TransportError_Backpressure queue capacity
  | Virtual_PacketTooLarge max actual => TransportError_PayloadTooLarge max actual
  | Virtual_InvalidContactPacket _ _ | Virtual_InvalidContactPathLength _ _ | Virtual_InvalidCoordinate _ =>
      TransportError_Io (mkIoError InvalidData (display_VirtualCompanionError error))
  end.

Definition virtual_connect (s : VirtualCompanionState) : polled (tresult ()) * VirtualCompanionState :=
  (Ready (Ok ()), put_connected true s).
Definition virtual_disconnect (s : VirtualCompanionState) : polled (tresult ()) * VirtualCompanionState :=
  (Ready (Ok ()), put_inbound [] (put_connected false s)).

Definition virtual_write (s : VirtualCompanionState) (payload : bytes) :
    polled (tresult ()) * VirtualCompanionState :=
  if negb (Virtual_connected s) then (Ready (Err TransportError_NotConnected), s)
  else if MAX_INNER_PAYLOAD <? length payload then
    (Ready (Err (TransportError_PayloadTooLarge MAX_INNER_PAYLOAD (length payload))), s)
  else
    let is_direct_send := bool_decide (command_of payload = Some CommandCode_SendTxtMsg) in
    if bool_decide (Virtual_direct_send_write_fault s = DisconnectBeforeWrite) && is_direct_send then
      (Ready (Err TransportError_Closed), put_connected false (put_direct_send_write_fault DirectSend_None s))
    else
      match ensure_outbound_capacity s with
      | Ok _ =>
          match virtual_handle_command payload s with
          | (Ok _, s) =>
              match queue_outbound payload s with
              | Ok s => (Ready (Ok ()), s)
              | Err error => (Ready (Err (transport_queue_error error)), s)
              | Panic => (Ready Panic, s)
              end
          | (Err error, s) => (Ready (Err (transport_queue_error error)), s)
          | (Panic, s) => (Ready Panic, s)
          end
      | Err error => (Ready (Err (transport_queue_error error)), s)
      | Panic => (Ready Panic, s)
      end.

(** What [read] and [try_read] find: the end of the link, a packet, a timeout, or nothing. *)
Inductive Found := Found_Timeout | Found_Closed | Found_Packet (packet : bytes) | Found_Nothing.
Definition next_inbound (s : VirtualCompanionState) : Found * VirtualCompanionState :=
  match Virtual_next_fault s with
  | Some Fault_Timeout => (Found_Timeout, put_next_fault None s)
  | Some Fault_CleanDisconnect => (Found_Closed, put_connected false (put_next_fault None s))
  | None =>
      match Virtual_inbound s with
      | packet :: inbound => (Found_Packet packet, put_inbound inbound s)
      | [] =>
          if 0 <? Virtual_idle_disconnects_remaining s then
            (Found_Closed, put_connected false
               (put_idle_disconnects_remaining (Virtual_idle_disconnects_remaining s - 1) s))
          else (Found_Nothing, s)
      end
  end.
Definition virtual_read (s : VirtualCompanionState) : polled (tresult (option bytes)) * VirtualCompanionState :=
  if negb (Virtual_connected s) then (Ready (Err TransportError_NotConnected), s)
  else
    let '(found, s) := next_inbound s in
    (match found with
     | Found_Timeout => Ready (Err TransportError_Timeout)
     | Found_Closed => Ready (Ok None)
     | Found_Packet packet => Ready (Ok (Some packet))
     | Found_Nothing =>
         match Virtual_idle_read_mode s with
         | Idle_Timeout => Ready (Err TransportError_Timeout)
         | Idle_Pending => Pending
         end
     end, s).
Definition virtual_try_read (s : VirtualCompanionState) : tresult ReadyRead * VirtualCompanionState :=
  if negb (Virtual_connected s) then (Err TransportError_NotConnected, s)
  else
    let '(found, s) := next_inbound s in
    (match found with
     | Found_Timeout => Err TransportError_Timeout
     | Found_Closed => Ok ReadyRead_Closed
     | Found_Packet packet => Ok (ReadyRead_Packet packet)
     | Found_Nothing => Ok ReadyRead_Pending
     end, s).

Definition virtual_reconnect (s : VirtualCompanionState) : polled (tresult ()) * VirtualCompanionState :=
  let failures := Virtual_reconnect_failures_remaining s in
  let s := put_reconnects (usize_saturating_add (Virtual_reconnect_count s) 1) (failures - 1) s in
  let '(_, s) := virtual_disconnect s in
  if 0 <? failures then
    (Ready (Err (TransportError_ReconnectFailed "deterministic virtual companion reconnect failure")), s)
  else
    let '(_, s) := virtual_connect s in
    let packet := Virtual_next_reconnect_push s in
    let s := put_next_reconnect_push None s in
    match (match packet with None => Ok s | Some packet => queue_inbound [packet] s end) with
    | Ok s => (Ready (Ok ()), s)
    | Err error =>
        let '(_, s) := virtual_disconnect (put_duplicate_next_inbound false s) in
        (Ready (Err (transport_queue_error error)), s)
    | Panic => (Ready Panic, s)
    end.

#[global] Instance Virtual_transport : Transport VirtualCompanionState := {
  transport_kind := λ _, TransportKind_Scripted;
  transport_connect := virtual_connect;
  transport_disconnect := virtual_disconnect;
  transport_write := virtual_write;
  transport_read := virtual_read;
  transport_try_read := virtual_try_read;
  transport_reconnect := virtual_reconnect
}.

(** ** Fixtures *)

Record ContactFixture := mkContactFixture {
  Fixture_public_key : bytes;
  Fixture_contact_type : u8;
  Fixture_route : u8;
  Fixture_path : bytes;
  Fixture_adv_name : rstring;
  Fixture_last_advert : u32;
  Fixture_adv_lat : f64;
  Fixture_adv_lon : f64;
  Fixture_lastmod : u32
}.

(** [f64::round] of a finite number, as an integer: halves go away from zero. *)
Definition f64_round (x : f64) : Z :=
  match x with
  | S754_finite sign m e =>
      let magnitude := if (0 <=? e)%Z then (Zpos m * 2 ^ e)%Z
                       else ((2 * Zpos m + 2 ^ (- e)) / (2 * 2 ^ (- e)))%Z in
      if sign : bool then (- magnitude)%Z else magnitude
  | _ => 0%Z
  end.
(** The bounds are integral at both calls; the rounded number is printed without a
    fraction and read back. *)
Definition scale_coordinate (value : f64) (minimum maximum : Z) (field : string) : virtual i32 :=
  if negb (is_finite value) || f64_lt value (f64_of_Z minimum) || f64_lt (f64_of_Z maximum) value then
    Err (Virtual_InvalidCoordinate field)
  else
    let scaled := f64_mul value (f64_of_Z 1000000) in
    if negb (is_finite scaled) || bool_decide (¬ is_sint 32 (f64_round scaled)) then Err (Virtual_InvalidCoordinate field)
    else Ok (f64_round scaled).

Definition make_contact_row (fixture : ContactFixture) : virtual bytes :=
  let used := contact_path_bytes_used (Fixture_route fixture) in
  if (CONTACT_FIXED_PATH_LEN <? used) || negb (length (Fixture_path fixture) =? used) then
    Err (Virtual_InvalidContactPathLength used (length (Fixture_path fixture)))
  else
    lat_scaled ← scale_coordinate (Fixture_adv_lat fixture) (-90) 90 "adv_lat";
    lon_scaled ← scale_coordinate (Fixture_adv_lon fixture) (-180) 180 "adv_lon";
    Ok ([PacketCode_to_u8 PacketCode_Contact] ++ Fixture_public_key fixture
          ++ [Fixture_contact_type fixture; 0%Z; Fixture_route fixture]
          ++ resize0 CONTACT_FIXED_PATH_LEN (Fixture_path fixture) ++ pad_string (Fixture_adv_name fixture) 32
          ++ u32_to_le_bytes (Fixture_last_advert fixture) ++ i32_to_le_bytes lat_scaled ++ i32_to_le_bytes lon_scaled
          ++ u32_to_le_bytes (Fixture_lastmod fixture)).

Definition validate_fixture_packet (payload : bytes) : virtual bytes := _ ← check_packet payload; Ok payload.
Definition make_direct_message_packet (route : u8) (text : rstring) : virtual bytes :=
  validate_fixture_packet ([PacketCode_to_u8 PacketCode_ContactMsgRecvV3] ++ replicate 3 0%Z ++ replicate 6 0xaa%Z
    ++ [route; 0%Z] ++ u32_to_le_bytes 0 ++ text).
Definition make_channel_message_packet (channel : u8) (text : rstring) : virtual bytes :=
  validate_fixture_packet ([PacketCode_to_u8 PacketCode_ChannelMsgRecvV3] ++ replicate 3 0%Z
    ++ [channel; 0xff%Z; 0%Z] ++ u32_to_le_bytes 0 ++ text).
