(* ===== verification/VirtualBounds.v ===== *)
(** * The bounds of the virtual companion

    The companion's controls and its transport as a transition relation, and the
    invariant of its states: queues, contacts, inbox and sessions within their
    capacities.  While the rows it was given have routes that fit in their path field,
    every packet fits in a frame and no command of any bytes makes it panic; a row that
    does not, which [set_contacts] accepts, makes it panic.  A write that is refused
    changes nothing. *)

From S2P Require Import Prelude Text Domain Packet Transport Command VirtualCompanion.

(** ** Bounds

    What the companion keeps of its device: rows of the length of a contact packet, all
    its channels, an inbox and sessions within their capacities; and, when [strict],
    rows whose route fits in its path field. *)

Definition fits (packet : bytes) : Prop := length packet ≤ MAX_INNER_PAYLOAD.
Definition row_routed (row : bytes) : Prop :=
  ∃ route, row !! 35 = Some route ∧ contact_path_bytes_used route ≤ CONTACT_FIXED_PATH_LEN.
Definition row_kept (strict : bool) (row : bytes) : Prop :=
  length row = CONTACT_PACKET_LEN ∧ is_bytes row ∧ (strict = true → row_routed row).
Definition slot_kept (slot : ChannelSlot) : Prop :=
  length (ChannelSlot_name slot) = 32 ∧ length (ChannelSlot_secret slot) = 16.

Record device_bounded (strict : bool) (d : Device) : Prop := {
  bounded_capacity : (Z.of_nat (Capacities_contacts (Device_capacities d)) < 2 ^ 62)%Z;
  bounded_rows : Forall (row_kept strict) (Device_contact_rows d);
  bounded_contacts : length (Device_contact_rows d) ≤ Capacities_contacts (Device_capacities d);
  bounded_sync : Forall fits (Device_sync_queue d);
  bounded_inbox : length (Device_sync_queue d) ≤ Capacities_sync_messages (Device_capacities d);
  bounded_channels : length (Device_channels d) = DEFAULT_CHANNEL_CAPACITY ∧ Forall slot_kept (Device_channels d);
  bounded_ack : length (Device_send_txt_ack d) = 4;
  bounded_sessions : size (Device_remote_sessions d) ≤ Nat.max (Capacities_contacts (Device_capacities d)) 1;
  bounded_time : is_uint 32 (Device_device_time_seconds d);
  bounded_scope : match Device_default_scope d with Some (name, key) => length name = 31 ∧ length key = 16 | None => True end
}.
Arguments bounded_capacity {_} _ _.
Arguments bounded_rows {_} _ _.
Arguments bounded_contacts {_} _ _.
Arguments bounded_sync {_} _ _.
Arguments bounded_inbox {_} _ _.
Arguments bounded_channels {_} _ _.
Arguments bounded_ack {_} _ _.
Arguments bounded_sessions {_} _ _.
Arguments bounded_time {_} _ _.
Arguments bounded_scope {_} _ _.

(** What a handler leaves: a device within its bounds, and at most [n] packets, which
    fit when [strict]. *)
Definition handled (strict : bool) (d : Device) (n : nat) (r : list bytes * Device) : Prop :=
  device_bounded strict r.2 ∧ (strict = true → Forall fits r.1) ∧ length r.1 ≤ n ∧ Device_capacities r.2 = Device_capacities d.
(** It panics at most on a row that is not routed. *)
Definition may_handle (strict : bool) (d : Device) (n : nat) (m : virtual (list bytes * Device)) : Prop :=
  strict = false ∧ m = Panic ∨ post m (handled strict d n) (λ _, False).

Section handlers.
Variables (strict : bool) (d : Device).
Abbreviation handles d n m := (post m (handled strict d n) (λ _, False)) (only parsing).
Abbreviation row_kept := (row_kept strict).
Abbreviation device_bounded := (device_bounded strict).
Hypothesis Hd : device_bounded d.

Lemma handles_answers packets n : Forall fits packets → length packets ≤ n → handles d n (answers packets d).
Proof. intros. by repeat split; try apply Hd. Qed.
Lemma handles_refuse code n : 1 ≤ n → handles d n (refuse code d).
Proof. intros. apply handles_answers; [|done]. repeat constructor. Qed.
Lemma handles_sent_then packet n : fits packet → 2 ≤ n → handles d n (sent_then packet d).
Proof. intros. apply handles_answers; [|done]. constructor; [by vm_compute; lia|by constructor]. Qed.

Lemma find_row_kept key row : find_row key d = Some row → row_kept row.
Proof. intros Hf. apply List.find_some in Hf as [Hin _]. apply list_elem_of_In in Hin. by eapply Forall_forall; [apply Hd|]. Qed.

Lemma handles_set n packets d' :
  device_bounded d' → Device_capacities d' = Device_capacities d → Forall fits packets → length packets ≤ n →
  handles d n (answers packets d').
Proof. intros. cbn. unfold handled. auto. Qed.

(** Sessions stay within their capacity. *)
Lemma sessions_bounded sessions :
  size sessions ≤ Nat.max (Capacities_contacts (Device_capacities d)) 1 → device_bounded (set_remote_sessions sessions d).
Proof. intros Hs. destruct Hd. by split. Qed.
Lemma session_added key : session_fits key d = true → device_bounded (set_remote_sessions ({[key]} ∪ Device_remote_sessions d) d).
Proof.
  intros Hf. apply sessions_bounded. pose proof (bounded_sessions _ Hd). unfold session_fits in Hf.
  destruct (decide (key ∈ Device_remote_sessions d)) as [Hin|Hin].
  - by rewrite (subseteq_union_1_L {[key]}) by set_solver.
  - rewrite bool_decide_false in Hf by done. cbn [orb] in Hf. apply Nat.ltb_lt in Hf.
    rewrite size_union by set_solver. rewrite size_singleton. lia.
Qed.
Lemma session_removed key : device_bounded (set_remote_sessions (Device_remote_sessions d ∖ {[key]}) d).
Proof.
  apply sessions_bounded. pose proof (bounded_sessions _ Hd).
  assert (size (Device_remote_sessions d ∖ {[key]}) ≤ size (Device_remote_sessions d)) by (apply subseteq_size; set_solver). lia.
Qed.

(** Rows of the contact table. *)
Lemma rows_bounded rows :
  Forall row_kept rows → length rows ≤ Capacities_contacts (Device_capacities d) → device_bounded (set_contact_rows rows d).
Proof. intros. destruct Hd. by split. Qed.

Variable payload : bytes.
Hypothesis Hp : is_bytes payload.

Lemma read_key_length : length (read_key payload) = 32.
Proof.
  unfold read_key, parse_key. destruct (Nat.ltb_spec (length payload) 33); [done|].
  change (length (take 32 (drop 1 payload)) = 32). rewrite length_take, length_drop. lia.
Qed.

(** The responses that are counted are enough. *)
Ltac room_for := repeat match goal with |- context [if ?b then _ else _] => destruct b eqn:? end; simpl; lia.
(** One step of a handler: a test of its payload, a field of it, or an answer. *)
Ltac handler_step :=
  lazymatch goal with
  | |- post (refuse _ _) _ _ => apply handles_refuse; room_for
  | |- post (sent_then _ d) _ _ => apply handles_sent_then; [|room_for]
  | |- post (answers _ d) _ _ => apply handles_answers; [|simpl; lia]
  | |- post (if _ then _ else _) _ _ => apply post_if; intros
  | |- post (_ ≫= _) _ _ => apply post_bind
  | |- post (slice _ _ _) _ _ => apply post_slice; [assumption|lia|lia|intros]
  | |- post (slice_from _ _) _ _ => apply post_slice_from; [assumption|lia|intros]
  | |- post (idx _ _) _ _ => apply post_idx; [assumption|lia|intros]
  end.
Ltac handler := repeat handler_step.
(** A packet of known fields fits. *)
Ltac packet_fits :=
  unfold fits, MAX_INNER_PAYLOAD, u32_to_le_bytes, u16_to_le_bytes, i32_to_le_bytes, i16_to_le_bytes in *;
  autorewrite with mq_len; simpl length; autorewrite with mq_len; lia.
Ltac packets := repeat (constructor; [packet_fits|]); constructor.

Lemma ok_fits : Forall fits [ok_packet].
Proof. packets. Qed.
#[local] Hint Resolve ok_fits : core.

Lemma app_start_handled : handles d 1 (on_app_start payload d).
Proof. unfold on_app_start. handler. constructor; [|done]. case_bool_decide; vm_compute; lia. Qed.
Lemma device_query_handled : handles d 1 (on_device_query payload d).
Proof. unfold on_device_query. handler. constructor; [vm_compute; lia|done]. Qed.
Lemma get_device_time_handled : handles d 1 (on_get_device_time payload d).
Proof. unfold on_get_device_time. handler. unfold current_time_packet. packets. Qed.
Lemma set_device_time_handled : handles d 1 (on_set_device_time payload d).
Proof.
  unfold on_set_device_time. handler. apply handles_set; auto. destruct Hd. split; try done. cbn.
  match goal with H : is_bytes ?s, Hl : length ?s = _ |- is_uint _ (from_le_bytes ?s) =>
    pose proof (from_le_bytes_range s H) as Hr; rewrite Hl in Hr end. exact Hr.
Qed.
Lemma self_advert_handled : handles d 1 (on_send_self_advert payload d).
Proof. unfold on_send_self_advert. handler. done. Qed.

Lemma prefix_length : length (take 6 (read_key payload)) = 6.
Proof. rewrite length_take, read_key_length. lia. Qed.
Lemma login_handled : handles d (if 33 <=? length payload then 2 else 1) (on_send_login payload d).
Proof.
  pose proof prefix_length. unfold on_send_login. handler.
  - apply handles_set; [|done|unfold login_success_packet; packets|room_for]. apply session_added. by destruct (session_fits _ _);
      rewrite ?andb_false_r in *.
  - unfold login_failed_packet. packet_fits.
Qed.
Lemma has_connection_handled : handles d 1 (on_has_connection payload d).
Proof. unfold on_has_connection. by handler. Qed.
Lemma logout_handled : handles d 1 (on_logout payload d).
Proof. unfold on_logout. handler. apply handles_set; auto. apply session_removed. Qed.

Lemma session_active :
  is_remote_session_active d payload = (33 <=? length payload) && bool_decide (read_key payload ∈ Device_remote_sessions d).
Proof.
  unfold is_remote_session_active, read_key, parse_key. by destruct (Nat.ltb_spec (length payload) 33), (Nat.leb_spec 33 (length payload)); try lia.
Qed.
Lemma status_handled :
  handles d (if (length payload =? 33) && is_remote_session_active d payload then 2 else 1) (on_send_status payload d).
Proof.
  rewrite session_active. unfold on_send_status. handler. unfold status_response_packet. packet_fits.
Qed.
Lemma neighbours_fit : 34 ≤ length payload →
  post (remote_neighbours_response (read_key payload) payload)
    (λ entry, from_option (λ entry, length entry ≤ 41) True entry) (λ _, False).
Proof.
  intros Hl. pose proof read_key_length as Hk. unfold remote_neighbours_response.
  repeat handler_step; try done. rewrite slice_ok by lia. cbn. packet_fits.
Qed.
Lemma binary_handled :
  handles d (if (34 <=? length payload) && is_remote_session_active d payload then 2 else 1) (on_binary_request payload d).
Proof.
  rewrite session_active. unfold on_binary_request. handler; try (vm_compute; lia).
  eapply post_weaken; [apply neighbours_fit; lia|]. intros [entry|]; cbn [from_option]; intros; handler.
  unfold binary_response_packet. packet_fits.
Qed.
Lemma anon_handled : handles d (if 35 <=? length payload then 2 else 1) (on_send_anon_req payload d).
Proof. unfold on_send_anon_req. handler; vm_compute; lia. Qed.

Lemma change_first_kept p f rows : (∀ row, row_kept row → row_kept (f row)) → Forall row_kept rows →
  Forall row_kept (change_first p f rows) ∧ length (change_first p f rows) = length rows.
Proof.
  intros Hf. induction 1 as [|row rows Hr Hrs [IH IHl]]; simpl; [done|].
  case_match; simpl; (split; [constructor; auto|congruence]).
Qed.
Lemma changed_bounded p f : (∀ row, row_kept row → row_kept (f row)) →
  device_bounded (set_contact_rows (change_first p f (Device_contact_rows d)) d).
Proof.
  intros Hf. destruct (change_first_kept p f _ Hf (bounded_rows _ Hd)) as [Hr Hl].
  apply rows_bounded; [done|]. rewrite Hl. apply Hd.
Qed.
Lemma forget_path_kept row : row_kept row → row_kept (forget_path row).
Proof.
  intros (Hl & Hb & _). unfold forget_path. rewrite Hl. cbn [CONTACT_PACKET_LEN Nat.ltb Nat.leb].
  assert (length (take 35 row ++ [255%Z] ++ drop 36 row) = 148) as Hl1 by (autorewrite with mq_len; rewrite Hl; done).
  rewrite Hl1. change (36 + CONTACT_FIXED_PATH_LEN <=? 148) with true. cbn iota.
  set (row' := take 35 row ++ _) in *. split_and!.
  - autorewrite with mq_len. rewrite Hl1. done.
  - assert (is_bytes row').
    { unfold row'. repeat apply Forall_app_2; [by apply Forall_take|repeat constructor; unfold is_u8; lia|by apply Forall_drop]. }
    repeat apply Forall_app_2; [by apply Forall_take|apply Forall_replicate; unfold is_u8; lia|by apply Forall_drop].
  - intros _. exists 255%Z. split; [|by vm_compute; lia]. rewrite lookup_app_l by (rewrite length_take, Hl1; lia).
    rewrite lookup_take_lt by lia. unfold row'. rewrite lookup_app_r by (rewrite length_take, Hl; unfold CONTACT_PACKET_LEN; lia).
    rewrite length_take, Hl. done.
Qed.
Ltac found_row := match goal with |- context [find_row ?key d] => destruct (find_row key d) as [row'|] eqn:Hf end.
Lemma upsert_handled row : row_kept row → handles d 1 (upsert_contact_row row d).
Proof.
  intros (Hl & Hb & Hroute). unfold upsert_contact_row. unfold CONTACT_PACKET_LEN in Hl. handler. found_row.
  - apply handles_set; auto. apply changed_bounded. intros. by repeat split.
  - handler. apply handles_set; auto. apply rows_bounded; [apply Forall_app_2; [apply Hd|by repeat constructor]|].
    rewrite length_app. simpl. lia.
Qed.

Lemma contacts_handled :
  handles d (if (length payload =? 1) || (length payload =? 5)
             then usize_saturating_add (length (Device_contact_rows d)) 2 else 1) (on_get_contacts payload d).
Proof.
  pose proof (bounded_contacts _ Hd). pose proof (bounded_capacity _ Hd).
  assert (usize_saturating_add (length (Device_contact_rows d)) 2 = length (Device_contact_rows d) + 2) as ->.
  { unfold usize_saturating_add, usize_fits. by destruct (Z.ltb_spec (Z.of_nat (length (Device_contact_rows d)) + Z.of_nat 2) (2 ^ 64)); [|lia]. }
  unfold on_get_contacts. handler. apply handles_answers.
  - repeat apply Forall_app_2; [unfold contact_start_packet; packets| |unfold contact_end_packet; packets].
    eapply Forall_impl; [apply Hd|]. intros row (Hl & _). unfold fits. rewrite Hl. unfold CONTACT_PACKET_LEN, MAX_INNER_PAYLOAD. lia.
  - rewrite !length_app. room_for.
Qed.
Lemma row_fits key row : find_row key d = Some row → fits row.
Proof. intros Hf. destruct (find_row_kept _ _ Hf) as (Hl & _). unfold fits. rewrite Hl. unfold CONTACT_PACKET_LEN, MAX_INNER_PAYLOAD. lia. Qed.
Lemma contact_by_key_handled : handles d 1 (on_get_contact_by_key payload d).
Proof.
  unfold on_get_contact_by_key. handler. found_row; handler.
  constructor; [by eapply row_fits|done].
Qed.
Lemma reset_path_handled : handles d 1 (on_reset_path payload d).
Proof.
  unfold on_reset_path. handler. found_row; handler.
  apply handles_set; auto. apply changed_bounded, forget_path_kept.
Qed.
Lemma row_field {E} row i j : row_kept row → i ≤ j → j ≤ 148 → slice (E:=E) row i j = Ok (take (j - i) (drop i row)).
Proof. intros (Hl & _) ? ?. apply slice_ok; [done|]. by rewrite Hl. Qed.
Lemma row_path {E} row : row_kept row →
  ∃ route, idx (E:=E) row 35 = Ok route ∧
    (strict = false ∧ slice (E:=E) row 36 (36 + contact_path_bytes_used route) = Panic ∨
     ∃ path, slice (E:=E) row 36 (36 + contact_path_bytes_used route) = Ok path ∧ (strict = true → length path ≤ 64)).
Proof.
  intros Hk. pose proof Hk as (Hl & _ & Hr). destruct (lookup_lt_is_Some_2 row 35) as [route Hi]; [by rewrite Hl; unfold CONTACT_PACKET_LEN; lia|].
  exists route. unfold idx. rewrite Hi. split; [done|].
  destruct (decide (contact_path_bytes_used route ≤ 112)) as [Hu|Hu].
  - right. rewrite row_field by (done || lia). eexists. split; [done|]. intros Hs. destruct (Hr Hs) as (route' & Hi' & Hu').
    simplify_eq. unfold CONTACT_FIXED_PATH_LEN in Hu'. autorewrite with mq_len. lia.
  - left. destruct strict; [destruct (Hr eq_refl) as (route' & Hi' & Hu'); simplify_eq; unfold CONTACT_FIXED_PATH_LEN in *; lia|].
    split; [done|]. unfold slice. rewrite Hl. unfold CONTACT_PACKET_LEN. rewrite bool_decide_false; [done|lia].
Qed.
(** A question about the path of the contact with a key. *)
Lemma path_query_handled n code (k : bytes → bytes → virtual (list bytes * Device)) :
  1 ≤ (if length payload =? 34 then n else 1) →
  (∀ key row, length key = 32 → row_kept row → may_handle strict d n (k key row)) →
  may_handle strict d (if length payload =? 34 then n else 1)
    (if negb (length payload =? 34) then refuse 1 d
     else reserved ← idx payload 1;
          if negb (reserved =? 0)%Z then refuse code d
          else key ← slice payload 2 34;
               match find_row key d with Some row => k key row | None => refuse 2 d end).
Proof.
  intros Hn Hk. destruct (Nat.eqb_spec (length payload) 34) as [Hl|]; [|right; by apply handles_refuse]. cbn [negb].
  unfold idx. destruct (lookup_lt_is_Some_2 payload 1) as [reserved ->]; [lia|]. cbn [mbind outcome_bind].
  destruct (negb _); [right; by apply handles_refuse|]. rewrite (slice_ok payload 2 34) by lia. cbn [mbind outcome_bind].
  destruct (find_row _ d) as [row|] eqn:Hf; [|right; by apply handles_refuse]. apply Hk; [|by eapply find_row_kept].
  rewrite length_take, length_drop. lia.
Qed.
Lemma advert_path_handled : may_handle strict d 1 (on_get_advert_path payload d).
Proof.
  replace 1 with (if length payload =? 34 then 1 else 1) at 1 by room_for. apply (path_query_handled 1 6); [room_for|].
  intros key row _ Hk.
  destruct (row_path (E:=VirtualCompanionError) _ Hk) as (route & -> & [[Hs Hslice]|(path & Hslice & Hlen)]); cbn [mbind outcome_bind];
    rewrite (row_field row 132 136) by (done || lia); cbn [mbind outcome_bind]; rewrite Hslice; [by left|right].
  split_and!; [done|intros Hs; specialize (Hlen Hs); packets|simpl; lia|done].
Qed.
Lemma export_handled : handles d 1 (on_export_contact payload d).
Proof.
  unfold on_export_contact. handler; [constructor; [vm_compute; lia|done]|]. found_row; handler. destruct (find_row_kept _ _ Hf) as (Hl & _).
  constructor; [|done]. unfold fits, contact_uri_packet. simpl. rewrite Hl. unfold CONTACT_PACKET_LEN, MAX_INNER_PAYLOAD. lia.
Qed.
Lemma valid_row card : is_bytes card → post (valid_contact_row card) (λ valid, valid = true → row_kept card) (λ _, False).
Proof.
  intros Hb. unfold valid_contact_row. apply post_if; [done|]. intros Hl. apply negb_false_iff, Nat.eqb_eq in Hl.
  pose proof Hl as Hn. unfold CONTACT_PACKET_LEN in Hn. handler_step. apply post_idx; [done|lia|]. intros code _ _.
  handler_step; [done|]. handler_step. apply post_idx; [done|lia|]. intros route Hr _. cbv zeta. handler_step; [done|].
  assert (contact_path_bytes_used route ≤ 64) by (unfold CONTACT_FIXED_PATH_LEN in *; lia).
  assert (row_kept card) as Hk by (split; [done|]; split; [done|]; intros _; by exists route).
  handler; try done. intros _. exact Hk.
Qed.
Lemma import_handled : handles d 1 (on_import_contact payload d).
Proof.
  unfold on_import_contact. handler; [|done]. eapply post_weaken; [by apply valid_row|]. intros [] Hv; handler.
  apply upsert_handled. auto.
Qed.
Lemma update_contact_handled : handles d 1 (on_update_contact payload d).
Proof.
  unfold on_update_contact. apply post_if; [intros; handler|]. intros Hl. apply negb_false_iff, Nat.eqb_eq in Hl.
  handler_step. apply post_idx; [done|lia|]. intros route Hr Hru. cbv zeta.
  unfold slice_from. rewrite (slice_ok payload 1) by lia. handler. cbn [post]. apply upsert_handled.
  pose proof (length_to_le_bytes 4 (Device_device_time_seconds d)) as Ht. unfold u32_to_le_bytes.
  assert (length (take (length payload - 1) (drop 1 payload)) = 143) as Hf by (autorewrite with mq_len; lia).
  split_and!.
  - rewrite !length_app, Hf, Ht. done.
  - repeat apply Forall_app_2; [repeat constructor; vm_compute; done|by apply Forall_take, Forall_drop|apply is_bytes_to_le].
  - intros _. exists route. split; [|unfold CONTACT_FIXED_PATH_LEN in *; lia].
    rewrite lookup_app_r by (simpl; lia). rewrite lookup_app_l by (simpl; lia).
    rewrite lookup_take_lt by (simpl; lia). rewrite lookup_drop. exact Hr.
Qed.
Lemma remove_handled : handles d 1 (on_remove_contact payload d).
Proof.
  unfold on_remove_contact. handler. apply handles_set; auto. apply rows_bounded.
  - apply Forall_forall. intros row Hin. apply list_elem_of_In, filter_In in Hin as [Hin _]. apply list_elem_of_In in Hin.
    by eapply Forall_forall; [apply Hd|].
  - etrans; [apply filter_length_le|apply Hd].
Qed.
Lemma share_handled : handles d 1 (on_share_contact payload d).
Proof. unfold on_share_contact. by handler. Qed.
Lemma path_discovery_handled : may_handle strict d (if length payload =? 34 then 2 else 1) (on_path_discovery payload d).
Proof.
  apply (path_query_handled 2 1); [room_for|]. intros key row Hkey Hk.
  destruct (row_path (E:=VirtualCompanionError) _ Hk) as (route & -> & [[Hs Hslice]|(path & Hslice & Hlen)]); cbn [mbind outcome_bind];
    rewrite Hslice; [by left|right].
  split_and!; [done| |simpl; lia|done]. intros Hs. specialize (Hlen Hs). constructor; [by vm_compute; lia|].
  constructor; [packet_fits|constructor].
Qed.

(** Messages, channels and scopes. *)
Lemma telemetry_handled : handles d 1 (on_send_telemetry_req payload d).
Proof. unfold on_send_telemetry_req. handler. constructor; [vm_compute; lia|done]. Qed.
Lemma battery_handled : handles d 1 (on_get_battery d).
Proof. unfold on_get_battery, battery_info_packet. handler. packets. Qed.
Lemma sent_packets_fit destination : Forall fits
  ([msg_sent_packet destination (Device_send_txt_ack d) (Device_send_txt_timeout_ms d)]
     ++ (if Device_emit_send_txt_ack d then [ack_packet (Device_send_txt_ack d)] else [])).
Proof.
  pose proof (bounded_ack _ Hd). unfold msg_sent_packet, ack_packet. destruct (Device_emit_send_txt_ack d); packets.
Qed.
Lemma send_txt_handled n :
  post (command_response_count payload d) (λ count, count = n) (λ _, False) →
  command_of payload = Some CommandCode_SendTxtMsg → handles d n (on_send_txt_msg payload d).
Proof.
  intros Hn Hc. unfold command_response_count in Hn. rewrite Hc in Hn. revert Hn. unfold on_send_txt_msg.
  destruct (Nat.ltb_spec (length payload) 14).
  - rewrite (proj2 (Nat.leb_gt _ _)) by lia. intros <-. handler.
  - rewrite (proj2 (Nat.leb_le _ _)) by lia. destruct (lookup_lt_is_Some_2 payload 1) as [kind Hk]; [lia|].
    unfold idx. rewrite Hk. cbn [mbind outcome_bind post]. intros <-. handler.
    apply handles_answers; [apply sent_packets_fit|]. room_for.
Qed.
Lemma send_channel_handled : handles d 1 (on_send_channel_txt_msg payload d).
Proof. unfold on_send_channel_txt_msg. by handler. Qed.
Lemma sync_handled : handles d 1 (on_sync_next_message payload d).
Proof.
  unfold on_sync_next_message. handler. destruct (Device_sync_queue d) as [|packet queue] eqn:Hq; [handler; packets|].
  pose proof (bounded_sync _ Hd) as Hs. pose proof (bounded_inbox _ Hd) as Hi. rewrite Hq in Hs, Hi. inversion Hs; subst.
  apply handles_set; [|done|by constructor|done]. destruct Hd. split; try done. cbn in *. lia.
Qed.
Lemma channel_slot channel : is_u8 channel → ∃ slot, Device_channels d !! Z.to_nat channel = Some slot ∧ slot_kept slot.
Proof.
  intros Hc. destruct (bounded_channels _ Hd) as [Hl Hs].
  destruct (lookup_lt_is_Some_2 (Device_channels d) (Z.to_nat channel)) as [slot Hslot].
  { rewrite Hl. unfold DEFAULT_CHANNEL_CAPACITY, is_u8 in *. lia. }
  exists slot. split; [done|]. by eapply Forall_lookup_1.
Qed.
Lemma get_channel_handled : handles d 1 (on_get_channel payload d).
Proof.
  unfold on_get_channel. handler. unfold channel_info_packet. destruct (channel_slot b) as (slot & -> & Hn & Hs); [done|].
  cbn [post]. handler. constructor; [|done]. unfold fits, MAX_INNER_PAYLOAD. rewrite !length_app, Hn, Hs. simpl. lia.
Qed.
Lemma set_channel_handled : handles d 1 (on_set_channel payload d).
Proof.
  unfold on_set_channel. handler. destruct (channel_slot b) as (slot & -> & _); [done|]. apply handles_set; auto.
  destruct (bounded_channels _ Hd) as [Hl Hs]. destruct Hd. split; try done. cbn. split; [by rewrite length_insert|].
  by apply Forall_insert.
Qed.
Lemma discovery_request : post (node_discovery_request payload) (λ _, True) (λ _, False).
Proof. unfold node_discovery_request. by handler. Qed.
Lemma control_handled n :
  post (command_response_count payload d) (λ count, count = n) (λ _, False) →
  command_of payload = Some CommandCode_SendControlData → handles d n (on_send_control_data payload d).
Proof.
  intros Hn Hc. unfold command_response_count in Hn. rewrite Hc in Hn. revert Hn. unfold on_send_control_data.
  destruct (node_discovery_request payload) as [[[prefix tag]|]| |]; try done; cbn [mbind outcome_bind post]; intros <-; handler.
  unfold node_discovery_response_packet. destruct prefix; packets.
Qed.
Lemma set_flood_scope_handled : handles d 1 (on_set_flood_scope payload d).
Proof. unfold on_set_flood_scope. by handler. Qed.
Lemma set_default_scope_handled : handles d 1 (on_set_default_flood_scope payload d).
Proof. unfold on_set_default_flood_scope. handler; apply handles_set; auto; destruct Hd; split; done. Qed.
Lemma get_default_scope_handled : handles d 1 (on_get_default_flood_scope payload d).
Proof.
  unfold on_get_default_flood_scope. handler. pose proof (bounded_scope _ Hd) as Hs.
  destruct (Device_default_scope d) as [[name key]|]; [destruct Hs as [Hn Hk]|]; packets.
Qed.

(** Every command: as many packets as were counted, or fewer. *)
Lemma respond_handled : ∃ n, command_response_count payload d = Ok n ∧ may_handle strict d n (respond payload d).
Proof.
  assert (∃ n, command_response_count payload d = Ok n) as [n Hn].
  { unfold command_response_count. destruct (command_of payload) as [[]|]; eauto.
    - destruct (Nat.leb_spec 14 (length payload)); [|eauto]. unfold idx.
      destruct (lookup_lt_is_Some_2 payload 1) as [kind ->]; [lia|]. cbn. eauto.
    - pose proof discovery_request. destruct (node_discovery_request payload); [|done..]. cbn. eauto. }
  exists n. split; [done|]. assert (post (command_response_count payload d) (λ count, count = n) (λ _, False)) as Hc by by rewrite Hn.
  unfold respond. destruct (command_of payload) as [code|] eqn:Hcode; [|by right; apply handles_answers; [|simpl; lia]].
  assert (command_response_count payload d = Ok n) as Hn' by done.
  unfold command_response_count in Hn'. rewrite Hcode in Hn'.
  destruct code; try (by right; apply handles_answers; [|simpl; lia]); try (by right; apply send_txt_handled);
    try (by right; apply control_handled); injection Hn' as <-; auto using advert_path_handled, path_discovery_handled;
    right; auto using app_start_handled, device_query_handled, get_device_time_handled, set_device_time_handled,
      self_advert_handled, login_handled, status_handled, has_connection_handled, logout_handled, binary_handled, anon_handled,
      battery_handled, telemetry_handled, contact_by_key_handled, reset_path_handled, export_handled,
      import_handled, contacts_handled, send_channel_handled, sync_handled.
  all: auto using get_channel_handled, set_channel_handled, update_contact_handled, remove_handled, share_handled,
      set_flood_scope_handled, set_default_scope_handled, get_default_scope_handled.
Qed.
End handlers.

(** ** States *)

Definition capacities_fit (capacities : VirtualCompanionCapacities) : Prop :=
  (Z.of_nat (Capacities_contacts capacities) < 2 ^ 62 ∧ Z.of_nat (Capacities_inbound_queue capacities) < 2 ^ 62)%Z.

Record state_bounded (strict : bool) (s : VirtualCompanionState) : Prop := {
  bounded_device : device_bounded strict (Virtual_device s);
  bounded_fit : capacities_fit (Virtual_capacities s);
  bounded_outbound : length (Virtual_outbound s) ≤ Capacities_outbound_queue (Virtual_capacities s)
    ∧ Forall fits (Virtual_outbound s);
  bounded_inbound : length (Virtual_inbound s) ≤ Capacities_inbound_queue (Virtual_capacities s)
    ∧ (strict = true → Forall fits (Virtual_inbound s));
  bounded_push : from_option fits True (Virtual_next_reconnect_push s);
  bounded_idle : Virtual_idle_disconnects_remaining s ≤ 1
}.
Arguments bounded_device {_} _ _.
Arguments bounded_fit {_} _ _.
Arguments bounded_outbound {_} _ _.
Arguments bounded_inbound {_} _ _.
Arguments bounded_push {_} _ _.
Arguments bounded_idle {_} _ _.

Section states.
Variable strict : bool.
Abbreviation state_bounded := (state_bounded strict).
Abbreviation device_bounded := (device_bounded strict).

Lemma with_capacities_bounded capacities : capacities_fit capacities → state_bounded (with_capacities capacities).
Proof.
  intros Hf. split; [|done|split; [simpl; lia|done]|split; [simpl; lia|done]|done|simpl; lia].
  split; [apply Hf|done|simpl; lia|done|simpl; lia| |done| |done|done].
  - split; [done|]. constructor; [done|]. by apply Forall_replicate.
  - change (size (∅ : gset (list Z)) ≤ Nat.max (Capacities_contacts capacities) 1). rewrite size_empty. lia.
Qed.

(** What a step keeps when it changes the device only. *)
Lemma device_step d s : state_bounded s → device_bounded d → Device_capacities d = Virtual_capacities s →
  state_bounded (put_device d s).
Proof. intros [] ? Hc. unfold Virtual_capacities in *. by split; unfold Virtual_capacities; cbn; rewrite ?Hc. Qed.

(** [packets] as they are queued. *)
Definition queued (duplicate : bool) (packets : list bytes) : list bytes :=
  packets ≫= λ packet, if duplicate then [packet; packet] else [packet].
Lemma length_queued duplicate packets : length (queued duplicate packets) = length packets * (if duplicate then 2 else 1).
Proof. unfold queued. induction packets as [|p ps IH]; [done|]. cbn. rewrite length_app, IH. destruct duplicate; simpl; lia. Qed.
Lemma queued_fit duplicate packets : Forall fits packets → Forall fits (queued duplicate packets).
Proof. unfold queued. induction 1; [done|]. cbn. apply Forall_app_2; [by destruct duplicate; repeat (apply Forall_cons_2; [done|])|done]. Qed.

(** The packets that are let in have room, however they are counted. *)
Lemma inbound_room s n : state_bounded s → ensure_inbound_capacity s n = Ok () →
  length (Virtual_inbound s) + n * (if Virtual_duplicate_next_inbound s then 2 else 1)
    ≤ Capacities_inbound_queue (Virtual_capacities s).
Proof.
  intros Hs. destruct (bounded_fit _ Hs) as [_ Hf]. pose proof (bounded_inbound _ Hs) as [Hi _].
  unfold ensure_inbound_capacity, required_inbound_slots. case_match eqn:Hlt; [done|]. apply Nat.ltb_ge in Hlt. intros _. revert Hlt.
  destruct (Virtual_duplicate_next_inbound s); [|lia]. unfold usize_saturating_mul, usize_fits.
  destruct (Z.ltb_spec (Z.of_nat n * Z.of_nat 2) (2 ^ 64)); lia.
Qed.
Lemma room_enough s n k : state_bounded s → ensure_inbound_capacity s n = Ok () → k ≤ n → ensure_inbound_capacity s k = Ok ().
Proof.
  intros Hs Hn Hk. pose proof (inbound_room s n Hs Hn) as Hr. destruct (bounded_fit _ Hs) as [_ Hf].
  unfold ensure_inbound_capacity, required_inbound_slots. rewrite (proj2 (Nat.ltb_ge _ _)); [done|].
  destruct (Virtual_duplicate_next_inbound s); [|lia]. unfold usize_saturating_mul, usize_fits.
  destruct (Z.ltb_spec (Z.of_nat k * Z.of_nat 2) (2 ^ 64)); lia.
Qed.
Lemma queue_inbound_bounded packets s : state_bounded s → (strict = true → Forall fits packets) → ensure_inbound_capacity s (length packets) = Ok () →
  let s' := put_inbound (Virtual_inbound s ++ queued (Virtual_duplicate_next_inbound s) packets)
              (put_duplicate_next_inbound false s) in
  queue_inbound packets s = Ok s' ∧ state_bounded s'.
Proof.
  intros Hs Hp He. pose proof (inbound_room _ _ Hs He) as Hr. cbv zeta. split.
  { unfold queue_inbound. rewrite He. done. }
  destruct Hs as [? ? ? [_ Hi] ? ?]. split; try done. cbn. split; [|intros Hst; apply Forall_app_2; [auto|apply queued_fit; auto]].
  rewrite length_app, length_queued. exact Hr.
Qed.

(** ** Writes *)

(** An accepted write is recorded, and its answers are queued after what is there; a
    refused write changes nothing, unless the link was to be lost before the next
    direct message. *)
Definition write_outcome (s : VirtualCompanionState) (payload : bytes) : Prop :=
  match virtual_write s payload with
  | (Ready (Ok _), s') =>
      Virtual_connected s = true ∧ fits payload ∧
      ∃ responses d', respond payload (Virtual_device s) = Ok (responses, d') ∧
        s' = put_outbound (Virtual_outbound s ++ [payload])
               (put_inbound (Virtual_inbound s ++ queued (Virtual_duplicate_next_inbound s) responses)
                  (put_duplicate_next_inbound false (put_device d' s)))
  | (Ready (Err error), s') =>
      s' = s ∨ error = TransportError_Closed ∧ Virtual_direct_send_write_fault s = DisconnectBeforeWrite ∧
        command_of payload = Some CommandCode_SendTxtMsg ∧
        s' = put_connected false (put_direct_send_write_fault DirectSend_None s)
  | _ => False
  end.

Lemma command_taken s payload :
  state_bounded s → is_bytes payload →
  match virtual_handle_command payload s with
  | (Ok _, s') =>
      state_bounded s' ∧ Virtual_capacities s' = Virtual_capacities s ∧
      ∃ responses d', respond payload (Virtual_device s) = Ok (responses, d') ∧
        s' = put_inbound (Virtual_inbound s ++ queued (Virtual_duplicate_next_inbound s) responses)
               (put_duplicate_next_inbound false (put_device d' s))
  | (Err _, s') => s' = s
  | (Panic, s') => strict = false ∧ s' = s
  end.
Proof.
  intros Hs Hp. destruct (respond_handled _ _ (bounded_device _ Hs) payload Hp) as (n & Hn & Hh).
  unfold virtual_handle_command. rewrite Hn. cbn [mbind outcome_bind].
  destruct (ensure_inbound_capacity s n) as [[]|e|] eqn:Hin; [|done|unfold ensure_inbound_capacity in Hin; by case_match].
  destruct Hh as [[Hst ->]|Hh]; [done|]. destruct (respond payload (Virtual_device s)) as [[responses d']|e|]; [|done..].
  destruct Hh as (Hd & Hf & Hle & Hcaps). cbn [fst snd] in *.
  assert (state_bounded (put_device d' s)) as Hs' by (by apply device_step).
  destruct (queue_inbound_bounded responses (put_device d' s) Hs' Hf) as [Hq Hb].
  { apply (room_enough _ n); [done| |done]. revert Hin.
    unfold ensure_inbound_capacity, required_inbound_slots, Virtual_capacities. cbn -[Nat.ltb Nat.sub]. by rewrite Hcaps. }
  rewrite Hq. split_and!; [exact Hb|exact Hcaps|]. by exists responses, d'.
Qed.
Lemma recorded s payload : state_bounded s → fits payload →
  match queue_outbound payload s with
  | Ok s' => s' = put_outbound (Virtual_outbound s ++ [payload]) s ∧ state_bounded s'
  | Err _ => Capacities_outbound_queue (Virtual_capacities s) ≤ length (Virtual_outbound s)
  | Panic => False
  end.
Proof.
  intros Hs Hp. unfold queue_outbound, ensure_outbound_capacity. destruct (Nat.leb_spec (Capacities_outbound_queue (Virtual_capacities s)) (length (Virtual_outbound s))) as [|Hl]; cbn [mbind outcome_bind]; [done|].
  split; [done|]. destruct Hs as [? ? [_ Hf] ? ? ?]. split; try done. cbn.
  split; [rewrite length_app; simpl; unfold Virtual_capacities in *; cbn in *; lia|apply Forall_app_2; [done|by apply Forall_cons_2]].
Qed.

Lemma virtual_write_bounded s payload :
  state_bounded s → is_bytes payload → (strict = true → write_outcome s payload) ∧ state_bounded (virtual_write s payload).2.
Proof.
  intros Hs Hp. unfold write_outcome, virtual_write. destruct (Virtual_connected s) eqn:Hc; [|by split; [intros _; left|]]. cbn [negb].
  destruct (Nat.ltb_spec MAX_INNER_PAYLOAD (length payload)) as [|Hl]; [by split; [intros _; left|]|].
  destruct (bool_decide (Virtual_direct_send_write_fault s = DisconnectBeforeWrite)
              && bool_decide (command_of payload = Some CommandCode_SendTxtMsg)) eqn:Hfault.
  { apply andb_true_iff in Hfault as [?%bool_decide_eq_true ?%bool_decide_eq_true].
    split; [intros _; by right|]. destruct Hs. by split. }
  unfold ensure_outbound_capacity.
  destruct (Nat.leb_spec (Capacities_outbound_queue (Virtual_capacities s)) (length (Virtual_outbound s))) as [|Ho]; [by split; [intros _; left|]|].
  pose proof (command_taken s payload Hs Hp) as Ht. destruct (virtual_handle_command payload s) as [[[]|e|] s1]; [|subst; by split; [intros _; left|]|destruct Ht as [-> ->]; by split].
  destruct Ht as (Hs1 & Hcaps & responses & d' & Hr & ->). pose proof (recorded _ payload Hs1 Hl) as Hrec.
  destruct (queue_outbound payload _) as [s2|e|]; [|rewrite Hcaps in Hrec; cbn in Hrec; lia|done].
  destruct Hrec as [-> Hs2]. split; [intros _|done]. split_and!; [done..|]. by exists responses, d'.
Qed.

(** ** Reachable states *)

(** A control of the companion or an operation of its transport.  [allowed] is what is
    known of the rows it is given, of which it checks the length only. *)
Inductive companion_step (allowed : bytes → Prop) : VirtualCompanionState → VirtualCompanionState → Prop :=
| step_set_contacts contacts s s' :
    Forall is_bytes contacts → Forall allowed contacts → set_contacts contacts s = Ok s' → companion_step allowed s s'
| step_push_sync message s s' : push_sync_message message s = Ok s' → companion_step allowed s s'
| step_set_sync messages s s' : set_sync_messages messages s = Ok s' → companion_step allowed s s'
| step_enqueue packet s s' : enqueue_push packet s = Ok s' → companion_step allowed s s'
| step_configure ack timeout emit s : length ack = 4 → companion_step allowed s (configure_send_txt_ack ack timeout emit s)
| step_idle_mode mode s : companion_step allowed s (set_idle_read_mode mode s)
| step_drain s : companion_step allowed s (drain_virtual_outbound s).2
| step_idle_disconnect s : companion_step allowed s (disconnect_on_next_idle_read s)
| step_send_disconnect s : companion_step allowed s (disconnect_before_next_direct_send s)
| step_fail_reconnects count s : companion_step allowed s (fail_next_reconnects count s)
| step_reconnect_push packet s s' : set_next_reconnect_push packet s = Ok s' → companion_step allowed s s'
| step_read_fault fault s : companion_step allowed s (set_next_read_fault fault s)
| step_duplicate s : companion_step allowed s (duplicate_next_inbound_packet s)
| step_session key authenticated s : companion_step allowed s (set_remote_session key authenticated s)
| step_connect s : companion_step allowed s (virtual_connect s).2
| step_disconnect s : companion_step allowed s (virtual_disconnect s).2
| step_write payload s : is_bytes payload → companion_step allowed s (virtual_write s payload).2
| step_read s : companion_step allowed s (virtual_read s).2
| step_try_read s : companion_step allowed s (virtual_try_read s).2
| step_reconnect s : companion_step allowed s (virtual_reconnect s).2.

Lemma check_packet_fits packet : check_packet packet = Ok () → fits packet.
Proof. unfold check_packet, fits. case_match eqn:Hb; [done|]. apply Nat.ltb_ge in Hb. done. Qed.
Lemma check_packets_fit packets : check_packets packets = Ok () → Forall fits packets.
Proof.
  induction packets as [|packet packets IH]; [done|]. cbn [check_packets].
  destruct (check_packet packet) as [[]| |] eqn:Hp; [|done..]. intros. apply Forall_cons_2; [by apply check_packet_fits|auto].
Qed.

Lemma check_contacts_kept (allowed : bytes → Prop) contacts : (strict = true → ∀ row, allowed row → row_routed row) →
  Forall is_bytes contacts → Forall allowed contacts → check_contacts contacts = Ok () → Forall (row_kept strict) contacts.
Proof.
  intros Ha. induction 1 as [|row rows Hb _ IH]; [constructor|]. intros [Hr Hrs]%Forall_cons. cbn [check_contacts].
  case_match eqn:Hl; [done|]. destruct (check_packet row) as [[]| |]; [|done..]. intros Hc. constructor; [|by apply IH].
  apply negb_false_iff, Nat.eqb_eq in Hl. split_and!; auto.
Qed.

(** Changes of the link, the faults and the modes keep the bounds. *)
Lemma next_inbound_bounded s : state_bounded s → state_bounded (next_inbound s).2.
Proof.
  intros [Hd Hf Ho [Hi Hfi] Hp Hidle]. unfold next_inbound. destruct (Virtual_next_fault s) as [[]|]; [by split..|].
  destruct (Virtual_inbound s) as [|packet inbound] eqn:Hin.
  - destruct (Nat.ltb_spec 0 (Virtual_idle_disconnects_remaining s)); split; cbn; rewrite ?Hin; try done. lia.
  - split; try done. cbn in *. split; [unfold Virtual_capacities in *; cbn; lia|].
    intros Hs. specialize (Hfi Hs). by inversion Hfi.
Qed.
Lemma connected_bounded b s : state_bounded s → state_bounded (put_connected b s).
Proof. by intros []. Qed.
Lemma disconnect_bounded s : state_bounded s → state_bounded (virtual_disconnect s).2.
Proof. intros []. split; try done. cbn. split; [lia|done]. Qed.
Lemma reconnect_bounded_state s : state_bounded s → state_bounded (virtual_reconnect s).2.
Proof.
  intros Hs. unfold virtual_reconnect. set (s1 := put_reconnects _ _ s).
  assert (state_bounded s1) as Hs1 by (destruct Hs; by split). apply disconnect_bounded in Hs1. cbn [virtual_disconnect fst snd] in *.
  case_match; [done|]. cbn [virtual_connect]. set (s2 := put_connected true _). assert (state_bounded s2) as Hs2 by by apply connected_bounded.
  assert (state_bounded (put_next_reconnect_push None s2)) as Hs3 by (destruct Hs2; by split).
  pose proof (bounded_push _ Hs2) as Hpush. destruct (Virtual_next_reconnect_push s2) as [packet|]; [|done]. cbn [from_option] in Hpush.
  destruct (ensure_inbound_capacity (put_next_reconnect_push None s2) 1) as [[]|e|] eqn:He.
  - destruct (queue_inbound_bounded [packet] _ Hs3) as [-> Hq]; [intros _; by apply Forall_cons_2|done|]. done.
  - unfold queue_inbound. change (length [packet]) with 1. rewrite He. cbn [mbind outcome_bind].
    assert (state_bounded (put_duplicate_next_inbound false (put_next_reconnect_push None s2))) as Hs4 by (destruct Hs3; by split).
    exact (disconnect_bounded _ Hs4).
  - unfold ensure_inbound_capacity in He. by case_match.
Qed.
Lemma session_bounded key authenticated s : state_bounded s → state_bounded (set_remote_session key authenticated s).
Proof.
  intros Hs. pose proof (bounded_device _ Hs) as Hd. unfold set_remote_session.
  destruct authenticated; [destruct (session_fits key (Virtual_device s)) eqn:Hf; [|done]|]; apply device_step; try done;
    [by apply session_added|by apply session_removed].
Qed.
Lemma sync_bounded queue s : state_bounded s → Forall fits queue → length queue ≤ Capacities_sync_messages (Virtual_capacities s) →
  state_bounded (put_device (set_sync_queue queue (Virtual_device s)) s).
Proof. intros Hs Hq Hl. pose proof (bounded_device _ Hs) as []. apply device_step; [done|by split|done]. Qed.

Lemma step_bounded (allowed : bytes → Prop) s s' : (strict = true → ∀ row, allowed row → row_routed row) →
  companion_step allowed s s' → state_bounded s → state_bounded s'.
Proof.
  intros Hallowed Hstep Hs. pose proof (bounded_device _ Hs) as Hd. destruct Hstep.
  - revert H1. unfold set_contacts. destruct (check_contacts contacts) as [[]| |] eqn:Hc; [|done..]. cbn [mbind outcome_bind].
    case_match eqn:Hb; [done|]. intros [= <-]. apply Nat.ltb_ge in Hb. apply device_step; [done| |done].
    apply rows_bounded; [done| |done]. by eapply check_contacts_kept.
  - revert H. unfold push_sync_message. destruct (check_packet message) as [[]| |] eqn:Hc; [|done..]. cbn [mbind outcome_bind].
    case_match eqn:Hb; [done|]. intros [= <-]. apply Nat.leb_gt in Hb. apply sync_bounded; [done| |rewrite length_app; simpl; lia].
    apply Forall_app_2; [apply Hd|]. apply Forall_cons_2; [by apply check_packet_fits|done].
  - revert H. unfold set_sync_messages. destruct (check_packets messages) as [[]| |] eqn:Hc; [|done..]. cbn [mbind outcome_bind].
    case_match eqn:Hb; [done|]. intros [= <-]. apply Nat.ltb_ge in Hb. by apply sync_bounded; [|apply check_packets_fit|].
  - revert H. unfold enqueue_push. destruct (check_packet packet) as [[]| |] eqn:Hc; [|done..]. cbn [mbind outcome_bind]. intros Hq.
    destruct (ensure_inbound_capacity s 1) as [[]| |] eqn:He.
    + destruct (queue_inbound_bounded [packet] s Hs) as [Heq Hb];
        [intros _; apply Forall_cons_2; [by apply check_packet_fits|done]|done|].
      rewrite Heq in Hq. by injection Hq as <-.
    + unfold queue_inbound in Hq. change (length [packet]) with 1 in Hq. by rewrite He in Hq.
    + unfold queue_inbound in Hq. change (length [packet]) with 1 in Hq. by rewrite He in Hq.
  - apply device_step; [done| |done]. destruct Hd. by split.
  - destruct Hs. by split.
  - destruct Hs. split; try done. cbn. split; [lia|done].
  - destruct Hs. by split.
  - destruct Hs. by split.
  - destruct Hs. by split.
  - revert H. unfold set_next_reconnect_push. destruct (check_packet packet) as [[]| |] eqn:Hc; [|done..]. cbn [mbind outcome_bind].
    intros [= <-]. apply check_packet_fits in Hc. destruct Hs. by split.
  - destruct Hs. by split.
  - destruct Hs. by split.
  - by apply session_bounded.
  - by apply connected_bounded.
  - by apply disconnect_bounded.
  - by apply virtual_write_bounded.
  - unfold virtual_read. case_match; [done|]. pose proof (next_inbound_bounded s Hs). by destruct (next_inbound s).
  - unfold virtual_try_read. case_match; [done|]. pose proof (next_inbound_bounded s Hs). by destruct (next_inbound s).
  - by apply reconnect_bounded_state.
Qed.

Lemma reachable_bounded (allowed : bytes → Prop) capacities s : (strict = true → ∀ row, allowed row → row_routed row) →
  capacities_fit capacities → rtc (companion_step allowed) (with_capacities capacities) s → state_bounded s.
Proof.
  intros Ha Hf Hr. pose proof (with_capacities_bounded _ Hf) as H0. revert H0.
  induction Hr as [|s0 s1 s2 Hstep _ IH]; [done|]. intros H0. apply IH. by eapply step_bounded.
Qed.
End states.

(** A row that is not routed makes the companion panic: the contact it belongs to is
    asked for the path of its advertisement. *)
Definition unrouted_row : bytes := [3]%Z ++ replicate 32 0x22%Z ++ [1; 0; 0xbf]%Z ++ replicate 112 0%Z.
Lemma unrouted_row_panics :
  ∃ s, rtc (companion_step (λ _, True)) VirtualCompanion_new s ∧ Device_contact_rows (Virtual_device s) = [unrouted_row] ∧
    (virtual_write s ([42; 0]%Z ++ replicate 32 0x22%Z)).1 = Ready Panic.
Proof.
  destruct (set_contacts [unrouted_row] VirtualCompanion_new) as [s| |] eqn:Hs; [|by vm_compute in Hs..].
  exists (virtual_connect s).2. split; [|by vm_compute in Hs; simplify_eq; vm_compute].
  eapply rtc_l; [|eapply rtc_l; [apply step_connect|apply rtc_refl]].
  apply (step_set_contacts _ [unrouted_row]); [|by repeat constructor|done].
  constructor; [|done]. apply (bool_decide_unpack _). by vm_compute.
Qed.

(** C24: whatever controls and operations of the transport run on a companion, its
    queues, contacts, inbox and sessions stay within their capacities and its channels
    are all there.  If the rows given to [set_contacts], which checks their length only,
    have routes that fit in their path field, as those have that commands leave, then
    everything it queues fits in a frame, and a command of any bytes makes no handler
    panic: it is accepted, recorded and answered by what its handler returns, or refused
    with the state as it was, the loss of the link that was asked for before the next
    direct message apart.  ([unrouted_row_panics] has a row without a route that fits.) *)
Theorem companion_bounded capacities s : capacities_fit capacities →
  (rtc (companion_step (λ _, True)) (with_capacities capacities) s → state_bounded false s) ∧
  (rtc (companion_step row_routed) (with_capacities capacities) s →
   state_bounded true s ∧ ∀ payload, is_bytes payload → write_outcome s payload).
Proof.
  intros Hf. split; intros Hr; [by apply (reachable_bounded false (λ _, True) capacities)|].
  assert (state_bounded true s) as Hs by (by apply (reachable_bounded true row_routed capacities)).
  split; [done|]. intros. by apply (virtual_write_bounded true).
Qed.

Lemma companion_bounded_witness :
  let s := (virtual_write (virtual_connect VirtualCompanion_new).2 APP_START_COMMAND).2 in
  state_bounded true s ∧ Virtual_inbound s = [self_info_packet] ∧ Virtual_outbound s = [APP_START_COMMAND].
Proof.
  split; [|by vm_compute].
  apply (companion_bounded VirtualCompanionCapacities_default).
  - split; vm_compute; reflexivity.
  - eapply rtc_l; [apply step_connect|]. eapply rtc_l; [|apply rtc_refl]. apply step_write.
    apply (bool_decide_unpack _). vm_compute. exact I.
Defined.
