(* ===== verification/VirtualProps.v ===== *)
(** * What the virtual companion guarantees

    Its state stays within its bounds and no command makes it panic; a write that is
    refused changes nothing.  And the whole exchange with a client: what an operation
    of the client writes, the companion stores, and another operation reads back. *)

From S2P Require Import Prelude Text Floats Domain Samples Packet PacketFacts Transport Framed Tracker Command.
From S2P Require Import CommandFacts Client ClientFacts ClientProps Roundtrip VirtualCompanion.

(** ** One exchange *)

(** A companion with the device [d] that will answer the next commands: connected,
    nothing to be read, no faults, and room in its queues, for [room] commands. *)
Record serves (room : nat) (d : Device) (s : VirtualCompanionState) : Prop := {
  serves_connected : Virtual_connected s = true;
  serves_inbound : Virtual_inbound s = [];
  serves_fault : Virtual_next_fault s = None;
  serves_send_fault : Virtual_direct_send_write_fault s = DirectSend_None;
  serves_duplicate : Virtual_duplicate_next_inbound s = false;
  serves_device : Virtual_device s = d;
  serves_outbound : length (Virtual_outbound s) + room ≤ Capacities_outbound_queue (Device_capacities d);
  serves_capacity : 2 ≤ Capacities_inbound_queue (Device_capacities d)
}.

(** A connected client over such a companion, with no inbox response outstanding. *)
Record in_service (room : nat) (d : Device) (c : Client VirtualCompanionState) : Prop := {
  service_connected : Client_connected c = true;
  service_idle : Client_sync_state c = SyncState_Idle;
  service_transport : serves room d (Client_transport c)
}.

(** The companion once it has taken the command [payload] and answers [raws]. *)
Definition answering (payload : bytes) (raws : list bytes) (d : Device) (s : VirtualCompanionState) :
    VirtualCompanionState :=
  put_outbound (Virtual_outbound s ++ [payload])
    (put_inbound raws (put_duplicate_next_inbound false (put_device d s))).

Lemma bind_singletons (raws : list bytes) : (raws ≫= λ packet, [packet]) = raws.
Proof. induction raws as [|raw raws IH]; [done|]. cbn. f_equal. exact IH. Qed.

Lemma virtual_write_answers room d s payload raws d' count :
  serves (S room) d s → length payload ≤ MAX_INNER_PAYLOAD →
  command_response_count payload d = Ok count → count ≤ 2 → length raws ≤ 2 →
  respond payload d = Ok (raws, d') → Device_capacities d' = Device_capacities d →
  virtual_write s payload = (Ready (Ok ()), answering payload raws d' s).
Proof.
  intros [Hc Hi Hf Hsf Hdup Hd Ho Hcap] Hl Hn Hle Hraws Hr Hcaps. unfold virtual_write. rewrite Hc. cbn [negb].
  rewrite (proj2 (Nat.ltb_ge _ _) Hl), Hsf. rewrite bool_decide_false by done. cbn [andb].
  unfold ensure_outbound_capacity, Virtual_capacities. rewrite Hd.
  rewrite (proj2 (Nat.leb_gt _ _)) by lia. cbn [mbind outcome_bind].
  unfold virtual_handle_command. rewrite Hd, Hn. cbn [mbind outcome_bind].
  unfold ensure_inbound_capacity, required_inbound_slots, Virtual_capacities. rewrite Hd, Hdup, Hi.
  rewrite (proj2 (Nat.ltb_ge _ _)) by (simpl; lia). rewrite Hr.
  unfold queue_inbound, ensure_inbound_capacity, required_inbound_slots, Virtual_capacities. cbn -[Nat.ltb Nat.leb].
  rewrite Hdup, Hcaps, Hi. rewrite (proj2 (Nat.ltb_ge _ _)) by (simpl; lia). cbn [mbind outcome_bind].
  unfold queue_outbound, ensure_outbound_capacity, Virtual_capacities. cbn -[Nat.ltb Nat.leb]. rewrite Hcaps.
  rewrite (proj2 (Nat.leb_gt _ _)) by lia. cbn [mbind outcome_bind]. unfold answering.
  by rewrite bind_singletons.
Qed.

(** A packet that is not a message, which is given no observation id. *)
Definition plain (p : Packet) : Prop := match p with Packet_ContactMsg _ | Packet_ChannelMsg _ => False | _ => True end.

Section exchange.
Context `{CratesLaws}.
Implicit Types c : Client VirtualCompanionState.

Lemma read_plain c raw raws p :
  Virtual_connected (Client_transport c) = true → Virtual_next_fault (Client_transport c) = None →
  Virtual_inbound (Client_transport c) = raw :: raws → Packet_parse raw = Ok p → plain p →
  read_next_packet_with_timeout c = (Ret p, with_transport (put_inbound raws (Client_transport c)) c).
Proof.
  intros Hc Hf Hi Hp Hplain. unfold read_next_packet_with_timeout, read_next_packet. cbn.
  unfold virtual_read, next_inbound. rewrite Hc, Hf, Hi. cbn. unfold parse_packet. rewrite Hp. by destruct p.
Qed.

Lemma send_answers room d c cmd raws d' count :
  in_service (S room) d c → 1 ≤ length (Command_encode cmd) ≤ MAX_INNER_PAYLOAD →
  command_response_count (Command_encode cmd) d = Ok count → count ≤ 2 → length raws ≤ 2 →
  respond (Command_encode cmd) d = Ok (raws, d') → Device_capacities d' = Device_capacities d →
  (_ ← ensure_connected; send_raw (Command_into_encoded cmd)) c
    = (Ret (), with_transport (answering (Command_encode cmd) raws d' (Client_transport c)) c).
Proof.
  intros [Hcc Hsync Hs] Hl Hn Hle Hraws Hr Hcaps. unfold mbind, io_bind, ensure_connected. rewrite Hcc.
  change (Command_into_encoded cmd) with (Command_encode cmd). unfold send_raw, write_raw. rewrite Hsync.
  rewrite bool_decide_false by done. rewrite bool_decide_false by (intros He; rewrite He in Hl; cbn in Hl; lia).
  rewrite (proj2 (Nat.ltb_ge _ _)) by lia. cbn [transport_write Virtual_transport].
  by rewrite (virtual_write_answers room d _ _ raws d' count Hs (proj2 Hl) Hn Hle Hraws Hr Hcaps).
Qed.

Lemma answering_serves room d d' s payload : serves (S room) d s → Device_capacities d' = Device_capacities d →
  serves room d' (answering payload [] d' s).
Proof.
  intros [Hc Hi Hf Hsf Hdup Hd Ho Hcap] Hcaps. unfold answering. split; try done; cbn; rewrite ?Hcaps; [|done].
  rewrite length_app. simpl. lia.
Qed.

Lemma lift_ok_bind {A B} (a : A) (k : A → io VirtualCompanionState B) c : (lift (Ok a) ≫= k) c = k a c.
Proof. done. Qed.

(** A request whose answer starts with the packet [p]. *)
Lemma exchange_first {R} fuel cmd (arm : Packet → option (io VirtualCompanionState R)) answer raw raws p room d d' count c :
  in_service (S room) d c → 1 ≤ length (Command_encode cmd) ≤ MAX_INNER_PAYLOAD →
  command_response_count (Command_encode cmd) d = Ok count → count ≤ 2 → length raws ≤ 1 →
  respond (Command_encode cmd) d = Ok (raw :: raws, d') → Device_capacities d' = Device_capacities d →
  Packet_parse raw = Ok p → plain p → arm p = Some answer → 0 < fuel →
  request fuel cmd arm c = answer (with_transport (answering (Command_encode cmd) raws d' (Client_transport c)) c).
Proof.
  intros Hc Hl Hn Hle Hraws Hr Hcaps Hp Hplain Harm Hfuel. destruct fuel as [|fuel]; [lia|].
  assert (request (S fuel) cmd arm c = ((_ ← ensure_connected; send_raw (Command_into_encoded cmd)) ≫= λ _,
    reply_loop (S fuel) arm) c) as ->.
  { unfold request, mbind, io_bind. by destruct (ensure_connected c) as [[] ?]. }
  unfold mbind at 1, io_bind at 1.
  rewrite (send_answers room d c cmd (raw :: raws) d' count Hc Hl Hn Hle ltac:(simpl; lia) Hr Hcaps).
  cbn [reply_loop]. unfold mbind at 1, io_bind at 1.
  rewrite (read_plain _ raw raws p) by (try done; apply Hc). by rewrite Harm.
Qed.

Lemma answered_in_service room d d' c payload : in_service (S room) d c → Device_capacities d' = Device_capacities d →
  in_service room d' (with_transport (answering payload [] d' (Client_transport c)) c).
Proof. intros [Hcc Hsync Hs] Hcaps. split; [done..|]. by eapply answering_serves. Qed.

(** A request with one packet for an answer. *)
Lemma exchange {R} fuel cmd (arm : Packet → option (io VirtualCompanionState R)) answer raw p room d d' count c :
  in_service (S room) d c → 1 ≤ length (Command_encode cmd) ≤ MAX_INNER_PAYLOAD →
  command_response_count (Command_encode cmd) d = Ok count → count ≤ 2 →
  respond (Command_encode cmd) d = Ok ([raw], d') → Device_capacities d' = Device_capacities d →
  Packet_parse raw = Ok p → plain p → arm p = Some answer → 0 < fuel →
  ∃ c', request fuel cmd arm c = answer c' ∧ in_service room d' c'.
Proof.
  intros Hc Hl Hn Hle Hr Hcaps Hp Hplain Harm Hfuel. eexists. split; [|by eapply answered_in_service].
  by eapply exchange_first; [..|exact Hfuel]; eauto.
Qed.

(** A request that is sent and answered by a second packet, which [extract] waits for. *)
Lemma exchange_then {R} fuel cmd operation (extract : Packet → PacketWait R) answer tag ack timeout raw raw' p room d d' c :
  in_service (S room) d c → 1 ≤ length (Command_encode cmd) ≤ MAX_INNER_PAYLOAD →
  command_response_count (Command_encode cmd) d = Ok 2 →
  respond (Command_encode cmd) d = Ok ([raw; raw'], d') → Device_capacities d' = Device_capacities d →
  Packet_parse raw = Ok (Packet_MsgSent tag ack timeout) → Packet_parse raw' = Ok p → plain p →
  wait_arm operation extract p = Some answer → 0 < fuel →
  ∃ c', (_ ← send_command_expect_msg_sent_untracked fuel cmd; wait_for_packet fuel operation extract) c = answer c'
    ∧ in_service room d' c'.
Proof.
  intros Hc Hl Hn Hr Hcaps Hp Hp' Hplain Harm Hfuel. eexists. split; [|by eapply answered_in_service].
  unfold mbind at 1, io_bind at 1, send_command_expect_msg_sent_untracked, send_command_expect_msg_sent_inner.
  rewrite (exchange_first fuel cmd (msg_sent_arm false) _ raw [raw'] _ room d d' 2 c Hc Hl Hn ltac:(lia) ltac:(simpl; lia)
             Hr Hcaps Hp I eq_refl Hfuel).
  cbn [msg_sent_arm]. unfold mbind at 1, io_bind at 1. cbn [modify]. cbn. destruct fuel as [|fuel]; [lia|].
  unfold wait_for_packet. cbn [reply_loop]. unfold mbind at 1, io_bind at 1.
  rewrite (read_plain _ raw' [] p) by (try done; apply Hc). rewrite Harm. done.
Qed.
End exchange.

(** ** Answers *)

Lemma padded_name_valid name n :
  is_rstring name → no_nul name → name ≠ [] → 0 < n → valid_padded_name (name ++ replicate n 0%Z) = true.
Proof.
  intros Hr Hn Hne Hlt. unfold valid_padded_name.
  assert (position is_zero (name ++ replicate n 0%Z) = Some (length name)) as ->.
  { unfold is_zero. rewrite position_app_skip by (eapply Forall_impl; [exact Hn|]; simpl; intros; lia).
    destruct n; [lia|]. simpl. f_equal. lia. }
  rewrite drop_app_length, take_app_length.
  assert (0 <? length name = true) as -> by (apply Nat.ltb_lt; destruct name; simpl; [done|lia]).
  assert (forallb is_zero (replicate n 0%Z) = true) as -> by (clear; induction n; done).
  by destruct Hr.
Qed.

Lemma respond_code code payload :
  CommandCode_try_from (CommandCode_to_u8 code) = Ok code →
  command_of (Command_encode (mkCommand code payload)) = Some code.
Proof. intros Hc. unfold command_of, Command_encode. cbn [app Command_code]. by rewrite Hc. Qed.

Lemma channel_written i name secret cmd d :
  is_u8 i → length secret = 16 → length (Device_channels d) = DEFAULT_CHANNEL_CAPACITY → set_channel i name secret = Ok cmd →
  let d' := set_channels (<[Z.to_nat i := mkChannelSlot (name ++ replicate (32 - length name) 0%Z) secret]> (Device_channels d)) d in
  length (Command_encode cmd) = 50 ∧ command_response_count (Command_encode cmd) d = Ok 1 ∧
  respond (Command_encode cmd) d = Ok ([ok_packet], d') ∧
  respond (Command_encode (get_channel i)) d' = Ok ([[PacketCode_to_u8 PacketCode_ChannelInfo] ++ Command_payload cmd], d').
Proof.
  intros Hi Hs Hd Hc. apply set_channel_payload in Hc as (_ & Hl & _ & ->); [|done].
  assert (length (name ++ replicate (32 - length name) 0%Z) = 32) as Hnf by (autorewrite with mq_len; lia).
  set (field := name ++ _) in *. cbv zeta.
  assert (is_Some (Device_channels d !! Z.to_nat i)) as [slot Hslot].
  { apply lookup_lt_is_Some. rewrite Hd. unfold DEFAULT_CHANNEL_CAPACITY, is_u8 in *. lia. }
  split_and!.
  - unfold Command_encode. cbn [Command_code Command_payload]. seg_len. lia.
  - done.
  - unfold respond. rewrite respond_code by done. unfold on_set_channel, Command_encode. cbn [Command_code Command_payload].
    assert (length ([CommandCode_to_u8 CommandCode_SetChannel] ++ [i] ++ field ++ secret) =? 50 = true) as ->
      by (apply Nat.eqb_eq; seg_len; lia).
    cbn [negb]. repeat seg_skip. cbn [mbind outcome_bind]. repeat seg_skip. cbn [mbind outcome_bind]. by rewrite Hslot.
  - unfold respond. change (get_channel i) with (mkCommand CommandCode_GetChannel [i]). rewrite respond_code by done.
    cbn. unfold channel_info_packet. cbn. rewrite list_lookup_insert_eq by (by eapply lookup_lt_Some). done.
Qed.

Lemma scope_written name key cmd d :
  is_rstring name → length key = 16 → set_default_flood_scope name key = Ok cmd →
  let d' := set_default_scope (Some (name ++ replicate (31 - length name) 0%Z, key)) d in
  length (Command_encode cmd) = 48 ∧ command_response_count (Command_encode cmd) d = Ok 1 ∧
  respond (Command_encode cmd) d = Ok ([ok_packet], d') ∧
  respond (Command_encode get_default_flood_scope) d'
    = Ok ([[PacketCode_to_u8 PacketCode_DefaultFloodScope] ++ Command_payload cmd], d').
Proof.
  intros Hr Hk Hc. apply set_default_flood_scope_payload in Hc as (Hne & Hl & Hn & ->); [|done].
  assert (length (name ++ replicate (31 - length name) 0%Z) = 31) as Hnf by (autorewrite with mq_len; lia).
  assert (valid_padded_name (name ++ replicate (31 - length name) 0%Z) = true) as Hv by (apply padded_name_valid; [done..|lia]).
  set (field := name ++ _) in *. cbv zeta. split_and!; [|done| |done].
  - unfold Command_encode. cbn [Command_code Command_payload]. seg_len. lia.
  - unfold respond. rewrite respond_code by done. unfold on_set_default_flood_scope, Command_encode.
    cbn [Command_code Command_payload].
    assert (length ([CommandCode_to_u8 CommandCode_SetDefaultFloodScope] ++ field ++ key) = 48) as Hlen by (seg_len; lia).
    rewrite Hlen. cbn [Nat.eqb negb]. repeat seg_skip. cbn [mbind outcome_bind]. repeat seg_skip.
    cbn [mbind outcome_bind]. by rewrite Hv.
Qed.

Lemma time_written t d :
  is_uint 32 t → (Device_device_time_seconds d ≤ t)%Z →
  let d' := set_device_time_seconds t d in
  length (Command_encode (set_time t)) = 5 ∧ command_response_count (Command_encode (set_time t)) d = Ok 1 ∧
  respond (Command_encode (set_time t)) d = Ok ([ok_packet], d') ∧
  respond (Command_encode get_time) d' = Ok ([[PacketCode_to_u8 PacketCode_CurrentTime] ++ Command_payload (set_time t)], d').
Proof.
  intros Ht Hle. cbv zeta. split_and!; [done|done| |done].
  unfold respond. change (set_time t) with (mkCommand CommandCode_SetDeviceTime (u32_to_le_bytes t)).
  rewrite respond_code by done. unfold on_set_device_time, Command_encode. cbn [Command_code Command_payload].
  assert (length (u32_to_le_bytes t) = 4) as Hl by apply length_to_le_bytes.
  rewrite length_app, Hl. cbn [length Nat.add Nat.eqb negb]. repeat seg_skip. cbn [mbind outcome_bind].
  unfold u32_to_le_bytes. rewrite from_to_le_bytes by done. by rewrite (proj2 (Z.ltb_ge _ _) Hle).
Qed.

(** ** Contact rows *)

Lemma has_key_slice key row : slice (E:=VirtualCompanionError) row 1 33 = Ok key → has_key key row = true.
Proof.
  intros Hs. unfold has_key, get_range, slice in *. apply bool_decide_true.
  case_bool_decide; [|done]. congruence.
Qed.
Lemma has_key_other key key' row : has_key key row = true → key' ≠ key → has_key key' row = false.
Proof. unfold has_key. rewrite bool_decide_eq_true, bool_decide_eq_false. congruence. Qed.

Lemma find_changed key row rows :
  has_key key row = true → is_Some (List.find (has_key key) rows) →
  List.find (has_key key) (change_first (has_key key) (λ _, row) rows) = Some row.
Proof.
  intros Hrow. induction rows as [|r rows IH]; simpl; [by intros [? ?]|].
  destruct (has_key key r) eqn:Hr; intros Hsome; simpl; [by rewrite Hrow|]. rewrite Hr. auto.
Qed.
Lemma find_unchanged key key' row rows :
  has_key key row = true → key' ≠ key →
  List.find (has_key key') (change_first (has_key key) (λ _, row) rows) = List.find (has_key key') rows.
Proof.
  intros Hrow Hne. induction rows as [|r rows IH]; simpl; [done|]. destruct (has_key key r) eqn:Hr; simpl.
  - by rewrite (has_key_other key key' row), (has_key_other key key' r).
  - by rewrite IH.
Qed.
Lemma find_snoc (p : bytes → bool) rows row :
  List.find p (rows ++ [row]) = match List.find p rows with Some r => Some r | None => if p row then Some row else None end.
Proof. induction rows as [|r rows IH]; simpl; [done|]. by destruct (p r). Qed.

(** Whether the companion has room for a contact with this key. *)
Definition contact_fits (key : bytes) (d : Device) : Prop :=
  is_Some (find_row key d) ∨ length (Device_contact_rows d) < Capacities_contacts (Device_capacities d).

(** A row is found under its key afterwards, and the other contacts are as they were. *)
Lemma upserted key row d :
  slice (E:=VirtualCompanionError) row 1 33 = Ok key → contact_fits key d →
  ∃ rows, upsert_contact_row row d = Ok ([ok_packet], set_contact_rows rows d) ∧
    let d' := set_contact_rows rows d in
    find_row key d' = Some row ∧ ∀ key', key' ≠ key → find_row key' d' = find_row key' d.
Proof.
  intros Hs Hfits. pose proof (has_key_slice _ _ Hs) as Hk. unfold upsert_contact_row. rewrite Hs. cbn [mbind outcome_bind].
  unfold contact_fits, find_row in *. destruct (List.find (has_key key) (Device_contact_rows d)) as [r|] eqn:Hf.
  - eexists. split; [done|]. cbn. split; [apply find_changed; [done|rewrite Hf; eauto]|]. intros. by apply find_unchanged.
  - destruct Hfits as [[? ?]|Hlt]; [done|]. rewrite (proj2 (Nat.leb_gt _ _) Hlt). eexists. split; [done|]. cbn.
    split; [by rewrite find_snoc, Hf, Hk|]. intros key' Hne. rewrite find_snoc, (has_key_other key key' row Hk Hne).
    by destruct (List.find (has_key key') _).
Qed.

Lemma route_bytes_used route path : encodable_route route (mkPath path) →
  contact_path_bytes_used (route_descriptor route) = length path ∧ length path ≤ 64.
Proof.
  unfold contact_path_bytes_used. destruct route as [|m h]; simpl; [intros ->; simpl; lia|]. intros (?&?&Hl&?).
  destruct (descriptor_split m h) as [-> ->]; [lia|]. destruct (Z.eqb_spec (64 * m + h) 255); [lia|]. lia.
Qed.

(** The coordinates of [contact], as they are encoded, are on the globe. *)
Definition on_globe (contact : Contact) : Prop := ∀ lat lon,
  scaled_coordinate (Contact_adv_lat contact) (-90) 90 "latitude" = Ok lat →
  scaled_coordinate (Contact_adv_lon contact) (-180) 180 "longitude" = Ok lon → in_geographic_bounds lat lon = true.

Lemma contact_written contact cmd d :
  wf_Contact contact → wf_ContactRoute (Contact_route contact) → update_contact contact = Ok cmd → on_globe contact →
  length (Command_encode cmd) = 144 ∧ command_response_count (Command_encode cmd) d = Ok 1 ∧
  on_update_contact (Command_encode cmd) d = upsert_contact_row (contact_report cmd (Device_device_time_seconds d)) d ∧
  slice (E:=VirtualCompanionError) (contact_report cmd (Device_device_time_seconds d)) 1 33
    = Ok (PublicKey_0 (Contact_public_key contact)).
Proof.
  intros Hwf Hr Hu Hg. pose proof Hwf as ((_&Hk)&_&_&_&_&_&(Hs&Hn&_)&_).
  destruct (update_contact_payload contact cmd Hwf Hr Hu) as (lat&lon&Hlat&Hlon&Henc&Hne&Hl&->).
  pose proof (scaled_coordinate_post (Contact_adv_lat contact) (-90) 90 "latitude") as Hpl.
  pose proof (scaled_coordinate_post (Contact_adv_lon contact) (-180) 180 "longitude") as Hpo.
  rewrite Hlat in Hpl. rewrite Hlon in Hpo. specialize (Hg lat lon Hlat Hlon).
  destruct (route_bytes_used (Contact_route contact) (Path_bytes (Contact_out_path contact))) as [Hused Hp];
    [by destruct (Contact_out_path contact)|].
  assert (valid_padded_name (Contact_adv_name contact ++ replicate (32 - length (Contact_adv_name contact)) 0%Z) = true)
    as Hv by (apply padded_name_valid; [done..|lia]).
  assert (forallb is_zero (drop (length (Path_bytes (Contact_out_path contact)))
    (Path_bytes (Contact_out_path contact) ++ replicate (64 - length (Path_bytes (Contact_out_path contact))) 0%Z)) = true)
    as Hz by (rewrite drop_app_length; clear; induction (64 - _); done).
  assert (length (Path_bytes (Contact_out_path contact) ++ replicate (64 - length (Path_bytes (Contact_out_path contact))) 0%Z)
    = 64) as Hpf by (autorewrite with mq_len; lia).
  assert (length (Contact_adv_name contact ++ replicate (32 - length (Contact_adv_name contact)) 0%Z) = 32)
    as Hnf by (autorewrite with mq_len; lia).
  pose proof (length_to_le_bytes 4 (Contact_last_advert contact)) as Ha. fold (u32_to_le_bytes (Contact_last_advert contact)) in Ha.
  assert (length (i32_to_le_bytes lat) = 4) as Hla by apply length_to_le_bytes.
  assert (length (i32_to_le_bytes lon) = 4) as Hlo by apply length_to_le_bytes.
  set (path := Path_bytes _ ++ _) in *. set (name := Contact_adv_name contact ++ _) in *.
  unfold contact_report, Command_encode. cbn [Command_code Command_payload]. split_and!.
  - seg_len. lia.
  - done.
  - unfold on_update_contact. match goal with |- context [negb (?n =? 144)] => assert (n = 144) as -> by (seg_len; lia) end.
    cbn [Nat.eqb negb]. repeat seg_skip. cbn [mbind outcome_bind]. repeat seg_skip. cbn [mbind outcome_bind].
    repeat seg_skip. cbn [mbind outcome_bind]. rewrite Hused, Hz, Hv.
    rewrite (proj2 (Nat.ltb_ge CONTACT_FIXED_PATH_LEN _) Hp). cbn [negb orb]. repeat seg_skip. cbn [mbind outcome_bind].
    repeat seg_skip. cbn [mbind outcome_bind]. rewrite !i32_le_roundtrip by done. rewrite Hg. cbn [negb].
    repeat seg_skip. cbn [mbind outcome_bind]. done.
  - rewrite <- !app_assoc. by repeat seg_skip.
Qed.

(** ** What is set is read back *)

(** [set] succeeds, and [get] after it returns [v]; the companion's device is [d'] then. *)
Definition reads_back {R} (set : io VirtualCompanionState ()) (get : io VirtualCompanionState R) (v : R) (room : nat)
    (d' : Device) (c : Client VirtualCompanionState) : Prop :=
  ∃ c1 c2, set c = (Ret (), c1) ∧ get c1 = (Ret v, c2) ∧ in_service room d' c2.

(** A device as the companion keeps it. *)
Definition device_kept (d : Device) : Prop :=
  length (Device_channels d) = DEFAULT_CHANNEL_CAPACITY ∧ is_uint 32 (Device_device_time_seconds d).

Section remembers.
Context `{CratesLaws}.
Variables (fuel room : nat) (d : Device) (c : Client VirtualCompanionState).
Hypothesis Hfuel : 0 < fuel.
Hypothesis Hservice : in_service (S (S room)) d c.

Lemma set_and_get {R} set_cmd get_cmd context (extract : Packet → option R) v raw p d' :
  1 ≤ length (Command_encode set_cmd) ≤ MAX_INNER_PAYLOAD →
  command_response_count (Command_encode set_cmd) d = Ok 1 →
  respond (Command_encode set_cmd) d = Ok ([ok_packet], d') → Device_capacities d' = Device_capacities d →
  1 ≤ length (Command_encode get_cmd) ≤ MAX_INNER_PAYLOAD →
  command_response_count (Command_encode get_cmd) d' = Ok 1 →
  respond (Command_encode get_cmd) d' = Ok ([raw], d') → Packet_parse raw = Ok p → plain p → extract p = Some v →
  reads_back (expect_ok fuel (Ok set_cmd)) (send_command_expect fuel get_cmd context extract) v room d' c.
Proof.
  intros Hl Hn Hr Hcaps Hl' Hn' Hr' Hp Hplain He.
  destruct (exchange fuel set_cmd ok_arm (mret ()) ok_packet (Packet_Ok None) (S room) d d' 1 c) as (c1 & Hset & Hc1); auto;
    [by cbn|].
  destruct (exchange fuel get_cmd (expect_arm context extract) (mret v) raw p room d' d' 1 c1) as (c2 & Hget & Hc2); auto.
  { unfold expect_arm. by rewrite He. }
  exists c1, c2. auto.
Qed.

Lemma channel_kept i name secret cmd :
  is_u8 i → is_rstring name → is_arr 16 secret → device_kept d → set_channel i name secret = Ok cmd →
  reads_back (client_set_channel fuel i name secret) (client_get_channel fuel i)
    (ChannelInfo_with_secret i name (Some secret)) room
    (set_channels (<[Z.to_nat i := mkChannelSlot (name ++ replicate (32 - length name) 0%Z) secret]> (Device_channels d)) d) c.
Proof.
  intros Hi Hn Hs [Hch _] Hc. pose proof (set_channel_roundtrip i name secret cmd Hi Hn Hs Hc) as Hp.
  destruct (channel_written i name secret cmd d Hi (proj2 Hs) Hch Hc) as (Hl & Hcount & Hr & Hr').
  unfold client_set_channel. rewrite Hc. eapply set_and_get; eauto; unfold MAX_INNER_PAYLOAD; [lia|simpl; lia|done].
Qed.

Lemma scope_kept name key cmd :
  is_rstring name → is_arr 16 key → set_default_flood_scope name key = Ok cmd →
  reads_back (client_set_default_flood_scope fuel name key) (client_get_default_flood_scope fuel)
    (DefaultFloodScope_Configured (Scope_new (Some name) key)) room
    (set_default_scope (Some (name ++ replicate (31 - length name) 0%Z, key)) d) c.
Proof.
  intros Hn Hk Hc. destruct (default_flood_scope_roundtrip name key cmd Hn Hk Hc) as [Hp _].
  destruct (scope_written name key cmd d Hn (proj2 Hk) Hc) as (Hl & Hcount & Hr & Hr').
  unfold client_set_default_flood_scope. rewrite Hc. eapply set_and_get; eauto; unfold MAX_INNER_PAYLOAD; [lia|simpl; lia|done].
Qed.

Lemma time_kept t :
  is_uint 32 t → (Device_device_time_seconds d ≤ t)%Z →
  reads_back (client_set_time fuel t) (client_get_time fuel) t room (set_device_time_seconds t d) c.
Proof.
  intros Ht Hle. destruct (time_written t d Ht Hle) as (Hl & Hcount & Hr & Hr').
  change (client_set_time fuel t) with (expect_ok (T:=VirtualCompanionState) fuel (Ok (set_time t))).
  eapply set_and_get with (p := Packet_CurrentTime t); eauto; unfold MAX_INNER_PAYLOAD; [lia|simpl; lia| |done].
  by apply time_echo.
Qed.

Lemma contact_kept contact cmd :
  wf_Contact contact → wf_ContactRoute (Contact_route contact) → update_contact contact = Ok cmd → on_globe contact →
  device_kept d → contact_fits (PublicKey_0 (Contact_public_key contact)) d →
  ∃ lat lon rows,
    scaled_coordinate (Contact_adv_lat contact) (-90) 90 "latitude" = Ok lat ∧
    scaled_coordinate (Contact_adv_lon contact) (-180) 180 "longitude" = Ok lon ∧
    reads_back (client_update_contact fuel contact) (client_get_contact fuel (PublicKey_0 (Contact_public_key contact)))
      (stored_contact contact lat lon (Device_device_time_seconds d)) room (set_contact_rows rows d) c ∧
    ∀ key', key' ≠ PublicKey_0 (Contact_public_key contact) → find_row key' (set_contact_rows rows d) = find_row key' d.
Proof.
  intros Hwf Hroute Hu Hg [_ Ht] Hfits.
  destruct (parse_contact_report contact cmd _ Hwf Hroute Ht Hu) as (lat & lon & Hlat & Hlon & Hp & Hlen).
  destruct (contact_written contact cmd d Hwf Hroute Hu Hg) as (Hl & Hcount & Hr & Hkey).
  destruct (upserted _ _ d Hkey Hfits) as (rows & Hup & Hfind & Hother).
  exists lat, lon, rows. split_and!; [done..| |exact Hother].
  assert (respond (Command_encode cmd) d = on_update_contact (Command_encode cmd) d) as Hresp.
  { destruct (update_contact_payload contact cmd Hwf Hroute Hu) as (?&?&_&_&_&_&_&->). unfold respond. by rewrite respond_code. }
  destruct Hwf as ((_ & Hk) & _).
  assert (get_contact (PublicKey_0 (Contact_public_key contact))
    = Ok (mkCommand CommandCode_GetContactByKey (PublicKey_0 (Contact_public_key contact)))) as Hget.
  { unfold get_contact, command_with_key. rewrite Hk. cbn [Nat.eqb negb app]. rewrite checked_spec; [done|lia]. }
  unfold client_update_contact, client_get_contact. rewrite Hu, Hget.
  eapply set_and_get with (p := Packet_Contact (stored_contact contact lat lon (Device_device_time_seconds d)));
    unfold MAX_INNER_PAYLOAD; [lia|done|by rewrite Hresp, Hr|done|simpl; lia|done| | |done|done].
  - unfold respond. rewrite respond_code by done. unfold on_get_contact_by_key, Command_encode. cbn [Command_code Command_payload].
    rewrite length_app, Hk. cbn [length Nat.add Nat.eqb negb]. repeat seg_skip. cbn [mbind outcome_bind]. by rewrite Hfind.
  - rewrite <- Hp. parse_as parse_contact. lia.
Qed.
End remembers.

(** ** Remote sessions *)

(** The session the companion opens on the node with this key. *)
Definition demo_session (key : bytes) : LoginSession :=
  mkLoginSession DEFAULT_REMOTE_SESSION_PERMISSIONS (take 6 key) (Some DEFAULT_REMOTE_SESSION_CLOCK)
    (Some DEFAULT_REMOTE_SESSION_ACL_PERMISSIONS) (Some DEFAULT_REMOTE_SESSION_FIRMWARE_LEVEL).
Definition login_granted (key : bytes) (password : rstring) (d : Device) : bool :=
  bool_decide (password = str_bytes DEFAULT_REMOTE_PASSWORD) && session_fits key d.
Definition session_open (key : bytes) (d : Device) : bool := bool_decide (key ∈ Device_remote_sessions d).
Definition after_login (key : bytes) (password : rstring) (d : Device) : Device :=
  if login_granted key password d then set_remote_sessions ({[key]} ∪ Device_remote_sessions d) d else d.
Definition after_logout (key : bytes) (d : Device) : Device :=
  if session_open key d then set_remote_sessions (Device_remote_sessions d ∖ {[key]}) d else d.

(** The key of a command is what follows its code. *)
Lemma read_key_of code key rest : length key = 32 → read_key (Command_encode (mkCommand code (key ++ rest))) = key.
Proof.
  intros Hk. unfold read_key, parse_key, Command_encode. cbn [Command_code Command_payload app].
  rewrite (proj2 (Nat.ltb_ge _ _)) by (simpl; rewrite length_app; lia).
  change (take 32 (key ++ rest) = key). by rewrite take_app_length'.
Qed.
Lemma read_key_alone code key : length key = 32 → read_key (Command_encode (mkCommand code key)) = key.
Proof. intros Hk. rewrite <- (app_nil_r key) at 1. by apply read_key_of. Qed.
Lemma checked_inv code payload cmd :
  checked code payload = Ok cmd → cmd = mkCommand code payload ∧ length payload ≤ 175.
Proof.
  intros Hc. destruct (decide (length payload ≤ 175)) as [Hl|Hl].
  - rewrite checked_spec in Hc by done. by injection Hc as <-.
  - destruct (checked_too_long code payload) as [? He]; [lia|]. by rewrite He in Hc.
Qed.
Lemma take_prefix (key : bytes) : length key = 32 → length (take 6 key) = 6.
Proof. intros Hk. rewrite length_take. lia. Qed.
Lemma key_command code key : length key = 32 → command_with_key code key [] = Ok (mkCommand code key).
Proof. intros Hk. unfold command_with_key. rewrite Hk. cbn [Nat.eqb negb app]. rewrite checked_spec; [done|lia]. Qed.
Lemma key_command_length code key : length key = 32 → length (Command_encode (mkCommand code key)) = 33.
Proof. intros Hk. unfold Command_encode. cbn [Command_code Command_payload]. rewrite length_app, Hk. done. Qed.

Section sessions.
Context `{CratesLaws}.
Variables (fuel : nat) (key : bytes).
Hypothesis Hfuel : 0 < fuel.
Hypothesis Hkey : length key = 32.

Lemma login_packets_parse :
  Packet_parse (login_success_packet (take 6 key)) = Ok (Packet_LoginSuccess (demo_session key)) ∧
  Packet_parse (login_failed_packet (take 6 key)) = Ok (Packet_LoginFailed (take 6 key)).
Proof.
  pose proof (take_prefix key Hkey) as Hp. unfold demo_session. set (prefix := take 6 key) in *. clearbody prefix.
  do 7 (destruct prefix as [|? prefix]; try done).
Qed.

Lemma login_answered room d c password cmd :
  in_service (S room) d c → send_login key password = Ok cmd →
  ∃ c', login fuel key password c
          = (if login_granted key password d then Ret (demo_session key) else Throw CoreError_AuthenticationFailed, c') ∧
    in_service room (after_login key password d) c'.
Proof.
  intros Hc Hs. unfold login, key_prefix. rewrite Hs, Hkey. cbn [Nat.eqb negb].
  rewrite slice_ok by lia. rewrite !lift_ok_bind. change (take (6 - 0) (drop 0 key)) with (take 6 key).
  match goal with |- context [wait_for_packet _ _ ?e] => set (extract := e) end.
  assert (cmd = mkCommand CommandCode_SendLogin (key ++ password) ∧ length password ≤ 143) as [-> Hpw].
  { revert Hs. unfold send_login, command_with_key_suffix. destruct (reject_nul _ _); [|done|done]. cbn [mbind outcome_bind].
    rewrite Hkey. cbn [Nat.eqb negb]. intros Hs. apply checked_inv in Hs as [-> Hl]. rewrite length_app in Hl. split; [done|lia]. }
  assert (33 ≤ length (Command_encode (mkCommand CommandCode_SendLogin (key ++ password))) ≤ MAX_INNER_PAYLOAD) as Hl.
  { unfold Command_encode, MAX_INNER_PAYLOAD. cbn [Command_code Command_payload]. rewrite !length_app, Hkey. simpl. lia. }
  destruct login_packets_parse as [Hok Hbad].
  assert (respond (Command_encode (mkCommand CommandCode_SendLogin (key ++ password))) d
    = sent_then (if login_granted key password d then login_success_packet (take 6 key) else login_failed_packet (take 6 key))
        (after_login key password d)) as Hr.
  { unfold respond. rewrite respond_code by done. unfold on_send_login. rewrite (proj2 (Nat.ltb_ge _ _)) by lia.
    rewrite read_key_of by done. unfold Command_encode at 1. cbn [Command_code Command_payload].
    repeat seg_skip. cbn [mbind outcome_bind]. unfold after_login. fold (login_granted key password d). by destruct (login_granted _ _ _). }
  assert (command_response_count (Command_encode (mkCommand CommandCode_SendLogin (key ++ password))) d = Ok 2) as Hn.
  { unfold command_response_count. rewrite respond_code by done. by rewrite (proj2 (Nat.leb_le _ _)) by lia. }
  assert (Device_capacities (after_login key password d) = Device_capacities d) as Hcaps
    by (unfold after_login; by destruct (login_granted _ _ _)).
  assert (1 ≤ length (Command_encode (mkCommand CommandCode_SendLogin (key ++ password))) ≤ MAX_INNER_PAYLOAD) as Hl1 by lia.
  assert (wait_arm (T:=VirtualCompanionState) "remote login" extract (Packet_LoginSuccess (demo_session key)) = Some (mret (demo_session key))) as Harm
    by (unfold wait_arm, extract; by rewrite bool_decide_true).
  assert (wait_arm (T:=VirtualCompanionState) "remote login" extract (Packet_LoginFailed (take 6 key)) = Some (throw CoreError_AuthenticationFailed)) as Harm'
    by (unfold wait_arm, extract; by rewrite bool_decide_true).
  destruct (login_granted key password d).
  - destruct (exchange_then fuel _ "remote login" extract (mret (demo_session key)) _ _ _ _ _ _ room d _ c Hc Hl1 Hn Hr
      Hcaps eq_refl Hok I Harm Hfuel) as (c' & Hrun & Hc'). by exists c'.
  - destruct (exchange_then fuel _ "remote login" extract (throw CoreError_AuthenticationFailed) _ _ _ _ _ _ room d _ c Hc
      Hl1 Hn Hr Hcaps eq_refl Hbad I Harm' Hfuel) as (c' & Hrun & Hc'). by exists c'.
Qed.

Lemma connection_answered room d c : in_service (S room) d c →
  ∃ c', client_has_connection fuel key c = (Ret (session_open key d), c') ∧ in_service room d c'.
Proof.
  intros Hc. unfold client_has_connection, has_connection. rewrite key_command by done.
  match goal with |- context [reply_loop _ ?a] => set (arm := a) end.
  assert (∀ cmd, (_ ← ensure_connected; command ← lift (Ok cmd); _ ← send_raw (Command_into_encoded command);
    reply_loop fuel arm) c = request fuel cmd arm c) as -> by done.
  assert (respond (Command_encode (mkCommand CommandCode_HasConnection key)) d
    = Ok ([if session_open key d then ok_packet else error_packet_with_code 2], d)) as Hr.
  { unfold respond. rewrite respond_code by done. unfold on_has_connection. rewrite key_command_length by done.
    cbn [Nat.eqb negb]. rewrite read_key_alone by done. fold (session_open key d).
    by destruct (session_open key d). }
  pose proof (key_command_length CommandCode_HasConnection key Hkey) as Hl.
  assert (1 ≤ length (Command_encode (mkCommand CommandCode_HasConnection key)) ≤ MAX_INNER_PAYLOAD) as Hl1
    by (rewrite Hl; unfold MAX_INNER_PAYLOAD; lia).
  destruct (exchange fuel _ arm (mret (session_open key d)) _
    (if session_open key d then Packet_Ok None else Packet_Error (Some 2%Z)) room d d 1 c Hc Hl1 eq_refl ltac:(lia) Hr eq_refl)
    as (c' & Hrun & Hc'); [by destruct (session_open key d)..|done|]. by exists c'.
Qed.

Lemma logout_answered room d c : in_service (S room) d c →
  ∃ c', client_logout fuel key c
          = (if session_open key d then Ret () else Throw (CoreError_DeviceRejected "command" (Some 2%Z)), c') ∧
    in_service room (after_logout key d) c'.
Proof.
  intros Hc. unfold client_logout, logout. rewrite key_command by done.
  change (expect_ok fuel (Ok ?cmd) c) with (request fuel cmd ok_arm c).
  assert (respond (Command_encode (mkCommand CommandCode_Logout key)) d
    = Ok ([if session_open key d then ok_packet else error_packet_with_code 2], after_logout key d)) as Hr.
  { unfold respond. rewrite respond_code by done. unfold on_logout. rewrite key_command_length by done.
    cbn [Nat.eqb negb]. rewrite read_key_alone by done. unfold after_logout.
    fold (session_open key d). by destruct (session_open key d). }
  pose proof (key_command_length CommandCode_Logout key Hkey) as Hl.
  assert (Device_capacities (after_logout key d) = Device_capacities d) as Hcaps
    by (unfold after_logout; by destruct (session_open _ _)).
  assert (1 ≤ length (Command_encode (mkCommand CommandCode_Logout key)) ≤ MAX_INNER_PAYLOAD) as Hl1
    by (rewrite Hl; unfold MAX_INNER_PAYLOAD; lia).
  destruct (exchange fuel _ ok_arm
    (if session_open key d then mret () else throw (CoreError_DeviceRejected "command" (Some 2%Z))) _
    (if session_open key d then Packet_Ok None else Packet_Error (Some 2%Z)) room d (after_logout key d) 1 c Hc Hl1 eq_refl
    ltac:(lia) Hr Hcaps) as (c' & Hrun & Hc'); [by destruct (session_open key d)..|done|]. exists c'.
  split; [|done]. rewrite Hrun. by destruct (session_open key d).
Qed.
End sessions.

Lemma logged_in key password d :
  session_open key (after_login key password d) = login_granted key password d || session_open key d.
Proof.
  unfold after_login, session_open. destruct (login_granted key password d); [|done]. cbn. apply bool_decide_true. set_solver.
Qed.
Lemma logged_out key password d :
  let d' := after_logout key (after_login key password d) in
  session_open key d' = false ∧ Device_remote_sessions d' = Device_remote_sessions d ∖ {[key]}.
Proof.
  cbv zeta. unfold after_logout. rewrite logged_in. unfold after_login, session_open.
  destruct (login_granted key password d); cbn.
  - split; [apply bool_decide_false; set_solver|]. apply leibniz_equiv. set_solver.
  - destruct (decide (key ∈ Device_remote_sessions d)) as [Hin|Hin];
      [rewrite !(bool_decide_true (key ∈ Device_remote_sessions d)) by done
      |rewrite !(bool_decide_false (key ∈ Device_remote_sessions d)) by done]; cbn;
      (split; [try done; apply bool_decide_false; set_solver|]); apply leibniz_equiv; set_solver.
Qed.

(** ** The companion and a client *)

(** C18: what a client sets on the companion, the next query of the client reads back,
    through the encoders, the companion's handlers, the transport and the parsers: a
    channel, the default scope, the clock when it does not run backwards, and a
    contact, whose coordinates are the encoded millionths of a degree and whose
    modification time is the companion's; nothing else of the device changes, and the
    other contacts are found as before.  A login is granted for the right password
    while there is room, a query tells whether the session is open, and a logout
    closes it. *)
Theorem companion_remembers `{CratesLaws} fuel room d c :
  0 < fuel → device_kept d → in_service (4 + room) d c →
  (∀ i name secret cmd, is_u8 i → is_rstring name → is_arr 16 secret → set_channel i name secret = Ok cmd →
     reads_back (client_set_channel fuel i name secret) (client_get_channel fuel i)
       (ChannelInfo_with_secret i name (Some secret)) (2 + room)
       (set_channels (<[Z.to_nat i := mkChannelSlot (name ++ replicate (32 - length name) 0%Z) secret]> (Device_channels d)) d)
       c) ∧
  (∀ name key cmd, is_rstring name → is_arr 16 key → set_default_flood_scope name key = Ok cmd →
     reads_back (client_set_default_flood_scope fuel name key) (client_get_default_flood_scope fuel)
       (DefaultFloodScope_Configured (Scope_new (Some name) key)) (2 + room)
       (set_default_scope (Some (name ++ replicate (31 - length name) 0%Z, key)) d) c) ∧
  (∀ t, is_uint 32 t → (Device_device_time_seconds d ≤ t)%Z →
     reads_back (client_set_time fuel t) (client_get_time fuel) t (2 + room) (set_device_time_seconds t d) c) ∧
  (∀ contact cmd, wf_Contact contact → wf_ContactRoute (Contact_route contact) → update_contact contact = Ok cmd →
     on_globe contact → contact_fits (PublicKey_0 (Contact_public_key contact)) d →
     ∃ lat lon rows,
       scaled_coordinate (Contact_adv_lat contact) (-90) 90 "latitude" = Ok lat ∧
       scaled_coordinate (Contact_adv_lon contact) (-180) 180 "longitude" = Ok lon ∧
       reads_back (client_update_contact fuel contact)
         (client_get_contact fuel (PublicKey_0 (Contact_public_key contact)))
         (stored_contact contact lat lon (Device_device_time_seconds d)) (2 + room) (set_contact_rows rows d) c ∧
       ∀ key', key' ≠ PublicKey_0 (Contact_public_key contact) →
         find_row key' (set_contact_rows rows d) = find_row key' d) ∧
  (∀ key password cmd, length key = 32 → send_login key password = Ok cmd →
     let granted := login_granted key password d in
     let open := granted || session_open key d in
     ∃ c1 c2 c3 c4,
       login fuel key password c = (if granted then Ret (demo_session key) else Throw CoreError_AuthenticationFailed, c1) ∧
       client_has_connection fuel key c1 = (Ret open, c2) ∧
       client_logout fuel key c2 = (if open then Ret () else Throw (CoreError_DeviceRejected "command" (Some 2%Z)), c3) ∧
       client_has_connection fuel key c3 = (Ret false, c4) ∧
       ∃ d', in_service room d' c4 ∧ Device_remote_sessions d' = Device_remote_sessions d ∖ {[key]}).
Proof.
  intros Hfuel Hd Hc. split_and!.
  - intros. by eapply channel_kept.
  - intros. by eapply scope_kept.
  - intros. by apply time_kept.
  - intros. by eapply contact_kept.
  - intros key password cmd Hk Hs. cbv zeta.
    destruct (login_answered fuel key Hfuel Hk _ d c password cmd Hc Hs) as (c1 & Hlogin & Hc1).
    destruct (connection_answered fuel key Hfuel Hk _ _ c1 Hc1) as (c2 & Hcheck & Hc2).
    destruct (logout_answered fuel key Hfuel Hk _ _ c2 Hc2) as (c3 & Hlogout & Hc3).
    destruct (connection_answered fuel key Hfuel Hk _ _ c3 Hc3) as (c4 & Hcheck' & Hc4).
    rewrite logged_in in Hcheck, Hlogout. destruct (logged_out key password d) as [Hclosed Hsessions].
    rewrite Hclosed in Hcheck'. exists c1, c2, c3, c4. split_and!; try done. by eexists.
Qed.

(** A client that has connected to a fresh companion. *)
Definition demo_link : Client VirtualCompanionState := (connect 3 (Client_new VirtualCompanion_new)).2.
Definition demo_device : Device := Device_new VirtualCompanionCapacities_default.

Lemma demo_link_serves : in_service 4 demo_device demo_link.
Proof.
  repeat split; try by vm_compute.
  - change (length (Virtual_outbound (Client_transport demo_link))) with 1. simpl. unfold DEFAULT_OUTBOUND_QUEUE_CAPACITY. lia.
  - simpl. unfold DEFAULT_INBOUND_QUEUE_CAPACITY. lia.
Defined.

Lemma companion_remembers_witness :
  reads_back (client_set_channel 3 3 (str_bytes "ops") (replicate 16 9%Z)) (client_get_channel 3 3)
    (ChannelInfo_with_secret 3 (str_bytes "ops") (Some (replicate 16 9%Z))) 2
    (set_channels (<[3 := mkChannelSlot (str_bytes "ops" ++ replicate 29 0%Z) (replicate 16 9%Z)]> (Device_channels demo_device))
       demo_device) demo_link ∧
  (∃ lat lon rows,
     scaled_coordinate (f64_of_Z 45) (-90) 90 "latitude" = Ok lat ∧
     scaled_coordinate (f64_of_Z (-120)) (-180) 180 "longitude" = Ok lon ∧
     reads_back (client_update_contact 3 sample_contact) (client_get_contact 3 (replicate 32 7%Z))
       (stored_contact sample_contact lat lon DEFAULT_DEVICE_TIME_SECONDS) 2 (set_contact_rows rows demo_device) demo_link) ∧
  (∃ c1, login 3 (replicate 32 7%Z) (str_bytes "meshquill-demo") demo_link = (Ret (demo_session (replicate 32 7%Z)), c1)).
Proof.
  assert (device_kept demo_device) as Hd by (split; [by vm_compute|]; unfold is_uint; by vm_compute).
  destruct (companion_remembers 3 0 demo_device demo_link ltac:(lia) Hd demo_link_serves) as (Hch & _ & _ & Hco & Hse).
  split_and!.
  - apply (Hch 3%Z (str_bytes "ops") (replicate 16 9%Z) sample_channel); [unfold is_u8; lia|decide_goal|split; [decide_goal|done]|].
    by vm_compute.
  - destruct (Hco sample_contact sample_update sample_contact_wf) as (lat & lon & rows & Hlat & Hlon & Hkept & _);
      [simpl; unfold is_u8; lia|vm_compute; reflexivity| |right; change (0 < 16); lia|exists lat, lon, rows; auto].
    intros lat lon Hlat Hlon. vm_compute in Hlat, Hlon. by injection Hlat as <-; injection Hlon as <-.
  - destruct (Hse (replicate 32 7%Z) (str_bytes "meshquill-demo")
      (mkCommand CommandCode_SendLogin (replicate 32 7%Z ++ str_bytes "meshquill-demo")))
      as (c1 & _ & _ & _ & Hlogin & _); [done|by vm_compute|]. exists c1. exact Hlogin.
Defined.
