(* ===== verification/CliTransport.v ===== *)
(** * Command line: transports and the client behind a command (crates/meshquill-cli/src/transport.rs)

    [CliTransport] picks the transport of a profile and delegates to it.  It is written
    over the type of the companion of the mock profiles; [demo_companion] is what the
    code seeds, the virtual companion of [VirtualCompanion].  The class
    [Companion] the commands are written against is implemented by the client of
    [Client] over such a transport, one command at a time. *)

From S2P Require Import Prelude Text Order Floats Domain Packet Framing Transport Discovery Framed Serial Ble Client.
From S2P Require Import Managed Hooks HookRuntime Store History Paths MqttConfig Config CliOutput CliArgs Suggest.
From S2P Require Import Resolve Session CliConfig ProfileProps Workflow Send Watch VirtualCompanion VirtualBounds.

(** ** Construction *)

Inductive CliTransport (B V : Type) :=
| CliTransport_Ble (transport : BleTransport B)
| CliTransport_Serial (transport : SerialTransport)
| CliTransport_Tcp (transport : TcpTransport)
| CliTransport_VirtualCompanion (transport : V).
Arguments CliTransport_Ble {B V} _.
Arguments CliTransport_Serial {B V} _.
Arguments CliTransport_Tcp {B V} _.
Arguments CliTransport_VirtualCompanion {B V} _.

Inductive CliTransportBuildError :=
| Build_InvalidTransportConfig (transport message : string)
| Build_UnknownMockScenario (scenario : rstring)
| Build_MockFixture (error : string).

(** [From<CliTransportBuildError> for CliError]. *)
Definition cli_of_build (error : CliTransportBuildError) : CliError :=
  match error with
  | Build_UnknownMockScenario scenario =>
      with_hint (CliError_new Exit_Configuration ("unknown explicit mock scenario '" +:+ bytes_str scenario +:+ "'"))
        "Use scenario `demo`, `ack-timeout`, `reconnect-demo`, `reconnect-fail`, or `send-disconnect`."
  | Build_InvalidTransportConfig transport message =>
      CliError_new Exit_Configuration ("invalid " +:+ transport +:+ " profile: " +:+ message)
  | Build_MockFixture _ =>
      CliError_new Exit_Protocol "the deterministic demo fixture could not be prepared"
  end.

(** The scenarios of a mock profile. *)
Inductive Scenario := Demo | AckTimeout | ReconnectDemo | ReconnectFail | SendDisconnect.
Definition parse_scenario (scenario : rstring) : option Scenario :=
  if bool_decide (scenario = str_bytes "demo") then Some Demo
  else if bool_decide (scenario = str_bytes "reconnect-demo") then Some ReconnectDemo
  else if bool_decide (scenario = str_bytes "reconnect-fail") then Some ReconnectFail
  else if bool_decide (scenario = str_bytes "send-disconnect") then Some SendDisconnect
  else if bool_decide (scenario = str_bytes "ack-timeout") then Some AckTimeout
  else None.

(** The virtual companion of a scenario, as it is seeded. *)
Definition DEMO_CONTACT_KEY : bytes := replicate 32 0x22%Z.
Definition RECONNECT_DEMO_MESSAGE : rstring := str_bytes "Live direct message after deterministic reconnect".
Definition demo_contact : ContactFixture :=
  mkContactFixture DEMO_CONTACT_KEY 0 255 [] (str_bytes "Alice") 1
    (f64_div (f64_of_Z (-349285)) (f64_of_Z 10000)) (f64_div (f64_of_Z 1386007) (f64_of_Z 10000)) 1.
Definition demo_companion (scenario : Scenario) : outcome VirtualCompanionError VirtualCompanionState :=
  let emit_send_txt_ack := match scenario with AckTimeout => false | _ => true end in
  let s := with_capacities (mkCapacities 256 128 4 4) in
  row ← make_contact_row demo_contact;
  s ← set_contacts [row] s;
  let s := set_remote_session DEMO_CONTACT_KEY true s in
  message ← make_direct_message_packet 255 (str_bytes "Demo direct packet for deterministic CLI tests");
  s ← push_sync_message message s;
  let s := configure_send_txt_ack [0x12; 0x34; 0x56; 0x78]%Z 1000 emit_send_txt_ack s in
  match scenario with
  | ReconnectDemo =>
      let s := fail_next_reconnects 2 (disconnect_on_next_idle_read s) in
      packet ← make_direct_message_packet 255 RECONNECT_DEMO_MESSAGE;
      set_next_reconnect_push packet s
  | ReconnectFail => Ok (fail_next_reconnects DEVICE_RECONNECT_ATTEMPTS (disconnect_on_next_idle_read s))
  | SendDisconnect => Ok (disconnect_before_next_direct_send s)
  | AckTimeout => Ok (set_idle_read_mode Idle_Pending s)
  | Demo => Ok s
  end.
Definition demo_fixture (scenario : Scenario) : outcome string VirtualCompanionState :=
  map_err display_VirtualCompanionError (demo_companion scenario).

(** What the providers will do: the radio, the connections and the ports; and the
    fixture of a scenario. *)
Record Links (B V : Type) := mkLinks {
  Links_ble : ble_world B;
  Links_connects : list connect_fate;
  Links_opens : list open_fate;
  Links_shutdowns : list shutdown_fate;
  Links_fixture : Scenario → outcome string V
}.
Arguments Links_ble {B V} _.
Arguments Links_connects {B V} _.
Arguments Links_opens {B V} _.
Arguments Links_shutdowns {B V} _.
Arguments Links_fixture {B V} _.

Section transport.
Context {B : Type} `{BleProvider B} {V : Type} `{Transport V}.

Definition invalid_transport {A} (transport : string) (m : outcome TargetError A) :
    outcome CliTransportBuildError A :=
  map_err (λ error, Build_InvalidTransportConfig transport (display_TargetError error)) m.

Definition seeded_virtual_companion (links : Links B V) (scenario : rstring) : outcome CliTransportBuildError V :=
  kind ← ok_or (parse_scenario scenario) (Build_UnknownMockScenario scenario);
  map_err Build_MockFixture (Links_fixture links kind).

Definition from_profile (links : Links B V) (profile : DeviceProfile) (connect_timeout : Z) :
    outcome CliTransportBuildError (CliTransport B V) :=
  match DeviceProfile_transport profile with
  | Transport_Ble id _ =>
      t ← invalid_transport "ble" (BleTransport_new (bytes_str id) connect_timeout (Links_ble links));
      Ok (CliTransport_Ble t)
  | Transport_Serial port baud =>
      t ← invalid_transport "serial"
            (SerialTransport_new (bytes_str port) baud connect_timeout (Links_opens links) (Links_shutdowns links));
      Ok (CliTransport_Serial t)
  | Transport_Tcp host port =>
      t ← invalid_transport "tcp"
            (TcpTransport_new (bytes_str host) port connect_timeout (Links_connects links) (Links_shutdowns links));
      Ok (CliTransport_Tcp t)
  | Transport_Mock scenario =>
      t ← seeded_virtual_companion links scenario; Ok (CliTransport_VirtualCompanion t)
  end.

(** ** Delegation *)

Definition through {A} (mb : BleTransport B → A * BleTransport B) (ms : SerialTransport → A * SerialTransport)
    (mt : TcpTransport → A * TcpTransport) (mv : V → A * V) (t : CliTransport B V) : A * CliTransport B V :=
  match t with
  | CliTransport_Ble t => let '(a, t) := mb t in (a, CliTransport_Ble t)
  | CliTransport_Serial t => let '(a, t) := ms t in (a, CliTransport_Serial t)
  | CliTransport_Tcp t => let '(a, t) := mt t in (a, CliTransport_Tcp t)
  | CliTransport_VirtualCompanion t => let '(a, t) := mv t in (a, CliTransport_VirtualCompanion t)
  end.

#[global] Instance Cli_transport : Transport (CliTransport B V) := {
  transport_kind t :=
    match t with
    | CliTransport_Ble t => transport_kind t
    | CliTransport_Serial t => transport_kind t
    | CliTransport_Tcp t => transport_kind t
    | CliTransport_VirtualCompanion t => transport_kind t
    end;
  transport_connect := through transport_connect transport_connect transport_connect transport_connect;
  transport_disconnect :=
    through transport_disconnect transport_disconnect transport_disconnect transport_disconnect;
  transport_write t payload :=
    through (λ t, transport_write t payload) (λ t, transport_write t payload) (λ t, transport_write t payload)
      (λ t, transport_write t payload) t;
  transport_read := through transport_read transport_read transport_read transport_read;
  transport_try_read := through transport_try_read transport_try_read transport_try_read transport_try_read;
  transport_reconnect := through transport_reconnect transport_reconnect transport_reconnect transport_reconnect
}.

(** ** The client of a command *)

(** [make_client]: the bounded client over the transport of the profile. *)
Definition open_client (links : Links B V) (profile : DeviceProfile) (connect_timeout request_timeout : Z) :
    outcome CliError (Client (CliTransport B V)) :=
  transport ← map_err cli_of_build (from_profile links profile connect_timeout);
  map_err cli_of_core (with_timeout transport request_timeout).

(** The world of a command: the providers, the client once it is made, and what the
    host gives: interrupts, the clock, identifiers and processes for hooks.  A
    stopped actor answers nothing any more. *)
Record Running := mkRunning {
  Running_links : Links B V;
  Running_client : option (Client (CliTransport B V));
  Running_stopped : bool;
  Running_seen : nat;                (* events received so far *)
  Running_interrupts : list bool;
  Running_handler_failed : bool;
  Running_clocks : list (option Z);
  Running_uuids : list Uuid;
  Running_os : list os_run;
  Running_fuel : nat
}.

Definition with_client (client : option (Client (CliTransport B V))) (stopped : bool) (w : Running) : Running :=
  mkRunning (Running_links w) client stopped (Running_seen w) (Running_interrupts w) (Running_handler_failed w)
    (Running_clocks w) (Running_uuids w) (Running_os w) (Running_fuel w).
Definition with_interrupts (interrupts : list bool) (w : Running) : Running :=
  mkRunning (Running_links w) (Running_client w) (Running_stopped w) (Running_seen w) interrupts (Running_handler_failed w)
    (Running_clocks w) (Running_uuids w) (Running_os w) (Running_fuel w).

Definition with_seen (seen : nat) (w : Running) : Running :=
  mkRunning (Running_links w) (Running_client w) (Running_stopped w) seen (Running_interrupts w)
    (Running_handler_failed w) (Running_clocks w) (Running_uuids w) (Running_os w) (Running_fuel w).

Context `{Crates}.

(** [request]: one command handled by the actor; when it leaves no answer, the actor
    has stopped. *)
Definition run_request {A} (command : ActorCommand A) (w : Running) : (CoreError + A) * Running :=
  match Running_client w with
  | Some client =>
      if Running_stopped w then (inl CoreError_ActorStopped, w)
      else
        let now := default 0%Z (default None (head (Running_clocks w))) in
        let '(r, client) := handle_command (Running_fuel w) now command client in
        let w := with_client (Some client) (negb (stays_running command)) w in
        match r with
        | Ret a => (inr a, w)
        | Throw error => (inl error, w)
        | Crash | Stuck | Cancelled => (inl CoreError_ActorStopped, with_client (Some client) true w)
        end
  | None => (inl CoreError_ActorStopped, w)
  end.

(** The events of the client, in order; after the last one nothing arrives. *)
Definition next_event (w : Running) : Received * Running :=
  match Running_client w with
  | Some client =>
      match Client_events client !! Running_seen w with
      | Some event => (Received_Event event, with_seen (S (Running_seen w)) w)
      | None => (Received_Deadline, w)
      end
  | None => (Received_Closed, w)
  end.

Definition no_process : os_run :=
  mkOsRun true DeadlinePassed false DeadlinePassed false (inr NotFound) false false
    false false DeadlinePassed [] false false.

#[global] Instance running_companion : Companion Running := {
  comp_open profile connect_timeout request_timeout w :=
    match open_client (Running_links w) profile connect_timeout request_timeout with
    | Ok client => (Ok (), with_client (Some client) false w)
    | Err error => (Err error, w)
    | Panic => (Panic, w)
    end;
  comp_request A command w := run_request command w;
  comp_select A command w :=
    if default false (head (Running_interrupts w)) then (None, w)
    else
      let '(r, w) := run_request command (with_interrupts (tail (Running_interrupts w)) w) in (Some r, w);
  comp_event w := next_event w;
  comp_select_event w :=
    if default false (head (Running_interrupts w)) then (None, w)
    else
      let '(r, w) := next_event (with_interrupts (tail (Running_interrupts w)) w) in
      (match r with Received_Deadline => None | _ => Some r end, w);
  comp_cancel_pending w := w;
  comp_cancelled w := (default false (head (Running_interrupts w)),
                       if default false (head (Running_interrupts w)) then w
                       else with_interrupts (tail (Running_interrupts w)) w);
  comp_handler_failed w := Running_handler_failed w;
  comp_sleep duration w := (default false (head (Running_interrupts w)), w);
  comp_clock w := (default None (head (Running_clocks w)),
                   mkRunning (Running_links w) (Running_client w) (Running_stopped w) (Running_seen w) (Running_interrupts w)
                     (Running_handler_failed w) (tail (Running_clocks w)) (Running_uuids w) (Running_os w)
                     (Running_fuel w));
  comp_nonce w := (option_map (Z.mul 1000000) (default None (head (Running_clocks w))), 0%Z, w);
  comp_uuid w := (default 0%Z (head (Running_uuids w)),
                  mkRunning (Running_links w) (Running_client w) (Running_stopped w) (Running_seen w) (Running_interrupts w)
                    (Running_handler_failed w) (Running_clocks w) (tail (Running_uuids w)) (Running_os w)
                    (Running_fuel w));
  comp_os w := (default no_process (head (Running_os w)),
                mkRunning (Running_links w) (Running_client w) (Running_stopped w) (Running_seen w) (Running_interrupts w)
                  (Running_handler_failed w) (Running_clocks w) (Running_uuids w) (tail (Running_os w))
                  (Running_fuel w))
}.
End transport.

(** ** Valid profiles have clients *)

(** The demo row is a row the companion keeps, so every scenario is seeded within the
    companion's bounds. *)
Lemma demo_row_kept row : make_contact_row demo_contact = Ok row → is_bytes row ∧ row_routed row.
Proof.
  intros Hrow. vm_compute in Hrow. injection Hrow as <-.
  split; [apply (bool_decide_unpack _); by vm_compute|]. exists 255%Z. split; [done|]. vm_compute. lia.
Qed.
Lemma demo_fixture_ready scenario : ∃ s, demo_fixture scenario = Ok s ∧ state_bounded true s.
Proof.
  assert (is_Ok (demo_companion scenario) = true) as Hok by (destruct scenario; by vm_compute).
  unfold demo_fixture. destruct (demo_companion scenario) as [s| |] eqn:Hs; [|done..]. exists s. split; [done|]. clear Hok.
  assert (state_bounded true (with_capacities (mkCapacities 256 128 4 4))) as H0
    by (apply with_capacities_bounded; split; vm_compute; done).
  revert Hs H0. unfold demo_companion. generalize (with_capacities (mkCapacities 256 128 4 4)). intros s0 Hs H0. revert Hs.
  destruct (make_contact_row demo_contact) as [row| |] eqn:Hrow; [|done..]. apply demo_row_kept in Hrow as [Hbytes Hrow]. cbn [mbind outcome_bind].
  destruct (set_contacts [row] s0) as [s1| |] eqn:H1; [|done..]. cbn [mbind outcome_bind].
  eapply (step_bounded true row_routed) in H0; [|done|eapply step_set_contacts; [| |exact H1]; by apply Forall_cons_2].
  destruct (make_direct_message_packet 255 (str_bytes "Demo direct packet for deterministic CLI tests")) as [message| |]; [|done..].
  cbn [mbind outcome_bind]. destruct (push_sync_message message _) as [s2| |] eqn:H2; [|done..]. cbn [mbind outcome_bind].
  eapply (step_bounded true row_routed) in H0; [|done|apply (step_session _ DEMO_CONTACT_KEY true)].
  eapply (step_bounded true row_routed) in H0; [|done|eapply step_push_sync; exact H2].
  pose proof (step_bounded true row_routed _ _ (λ _ _ Hr, Hr) (step_configure _ [0x12; 0x34; 0x56; 0x78]%Z 1000
    (match scenario with AckTimeout => false | _ => true end) s2 eq_refl) H0) as H3.
  revert H3. generalize (configure_send_txt_ack [0x12; 0x34; 0x56; 0x78]%Z 1000
    (match scenario with AckTimeout => false | _ => true end) s2). intros s3 H3.
  pose proof (step_bounded true row_routed _ _ (λ _ _ Hr, Hr) (step_idle_disconnect _ s3) H3) as H4.
  destruct scenario; cbn [mbind outcome_bind].
  - by intros [= <-].
  - intros [= <-]. exact (step_bounded true row_routed _ _ (λ _ _ Hr, Hr) (step_idle_mode _ _ _) H3).
  - destruct (make_direct_message_packet _ _) as [packet| |]; [|done..]. cbn [mbind outcome_bind]. intros Hp.
    exact (step_bounded true row_routed _ _ (λ _ _ Hr, Hr) (step_reconnect_push _ packet _ _ Hp) (step_bounded true row_routed _ _ (λ _ _ Hr, Hr) (step_fail_reconnects _ 2 _) H4)).
  - intros [= <-]. exact (step_bounded true row_routed _ _ (λ _ _ Hr, Hr) (step_fail_reconnects _ _ _) H4).
  - intros [= <-]. exact (step_bounded true row_routed _ _ (λ _ _ Hr, Hr) (step_send_disconnect _ _) H3).
Qed.

Lemma str_bytes_bytes_str s : is_bytes s → str_bytes (bytes_str s) = s.
Proof.
  intros Hs. unfold str_bytes, bytes_str. rewrite String.list_byte_of_string_of_list_byte, <- list_fmap_compose.
  induction Hs as [|b s Hb _ IH]; [done|]. simpl. f_equal; [|done].
  destruct (Byte.of_N (Z.to_N b)) as [x|] eqn:Hx; simpl.
  - apply Byte.to_of_N_iff in Hx. rewrite Hx. unfold is_u8, is_uint in Hb. lia.
  - apply Byte.of_N_None_iff in Hx. unfold is_u8, is_uint in Hb. lia.
Qed.

Lemma within_millis lo hi v : within lo hi v = true → (lo <= v <= hi)%Z.
Proof. unfold within. lia. Qed.

(** The names in a profile are strings. *)
Definition profile_wf (profile : DeviceProfile) : Prop :=
  match DeviceProfile_transport profile with
  | Transport_Ble id _ => is_bytes id
  | Transport_Serial port _ => is_bytes port
  | Transport_Tcp host _ => is_bytes host
  | Transport_Mock _ => True
  end.

Section opens.
Context {B : Type} `{BleProvider B} {V : Type} `{Transport V}.

Lemma operation_timeout_ok ms : (1 <= ms <= MAX_OPERATION_TIMEOUT_MS)%Z →
  ((from_millis ms =? 0) || (Domain.MAX_OPERATION_TIMEOUT <? from_millis ms))%Z = false.
Proof. unfold from_millis, Domain.MAX_OPERATION_TIMEOUT, MAX_OPERATION_TIMEOUT_MS, NANOS_PER_SEC. lia. Qed.

Lemma from_profile_valid (links : Links B V) profile ms : profile_wf profile →
  TransportConfig_validate (DeviceProfile_transport profile) = Ok () → (1 <= ms <= MAX_OPERATION_TIMEOUT_MS)%Z →
  match DeviceProfile_transport profile with
  | Transport_Mock scenario => ∃ kind v, parse_scenario scenario = Some kind ∧ Links_fixture links kind = Ok v
  | _ => True
  end → ∃ t, from_profile links profile (from_millis ms) = Ok t.
Proof.
  intros Hwf Hv Hms Hmock. unfold from_profile, profile_wf, TransportConfig_validate in *.
  pose proof (operation_timeout_ok ms Hms) as Ht.
  destruct (DeviceProfile_transport profile) as [id pin|port baud|host port|scenario].
  - unfold BleTransport_new, validate_nonempty, validate_timeout. rewrite str_bytes_bytes_str by done.
    destruct (trim_is_empty id); [done|].
    cbn [mbind outcome_bind]. rewrite Ht. simpl. eauto.
  - unfold SerialTransport_new, Target_validate, validate_nonempty, validate_nonzero, validate_timeout.
    rewrite str_bytes_bytes_str by done. destruct (trim_is_empty port); [done|]. destruct (baud =? 0)%Z; [done|].
    cbn [mbind outcome_bind]. rewrite Ht. simpl. eauto.
  - unfold TcpTransport_new, Target_validate, validate_nonempty, validate_nonzero, validate_timeout.
    rewrite str_bytes_bytes_str by done. destruct (trim_is_empty host); [done|]. destruct (port =? 0)%Z; [done|].
    cbn [mbind outcome_bind]. rewrite Ht. simpl. eauto.
  - destruct Hmock as (kind & v & Hk & Hf). unfold seeded_virtual_companion. rewrite Hk. simpl. rewrite Hf.
    simpl. eauto.
Qed.

Lemma request_timeout_valid tls c name profile path m d n :
  Config_validate tls c = Ok () → Config_device_profiles c !! name = Some profile →
  ∃ ms, request_timeout (mkSelectedProfile c name profile path m d n) = from_millis ms ∧
        (1 <= ms <= MAX_OPERATION_TIMEOUT_MS)%Z.
Proof.
  intros (Hp & _ & Ht & _)%Config_validate_iff Hl. destruct (Hp name profile Hl) as [_ Hv].
  unfold TimeoutSettings_validate in Ht. destruct (within 1 _ (Timeout_connect_timeout_ms _)); [|done].
  destruct (within 1 _ (Timeout_request_timeout_ms _)) eqn:Hr; [|done]. apply within_millis in Hr.
  unfold request_timeout. simpl. unfold DeviceProfile_validate in Hv.
  destruct (TransportConfig_validate _) as [[]| |]; simpl in Hv; try done.
  destruct (DeviceProfile_transport_overrides profile) as [o|]; simpl in *; [|by eauto].
  unfold TransportOverrides_validate in Hv. destruct (Overrides_request_timeout_ms o) as [v|]; simpl in *; [|by eauto].
  destruct (within 1 _ v) eqn:Hw; [|done]. apply within_millis in Hw. eauto.
Qed.
End opens.

(** whatever profile of a valid document a command selects, its client can be
    made: neither the transport nor the timeouts are refused, since the document was
    validated against the same bounds.  Only a mock profile can still fail, when its
    scenario is unknown. *)
Theorem valid_profile_has_client {B} `{BleProvider B} {V} `{Transport V} (links : Links B V) tls c name profile
    path m d n :
  Config_validate tls c = Ok () → Config_device_profiles c !! name = Some profile → profile_wf profile →
  let selected := mkSelectedProfile c name profile path m d n in
  let made := open_client links profile (connect_timeout selected) (request_timeout selected) in
  match DeviceProfile_transport profile with
  | Transport_Mock scenario => ∀ kind v, parse_scenario scenario = Some kind → Links_fixture links kind = Ok v →
      ∃ client, made = Ok client
  | _ => ∃ client, made = Ok client
  end.
Proof.
  intros Hc Hl Hwf selected made.
  destruct (request_timeout_valid tls c name profile path m d n Hc Hl) as (ms & Hms & Hb).
  apply Config_validate_iff in Hc as (Hp & _ & Ht & _). destruct (Hp name profile Hl) as [_ Hv].
  assert (TransportConfig_validate (DeviceProfile_transport profile) = Ok ()) as Htr.
  { unfold DeviceProfile_validate in Hv. by destruct (TransportConfig_validate _) as [[]| |]. }
  assert (1 <= Timeout_connect_timeout_ms (Config_timeout c) <= MAX_OPERATION_TIMEOUT_MS)%Z as Hcb.
  { unfold TimeoutSettings_validate in Ht. destruct (within 1 _ (Timeout_connect_timeout_ms _)) eqn:Hw; [|done].
    by apply within_millis. }
  assert ((∃ t, from_profile links profile (connect_timeout selected) = Ok t) → ∃ client, made = Ok client) as Hmade.
  { intros [t Hf]. unfold made, open_client. rewrite Hf. cbn [map_err mbind outcome_bind]. subst selected. rewrite Hms.
    unfold with_timeout, validate_operation_timeout. rewrite operation_timeout_ok by done. simpl. eauto. }
  pose proof (from_profile_valid links profile _ Hwf Htr Hcb) as Hf. change (from_millis _) with (connect_timeout selected) in Hf.
  destruct (DeviceProfile_transport profile); auto. intros kind v Hk Hv'. apply Hmade, Hf. eauto.
Qed.
