(* ===== verification/CliSamples.v ===== *)
(** * Command line: runs of commands on concrete inputs

    Mock profiles whose companion is the scripted transport, and the virtual companion
    the code seeds: the client answers the
    commands, end to end. *)

From S2P Require Import Prelude Text Order Floats Domain Samples Packet Framing Transport Discovery Framed Serial Ble.
From S2P Require Import BleProps Client Managed Hooks HookRuntime HookProps Store History HistoryProps Paths MqttConfig.
From S2P Require Import Config ConfigProps CliOutput CliArgs Suggest Resolve Batch Session CliConfig ProfileProps.
From S2P Require Import Workflow Send Commands CommandProps Watch Doctor Consent ChatSession ChatProps RemoteCli.
From S2P Require Import MqttCli Dispatch Unattended VirtualCompanion CliTransport.

Module SampleCommands.

Definition desk : DeviceProfile := mkDeviceProfile (Transport_Mock (str_bytes "demo")) None None.
Definition document : Config :=
  mkConfig 1 (Some (str_bytes "desk")) {[str_bytes "desk" := desk]}
    TimeoutSettings_default (mkHistorySettings false 1000) HookSettings_default MqttSettings_default
    QueueSettings_default.

(** The one document of this host. *)
#[local] Instance one_document : ConfigToml := {
  toml_value := Config;
  toml_from_str s := Ok document;
  toml_version v := Some (Config_version v);
  toml_config v := Ok v;
  toml_legacy v := Err "not a legacy document";
  toml_to_string_pretty c := Ok (str_bytes "version = 1");
  toml_effective_to_string_pretty e := Ok []
}.
#[local] Instance plain_json : CliJson := λ _ _ _ _, Ok [str_bytes "{}"].
#[local] Instance ascii_tables : UnicodeTables := to_ascii_lowercase.

(** The answer to the handshake, with the name [Mesh]. *)
Definition self_info : bytes :=
  [5; 1; 20; 22]%Z ++ replicate 32 7%Z ++ replicate 8 0%Z ++ [0; 0; 0; 0; 0; 0; 0; 0; 0; 0; 0; 0; 11; 5]%Z
    ++ str_bytes "Mesh".
Definition links (answers : list bytes) : Links (bool * nat) ScriptedTransport :=
  mkLinks _ _ (mkWorld (true, 0) []) [] [] [] (λ _, Ok (mkScripted TransportKind_Scripted false answers [])).
Abbreviation desk_world := (Running (B := bool * nat) (V := ScriptedTransport)).
Definition world (answers : list bytes) (interrupts : list bool) : desk_world :=
  mkRunning (links answers) None false 0 interrupts false [Some 1700000000000%Z] [1; 2]%Z [] 50.
Definition started (w : desk_world) : Env desk_world :=
  mkEnv w (mkFs {[ "config.toml" := str_bytes "version = 1" ]} [] []) None [] (mkInput [] None)
    (mkSink [] []) (mkSink [] []) [].
Definition host : Host := mkHost Platform_Linux (λ _, None) (Some (str_bytes "/home/user")) SampleConfig.no_tls ∅ true 1 42.
Definition options : Cli :=
  mkCli None (Some (str_bytes "config.toml")) None Output_Human true true 5000000000 Color_Auto false 0 Command_Status.
Definition to_channel : SendArgs := mkSendArgs (str_bytes "3") (str_bytes "hello") true false None.
End SampleCommands.
Import SampleCommands.
#[local] Existing Instances one_document plain_json ascii_tables.

(** A message to a channel: accepted, reported, and the session is over. *)
Example channel_message_sent :
  let '(r, e) := send host options to_channel (started (world [self_info; [0%Z]] [])) in
  r = Ok () ∧ Sink_written (Env_stdout e) = str_bytes "Queued message to 3" ++ [0x0a]%Z ∧
  length (Env_log e) = 8.
Proof. vm_compute. by split_and!. Qed.

(** Interrupted once the companion is connected: nothing is transmitted. *)
Example interrupted_before_sending :
  let '(r, e) := send host options to_channel (started (world [self_info; [0%Z]] [false; true])) in
  r = Err (CliError_new Exit_Interrupted "interrupted by user") ∧ Sink_written (Env_stdout e) = [] ∧
  length (Env_log e) = 5.
Proof. vm_compute. by split_and!. Qed.

Definition clock_of_device (session : CompanionSession) (info : SelfInfo) : cli desk_world u32 :=
  require ActorCommand_GetTime.

Lemma session_taken_back_witness :
  let '(r, e) := with_session host (mkSelectedProfile document (str_bytes "desk") desk "config.toml" false None false)
                   "device clock" clock_of_device (started (world [self_info; [9; 1; 0; 0; 0]%Z] [])) in
  ∃ events s, Env_log e = events ∧ advance at_rest events = Some s ∧ (r ≠ Panic → over s).
Proof.
  destruct (session_taken_back (W := desk_world) host
    (mkSelectedProfile document (str_bytes "desk") desk "config.toml" false None false) "device clock"
    clock_of_device) as [Hf _].
  { intros session info. by eapply follows_require. }
  exact (Hf (started (world [self_info; [9; 1; 0; 0; 0]%Z] []))).
Defined.

Lemma valid_profile_has_client_witness :
  let selected := mkSelectedProfile document (str_bytes "desk") desk "config.toml" false None false in
  ∃ client, open_client (links []) desk (connect_timeout selected) (request_timeout selected) = Ok client.
Proof.
  pose proof (valid_profile_has_client (links []) SampleConfig.no_tls document (str_bytes "desk") desk
    "config.toml" false None false ltac:(vm_compute; reflexivity) ltac:(vm_compute; reflexivity) I Demo
    (mkScripted TransportKind_Scripted false [] []) ltac:(vm_compute; reflexivity) eq_refl) as Ho.
  exact Ho.
Defined.

(** A scope whose selection fails may be in effect.  [send] selects the default scope
    again before it shuts down; [device advertise] shuts down without that. *)
Definition scoped_message : SendArgs := mkSendArgs (str_bytes "3") (str_bytes "hello") true false (Some (str_bytes "*")).
Definition scoped_advert : DeviceAdvertiseArgs := mkDeviceAdvertiseArgs true (Some (str_bytes "*")).
Definition refusing : Env desk_world := started (world [self_info; [1; 1]%Z; [0%Z]] []).

Example failed_selection_is_reset : is_Some (advance at_rest (Env_log (send host options scoped_message refusing).2)).
Proof. vm_compute. eauto. Qed.
Example failed_selection_is_left :
  is_Ok (device_advertise host options scoped_advert refusing).1 = false ∧
  advance at_rest (Env_log (device_advertise host options scoped_advert refusing).2) = None.
Proof. vm_compute. by split. Qed.

(** A chat whose lines are there whenever they are asked for. *)
#[local] Instance lines_only : ChatWorld desk_world := {
  chat_ready w := (mkChatReady false None true, w);
  chat_try_event w := (Try_Empty, w);
  chat_reader w := (true, w)
}.
Definition lines (ls : list string) : bytes := ls ≫= λ l, str_bytes l ++ [0x0a]%Z.
Definition typed (ls : list string) (e : Env desk_world) : Env desk_world :=
  mkEnv (Env_world e) (Env_fs e) (Env_hooks e) (Env_tracker e) (mkInput (lines ls) None) (Env_stdout e)
    (Env_stderr e) (Env_log e).
(** A contact whose name is [7], as the device lists it. *)
Definition named_seven : list bytes :=
  [[2; 1; 0; 0; 0]%Z;
   [3]%Z ++ replicate 32 9%Z ++ [1; 0; 255]%Z ++ replicate 64 0%Z ++ str_bytes "7" ++ replicate 31 0%Z
     ++ replicate 16 0%Z;
   [4; 0; 0; 0; 0]%Z].

(** [/to 7] selects that contact, and yet the text is broadcast on channel 7. *)
Example numeric_name_is_broadcast :
  let '(r, e) := chat host 20 options (mkChatArgs (Some (str_bytes "3")) true)
                   (typed ["/to 7"; "hello"; "/quit"]
                      (started (world ([self_info; [10%Z]] ++ named_seven ++ [[0%Z]]) []))) in
  r = Ok () ∧ advance chat_rest (Env_log e) = Some (gone [mkDelivery (inl 7%Z) (str_bytes "hello") true]).
Proof. vm_compute. by split. Qed.

(** Without [--yes]. *)
Definition careful : Cli :=
  mkCli None (Some (str_bytes "config.toml")) None Output_Human true false 5000000000 Color_Auto false 0 Command_Status.

(** ** The demo companion *)

(** The same commands over the virtual companion the mock profile seeds. *)
Abbreviation demo_world := (Running (B := bool * nat) (V := VirtualCompanionState)).
Definition demo (scenario : Scenario) : Env demo_world :=
  mkEnv (mkRunning (mkLinks _ _ (mkWorld (true, 0) []) [] [] [] (λ _, demo_fixture scenario)) None false 0 [] false
           [Some 1700000000000%Z] [1; 2]%Z [] 50)
    (mkFs {[ "config.toml" := str_bytes "version = 1" ]} [] []) None [] (mkInput [] None) (mkSink [] []) (mkSink [] []) [].
Definition to_alice : SendArgs := mkSendArgs (str_bytes "Alice") (str_bytes "hello") false true None.
(** The commands the companion has received. *)
Definition received (e : Env demo_world) : list bytes :=
  match Running_client (Env_world e) with
  | Some client =>
      match Client_transport client with CliTransport_VirtualCompanion s => Virtual_outbound s | _ => [] end
  | None => []
  end.
Definition message_to_alice : bytes := [2; 0; 0; 0; 0; 0; 0]%Z ++ replicate 6 0x22%Z ++ str_bytes "hello".

(** The message is delivered and acknowledged; without an acknowledgement the command
    times out, the message having gone out once; and when the link is lost before the
    message is accepted, it never goes out. *)
Example demo_message_acknowledged :
  let '(r, e) := send host options to_alice (demo Demo) in
  r = Ok () ∧ Sink_written (Env_stdout e) = str_bytes "Sent to Alice and received acknowledgement" ++ [0x0a]%Z ∧
  received e = [APP_START_COMMAND; [4]%Z; message_to_alice].
Proof. vm_compute. by split_and!. Qed.
Example demo_message_times_out :
  let '(r, e) := send host options to_alice (demo AckTimeout) in
  r = Err (with_hint (CliError_new Exit_Timeout "the bounded device operation timed out")
             "Check the selected profile and try a longer configured timeout.") ∧
  received e = [APP_START_COMMAND; [4]%Z; message_to_alice].
Proof. vm_compute. by split. Qed.
Example demo_message_unsent :
  let '(r, e) := send host options to_alice (demo SendDisconnect) in
  is_Ok r = false ∧ received e = [APP_START_COMMAND; [4]%Z].
Proof. vm_compute. by split. Qed.

(** ** A command that runs commands *)

#[local] Instance no_chat : ChatWorld demo_world := {
  chat_ready w := (mkChatReady false None false, w);
  chat_try_event w := (Try_Empty, w);
  chat_reader w := (true, w)
}.
#[local] Instance no_vault : Vault demo_world := {
  vault_keyring w := (mkKeyring (λ _ _, Err "locked") (λ _ _, Err "locked") (λ _ _ _, Err "locked") (λ _ _, Err "locked"), w);
  vault_worker w := (true, w);
  vault_prompt w := (None, w)
}.
#[local] Instance no_broker : Broker demo_world := {
  broker_canonicalize path w := (None, w);
  broker_connect config password w := (Ok (), w);
  broker_publish publication w := (Ok (), w);
  broker_notice w := (None, w);
  broker_cancel w := w;
  broker_join w := (Joined_Timeout, w);
  broker_select deadline w := (Bridge_Signal true, w);
  broker_now w := (0%Z, w)
}.
Definition missing : IoError := mkIoError NotFound "not found".
Definition with_command (args : Cli) (command : Command) : Cli :=
  mkCli (Cli_profile args) (Cli_config args) (Cli_data_dir args) (Cli_output args) (Cli_non_interactive args) (Cli_yes args)
    (Cli_timeout args) (Cli_color args) (Cli_quiet args) (Cli_verbose args) command.
(** The one command line this parser takes: the path of a contact, reset. *)
Definition reset_only : Surroundings () :=
  mkSurroundings () (mkSecretFile (Err "denied") (Err "denied") (Err "denied")) (mkLegacyFile false None None)
    (mkScriptFile (Err missing) (Err missing) (Err missing))
    (λ words, match words with
              | [_; _; _; _; contact] =>
                  Ok (with_command options (Command_Contacts (mkContactsArgs
                        (Some (ContactCommand_Path (ContactPath_Reset contact))) None None false)))
              | _ => Err "usage"
              end)
    (λ _, []) (mkCommandTree "meshquill" []) (λ _ _, Ok []) (λ output, if bool_decide (output = []) then None else Some ()).
Definition reset_all : Cli :=
  with_command options
    (Command_Batch (Batch_Contacts (mkBatchContactsArgs (str_bytes "all") (str_bytes "path-reset") false))).

(** The contacts are listed over a connection of their own, then the command of each is
    dispatched over its own; the report follows them. *)
Example batch_resets_every_path :
  let '(r, e) := dispatch host (λ _ w, (Ok [], w)) (λ w, (Ok [], w)) (λ _ w, (None, w)) reset_only 20 1 reset_all (demo Demo) in
  r = Ok () ∧ received e = [APP_START_COMMAND; [4]%Z; [13]%Z ++ replicate 32 0x22%Z] ∧
  length (List.filter (λ event, match event with Ev_Request ActorCommand_Connect true => true | _ => false end) (Env_log e)) = 2 ∧
  Sink_written (Env_stdout e) = str_bytes "Applied operation to 1 contact(s) for 'path-reset'." ++ [0x0a]%Z
    ++ str_bytes "Alice" ++ [0x09]%Z ++ str_bytes "client" ++ [0x09]%Z ++ str_bytes "222222222222" ++ [0x0a]%Z.
Proof. vm_compute. by split_and!. Qed.

(** Without anybody to ask, the same batch lists the contacts and stops there. *)
Definition reset_unasked : Cli :=
  with_command careful
    (Command_Batch (Batch_Contacts (mkBatchContactsArgs (str_bytes "all") (str_bytes "path-reset") false))).
Lemma unattended_destroys_nothing_witness :
  let run := dispatch host (λ _ w, (Ok [], w)) (λ w, (Ok [], w)) (λ _ w, (None, w)) reset_only 20 1 reset_unasked (demo Demo) in
  unattended host reset_unasked ∧
  run.1 = Err (with_hint (CliError_new Exit_Denied "confirmation is required to reset the paths for all filtered batch contacts")
                 "Review the operation and rerun it with --yes.") ∧
  received run.2 = [APP_START_COMMAND; [4]%Z] ∧ Forall harmless (Env_log run.2).
Proof.
  assert (unattended host reset_unasked) as Hu by (by vm_compute).
  destruct (unattended_destroys_nothing (W := demo_world) host (λ _ w, (Ok [], w)) (λ w, (Ok [], w)) (λ _ w, (None, w))
    reset_only 20 1 reset_unasked Hu) as [Hh _].
  split; [exact Hu|]. split; [vm_compute; reflexivity|]. split; [vm_compute; reflexivity|].
  destruct (Hh (demo Demo)) as (events & Hl & Hf). rewrite Hl. exact Hf.
Defined.

(** ** A question is not escaped *)

(** The name of a contact is a control sequence, and the question shows it. *)
Definition asked_host : Host :=
  mkHost (Host_platform host) (Host_env host) (Host_cwd host) (Host_tls host) (Host_parent_env host) true
    (Host_runtime_id host) (Host_pid host).
Definition interactive : Cli :=
  mkCli None (Some (str_bytes "config.toml")) None Output_Human false false 5000000000 Color_Auto false 0 Command_Status.
Example question_not_escaped :
  let '(_, e) := confirm asked_host interactive ("remove contact " +:+ bytes_str [0x1b; 0x5b; 0x32; 0x4a]%Z) (demo Demo) in
  Sink_written (Env_stderr e) = str_bytes "Confirm: remove contact " ++ [0x1b; 0x5b; 0x32; 0x4a]%Z ++ str_bytes "? [y/N] ".
Proof. vm_compute. reflexivity. Qed.

(** ** Remote administration *)

(** The companion has a session with Alice, or not. *)
Definition administered (session : bool) : Env demo_world :=
  mkEnv (mkRunning (mkLinks _ _ (mkWorld (true, 0) []) [] [] []
           (λ _, s ← demo_fixture Demo; Ok (set_remote_session DEMO_CONTACT_KEY session s))) None false 0 [] false
           [Some 1700000000000%Z] [1; 2]%Z [] 50)
    (Env_fs (demo Demo)) None [] (mkInput [] None) (mkSink [] []) (mkSink [] []) [].
Definition alice_status (session : bool) : outcome CliError () * Env demo_world :=
  remote host options (Remote_Status (str_bytes "Alice")) (administered session).
(** Her status is asked for only with a session. *)
Example status_needs_session :
  (alice_status true).1 = Ok () ∧
  received (alice_status true).2 =
    [APP_START_COMMAND; [4]%Z; [28]%Z ++ DEMO_CONTACT_KEY; [27]%Z ++ DEMO_CONTACT_KEY] ∧
  (alice_status false).1 =
    Err (with_hint (CliError_new Exit_Authentication "no authenticated remote session exists for 'Alice'")
           "Run `meshquill remote login CONTACT` first.") ∧
  received (alice_status false).2 = [APP_START_COMMAND; [4]%Z; [28]%Z ++ DEMO_CONTACT_KEY].
Proof. vm_compute. by split_and!. Qed.
